(* ===== verification/_CoqProject ===== *)
-Q . S2P
Prelude.v
Utf8.v
Glob.v
Clock.v
Common.v
Expiration.v
Revocation.v
Capability.v
Delegation.v
Json.v
Guard.v
Quorum.v
TrustOverlay.v
Base64.v
Crypto.v
Cbor.v
BinaryFormat.v
Canonical.v
CanonicalText.v
Framing.v
PolicyEngine.v
Engines.v
Session.v
SessionProofs.v
Handshake.v
Carrier.v
Packet.v
Signed.v
Relay.v
OfflineApproval.v
Permission.v
Migration.v
Simulation.v
Federation.v
Chain.v
ActorId.v
Evidence.v
Bundle.v
NoStdPacket.v
Boot.v
Receipts.v
ApprovalQueue.v
Profile.v
Jws.v
Bridges.v
Webauthn.v
OAuth.v
Gnap.v
Tls.v
Ocsp.v
Mesh.v
Did.v
Http.v
Envoy.v
Webhook.v
Proxy.v
Adapters.v
Vault.v
FileStore.v
Yaml.v
YamlProofs.v
Rpc.v
RpcProofs.v
Registry.v
Plugin.v
Manifests.v
Aws.v
CloudTokens.v
SecretStores.v
SqlStores.v
Agents.v
ReplayWindow.v
Constrained.v
NonceCache.v
Orl.v
