(* ===== verification/Prelude.v ===== *)
(** * TrustForge: a verification development

    TrustForge gives people, services and software agents verifiable
    identities, decides what they may do, and keeps evidence of what they did.
    The library models the Rust implementation under [src/crates]: the protocol
    crate [tf-types], the embedded crate [tf-core-no-std], the file store
    [tf-store-file] and the stores in databases, the session carrier
    [tf-session], the HTTP client [tf-transport], the enforcing proxy [tf-proxy],
    the policy back ends, the framework adapters, the cloud bridges and the boot
    loader; of [src/tools] the Envoy filter.  The definitions that model code keep
    the source's names where possible, in a [Module] per component.

    ** The parts and how they interact

    An actor is known by an identity document.  It comes from a credential of
    another system through a bridge (a token, a certificate, a hardware key, a
    mesh header, a DID).  Two actors talk over an encrypted session, on which
    ProofRPC calls run; devices without a session exchange signed packets, with
    relays in between.  What an actor may do follows from a contract (guard), a
    policy manifest, delegations of capabilities, approvals and quorums.  What
    happened is recorded as a hash chain of proof events, kept in a store, and
    handed out as evidence or sealed bundles.  Documents
    are signed over canonical JSON, embedded packets over their length-prefixed
    fields.

    ** Foundations
    - [Prelude] (this file): results, options, strings as bytes, lists, hints and
      tactics; [Utf8]: [str] as characters; [Json]: [serde_json::Value];
      [Common]: [generated/common.rs]; [Clock]: the timestamps of [packet.rs],
      [relay.rs] and others.
    - [Base64] ([encoding.rs]), [Cbor] ([cbor.rs]), [BinaryFormat]
      ([binary_format.rs]), [Framing] ([format.rs]), [Canonical] and
      [CanonicalText] ([canonical.rs]), [Yaml] and [YamlProofs] ([yaml.rs]),
      [Glob] ([glob.rs]).  Decoders invert
      encoders and accept nothing else, they end on every input, canonical text
      determines the value, patterns match the language they document.
    - [Crypto] ([crypto.rs], [crypto_pq.rs]): the wrappers over the
      cryptographic crates; [Signed]: documents signed over canonical JSON, as
      the class [SignedDoc] that six document types instantiate.

    ** Authority
    - [Capability] ([capability.rs]), [Delegation] ([delegation.rs]),
      [Expiration] ([expiration.rs]), [Revocation] ([revocation.rs]): which
      chains are accepted, and that a chain never widens what it grants.
    - [Guard] ([guard.rs]), [PolicyEngine] ([policy_engine.rs]),
      [Permission] ([permission.rs]), [Profile] ([profile.rs],
      [envelope.rs]): exactly when an action is allowed.  [Engines] ([tf-cedar],
      [tf-rego]): the back ends of the policy dispatcher.
    - [ApprovalQueue] ([approval.rs]), [OfflineApproval]
      ([offline_approval.rs]), [Quorum] ([quorum.rs]): queues and votes as
      sequences of operations in every interleaving; approval fails closed.
    - [Plugin] ([plugin.rs]): which manifests load and what a call runs.
      [Manifests] ([tf_manifests.rs]): the files of a project and the feature gate
      made of them.
    - [TrustOverlay] ([trust_overlay.rs]), [ActorId] ([actor_id.rs],
      [instance_id.rs], [trust_domain.rs]), [Federation] ([federation.rs]).

    ** Communication
    - [Session], [SessionProofs], [Handshake] ([session.rs]): the handshake
      leaves both ends with mirrored states and authenticates the peer; mirrored
      states refine a pair of first-in first-out queues, which a frame that the
      peer cannot read blocks; rekeying keeps them mirrored.  [Migration] ([session_migration.rs]): bindings and ratchet.
    - [Carrier] ([tf-session]): two programs attach a session to a transport;
      a listener that is there from the start gets a prefix of the readable
      frames sent, in order, under every interleaving and failure.
    - [Rpc], [RpcProofs] ([rpc.rs]): client and server as state machines, with
      the JSON form of their frames; only authorized handlers run, streams arrive
      in order and, but for null items, complete.
    - [Packet] ([packet.rs]), [Relay] ([relay.rs]), [Receipts], [Constrained]
      ([constrained.rs]); [NoStdPacket], [NonceCache], [Orl]
      ([tf-core-no-std]): packets are accepted exactly when signed, in time and
      not seen.  [ReplayWindow] is the interface of the three receivers.
      [Boot] ([tf-bootloader-example]): which images a device starts, with the
      sums of lengths at 32 bits.
    - [Http] ([tf-transport]): requests, framing of answers, the receive loop.

    ** Identities from other systems
    - [Jws] ([jws.rs]) under [OAuth] ([bridge_oauth.rs]) and [Gnap]
      ([bridge_gnap.rs]); [Tls] and [Ocsp] ([bridge_tls.rs]); [Bridges]
      ([bridges.rs], [bridge_webauthn.rs]) and [Webauthn]
      ([webauthn_attestation.rs]); [Mesh] ([bridge_spiffe.rs],
      [bridge_service_mesh.rs]); [Did] ([bridge_did.rs]).  The theorems say what
      an accepted credential proves, and some prove what it does not.
    - [Webhook] ([bridge_webhook.rs]), [Agents] ([bridge_a2a.rs],
      [bridge_mcp.rs], [bridge_matrix.rs], [bridge_grpc.rs]) and [Registry]
      ([bridges_registry.rs]): deliveries, tools and users of other systems, and
      which bridge an issuer gets.
    - [Aws], [CloudTokens] (Google Cloud and Azure) and [SecretStores] (Vault and
      Doppler), all of [crates/bridges]: what an identity of a cloud rests on, how
      long keys are trusted, what becomes of foreign policies and roles.
    - [Proxy] ([tf-proxy]): what reaches the service behind the proxy.  [Envoy]
      ([tools/native/envoy]): the filter inside Envoy.
    - [Adapters] ([adapters/tf-decide-client], [axum], [actix-web], [rocket],
      [tonic]): the gate in front of a service, as four frameworks run it.

    ** Evidence and storage
    - [Chain] ([chain.rs]), [Evidence] ([evidence.rs]), [Bundle]
      ([bundle.rs]): a hash commits to the history, as an explicit collision
      otherwise.
    - [FileStore] ([tf-store-file], [store.rs]), [Vault] ([vault.rs]): a write
      may stop at any step; what the next start finds is proved.
    - [SqlStores] ([tf-store-sqlite], [tf-store-postgres], [tf-store-mysql],
      [tf-revoke-redis]): over any database that keeps the documented laws of the
      statements sent, the stores refine a ledger, a revocation map and a map of
      bundles.
    - [Simulation] ([simulation.rs]): the twelve scenarios of the harness, run
      on the models of the components they drive.

    ** Conventions
    - [Result] is [result], [Option] is [option], a panic is a value ([None],
      [Panic], [Panics], as each file says).  [&mut self] methods return the new
      state.  Integers are [Z]; widths and wrap-around are written where the
      source can reach them, in the arithmetic of a release build.
    - Locks make operations atomic, so concurrent executions are sequences of
      operations; awaiting tasks and timers are steps of their own.
    - Clocks and random bytes are arguments.
    - Code that is not in the repository (cryptographic crates, serde, regex,
      x509-parser, Unicode tables) is a record or section variable; what its
      documentation promises are named laws.  A theorem that needs them has a
      witness at a concrete instance.  No theorem assumes that a hash has no
      collision: where it matters the collision is exhibited.

    ** Bounds and fuel
    - The recursions on fuel are given enough of it, and this is proved: CBOR
      items (the input length, depth 128), YAML nodes (twice the weight plus
      one) and flow values (twice the length plus one), Merkle trees (the number
      of leaves), chunked bodies (the length plus one), PEM, OCSP and protobuf
      loops (the length), revocation lists (the entry count), the certificate
      walk ([max_chain_length], as in the source), the attaching of two carriers
      (six reads and writes).  [CanonicalText]'s reader, a device of its proofs,
      takes twice the length.
    - Timestamps are for the years 1970 to 9999, where the text order is the
      time order.  Sessions carry below 2^64 frames, a ratchet 2^64 messages, a
      relay counts 2^32 requests, RPC sequence numbers stay below 2^63, DER
      lengths have at most 8 bytes, base 58 texts are below 2^50 bytes, HTTP
      answers are below 2^63 bytes.
    - The laws of serde_json's reader hold below its recursion limit, that is
      for values nested less than 128 deep ([Json.json_depth]), and, where they
      speak of canonical text, for values without floating-point numbers; the
      theorems that need this say so.

    ** Not modelled
    - [generated/]: only the types the modelled code uses.  [bundle.rs]: the
      HTTP anchors, clients of outside services.
    - The listener, TLS set-up and telemetry of [tf-proxy].
    - The WASM plugins ([plugin_wasm.rs]), which the wasmtime library runs;
      connecting to databases, and the creation of tables in SQLite and Postgres.
    - [tf-otel], the metrics exporter, the embedded applications and hardware
      adapters and the WASM wrappers: input and output around the parts above, or
      clients of libraries.
    - Everything else under [src/tools] and [src/site] (TypeScript, Go, Swift,
      Kotlin and others): reimplementations of the same protocols, command-line
      tools, the daemon, the dashboard and the web site. *)

From stdpp Require Export base gmap strings list list_numbers pretty.
From Stdlib Require Export ZArith Lia.
From Stdlib Require Export Ascii.
From Stdlib Require String.

#[export] Set Default Goal Selector "!".
Open Scope Z_scope.

(** ** Results: Rust's [Result<A, E>] *)

Inductive result (E A : Type) : Type :=
| Ok (a : A)
| Err (e : E).
Arguments Ok {E A} a.
Arguments Err {E A} e.

#[export] Instance result_ret {E} : MRet (result E) := fun A a => Ok a.
#[export] Instance result_bind {E} : MBind (result E) := fun A B f m =>
  match m with Ok a => f a | Err e => Err e end.
#[export] Instance result_fmap {E} : FMap (result E) := fun A B f m =>
  match m with Ok a => Ok (f a) | Err e => Err e end.

Definition map_err {E F A} (f : E -> F) (m : result E A) : result F A :=
  match m with Ok a => Ok a | Err e => Err (f e) end.
Definition ok_or {E A} (o : option A) (e : E) : result E A :=
  match o with Some a => Ok a | None => Err e end.
Definition is_ok {E A} (m : result E A) : bool :=
  match m with Ok _ => true | Err _ => false end.
(** [Option::unwrap_or]. *)
Definition unwrap_or {A} (o : option A) (d : A) : A :=
  match o with Some a => a | None => d end.
(** [Option::or]. *)
Definition opt_or {A} (o p : option A) : option A :=
  match o with Some _ => o | None => p end.
(** [Option::filter]. *)
Definition opt_filter {A} (p : A -> bool) (o : option A) : option A :=
  match o with Some a => if p a then Some a else None | None => None end.

#[export] Instance result_eq_dec {E A} `{EqDecision E, EqDecision A} :
  EqDecision (result E A).
Proof. solve_decision. Defined.

Lemma bind_ok {E A B} (f : A -> result E B) m b :
  (m ≫= f) = Ok b <-> exists a, m = Ok a /\ f a = Ok b.
Proof.
  destruct m as [a|e]; simpl; split.
  - eauto.
  - intros (a' & [= <-] & H); exact H.
  - discriminate.
  - intros (a' & H & _); discriminate H.
Qed.

Lemma Ok_inj {E A} (a b : A) : @Ok E A a = Ok b -> a = b.
Proof. congruence. Qed.

Lemma ok_or_ok {E A} (o : option A) (e : E) a : ok_or o e = Ok a <-> o = Some a.
Proof. destruct o; simpl; split; congruence. Qed.

Lemma map_err_ok {E F A} (f : E -> F) (m : result E A) a : map_err f m = Ok a <-> m = Ok a.
Proof. destruct m; simpl; split; congruence. Qed.

(** ** Automation *)

Create HintDb tf.
#[export] Hint Resolve bind_ok ok_or_ok : tf.

(** Split the [Ok] equation of a monadic computation into its steps. *)
Ltac inv_ok :=
  repeat match goal with
  | H : (_ ≫= _) = Ok _ |- _ =>
      let x := fresh "x" in let H1 := fresh H in
      apply bind_ok in H as (x & H1 & H)
  | H : ok_or _ _ = Ok _ |- _ => apply ok_or_ok in H
  | H : map_err _ _ = Ok _ |- _ => apply map_err_ok in H
  | H : Ok _ = Ok _ |- _ => injection H as H; subst
  | H : mret _ = Ok _ |- _ => injection H as H; subst
  | H : Err _ = Ok _ |- _ => discriminate H
  | H : Ok _ = Err _ |- _ => discriminate H
  end.

(** Case on the innermost test of the goal or of a hypothesis. *)
Ltac case_test :=
  match goal with
  | |- context [if ?b then _ else _] => lazymatch b with
      | context [if _ then _ else _] => fail
      | _ => destruct b eqn:? end
  | H : context [if ?b then _ else _] |- _ => lazymatch b with
      | context [if _ then _ else _] => fail
      | _ => destruct b eqn:? end
  end.

(** Turn boolean tests on integers and strings into propositions. *)
Ltac bool_to_prop :=
  repeat match goal with
  | H : (_ && _)%bool = true |- _ => apply andb_true_iff in H as [? ?]
  | H : (_ || _)%bool = false |- _ => apply orb_false_iff in H as [? ?]
  | H : negb _ = true |- _ => apply negb_true_iff in H
  | H : negb _ = false |- _ => apply negb_false_iff in H
  | H : (_ <? _)%Z = true |- _ => apply Z.ltb_lt in H
  | H : (_ <? _)%Z = false |- _ => apply Z.ltb_ge in H
  | H : (_ <=? _)%Z = true |- _ => apply Z.leb_le in H
  | H : (_ <=? _)%Z = false |- _ => apply Z.leb_gt in H
  | H : (_ =? _)%Z = true |- _ => apply Z.eqb_eq in H
  | H : (_ =? _)%Z = false |- _ => apply Z.eqb_neq in H
  | H : (_ =? _)%string = true |- _ => apply String.eqb_eq in H
  | H : (_ =? _)%string = false |- _ => apply String.eqb_neq in H
  end.

(** ** Strings

    A Rust [String] is its UTF-8 bytes; [str] comparison is the
    lexicographic order of those bytes, which is [String.compare]. *)

Definition str_lt (a b : string) : bool := String.ltb a b.
Definition str_le (a b : string) : bool := negb (String.ltb b a).

Definition bytes_of_str (s : string) : list Z :=
  (fun c => Z.of_N (N_of_ascii c)) <$> String.list_ascii_of_string s.
Definition str_of_bytes (bs : list Z) : string :=
  String.string_of_list_ascii ((fun z => ascii_of_N (Z.to_N z)) <$> bs).

(** Number of bytes of a string ([str::len]). *)
Definition str_len (s : string) : Z := Z.of_nat (String.length s).
Definition str_is_empty (s : string) : bool := (s =? "")%string.

(** [[String]::join]. *)
Fixpoint str_join (sep : string) (l : list string) : string :=
  match l with
  | [] => ""
  | [s] => s
  | s :: l' => s +:+ sep +:+ str_join sep l'
  end.

(** [str::strip_prefix]. *)
Fixpoint strip_prefix (p s : string) : option string :=
  match p, s with
  | EmptyString, _ => Some s
  | String a p', String b s' => if Ascii.eqb a b then strip_prefix p' s' else None
  | _, _ => None
  end.

Definition is_u8 (b : Z) : Prop := 0 <= b < 256.
Abbreviation is_bytes := (Forall is_u8).

Lemma ascii_compare_refl a : Ascii.compare a a = Eq.
Proof. unfold Ascii.compare. apply N.compare_refl. Qed.

Lemma ascii_compare_eq a b : Ascii.compare a b = Eq -> a = b.
Proof.
  unfold Ascii.compare. intros H%N.compare_eq.
  rewrite <-(ascii_N_embedding a), <-(ascii_N_embedding b). by rewrite H.
Qed.

Lemma str_compare_refl s : String.compare s s = Eq.
Proof. induction s; simpl; [done|]. by rewrite ascii_compare_refl. Qed.

Lemma str_lt_irrefl s : str_lt s s = false.
Proof. unfold str_lt, String.ltb. by rewrite str_compare_refl. Qed.

Lemma str_compare_trans a b c :
  String.compare a b = Lt -> String.compare b c = Lt -> String.compare a c = Lt.
Proof.
  revert b c; induction a as [|x a IH]; intros [|y b] [|z c]; simpl; try done.
  destruct (Ascii.compare x y) eqn:E1; try done;
    destruct (Ascii.compare y z) eqn:E2; try done; intros H1 H2.
  - apply ascii_compare_eq in E1, E2; subst. rewrite ascii_compare_refl. eauto.
  - apply ascii_compare_eq in E1; subst. by rewrite E2.
  - apply ascii_compare_eq in E2; subst. by rewrite E1.
  - unfold Ascii.compare in *.
    rewrite (proj2 (N.compare_lt_iff _ _)); [done|].
    rewrite N.compare_lt_iff in E1, E2. by eapply N.lt_trans.
Qed.

Lemma str_lt_trans a b c : str_lt a b = true -> str_lt b c = true -> str_lt a c = true.
Proof.
  unfold str_lt, String.ltb. intros.
  destruct (String.compare a b) eqn:E1, (String.compare b c) eqn:E2; try done.
  by rewrite (str_compare_trans _ _ _ E1 E2).
Qed.

Lemma str_lt_asym a b : str_lt a b = true -> str_lt b a = false.
Proof.
  intros H. destruct (str_lt b a) eqn:E; [|done].
  pose proof (str_lt_trans _ _ _ H E). by rewrite str_lt_irrefl in H0.
Qed.

Lemma str_lt_total a b : str_lt a b = false -> str_lt b a = false -> a = b.
Proof.
  unfold str_lt, String.ltb. rewrite (String.compare_antisym b a).
  destruct (String.compare a b) eqn:E; simpl; try done.
  intros _ _. by apply String.compare_eq_iff.
Qed.

Lemma str_le_refl s : str_le s s = true.
Proof. unfold str_le. by rewrite (str_lt_irrefl s : (s <? s)%string = false). Qed.

Lemma str_le_trans a b c : str_le a b = true -> str_le b c = true -> str_le a c = true.
Proof.
  unfold str_le; rewrite !negb_true_iff. fold (str_lt b a) (str_lt c b) (str_lt c a).
  intros H1 H2. destruct (str_lt c a) eqn:E; [|done].
  destruct (str_lt a b) eqn:E1.
  - pose proof (str_lt_trans _ _ _ E E1). congruence.
  - rewrite (str_lt_total a b) in E by done. congruence.
Qed.

Lemma str_le_antisym a b : str_le a b = true -> str_le b a = true -> a = b.
Proof.
  unfold str_le; rewrite !negb_true_iff. intros ? ?. by apply str_lt_total.
Qed.

Lemma str_lt_le_trans a b c : str_lt a b = true -> str_le b c = true -> str_lt a c = true.
Proof.
  unfold str_le; rewrite negb_true_iff. fold (str_lt c b). intros H1 H2.
  destruct (str_lt b c) eqn:E.
  - by eapply str_lt_trans.
  - by rewrite <-(str_lt_total b c).
Qed.

Lemma str_le_lt_trans a b c : str_le a b = true -> str_lt b c = true -> str_lt a c = true.
Proof.
  unfold str_le; rewrite negb_true_iff. fold (str_lt b a). intros H1 H2.
  destruct (str_lt a b) eqn:E.
  - by eapply str_lt_trans.
  - by rewrite (str_lt_total a b).
Qed.

Lemma str_le_lt a b : str_le a b = negb (str_lt b a).
Proof. done. Qed.

Lemma str_le_total a b : str_le a b = false -> str_le b a = true.
Proof. rewrite !str_le_lt, negb_false_iff, negb_true_iff. apply str_lt_asym. Qed.

#[export] Hint Resolve str_lt_trans str_le_trans str_le_refl str_lt_irrefl
  str_lt_le_trans str_le_lt_trans : tf.

Lemma str_len_nonneg s : 0 <= str_len s.
Proof. unfold str_len. lia. Qed.

Lemma length_bytes_of_str s : length (bytes_of_str s) = String.length s.
Proof.
  unfold bytes_of_str. rewrite length_fmap. induction s; simpl; congruence.
Qed.

Lemma bytes_of_str_bytes s : is_bytes (bytes_of_str s).
Proof.
  unfold bytes_of_str. induction s as [|c s IH]; simpl; constructor; [|exact IH].
  unfold is_u8. pose proof (N_ascii_bounded c). lia.
Qed.

Lemma str_of_bytes_of_str s : str_of_bytes (bytes_of_str s) = s.
Proof.
  unfold str_of_bytes, bytes_of_str.
  induction s as [|c s IH]; simpl; [done|].
  rewrite N2Z.id, ascii_N_embedding. f_equal. exact IH.
Qed.

Lemma bytes_of_str_of_bytes bs : is_bytes bs -> bytes_of_str (str_of_bytes bs) = bs.
Proof.
  unfold str_of_bytes, bytes_of_str, is_u8.
  induction 1 as [|b bs Hb _ IH]; simpl; [done|].
  rewrite N_ascii_embedding by lia. f_equal; [lia|exact IH].
Qed.

Lemma bytes_of_str_inj s t : bytes_of_str s = bytes_of_str t -> s = t.
Proof.
  intros H. rewrite <-(str_of_bytes_of_str s), <-(str_of_bytes_of_str t). by rewrite H.
Qed.

Lemma str_app_cons c s t : String c s +:+ t = String c (s +:+ t).
Proof. done. Qed.

Lemma str_app_nil_l s : "" +:+ s = s.
Proof. done. Qed.

Lemma bytes_of_str_app s t : bytes_of_str (s +:+ t) = bytes_of_str s ++ bytes_of_str t.
Proof.
  unfold bytes_of_str. induction s as [|c s IH]; [done|].
  rewrite str_app_cons. simpl. by f_equal.
Qed.

Lemma str_of_bytes_app bs cs : str_of_bytes (bs ++ cs) = str_of_bytes bs +:+ str_of_bytes cs.
Proof. induction bs as [|b bs IH]; [done|]. cbn. rewrite str_app_cons. by f_equal. Qed.

Lemma str_app_inv_head s t u : s +:+ t = s +:+ u -> t = u.
Proof. induction s as [|c s IH]; [by rewrite !str_app_nil_l|]. rewrite !str_app_cons. by intros [= ?%IH]. Qed.

Lemma str_app_nil_r s : s +:+ "" = s.
Proof. induction s as [|c s IH]; [done|]. rewrite str_app_cons. by f_equal. Qed.

Lemma str_app_assoc s t u : (s +:+ t) +:+ u = s +:+ (t +:+ u).
Proof. induction s as [|c s IH]; [done|]. rewrite !str_app_cons. by f_equal. Qed.

Lemma strip_prefix_spec p s r : strip_prefix p s = Some r <-> s = p +:+ r.
Proof.
  revert s; induction p as [|a p IH]; intros s; simpl.
  { change ("" +:+ r) with r. split; congruence. }
  destruct s as [|b s]; [split; discriminate|].
  destruct (Ascii.eqb_spec a b) as [->|Hne].
  - rewrite IH, str_app_cons. split; [by intros ->|by intros [= ->]].
  - rewrite str_app_cons. split; [discriminate|]. intros [= -> _]. done.
Qed.

(** ** Big-endian integers ([to_be_bytes] / [from_be_bytes]) *)

Fixpoint be_bytes (k : nat) (n : Z) : list Z :=
  match k with
  | O => []
  | S k' => (n / 256 ^ Z.of_nat k') mod 256 :: be_bytes k' n
  end.
Fixpoint of_be (bs : list Z) : Z :=
  match bs with
  | [] => 0
  | b :: bs' => b * 256 ^ Z.of_nat (length bs') + of_be bs'
  end.

Lemma length_be_bytes k n : length (be_bytes k n) = k.
Proof. induction k; simpl; congruence. Qed.

Lemma be_bytes_bytes k n : is_bytes (be_bytes k n).
Proof.
  induction k; simpl; constructor; [|done]. apply Z.mod_pos_bound. lia.
Qed.

Lemma of_be_bound bs : is_bytes bs -> 0 <= of_be bs < 256 ^ Z.of_nat (length bs).
Proof.
  unfold is_u8. induction 1 as [|b bs Hb _ IH]; simpl length; simpl of_be; [lia|].
  rewrite Nat2Z.inj_succ, Z.pow_succ_r by lia. nia.
Qed.

Lemma of_be_bytes k n : of_be (be_bytes k n) = n mod 256 ^ Z.of_nat k.
Proof.
  induction k as [|k IH]; cbn [be_bytes of_be]; [by rewrite Z.mod_1_r|].
  rewrite length_be_bytes, IH, Nat2Z.inj_succ, Z.pow_succ_r by lia.
  rewrite (Z.mul_comm 256), Z.rem_mul_r by lia. lia.
Qed.

Lemma of_be_bytes_small k n : 0 <= n < 256 ^ Z.of_nat k -> of_be (be_bytes k n) = n.
Proof. intros. rewrite of_be_bytes. by apply Z.mod_small. Qed.

Lemma be_bytes_add k x n : be_bytes k (x * 256 ^ Z.of_nat k + n) = be_bytes k n.
Proof.
  assert (H : forall j, (j <= k)%nat -> be_bytes j (x * 256 ^ Z.of_nat k + n) = be_bytes j n).
  { induction j as [|j IH]; intros Hj; simpl; [done|].
    rewrite IH by lia. f_equal.
    replace (256 ^ Z.of_nat k)
      with (256 ^ Z.of_nat (k - S j) * 256 * 256 ^ Z.of_nat j)
      by (rewrite <-Z.mul_assoc, <-Z.pow_succ_r, <-Z.pow_add_r; [f_equal; lia|lia..]).
    rewrite !Z.mul_assoc, (Z.add_comm _ n), Z.div_add, Z.mod_add; lia. }
  by apply H.
Qed.

Lemma be_bytes_of_be bs : is_bytes bs -> be_bytes (length bs) (of_be bs) = bs.
Proof.
  induction 1 as [|b bs Hb Hbs IH]; simpl; [done|].
  pose proof (of_be_bound bs Hbs). unfold is_u8 in Hb.
  rewrite be_bytes_add, IH. f_equal.
  rewrite (Z.add_comm _ (of_be bs)), Z.div_add, Z.div_small by lia.
  apply Z.mod_small. lia.
Qed.

(** ** Checking a property of every integer below a bound by evaluation *)

Definition all_below (n : N) (f : Z -> bool) : bool :=
  snd (N.iter n (fun '(i, b) => (i + 1, b && f i)) (0, true)).

Lemma all_below_spec n f : all_below n f = true -> forall i, 0 <= i < Z.of_N n -> f i = true.
Proof.
  unfold all_below.
  enough (fst (N.iter n (fun '(i, b) => (i + 1, b && f i)) (0, true)) = Z.of_N n /\
    (snd (N.iter n (fun '(i, b) => (i + 1, b && f i)) (0, true)) = true ->
     forall i, 0 <= i < Z.of_N n -> f i = true)) as [_ H] by exact H.
  induction n as [|n [Hf Hs]] using N.peano_ind; [simpl; split; [done|lia]|].
  rewrite N.iter_succ. destruct (N.iter n _ _) as [j b]. simpl in *. subst j. split; [lia|].
  rewrite andb_true_iff. intros [Hb Hfk] i Hi.
  destruct (decide (i = Z.of_N n)) as [->|]; [done|]. apply Hs; [done|lia].
Qed.

(** ** Comparing strings with a common-length prefix *)

Lemma str_compare_app p q s t :
  String.length p = String.length q ->
  String.compare (p +:+ s) (q +:+ t) =
  match String.compare p q with Eq => String.compare s t | c => c end.
Proof.
  revert q; induction p as [|a p IH]; intros [|b q] Hlen; try done.
  injection Hlen as Hlen. rewrite !str_app_cons. simpl. rewrite IH by done.
  by destruct (Ascii.compare a b).
Qed.

Lemma str_length_app s t : String.length (s +:+ t) = (String.length s + String.length t)%nat.
Proof. induction s as [|c s IH]; [done|]. rewrite str_app_cons. simpl. by rewrite IH. Qed.

(** ** First match in a list *)

Lemma find_first {A} (f : A -> bool) l x :
  List.find f l = Some x <->
  exists pre post, l = pre ++ x :: post /\ Forall (fun y => f y = false) pre /\ f x = true.
Proof.
  split.
  - induction l as [|y l IH]; simpl; [done|]. destruct (f y) eqn:E.
    + intros [= ->]. by exists [], l.
    + intros (pre & post & -> & Hpre & Hx)%IH. exists (y :: pre), post. by repeat constructor.
  - intros (pre & post & -> & Hpre & Hx). induction Hpre as [|y pre Hy _ IH]; simpl; [by rewrite Hx|].
    by rewrite Hy.
Qed.

Lemma find_none_forall {A} (f : A -> bool) l :
  List.find f l = None <-> Forall (fun y => f y = false) l.
Proof.
  induction l as [|y l IH]; simpl; [by split; [constructor|]|].
  rewrite Forall_cons, <- IH. destruct (f y); naive_solver.
Qed.

(** ** Shifts and masks as arithmetic *)

Lemma land_shiftl_low a b k : 0 <= k -> 0 <= b < 2 ^ k -> Z.land (Z.shiftl a k) b = 0.
Proof.
  intros Hk Hb. apply Z.bits_inj'. intros i Hi. rewrite Z.land_spec, Z.bits_0, Z.shiftl_spec by done.
  destruct (Z.lt_ge_cases i k); [rewrite Z.testbit_neg_r by lia; done|].
  rewrite andb_comm. apply andb_false_iff. left. destruct (Z.eq_dec b 0) as [->|]; [apply Z.bits_0|].
  apply Z.bits_above_log2; [lia|]. apply Z.log2_lt_pow2; [lia|].
  apply Z.lt_le_trans with (2 ^ k); [lia|]. apply Z.pow_le_mono_r; lia.
Qed.

Lemma lor_shiftl_add a b k : 0 <= k -> 0 <= b < 2 ^ k -> Z.lor (Z.shiftl a k) b = a * 2 ^ k + b.
Proof.
  intros Hk Hb. rewrite <- Z.shiftl_mul_pow2 by done.
  rewrite Z.add_nocarry_lxor by (by apply land_shiftl_low). symmetry. apply Z.lxor_lor. by apply land_shiftl_low.
Qed.

Lemma land_mask a k : 0 <= k -> Z.land a (2 ^ k - 1) = a mod 2 ^ k.
Proof. intros. rewrite <- Z.land_ones by done. f_equal. rewrite Z.ones_equiv. lia. Qed.

(** ** Induction several elements at a time *)

Lemma list_ind2 {A} (P : list A -> Prop) :
  P [] -> (forall a, P [a]) -> (forall a b l, P l -> P (a :: b :: l)) -> forall l, P l.
Proof.
  intros H0 H1 H2. fix IH 1. intros [|a [|b l]]; [apply H0|apply H1|apply H2, IH].
Qed.

Lemma list_ind3 {A} (P : list A -> Prop) :
  P [] -> (forall a, P [a]) -> (forall a b, P [a; b]) ->
  (forall a b c l, P l -> P (a :: b :: c :: l)) -> forall l, P l.
Proof.
  intros H0 H1 H2 H3. refine (fix go l := match l with
    | [] => H0 | [a] => H1 a | [a; b] => H2 a b | a :: b :: c :: l' => H3 a b c l' (go l') end).
Qed.

Lemma list_ind4 {A} (P : list A -> Prop) :
  P [] -> (forall a, P [a]) -> (forall a b, P [a; b]) -> (forall a b c, P [a; b; c]) ->
  (forall a b c d l, P l -> P (a :: b :: c :: d :: l)) -> forall l, P l.
Proof.
  intros H0 H1 H2 H3 H4. refine (fix go l := match l with
    | [] => H0 | [a] => H1 a | [a; b] => H2 a b | [a; b; c] => H3 a b c
    | a :: b :: c :: d :: l' => H4 a b c d l' (go l') end).
Qed.

(** ** Hexadecimal *)

(** Two lower-case hexadecimal digits: [format!("{:02x}", n)]. *)
Definition hex_digit (n : Z) : ascii :=
  ascii_of_N (Z.to_N (if n <? 10 then 48 + n else 87 + n)).
Definition hex2 (n : Z) : string := String (hex_digit (n / 16)) (String (hex_digit (n mod 16)) "").
Definition hex (bs : list Z) : string := foldr (fun b s => hex2 b +:+ s) "" bs.
