(* ===== verification/Utf8.v ===== *)
(** * Utf8: the character view of a string

    Rust's [str::chars] walks the Unicode scalar values of a string, and
    [String::from_utf8] accepts exactly the well-formed UTF-8 byte
    sequences.  Both are standard-library behaviour that [glob.rs],
    [cbor.rs] and [orl.rs] rely on; they are defined here, with the
    encoder, and proved inverse to each other. *)

From S2P Require Import Prelude.

(** A Unicode scalar value: Rust's [char]. *)
Definition is_scalar (c : Z) : Prop := 0 <= c < 0xD800 \/ 0xE000 <= c < 0x110000.

Definition encode_char (c : Z) : list Z :=
  if c <? 0x80 then [c]
  else if c <? 0x800 then [0xC0 + c / 64; 0x80 + c mod 64]
  else if c <? 0x10000 then [0xE0 + c / 4096; 0x80 + c / 64 mod 64; 0x80 + c mod 64]
  else [0xF0 + c / 262144; 0x80 + c / 4096 mod 64; 0x80 + c / 64 mod 64; 0x80 + c mod 64].

Definition is_cont (b : Z) : bool := (0x80 <=? b) && (b <? 0xC0).
Definition cp2 (b0 b1 : Z) : Z := (b0 - 0xC0) * 64 + (b1 - 0x80).
Definition cp3 (b0 b1 b2 : Z) : Z := (b0 - 0xE0) * 4096 + (b1 - 0x80) * 64 + (b2 - 0x80).
Definition cp4 (b0 b1 b2 b3 : Z) : Z :=
  (b0 - 0xF0) * 262144 + (b1 - 0x80) * 4096 + (b2 - 0x80) * 64 + (b3 - 0x80).

(** The strict decoder: overlong forms, surrogates and values above
    U+10FFFF are refused. *)
Fixpoint decode_utf8 (bs : list Z) : option (list Z) :=
  match bs with
  | [] => Some []
  | b0 :: r0 =>
    if (0 <=? b0) && (b0 <? 0x80) then cons b0 <$> decode_utf8 r0 else
    match r0 with
    | [] => None
    | b1 :: r1 =>
      if (0xC2 <=? b0) && (b0 <? 0xE0) && is_cont b1
      then cons (cp2 b0 b1) <$> decode_utf8 r1 else
      match r1 with
      | [] => None
      | b2 :: r2 =>
        if (0xE0 <=? b0) && (b0 <? 0xF0) && is_cont b1 && is_cont b2
           && (0x800 <=? cp3 b0 b1 b2)
           && negb ((0xD800 <=? cp3 b0 b1 b2) && (cp3 b0 b1 b2 <? 0xE000))
        then cons (cp3 b0 b1 b2) <$> decode_utf8 r2 else
        match r2 with
        | [] => None
        | b3 :: r3 =>
          if (0xF0 <=? b0) && (b0 <? 0xF5) && is_cont b1 && is_cont b2 && is_cont b3
             && (0x10000 <=? cp4 b0 b1 b2 b3) && (cp4 b0 b1 b2 b3 <? 0x110000)
          then cons (cp4 b0 b1 b2 b3) <$> decode_utf8 r3 else None
        end
      end
    end
  end.

Definition valid_utf8 (bs : list Z) : bool :=
  match decode_utf8 bs with Some _ => true | None => false end.

(** [str::chars].  A Rust string is always well-formed; on other byte
    strings the model falls back to one character per byte. *)
Definition chars (s : string) : list Z :=
  match decode_utf8 (bytes_of_str s) with
  | Some cs => cs
  | None => bytes_of_str s
  end.

(** [char] sequences back to a string ([String::from_iter]). *)
Definition str_of_chars (cs : list Z) : string := str_of_bytes (flat_map encode_char cs).

Ltac utf8_arith :=
  unfold is_scalar, is_cont, cp2, cp3, cp4 in *;
  repeat match goal with
  | |- context [if ?b then _ else _] => destruct b eqn:?
  end; try lia.

#[local] Ltac Zify.zify_post_hook ::= Z.div_mod_to_equations.

Lemma decode_encode_char c rest :
  is_scalar c -> decode_utf8 (encode_char c ++ rest) = cons c <$> decode_utf8 rest.
Proof.
  intros Hc. unfold encode_char.
  destruct (c <? 0x80) eqn:E1; [|destruct (c <? 0x800) eqn:E2; [|destruct (c <? 0x10000) eqn:E3]];
    cbn [app decode_utf8]; unfold is_scalar in Hc; utf8_arith;
    do 2 f_equal; lia.
Qed.

Lemma decode_encode cs :
  Forall is_scalar cs -> decode_utf8 (flat_map encode_char cs) = Some cs.
Proof.
  induction 1 as [|c cs Hc _ IH]; [done|].
  cbn [flat_map]. by rewrite decode_encode_char, IH.
Qed.

Lemma encode_decode_2 b0 b1 :
  0xC2 <= b0 < 0xE0 -> 0x80 <= b1 < 0xC0 -> encode_char (cp2 b0 b1) = [b0; b1].
Proof. intros. unfold encode_char. utf8_arith. repeat f_equal; lia. Qed.

Lemma encode_decode_3 b0 b1 b2 :
  0xE0 <= b0 < 0xF0 -> 0x80 <= b1 < 0xC0 -> 0x80 <= b2 < 0xC0 ->
  0x800 <= cp3 b0 b1 b2 -> encode_char (cp3 b0 b1 b2) = [b0; b1; b2].
Proof. intros. unfold encode_char. utf8_arith. repeat f_equal; lia. Qed.

Lemma encode_decode_4 b0 b1 b2 b3 :
  0xF0 <= b0 < 0xF5 -> 0x80 <= b1 < 0xC0 -> 0x80 <= b2 < 0xC0 -> 0x80 <= b3 < 0xC0 ->
  0x10000 <= cp4 b0 b1 b2 b3 -> encode_char (cp4 b0 b1 b2 b3) = [b0; b1; b2; b3].
Proof. intros. unfold encode_char. utf8_arith. repeat f_equal; lia. Qed.

(** The decoder is injective: a well-formed byte sequence is the encoding
    of the characters it decodes to. *)
Lemma encode_decode bs cs : decode_utf8 bs = Some cs -> flat_map encode_char cs = bs.
Proof.
  revert cs. induction bs as [bs IH] using (induction_ltof1 _ (@length Z)).
  unfold ltof in IH. intros cs.
  destruct bs as [|b0 r0]; cbn [decode_utf8]; [by intros [= <-]|].
  assert (Hstep : forall c pre rest, (length rest < length (b0 :: r0))%nat ->
    b0 :: r0 = pre ++ rest -> encode_char c = pre ->
    cons c <$> decode_utf8 rest = Some cs -> flat_map encode_char cs = b0 :: r0).
  { intros c pre rest Hlen Heq Hpre. destruct (decode_utf8 rest) eqn:E; [|done].
    intros [= <-]. cbn [flat_map]. rewrite (IH rest Hlen l E), Hpre. by rewrite Heq. }
  repeat (case_match; try done); intros; bool_to_prop; unfold is_cont in *; bool_to_prop;
    (eapply Hstep; [| |..|eassumption]); simpl; try lia;
    [change (b0 :: ?l) with ([b0] ++ l); reflexivity
    |unfold encode_char; by rewrite (proj2 (Z.ltb_lt b0 0x80))
    |instantiate (1 := [_; _]); reflexivity
    |by apply encode_decode_2
    |instantiate (1 := [_; _; _]); reflexivity
    |by apply encode_decode_3
    |instantiate (1 := [_; _; _; _]); reflexivity
    |by apply encode_decode_4].
Qed.

Lemma chars_inj s t :
  valid_utf8 (bytes_of_str s) = true -> valid_utf8 (bytes_of_str t) = true ->
  chars s = chars t -> s = t.
Proof.
  unfold valid_utf8, chars.
  destruct (decode_utf8 (bytes_of_str s)) eqn:Es; [|done].
  destruct (decode_utf8 (bytes_of_str t)) eqn:Et; [|done].
  intros _ _ ->. apply bytes_of_str_inj.
  by rewrite <-(encode_decode _ _ Es), <-(encode_decode _ _ Et).
Qed.

(** The decoder yields scalar values. *)
Lemma decode_scalars bs cs : decode_utf8 bs = Some cs -> Forall is_scalar cs.
Proof.
  revert cs. induction bs as [bs IH] using (induction_ltof1 _ (@length Z)).
  unfold ltof in IH. intros cs. destruct bs as [|b0 r0]; cbn [decode_utf8]; [by intros [= <-]|].
  assert (Hstep : forall c rest, (length rest < length (b0 :: r0))%nat -> is_scalar c ->
    cons c <$> decode_utf8 rest = Some cs -> Forall is_scalar cs).
  { intros c rest Hlen Hc. destruct (decode_utf8 rest) eqn:E; [|done].
    intros [= <-]. constructor; [done|]. by apply (IH rest). }
  repeat (case_match; try done); intros; bool_to_prop; unfold is_cont in *; bool_to_prop;
    (eapply Hstep; [| |eassumption]); unfold is_scalar, cp2, cp3, cp4 in *; simpl; lia.
Qed.

Lemma encode_char_bytes c : is_scalar c -> is_bytes (encode_char c).
Proof.
  unfold is_scalar, encode_char. intros H. repeat case_match; bool_to_prop; rewrite !Forall_cons, Forall_nil; unfold is_u8; lia.
Qed.

Lemma encode_chars_bytes cs : Forall is_scalar cs -> is_bytes (flat_map encode_char cs).
Proof. induction 1 as [|c cs Hc _ IH]; [constructor|]. cbn. apply Forall_app. split; [by apply encode_char_bytes|done]. Qed.

Lemma chars_scalars s : valid_utf8 (bytes_of_str s) = true -> Forall is_scalar (chars s).
Proof. unfold valid_utf8, chars. destruct (decode_utf8 _) eqn:E; [|done]. intros _. by apply decode_scalars in E. Qed.

Lemma str_of_chars_chars s : valid_utf8 (bytes_of_str s) = true -> str_of_chars (chars s) = s.
Proof.
  unfold valid_utf8, chars, str_of_chars. destruct (decode_utf8 _) eqn:E; [|done]. intros _.
  apply encode_decode in E as ->. apply str_of_bytes_of_str.
Qed.

Lemma chars_str_of_chars cs : Forall is_scalar cs -> chars (str_of_chars cs) = cs.
Proof.
  intros H. unfold chars, str_of_chars. rewrite bytes_of_str_of_bytes by by apply encode_chars_bytes. by rewrite decode_encode.
Qed.

(** ** Whitespace: [char::is_whitespace], [str::trim_start], [str::trim_end] *)

Definition is_whitespace (c : Z) : bool :=
  (9 <=? c) && (c <=? 13) || (c =? 32) || (c =? 133) || (c =? 160) || (c =? 5760) || (8192 <=? c) && (c <=? 8202) ||
  (c =? 8232) || (c =? 8233) || (c =? 8239) || (c =? 8287) || (c =? 12288).
Fixpoint trim_start (l : list Z) : list Z :=
  match l with c :: r => if is_whitespace c then trim_start r else l | [] => [] end.
Definition trim_end (l : list Z) : list Z := reverse (trim_start (reverse l)).

Lemma trim_start_id c l : is_whitespace c = false -> trim_start (c :: l) = c :: l.
Proof. intros H. cbn. by rewrite H. Qed.

Lemma trim_start_snoc l c : is_whitespace c = false -> exists l', trim_start (l ++ [c]) = l' ++ [c].
Proof.
  intros H. induction l as [|d l IH]; [exists []; by apply trim_start_id|]. cbn. destruct (is_whitespace d); [done|]. by exists (d :: l).
Qed.

(** [str::trim]. *)
Definition trim (l : list Z) : list Z := trim_end (trim_start l).
Definition trim_str (s : string) : string := str_of_chars (trim (chars s)).
