(* ===== verification/Glob.v ===== *)
(** * Glob: the TrustForge pattern language ([tf-types/src/glob.rs])

    [glob_match] is the executable dynamic program of the source: the
    pattern is tokenised once, then a row of booleans (one per prefix of
    the value) is pushed through the tokens.  [matches] is the language
    the module documents; the main theorem is that they agree. *)

From S2P Require Import Prelude Utf8.

Module Glob.

(** ** Code *)

Inductive Tok :=
| Any            (** two stars: any run, [/] included *)
| AnySegment     (** one star: any run without [/] *)
| Lit (c : Z).

Definition STAR : Z := 42.
Definition SLASH : Z := 47.

(** The tokenising loop: one character of look-ahead after a star. *)
Fixpoint tokenize (cs : list Z) : list Tok :=
  match cs with
  | [] => []
  | c :: rest =>
    if c =? STAR then
      match rest with
      | c' :: rest' =>
        if c' =? STAR then Any :: tokenize rest' else AnySegment :: tokenize rest
      | [] => [AnySegment]
      end
    else Lit c :: tokenize rest
  end.

(** [next[j+1] = dp[j] && vals[j] == l], with [next[0] = false]. *)
Definition step_lit (l : Z) (vals : list Z) (dp : list bool) : list bool :=
  false :: zip_with (fun d v => d && (v =? l)) dp vals.

Fixpoint step_any (reachable : bool) (dp : list bool) : list bool :=
  match dp with
  | [] => []
  | d :: dp' => let r := reachable || d in r :: step_any r dp'
  end.

(** Reachability propagates rightward but stops at a slash. *)
Fixpoint step_segment (reachable : bool) (vals : list Z) (dp : list bool) : list bool :=
  match dp with
  | [] => []
  | d :: dp' =>
    let r := reachable || d in
    r :: match vals with
         | v :: vals' => step_segment (if v =? SLASH then false else r) vals' dp'
         | [] => step_segment r [] dp'
         end
  end.

Definition step (vals : list Z) (dp : list bool) (tok : Tok) : list bool :=
  match tok with
  | Lit l => step_lit l vals dp
  | Any => step_any false dp
  | AnySegment => step_segment false vals dp
  end.

Definition dp_init (vals : list Z) : list bool := true :: replicate (length vals) false.

Definition run (toks : list Tok) (vals : list Z) : bool :=
  nth (length vals) (foldl (step vals) (dp_init vals) toks) false.

Definition glob_match (pattern value : string) : bool :=
  run (tokenize (chars pattern)) (chars value).

(** ** Specification: the language of a token list *)

Definition tok_matches (t : Tok) (w : list Z) : Prop :=
  match t with
  | Lit c => w = [c]
  | Any => True
  | AnySegment => Forall (fun v => v <> SLASH) w
  end.

Definition matches (toks : list Tok) (v : list Z) : Prop :=
  exists ws, Forall2 tok_matches toks ws /\ v = concat ws.

Lemma matches_nil v : matches [] v <-> v = [].
Proof.
  split.
  - intros (ws & H & ->). by inversion H.
  - intros ->. exists []. split; [constructor|done].
Qed.

Lemma matches_snoc ts t v :
  matches (ts ++ [t]) v <-> exists w1 w2, v = w1 ++ w2 /\ matches ts w1 /\ tok_matches t w2.
Proof.
  split.
  - intros (ws & H & ->).
    apply Forall2_app_inv_l in H as (ws1 & ws2 & H1 & H2 & ->).
    apply Forall2_cons_inv_l in H2 as (w & ws' & Hw & Hnil & ->).
    inversion Hnil; subst. exists (concat ws1), w.
    rewrite concat_app. simpl. rewrite app_nil_r. unfold matches. eauto.
  - intros (w1 & w2 & -> & (ws & H & ->) & Hw). exists (ws ++ [w2]). split.
    + apply Forall2_app; [done|]. by repeat constructor.
    + rewrite concat_app. simpl. by rewrite app_nil_r.
Qed.

Lemma matches_cons t ts v :
  matches (t :: ts) v <-> exists w1 w2, v = w1 ++ w2 /\ tok_matches t w1 /\ matches ts w2.
Proof.
  split.
  - intros (ws & H & ->). apply Forall2_cons_inv_l in H as (w & ws' & Hw & Hws & ->).
    exists w, (concat ws'). unfold matches. eauto.
  - intros (w1 & w2 & -> & Hw & (ws & H & ->)). exists (w1 :: ws). split; [by constructor|done].
Qed.

(** ** The row invariant

    [row_ok ts vals dp]: entry [j] of the row says whether the tokens
    consumed so far match the first [j] characters. *)

Definition row_ok (ts : list Tok) (vals : list Z) (dp : list bool) : Prop :=
  length dp = S (length vals) /\
  forall j, (j <= length vals)%nat -> dp !! j = Some true <-> matches ts (take j vals).

Lemma row_init vals : row_ok [] vals (dp_init vals).
Proof.
  split; [simpl; by rewrite length_replicate|].
  intros j Hj. rewrite matches_nil. destruct j as [|j]; simpl; [done|].
  destruct vals as [|v vals]; simpl in *; [lia|]. split; [|done].
  destruct j as [|j]; simpl; [done|]. by intros [? _]%lookup_replicate.
Qed.

Lemma step_lit_row l ts vals dp :
  row_ok ts vals dp -> row_ok (ts ++ [Lit l]) vals (step_lit l vals dp).
Proof.
  intros [Hlen Hdp]. unfold step_lit. split.
  { simpl. rewrite length_zip_with. lia. }
  intros j Hj. rewrite matches_snoc. simpl tok_matches. destruct j as [|j]; simpl.
  - split; [done|]. intros (w1 & w2 & Heq & _ & ->). by destruct w1.
  - destruct (lookup_lt_is_Some_2 vals j ltac:(lia)) as [v Hv].
    rewrite lookup_zip_with. rewrite (take_S_r _ _ _ Hv).
    destruct (dp !! j) as [d|] eqn:Ed; simpl;
      [|apply lookup_ge_None in Ed; lia]. rewrite Hv. simpl. split.
    + intros [= [-> Hvl%Z.eqb_eq]%andb_true_iff].
      subst v. exists (take j vals), [l]. split_and!; [done| |done]. apply Hdp; [lia|done].
    + intros (w1 & w2 & Heq & Hm & ->). apply app_inj_tail in Heq as [Hw1 ->].
      f_equal. rewrite Z.eqb_refl, andb_true_r.
      rewrite <-Hw1 in Hm. apply Hdp in Hm; [congruence|lia].
Qed.

(** Entry [j] of a propagation: some earlier entry was set and nothing
    between blocks. *)
Lemma step_any_lookup dp r j :
  (j < length dp)%nat ->
  step_any r dp !! j = Some true <->
  r = true \/ exists i, (i <= j)%nat /\ dp !! i = Some true.
Proof.
  revert r j; induction dp as [|d dp IH]; intros r j Hj; simpl in *; [lia|].
  destruct j as [|j]; simpl.
  - split.
    + intros [= [->| ->]%orb_true_iff]; [by left|right; exists 0%nat; done].
    + intros [->|(i & Hi & Hl)]; [done|]. assert (i = 0)%nat as -> by lia.
      simpl in Hl. injection Hl as ->. by rewrite orb_true_r.
  - rewrite IH by lia. rewrite orb_true_iff. split.
    + intros [[->| ->]|(i & Hi & Hl)]; [by left| |].
      * right; exists 0%nat; split; [lia|done].
      * right; exists (S i); split; [lia|done].
    + intros [->|(i & Hi & Hl)]; [by left; left|].
      destruct i as [|i]; simpl in Hl; [injection Hl as ->; by left; right|].
      right; exists i; split; [lia|done].
Qed.

Lemma step_segment_lookup dp vals r j :
  (j < length dp)%nat -> (length dp <= S (length vals))%nat ->
  step_segment r vals dp !! j = Some true <->
  (r = true /\ Forall (fun v => v <> SLASH) (take j vals)) \/
  exists i, (i <= j)%nat /\ dp !! i = Some true /\
            Forall (fun v => v <> SLASH) (drop i (take j vals)).
Proof.
  revert vals r j; induction dp as [|d dp IH]; intros vals r j Hj Hlen; simpl in *; [lia|].
  destruct j as [|j]; simpl.
  - split.
    + intros [= [->| ->]%orb_true_iff]; [by left|right; exists 0%nat; done].
    + intros [[-> _]|(i & Hi & Hl & _)]; [done|]. assert (i = 0)%nat as -> by lia.
      simpl in Hl. injection Hl as ->. by rewrite orb_true_r.
  - destruct vals as [|v vals]; [simpl in *; lia|].
    rewrite IH by (simpl in *; lia). simpl take.
    assert (Hr : (if v =? SLASH then false else r || d) = true <-> v <> SLASH /\ (r = true \/ d = true)).
    { destruct (Z.eqb_spec v SLASH); [split; [done|by intros [? _]]|]. rewrite orb_true_iff. tauto. }
    rewrite Hr, Forall_cons. clear Hr. split.
    + intros [((Hv & [->| ->]) & Hf)|(i & Hi & Hl & Hf)].
      * by left.
      * right; exists 0%nat. split_and!; [lia|done|by constructor].
      * right; exists (S i). split_and!; [lia|done|done].
    + intros [(-> & Hv & Hf)|(i & Hi & Hl & Hf)]; [left; tauto|].
      destruct i as [|i]; simpl in Hl, Hf.
      * injection Hl as ->. apply Forall_cons in Hf as [? ?]. left; tauto.
      * right; exists i. split_and!; [lia|done|done].
Qed.

Lemma length_step_any r dp : length (step_any r dp) = length dp.
Proof. revert r; induction dp; intros r; simpl; [done|]. by rewrite IHdp. Qed.

Lemma length_step_segment r vals dp : length (step_segment r vals dp) = length dp.
Proof.
  revert r vals; induction dp; intros r vals; simpl; [done|].
  destruct vals; by rewrite IHdp.
Qed.

(** A run token consumed after [ts] matches a prefix exactly when [ts]
    matched some shorter prefix and the token matches what lies between. *)
Lemma matches_snoc_take ts t vals j :
  (j <= length vals)%nat ->
  matches (ts ++ [t]) (take j vals) <->
  exists i, (i <= j)%nat /\ matches ts (take i vals) /\ tok_matches t (drop i (take j vals)).
Proof.
  intros Hj. rewrite matches_snoc. split.
  - intros (w1 & w2 & Heq & Hm & Ht). exists (length w1).
    assert (Hlen : (length w1 + length w2 = j)%nat).
    { rewrite <-length_app, <-Heq, length_take. lia. }
    split_and!; [lia| |].
    + replace (take (length w1) vals) with w1; [done|].
      replace (take (length w1) vals) with (take (length w1) (take j vals))
        by (rewrite take_take; f_equal; lia).
      by rewrite Heq, take_app_length.
    + by rewrite Heq, drop_app_length.
  - intros (i & Hi & Hm & Ht). exists (take i vals), (drop i (take j vals)).
    split_and!; [|done|done].
    rewrite <-(take_drop i (take j vals)) at 1. by rewrite take_take, Nat.min_l.
Qed.

Lemma step_any_row ts vals dp :
  row_ok ts vals dp -> row_ok (ts ++ [Any]) vals (step_any false dp).
Proof.
  intros [Hlen Hdp]. split; [by rewrite length_step_any|].
  intros j Hj. rewrite step_any_lookup by lia. rewrite matches_snoc_take by done. split.
  - intros [[=]|(i & Hi & Hl)]. exists i. split_and!; [done| |done]. apply Hdp; [lia|done].
  - intros (i & Hi & Hm & _). right; exists i. split; [done|]. apply Hdp; [lia|done].
Qed.

Lemma step_segment_row ts vals dp :
  row_ok ts vals dp -> row_ok (ts ++ [AnySegment]) vals (step_segment false vals dp).
Proof.
  intros [Hlen Hdp]. split; [by rewrite length_step_segment|].
  intros j Hj. rewrite step_segment_lookup by lia. rewrite matches_snoc_take by done. split.
  - intros [[[=] _]|(i & Hi & Hl & Hf)]. exists i. split_and!; [done| |done].
    apply Hdp; [lia|done].
  - intros (i & Hi & Hm & Hf). right; exists i. split_and!; [done| |done].
    apply Hdp; [lia|done].
Qed.

#[local] Hint Resolve row_init step_lit_row step_any_row step_segment_row : tf.

Lemma run_rows ts vals : row_ok ts vals (foldl (step vals) (dp_init vals) ts).
Proof.
  induction ts as [|t ts IH] using rev_ind; simpl; [auto with tf|].
  rewrite foldl_app. simpl. destruct t; simpl; auto with tf.
Qed.

Lemma run_spec ts vals : run ts vals = true <-> matches ts vals.
Proof.
  destruct (run_rows ts vals) as [Hlen Hrow]. unfold run.
  specialize (Hrow (length vals) ltac:(lia)). rewrite firstn_all in Hrow. rewrite <-Hrow.
  rewrite nth_lookup. destruct (_ !! length vals) as [b|] eqn:E; simpl; [naive_solver|].
  apply lookup_ge_None in E. lia.
Qed.

(** C33: [glob_match] accepts exactly the language its documentation
    gives: the value splits into one piece per token, a literal taking
    itself, one star a run without [/], two stars any run. *)
Theorem glob_match_spec pattern value :
  glob_match pattern value = true <-> matches (tokenize (chars pattern)) (chars value).
Proof. apply run_spec. Qed.

Lemma tokenize_literal cs : STAR ∉ cs -> tokenize cs = Lit <$> cs.
Proof.
  induction cs as [|c cs IH]; intros H; simpl; [done|].
  apply not_elem_of_cons in H as [Hc Hcs].
  rewrite (proj2 (Z.eqb_neq _ _)) by congruence. by rewrite IH.
Qed.

Lemma matches_literal cs v : matches (Lit <$> cs) v <-> v = cs.
Proof.
  revert v; induction cs as [|c cs IH]; intros v; simpl; [apply matches_nil|].
  rewrite matches_cons. split.
  - intros (w1 & w2 & -> & -> & ->%IH). done.
  - intros ->. exists [c], cs. by rewrite IH.
Qed.

Lemma glob_no_star pattern value :
  valid_utf8 (bytes_of_str pattern) = true -> valid_utf8 (bytes_of_str value) = true ->
  STAR ∉ chars pattern -> glob_match pattern value = (pattern =? value)%string.
Proof.
  intros Hp Hv Hs. apply Bool.eq_true_iff_eq. unfold glob_match.
  rewrite run_spec, tokenize_literal, matches_literal, String.eqb_eq by done.
  split; [intros H; symmetry; by apply chars_inj|by intros ->].
Qed.

(** a pattern without a star is a literal: it matches itself and
    nothing else, whatever other characters ([?], [.], brackets) it has. *)
Theorem glob_literal pattern value
    (Hp : valid_utf8 (bytes_of_str pattern) = true)
    (Hv : valid_utf8 (bytes_of_str value) = true)
    (Hstar : STAR ∉ chars pattern) :
  glob_match pattern value = true <-> value = pattern.
Proof.
  rewrite glob_no_star, String.eqb_eq by done. split; congruence.
Qed.

Lemma glob_literal_witness :
  glob_match "ok?.(x)" "ok?.(x)" = true /\ glob_match "ok?.(x)" "okX.(x)" = false.
Proof.
  assert (H : STAR ∉ chars "ok?.(x)") by (vm_compute; set_solver).
  split.
  - apply (glob_literal "ok?.(x)" "ok?.(x)"); [vm_compute; reflexivity..|exact H|reflexivity].
  - destruct (glob_match "ok?.(x)" "okX.(x)") eqn:E; [|reflexivity].
    apply (glob_literal "ok?.(x)" "okX.(x)") in E;
      [discriminate E|vm_compute; reflexivity..|exact H].
Defined.

(** ** Facts used by the authorisation components *)

Lemma glob_match_star_star value : glob_match "**" value = true.
Proof.
  unfold glob_match. apply run_spec. change (tokenize (chars "**")) with [Any].
  exists [chars value]. split; [by repeat constructor|]. simpl. by rewrite app_nil_r.
Qed.

Example glob_vectors :
  glob_match "repo/*" "repo/main" = true /\ glob_match "repo/*" "repo/main/file" = false /\
  glob_match "repo/**" "repo/main/deep/file" = true /\ glob_match "**/a*b" "x/a/ab" = true /\
  glob_match "*a*a*" "a/a" = false /\ glob_match "*é" "résumé" = true.
Proof. vm_compute. done. Qed.

End Glob.
