(* ===== verification/Clock.v ===== *)
(** * Clock: wall-clock timestamps

    [now_iso8601] and [secs_to_ymdhms] appear with the same body in
    [packet.rs], [permission.rs], [policy_engine.rs] and [quorum.rs];
    [parse_iso8601] and [parse_minute] are [relay.rs]'s inverse.  Every
    component compares timestamps as strings, so the theorems are that
    formatting is order-preserving and that parsing inverts it, over the
    years 1970 to 9999. *)

From S2P Require Import Prelude.

Module Clock.

(** ** Code *)

Definition as_i32 (n : Z) : Z := (n + 2 ^ 31) mod 2 ^ 32 - 2 ^ 31.
Definition as_u32 (n : Z) : Z := n mod 2 ^ 32.
Definition as_u64 (n : Z) : Z := n mod 2 ^ 64.
Definition as_i64 (n : Z) : Z := (n + 2 ^ 63) mod 2 ^ 64 - 2 ^ 63.

(** The date part: days since 1970-01-01 to (year, month, day).  [Z.quot]
    is Rust's truncated division. *)
Definition days_to_ymd (days : Z) : Z * Z * Z :=
  let z := days + 719468 in
  let era := Z.quot (if 0 <=? z then z else z - 146096) 146097 in
  let doe := as_u64 (z - era * 146097) in
  let yoe := (doe - doe / 1460 + doe / 36524 - doe / 146096) / 365 in
  let y := yoe + era * 400 in
  let doy := doe - (365 * yoe + yoe / 4 - yoe / 100) in
  let mp := (5 * doy + 2) / 153 in
  let d := as_u32 (doy - (153 * mp + 2) / 5 + 1) in
  let m := if mp <? 10 then as_u32 (mp + 3) else as_u32 (mp - 9) in
  let year := if m <=? 2 then y + 1 else y in
  (as_i32 year, m, d).

Definition secs_to_ymdhms (secs : Z) : Z * Z * Z * Z * Z * Z :=
  let days := secs / 86400 in
  let time := secs mod 86400 in
  let hour := as_u32 (time / 3600) in
  let minute := as_u32 (time mod 3600 / 60) in
  let second := as_u32 (time mod 60) in
  let '(y, m, d) := days_to_ymd days in
  (y, m, d, hour, minute, second).

(** [format!("{:0w}", n)]. *)
Fixpoint zeros (n : nat) : string := match n with O => "" | S n' => String "0" (zeros n') end.
Definition pad (w : nat) (n : Z) : string :=
  if n <? 0 then "-" +:+ (let s := pretty (- n) in zeros (w - 1 - String.length s) +:+ s)
  else let s := pretty n in zeros (w - String.length s) +:+ s.

(** [now_iso8601], as a function of the Unix time. *)
Definition now_iso8601 (secs : Z) : string :=
  let '(y, m, d, h, mi, s) := secs_to_ymdhms secs in
  pad 4 y +:+ "-" +:+ pad 2 m +:+ "-" +:+ pad 2 d +:+ "T" +:+ pad 2 h +:+ ":" +:+ pad 2 mi
  +:+ ":" +:+ pad 2 s +:+ "Z".

(** [str::parse::<i64>()] and [str::parse::<u32>()]: an optional sign
    ([-] only for the signed type), then at least one digit, in range. *)
Fixpoint parse_digits (acc : Z) (s : string) : option Z :=
  match s with
  | EmptyString => Some acc
  | String c s' =>
    let d := Z.of_N (N_of_ascii c) - 48 in
    if (0 <=? d) && (d <=? 9) then parse_digits (acc * 10 + d) s' else None
  end.
Definition parse_sign (lo : Z) (s : string) : bool * string :=
  match s with
  | String "-" r => if lo <? 0 then (true, r) else (false, s)
  | String "+" r => (false, r)
  | _ => (false, s)
  end.
Definition parse_int (lo hi : Z) (s : string) : option Z :=
  let '(neg, body) := parse_sign lo s in
  if str_is_empty body then None
  else n ← parse_digits 0 body;
       let v := if neg : bool then - n else n in
       if (lo <=? v) && (v <=? hi) then Some v else None.
Definition parse_i64 : string -> option Z := parse_int (- 2 ^ 63) (2 ^ 63 - 1).
Definition parse_u32 : string -> option Z := parse_int 0 (2 ^ 32 - 1).

(** [str::is_char_boundary] and [str::get(a..b)]. *)
Definition is_char_boundary (s : string) (i : nat) : bool :=
  match String.get i s with
  | Some c => let b := Z.of_N (N_of_ascii c) in negb ((0x80 <=? b) && (b <? 0xC0))
  | None => (i =? String.length s)%nat
  end.
Definition str_get (s : string) (a b : nat) : option string :=
  if is_char_boundary s a && is_char_boundary s b then Some (String.substring a (b - a) s) else None.

(** [parse_iso8601]'s date part: (year, month, day) to days since 1970. *)
Definition ymd_to_days (year month day : Z) : Z :=
  let y := if month <=? 2 then year - 1 else year in
  let era := Z.quot (if 0 <=? y then y else y - 399) 400 in
  let yoe := as_u64 (y - era * 400) in
  let m := if 2 <? month then month - 3 else month + 9 in
  let doy := as_u64 ((153 * m + 2) / 5 + day - 1) in
  let doe := as_u64 (yoe * 365 + yoe / 4 - yoe / 100 + doy) in
  era * 146097 + as_i64 doe - 719468.

Definition parse_iso8601 (s : string) : option Z :=
  if (String.length s <? 19)%nat then None else
  year ← str_get s 0 4 ≫= parse_i64;
  month ← str_get s 5 7 ≫= parse_u32;
  day ← str_get s 8 10 ≫= parse_u32;
  hour ← str_get s 11 13 ≫= parse_u32;
  minute ← str_get s 14 16 ≫= parse_u32;
  second ← str_get s 17 19 ≫= parse_u32;
  let days := ymd_to_days year month day in
  Some (days * 86400 + hour * 3600 + minute * 60 + second).

Definition parse_minute (now : string) : Z :=
  let len := Nat.min (String.length now) 19 in
  if negb (is_char_boundary now len) || (len <? 19)%nat then 0
  else Z.quot (unwrap_or (parse_iso8601 (String.substring 0 19 now)) 0) 60.

(** ** Decimal fields *)

(** [digits w n]: the last [w] decimal digits of [n], most significant
    first.  Formatting with a width equals it for numbers that fit. *)
Definition dchar (d : Z) : ascii := ascii_of_N (Z.to_N (48 + d)).
Fixpoint digits (w : nat) (n : Z) : string :=
  match w with
  | O => ""
  | S w' => digits w' (n / 10) +:+ String (dchar (n mod 10)) ""
  end.

#[local] Ltac Zify.zify_post_hook ::= Z.div_mod_to_equations.

Lemma dchar_code d : 0 <= d < 10 -> Z.of_N (N_of_ascii (dchar d)) = 48 + d.
Proof. intros. unfold dchar. rewrite N_ascii_embedding; lia. Qed.

Lemma pretty_char_dchar x : (x < 10)%N -> pretty_N_char x = dchar (Z.of_N x).
Proof.
  intros. assert (x = 0 \/ x = 1 \/ x = 2 \/ x = 3 \/ x = 4 \/ x = 5 \/ x = 6 \/ x = 7 \/ x = 8 \/ x = 9)%N
    as Hx by lia.
  by repeat (destruct Hx as [->|Hx]; [done|]); subst.
Qed.

Lemma zeros_snoc n : zeros (S n) = zeros n +:+ "0".
Proof. induction n as [|n IH]; [done|]. simpl in *. rewrite str_app_cons. by f_equal. Qed.

Lemma zeros_digits w : zeros w = digits w 0.
Proof. induction w as [|w IH]; [done|]. rewrite zeros_snoc, IH. done. Qed.

Lemma length_digits w n : String.length (digits w n) = w.
Proof. revert n; induction w as [|w IH]; intros n; simpl; [done|]. rewrite str_length_app, IH. simpl. lia. Qed.

Lemma pretty_go_digits w x s : Z.of_N x < 10 ^ Z.of_nat w ->
  (String.length s <= String.length (pretty_N_go x s))%nat /\
  zeros (w - (String.length (pretty_N_go x s) - String.length s)) +:+ pretty_N_go x s
  = digits w (Z.of_N x) +:+ s.
Proof.
  revert x s; induction w as [|w IH]; intros x s Hx.
  - assert (x = 0%N) as -> by (simpl in Hx; lia). rewrite pretty_N_go_0. simpl. auto with lia.
  - destruct (decide (x = 0)%N) as [->|Hne].
    + rewrite pretty_N_go_0. split; [lia|]. by rewrite Nat.sub_diag, Nat.sub_0_r, zeros_digits.
    + rewrite pretty_N_go_step by lia.
      destruct (IH (x / 10)%N (String (pretty_N_char (x mod 10)) s)) as [Hlen Heq].
      { rewrite Nat2Z.inj_succ, Z.pow_succ_r in Hx by lia. lia. }
      simpl in Hlen. split; [lia|].
      replace (S w - _)%nat with (w - (String.length (pretty_N_go (x `div` 10) (String (pretty_N_char (x `mod` 10)) s))
        - String.length (String (pretty_N_char (x `mod` 10)) s)))%nat by (simpl; lia).
      rewrite Heq. simpl. rewrite str_app_assoc, str_app_cons. f_equal; [f_equal; lia|].
      f_equal. rewrite pretty_char_dchar by (apply N.mod_lt; lia). by rewrite N2Z.inj_mod.
Qed.

Lemma pad_digits w n : (0 < w)%nat -> 0 <= n < 10 ^ Z.of_nat w -> pad w n = digits w n.
Proof.
  intros Hw [Hn Hlt]. unfold pad. destruct (Z.ltb_spec n 0); [lia|].
  destruct n as [|p|p]; [| |lia].
  - destruct w as [|w]; [lia|]. simpl. rewrite Nat.sub_0_r. by rewrite zeros_digits.
  - change (pretty (Zpos p)) with (pretty_N_go (Npos p) "").
    destruct (pretty_go_digits w (Npos p) "") as [_ Hgo]; [done|].
    rewrite str_app_nil_r in Hgo. simpl in Hgo. by rewrite Nat.sub_0_r in Hgo.
Qed.

Lemma parse_digits_digits w n acc s : 0 <= n < 10 ^ Z.of_nat w ->
  parse_digits acc (digits w n +:+ s) = parse_digits (acc * 10 ^ Z.of_nat w + n) s.
Proof.
  revert n s; induction w as [|w IH]; intros n s Hn.
  - simpl in *. f_equal. lia.
  - rewrite Nat2Z.inj_succ, Z.pow_succ_r in * by lia. simpl digits.
    rewrite str_app_assoc, str_app_cons, IH by lia. simpl. rewrite dchar_code by lia.
    destruct (Z.leb_spec 0 (48 + n mod 10 - 48)); [|lia].
    destruct (Z.leb_spec (48 + n mod 10 - 48) 9); [|lia]. cbn [andb].
    change (("" +:+ s)) with s. f_equal. lia.
Qed.

Lemma compare_digits w a b : 0 <= a < 10 ^ Z.of_nat w -> 0 <= b < 10 ^ Z.of_nat w ->
  String.compare (digits w a) (digits w b) = (a ?= b).
Proof.
  revert a b; induction w as [|w IH]; intros a b Ha Hb.
  - simpl in *. symmetry. apply Z.compare_eq_iff. lia.
  - rewrite Nat2Z.inj_succ, Z.pow_succ_r in * by lia. simpl digits.
    rewrite str_compare_app by (by rewrite !length_digits). rewrite IH by lia.
    destruct (Z.compare_spec (a / 10) (b / 10)).
    + unfold String.compare, Ascii.compare. rewrite <- N2Z.inj_compare, !dchar_code by lia.
      destruct (Z.compare_spec (48 + a mod 10) (48 + b mod 10)); symmetry;
        [apply Z.compare_eq_iff|apply Z.compare_lt_iff|apply Z.compare_gt_iff]; lia.
    + symmetry. apply Z.compare_lt_iff. lia.
    + symmetry. apply Z.compare_gt_iff. lia.
Qed.

Lemma parse_int_digits lo hi w n : (0 < w)%nat -> 0 <= n < 10 ^ Z.of_nat w -> lo <= 0 -> n <= hi ->
  parse_int lo hi (digits w n) = Some n.
Proof.
  intros Hw Hn Hlo Hhi. pose proof (parse_digits_digits w n 0 "" Hn) as Hp.
  rewrite str_app_nil_r in Hp. replace (0 * 10 ^ Z.of_nat w + n) with n in Hp by lia. simpl in Hp.
  pose proof (length_digits w n) as Hl. unfold parse_int.
  destruct (digits w n) as [|c s] eqn:E; [simpl in Hl; lia|].
  replace (parse_sign lo (String c s)) with (false, String c s).
  2: { destruct c as [[] [] [] [] [] [] [] []]; try done; cbn in Hp; discriminate. }
  simpl str_is_empty. cbv iota. rewrite Hp. simpl.
  destruct (Z.leb_spec lo n); [|lia]. destruct (Z.leb_spec n hi); [done|lia].
Qed.

(** ** The civil calendar *)

(** The quantities [days_to_ymd] computes, for a day number counted from
    0000-03-01: the era, the year and the day inside it, the March-based
    month and the day of the month. *)
Definition year_start (Y : Z) : Z := 365 * Y + Y / 4 - Y / 100 + Y / 400.
Record civil (z Y mp d : Z) : Prop := {
  civil_mp : 0 <= mp <= 11;
  civil_d : 1 <= d <= 31;
  civil_eq : z = year_start Y + (153 * mp + 2) / 5 + d - 1;
  civil_year : year_start Y <= z < year_start (Y + 1);
  civil_month : mp = (5 * (z - year_start Y) + 2) / 153
}.

(** The calendar year starts in January, the civil one in March. *)
Definition civil_y (Y mp : Z) : Z := if 10 <=? mp then Y + 1 else Y.
Definition civil_m (mp : Z) : Z := if 10 <=? mp then mp - 9 else mp + 3.

Lemma era_year doe : 0 <= doe < 146097 ->
  let yoe := (doe - doe / 1460 + doe / 36524 - doe / 146096) / 365 in
  0 <= yoe < 400 /\ 0 <= doe - (365 * yoe + yoe / 4 - yoe / 100) <= 365 /\ doe < year_start (yoe + 1).
Proof. unfold year_start. simpl. lia. Qed.

Lemma era_month doy : 0 <= doy <= 365 ->
  let mp := (5 * doy + 2) / 153 in 0 <= mp <= 11 /\ 1 <= doy - (153 * mp + 2) / 5 + 1 <= 31.
Proof. simpl. lia. Qed.

Lemma days_to_ymd_civil days : 0 <= days < 2932897 ->
  exists Y mp d, civil (days + 719468) Y mp d /\
    1970 <= civil_y Y mp <= 9999 /\ days_to_ymd days = (civil_y Y mp, civil_m mp, d).
Proof.
  intros Hd. unfold days_to_ymd. destruct (Z.leb_spec 0 (days + 719468)); [|lia].
  rewrite Z.quot_div_nonneg by lia. cbv zeta.
  set (era := (days + 719468) / 146097).
  unfold as_u64. rewrite (Z.mod_small (_ - _)) by (subst era; lia).
  set (doe := days + 719468 - era * 146097). assert (0 <= doe < 146097) as Hdoe by (subst doe era; lia).
  pose proof (era_year doe Hdoe) as (Hyoe & Hdoy & Hnext). cbv zeta in *.
  set (yoe := (doe - doe / 1460 + doe / 36524 - doe / 146096) / 365) in *.
  set (doy := doe - (365 * yoe + yoe / 4 - yoe / 100)) in *.
  pose proof (era_month doy Hdoy) as [Hmp Hday]. cbv zeta in *.
  set (mp := (5 * doy + 2) / 153) in *.
  assert (era * 146097 + 365 * yoe + yoe / 4 - yoe / 100 = year_start (era * 400 + yoe))
    as HY by (unfold year_start; clear -Hyoe; lia).
  assert (era * 146097 + year_start (yoe + 1) = year_start (era * 400 + yoe + 1))
    as HY1 by (unfold year_start; clear -Hyoe; lia).
  assert (days + 719468 - (era * 146097 + 365 * yoe + yoe / 4 - yoe / 100) = doy) as Hdoy' by (subst doy doe; lia).
  assert (1970 <= civil_y (era * 400 + yoe) mp <= 9999) as HYr.
  { clear -HY Hdoy' Hdoy Hd Hyoe Hmp Hday. unfold civil_y, year_start in *. case_test; lia. }
  exists (era * 400 + yoe), mp, (doy - (153 * mp + 2) / 5 + 1). split; [|split; [done|]].
  - split; rewrite <- ?HY1, <- ?HY, ?Hdoy'; subst doy doe; lia || done.
  - unfold civil_y, civil_m, as_u32, as_i32 in *. rewrite !(Z.mod_small _ (2 ^ 32)) by (repeat case_match; lia).
    destruct (Z.ltb_spec mp 10), (Z.leb_spec 10 mp); try lia;
      case_match; bool_to_prop; f_equal; try lia; f_equal; lia.
Qed.

Lemma civil_lt z1 Y1 mp1 d1 z2 Y2 mp2 d2 :
  civil z1 Y1 mp1 d1 -> civil z2 Y2 mp2 d2 -> z1 < z2 ->
  Y1 < Y2 \/ Y1 = Y2 /\ (mp1 < mp2 \/ mp1 = mp2 /\ d1 < d2).
Proof.
  unfold year_start. intros [] [] Hz. unfold year_start in *. destruct (Z.lt_trichotomy Y1 Y2) as [|[->|]]; [auto| |exfalso; lia].
  right. split; [done|]. destruct (Z.lt_trichotomy mp1 mp2) as [|[->|]]; [auto|auto with lia|exfalso; lia].
Qed.

Lemma ymd_to_days_civil z Y mp d : civil z Y mp d -> 1970 <= civil_y Y mp <= 9999 ->
  ymd_to_days (civil_y Y mp) (civil_m mp) d = z - 719468.
Proof.
  intros [Hmp Hd Hz _ _] Hy. unfold ymd_to_days, year_start in *.
  assert ((if civil_m mp <=? 2 then civil_y Y mp - 1 else civil_y Y mp) = Y) as ->
    by (unfold civil_m, civil_y; repeat case_test; lia).
  assert ((if 2 <? civil_m mp then civil_m mp - 3 else civil_m mp + 9) = mp) as ->
    by (unfold civil_m; repeat case_test; lia).
  assert (1969 <= Y <= 9999) as HY by (unfold civil_y in Hy; case_test; lia). cbv zeta.
  destruct (Z.leb_spec 0 Y); [|lia]. rewrite Z.quot_div_nonneg by lia.
  unfold as_u64, as_i64. rewrite (Z.mod_small (Y - _)) by lia.
  rewrite (Z.mod_small ((153 * mp + 2) / 5 + d - 1)) by lia.
  set (D := (Y - Y / 400 * 400) * 365 + (Y - Y / 400 * 400) / 4 - (Y - Y / 400 * 400) / 100
    + ((153 * mp + 2) / 5 + d - 1)). assert (0 <= D < 200000) by (subst D; lia).
  rewrite (Z.mod_small D) by lia. rewrite Z.mod_small by lia. subst D. lia.
Qed.

(** ** Formatted timestamps *)

(** The representable range: through 9999-12-31T23:59:59Z. *)
Definition in_range (secs : Z) : Prop := 0 <= secs < 253402300800.

Record fields (secs Y mp d : Z) : Prop := {
  fields_civil : civil (secs / 86400 + 719468) Y mp d;
  fields_year : 1970 <= civil_y Y mp <= 9999;
  fields_fmt : now_iso8601 secs =
    digits 4 (civil_y Y mp) +:+ "-" +:+ digits 2 (civil_m mp) +:+ "-" +:+ digits 2 d +:+ "T" +:+
    digits 2 (secs mod 86400 / 3600) +:+ ":" +:+ digits 2 (secs mod 86400 mod 3600 / 60) +:+ ":" +:+
    digits 2 (secs mod 86400 mod 60) +:+ "Z"
}.

Lemma civil_m_bounds mp : 0 <= mp <= 11 -> 1 <= civil_m mp <= 12.
Proof. unfold civil_m. case_test; lia. Qed.

Lemma now_fields secs : in_range secs -> exists Y mp d, fields secs Y mp d.
Proof.
  intros Hs. unfold in_range in Hs.
  destruct (days_to_ymd_civil (secs / 86400)) as (Y & mp & d & Hc & Hy & E); [lia|].
  exists Y, mp, d. split; [done|done|]. unfold now_iso8601, secs_to_ymdhms. rewrite E.
  pose proof (civil_m_bounds _ (civil_mp _ _ _ _ Hc)). pose proof (civil_d _ _ _ _ Hc).
  unfold as_u32. rewrite !(Z.mod_small _ (2 ^ 32)) by lia.
  by rewrite !pad_digits by lia.
Qed.

(** Lexicographic comparison, the way string comparison proceeds. *)
Definition lex (c r : comparison) : comparison := match c with Eq => r | _ => c end.

Lemma compare_field w a b s t : 0 <= a < 10 ^ Z.of_nat w -> 0 <= b < 10 ^ Z.of_nat w ->
  String.compare (digits w a +:+ s) (digits w b +:+ t) =
  lex (a ?= b) (String.compare s t).
Proof.
  intros. rewrite str_compare_app by (by rewrite !length_digits). rewrite compare_digits by done.
  by destruct (a ?= b).
Qed.

Lemma compare_sep c s t : String.compare (String c "" +:+ s) (String c "" +:+ t) = String.compare s t.
Proof. rewrite str_compare_app by done. by rewrite str_compare_refl. Qed.

Ltac case_cmp :=
  match goal with |- context [?a ?= ?b] => destruct (Z.compare_spec a b); simpl end.

Lemma civil_compare z1 Y1 mp1 d1 z2 Y2 mp2 d2 r : civil z1 Y1 mp1 d1 -> civil z2 Y2 mp2 d2 ->
  lex (civil_y Y1 mp1 ?= civil_y Y2 mp2) (lex (civil_m mp1 ?= civil_m mp2) (lex (d1 ?= d2) r))
  = lex (z1 ?= z2) r.
Proof.
  intros C1 C2. pose proof (civil_mp _ _ _ _ C1). pose proof (civil_mp _ _ _ _ C2).
  destruct (Z.compare_spec z1 z2) as [->|Hlt|Hgt].
  - assert (Y1 = Y2) as -> by (unfold year_start in *; destruct C1, C2; unfold year_start in *; lia).
    assert (mp1 = mp2) as -> by (destruct C1, C2; congruence).
    assert (d1 = d2) as -> by (destruct C1, C2; lia). by rewrite !Z.compare_refl.
  - pose proof (civil_lt _ _ _ _ _ _ _ _ C1 C2 Hlt). clear C1 C2. unfold civil_y, civil_m.
    repeat case_test; repeat case_cmp; lia || done.
  - pose proof (civil_lt _ _ _ _ _ _ _ _ C2 C1 Hgt). clear C1 C2. unfold civil_y, civil_m.
    repeat case_test; repeat case_cmp; lia || done.
Qed.

Lemma time_compare t1 t2 :
  lex (t1 / 3600 ?= t2 / 3600) (lex (t1 mod 3600 / 60 ?= t2 mod 3600 / 60) (t1 mod 60 ?= t2 mod 60))
  = (t1 ?= t2).
Proof.
  destruct (Z.compare_spec t1 t2) as [->|Hlt|Hgt]; [by rewrite !Z.compare_refl| |];
    repeat case_cmp; lia || done.
Qed.

Lemma now_compare s1 s2 : in_range s1 -> in_range s2 ->
  String.compare (now_iso8601 s1) (now_iso8601 s2) = (s1 ?= s2).
Proof.
  intros H1 H2. destruct (now_fields s1 H1) as (Y1 & m1 & d1 & F1), (now_fields s2 H2) as (Y2 & m2 & d2 & F2).
  unfold in_range in *. rewrite (fields_fmt _ _ _ _ F1), (fields_fmt _ _ _ _ F2).
  destruct F1 as [C1 R1 _], F2 as [C2 R2 _].
  transitivity (lex (s1 / 86400 + 719468 ?= s2 / 86400 + 719468) (s1 mod 86400 ?= s2 mod 86400)).
  2: { destruct (Z.compare_spec (s1 / 86400 + 719468) (s2 / 86400 + 719468)); simpl;
       repeat case_cmp; lia || done. }
  rewrite <- (time_compare (s1 mod 86400)), <- (civil_compare _ _ _ _ _ _ _ _ _ C1 C2).
  destruct C1 as [? ? _ _ _], C2 as [? ? _ _ _].
  pose proof (civil_m_bounds m1 ltac:(lia)). pose proof (civil_m_bounds m2 ltac:(lia)).
  repeat first [rewrite compare_field by lia | rewrite compare_sep].
  by destruct (s1 mod 86400 mod 60 ?= s2 mod 86400 mod 60).
Qed.

(** Over the years 1970 to 9999 the string order of formatted
    timestamps is the order of the instants, so comparing timestamps as
    strings, as every expiry check of the code does, is sound. *)
Theorem clock_monotone s1 s2 : in_range s1 -> in_range s2 ->
  str_lt (now_iso8601 s1) (now_iso8601 s2) = (s1 <? s2).
Proof.
  intros H1 H2. unfold str_lt, String.ltb. rewrite now_compare by done. unfold Z.ltb. done.
Qed.

Lemma clock_monotone_witness :
  in_range 1709164800 /\ in_range 1709251200 /\
  str_lt (now_iso8601 1709164800) (now_iso8601 1709251200) = (1709164800 <? 1709251200).
Proof.
  assert (in_range 1709164800 /\ in_range 1709251200) as [H1 H2] by (unfold in_range; lia).
  split; [done|split; [done|]]. apply (clock_monotone _ _ H1 H2).
Defined.

(** *** Reading a timestamp back *)

(** ASCII strings, in which every position is a character boundary. *)
Fixpoint is_ascii (s : string) : bool :=
  match s with EmptyString => true | String c s' => (Z.of_N (N_of_ascii c) <? 128) && is_ascii s' end.

Lemma is_ascii_app s t : is_ascii (s +:+ t) = is_ascii s && is_ascii t.
Proof. induction s as [|c s IH]; [done|]. rewrite str_app_cons. simpl. by rewrite IH, andb_assoc. Qed.

Lemma is_ascii_digits w n : is_ascii (digits w n) = true.
Proof.
  revert n; induction w as [|w IH]; intros n; [done|]. simpl. rewrite is_ascii_app, IH. simpl.
  rewrite dchar_code by lia. destruct (Z.ltb_spec (48 + n mod 10) 128); [done|lia].
Qed.

Lemma ascii_boundary s i : is_ascii s = true -> (i <= String.length s)%nat -> is_char_boundary s i = true.
Proof.
  unfold is_char_boundary. revert i; induction s as [|c s IH]; intros [|i] Hs Hi; simpl in *; try lia.
  apply andb_prop in Hs as [_ Hs]. apply IH; [done|lia].
Qed.

Lemma substring_take q r : String.substring 0 (String.length q) (q +:+ r) = q.
Proof. induction q as [|c q IH]; [by destruct r|]. rewrite str_app_cons. simpl. by rewrite IH. Qed.

Lemma ascii_str_get s a b : is_ascii s = true -> (a <= b)%nat -> (b <= String.length s)%nat ->
  str_get s a b = Some (String.substring a (b - a) s).
Proof. intros. unfold str_get. by rewrite !ascii_boundary by (done || lia). Qed.

Ltac fold2 n :=
  change (String (dchar (n / 10 mod 10)) (String (dchar (n mod 10)) "")) with (digits 2 n).

Lemma parse_iso8601_fields y mo d h mi s rest :
  0 <= y < 10000 -> 0 <= mo < 100 -> 0 <= d < 100 -> 0 <= h < 100 -> 0 <= mi < 100 -> 0 <= s < 100 ->
  is_ascii rest = true ->
  parse_iso8601 (digits 4 y +:+ "-" +:+ digits 2 mo +:+ "-" +:+ digits 2 d +:+ "T" +:+
    digits 2 h +:+ ":" +:+ digits 2 mi +:+ ":" +:+ digits 2 s +:+ rest)
  = Some (ymd_to_days y mo d * 86400 + h * 3600 + mi * 60 + s).
Proof.
  intros Hy Hmo Hd Hh Hmi Hs Hr. unfold parse_iso8601.
  set (str := digits 4 y +:+ _). assert (is_ascii str = true) as Ha.
  { subst str. by rewrite !is_ascii_app, !is_ascii_digits, Hr. }
  assert (19 <= String.length str)%nat as Hlen.
  { subst str. rewrite !str_length_app, !length_digits. simpl. lia. }
  destruct (Nat.ltb_spec (String.length str) 19); [lia|].
  rewrite !ascii_str_get by (done || lia). simpl mbind. simpl Nat.sub.
  subst str. clear Ha Hlen H. unfold parse_i64, parse_u32.
  replace (String.substring 0 0 ("" +:+ rest)) with "" by (by destruct rest).
  fold2 mo; fold2 d; fold2 h; fold2 mi; fold2 s.
  change (String (dchar (y / 10 / 10 / 10 mod 10)) (String (dchar (y / 10 / 10 mod 10))
    (String (dchar (y / 10 mod 10)) (String (dchar (y mod 10)) "")))) with (digits 4 y).
  by rewrite !parse_int_digits by lia.
Qed.

Lemma now_core secs : in_range secs -> exists core,
  now_iso8601 secs = core +:+ "Z" /\ String.length core = 19%nat /\ is_ascii core = true /\
  (forall rest, is_ascii rest = true -> parse_iso8601 (core +:+ rest) = Some secs).
Proof.
  intros Hr. destruct (now_fields secs Hr) as (Y & mp & d & [C Hy E]).
  exists (digits 4 (civil_y Y mp) +:+ "-" +:+ digits 2 (civil_m mp) +:+ "-" +:+ digits 2 d +:+ "T" +:+
    digits 2 (secs mod 86400 / 3600) +:+ ":" +:+ digits 2 (secs mod 86400 mod 3600 / 60) +:+ ":" +:+
    digits 2 (secs mod 86400 mod 60)).
  split; [by rewrite E, !str_app_assoc|]. split; [by rewrite !str_length_app, !length_digits|].
  split; [by rewrite !is_ascii_app, !is_ascii_digits|]. intros rest Hrest.
  pose proof (civil_m_bounds _ (civil_mp _ _ _ _ C)). pose proof (civil_d _ _ _ _ C).
  unfold in_range in Hr. rewrite !str_app_assoc, parse_iso8601_fields by (lia || done).
  rewrite (ymd_to_days_civil _ _ _ _ C Hy). f_equal. lia.
Qed.

(** Parsing inverts formatting over the years 1970 to 9999: the relay's
    [parse_iso8601] gives back the instant a timestamp was made from, and
    [parse_minute] its minute. *)
Theorem clock_roundtrip secs : in_range secs ->
  parse_iso8601 (now_iso8601 secs) = Some secs /\ parse_minute (now_iso8601 secs) = secs / 60.
Proof.
  intros Hr. destruct (now_core secs Hr) as (core & -> & Hl & Ha & Hp). split; [by apply Hp|].
  unfold parse_minute. rewrite str_length_app, Hl. simpl Nat.min. simpl Nat.ltb.
  rewrite ascii_boundary by (rewrite ?is_ascii_app, ?str_length_app, ?Ha, ?Hl; simpl; lia || done). simpl.
  rewrite <- Hl, substring_take. specialize (Hp "" eq_refl). rewrite str_app_nil_r in Hp. rewrite Hp.
  unfold in_range in Hr. simpl. apply Z.quot_div_nonneg; lia.
Qed.

Lemma clock_roundtrip_witness : in_range 1709251199 /\
  parse_iso8601 (now_iso8601 1709251199) = Some 1709251199 /\
  parse_minute (now_iso8601 1709251199) = 1709251199 / 60.
Proof.
  assert (in_range 1709251199) as H by (unfold in_range; lia).
  split; [exact H|]. apply (clock_roundtrip _ H).
Defined.

End Clock.
