(* ===== verification/Common.v ===== *)
(** * Common: the shared schema types ([tf-types/src/generated/common.rs])

    Identifiers, timestamps and hash references are strings in the
    source ([ActorId], [Timestamp], [HashRef], ... are type aliases of
    [String]); integers are [i64]. *)

From S2P Require Import Prelude.

Inductive ActorType :=
| AHuman | AAgent | ADevice | AService | ASite | AOrganization | ARelay | APlugin
| AProcess | ATool | AModelProvider | APolicyEngine | AProofAnchor | AEmergencyAuthority.

#[export] Instance ActorType_eq_dec : EqDecision ActorType.
Proof. solve_decision. Defined.

Inductive ApprovalRequirement := ReqNone | ReqConditional | ReqRequired | ReqQuorum.

#[export] Instance ApprovalRequirement_eq_dec : EqDecision ApprovalRequirement.
Proof. solve_decision. Defined.

Inductive ProofLevel := L0 | L1 | L2 | L3 | L4 | L5.
Inductive RiskClass := R0 | R1 | R2 | R3 | R4 | R5.
Inductive TrustLevel := T0 | T1 | T2 | T3 | T4 | T5 | T6 | T7.

#[export] Instance ProofLevel_eq_dec : EqDecision ProofLevel.
Proof. solve_decision. Defined.
#[export] Instance TrustLevel_eq_dec : EqDecision TrustLevel.
Proof. solve_decision. Defined.

Record SignatureEnvelope := mk_SignatureEnvelope {
  algorithm : string;
  signer : string;
  signature : string;
  hash_alg : option string;
  alt_algorithm : option string;
  alt_signature : option string;
}.

(** Capability constraints, discriminated by [kind] on the wire. *)
Inductive Constraint :=
| TimeWindow (from : option string) (until : string)
| Target (patterns : list string)
| Quantity (max : Z) (unit : option string)
| Rate (max_per_window window_seconds : Z)
| Session (session_id : string)
| Approval (approval : ApprovalRequirement)
| Quorum (quorum : Z) (of_ : list string)
| DeviceBinding (device_actor : string).

Record Capability := mk_Capability {
  cap_name : string;
  cap_risk : RiskClass;
  cap_proof_required : option ProofLevel;
  cap_approval : option ApprovalRequirement;
  cap_constraints : option (list Constraint);
  cap_single_use : option bool;
  cap_delegable : option bool;
  cap_revocable : option bool;
  cap_offline_valid : option bool;
  cap_expires_at : option string;
}.

Record Redelegation := mk_Redelegation {
  allowed : bool;
  max_depth : option Z;
}.

(** One step in a delegation chain. *)
Record DelegationLink := mk_DelegationLink {
  delegator : string;
  delegate : string;
  capabilities : list Capability;
  constraints : option (list Constraint);
  link_expires_at : option string;
  redelegation : option Redelegation;
  proof_ref : option string;
}.

#[export] Instance Constraint_eq_dec : EqDecision Constraint.
Proof. solve_decision. Defined.
