(* ===== verification/Expiration.v ===== *)
(** * Expiration: validity windows ([tf-types/src/expiration.rs])

    Timestamps are RFC 3339 strings compared byte-wise, as the module
    documents.  Relays, packets and permission grants use
    [is_within_window]. *)

From S2P Require Import Prelude.

Module Expiration.

Record Window := mk_Window {
  valid_from : option string;
  valid_until : option string;
  expires_at : option string;
  not_before : option string;
  not_after : option string;
}.

(** [Window::default()]. *)
Definition default_window : Window := mk_Window None None None None None.

Inductive ExpirationVerdict :=
| VOk
| VNotYetValid (threshold : string)
| VExpired (threshold : string).

(** The bounds in their order of precedence. *)
Definition window_start (w : Window) : option string := opt_or (valid_from w) (not_before w).
Definition window_end (w : Window) : option string :=
  opt_or (opt_or (valid_until w) (expires_at w)) (not_after w).

Definition check_window (w : Window) (now : string) : ExpirationVerdict :=
  let after_start :=
    match window_end w with
    | Some e => if str_lt e now then VExpired e else VOk
    | None => VOk
    end in
  match window_start w with
  | Some s => if str_lt now s then VNotYetValid s else after_start
  | None => after_start
  end.

Definition is_within_window (w : Window) (now : string) : bool :=
  match check_window w now with VOk => true | _ => false end.

Definition is_expired (w : Window) (now : string) : bool :=
  match check_window w now with VExpired _ => true | _ => false end.

(** What a window means: both bounds are inclusive, an absent bound is
    no bound. *)
Definition in_window (w : Window) (now : string) : Prop :=
  (forall s, window_start w = Some s -> str_le s now = true) /\
  (forall e, window_end w = Some e -> str_le now e = true).

Lemma is_within_window_iff w now : is_within_window w now = true <-> in_window w now.
Proof.
  unfold is_within_window, check_window, in_window, str_le, str_lt.
  destruct (window_start w) as [s|], (window_end w) as [e|];
    repeat case_test; simpl; split; try done;
    repeat match goal with
    | |- _ -> _ => intros
    | |- _ /\ _ => split
    | H : Some _ = Some _ |- _ => injection H as <-
    | H : _ /\ _ |- _ => destruct H
    end; subst; try congruence; try discriminate;
    repeat match goal with
    | H : forall x, Some ?y = Some x -> _ |- _ => specialize (H y eq_refl)
    end; try rewrite negb_true_iff in *; congruence.
Qed.

(** the verdict of [check_window] is exact on every branch: [VOk] when
    the instant lies inside both inclusive bounds, [VNotYetValid] with the
    start it precedes, [VExpired] with the end it has passed and only
    after the start check succeeded. *)
Theorem check_window_exact w now :
  match check_window w now with
  | VOk => in_window w now
  | VNotYetValid s => window_start w = Some s /\ str_lt now s = true
  | VExpired e => window_end w = Some e /\ str_lt e now = true /\
                  forall s, window_start w = Some s -> str_le s now = true
  end.
Proof.
  pose proof (is_within_window_iff w now) as Hw. unfold is_within_window in Hw.
  destruct (check_window w now) eqn:E; [by apply Hw|..];
    unfold check_window in E; unfold str_le;
    destruct (window_start w) as [s|], (window_end w) as [e|];
    repeat case_test; try discriminate; injection E as <-; try done.
  split_and!; [done..|]. intros s' [= <-]. by rewrite negb_true_iff.
Qed.

End Expiration.
