(* ===== verification/Revocation.v ===== *)
(** * Revocation: the in-memory revocation index
    ([tf-types/src/revocation.rs], with the record of
    [generated/revocation.rs]). *)

From S2P Require Import Prelude Common.

Module Revocation.

Inductive TargetKind := KCapability | KActor | KDelegation | KInstance.

#[export] Instance TargetKind_eq_dec : EqDecision TargetKind.
Proof. solve_decision. Defined.
#[export] Instance TargetKind_countable : Countable TargetKind.
Proof.
  refine (inj_countable'
    (fun k => match k with KCapability => 0 | KActor => 1 | KDelegation => 2 | KInstance => 3 end%nat)
    (fun n => match n with 0 => KCapability | 1 => KActor | 2 => KDelegation | _ => KInstance end%nat) _).
  by intros [].
Defined.

Inductive RevocationVersion := V1.

Record Revocation := mk_Revocation {
  revocation_version : RevocationVersion;
  id : string;
  target_id : string;
  target_kind : TargetKind;
  effective_at : string;
  reason : option string;
  reinstatement_possible : option bool;
  issuer : string;
  rev_signature : SignatureEnvelope;
}.

(** [HashMap<Revocation_TargetKind, HashMap<String, Revocation>>]. *)
Record RevocationIndex := mk_RevocationIndex {
  by_kind : gmap TargetKind (gmap string Revocation);
}.

(** One turn of the [from_slice] loop: the earliest [effective_at] wins,
    the first one on a tie. *)
Definition add_revocation (m : gmap TargetKind (gmap string Revocation)) (r : Revocation)
    : gmap TargetKind (gmap string Revocation) :=
  let bucket := default ∅ (m !! target_kind r) in
  let bucket' :=
    match bucket !! target_id r with
    | Some existing =>
      if str_le (effective_at existing) (effective_at r) then bucket
      else <[target_id r := r]> bucket
    | None => <[target_id r := r]> bucket
    end in
  <[target_kind r := bucket']> m.

Definition from_slice (rs : list Revocation) : RevocationIndex :=
  mk_RevocationIndex (foldl add_revocation ∅ rs).

Definition is_revoked (ix : RevocationIndex) (i : string) (k : TargetKind) (at_ : string) : bool :=
  match by_kind ix !! k with
  | None => false
  | Some bucket =>
    match bucket !! i with
    | None => false
    | Some rev => str_le (effective_at rev) at_
    end
  end.

(** ** The index holds, per target, a revocation of least [effective_at]. *)

Definition lookup2 (m : gmap TargetKind (gmap string Revocation)) k i : option Revocation :=
  m !! k ≫= fun b => b !! i.

Definition index_ok (rs : list Revocation) (m : gmap TargetKind (gmap string Revocation)) : Prop :=
  forall k i,
    match lookup2 m k i with
    | None => forall r, r ∈ rs -> target_kind r = k -> target_id r <> i
    | Some e =>
      e ∈ rs /\ target_kind e = k /\ target_id e = i /\
      forall r, r ∈ rs -> target_kind r = k -> target_id r = i ->
        str_le (effective_at e) (effective_at r) = true
    end.

Lemma lookup2_add m r k i :
  lookup2 (add_revocation m r) k i =
  if decide (target_kind r = k /\ target_id r = i) then
    match lookup2 m k i with
    | Some e => if str_le (effective_at e) (effective_at r) then Some e else Some r
    | None => Some r
    end
  else lookup2 m k i.
Proof.
  unfold lookup2, add_revocation. rewrite lookup_insert.
  destruct (decide (target_kind r = k)) as [<-|Hk].
  - simpl. destruct (m !! target_kind r) as [b|] eqn:Eb; simpl.
    + destruct (decide (target_id r = i)) as [<-|Hi].
      * rewrite decide_True by done.
        destruct (b !! target_id r) as [e|] eqn:Ee; simpl.
        -- case_test; [done|by simplify_map_eq].
        -- by simplify_map_eq.
      * rewrite decide_False by tauto.
        destruct (b !! target_id r); repeat case_test; by simplify_map_eq.
    + rewrite lookup_empty. destruct (decide (target_id r = i)) as [<-|Hi].
      * rewrite decide_True by done. by simplify_map_eq.
      * rewrite decide_False by tauto. by simplify_map_eq.
  - rewrite decide_False by tauto. done.
Qed.

Lemma add_revocation_ok rs m r : index_ok rs m -> index_ok (rs ++ [r]) (add_revocation m r).
Proof.
  intros Hok k i. rewrite lookup2_add. specialize (Hok k i).
  destruct (decide (target_kind r = k /\ target_id r = i)) as [[<- <-]|Hne].
  - destruct (lookup2 m (target_kind r) (target_id r)) as [e|] eqn:E.
    + destruct Hok as (Hin & Hk & Hi & Hmin). case_test.
      * split_and!; [set_solver|done|done|].
        intros r' [Hr'|Hr']%elem_of_app Hk' Hi'; [by apply Hmin|].
        apply list_elem_of_singleton in Hr' as ->. done.
      * split_and!; [set_solver|done|done|].
        intros r' [Hr'|Hr']%elem_of_app Hk' Hi'.
        -- eapply str_le_trans; [|by apply Hmin]. by apply str_le_total.
        -- apply list_elem_of_singleton in Hr' as ->. apply str_le_refl.
    + split_and!; [set_solver|done|done|].
      intros r' [Hr'|Hr']%elem_of_app Hk' Hi'; [by destruct (Hok r')|].
      apply list_elem_of_singleton in Hr' as ->. apply str_le_refl.
  - destruct (lookup2 m k i) as [e|] eqn:E.
    + destruct Hok as (Hin & Hk & Hi & Hmin). split_and!; [set_solver|done|done|].
      intros r' [Hr'|Hr']%elem_of_app Hk' Hi'; [by apply Hmin|].
      apply list_elem_of_singleton in Hr' as ->. tauto.
    + intros r' [Hr'|Hr']%elem_of_app Hk'; [by apply Hok|].
      apply list_elem_of_singleton in Hr' as ->. tauto.
Qed.

Lemma from_slice_ok rs : index_ok rs (by_kind (from_slice rs)).
Proof.
  induction rs as [|r rs IH] using rev_ind; simpl.
  - intros k i. unfold lookup2. rewrite lookup_empty. simpl. set_solver.
  - rewrite foldl_app. simpl. by apply add_revocation_ok.
Qed.

(** an identifier is reported revoked at an instant exactly when some
    record of the slice revokes that identifier, for that kind, with an
    [effective_at] not after the instant.  Duplicate records never hide an
    earlier revocation. *)
Theorem is_revoked_iff rs i k at_ :
  is_revoked (from_slice rs) i k at_ = true <->
  exists r, r ∈ rs /\ target_kind r = k /\ target_id r = i /\
            str_le (effective_at r) at_ = true.
Proof.
  assert (Heq : is_revoked (from_slice rs) i k at_ =
    match lookup2 (by_kind (from_slice rs)) k i with
    | Some e => str_le (effective_at e) at_ | None => false end).
  { unfold is_revoked, lookup2. by destruct (by_kind (from_slice rs) !! k). }
  rewrite Heq. pose proof (from_slice_ok rs k i) as Hok.
  destruct (lookup2 _ k i) as [e|].
  - destruct Hok as (Hin & Hk & Hi & Hmin). split; [by eauto|].
    intros (r & Hr & Hrk & Hri & Hle). eapply str_le_trans; [|exact Hle]. by apply Hmin.
  - split; [done|]. intros (r & Hr & Hrk & Hri & _). by destruct (Hok r Hr Hrk).
Qed.

End Revocation.
