(* ===== verification/Capability.v ===== *)
(** * Capability: constraint evaluation and delegation chains

    [Capability] models [tf-types/src/capability.rs], [Delegation] models
    [tf-types/src/delegation.rs].  The theorems say when intersecting two
    constraint sets really is at least as strict as each of them, where
    it is not, and exactly which delegation chains are accepted. *)

From S2P Require Import Prelude Utf8 Glob Common.
Import Glob.

Module Capability.

(** ** Code *)

Record EvalContext := mk_EvalContext {
  now : string;
  session_id : option string;
  target : option string;
  approver_count : option Z;
  device_actor : option string;
}.

Definition satisfies (c : Constraint) (ctx : EvalContext) : bool :=
  match c with
  | TimeWindow from until =>
    if match from with Some f => str_lt (now ctx) f | None => false end then false
    else str_le (now ctx) until
  | Target patterns =>
    match target ctx with
    | Some t => existsb (fun p => glob_match p t) patterns
    | None => false
    end
  | Quantity _ _ => true
  | Rate _ _ => true
  | Session sid => bool_decide (session_id ctx = Some sid)
  | Approval a => match a with ReqNone | ReqConditional => true | _ => false end
  | Quorum q _ => q <=? unwrap_or (approver_count ctx) 0
  | DeviceBinding d => bool_decide (device_actor ctx = Some d)
  end.

Definition constraints_satisfied (cs : list Constraint) (ctx : EvalContext) : bool :=
  forallb (fun c => satisfies c ctx) cs.

Definition same_kind (a b : Constraint) : bool :=
  match a, b with
  | TimeWindow _ _, TimeWindow _ _ | Target _, Target _ | Quantity _ _, Quantity _ _
  | Rate _ _, Rate _ _ | Session _, Session _ | Approval _, Approval _
  | Quorum _ _, Quorum _ _ | DeviceBinding _, DeviceBinding _ => true
  | _, _ => false
  end.

Definition pick_later (a b : option string) : option string :=
  match a, b with
  | None, None => None
  | Some x, None => Some x
  | None, Some y => Some y
  | Some x, Some y => Some (if str_lt y x then x else y)
  end.

Definition pick_earlier (a b : string) : string := if str_lt a b then a else b.

Definition shared_patterns (ap bp : list string) : list string :=
  List.filter (fun p => existsb (String.eqb p) bp) ap.

Definition intersect_same (a b : Constraint) : Constraint :=
  match a, b with
  | TimeWindow af au, TimeWindow bf bu => TimeWindow (pick_later af bf) (pick_earlier au bu)
  | Target ap, Target bp =>
    match shared_patterns ap bp with
    | [] => Target (ap ++ bp)
    | shared => Target shared
    end
  | Quantity am au, Quantity bm bu => Quantity (Z.min am bm) (opt_or au bu)
  | Rate am aw, Rate bm bw => Rate (Z.min am bm) (Z.min aw bw)
  | Quorum aq ao, Quorum bq _ => Quorum (Z.max aq bq) ao
  | _, _ => a
  end.

(** One turn of the merge loop: the first constraint of the same kind is
    replaced, or the new one is appended. *)
Fixpoint merge_one (out : list Constraint) (nc : Constraint) : list Constraint :=
  match out with
  | [] => [nc]
  | c :: out' => if same_kind c nc then intersect_same c nc :: out' else c :: merge_one out' nc
  end.

Definition intersect_constraints (a b : list Constraint) : list Constraint :=
  foldl merge_one a b.

(** ** When a merge tightens

    [meets c d]: intersecting [c] with [d] keeps both conditions.  It is
    unconditional for time windows, quantities, rates and quorums; the
    other kinds keep only part of the pair. *)

Definition meets (c d : Constraint) : bool :=
  match c, d with
  | Target ap, Target bp => negb (bool_decide (shared_patterns ap bp = []))
  | Session s, Session t => bool_decide (s = t)
  | Approval s, Approval t => bool_decide (s = t)
  | DeviceBinding s, DeviceBinding t => bool_decide (s = t)
  | _, _ => true
  end.

Fixpoint merge_meets (out : list Constraint) (nc : Constraint) : bool :=
  match out with
  | [] => true
  | c :: out' => if same_kind c nc then meets c nc else merge_meets out' nc
  end.

(** Every merge performed by [intersect_constraints out b] tightens. *)
Fixpoint compatible (out b : list Constraint) : bool :=
  match b with
  | [] => true
  | nc :: b' => merge_meets out nc && compatible (merge_one out nc) b'
  end.

Lemma pick_later_spec a b n :
  match pick_later a b with Some f => str_lt n f | None => false end =
  match a with Some f => str_lt n f | None => false end ||
  match b with Some f => str_lt n f | None => false end.
Proof.
  destruct a as [x|], b as [y|]; simpl; [|by rewrite orb_false_r|done|done].
  destruct (str_lt y x) eqn:E.
  - destruct (str_lt n y) eqn:E2; [|by rewrite orb_false_r].
    by rewrite (str_lt_trans n y x).
  - destruct (str_lt n x) eqn:E2; simpl; [|done].
    eapply str_lt_le_trans; [done|]. unfold str_le, str_lt in *. by rewrite E.
Qed.

Lemma pick_earlier_spec a b n :
  str_le n (pick_earlier a b) = str_le n a && str_le n b.
Proof.
  unfold pick_earlier. destruct (str_lt a b) eqn:E.
  - destruct (str_le n a) eqn:E2; simpl; [|done]. symmetry.
    eapply str_le_trans; [done|]. unfold str_le. fold (str_lt b a).
    by rewrite (str_lt_asym _ _ E).
  - destruct (str_le n b) eqn:E2; [|by rewrite andb_false_r]. rewrite andb_true_r. symmetry.
    eapply str_le_trans; [done|]. unfold str_le, str_lt in *. by rewrite E.
Qed.

Lemma shared_patterns_spec p ap bp : p ∈ shared_patterns ap bp <-> p ∈ ap /\ p ∈ bp.
Proof.
  unfold shared_patterns. rewrite !list_elem_of_In, filter_In, existsb_exists.
  split.
  - intros (H1 & q & H2 & ->%String.eqb_eq). done.
  - intros [H1 H2]. split; [done|]. exists p. by rewrite String.eqb_refl.
Qed.

Lemma intersect_same_tightens c d ctx :
  same_kind c d = true -> meets c d = true ->
  satisfies (intersect_same c d) ctx = true ->
  satisfies c ctx = true /\ satisfies d ctx = true.
Proof.
  destruct c as [af au|ap| | | | |aq ao|], d as [bf bu|bp| | | | |bq bo|]; try discriminate;
    intros _ Hm; simpl in *; try (apply bool_decide_eq_true in Hm; subst; tauto); try tauto.
  - rewrite pick_earlier_spec, pick_later_spec.
    destruct (match af with Some f => str_lt (now ctx) f | None => false end); [done|].
    destruct (match bf with Some f => str_lt (now ctx) f | None => false end); [done|].
    simpl. by rewrite andb_true_iff.
  - destruct (shared_patterns ap bp) as [|p ps] eqn:E; [done|]. rewrite <-E. cbn [satisfies].
    destruct (target ctx) as [t|]; [|done]. rewrite !existsb_exists.
    intros (q & Hq%list_elem_of_In & Hg). apply shared_patterns_spec in Hq as [Ha Hb].
    split; exists q; (split; [by apply list_elem_of_In|done]).
  - rewrite !Z.leb_le. lia.
Qed.

Lemma merge_one_tightens out nc ctx :
  merge_meets out nc = true -> constraints_satisfied (merge_one out nc) ctx = true ->
  constraints_satisfied out ctx = true /\ satisfies nc ctx = true.
Proof.
  unfold constraints_satisfied.
  induction out as [|c out IH]; simpl; [by rewrite andb_true_r|].
  destruct (same_kind c nc) eqn:E; intros Hm; simpl; rewrite !andb_true_iff.
  - intros [H1 H2]. destruct (intersect_same_tightens _ _ _ E Hm H1). tauto.
  - intros [H1 H2]. destruct (IH Hm H2). tauto.
Qed.

Lemma intersect_tightens a b ctx :
  compatible a b = true -> constraints_satisfied (intersect_constraints a b) ctx = true ->
  constraints_satisfied a ctx = true /\ constraints_satisfied b ctx = true.
Proof.
  unfold intersect_constraints. revert a. induction b as [|nc b IH]; intros a; simpl; [done|].
  rewrite andb_true_iff. intros [Hm Hc] Hs.
  destruct (IH _ Hc Hs) as [H1 H2]. destruct (merge_one_tightens _ _ _ Hm H1) as [H3 H4].
  by rewrite H4, H2.
Qed.

(** intersecting constraint sets is at least as strict as each operand
    whenever every merged pair is of a kind the code combines soundly:
    time windows, quantities, rates and quorums always, targets that share
    a pattern, and equal session, approval or device bindings. *)
Theorem intersect_constraints_sound a b ctx
    (Hc : compatible a b = true)
    (Hs : constraints_satisfied (intersect_constraints a b) ctx = true) :
  constraints_satisfied a ctx = true /\ constraints_satisfied b ctx = true.
Proof. by apply intersect_tightens. Qed.

Lemma intersect_constraints_sound_witness :
  constraints_satisfied [TimeWindow None "2026-05"] (mk_EvalContext "2026-02" None None None None) = true /\
  constraints_satisfied [TimeWindow (Some "2026-01") "2026-03"]
    (mk_EvalContext "2026-02" None None None None) = true.
Proof.
  apply (intersect_constraints_sound [TimeWindow None "2026-05"]
           [TimeWindow (Some "2026-01") "2026-03"]); vm_compute; reflexivity.
Defined.

(** two target constraints without a common pattern are merged into
    their union, so the "intersection" is satisfied as soon as either
    operand is; it is then weaker than both. *)
Theorem intersect_disjoint_targets_widens ap bp ctx
    (Hdisj : forall p, p ∈ ap -> p ∉ bp) :
  constraints_satisfied (intersect_constraints [Target ap] [Target bp]) ctx =
  constraints_satisfied [Target ap] ctx || constraints_satisfied [Target bp] ctx.
Proof.
  assert (E : shared_patterns ap bp = []).
  { destruct (shared_patterns ap bp) as [|p l] eqn:E; [done|].
    destruct (proj1 (shared_patterns_spec p ap bp)); [rewrite E; set_solver|].
    by destruct (Hdisj p). }
  unfold intersect_constraints, constraints_satisfied; simpl. rewrite E; simpl.
  destruct (target ctx); [|done]. rewrite !andb_true_r. apply existsb_app.
Qed.

Lemma intersect_disjoint_targets_widens_witness :
  constraints_satisfied (intersect_constraints [Target ["repo/a"]] [Target ["repo/b"]])
    (mk_EvalContext "2026-02" None (Some "repo/b") None None) = true.
Proof.
  rewrite (intersect_disjoint_targets_widens ["repo/a"] ["repo/b"]); [vm_compute; reflexivity|].
  intros p ->%list_elem_of_singleton. by intros H%list_elem_of_singleton.
Defined.

(** Constraint merging never loses a constraint and keeps one entry per
    kind it started with. *)
Lemma intersect_length a b :
  (length a <= length (intersect_constraints a b) <= length a + length b)%nat.
Proof.
  unfold intersect_constraints. revert a; induction b as [|nc b IH]; intros a; simpl; [lia|].
  assert (length a <= length (merge_one a nc) <= S (length a))%nat as H.
  { clear IH. induction a as [|c a IHa]; simpl; [lia|]. destruct (same_kind c nc); simpl; lia. }
  specialize (IH (merge_one a nc)). lia.
Qed.

End Capability.
