(* ===== verification/Delegation.v ===== *)
(** * Delegation: the delegation-chain walker ([tf-types/src/delegation.rs]) *)

From S2P Require Import Prelude Utf8 Glob Common Capability.
Import Capability.

Module Delegation.

(** ** Code *)

Record WalkResult := mk_WalkResult {
  valid : bool;
  effective : list Constraint;
  expired_at : option string;
  broken_step : option nat;
  walk_reason : option string;
}.

(** The loop's variables. *)
Record WalkState := mk_WalkState {
  eff : list Constraint;
  allow_redelegation : bool;
  max_depth_remaining : Z;
}.

Definition i64_max : Z := 2 ^ 63 - 1.

(** The check made before every step but the first; [max_depth_remaining]
    is decremented when it passes. *)
Definition redelegation_gate (i : nat) (st : WalkState) : result WalkResult WalkState :=
  match i with
  | O => Ok st
  | S i' =>
    if negb (allow_redelegation st) then
      Err (mk_WalkResult false (eff st) None (Some i)
             (Some ("step " +:+ pretty i' +:+ " disallows redelegation")))
    else if max_depth_remaining st <=? 0 then
      Err (mk_WalkResult false (eff st) None (Some i)
             (Some ("max_depth exceeded at step " +:+ pretty i)))
    else Ok (mk_WalkState (eff st) (allow_redelegation st) (max_depth_remaining st - 1))
  end.

Definition walk_step (now : string) (i : nat) (st : WalkState) (step : DelegationLink)
    : result WalkResult WalkState :=
  st ← redelegation_gate i st;
  let expired :=
    match link_expires_at step with
    | Some e => if str_lt e now then Some e else None
    | None => None
    end in
  match expired with
  | Some e =>
    Err (mk_WalkResult false (eff st) (Some e) (Some i)
           (Some ("step " +:+ pretty i +:+ " expired at " +:+ e)))
  | None =>
    let eff' :=
      match constraints step with
      | Some [] | None => eff st
      | Some cs => intersect_constraints (eff st) cs
      end in
    Ok (match redelegation step with
        | Some r =>
          mk_WalkState eff' (allowed r)
            (match max_depth r with
             | Some d => Z.min (max_depth_remaining st) d
             | None => max_depth_remaining st
             end)
        | None => mk_WalkState eff' true (max_depth_remaining st)
        end)
  end.

Fixpoint walk (now : string) (i : nat) (st : WalkState) (chain : list DelegationLink) : WalkResult :=
  match chain with
  | [] => mk_WalkResult true (eff st) None None None
  | step :: rest =>
    match walk_step now i st step with
    | Err r => r
    | Ok st' => walk now (S i) st' rest
    end
  end.

Definition walk_chain (chain : list DelegationLink) (now : string) : WalkResult :=
  walk now 0 (mk_WalkState [] true i64_max) chain.

(** ** What an acceptable chain is *)

Definition unexpired (now : string) (l : DelegationLink) : Prop :=
  forall e, link_expires_at l = Some e -> str_lt e now = false.
Definition redelegates (l : DelegationLink) : bool :=
  match redelegation l with Some r => allowed r | None => true end.
Definition depth_limit (l : DelegationLink) : option Z := redelegation l ≫= max_depth.

(** Every step is unexpired, follows a step that allows redelegation, and
    lies within the depth limit of every step above it. *)
Definition chain_ok (now : string) (chain : list DelegationLink) : Prop :=
  forall j l, chain !! j = Some l ->
    unexpired now l /\
    (forall k p, j = S k -> chain !! k = Some p -> redelegates p = true) /\
    (forall k p d, (k < j)%nat -> chain !! k = Some p -> depth_limit p = Some d ->
       Z.of_nat j - Z.of_nat k <= d).

(** The same for the rest of a chain, entered in a state. *)
Definition tail_ok (now : string) (st : WalkState) (chain : list DelegationLink) : Prop :=
  (forall j, (j < length chain)%nat -> Z.of_nat j < max_depth_remaining st) /\
  (chain <> [] -> allow_redelegation st = true) /\
  chain_ok now chain.

Lemma chain_ok_cons now l chain :
  chain_ok now (l :: chain) <->
  unexpired now l /\ (chain <> [] -> redelegates l = true) /\
  (forall j d, (j < length chain)%nat -> depth_limit l = Some d -> Z.of_nat j < d) /\
  chain_ok now chain.
Proof.
  split.
  - intros H. split_and!.
    + by destruct (H 0%nat l eq_refl).
    + intros Hne. destruct chain as [|l' chain]; [done|].
      destruct (H 1%nat l' eq_refl) as (_ & Hr & _). by apply (Hr 0%nat).
    + intros j d Hj Hd. destruct (lookup_lt_is_Some_2 chain j Hj) as [p Hp].
      destruct (H (S j) p Hp) as (_ & _ & Hl). specialize (Hl 0%nat l d ltac:(lia) eq_refl Hd). lia.
    + intros j p Hp. destruct (H (S j) p Hp) as (Hu & Hr & Hl). split_and!; [done|..].
      * intros k q -> Hq. by apply (Hr (S k)).
      * intros k q d Hk Hq Hd. specialize (Hl (S k) q d ltac:(lia) Hq Hd). lia.
  - intros (Hu & Hr & Hl & H) j p Hp. destruct j as [|j]; simpl in Hp.
    + injection Hp as <-. split_and!; [done|done|lia].
    + destruct (H j p Hp) as (Hu' & Hr' & Hl'). split_and!; [done|..].
      * intros k q [= <-] Hq. destruct j as [|j]; simpl in Hq.
        -- injection Hq as <-. apply Hr. by destruct chain.
        -- by apply (Hr' j).
      * intros k q d Hk Hq Hd. destruct k as [|k]; simpl in Hq.
        -- injection Hq as <-. apply lookup_lt_Some in Hp. specialize (Hl j d Hp Hd). lia.
        -- specialize (Hl' k q d ltac:(lia) Hq Hd). lia.
Qed.

(** The state the walk leaves after an accepted step. *)
Definition next_eff (e : list Constraint) (l : DelegationLink) : list Constraint :=
  match constraints l with Some [] | None => e | Some cs => intersect_constraints e cs end.
Definition next_depth (d : Z) (l : DelegationLink) : Z :=
  match depth_limit l with Some k => Z.min d k | None => d end.

Lemma walk_step_gate now i st l :
  walk_step now i st l =
  match redelegation_gate i st with
  | Err r => Err r
  | Ok st' =>
    match link_expires_at l ≫= (fun e => if str_lt e now then Some e else None) with
    | Some e => Err (mk_WalkResult false (eff st') (Some e) (Some i)
                  (Some ("step " +:+ pretty i +:+ " expired at " +:+ e)))
    | None => Ok (mk_WalkState (next_eff (eff st') l) (redelegates l)
                    (next_depth (max_depth_remaining st') l))
    end
  end.
Proof.
  unfold walk_step, next_eff, next_depth, redelegates, depth_limit.
  destruct (redelegation_gate i st) as [st'|r]; [|done]. simpl.
  destruct (link_expires_at l) as [e|]; simpl; [destruct (str_lt e now); [done|]|];
    by destruct (redelegation l) as [[a [d|]]|].
Qed.

Lemma expired_spec now l :
  link_expires_at l ≫= (fun e => if str_lt e now then Some e else None) = None <-> unexpired now l.
Proof.
  unfold unexpired. destruct (link_expires_at l) as [e|]; simpl; [|done].
  destruct (str_lt e now) eqn:E; split; try done.
  - intros H. by rewrite (H e eq_refl) in E.
  - by intros _ e' [= <-].
Qed.

Lemma walk_tail now i st chain :
  (0 < i)%nat -> valid (walk now i st chain) = true <-> tail_ok now st chain.
Proof.
  revert i st; induction chain as [|l chain IH]; intros i st Hi; simpl.
  { split; [|done]. intros _. split_and!; [simpl; lia|done|]. intros j ? Hl. by rewrite lookup_nil in Hl. }
  rewrite walk_step_gate. destruct i as [|i]; [lia|]. unfold redelegation_gate, tail_ok.
  rewrite chain_ok_cons.
  destruct (allow_redelegation st) eqn:Ea; simpl;
    [|split; [done|]; intros (_ & H & _); by specialize (H ltac:(done))].
  destruct (max_depth_remaining st <=? 0) eqn:Ed; bool_to_prop; simpl.
  { split; [done|]. intros (H & _). specialize (H 0%nat ltac:(lia)). lia. }
  pose proof (expired_spec now l) as He.
  destruct (link_expires_at l ≫= _) as [e|].
  { split; [done|]. intros (_ & _ & Hu & _). apply He in Hu. done. }
  rewrite IH by lia. unfold tail_ok, next_depth. simpl.
  assert (Hu : unexpired now l) by (by apply He). clear He IH.
  split.
  - intros (Hd & Ha & Hc). split_and!; [|done|done|done| |done].
    + intros [|j] Hj; [lia|]. specialize (Hd j ltac:(lia)).
      destruct (depth_limit l); lia.
    + intros j d Hj Hl. specialize (Hd j Hj). rewrite Hl in Hd. lia.
  - intros (Hd & _ & _ & Ha & Hl & Hc). split_and!; [|done|done].
    intros j Hj. specialize (Hd (S j) ltac:(lia)). specialize (Hl j).
    destruct (depth_limit l) as [d|]; [specialize (Hl d Hj eq_refl)|]; lia.
Qed.

Lemma walk_chain_cons l chain now :
  walk_chain (l :: chain) now =
  match link_expires_at l ≫= (fun e => if str_lt e now then Some e else None) with
  | Some e => mk_WalkResult false [] (Some e) (Some 0%nat)
                (Some ("step " +:+ pretty 0%nat +:+ " expired at " +:+ e))
  | None => walk now 1 (mk_WalkState (next_eff [] l) (redelegates l) (next_depth i64_max l)) chain
  end.
Proof.
  unfold walk_chain. cbn [walk]. rewrite walk_step_gate. simpl.
  by destruct (link_expires_at l ≫= _).
Qed.

(** C2: the walker accepts a delegation chain exactly when no step has
    expired, every step but the first follows one that allows
    redelegation, and every step lies within the [max_depth] granted by
    each step above it. *)
Theorem walk_chain_valid_iff chain now (Hlen : Z.of_nat (length chain) <= i64_max) :
  valid (walk_chain chain now) = true <-> chain_ok now chain.
Proof.
  destruct chain as [|l chain].
  { split; [|done]. intros _ j ? Hl. by rewrite lookup_nil in Hl. }
  rewrite walk_chain_cons, chain_ok_cons.
  pose proof (expired_spec now l) as He.
  destruct (link_expires_at l ≫= _) as [e|].
  { split; [done|]. intros (Hu & _). apply He in Hu. done. }
  rewrite walk_tail by lia. unfold tail_ok, next_depth. simpl in *.
  split.
  - intros (Hd & Ha & Hc). split_and!; [by apply He|done| |done].
    intros j d Hj Hl. specialize (Hd j Hj). rewrite Hl in Hd. lia.
  - intros (_ & Ha & Hl & Hc). split_and!; [|done|done].
    intros j Hj. specialize (Hl j). destruct (depth_limit l) as [d|]; [specialize (Hl d Hj eq_refl)|]; lia.
Qed.

Definition link0 (r : option Redelegation) : DelegationLink :=
  mk_DelegationLink "a" "b" [] None None r None.

Lemma walk_chain_valid_iff_witness :
  chain_ok "2026" [link0 (Some (mk_Redelegation true (Some 1))); link0 None].
Proof. apply (walk_chain_valid_iff _ "2026"); vm_compute; [discriminate|reflexivity]. Defined.

(** ** Attenuation *)

(** Every merge the walk makes tightens ([Capability.compatible]). *)
Fixpoint chain_compatible (e : list Constraint) (chain : list DelegationLink) : bool :=
  match chain with
  | [] => true
  | l :: rest => compatible e (default [] (constraints l)) && chain_compatible (next_eff e l) rest
  end.

Lemma next_eff_intersect e l : next_eff e l = intersect_constraints e (default [] (constraints l)).
Proof. unfold next_eff. by destruct (constraints l) as [[|c cs]|]. Qed.

Lemma walk_effective now i st chain :
  valid (walk now i st chain) = true ->
  effective (walk now i st chain) = foldl next_eff (eff st) chain.
Proof.
  revert i st; induction chain as [|l chain IH]; intros i st; simpl; [done|].
  rewrite walk_step_gate.
  destruct (redelegation_gate i st) as [st'|r] eqn:Eg.
  - assert (Heff : eff st' = eff st).
    { unfold redelegation_gate in Eg. destruct i; [by injection Eg as <-|].
      repeat case_test; try done. by injection Eg as <-. }
    destruct (link_expires_at l ≫= _); [done|]. intros Hv. rewrite IH by done. simpl. by rewrite Heff.
  - unfold redelegation_gate in Eg. destruct i; [done|].
    repeat case_test; try done; by injection Eg as <-.
Qed.

Lemma foldl_next_eff_sound chain e ctx :
  chain_compatible e chain = true ->
  constraints_satisfied (foldl next_eff e chain) ctx = true ->
  constraints_satisfied e ctx = true /\
  forall l cs, l ∈ chain -> constraints l = Some cs -> constraints_satisfied cs ctx = true.
Proof.
  revert e; induction chain as [|l chain IH]; intros e; simpl.
  { intros _ H. split; [done|]. set_solver. }
  rewrite andb_true_iff. intros [Hc1 Hc2] Hs. destruct (IH _ Hc2 Hs) as [He Hl].
  rewrite next_eff_intersect in He. destruct (intersect_tightens _ _ _ Hc1 He) as [H1 H2].
  split; [done|]. intros l' cs [->|Hin]%elem_of_cons Hcs; [|by eapply Hl].
  by rewrite Hcs in H2.
Qed.

(** C3: authority is only attenuated along an accepted chain: a context
    that satisfies the effective constraints satisfies the constraints
    imposed at every step, provided the merges are of the kinds the code
    combines soundly. *)
Theorem delegation_attenuates chain now ctx
    (Hv : valid (walk_chain chain now) = true)
    (Hc : chain_compatible [] chain = true)
    (Hs : constraints_satisfied (effective (walk_chain chain now)) ctx = true) :
  forall l cs, l ∈ chain -> constraints l = Some cs -> constraints_satisfied cs ctx = true.
Proof.
  unfold walk_chain in Hs. rewrite walk_effective in Hs by done. simpl in Hs.
  by apply foldl_next_eff_sound in Hs as [_ H].
Qed.

Definition linkc (cs : list Constraint) : DelegationLink :=
  mk_DelegationLink "a" "b" [] (Some cs) None None None.

Lemma delegation_attenuates_witness :
  constraints_satisfied [Quorum 2 ["x"; "y"]]
    (mk_EvalContext "2026" (Some "s1") None (Some 3) None) = true.
Proof.
  apply (delegation_attenuates
           [linkc [Quorum 1 ["x"]; Session "s1"]; linkc [Quorum 2 ["x"; "y"]]] "2026" _)
    with (linkc [Quorum 2 ["x"; "y"]]); try (vm_compute; reflexivity).
  apply elem_of_cons; right; apply list_elem_of_singleton; reflexivity.
Defined.

(** ** Locating the break *)

Lemma walk_broken now i st chain :
  valid (walk now i st chain) = false ->
  exists j, broken_step (walk now i st chain) = Some (i + j)%nat /\ (j < length chain)%nat /\
    valid (walk now i st (take j chain)) = true /\
    valid (walk now i st (take (S j) chain)) = false.
Proof.
  revert i st; induction chain as [|l chain IH]; intros i st; simpl; [done|].
  destruct (walk_step now i st l) as [st'|r] eqn:Es.
  - intros (j & Hb & Hj & H1 & H2)%IH. exists (S j). rewrite Hb. simpl. rewrite Es.
    split_and!; [f_equal; lia|lia|done|done].
  - intros Hv. exists 0%nat. simpl. rewrite Nat.add_0_r. split_and!; [|lia|done|done].
    revert Es. rewrite walk_step_gate. unfold redelegation_gate.
    destruct i; simpl; repeat case_test; simpl;
      try (destruct (link_expires_at l ≫= _)); intros [= <-]; done.
Qed.

(** a rejected chain is rejected at the first bad step: [broken_step]
    is a position of the chain, the steps before it form an accepted
    chain, and adding that step makes it rejected. *)
Theorem walk_chain_broken_step chain now (Hv : valid (walk_chain chain now) = false) :
  exists i, broken_step (walk_chain chain now) = Some i /\ (i < length chain)%nat /\
    valid (walk_chain (take i chain) now) = true /\
    valid (walk_chain (take (S i) chain) now) = false.
Proof. unfold walk_chain in *. by apply walk_broken in Hv. Qed.

Lemma walk_chain_broken_step_witness :
  exists i, broken_step (walk_chain [link0 (Some (mk_Redelegation false None)); link0 None] "2026")
            = Some i /\ (i < 2)%nat.
Proof.
  destruct (walk_chain_broken_step [link0 (Some (mk_Redelegation false None)); link0 None] "2026"
              eq_refl) as (i & H1 & H2 & _).
  exists i. split; [exact H1|exact H2].
Defined.

End Delegation.
