(* ===== verification/Json.v ===== *)
(** * Json: the [serde_json::Value] tree the contracts and wire bodies use

    An object is the list of its entries in iteration order; a
    [serde_json::Map] has distinct keys ([json_ok]).  A number is an
    [i64], a [u64] above [i64::MAX], or an [f64] given by its 64-bit
    pattern. *)

From S2P Require Import Prelude.

Inductive number :=
| NInt (i : Z)
| NFloat (bits : Z).

Inductive json :=
| JNull
| JBool (b : bool)
| JNumber (n : number)
| JString (s : string)
| JArray (xs : list json)
| JObject (fields : list (string * json)).

(** Association-list lookup: [serde_json::Map::get]. *)
Fixpoint assoc {A} (k : string) (fields : list (string * A)) : option A :=
  match fields with
  | [] => None
  | (k', v) :: fields' => if (k =? k')%string then Some v else assoc k fields'
  end.

(** [Value::get(key)]. *)
Definition jget (k : string) (v : json) : option json :=
  match v with JObject fields => assoc k fields | _ => None end.
Definition as_str (v : json) : option string :=
  match v with JString s => Some s | _ => None end.
Definition as_array (v : json) : option (list json) :=
  match v with JArray xs => Some xs | _ => None end.

(** [Map::remove]. *)
Fixpoint assoc_remove {A} (k : string) (fields : list (string * A)) : list (string * A) :=
  match fields with
  | [] => []
  | (k', v) :: fields' => if (k =? k')%string then fields' else (k', v) :: assoc_remove k fields'
  end.

(** [Map::insert]: the value of a key already there is replaced in place.
    The entries are kept in insertion order, as the [preserve_order] backing
    of [serde_json::Map] has them; the default backing iterates the same
    entries in key order. *)
Fixpoint assoc_insert {A} (k : string) (v : A) (fields : list (string * A)) : list (string * A) :=
  match fields with
  | [] => [(k, v)]
  | (k', v') :: fields' =>
    if (k =? k')%string then (k, v) :: fields' else (k', v') :: assoc_insert k v fields'
  end.

(** The entries a derived [Serialize] writes for one field; an optional
    field may be skipped ([skip_serializing_if = "Option::is_none"]). *)
Definition field (k : string) (v : json) : list (string * json) := [(k, v)].
Definition opt_field {A} (k : string) (o : option A) (f : A -> json) : list (string * json) :=
  match o with Some x => [(k, f x)] | None => [] end.
Definition jint (n : Z) : json := JNumber (NInt n).

(** How deep arrays and objects are nested. *)
Fixpoint json_depth (v : json) : nat :=
  match v with
  | JArray l => S (list_max (json_depth <$> l))
  | JObject fs => S (list_max ((fun kv => json_depth kv.2) <$> fs))
  | _ => O
  end.

(** A strong induction principle through the nested lists. *)
Section json_ind.
Variable P : json -> Prop.
Hypothesis Hnull : P JNull.
Hypothesis Hbool : forall b, P (JBool b).
Hypothesis Hnum : forall n, P (JNumber n).
Hypothesis Hstr : forall s, P (JString s).
Hypothesis Harr : forall xs, Forall P xs -> P (JArray xs).
Hypothesis Hobj : forall fs, Forall (fun kv => P kv.2) fs -> P (JObject fs).

Fixpoint json_ind' (v : json) : P v :=
  match v with
  | JNull => Hnull
  | JBool b => Hbool b
  | JNumber n => Hnum n
  | JString s => Hstr s
  | JArray xs => Harr xs ((fix go l : Forall P l :=
      match l with [] => Forall_nil_2 _ | x :: l' => Forall_cons_2 _ _ _ (json_ind' x) (go l') end) xs)
  | JObject fs => Hobj fs ((fix go l : Forall (fun kv => P kv.2) l :=
      match l with [] => Forall_nil_2 _ | kv :: l' => Forall_cons_2 _ _ _ (json_ind' kv.2) (go l') end) fs)
  end.
End json_ind.

(** Keys are distinct in every object. *)
Fixpoint json_ok (v : json) : Prop :=
  match v with
  | JArray xs => (fix go l := match l with [] => True | x :: l' => json_ok x /\ go l' end) xs
  | JObject fs =>
    NoDup (fs.*1) /\
    (fix go l := match l with [] => True | kv :: l' => json_ok kv.2 /\ go l' end) fs
  | _ => True
  end.

Lemma assoc_Some_elem {A} k (fields : list (string * A)) v :
  assoc k fields = Some v -> (k, v) ∈ fields.
Proof.
  induction fields as [|[k' v'] fields IH]; simpl; [done|].
  destruct (String.eqb_spec k k') as [->|]; [intros [= ->]; set_solver|].
  intros ?%IH. set_solver.
Qed.

Lemma assoc_None {A} k (fields : list (string * A)) :
  assoc k fields = None <-> k ∉ fields.*1.
Proof.
  induction fields as [|[k' v'] fields IH]; simpl; [set_solver|].
  destruct (String.eqb_spec k k') as [->|]; [set_solver|]. rewrite IH. set_solver.
Qed.

Lemma assoc_elem {A} k (fields : list (string * A)) v : NoDup (fields.*1) -> assoc k fields = Some v <-> (k, v) ∈ fields.
Proof.
  intros Hnd. split; [apply assoc_Some_elem|]. induction fields as [|[j w] fields IH]; [by intros ?%elem_of_nil|].
  cbn in *. apply NoDup_cons in Hnd as [Hj Hnd]. intros [[= <- <-]|Hin]%elem_of_cons; [by rewrite String.eqb_refl|].
  destruct (String.eqb_spec k j) as [->|]; [|by apply IH]. destruct Hj. apply list_elem_of_fmap. by exists (j, v).
Qed.
Lemma assoc_app {A} k (l1 l2 : list (string * A)) : assoc k (l1 ++ l2) = match assoc k l1 with Some v => Some v | None => assoc k l2 end.
Proof. induction l1 as [|[j w] l1 IH]; [done|]. cbn. by destruct (k =? j)%string. Qed.
Lemma assoc_opt_field {A} k j (o : option A) f : assoc k (opt_field j o f) = if (k =? j)%string then f <$> o else None.
Proof. destruct o; cbn; [done|]. by destruct (k =? j)%string. Qed.

Lemma assoc_insert_new {A} k (v : A) fields : k ∉ fields.*1 -> assoc_insert k v fields = fields ++ [(k, v)].
Proof.
  induction fields as [|[k' v'] fields IH]; simpl; [done|]. intros Hk.
  destruct (String.eqb_spec k k') as [->|]; [set_solver|]. rewrite IH; [done|set_solver].
Qed.

Lemma assoc_remove_lookup {A} k k' (fields : list (string * A)) :
  NoDup (fields.*1) ->
  assoc k' (assoc_remove k fields) = if (k' =? k)%string then None else assoc k' fields.
Proof.
  induction fields as [|[k0 v0] fields IH]; simpl; [by destruct (_ =? _)%string|].
  intros [Hnin Hnd]%NoDup_cons. specialize (IH Hnd).
  destruct (String.eqb_spec k k0) as [<-|Hne].
  - destruct (String.eqb_spec k' k) as [->|]; [by apply assoc_None|done].
  - simpl. rewrite IH. destruct (String.eqb_spec k' k0), (String.eqb_spec k' k); congruence.
Qed.
