(* ===== verification/Guard.v ===== *)
(** * Guard: the agent-contract guard ([tf-types/src/guard.rs])

    [AgentGuard] answers, for an actor, an action and a target, one of
    five decisions; [check] applies the enforcement level to the decision
    of the rules ([check_raw]) and reports it to the listener.  The
    contract is a [serde_json::Value]; [from_contract] indexes it. *)

From S2P Require Import Prelude Utf8 Glob Json.
Import Glob.

Module Guard.

(** ** Data *)

Inductive GuardDecision :=
| Allow (danger_tags : list string)
| ApprovalRequired (approval reason : string) (danger_tags : list string)
| Escalate (reason : string) (danger_tags : list string)
| Deny (reason : string) (danger_tags : list string)
| LogOnly (reason : string) (danger_tags : list string).

Inductive EnforcementLevel := E0 | E1 | E2 | E3 | E4 | E5.

#[export] Instance EnforcementLevel_eq_dec : EqDecision EnforcementLevel.
Proof. solve_decision. Defined.

Definition default_level : EnforcementLevel := E4.

Definition parse_level (s : string) : option EnforcementLevel :=
  if (s =? "E0")%string then Some E0
  else if (s =? "E1")%string then Some E1
  else if (s =? "E2")%string then Some E2
  else if (s =? "E3")%string then Some E3
  else if (s =? "E4")%string then Some E4
  else if (s =? "E5")%string then Some E5
  else None.

Definition level_str (l : EnforcementLevel) : string :=
  match l with
  | E0 => "E0" | E1 => "E1" | E2 => "E2" | E3 => "E3" | E4 => "E4" | E5 => "E5"
  end.

Record NegativeCapability := mk_NegativeCapability {
  neg_name : string;
  neg_target : option string;
  neg_reason : option string;
  neg_overrides : option (list string);
}.

Definition kind (d : GuardDecision) : string :=
  match d with
  | Allow _ => "allow"
  | ApprovalRequired _ _ _ => "approval-required"
  | Escalate _ _ => "escalate"
  | Deny _ _ => "deny"
  | LogOnly _ _ => "log-only"
  end.

Definition decision_tags (d : GuardDecision) : list string :=
  match d with
  | Allow t | ApprovalRequired _ _ t | Escalate _ t | Deny _ t | LogOnly _ t => t
  end.

Definition decision_reason (d : GuardDecision) : option string :=
  match d with
  | Allow _ => None
  | ApprovalRequired _ r _ | Escalate r _ | Deny r _ | LogOnly r _ => Some r
  end.

Record GuardQuery := mk_GuardQuery {
  q_actor : option string;
  q_actor_claim : option string;
  q_action : string;
  q_target : option string;
}.

Record GuardEventStub := mk_GuardEventStub {
  ev_kind : string;
  ev_actor : string;
  ev_action : string;
  ev_target : option string;
  ev_decision : string;
  ev_danger_tags : list string;
  ev_enforcement_level : option string;
}.

Record IndexedAction := mk_IndexedAction {
  act_name : string;
  act_approval : option string;
  act_danger_tags : list string;
  allow_targets : list string;
  deny_targets : list string;
  allow_actors : list string;
  deny_actors : list string;
}.

Definition ESCALATE_TAGS : list string :=
  ["destructive"; "irreversible"; "financial"; "security-sensitive"; "legal-exposure"].

(** [on_event] records whether a listener is installed; the events it
    receives are part of [check]'s result. *)
Record AgentGuard := mk_AgentGuard {
  action_by_name : gmap string IndexedAction;
  forbidden_by_name : gmap string string;
  target_sets : gmap string (list string);
  on_event : bool;
  enforcement_level : EnforcementLevel;
  negative_capabilities : list NegativeCapability;
}.

(** ** Loading a contract *)

(** [a.get(key).and_then(as_array)], keeping the strings. *)
Definition str_array (key : string) (a : json) : list string :=
  match jget key a ≫= as_array with
  | Some arr => omap as_str arr
  | None => []
  end.

Definition str_field (key : string) (a : json) : string :=
  default "" (jget key a ≫= as_str).

Definition array_field (key : string) (c : json) : list json :=
  default [] (jget key c ≫= as_array).

Definition index_action (a : json) : IndexedAction :=
  mk_IndexedAction (str_field "name" a) (jget "approval" a ≫= as_str)
    (str_array "danger_tags" a) (str_array "allow_targets" a) (str_array "deny_targets" a)
    (str_array "allow_actors" a) (str_array "deny_actors" a).

Definition load_actions (contract : json) : gmap string IndexedAction :=
  foldl (fun m a => <[str_field "name" a := index_action a]> m) ∅ (array_field "actions" contract).

Definition load_forbidden (contract : json) : gmap string string :=
  foldl (fun m f => <[str_field "action" f := str_field "reason" f]> m) ∅
    (array_field "forbidden" contract).

Definition load_target_sets (contract : json) : gmap string (list string) :=
  match jget "target_sets" contract with
  | Some (JObject fields) =>
    foldl (fun m kv =>
      match as_array kv.2 with
      | Some arr => <[kv.1 := omap as_str arr]> m
      | None => m
      end) ∅ fields
  | _ => ∅
  end.

Definition from_contract (contract : json) : AgentGuard :=
  mk_AgentGuard (load_actions contract) (load_forbidden contract) (load_target_sets contract)
    false default_level [].

Definition set_negative_capabilities (g : AgentGuard) (caps : list NegativeCapability) : AgentGuard :=
  mk_AgentGuard (action_by_name g) (forbidden_by_name g) (target_sets g) (on_event g)
    (enforcement_level g) caps.

Definition set_enforcement_level (g : AgentGuard) (l : EnforcementLevel) : AgentGuard :=
  mk_AgentGuard (action_by_name g) (forbidden_by_name g) (target_sets g) (on_event g)
    l (negative_capabilities g).

Definition set_event_listener (g : AgentGuard) : AgentGuard :=
  mk_AgentGuard (action_by_name g) (forbidden_by_name g) (target_sets g) true
    (enforcement_level g) (negative_capabilities g).

(** ** Deciding *)

Definition negative_matches (neg : NegativeCapability) (q : GuardQuery) : bool :=
  if negb (glob_match (neg_name neg) (q_action q)) then false
  else match neg_target neg with
       | None => true
       | Some target_pattern =>
         match q_target q with
         | None => false
         | Some query_target => glob_match target_pattern query_target
         end
       end.

Definition match_target (g : AgentGuard) (pattern value : string) : bool :=
  match strip_prefix "@" pattern with
  | Some rest =>
    match target_sets g !! rest with
    | None => false
    | Some set => existsb (fun p => glob_match p value) set
    end
  | None => glob_match pattern value
  end.

(** A pattern matches the key-derived actor or the claimed one. *)
Definition actor_matches (actor : string) (claim : option string) (p : string) : bool :=
  glob_match p actor || match claim with Some c => glob_match p c | None => false end.

Definition DQ : string := String (ascii_of_nat 34) "".

(** The actor rules: [deny_actors] over [allow_actors]. *)
Definition check_actor (a : IndexedAction) (q : GuardQuery) : option GuardDecision :=
  match q_actor q with
  | Some actor =>
    match List.find (actor_matches actor (q_actor_claim q)) (deny_actors a) with
    | Some pattern =>
      Some (Deny ("actor " +:+ actor +:+ " matches deny_actors (" +:+ pattern +:+ ")")
              (act_danger_tags a))
    | None =>
      if negb (bool_decide (allow_actors a = []))
         && negb (existsb (actor_matches actor (q_actor_claim q)) (allow_actors a))
      then Some (Deny ("actor " +:+ actor +:+ " not in allow_actors") (act_danger_tags a))
      else None
    end
  | None =>
    if negb (bool_decide (allow_actors a = []))
    then Some (Deny ("action " +:+ act_name a +:+ " requires an authenticated actor")
                 (act_danger_tags a))
    else None
  end.

(** The target rules: [deny_targets] over [allow_targets]. *)
Definition check_target (g : AgentGuard) (a : IndexedAction) (q : GuardQuery) : option GuardDecision :=
  match q_target q with
  | Some target =>
    match List.find (fun p => match_target g p target) (deny_targets a) with
    | Some pattern =>
      Some (Deny ("target " +:+ target +:+ " is in deny_targets (" +:+ pattern +:+ ")")
              (act_danger_tags a))
    | None =>
      if negb (bool_decide (allow_targets a = []))
         && negb (existsb (fun p => match_target g p target) (allow_targets a))
      then Some (Deny ("target " +:+ target +:+ " is not in allow_targets") (act_danger_tags a))
      else None
    end
  | None => None
  end.

Definition escalates (t : string) : bool := existsb (String.eqb t) ESCALATE_TAGS.

Definition check_raw (g : AgentGuard) (q : GuardQuery) : GuardDecision :=
  match List.find (fun neg => negative_matches neg q) (negative_capabilities g) with
  | Some neg =>
    Deny (default ("action " +:+ q_action q +:+ " is denied by negative_capability") (neg_reason neg))
         ["explicit-denial"]
  | None =>
    match forbidden_by_name g !! q_action q with
    | Some reason =>
      Deny (if str_is_empty reason then "action listed in forbidden" else reason) []
    | None =>
      match action_by_name g !! q_action q with
      | None => Deny ("action " +:+ DQ +:+ q_action q +:+ DQ +:+ " is not declared") []
      | Some a =>
        match check_actor a q with
        | Some d => d
        | None =>
          match check_target g a q with
          | Some d => d
          | None =>
            let tags := act_danger_tags a in
            if existsb escalates tags then
              Escalate ("danger_tags require escalation: "
                          +:+ str_join ", " (List.filter escalates tags)) tags
            else
              match act_approval a with
              | Some ap =>
                if (ap =? "required")%string || (ap =? "quorum")%string then
                  ApprovalRequired ap
                    ("action " +:+ DQ +:+ q_action q +:+ DQ +:+ " requires approval") tags
                else Allow tags
              | None => Allow tags
              end
          end
        end
      end
    end
  end.

Definition tag_decision (d : GuardDecision) (tag : string) : GuardDecision :=
  match d with
  | Allow t => Allow (t ++ [tag])
  | ApprovalRequired a r t => ApprovalRequired a r (t ++ [tag])
  | Escalate r t => Escalate r (t ++ [tag])
  | Deny r t => Deny r (t ++ [tag])
  | LogOnly r t => LogOnly r (t ++ [tag])
  end.

Definition apply_enforcement_level (raw : GuardDecision) (level : EnforcementLevel) : GuardDecision :=
  match level with
  | E0 =>
    match raw with
    | Deny r t | Escalate r t | ApprovalRequired _ r t =>
      LogOnly ("[shadow] would have decided: " +:+ r) (t ++ ["shadow"])
    | other => other
    end
  | E1 =>
    match raw with
    | Deny r t => Allow ((t ++ ["warn"]) ++ ["would-deny:" +:+ r])
    | Escalate r t => LogOnly ("[warn] " +:+ r) (t ++ ["warn"])
    | other => other
    end
  | E2 => tag_decision raw "proof-log-required"
  | E3 =>
    match raw with
    | Allow (_ :: _ as t) =>
      Escalate ("E3 escalates allow with danger tags: " +:+ str_join ", " t) t
    | other => other
    end
  | E4 => raw
  | E5 =>
    match raw with
    | Escalate r t | ApprovalRequired _ r t => Deny ("E5 fail-closed: " +:+ r) t
    | Allow (_ :: _ as t) =>
      Deny ("E5 fail-closed: allow with danger tags " +:+ str_join ", " t +:+ " blocked") t
    | other => other
    end
  end.

Definition emit (g : AgentGuard) (d : GuardDecision) (actor : string) (q : GuardQuery)
    : list GuardEventStub :=
  if on_event g then
    [mk_GuardEventStub "guard.check" actor (q_action q) (q_target q) (kind d) (decision_tags d)
       (Some (level_str (enforcement_level g)))]
  else [].

(** The decision and the events the listener receives. *)
Definition check (g : AgentGuard) (q : GuardQuery) : GuardDecision * list GuardEventStub :=
  let raw := check_raw g q in
  let adjusted := apply_enforcement_level raw (enforcement_level g) in
  let actor := default "tf:actor:process:local/unknown" (q_actor q) in
  (adjusted, emit g adjusted actor q).

(** ** Which queries are allowed *)

Definition is_deny (d : GuardDecision) : bool := match d with Deny _ _ => true | _ => false end.

(** The guard's actor condition for a declared action. *)
Definition actor_admitted (a : IndexedAction) (q : GuardQuery) : Prop :=
  match q_actor q with
  | Some actor =>
    (forall p, p ∈ deny_actors a -> actor_matches actor (q_actor_claim q) p = false) /\
    (allow_actors a = [] \/
     exists p, p ∈ allow_actors a /\ actor_matches actor (q_actor_claim q) p = true)
  | None => allow_actors a = []
  end.

Definition target_admitted (g : AgentGuard) (a : IndexedAction) (q : GuardQuery) : Prop :=
  match q_target q with
  | Some t =>
    (forall p, p ∈ deny_targets a -> match_target g p t = false) /\
    (allow_targets a = [] \/ exists p, p ∈ allow_targets a /\ match_target g p t = true)
  | None => True
  end.

Lemma find_None_iff {A} (f : A -> bool) l : List.find f l = None <-> forall x, x ∈ l -> f x = false.
Proof.
  split.
  - intros H x Hx%list_elem_of_In. by eapply find_none.
  - intros H. destruct (List.find f l) eqn:E; [|done].
    apply find_some in E as [Hin Hf]. rewrite H in Hf; [done|by apply list_elem_of_In].
Qed.

Lemma existsb_elem {A} (f : A -> bool) l : existsb f l = true <-> exists x, x ∈ l /\ f x = true.
Proof. rewrite existsb_exists. setoid_rewrite list_elem_of_In. done. Qed.

Lemma allow_list_spec {A} (f : A -> bool) (l : list A) `{EqDecision A} :
  negb (bool_decide (l = [])) && negb (existsb f l) = false <->
  l = [] \/ exists x, x ∈ l /\ f x = true.
Proof.
  rewrite <-existsb_elem. destruct (existsb f l); simpl.
  - rewrite andb_false_r. tauto.
  - rewrite andb_true_r, negb_false_iff, bool_decide_eq_true. naive_solver.
Qed.

Lemma check_actor_None a q : check_actor a q = None <-> actor_admitted a q.
Proof.
  unfold check_actor, actor_admitted. destruct (q_actor q) as [actor|].
  - destruct (List.find _ (deny_actors a)) as [p|] eqn:E.
    + apply find_some in E as [Hin Hm]. split; [done|]. intros [Hd _].
      rewrite Hd in Hm; [done|by apply list_elem_of_In].
    + pose proof (proj1 (find_None_iff _ _) E) as Hd. clear E.
      pose proof (allow_list_spec (actor_matches actor (q_actor_claim q)) (allow_actors a)) as Hs.
      destruct (_ && _); [|tauto]. split; [done|]. intros [_ Hal]. by apply Hs in Hal.
  - case_bool_decide; naive_solver.
Qed.

Lemma check_target_None g a q : check_target g a q = None <-> target_admitted g a q.
Proof.
  unfold check_target, target_admitted. destruct (q_target q) as [t|]; [|done].
  destruct (List.find _ (deny_targets a)) as [p|] eqn:E.
  - apply find_some in E as [Hin Hm]. split; [done|]. intros [Hd _].
    rewrite Hd in Hm; [done|by apply list_elem_of_In].
  - pose proof (proj1 (find_None_iff _ _) E) as Hd. clear E.
    pose proof (allow_list_spec (fun p => match_target g p t) (allow_targets a)) as Hs.
    destruct (_ && _); [|tauto]. split; [done|]. intros [_ Hal]. by apply Hs in Hal.
Qed.

Lemma check_actor_deny a q d : check_actor a q = Some d -> is_deny d = true.
Proof. unfold check_actor. repeat (case_match; try done); by intros [= <-]. Qed.

Lemma check_target_deny g a q d : check_target g a q = Some d -> is_deny d = true.
Proof. unfold check_target. repeat (case_match; try done); by intros [= <-]. Qed.

(** C1: the rules allow a query exactly when no negative capability
    matches it, the action is declared and not forbidden, the actor and
    target lists admit it, none of its danger tags escalates and no
    approval is required. *)
Theorem check_raw_allow_iff g q tags :
  check_raw g q = Allow tags <->
  (forall neg, neg ∈ negative_capabilities g -> negative_matches neg q = false) /\
  forbidden_by_name g !! q_action q = None /\
  exists a, action_by_name g !! q_action q = Some a /\ tags = act_danger_tags a /\
    actor_admitted a q /\ target_admitted g a q /\
    (forall t, t ∈ tags -> t ∉ ESCALATE_TAGS) /\
    act_approval a <> Some "required" /\ act_approval a <> Some "quorum".
Proof.
  unfold check_raw. rewrite <-find_None_iff.
  destruct (List.find _ (negative_capabilities g)) as [neg|]; [split; [done|intros (? & _); done]|].
  destruct (forbidden_by_name g !! q_action q) as [r|]; [split; [done|intros (_ & ? & _); done]|].
  destruct (action_by_name g !! q_action q) as [a|]; [|split; [done|intros (_ & _ & ? & ? & _); done]].
  assert (Hesc : existsb escalates (act_danger_tags a) = false <->
                 forall t, t ∈ act_danger_tags a -> t ∉ ESCALATE_TAGS).
  { rewrite <-not_true_iff_false, existsb_elem. split.
    - intros H t Ht Hin. apply H. exists t. split; [done|].
      apply existsb_elem. exists t. split; [done|]. apply String.eqb_refl.
    - intros H (t & Ht & (t' & Hin & ->%String.eqb_eq)%existsb_elem). by eapply H. }
  split.
  - destruct (check_actor a q) as [d|] eqn:Ea.
    { apply check_actor_deny in Ea. intros ->. done. }
    destruct (check_target g a q) as [d|] eqn:Et.
    { apply check_target_deny in Et. intros ->. done. }
    apply check_actor_None in Ea. apply check_target_None in Et.
    destruct (existsb escalates (act_danger_tags a)); [done|].
    intros H. assert (act_approval a <> Some "required" /\ act_approval a <> Some "quorum" /\
      tags = act_danger_tags a) as (? & ? & ->).
    { destruct (act_approval a) as [ap|]; [|by injection H as <-].
      destruct (_ || _) eqn:Eap; [done|]. bool_to_prop. injection H as <-. naive_solver. }
    split_and!; [done..|]. exists a. by rewrite <-Hesc.
  - intros (_ & _ & a' & [= <-] & -> & Ha & Ht & Htags & Hr & Hq).
    apply check_actor_None in Ha as ->. apply check_target_None in Ht as ->.
    apply Hesc in Htags as ->. destruct (act_approval a) as [ap|]; [|done].
    destruct (String.eqb_spec ap "required"); [congruence|].
    by destruct (String.eqb_spec ap "quorum"); [congruence|].
Qed.

(** ** Denials that nothing overrides *)

(** Levels that block: every level but observe-only and warn-only. *)
Definition blocking (l : EnforcementLevel) : bool :=
  match l with E0 | E1 => false | _ => true end.

Lemma deny_survives d l : is_deny d = true -> blocking l = true ->
  is_deny (apply_enforcement_level d l) = true.
Proof. by destruct d, l. Qed.

(** a negative capability whose action glob (and target glob, if any)
    matches the query denies it at every level from E2 up, whatever the
    contract declares; the raw denial carries the reason of the first
    matching capability and the tag [explicit-denial]. *)
Theorem negative_capability_denies g q neg
    (Hin : neg ∈ negative_capabilities g)
    (Hm : negative_matches neg q = true)
    (Hl : blocking (enforcement_level g) = true) :
  is_deny (fst (check g q)) = true /\
  exists neg', neg' ∈ negative_capabilities g /\ negative_matches neg' q = true /\
    check_raw g q =
      Deny (default ("action " +:+ q_action q +:+ " is denied by negative_capability") (neg_reason neg'))
        ["explicit-denial"].
Proof.
  assert (exists neg', List.find (fun n => negative_matches n q) (negative_capabilities g) = Some neg')
    as [neg' Hf].
  { destruct (List.find _ _) eqn:E; [eauto|].
    rewrite (proj1 (find_None_iff _ _) E neg Hin) in Hm. done. }
  assert (Hraw : check_raw g q =
    Deny (default ("action " +:+ q_action q +:+ " is denied by negative_capability") (neg_reason neg'))
      ["explicit-denial"]) by (unfold check_raw; by rewrite Hf).
  split.
  - unfold check. simpl. apply deny_survives; [by rewrite Hraw|done].
  - apply find_some in Hf as [Hin' Hm']. exists neg'. by rewrite list_elem_of_In.
Qed.

Lemma negative_capability_denies_witness :
  is_deny (fst (check (set_negative_capabilities (from_contract (JObject []))
    [mk_NegativeCapability "file.*" None None None])
    (mk_GuardQuery None None "file.delete" (Some "/etc")))) = true.
Proof.
  apply (negative_capability_denies _ _ (mk_NegativeCapability "file.*" None None None));
    [apply list_elem_of_singleton; reflexivity|vm_compute; reflexivity|reflexivity].
Defined.

(** ** From the contract *)

Lemma foldl_insert_lookup {A B} (key : A -> string) (val : A -> B) l (m : gmap string B) k :
  foldl (fun m a => <[key a := val a]> m) m l !! k =
  match List.find (fun a => (key a =? k)%string) (reverse l) with
  | Some a => Some (val a)
  | None => m !! k
  end.
Proof.
  revert m; induction l as [|a l IH] using rev_ind; intros m; [done|].
  rewrite foldl_app, reverse_snoc. simpl.
  destruct (String.eqb_spec (key a) k) as [<-|Hne].
  - by rewrite lookup_insert_eq.
  - by rewrite lookup_insert_ne, IH.
Qed.

Lemma foldl_insert_None {A B} (key : A -> string) (val : A -> B) l k :
  foldl (fun m a => <[key a := val a]> m) (∅ : gmap string B) l !! k = None <->
  forall a, a ∈ l -> key a <> k.
Proof.
  rewrite foldl_insert_lookup. destruct (List.find _ (reverse l)) as [a|] eqn:E.
  - apply find_some in E as [Hin Hk%String.eqb_eq]. split; [done|]. intros H.
    destruct (H a); [|done]. by apply elem_of_reverse, list_elem_of_In.
  - split; [|by rewrite lookup_empty]. intros _ a Ha Hk.
    pose proof (proj1 (find_None_iff _ _) E a) as H. rewrite elem_of_reverse in H.
    by rewrite Hk, String.eqb_refl in H; specialize (H Ha).
Qed.

(** a contract is default-deny: an action that the [actions] array
    does not name, or that the [forbidden] array names, is denied by the
    guard built from it, for every actor and target, at every level from
    E2 up and with any negative capabilities. *)
Theorem contract_default_deny contract q caps level
    (Hq : (forall a, a ∈ array_field "actions" contract -> str_field "name" a <> q_action q) \/
          (exists f, f ∈ array_field "forbidden" contract /\ str_field "action" f = q_action q))
    (Hl : blocking level = true) :
  is_deny (fst (check (set_enforcement_level
    (set_negative_capabilities (from_contract contract) caps) level) q)) = true.
Proof.
  unfold check. simpl. apply deny_survives; [|done].
  unfold check_raw; simpl. destruct (List.find _ caps); [done|].
  destruct (load_forbidden contract !! q_action q) eqn:Ef; [done|].
  destruct Hq as [Hno|(f & Hin & Hf)].
  - unfold load_actions. by rewrite (proj2 (foldl_insert_None _ _ _ _) Hno).
  - unfold load_forbidden in Ef. rewrite foldl_insert_None in Ef. by destruct (Ef f).
Qed.

Lemma contract_default_deny_witness :
  is_deny (fst (check (set_enforcement_level
    (set_negative_capabilities (from_contract
      (JObject [("actions", JArray [JObject [("name", JString "file.read")]]);
                ("forbidden", JArray [JObject [("action", JString "file.read")]])])) []) E4)
    (mk_GuardQuery None None "file.read" None))) = true.
Proof.
  apply (contract_default_deny
    (JObject [("actions", JArray [JObject [("name", JString "file.read")]]);
              ("forbidden", JArray [JObject [("action", JString "file.read")]])])
    (mk_GuardQuery None None "file.read" None) [] E4); [|reflexivity].
  right. exists (JObject [("action", JString "file.read")]).
  split; [apply list_elem_of_singleton; reflexivity|reflexivity].
Defined.

(** ** The enforcement ladder *)

(** The caller may proceed without anybody's approval. *)
Definition permits (d : GuardDecision) : bool :=
  match d with Allow _ | LogOnly _ _ => true | _ => false end.

(** The levels in order of what they let through. *)
Definition strictness (l : EnforcementLevel) : Z :=
  match l with E0 => 0 | E1 => 1 | E2 => 2 | E4 => 2 | E3 => 3 | E5 => 3 end.

Lemma ladder_step raw l1 l2 :
  strictness l1 <= strictness l2 -> permits (apply_enforcement_level raw l2) = true ->
  permits (apply_enforcement_level raw l1) = true.
Proof.
  destruct raw as [[|t ts]|a r t|r t|r t|r t], l1, l2; unfold strictness; simpl; done || lia.
Qed.

(** A decision that separates two levels of different strictness. *)
Lemma ladder_separates l1 l2 :
  strictness l2 < strictness l1 ->
  exists raw, permits (apply_enforcement_level raw l2) = true /\
              permits (apply_enforcement_level raw l1) = false.
Proof.
  intros H. destruct l1, l2; unfold strictness in H; try lia;
    first [ exists (ApprovalRequired "" "" []); by split | exists (Escalate "" []); by split
          | exists (Deny "" []); by split | exists (Allow ["t"]); by split ].
Qed.

(** by what they let through without approval, the levels form the
    ladder E0, E1, E2 = E4, E3 = E5: one level permits only what another
    does exactly when it is at least as high in that order.  In
    particular E3, which escalates a tagged allow, is strictly stricter
    than E4.  At the ends, E0 lets everything through, and E5 permits an
    untagged allow or a log-only decision and denies everything else. *)
Theorem enforcement_ladder l1 l2 :
  ((forall raw, permits (apply_enforcement_level raw l2) = true ->
                permits (apply_enforcement_level raw l1) = true)
   <-> strictness l1 <= strictness l2) /\
  (forall raw, permits (apply_enforcement_level raw E0) = true) /\
  (forall raw, if permits (apply_enforcement_level raw E5)
     then raw = Allow [] \/ exists r t, raw = LogOnly r t
     else is_deny (apply_enforcement_level raw E5) = true).
Proof.
  split_and!.
  - split; [|intros H raw; by apply ladder_step].
    intros H. destruct (Z.le_gt_cases (strictness l1) (strictness l2)); [done|].
    destruct (ladder_separates l1 l2) as (raw & H1 & H2); [lia|]. rewrite H in H2; done.
  - by intros [].
  - intros [[|t ts]|a r t|r t|r t|r t]; simpl; naive_solver.
Qed.

Lemma parse_level_str l : parse_level (level_str l) = Some l.
Proof. by destruct l. Qed.

End Guard.
