(* ===== verification/Quorum.v ===== *)
(** * Quorum: the quorum approval collector ([quorum.rs])

    A handle collects one vote per eligible approver and settles on an
    outcome.  The mutex serialises the calls, so an execution is the
    sequence of votes in the order the lock was taken; [run] folds it.  The
    system clock is part of each call. *)

From S2P Require Import Prelude Clock.
Import Clock.

Module Quorum.

Record QuorumConfig := mk_QuorumConfig { min_approvers : Z; of_ : list string }.

Record QuorumSignature := mk_QuorumSignature {
  sig_algorithm : string; sig_signer : string; sig_signature : string
}.

Record QuorumCeremony := mk_QuorumCeremony {
  ceremony_version : string;
  ceremony_id : string;
  cer_kind : string;
  cer_request_id : string;
  cer_started_at : string;
  cer_completed_at : option string;
  cer_min_approvers : Z;
  cer_of : list string;
  cer_approvers : list string;
  cer_signatures : list QuorumSignature
}.

Record QuorumOutcome := mk_QuorumOutcome {
  out_decision : string;
  out_approvers : list string;
  out_deniers : list string;
  out_ceremony : QuorumCeremony
}.

Record QuorumState := mk_QuorumState {
  approvers : list string;
  deniers : list string;
  signatures : list QuorumSignature;
  outcome : option QuorumOutcome
}.
Definition default_state : QuorumState := mk_QuorumState [] [] [] None.

Record QuorumApprovalCollector := mk_QuorumApprovalCollector { col_cfg : QuorumConfig }.

(** The shared state behind the mutex is passed explicitly. *)
Record QuorumHandle := mk_QuorumHandle {
  cfg : QuorumConfig;
  request_id : string;
  started_at : string
}.

Definition len {A} (l : list A) : Z := Z.of_nat (length l).

Definition new (c : QuorumConfig) : result string QuorumApprovalCollector :=
  if min_approvers c <? 1 then Err "quorum.min_approvers must be ≥ 1"
  else if as_u32 (len (of_ c)) <? min_approvers c then
    Err ("quorum.of (" +:+ pretty (len (of_ c)) +:+ ") must contain at least min_approvers (" +:+
         pretty (min_approvers c) +:+ ") actors")
  else Ok (mk_QuorumApprovalCollector c).

Definition push (self : QuorumApprovalCollector) (request_id started_at : string)
    : QuorumHandle * QuorumState :=
  (mk_QuorumHandle (col_cfg self) request_id started_at, default_state).

Definition materialise (self : QuorumHandle) (secs : Z) (state : QuorumState) (decision : string)
    : QuorumOutcome :=
  mk_QuorumOutcome decision (approvers state) (deniers state)
    (mk_QuorumCeremony "1" ("cer-" +:+ request_id self +:+ "-quorum") "quorum" (request_id self)
       (started_at self) (Some (now_iso8601 secs)) (min_approvers (cfg self)) (of_ (cfg self))
       (approvers state) (signatures state)).

Definition is_none {A} (o : option A) : bool := match o with None => true | Some _ => false end.
Definition contains (l : list string) (x : string) : bool := existsb (fun a => a =? x)%string l.

(** The vote recorded in the tallies. *)
Definition record_vote (state : QuorumState) (approver decision : string) (sg : QuorumSignature)
    : QuorumState :=
  if (decision =? "approve")%string
  then mk_QuorumState (approvers state ++ [approver]) (deniers state) (signatures state ++ [sg]) (outcome state)
  else mk_QuorumState (approvers state) (deniers state ++ [approver]) (signatures state) (outcome state).

(** The outcome set when the tallies settle it. *)
Definition settle (self : QuorumHandle) (secs : Z) (state : QuorumState) : QuorumState :=
  let set_ d := mk_QuorumState (approvers state) (deniers state) (signatures state)
                  (Some (materialise self secs state d)) in
  if (min_approvers (cfg self) <=? as_u32 (len (approvers state))) && is_none (outcome state)
  then set_ "approve"%string
  else if (len (of_ (cfg self)) <=? len (approvers state) + len (deniers state)) && is_none (outcome state)
  then set_ "deny"%string
  else state.

Definition respond_as (self : QuorumHandle) (secs : Z) (approver decision : string)
    (sg : QuorumSignature) (state : QuorumState) : bool * QuorumState :=
  if negb (contains (of_ (cfg self)) approver) then (false, state)
  else if contains (approvers state) approver || contains (deniers state) approver then (false, state)
  else (true, settle self secs (record_vote state approver decision sg)).

(** ** Executions *)

Record vote := mk_vote { v_secs : Z; v_by : string; v_decision : string; v_sig : QuorumSignature }.

Definition step (self : QuorumHandle) (state : QuorumState) (v : vote) : QuorumState :=
  (respond_as self (v_secs v) (v_by v) (v_decision v) (v_sig v) state).2.
Definition run_from (self : QuorumHandle) (st : QuorumState) (votes : list vote) : QuorumState :=
  foldl (step self) st votes.
Definition run (self : QuorumHandle) (votes : list vote) : QuorumState :=
  run_from self default_state votes.

(** ** Specification: first votes of the eligible actors *)

Definition first_vote (votes : list vote) (a : string) : option string :=
  v_decision <$> List.find (fun v => (v_by v =? a)%string) votes.
Definition approves (votes : list vote) (a : string) : bool :=
  match first_vote votes a with Some d => (d =? "approve")%string | None => false end.
Definition denies (votes : list vote) (a : string) : bool :=
  match first_vote votes a with Some d => negb (d =? "approve")%string | None => false end.
Definition count_in (f : string -> bool) (l : list string) : Z :=
  len (List.filter f (remove_dups l)).

(** The verdict the tallies of first votes call for. *)
Definition verdict (c : QuorumConfig) (a d : Z) : option string :=
  if min_approvers c <=? a then Some "approve"%string
  else if len (of_ c) <=? a + d then Some "deny"%string
  else None.

(** ** The invariant *)

Lemma contains_spec l x : contains l x = true <-> x ∈ l.
Proof.
  unfold contains. rewrite existsb_exists. setoid_rewrite String.eqb_eq.
  setoid_rewrite <- list_elem_of_In. naive_solver.
Qed.

Lemma first_vote_snoc votes v a :
  first_vote (votes ++ [v]) a =
  match first_vote votes a with
  | Some d => Some d
  | None => if (v_by v =? a)%string then Some (v_decision v) else None
  end.
Proof.
  unfold first_vote. induction votes as [|w votes IH]; simpl.
  - by destruct (v_by v =? a)%string.
  - by destruct (v_by w =? a)%string.
Qed.

Record Inv (h : QuorumHandle) (votes : list vote) (st : QuorumState) : Prop := {
  inv_nodup : NoDup (approvers st ++ deniers st);
  inv_approvers : forall a, a ∈ approvers st <-> a ∈ of_ (cfg h) /\ approves votes a = true;
  inv_deniers : forall a, a ∈ deniers st <-> a ∈ of_ (cfg h) /\ denies votes a = true;
  inv_signatures : length (signatures st) = length (approvers st);
  inv_outcome : out_decision <$> outcome st = verdict (cfg h) (len (approvers st)) (len (deniers st))
}.

Section collector.
Variable c : QuorumConfig.
Variable col : QuorumApprovalCollector.
Hypothesis Hnew : new c = Ok col.
Hypothesis Hlen : len (of_ c) < 2 ^ 32.
Variables request started : string.
Variable h : QuorumHandle.
Hypothesis Hh : h = (push col request started).1.

Lemma new_ok : col = mk_QuorumApprovalCollector c /\ 1 <= min_approvers c <= len (of_ c).
Proof using Hnew Hlen.
  clear Hh. unfold new, as_u32 in Hnew. rewrite Z.mod_small in Hnew by (unfold len in *; lia).
  destruct (Z.ltb_spec (min_approvers c) 1); [done|].
  destruct (Z.ltb_spec (len (of_ c)) (min_approvers c)); [done|]. injection Hnew as <-. auto.
Qed.

Lemma cfg_h : cfg h = c.
Proof. rewrite Hh. destruct new_ok as [-> _]. done. Qed.

Lemma nodup_votes_bound st : NoDup (approvers st ++ deniers st) ->
  (forall a, a ∈ approvers st \/ a ∈ deniers st -> a ∈ of_ c) ->
  len (approvers st) + len (deniers st) <= len (of_ c).
Proof.
  intros Hn Hsub. unfold len. rewrite <- Nat2Z.inj_add, <- length_app. apply inj_le.
  apply submseteq_length, NoDup_submseteq; [done|]. set_solver.
Qed.

Lemma inv_default : Inv h [] default_state.
Proof.
  pose proof new_ok as [_ Hm]. split; simpl; [constructor|split; [set_solver|by intros []]..|done|].
  rewrite cfg_h. unfold verdict, len in *. simpl length.
  destruct (Z.leb_spec (min_approvers c) (Z.of_nat 0)); [lia|].
  destruct (Z.leb_spec (Z.of_nat (length (of_ c))) (Z.of_nat 0 + Z.of_nat 0)); [lia|done].
Qed.

(** A vote that is not the actor's first, or of an ineligible actor, leaves
    the first votes of the eligible actors as they were. *)
Lemma inv_rejected votes st v : Inv h votes st ->
  v_by v ∉ of_ c \/ v_by v ∈ approvers st \/ v_by v ∈ deniers st ->
  Inv h (votes ++ [v]) st.
Proof.
  intros [Hn Ha Hd Hs Ho] Hrej. rewrite cfg_h in *.
  assert (forall a, a ∈ of_ c -> first_vote (votes ++ [v]) a = first_vote votes a) as Hf.
  { intros a Hin. rewrite first_vote_snoc. destruct (first_vote votes a) eqn:E; [done|].
    destruct (String.eqb_spec (v_by v) a) as [<-|]; [|done]. exfalso.
    destruct Hrej as [?|[H|H]]; [done| |].
    - apply Ha in H as [_ H]. unfold approves in H. by rewrite E in H.
    - apply Hd in H as [_ H]. unfold denies in H. by rewrite E in H. }
  split; rewrite ?cfg_h; try done.
  - intros a. rewrite Ha. unfold approves. split; intros [Hin H]; (split; [done|]); rewrite Hf in *; done.
  - intros a. rewrite Hd. unfold denies. split; intros [Hin H]; (split; [done|]); rewrite Hf in *; done.
Qed.

(** A first vote counts for its actor and for nobody else. *)
Lemma first_vote_counts votes st v a : Inv h votes st ->
  v_by v ∈ of_ c -> v_by v ∉ approvers st -> v_by v ∉ deniers st ->
  approves (votes ++ [v]) a =
    (if decide (a = v_by v) then (v_decision v =? "approve")%string else approves votes a) /\
  denies (votes ++ [v]) a =
    (if decide (a = v_by v) then negb (v_decision v =? "approve")%string else denies votes a).
Proof.
  intros [_ Ha Hd _ _] Hin Hna Hnd. rewrite cfg_h in *.
  assert (first_vote votes (v_by v) = None) as Hfv.
  { destruct (first_vote votes (v_by v)) as [d|] eqn:E; [|done]. exfalso.
    destruct (d =? "approve")%string eqn:Ed.
    - apply Hna, Ha. split; [done|]. unfold approves. by rewrite E.
    - apply Hnd, Hd. split; [done|]. unfold denies. by rewrite E, Ed. }
  unfold approves, denies. case_decide as E.
  - subst. by rewrite first_vote_snoc, Hfv, String.eqb_refl.
  - rewrite first_vote_snoc. destruct (first_vote votes a); [done|].
    by destruct (String.eqb_spec (v_by v) a).
Qed.

Lemma inv_accepted votes st v : Inv h votes st ->
  v_by v ∈ of_ c -> v_by v ∉ approvers st -> v_by v ∉ deniers st ->
  let st' := record_vote st (v_by v) (v_decision v) (v_sig v) in
  NoDup (approvers st' ++ deniers st') /\
  (forall a, a ∈ approvers st' <-> a ∈ of_ c /\ approves (votes ++ [v]) a = true) /\
  (forall a, a ∈ deniers st' <-> a ∈ of_ c /\ denies (votes ++ [v]) a = true) /\
  length (signatures st') = length (approvers st') /\ outcome st' = outcome st /\
  len (approvers st) <= len (approvers st').
Proof.
  intros HI Hin Hna Hnd. cbv zeta.
  assert (forall a, _) as Hc by exact (fun a => first_vote_counts votes st v a HI Hin Hna Hnd).
  destruct HI as [Hn Ha Hd Hs _]. rewrite cfg_h in *.
  assert (forall a, a ∈ approvers st -> a <> v_by v) as Ha' by (intros ? ? ->; done).
  assert (forall a, a ∈ deniers st -> a <> v_by v) as Hd' by (intros ? ? ->; done).
  unfold record_vote. destruct (v_decision v =? "approve")%string eqn:Ed; simpl.
  - split; [|split; [|split; [|split; [|split; [done|]]]]].
    + rewrite <- app_assoc. simpl. rewrite NoDup_app, NoDup_cons in *. set_solver.
    + intros a. rewrite (proj1 (Hc a)), elem_of_app, list_elem_of_singleton, Ha. case_decide; naive_solver.
    + intros a. rewrite (proj2 (Hc a)), Hd. case_decide; [|done]. subst.
      split; [intros ?%Hd; done|by intros [_ ?]].
    + rewrite !length_app. simpl. lia.
    + unfold len. rewrite length_app. simpl. lia.
  - split; [|split; [|split; [|split; [|split; [done|]]]]].
    + rewrite app_assoc, NoDup_app. split; [done|]. split; [set_solver|apply NoDup_singleton].
    + intros a. rewrite (proj1 (Hc a)), Ha. case_decide; [|done]. subst.
      split; [intros ?%Ha; done|by intros [_ ?]].
    + intros a. rewrite (proj2 (Hc a)), elem_of_app, list_elem_of_singleton, Hd. case_decide; naive_solver.
    + done.
    + lia.
Qed.

(** Settling sets the outcome the tallies call for, if it is not set. *)
Lemma settle_spec secs st : len (approvers st) + len (deniers st) <= len (of_ c) ->
  let st' := settle h secs st in
  approvers st' = approvers st /\ deniers st' = deniers st /\ signatures st' = signatures st /\
  (out_decision <$> outcome st' =
     match outcome st with Some o => Some (out_decision o) | None => verdict c (len (approvers st)) (len (deniers st)) end).
Proof.
  intros Hb. cbv zeta. unfold settle, verdict, as_u32. rewrite cfg_h.
  rewrite Z.mod_small by (unfold len in *; lia).
  destruct (outcome st) as [o|] eqn:E; simpl; [rewrite !andb_false_r; by rewrite E|].
  rewrite !andb_true_r. repeat case_test; simpl; rewrite ?E; done.
Qed.

Lemma inv_step votes st v : Inv h votes st -> Inv h (votes ++ [v]) (step h st v).
Proof.
  intros HI. unfold step, respond_as. rewrite cfg_h.
  destruct (contains (of_ c) (v_by v)) eqn:Hin; simpl.
  2: { apply inv_rejected; [done|left]. rewrite <- contains_spec. by rewrite Hin. }
  destruct (contains (approvers st) (v_by v) || contains (deniers st) (v_by v)) eqn:Hold; simpl.
  { apply inv_rejected; [done|right]. apply orb_prop in Hold as [H|H]; apply contains_spec in H; auto. }
  apply orb_false_elim in Hold as [Hna Hnd]. apply contains_spec in Hin.
  apply not_true_iff_false in Hna, Hnd. rewrite contains_spec in Hna, Hnd.
  pose proof (inv_accepted votes st v HI Hin Hna Hnd) as (Hn & Ha & Hd & Hs & Ho & Hge). cbv zeta in *.
  set (st1 := record_vote st (v_by v) (v_decision v) (v_sig v)) in *.
  assert (len (approvers st1) + len (deniers st1) <= len (of_ c)) as Hb.
  { apply nodup_votes_bound; [done|]. intros a [H|H]; [apply Ha in H|apply Hd in H]; tauto. }
  pose proof (settle_spec (v_secs v) st1 Hb) as (E1 & E2 & E3 & E4). cbv zeta in *.
  assert (len (approvers st) + len (deniers st) < len (of_ c)) as Hroom.
  { destruct HI as [Hn0 Ha0 Hd0 _ _]. rewrite cfg_h in *. unfold len.
    assert (NoDup (v_by v :: approvers st ++ deniers st)) as Hn' by (apply NoDup_cons; set_solver).
    apply NoDup_submseteq with (k := of_ c) in Hn'; [|set_solver].
    apply submseteq_length in Hn'. simpl in Hn'. rewrite length_app in Hn'. lia. }
  split; rewrite ?cfg_h, ?E1, ?E2, ?E3, ?E4; try done. rewrite Ho.
  pose proof (inv_outcome _ _ _ HI) as Hout. rewrite cfg_h in Hout. unfold verdict in *.
  destruct (outcome st); [simpl in Hout|done]. rewrite Hout.
  repeat case_test; lia || done.
Qed.

Lemma inv_run votes : Inv h votes (run h votes).
Proof.
  unfold run, run_from. induction votes as [|v votes IH] using rev_ind; [apply inv_default|].
  rewrite foldl_snoc. by apply inv_step.
Qed.

End collector.

(** The tallies count the distinct eligible actors by their first vote. *)
Lemma tally l f of0 : NoDup l -> (forall a, a ∈ l <-> a ∈ of0 /\ f a = true) -> len l = count_in f of0.
Proof.
  intros Hn Hl. unfold count_in, len. f_equal. apply Permutation_length, NoDup_Permutation; [done| |].
  - apply NoDup_ListNoDup, List.NoDup_filter, NoDup_ListNoDup, NoDup_remove_dups.
  - intros a. rewrite Hl, !list_elem_of_In, List.filter_In, <- !list_elem_of_In, elem_of_remove_dups. done.
Qed.

(** C11: Whatever votes arrive in whatever order, the outcome is the verdict
    of the first votes of the eligible actors: approve as soon as
    [min_approvers] distinct eligible actors approve, deny once all votes
    are in without that, and none before. *)
Theorem quorum_outcome_exact c col request started votes
    (Hnew : new c = Ok col) (Hlen : len (of_ c) < 2 ^ 32) :
  out_decision <$> outcome (run (push col request started).1 votes) =
  verdict c (count_in (approves votes) (of_ c)) (count_in (denies votes) (of_ c)).
Proof.
  pose proof (inv_run c col Hnew Hlen request started _ eq_refl votes) as [Hn Ha Hd _ ->].
  rewrite (cfg_h c col Hnew Hlen request started _ eq_refl) in *. apply NoDup_app in Hn as (Hn1 & _ & Hn2).
  by rewrite <- (tally _ _ _ Hn1 Ha), <- (tally _ _ _ Hn2 Hd).
Qed.

Lemma respond_as_keeps_outcome h secs a d sg st o :
  outcome st = Some o -> outcome (respond_as h secs a d sg st).2 = Some o.
Proof.
  intros Ho. unfold respond_as, settle, record_vote.
  destruct (contains (of_ (cfg h)) a); [|done].
  destruct (contains (approvers st) a || contains (deniers st) a); [done|].
  destruct (d =? "approve")%string; simpl; rewrite Ho; simpl; by rewrite !andb_false_r.
Qed.

(** An outcome, once set, is final: no later vote changes it. *)
Theorem quorum_outcome_final h votes later o
    (Ho : outcome (run h votes) = Some o) : outcome (run h (votes ++ later)) = Some o.
Proof.
  unfold run, run_from in *. rewrite foldl_app. revert Ho.
  generalize (foldl (step h) default_state votes) as st.
  induction later as [|v later IH]; intros st Ho; [done|]. simpl. apply IH.
  by apply respond_as_keeps_outcome.
Qed.

(** A configuration that lists an actor twice can be accepted and still
    never settle: when fewer distinct actors than [min_approvers] are
    listed, no sequence of votes gives an outcome. *)
Theorem quorum_duplicates_never_settle c col request started votes
    (Hnew : new c = Ok col) (Hlen : len (of_ c) < 2 ^ 32)
    (Hdup : len (remove_dups (of_ c)) < min_approvers c) :
  outcome (run (push col request started).1 votes) = None.
Proof.
  pose proof (new_ok c col Hnew Hlen) as [_ Hm].
  pose proof (inv_run c col Hnew Hlen request started _ eq_refl votes) as [Hn Ha Hd _ Ho].
  rewrite (cfg_h c col Hnew Hlen request started _ eq_refl) in *.
  set (st := run _ votes) in *.
  assert (len (approvers st) + len (deniers st) <= len (remove_dups (of_ c))) as Hb.
  { unfold len. rewrite <- Nat2Z.inj_add, <- length_app. apply inj_le, submseteq_length, NoDup_submseteq; [done|].
    intros a. rewrite elem_of_app, elem_of_remove_dups. rewrite Ha, Hd. tauto. }
  unfold verdict, len in *. destruct (outcome st); [|done]. simpl in Ho.
  repeat case_test; [lia|lia|done].
Qed.

(** ** Witnesses *)

Definition sig0 : QuorumSignature := mk_QuorumSignature "ed25519" "s" "x".
Definition cfg3 : QuorumConfig := mk_QuorumConfig 2 ["alice"; "bob"; "carol"].
Definition votes3 : list vote :=
  [mk_vote 0 "alice" "approve" sig0; mk_vote 1 "alice" "deny" sig0; mk_vote 2 "mallory" "approve" sig0;
   mk_vote 3 "carol" "approve" sig0].
Definition cfg_dup : QuorumConfig := mk_QuorumConfig 2 ["alice"; "alice"].

Lemma quorum_outcome_exact_witness :
  out_decision <$> outcome (run (push (mk_QuorumApprovalCollector cfg3) "r" "t").1 votes3) = Some "approve"%string.
Proof.
  rewrite (quorum_outcome_exact cfg3 (mk_QuorumApprovalCollector cfg3) "r" "t" votes3);
    [vm_compute; reflexivity|vm_compute; reflexivity|vm_compute; reflexivity].
Defined.

Lemma quorum_outcome_final_witness :
  exists o, outcome (run (mk_QuorumHandle cfg3 "r" "t") (votes3 ++ [mk_vote 9 "bob" "deny" sig0])) = Some o /\
    out_decision o = "approve"%string.
Proof.
  eexists. split.
  - apply (quorum_outcome_final (mk_QuorumHandle cfg3 "r" "t") votes3). vm_compute. reflexivity.
  - reflexivity.
Defined.

Lemma quorum_duplicates_never_settle_witness :
  new cfg_dup = Ok (mk_QuorumApprovalCollector cfg_dup) /\
  outcome (run (push (mk_QuorumApprovalCollector cfg_dup) "r" "t").1 votes3) = None.
Proof.
  split; [vm_compute; reflexivity|].
  apply (quorum_duplicates_never_settle cfg_dup (mk_QuorumApprovalCollector cfg_dup) "r" "t" votes3);
    [vm_compute; reflexivity|vm_compute; reflexivity|vm_compute; reflexivity].
Defined.

End Quorum.
