(* ===== verification/TrustOverlay.v ===== *)
(** * TrustOverlay: the effective trust level ([trust_overlay.rs])

    [compose_trust_level] starts from the best level of an identity, raises
    it with evidence from the posture and lowers it on an untrusted path.
    Only the identity's [trust_levels] are read. *)

From S2P Require Import Prelude Common.

Module TrustOverlay.

Record PostureContext := mk_PostureContext {
  hardware_backed : bool;
  attestation_verified : bool;
  proof_level_achieved : option ProofLevel;
  recent_verification_seconds : option Z;
  stale_after_seconds : option Z;
  quorum_approvers_at_least : option Z;
  untrusted_relay_path : bool;
  recently_revoked : bool;
  publicly_anchored : bool;
  compliance_attested : bool
}.

Record TrustOverlayResult := mk_TrustOverlayResult { level : TrustLevel; reasons : list string }.

Definition ORDER : list TrustLevel := [T0; T1; T2; T3; T4; T5; T6; T7].

Fixpoint position (l : TrustLevel) (ts : list TrustLevel) : option nat :=
  match ts with
  | [] => None
  | t :: ts' => if bool_decide (t = l) then Some O else S <$> position l ts'
  end.
Definition rank (l : TrustLevel) : nat := unwrap_or (position l ORDER) O.

Definition level_from_rank (r : nat) : TrustLevel :=
  unwrap_or (ORDER !! Nat.min r (length ORDER - 1)) T0.

Definition highest_level (levels : list TrustLevel) : TrustLevel :=
  foldl (fun best l => if (rank best <? rank l)%nat then l else best) T0 levels.

Definition proof_level_minimum_trust (l : ProofLevel) : option TrustLevel :=
  Some match l with L0 => T0 | L1 => T1 | L2 => T2 | L3 => T3 | L4 => T6 | L5 => T7 end.

Definition trust_level_str (l : TrustLevel) : string :=
  match l with
  | T0 => "T0" | T1 => "T1" | T2 => "T2" | T3 => "T3" | T4 => "T4" | T5 => "T5" | T6 => "T6" | T7 => "T7"
  end.
Definition proof_level_str (l : ProofLevel) : string :=
  match l with L0 => "L0" | L1 => "L1" | L2 => "L2" | L3 => "L3" | L4 => "L4" | L5 => "L5" end.

(** One piece of evidence: raise the rank to a floor and say why. *)
Definition raise_to (evidence : bool) (floor : nat) (reason : string) (st : nat * list string)
    : nat * list string :=
  let '(r, rs) := st in
  if evidence && (r <? floor)%nat then (floor, rs ++ [reason]) else (r, rs).

Definition raise_proof (achieved : option ProofLevel) (st : nat * list string) : nat * list string :=
  match achieved with
  | None => st
  | Some pl =>
    match proof_level_minimum_trust pl with
    | None => st
    | Some target =>
      raise_to true (rank target)
        ("proof level " +:+ proof_level_str pl +:+ " → ≥" +:+ trust_level_str target) st
    end
  end.

(** All the evidence, in the order of the code. *)
Definition climb (posture : PostureContext) (st : nat * list string) : nat * list string :=
  let st := raise_to (hardware_backed posture) (rank T4) "hardware-backed → ≥T4" st in
  let st := raise_to (attestation_verified posture) (rank T4) "attestation verified → ≥T4" st in
  let st := raise_to (2 <=? unwrap_or (quorum_approvers_at_least posture) 0) (rank T5) "quorum ≥2 → ≥T5" st in
  let st := raise_to (publicly_anchored posture) (rank T6) "publicly anchored → ≥T6" st in
  let st := raise_to (compliance_attested posture) (rank T7) "compliance attestation → T7" st in
  raise_proof (proof_level_achieved posture) st.

Definition compose_trust_level (trust_levels : list TrustLevel) (posture : PostureContext)
    : TrustOverlayResult :=
  let base := highest_level trust_levels in
  let rs := ["base=" +:+ trust_level_str base] in
  if recently_revoked posture then mk_TrustOverlayResult T0 (rs ++ ["revoked → T0"]) else
  let stale := unwrap_or (stale_after_seconds posture) 86400 in
  let is_stale := match recent_verification_seconds posture with
                  | Some seen => if stale <? seen then Some seen else None
                  | None => None end in
  match is_stale with
  | Some seen =>
    mk_TrustOverlayResult T0 (rs ++ ["stale (" +:+ pretty seen +:+ "s > " +:+ pretty stale +:+ "s) → T0"])
  | None =>
    let '(r, rs) := climb posture (rank base, rs) in
    let '(r, rs) :=
      if untrusted_relay_path posture && (0 <? r)%nat
      then ((r - 1)%nat, rs ++ ["untrusted relay path → -1"]) else (r, rs) in
    mk_TrustOverlayResult (level_from_rank r) rs
  end.

(** ** Reference: the maximum of the floors the evidence grants *)

Definition fresh (p : PostureContext) : bool :=
  match recent_verification_seconds p with
  | Some seen => seen <=? unwrap_or (stale_after_seconds p) 86400
  | None => true
  end.
Definition when (b : bool) (n : nat) : nat := if b then n else O.
Definition list_max (l : list nat) : nat := foldr Nat.max O l.

Definition evidence (p : PostureContext) : nat :=
  list_max [when (hardware_backed p || attestation_verified p) 4;
            when (2 <=? unwrap_or (quorum_approvers_at_least p) 0)%Z 5;
            when (publicly_anchored p) 6; when (compliance_attested p) 7;
            match proof_level_achieved p with
            | None | Some L0 => 0 | Some L1 => 1 | Some L2 => 2 | Some L3 => 3 | Some L4 => 6 | Some L5 => 7
            end]%nat.

(** The rank a posture deserves. *)
Definition reference_rank (levels : list TrustLevel) (p : PostureContext) : nat :=
  if recently_revoked p || negb (fresh p) then O
  else (Nat.max (list_max (rank <$> levels)) (evidence p) - when (untrusted_relay_path p) 1)%nat.

Lemma rank_level_from_rank r : rank (level_from_rank r) = Nat.min r 7.
Proof. unfold level_from_rank. do 8 (destruct r as [|r]; [done|]). done. Qed.

Lemma rank_bound l : (rank l <= 7)%nat.
Proof. destruct l; vm_compute; lia. Qed.

Lemma highest_level_rank levels : rank (highest_level levels) = list_max (rank <$> levels).
Proof.
  unfold highest_level, list_max.
  assert (forall b, rank (foldl (fun best l => if (rank best <? rank l)%nat then l else best) b levels)
    = Nat.max (rank b) (foldr Nat.max 0%nat (rank <$> levels))) as H.
  { induction levels as [|l levels IH]; intros b; [simpl; lia|].
    rewrite fmap_cons. cbn [foldl foldr]. rewrite IH.
    destruct (Nat.ltb_spec (rank b) (rank l)); lia. }
  apply H.
Qed.

Lemma raise_to_fst e f s st : (raise_to e f s st).1 = Nat.max st.1 (when e f).
Proof. destruct st as [r rs]. unfold raise_to, when. destruct e; simpl; [destruct (Nat.ltb_spec r f); simpl; lia|lia]. Qed.

Lemma raise_proof_fst pl st : (raise_proof pl st).1 = Nat.max st.1
  match pl with
  | None | Some L0 => 0 | Some L1 => 1 | Some L2 => 2 | Some L3 => 3 | Some L4 => 6 | Some L5 => 7
  end%nat.
Proof. destruct pl as [pl|]; simpl; [rewrite raise_to_fst; by destruct pl|lia]. Qed.

Lemma climb_fst p st : (climb p st).1 = Nat.max st.1 (evidence p).
Proof.
  unfold climb, evidence. cbv zeta. rewrite raise_proof_fst, !raise_to_fst.
  change (rank T4) with 4%nat. change (rank T5) with 5%nat. change (rank T6) with 6%nat.
  change (rank T7) with 7%nat. unfold list_max, when. simpl.
  destruct (hardware_backed p), (attestation_verified p); simpl; lia.
Qed.

Lemma evidence_bound p : (evidence p <= 7)%nat.
Proof. unfold evidence, list_max, when. simpl. repeat case_match; simpl; lia. Qed.

(** The composed level is the one with the reference rank: T0 for a
    revoked or stale identity, else the best of the identity's levels and
    the floors its evidence grants, one lower on an untrusted relay path. *)
Theorem compose_trust_level_exact levels p :
  rank (level (compose_trust_level levels p)) = reference_rank levels p.
Proof.
  unfold compose_trust_level, reference_rank.
  destruct (recently_revoked p); [done|]. simpl orb.
  assert (match recent_verification_seconds p with
    | Some seen => if unwrap_or (stale_after_seconds p) 86400 <? seen then Some seen else None
    | None => None end = if fresh p then None else recent_verification_seconds p) as ->.
  { unfold fresh. destruct (recent_verification_seconds p) as [seen|]; [|done].
    by repeat case_test; lia || done. }
  destruct (fresh p) eqn:Hf; simpl.
  2: { unfold fresh in Hf. by destruct (recent_verification_seconds p). }
  destruct (climb _ _) as [r rs] eqn:E. apply (f_equal fst) in E. rewrite climb_fst in E. simpl in E.
  rewrite <- highest_level_rank. pose proof (rank_bound (highest_level levels)).
  pose proof (evidence_bound p). unfold when.
  destruct (untrusted_relay_path p); simpl; [destruct (Nat.ltb_spec 0 r)|]; simpl; rewrite rank_level_from_rank; lia.
Qed.

End TrustOverlay.
