(* ===== verification/Base64.v ===== *)
(** * Base64: the RFC 4648 codec ([encoding.rs])

    Two engines, [STANDARD] (padded) and [URL_SAFE_NO_PAD]; decoding is
    strict.  Bytes are integers of the list; the [u32] accumulators stay
    below [2^24], so no shift overflows. *)

From S2P Require Import Prelude.

Module Base64.

Definition STD_ALPHABET : list Z :=
  bytes_of_str "ABCDEFGHIJKLMNOPQRSTUVWXYZabcdefghijklmnopqrstuvwxyz0123456789+/".
Definition URL_ALPHABET : list Z :=
  bytes_of_str "ABCDEFGHIJKLMNOPQRSTUVWXYZabcdefghijklmnopqrstuvwxyz0123456789-_".

Inductive DecodeError :=
| InvalidByte (offset byte : Z)
| InvalidLength (len : Z)
| InvalidPadding
| InvalidTrailingBits.

(** [DecodeError]'s [Display]. *)
Definition decode_error_str (e : DecodeError) : string :=
  match e with
  | InvalidByte offset byte => "invalid base64 byte 0x" +:+ hex2 byte +:+ " at offset " +:+ pretty offset
  | InvalidLength len => "invalid base64 length " +:+ pretty len
  | InvalidPadding => "invalid base64 padding"
  | InvalidTrailingBits => "non-canonical base64 trailing bits"
  end.

Record Engine := mk_Engine { alphabet : list Z; padded : bool }.
Definition STANDARD : Engine := mk_Engine STD_ALPHABET true.
Definition URL_SAFE_NO_PAD : Engine := mk_Engine URL_ALPHABET false.

Definition PAD : Z := 61.

Definition at_ (al : list Z) (i : Z) : Z := nth (Z.to_nat i) al 0.
Definition u8 (n : Z) : Z := n mod 256.

(** The symbol of the six bits of [n] from bit [k]. *)
Definition symbol (e : Engine) (n k : Z) : Z := at_ (alphabet e) (Z.land (Z.shiftr n k) 63).

(** [Engine::encode]: whole chunks of three, then the remainder. *)
Fixpoint encode (e : Engine) (input : list Z) : list Z :=
  match input with
  | a :: b :: c :: rest =>
    let n := Z.lor (Z.lor (Z.shiftl a 16) (Z.shiftl b 8)) c in
    symbol e n 18 :: symbol e n 12 :: symbol e n 6 :: symbol e n 0 :: encode e rest
  | [] => []
  | [a] =>
    let n := Z.shiftl a 16 in
    symbol e n 18 :: symbol e n 12 :: (if padded e then [PAD; PAD] else [])
  | [a; b] =>
    let n := Z.lor (Z.shiftl a 16) (Z.shiftl b 8) in
    symbol e n 18 :: symbol e n 12 :: symbol e n 6 :: (if padded e then [PAD] else [])
  end.

Definition decode_symbol (al : list Z) (byte : Z) : option Z :=
  if (65 <=? byte) && (byte <=? 90) then Some (byte - 65)
  else if (97 <=? byte) && (byte <=? 122) then Some (byte - 97 + 26)
  else if (48 <=? byte) && (byte <=? 57) then Some (byte - 48 + 52)
  else if (byte =? 43) && (at_ al 62 =? 43) then Some 62
  else if (byte =? 47) && (at_ al 63 =? 47) then Some 63
  else if (byte =? 45) && (at_ al 62 =? 45) then Some 62
  else if (byte =? 95) && (at_ al 63 =? 95) then Some 63
  else None.

Definition sym (e : Engine) (offset byte : Z) : result DecodeError Z :=
  ok_or (decode_symbol (alphabet e) byte) (InvalidByte offset byte).

Definition len (l : list Z) : Z := Z.of_nat (length l).

(** The chunk loop and the remainder.  A remainder of one symbol is
    excluded by the length test before the loop (the source's
    [unreachable!]). *)
Fixpoint decode_chunks (e : Engine) (offset : Z) (input : list Z) : result DecodeError (list Z) :=
  match input with
  | a :: b :: c :: d :: rest =>
    na ← sym e offset a; nb ← sym e (offset + 1) b;
    nc ← sym e (offset + 2) c; nd ← sym e (offset + 3) d;
    let n := Z.lor (Z.lor (Z.lor (Z.shiftl na 18) (Z.shiftl nb 12)) (Z.shiftl nc 6)) nd in
    out ← decode_chunks e (offset + 4) rest;
    Ok (u8 (Z.shiftr n 16) :: u8 (Z.shiftr n 8) :: u8 n :: out)
  | [] => Ok []
  | [a; b] =>
    na ← sym e offset a; nb ← sym e (offset + 1) b;
    let n := Z.lor (Z.shiftl na 18) (Z.shiftl nb 12) in
    if negb (Z.land n 0xFFFF =? 0) then Err InvalidTrailingBits
    else Ok [u8 (Z.shiftr n 16)]
  | [a; b; c] =>
    na ← sym e offset a; nb ← sym e (offset + 1) b; nc ← sym e (offset + 2) c;
    let n := Z.lor (Z.lor (Z.shiftl na 18) (Z.shiftl nb 12)) (Z.shiftl nc 6) in
    if negb (Z.land n 0xFF =? 0) then Err InvalidTrailingBits
    else Ok [u8 (Z.shiftr n 16); u8 (Z.shiftr n 8)]
  | [_] => Err (InvalidLength offset)
  end.

Definition ends_with (l suf : list Z) : bool :=
  bool_decide (drop (length l - length suf) l = suf).

Definition strip_padding (input : list Z) : list Z :=
  if ends_with input [PAD; PAD] then take (length input - 2) input
  else if ends_with input [PAD] then take (length input - 1) input
  else input.

Definition decode (e : Engine) (input : list Z) : result DecodeError (list Z) :=
  if padded e && negb (len input mod 4 =? 0) then
    Err (if (len input mod 4 =? 1) && negb (bool_decide (PAD ∈ input))
         then InvalidLength (len input) else InvalidPadding)
  else
    let input := if padded e then strip_padding input else input in
    if len input mod 4 =? 1 then Err (InvalidLength (len input))
    else decode_chunks e 0 input.

(** RFC 4648 section 10 vectors. *)
Example base64_vectors :
  (fun s => str_of_bytes (encode STANDARD (bytes_of_str s))) <$> ["f"; "fo"; "foo"; "foob"; "fooba"; "foobar"]
    = ["Zg=="; "Zm8="; "Zm9v"; "Zm9vYg=="; "Zm9vYmE="; "Zm9vYmFy"] /\
  decode STANDARD (bytes_of_str "Zm9vYmE=") = Ok (bytes_of_str "fooba") /\
  decode STANDARD (bytes_of_str "Zh==") = Err InvalidTrailingBits /\
  decode STANDARD (bytes_of_str "Z===") = Err (InvalidByte 1 61) /\
  decode STANDARD (bytes_of_str "Zg") = Err InvalidPadding.
Proof. vm_compute. auto. Qed.

(** ** Symbols *)

Definition known (e : Engine) : Prop := e = STANDARD \/ e = URL_SAFE_NO_PAD.

Definition symbols_ok (e : Engine) : bool :=
  all_below 64 (fun i => bool_decide (decode_symbol (alphabet e) (at_ (alphabet e) i) = Some i) &&
                         (at_ (alphabet e) i <? 256) && (0 <=? at_ (alphabet e) i) && negb (at_ (alphabet e) i =? PAD)) &&
  all_below 256 (fun b => match decode_symbol (alphabet e) b with
                          | Some i => (0 <=? i) && (i <? 64) && (at_ (alphabet e) i =? b)
                          | None => true end).

Lemma known_ok e : known e -> symbols_ok e = true.
Proof. intros [-> | ->]; vm_compute; reflexivity. Qed.

Section engine.
Variable e : Engine.
Hypothesis He : known e.

Lemma decode_at i : 0 <= i < 64 -> decode_symbol (alphabet e) (at_ (alphabet e) i) = Some i /\
  is_u8 (at_ (alphabet e) i) /\ at_ (alphabet e) i <> PAD.
Proof.
  intros Hi. pose proof (known_ok e He) as H. apply andb_prop in H as [H _].
  pose proof (all_below_spec _ _ H i Hi) as H'. simpl in H'. bool_to_prop.
  split; [by eapply bool_decide_eq_true|]. unfold is_u8. lia.
Qed.

Lemma decode_symbol_inv b i : is_u8 b -> decode_symbol (alphabet e) b = Some i ->
  0 <= i < 64 /\ at_ (alphabet e) i = b.
Proof.
  intros Hb E. pose proof (known_ok e He) as H. apply andb_prop in H as [_ H].
  pose proof (all_below_spec _ _ H b Hb) as H'. simpl in H'. rewrite E in H'. bool_to_prop. lia.
Qed.

Lemma sym_at o i : 0 <= i < 64 -> sym e o (at_ (alphabet e) i) = Ok i.
Proof. intros Hi. unfold sym. by rewrite (proj1 (decode_at i Hi)). Qed.

Lemma sym_inv o b i : is_u8 b -> sym e o b = Ok i -> 0 <= i < 64 /\ b = at_ (alphabet e) i.
Proof.
  unfold sym. intros Hb H. apply ok_or_ok in H. apply decode_symbol_inv in H as [? ?]; auto.
Qed.

Lemma symbol_eq n k : 0 <= k -> symbol e n k = at_ (alphabet e) (n / 2 ^ k mod 64).
Proof.
  intros. unfold symbol. rewrite Z.shiftr_div_pow2 by done.
  change 63 with (2 ^ 6 - 1). by rewrite land_mask.
Qed.

#[local] Ltac Zify.zify_post_hook ::= Z.div_mod_to_equations.

Lemma pack3 a b c : is_u8 a -> is_u8 b -> is_u8 c ->
  Z.lor (Z.lor (Z.shiftl a 16) (Z.shiftl b 8)) c = a * 65536 + b * 256 + c.
Proof.
  unfold is_u8. intros. rewrite <- Z.lor_assoc, (lor_shiftl_add b c 8) by lia.
  rewrite lor_shiftl_add by lia. lia.
Qed.
Lemma pack2 a b : is_u8 a -> is_u8 b -> Z.lor (Z.shiftl a 16) (Z.shiftl b 8) = a * 65536 + b * 256.
Proof.
  unfold is_u8. intros. rewrite (Z.shiftl_mul_pow2 b) by lia. rewrite lor_shiftl_add by lia. lia.
Qed.
Lemma unpack4 a b c d : 0 <= a < 64 -> 0 <= b < 64 -> 0 <= c < 64 -> 0 <= d < 64 ->
  Z.lor (Z.lor (Z.lor (Z.shiftl a 18) (Z.shiftl b 12)) (Z.shiftl c 6)) d
  = a * 262144 + b * 4096 + c * 64 + d.
Proof.
  intros. rewrite <- !Z.lor_assoc. rewrite (lor_shiftl_add c d 6) by lia.
  rewrite (lor_shiftl_add b) by lia. rewrite lor_shiftl_add by lia. lia.
Qed.
Lemma unpack3 a b c : 0 <= a < 64 -> 0 <= b < 64 -> 0 <= c < 64 ->
  Z.lor (Z.lor (Z.shiftl a 18) (Z.shiftl b 12)) (Z.shiftl c 6) = a * 262144 + b * 4096 + c * 64.
Proof.
  intros. rewrite <- (Z.lor_0_r (Z.lor _ (Z.shiftl c 6))). rewrite unpack4 by lia. lia.
Qed.
Lemma unpack2 a b : 0 <= a < 64 -> 0 <= b < 64 ->
  Z.lor (Z.shiftl a 18) (Z.shiftl b 12) = a * 262144 + b * 4096.
Proof.
  intros. rewrite (Z.shiftl_mul_pow2 b) by lia. rewrite lor_shiftl_add by lia. lia.
Qed.

(** ** The symbol stream without padding *)

Fixpoint syms (input : list Z) : list Z :=
  match input with
  | a :: b :: c :: rest =>
    let n := a * 65536 + b * 256 + c in
    at_ (alphabet e) (n / 262144) :: at_ (alphabet e) (n / 4096 mod 64)
      :: at_ (alphabet e) (n / 64 mod 64) :: at_ (alphabet e) (n mod 64) :: syms rest
  | [] => []
  | [a] => [at_ (alphabet e) (a / 4); at_ (alphabet e) (a mod 4 * 16)]
  | [a; b] => [at_ (alphabet e) (a / 4); at_ (alphabet e) (a mod 4 * 16 + b / 16); at_ (alphabet e) (b mod 16 * 4)]
  end.
Definition padding (n : Z) : list Z :=
  if padded e then (if n mod 3 =? 1 then [PAD; PAD] else if n mod 3 =? 2 then [PAD] else []) else [].

Lemma encode_syms bs : is_bytes bs -> encode e bs = syms bs ++ padding (len bs).
Proof.
  induction bs as [|a|a b|a b c bs IH] using list_ind3; intros Hb.
  - unfold padding. by destruct (padded e).
  - inversion_clear Hb as [|? ? Ha _]. unfold is_u8 in Ha. simpl. rewrite !symbol_eq by lia.
    rewrite Z.shiftl_mul_pow2 by lia. unfold padding, len. simpl.
    repeat (f_equal; try lia).
  - inversion_clear Hb as [|? ? Ha Hb']. inversion_clear Hb' as [|? ? Hb'' _]. simpl. rewrite !symbol_eq by lia.
    rewrite pack2 by done. unfold is_u8 in *. unfold padding, len. simpl.
    repeat (f_equal; try lia).
  - inversion_clear Hb as [|? ? Ha Hb']. inversion_clear Hb' as [|? ? Hb'' Hc].
    inversion_clear Hc as [|? ? Hc' Hr]. simpl. rewrite !symbol_eq by lia. rewrite pack3 by done.
    unfold is_u8 in *. rewrite IH by done.
    assert (padding (len (a :: b :: c :: bs)) = padding (len bs)) as ->.
    { unfold padding, len. simpl length. by replace (Z.of_nat (S (S (S (length bs)))) mod 3)
        with (Z.of_nat (length bs) mod 3) by lia. }
    repeat (f_equal; try lia).
Qed.

Lemma land_low n k : 0 <= k -> (Z.land n (2 ^ k - 1) =? 0) = (n mod 2 ^ k =? 0).
Proof. intros. by rewrite land_mask. Qed.

Lemma shiftr_u8 n k : 0 <= k -> u8 (Z.shiftr n k) = n / 2 ^ k mod 256.
Proof. intros. unfold u8. by rewrite Z.shiftr_div_pow2. Qed.

Lemma decode_syms o bs : is_bytes bs -> decode_chunks e o (syms bs) = Ok bs.
Proof.
  revert o. induction bs as [|a|a b|a b c bs IH] using list_ind3; intros o Hb; [done|..].
  - inversion_clear Hb as [|? ? Ha _]. unfold is_u8 in Ha. simpl.
    rewrite !sym_at by lia. simpl. rewrite unpack2 by lia.
    change 65535 with (2 ^ 16 - 1). rewrite land_low, shiftr_u8 by lia.
    destruct (Z.eqb_spec ((a / 4 * 262144 + a mod 4 * 16 * 4096) mod 2 ^ 16) 0); [|lia]. simpl. do 2 f_equal. lia.
  - inversion_clear Hb as [|? ? Ha Hb']. inversion_clear Hb' as [|? ? Hb'' _]. unfold is_u8 in *. simpl.
    rewrite !sym_at by lia. simpl. rewrite unpack3 by lia.
    change 255 with (2 ^ 8 - 1). rewrite land_low, !shiftr_u8 by lia.
    destruct (Z.eqb_spec ((a / 4 * 262144 + (a mod 4 * 16 + b / 16) * 4096 + b mod 16 * 4 * 64) mod 2 ^ 8) 0);
      [|lia]. simpl. repeat (f_equal; try lia).
  - inversion_clear Hb as [|? ? Ha Hb']. inversion_clear Hb' as [|? ? Hb'' Hc].
    inversion_clear Hc as [|? ? Hc' Hr]. unfold is_u8 in *. cbn [syms decode_chunks].
    rewrite !sym_at by lia. simpl. rewrite unpack4, IH by (done || lia). simpl.
    rewrite !shiftr_u8 by lia. unfold u8. repeat (f_equal; try lia).
Qed.

Ltac inv_sym :=
  repeat match goal with
  | H : sym e _ ?b = Ok ?i |- _ => apply sym_inv in H as [? ->]; [|done]
  end.

Lemma decode_chunks_inv o s bs : is_bytes s -> decode_chunks e o s = Ok bs -> s = syms bs /\ is_bytes bs.
Proof.
  revert o bs. induction s as [|a|a b|a b c|a b c d s IH] using list_ind4; intros o bs Hs H.
  - simpl in H. by inv_ok.
  - done.
  - rewrite !Forall_cons in Hs. destruct Hs as (Ha & Hb & _). simpl in H. inv_ok. inv_sym.
    rewrite unpack2 in H by done. change 65535 with (2 ^ 16 - 1) in H. rewrite land_low in H by lia.
    case_test; [done|]. bool_to_prop. inv_ok. rewrite shiftr_u8 by lia. simpl.
    split; [repeat (f_equal; try lia)|]. repeat constructor; unfold is_u8; lia.
  - rewrite !Forall_cons in Hs. destruct Hs as (Ha & Hb & Hc & _). simpl in H. inv_ok. inv_sym.
    rewrite unpack3 in H by done. change 255 with (2 ^ 8 - 1) in H. rewrite land_low in H by lia.
    case_test; [done|]. bool_to_prop. inv_ok. rewrite !shiftr_u8 by lia. simpl.
    split; [repeat (f_equal; try lia)|]. repeat constructor; unfold is_u8; lia.
  - rewrite !Forall_cons in Hs. destruct Hs as (Ha & Hb & Hc & Hd & Hr). cbn [decode_chunks] in H.
    inv_ok. inv_sym. rewrite unpack4 by done. rewrite !shiftr_u8 by lia. unfold u8.
    match goal with H : decode_chunks _ _ _ = Ok _ |- _ => apply IH in H as [-> Hout]; [|done] end.
    cbn [syms]. split; [repeat (f_equal; try lia)|]. repeat (constructor; [unfold is_u8; lia|]). done.
Qed.

Lemma len_syms bs : len (syms bs) = (4 * len bs + 2) / 3.
Proof.
  unfold len. induction bs as [|a|a b|a b c bs IH] using list_ind3; [done..|]. cbn [syms length]. lia.
Qed.

Lemma syms_no_pad bs : is_bytes bs -> Forall (fun x => x <> PAD) (syms bs) /\ is_bytes (syms bs).
Proof.
  induction bs as [|a|a b|a b c bs IH] using list_ind3; intros Hb; [by split|..];
    rewrite !Forall_cons in Hb; destruct_and?; unfold is_u8 in *; cbn [syms].
  1, 2: rewrite !Forall_cons; repeat split; try apply decode_at; lia || constructor.
  destruct IH as [IH1 IH2]; [done|]. rewrite !Forall_cons. repeat split; try apply decode_at; lia || done.
Qed.

Lemma syms_symbols bs : is_bytes bs -> Forall (fun b => exists i, 0 <= i < 64 /\ b = at_ (alphabet e) i) (syms bs).
Proof.
  induction bs as [|a|a b|a b c bs IH] using list_ind3; intros Hb; [constructor|..];
    rewrite !Forall_cons in Hb; destruct_and?; unfold is_u8 in *; cbn [syms]; rewrite ?Forall_cons.
  1, 2: repeat split; try (eexists; split; [|reflexivity]; lia); constructor.
  repeat split; try (eexists; split; [|reflexivity]; lia). by apply IH.
Qed.

(** ** Padding *)

Lemma ends_with_app l suf : ends_with (l ++ suf) suf = true.
Proof.
  unfold ends_with. apply bool_decide_eq_true. rewrite length_app.
  replace (length l + length suf - length suf)%nat with (length l) by lia. apply drop_app_length.
Qed.

Lemma ends_with_inv l suf : ends_with l suf = true -> l = take (length l - length suf) l ++ suf.
Proof.
  unfold ends_with. intros H%bool_decide_eq_true. rewrite <- H at 2. symmetry. apply take_drop.
Qed.

Lemma strip_no_pad l suf : Forall (fun x => x <> PAD) l -> ends_with l (suf ++ [PAD]) = false.
Proof.
  intros Hl. destruct (ends_with l (suf ++ [PAD])) eqn:E; [|done]. exfalso.
  apply ends_with_inv in E. rewrite E, !Forall_app, Forall_singleton in Hl. naive_solver.
Qed.

Lemma strip_padding_app l pad : Forall (fun x => x <> PAD) l ->
  pad = [] \/ pad = [PAD] \/ pad = [PAD; PAD] -> strip_padding (l ++ pad) = l.
Proof.
  intros Hl Hpad. unfold strip_padding. destruct Hpad as [-> |[-> | ->]].
  - rewrite app_nil_r. pose proof (strip_no_pad l [PAD] Hl) as E2. pose proof (strip_no_pad l [] Hl) as E1.
    simpl in E1, E2. by rewrite E1, E2.
  - destruct (ends_with (l ++ [PAD]) [PAD; PAD]) eqn:E.
    + exfalso. apply ends_with_inv in E. change [PAD; PAD] with ([PAD] ++ [PAD]) in E at 2.
      rewrite app_assoc in E. apply app_inj_2 in E as [E _]; [|done].
      rewrite E, Forall_app, Forall_singleton in Hl. naive_solver.
    + rewrite ends_with_app, length_app. simpl.
      replace (length l + 1 - 1)%nat with (length l) by lia. apply take_app_length.
  - rewrite ends_with_app, length_app. simpl.
    replace (length l + 2 - 2)%nat with (length l) by lia. apply take_app_length.
Qed.

Lemma strip_padding_inv s : exists pad, s = strip_padding s ++ pad /\
  (pad = [] \/ pad = [PAD] \/ pad = [PAD; PAD]).
Proof.
  unfold strip_padding. destruct (ends_with s [PAD; PAD]) eqn:E1; [|destruct (ends_with s [PAD]) eqn:E2].
  - exists [PAD; PAD]. split; [by apply ends_with_inv in E1|auto].
  - exists [PAD]. split; [by apply ends_with_inv in E2|auto].
  - exists []. rewrite app_nil_r. auto.
Qed.

Lemma encode_bytes bs : is_bytes bs -> is_bytes (encode e bs).
Proof.
  intros Hb. rewrite encode_syms by done. apply Forall_app. split; [by apply syms_no_pad|].
  unfold padding, PAD. repeat case_match; repeat constructor; unfold is_u8; lia.
Qed.

Lemma b64_decode_encode bs : is_bytes bs -> decode e (encode e bs) = Ok bs.
Proof.
  intros Hb. rewrite encode_syms by done. unfold decode.
  pose proof (syms_no_pad bs Hb) as [Hnp _]. pose proof (len_syms bs) as Hlen.
  assert (0 <= len bs) by (unfold len; lia).
  unfold padding. destruct (padded e); simpl.
  - rewrite strip_padding_app by (done || (repeat case_match; auto)).
    unfold len in *. rewrite length_app.
    destruct (Z.eqb_spec (Z.of_nat (length (syms bs)) mod 4) 1); [lia|].
    match goal with |- context [negb ?b] => replace b with true end; [by apply decode_syms|].
    symmetry. apply Z.eqb_eq. repeat case_test; bool_to_prop; simpl; lia.
  - rewrite app_nil_r. destruct (Z.eqb_spec (len (syms bs) mod 4) 1); [lia|]. by apply decode_syms.
Qed.

Lemma decode_sound s bs : is_bytes s -> decode e s = Ok bs -> is_bytes bs /\ s = encode e bs.
Proof.
  intros Hs. unfold decode. destruct (padded e) eqn:Hp; simpl.
  - destruct (Z.eqb_spec (len s mod 4) 0) as [H4|]; [simpl|done].
    destruct (strip_padding_inv s) as (pad & Epad & Hpad). rewrite Epad in Hs.
    apply Forall_app in Hs as [Hs _]. case_test; [done|]. intros Hd.
    apply decode_chunks_inv in Hd as [E Hb]; [|done]. split; [done|].
    rewrite encode_syms by done. rewrite Epad, E at 1. f_equal.
    assert (len (strip_padding s) = (4 * len bs + 2) / 3) as Hl by (rewrite E; apply len_syms).
    assert (len s = len (strip_padding s) + len pad) as Hls.
    { unfold len. rewrite Epad at 1. rewrite length_app. lia. }
    assert (0 <= len bs) by (unfold len; lia).
    unfold padding. rewrite Hp.
    destruct Hpad as [-> |[-> | ->]]; unfold len in Hls at 3; simpl in Hls; repeat case_test;
      bool_to_prop; lia || done.
  - case_test; [done|]. intros Hd. apply decode_chunks_inv in Hd as [E Hb]; [|done]. split; [done|].
    rewrite encode_syms by done. unfold padding. by rewrite Hp, app_nil_r.
Qed.

End engine.

(** C10: Strict decoding: a byte string decodes to [bs] exactly when it is
    the encoding of [bs].  So decoding inverts encoding, and no two strings
    decode to the same bytes (no missing or extra padding, no non-zero
    trailing bits, no foreign symbols). *)
Theorem base64_decode_iff e s bs
    (He : e = STANDARD \/ e = URL_SAFE_NO_PAD) (Hs : is_bytes s) :
  decode e s = Ok bs <-> is_bytes bs /\ s = encode e bs.
Proof.
  split; [by apply decode_sound|]. intros [Hb ->]. by apply b64_decode_encode.
Qed.

Lemma base64_decode_iff_witness :
  decode URL_SAFE_NO_PAD (bytes_of_str "-_8") = Ok [251; 255] /\
  decode STANDARD (bytes_of_str "Zm8=") = Ok (bytes_of_str "fo").
Proof.
  split.
  - apply (base64_decode_iff URL_SAFE_NO_PAD (bytes_of_str "-_8") [251; 255]);
      [by right|apply bytes_of_str_bytes|]. split; [repeat constructor; unfold is_u8; lia|vm_compute; reflexivity].
  - apply (base64_decode_iff STANDARD (bytes_of_str "Zm8=") (bytes_of_str "fo"));
      [by left|apply bytes_of_str_bytes|]. split; [apply bytes_of_str_bytes|vm_compute; reflexivity].
Defined.

End Base64.
