(* ===== verification/Crypto.v ===== *)
(** * Crypto: wrappers over the cryptographic crates ([crypto.rs],
    [crypto_pq.rs])

    The crates themselves ([ed25519-dalek], [x25519-dalek], [sha2], [blake3],
    [hkdf], [chacha20poly1305], [fips204]) are the record [crypto_lib] and
    what their documentation promises is [crypto_lib_laws]. *)

From S2P Require Import Prelude Base64.

Module Crypto.
#[local] Open Scope string_scope.
#[local] Open Scope Z_scope.

(** ** Third-party code *)

Record crypto_lib := mk_crypto_lib {
  sha256 : list Z -> list Z;
  blake3 : list Z -> list Z;
  (** [VerifyingKey::from_bytes], [SigningKey::sign(msg).to_bytes()],
      [Verifier::verify]. *)
  VerifyingKey : Type;
  vk_from_bytes : list Z -> option VerifyingKey;
  vk_verify : VerifyingKey -> list Z -> list Z -> bool;
  ed25519_sign : list Z -> list Z -> list Z;
  (** [PublicKey::from(&StaticSecret::from(s)).to_bytes()] and
      [StaticSecret::from(s).diffie_hellman(p)]. *)
  x25519_public : list Z -> list Z;
  x25519 : list Z -> list Z -> list Z;
  (** Salt, input key, info, output length. *)
  hkdf : list Z -> list Z -> list Z -> nat -> list Z;
  (** Key, nonce, associated data, text. *)
  aead_seal : list Z -> list Z -> list Z -> list Z -> list Z;
  aead_open : list Z -> list Z -> list Z -> list Z -> option (list Z);
  (** [ml_dsa_65::PrivateKey::try_from_bytes], [try_sign],
      [PublicKey::try_from_bytes], [verify]; errors as their text. *)
  PqPrivateKey : Type;
  PqPublicKey : Type;
  pq_sk_from_bytes : list Z -> result string PqPrivateKey;
  pq_try_sign : PqPrivateKey -> list Z -> result string (list Z);
  pq_pk_from_bytes : list Z -> option PqPublicKey;
  pq_verify : PqPublicKey -> list Z -> list Z -> bool
}.

(** ** Errors *)

Inductive CryptoError :=
| PrivateKeyLength (n : Z)
| PublicKeyLength (n : Z)
| SignatureLength (n : Z)
| BadSignature
| BadPublicKey
| BadBase64 (s : string)
| UnknownAlgorithm (s : string)
| CryptoGeneric (s : string).

Definition crypto_error_str (e : CryptoError) : string :=
  match e with
  | PrivateKeyLength n => "invalid ed25519 private key: expected 32 raw bytes, got " +:+ pretty n
  | PublicKeyLength n => "invalid ed25519 public key: expected 32 raw bytes, got " +:+ pretty n
  | SignatureLength n => "invalid ed25519 signature: expected 64 raw bytes, got " +:+ pretty n
  | BadSignature => "signature verification failed"
  | BadPublicKey => "invalid public key encoding"
  | BadBase64 s => "invalid base64: " +:+ s
  | UnknownAlgorithm s => "unknown algorithm: " +:+ s
  | CryptoGeneric s => s
  end.

Inductive AeadError := BadKey | BadNonce | AuthFailed.

(** [bytes.try_into::<[u8; n]>()]. *)
Definition array_of {E} (n : nat) (err : E) (bs : list Z) : result E (list Z) :=
  if Nat.eqb (length bs) n then Ok bs else Err err.

Definition b64encode (bs : list Z) : string := str_of_bytes (Base64.encode Base64.STANDARD bs).
Definition b64decode (s : string) : result CryptoError (list Z) :=
  map_err (fun e => BadBase64 (Base64.decode_error_str e)) (Base64.decode Base64.STANDARD (bytes_of_str s)).

(** ** Hash references *)

Definition from_hex (b : Z) : option Z :=
  if (48 <=? b) && (b <=? 57) then Some (b - 48)
  else if (97 <=? b) && (b <=? 102) then Some (b - 97 + 10)
  else if (65 <=? b) && (b <=? 70) then Some (b - 65 + 10)
  else None.

(** The loop over pairs of hexadecimal digits. *)
Fixpoint parse_hex (bytes : list Z) : result CryptoError (list Z) :=
  match bytes with
  | [] => Ok []
  | [_] => Err (BadBase64 "odd hex length")
  | a :: b :: rest =>
    hi ← ok_or (from_hex a) (BadBase64 "non-hex char");
    lo ← ok_or (from_hex b) (BadBase64 "non-hex char");
    out ← parse_hex rest;
    Ok (Z.lor (Z.shiftl hi 4 mod 256) lo :: out)
  end.

(** [str::split_once(':')]. *)
Fixpoint split_once_colon (s : string) : option (string * string) :=
  match s with
  | EmptyString => None
  | String c r =>
    if Ascii.eqb c ":" then Some ("", r) else '(a, b) ← split_once_colon r; Some (String c a, b)
  end.

Definition parse_hashref (s : string) : result CryptoError (string * list Z) :=
  '(algo, hex_part) ← ok_or (split_once_colon s) (UnknownAlgorithm s);
  out ← parse_hex (bytes_of_str hex_part);
  Ok (algo, out).

(** ** Keys *)

Record X25519KeyPair := mk_X25519KeyPair { kp_private : list Z; kp_public : list Z }.

Definition SK_LEN : nat := 4032.
Definition PK_LEN : nat := 1952.
Definition SIG_LEN : nat := 3309.

Section wrappers.
Variable l : crypto_lib.

Definition sha256_hashref (bytes : list Z) : string := "sha256:" +:+ hex (sha256 l bytes).
Definition blake3_hashref (bytes : list Z) : string := "blake3:" +:+ hex (blake3 l bytes).

Definition ed25519_verify (public_key msg signature : list Z) : result CryptoError unit :=
  pk_bytes ← array_of 32 (PublicKeyLength (Z.of_nat (length public_key))) public_key;
  sig_bytes ← array_of 64 (SignatureLength (Z.of_nat (length signature))) signature;
  vk ← ok_or (vk_from_bytes l pk_bytes) BadPublicKey;
  if vk_verify l vk msg sig_bytes then Ok tt else Err BadSignature.

Definition x25519_from_bytes (seed : list Z) : X25519KeyPair := mk_X25519KeyPair seed (x25519_public l seed).
(** The random source is the 32 bytes it yields. *)
Definition x25519_generate (rng : list Z) : X25519KeyPair := mk_X25519KeyPair rng (x25519_public l rng).
Definition x25519_diffie_hellman (private peer_public : list Z) : list Z := x25519 l private peer_public.

Definition hkdf_sha256 (input_key salt info : list Z) (output_len : nat) : list Z :=
  hkdf l salt input_key info output_len.

Definition chacha20poly1305_encrypt (key nonce aad plaintext : list Z) : list Z := aead_seal l key nonce aad plaintext.
Definition chacha20poly1305_decrypt (key nonce aad ciphertext : list Z) : result AeadError (list Z) :=
  ok_or (aead_open l key nonce aad ciphertext) AuthFailed.

Definition ml_dsa_65_sign (private_key message : list Z) : result CryptoError (list Z) :=
  bytes ← array_of SK_LEN (CryptoGeneric ("ml-dsa-65 priv must be " +:+ pretty SK_LEN +:+ " bytes")) private_key;
  sk ← map_err (fun e => CryptoGeneric ("ml-dsa-65 priv parse: " +:+ e)) (pq_sk_from_bytes l bytes);
  map_err (fun e => CryptoGeneric ("ml-dsa-65 sign: " +:+ e)) (pq_try_sign l sk message).

Definition ml_dsa_65_verify (public_key message signature : list Z) : bool :=
  match array_of (E:=unit) PK_LEN tt public_key with
  | Err _ => false
  | Ok pk_bytes =>
    match pq_pk_from_bytes l pk_bytes with
    | None => false
    | Some pk =>
      match array_of (E:=unit) SIG_LEN tt signature with
      | Err _ => false
      | Ok sig => pq_verify l pk message sig
      end
    end
  end.
End wrappers.

(** ** What the crates document *)

Record crypto_lib_laws (l : crypto_lib) : Prop := {
  law_sha256 : forall m, length (sha256 l m) = 32%nat /\ is_bytes (sha256 l m);
  law_sign : forall sk m, length (ed25519_sign l sk m) = 64%nat /\ is_bytes (ed25519_sign l sk m);
  law_public : forall s, length (x25519_public l s) = 32%nat /\ is_bytes (x25519_public l s);
  law_agree : forall s t, x25519 l s (x25519_public l t) = x25519 l t (x25519_public l s);
  law_hkdf : forall salt ikm info n, length (hkdf l salt ikm info n) = n /\ is_bytes (hkdf l salt ikm info n);
  law_seal : forall k n a p, length (aead_seal l k n a p) = (length p + 16)%nat /\
    aead_open l k n a (aead_seal l k n a p) = Some p
}.

(** [pk] is the ed25519 public key of [sk]. *)
Definition ed25519_pair (l : crypto_lib) (sk pk : list Z) : Prop :=
  length pk = 32%nat /\ is_bytes pk /\
  exists vk, vk_from_bytes l pk = Some vk /\ forall m, vk_verify l vk m (ed25519_sign l sk m) = true.

(** [pk] is the ml-dsa-65 public key of [sk]. *)
Definition pq_pair (l : crypto_lib) (sk pk : list Z) : Prop :=
  length sk = SK_LEN /\ length pk = PK_LEN /\ is_bytes pk /\
  exists s p, pq_sk_from_bytes l sk = Ok s /\ pq_pk_from_bytes l pk = Some p /\
  forall m, exists sig, pq_try_sign l s m = Ok sig /\ length sig = SIG_LEN /\ is_bytes sig /\ pq_verify l p m sig = true.

(** ** Lemmas *)

Lemma array_of_ok {E} n (err : E) bs r : array_of n err bs = Ok r <-> length bs = n /\ r = bs.
Proof. unfold array_of. destruct (Nat.eqb_spec (length bs) n); split; naive_solver. Qed.

Lemma array_of_length {E} n (err : E) bs : length bs = n -> array_of n err bs = Ok bs.
Proof. intros H. by apply array_of_ok. Qed.

Lemma b64decode_encode bs : is_bytes bs -> b64decode (b64encode bs) = Ok bs.
Proof.
  intros Hb. unfold b64decode, b64encode.
  rewrite bytes_of_str_of_bytes by (by apply Base64.encode_bytes; [left|]).
  rewrite Base64.b64_decode_encode by (done || by left). done.
Qed.

Lemma ed25519_verify_ok l pk m sig : ed25519_verify l pk m sig = Ok tt <->
  length pk = 32%nat /\ length sig = 64%nat /\
  exists vk, vk_from_bytes l pk = Some vk /\ vk_verify l vk m sig = true.
Proof.
  unfold ed25519_verify. rewrite bind_ok. setoid_rewrite bind_ok. setoid_rewrite bind_ok.
  setoid_rewrite array_of_ok. setoid_rewrite ok_or_ok. split.
  - intros (? & [H1 ->] & ? & [H2 ->] & vk & Hvk & Hv). do 2 (split; [done|]). exists vk. split; [done|].
    by destruct (vk_verify l vk m sig).
  - intros (H1 & H2 & vk & Hvk & Hv). exists pk. split; [done|]. exists sig. split; [done|]. exists vk.
    split; [done|]. by rewrite Hv.
Qed.

Lemma signature_verifies l sk pk m : crypto_lib_laws l -> ed25519_pair l sk pk ->
  ed25519_verify l pk m (ed25519_sign l sk m) = Ok tt.
Proof.
  intros L (Hlen & _ & vk & Hvk & Hv). apply ed25519_verify_ok.
  split; [done|]. split; [apply (law_sign l L)|]. by exists vk.
Qed.

Lemma pq_signature_verifies l sk pk m : pq_pair l sk pk ->
  exists sig, ml_dsa_65_sign l sk m = Ok sig /\ is_bytes sig /\ ml_dsa_65_verify l pk m sig = true.
Proof.
  intros (Hsk & Hpk & _ & s & p & Hs & Hp & Hsig). destruct (Hsig m) as (sig & H1 & H2 & H3 & H4).
  exists sig. unfold ml_dsa_65_sign, ml_dsa_65_verify. rewrite !array_of_length by done.
  cbn [mbind result_bind]. rewrite Hs, Hp. cbn [map_err mbind result_bind]. by rewrite H1.
Qed.

(** ** Hexadecimal and hash references *)

Lemma from_hex_digit n : 0 <= n < 16 -> from_hex (Z.of_N (N_of_ascii (hex_digit n))) = Some n.
Proof.
  intros Hn. assert (H : all_below 16 (fun n => bool_decide (from_hex (Z.of_N (N_of_ascii (hex_digit n))) = Some n)) = true)
    by (vm_compute; reflexivity).
  apply (all_below_spec 16 _ H) in Hn. by apply bool_decide_eq_true in Hn.
Qed.

Lemma parse_hex_hex bs : is_bytes bs -> parse_hex (bytes_of_str (hex bs)) = Ok bs.
Proof.
  unfold is_u8. induction 1 as [|b bs Hb _ IH]; [done|]. cbn [hex foldr]. fold (hex bs).
  rewrite bytes_of_str_app. unfold hex2, bytes_of_str at 1. cbn [String.list_ascii_of_string fmap list_fmap app parse_hex].
  assert (b = b / 16 * 16 + b mod 16) by (rewrite (Z.div_mod b 16) at 1 by lia; lia).
  pose proof (Z.mod_pos_bound b 16 ltac:(lia)). assert (0 <= b / 16 < 16) by (split; [apply Z.div_pos|apply Z.div_lt_upper_bound]; lia).
  rewrite !from_hex_digit by lia. cbn [ok_or mbind result_bind]. rewrite IH. cbn [mbind result_bind].
  rewrite (Z.mod_small (Z.shiftl (b / 16) 4)) by (rewrite Z.shiftl_mul_pow2 by lia; lia).
  rewrite lor_shiftl_add by lia. do 2 f_equal. lia.
Qed.

Lemma hex_inj bs cs : is_bytes bs -> is_bytes cs -> hex bs = hex cs -> bs = cs.
Proof. intros Hb Hc H. apply parse_hex_hex in Hb, Hc. rewrite H in Hb. congruence. Qed.

Lemma hash_text_inj r1 r2 : is_bytes r1 -> is_bytes r2 -> "sha256:" +:+ hex r1 = "sha256:" +:+ hex r2 -> r1 = r2.
Proof. intros H1 H2 H. rewrite !str_app_cons in H. injection H. by apply hex_inj. Qed.

Lemma hashref_parses l b : crypto_lib_laws l ->
  parse_hashref (sha256_hashref l b) = Ok ("sha256", sha256 l b).
Proof.
  intros L. unfold parse_hashref, sha256_hashref. rewrite !str_app_cons. change ("" +:+ ?s) with s. cbn.
  rewrite parse_hex_hex by apply (law_sha256 l L). done.
Qed.

(** ** A concrete library for the witnesses

    A signature or ciphertext is the key material and message cut or padded
    to the documented length; the shared secret is the sum of the secrets. *)

Definition pad_to (n : nat) (bs : list Z) : list Z := (fun b => b mod 256) <$> take n (bs ++ repeat 0 n)%list.
Definition toy_lib : crypto_lib :=
  mk_crypto_lib (pad_to 32) (pad_to 32) (list Z) Some (fun vk m s => bool_decide (s = pad_to 64 (vk ++ m)))
    (fun sk m => pad_to 64 (sk ++ m)) (pad_to 32)
    (fun s p => zip_with (fun a b => (a + b) mod 256) (pad_to 32 s) (pad_to 32 p))
    (fun salt ikm info n => pad_to n (ikm ++ info ++ salt))
    (fun _ _ _ p => p ++ repeat 0 16)%list (fun _ _ _ c => Some (take (length c - 16) c))
    unit unit (fun _ => Ok tt) (fun _ m => Ok (pad_to SIG_LEN m)) (fun _ => Some tt)
    (fun _ m s => bool_decide (s = pad_to SIG_LEN m)).

Lemma pad_to_spec n bs : length (pad_to n bs) = n /\ is_bytes (pad_to n bs).
Proof.
  split.
  - unfold pad_to. rewrite length_fmap, length_take, length_app, repeat_length. lia.
  - apply Forall_fmap, Forall_true. intros b. apply Z.mod_pos_bound. lia.
Qed.

Lemma pad_to_id bs : is_bytes bs -> pad_to (length bs) bs = bs.
Proof.
  intros Hb. unfold pad_to. rewrite take_app_length. rewrite <- (list_fmap_id bs) at 2.
  apply list_fmap_ext. intros i b Hi. apply Z.mod_small. by apply (Forall_lookup_1 _ _ i b Hb).
Qed.

Lemma toy_lib_laws : crypto_lib_laws toy_lib.
Proof.
  split.
  - intros m. apply pad_to_spec.
  - intros sk m. apply pad_to_spec.
  - intros s. apply pad_to_spec.
  - intros s t. cbn [x25519 x25519_public toy_lib]. assert (forall u, pad_to 32 (pad_to 32 u) = pad_to 32 u) as Hid.
    { intros u. destruct (pad_to_spec 32 u) as [Hl Hb]. rewrite <- Hl at 1. by apply pad_to_id. }
    rewrite !Hid. generalize (pad_to 32 s), (pad_to 32 t). clear.
    induction l as [|a l IH]; intros [|b l']; [done..|]. cbn. by rewrite IH, Z.add_comm.
  - intros. apply pad_to_spec.
  - intros k n a p. cbn [aead_seal aead_open toy_lib]. rewrite length_app, repeat_length. split; [done|].
    rewrite Nat.add_sub. by rewrite take_app_length.
Qed.

Lemma toy_ed25519 sk : length sk = 32%nat -> is_bytes sk -> ed25519_pair toy_lib sk sk.
Proof. intros Hl Hb. split; [done|]. split; [done|]. exists sk. split; [done|]. intros m. by apply bool_decide_eq_true. Qed.

Lemma toy_pq sk pk : length sk = SK_LEN -> length pk = PK_LEN -> is_bytes pk -> pq_pair toy_lib sk pk.
Proof.
  intros Hs Hp Hb. do 3 (split; [done|]). exists tt, tt. do 2 (split; [done|]). intros m.
  exists (pad_to SIG_LEN m). split; [done|]. destruct (pad_to_spec SIG_LEN m) as [Hl Hsb].
  do 2 (split; [done|]). by apply bool_decide_eq_true.
Qed.

End Crypto.
