(* ===== verification/Cbor.v ===== *)
(** * Cbor: the RFC 8949 codec ([cbor.rs])

    The encoder emits definite, smallest-width headers; the decoder is
    depth-limited and also accepts indefinite-length items.  The decoder's
    cursor [buf], [pos] is the list of the bytes left; [f64] values are
    their 64-bit patterns.  The depth left bounds the recursion; the
    indefinite-length loops take fuel, and [value_fuel] shows that the
    length of the input is enough. *)

From S2P Require Import Prelude Utf8 Json.

Module Cbor.

Definition MAX_DEPTH : nat := 128.

Inductive Value :=
| Integer (i : Z)
| Bytes (b : list Z)
| Text (t : string)
| Array (items : list Value)
| VMap (entries : list (Value * Value))
| Tag (tag : Z) (inner : Value)
| Bool (b : bool)
| Null
| Float (bits : Z).

Inductive CborError :=
| Truncated
| Invalid (what : string)
| TooDeep
| Unrepresentable (what : string).

Definition len {A} (l : list A) : Z := Z.of_nat (length l).

(** ** Accessors *)

Fixpoint find_entry (p : Value -> bool) (entries : list (Value * Value)) : option Value :=
  match entries with
  | [] => None
  | (k, v) :: rest => if p k then Some v else find_entry p rest
  end.
Definition map_get (self : Value) (key : string) : option Value :=
  match self with
  | VMap entries => find_entry (fun k => match k with Text t => (t =? key)%string | _ => false end) entries
  | _ => None
  end.
Definition map_get_int (self : Value) (key : Z) : option Value :=
  match self with
  | VMap entries => find_entry (fun k => match k with Integer i => i =? key | _ => false end) entries
  | _ => None
  end.
Definition as_bytes (self : Value) : option (list Z) := match self with Bytes b => Some b | _ => None end.
Definition as_text (self : Value) : option string := match self with Text t => Some t | _ => None end.
Definition as_integer (self : Value) : option Z := match self with Integer i => Some i | _ => None end.

(** ** Encoding *)

Definition put_header (major arg : Z) : list Z :=
  let mt := Z.shiftl major 5 in
  if arg <? 24 then [Z.lor mt arg]
  else if arg <=? 2 ^ 8 - 1 then [Z.lor mt 24; arg]
  else if arg <=? 2 ^ 16 - 1 then Z.lor mt 25 :: be_bytes 2 arg
  else if arg <=? 2 ^ 32 - 1 then Z.lor mt 26 :: be_bytes 4 arg
  else Z.lor mt 27 :: be_bytes 8 arg.

Definition encode_integer (i : Z) : result CborError (list Z) :=
  if 0 <=? i then
    if i <? 2 ^ 64 then Ok (put_header 0 i) else Err (Unrepresentable "integer above u64::MAX")
  else
    let magnitude := - i - 1 in
    if magnitude <? 2 ^ 64 then Ok (put_header 1 magnitude)
    else Err (Unrepresentable "integer below -2^64").

(** The bytes [encode_into] appends. *)
Fixpoint encode_into (value : Value) : result CborError (list Z) :=
  match value with
  | Integer i => encode_integer i
  | Bytes b => Ok (put_header 2 (len b) ++ b)
  | Text t => Ok (put_header 3 (str_len t) ++ bytes_of_str t)
  | Array items =>
    body ← (fix go l := match l with
      | [] => Ok []
      | x :: l' => bx ← encode_into x; bl ← go l'; Ok (bx ++ bl)
      end) items;
    Ok (put_header 4 (len items) ++ body)
  | VMap entries =>
    body ← (fix go l := match l with
      | [] => Ok []
      | (k, v) :: l' => bk ← encode_into k; bv ← encode_into v; bl ← go l'; Ok (bk ++ bv ++ bl)
      end) entries;
    Ok (put_header 5 (len entries) ++ body)
  | Tag tag inner => body ← encode_into inner; Ok (put_header 6 tag ++ body)
  | Bool b => Ok [if b then 0xf5 else 0xf4]
  | Null => Ok [0xf6]
  | Float bits => Ok (0xfb :: be_bytes 8 bits)
  end.

Definition encode (value : Value) : result CborError (list Z) := encode_into value.

(** ** Floats *)

(** The double [(-1)^sign * m * 2^e] for [0 < m < 2^53] in the normal
    range, as a bit pattern. *)
Definition f64_of (sign m e : Z) : Z :=
  let k := Z.log2 m in
  sign * 2 ^ 63 + (1023 + k + e) * 2 ^ 52 + (m - 2 ^ k) * 2 ^ (52 - k).
Definition f64_inf (sign : Z) : Z := sign * 2 ^ 63 + 2047 * 2 ^ 52.
Definition f64_nan (sign : Z) : Z := f64_inf sign + 2 ^ 51.

Definition half_to_f64 (raw : Z) : Z :=
  let sign := Z.shiftr raw 15 in
  let exp := Z.land (Z.shiftr raw 10) 0x1f in
  let mant := Z.land raw 0x3ff in
  if exp =? 0 then if mant =? 0 then sign * 2 ^ 63 else f64_of sign mant (- 24)
  else if exp =? 31 then if mant =? 0 then f64_inf sign else f64_nan sign
  else f64_of sign (mant + 1024) (exp - 25).

(** [f32::from_bits(raw) as f64]; a NaN is quieted. *)
Definition f32_to_f64 (raw : Z) : Z :=
  let sign := Z.shiftr raw 31 in
  let exp := Z.land (Z.shiftr raw 23) 0xff in
  let mant := Z.land raw (2 ^ 23 - 1) in
  if exp =? 0 then if mant =? 0 then sign * 2 ^ 63 else f64_of sign mant (- 149)
  else if exp =? 255 then if mant =? 0 then f64_inf sign else Z.lor (f64_nan sign) (mant * 2 ^ 29)
  else f64_of sign (mant + 2 ^ 23) (exp - 150).

(** ** Decoding *)

Definition byte (s : list Z) : result CborError (Z * list Z) :=
  match s with [] => Err Truncated | b :: s' => Ok (b, s') end.

Definition take_n (n : nat) (s : list Z) : result CborError (list Z * list Z) :=
  if (length s <? n)%nat then Err Truncated else Ok (take n s, drop n s).

Definition take_be (n : nat) (s : list Z) : result CborError (Z * list Z) :=
  '(bs, s') ← take_n n s; Ok (of_be bs, s').

Definition arg (info : Z) (s : list Z) : result CborError (Z * list Z) :=
  if info <=? 23 then Ok (info, s)
  else if info =? 24 then byte s
  else if info =? 25 then take_be 2 s
  else if info =? 26 then take_be 4 s
  else if info =? 27 then take_be 8 s
  else Err (Invalid "reserved additional-info value").

Definition arg_as_len (a : Z) (s : list Z) : result CborError nat :=
  if len s <? a then Err Truncated else Ok (Z.to_nat a).

Definition at_break (s : list Z) : result CborError (bool * list Z) :=
  match s with
  | [] => Err Truncated
  | b :: s' => if b =? 0xff then Ok (true, s') else Ok (false, s)
  end.

(** The loop of [indefinite_string]. *)
Fixpoint indefinite_chunks (fuel : nat) (major : Z) (s : list Z) : result CborError (list Z * list Z) :=
  match fuel with
  | O => Err Truncated
  | S fuel' =>
    '(initial, s) ← byte s;
    if initial =? 0xff then Ok ([], s)
    else if negb (Z.shiftr initial 5 =? major) || (Z.land initial 0x1f =? 31)
    then Err (Invalid "bad chunk in indefinite string")
    else
      '(a, s) ← arg (Z.land initial 0x1f) s;
      n ← arg_as_len a s;
      '(chunk, s) ← take_n n s;
      '(out, s) ← indefinite_chunks fuel' major s;
      Ok (chunk ++ out, s)
  end.

(** [depth_left] is what [MAX_DEPTH] leaves below the current item. *)
Definition indefinite_string (fuel depth_left : nat) (major : Z) (s : list Z)
    : result CborError (list Z * list Z) :=
  match depth_left with O => Err TooDeep | S _ => indefinite_chunks fuel major s end.

Section loops.
Context {A : Type} (item : list Z -> result CborError (A * list Z)).

(** [for _ in 0..n { items.push(item()?) }] *)
Fixpoint read_n (n : nat) (s : list Z) : result CborError (list A * list Z) :=
  match n with
  | O => Ok ([], s)
  | S n' => '(v, s) ← item s; '(vs, s) ← read_n n' s; Ok (v :: vs, s)
  end.

(** [while !self.at_break()? { items.push(item()?) }] *)
Fixpoint read_until_break (fuel : nat) (s : list Z) : result CborError (list A * list Z) :=
  match fuel with
  | O => Err Truncated
  | S fuel' =>
    '(brk, s) ← at_break s;
    if (brk : bool) then Ok ([], s)
    else '(v, s) ← item s; '(vs, s) ← read_until_break fuel' s; Ok (v :: vs, s)
  end.
End loops.

Definition entry (item : list Z -> result CborError (Value * list Z)) (s : list Z)
    : result CborError (Value * Value * list Z) :=
  '(k, s) ← item s; '(v, s) ← item s; Ok (k, v, s).

(** Major type 7. *)
Definition simple (info : Z) (s : list Z) : result CborError (Value * list Z) :=
  if info =? 20 then Ok (Bool false, s)
  else if info =? 21 then Ok (Bool true, s)
  else if (info =? 22) || (info =? 23) then Ok (Null, s)
  else if info =? 24 then
    '(b, s) ← byte s;
    if b <? 32 then Err (Invalid "non-minimal simple value") else Ok (Integer b, s)
  else if info =? 25 then '(raw, s) ← take_be 2 s; Ok (Float (half_to_f64 raw), s)
  else if info =? 26 then '(raw, s) ← take_be 4 s; Ok (Float (f32_to_f64 raw), s)
  else if info =? 27 then '(raw, s) ← take_be 8 s; Ok (Float raw, s)
  else if info =? 31 then Err (Invalid "unexpected break")
  else Err (Invalid "reserved simple value").

(** A definite or indefinite byte string (majors 2 and 3). *)
Definition string_body (fuel depth_left : nat) (major info : Z) (s : list Z)
    : result CborError (list Z * list Z) :=
  if info =? 31 then indefinite_string fuel depth_left major s
  else '(a, s) ← arg info s; n ← arg_as_len a s; take_n n s.

Definition text_value (bytes : list Z) : result CborError Value :=
  if valid_utf8 bytes then Ok (Text (str_of_bytes bytes))
  else Err (Invalid "text string is not UTF-8").

(** [value(depth)] with [depths = MAX_DEPTH + 1 - depth]. *)
Fixpoint value (fuel depths : nat) (s : list Z) : result CborError (Value * list Z) :=
  match depths with
  | O => Err TooDeep
  | S below =>
    '(initial, s) ← byte s;
    let major := Z.shiftr initial 5 in
    let info := Z.land initial 0x1f in
    if major =? 0 then '(a, s) ← arg info s; Ok (Integer a, s)
    else if major =? 1 then '(a, s) ← arg info s; Ok (Integer (-1 - a), s)
    else if major =? 2 then '(b, s) ← string_body fuel below 2 info s; Ok (Bytes b, s)
    else if major =? 3 then
      '(b, s) ← string_body fuel below 3 info s; t ← text_value b; Ok (t, s)
    else if major =? 4 then
      '(items, s) ← (if info =? 31 then read_until_break (value fuel below) fuel s
        else '(a, s) ← arg info s; n ← arg_as_len a s; read_n (value fuel below) n s);
      Ok (Array items, s)
    else if major =? 5 then
      '(entries, s) ← (if info =? 31 then read_until_break (entry (value fuel below)) fuel s
        else '(count, s) ← arg info s;
             if len s / 2 <? count then Err Truncated
             else read_n (entry (value fuel below)) (Z.to_nat count) s);
      Ok (VMap entries, s)
    else if major =? 6 then
      '(tag, s) ← arg info s; '(inner, s) ← value fuel below s; Ok (Tag tag inner, s)
    else simple info s
  end.

Definition decode (bytes : list Z) : result CborError Value :=
  '(v, _) ← value (length bytes) (S MAX_DEPTH) bytes; Ok v.

(** RFC 8949 appendix A vectors and hostile inputs. *)
Example cbor_vectors :
  encode (Integer 1000000000000) = Ok [0x1b; 0; 0; 0; 0xe8; 0xd4; 0xa5; 0x10; 0] /\
  encode (Integer (-1000)) = Ok [0x39; 3; 0xe7] /\
  encode (VMap [(Text "a", Integer 1); (Text "b", Array [Integer 2; Integer 3])])
    = Ok [0xa2; 0x61; 0x61; 1; 0x61; 0x62; 0x82; 2; 3] /\
  decode [0x5f; 0x42; 1; 2; 0x43; 3; 4; 5; 0xff] = Ok (Bytes [1; 2; 3; 4; 5]) /\
  decode [0x82; 0x61; 0x61; 0xbf; 0x61; 0x62; 0x61; 0x63; 0xff]
    = Ok (Array [Text "a"; VMap [(Text "b", Text "c")]]) /\
  decode [0xf9; 0x3c; 0] = Ok (Float 0x3ff0000000000000) /\
  decode [0xf9; 0; 1] = Ok (Float 0x3e70000000000000) /\
  decode [0xfa; 0x47; 0xc3; 0x50; 0] = Ok (Float 0x40f86a0000000000) /\
  decode [0x5a; 255; 255; 255; 255] = Err Truncated /\
  decode [0xbb; 255; 255; 255; 255; 255; 255; 255; 255] = Err Truncated /\
  decode [0xff] = Err (Invalid "unexpected break") /\
  decode (repeat 0x81 200 ++ [0]) = Err TooDeep.
Proof. vm_compute. repeat split. Qed.

(** ** Induction through the nested lists *)

Section value_ind.
Variable P : Value -> Prop.
Hypothesis Hint : forall i, P (Integer i).
Hypothesis Hbytes : forall b, P (Bytes b).
Hypothesis Htext : forall t, P (Text t).
Hypothesis Harray : forall l, Forall P l -> P (Array l).
Hypothesis Hmap : forall l, Forall (fun kv => P kv.1 /\ P kv.2) l -> P (VMap l).
Hypothesis Htag : forall t v, P v -> P (Tag t v).
Hypothesis Hbool : forall b, P (Bool b).
Hypothesis Hnull : P Null.
Hypothesis Hfloat : forall b, P (Float b).

Fixpoint value_ind' (v : Value) : P v :=
  match v with
  | Integer i => Hint i | Bytes b => Hbytes b | Text t => Htext t
  | Array l => Harray l ((fix go l : Forall P l := match l with
      | [] => Forall_nil_2 _ | x :: l' => Forall_cons_2 _ _ _ (value_ind' x) (go l') end) l)
  | VMap l => Hmap l ((fix go l : Forall (fun kv => P kv.1 /\ P kv.2) l := match l with
      | [] => Forall_nil_2 _
      | kv :: l' => Forall_cons_2 _ _ _ (conj (value_ind' kv.1) (value_ind' kv.2)) (go l') end) l)
  | Tag t v => Htag t v (value_ind' v)
  | Bool b => Hbool b | Null => Hnull | Float b => Hfloat b
  end.
End value_ind.

(** ** Well-formed values and their depth *)

(** What the Rust types guarantee: bytes are bytes, text is UTF-8, lengths
    and tags are [u64], doubles are 64 bits. *)
Fixpoint wf (v : Value) : Prop :=
  match v with
  | Integer _ | Bool _ | Null => True
  | Bytes b => is_bytes b /\ len b < 2 ^ 64
  | Text t => valid_utf8 (bytes_of_str t) = true /\ str_len t < 2 ^ 64
  | Array l => len l < 2 ^ 64 /\
      (fix go l := match l with [] => True | x :: l' => wf x /\ go l' end) l
  | VMap l => len l < 2 ^ 64 /\
      (fix go l := match l with [] => True | (k, x) :: l' => wf k /\ wf x /\ go l' end) l
  | Tag t v => 0 <= t < 2 ^ 64 /\ wf v
  | Float b => 0 <= b < 2 ^ 64
  end.

(** Nesting depth: how far below its own level a value reaches. *)
Fixpoint depth (v : Value) : nat :=
  match v with
  | Array l => foldr Nat.max O ((fun x => S (depth x)) <$> l)
  | VMap l => foldr Nat.max O ((fun kv => S (Nat.max (depth kv.1) (depth kv.2))) <$> l)
  | Tag _ v => S (depth v)
  | _ => O
  end.

(** ** Headers *)

Definition initial_ok (major info initial : Z) : Prop :=
  Z.shiftr initial 5 = major /\ Z.land initial 0x1f = info.

Lemma initial_lor major info : 0 <= major < 8 -> 0 <= info < 32 ->
  initial_ok major info (Z.lor (Z.shiftl major 5) info).
Proof.
  intros Hm Hi. unfold initial_ok. rewrite lor_shiftl_add by lia.
  rewrite Z.shiftr_div_pow2 by lia. change 0x1f with (2 ^ 5 - 1). rewrite land_mask by lia.
  change (2 ^ 5) with 32. split; [rewrite Z.div_add_l, Z.div_small by lia; lia|].
  rewrite Z.add_comm, Z.mod_add, Z.mod_small by lia. done.
Qed.

Lemma take_be_bytes k a rest : 0 <= a < 256 ^ Z.of_nat k -> take_be k (be_bytes k a ++ rest) = Ok (a, rest).
Proof.
  intros Ha. unfold take_be, take_n. rewrite length_app, length_be_bytes.
  destruct (Nat.ltb_spec (k + length rest) k); [lia|]. simpl.
  rewrite take_app_length', drop_app_length' by (by rewrite length_be_bytes). by rewrite of_be_bytes_small.
Qed.

Lemma put_header_spec major a : 0 <= major < 8 -> 0 <= a < 2 ^ 64 ->
  exists initial info tail, put_header major a = initial :: tail /\ initial_ok major info initial /\
    info <> 31 /\ forall rest, arg info (tail ++ rest) = Ok (a, rest).
Proof.
  intros Hm Ha. unfold put_header.
  destruct (Z.ltb_spec a 24); [|destruct (Z.leb_spec a (2 ^ 8 - 1)); [|destruct (Z.leb_spec a (2 ^ 16 - 1));
    [|destruct (Z.leb_spec a (2 ^ 32 - 1))]]]; do 3 eexists; (split; [reflexivity|]);
    (split; [apply initial_lor; lia|]); (split; [lia|]); intros rest; unfold arg.
  - destruct (Z.leb_spec a 23); [done|lia].
  - done.
  - simpl (25 <=? 23). cbv iota. apply take_be_bytes. simpl. lia.
  - simpl (26 <=? 23). cbv iota. apply take_be_bytes. simpl. lia.
  - simpl (27 <=? 23). cbv iota. apply take_be_bytes. simpl. lia.
Qed.

Lemma arg_as_len_ok a s : 0 <= a <= len s -> arg_as_len a s = Ok (Z.to_nat a).
Proof. unfold arg_as_len. intros. destruct (Z.ltb_spec (len s) a); [lia|done]. Qed.

Lemma take_n_app b rest : take_n (length b) (b ++ rest) = Ok (b, rest).
Proof.
  unfold take_n. rewrite length_app. destruct (Nat.ltb_spec (length b + length rest) (length b)); [lia|].
  by rewrite take_app_length, drop_app_length.
Qed.

(** ** Encodings of lists *)

Definition encode_entry (kv : Value * Value) : result CborError (list Z) :=
  bk ← encode_into kv.1; bv ← encode_into kv.2; Ok (bk ++ bv).

(** [bodies f l bss body]: [body] concatenates the encodings of [l]. *)
Definition bodies {A} (f : A -> result CborError (list Z)) (l : list A) (bss : list (list Z)) (body : list Z)
    : Prop := Forall2 (fun x b => f x = Ok b) l bss /\ body = concat bss.

Lemma encode_array_inv l bs : encode_into (Array l) = Ok bs ->
  exists bss body, bodies encode_into l bss body /\ bs = put_header 4 (len l) ++ body.
Proof.
  simpl. intros H. inv_ok. enough (exists bss, bodies encode_into l bss x) as [bss ?] by eauto.
  clear -H0. revert x H0. induction l as [|v l IH]; intros body H; inv_ok.
  - exists []. by split.
  - destruct (IH _ H1) as (bss & HF & ->). exists (x :: bss). split; [by constructor|done].
Qed.

Lemma encode_map_inv l bs : encode_into (VMap l) = Ok bs ->
  exists bss body, bodies encode_entry l bss body /\ bs = put_header 5 (len l) ++ body.
Proof.
  simpl. intros H. inv_ok. enough (exists bss, bodies encode_entry l bss x) as [bss ?] by eauto.
  clear -H0. revert x H0. induction l as [|[k v] l IH]; intros body H; inv_ok.
  - exists []. by split.
  - destruct (IH _ H2) as (bss & HF & ->). exists ((x ++ x0) :: bss). split.
    + constructor; [|done]. unfold encode_entry. simpl. by rewrite H0, H1.
    + simpl. by rewrite app_assoc.
Qed.

Lemma put_header_nonempty major a : (1 <= length (put_header major a))%nat.
Proof. unfold put_header. repeat case_match; simpl; lia. Qed.

Lemma encode_nonempty v bs : encode_into v = Ok bs -> (1 <= length bs)%nat.
Proof.
  pose proof put_header_nonempty as Hh.
  destruct v; simpl; intros H; inv_ok; rewrite ?length_app; simpl; try lia;
    try (pose proof (Hh 2 (len b)); lia); try (pose proof (Hh 3 (str_len t)); lia);
    try (pose proof (Hh 4 (len items)); lia); try (pose proof (Hh 5 (len entries)); lia);
    try (pose proof (Hh 6 tag); lia).
  unfold encode_integer in H. repeat case_test; inv_ok; apply Hh.
Qed.

Lemma encode_entry_nonempty kv bs : encode_entry kv = Ok bs -> (2 <= length bs)%nat.
Proof.
  unfold encode_entry. intros H. inv_ok. rewrite length_app.
  pose proof (encode_nonempty _ _ H0). pose proof (encode_nonempty _ _ H1). lia.
Qed.

Lemma bodies_length {A} (f : A -> _) k l bss body : (forall x b, f x = Ok b -> (k <= length b)%nat) ->
  bodies f l bss body -> (k * length l <= length body)%nat.
Proof.
  intros Hk [HF ->]. induction HF as [|x b l bss Hx _ IH]; simpl; [lia|].
  rewrite length_app. specialize (Hk _ _ Hx). lia.
Qed.

(** Reading back a list whose items read back, or are too deep. *)
Lemma read_n_bodies {A} (f : A -> _) (item : list Z -> result CborError (A * list Z)) (ok : A -> bool) l bss body rest :
  bodies f l bss body ->
  Forall (fun x => forall b rest, f x = Ok b -> item (b ++ rest) = if ok x then Ok (x, rest) else Err TooDeep) l ->
  read_n item (length l) (body ++ rest) = if forallb ok l then Ok (l, rest) else Err TooDeep.
Proof.
  intros [HF ->]. induction HF as [|x b l bss Hx _ IH]; intros Hitem; [done|].
  inversion_clear Hitem as [|? ? Hi Hl]. simpl. rewrite <- app_assoc, (Hi _ _ Hx).
  destruct (ok x); simpl; [|done]. rewrite IH by done. by destruct (forallb ok l).
Qed.

Lemma depth_array l n : (depth (Array l) <? S n)%nat = forallb (fun x => (depth x <? n)%nat) l.
Proof.
  induction l as [|x l IH]; [done|]. simpl forallb. rewrite <- IH.
  change (depth (Array (x :: l))) with (Nat.max (S (depth x)) (depth (Array l))).
  apply eq_bool_prop_intro. rewrite andb_True, !Is_true_true, !Nat.ltb_lt. lia.
Qed.

Lemma depth_map l n :
  (depth (VMap l) <? S n)%nat = forallb (fun kv => (depth kv.1 <? n)%nat && (depth kv.2 <? n)%nat) l.
Proof.
  induction l as [|x l IH]; [done|]. simpl forallb. rewrite <- IH.
  change (depth (VMap (x :: l))) with (Nat.max (S (Nat.max (depth x.1) (depth x.2))) (depth (VMap l))).
  apply eq_bool_prop_intro. rewrite !andb_True, !Is_true_true, !Nat.ltb_lt. lia.
Qed.

(** ** Reading back one value *)

(** [reads fuel v]: at every depth the encoding of [v] reads back as [v],
    or is refused as too deep. *)
Definition reads (v : Value) : Prop := forall fuel depths bs rest, wf v -> encode_into v = Ok bs ->
  value fuel depths (bs ++ rest) = if (depth v <? depths)%nat then Ok (v, rest) else Err TooDeep.

(** Read a header written by [put_header]. *)
Ltac read_header m a :=
  let ini := fresh "ini" in let info := fresh "info" in let tl := fresh "tl" in
  let Hh := fresh "Hh" in let E1 := fresh in let E2 := fresh in let Hne := fresh "Hne" in let Harg := fresh "Harg" in
  destruct (put_header_spec m a) as (ini & info & tl & Hh & [E1 E2] & Hne & Harg);
    [lia|lia|rewrite Hh; cbn [value app byte mbind result_bind]; rewrite E1, E2; cbn [Z.eqb Pos.eqb];
     unfold string_body; rewrite ?(proj2 (Z.eqb_neq info 31) Hne), ?Harg; cbn [mbind result_bind]].

Lemma reads_integer i : reads (Integer i).
Proof.
  intros fuel [|d] bs rest _ H; [done|]. simpl in H. unfold encode_integer in H.
  change (depth (Integer i) <? S d)%nat with true. cbv iota.
  destruct (Z.leb_spec 0 i); [destruct (Z.ltb_spec i (2 ^ 64))|destruct (Z.ltb_spec (- i - 1) (2 ^ 64))]; inv_ok.
  - read_header 0 i. done.
  - read_header 1 (- i - 1). do 3 f_equal. lia.
Qed.

Lemma take_len_app b rest : (n ← arg_as_len (len b) (b ++ rest); take_n n (b ++ rest)) = Ok (b, rest).
Proof.
  rewrite arg_as_len_ok by (unfold len; rewrite length_app; lia). simpl. unfold len.
  by rewrite Nat2Z.id, take_n_app.
Qed.

Lemma reads_bytes b : reads (Bytes b).
Proof.
  intros fuel [|d] bs rest [_ Hl] H; [done|]. simpl in H. inv_ok. rewrite <- app_assoc.
  change (depth (Bytes b) <? S d)%nat with true. cbv iota. assert (0 <= len b) by (unfold len; lia).
  read_header 2 (len b). by rewrite take_len_app.
Qed.

Lemma reads_text t : reads (Text t).
Proof.
  intros fuel [|d] bs rest [Hu Hl] H; [done|]. simpl in H. inv_ok. rewrite <- app_assoc.
  change (depth (Text t) <? S d)%nat with true. cbv iota. pose proof (str_len_nonneg t).
  read_header 3 (str_len t). unfold str_len. rewrite <- length_bytes_of_str. fold (len (bytes_of_str t)).
  rewrite take_len_app. simpl. unfold text_value. by rewrite Hu, str_of_bytes_of_str.
Qed.

Lemma reads_array l : Forall reads l -> reads (Array l).
Proof.
  intros Hl fuel [|d] bs rest [Hlen Hwf] H; [done|].
  destruct (encode_array_inv _ _ H) as (bss & body & Hb & ->). rewrite <- app_assoc.
  assert (0 <= len l) by (unfold len; lia).
  pose proof (bodies_length _ 1 _ _ _ encode_nonempty Hb) as Hn.
  read_header 4 (len l). rewrite arg_as_len_ok by (unfold len in *; rewrite length_app; lia). simpl mbind.
  unfold len at 1. rewrite Nat2Z.id.
  rewrite (read_n_bodies encode_into (value fuel d) (fun x => (depth x <? d)%nat) l bss body rest Hb).
  - rewrite depth_array. by destruct (forallb _ l).
  - clear -Hl Hwf. induction Hl as [|x l Hx _ IH]; [done|]. destruct Hwf as [Hw Hwf].
    constructor; [|by apply IH]. intros b r E. by apply Hx.
Qed.

Lemma reads_map l : Forall (fun kv => reads kv.1 /\ reads kv.2) l -> reads (VMap l).
Proof.
  intros Hl fuel [|d] bs rest [Hlen Hwf] H; [done|].
  destruct (encode_map_inv _ _ H) as (bss & body & Hb & ->). rewrite <- app_assoc.
  assert (0 <= len l) by (unfold len; lia).
  pose proof (bodies_length _ 2 _ _ _ encode_entry_nonempty Hb) as Hn.
  read_header 5 (len l). destruct (Z.ltb_spec (len (body ++ rest) / 2) (len l)) as [Hlt|_].
  { exfalso. unfold len in *. rewrite length_app in Hlt.
    pose proof (Z.div_le_lower_bound (Z.of_nat (length body + length rest)) 2 (Z.of_nat (length l))). lia. }
  unfold len at 1. rewrite Nat2Z.id.
  rewrite (read_n_bodies encode_entry (entry (value fuel d))
    (fun kv => (depth kv.1 <? d)%nat && (depth kv.2 <? d)%nat) l bss body rest Hb).
  - rewrite depth_map. by destruct (forallb _ l).
  - clear -Hl Hwf. induction Hl as [|[k v] l [Hk Hv] _ IH]; [done|]. destruct Hwf as (Hwk & Hwv & Hwf).
    constructor; [|by apply IH]. intros b r E. unfold encode_entry in E. inv_ok. simpl in *.
    unfold entry. rewrite <- app_assoc, (Hk fuel d _ _ Hwk E0). destruct (depth k <? d)%nat; simpl; [|done].
    rewrite (Hv fuel d _ _ Hwv E1). by destruct (depth v <? d)%nat.
Qed.

Lemma reads_tag t v : reads v -> reads (Tag t v).
Proof.
  intros Hv fuel [|d] bs rest [Ht Hwf] H; [done|]. simpl in H. inv_ok. rewrite <- app_assoc.
  read_header 6 t. rewrite (Hv fuel d _ _ Hwf H0).
  change (depth (Tag t v) <? S d)%nat with (depth v <? d)%nat. by destruct (depth v <? d)%nat.
Qed.

Lemma value_reads v : reads v.
Proof.
  induction v using value_ind';
    [apply reads_integer|apply reads_bytes|apply reads_text|by apply reads_array|by apply reads_map
    |by apply reads_tag|intros fuel [|d] bs rest Hwf H; [done|]; simpl in H; inv_ok..].
  - by destruct b.
  - done.
  - change (depth (Float b) <? S d)%nat with true. cbv iota. simpl in Hwf.
    change (('(raw, s) ← take_be 8 (be_bytes 8 b ++ rest); Ok (Float raw, s)) = Ok (Float b, rest)).
    rewrite take_be_bytes by (simpl; lia). done.
Qed.

(** ** Termination: every item consumes input *)

Definition consumes {A} (k : nat) (r : list Z -> result CborError (A * list Z)) : Prop :=
  forall s v s', r s = Ok (v, s') -> (length s' + k <= length s)%nat.

Lemma byte_consumes : consumes 1 byte.
Proof. intros [|b s] v s' H; simpl in *; inv_ok. lia. Qed.

Lemma take_n_consumes n : consumes 0 (take_n n).
Proof.
  intros s v s' H. unfold take_n in H. case_test; inv_ok. rewrite length_drop. lia.
Qed.

Lemma take_be_consumes n : consumes 0 (take_be n).
Proof.
  intros s v s' H. unfold take_be in H. inv_ok. destruct x as [x s1]. inv_ok.
  by eapply take_n_consumes.
Qed.

Lemma arg_consumes info : consumes 0 (arg info).
Proof.
  intros s v s' H. unfold arg in H.
  repeat (case_test; [first [by eapply take_be_consumes | inv_ok; lia
    | apply byte_consumes in H; lia]|]). done.
Qed.

Lemma chunks_consumes fuel major : consumes 1 (indefinite_chunks fuel major).
Proof.
  induction fuel as [|fuel IH]; intros s v s' H; [done|]. cbn [indefinite_chunks] in H.
  apply bind_ok in H as ([b s1] & H1 & H). apply byte_consumes in H1.
  case_test; [inv_ok; lia|]. case_test; [done|].
  apply bind_ok in H as ([a s2] & H2 & H). apply arg_consumes in H2.
  apply bind_ok in H as (n & _ & H). apply bind_ok in H as ([c s3] & H3 & H). apply take_n_consumes in H3.
  apply bind_ok in H as ([o s4] & H4 & H). apply IH in H4. inv_ok. lia.
Qed.

Lemma string_body_consumes fuel d major info : consumes 0 (string_body fuel d major info).
Proof.
  intros s v s' H. unfold string_body, indefinite_string in H. case_test.
  - destruct d; [done|]. apply chunks_consumes in H. lia.
  - apply bind_ok in H as ([a s2] & H2 & H). apply arg_consumes in H2.
    apply bind_ok in H as (n & _ & H). apply take_n_consumes in H. lia.
Qed.

Section loop_facts.
Context {A : Type} (item : list Z -> result CborError (A * list Z)).
Hypothesis Hitem : consumes 1 item.

Lemma read_n_consumes n : consumes 0 (read_n item n).
Proof.
  induction n as [|n IH]; intros s v s' H; cbn [read_n] in H; [inv_ok; lia|].
  apply bind_ok in H as ([x s1] & H1 & H). apply Hitem in H1.
  apply bind_ok in H as ([y s2] & H2 & H). apply IH in H2. inv_ok. lia.
Qed.

Lemma read_until_consumes fuel : consumes 0 (read_until_break item fuel).
Proof.
  induction fuel as [|fuel IH]; intros s v s' H; cbn [read_until_break] in H; [done|].
  apply bind_ok in H as ([brk s1] & H1 & H).
  assert (length s1 <= length s)%nat as Hle.
  { destruct s; simpl in H1; [done|].
    destruct (z =? 255); injection H1 as <- <-; simpl; lia. }
  destruct brk; [inv_ok; lia|].
  apply bind_ok in H as ([x s2] & H2 & H). apply Hitem in H2.
  apply bind_ok in H as ([y s3] & H3 & H). apply IH in H3. inv_ok. lia.
Qed.
End loop_facts.

Lemma entry_consumes item : consumes 1 item -> consumes 1 (entry item).
Proof.
  intros Hi s v s' H. unfold entry in H. apply bind_ok in H as ([x s1] & H1 & H). apply Hi in H1.
  apply bind_ok in H as ([y s2] & H2 & H). apply Hi in H2. inv_ok. lia.
Qed.

Lemma value_consumes fuel d : consumes 1 (value fuel d).
Proof.
  induction d as [|d IH]; intros s v s' H; [done|]. cbn [value] in H.
  apply bind_ok in H as ([b s1] & H1 & H). apply byte_consumes in H1. cbv zeta in H.
  enough (length s' <= length s1)%nat by lia. clear H1 s.
  case_test; [|case_test; [|case_test; [|case_test; [|case_test; [|case_test; [|case_test]]]]]].
  - apply bind_ok in H as ([a s2] & H2 & H). apply arg_consumes in H2. inv_ok. lia.
  - apply bind_ok in H as ([a s2] & H2 & H). apply arg_consumes in H2. inv_ok. lia.
  - apply bind_ok in H as ([a s2] & H2 & H). apply string_body_consumes in H2. inv_ok. lia.
  - apply bind_ok in H as ([a s2] & H2 & H). apply string_body_consumes in H2.
    apply bind_ok in H as (t & _ & H). inv_ok. lia.
  - apply bind_ok in H as ([a s2] & H2 & H). inv_ok. case_test.
    + apply read_until_consumes in H2; [lia|done].
    + apply bind_ok in H2 as ([n s3] & H3 & H2). apply arg_consumes in H3.
      apply bind_ok in H2 as (m & _ & H2). apply read_n_consumes in H2; [lia|done].
  - apply bind_ok in H as ([a s2] & H2 & H). inv_ok. case_test.
    + apply read_until_consumes in H2; [lia|by apply entry_consumes].
    + apply bind_ok in H2 as ([n s3] & H3 & H2). apply arg_consumes in H3. case_test; [done|].
      apply read_n_consumes in H2; [lia|by apply entry_consumes].
  - apply bind_ok in H as ([a s2] & H2 & H). apply arg_consumes in H2.
    apply bind_ok in H as ([x s3] & H3 & H). apply IH in H3. inv_ok. lia.
  - unfold simple in H. repeat (case_test; [first [inv_ok; lia | done | idtac]|]).
    all: try done.
    all: apply bind_ok in H as ([x s3] & H3 & H); first [apply byte_consumes in H3 | apply take_be_consumes in H3];
      try case_test; inv_ok; lia.
Qed.

(** ** Fuel: the length of the input is enough *)

(** Two readers that agree on inputs no longer than [n]. *)
Definition agree {A} (n : nat) (r1 r2 : list Z -> result CborError A) : Prop :=
  forall s, (length s <= n)%nat -> r1 s = r2 s.

Lemma chunks_fuel major f1 f2 n : (n <= f1)%nat -> (n <= f2)%nat ->
  agree n (indefinite_chunks f1 major) (indefinite_chunks f2 major).
Proof.
  revert f2 n; induction f1 as [|f1 IH]; intros f2 n H1 H2 s Hs.
  - destruct s; [|simpl in Hs; lia]. by destruct f2.
  - destruct f2 as [|f2]; [destruct s; [done|simpl in Hs; lia]|]. cbn [indefinite_chunks].
    destruct s as [|b s]; [done|]. simpl in Hs. cbn [byte mbind result_bind].
    case_test; [done|]. case_test; [done|].
    destruct (arg _ s) as [[a s2]|] eqn:E2; simpl; [|done]. apply arg_consumes in E2.
    destruct (arg_as_len a s2) as [m|]; simpl; [|done].
    destruct (take_n m s2) as [[c s3]|] eqn:E3; simpl; [|done]. apply take_n_consumes in E3.
    rewrite (IH f2 (n - 1)%nat) by lia. done.
Qed.

Section loop_agree.
Context {A : Type} (i1 i2 : list Z -> result CborError (A * list Z)) (n : nat).
Hypothesis Hc : consumes 1 i1.
Hypothesis Hag : agree n i1 i2.

Lemma read_n_agree k : agree n (read_n i1 k) (read_n i2 k).
Proof.
  induction k as [|k IH]; intros s Hs; [done|]. cbn [read_n]. rewrite <- Hag by done.
  destruct (i1 s) as [[v s1]|] eqn:E; simpl; [|done]. apply Hc in E. by rewrite IH by lia.
Qed.

Lemma read_until_agree f1 f2 m : (m <= n)%nat -> (m <= f1)%nat -> (m <= f2)%nat ->
  agree m (read_until_break i1 f1) (read_until_break i2 f2).
Proof.
  revert f2 m; induction f1 as [|f1 IH]; intros f2 m Hm H1 H2 s Hs.
  - destruct s; [|simpl in Hs; lia]. by destruct f2.
  - destruct f2 as [|f2]; [destruct s; [done|simpl in Hs; lia]|]. cbn [read_until_break].
    destruct s as [|b s]; [done|]. cbn [at_break]. case_test; [done|]. cbn [mbind result_bind].
    rewrite <- Hag by lia. destruct (i1 (b :: s)) as [[v s1]|] eqn:E; simpl; [|done].
    apply Hc in E. rewrite (IH f2 (m - 1)%nat) by lia. done.
Qed.
End loop_agree.

Lemma entry_agree n i1 i2 : consumes 1 i1 -> agree n i1 i2 -> agree n (entry i1) (entry i2).
Proof.
  intros Hc Hag s Hs. unfold entry. rewrite <- Hag by done. destruct (i1 s) as [[k s1]|] eqn:E; simpl; [|done].
  apply Hc in E. by rewrite Hag by lia.
Qed.

Lemma string_body_fuel f1 f2 d major info n : (n <= f1)%nat -> (n <= f2)%nat ->
  agree n (string_body f1 d major info) (string_body f2 d major info).
Proof.
  intros H1 H2 s Hs. unfold string_body, indefinite_string. case_test; [|done].
  destruct d; [done|]. by apply (chunks_fuel major f1 f2 n).
Qed.

Lemma value_fuel f1 f2 d n : (n <= f1)%nat -> (n <= f2)%nat -> agree n (value f1 d) (value f2 d).
Proof.
  intros H1 H2. induction d as [|d IH]; intros s Hs; [done|]. cbn [value].
  destruct s as [|b s]; [done|]. simpl in Hs. cbn [byte mbind result_bind]. cbv zeta.
  assert (length s <= n)%nat as Hsn by lia. pose proof (value_consumes f1 d) as Hc.
  rewrite !(string_body_fuel f1 f2 d _ _ n H1 H2 s Hsn).
  rewrite (read_until_agree (value f1 d) (value f2 d) n Hc IH f1 f2 n) by lia.
  rewrite (read_until_agree _ _ n (entry_consumes _ Hc) (entry_agree _ _ _ Hc IH) f1 f2 n) by lia.
  destruct (arg (Z.land b 31) s) as [[a s2]|] eqn:E; cbn [mbind result_bind]; [|done].
  apply arg_consumes in E. rewrite IH by lia.
  rewrite (read_n_agree _ _ n (entry_consumes _ Hc) (entry_agree _ _ _ Hc IH)) by lia.
  destruct (arg_as_len a s2) as [k|]; cbn [mbind result_bind]; [|done].
  rewrite (read_n_agree _ _ n Hc IH k) by lia. done.
Qed.

(** The decoder terminates on every input without running out of the
    model's fuel: any fuel from the length of the input up gives the same
    answer, since every item consumes at least one byte. *)
Theorem cbor_decode_fuel bytes fuel (Hf : (length bytes <= fuel)%nat) :
  decode bytes = '(v, _) ← value fuel (S MAX_DEPTH) bytes; Ok v.
Proof. unfold decode. by rewrite (value_fuel (length bytes) fuel _ (length bytes)) by lia. Qed.

Lemma cbor_decode_fuel_witness :
  decode [0x9f; 1; 2; 0xff] = '(v, _) ← value 100 (S MAX_DEPTH) [0x9f; 1; 2; 0xff]; Ok v.
Proof. apply (cbor_decode_fuel [0x9f; 1; 2; 0xff] 100). simpl. lia. Defined.

Lemma cbor_decode_encode_value v bs rest : wf v -> encode v = Ok bs -> (depth v <= MAX_DEPTH)%nat ->
  decode (bs ++ rest) = Ok v.
Proof.
  intros Hwf He Hd. unfold decode. rewrite (value_reads v _ _ _ _ Hwf He).
  destruct (Nat.ltb_spec (depth v) (S MAX_DEPTH)); [done|lia].
Qed.

(** C9: Decoding the encoding of a value, with any bytes after it, gives the
    value back when it nests at most [MAX_DEPTH] deep, and is refused as too
    deep otherwise. *)
Theorem cbor_roundtrip v bs rest (Hwf : wf v) (He : encode v = Ok bs) :
  decode (bs ++ rest) = if (depth v <=? MAX_DEPTH)%nat then Ok v else Err TooDeep.
Proof.
  unfold decode. rewrite (value_reads v _ _ _ _ Hwf He).
  destruct (Nat.ltb_spec (depth v) (S MAX_DEPTH)), (Nat.leb_spec (depth v) MAX_DEPTH); done || lia.
Qed.

Lemma cbor_roundtrip_witness :
  decode ([0xa1; 0x61; 0x61; 0x82; 0x20; 0x42; 7; 8] ++ [0xff])
  = Ok (VMap [(Text "a", Array [Integer (-1); Bytes [7; 8]])]).
Proof.
  rewrite (cbor_roundtrip (VMap [(Text "a", Array [Integer (-1); Bytes [7; 8]])]));
    [reflexivity| |vm_compute; reflexivity].
  vm_compute. repeat split; try discriminate. repeat constructor; discriminate.
Defined.

(** The encoder emits bytes. *)
Lemma put_header_bytes major a : 0 <= major < 8 -> 0 <= a < 2 ^ 64 -> is_bytes (put_header major a).
Proof.
  intros Hm Ha. unfold put_header.
  assert (forall i, 0 <= i < 32 -> is_u8 (Z.lor (Z.shiftl major 5) i)) as Hi.
  { intros i Hi. rewrite lor_shiftl_add by lia. unfold is_u8. lia. }
  repeat case_test; bool_to_prop; apply Forall_cons; (split; [apply Hi; lia|]);
    first [apply be_bytes_bytes | repeat constructor; unfold is_u8; lia].
Qed.

(** ** JSON bridging *)

Definition number_to_cbor (n : number) : Value :=
  match n with NInt i => Integer i | NFloat bits => Float bits end.

(** [from_json]; [as_f64] of a [serde_json] number is always there. *)
Fixpoint from_json (v : json) : result CborError Value :=
  match v with
  | JNull => Ok Null
  | JBool b => Ok (Bool b)
  | JNumber n => Ok (number_to_cbor n)
  | JString s => Ok (Text s)
  | JArray items =>
    xs ← (fix go l := match l with
      | [] => Ok []
      | x :: l' => y ← from_json x; ys ← go l'; Ok (y :: ys)
      end) items;
    Ok (Array xs)
  | JObject fields =>
    es ← (fix go l := match l with
      | [] => Ok []
      | (k, x) :: l' => y ← from_json x; ys ← go l'; Ok ((Text k, y) :: ys)
      end) fields;
    Ok (VMap es)
  end.

(** [f64::is_finite] on the bit pattern. *)
Definition is_finite (bits : Z) : bool := negb (Z.land (Z.shiftr bits 52) 0x7ff =? 0x7ff).

Definition integer_to_json (i : Z) : result CborError json :=
  if (- 2 ^ 63 <=? i) && (i <? 2 ^ 64) then Ok (JNumber (NInt i))
  else Err (Unrepresentable "integer outside JSON range").

(** [to_json]; the entries of a map are inserted one after the other. *)
Fixpoint to_json (v : Value) : result CborError json :=
  match v with
  | Null => Ok JNull
  | Bool b => Ok (JBool b)
  | Integer i => integer_to_json i
  | Float bits =>
    if is_finite bits then Ok (JNumber (NFloat bits)) else Err (Unrepresentable "non-finite float")
  | Text t => Ok (JString t)
  | Array items =>
    xs ← (fix go l := match l with
      | [] => Ok []
      | x :: l' => y ← to_json x; ys ← go l'; Ok (y :: ys)
      end) items;
    Ok (JArray xs)
  | VMap entries =>
    out ← (fix go out l := match l with
      | [] => Ok out
      | (Text key, x) :: l' => y ← to_json x; go (assoc_insert key y out) l'
      | _ :: _ => Err (Unrepresentable "non-text map key in JSON")
      end) [] entries;
    Ok (JObject out)
  | Tag _ _ => Err (Unrepresentable "tag in JSON")
  | Bytes _ => Err (Unrepresentable "byte string in JSON")
  end.

(** What a [serde_json::Value] satisfies. *)
Definition number_ok (n : number) : Prop :=
  match n with
  | NInt i => - 2 ^ 63 <= i < 2 ^ 64
  | NFloat bits => 0 <= bits < 2 ^ 64 /\ is_finite bits = true
  end.
Definition str_ok (s : string) : Prop := valid_utf8 (bytes_of_str s) = true /\ str_len s < 2 ^ 64.
Fixpoint jwf (v : json) : Prop :=
  match v with
  | JNull | JBool _ => True
  | JNumber n => number_ok n
  | JString s => str_ok s
  | JArray l => len l < 2 ^ 64 /\
      (fix go l := match l with [] => True | x :: l' => jwf x /\ go l' end) l
  | JObject l => len l < 2 ^ 64 /\ NoDup (l.*1) /\
      (fix go l := match l with [] => True | (k, x) :: l' => str_ok k /\ jwf x /\ go l' end) l
  end.
Fixpoint jdepth (v : json) : nat :=
  match v with
  | JArray l => foldr Nat.max O ((fun x => S (jdepth x)) <$> l)
  | JObject l => foldr Nat.max O ((fun kv => S (jdepth kv.2)) <$> l)
  | _ => O
  end.

(** [from_json] as a total function. *)
Fixpoint bridge (v : json) : Value :=
  match v with
  | JNull => Null
  | JBool b => Bool b
  | JNumber n => number_to_cbor n
  | JString s => Text s
  | JArray l => Array (bridge <$> l)
  | JObject l => VMap ((fun kv => (Text kv.1, bridge kv.2)) <$> l)
  end.

Lemma from_json_total j : from_json j = Ok (bridge j).
Proof.
  induction j as [| | | |l IH|l IH] using json_ind'; try done; simpl.
  - match goal with |- (?e ≫= _) = _ => enough (e = Ok (bridge <$> l)) as -> by done end.
    induction IH as [|x l Hx _ IHl]; [done|]. rewrite Hx, IHl. done.
  - match goal with |- (?e ≫= _) = _ =>
      enough (e = Ok ((fun kv => (Text kv.1, bridge kv.2)) <$> l)) as -> by done end.
    induction IH as [|[k x] l Hx _ IHl]; [done|]. simpl in Hx. rewrite Hx, IHl. done.
Qed.

Lemma bridge_wf j : jwf j -> wf (bridge j).
Proof.
  induction j as [| |[]| |l IH|l IH] using json_ind'; simpl; try done.
  - by intros [].
  - intros [Hlen Hl]. split; [by unfold len in *; rewrite length_fmap|]. clear Hlen.
    induction IH as [|x l Hx _ IHl]; [done|]. destruct Hl as [H1 H2]. split; [by apply Hx|by apply IHl].
  - intros (Hlen & _ & Hl). split; [by unfold len in *; rewrite length_fmap|]. clear Hlen.
    induction IH as [|[k x] l Hx _ IHl]; [done|]. destruct Hl as (H1 & H2 & H3).
    split; [done|]. split; [by apply Hx|by apply IHl].
Qed.

Lemma bridge_encodes j : jwf j -> exists bs, encode (bridge j) = Ok bs.
Proof.
  unfold encode. induction j as [| |[i|bits]| |l IH|l IH] using json_ind'; simpl; try by eauto.
  - intros Hi. unfold encode_integer. destruct (Z.leb_spec 0 i);
      [destruct (Z.ltb_spec i (2 ^ 64))|destruct (Z.ltb_spec (- i - 1) (2 ^ 64))]; first [by eauto | lia].
  - intros [_ Hl].
    enough (exists body, (fix go l := match l with
      | [] => Ok [] | x :: l' => bx ← encode_into x; bl ← go l'; Ok (bx ++ bl) end) (bridge <$> l) = Ok body)
      as [body ->] by (simpl; eauto).
    induction IH as [|x l Hx _ IHl]; [by eexists|]. destruct Hl as [H1 H2].
    destruct (Hx H1) as [b Eb], (IHl H2) as [body Ebody]. exists (b ++ body).
    rewrite fmap_cons. rewrite Eb, Ebody. done.
  - intros (_ & _ & Hl).
    enough (exists body, (fix go l := match l with
      | [] => Ok []
      | (k, v) :: l' => bk ← encode_into k; bv ← encode_into v; bl ← go l'; Ok (bk ++ bv ++ bl) end)
        ((fun kv : string * json => (Text kv.1, bridge kv.2)) <$> l) = Ok body)
      as [body ->] by (simpl; eauto).
    induction IH as [|[k x] l Hx _ IHl]; [by eexists|]. destruct Hl as (_ & H1 & H2).
    destruct (Hx H1) as [b Eb], (IHl H2) as [body Ebody]. simpl in Eb. eexists.
    rewrite fmap_cons. rewrite Ebody. simpl. rewrite Eb. done.
Qed.

Lemma bridge_depth j : depth (bridge j) = jdepth j.
Proof.
  induction j as [| |[]| |l IH|l IH] using json_ind'; try done; simpl.
  - induction IH as [|x l Hx _ IHl]; [done|]. rewrite !fmap_cons. cbn [foldr]. by rewrite Hx, IHl.
  - induction IH as [|[k x] l Hx _ IHl]; [done|]. rewrite !fmap_cons. cbn [foldr fst snd]. simpl in Hx.
    rewrite Hx. f_equal. exact IHl.
Qed.

Lemma to_json_bridge j : jwf j -> to_json (bridge j) = Ok j.
Proof.
  induction j as [| |[i|bits]| |l IH|l IH] using json_ind'; [done|done|..].
  - intros Hi. cbn [bridge number_to_cbor to_json]. cbn [jwf number_ok] in Hi. unfold integer_to_json.
    destruct (Z.leb_spec (- 2 ^ 63) i), (Z.ltb_spec i (2 ^ 64)); simpl; done || lia.
  - intros [_ Hf]. cbn [bridge number_to_cbor to_json]. by rewrite Hf.
  - done.
  - intros [_ Hl]. simpl. match goal with |- (?e ≫= _) = _ => enough (e = Ok l) as -> by done end.
    induction IH as [|x l Hx _ IHl]; [done|]. destruct Hl as [H1 H2]. rewrite fmap_cons, Hx, IHl by done. done.
  - intros (_ & Hnd & Hl). simpl.
    enough (forall out, NoDup ((out ++ l).*1) -> (fix go out l := match l with
      | [] => Ok out
      | (Text key, x) :: l' => y ← to_json x; go (assoc_insert key y out) l'
      | _ :: _ => Err (Unrepresentable "non-text map key in JSON")
      end) out ((fun kv : string * json => (Text kv.1, bridge kv.2)) <$> l) = Ok (out ++ l)) as H
      by (rewrite (H [] Hnd); done).
    clear Hnd. induction IH as [|[k x] l Hx _ IHl]; intros out Hnd; [by rewrite app_nil_r|].
    destruct Hl as (_ & H1 & H2). simpl in Hx. rewrite fmap_cons. cbn [fst snd]. rewrite Hx by done. simpl.
    rewrite assoc_insert_new.
    + rewrite IHl; rewrite <- ?app_assoc; done.
    + rewrite fmap_app, fmap_cons in Hnd. apply NoDup_app in Hnd as (_ & Hnd & _). intros Hk.
      apply (Hnd _ Hk). left.
Qed.

(** A JSON tree within the depth limit travels through CBOR unchanged:
    converted, encoded, decoded with any bytes after it and converted back
    it is the same tree, object order included. *)
Theorem cbor_json_roundtrip j rest (Hj : jwf j) (Hd : (jdepth j <= MAX_DEPTH)%nat) :
  exists v bs, from_json j = Ok v /\ encode v = Ok bs /\
    decode (bs ++ rest) = Ok v /\ to_json v = Ok j.
Proof.
  destruct (bridge_encodes j Hj) as [bs Hbs]. exists (bridge j), bs.
  split; [apply from_json_total|]. split; [done|]. split; [|by apply to_json_bridge].
  apply cbor_decode_encode_value; [by apply bridge_wf|done|by rewrite bridge_depth].
Qed.

Lemma cbor_json_roundtrip_witness : exists v bs,
  from_json (JObject [("z", JNumber (NInt (-42))); ("a", JArray [JNull; JString "x"])]) = Ok v /\
  encode v = Ok bs /\ decode (bs ++ [1]) = Ok v /\
  to_json v = Ok (JObject [("z", JNumber (NInt (-42))); ("a", JArray [JNull; JString "x"])]).
Proof.
  apply (cbor_json_roundtrip (JObject [("z", JNumber (NInt (-42))); ("a", JArray [JNull; JString "x"])]) [1]).
  - repeat split; try (vm_compute; (reflexivity || discriminate)). simpl. apply (bool_decide_unpack _). reflexivity.
  - vm_compute. lia.
Defined.

End Cbor.
