(* ===== verification/BinaryFormat.v ===== *)
(** * BinaryFormat: the [.tfbundle] and [.tfpkt] containers ([binary_format.rs])

    A magic number, a length-prefixed CBOR body and, for bundles, a
    length-prefixed signature.  Bodies go through [serde_json::Value] with
    sorted keys.  The [serde] conversions of the body type are Section
    variables. *)

From S2P Require Import Prelude Utf8 Json Cbor.
Import Cbor.

Module BinaryFormat.

Definition TFBUNDLE_MAGIC : list Z := [0x54; 0x46; 0x42; 0x4e; 0x44; 0x01; 0x00; 0x00].
Definition TFPKT_MAGIC : list Z := [0x54; 0x46; 0x50; 0x4b; 0x54; 0x01; 0x00; 0x00].

Inductive BinaryFormatError :=
| BadMagic
| TruncatedAt (offset : nat)
| CborFailure (message : string)
| LengthOutOfRange (n : Z).

(** [CborError]'s [Display]. *)
Definition cbor_error_str (e : CborError) : string :=
  match e with
  | Truncated => "truncated CBOR input"
  | Invalid what => "invalid CBOR: " +:+ what
  | TooDeep => "CBOR nesting exceeds depth limit"
  | Unrepresentable what => "unrepresentable in CBOR: " +:+ what
  end.
Definition cbor_err {A} (r : result CborError A) : result BinaryFormatError A :=
  map_err (fun e => CborFailure (cbor_error_str e)) r.

Definition put_u32_be (n : nat) : result BinaryFormatError (list Z) :=
  if 2 ^ 32 - 1 <? Z.of_nat n then Err (LengthOutOfRange (Z.of_nat n)) else Ok (be_bytes 4 (Z.of_nat n)).

Definition read_u32_be (buf : list Z) (off : nat) : result BinaryFormatError Z :=
  if (length buf <? off + 4)%nat then Err (TruncatedAt off) else Ok (of_be (take 4 (drop off buf))).

(** [sort_by] on the keys: a stable sort by UTF-8 bytes. *)
Fixpoint insert_sorted {A} (kv : string * A) (l : list (string * A)) : list (string * A) :=
  match l with
  | [] => [kv]
  | kv' :: l' => if str_le kv.1 kv'.1 then kv :: l else kv' :: insert_sorted kv l'
  end.
Definition sort_entries {A} (l : list (string * A)) : list (string * A) := foldr insert_sorted [] l.

Definition insert_all {A} (l : list (string * A)) : list (string * A) :=
  foldl (fun out kv => assoc_insert kv.1 kv.2 out) [] l.

Fixpoint canonicalize_json (v : json) : json :=
  match v with
  | JObject fields => JObject (insert_all (sort_entries ((fun kv => (kv.1, canonicalize_json kv.2)) <$> fields)))
  | JArray l => JArray (canonicalize_json <$> l)
  | other => other
  end.

Section typed.
(** A body type with its [Serialize] and [DeserializeOwned]. *)
Context {T : Type} (to_value : T -> result string json) (from_value : json -> result string T).

Definition cbor_encode (v : T) : result BinaryFormatError (list Z) :=
  json_value ← map_err CborFailure (to_value v);
  let canonical := canonicalize_json json_value in
  value ← cbor_err (from_json canonical);
  cbor_err (encode value).

Definition cbor_decode (bytes : list Z) : result BinaryFormatError T :=
  value ← cbor_err (decode bytes);
  json ← cbor_err (to_json value);
  map_err CborFailure (from_value json).

Definition write_tfbundle (body : T) (signature : option (list Z)) : result BinaryFormatError (list Z) :=
  body_bytes ← cbor_encode body;
  body_len ← put_u32_be (length body_bytes);
  let sig := unwrap_or signature [] in
  sig_len ← put_u32_be (length sig);
  Ok (TFBUNDLE_MAGIC ++ body_len ++ body_bytes ++ sig_len ++ sig).

Definition write_tfpkt (packet : T) : result BinaryFormatError (list Z) :=
  body_bytes ← cbor_encode packet;
  body_len ← put_u32_be (length body_bytes);
  Ok (TFPKT_MAGIC ++ body_len ++ body_bytes).

(** [buf[off..off + n]], after the bounds test. *)
Definition slice (buf : list Z) (off n : nat) : list Z := take n (drop off buf).

Definition check_magic (magic buf : list Z) : result BinaryFormatError unit :=
  if (length buf <? length magic)%nat then Err BadMagic
  else if bool_decide (take (length magic) buf = magic) then Ok tt else Err BadMagic.

(** A length-prefixed field at [off]: its bytes and the offset after it. *)
Definition read_field (buf : list Z) (off : nat) : result BinaryFormatError (list Z * nat) :=
  n ← read_u32_be buf off;
  let off := (off + 4)%nat in
  if Z.of_nat (length buf) <? Z.of_nat off + n then Err (TruncatedAt off)
  else Ok (slice buf off (Z.to_nat n), (off + Z.to_nat n)%nat).

Record TfbundleParts := mk_TfbundleParts {
  body : Value;
  signature : list Z;
  body_bytes : list Z
}.

Definition read_tfbundle (buf : list Z) : result BinaryFormatError TfbundleParts :=
  _ ← check_magic TFBUNDLE_MAGIC buf;
  '(body_bytes, off) ← read_field buf (length TFBUNDLE_MAGIC);
  body ← cbor_err (decode body_bytes);
  '(signature, _) ← read_field buf off;
  Ok (mk_TfbundleParts body signature body_bytes).

Definition read_tfbundle_typed (buf : list Z) : result BinaryFormatError (T * list Z) :=
  parts ← read_tfbundle buf;
  body ← cbor_decode (body_bytes parts);
  Ok (body, signature parts).

Definition read_tfpkt (buf : list Z) : result BinaryFormatError T :=
  _ ← check_magic TFPKT_MAGIC buf;
  '(body_bytes, _) ← read_field buf (length TFPKT_MAGIC);
  cbor_decode body_bytes.

End typed.

(** ** Sorted keys *)

Lemma insert_sorted_perm {A} (kv : string * A) l : insert_sorted kv l ≡ₚ kv :: l.
Proof.
  induction l as [|kv' l IH]; simpl; [done|]. destruct (str_le kv.1 kv'.1); [done|].
  rewrite IH. by rewrite Permutation_swap.
Qed.

Lemma sort_entries_perm {A} (l : list (string * A)) : sort_entries l ≡ₚ l.
Proof. induction l as [|kv l IH]; [done|]. simpl. by rewrite insert_sorted_perm, IH. Qed.

Lemma str_le_cases a b : a <> b -> (str_le a b = true /\ str_le b a = false) \/ (str_le a b = false /\ str_le b a = true).
Proof.
  intros Hne. destruct (str_le a b) eqn:E1, (str_le b a) eqn:E2; auto.
  - by destruct Hne; apply str_le_antisym.
  - apply str_le_total in E1. congruence.
Qed.

Lemma insert_sorted_comm {A} (x y : string * A) l : x.1 <> y.1 ->
  insert_sorted x (insert_sorted y l) = insert_sorted y (insert_sorted x l).
Proof.
  intros Hne. induction l as [|z l IH]; simpl.
  - destruct (str_le_cases _ _ Hne) as [[-> ->]|[-> ->]]; done.
  - destruct (str_le y.1 z.1) eqn:Ey, (str_le x.1 z.1) eqn:Ex; simpl; rewrite ?Ex, ?Ey.
    + destruct (str_le_cases _ _ Hne) as [[-> ->]|[-> ->]]; simpl; by rewrite ?Ex, ?Ey.
    + destruct (str_le x.1 y.1) eqn:E; [|simpl; by rewrite ?Ex, ?Ey].
      pose proof (str_le_trans _ _ _ E Ey). congruence.
    + destruct (str_le y.1 x.1) eqn:E; [|simpl; by rewrite ?Ex, ?Ey].
      pose proof (str_le_trans _ _ _ E Ex). congruence.
    + by rewrite IH.
Qed.

Lemma sort_entries_order {A} (l1 l2 : list (string * A)) :
  l1 ≡ₚ l2 -> NoDup (l1.*1) -> sort_entries l1 = sort_entries l2.
Proof.
  unfold sort_entries. intros Hp. induction Hp as [|x l1 l2 _ IH|x y l|l1 l2 l3 H12 IH1 _ IH2]; intros Hnd.
  - done.
  - simpl. rewrite IH; [done|]. by inversion Hnd.
  - simpl. apply insert_sorted_comm. inversion_clear Hnd as [|? ? Hx _]. set_solver.
  - rewrite IH1 by done. apply IH2. by rewrite <- H12.
Qed.

Lemma insert_all_nodup {A} (l : list (string * A)) : NoDup (l.*1) -> insert_all l = l.
Proof.
  unfold insert_all. intros Hnd.
  enough (forall out, NoDup ((out ++ l).*1) ->
    foldl (fun out kv => assoc_insert kv.1 kv.2 out) out l = out ++ l) as H by (by rewrite H).
  clear Hnd. induction l as [|[k v] l IH]; intros out Hnd; [by rewrite app_nil_r|]. simpl.
  rewrite assoc_insert_new.
  - rewrite IH; rewrite <- app_assoc; done.
  - rewrite fmap_app, fmap_cons in Hnd. apply NoDup_app in Hnd as (_ & Hnd & _). intros Hk. apply (Hnd _ Hk). left.
Qed.

(** The canonical form of an object with distinct keys is its sorted form. *)
Lemma canonical_object l : NoDup (l.*1) ->
  canonicalize_json (JObject l) =
  JObject (sort_entries ((fun kv => (kv.1, canonicalize_json kv.2)) <$> l)).
Proof.
  intros Hnd. simpl. f_equal. apply insert_all_nodup. rewrite sort_entries_perm.
  rewrite <- list_fmap_compose. exact Hnd.
Qed.

(** ** The same tree up to the order of object keys *)

Inductive json_equiv : json -> json -> Prop :=
| equiv_refl v : json_equiv v v
| equiv_array l1 l2 : Forall2 json_equiv l1 l2 -> json_equiv (JArray l1) (JArray l2)
| equiv_object l1 l l2 :
  Forall2 (fun a b => a.1 = b.1 /\ json_equiv a.2 b.2) l1 l -> l ≡ₚ l2 ->
  json_equiv (JObject l1) (JObject l2).

Lemma canonicalize_equiv j1 j2 : json_equiv j1 j2 -> json_ok j1 -> canonicalize_json j1 = canonicalize_json j2.
Proof.
  revert j2. induction j1 as [| | | |l1 IH|l1 IH] using json_ind'; intros j2 He Hok;
    inversion He as [|? l2 HF|? l l2 HF HP]; subst; try done.
  - simpl. f_equal. simpl in Hok. clear He. revert l2 HF.
    induction IH as [|x l1 Hx _ IHl]; intros l2 HF; inversion HF; subst; [done|]. destruct Hok as [Hk1 Hk2].
    rewrite !fmap_cons. f_equal; [by apply Hx|by apply IHl].
  - destruct Hok as [Hnd Hok].
    assert (l.*1 = l1.*1) as Hkeys.
    { clear -HF. induction HF as [|a b l1 l [E _] _ IHl]; [done|]. rewrite !fmap_cons. by rewrite E, IHl. }
    assert ((fun kv => (kv.1, canonicalize_json kv.2)) <$> l1 = (fun kv => (kv.1, canonicalize_json kv.2)) <$> l) as Hmap.
    { clear -HF IH Hok. induction HF as [|a b l1 l [E He] _ IHl]; [done|]. inversion_clear IH as [|? ? Ha IH'].
      destruct Hok as [H1 H2]. rewrite !fmap_cons, IHl by done. by rewrite E, (Ha _ He). }
    rewrite !canonical_object by (rewrite <- ?HP, ?Hkeys; done). f_equal. rewrite Hmap.
    apply sort_entries_order; [by rewrite HP|]. rewrite <- list_fmap_compose. by rewrite <- Hkeys in Hnd.
Qed.

(** The wire bytes of a body do not depend on the order its objects list
    their keys in: trees that differ only in key order have the same
    encoding. *)
Theorem cbor_encode_order_irrelevant j1 j2 (He : json_equiv j1 j2) (Hok : json_ok j1) :
  cbor_encode (T:=json) Ok j1 = cbor_encode (T:=json) Ok j2.
Proof. unfold cbor_encode. simpl. by rewrite (canonicalize_equiv j1 j2). Qed.

Lemma cbor_encode_order_irrelevant_witness :
  cbor_encode (T:=json) Ok (JObject [("b", JNull); ("a", JArray [JBool true])])
  = cbor_encode (T:=json) Ok (JObject [("a", JArray [JBool true]); ("b", JNull)]).
Proof.
  apply (cbor_encode_order_irrelevant (JObject [("b", JNull); ("a", JArray [JBool true])])
    (JObject [("a", JArray [JBool true]); ("b", JNull)])).
  - eapply equiv_object; [|apply Permutation_swap]. repeat constructor.
  - simpl. split; [apply (bool_decide_unpack _); reflexivity|done].
Defined.

(** ** Round trips *)

Lemma jwf_array l : jwf (JArray l) <-> len l < 2 ^ 64 /\ Forall jwf l.
Proof.
  simpl. apply and_iff_compat_l. induction l as [|x l IH]; [by split; [constructor|]|].
  rewrite Forall_cons. by rewrite IH.
Qed.
Lemma jwf_object l : jwf (JObject l) <->
  len l < 2 ^ 64 /\ NoDup (l.*1) /\ Forall (fun kv => str_ok kv.1 /\ jwf kv.2) l.
Proof.
  simpl. do 2 apply and_iff_compat_l. induction l as [|[k x] l IH]; [by split; [constructor|]|].
  rewrite Forall_cons. rewrite IH. simpl. tauto.
Qed.
Lemma jdepth_array l n : (jdepth (JArray l) <= n)%nat <-> Forall (fun x => S (jdepth x) <= n)%nat l.
Proof.
  induction l as [|x l IH]; [split; [constructor|simpl; lia]|].
  change (jdepth (JArray (x :: l))) with (Nat.max (S (jdepth x)) (jdepth (JArray l))).
  rewrite Forall_cons, <- IH. lia.
Qed.
Lemma jdepth_object l n : (jdepth (JObject l) <= n)%nat <-> Forall (fun kv => S (jdepth kv.2) <= n)%nat l.
Proof.
  induction l as [|x l IH]; [split; [constructor|simpl; lia]|].
  change (jdepth (JObject (x :: l))) with (Nat.max (S (jdepth x.2)) (jdepth (JObject l))).
  rewrite Forall_cons, <- IH. lia.
Qed.

Lemma canonical_jwf j : jwf j -> jwf (canonicalize_json j) /\ (jdepth (canonicalize_json j) <= jdepth j)%nat.
Proof.
  induction j as [| | | |l IH|l IH] using json_ind'; intros Hj; try by split.
  - apply jwf_array in Hj as [Hlen Hl]. change (canonicalize_json (JArray l)) with (JArray (canonicalize_json <$> l)).
    pose proof (proj1 (jdepth_array l _) (le_n _)) as Hd. rewrite jwf_array, jdepth_array, !Forall_fmap.
    unfold len in *. rewrite length_fmap. rewrite !Forall_forall in *. split; [split; [done|]|]; intros x Hx; simpl.
    + by apply IH; [|apply Hl].
    + destruct (IH x Hx (Hl x Hx)). specialize (Hd x Hx). simpl in Hd. lia.
  - apply jwf_object in Hj as (Hlen & Hnd & Hl). rewrite canonical_object by done.
    pose proof (proj1 (jdepth_object l _) (le_n _)) as Hd. rewrite jwf_object, jdepth_object.
    unfold len in *. rewrite !sort_entries_perm, !Forall_fmap, length_fmap, <- list_fmap_compose.
    rewrite !Forall_forall in *. split; [split; [done|split; [exact Hnd|]]|].
    + intros x Hx. destruct (Hl x Hx) as [Hk Hw]. split; [done|by apply IH].
    + intros x Hx. destruct (Hl x Hx) as [_ Hw], (IH x Hx Hw). specialize (Hd x Hx). simpl in *. lia.
Qed.

Lemma put_u32_ok n bs : put_u32_be n = Ok bs -> bs = be_bytes 4 (Z.of_nat n) /\ Z.of_nat n < 2 ^ 32.
Proof. unfold put_u32_be. case_test; intros H; inv_ok. bool_to_prop. split; [done|lia]. Qed.

(** Reading a field written after a prefix. *)
Lemma read_field_written pre n b post : n = length b -> Z.of_nat n < 2 ^ 32 ->
  read_field (pre ++ be_bytes 4 (Z.of_nat n) ++ b ++ post) (length pre) = Ok (b, length pre + 4 + length b)%nat.
Proof.
  intros -> Hn. unfold read_field, read_u32_be. rewrite !length_app, length_be_bytes.
  destruct (Nat.ltb_spec (length pre + (4 + (length b + length post))) (length pre + 4)); [lia|].
  rewrite drop_app_length, take_app_length' by (by rewrite length_be_bytes).
  rewrite of_be_bytes_small by (simpl; lia). cbn [mbind result_bind].
  destruct (Z.ltb_spec (Z.of_nat (length pre + (4 + (length b + length post))))
    (Z.of_nat (length pre + 4) + Z.of_nat (length b))); [lia|].
  rewrite Nat2Z.id. do 2 f_equal. unfold slice.
  rewrite (app_assoc pre), drop_app_length' by (rewrite length_app, length_be_bytes; done).
  apply take_app_length.
Qed.

Lemma check_magic_written magic rest : check_magic magic (magic ++ rest) = Ok tt.
Proof.
  unfold check_magic. rewrite length_app, take_app_length.
  destruct (Nat.ltb_spec (length magic + length rest) (length magic)); [lia|]. by rewrite bool_decide_true.
Qed.

Section roundtrip.
Context {T : Type} (to_value : T -> result string json) (from_value : json -> result string T).
Variable x : T.
Variable j : json.
Hypothesis Hser : to_value x = Ok j.
Hypothesis Hjwf : jwf j.
Hypothesis Hdepth : (jdepth j <= MAX_DEPTH)%nat.
(** Fields are read by name: sorting the keys does not matter. *)
Hypothesis Hde : from_value (canonicalize_json j) = Ok x.

Lemma cbor_decode_encode bs : cbor_encode to_value x = Ok bs ->
  cbor_decode from_value bs = Ok x /\ exists v, decode bs = Ok v.
Proof.
  destruct (canonical_jwf j Hjwf) as [Hw Hd]. unfold cbor_encode, cbor_decode. rewrite Hser. simpl.
  rewrite from_json_total. simpl. destruct (encode (bridge (canonicalize_json j))) eqn:E; simpl; intros H; inv_ok.
  rewrite <- (app_nil_r bs). rewrite (cbor_decode_encode_value _ _ [] (bridge_wf _ Hw) E) by (rewrite bridge_depth; lia).
  simpl. rewrite to_json_bridge by done. simpl. rewrite Hde. eauto.
Qed.

End roundtrip.

(** What a container writer produces its reader gives back: the typed
    body and the signature of a bundle, the body of a packet, whatever bytes
    follow the container. *)
Theorem container_roundtrip {T} (to_value : T -> result string json) (from_value : json -> result string T)
    x j sig rest bundle packet
    (Hser : to_value x = Ok j) (Hjwf : jwf j) (Hdepth : (jdepth j <= MAX_DEPTH)%nat)
    (Hde : from_value (canonicalize_json j) = Ok x)
    (Hb : write_tfbundle to_value x sig = Ok bundle) (Hp : write_tfpkt to_value x = Ok packet) :
  read_tfbundle_typed from_value (bundle ++ rest) = Ok (x, unwrap_or sig []) /\
  read_tfpkt from_value (packet ++ rest) = Ok x.
Proof.
  unfold write_tfbundle, write_tfpkt in *.
  apply bind_ok in Hb as (bs & Hbs & Hb), Hp as (bs' & Hbs' & Hp). rewrite Hbs in Hbs'. apply Ok_inj in Hbs' as <-.
  apply bind_ok in Hb as (bl & Hbl & Hb), Hp as (bl' & Hbl' & Hp). rewrite Hbl in Hbl'. apply Ok_inj in Hbl' as <-.
  apply bind_ok in Hb as (sl & Hsl & Hb). apply Ok_inj in Hb as <-, Hp as <-.
  apply put_u32_ok in Hbl as [-> Hlb], Hsl as [-> Hls].
  destruct (cbor_decode_encode _ _ x j Hser Hjwf Hdepth Hde _ Hbs) as [Hdec [v Hv]].
  unfold read_tfbundle_typed, read_tfbundle, read_tfpkt.
  rewrite <- !app_assoc, !check_magic_written. cbn [mbind result_bind].
  rewrite !read_field_written by done. cbn [mbind result_bind]. rewrite Hdec, Hv. cbn [mbind result_bind cbor_err map_err].
  split; [|done].
  pose proof (read_field_written (TFBUNDLE_MAGIC ++ be_bytes 4 (Z.of_nat (length bs)) ++ bs)
    (length (unwrap_or sig [])) (unwrap_or sig []) rest eq_refl Hls) as Hs.
  rewrite !length_app, length_be_bytes, Nat.add_assoc, <- !app_assoc in Hs. rewrite Hs.
  cbn [mbind result_bind body_bytes signature]. by rewrite Hdec.
Qed.

(** A body type for the witness: a flag with its JSON form. *)
Definition flag_to (b : bool) : result string json := Ok (JObject [("v", JNumber (NInt 1)); ("flag", JBool b)]).
Definition flag_from (v : json) : result string bool :=
  match jget "flag" v with Some (JBool b) => Ok b | _ => Err "missing field `flag`" end.

Lemma container_roundtrip_witness : exists bundle packet,
  write_tfbundle flag_to true (Some [9; 9]) = Ok bundle /\ write_tfpkt flag_to true = Ok packet /\
  read_tfbundle_typed flag_from (bundle ++ [1]) = Ok (true, [9; 9]) /\
  read_tfpkt flag_from (packet ++ [1]) = Ok true.
Proof.
  eexists _, _. split; [vm_compute; reflexivity|]. split; [vm_compute; reflexivity|].
  apply (container_roundtrip flag_to flag_from true (JObject [("v", JNumber (NInt 1)); ("flag", JBool true)])
    (Some [9; 9]) [1]).
  - reflexivity.
  - repeat split; try (vm_compute; (reflexivity || discriminate)). simpl. apply (bool_decide_unpack _). reflexivity.
  - vm_compute. lia.
  - reflexivity.
  - vm_compute. reflexivity.
  - vm_compute. reflexivity.
Defined.

End BinaryFormat.
