(* ===== verification/Canonical.v ===== *)
(** * Canonical: deterministic JSON text ([canonical.rs])

    Object keys sorted by the UTF-8 bytes of their NFC form, no whitespace,
    integers in decimal.  Unicode normalisation ([unicode-normalization])
    and the shortest decimal form of a double (the standard library's
    [Display for f64]) are Section variables. *)

From S2P Require Import Prelude Utf8 Json Cbor BinaryFormat Clock.
Import Cbor BinaryFormat.

Module Canonical.

Inductive CanonicalJsonError := NonFinite (bits : Z).

Definition QUOTE : ascii := ascii_of_N 34.
Definition BACKSLASH : ascii := ascii_of_N 92.

(** The escape of one character; multi-byte characters are copied byte by
    byte, all of their bytes being above [0x7f]. *)
Definition escape (c : ascii) : string :=
  let n := Z.of_N (N_of_ascii c) in
  if n =? 34 then String BACKSLASH (String QUOTE "")
  else if n =? 92 then String BACKSLASH (String BACKSLASH "")
  else if n =? 10 then String BACKSLASH "n"
  else if n =? 13 then String BACKSLASH "r"
  else if n =? 9 then String BACKSLASH "t"
  else if n =? 8 then String BACKSLASH "b"
  else if n =? 12 then String BACKSLASH "f"
  else if n <? 0x20 then String BACKSLASH ("u00" +:+ hex2 n)
  else String c "".
Fixpoint escape_all (s : string) : string :=
  match s with EmptyString => "" | String c s' => escape c +:+ escape_all s' end.
Definition write_json_string (s : string) : string :=
  String QUOTE (escape_all s +:+ String QUOTE "").

(** The integer value of a double, if it has one: [f.fract() == 0.0] and
    [f as i64]. *)
Definition f64_integer (bits : Z) : option Z :=
  let sign := Z.shiftr bits 63 in
  let e := Z.land (Z.shiftr bits 52) 0x7ff in
  let m := Z.land bits (2 ^ 52 - 1) in
  let mant := if e =? 0 then m else m + 2 ^ 52 in
  let x := (if e =? 0 then 1 else e) - 1075 in
  let v := if 0 <=? x then Some (mant * 2 ^ x)
           else if mant mod 2 ^ (- x) =? 0 then Some (mant / 2 ^ (- x)) else None in
  (fun n => if sign =? 1 then - n else n) <$> v.

Section canonical.
Variable nfc : string -> string.
Variable show_f64 : Z -> string.

Definition write_f64 (bits : Z) : result CanonicalJsonError string :=
  if negb (is_finite bits) then Err (NonFinite bits)
  else match f64_integer bits with
       | Some n => if n =? 0 then Ok "0" else if Z.abs n <? 10 ^ 16 then Ok (pretty n) else Ok (show_f64 bits)
       | None => Ok (show_f64 bits)
       end.

Definition write_number (n : number) : result CanonicalJsonError string :=
  match n with NInt i => Ok (pretty i) | NFloat bits => write_f64 bits end.

(** The first error of a list of results, or all the values. *)
Fixpoint sequence {A} (l : list (result CanonicalJsonError A)) : result CanonicalJsonError (list A) :=
  match l with [] => Ok [] | r :: l' => x ← r; xs ← sequence l'; Ok (x :: xs) end.

Definition member (kv : string * result CanonicalJsonError string) : result CanonicalJsonError string :=
  text ← kv.2; Ok (write_json_string kv.1 +:+ ":" +:+ text).

(** [encode]: the text it appends.  The entries of an object are sorted by
    normalised key and then written in order. *)
Fixpoint encode_canonical (v : json) : result CanonicalJsonError string :=
  match v with
  | JNull => Ok "null"
  | JBool b => Ok (if b then "true" else "false")
  | JNumber n => write_number n
  | JString s => Ok (write_json_string (nfc s))
  | JArray xs => items ← sequence (encode_canonical <$> xs); Ok ("[" +:+ str_join "," items +:+ "]")
  | JObject fields =>
    let entries := sort_entries ((fun kv => (nfc kv.1, encode_canonical kv.2)) <$> fields) in
    items ← sequence (member <$> entries);
    Ok ("{" +:+ str_join "," items +:+ "}")
  end.

Definition canonicalize (value : json) : result CanonicalJsonError string := encode_canonical value.
Definition canonicalize_map (map : list (string * json)) : result CanonicalJsonError string :=
  canonicalize (JObject map).

End canonical.

Example canonical_vectors :
  canonicalize id (fun _ => "") (JObject [("b", JNumber (NInt (-2))); ("a", JArray [JBool true; JNull; JString "x/y"])])
    = Ok (String "{" (write_json_string "a" +:+ ":[true,null," +:+ write_json_string "x/y" +:+ "]," +:+
          write_json_string "b" +:+ ":-2}")) /\
  canonicalize id (fun _ => "") (JNumber (NFloat 0x8000000000000000)) = Ok "0" /\
  canonicalize id (fun _ => "") (JNumber (NFloat 0x4059000000000000)) = Ok "100" /\
  canonicalize id (fun _ => "") (JNumber (NFloat 0x7ff0000000000000)) = Err (NonFinite 0x7ff0000000000000).
Proof. vm_compute. auto. Qed.

End Canonical.
