(* ===== verification/CanonicalText.v ===== *)
(** * CanonicalText: canonical JSON text is unambiguous

    A reader for the text [canonicalize] writes, used to prove that the text
    determines the tree: two trees without doubles have the same canonical
    text exactly when they agree after normalising their strings and sorting
    their keys.  Everything TrustForge signs is signed over this text. *)

From Stdlib Require Import Sorted.
From S2P Require Import Prelude Utf8 Json Cbor BinaryFormat Canonical.
Import BinaryFormat Canonical.

Module CanonicalText.
#[local] Open Scope string_scope.
#[local] Open Scope Z_scope.

(** ** The reader *)

Definition unhex (c : ascii) : option Z :=
  let n := Z.of_N (N_of_ascii c) in
  if (48 <=? n) && (n <=? 57) then Some (n - 48)
  else if (97 <=? n) && (n <=? 102) then Some (n - 87) else None.

(** The character an escape stands for, after the backslash. *)
Definition unescape (s : string) : option (ascii * string) :=
  match s with
  | String "u" (String "0" (String "0" (String a (String b r)))) =>
    x ← unhex a; y ← unhex b; Some (ascii_of_N (Z.to_N (16 * x + y)), r)
  | String "n" r => Some (ascii_of_N 10, r)
  | String "r" r => Some (ascii_of_N 13, r)
  | String "t" r => Some (ascii_of_N 9, r)
  | String "b" r => Some (ascii_of_N 8, r)
  | String "f" r => Some (ascii_of_N 12, r)
  | String c r => Some (c, r)
  | EmptyString => None
  end.

(** The characters up to the closing quote. *)
Fixpoint read_chars (fuel : nat) (s : string) : option (string * string) :=
  match fuel, s with
  | S fuel', String c r =>
    if Ascii.eqb c QUOTE then Some ("", r)
    else if Ascii.eqb c BACKSLASH then
      '(c', r') ← unescape r; '(t, r'') ← read_chars fuel' r'; Some (String c' t, r'')
    else '(t, r') ← read_chars fuel' r; Some (String c t, r')
  | _, _ => None
  end.

Definition is_digit (c : ascii) : bool :=
  let n := N_of_ascii c in ((48 <=? n) && (n <=? 57))%N.
Fixpoint read_digits (acc : N) (s : string) : N * string :=
  match s with
  | String c r => if is_digit c then read_digits (10 * acc + (N_of_ascii c - 48)) r else (acc, s)
  | EmptyString => (acc, s)
  end.

(** A value; the items of an array after its bracket; the entries of an
    object after its brace. *)
Fixpoint read_value (fuel : nat) (s : string) : option (json * string) :=
  match fuel, s with
  | S fuel', String c r =>
    if Ascii.eqb c QUOTE then '(t, r') ← read_chars (String.length r) r; Some (JString t, r')
    else if Ascii.eqb c "[" then
      match r with
      | String "]" r' => Some (JArray [], r')
      | _ => '(l, r') ← read_items fuel' r; Some (JArray l, r')
      end
    else if Ascii.eqb c "{" then
      match r with
      | String "}" r' => Some (JObject [], r')
      | _ => '(l, r') ← read_entries fuel' r; Some (JObject l, r')
      end
    else if Ascii.eqb c "n" then r' ← strip_prefix "null" s; Some (JNull, r')
    else if Ascii.eqb c "t" then r' ← strip_prefix "true" s; Some (JBool true, r')
    else if Ascii.eqb c "f" then r' ← strip_prefix "false" s; Some (JBool false, r')
    else if Ascii.eqb c "-" then let '(n, r') := read_digits 0 r in Some (JNumber (NInt (- Z.of_N n)), r')
    else if is_digit c then let '(n, r') := read_digits 0 s in Some (JNumber (NInt (Z.of_N n)), r')
    else None
  | _, _ => None
  end
with read_items (fuel : nat) (s : string) : option (list json * string) :=
  match fuel with
  | O => None
  | S fuel' =>
    '(v, r) ← read_value fuel' s;
    match r with
    | String "," r' => '(l, r'') ← read_items fuel' r'; Some (v :: l, r'')
    | String "]" r' => Some ([v], r')
    | _ => None
    end
  end
with read_entries (fuel : nat) (s : string) : option (list (string * json) * string) :=
  match fuel, s with
  | S fuel', String q r0 =>
    if Ascii.eqb q QUOTE then
      '(k, r1) ← read_chars (String.length r0) r0;
      match r1 with
      | String ":" r2 =>
        '(v, r) ← read_value fuel' r2;
        match r with
        | String "," r' => '(l, r'') ← read_entries fuel' r'; Some ((k, v) :: l, r'')
        | String "}" r' => Some ([(k, v)], r')
        | _ => None
        end
      | _ => None
      end
    else None
  | _, _ => None
  end.

(** The value a whole text denotes. *)
Definition read_json (s : string) : option json :=
  match read_value (2 * String.length s) s with Some (v, "") => Some v | _ => None end.

(** ** What the text determines *)

(** No number of the tree is a double. *)
Fixpoint float_free (v : json) : bool :=
  match v with
  | JNumber (NFloat _) => false
  | JArray l => forallb float_free l
  | JObject fs => forallb (fun kv => float_free kv.2) fs
  | _ => true
  end.

Section normal.
Variable nfc : string -> string.

(** Strings and keys in normal form, entries in key order. *)
Fixpoint normal_json (v : json) : json :=
  match v with
  | JString s => JString (nfc s)
  | JArray l => JArray (normal_json <$> l)
  | JObject fs => JObject (sort_entries ((fun kv => (nfc kv.1, normal_json kv.2)) <$> fs))
  | _ => v
  end.
End normal.

(** ** Characters and strings *)

Definition not_digit (s : string) : Prop :=
  match s with String c _ => is_digit c = false | EmptyString => True end.

Lemma unescape_escape (c : ascii) (r : string) :
  escape c = String c "" /\ c <> QUOTE /\ c <> BACKSLASH \/
  exists e, escape c = String BACKSLASH e /\ unescape (e +:+ r) = Some (c, r).
Proof.
  destruct c as [[] [] [] [] [] [] [] []];
    first [ left; split; [reflexivity|split; discriminate]
          | right; eexists; split; [reflexivity|reflexivity] ].
Qed.

Lemma read_chars_escape s r fuel : (String.length (escape_all s) < fuel)%nat ->
  read_chars fuel (escape_all s +:+ String QUOTE r) = Some (s, r).
Proof.
  revert fuel; induction s as [|c s IH]; intros [|fuel] Hf; [simpl in Hf; lia| |simpl in Hf; lia|].
  { by cbn. }
  cbn [escape_all] in *. rewrite str_length_app in Hf. rewrite str_app_assoc.
  destruct (unescape_escape c (escape_all s +:+ String QUOTE r)) as [(He & Hq & Hb)|(e & He & Hu)].
  - rewrite He in *. rewrite str_app_cons. cbn [read_chars].
    destruct (Ascii.eqb_spec c QUOTE) as [->|_]; [done|]. destruct (Ascii.eqb_spec c BACKSLASH) as [->|_]; [done|].
    rewrite ?str_app_nil_l. rewrite IH by (simpl in Hf; lia). done.
  - rewrite He in *. rewrite str_app_cons. cbn [read_chars]. change (Ascii.eqb BACKSLASH QUOTE) with false.
    change (Ascii.eqb BACKSLASH BACKSLASH) with true. cbn iota. rewrite Hu. cbn [mbind option_bind].
    rewrite IH by (simpl in Hf; lia). done.
Qed.

(** ** Numbers *)

Lemma pretty_char_digit n : (n < 10)%N ->
  is_digit (pretty_N_char n) = true /\ (N_of_ascii (pretty_N_char n) - 48 = n)%N.
Proof.
  intros H. assert (Hn : n ∈ (N.of_nat <$> seq 0 10)).
  { apply list_elem_of_fmap. exists (N.to_nat n). rewrite elem_of_seq. lia. }
  cbn in Hn. repeat (apply elem_of_cons in Hn as [->|Hn]; [by vm_compute|]). by apply elem_of_nil in Hn.
Qed.

Lemma read_digits_go x s : read_digits 0 (pretty_N_go x s) = read_digits x s.
Proof.
  revert s; induction (N.lt_wf_0 x) as [x _ IH]; intros s.
  destruct (decide (x = 0)%N) as [->|Hx]; [by rewrite pretty_N_go_0|].
  rewrite pretty_N_go_step by lia. rewrite IH by (apply N.div_lt; lia). cbn [read_digits].
  destruct (pretty_char_digit (x `mod` 10)%N) as [-> ->]; [apply N.mod_lt; lia|].
  f_equal. symmetry. apply N.div_mod. lia.
Qed.

Lemma read_digits_stop n r : not_digit r -> read_digits n r = (n, r).
Proof. destruct r as [|c r]; simpl; [done|]. by intros ->. Qed.

Lemma pretty_go_app x s r : pretty_N_go x s +:+ r = pretty_N_go x (s +:+ r).
Proof.
  revert s; induction (N.lt_wf_0 x) as [x _ IH]; intros s.
  destruct (decide (x = 0)%N) as [->|Hx]; [by rewrite !pretty_N_go_0|].
  rewrite (pretty_N_go_step x s), (pretty_N_go_step x (s +:+ r)) by lia.
  rewrite IH by (apply N.div_lt; lia). by rewrite str_app_cons.
Qed.

Lemma pretty_go_head x s : (0 < x)%N -> exists c r, pretty_N_go x s = String c r /\ is_digit c = true.
Proof.
  revert s; induction (N.lt_wf_0 x) as [x _ IH]; intros s Hx. rewrite pretty_N_go_step by done.
  destruct (pretty_char_digit (x `mod` 10)%N) as [Hd _]; [apply N.mod_lt; lia|].
  destruct (decide (x / 10 = 0)%N) as [->|Hx']; [rewrite pretty_N_go_0; eauto|].
  apply IH; [apply N.div_lt; lia|by apply N.neq_0_lt_0].
Qed.

Lemma read_pretty_N (n : N) r : not_digit r -> read_digits 0 (pretty n +:+ r) = (n, r).
Proof.
  intros Hr. unfold pretty, pretty_N. destruct (decide (n = 0)%N) as [->|Hn].
  - rewrite str_app_cons. rewrite ?str_app_nil_l. cbn [read_digits].
    change (is_digit "0") with true. cbn iota. by rewrite read_digits_stop.
  - rewrite pretty_go_app, read_digits_go. rewrite ?str_app_nil_l. by apply read_digits_stop.
Qed.

Lemma pretty_N_head (n : N) : exists c r, pretty n = String c r /\ is_digit c = true.
Proof.
  unfold pretty, pretty_N. destruct (decide (n = 0)%N); [by exists "0"%char, ""|]. apply pretty_go_head. lia.
Qed.

Lemma pretty_Z_head (i : Z) : exists c r, pretty i = String c r /\ c <> "]"%char.
Proof.
  destruct i as [|p|p]; [by eexists _, _| |by eexists _, _].
  destruct (pretty_N_head (N.pos p)) as (c & r & Hr & Hc). exists c, r. split; [exact Hr|]. by intros ->.
Qed.

(** A digit is none of the characters that start another kind of value. *)
Lemma digit_eqb c d : is_digit c = true -> is_digit d = false -> Ascii.eqb c d = false.
Proof. intros Hc Hd. apply Ascii.eqb_neq. intros ->. congruence. Qed.

Lemma read_value_number (i : Z) r fuel : not_digit r ->
  read_value (S fuel) (pretty i +:+ r) = Some (JNumber (NInt i), r).
Proof.
  intros Hr.
  assert (Hpos : forall n : N, read_value (S fuel) (pretty n +:+ r) = Some (JNumber (NInt (Z.of_N n)), r)).
  { intros n. pose proof (read_pretty_N n r Hr) as H. destruct (pretty_N_head n) as (c & t & Ht & Hc).
    rewrite Ht, str_app_cons in *. cbn [read_value].
    rewrite !(digit_eqb c) by done. rewrite Hc, H. done. }
  destruct i as [|p|p].
  - exact (Hpos 0%N).
  - exact (Hpos (N.pos p)).
  - change (pretty (Z.neg p)) with (String "-" (pretty (N.pos p))). rewrite str_app_cons.
    cbn -[read_digits pretty]. by rewrite read_pretty_N.
Qed.

(** ** Sorting commutes with mapping the values *)

Lemma insert_sorted_fmap {A B} (f : A -> B) (kv : string * A) l :
  insert_sorted (prod_map id f kv) (prod_map id f <$> l) = prod_map id f <$> insert_sorted kv l.
Proof.
  induction l as [|kv' l IH]; [done|]. rewrite fmap_cons. cbn [insert_sorted].
  change ((prod_map id f kv).1) with (kv.1). change ((prod_map id f kv').1) with (kv'.1).
  destruct (str_le _ _); [done|]. by rewrite IH.
Qed.

Lemma sort_entries_fmap {A B} (f : A -> B) (l : list (string * A)) :
  sort_entries (prod_map id f <$> l) = prod_map id f <$> sort_entries l.
Proof.
  unfold sort_entries. induction l as [|kv l IH]; [done|]. rewrite fmap_cons. cbn [foldr].
  rewrite IH. apply insert_sorted_fmap.
Qed.

Lemma insert_sorted_min {A} (kv : string * A) l :
  Forall (fun kv' => str_le kv.1 kv'.1 = true) l -> insert_sorted kv l = kv :: l.
Proof. destruct 1 as [|kv' l H _]; [done|]. cbn [insert_sorted]. by rewrite H. Qed.

#[local] Abbreviation key_sorted := (StronglySorted (fun a b => str_le a.1 b.1 = true)).

Lemma insert_sorted_sorted {A} (kv : string * A) l : key_sorted l -> key_sorted (insert_sorted kv l).
Proof.
  induction 1 as [|kv' l Hl IH Hall]; cbn [insert_sorted]; [repeat constructor|].
  destruct (str_le kv.1 kv'.1) eqn:E.
  - repeat (constructor; try done). eapply Forall_impl; [exact Hall|]. intros x. cbn. eauto with tf.
  - constructor; [done|]. rewrite insert_sorted_perm. constructor; [by apply str_le_total|done].
Qed.

Lemma sort_entries_sorted {A} (l : list (string * A)) : key_sorted (sort_entries l).
Proof. induction l; [constructor|]. by apply insert_sorted_sorted. Qed.

Lemma sort_entries_idem {A} (l : list (string * A)) : sort_entries (sort_entries l) = sort_entries l.
Proof.
  induction (sort_entries_sorted l) as [|kv l' _ IH Hall]; [done|].
  unfold sort_entries in *. cbn [foldr]. rewrite IH. by apply insert_sorted_min.
Qed.

(** ** Reading back what [canonicalize] writes *)

(** [t] reads as [v] in front of anything that does not continue a number. *)
Definition reads (t : string) (v : json) : Prop :=
  (exists c t', t = String c t' /\ c <> "]"%char) /\
  forall rest fuel, not_digit rest -> (2 * String.length t <= fuel)%nat ->
    read_value fuel (t +:+ rest) = Some (v, rest).

Lemma str_join_cons2 sep a b l : str_join sep (a :: b :: l) = a +:+ sep +:+ str_join sep (b :: l).
Proof. done. Qed.

Lemma reads_items ts vs rest fuel : Forall2 reads ts vs -> ts <> [] ->
  (2 * String.length (str_join "," ts) < fuel)%nat ->
  read_items fuel (str_join "," ts +:+ String "]" rest) = Some (vs, rest).
Proof.
  intros H. revert fuel. induction H as [|t v ts vs [_ Ht] Hts IH]; intros [|fuel] Hne Hf; [done|done|lia|].
  cbn [read_items]. destruct ts as [|t' ts].
  - inversion Hts; subst. cbn [str_join] in *. rewrite Ht by (done || lia). done.
  - cbn [str_join] in *. rewrite !str_length_app in Hf. change (String.length ",") with 1%nat in Hf.
    rewrite !str_app_assoc, (str_app_cons ","). rewrite ?str_app_nil_l.
    rewrite Ht by (done || lia). cbn [mbind option_bind]. rewrite IH by (done || lia). done.
Qed.

Lemma read_key k r : read_chars (String.length (escape_all k +:+ String QUOTE r)) (escape_all k +:+ String QUOTE r) =
  Some (k, r).
Proof. apply read_chars_escape. rewrite str_length_app. cbn [String.length]. lia. Qed.

Lemma write_json_string_app s r : write_json_string s +:+ r = String QUOTE (escape_all s +:+ String QUOTE r).
Proof. unfold write_json_string. rewrite str_app_cons, str_app_assoc. done. Qed.

(** The text of one entry. *)
Definition entry_text (kt : string * string) : string := write_json_string kt.1 +:+ ":" +:+ kt.2.

Lemma reads_entries (kts : list (string * string)) kvs rest fuel :
  Forall2 (fun kt kv => kt.1 = kv.1 /\ reads kt.2 kv.2) kts kvs -> kts <> [] ->
  (2 * String.length (str_join "," (entry_text <$> kts)) < fuel)%nat ->
  read_entries fuel (str_join "," (entry_text <$> kts) +:+ String "}" rest) = Some (kvs, rest).
Proof.
  intros H. revert fuel.
  induction H as [|[k t] [k' v] kts kvs [[= ->] [_ Ht]] Hts IH]; intros [|fuel] Hne Hf; [done|done|lia|].
  cbn [snd] in *. destruct kts as [|kt kts].
  - inversion Hts; subst. clear IH. cbn [fmap list_fmap str_join] in *. unfold entry_text in *. cbn [fst snd] in *.
    rewrite !str_length_app in Hf. rewrite !str_app_assoc, write_json_string_app. cbn [read_entries].
    change (Ascii.eqb QUOTE QUOTE) with true. cbn iota. rewrite read_key, (str_app_cons ":"). cbn [mbind option_bind].
    rewrite ?str_app_nil_l. rewrite Ht by (done || lia). done.
  - rewrite !fmap_cons, str_join_cons2 in Hf |- *. rewrite <- fmap_cons in Hf |- *. set (tl := str_join "," _) in *.
    unfold entry_text in Hf |- * at 1. cbn [fst snd] in *. rewrite !str_length_app in Hf.
    change (String.length ",") with 1%nat in Hf. rewrite !str_app_assoc, write_json_string_app. cbn [read_entries].
    change (Ascii.eqb QUOTE QUOTE) with true. cbn iota. rewrite read_key, (str_app_cons ":"). cbn [mbind option_bind].
    rewrite ?str_app_nil_l. rewrite (str_app_cons ","). rewrite ?str_app_nil_l.
    rewrite Ht by (done || lia). cbn [mbind option_bind]. rewrite IH by (done || lia). done.
Qed.

Lemma reads_json_array ts vs : Forall2 reads ts vs -> reads ("[" +:+ str_join "," ts +:+ "]") (JArray vs).
Proof.
  intros H. split; [by eexists _, _|]. intros rest fuel _ Hf.
  rewrite !str_length_app in Hf. cbn [String.length] in Hf. destruct fuel as [|fuel]; [lia|].
  rewrite !str_app_assoc, !str_app_cons, ?str_app_nil_l. cbn [read_value].
  change (Ascii.eqb "[" QUOTE) with false. change (Ascii.eqb "[" "[") with true. cbn iota.
  destruct (decide (ts = [])) as [->|Hne]; [inversion H; subst; done|].
  pose proof (reads_items ts vs rest fuel H Hne ltac:(lia)) as Hr. rewrite Hr.
  destruct H as [|t v ts vs [(c & t' & -> & Hc) _] _]; [done|].
  assert (exists r, str_join "," (String c t' :: ts) +:+ String "]" rest = String c r) as [r ->].
  { destruct ts; cbn [str_join]; rewrite ?str_app_assoc, str_app_cons; eauto. }
  destruct c as [[] [] [] [] [] [] [] []]; try done.
Qed.

Lemma reads_object kts kvs : Forall2 (fun kt kv => kt.1 = kv.1 /\ reads kt.2 kv.2) kts kvs ->
  reads ("{" +:+ str_join "," (entry_text <$> kts) +:+ "}") (JObject kvs).
Proof.
  intros H. split; [by eexists _, _|]. intros rest fuel _ Hf.
  rewrite !str_length_app in Hf. cbn [String.length] in Hf. destruct fuel as [|fuel]; [lia|].
  rewrite !str_app_assoc, !str_app_cons, ?str_app_nil_l. cbn [read_value].
  change (Ascii.eqb "{" QUOTE) with false. change (Ascii.eqb "{" "[") with false.
  change (Ascii.eqb "{" "{") with true. cbn iota.
  destruct (decide (kts = [])) as [->|Hne]; [inversion H; subst; done|].
  pose proof (reads_entries kts kvs rest fuel H Hne ltac:(lia)) as Hr. rewrite Hr.
  assert (exists r, str_join "," (entry_text <$> kts) +:+ String "}" rest = String QUOTE r) as [r ->]; [|done].
  destruct kts as [|kt kts]; [done|]. rewrite fmap_cons. unfold entry_text at 1.
  destruct kts; rewrite ?fmap_nil, ?fmap_cons; cbn [str_join]; rewrite ?str_app_assoc, write_json_string_app; eauto.
Qed.

Lemma sequence_all {A B} (f : A -> result CanonicalJsonError string) (g : B -> string) (Q : B -> A -> Prop) l :
  Forall (fun a => exists b, f a = Ok (g b) /\ Q b a) l ->
  exists bs, sequence (f <$> l) = Ok (g <$> bs) /\ Forall2 Q bs l.
Proof.
  induction 1 as [|a l (b & Hb & HQ) _ (bs & Hbs & HQs)]; [by exists []|].
  exists (b :: bs). split; [|by constructor]. rewrite fmap_cons. cbn [sequence]. by rewrite Hb, Hbs.
Qed.

Section readback.
Context (nfc : string -> string) (show_f64 : Z -> string).
#[local] Abbreviation enc := (encode_canonical nfc show_f64).
#[local] Abbreviation norm := (normal_json nfc).

(** The entries an object is written in, with the values left as they are. *)
Definition written_entries (fs : list (string * json)) : list (string * json) :=
  sort_entries ((fun kv => (nfc kv.1, kv.2)) <$> fs).

Lemma written_entries_fmap {B} (f : json -> B) fs :
  sort_entries ((fun kv => (nfc kv.1, f kv.2)) <$> fs) = prod_map id f <$> written_entries fs.
Proof. unfold written_entries. rewrite <- sort_entries_fmap, <- list_fmap_compose. done. Qed.

Lemma written_entries_forall (P : json -> Prop) fs :
  Forall (fun kv => P kv.2) fs -> Forall (fun kv => P kv.2) (written_entries fs).
Proof. intros H. unfold written_entries. rewrite sort_entries_perm. apply Forall_fmap. exact H. Qed.

Lemma encode_reads v : float_free v = true -> exists t, enc v = Ok t /\ reads t (norm v).
Proof.
  induction v as [|b|[i|bits]|s|xs IH|fs IH] using json_ind'; intros Hff; try discriminate Hff.
  - exists "null". repeat split; [by eexists _, _|]. intros rest [|fuel] _ Hf; [simpl in Hf; lia|]. done.
  - exists (if b then "true" else "false"). split; [done|]. split; [by destruct b; eexists _, _|].
    intros rest [|fuel] _ Hf; [destruct b; simpl in Hf; lia|]. by destruct b.
  - exists (pretty i). split; [done|]. destruct (pretty_Z_head i) as (c & r & Hr & Hc). split; [by exists c, r|].
    intros rest [|fuel] Hrest Hf; [rewrite Hr in Hf; simpl in Hf; lia|]. by apply read_value_number.
  - exists (write_json_string (nfc s)). split; [done|]. split; [by eexists _, _|].
    intros rest [|fuel] _ Hf; [simpl in Hf; lia|]. rewrite write_json_string_app. cbn [read_value].
    change (Ascii.eqb QUOTE QUOTE) with true. cbn iota. by rewrite read_key.
  - cbn [float_free] in Hff. apply Is_true_true in Hff. rewrite forallb_True in Hff.
    destruct (sequence_all enc id (fun t v => reads t (norm v)) xs) as (ts & Hts & Hr).
    { rewrite Forall_forall in *. intros x Hx. apply IH; [done|]. apply Is_true_true. by apply Hff. }
    cbn [encode_canonical normal_json]. rewrite Hts, list_fmap_id. eexists. split; [reflexivity|].
    apply reads_json_array. by apply Forall2_fmap_r.
  - cbn [float_free] in Hff. apply Is_true_true in Hff. rewrite forallb_True in Hff.
    cbn [encode_canonical normal_json]. rewrite !written_entries_fmap, <- list_fmap_compose.
    destruct (sequence_all (member ∘ prod_map id enc) entry_text
      (fun kt kv => kt.1 = kv.1 /\ reads kt.2 (norm kv.2)) (written_entries fs)) as (kts & Hts & Hr).
    { assert (Forall (fun kv => exists t, enc kv.2 = Ok t /\ reads t (norm kv.2)) fs) as H.
      { rewrite Forall_forall in *. intros x Hx. apply IH; [done|]. apply Is_true_true. by apply Hff. }
      apply (written_entries_forall (fun v => exists t, enc v = Ok t /\ reads t (norm v))) in H.
      eapply Forall_impl; [exact H|]. intros [k v] (t & Ht & Hr). exists (k, t). cbn [fst snd] in *.
      split; [|split; [reflexivity|exact Hr]]. unfold compose, member. cbn [prod_map fst snd id]. by rewrite Ht. }
    rewrite Hts. eexists. split; [reflexivity|]. apply reads_object. apply Forall2_fmap_r. exact Hr.
Qed.

(** The text of a tree without doubles is read back as its normal form. *)
Lemma canonical_readback v : float_free v = true ->
  exists t, canonicalize nfc show_f64 v = Ok t /\ read_json t = Some (norm v).
Proof.
  intros (t & Ht & _ & Hr)%encode_reads. exists t. split; [exact Ht|]. unfold read_json.
  specialize (Hr "" (2 * String.length t)%nat I ltac:(lia)). rewrite str_app_nil_r in Hr. by rewrite Hr.
Qed.

(** The text depends on the normal form only. *)
Lemma encode_normal v : encode_canonical id show_f64 (norm v) = enc v.
Proof.
  induction v as [| | | |xs IH|fs IH] using json_ind'; try done.
  - cbn [normal_json encode_canonical]. rewrite <- list_fmap_compose. do 2 f_equal.
    apply list_fmap_ext. intros i x Hx. rewrite Forall_lookup in IH. by eapply IH.
  - cbn [normal_json encode_canonical]. rewrite (written_entries_fmap enc), (written_entries_fmap norm).
    rewrite <- list_fmap_compose. do 3 f_equal.
    transitivity (sort_entries (prod_map id enc <$> written_entries fs)).
    + f_equal. apply list_fmap_ext. intros i [k v] Hx. cbn. f_equal.
      apply (written_entries_forall (fun v => encode_canonical id show_f64 (norm v) = enc v)) in IH.
      rewrite Forall_lookup in IH. by apply (IH i (k, v)).
    + rewrite sort_entries_fmap. unfold written_entries. by rewrite sort_entries_idem.
Qed.
End readback.

(** C12: Canonical text is unambiguous.  Two JSON trees without doubles have
    the same canonical text exactly when they are equal once their strings
    are normalised and their keys sorted, and such a tree always has a text:
    a signature over the text of one tree is never one over another tree. *)
Theorem canonical_unambiguous nfc show_f64 v w
    (Hv : float_free v = true) (Hw : float_free w = true) :
  is_ok (canonicalize nfc show_f64 v) = true /\
  (canonicalize nfc show_f64 v = canonicalize nfc show_f64 w <-> normal_json nfc v = normal_json nfc w).
Proof.
  destruct (canonical_readback nfc show_f64 v Hv) as (t & Ht & Hr).
  destruct (canonical_readback nfc show_f64 w Hw) as (u & Hu & Hs). rewrite Ht, Hu. split; [done|]. split.
  - intros [= ->]. congruence.
  - intros Hn. rewrite <- Ht, <- Hu. unfold canonicalize. by rewrite <- (encode_normal nfc show_f64 v), <- (encode_normal nfc show_f64 w), Hn.
Qed.

Lemma canonical_unambiguous_witness :
  let v := JObject [("b", JNumber (NInt (-2))); ("a", JArray [JString "x"; JNull])] in
  let w := JObject [("a", JArray [JString "x"; JNull]); ("b", JNumber (NInt (-2)))] in
  canonicalize id (fun _ => "") v = canonicalize id (fun _ => "") w.
Proof.
  intros v w. apply (canonical_unambiguous id (fun _ => "") v w); [vm_compute; reflexivity..].
Defined.

End CanonicalText.
