(* ===== verification/Framing.v ===== *)
(** * Framing: the [.tflog] and [.tfproof] files ([format.rs])

    A log is a magic number and length-prefixed canonical JSON events; a proof is
    a magic number, a length-prefixed bundle and a length-prefixed signature.  The
    types of events and bundles with their serde instances, [serde_json::from_str]
    and the texts of foreign errors are arguments.  [None] is a loop out of fuel,
    which [tflog_read_iff] excludes.

    - [tflog_read_iff]: the logs that are read, and as what;
    - [tflog_roundtrip], [tflog_append_exact]: what is written is read back, and
      appending is writing one more event;
    - [tflog_cut]: a log that was cut is refused or read as its first events;
    - [tfproof_roundtrip]: proofs are read back, also with anything behind them. *)

From S2P Require Import Prelude Utf8 Json Canonical.

#[local] Open Scope string_scope.
#[local] Open Scope list_scope.
#[local] Open Scope Z_scope.

Module Framing.

Definition TFLOG_MAGIC : list Z := bytes_of_str "TFLOG" ++ [1; 0; 0].
Definition TFPROOF_MAGIC : list Z := bytes_of_str "TFPROOF" ++ [1].
Inductive FormatError := Truncated (off : nat) | BadMagic (off : nat) | BadLength (off : nat) (len : Z) | CanonicalFailed (m : string) | Serde (m : string) | Utf8 (m : string).

(** The bytes appended, for a buffer of [at_] bytes. *)
Definition put_u32_be (at_ n : nat) : result FormatError (list Z) :=
  if 2 ^ 32 - 1 <? Z.of_nat n then Err (BadLength at_ (2 ^ 32 - 1)) else Ok (be_bytes 4 (Z.of_nat n)).
Definition read_u32_be (buf : list Z) (off : nat) : result FormatError Z :=
  if (length buf <? off + 4)%nat then Err (Truncated off) else Ok (of_be (take 4 (drop off buf))).

Section typed.
Variable nfc : string -> string.
Variable show_f64 : Z -> string.
Variable canonical_error : Canonical.CanonicalJsonError -> string.
Variable utf8_error : list Z -> string.
Variable from_str : string -> result string json.
Context {T : Type} (to_value : T -> result string json) (from_value : json -> result string T).

Definition encode_body (v : T) : result FormatError (list Z) :=
  json ← map_err Serde (to_value v);
  body ← map_err (fun e => CanonicalFailed (canonical_error e)) (Canonical.canonicalize nfc show_f64 json);
  Ok (bytes_of_str body).
Definition decode_body (slice : list Z) : result FormatError T :=
  if negb (valid_utf8 slice) then Err (Utf8 (utf8_error slice))
  else value ← map_err Serde (from_str (str_of_bytes slice)); map_err Serde (from_value value).

(** ** Logs *)

Fixpoint write_events (buf : list Z) (events : list T) : result FormatError (list Z) :=
  match events with
  | [] => Ok buf
  | e :: events =>
    bytes ← encode_body e;
    len ← put_u32_be (length buf) (length bytes);
    write_events (buf ++ len ++ bytes) events
  end.
Definition write_tflog (events : list T) : result FormatError (list Z) := write_events TFLOG_MAGIC events.
(** The result and what the caller's buffer holds afterwards. *)
Definition append_tflog (existing : list Z) (event : T) : result FormatError unit * list Z :=
  if (0 <? length existing)%nat && ((length existing <? 8)%nat || negb (bool_decide (take 8 existing = TFLOG_MAGIC))) then (Err (BadMagic 0), existing)
  else
    let existing := match existing with [] => TFLOG_MAGIC | _ => existing end in
    match (bytes ← encode_body event; len ← put_u32_be (length existing) (length bytes); Ok (len ++ bytes)) with
    | Ok more => (Ok tt, existing ++ more)
    | Err e => (Err e, existing)
    end.
Fixpoint log_loop (fuel : nat) (buf : list Z) (off : nat) (out : list T) : option (result FormatError (list T)) :=
  match fuel with
  | O => None
  | S fuel =>
    if (off <? length buf)%nat then
      match read_u32_be buf off with
      | Err e => Some (Err e)
      | Ok len =>
        let off := (off + 4)%nat in
        if Z.of_nat (length buf) <? Z.of_nat off + len then Some (Err (BadLength (off - 4) len))
        else
          match decode_body (take (Z.to_nat len) (drop off buf)) with
          | Err e => Some (Err e)
          | Ok event => log_loop fuel buf (off + Z.to_nat len) (out ++ [event])
          end
      end
    else Some (Ok out)
  end.
Definition read_tflog (buf : list Z) : option (result FormatError (list T)) :=
  if (length buf <? 8)%nat then Some (Err (Truncated 0))
  else if negb (bool_decide (take 8 buf = TFLOG_MAGIC)) then Some (Err (BadMagic 0))
  else log_loop (S (length buf)) buf 8 [].

(** ** Proofs *)

Definition write_tfproof (bundle : T) (signature : list Z) : result FormatError (list Z) :=
  body_bytes ← encode_body bundle;
  len ← put_u32_be 8 (length body_bytes);
  let buf := TFPROOF_MAGIC ++ len ++ body_bytes in
  sig_len ← put_u32_be (length buf) (length signature);
  Ok (buf ++ sig_len ++ signature).
Record TfproofParts := mk_TfproofParts { bundle : T; signature : list Z; canonical_body : list Z }.
(** The bytes that a length prefix at [off] announces. *)
Definition read_slice (buf : list Z) (off : nat) : result FormatError (list Z) :=
  len ← read_u32_be buf off;
  if Z.of_nat (length buf) <? Z.of_nat (off + 4) + len then Err (BadLength off len) else Ok (take (Z.to_nat len) (drop (off + 4) buf)).
Definition read_tfproof (buf : list Z) : result FormatError TfproofParts :=
  if (length buf <? 8)%nat then Err (Truncated 0)
  else if negb (bool_decide (take 8 buf = TFPROOF_MAGIC)) then Err (BadMagic 0)
  else
    body_slice ← read_slice buf 8;
    bundle ← decode_body body_slice;
    signature ← read_slice buf (12 + length body_slice);
    Ok (mk_TfproofParts bundle signature body_slice).

(** ** Frames *)

Lemma read_u32_frame pre n rest : 0 <= n < 2 ^ 32 -> read_u32_be (pre ++ be_bytes 4 n ++ rest) (length pre) = Ok n.
Proof.
  intros R. unfold read_u32_be. rewrite !length_app, length_be_bytes, (proj2 (Nat.ltb_ge _ _)) by lia.
  rewrite drop_app_length. rewrite take_app_length' by (by rewrite length_be_bytes). rewrite of_be_bytes, Z.mod_small; [done|lia].
Qed.
Lemma read_slice_frame pre bytes rest : Z.of_nat (length bytes) < 2 ^ 32 ->
  read_slice (pre ++ be_bytes 4 (Z.of_nat (length bytes)) ++ bytes ++ rest) (length pre) = Ok bytes.
Proof.
  intros L. unfold read_slice. rewrite read_u32_frame by lia. cbn [mbind result_bind].
  rewrite !length_app, length_be_bytes, (proj2 (Z.ltb_ge _ _)) by lia.
  rewrite <- drop_drop, drop_app_length, drop_app_length' by (by rewrite length_be_bytes). by rewrite Nat2Z.id, take_app_length.
Qed.
Lemma read_slice_split buf off bytes : is_bytes buf -> read_slice buf off = Ok bytes ->
  exists rest, drop off buf = be_bytes 4 (Z.of_nat (length bytes)) ++ bytes ++ rest /\ Z.of_nat (length bytes) < 2 ^ 32.
Proof.
  intros B. unfold read_slice, read_u32_be. destruct (Nat.ltb_spec (length buf) (off + 4)) as [|L]; [done|]. cbn [mbind result_bind].
  set (four := take 4 (drop off buf)). assert (length four = 4%nat) as F by (unfold four; rewrite length_take, length_drop; lia).
  assert (is_bytes four) as BF by (apply Forall_take, Forall_drop, B). pose proof (of_be_bound four BF) as R. rewrite F in R. change (256 ^ Z.of_nat 4) with (2 ^ 32) in R.
  destruct (Z.ltb_spec (Z.of_nat (length buf)) (Z.of_nat (off + 4) + of_be four)) as [|M]; [done|]. intros <-%Ok_inj.
  assert (length (take (Z.to_nat (of_be four)) (drop (off + 4) buf)) = Z.to_nat (of_be four)) as N by (rewrite length_take, length_drop; lia).
  exists (drop (Z.to_nat (of_be four)) (drop (off + 4) buf)). rewrite N, Z2Nat.id by lia. split; [|lia].
  assert (be_bytes 4 (of_be four) = four) as -> by (rewrite <- F; by apply be_bytes_of_be).
  rewrite take_drop, <- drop_drop. unfold four. by rewrite take_drop.
Qed.
Lemma read_slice_app buf more off bytes : read_slice buf off = Ok bytes -> read_slice (buf ++ more) off = Ok bytes.
Proof.
  unfold read_slice, read_u32_be. rewrite length_app. destruct (Nat.ltb_spec (length buf) (off + 4)) as [|L]; [done|].
  rewrite (proj2 (Nat.ltb_ge _ _)) by lia. rewrite (drop_app_le buf more off) by lia. rewrite (take_app_le (drop off buf)) by (rewrite length_drop; lia). cbn [mbind result_bind].
  destruct (Z.ltb_spec (Z.of_nat (length buf)) (Z.of_nat (off + 4) + of_be (take 4 (drop off buf)))) as [|M]; [done|].
  rewrite (proj2 (Z.ltb_ge _ _)) by lia. intros <-%Ok_inj. f_equal. rewrite drop_app_le, take_app_le; [done|rewrite length_drop; lia|lia].
Qed.
(** ** Reading logs *)

(** The frames of a log and the events they hold. *)
Inductive frames : list Z -> list T -> Prop :=
| frames_nil : frames [] []
| frames_cons bytes event rest events : Z.of_nat (length bytes) < 2 ^ 32 -> decode_body bytes = Ok event -> frames rest events ->
  frames (be_bytes 4 (Z.of_nat (length bytes)) ++ bytes ++ rest) (event :: events).
(** One round of the loop. *)
Lemma log_loop_step fuel buf off out : (off < length buf)%nat ->
  log_loop (S fuel) buf off out =
  match read_slice buf off with
  | Err e => Some (Err e)
  | Ok bytes => match decode_body bytes with Err e => Some (Err e) | Ok event => log_loop fuel buf (off + 4 + length bytes) (out ++ [event]) end
  end.
Proof.
  intros L. cbn [log_loop]. rewrite (proj2 (Nat.ltb_lt _ _) L). unfold read_slice, read_u32_be.
  destruct (Nat.ltb_spec (length buf) (off + 4)) as [|M]; [done|]. cbn [mbind result_bind].
  destruct (Z.ltb_spec (Z.of_nat (length buf)) (Z.of_nat (off + 4) + of_be (take 4 (drop off buf)))) as [|N].
  - by replace (off + 4 - 4)%nat with off by lia.
  - destruct (decode_body _); [|done]. by rewrite length_take, length_drop, Nat.min_l by lia.
Qed.
Lemma log_loop_sound buf : is_bytes buf -> forall fuel off out events, (off <= length buf)%nat -> log_loop fuel buf off out = Some (Ok events) ->
  exists es, events = out ++ es /\ frames (drop off buf) es.
Proof.
  intros B. induction fuel as [|fuel IH]; intros off out events L; [done|]. destruct (Nat.lt_ge_cases off (length buf)) as [M|M].
  - rewrite log_loop_step by done. destruct (read_slice buf off) as [bytes|] eqn:R; [|done].
    destruct (read_slice_split _ _ _ B R) as (rest & E & N). destruct (decode_body bytes) as [event|] eqn:D; [|done].
    assert (drop (off + 4 + length bytes) buf = rest) as K.
    { rewrite <- Nat.add_assoc, <- drop_drop, E, <- drop_drop, drop_app_length' by (by rewrite length_be_bytes). apply drop_app_length. }
    assert (off + 4 + length bytes <= length buf)%nat as Q by (apply (f_equal length) in E; rewrite length_drop, !length_app, length_be_bytes in E; lia).
    intros (es & -> & F)%IH; [|done]. exists (event :: es). rewrite <- app_assoc. split; [done|]. rewrite E, <- K. by constructor.
  - cbn [log_loop]. rewrite (proj2 (Nat.ltb_ge _ _) M). intros [= <-]. exists []. rewrite app_nil_r, drop_ge by lia. by split; [|constructor].
Qed.
Lemma log_loop_complete rest es : frames rest es -> forall fuel pre out, (length rest < fuel)%nat ->
  log_loop fuel (pre ++ rest) (length pre) out = Some (Ok (out ++ es)).
Proof.
  induction 1 as [|bytes event rest es L D F IH]; intros [|fuel] pre out H; try lia.
  - cbn [log_loop]. rewrite app_nil_r, (proj2 (Nat.ltb_ge _ _)) by lia. by rewrite app_nil_r.
  - rewrite log_loop_step by (rewrite !length_app, length_be_bytes; lia). rewrite read_slice_frame, D by done.
    replace (pre ++ be_bytes 4 (Z.of_nat (length bytes)) ++ bytes ++ rest) with ((pre ++ be_bytes 4 (Z.of_nat (length bytes)) ++ bytes) ++ rest) by (by rewrite <- !app_assoc).
    replace (length pre + 4 + length bytes)%nat with (length (pre ++ be_bytes 4 (Z.of_nat (length bytes)) ++ bytes)) by (rewrite !length_app, length_be_bytes; lia).
    rewrite IH; [by rewrite <- app_assoc|]. rewrite !length_app, length_be_bytes in H. lia.
Qed.
Lemma tflog_read buf events : is_bytes buf -> read_tflog buf = Some (Ok events) <-> exists rest, buf = TFLOG_MAGIC ++ rest /\ frames rest events.
Proof.
  intros B.
  unfold read_tflog. split.
  - destruct (Nat.ltb_spec (length buf) 8) as [|L]; [done|]. case_bool_decide as M; [|done]. cbn [negb].
    intros (es & -> & F)%log_loop_sound; [|done|lia]. exists (drop 8 buf). split; [|done]. by rewrite <- M, take_drop.
  - intros (rest & -> & F). rewrite length_app. change (length TFLOG_MAGIC) with 8%nat. rewrite (proj2 (Nat.ltb_ge _ _)) by lia.
    rewrite take_app_length' by done. rewrite bool_decide_true by done. cbn [negb].
    apply (log_loop_complete rest events F _ TFLOG_MAGIC []). lia.
Qed.
(** reading a log always ends; it succeeds exactly on the magic number
    followed by frames, each a length, that many bytes and an event they hold,
    and gives the events in order. *)
Theorem tflog_read_iff buf events (B : is_bytes buf) :
  read_tflog buf <> None /\ (read_tflog buf = Some (Ok events) <-> exists rest, buf = TFLOG_MAGIC ++ rest /\ frames rest events).
Proof.
  split.
  - unfold read_tflog. case_match; [done|]. case_match; [done|].
    assert (forall fuel off out, (length buf - off < fuel)%nat -> log_loop fuel buf off out <> None) as K; [|apply K; lia].
    induction fuel as [|fuel IH]; intros off out L; [lia|]. destruct (Nat.lt_ge_cases off (length buf)).
    + rewrite log_loop_step by done. destruct (read_slice buf off); [|done]. destruct (decode_body _); [|done]. apply IH. lia.
    + cbn [log_loop]. by rewrite (proj2 (Nat.ltb_ge _ _)).
  - by apply tflog_read.
Qed.

(** ** Writing *)

(** An event that serde reads back from its canonical text. *)
Definition readable (v : T) : Prop := forall bytes, encode_body v = Ok bytes -> decode_body bytes = Ok v.
Lemma encode_frame v at_ bytes len : encode_body v = Ok bytes -> put_u32_be at_ (length bytes) = Ok len ->
  len = be_bytes 4 (Z.of_nat (length bytes)) /\ Z.of_nat (length bytes) < 2 ^ 32.
Proof. intros _. unfold put_u32_be. destruct (Z.ltb_spec (2 ^ 32 - 1) (Z.of_nat (length bytes))); [done|]. intros <-%Ok_inj. lia || (split; [done|lia]). Qed.
Lemma write_events_frames events : Forall readable events -> forall buf out, write_events buf events = Ok out ->
  exists rest, out = buf ++ rest /\ frames rest events.
Proof.
  induction 1 as [|e events R F IH]; intros buf out; cbn [write_events].
  - intros <-%Ok_inj. exists []. rewrite app_nil_r. split; [done|constructor].
  - destruct (encode_body e) as [bytes|] eqn:E; cbn [mbind result_bind]; [|done].
    destruct (put_u32_be (length buf) (length bytes)) as [len|] eqn:P; cbn [mbind result_bind]; [|done].
    destruct (encode_frame _ _ _ _ E P) as [-> L]. intros (rest & -> & G)%IH.
    exists (be_bytes 4 (Z.of_nat (length bytes)) ++ bytes ++ rest). rewrite <- !app_assoc. split; [done|]. constructor; [done|by apply R|done].
Qed.
(** a log that was written is read back as the events written. *)
Theorem tflog_roundtrip events buf : Forall readable events -> write_tflog events = Ok buf -> read_tflog buf = Some (Ok events).
Proof.
  intros R (rest & -> & F)%write_events_frames; [|done]. unfold read_tflog.
  rewrite length_app. change (length TFLOG_MAGIC) with 8%nat. rewrite (proj2 (Nat.ltb_ge _ _)) by lia.
  rewrite take_app_length' by done. rewrite bool_decide_true by done. cbn [negb]. apply (log_loop_complete rest events F _ TFLOG_MAGIC []). lia.
Qed.
Lemma write_events_app es : forall buf e, write_events buf (es ++ [e]) = (out ← write_events buf es; write_events out [e]).
Proof.
  induction es as [|x es IH]; intros buf e; [done|]. cbn [app write_events]. destruct (encode_body x); cbn [mbind result_bind]; [|done].
  destruct (put_u32_be _ _); cbn [mbind result_bind]; [|done]. apply IH.
Qed.
Lemma write_events_extends es : forall buf out, write_events buf es = Ok out -> exists more, out = buf ++ more.
Proof.
  induction es as [|x es IH]; intros buf out; cbn [write_events]; [intros <-%Ok_inj; exists []; by rewrite app_nil_r|].
  destruct (encode_body x); cbn [mbind result_bind]; [|done]. destruct (put_u32_be _ _); cbn [mbind result_bind]; [|done].
  intros (more & ->)%IH. rewrite <- app_assoc. eauto.
Qed.
(** Appending to a log that was written, or to nothing, is writing one more
    event; an event that cannot be written leaves the events of the log. *)
Theorem tflog_append_exact es e buf : write_tflog es = Ok buf ->
  match write_tflog (es ++ [e]) with
  | Ok buf' => append_tflog buf e = (Ok tt, buf')
  | Err err => append_tflog buf e = (Err err, buf)
  end.
Proof.
  intros W. destruct (write_events_extends _ _ _ W) as (more & ->). unfold write_tflog in *. rewrite write_events_app, W. cbn [mbind result_bind write_events].
  unfold append_tflog. rewrite (proj2 (Nat.ltb_ge (length _) 8)) by (rewrite length_app; cbn; lia).
  rewrite take_app_length' by done. rewrite bool_decide_true by done. cbn [negb orb]. rewrite andb_false_r.
  change (match TFLOG_MAGIC ++ more with [] => TFLOG_MAGIC | _ => TFLOG_MAGIC ++ more end) with (TFLOG_MAGIC ++ more).
  destruct (encode_body e); cbn [mbind result_bind]; [|done]. by destruct (put_u32_be _ _).
Qed.
Lemma frames_prefix rest es : frames rest es -> forall n es', frames (take n rest) es' -> es' `prefix_of` es.
Proof.
  induction 1 as [|bytes event rest es L D F IH]; intros n es' G.
  - rewrite take_nil in G. by inversion G.
  - remember (take n _) as t eqn:E. destruct G as [|bytes' event' rest' es'' L' D' F']; [apply prefix_nil|].
    assert (be_bytes 4 (Z.of_nat (length bytes')) ++ bytes' ++ rest' `prefix_of` be_bytes 4 (Z.of_nat (length bytes)) ++ bytes ++ rest) as [more K] by (rewrite E; apply prefix_take).
    rewrite <- !app_assoc in K. apply app_inj_1 in K as [Kn K]; [|by rewrite !length_be_bytes].
    apply (f_equal of_be) in Kn. rewrite !of_be_bytes_small in Kn by (change (256 ^ Z.of_nat 4) with (2 ^ 32); lia).
    apply app_inj_1 in K as [<- K]; [|lia]. assert (event = event') as <- by congruence. apply prefix_cons.
    apply (IH (length rest')). rewrite K, take_app_length. done.
Qed.
(** A log that was cut short is refused, or read as the first of its events:
    what is missing is noticed only when the cut falls inside a frame. *)
Theorem tflog_cut buf events n es : is_bytes buf -> read_tflog buf = Some (Ok events) -> read_tflog (take n buf) = Some (Ok es) -> es `prefix_of` events.
Proof.
  intros B (rest & -> & F)%tflog_read; [|done]. intros (rest' & E & G)%tflog_read; [|by apply Forall_take].
  rewrite take_app in E. change (length TFLOG_MAGIC) with 8%nat in E.
  destruct (Nat.lt_ge_cases n 8) as [L|L].
  - exfalso. apply (f_equal length) in E. rewrite !length_app, !length_take in E. change (length TFLOG_MAGIC) with 8%nat in E. lia.
  - rewrite take_ge in E by (change (length TFLOG_MAGIC) with 8%nat; lia). apply app_inv_head in E. subst rest'. by eapply frames_prefix.
Qed.

(** ** Proofs *)

Lemma write_tfproof_shape b sig buf : write_tfproof b sig = Ok buf -> exists bytes, encode_body b = Ok bytes /\
  Z.of_nat (length bytes) < 2 ^ 32 /\ Z.of_nat (length sig) < 2 ^ 32 /\
  buf = TFPROOF_MAGIC ++ be_bytes 4 (Z.of_nat (length bytes)) ++ bytes ++ be_bytes 4 (Z.of_nat (length sig)) ++ sig.
Proof.
  unfold write_tfproof. destruct (encode_body b) as [bytes|] eqn:E; cbn [mbind result_bind]; [|done].
  destruct (put_u32_be 8 (length bytes)) as [len|] eqn:P; cbn [mbind result_bind]; [|done]. destruct (encode_frame _ _ _ _ E P) as [-> L].
  unfold put_u32_be. destruct (Z.ltb_spec (2 ^ 32 - 1) (Z.of_nat (length sig))); cbn [mbind result_bind]; [done|].
  intros <-%Ok_inj. exists bytes. rewrite <- !app_assoc. split_and!; [done|done|lia|done].
Qed.
(** a proof that was written is read back with its bundle, its signature and
    the very bytes that were signed, whatever follows it in the file. *)
Theorem tfproof_roundtrip b sig buf more : readable b -> write_tfproof b sig = Ok buf ->
  exists bytes, encode_body b = Ok bytes /\ read_tfproof (buf ++ more) = Ok (mk_TfproofParts b sig bytes).
Proof.
  intros R (bytes & E & L & S & ->)%write_tfproof_shape. exists bytes. split; [done|]. unfold read_tfproof.
  rewrite <- !app_assoc, length_app. change (length TFPROOF_MAGIC) with 8%nat. rewrite (proj2 (Nat.ltb_ge _ _)) by lia.
  rewrite take_app_length' by done. rewrite bool_decide_true by done. cbn [negb].
  pose proof (read_slice_frame TFPROOF_MAGIC bytes (be_bytes 4 (Z.of_nat (length sig)) ++ sig ++ more) L) as H. change (length TFPROOF_MAGIC) with 8%nat in H.
  rewrite H. cbn [mbind result_bind]. rewrite (R _ E). cbn [mbind result_bind].
  replace (12 + length bytes)%nat with (length (TFPROOF_MAGIC ++ be_bytes 4 (Z.of_nat (length bytes)) ++ bytes)) by (rewrite !length_app, length_be_bytes; cbn [length TFPROOF_MAGIC]; done).
  replace (TFPROOF_MAGIC ++ be_bytes 4 (Z.of_nat (length bytes)) ++ bytes ++ be_bytes 4 (Z.of_nat (length sig)) ++ sig ++ more)
    with ((TFPROOF_MAGIC ++ be_bytes 4 (Z.of_nat (length bytes)) ++ bytes) ++ be_bytes 4 (Z.of_nat (length sig)) ++ sig ++ more) by (by rewrite <- !app_assoc).
  by rewrite read_slice_frame.
Qed.
End typed.

(** ** Witnesses *)

(** Events without content, written as [null]. *)
Definition toy_from_str (t : string) : result string json := if (t =? "null")%string then Ok JNull else Err "not null".
Definition toy_read := read_tflog (fun _ => "") toy_from_str (fun _ => Ok tt).
Definition toy_write := write_tflog id (fun _ => "") (fun _ => "") (fun _ : unit => Ok JNull).
Definition two_frames : list Z := [0; 0; 0; 4; 110; 117; 108; 108; 0; 0; 0; 4; 110; 117; 108; 108].
Lemma toy_readable v : readable id (fun _ => "") (fun _ => "") (fun _ => "") toy_from_str (fun _ : unit => Ok JNull) (fun _ => Ok tt) v.
Proof. intros bytes. vm_compute. intros [= <-]. by destruct v. Qed.
Lemma tflog_roundtrip_witness : toy_write [tt; tt] = Ok (TFLOG_MAGIC ++ two_frames) /\ toy_read (TFLOG_MAGIC ++ two_frames) = Some (Ok [tt; tt]).
Proof.
  split; [by vm_compute|]. apply (tflog_roundtrip id (fun _ => "") (fun _ => "") (fun _ => "") toy_from_str (fun _ : unit => Ok JNull) (fun _ => Ok tt) [tt; tt]).
  - repeat constructor; apply toy_readable.
  - by vm_compute.
Defined.
Lemma tflog_read_iff_witness : toy_read (TFLOG_MAGIC ++ two_frames) <> None.
Proof. apply (tflog_read_iff (fun _ => "") toy_from_str (fun _ => Ok tt) _ [tt; tt]). apply (bool_decide_unpack _). by vm_compute. Defined.
Lemma tfproof_roundtrip_witness : exists buf bytes, write_tfproof id (fun _ => "") (fun _ => "") (fun _ : unit => Ok JNull) tt [7; 8] = Ok buf /\
  read_tfproof (fun _ => "") toy_from_str (fun _ => Ok tt) (buf ++ [1; 2; 3]) = Ok (mk_TfproofParts tt [7; 8] bytes).
Proof.
  eexists. destruct (tfproof_roundtrip id (fun _ => "") (fun _ => "") (fun _ => "") toy_from_str (fun _ : unit => Ok JNull) (fun _ => Ok tt) tt [7; 8] _ [1; 2; 3] (toy_readable tt) eq_refl)
    as (bytes & _ & H). exists bytes. split; [|exact H]. by vm_compute.
Defined.

End Framing.
