(* ===== verification/PolicyEngine.v ===== *)
(** * PolicyEngine: the native policy engine ([policy_engine.rs])

    A manifest of ordered rules evaluated first match first, with negative
    capabilities checked before any rule, and the dispatcher over pluggable
    engines.  The [regex] crate is the Section variable [Regex_new]; the
    system clock is the argument [secs]; SHA-256, serde on the manifest,
    Unicode normalisation and the text of a double are arguments of [new]. *)

From S2P Require Import Prelude Utf8 Json Glob Clock Guard Crypto Canonical CanonicalText.
Import Glob Clock Guard.

Module PolicyEngine.

(** ** Data *)

Record PolicyQuery := mk_PolicyQuery {
  pq_subject : string;
  pq_instance : option string;
  pq_action : string;
  pq_target : option string;
  pq_context : gmap string json;
  pq_negative_capabilities : list NegativeCapability;
  pq_enforcement_level : option string;
  pq_now : option string
}.

Record PolicyDecision := mk_PolicyDecision {
  pd_decision_version : string;
  pd_policy_engine : string;
  pd_engine_version : option string;
  pd_trust_domain : string;
  pd_subject : string;
  pd_instance : option string;
  pd_action : string;
  pd_target : option string;
  pd_decision : string;
  pd_rule_id : option string;
  pd_reason : option string;
  pd_approval : option string;
  pd_proof_required : option string;
  pd_constraints_applied : option (list json);
  pd_negative_capabilities_consulted : option (list NegativeCapability);
  pd_enforcement_level : option string;
  pd_evaluated_at : string;
  pd_policy_manifest_hash : option string;
  pd_context : option (gmap string json)
}.

Record PolicyRule := mk_PolicyRule {
  rule_id : string;
  rule_effect : string;
  rule_action : option string;
  rule_action_pattern : option string;
  rule_subject_pattern : option string;
  rule_target_patterns : option (list string);
  rule_approval : option string;
  rule_proof_required : option string;
  rule_constraints : option (list json);
  rule_reason : option string
}.

Record ContinuousReeval := mk_ContinuousReeval { triggers : list string }.
Record QuorumDefaults := mk_QuorumDefaults { qd_min_approvers : Z; qd_of : list string }.

Record PolicyManifest := mk_PolicyManifest {
  policy_version : string;
  trust_domain : string;
  engine_hint : option string;
  rules : list PolicyRule;
  pm_negative_capabilities : list NegativeCapability;
  continuous_reevaluation : option ContinuousReeval;
  quorum_defaults : option QuorumDefaults
}.

Record NativePolicyEngine := mk_NativePolicyEngine {
  policy : PolicyManifest;
  manifest_hash : string
}.

(** ** The engine trait *)

(** What the dispatcher asks of an engine, as a function of the clock. *)
Class PolicyEngineImpl (E : Type) := engine_evaluate : E -> Z -> PolicyQuery -> PolicyDecision.

(** [&dyn PolicyEngineImpl]. *)
Record dyn_engine := mk_dyn {
  dyn_type : Type;
  dyn_impl :: PolicyEngineImpl dyn_type;
  dyn_self : dyn_type
}.

(** ** The native engine *)

Definition non_empty {A} (l : list A) : bool := match l with [] => false | _ => true end.
Definition query_context (q : PolicyQuery) : option (gmap string json) :=
  if (size (pq_context q) =? 0)%nat then None else Some (pq_context q).
#[local] Open Scope string_scope.

Definition unavailable_decision (secs : Z) (engine : string) (query : PolicyQuery) (domain : string)
    : PolicyDecision :=
  mk_PolicyDecision "1" engine (Some (engine +:+ "-stub")) domain (pq_subject query)
    (pq_instance query) (pq_action query) (pq_target query) "deny" None
    (Some (engine +:+ " engine not configured for this dispatcher (no adapter supplied)"))
    None None None None (pq_enforcement_level query) (now_iso8601 secs) None (query_context query).

(** [NativePolicyEngine::decision]. *)
Definition decision (self : NativePolicyEngine) (query : PolicyQuery) (decision reason : string)
    (rule_id : option string) (constraints : option (list json)) (proof approval : option string)
    (neg_caps : option (list NegativeCapability)) (now : string) : PolicyDecision :=
  mk_PolicyDecision "1" "native" (Some "tf-policy-native-0.1.0") (trust_domain (policy self))
    (pq_subject query) (pq_instance query) (pq_action query) (pq_target query) decision rule_id
    (Some reason) approval proof (opt_filter non_empty constraints) (opt_filter non_empty neg_caps)
    (pq_enforcement_level query) now (Some (manifest_hash self)) (query_context query).

Definition negative_matches (neg : NegativeCapability) (q : PolicyQuery) : bool :=
  if negb (neg_name neg =? pq_action q) then false
  else match neg_target neg with
       | None => true
       | Some target_pattern =>
         match pq_target q with
         | None => false
         | Some query_target => glob_match target_pattern query_target
         end
       end.

Section native.
(** [Regex::new] and [Regex::is_match] of the [regex] crate: [None] is a
    pattern that does not compile. *)
Variable Regex_new : string -> option (string -> bool).

Definition regex_gate (pattern : option string) (value : string) : bool :=
  match pattern with
  | None => true
  | Some p => match Regex_new p with None => false | Some re => re value end
  end.

Definition target_gate (patterns : option (list string)) (target : option string) : bool :=
  match patterns with
  | Some (p :: ps) =>
    match target with
    | None => false
    | Some t => existsb (fun p => glob_match p t) (p :: ps)
    end
  | _ => true
  end.

Definition rule_matches (rule : PolicyRule) (query : PolicyQuery) : bool :=
  (match rule_action rule with None => true | Some action => action =? pq_action query end) &&
  regex_gate (rule_action_pattern rule) (pq_action query) &&
  regex_gate (rule_subject_pattern rule) (pq_subject query) &&
  target_gate (rule_target_patterns rule) (pq_target query).

(** The decision a matching rule gives, or [None] for an effect the match
    does not name ([continue]). *)
Definition apply_rule (self : NativePolicyEngine) (query : PolicyQuery)
    (neg_caps : list NegativeCapability) (now : string) (rule : PolicyRule) : option PolicyDecision :=
  let reason := unwrap_or (rule_reason rule) ("matched rule " +:+ rule_id rule) in
  let decide_ d cs proof approval :=
    Some (decision self query d reason (Some (rule_id rule)) cs proof approval (Some neg_caps) now) in
  if rule_effect rule =? "allow" then
    decide_ "allow" (rule_constraints rule) (rule_proof_required rule) (rule_approval rule)
  else if rule_effect rule =? "deny" then decide_ "deny" None None None
  else if rule_effect rule =? "escalate" then
    decide_ (if bool_decide (rule_approval rule = Some "quorum") then "escalate" else "approval-required")
      (rule_constraints rule) (rule_proof_required rule) (opt_or (rule_approval rule) (Some "required"))
  else if rule_effect rule =? "log_only" then
    decide_ "log-only" (rule_constraints rule) (rule_proof_required rule) None
  else None.

Fixpoint eval_rules (self : NativePolicyEngine) (query : PolicyQuery)
    (neg_caps : list NegativeCapability) (now : string) (rs : list PolicyRule) : PolicyDecision :=
  match rs with
  | [] => decision self query "deny" "no matching rule (default deny)" None None None None
            (Some neg_caps) now
  | rule :: rs' =>
    if negb (rule_matches rule query) then eval_rules self query neg_caps now rs'
    else match apply_rule self query neg_caps now rule with
         | Some d => d
         | None => eval_rules self query neg_caps now rs'
         end
  end.

Definition consulted (self : NativePolicyEngine) (query : PolicyQuery) : list NegativeCapability :=
  match pq_negative_capabilities query with
  | [] => pm_negative_capabilities (policy self)
  | caps => caps
  end.

Definition evaluate (self : NativePolicyEngine) (secs : Z) (query : PolicyQuery) : PolicyDecision :=
  let now := unwrap_or (pq_now query) (now_iso8601 secs) in
  let neg_caps := consulted self query in
  match List.find (fun neg => negative_matches neg query) neg_caps with
  | Some neg =>
    decision self query "deny"
      (unwrap_or (neg_reason neg) ("denied by negative_capability " +:+ neg_name neg))
      None None None None (Some neg_caps) now
  | None => eval_rules self query neg_caps now (rules (policy self))
  end.

#[export] Instance native_engine : PolicyEngineImpl NativePolicyEngine := evaluate.

Definition evaluate_with_engine (hint : option string) (native : NativePolicyEngine)
    (cedar rego : option dyn_engine) (secs : Z) (query : PolicyQuery) : PolicyDecision :=
  let dispatch name eng :=
    match eng with
    | Some e => engine_evaluate (dyn_self e) secs query
    | None => unavailable_decision secs name query (trust_domain (policy native))
    end in
  if bool_decide (hint = Some "cedar") then dispatch "cedar" cedar
  else if bool_decide (hint = Some "rego") then dispatch "rego" rego
  else evaluate native secs query.

Definition continuous_triggers (self : NativePolicyEngine) : list string :=
  match continuous_reevaluation (policy self) with Some c => triggers c | None => [] end.

(** ** First match first *)

Definition known_effect (e : string) : bool :=
  existsb (String.eqb e) ["allow"; "deny"; "escalate"; "log_only"].

(** A rule that decides a query; the others are passed over. *)
Definition decisive (query : PolicyQuery) (rule : PolicyRule) : bool :=
  rule_matches rule query && known_effect (rule_effect rule).

(** The verdict of a rule that decides. *)
Definition effect_verdict (rule : PolicyRule) : string :=
  if rule_effect rule =? "log_only" then "log-only"
  else if rule_effect rule =? "escalate" then
    if bool_decide (rule_approval rule = Some "quorum") then "escalate" else "approval-required"
  else rule_effect rule.

Lemma apply_rule_known self q caps now rule :
  match apply_rule self q caps now rule with
  | Some d => known_effect (rule_effect rule) = true /\ pd_decision d = effect_verdict rule /\
              pd_rule_id d = Some (rule_id rule)
  | None => known_effect (rule_effect rule) = false
  end.
Proof.
  unfold apply_rule, known_effect, effect_verdict. cbn [existsb].
  destruct (String.eqb_spec (rule_effect rule) "allow") as [E|]; [by rewrite ?E|].
  destruct (String.eqb_spec (rule_effect rule) "deny") as [E|]; [by rewrite ?E|].
  destruct (String.eqb_spec (rule_effect rule) "escalate") as [E|]; [by rewrite ?E|].
  destruct (String.eqb_spec (rule_effect rule) "log_only") as [E|]; by rewrite ?E.
Qed.

Lemma eval_rules_find self q caps now rs :
  match List.find (decisive q) rs with
  | Some rule => pd_decision (eval_rules self q caps now rs) = effect_verdict rule /\
                 pd_rule_id (eval_rules self q caps now rs) = Some (rule_id rule)
  | None => pd_decision (eval_rules self q caps now rs) = "deny" /\
            pd_rule_id (eval_rules self q caps now rs) = None
  end.
Proof.
  induction rs as [|rule rs IH]; [done|]. unfold decisive at 1. simpl.
  destruct (rule_matches rule q); [|exact IH]. simpl.
  pose proof (apply_rule_known self q caps now rule) as H.
  destruct (apply_rule self q caps now rule).
  - by destruct H as (-> & ? & ?).
  - rewrite H. exact IH.
Qed.

Lemma consulted_forall self q P : Forall P (consulted self q) <->
  Forall P (pq_negative_capabilities q) /\ (pq_negative_capabilities q = [] -> Forall P (pm_negative_capabilities (policy self))).
Proof. unfold consulted. destruct (pq_negative_capabilities q) as [|c cs]; naive_solver. Qed.

(** C7: The engine answers allow exactly when none of the query's negative
    capabilities matches, none of the policy's matches if the query carries
    none of its own, and the first rule that matches and carries a known
    effect has the effect allow; the decision then names that rule.  So the
    policy's own negative capabilities override its grants only for queries
    that carry none: with one that does, however irrelevant, the rules decide
    alone, although the documentation says that a negative capability always
    overrides a grant. *)
Theorem evaluate_allow_iff self secs q :
  pd_decision (evaluate self secs q) = "allow" <->
  (Forall (fun neg => negative_matches neg q = false) (pq_negative_capabilities q) /\
   (pq_negative_capabilities q = [] ->
    Forall (fun neg => negative_matches neg q = false) (pm_negative_capabilities (policy self)))) /\
  exists pre rule post, rules (policy self) = (pre ++ rule :: post)%list /\
    Forall (fun r => decisive q r = false) pre /\ rule_matches rule q = true /\
    rule_effect rule = "allow" /\ pd_rule_id (evaluate self secs q) = Some (rule_id rule).
Proof.
  rewrite <- consulted_forall. unfold evaluate. rewrite <- find_none_forall.
  destruct (List.find _ (consulted self q)) as [neg|]; [by split; [|intros []]|].
  set (now := unwrap_or _ _). pose proof (eval_rules_find self q (consulted self q) now (rules (policy self))) as H.
  split.
  - intros Hd. split; [done|]. destruct (List.find (decisive q) _) as [rule|] eqn:E.
    + destruct H as [H1 H2]. apply find_first in E as (pre & post & ? & ? & Hr).
      apply andb_prop in Hr as [Hm Hk]. exists pre, rule, post. repeat split; try done.
      rewrite H1 in Hd. unfold effect_verdict in Hd. repeat case_match; done.
    + by rewrite (proj1 H) in Hd.
  - intros [_ (pre & rule & post & Hrs & Hpre & Hm & He & _)].
    assert (List.find (decisive q) (rules (policy self)) = Some rule) as E.
    { apply find_first. exists pre, post. unfold decisive. by rewrite Hm, He. }
    rewrite E in H. destruct H as [-> _]. unfold effect_verdict. by rewrite He.
Qed.

(** The dispatcher fails closed: an allow is always an allow of the
    engine the hint names; a hint whose engine is not supplied never gives
    one, and every other hint is answered by the native engine. *)
Theorem dispatch_fail_closed hint native cedar rego secs q
    (Hallow : pd_decision (evaluate_with_engine hint native cedar rego secs q) = "allow") :
  (exists e, hint = Some "cedar" /\ cedar = Some e /\
     pd_decision (engine_evaluate (dyn_self e) secs q) = "allow") \/
  (exists e, hint = Some "rego" /\ rego = Some e /\
     pd_decision (engine_evaluate (dyn_self e) secs q) = "allow") \/
  (hint <> Some "cedar" /\ hint <> Some "rego" /\ pd_decision (evaluate native secs q) = "allow").
Proof.
  unfold evaluate_with_engine in Hallow.
  repeat case_bool_decide; subst; [destruct cedar|destruct rego|]; naive_solver.
Qed.

(** ** Which negative capabilities count *)

Definition with_negatives (self : NativePolicyEngine) (caps : list NegativeCapability) : NativePolicyEngine :=
  let p := policy self in
  mk_NativePolicyEngine
    (mk_PolicyManifest (policy_version p) (trust_domain p) (engine_hint p) (rules p) caps
       (continuous_reevaluation p) (quorum_defaults p))
    (manifest_hash self).

Lemma eval_rules_policy self caps q ncs now rs :
  eval_rules (with_negatives self caps) q ncs now rs = eval_rules self q ncs now rs.
Proof.
  induction rs as [|rule rs IH]; [done|]. simpl. destruct (rule_matches rule q); simpl; [|done].
  by rewrite IH.
Qed.

(** A query that carries negative capabilities of its own is decided
    without those of the policy: whatever list the policy has, the decision
    is the same. *)
Theorem query_negatives_replace_policy self secs q caps
    (Hq : pq_negative_capabilities q <> []) :
  evaluate (with_negatives self caps) secs q = evaluate self secs q.
Proof.
  unfold evaluate, consulted. destruct (pq_negative_capabilities q) as [|c cs]; [done|].
  destruct (List.find _ _); [done|]. apply eval_rules_policy.
Qed.

(** A matching negative capability of the policy denies every query that
    carries none of its own, whatever the rules say, and names no rule. *)
Theorem policy_negative_denies self secs q neg
    (Hq : pq_negative_capabilities q = [])
    (Hin : neg ∈ pm_negative_capabilities (policy self))
    (Hmatch : negative_matches neg q = true) :
  pd_decision (evaluate self secs q) = "deny" /\ pd_rule_id (evaluate self secs q) = None.
Proof.
  unfold evaluate, consulted. rewrite Hq.
  destruct (List.find _ _) eqn:E; [done|]. rewrite find_none_forall, Forall_forall in E.
  apply E in Hin. congruence.
Qed.

End native.

(** The engine and the agent guard agree on negative capabilities whose
    name has no star: the engine compares names, the guard matches them as
    patterns. *)
Theorem negative_matches_agree neg (gq : GuardQuery) (pq : PolicyQuery)
    (Hact : q_action gq = pq_action pq) (Htgt : q_target gq = pq_target pq)
    (Hn : valid_utf8 (bytes_of_str (neg_name neg)) = true)
    (Ha : valid_utf8 (bytes_of_str (pq_action pq)) = true)
    (Hstar : STAR ∉ chars (neg_name neg)) :
  PolicyEngine.negative_matches neg pq = Guard.negative_matches neg gq.
Proof.
  unfold PolicyEngine.negative_matches, Guard.negative_matches.
  by rewrite Hact, Htgt, glob_no_star.
Qed.

(** ** Witnesses *)

(** A regex engine for the witnesses: patterns are literals. *)
Definition literal_regex (p : string) : option (string -> bool) := Some (String.eqb p).

Definition allow_rm : PolicyRule :=
  mk_PolicyRule "r1" "allow" (Some "fs.rm") None (Some "agent") None None None None None.
Definition no_rm : NegativeCapability := mk_NegativeCapability "fs.rm" None None None.
Definition engine1 : NativePolicyEngine :=
  mk_NativePolicyEngine (mk_PolicyManifest "1" "d" None [allow_rm] [no_rm] None None) "h".
Definition query1 (caps : list NegativeCapability) : PolicyQuery :=
  mk_PolicyQuery "agent" None "fs.rm" None ∅ caps None (Some "2026-01-01T00:00:00Z").
Definition no_ls : NegativeCapability := mk_NegativeCapability "fs.ls" None None None.

Lemma dispatch_fail_closed_witness :
  pd_decision (evaluate_with_engine literal_regex (Some "native") engine1 None None 0 (query1 [no_ls])) = "allow" /\
  pd_decision (evaluate literal_regex engine1 0 (query1 [no_ls])) = "allow".
Proof.
  assert (H : pd_decision (evaluate_with_engine literal_regex (Some "native") engine1 None None 0 (query1 [no_ls]))
    = "allow") by (vm_compute; reflexivity).
  split; [exact H|].
  destruct (dispatch_fail_closed literal_regex _ _ _ _ _ _ H) as [(e & E & _)|[(e & E & _)|(_ & _ & E)]];
    [discriminate E|discriminate E|exact E].
Defined.

(** The policy's denial of [fs.rm] is lifted by an unrelated capability in
    the query. *)
Lemma query_negatives_replace_policy_witness :
  evaluate literal_regex engine1 0 (query1 [no_ls])
    = evaluate literal_regex (with_negatives engine1 []) 0 (query1 [no_ls]) /\
  pd_decision (evaluate literal_regex engine1 0 (query1 [no_ls])) = "allow".
Proof.
  split; [symmetry; apply (query_negatives_replace_policy literal_regex engine1 0 (query1 [no_ls]) []); done|].
  vm_compute. reflexivity.
Defined.

Lemma policy_negative_denies_witness :
  pd_decision (evaluate literal_regex engine1 0 (query1 [])) = "deny" /\
  pd_rule_id (evaluate literal_regex engine1 0 (query1 [])) = None.
Proof.
  apply (policy_negative_denies literal_regex engine1 0 (query1 []) no_rm);
    [reflexivity|by apply list_elem_of_singleton|vm_compute; reflexivity].
Defined.

Lemma negative_matches_agree_witness :
  PolicyEngine.negative_matches no_rm (query1 []) =
  Guard.negative_matches no_rm (mk_GuardQuery None None "fs.rm" None).
Proof.
  apply (negative_matches_agree no_rm (mk_GuardQuery None None "fs.rm" None) (query1 []));
    [reflexivity|reflexivity|vm_compute; reflexivity|vm_compute; reflexivity|vm_compute; set_solver].
Defined.

(** ** The hash that decisions carry *)

Lemma evaluate_hash Regex_new self secs q : pd_policy_manifest_hash (evaluate Regex_new self secs q) = Some (manifest_hash self).
Proof.
  unfold evaluate. destruct (List.find _ _); [done|]. generalize (rules (policy self)) as rs. induction rs as [|rule rs IH]; [done|].
  cbn [eval_rules]. destruct (negb _); [done|]. destruct (apply_rule _ _ _ _ rule) as [d|] eqn:E; [|done].
  unfold apply_rule in E. repeat case_match; simplify_eq; done.
Qed.

Section new.
Variable nfc : string -> string.
Variable show_f64 : Z -> string.
Variable sha256 : list Z -> list Z.
(** [serde_json::to_value] of a manifest. *)
Variable to_value : PolicyManifest -> option json.

Definition canonical_text (p : PolicyManifest) : string :=
  match Canonical.canonicalize nfc show_f64 (default JNull (to_value p)) with Ok text => text | Err _ => "" end.
Definition new (p : PolicyManifest) : NativePolicyEngine :=
  mk_NativePolicyEngine p ("sha256-" +:+ hex (sha256 (bytes_of_str (canonical_text p)))).

Hypothesis sha256_bytes : forall b, is_bytes (sha256 b).
(** Decisions of two engines that carry the same manifest hash were made under
    manifests with the same JSON form, up to the order of keys and Unicode
    normalisation, or two texts that were hashed are a SHA-256 collision. *)
Theorem manifest_hash_commits Regex_new p q v w secs secs' query query' : to_value p = Some v -> to_value q = Some w ->
  CanonicalText.float_free v = true -> CanonicalText.float_free w = true ->
  pd_policy_manifest_hash (evaluate Regex_new (new p) secs query) = pd_policy_manifest_hash (evaluate Regex_new (new q) secs' query') ->
  CanonicalText.normal_json nfc v = CanonicalText.normal_json nfc w \/
  (canonical_text p <> canonical_text q /\ sha256 (bytes_of_str (canonical_text p)) = sha256 (bytes_of_str (canonical_text q))).
Proof.
  intros Hv Hw Fv Fw. rewrite !evaluate_hash. intros [= H%Crypto.hex_inj]; [|apply sha256_bytes..].
  destruct (decide (canonical_text p = canonical_text q)) as [E|E]; [left|by right].
  unfold canonical_text in E. rewrite Hv, Hw in E. change (default JNull (Some v)) with v in E. change (default JNull (Some w)) with w in E.
  destruct (CanonicalText.canonical_readback nfc show_f64 v Fv) as (t & Ht & Hr).
  destruct (CanonicalText.canonical_readback nfc show_f64 w Fw) as (u & Hu & Hs). rewrite Ht, Hu in E. congruence.
Qed.
End new.

End PolicyEngine.
