(* ===== verification/Engines.v ===== *)
(** * Engines: the Cedar and Rego back ends of the policy dispatcher
      ([tf-cedar/src/lib.rs], [tf-rego/src/lib.rs])

    Both turn a query into a question for a third-party interpreter and its
    answer into a decision.  The interpreters, serde and the texts of their
    errors are the records [cedar_lib] and [rego_lib]; the calendar is that of
    [Clock].  Both are instances of the class the dispatcher asks for.

    - [cedar_allows_iff], [rego_decides]: exactly when a query is allowed;
    - [cedar_negatives_ignored]: negative capabilities are reported as
      consulted and do not matter. *)

From S2P Require Import Prelude Json Clock Guard PolicyEngine.
Import PolicyEngine.

#[local] Open Scope string_scope.
#[local] Open Scope list_scope.
#[local] Open Scope Z_scope.

Module Engines.

Definition consulted_field (q : PolicyQuery) : option (list Guard.NegativeCapability) :=
  match pq_negative_capabilities q with [] => None | caps => Some caps end.
(** The record both engines fill in. *)
Definition engine_decision (engine version domain : string) (q : PolicyQuery) (now decision : string) (rule_id : option string) (reason : string) : PolicyDecision :=
  mk_PolicyDecision "1" engine (Some version) domain (pq_subject q) (pq_instance q) (pq_action q) (pq_target q) decision rule_id (Some reason) None None None
    (consulted_field q) (pq_enforcement_level q) now None (query_context q).

(** ** Cedar *)

Inductive cedar_verdict := CAllow | CDeny.
Record cedar_lib := mk_cedar_lib {
  PolicySet : Type; Entities : Type; EntityUid : Type; Context_ : Type; Request_ : Type;
  policies_from_str : string -> result string PolicySet;
  entities_from_json : string -> result string Entities;
  uid_from_str : string -> result string EntityUid;
  empty_context : Context_;
  context_to_value : gmap string json -> result string json;
  context_from_json : json -> result string Context_;
  request_new : EntityUid -> EntityUid -> EntityUid -> Context_ -> result string Request_;
  (** [is_authorized]: the decision, the ids of the policies that made it and the errors *)
  is_authorized : Request_ -> PolicySet -> Entities -> cedar_verdict * list string * list string;
  cedar_version : string
}.
Inductive CedarError := CedarPolicy (m : string) | CedarEntities (m : string).

Section cedar.
Variable l : cedar_lib.
Record CedarPolicyEngine := mk_CedarPolicyEngine { policy_set : PolicySet l; entities : Entities l; c_trust_domain : string }.
Definition cedar_new (policy_src entities_json : string) : result CedarError CedarPolicyEngine :=
  ps ← map_err CedarPolicy (policies_from_str l policy_src);
  es ← map_err CedarEntities (entities_from_json l entities_json);
  Ok (mk_CedarPolicyEngine ps es "cedar").
Definition cedar_with_trust_domain (d : string) (e : CedarPolicyEngine) : CedarPolicyEngine := mk_CedarPolicyEngine (policy_set e) (entities e) d.

(** Backslashes and quotation marks with a backslash in front, backslashes
    first. *)
Definition backslash : ascii := ascii_of_nat 92.
Definition dquote : ascii := ascii_of_nat 34.
Fixpoint replace_char (c : ascii) (r s : string) : string :=
  match s with EmptyString => "" | String d t => (if Ascii.eqb c d then r else String d "") +:+ replace_char c r t end.
Definition uid_escape (s : string) : string :=
  replace_char dquote (String backslash (String dquote "")) (replace_char backslash (String backslash (String backslash "")) s).
Definition quoted (s : string) : string := String dquote (s +:+ String dquote "").
Definition wrapped (fallback_type s : string) : string := fallback_type +:+ "::" +:+ quoted (uid_escape s).
Definition parse_or_wrap_uid (s fallback_type : string) : result string (EntityUid l) :=
  match uid_from_str l s with Ok uid => Ok uid | Err _ => uid_from_str l (wrapped fallback_type s) end.
Definition build_context (ctx : gmap string json) : result string (Context_ l) :=
  if (size ctx =? 0)%nat then Ok (empty_context l) else v ← context_to_value l ctx; context_from_json l v.

Definition resource_str (q : PolicyQuery) : string := default ("Resource::" +:+ quoted "unknown") (pq_target q).
(** The request to Cedar, or the reason there is none. *)
Definition cedar_request (q : PolicyQuery) : result string (Request_ l) :=
  principal ← map_err (fun e => "invalid subject UID: " +:+ e) (parse_or_wrap_uid (pq_subject q) "Subject");
  action ← map_err (fun e => "invalid action UID: " +:+ e) (parse_or_wrap_uid (pq_action q) "Action");
  resource ← map_err (fun e => "invalid resource UID: " +:+ e) (parse_or_wrap_uid (resource_str q) "Resource");
  context ← map_err (fun e => "invalid context: " +:+ e) (build_context (pq_context q));
  map_err (fun e => "could not build cedar request: " +:+ e) (request_new l principal action resource context).
Fixpoint join (sep : string) (ss : list string) : string :=
  match ss with [] => "" | [s] => s | s :: rest => s +:+ sep +:+ join sep rest end.
Definition cedar_reason (v : cedar_verdict) (reason_ids errors : list string) : string :=
  match v with
  | CAllow => "cedar permit policy matched"
  | CDeny =>
    match reason_ids, errors with
    | [], [] => "no cedar permit policy matched (default deny)"
    | [], _ => "cedar evaluation errors: " +:+ join "; " errors
    | _, _ => "cedar forbid policy matched"
    end
  end.
Definition cedar_decision (self : CedarPolicyEngine) : PolicyQuery -> string -> string -> option string -> string -> PolicyDecision :=
  engine_decision "cedar" ("cedar-policy-" +:+ cedar_version l) (c_trust_domain self).
Definition cedar_evaluate (self : CedarPolicyEngine) (secs : Z) (q : PolicyQuery) : PolicyDecision :=
  let now := unwrap_or (pq_now q) (Clock.now_iso8601 secs) in
  match cedar_request q with
  | Err e => cedar_decision self q now "deny" None e
  | Ok request =>
    let '(v, reason_ids, errors) := is_authorized l request (policy_set self) (entities self) in
    cedar_decision self q now (match v with CAllow => "allow" | CDeny => "deny" end) (hd_error reason_ids) (cedar_reason v reason_ids errors)
  end.
#[export] Instance cedar_engine : PolicyEngineImpl CedarPolicyEngine := cedar_evaluate.
End cedar.

(** ** Rego *)

Record rego_lib := mk_rego_lib {
  Engine : Type; RegoValue : Type;
  add_policy : string -> string -> result string Engine;
  (** [serde_json::to_string] of the view of a query *)
  input_to_string : PolicyQuery -> result string string;
  rego_from_json : string -> result string RegoValue;
  (** [set_input] then [eval_rule], on a copy of the engine *)
  eval_rule : Engine -> RegoValue -> string -> result string RegoValue;
  as_rego_bool : RegoValue -> option bool;
  to_json_str : RegoValue -> result string string;
  parse_json : string -> result string json;
  show_json : json -> string;
  rego_version : string
}.
Section rego.
Variable l : rego_lib.
Record RegoPolicyEngine := mk_RegoPolicyEngine { engine : Engine l; r_trust_domain : string; rule_path : string }.
(** The error of [RegoError::Policy]. *)
Definition rego_new (rego_src : string) : result string RegoPolicyEngine :=
  e ← add_policy l "trustforge.rego" rego_src;
  Ok (mk_RegoPolicyEngine e "rego" "data.trustforge.allow").
Definition rego_with_trust_domain (d : string) (e : RegoPolicyEngine) : RegoPolicyEngine := mk_RegoPolicyEngine (engine e) d (rule_path e).
Definition with_rule_path (p : string) (e : RegoPolicyEngine) : RegoPolicyEngine := mk_RegoPolicyEngine (engine e) (r_trust_domain e) p.
Definition text_at (k : string) (o : json) : option string := v ← jget k o; as_str v.
(** The value of the rule, or the reason there is none. *)
Definition rego_result (self : RegoPolicyEngine) (q : PolicyQuery) : result string (RegoValue l) :=
  input_json ← map_err (fun e => "could not serialize input: " +:+ e) (input_to_string l q);
  value ← map_err (fun e => "input is not valid JSON: " +:+ e) (rego_from_json l input_json);
  map_err (fun e => "rego evaluation error: " +:+ e) (eval_rule l (engine self) value (rule_path self)).
(** Decision, rule and reason read from a value. *)
Definition read_value (v : RegoValue l) : result string (string * option string * string) :=
  match as_rego_bool l v with
  | Some true => Ok ("allow", None, "rego rule evaluated to true")
  | Some false => Ok ("deny", None, "rego rule evaluated to false")
  | None =>
    json_str ← map_err (fun e => "rego output not JSON: " +:+ e) (to_json_str l v);
    parsed ← map_err (fun e => "rego output is not valid JSON: " +:+ e) (parse_json l json_str);
    match parsed with
    | JObject _ =>
      let decision := default "deny" (text_at "decision" parsed) in
      Ok (decision, text_at "rule_id" parsed, default ("rego rule decided " +:+ decision) (text_at "reason" parsed))
    | _ => Err ("rego output is not an object: " +:+ show_json l parsed)
    end
  end.
Definition rego_decision (self : RegoPolicyEngine) : PolicyQuery -> string -> string -> option string -> string -> PolicyDecision :=
  engine_decision "rego" ("regorus-" +:+ rego_version l) (r_trust_domain self).
Definition rego_evaluate (self : RegoPolicyEngine) (secs : Z) (q : PolicyQuery) : PolicyDecision :=
  let now := unwrap_or (pq_now q) (Clock.now_iso8601 secs) in
  match (v ← rego_result self q; read_value v) with
  | Ok (d, rule, reason) => rego_decision self q now d rule reason
  | Err e => rego_decision self q now "deny" None e
  end.
#[export] Instance rego_engine : PolicyEngineImpl RegoPolicyEngine := rego_evaluate.
End rego.


(** ** When Cedar allows *)

(** through the dispatcher, a query is allowed by Cedar exactly when subject,
    action, target and context could all be turned into a Cedar request and the
    authorizer allowed it; in every other case, an error at any step included,
    it is denied. *)
Theorem cedar_allows_iff l self native rego Regex_new secs q :
  let d := pd_decision (evaluate_with_engine Regex_new (Some "cedar") native (Some (mk_dyn (CedarPolicyEngine l) (cedar_engine l) self)) rego secs q) in
  (d = "allow" <-> exists r ids errs, cedar_request l q = Ok r /\ is_authorized l r (policy_set l self) (entities l self) = (CAllow, ids, errs)) /\
  (d <> "allow" -> d = "deny").
Proof.
  assert (evaluate_with_engine Regex_new (Some "cedar") native (Some (mk_dyn (CedarPolicyEngine l) (cedar_engine l) self)) rego secs q = cedar_evaluate l self secs q) as -> by done.
  unfold cedar_evaluate. destruct (cedar_request l q) as [r|e]; [|split; [split; [done|by intros (? & ? & ? & ? & _)]|done]].
  destruct (is_authorized l r _ _) as [[[] ids] errs] eqn:A; (split; [split|]); try done; [by exists r, ids, errs|].
  intros (r' & ids' & errs' & [= <-] & A'). congruence.
Qed.
Definition with_caps (q : PolicyQuery) (caps : list Guard.NegativeCapability) : PolicyQuery :=
  mk_PolicyQuery (pq_subject q) (pq_instance q) (pq_action q) (pq_target q) (pq_context q) caps (pq_enforcement_level q) (pq_now q).
(** Cedar's decision does not depend on the negative capabilities of a query,
    which the record says were consulted; the native engine denies every query
    that one of its own negative capabilities matches. *)
Theorem cedar_negatives_ignored l self secs q caps :
  pd_decision (cedar_evaluate l self secs (with_caps q caps)) = pd_decision (cedar_evaluate l self secs q) /\
  (caps <> [] -> pd_negative_capabilities_consulted (cedar_evaluate l self secs (with_caps q caps)) = Some caps) /\
  forall Regex_new native neg, neg ∈ caps -> negative_matches neg (with_caps q caps) = true -> pd_decision (evaluate Regex_new native secs (with_caps q caps)) = "deny".
Proof.
  split; [|split].
  - unfold cedar_evaluate. change (cedar_request l (with_caps q caps)) with (cedar_request l q). destruct (cedar_request l q) as [r|]; [|done].
    by destruct (is_authorized l r _ _) as [[v ids] errs].
  - intros C. assert (consulted_field (with_caps q caps) = Some caps) as E by (by destruct caps).
    unfold cedar_evaluate. destruct (cedar_request l (with_caps q caps)) as [r|]; [|exact E]. by destruct (is_authorized l r _ _) as [[v ids] errs].
  - intros Rx native neg I M. unfold evaluate, consulted. cbn [with_caps pq_negative_capabilities].
    destruct caps as [|c cs]; [by apply elem_of_nil in I|]. destruct (List.find _ (c :: cs)) eqn:F; [done|].
    apply list_elem_of_In in I. by rewrite (List.find_none _ _ F neg I) in M.
Qed.

(** ** The names of entities *)

(** Reads an escaped text back. *)
Fixpoint unescape (s : string) : string :=
  match s with
  | String c (String d r as t) => if Ascii.eqb c backslash then String d (unescape r) else String c (unescape t)
  | _ => s
  end.
Lemma replace_char_app c r s t : replace_char c r (s +:+ t) = replace_char c r s +:+ replace_char c r t.
Proof. induction s as [|d s IH]; [done|]. cbn [replace_char String.append]. rewrite str_app_cons. cbn [replace_char]. by rewrite IH, str_app_assoc. Qed.
Lemma uid_escape_cons d s : uid_escape (String d s) =
  (if Ascii.eqb d backslash || Ascii.eqb d dquote then String backslash (String d "") else String d "") +:+ uid_escape s.
Proof.
  unfold uid_escape. cbn [replace_char]. rewrite replace_char_app, (Ascii.eqb_sym backslash d).
  destruct (Ascii.eqb_spec d backslash) as [->|N]; [done|]. cbn [replace_char orb]. rewrite (Ascii.eqb_sym dquote d).
  by destruct (Ascii.eqb_spec d dquote) as [->|].
Qed.
Lemma uid_unescape_pair d t : unescape (String backslash (String d t)) = String d (unescape t).
Proof. done. Qed.
Lemma unescape_plain c t : c <> backslash -> unescape (String c t) = String c (unescape t).
Proof. intros N. destruct t; [done|]. cbn [unescape]. by rewrite (proj2 (Ascii.eqb_neq _ _) N). Qed.
Lemma uid_unescape_escape s : unescape (uid_escape s) = s.
Proof.
  induction s as [|d s IH]; [done|]. rewrite uid_escape_cons. destruct (Ascii.eqb_spec d backslash) as [->|N]; cbn [orb].
  - rewrite !str_app_cons, str_app_nil_l, uid_unescape_pair. by rewrite IH.
  - destruct (Ascii.eqb_spec d dquote) as [->|M]; rewrite !str_app_cons, str_app_nil_l; [by rewrite uid_unescape_pair, IH|]. by rewrite unescape_plain, IH.
Qed.
Lemma str_app_last_inj s t c : s +:+ String c "" = t +:+ String c "" -> s = t.
Proof.
  revert t. induction s as [|a s IH]; intros [|b t]; cbn; [done|..].
  - intros [= -> H]. by destruct t.
  - intros [= -> H]. by destruct s.
  - intros [= -> H]. f_equal. by apply IH.
Qed.
(** different texts are never wrapped to the same name, whatever quotation
    marks and backslashes they hold; but a text that already is such a name is
    taken as it stands, so the query of one subject can be asked for another:
    the name of a subject and the subject itself give the same entity. *)
Theorem cedar_names l s t T u :
  (wrapped T s = wrapped T t -> s = t) /\
  (is_ok (uid_from_str l s) = false -> uid_from_str l (wrapped T s) = Ok u ->
    wrapped T s <> s /\ parse_or_wrap_uid l (wrapped T s) T = parse_or_wrap_uid l s T).
Proof.
  split.
  - unfold wrapped, quoted. intros [= H%str_app_last_inj]%str_app_inv_head%str_app_inv_head. by rewrite <-(uid_unescape_escape s), H, uid_unescape_escape.
  - intros N P. split; [intros E; by rewrite <-E, P in N|]. unfold parse_or_wrap_uid. rewrite P. by destruct (uid_from_str l s).
Qed.

(** ** When Rego allows *)

(** Rego's answer is used as it is: a true value allows, a false one denies,
    an object gives its decision, any text, or a denial when it has none, and
    every failure on the way denies. *)
Theorem rego_decides l self secs q :
  pd_decision (rego_evaluate l self secs q) =
  match rego_result l self q with
  | Err _ => "deny"
  | Ok v =>
    match as_rego_bool l v with
    | Some b => if b then "allow" else "deny"
    | None =>
      match (t ← to_json_str l v; parse_json l t) with
      | Ok (JObject fields) => default "deny" (text_at "decision" (JObject fields))
      | _ => "deny"
      end
    end
  end.
Proof.
  unfold rego_evaluate. destruct (rego_result l self q) as [v|]; [|done]. cbn [mbind result_bind]. unfold read_value.
  destruct (as_rego_bool l v) as [[]|]; [done..|]. destruct (to_json_str l v) as [t|]; [|done]. cbn [map_err mbind result_bind].
  destruct (parse_json l t) as [[]|]; done.
Qed.

(** ** A concrete interpreter *)

(** Reads names with a type, allows everything. *)
Definition permissive : cedar_lib :=
  mk_cedar_lib unit unit string unit unit (fun _ => Ok tt) (fun _ => Ok tt) (fun s => if existsb (Z.eqb 34) (bytes_of_str s) then Ok s else Err "no type") tt
    (fun _ => Ok JNull) (fun _ => Ok tt) (fun _ _ _ _ => Ok tt) (fun _ _ _ => (CAllow, ["p0"], [])) "4".
Definition wipe (caps : list Guard.NegativeCapability) : PolicyQuery := mk_PolicyQuery "tf:actor:a" None "disk.wipe" None ∅ caps None None.
Definition never_wipe : Guard.NegativeCapability := Guard.mk_NegativeCapability "disk.wipe" None None None.
Lemma cedar_negatives_ignored_witness :
  pd_decision (cedar_evaluate permissive (mk_CedarPolicyEngine permissive tt tt "d") 0 (wipe [never_wipe])) =
  pd_decision (cedar_evaluate permissive (mk_CedarPolicyEngine permissive tt tt "d") 0 (wipe [])) /\
  pd_negative_capabilities_consulted (cedar_evaluate permissive (mk_CedarPolicyEngine permissive tt tt "d") 0 (wipe [never_wipe])) = Some [never_wipe].
Proof.
  destruct (cedar_negatives_ignored permissive (mk_CedarPolicyEngine permissive tt tt "d") 0 (wipe []) [never_wipe]) as (H1 & H2 & _).
  split; [exact H1|]. by apply H2.
Defined.
Example cedar_wipes : pd_decision (cedar_evaluate permissive (mk_CedarPolicyEngine permissive tt tt "d") 0 (wipe [never_wipe])) = "allow".
Proof. done. Qed.

End Engines.
