(* ===== verification/Session.v ===== *)
(** * Session: handshake, encrypted frames and rekeying ([session.rs])

    The three-message handshake of [Initiator] and [Responder], the
    sequence-numbered AEAD frames of [SessionState] and its in-band rekey.
    Every method that takes [&mut self] returns the new object with its
    result.  Random bytes are arguments.  The cryptographic crates are
    [Crypto.crypto_lib]; Unicode normalisation, the text of a double and of
    a [Vec<String>], and [serde]'s readers are the record [session_lib]. *)

From S2P Require Import Prelude Utf8 Json Base64 Crypto Cbor BinaryFormat Canonical CanonicalText.
Import Canonical CanonicalText Crypto.

Module Session.
#[local] Open Scope string_scope.
#[local] Open Scope Z_scope.

(** ** Data *)

Definition SESSION_VERSION : Z := 0.
Definition SESSION_SUITE : string := "x25519-hkdf-sha256-chacha20poly1305-ed25519".
Definition SESSION_SUITE_HYBRID_ED25519_MLDSA65 : string := "x25519-hkdf-sha256-chacha20poly1305-ed25519+ml-dsa-65".
Definition KNOWN_SESSION_SUITES : list string := [SESSION_SUITE; SESSION_SUITE_HYBRID_ED25519_MLDSA65].

(** [str::ends_with]. *)
Fixpoint ends_with (suffix s : string) : bool :=
  (s =? suffix)%string || match s with EmptyString => false | String _ r => ends_with suffix r end.
Definition is_hybrid_suite (suite : string) : bool := ends_with "+ml-dsa-65" suite.

Inductive SessionError := Generic (s : string) | Aead (seq : Z) | CryptoErr (s : string).
Definition from_crypto_error (e : CryptoError) : SessionError := CryptoErr (crypto_error_str e).

Record HelloI := mk_HelloI {
  i_version : Z;
  i_suite : string;
  i_supported_suites : option (list string);
  i_session_id : string;
  i_peer_hint : string;
  i_self_hint : option string;
  i_eph_pub : string
}.
Record HelloR := mk_HelloR {
  r_eph_pub : string;
  r_ident_pub : string;
  r_selected_suite : option string;
  r_self_hint : option string;
  r_signature_mldsa : option string;
  r_ident_pub_mldsa : option string;
  r_signature : string
}.
Record Auth := mk_Auth {
  a_ident_pub : string;
  a_signature_mldsa : option string;
  a_ident_pub_mldsa : option string;
  a_signature : string
}.
Inductive SessionFrame :=
| Data (payload : json)
| RekeyReq (eph_pub : string)
| RekeyAck (eph_pub : string)
| Close (reason : option string)
| Ping (nonce : string)
| Pong (nonce : string).

Record SessionConfig := mk_SessionConfig {
  c_self_actor : string;
  c_peer_hint : option string;
  c_self_hint : option string;
  c_identity_priv : list Z;
  c_identity_pub : list Z;
  c_preferred_suite : option string;
  c_supported_suites : option (list string);
  c_identity_mldsa_priv : option (list Z);
  c_identity_mldsa_pub : option (list Z);
  c_eph_seed : option (list Z);
  c_session_id_seed : option (list Z)
}.

Inductive Role := RInitiator | RResponder.
Record SessionState := mk_SessionState {
  self_actor : string;
  peer_actor : string;
  peer_actor_claim : option string;
  session_id : list Z;
  generation : Z;
  send_key : list Z;
  recv_key : list Z;
  send_seq : Z;
  recv_seq : Z;
  closed : bool;
  pending_rekey_priv : option (list Z)
}.

Inductive InitiatorState :=
| IFresh
| AwaitingHelloR (hello_i : HelloI) (eph_priv : list Z)
| IEstablished (s : SessionState).
Record Initiator := mk_Initiator { init_cfg : SessionConfig; init_state : InitiatorState }.
Inductive ResponderState :=
| RFresh
| AwaitingAuth (hello_i : HelloI) (hello_r : HelloR) (shared : list Z)
| REstablished (s : SessionState).
Record Responder := mk_Responder { resp_cfg : SessionConfig; resp_state : ResponderState }.

(** ** The messages as JSON (their [Serialize]) *)

Definition hello_i_to_value (h : HelloI) : json :=
  JObject (field "kind" (JString "hello-i") ++ field "version" (jint (i_version h)) ++
    field "suite" (JString (i_suite h)) ++
    opt_field "supported_suites" (i_supported_suites h) (fun l => JArray (JString <$> l)) ++
    field "session_id" (JString (i_session_id h)) ++ field "peer_hint" (JString (i_peer_hint h)) ++
    opt_field "self_hint" (i_self_hint h) JString ++ field "eph_pub" (JString (i_eph_pub h))).
Definition hello_r_to_value (h : HelloR) : json :=
  JObject (field "kind" (JString "hello-r") ++ field "eph_pub" (JString (r_eph_pub h)) ++
    field "ident_pub" (JString (r_ident_pub h)) ++ opt_field "selected_suite" (r_selected_suite h) JString ++
    opt_field "self_hint" (r_self_hint h) JString ++ opt_field "signature_mldsa" (r_signature_mldsa h) JString ++
    opt_field "ident_pub_mldsa" (r_ident_pub_mldsa h) JString ++ field "signature" (JString (r_signature h))).
Definition auth_to_value (a : Auth) : json :=
  JObject (field "kind" (JString "auth") ++ field "ident_pub" (JString (a_ident_pub a)) ++
    opt_field "signature_mldsa" (a_signature_mldsa a) JString ++
    opt_field "ident_pub_mldsa" (a_ident_pub_mldsa a) JString ++ field "signature" (JString (a_signature a))).
Definition frame_fields (f : SessionFrame) : list (string * json) :=
  match f with
  | Data payload => field "kind" (JString "data") ++ field "payload" payload
  | RekeyReq e => field "kind" (JString "rekey-req") ++ field "eph_pub" (JString e)
  | RekeyAck e => field "kind" (JString "rekey-ack") ++ field "eph_pub" (JString e)
  | Close reason => field "kind" (JString "close") ++ opt_field "reason" reason JString
  | Ping n => field "kind" (JString "ping") ++ field "nonce" (JString n)
  | Pong n => field "kind" (JString "pong") ++ field "nonce" (JString n)
  end.
Definition frame_to_value (f : SessionFrame) : json := JObject (frame_fields f).

(** ** Third-party code *)

Record session_lib := mk_session_lib {
  lib :> crypto_lib;
  nfc : string -> string;
  show_f64 : Z -> string;
  (** [{:?}] of a list of strings *)
  debug_strings : list string -> string;
  (** [serde_json::from_slice::<Value>] and [from_value::<SessionFrame>] *)
  json_from_slice : list Z -> result string json;
  frame_from_value : json -> result string SessionFrame
}.

Section session.
Variable x : session_lib.

(** [canonicalize(..).map_err(|e| SessionError::Generic(e.to_string()))]. *)
Definition canon (v : json) : result SessionError string :=
  map_err (fun e => match e with
    NonFinite bits => Generic ("cannot canonicalize non-finite number: " +:+ show_f64 x bits) end)
    (canonicalize (nfc x) (show_f64 x) v).

Fixpoint canonical_concat (values : list json) : result SessionError string :=
  match values with
  | [] => Ok ""
  | v :: values' => s ← canon v; out ← canonical_concat values'; Ok (s +:+ out)
  end.

Definition digest_of (transcript : string) : list Z := sha256 x (bytes_of_str transcript).

Definition decode64 (s : string) : result SessionError (list Z) := map_err from_crypto_error (b64decode s).
(** [b64decode(..)?.try_into()] to 32 bytes. *)
Definition decode_eph (s : string) : result SessionError (list Z) :=
  bs ← decode64 s; array_of 32 (Generic "eph_pub not 32 bytes") bs.

Definition make_ephemeral (seed : option (list Z)) (rng : list Z) : X25519KeyPair :=
  match seed with Some s => x25519_from_bytes x s | None => x25519_generate x rng end.

(** ** Actor identifiers ([actor_id.rs]): the error as its text. *)
Definition derive_peer_actor (ident_pub : list Z) : result string string :=
  if negb (Nat.eqb (length ident_pub) 32) then Err "actor id path is empty"
  else Ok ("tf:actor:process:key/" +:+ hex (take 8 (sha256 x ident_pub))).

(** ** Session keys *)

Definition derive_with_claim (role : Role) (shared_secret session_id transcript_hash : list Z)
    (self_actor peer_actor : string) (peer_actor_claim : option string) : SessionState :=
  let info := (bytes_of_str "tf-session/v0/keys" ++ transcript_hash)%list in
  let ikm := hkdf_sha256 x shared_secret session_id info 64 in
  let i_to_r := take 32 ikm in
  let r_to_i := take 32 (drop 32 ikm) in
  let '(send_key, recv_key) := match role with RInitiator => (i_to_r, r_to_i) | RResponder => (r_to_i, i_to_r) end in
  mk_SessionState self_actor peer_actor peer_actor_claim session_id 0 send_key recv_key 0 0 false None.
Definition derive (role : Role) (shared_secret session_id transcript_hash : list Z)
    (self_actor peer_actor : string) : SessionState :=
  derive_with_claim role shared_secret session_id transcript_hash self_actor peer_actor None.

(** The ml-dsa-65 half of a hybrid verification; [who] and [msg] fill in the
    error texts. *)
Definition check_mldsa (who msg suite : string) (sig_b64 pub_b64 : option string) (hash : list Z) :
    result SessionError unit :=
  if is_hybrid_suite suite then
    pq_sig_b64 ← ok_or sig_b64 (Generic ("negotiated hybrid suite " +:+ suite +:+ " but " +:+ msg +:+ " missing signature_mldsa"));
    pq_pub_b64 ← ok_or pub_b64 (Generic ("negotiated hybrid suite " +:+ suite +:+ " but " +:+ msg +:+ " missing ident_pub_mldsa"));
    pq_sig ← decode64 pq_sig_b64;
    pq_pub ← decode64 pq_pub_b64;
    if ml_dsa_65_verify x pq_pub hash pq_sig then Ok tt
    else Err (Generic (who +:+ " ml-dsa-65 signature invalid"))
  else Ok tt.

(** The ml-dsa-65 half of a hybrid signature. *)
Definition sign_mldsa (who suite : string) (priv : option (list Z)) (hash : list Z) : result SessionError (option string) :=
  if is_hybrid_suite suite then
    priv_bytes ← ok_or priv (Generic ("negotiated hybrid suite " +:+ suite +:+ " but " +:+ who +:+
      " is missing identity_mldsa_priv"));
    sig ← map_err (fun e => Generic (crypto_error_str e)) (ml_dsa_65_sign x priv_bytes hash);
    Ok (Some (b64encode sig))
  else Ok None.

Definition mldsa_pub_for (suite : string) (cfg : SessionConfig) : option string :=
  if is_hybrid_suite suite then b64encode <$> c_identity_mldsa_pub cfg else None.

(** ** Initiator *)

Definition new_initiator (cfg : SessionConfig) : Initiator := mk_Initiator cfg IFresh.
Definition initiator_session (i : Initiator) : option SessionState :=
  match init_state i with IEstablished s => Some s | _ => None end.

(** [supported.retain(|s| s != &preferred); supported.insert(0, preferred)]. *)
Definition offered_suites (cfg : SessionConfig) : list string :=
  let preferred := unwrap_or (c_preferred_suite cfg) SESSION_SUITE in
  let supported := unwrap_or (c_supported_suites cfg) KNOWN_SESSION_SUITES in
  preferred :: List.filter (fun s => negb (s =? preferred)%string) supported.

Definition start (i : Initiator) (rng_eph rng_id : list Z) : Initiator * result SessionError HelloI :=
  match init_state i with
  | IFresh =>
    let cfg := init_cfg i in
    let eph := make_ephemeral (c_eph_seed cfg) rng_eph in
    let session_id_bytes := unwrap_or (c_session_id_seed cfg) rng_id in
    let hello_i := mk_HelloI SESSION_VERSION (unwrap_or (c_preferred_suite cfg) SESSION_SUITE)
      (Some (offered_suites cfg)) (b64encode session_id_bytes) (unwrap_or (c_peer_hint cfg) "")
      (c_self_hint cfg) (b64encode (kp_public eph)) in
    (mk_Initiator cfg (AwaitingHelloR hello_i (kp_private eph)), Ok hello_i)
  | _ => (i, Err (Generic "initiator already started"))
  end.

Definition hello_r_unsigned (m : HelloR) : HelloR :=
  mk_HelloR (r_eph_pub m) (r_ident_pub m) (r_selected_suite m) (r_self_hint m) None (r_ident_pub_mldsa m) "".
Definition auth_unsigned (m : Auth) : Auth := mk_Auth (a_ident_pub m) None (a_ident_pub_mldsa m) "".

(** [process_hello_r] once the awaiting state is taken out. *)
Definition accept_hello_r (cfg : SessionConfig) (hello_i : HelloI) (eph_priv : list Z) (msg : HelloR) :
    result SessionError (Auth * SessionState) :=
  transcript ← canonical_concat [hello_i_to_value hello_i; hello_r_to_value (hello_r_unsigned msg)];
  let transcript_hash := digest_of transcript in
  ident_pub ← decode64 (r_ident_pub msg);
  sig ← decode64 (r_signature msg);
  _ ← map_err (fun _ => Generic "responder identity signature invalid") (ed25519_verify x ident_pub transcript_hash sig);
  let negotiated_suite := unwrap_or (r_selected_suite msg) (i_suite hello_i) in
  _ ← check_mldsa "responder" "HelloR" negotiated_suite (r_signature_mldsa msg) (r_ident_pub_mldsa msg) transcript_hash;
  peer_eph ← decode_eph (r_eph_pub msg);
  let shared := x25519_diffie_hellman x eph_priv peer_eph in
  let unsigned := mk_Auth (b64encode (c_identity_pub cfg)) None (mldsa_pub_for negotiated_suite cfg) "" in
  full_transcript ← canonical_concat [hello_i_to_value hello_i; hello_r_to_value msg; auth_to_value unsigned];
  let full_hash := digest_of full_transcript in
  let auth_sig := ed25519_sign x (c_identity_priv cfg) full_hash in
  auth_pq_sig ← sign_mldsa "initiator" negotiated_suite (c_identity_mldsa_priv cfg) full_hash;
  let auth := mk_Auth (b64encode (c_identity_pub cfg)) auth_pq_sig (a_ident_pub_mldsa unsigned) (b64encode auth_sig) in
  session_id_bytes ← decode64 (i_session_id hello_i);
  peer ← map_err (fun e => Generic ("derive_peer_actor: " +:+ e)) (derive_peer_actor ident_pub);
  let peer_claim := opt_filter (fun s => negb (str_is_empty s)) (r_self_hint msg) in
  Ok (auth, derive_with_claim RInitiator shared session_id_bytes full_hash (c_self_actor cfg) peer peer_claim).

Definition process_hello_r (i : Initiator) (msg : HelloR) : Initiator * result SessionError (Auth * SessionState) :=
  let cfg := init_cfg i in
  match init_state i with
  | AwaitingHelloR hello_i eph_priv =>
    match accept_hello_r cfg hello_i eph_priv msg with
    | Ok (auth, session) => (mk_Initiator cfg (IEstablished session), Ok (auth, session))
    | Err e => (mk_Initiator cfg IFresh, Err e)
    end
  | _ => (mk_Initiator cfg IFresh, Err (Generic "not awaiting hello-r"))
  end.

(** ** Responder *)

Definition new_responder (cfg : SessionConfig) : Responder := mk_Responder cfg RFresh.
Definition responder_session (r : Responder) : option SessionState :=
  match resp_state r with REstablished s => Some s | _ => None end.

(** Suite negotiation: the first offered suite this peer accepts. *)
Definition choose_suite (cfg : SessionConfig) (msg : HelloI) : result SessionError string :=
  let our_supported := unwrap_or (c_supported_suites cfg) KNOWN_SESSION_SUITES in
  match i_supported_suites msg with
  | Some client_supports =>
    ok_or (List.find (fun s => existsb (fun o => (o =? s)%string) our_supported) client_supports)
      (Generic ("no mutually-supported suite (peer offered " +:+ debug_strings x client_supports +:+
        ", we support " +:+ debug_strings x our_supported +:+ ")"))
  | None =>
    if negb (existsb (fun s => (s =? i_suite msg)%string) our_supported)
    then Err (Generic ("unsupported suite " +:+ i_suite msg)) else Ok (i_suite msg)
  end.

(** [process_hello_i] in the fresh state: the reply and the shared secret. *)
Definition answer_hello_i (cfg : SessionConfig) (msg : HelloI) (rng : list Z) : result SessionError (HelloR * list Z) :=
  if negb (i_version msg =? SESSION_VERSION) then Err (Generic ("unsupported version " +:+ pretty (i_version msg)))
  else
    chosen ← choose_suite cfg msg;
    let eph := make_ephemeral (c_eph_seed cfg) rng in
    peer_eph ← decode_eph (i_eph_pub msg);
    let shared := x25519_diffie_hellman x (kp_private eph) peer_eph in
    let unsigned := mk_HelloR (b64encode (kp_public eph)) (b64encode (c_identity_pub cfg)) (Some chosen)
      (c_self_hint cfg) None (mldsa_pub_for chosen cfg) "" in
    transcript ← canonical_concat [hello_i_to_value msg; hello_r_to_value unsigned];
    let transcript_hash := digest_of transcript in
    let sig := ed25519_sign x (c_identity_priv cfg) transcript_hash in
    pq_sig ← sign_mldsa "responder" chosen (c_identity_mldsa_priv cfg) transcript_hash;
    Ok (mk_HelloR (r_eph_pub unsigned) (r_ident_pub unsigned) (r_selected_suite unsigned) (r_self_hint unsigned)
          pq_sig (r_ident_pub_mldsa unsigned) (b64encode sig), shared).

Definition process_hello_i (r : Responder) (msg : HelloI) (rng : list Z) : Responder * result SessionError HelloR :=
  match resp_state r with
  | RFresh =>
    match answer_hello_i (resp_cfg r) msg rng with
    | Ok (hello_r, shared) => (mk_Responder (resp_cfg r) (AwaitingAuth msg hello_r shared), Ok hello_r)
    | Err e => (r, Err e)
    end
  | _ => (r, Err (Generic "responder already engaged"))
  end.

(** [process_auth] once the awaiting state is taken out. *)
Definition accept_auth (cfg : SessionConfig) (hello_i : HelloI) (hello_r : HelloR) (shared : list Z) (msg : Auth) :
    result SessionError SessionState :=
  full_transcript ← canonical_concat
    [hello_i_to_value hello_i; hello_r_to_value hello_r; auth_to_value (auth_unsigned msg)];
  let full_hash := digest_of full_transcript in
  ident_pub ← decode64 (a_ident_pub msg);
  sig ← decode64 (a_signature msg);
  _ ← map_err (fun _ => Generic "initiator identity signature invalid") (ed25519_verify x ident_pub full_hash sig);
  let negotiated_suite := unwrap_or (r_selected_suite hello_r) (i_suite hello_i) in
  _ ← check_mldsa "initiator" "Auth" negotiated_suite (a_signature_mldsa msg) (a_ident_pub_mldsa msg) full_hash;
  session_id_bytes ← decode64 (i_session_id hello_i);
  peer ← map_err (fun e => Generic ("derive_peer_actor: " +:+ e)) (derive_peer_actor ident_pub);
  let peer_claim := opt_filter (fun s => negb (str_is_empty s)) (i_self_hint hello_i) in
  Ok (derive_with_claim RResponder shared session_id_bytes full_hash (c_self_actor cfg) peer peer_claim).

Definition process_auth (r : Responder) (msg : Auth) : Responder * result SessionError SessionState :=
  let cfg := resp_cfg r in
  match resp_state r with
  | AwaitingAuth hello_i hello_r shared =>
    match accept_auth cfg hello_i hello_r shared msg with
    | Ok session => (mk_Responder cfg (REstablished session), Ok session)
    | Err e => (mk_Responder cfg RFresh, Err e)
    end
  | _ => (mk_Responder cfg RFresh, Err (Generic "not awaiting auth"))
  end.

(** ** Frames *)

Definition nonce_for (seq : Z) : list Z := ([0; 0; 0; 0] ++ be_bytes 8 seq)%list.
Definition make_aad (length seq : Z) : list Z := (be_bytes 4 length ++ be_bytes 8 seq)%list.

Definition with_send_seq (s : SessionState) (n : Z) : SessionState :=
  mk_SessionState (self_actor s) (peer_actor s) (peer_actor_claim s) (session_id s) (generation s)
    (send_key s) (recv_key s) n (recv_seq s) (closed s) (pending_rekey_priv s).
Definition with_recv_seq (s : SessionState) (n : Z) : SessionState :=
  mk_SessionState (self_actor s) (peer_actor s) (peer_actor_claim s) (session_id s) (generation s)
    (send_key s) (recv_key s) (send_seq s) n (closed s) (pending_rekey_priv s).
Definition with_pending (s : SessionState) (p : option (list Z)) : SessionState :=
  mk_SessionState (self_actor s) (peer_actor s) (peer_actor_claim s) (session_id s) (generation s)
    (send_key s) (recv_key s) (send_seq s) (recv_seq s) (closed s) p.

(** [seq.wrapping_add(1)] on [u64]. *)
Definition next_seq (seq : Z) : Z := (seq + 1) mod 2 ^ 64.

(** The wire bytes of a frame under the state's sending key. *)
Definition seal_frame (s : SessionState) (frame : SessionFrame) : result SessionError (list Z) :=
  if closed s then Err (Generic "session is closed") else
  body ← canon (frame_to_value frame);
  let plaintext := bytes_of_str body in
  let seq := send_seq s in
  let len := 8 + Z.of_nat (length plaintext) + 16 in
  if 2 ^ 32 - 1 <? len then Err (Generic "frame too long") else
  let ct := chacha20poly1305_encrypt x (send_key s) (nonce_for seq) (make_aad len seq) plaintext in
  Ok (be_bytes 4 len ++ be_bytes 8 seq ++ ct)%list.
Definition encrypt (s : SessionState) (frame : SessionFrame) : SessionState * result SessionError (list Z) :=
  match seal_frame s frame with
  | Ok out => (with_send_seq s (next_seq (send_seq s)), Ok out)
  | Err e => (s, Err e)
  end.

(** The frame the wire bytes carry for the state's receiving key. *)
Definition open_frame (s : SessionState) (bytes : list Z) : result SessionError SessionFrame :=
  if closed s then Err (Generic "session is closed") else
  if (length bytes <? 12 + 16)%nat then Err (Generic "frame too short") else
  let len := of_be (take 4 bytes) in
  if negb (4 + len =? Z.of_nat (length bytes)) then Err (Generic "length mismatch") else
  let seq := of_be (take 8 (drop 4 bytes)) in
  if negb (seq =? recv_seq s)
  then Err (Generic ("out-of-order frame: got " +:+ pretty seq +:+ ", expected " +:+ pretty (recv_seq s))) else
  pt ← map_err (fun _ => Aead seq)
    (chacha20poly1305_decrypt x (recv_key s) (nonce_for seq) (make_aad len seq) (drop 12 bytes));
  value ← map_err Generic (json_from_slice x pt);
  map_err Generic (frame_from_value x value).
Definition decrypt (s : SessionState) (bytes : list Z) : SessionState * result SessionError SessionFrame :=
  match open_frame s bytes with
  | Ok frame => (with_recv_seq s (next_seq (recv_seq s)), Ok frame)
  | Err e => (s, Err e)
  end.

(** ** Rekeying *)

Definition hex_lower_32 (bytes : list Z) : string := hex bytes.

Definition rotate_keys (s : SessionState) (shared : list Z) : SessionState :=
  let send_is_lower := str_lt (hex_lower_32 (send_key s)) (hex_lower_32 (recv_key s)) in
  let lo := if send_is_lower then send_key s else recv_key s in
  let hi := if send_is_lower then recv_key s else send_key s in
  let prev_hash := sha256 x (lo ++ hi)%list in
  let next := (generation s + 1) mod 2 ^ 32 in
  let info := (bytes_of_str ("tf-session/v0/keys/g" +:+ pretty next) ++ prev_hash)%list in
  let ikm := hkdf_sha256 x shared (session_id s) info 64 in
  let k1 := take 32 ikm in
  let k2 := take 32 (drop 32 ikm) in
  let '(sk, rk) := if send_is_lower then (k1, k2) else (k2, k1) in
  mk_SessionState (self_actor s) (peer_actor s) (peer_actor_claim s) (session_id s) next
    sk rk 0 0 (closed s) (pending_rekey_priv s).

Definition request_rekey (s : SessionState) (seed : option (list Z)) (rng : list Z) :
    SessionState * result SessionError (list Z) :=
  let eph := make_ephemeral seed rng in
  encrypt (with_pending s (Some (kp_private eph))) (RekeyReq (b64encode (kp_public eph))).

Definition process_rekey_req (s : SessionState) (peer_eph_pub_b64 : string) (seed : option (list Z)) (rng : list Z) :
    SessionState * result SessionError (list Z) :=
  let eph := make_ephemeral seed rng in
  match decode_eph peer_eph_pub_b64 with
  | Err e => (s, Err e)
  | Ok peer_eph =>
    let shared := x25519_diffie_hellman x (kp_private eph) peer_eph in
    match encrypt s (RekeyAck (b64encode (kp_public eph))) with
    | (s', Ok ack) => (rotate_keys s' shared, Ok ack)
    | (s', Err e) => (s', Err e)
    end
  end.

Definition process_rekey_ack (s : SessionState) (peer_eph_pub_b64 : string) : SessionState * result SessionError unit :=
  let taken := with_pending s None in
  match pending_rekey_priv s with
  | None => (taken, Err (Generic "no pending rekey"))
  | Some pending =>
    match decode_eph peer_eph_pub_b64 with
    | Err e => (taken, Err e)
    | Ok peer_eph => (rotate_keys taken (x25519_diffie_hellman x pending peer_eph), Ok tt)
    end
  end.

End session.

End Session.
