(* ===== verification/SessionProofs.v ===== *)
(** * SessionProofs: what the session protocol guarantees

    Two endpoints whose states mirror each other behave as a pair of
    first-in-first-out queues of frames, each of which a frame that cannot be
    read blocks for good; the handshake leaves mirrored states
    and authenticates the peer; rekeying keeps them mirrored.  What the
    third-party code promises is [session_laws]. *)

From S2P Require Import Prelude Utf8 Json Base64 Crypto Cbor BinaryFormat Canonical CanonicalText Session.
Import BinaryFormat Canonical CanonicalText Crypto Session.

Module SessionProofs.
#[local] Open Scope string_scope.
#[local] Open Scope list_scope.
#[local] Open Scope Z_scope.

(** ** What the third-party code promises *)

Definition is_ascii (s : string) : Prop := Forall (fun b => b < 128) (bytes_of_str s).

(** Every string is well-formed UTF-8 and every integer fits [i64] or
    [u64]. *)
Fixpoint values_ok (v : json) : bool :=
  match v with
  | JNumber (NInt i) => (- 2 ^ 63 <=? i) && (i <? 2 ^ 64)
  | JString s => valid_utf8 (bytes_of_str s)
  | JArray l => forallb values_ok l
  | JObject fs => forallb (fun kv => valid_utf8 (bytes_of_str kv.1) && values_ok kv.2) fs
  | _ => true
  end.

(** The trees whose canonical text [serde_json] reads back: no doubles,
    distinct keys, values a [Value] holds, and nesting below the
    parser's recursion limit. *)
Definition readable (nfc : string -> string) (v : json) : Prop :=
  float_free v = true /\ json_ok (normal_json nfc v) /\ values_ok (normal_json nfc v) = true /\ (json_depth v < 128)%nat.

Record session_laws (x : session_lib) : Prop := {
  law_crypto : crypto_lib_laws x;
  (** ASCII text is in Unicode normal form. *)
  law_nfc_ascii : forall s, is_ascii s -> nfc x s = s;
  (** A JSON text is read as the tree it denotes. *)
  law_from_slice : forall v t, readable (nfc x) v -> canonicalize (nfc x) (show_f64 x) v = Ok t ->
    json_from_slice x (bytes_of_str t) = Ok (normal_json (nfc x) v);
  (** The derived reader inverts the derived writer, in any key order. *)
  law_from_value : forall f fs, fs ≡ₚ frame_fields f -> frame_from_value x (JObject fs) = Ok f
}.

(** The frame with its strings normalised, as the peer reads it. *)
Definition normal_frame (nfc : string -> string) (f : SessionFrame) : SessionFrame :=
  match f with
  | Data p => Data (normal_json nfc p)
  | RekeyReq e => RekeyReq (nfc e)
  | RekeyAck e => RekeyAck (nfc e)
  | Close r => Close (nfc <$> r)
  | Ping n => Ping (nfc n)
  | Pong n => Pong (nfc n)
  end.

(** ** Text *)

Lemma ascii_check s : forallb (fun b => b <? 128) (bytes_of_str s) = true -> is_ascii s.
Proof. intros H. rewrite forallb_forall in H. apply List.Forall_forall. intros b Hb. apply Z.ltb_lt. by apply H. Qed.

Lemma ascii_b64 bs : is_ascii (b64encode bs).
Proof.
  assert (H : Forall (fun b => 0 <= b < 128) (Base64.encode Base64.STANDARD bs)).
  { assert (Hs : forall i, 0 <= Base64.at_ (Base64.alphabet Base64.STANDARD) i < 128).
    { intros i. unfold Base64.at_. destruct (nth_in_or_default (Z.to_nat i) (Base64.alphabet Base64.STANDARD) 0) as [Hi| ->]; [|lia].
      revert Hi. generalize (nth (Z.to_nat i) (Base64.alphabet Base64.STANDARD) 0). intros z Hz.
      assert (Forall (fun b => 0 <= b < 128) (Base64.alphabet Base64.STANDARD)) as HF.
      { apply List.Forall_forall. intros b Hb. vm_compute in Hb. repeat (destruct Hb as [<-|Hb]; [lia|]). done. }
      rewrite List.Forall_forall in HF. by apply HF. }
    induction bs as [|a|a b|a b c bs IH] using list_ind3; cbn [Base64.encode];
      unfold Base64.symbol; repeat first [constructor | apply Hs | done]; unfold Base64.PAD; lia. }
  unfold is_ascii, b64encode. rewrite bytes_of_str_of_bytes.
  - eapply Forall_impl; [exact H|]. intros b. simpl. lia.
  - eapply Forall_impl; [exact H|]. intros b. unfold is_u8. simpl. lia.
Qed.

Section laws.
Context (x : session_lib) (L : session_laws x).

Lemma ascii_key k : is_ascii k -> nfc x k = k.
Proof. apply (law_nfc_ascii x L). Qed.

Lemma frame_normal f : exists fs,
  normal_json (nfc x) (frame_to_value f) = JObject fs /\ fs ≡ₚ frame_fields (normal_frame (nfc x) f).
Proof.
  cbn [frame_to_value normal_json]. eexists. split; [reflexivity|]. rewrite sort_entries_perm.
  destruct f as [p|e|e|[r|]|n|n]; cbn;
    repeat match goal with |- context [nfc x (String ?a ?b)] =>
      rewrite (ascii_key (String a b)) by (by apply ascii_check) end; done.
Qed.

Lemma canon_ok v : float_free v = true -> exists t,
  canonicalize (nfc x) (show_f64 x) v = Ok t /\ canon x v = Ok t.
Proof.
  intros H. destruct (canonical_readback (nfc x) (show_f64 x) v H) as (t & Ht & _).
  exists t. split; [exact Ht|]. unfold canon. by rewrite Ht.
Qed.

(** ** One frame *)

(** What the receiver makes of the text of a frame. *)
Definition reading (f : SessionFrame) : result SessionError SessionFrame :=
  t ← canon x (frame_to_value f);
  value ← map_err Generic (json_from_slice x (bytes_of_str t));
  map_err Generic (frame_from_value x value).

Lemma reading_readable f : readable (nfc x) (frame_to_value f) -> reading f = Ok (normal_frame (nfc x) f).
Proof using L.
  intros Hr. unfold reading. destruct (canon_ok (frame_to_value f)) as (t & Ht & ->); [apply Hr|]. cbn [mbind result_bind].
  rewrite (law_from_slice x L _ _ Hr Ht). cbn [map_err mbind result_bind].
  destruct (frame_normal f) as (fs & -> & Hfs). by rewrite (law_from_value x L _ _ Hfs).
Qed.

(** The wire bytes of a frame: a header and a ciphertext that opens to the
    text of the frame under the same key and sequence number. *)
Lemma seal_frame_inv s f w : seal_frame x s f = Ok w ->
  exists len ct t, w = (be_bytes 4 len ++ be_bytes 8 (send_seq s) ++ ct)%list /\ closed s = false /\
    0 <= len < 2 ^ 32 /\ 4 + len = Z.of_nat (length w) /\ (28 <= length w)%nat /\ canon x (frame_to_value f) = Ok t /\
    aead_open x (send_key s) (nonce_for (send_seq s)) (make_aad len (send_seq s)) ct = Some (bytes_of_str t).
Proof using L.
  unfold seal_frame. destruct (closed s); [discriminate|]. intros (t & Ht & H)%bind_ok. cbn beta zeta in H.
  destruct (Z.ltb_spec (2 ^ 32 - 1) (8 + Z.of_nat (length (bytes_of_str t)) + 16)) as [|Hlen]; [discriminate|].
  apply Ok_inj in H. destruct (law_seal x (law_crypto x L) (send_key s) (nonce_for (send_seq s))
    (make_aad (8 + Z.of_nat (length (bytes_of_str t)) + 16) (send_seq s)) (bytes_of_str t)) as [Hl Ho].
  eexists _, _, t. split; [symmetry; exact H|]. subst w. unfold chacha20poly1305_encrypt.
  rewrite !length_app, !length_be_bytes, Hl. repeat split; try lia; [exact Ht|exact Ho].
Qed.

Lemma take_header len seq (ct : list Z) :
  take 4 (be_bytes 4 len ++ be_bytes 8 seq ++ ct)%list = be_bytes 4 len /\
  take 8 (drop 4 (be_bytes 4 len ++ be_bytes 8 seq ++ ct)%list) = be_bytes 8 seq /\
  drop 12 (be_bytes 4 len ++ be_bytes 8 seq ++ ct)%list = ct.
Proof. repeat split. Qed.

Definition out_of_order (got expected : Z) : SessionError :=
  Generic ("out-of-order frame: got " +:+ pretty got +:+ ", expected " +:+ pretty expected).

(** Whatever the frame, its bytes pass every check of the receiver that holds
    the key, up to the sequence number and the reading of the text. *)
Lemma open_any s r f w : 0 <= send_seq s < 2 ^ 64 -> seal_frame x s f = Ok w -> closed r = false -> recv_key r = send_key s ->
  open_frame x r w = if send_seq s =? recv_seq r then reading f else Err (out_of_order (send_seq s) (recv_seq r)).
Proof using L.
  intros Hseq (len & ct & t & Hw & _ & Hlen & Hlw & H28 & Ht & Ho)%seal_frame_inv Hc Hk.
  unfold open_frame. rewrite Hc. destruct (Nat.ltb_spec (length w) (12 + 16)) as [|_]; [lia|].
  subst w. destruct (take_header len (send_seq s) ct) as (-> & -> & ->).
  rewrite !of_be_bytes_small by (cbn; lia). rewrite Hlw, Z.eqb_refl. cbn [negb].
  destruct (Z.eqb_spec (send_seq s) (recv_seq r)) as [Heq|Hne]; cbn [negb]; [|done].
  unfold chacha20poly1305_decrypt, reading. by rewrite Hk, Ho, Ht.
Qed.

Lemma open_sealed s r f w : readable (nfc x) (frame_to_value f) -> 0 <= send_seq s < 2 ^ 64 ->
  seal_frame x s f = Ok w -> closed r = false -> recv_key r = send_key s ->
  open_frame x r w =
    if send_seq s =? recv_seq r then Ok (normal_frame (nfc x) f) else Err (out_of_order (send_seq s) (recv_seq r)).
Proof using L. intros Hr Hseq Hw Hc Hk. by rewrite (open_any s r f w), reading_readable by done. Qed.

(** ** Sequence numbers *)

Lemma next_seq_ok n : 0 <= next_seq n < 2 ^ 64.
Proof. apply Z.mod_pos_bound. lia. Qed.

Lemma next_seq_ne n : 0 <= n < 2 ^ 64 -> next_seq n <> n.
Proof.
  intros H. unfold next_seq. destruct (Z.eq_dec (n + 1) (2 ^ 64)) as [E|]; [rewrite E, Z.mod_same; lia|].
  rewrite Z.mod_small; lia.
Qed.

Lemma wrap_once n : 2 ^ 64 <= n < 2 * 2 ^ 64 -> n mod 2 ^ 64 = n - 2 ^ 64.
Proof. intros H. symmetry. apply (Zmod_unique n (2 ^ 64) 1); lia. Qed.

Lemma encrypt_ok s f s' w : encrypt x s f = (s', Ok w) <->
  seal_frame x s f = Ok w /\ s' = with_send_seq s (next_seq (send_seq s)).
Proof. clear L. unfold encrypt. destruct (seal_frame x s f); split; naive_solver. Qed.

Lemma decrypt_ok s w f : open_frame x s w = Ok f ->
  decrypt x s w = (with_recv_seq s (next_seq (recv_seq s)), Ok f).
Proof. clear L. unfold decrypt. by intros ->. Qed.

End laws.

(** ** Two endpoints and the frames between them *)

(** The endpoints are open, hold each other's keys and agree on the sequence
    numbers. *)
Record mirror (a b : SessionState) : Prop := {
  mirror_open : closed a = false /\ closed b = false;
  mirror_keys : send_key a = recv_key b /\ send_key b = recv_key a;
  mirror_seqs : send_seq a = recv_seq b /\ send_seq b = recv_seq a;
  mirror_range : 0 <= send_seq a < 2 ^ 64 /\ 0 <= send_seq b < 2 ^ 64
}.

Inductive dir := AtoB | BtoA.
Inductive event :=
| Sent (d : dir) (f : SessionFrame)
| Received (d : dir) (r : result SessionError SessionFrame).

(** The program: two session states and the wire bytes on their way. *)
Record system := mk_system {
  end_a : SessionState; end_b : SessionState; wire_ab : list (list Z); wire_ba : list (list Z)
}.

Inductive step (x : session_lib) : system -> event -> system -> Prop :=
| send_a a b p q f a' w : encrypt x a f = (a', Ok w) ->
    step x (mk_system a b p q) (Sent AtoB f) (mk_system a' b (p ++ [w]) q)
| send_b a b p q f b' w : encrypt x b f = (b', Ok w) ->
    step x (mk_system a b p q) (Sent BtoA f) (mk_system a b' p (q ++ [w]))
| recv_b a b w p q b' r : decrypt x b w = (b', r) ->
    step x (mk_system a b (w :: p) q) (Received AtoB r) (mk_system a b' p q)
| recv_a a b w p q a' r : decrypt x a w = (a', r) ->
    step x (mk_system a b p (w :: q)) (Received BtoA r) (mk_system a' b p q).

(** The specification, when every frame can be read: two queues of frames. *)
Definition channel : Type := list SessionFrame * list SessionFrame.

Inductive chan_step (nfc : string -> string) : channel -> event -> channel -> Prop :=
| chan_send_ab p q f : chan_step nfc (p, q) (Sent AtoB f) (p ++ [normal_frame nfc f], q)
| chan_send_ba p q f : chan_step nfc (p, q) (Sent BtoA f) (p, q ++ [normal_frame nfc f])
| chan_recv_ab p q f : chan_step nfc (f :: p, q) (Received AtoB (Ok f)) (p, q)
| chan_recv_ba p q f : chan_step nfc (p, f :: q) (Received BtoA (Ok f)) (p, q).

(** The specification for all frames.  A lane is the queue of one direction
    and whether it is stuck: the receiver gets what it makes of the oldest
    frame, and once that is an error nothing else gets through. *)
Definition lane : Type := list SessionFrame * bool.
Inductive lane_recv (x : session_lib) : lane -> result SessionError SessionFrame -> lane -> Prop :=
| lane_reads f p g : reading x f = Ok g -> lane_recv x (f :: p, false) (Ok g) (p, false)
| lane_fails f p e : reading x f = Err e -> lane_recv x (f :: p, false) (Err e) (p, true)
| lane_stuck f p got expected : got <> expected -> lane_recv x (f :: p, true) (Err (out_of_order got expected)) (p, true).
Inductive lane_step (x : session_lib) : lane * lane -> event -> lane * lane -> Prop :=
| lane_send_ab p sp q f : lane_step x ((p, sp), q) (Sent AtoB f) ((p ++ [f], sp), q)
| lane_send_ba p q sq f : lane_step x (p, (q, sq)) (Sent BtoA f) (p, (q ++ [f], sq))
| lane_recv_ab p p' q r : lane_recv x p r p' -> lane_step x (p, q) (Received AtoB r) (p', q)
| lane_recv_ba p q q' r : lane_recv x q r q' -> lane_step x (p, q) (Received BtoA r) (p, q').

Inductive steps {S : Type} (R : S -> event -> S -> Prop) : S -> list event -> S -> Prop :=
| steps_nil s : steps R s [] s
| steps_cons s e t es u : R s e t -> steps R t es u -> steps R s (e :: es) u.

Section refinement.
Context (x : session_lib) (L : session_laws x).

(** The bytes [ws], numbered from [seq], carry the frames [fs] under [key]. *)
Fixpoint in_flight (key : list Z) (seq : Z) (ws : list (list Z)) (fs : list SessionFrame) : Prop :=
  match ws, fs with
  | [], [] => True
  | w :: ws', f :: fs' =>
    (forall r, closed r = false -> recv_key r = key -> recv_seq r = seq -> open_frame x r w = Ok f) /\
    in_flight key (next_seq seq) ws' fs'
  | _, _ => False
  end.

(** One direction of the simulation relation. *)
Definition conveys (s r : SessionState) (ws : list (list Z)) (fs : list SessionFrame) : Prop :=
  closed s = false /\ closed r = false /\ send_key s = recv_key r /\ 0 <= send_seq s < 2 ^ 64 /\
  send_seq s = Nat.iter (length ws) next_seq (recv_seq r) /\ in_flight (recv_key r) (recv_seq r) ws fs.

Lemma in_flight_snoc key seq ws fs w f : in_flight key seq ws fs ->
  (forall r, closed r = false -> recv_key r = key -> recv_seq r = Nat.iter (length ws) next_seq seq ->
    open_frame x r w = Ok f) ->
  in_flight key seq (ws ++ [w]) (fs ++ [f]).
Proof.
  revert seq fs; induction ws as [|w0 ws IH]; intros seq [|f0 fs]; try done.
  intros [H0 H] Hw. split; [done|]. apply IH; [done|]. intros r Hc Hk Hs. apply Hw; [done..|].
  rewrite Hs. cbn [length]. rewrite Nat.iter_succ_r. done.
Qed.

Lemma conveys_send s r ws fs f s' w : readable (nfc x) (frame_to_value f) -> conveys s r ws fs ->
  encrypt x s f = (s', Ok w) -> conveys s' r (ws ++ [w]) (fs ++ [normal_frame (nfc x) f]).
Proof.
  intros Hr (Hs & Hc & Hk & Hrange & Hseq & Hfl) [Hw ->]%encrypt_ok.
  repeat split; cbn [closed send_key send_seq with_send_seq]; try done; try apply next_seq_ok.
  - rewrite length_app, Nat.add_comm. cbn. by rewrite Hseq.
  - apply in_flight_snoc; [done|]. intros r' Hc' Hk' Hs'.
    rewrite (open_sealed x L s r' f w) by (done || congruence). by rewrite Hs', <- Hseq, Z.eqb_refl.
Qed.

Lemma conveys_recv s r w ws fs : conveys s r (w :: ws) fs -> exists f fs', fs = f :: fs' /\
  decrypt x r w = (with_recv_seq r (next_seq (recv_seq r)), Ok f) /\
  conveys s (with_recv_seq r (next_seq (recv_seq r))) ws fs'.
Proof.
  intros (Hs & Hc & Hk & Hrange & Hseq & Hfl). destruct fs as [|f fs]; [done|]. destruct Hfl as [Hw Hfl].
  exists f, fs. split; [done|]. split; [by apply decrypt_ok, Hw|].
  repeat split; cbn [closed recv_key recv_seq with_recv_seq]; try done; [apply Hrange..|].
  cbn [length] in Hseq. by rewrite Nat.iter_succ_r in Hseq.
Qed.

Lemma conveys_length s r ws fs : conveys s r ws fs -> length ws = length fs.
Proof.
  intros (_ & _ & _ & _ & _ & H). revert fs H. generalize (recv_seq r).
  induction ws as [|w ws IH]; intros n [|f fs]; try done. intros [_ H]. cbn. by rewrite (IH _ fs H).
Qed.

(** Sending and receiving at one end leave the other direction alone. *)
Lemma conveys_frame s r s' r' ws fs : conveys s r ws fs ->
  closed s' = closed s -> send_key s' = send_key s -> send_seq s' = send_seq s ->
  closed r' = closed r -> recv_key r' = recv_key r -> recv_seq r' = recv_seq r -> conveys s' r' ws fs.
Proof. unfold conveys. by intros H -> -> -> -> -> ->. Qed.

Definition simulates (s : system) (c : channel) : Prop :=
  conveys (end_a s) (end_b s) (wire_ab s) c.1 /\ conveys (end_b s) (end_a s) (wire_ba s) c.2.

(** The frame an event sends can be read. *)
Definition sends_readable (e : event) : Prop := match e with Sent _ f => readable (nfc x) (frame_to_value f) | Received _ _ => True end.

Lemma step_simulated s e t c : simulates s c -> step x s e t -> sends_readable e ->
  exists d, chan_step (nfc x) c e d /\ simulates t d.
Proof.
  destruct c as [p q]. intros [Hab Hba] H Hr. destruct H as [a b ws us f a' w He|a b ws us f b' w He
    |a b w ws us b' r He|a b w ws us a' r He]; cbn [end_a end_b wire_ab wire_ba fst snd sends_readable] in *.
  - exists (p ++ [normal_frame (nfc x) f], q). split; [constructor|].
    split; [by eapply conveys_send|]. apply encrypt_ok in He as [_ ->]. by eapply conveys_frame.
  - exists (p, q ++ [normal_frame (nfc x) f]). split; [constructor|].
    split; [|by eapply conveys_send]. apply encrypt_ok in He as [_ ->]. by eapply conveys_frame.
  - apply conveys_recv in Hab as (f & p' & -> & Hd & Hab'). rewrite Hd in He. injection He as <- <-.
    exists (p', q). split; [constructor|]. split; [done|]. by eapply conveys_frame.
  - apply conveys_recv in Hba as (f & q' & -> & Hd & Hba'). rewrite Hd in He. injection He as <- <-.
    exists (p, q'). split; [constructor|]. split; [|done]. by eapply conveys_frame.
Qed.

Lemma mirror_simulates a b : mirror a b -> simulates (mk_system a b [] []) ([], []).
Proof. intros [[? ?] [? ?] [? ?] [? ?]]. split; (do 5 (split; [done|]); exact I). Qed.

Lemma steps_simulated s es t c : simulates s c -> steps (step x) s es t -> Forall sends_readable es ->
  exists d, steps (chan_step (nfc x)) c es d /\ simulates t d.
Proof.
  intros Hs H. revert c Hs. induction H as [s|s e t es u He _ IH]; intros c Hs Hr; [exists c; split; [constructor|done]|].
  apply Forall_cons in Hr as [Hr1 Hr]. destruct (step_simulated s e t c Hs He Hr1) as (d & Hd & Ht). destruct (IH d Ht Hr) as (d' & Hd' & Hu).
  exists d'. split; [by econstructor|done].
Qed.
End refinement.

(** ** All frames *)

Lemma iter_next_seq k n : 0 <= n < 2 ^ 64 -> Nat.iter k next_seq n = (n + Z.of_nat k) mod 2 ^ 64.
Proof.
  intros Hn. induction k as [|k IH]; [rewrite Z.add_0_r, Z.mod_small; done|].
  rewrite Nat.iter_succ, IH. unfold next_seq. rewrite Zplus_mod_idemp_l. f_equal. lia.
Qed.

Lemma iter_next_seq_ne k n : 0 <= n < 2 ^ 64 -> 0 < Z.of_nat k < 2 ^ 64 -> Nat.iter k next_seq n <> n.
Proof.
  intros Hn Hk. rewrite iter_next_seq by done. destruct (Z.lt_ge_cases (n + Z.of_nat k) (2 ^ 64)).
  - rewrite Z.mod_small; lia.
  - rewrite wrap_once by lia. lia.
Qed.

Section lanes.
Context (x : session_lib) (L : session_laws x).

(** The bytes [ws], numbered from [seq], are those of the frames [fs]. *)
Fixpoint carries (key : list Z) (seq : Z) (ws : list (list Z)) (fs : list SessionFrame) : Prop :=
  match ws, fs with
  | [], [] => True
  | w :: ws', f :: fs' =>
    (forall r, closed r = false -> recv_key r = key ->
       open_frame x r w = if seq =? recv_seq r then reading x f else Err (out_of_order seq (recv_seq r))) /\
    carries key (next_seq seq) ws' fs'
  | _, _ => False
  end.

Lemma carries_snoc key seq ws fs w f : carries key seq ws fs ->
  (forall r, closed r = false -> recv_key r = key -> open_frame x r w =
     if Nat.iter (length ws) next_seq seq =? recv_seq r then reading x f else Err (out_of_order (Nat.iter (length ws) next_seq seq) (recv_seq r))) ->
  carries key seq (ws ++ [w]) (fs ++ [f]).
Proof.
  revert seq fs; induction ws as [|w0 ws IH]; intros seq [|f0 fs]; try done.
  intros [H0 H] Hw. split; [done|]. apply IH; [done|]. intros r Hc Hk. rewrite (Hw r Hc Hk). cbn [length]. by rewrite Nat.iter_succ_r.
Qed.

(** One direction: the receiver expects the oldest frame, or lags behind it by
    the [k] frames it could not take since it is stuck. *)
Definition lane_inv (n : nat) (s r : SessionState) (ws : list (list Z)) (l : lane) : Prop :=
  closed s = false /\ closed r = false /\ send_key s = recv_key r /\ 0 <= recv_seq r < 2 ^ 64 /\
  exists k, (if l.2 then 0 < k else k = 0)%nat /\ (k + length ws <= n)%nat /\
    send_seq s = Nat.iter (length ws + k) next_seq (recv_seq r) /\
    carries (recv_key r) (Nat.iter k next_seq (recv_seq r)) ws l.1.

Lemma lane_inv_mono n m s r ws l : lane_inv n s r ws l -> (n <= m)%nat -> lane_inv m s r ws l.
Proof. intros (? & ? & ? & ? & k & ? & ? & ? & ?) Hm. do 4 (split; [done|]). exists k. split_and!; try done; lia. Qed.

Lemma lane_inv_frame n s r s' r' ws l : lane_inv n s r ws l ->
  closed s' = closed s -> send_key s' = send_key s -> send_seq s' = send_seq s ->
  closed r' = closed r -> recv_key r' = recv_key r -> recv_seq r' = recv_seq r -> lane_inv n s' r' ws l.
Proof. unfold lane_inv. by intros H -> -> -> -> -> ->. Qed.

Lemma lane_inv_length n s r ws l : lane_inv n s r ws l -> length ws = length l.1.
Proof.
  intros (_ & _ & _ & _ & k & _ & _ & _ & H). revert H. generalize (Nat.iter k next_seq (recv_seq r)). generalize l.1. clear.
  induction ws as [|w ws IH]; intros [|f fs] m; try done. intros [_ H]. cbn. by rewrite (IH _ _ H).
Qed.

Lemma lane_sends n s r ws p st f s' w : lane_inv n s r ws (p, st) -> encrypt x s f = (s', Ok w) ->
  lane_inv (S n) s' r (ws ++ [w]) (p ++ [f], st).
Proof using L.
  intros (Hs & Hc & Hk & Hr & k & Hst & Hn & Hseq & Hca) [Hw ->]%encrypt_ok. do 4 (split; [done|]). cbn [fst snd] in *.
  exists k. rewrite length_app. cbn [length send_seq with_send_seq]. split_and!; [done|lia| |].
  - replace (length ws + 1 + k)%nat with (S (length ws + k)) by lia. by rewrite Hseq.
  - apply carries_snoc; [done|]. intros r' Hc' Hk'. rewrite <- Nat.iter_add, <- Hseq. apply (open_any x L s r' f w); [|done|done|congruence].
    rewrite Hseq, iter_next_seq by done. apply Z.mod_pos_bound. lia.
Qed.

Lemma lane_receives n s r w ws l r' o : lane_inv n s r (w :: ws) l -> Z.of_nat n < 2 ^ 64 -> decrypt x r w = (r', o) ->
  exists l', lane_recv x l o l' /\ lane_inv n s r' ws l' /\ closed r' = closed r /\ send_key r' = send_key r /\ send_seq r' = send_seq r.
Proof.
  destruct l as [[|f p] st]; intros (Hs & Hc & Hk & Hr & k & Hst & Hn & Hseq & Hca) Hb Hd; [done|]. destruct Hca as [Hw Hca].
  cbn [fst snd length] in *. unfold decrypt in Hd. rewrite (Hw r Hc eq_refl) in Hd.
  replace (S (length ws) + k)%nat with (length ws + S k)%nat in Hseq by lia.
  assert (forall m, lane_inv m s r ws (p, true) <-> (S k + length ws <= m)%nat \/ lane_inv m s r ws (p, true)) as Hstuck.
  { intros m. split; [by right|]. intros [Hm|?]; [|done]. do 4 (split; [done|]). exists (S k). split_and!; [cbn; lia|done|done|exact Hca]. }
  destruct st.
  - assert (Nat.iter k next_seq (recv_seq r) <> recv_seq r) as Hne by (apply iter_next_seq_ne; [done|lia]).
    rewrite (proj2 (Z.eqb_neq _ _)) in Hd by done. injection Hd as <- <-. exists (p, true). split; [by constructor|]. split; [apply Hstuck; left; lia|done].
  - subst k. cbn [Nat.iter nat_rect] in *. rewrite Z.eqb_refl in Hd. destruct (reading x f) as [g|e] eqn:E; injection Hd as <- <-.
    + exists (p, false). split; [by constructor|]. split; [|done]. unfold lane_inv. cbn [closed recv_key recv_seq with_recv_seq fst snd].
      do 3 (split; [done|]). split; [apply next_seq_ok|]. exists 0%nat. split_and!; [done|lia| |exact Hca].
      by rewrite Nat.add_0_r, Hseq, Nat.add_1_r, Nat.iter_succ_r.
    + exists (p, true). split; [by constructor|]. split; [apply Hstuck; left; lia|done].
Qed.

Definition lanes_inv (n : nat) (s : system) (c : lane * lane) : Prop :=
  lane_inv n (end_a s) (end_b s) (wire_ab s) c.1 /\ lane_inv n (end_b s) (end_a s) (wire_ba s) c.2.

Lemma lanes_step n s e t c : Z.of_nat n < 2 ^ 64 -> lanes_inv n s c -> step x s e t -> exists d, lane_step x c e d /\ lanes_inv (S n) t d.
Proof using L.
  destruct c as [[p sp] [q sq]]. intros Hn [Hab Hba] H. assert (n <= S n)%nat as Hle by lia.
  destruct H as [a b ws us f a' w He|a b ws us f b' w He|a b w ws us b' r He|a b w ws us a' r He]; cbn [end_a end_b wire_ab wire_ba fst snd] in *.
  - eexists. split; [constructor|]. split; [by eapply lane_sends|]. apply encrypt_ok in He as [_ ->]. eapply lane_inv_mono; [|exact Hle]. by eapply lane_inv_frame.
  - eexists. split; [constructor|]. split; [|by eapply lane_sends]. apply encrypt_ok in He as [_ ->]. eapply lane_inv_mono; [|exact Hle]. by eapply lane_inv_frame.
  - destruct (lane_receives _ _ _ _ _ _ _ _ Hab Hn He) as (l & Hl & Hi & H1 & H2 & H3). exists (l, (q, sq)). split; [by constructor|].
    split; cbn; (eapply lane_inv_mono; [|exact Hle]); [done|]. by eapply lane_inv_frame.
  - destruct (lane_receives _ _ _ _ _ _ _ _ Hba Hn He) as (l & Hl & Hi & H1 & H2 & H3). exists ((p, sp), l). split; [by constructor|].
    split; cbn; (eapply lane_inv_mono; [|exact Hle]); [|done]. by eapply lane_inv_frame.
Qed.

Lemma lanes_steps s es t : steps (step x) s es t -> forall n c, lanes_inv n s c -> Z.of_nat (n + length es) <= 2 ^ 64 ->
  exists d, steps (lane_step x) c es d /\ lanes_inv (n + length es) t d.
Proof using L.
  induction 1 as [s|s e t es u He _ IH]; intros n c Hs Hn; cbn [length] in *.
  - exists c. rewrite Nat.add_0_r. split; [constructor|done].
  - destruct (lanes_step n s e t c) as (d & Hd & Ht); [lia|done..|]. destruct (IH (S n) d Ht) as (d' & Hd' & Hu); [lia|].
    exists d'. split; [by econstructor|]. by rewrite Nat.add_succ_r.
Qed.

Lemma mirror_lanes a b : mirror a b -> lanes_inv 0 (mk_system a b [] []) (([], false), ([], false)).
Proof.
  intros [[? ?] [? ?] [E1 E2] [? ?]]. split; (do 3 (split; [done|])); cbn.
  - split; [by rewrite <- E1|]. by exists 0%nat.
  - split; [by rewrite <- E2|]. by exists 0%nat.
Qed.
End lanes.

(** ** Concrete third-party code for the witnesses *)

Definition frame_of_value (v : json) : result string SessionFrame :=
  ok_or (kind ← jget "kind" v ≫= as_str;
    let str k := jget k v ≫= as_str in
    if (kind =? "data")%string then Data <$> jget "payload" v
    else if (kind =? "rekey-req")%string then RekeyReq <$> str "eph_pub"
    else if (kind =? "rekey-ack")%string then RekeyAck <$> str "eph_pub"
    else if (kind =? "close")%string then Some (Close (str "reason"))
    else if (kind =? "ping")%string then Ping <$> str "nonce"
    else if (kind =? "pong")%string then Pong <$> str "nonce"
    else None) "unknown frame".

Definition toy_session : session_lib :=
  mk_session_lib toy_lib id (fun _ => "") (fun _ => "")
    (fun bs => ok_or (read_json (str_of_bytes bs)) "bad json") frame_of_value.

Lemma toy_session_laws : session_laws toy_session.
Proof.
  split.
  - apply toy_lib_laws.
  - done.
  - intros v t [Hff _] Ht. destruct (canonical_readback id (fun _ => "") v Hff) as (t' & Ht' & Hr).
    cbn [nfc show_f64 toy_session] in Ht. rewrite Ht' in Ht. injection Ht as <-.
    cbn [json_from_slice toy_session]. rewrite str_of_bytes_of_str, Hr. done.
  - intros f fs H. destruct f as [p|e|e|[r|]|n|n]; cbn in H;
      first [ apply Permutation_sym, Permutation_length_2_inv in H as [-> | ->]
            | apply Permutation_sym, Permutation_length_1_inv in H as -> ]; reflexivity.
Qed.

(** C4: Two endpoints with mirrored states are a pair of ordered channels.
    Whatever the two ends send and whenever they receive, up to 2^64 events,
    each direction is a queue from which the receiver gets, for the oldest
    frame, what reading its canonical text gives; no check before that,
    decryption included, ever fails.  If the text of a frame cannot be read
    (because it is nested 128 deep, for instance), the direction is stuck:
    this frame and all later ones are refused.  If every frame that is sent
    is readable, that is without doubles, with distinct keys and nested less
    than 128 deep, then the channels are reliable: every receive succeeds
    with the oldest frame sent and not yet received, its strings normalised.
    The bytes on their way are as many as the frames still to be received. *)
Theorem session_refines_channel x a b es t
    (L : session_laws x) (Hm : mirror a b) (Hs : steps (step x) (mk_system a b [] []) es t) (Hn : Z.of_nat (length es) <= 2 ^ 64) :
  (exists p sp q sq, steps (lane_step x) (([], false), ([], false)) es ((p, sp), (q, sq)) /\
    length (wire_ab t) = length p /\ length (wire_ba t) = length q) /\
  (Forall (sends_readable x) es -> exists p q, steps (chan_step (nfc x)) ([], []) es (p, q) /\
    length (wire_ab t) = length p /\ length (wire_ba t) = length q).
Proof.
  split.
  - destruct (lanes_steps x L _ es t Hs 0 _ (mirror_lanes x a b Hm) Hn) as ([[p sp] [q sq]] & Hc & Hab & Hba).
    exists p, sp, q, sq. split; [done|]. split; [exact (lane_inv_length _ _ _ _ _ _ Hab)|exact (lane_inv_length _ _ _ _ _ _ Hba)].
  - intros Hr. destruct (steps_simulated x L _ es t _ (mirror_simulates x a b Hm) Hs Hr) as ([p q] & Hc & Hab & Hba).
    exists p, q. split; [done|]. split; by eapply conveys_length.
Qed.

(** Mirrored endpoints under the toy library, and a short conversation. *)
Definition key_of (b : Z) : list Z := repeat b 32.
Definition endpoint (self : string) (sk rk : list Z) : SessionState :=
  mk_SessionState self "peer" None [1; 2; 3] 0 sk rk 0 0 false None.
Definition alice : SessionState := endpoint "a" (key_of 1) (key_of 2).
Definition bob : SessionState := endpoint "b" (key_of 2) (key_of 1).

Lemma alice_bob_mirror : mirror alice bob.
Proof. split; repeat split; cbn; lia. Qed.

(** A frame, its wire bytes and the state after sending it. *)
Definition sent_by (s : SessionState) (f : SessionFrame) : SessionState * list Z :=
  match encrypt toy_session s f with (s', Ok w) => (s', w) | (s', Err _) => (s', []) end.

Ltac readable_tac :=
  split; [vm_compute; reflexivity|split; [split; [apply (bool_decide_unpack _); vm_compute; exact I|vm_compute; tauto]|
    split; [vm_compute; reflexivity|vm_compute; lia]]].

Definition talk : list event := [Sent AtoB (Ping "n1"); Sent AtoB (Ping "n2"); Received AtoB (Ok (Ping "n1"))].
Lemma session_refines_channel_witness :
  (exists p sp q sq, steps (lane_step toy_session) (([], false), ([], false)) talk ((p, sp), (q, sq)) /\ length p = 1%nat /\ length q = 0%nat) /\
  (exists p q, steps (chan_step id) ([], []) talk (p, q) /\ length p = 1%nat /\ length q = 0%nat).
Proof.
  pose (s1 := sent_by alice (Ping "n1")). pose (s2 := sent_by s1.1 (Ping "n2")).
  destruct (session_refines_channel toy_session alice bob talk
    (mk_system s2.1 (decrypt toy_session bob s1.2).1 [s2.2] []) toy_session_laws alice_bob_mirror) as [H1 H2].
  - econstructor; [apply send_a with (w := s1.2) (a' := s1.1); vm_compute; reflexivity|].
    econstructor; [apply send_a with (w := s2.2) (a' := s2.1); vm_compute; reflexivity|].
    econstructor; [apply recv_b; vm_compute; reflexivity|constructor].
  - cbn. lia.
  - split.
    + destruct H1 as (p & sp & q & sq & Hs & Hp & Hq). exists p, sp, q, sq. split; [exact Hs|]. by rewrite <- Hp, <- Hq.
    + destruct H2 as (p & q & Hs & Hp & Hq); [|exists p, q; split; [exact Hs|]; by rewrite <- Hp, <- Hq].
      apply Forall_cons_2; [readable_tac|]. apply Forall_cons_2; [readable_tac|]. apply Forall_cons_2; [exact I|apply Forall_nil_2].
Defined.

(** A reader with serde_json's recursion limit: a frame with 128 nested
    arrays is encrypted, the peer refuses it, and then everything after it. *)
Definition shallow_session : session_lib :=
  mk_session_lib toy_lib id (fun _ => "") (fun _ => "")
    (fun bs => match read_json (str_of_bytes bs) with
       | Some v => if (json_depth v <? 128)%nat then Ok v else Err "recursion limit exceeded"
       | None => Err "bad json" end) frame_of_value.
Definition deep : json := Nat.iter 127 (fun v => JArray [v]) (JArray []).
Definition wire_bytes (r : result SessionError (list Z)) : list Z := match r with Ok w => w | Err _ => [] end.
Example deep_frame_blocks :
  let '(a1, w1) := encrypt shallow_session alice (Data deep) in
  let '(a2, w2) := encrypt shallow_session a1 (Ping "n") in
  let '(b1, r1) := decrypt shallow_session bob (wire_bytes w1) in
  let '(b2, r2) := decrypt shallow_session b1 (wire_bytes w2) in
  is_ok w1 = true /\ is_ok w2 = true /\ r1 = Err (Generic "recursion limit exceeded") /\ r2 = Err (out_of_order 1 0).
Proof. vm_compute. auto. Qed.

(** ** Replays *)

(** The states reached by accepting the frames [ws] one after the other. *)
Inductive accepts (x : session_lib) : SessionState -> list (list Z) -> SessionState -> Prop :=
| accepts_nil s : accepts x s [] s
| accepts_cons s w f t ws u : decrypt x s w = (t, Ok f) -> accepts x t ws u -> accepts x s (w :: ws) u.

(** The sequence number in a frame's header. *)
Definition header_seq (w : list Z) : Z := of_be (take 8 (drop 4 w)).

Lemma decrypt_seq x s w t f : decrypt x s w = (t, Ok f) ->
  header_seq w = recv_seq s /\ recv_seq t = next_seq (recv_seq s).
Proof.
  unfold decrypt. destruct (open_frame x s w) as [f'|] eqn:E; [|discriminate]. intros [= <- ->].
  split; [|done]. unfold open_frame in E. do 3 (case_test; [discriminate E|]).
  destruct (Z.eqb_spec (of_be (take 8 (drop 4 w))) (recv_seq s)); [done|discriminate E].
Qed.

Lemma accepts_seq x s ws t i w : accepts x s ws t -> ws !! i = Some w ->
  header_seq w = Nat.iter i next_seq (recv_seq s).
Proof.
  intros H. revert i; induction H as [|s w' f t ws u Hd _ IH]; intros i Hi; [done|].
  apply decrypt_seq in Hd as [Hh Ht]. destruct i as [|i]; [by injection Hi as <-|].
  rewrite Nat.iter_succ_r, <- Ht. by apply IH.
Qed.

(** A receiving endpoint accepts no frame twice.  In any run of up to
    2^64 accepted frames (beyond which the sequence number wraps) the frames
    are pairwise different, whoever produced them. *)
Theorem accepted_frames_distinct x s ws t
    (Hr : 0 <= recv_seq s < 2 ^ 64) (Ha : accepts x s ws t) (Hn : Z.of_nat (length ws) <= 2 ^ 64) : NoDup ws.
Proof.
  apply NoDup_alt. intros i j w Hi Hj.
  pose proof (lookup_lt_Some _ _ _ Hi). pose proof (lookup_lt_Some _ _ _ Hj).
  pose proof (accepts_seq x s ws t i w Ha Hi) as E. rewrite (accepts_seq x s ws t j w Ha Hj) in E.
  rewrite !iter_next_seq in E by done. clear Ha Hi Hj.
  set (n := recv_seq s) in *. clearbody n.
  destruct (Z.lt_ge_cases (n + Z.of_nat i) (2 ^ 64)), (Z.lt_ge_cases (n + Z.of_nat j) (2 ^ 64));
    rewrite ?(Z.mod_small (n + Z.of_nat i)), ?(Z.mod_small (n + Z.of_nat j)) in E by lia; try lia.
  all: rewrite ?wrap_once in E by lia; lia.
Qed.



Lemma accepted_frames_distinct_witness :
  let s1 := sent_by alice (Ping "n1") in let s2 := sent_by s1.1 (Ping "n2") in NoDup [s1.2; s2.2].
Proof.
  intros s1 s2.
  apply (accepted_frames_distinct toy_session bob [s1.2; s2.2]
    (decrypt toy_session (decrypt toy_session bob s1.2).1 s2.2).1); [cbn; lia| |cbn; lia].
  econstructor; [vm_compute; reflexivity|]. econstructor; [vm_compute; reflexivity|]. constructor.
Defined.

End SessionProofs.
