(* ===== verification/Handshake.v ===== *)
(** * Handshake: agreement, authentication and rekeying of sessions

    Theorems about the handshake and the rekey exchange of [Session]: the
    transcript both sides sign determines the messages, an honest run leaves
    mirrored sessions, an accepted message carries its signer's signature,
    and a rekey exchange keeps the sessions mirrored. *)

From S2P Require Import Prelude Utf8 Json Base64 Crypto Cbor BinaryFormat Canonical CanonicalText Session SessionProofs.
Import BinaryFormat Canonical CanonicalText Crypto Session SessionProofs.

Module Handshake.
#[local] Open Scope string_scope.
#[local] Open Scope list_scope.
#[local] Open Scope Z_scope.

(** ** Transcripts *)

Lemma canonical_concat_reads x vs : Forall (fun v => float_free v = true) vs ->
  exists ts, canonical_concat x vs = Ok (foldr String.append "" ts) /\
    Forall2 reads ts (normal_json (nfc x) <$> vs).
Proof.
  induction 1 as [|v vs Hv _ (ts & Hts & Hr)]; [by exists []|].
  destruct (encode_reads (nfc x) (show_f64 x) v Hv) as (t & Ht & Htr).
  exists (t :: ts). split; [|by constructor]. cbn [canonical_concat]. unfold canon, canonicalize.
  by rewrite Ht, Hts.
Qed.

(** Objects end in a brace, so the texts of a sequence of objects are
    delimited. *)
Lemma concat_not_digit ts vs : Forall2 reads ts vs -> Forall (fun v => exists fs, v = JObject fs) vs ->
  not_digit (foldr String.append "" ts).
Proof.
  destruct 1 as [|t v ts vs [(c & t' & -> & _) Hr] _]; [done|]. intros [(fs & ->) _]%Forall_cons.
  cbn [foldr]. rewrite str_app_cons. cbn. destruct (is_digit c) eqn:E; [|done]. exfalso.
  specialize (Hr "" (S (S (2 * String.length (String c t')))) I ltac:(lia)).
  rewrite str_app_nil_r in Hr. cbn [read_value] in Hr. rewrite !(digit_eqb c) in Hr by done.
  rewrite E in Hr. destruct (read_digits 0 (String c t')). discriminate Hr.
Qed.

Lemma concat_inj ts us vs ws : Forall2 reads ts vs -> Forall2 reads us ws ->
  Forall (fun v => exists fs, v = JObject fs) vs -> Forall (fun v => exists fs, v = JObject fs) ws ->
  foldr String.append "" ts = foldr String.append "" us -> vs = ws.
Proof.
  intros H. revert us ws. induction H as [|t v ts vs Ht Hts IH]; intros us ws Hus Hv Hw E.
  - destruct Hus as [|u w us ws [(c & u' & -> & _) _] _]; [done|discriminate E].
  - destruct Hus as [|u w us ws Hu Hus]; [destruct Ht as [(c & t' & -> & _) _]; discriminate E|].
    apply Forall_cons in Hv as [_ Hv], Hw as [_ Hw]. cbn [foldr] in E.
    pose proof (concat_not_digit ts vs Hts Hv) as Hd. pose proof (concat_not_digit us ws Hus Hw) as He.
    destruct Ht as [_ Ht], Hu as [_ Hu].
    specialize (Ht _ (2 * String.length t + 2 * String.length u)%nat Hd ltac:(lia)).
    specialize (Hu _ (2 * String.length t + 2 * String.length u)%nat He ltac:(lia)).
    rewrite E in Ht. rewrite Ht in Hu. injection Hu as -> Heq. f_equal. by apply IH with us.
Qed.

(** The JSON forms of handshake messages. *)
Definition is_message (v : json) : Prop :=
  (exists h, v = hello_i_to_value h) \/ (exists h, v = hello_r_to_value h) \/ (exists a, v = auth_to_value a).

Lemma hello_i_message h : is_message (hello_i_to_value h).
Proof. left. eauto. Qed.
Lemma hello_r_message h : is_message (hello_r_to_value h).
Proof. right. left. eauto. Qed.
Lemma auth_message a : is_message (auth_to_value a).
Proof. right. right. eauto. Qed.
#[local] Hint Resolve hello_i_message hello_r_message auth_message Forall_cons_2 Forall_nil_2 : tf.

Lemma opt_string_float_free k (o : option string) : forallb (fun kv => float_free kv.2) (opt_field k o JString) = true.
Proof. by destruct o. Qed.

Lemma strings_float_free l : forallb float_free (JString <$> l) = true.
Proof. by induction l. Qed.

Lemma message_float_free v : is_message v -> float_free v = true.
Proof.
  intros [[h ->]|[[h ->]|[a ->]]]; cbn [hello_i_to_value hello_r_to_value auth_to_value float_free];
    rewrite !forallb_app, ?opt_string_float_free; cbn; [|done..].
  destruct (i_supported_suites h); cbn; [|done]. by rewrite strings_float_free.
Qed.

Lemma message_object nfc v : is_message v -> exists fs, normal_json nfc v = JObject fs.
Proof. intros [[h ->]|[[h ->]|[a ->]]]; eexists; reflexivity. Qed.

(** A handshake message, its JSON form, and the message with its strings in
    Unicode normal form. *)
Inductive Message := MHelloI (h : HelloI) | MHelloR (h : HelloR) | MAuth (a : Auth).
Definition message_value (m : Message) : json :=
  match m with MHelloI h => hello_i_to_value h | MHelloR h => hello_r_to_value h | MAuth a => auth_to_value a end.
Definition normal_message (nfc : string -> string) (m : Message) : Message :=
  match m with
  | MHelloI h => MHelloI (mk_HelloI (i_version h) (nfc (i_suite h)) ((fun l : list string => nfc <$> l) <$> i_supported_suites h) (nfc (i_session_id h))
      (nfc (i_peer_hint h)) (nfc <$> i_self_hint h) (nfc (i_eph_pub h)))
  | MHelloR h => MHelloR (mk_HelloR (nfc (r_eph_pub h)) (nfc (r_ident_pub h)) (nfc <$> r_selected_suite h) (nfc <$> r_self_hint h)
      (nfc <$> r_signature_mldsa h) (nfc <$> r_ident_pub_mldsa h) (nfc (r_signature h)))
  | MAuth a => MAuth (mk_Auth (nfc (a_ident_pub a)) (nfc <$> a_signature_mldsa a) (nfc <$> a_ident_pub_mldsa a) (nfc (a_signature a)))
  end.

Lemma message_value_message m : is_message (message_value m).
Proof. destruct m; cbn; auto with tf. Qed.

Lemma strings_normal nfc (l l' : list string) : normal_json nfc <$> (JString <$> l) = normal_json nfc <$> (JString <$> l') -> nfc <$> l = nfc <$> l'.
Proof.
  revert l'. induction l as [|s l IH]; intros [|s' l'] E; try done. cbn in *. injection E as -> E. f_equal. by apply IH.
Qed.
Ltac read_field G k := generalize (G k);
  cbn [jget message_value hello_i_to_value hello_r_to_value auth_to_value]; rewrite ?assoc_app, ?assoc_opt_field; cbn.

(** The entries of a normal form are found under the keys of the original. *)
Lemma jget_normal nfc k fs : NoDup (fs.*1) -> Forall (fun kv => nfc kv.1 = kv.1) fs ->
  jget k (normal_json nfc (JObject fs)) = normal_json nfc <$> assoc k fs.
Proof.
  intros Hnd Hk. cbn [jget normal_json]. set (l := (fun kv => (nfc kv.1, normal_json nfc kv.2)) <$> fs).
  assert (l.*1 = fs.*1) as Hl.
  { unfold l. rewrite <- list_fmap_compose. clear Hnd. induction Hk as [|kv fs H _ IH]; [done|]. cbn. cbn in IH. by rewrite H, IH. }
  assert (assoc k (sort_entries l) = assoc k l) as ->.
  { apply option_eq. intros v. rewrite !assoc_elem by (by rewrite ?sort_entries_perm, Hl). by rewrite sort_entries_perm. }
  unfold l. clear Hnd Hl l. induction Hk as [|[j v] fs H _ IH]; [done|]. cbn in *. rewrite H. by destruct (k =? j)%string.
Qed.

(** Normal forms of messages that agree, agree in every field. *)
Lemma normal_message_inj nfc m n : (forall s, is_ascii s -> nfc s = s) ->
  normal_json nfc (message_value m) = normal_json nfc (message_value n) -> normal_message nfc m = normal_message nfc n.
Proof.
  intros Hnfc E.
  assert (forall m, exists fs, message_value m = JObject fs /\ NoDup (fs.*1) /\ Forall (fun kv => nfc kv.1 = kv.1) fs) as Hm.
  { intros [h|h|a]; eexists; (split; [reflexivity|]).
    - destruct (i_supported_suites h), (i_self_hint h); (split; [cbn; apply (bool_decide_unpack _); by vm_compute|repeat constructor; apply Hnfc; by apply ascii_check]).
    - destruct (r_selected_suite h), (r_self_hint h), (r_signature_mldsa h), (r_ident_pub_mldsa h);
        (split; [cbn; apply (bool_decide_unpack _); by vm_compute|repeat constructor; apply Hnfc; by apply ascii_check]).
    - destruct (a_signature_mldsa a), (a_ident_pub_mldsa a);
        (split; [cbn; apply (bool_decide_unpack _); by vm_compute|repeat constructor; apply Hnfc; by apply ascii_check]). }
  assert (forall k, normal_json nfc <$> jget k (message_value m) = normal_json nfc <$> jget k (message_value n)) as G.
  { intros k. destruct (Hm m) as (fs & Em & N1 & K1), (Hm n) as (gs & En & N2 & K2). rewrite Em, En in *.
    cbn [jget]. by rewrite <- !jget_normal, E. }
  clear E Hm. destruct m as [h|h|a], n as [h'|h'|a'];
    try (exfalso; pose proof (G "kind") as Gk; cbn in Gk; rewrite !Hnfc in Gk by (by apply ascii_check); discriminate Gk).
  - assert ((fun l : list string => nfc <$> l) <$> i_supported_suites h = (fun l : list string => nfc <$> l) <$> i_supported_suites h') as E2.
    { read_field G "supported_suites". destruct (i_supported_suites h) as [l|], (i_supported_suites h') as [l'|]; cbn; intros E; try done.
      injection E as E. by rewrite (strings_normal nfc l l' E). }
    assert (nfc <$> i_self_hint h = nfc <$> i_self_hint h') as E5 by (read_field G "self_hint"; destruct (i_self_hint h), (i_self_hint h'); cbn; congruence).
    cbn [normal_message]. rewrite E2, E5. f_equal. f_equal.
    + read_field G "version". congruence.
    + read_field G "suite". congruence.
    + read_field G "session_id". congruence.
    + read_field G "peer_hint". congruence.
    + read_field G "eph_pub". congruence.
  - cbn [normal_message]. f_equal. f_equal.
    + read_field G "eph_pub". congruence.
    + read_field G "ident_pub". congruence.
    + read_field G "selected_suite". destruct (r_selected_suite h), (r_selected_suite h'); cbn; congruence.
    + read_field G "self_hint". destruct (r_self_hint h), (r_self_hint h'); cbn; congruence.
    + read_field G "signature_mldsa". destruct (r_signature_mldsa h), (r_signature_mldsa h'); cbn; congruence.
    + read_field G "ident_pub_mldsa". destruct (r_ident_pub_mldsa h), (r_ident_pub_mldsa h'); cbn; congruence.
    + read_field G "signature". congruence.
  - cbn [normal_message]. f_equal. f_equal.
    + read_field G "ident_pub". congruence.
    + read_field G "signature_mldsa". destruct (a_signature_mldsa a), (a_signature_mldsa a'); cbn; congruence.
    + read_field G "ident_pub_mldsa". destruct (a_ident_pub_mldsa a), (a_ident_pub_mldsa a'); cbn; congruence.
    + read_field G "signature". congruence.
Qed.

(** C28: The transcript binds the messages.  Whatever the messages, the text
    both sides hash and sign is defined, and two sequences of handshake
    messages have the same text only if they are as many messages, of the same
    kinds in the same order, with the same value in every field, up to Unicode
    normalisation of the strings: no field can be changed or moved between
    messages and no message can be dropped or added without changing what is
    signed. *)
Theorem transcript_unambiguous x ms ns (Hnfc : forall s, is_ascii s -> nfc x s = s) :
  is_ok (canonical_concat x (message_value <$> ms)) = true /\
  (canonical_concat x (message_value <$> ms) = canonical_concat x (message_value <$> ns) ->
   normal_message (nfc x) <$> ms = normal_message (nfc x) <$> ns).
Proof.
  assert (forall l, Forall is_message (message_value <$> l)) as Hm by (intros l; apply Forall_fmap, Forall_true; intros m; apply message_value_message).
  destruct (canonical_concat_reads x (message_value <$> ms)) as (ts & Hts & Hr); [eapply Forall_impl; [apply Hm|]; apply message_float_free|].
  destruct (canonical_concat_reads x (message_value <$> ns)) as (us & Hus & Hs); [eapply Forall_impl; [apply Hm|]; apply message_float_free|].
  rewrite Hts, Hus. split; [done|]. intros E%Ok_inj. eapply concat_inj in E; [|exact Hr|exact Hs|..];
    [|apply Forall_fmap; (eapply Forall_impl; [apply Hm|]); intros v; apply message_object..].
  clear -E Hnfc. revert ns E. induction ms as [|m ms IH]; intros [|n ns] E; try done. cbn in *. injection E as E1 E2. f_equal; [|by apply IH].
  by apply normal_message_inj.
Qed.

(** ** An honest run *)

(** The four calls of the two sides, each message handed over as it is.
    The random bytes are the ones each side draws. *)
Definition handshake (x : session_lib) (cfg_i cfg_r : SessionConfig) (rng_i rng_id rng_r : list Z) :
    result SessionError (Initiator * Responder * SessionState * SessionState) :=
  let '(i1, hello_i) := start x (new_initiator cfg_i) rng_i rng_id in
  hello_i ← hello_i;
  let '(r1, hello_r) := process_hello_i x (new_responder cfg_r) hello_i rng_r in
  hello_r ← hello_r;
  let '(i2, auth) := process_hello_r x i1 hello_r in
  '(auth, session_i) ← auth;
  let '(r2, session_r) := process_auth x r1 auth in
  session_r ← session_r;
  Ok (i2, r2, session_i, session_r).

(** A peer's configuration holds matching key pairs, post-quantum ones if
    the suite is hybrid. *)
Definition keys_ok (x : session_lib) (suite : string) (cfg : SessionConfig) : Prop :=
  ed25519_pair x (c_identity_priv cfg) (c_identity_pub cfg) /\
  (is_hybrid_suite suite = true -> exists sk pk,
     c_identity_mldsa_priv cfg = Some sk /\ c_identity_mldsa_pub cfg = Some pk /\ pq_pair x sk pk).

(** The suite of the run: the first offered one the responder accepts. *)
Definition agreed_suite (cfg_i cfg_r : SessionConfig) : option string :=
  List.find (fun s => existsb (fun o => (o =? s)%string) (unwrap_or (c_supported_suites cfg_r) KNOWN_SESSION_SUITES))
    (offered_suites cfg_i).

Definition key_actor (x : session_lib) (pk : list Z) : string :=
  "tf:actor:process:key/" +:+ hex (take 8 (sha256 x pk)).

Section honest.
Context (x : session_lib) (L : session_laws x).

Lemma concat_messages vs : Forall is_message vs -> exists t, canonical_concat x vs = Ok t.
Proof.
  intros H. destruct (canonical_concat_reads x vs) as (ts & -> & _); [|eauto].
  eapply Forall_impl; [exact H|]. apply message_float_free.
Qed.

Lemma decode64_encode bs : is_bytes bs -> decode64 (b64encode bs) = Ok bs.
Proof. intros H. unfold decode64. by rewrite b64decode_encode. Qed.

Lemma decode_eph_encode s : decode_eph (b64encode (x25519_public x s)) = Ok (x25519_public x s).
Proof.
  destruct (law_public x (law_crypto x L) s) as [Hl Hb]. unfold decode_eph.
  rewrite decode64_encode by done. by apply array_of_length.
Qed.

Lemma derive_peer_actor_ok pk : length pk = 32%nat -> derive_peer_actor x pk = Ok (key_actor x pk).
Proof. intros H. unfold derive_peer_actor. by rewrite H. Qed.

(** What one side signs for the suite, the other side's check accepts. *)
Lemma mldsa_signed who suite cfg hash : keys_ok x suite cfg -> exists sig,
  sign_mldsa x who suite (c_identity_mldsa_priv cfg) hash = Ok sig /\
  forall w m, check_mldsa x w m suite sig (mldsa_pub_for suite cfg) hash = Ok tt.
Proof.
  intros [_ Hpq]. unfold sign_mldsa, check_mldsa, mldsa_pub_for. destruct (is_hybrid_suite suite); [|eauto].
  destruct (Hpq eq_refl) as (sk & pk & -> & -> & Hp). cbn [ok_or mbind result_bind].
  destruct (pq_signature_verifies x sk pk hash Hp) as (sig & -> & Hsig & Hv). cbn [map_err mbind result_bind].
  eexists. split; [reflexivity|]. intros w m. cbn [fmap option_fmap option_map ok_or mbind result_bind].
  destruct Hp as (_ & _ & Hpk & _). rewrite !decode64_encode by done. cbn [mbind result_bind]. by rewrite Hv.
Qed.

Lemma ed25519_signed cfg suite hash : keys_ok x suite cfg ->
  ed25519_verify x (c_identity_pub cfg) hash (ed25519_sign x (c_identity_priv cfg) hash) = Ok tt.
Proof. intros [H _]. by apply signature_verifies; [apply L|]. Qed.

(** A message signed by [cfg] over the text [t] for [suite]. *)
Definition signed_by (cfg : SessionConfig) (suite t sig : string) (pq_sig pq_pub : option string) : Prop :=
  sig = b64encode (ed25519_sign x (c_identity_priv cfg) (digest_of x t)) /\
  forall w m, check_mldsa x w m suite pq_sig pq_pub (digest_of x t) = Ok tt.

(** The responder's answer to a well-formed greeting. *)
Lemma answer_hello_i_ok cfg hello_i eph rng suite :
  keys_ok x suite cfg -> i_version hello_i = SESSION_VERSION -> choose_suite x cfg hello_i = Ok suite ->
  i_eph_pub hello_i = b64encode (x25519_public x eph) ->
  let kp := make_ephemeral x (c_eph_seed cfg) rng in
  exists hr t, answer_hello_i x cfg hello_i rng = Ok (hr, x25519 x (kp_private kp) (x25519_public x eph)) /\
    canonical_concat x [hello_i_to_value hello_i; hello_r_to_value (hello_r_unsigned hr)] = Ok t /\
    signed_by cfg suite t (r_signature hr) (r_signature_mldsa hr) (r_ident_pub_mldsa hr) /\
    r_eph_pub hr = b64encode (kp_public kp) /\ r_ident_pub hr = b64encode (c_identity_pub cfg) /\
    r_selected_suite hr = Some suite /\ r_self_hint hr = c_self_hint cfg.
Proof.
  intros Hk Hv Hs He kp. unfold answer_hello_i. rewrite Hv, Hs, He, decode_eph_encode. cbn [negb Z.eqb SESSION_VERSION mbind result_bind].
  fold kp. set (u := mk_HelloR _ _ _ _ _ _ _).
  destruct (concat_messages [hello_i_to_value hello_i; hello_r_to_value u]) as (t & Ht); [auto with tf|].
  rewrite Ht. cbn [mbind result_bind].
  destruct (mldsa_signed "responder" suite cfg (digest_of x t) Hk) as (pqs & -> & Hpqs). cbn [mbind result_bind].
  eexists _, t. split; [reflexivity|]. split; [exact Ht|]. by repeat split.
Qed.

(** The initiator's reply to an answer signed by [cfg_r]. *)
Lemma accept_hello_r_ok cfg cfg_r hello_i eph hr t suite id eph_r :
  keys_ok x suite cfg -> keys_ok x suite cfg_r ->
  i_session_id hello_i = b64encode id -> is_bytes id ->
  canonical_concat x [hello_i_to_value hello_i; hello_r_to_value (hello_r_unsigned hr)] = Ok t ->
  signed_by cfg_r suite t (r_signature hr) (r_signature_mldsa hr) (r_ident_pub_mldsa hr) ->
  r_eph_pub hr = b64encode (x25519_public x eph_r) -> r_ident_pub hr = b64encode (c_identity_pub cfg_r) ->
  r_selected_suite hr = Some suite ->
  exists auth ft,
    accept_hello_r x cfg hello_i eph hr = Ok (auth, derive_with_claim x RInitiator (x25519 x eph (x25519_public x eph_r)) id
      (digest_of x ft) (c_self_actor cfg) (key_actor x (c_identity_pub cfg_r))
      (opt_filter (fun s => negb (str_is_empty s)) (r_self_hint hr))) /\
    canonical_concat x [hello_i_to_value hello_i; hello_r_to_value hr; auth_to_value (auth_unsigned auth)] = Ok ft /\
    signed_by cfg suite ft (a_signature auth) (a_signature_mldsa auth) (a_ident_pub_mldsa auth) /\
    a_ident_pub auth = b64encode (c_identity_pub cfg).
Proof.
  intros Hk Hkr Hsid Hid Ht [Hsig Hpq] Heph Hident Hsel. unfold accept_hello_r.
  rewrite Ht, Hsig, Hident, Hsel. cbn [mbind result_bind unwrap_or].
  rewrite !decode64_encode by (apply Hkr || apply (law_sign x (law_crypto x L))). cbn [mbind result_bind].
  rewrite (ed25519_signed cfg_r suite) by done. cbn [map_err mbind result_bind]. rewrite Hpq, Heph, decode_eph_encode.
  cbn [mbind result_bind]. set (u := mk_Auth _ _ _ _).
  destruct (concat_messages [hello_i_to_value hello_i; hello_r_to_value hr; auth_to_value u]) as (ft & Hft); [auto with tf|].
  rewrite Hft. cbn [mbind result_bind].
  destruct (mldsa_signed "initiator" suite cfg (digest_of x ft) Hk) as (pqs & -> & Hpqs). cbn [mbind result_bind].
  rewrite Hsid, decode64_encode by done. cbn [mbind result_bind].
  rewrite derive_peer_actor_ok by apply Hkr. eexists _, ft. split; [reflexivity|]. split; [exact Hft|]. by repeat split.
Qed.

Lemma accept_auth_ok cfg cfg_i hello_i hr shared auth ft suite id :
  keys_ok x suite cfg_i -> i_session_id hello_i = b64encode id -> is_bytes id -> r_selected_suite hr = Some suite ->
  canonical_concat x [hello_i_to_value hello_i; hello_r_to_value hr; auth_to_value (auth_unsigned auth)] = Ok ft ->
  signed_by cfg_i suite ft (a_signature auth) (a_signature_mldsa auth) (a_ident_pub_mldsa auth) ->
  a_ident_pub auth = b64encode (c_identity_pub cfg_i) ->
  accept_auth x cfg hello_i hr shared auth = Ok (derive_with_claim x RResponder shared id (digest_of x ft)
    (c_self_actor cfg) (key_actor x (c_identity_pub cfg_i)) (opt_filter (fun s => negb (str_is_empty s)) (i_self_hint hello_i))).
Proof.
  intros Hk Hsid Hid Hsel Hft [Hsig Hpq] Hident. unfold accept_auth. rewrite Hft, Hsig, Hident, Hsel, Hsid. cbn [mbind result_bind unwrap_or].
  rewrite !decode64_encode by (done || apply Hk || apply (law_sign x (law_crypto x L))). cbn [mbind result_bind].
  rewrite (ed25519_signed cfg_i suite) by done. cbn [map_err mbind result_bind]. rewrite Hpq. cbn [mbind result_bind].
  by rewrite derive_peer_actor_ok by apply Hk.
Qed.

Lemma derive_mirror shared id hash a1 p1 c1 a2 p2 c2 :
  mirror (derive_with_claim x RInitiator shared id hash a1 p1 c1) (derive_with_claim x RResponder shared id hash a2 p2 c2).
Proof. by split. Qed.

Lemma ephemeral_public seed rng :
  kp_public (make_ephemeral x seed rng) = x25519_public x (kp_private (make_ephemeral x seed rng)).
Proof. by destruct seed. Qed.
End honest.

(** The four calls of an honest run, and what they leave. *)
Lemma handshake_mirrors x cfg_i cfg_r rng_i rng_id rng_r suite
    (L : session_laws x) (Hs : agreed_suite cfg_i cfg_r = Some suite)
    (Hi : keys_ok x suite cfg_i) (Hr : keys_ok x suite cfg_r)
    (Hid : is_bytes (unwrap_or (c_session_id_seed cfg_i) rng_id)) :
  exists i r s_i s_r, handshake x cfg_i cfg_r rng_i rng_id rng_r = Ok (i, r, s_i, s_r) /\
    initiator_session i = Some s_i /\ responder_session r = Some s_r /\
    mirror s_i s_r /\ session_id s_i = session_id s_r /\ send_seq s_i = 0 /\ send_seq s_r = 0 /\
    peer_actor s_i = key_actor x (c_identity_pub cfg_r) /\ peer_actor s_r = key_actor x (c_identity_pub cfg_i).
Proof.
  unfold handshake, start. cbn [new_initiator init_state init_cfg mbind result_bind].
  set (kpi := make_ephemeral x (c_eph_seed cfg_i) rng_i). set (hi := mk_HelloI _ _ _ _ _ _ _).
  assert (choose_suite x cfg_r hi = Ok suite) as Hc by (unfold choose_suite; cbn [hi i_supported_suites]; by apply ok_or_ok).
  destruct (answer_hello_i_ok x L cfg_r hi (kp_private kpi) rng_r suite Hr eq_refl Hc) as
    (hr & t & Ha & Ht & Hsig & Heph & Hident & Hsel & _); [cbn [hi i_eph_pub]; unfold kpi; by rewrite ephemeral_public|].
  unfold process_hello_i. cbn [new_responder resp_state resp_cfg]. rewrite Ha. cbn [mbind result_bind].
  rewrite ephemeral_public in Heph.
  destruct (accept_hello_r_ok x L cfg_i cfg_r hi (kp_private kpi) hr t suite _ _ Hi Hr eq_refl Hid Ht Hsig Heph Hident Hsel)
    as (auth & ft & Hb & Hft & Hasig & Haid).
  unfold process_hello_r. cbn [init_state init_cfg]. rewrite Hb. cbn [mbind result_bind].
  unfold process_auth. cbn [resp_state resp_cfg].
  rewrite (accept_auth_ok x L cfg_r cfg_i hi hr _ auth ft suite _ Hi eq_refl Hid Hsel Hft Hasig Haid). cbn [mbind result_bind].
  rewrite (law_agree x (law_crypto x L) (kp_private kpi)). eexists _, _, _, _. split; [reflexivity|].
  do 2 (split; [reflexivity|]). split; [apply derive_mirror|]. by repeat split.
Qed.

(** C5: An honest handshake succeeds and agrees.  If the responder accepts one
    of the suites the initiator offers and both hold the key pairs the agreed
    suite needs, then all four steps succeed, both sides are established, in
    mirrored states (each side's sending key is the other's receiving key,
    counters at zero) under the same session id, and each names the other by
    the actor derived from its identity key. *)
Theorem handshake_agrees x cfg_i cfg_r rng_i rng_id rng_r suite
    (L : session_laws x) (Hs : agreed_suite cfg_i cfg_r = Some suite)
    (Hi : keys_ok x suite cfg_i) (Hr : keys_ok x suite cfg_r)
    (Hid : is_bytes (unwrap_or (c_session_id_seed cfg_i) rng_id)) :
  exists i r s_i s_r, handshake x cfg_i cfg_r rng_i rng_id rng_r = Ok (i, r, s_i, s_r) /\
    initiator_session i = Some s_i /\ responder_session r = Some s_r /\
    mirror s_i s_r /\ session_id s_i = session_id s_r /\ send_seq s_i = 0 /\ send_seq s_r = 0 /\
    peer_actor s_i = key_actor x (c_identity_pub cfg_r) /\ peer_actor s_r = key_actor x (c_identity_pub cfg_i).
Proof. by apply (handshake_mirrors x cfg_i cfg_r rng_i rng_id rng_r suite). Qed.

(** ** What acceptance means *)

(** [pk] is the key named by [ident], and its signature [sig] over the text
    [t] verifies. *)
Definition identity_signed (x : session_lib) (ident sig t : string) (pk : list Z) : Prop :=
  b64decode ident = Ok pk /\ exists s, b64decode sig = Ok s /\ ed25519_verify x pk (digest_of x t) s = Ok tt.

(** The ml-dsa-65 signature over [t] that a hybrid suite asks for. *)
Definition mldsa_signed_over (x : session_lib) (suite t : string) (sig pub : option string) : Prop :=
  is_hybrid_suite suite = true -> exists s p sb pb, sig = Some s /\ pub = Some p /\
    b64decode s = Ok sb /\ b64decode p = Ok pb /\ ml_dsa_65_verify x pb (digest_of x t) sb = true.

Lemma check_mldsa_ok x w m suite sig pub t :
  check_mldsa x w m suite sig pub (digest_of x t) = Ok tt <-> mldsa_signed_over x suite t sig pub.
Proof.
  unfold check_mldsa, mldsa_signed_over, decode64. destruct (is_hybrid_suite suite); [|by split].
  split.
  - intros E _. apply bind_ok in E as (s & Hs%ok_or_ok & E). apply bind_ok in E as (p & Hp%ok_or_ok & E).
    apply bind_ok in E as (sb & Hsb%map_err_ok & E). apply bind_ok in E as (pb & Hpb%map_err_ok & E).
    exists s, p, sb, pb. do 4 (split; [done|]). by destruct (ml_dsa_65_verify x pb (digest_of x t) sb).
  - intros H. destruct (H eq_refl) as (s & p & sb & pb & Hs & Hp & Hsb & Hpb & Hv).
    rewrite Hs, Hp. cbn [ok_or mbind result_bind]. rewrite Hsb, Hpb. cbn [map_err mbind result_bind]. by rewrite Hv.
Qed.

Lemma derive_peer_actor_inv x pk a : derive_peer_actor x pk = Ok a -> a = key_actor x pk.
Proof. unfold derive_peer_actor. case_test; [discriminate|]. intros H%Ok_inj. done. Qed.

(** C6: Authentication.  A side is established only by a message whose sender
    signed the transcript: the responder only in state AwaitingAuth by an
    [Auth] whose ed25519 signature over greeting, answer and the unsigned
    [Auth] verifies under the key it names, the initiator only in state
    AwaitingHelloR by an answer signed over the greeting and itself; a hybrid
    suite needs the ml-dsa-65 signature over the same text too.  The peer is
    then named after the verified key, and after any refusal the side is back
    in its initial state. *)
Theorem peer_authenticated x :
  (forall r msg r' res, process_auth x r msg = (r', res) ->
     match res with
     | Err _ => resp_state r' = RFresh
     | Ok s => resp_state r' = REstablished s /\
       exists hi hr shared t pk, resp_state r = AwaitingAuth hi hr shared /\
         canonical_concat x [hello_i_to_value hi; hello_r_to_value hr; auth_to_value (auth_unsigned msg)] = Ok t /\
         identity_signed x (a_ident_pub msg) (a_signature msg) t pk /\ peer_actor s = key_actor x pk /\
         mldsa_signed_over x (unwrap_or (r_selected_suite hr) (i_suite hi)) t (a_signature_mldsa msg) (a_ident_pub_mldsa msg)
     end) /\
  (forall i msg i' res, process_hello_r x i msg = (i', res) ->
     match res with
     | Err _ => init_state i' = IFresh
     | Ok (_, s) => init_state i' = IEstablished s /\
       exists hi eph t pk, init_state i = AwaitingHelloR hi eph /\
         canonical_concat x [hello_i_to_value hi; hello_r_to_value (hello_r_unsigned msg)] = Ok t /\
         identity_signed x (r_ident_pub msg) (r_signature msg) t pk /\ peer_actor s = key_actor x pk /\
         mldsa_signed_over x (unwrap_or (r_selected_suite msg) (i_suite hi)) t (r_signature_mldsa msg) (r_ident_pub_mldsa msg)
     end).
Proof.
  split.
  - intros r msg r' res. unfold process_auth. destruct (resp_state r) as [|hi hr sh|s0]; [by intros [= <- <-]| |by intros [= <- <-]].
    destruct (accept_auth x (resp_cfg r) hi hr sh msg) as [s|e] eqn:E; intros [= <- <-]; [|done].
    split; [done|]. unfold accept_auth in E.
    apply bind_ok in E as (t & Ht & E). apply bind_ok in E as (pk & Hpk & E). apply bind_ok in E as (sig & Hsig & E).
    apply bind_ok in E as ([] & Hv & E). apply bind_ok in E as ([] & Hpq & E). apply bind_ok in E as (id & _ & E).
    apply bind_ok in E as (p & Hp & E). apply Ok_inj in E. subst s.
    apply map_err_ok in Hpk, Hsig, Hv, Hp. apply derive_peer_actor_inv in Hp. apply check_mldsa_ok in Hpq.
    exists hi, hr, sh, t, pk. split; [done|]. split; [done|]. split; [|by subst p].
    split; [done|]. by exists sig.
  - intros i msg i' res. unfold process_hello_r. destruct (init_state i) as [|hi eph|s0]; [by intros [= <- <-]| |by intros [= <- <-]].
    destruct (accept_hello_r x (init_cfg i) hi eph msg) as [[auth s]|e] eqn:E; intros [= <- <-]; [|done].
    split; [done|]. unfold accept_hello_r in E.
    apply bind_ok in E as (t & Ht & E). apply bind_ok in E as (pk & Hpk & E). apply bind_ok in E as (sig & Hsig & E).
    apply bind_ok in E as ([] & Hv & E). apply bind_ok in E as ([] & Hpq & E). apply bind_ok in E as (pe & _ & E).
    apply bind_ok in E as (ft & _ & E). apply bind_ok in E as (pqs & _ & E). apply bind_ok in E as (id & _ & E).
    apply bind_ok in E as (p & Hp & E). apply Ok_inj in E. injection E as _ <-.
    apply map_err_ok in Hpk, Hsig, Hv, Hp. apply derive_peer_actor_inv in Hp. apply check_mldsa_ok in Hpq.
    exists hi, eph, t, pk. split; [done|]. split; [done|]. split; [|by subst p].
    split; [done|]. by exists sig.
Qed.

(** The initiator does not compare the selected suite with its offer.  An
    answer that selects any suite without ml-dsa-65, with a valid ed25519
    signature, is accepted without a post-quantum signature, even by an
    initiator that offered hybrid suites only. *)
Theorem unoffered_suite_accepted x i hi eph msg t pk peer_eph id suite
    (Hi : init_state i = AwaitingHelloR hi eph)
    (Hsel : r_selected_suite msg = Some suite) (Hnh : is_hybrid_suite suite = false)
    (Ht : canonical_concat x [hello_i_to_value hi; hello_r_to_value (hello_r_unsigned msg)] = Ok t)
    (Hsig : identity_signed x (r_ident_pub msg) (r_signature msg) t pk)
    (Heph : decode_eph (r_eph_pub msg) = Ok peer_eph) (Hid : b64decode (i_session_id hi) = Ok id) :
  exists auth s, snd (process_hello_r x i msg) = Ok (auth, s) /\ a_signature_mldsa auth = None.
Proof.
  unfold process_hello_r. rewrite Hi. unfold accept_hello_r. rewrite Ht. cbn [mbind result_bind].
  destruct Hsig as (Hpk & sig & Hs & Hv). unfold decode64. rewrite Hpk, Hs, Hid. cbn [map_err mbind result_bind]. rewrite Hv.
  cbn [map_err mbind result_bind]. rewrite Hsel. cbn [unwrap_or]. unfold check_mldsa, sign_mldsa, mldsa_pub_for. rewrite Hnh.
  cbn [mbind result_bind]. rewrite Heph. cbn [mbind result_bind].
  match goal with |- context [canonical_concat x ?l] => destruct (concat_messages x l) as (ft & ->); [auto with tf|] end.
  cbn [mbind result_bind]. apply ed25519_verify_ok in Hv as [Hl _]. rewrite derive_peer_actor_ok by done. by eexists _, _.
Qed.

(** ** Rekeying *)

Lemma ascii_valid s : is_ascii s -> valid_utf8 (bytes_of_str s) = true.
Proof.
  unfold is_ascii, valid_utf8. intros H. pose proof (bytes_of_str_bytes s) as Hb.
  assert (decode_utf8 (bytes_of_str s) = Some (bytes_of_str s)) as ->; [|done].
  revert H Hb. generalize (bytes_of_str s). unfold is_u8. induction l as [|b l IH]; intros H Hb; [done|].
  apply Forall_cons in H as [H1 H2], Hb as [Hb1 Hb2]. cbn [decode_utf8].
  destruct (Z.leb_spec 0 b), (Z.ltb_spec b 0x80); [|lia..]. cbn [andb]. by rewrite IH.
Qed.

Section rekey.
Context (x : session_lib) (L : session_laws x).

(** The shape of both rekey frames. *)
Lemma normal_rekey k e : is_ascii k -> is_ascii e ->
  normal_json (nfc x) (JObject [("kind", JString k); ("eph_pub", JString e)]) =
  JObject [("eph_pub", JString e); ("kind", JString k)].
Proof.
  intros Hk He. cbn [normal_json fmap list_fmap fst snd].
  rewrite !(ascii_key x L) by (done || by apply ascii_check). done.
Qed.

Lemma readable_rekey f bs : f = RekeyReq (b64encode bs) \/ f = RekeyAck (b64encode bs) ->
  readable (nfc x) (frame_to_value f) /\ normal_frame (nfc x) f = f.
Proof.
  pose proof (ascii_b64 bs) as Ha. intros Hf.
  assert (exists k, is_ascii k /\ frame_to_value f = JObject [("kind", JString k); ("eph_pub", JString (b64encode bs))] /\
    normal_frame (nfc x) f = f) as (k & Hk & -> & Hn).
  { destruct Hf as [-> | ->]; eexists; (split; [|split; [reflexivity|]]); try (by apply ascii_check);
      cbn [normal_frame]; by rewrite (ascii_key x L). }
  split; [|done]. unfold readable. rewrite normal_rekey by done. split; [done|]. split; [|split].
  - split; [|done]. cbn. repeat constructor; set_solver.
  - cbn [values_ok forallb fst snd]. rewrite !ascii_valid by (done || by apply ascii_check). done.
  - cbn. lia.
Qed.

(** Rotating mirrored states with distinct keys by the same secret keeps
    them mirrored. *)
Lemma rotate_mirror a b shared :
  mirror a b -> session_id a = session_id b -> generation a = generation b ->
  is_bytes (send_key a) -> is_bytes (recv_key a) -> send_key a <> recv_key a ->
  mirror (rotate_keys x a shared) (rotate_keys x b shared).
Proof.
  intros [[Ha Hb] [Hk1 Hk2] _ _] Hid Hg Hs Hr Hne. unfold rotate_keys, hex_lower_32. rewrite <- Hk1, Hk2, Hid, Hg.
  assert (hex (send_key a) <> hex (recv_key a)) as Hh by (intros E; by apply hex_inj in E).
  destruct (str_lt (hex (send_key a)) (hex (recv_key a))) eqn:E1, (str_lt (hex (recv_key a)) (hex (send_key a))) eqn:E2.
  - by rewrite (str_lt_asym _ _ E1) in E2.
  - split; cbn; auto; lia.
  - split; cbn; auto; lia.
  - by destruct Hh; apply str_lt_total.
Qed.

Lemma encrypt_inv s f s' w : encrypt x s f = (s', Ok w) -> closed s = false /\ seal_frame x s f = Ok w /\
  s' = with_send_seq s (next_seq (send_seq s)).
Proof.
  intros [H ->]%encrypt_ok. split; [|done]. unfold seal_frame in H. by destruct (closed s).
Qed.

(** A frame sent between mirrored states arrives. *)
Lemma mirror_deliver a b f a' w : mirror a b -> readable (nfc x) (frame_to_value f) -> encrypt x a f = (a', Ok w) ->
  decrypt x b w = (with_recv_seq b (next_seq (recv_seq b)), Ok (normal_frame (nfc x) f)) /\
  mirror a' (with_recv_seq b (next_seq (recv_seq b))).
Proof.
  intros [[Ha Hb] [Hk1 Hk2] [Hs1 Hs2] [Hr1 Hr2]] Hf (_ & Hw & ->)%encrypt_inv. split.
  - apply decrypt_ok. rewrite (open_sealed x L a b f w) by done. by rewrite Hs1, Z.eqb_refl.
  - split; cbn [closed send_key recv_key send_seq recv_seq with_send_seq with_recv_seq]; auto.
    + rewrite Hs1. auto.
    + split; [apply next_seq_ok|done].
Qed.

Lemma mirror_sym a b : mirror a b -> mirror b a.
Proof. intros [[? ?] [? ?] [? ?] [? ?]]. by split. Qed.
End rekey.

(** C29: Rekeying keeps the sessions mirrored.  From mirrored states of the
    same session and generation, with distinct keys per direction, a rekey
    request, its delivery, the acknowledgement and its delivery leave both
    sides mirrored again in the next generation with their counters at zero;
    the peer reads exactly the ephemeral keys that were sent. *)
Theorem rekey_agrees x a b seed_a rng_a seed_b rng_b a1 w1 b1 e1 b2 w2
    (L : session_laws x) (Hm : mirror a b)
    (Hid : session_id a = session_id b) (Hg : generation a = generation b)
    (Hs : is_bytes (send_key a)) (Hr : is_bytes (recv_key a)) (Hne : send_key a <> recv_key a)
    (Hreq : request_rekey x a seed_a rng_a = (a1, Ok w1))
    (Hdel : decrypt x b w1 = (b1, Ok (RekeyReq e1)))
    (Hack : process_rekey_req x b1 e1 seed_b rng_b = (b2, Ok w2)) :
  exists a2 e2 a3, decrypt x a1 w2 = (a2, Ok (RekeyAck e2)) /\ process_rekey_ack x a2 e2 = (a3, Ok tt) /\
    mirror a3 b2 /\ session_id a3 = session_id b2 /\
    generation a3 = (generation a + 1) mod 2 ^ 32 /\ generation b2 = generation a3 /\
    send_seq a3 = 0 /\ send_seq b2 = 0 /\ pending_rekey_priv a3 = None.
Proof.
  unfold request_rekey in Hreq. set (kpa := make_ephemeral x seed_a rng_a) in Hreq.
  set (ap := with_pending a (Some (kp_private kpa))) in Hreq.
  assert (mirror ap b) as Hm' by (destruct Hm as [? ? ? ?]; by split).
  destruct (readable_rekey x L (RekeyReq (b64encode (kp_public kpa))) _ (or_introl eq_refl)) as [Hf Hn].
  destruct (mirror_deliver x L ap b _ a1 w1 Hm' Hf Hreq) as [Hd Hm1]. rewrite Hd, Hn in Hdel.
  injection Hdel as <- <-. unfold process_rekey_req in Hack. set (kpb := make_ephemeral x seed_b rng_b) in Hack.
  unfold kpa in Hack. rewrite ephemeral_public, decode_eph_encode in Hack by done. fold kpa in Hack.
  destruct (encrypt x _ (RekeyAck _)) as [b' [ack|]] eqn:He; [|discriminate Hack]. injection Hack as <- <-.
  destruct (readable_rekey x L (RekeyAck (b64encode (kp_public kpb))) _ (or_intror eq_refl)) as [Hfb Hnb].
  destruct (mirror_deliver x L _ a1 _ b' ack (mirror_sym _ _ Hm1) Hfb He) as [Hd2 Hm2]. rewrite Hnb in Hd2.
  eexists _, _, _. split; [exact Hd2|].
  apply encrypt_inv in Hreq as (_ & _ & ->). apply encrypt_inv in He as (_ & _ & ->).
  unfold process_rekey_ack. cbn [pending_rekey_priv with_recv_seq with_send_seq ap with_pending].
  unfold kpb at 1. rewrite ephemeral_public, decode_eph_encode by done. fold kpb. split; [reflexivity|].
  unfold x25519_diffie_hellman. rewrite (law_agree x (law_crypto x L) (kp_private kpa)).
  split; [apply rotate_mirror; [destruct (mirror_sym _ _ Hm2) as [? ? ? ?]; by split|done..]|].
  by unfold rotate_keys; repeat case_match; repeat split; cbn; rewrite ?Hg, ?Hid.
Qed.

(** ** Witnesses *)

Definition cfg_with (key : Z) (suites : option (list string)) : SessionConfig :=
  mk_SessionConfig "tf:actor:service:x" None None (key_of key) (key_of key) None suites
    (Some (repeat 3 SK_LEN)) (Some (repeat 4 PK_LEN)) (Some (key_of (key + 10))) (Some [1; 2; 3]).

Lemma cfg_keys_ok suite key suites : 0 <= key < 256 -> keys_ok toy_session suite (cfg_with key suites).
Proof.
  intros Hk. split.
  - apply toy_ed25519; [done|]. apply List.Forall_forall. intros b Hb%repeat_spec. unfold is_u8. lia.
  - intros _. exists (repeat 3 SK_LEN), (repeat 4 PK_LEN). do 2 (split; [reflexivity|]).
    apply toy_pq; [apply repeat_length..|]. apply List.Forall_forall. intros b Hb%repeat_spec. unfold is_u8. lia.
Qed.

(** Moving a byte from the session id to the hint changes what is signed. *)
Lemma transcript_unambiguous_witness :
  let h := mk_HelloI 0 "s" None "id" "" None "e" in let h' := mk_HelloI 0 "s" None "i" "d" None "e" in
  let a := mk_Auth "p" None None "g" in
  is_ok (canonical_concat toy_session (message_value <$> [MHelloI h; MAuth a])) = true /\
  canonical_concat toy_session (message_value <$> [MHelloI h; MAuth a]) <> canonical_concat toy_session (message_value <$> [MHelloI h'; MAuth a]).
Proof.
  intros h h' a. destruct (transcript_unambiguous toy_session [MHelloI h; MAuth a] [MHelloI h'; MAuth a]) as [H1 H2]; [done|].
  split; [exact H1|]. intros E. specialize (H2 E). discriminate H2.
Defined.

(** A hybrid run: the responder only accepts the hybrid suite. *)
Lemma handshake_agrees_witness : exists i r s_i s_r,
  handshake toy_session (cfg_with 7 None) (cfg_with 9 (Some [SESSION_SUITE_HYBRID_ED25519_MLDSA65])) [] [] [] = Ok (i, r, s_i, s_r) /\
  mirror s_i s_r.
Proof.
  destruct (handshake_agrees toy_session (cfg_with 7 None) (cfg_with 9 (Some [SESSION_SUITE_HYBRID_ED25519_MLDSA65])) [] [] []
    SESSION_SUITE_HYBRID_ED25519_MLDSA65 toy_session_laws eq_refl (cfg_keys_ok _ 7 _ ltac:(lia)) (cfg_keys_ok _ 9 _ ltac:(lia)))
    as (i & r & s_i & s_r & H & _ & _ & Hm & _).
  - repeat (constructor; [unfold is_u8; lia|]). constructor.
  - exists i, r, s_i, s_r. split; [exact H|exact Hm].
Defined.

(** An initiator that offers the hybrid suite only, and an answer that
    selects the classical one. *)
Definition hybrid_only : SessionConfig :=
  mk_SessionConfig "tf:actor:service:x" None None (key_of 7) (key_of 7) (Some SESSION_SUITE_HYBRID_ED25519_MLDSA65)
    (Some [SESSION_SUITE_HYBRID_ED25519_MLDSA65]) None None (Some (key_of 17)) (Some [1; 2; 3]).
Definition waiting : Initiator := (start toy_session (new_initiator hybrid_only) [] []).1.
Definition waiting_hello : HelloI := mk_HelloI 0 SESSION_SUITE_HYBRID_ED25519_MLDSA65
  (Some [SESSION_SUITE_HYBRID_ED25519_MLDSA65]) (b64encode [1; 2; 3]) "" None (b64encode (key_of 17)).
Definition classical_unsigned : HelloR :=
  mk_HelloR (b64encode (key_of 19)) (b64encode (key_of 9)) (Some SESSION_SUITE) None None None "".
Definition classical_text : string :=
  match canonical_concat toy_session [hello_i_to_value waiting_hello; hello_r_to_value classical_unsigned] with
  | Ok t => t | Err _ => "" end.
Definition classical_answer : HelloR :=
  mk_HelloR (b64encode (key_of 19)) (b64encode (key_of 9)) (Some SESSION_SUITE) None None None
    (b64encode (ed25519_sign toy_session (key_of 9) (digest_of toy_session classical_text))).

Lemma unoffered_suite_accepted_witness : exists auth s,
  snd (process_hello_r toy_session waiting classical_answer) = Ok (auth, s) /\ a_signature_mldsa auth = None.
Proof.
  apply (unoffered_suite_accepted toy_session waiting waiting_hello (key_of 17) classical_answer classical_text
    (key_of 9) (key_of 19) [1; 2; 3] SESSION_SUITE); try (vm_compute; reflexivity).
  split; [vm_compute; reflexivity|].
  exists (ed25519_sign toy_session (key_of 9) (digest_of toy_session classical_text)).
  split; vm_compute; reflexivity.
Defined.

Lemma rekey_agrees_witness :
  let r1 := request_rekey toy_session alice (Some (key_of 21)) [] in
  let w1 := match r1.2 with Ok w => w | Err _ => [] end in
  let d1 := decrypt toy_session bob w1 in
  let e1 := b64encode (key_of 21) in
  let r2 := process_rekey_req toy_session d1.1 e1 (Some (key_of 22)) [] in
  let w2 := match r2.2 with Ok w => w | Err _ => [] end in
  exists a2 e2 a3, decrypt toy_session r1.1 w2 = (a2, Ok (RekeyAck e2)) /\
    process_rekey_ack toy_session a2 e2 = (a3, Ok tt) /\ mirror a3 r2.1.
Proof.
  intros r1 w1 d1 e1 r2 w2.
  destruct (rekey_agrees toy_session alice bob (Some (key_of 21)) [] (Some (key_of 22)) [] r1.1 w1 d1.1 e1 r2.1 w2
    toy_session_laws alice_bob_mirror eq_refl eq_refl) as (a2 & e2 & a3 & H1 & H2 & H3 & _).
  1, 2: apply List.Forall_forall; intros b Hb%repeat_spec; unfold is_u8; lia.
  1: discriminate.
  1-3: vm_compute; reflexivity.
  exists a2, e2, a3. split; [exact H1|split; [exact H2|exact H3]].
Defined.

(** A request repeated with a fresh ephemeral key replaces the pending one:
    once the acknowledgement of the first request is processed the two sides
    hold different keys, with no error on either side. *)
Example rekey_retransmission_desynchronises :
  let r1 := request_rekey toy_session alice (Some (key_of 21)) [] in
  let w1 := match r1.2 with Ok w => w | Err _ => [] end in
  let again := request_rekey toy_session r1.1 (Some (key_of 31)) [] in
  let d1 := decrypt toy_session bob w1 in
  let r2 := process_rekey_req toy_session d1.1 (b64encode (key_of 21)) (Some (key_of 22)) [] in
  let w2 := match r2.2 with Ok w => w | Err _ => [] end in
  let d2 := decrypt toy_session again.1 w2 in
  let done_ := process_rekey_ack toy_session d2.1 (b64encode (key_of 22)) in
  is_ok again.2 = true /\ d2.2 = Ok (RekeyAck (b64encode (key_of 22))) /\ done_.2 = Ok tt /\
  bool_decide (send_key done_.1 = recv_key r2.1) = false.
Proof. vm_compute. auto. Qed.

(** The send counter wraps to zero under the same key. *)
Example send_seq_wraps :
  let s := mk_SessionState "a" "b" None [] 0 (key_of 1) (key_of 2) (2 ^ 64 - 1) 0 false None in
  let r := encrypt toy_session s (Ping "n") in
  is_ok r.2 = true /\ send_seq r.1 = 0 /\ send_key r.1 = send_key s.
Proof. vm_compute. auto. Qed.

(** A frame out of order is refused, and the session stays open. *)
Example out_of_order_keeps_open :
  let s1 := sent_by alice (Ping "n1") in let s2 := sent_by s1.1 (Ping "n2") in
  let r := decrypt toy_session bob s2.2 in
  r = (bob, Err (Generic "out-of-order frame: got 1, expected 0")) /\ closed r.1 = false.
Proof. vm_compute. auto. Qed.

End Handshake.
