(* ===== verification/Carrier.v ===== *)
(** * Carrier: a session over a byte transport ([tf-session/src/lib.rs])

    Two programs run the handshake of [Session] over a framed transport and then
    a loop that seals what the endpoint is given to send and opens what arrives.
    [Framed] with its length-delimited codec hands over whole messages in order;
    the serialisation of the three handshake messages is the record
    [message_lib].  An [attach] is the code up to its next read or write; a
    listener is a number and what it was called with is recorded.

    - [carrier_conserves]: an attached pair, under every interleaving of calls,
      loop turns and failures, hands a listener that was there before the first
      turn a prefix of the readable frames sent, in order; what is not handed over
      yet is on the wire or, while the sender runs, queued;
    - [carrier_drains]: without a close or a failure everything arrives;
    - [unheard_frame_lost]: a frame that arrives before a listener is there. *)

From S2P Require Import Prelude Utf8 Json Base64 Crypto Canonical Session SessionProofs Handshake.
Import Canonical Crypto Session SessionProofs Handshake.

#[local] Open Scope string_scope.
#[local] Open Scope list_scope.
#[local] Open Scope Z_scope.

Module Carrier.

Inductive CarrierError := SessionFailed (e : SessionError) | Io (m : string) | Serialization (m : string) | HandshakeFailed (m : string).

(** [serde_json::to_vec] and [from_slice] at the three messages. *)
Record message_lib := mk_message_lib {
  hello_i_to_vec : HelloI -> result string (list Z); hello_i_from_slice : list Z -> result string HelloI;
  hello_r_to_vec : HelloR -> result string (list Z); hello_r_from_slice : list Z -> result string HelloR;
  auth_to_vec : Auth -> result string (list Z); auth_from_slice : list Z -> result string Auth
}.
(** What is written is read back. *)
Record message_laws (m : message_lib) : Prop := {
  law_hello_i : forall h, exists bs, hello_i_to_vec m h = Ok bs /\ hello_i_from_slice m bs = Ok h;
  law_hello_r : forall h, exists bs, hello_r_to_vec m h = Ok bs /\ hello_r_from_slice m bs = Ok h;
  law_auth : forall a, exists bs, auth_to_vec m a = Ok bs /\ auth_from_slice m bs = Ok a
}.

(** ** The endpoint *)

(** [rx] holds the frames sent and not taken by the loop; [handle]: the endpoint,
    which holds the sender, is still there; [running]: the loop is. *)
Record SessionEndpoint := mk_SessionEndpoint {
  session : SessionState; rx : list SessionFrame; handle : bool; listeners : list nat; calls : list (nat * SessionFrame); running : bool }.

Definition spawn_endpoint (s : SessionState) : SessionEndpoint := mk_SessionEndpoint s [] true [] [] true.
(** The channel is closed when the loop, which holds its receiver, has ended. *)
Definition endpoint_send (e : SessionEndpoint) (frame : SessionFrame) : SessionEndpoint * result CarrierError unit :=
  if running e then (mk_SessionEndpoint (session e) (rx e ++ [frame]) (handle e) (listeners e) (calls e) (running e), Ok tt)
  else (e, Err (HandshakeFailed "channel closed")).
(** [RpcTransport::send]: the result is dropped. *)
Definition transport_send (e : SessionEndpoint) (frame : SessionFrame) : SessionEndpoint := (endpoint_send e frame).1.
Definition on_frame (e : SessionEndpoint) (l : nat) : SessionEndpoint :=
  mk_SessionEndpoint (session e) (rx e) (handle e) (listeners e ++ [l]) (calls e) (running e).
Definition endpoint_peer_actor (e : SessionEndpoint) : string := peer_actor (session e).
Definition is_close (frame : SessionFrame) : bool := match frame with Close _ => true | _ => false end.

Section carrier.
Variable x : session_lib.
Variable m : message_lib.

(** One turn of the loop that takes an outgoing frame; [io] is what writing to
    the transport gives.  The messages written. *)
Definition loop_out (e : SessionEndpoint) (io : result string unit) : SessionEndpoint * list (list Z) :=
  match running e, rx e with
  | true, frame :: rest =>
    let '(s, sealed) := encrypt x (session e) frame in
    let next r := mk_SessionEndpoint s rest (handle e) (listeners e) (calls e) r in
    match sealed with
    | Ok bytes => match io with Ok _ => (next (negb (is_close frame)), [bytes]) | Err _ => (next false, []) end
    | Err _ => (next false, [])
    end
  | _, _ => (e, [])
  end.
(** One turn that takes what the transport has: a message or a read error. *)
Definition loop_in (e : SessionEndpoint) (item : result string (list Z)) : SessionEndpoint :=
  if running e then
    match item with
    | Ok bytes =>
      let '(s, opened) := decrypt x (session e) bytes in
      match opened with
      | Ok frame => mk_SessionEndpoint s (rx e) (handle e) (listeners e) (calls e ++ map (fun l => (l, frame)) (listeners e)) (negb (is_close frame))
      | Err _ => mk_SessionEndpoint s (rx e) (handle e) (listeners e) (calls e) false
      end
    | Err _ => mk_SessionEndpoint (session e) (rx e) (handle e) (listeners e) (calls e) false
    end
  else e.
(** The [else] branch: no sender is left and the transport has ended. *)
Definition loop_else (e : SessionEndpoint) (transport_ended : bool) : SessionEndpoint :=
  if transport_ended && negb (handle e) && bool_decide (rx e = [])
  then mk_SessionEndpoint (session e) (rx e) (handle e) (listeners e) (calls e) false else e.

(** ** The two programs *)

Inductive attach :=
| Finished (r : result CarrierError SessionEndpoint)
| WriteFrame (bytes : list Z) (k : result string unit -> attach)
| ReadFrame (k : option (result string (list Z)) -> attach).
(** The [?] operator on a result, an error being converted. *)
Definition try_ {A} (r : result CarrierError A) (k : A -> attach) : attach := match r with Ok a => k a | Err e => Finished (Err e) end.
Definition send_ (bytes : list Z) (k : attach) : attach := WriteFrame bytes (fun io => try_ (map_err Io io) (fun _ => k)).
Definition next_ (closed_in : string) (k : list Z -> attach) : attach :=
  ReadFrame (fun item => try_ (r ← ok_or item (HandshakeFailed ("peer closed during " +:+ closed_in)); map_err Io r) k).

Definition attach_initiator (config : SessionConfig) (rng_eph rng_id : list Z) : attach :=
  let '(i1, hello_i) := start x (new_initiator config) rng_eph rng_id in
  try_ (map_err SessionFailed hello_i) (fun hello_i =>
  try_ (map_err Serialization (hello_i_to_vec m hello_i)) (fun hello_i_bytes =>
  send_ hello_i_bytes (
  next_ "HelloR" (fun hello_r_bytes =>
  try_ (map_err Serialization (hello_r_from_slice m hello_r_bytes)) (fun hello_r =>
  try_ (map_err SessionFailed (process_hello_r x i1 hello_r).2) (fun '(auth, session) =>
  try_ (map_err Serialization (auth_to_vec m auth)) (fun auth_bytes =>
  send_ auth_bytes (Finished (Ok (spawn_endpoint session)))))))))).
Definition attach_responder (config : SessionConfig) (rng : list Z) : attach :=
  next_ "HelloI" (fun hello_i_bytes =>
  try_ (map_err Serialization (hello_i_from_slice m hello_i_bytes)) (fun hello_i =>
  let '(r1, hello_r) := process_hello_i x (new_responder config) hello_i rng in
  try_ (map_err SessionFailed hello_r) (fun hello_r =>
  try_ (map_err Serialization (hello_r_to_vec m hello_r)) (fun hello_r_bytes =>
  send_ hello_r_bytes (
  next_ "Auth" (fun auth_bytes =>
  try_ (map_err Serialization (auth_from_slice m auth_bytes)) (fun auth =>
  try_ (map_err SessionFailed (process_auth x r1 auth).2) (fun session =>
  Finished (Ok (spawn_endpoint session)))))))))).

(** ** Both programs on one transport *)

(** The two programs and the messages on their way, run until both wait or are
    finished; every write succeeds. *)
Fixpoint exchange (n : nat) (a b : attach) (ab ba : list (list Z)) : attach * attach * list (list Z) * list (list Z) :=
  match n with
  | O => (a, b, ab, ba)
  | S n =>
    match a, ba, b, ab with
    | WriteFrame w k, _, _, _ => exchange n (k (Ok tt)) b (ab ++ [w]) ba
    | ReadFrame k, w :: ba, _, _ => exchange n (k (Some (Ok w))) b ab ba
    | _, _, WriteFrame w k, _ => exchange n a (k (Ok tt)) ab (ba ++ [w])
    | _, _, ReadFrame k, w :: ab => exchange n a (k (Some (Ok w))) ab ba
    | _, _, _, _ => (a, b, ab, ba)
    end
  end.
Lemma attach_pair cfg_i cfg_r rng_i rng_id rng_r i r s_i s_r : message_laws m -> handshake x cfg_i cfg_r rng_i rng_id rng_r = Ok (i, r, s_i, s_r) ->
  exchange 6 (attach_initiator cfg_i rng_i rng_id) (attach_responder cfg_r rng_r) [] [] =
    (Finished (Ok (spawn_endpoint s_i)), Finished (Ok (spawn_endpoint s_r)), [], []).
Proof.
  intros M. unfold handshake, attach_initiator. destruct (start x _ rng_i rng_id) as [i1 [hi|]]; [|done]. cbn [map_err try_ mbind result_bind].
  destruct (law_hello_i m M hi) as (b1 & -> & R1). cbn [map_err try_ send_ exchange next_ attach_responder ok_or mbind result_bind app]. rewrite R1. cbn [map_err try_].
  destruct (process_hello_i x _ hi rng_r) as [r1 [hr|]]; [|done]. cbn [map_err try_ mbind result_bind].
  destruct (law_hello_r m M hr) as (b2 & -> & R2). cbn [map_err try_ send_ exchange next_ ok_or mbind result_bind app]. rewrite R2. cbn [map_err try_].
  destruct (process_hello_r x i1 hr) as [i2 [[au s1]|]]; [|done]. cbn [map_err try_ mbind result_bind snd].
  destruct (law_auth m M au) as (b3 & -> & R3). cbn [map_err try_ send_ exchange next_ ok_or mbind result_bind app]. rewrite R3. cbn [map_err try_].
  destruct (process_auth x r1 au) as [r2 [s2|]]; [|done]. cbn [map_err try_ mbind result_bind snd]. by intros [= _ _ <- <-].
Qed.

(** ** An attached pair *)

Inductive side := A | B.
Inductive event :=
| USend (d : side) (f : SessionFrame) | UListen (d : side) (l : nat) | UDrop (d : side)
| LOut (d : side) (io : result string unit) | LIn (d : side) | LErr (d : side) | LElse (d : side).
(** The endpoints, the messages towards each, and, for the statements only, the
    frames each accepted for sending. *)
Record pair := mk_pair { end_A : SessionEndpoint; end_B : SessionEndpoint; to_A : list (list Z); to_B : list (list Z); sent_A : list SessionFrame; sent_B : list SessionFrame }.
Definition mirror_pair (p : pair) : pair := mk_pair (end_B p) (end_A p) (to_B p) (to_A p) (sent_B p) (sent_A p).
Definition at_A (p : pair) (e : SessionEndpoint) : pair := mk_pair e (end_B p) (to_A p) (to_B p) (sent_A p) (sent_B p).
Definition drop_handle (e : SessionEndpoint) : SessionEndpoint := mk_SessionEndpoint (session e) (rx e) false (listeners e) (calls e) (running e).

(** What an event of side A does to the pair; a dropped endpoint is not called. *)
Definition step_A (p : pair) (ev : event) : pair :=
  let e := end_A p in
  match ev with
  | USend _ f => if handle e then let '(e', r) := endpoint_send e f in
      mk_pair e' (end_B p) (to_A p) (to_B p) (if is_ok r then sent_A p ++ [f] else sent_A p) (sent_B p) else p
  | UListen _ l => if handle e then at_A p (on_frame e l) else p
  | UDrop _ => at_A p (drop_handle e)
  | LOut _ io => let '(e', ws) := loop_out e io in mk_pair e' (end_B p) (to_A p) (to_B p ++ ws) (sent_A p) (sent_B p)
  | LIn _ =>
    match to_A p with
    | w :: ws => if running e then mk_pair (loop_in e (Ok w)) (end_B p) ws (to_B p) (sent_A p) (sent_B p) else p
    | [] => p
    end
  | LErr _ => at_A p (loop_in e (Err "connection reset"))
  | LElse _ => at_A p (loop_else e (negb (running (end_B p)) && bool_decide (to_A p = [])))
  end.
Definition side_of (ev : event) : side :=
  match ev with USend d _ | UListen d _ | UDrop d | LOut d _ | LIn d | LErr d | LElse d => d end.
Definition step_pair (p : pair) (ev : event) : pair :=
  match side_of ev with A => step_A p ev | B => mirror_pair (step_A (mirror_pair p) ev) end.
Definition run_pair (p : pair) (evs : list event) : pair := foldl step_pair p evs.
(** What a listener was called with. *)
Definition heard (l : nat) (e : SessionEndpoint) : list SessionFrame := map snd (List.filter (fun c => (c.1 =? l)%nat) (calls e)).

(** ** One direction *)

Hypothesis L : session_laws x.
Abbreviation normal := (normal_frame (nfc x)).
Abbreviation sendable := (fun f => readable (nfc x) (frame_to_value f)).

(** The frames sent are those the listener heard, those on the wire and those
    left, which are the queue as long as the sender runs. *)
Definition flows (l : nat) (s r : SessionEndpoint) (ws : list (list Z)) (sent : list SessionFrame) : Prop :=
  exists fs handed left, closed (session r) = false /\ in_flight x (recv_key (session r)) (recv_seq (session r)) ws fs /\
  (running s = true -> conveys x (session s) (session r) ws fs /\ left = rx s) /\ sent = handed ++ left /\ normal <$> handed = heard l r ++ fs.
Definition same_send (s s' : SessionState) : Prop := closed s' = closed s /\ send_key s' = send_key s /\ send_seq s' = send_seq s.
Definition same_recv (r r' : SessionState) : Prop := closed r' = closed r /\ recv_key r' = recv_key r /\ recv_seq r' = recv_seq r.
Lemma flows_frame l s s' r r' ws sent : flows l s r ws sent ->
  (running s' = true -> running s = true /\ same_send (session s) (session s') /\ rx s' = rx s) ->
  same_recv (session r) (session r') -> heard l r' = heard l r -> flows l s' r' ws sent.
Proof.
  intros (fs & handed & left & C & I & K & E & H) S (R1 & R2 & R3) Hh. exists fs, handed, left. rewrite R1, R2, R3, Hh.
  do 2 (split; [done|]). split; [|done]. intros Rn. destruct (S Rn) as (Rs & (S1 & S2 & S3) & ->). destruct (K Rs) as [K1 K2]. split; [|done].
  by apply (conveys_frame x (session s) (session r)).
Qed.
Lemma same_recv_refl r : same_recv r r.
Proof. done. Qed.
Lemma flows_queued l s r ws sent f : flows l s r ws sent -> running s = true -> flows l (transport_send s f) r ws (sent ++ [f]).
Proof.
  intros (fs & handed & left & C & I & K & -> & H) Rs. destruct (K Rs) as [K1 ->]. unfold transport_send, endpoint_send. rewrite Rs. cbn [fst].
  exists fs, handed, (rx s ++ [f]). rewrite (assoc_L (++)). by split_and!.
Qed.
Lemma flows_out l s r ws sent io : Forall sendable sent -> flows l s r ws sent -> flows l (loop_out s io).1 r (ws ++ (loop_out s io).2) sent.
Proof.
  intros Fs F. unfold loop_out. destruct (running s) eqn:Rs; [|by rewrite app_nil_r]. destruct (rx s) as [|f rest] eqn:Q; [by rewrite app_nil_r|].
  destruct (encrypt x (session s) f) as [s' [w|]] eqn:E; [destruct io|];
    [|rewrite app_nil_r; apply (flows_frame l s _ r r); [done|by cbn|done|done]..].
  destruct F as (fs & handed & left & C & I & K & -> & H). destruct (K Rs) as [K1 ->]. rewrite Q in *. cbn [fst snd].
  apply Forall_app in Fs as [_ [Rf _]%Forall_cons]. pose proof (conveys_send x L _ _ _ _ f s' w Rf K1 E) as K2.
  exists (fs ++ [normal f]), (handed ++ [f]), rest. split; [done|]. split; [apply K2|]. split; [done|]. rewrite <-(assoc_L (++)). split; [done|].
  by rewrite fmap_app, H, <-(assoc_L (++)).
Qed.
Lemma heard_call l r f : List.filter (Nat.eqb l) (listeners r) = [l] ->
  map snd (List.filter (fun c => (c.1 =? l)%nat) (calls r ++ map (fun k => (k, f)) (listeners r))) = heard l r ++ [f].
Proof.
  intros H. rewrite List.filter_app, map_app. unfold heard. f_equal.
  assert (forall ks, map snd (List.filter (fun c => (c.1 =? l)%nat) (map (fun k => (k, f)) ks)) = map (fun _ => f) (List.filter (Nat.eqb l) ks)) as -> by
    (induction ks as [|k ks IH]; [done|]; cbn; rewrite (Nat.eqb_sym k l); destruct (l =? k)%nat; cbn; by rewrite IH).
  by rewrite H.
Qed.
Lemma flows_in l s r w ws sent : running r = true -> List.filter (Nat.eqb l) (listeners r) = [l] -> flows l s r (w :: ws) sent -> flows l s (loop_in r (Ok w)) ws sent.
Proof.
  intros Rr Hl (fs & handed & left & C & I & K & -> & H). destruct fs as [|f fs]; [done|]. destruct I as [I1 I2].
  unfold loop_in. rewrite Rr, (decrypt_ok x (session r) w f) by (by apply I1). exists fs, handed, left. cbn [session closed recv_key recv_seq with_recv_seq calls heard].
  do 2 (split; [done|]). split; [|split; [done|]].
  - intros Rs. destruct (K Rs) as [K1 K2]. split; [|done]. destruct (conveys_recv x _ _ _ _ _ K1) as (f' & fs' & [= <- <-] & _ & K3). exact K3.
  - unfold heard at 1. cbn [calls]. rewrite heard_call by done. by rewrite <-(assoc_L (++)).
Qed.
Lemma loop_out_recv s io : same_recv (session s) (session (loop_out s io).1) /\ calls (loop_out s io).1 = calls s /\ listeners (loop_out s io).1 = listeners s.
Proof.
  unfold loop_out, same_recv. destruct (running s); [|done]. destruct (rx s) as [|f rest]; [done|]. unfold encrypt.
  destruct (seal_frame x (session s) f); [destruct io|]; done.
Qed.
Lemma loop_in_send r item : same_send (session r) (session (loop_in r item)) /\ rx (loop_in r item) = rx r /\ listeners (loop_in r item) = listeners r /\
  (running (loop_in r item) = true -> running r = true).
Proof.
  unfold loop_in, same_send. destruct (running r) eqn:E; [|naive_solver]. destruct item as [w|]; [|naive_solver]. unfold decrypt. destruct (open_frame x (session r) w); naive_solver.
Qed.

(** ** The pair *)

Definition good (l : nat) (p : pair) : Prop :=
  (flows l (end_A p) (end_B p) (to_B p) (sent_A p) /\ Forall sendable (sent_A p) /\ List.filter (Nat.eqb l) (listeners (end_A p)) = [l]) /\
  (flows l (end_B p) (end_A p) (to_A p) (sent_B p) /\ Forall sendable (sent_B p) /\ List.filter (Nat.eqb l) (listeners (end_B p)) = [l]).
(** Frames given for sending are readable, and [l] is not registered again. *)
Definition admissible (l : nat) (ev : event) : Prop :=
  match ev with USend _ f => sendable f | UListen _ k => k <> l | _ => True end.
Lemma good_mirror l p : good l p -> good l (mirror_pair p).
Proof. intros [H1 H2]. by split. Qed.
(** An endpoint that changed in nothing the other side sees. *)
Lemma good_at l p e : good l p -> (running e = true -> running (end_A p) = true) -> session e = session (end_A p) -> rx e = rx (end_A p) -> calls e = calls (end_A p) ->
  List.filter (Nat.eqb l) (listeners e) = [l] -> good l (at_A p e).
Proof.
  intros [(F1 & S1 & L1) (F2 & S2 & L2)] R E Q C Hl. split; (split; [|done]); cbn.
  - eapply flows_frame; [exact F1| |done..]. intros Rn. rewrite E. split; [by apply R|]. done.
  - eapply flows_frame; [exact F2|done| |]; [by rewrite E|]. unfold heard. by rewrite C.
Qed.
Lemma good_step_A l p ev : admissible l ev -> good l p -> good l (step_A p ev).
Proof.
  intros Ad G. pose proof G as [(F1 & S1 & L1) (F2 & S2 & L2)]. destruct ev as [d f|d k|d|d io|d|d|d]; cbn [step_A].
  - destruct (handle (end_A p)); [|done]. unfold endpoint_send. destruct (running (end_A p)) eqn:R; cbn [is_ok]; [|by destruct p].
    pose proof (flows_queued l _ _ _ _ f F1 R) as Fq. unfold transport_send, endpoint_send in Fq. rewrite R in Fq.
    split; cbn [end_A end_B to_A to_B sent_A sent_B]; (split; [|done || (split; [|done])]); [exact Fq|apply Forall_app; split; [done|by apply Forall_singleton]|].
    by eapply flows_frame.
  - destruct (handle (end_A p)); [|done]. apply good_at; try done. cbn. rewrite List.filter_app, L1. cbn. cbn in Ad.
    by destruct (Nat.eqb_spec l k) as [->|].
  - by apply good_at.
  - pose proof (flows_out l _ _ _ _ io S1 F1) as Fo. destruct (loop_out_recv (end_A p) io) as (R & C & Li). destruct (loop_out (end_A p) io) as [e' ws]. cbn in *.
    split; cbn; (split; [|done || (split; [done|by rewrite Li])]); [exact Fo|]. eapply flows_frame; [exact F2|done|exact R|]. unfold heard. by rewrite C.
  - destruct (to_A p) as [|w ws] eqn:Tw; [done|]. destruct (running (end_A p)) eqn:R; [|done]. destruct (loop_in_send (end_A p) (Ok w)) as (Sn & Q & Li & Rn).
    split; cbn [end_A end_B to_A to_B sent_A sent_B]; (split; [|done || (split; [done|by rewrite Li])]).
    + eapply flows_frame; [exact F1| |done..]. intros Rn'. split; [by apply Rn|]. done.
    + by apply flows_in.
  - apply good_at; try done; unfold loop_in; destruct (running (end_A p)) eqn:R; cbn; congruence.
  - apply good_at; try done; unfold loop_else; destruct (_ && _); cbn; congruence.
Qed.
Lemma good_run l evs : forall p, Forall (admissible l) evs -> good l p -> good l (run_pair p evs).
Proof.
  induction evs as [|ev evs IH]; intros p F G; [done|]. apply Forall_cons in F as [Ad F]. apply IH; [done|]. unfold step_pair. destruct (side_of ev).
  - by apply good_step_A.
  - by apply good_mirror, good_step_A, good_mirror.
Qed.
(** The pair after both programs are attached and each has its listener. *)
Definition attached (l : nat) (a b : SessionEndpoint) : pair := mk_pair (on_frame a l) (on_frame b l) [] [] [] [].
Lemma flows_start l a b : mirror a b -> flows l (on_frame (spawn_endpoint a) l) (on_frame (spawn_endpoint b) l) [] [].
Proof. intros M. destruct (mirror_simulates x a b M) as [K _]. exists [], [], []. split; [apply K|]. by split_and!. Qed.
Lemma good_attached l a b : mirror a b -> good l (attached l (spawn_endpoint a) (spawn_endpoint b)).
Proof.
  intros M. assert (List.filter (Nat.eqb l) [l] = [l]) as Hl by (cbn; by rewrite Nat.eqb_refl).
  split; (split; [apply flows_start|split; [constructor|exact Hl]]); [done|by apply mirror_sym].
Qed.
Lemma flows_prefix l s r ws sent : flows l s r ws sent -> exists fs left, length fs = length ws /\ normal <$> sent = heard l r ++ fs ++ left /\
  (running s = true -> left = normal <$> rx s).
Proof.
  intros (fs & handed & left & C & I & K & -> & H). exists fs, (normal <$> left). split.
  - clear -I. revert ws I. generalize (recv_seq (session r)). induction fs as [|f fs IH]; intros n [|w ws]; try done. intros [_ I]. cbn. by rewrite (IH _ ws I).
  - rewrite fmap_app, H, <-(assoc_L (++)). split; [done|]. intros Rs. by destruct (K Rs) as [_ ->].
Qed.

(** ** Without a close or a failure *)

(** The canonical text of the frame fits the length field. *)
Definition short (f : SessionFrame) : Prop := forall t, canon x (frame_to_value f) = Ok t -> 8 + Z.of_nat (length (bytes_of_str t)) + 16 < 2 ^ 32.
Definition plain (f : SessionFrame) : Prop := is_close f = false /\ short f.
Definition calm (ev : event) : Prop :=
  match ev with USend _ f => plain f | LOut _ io => io = Ok tt | LErr _ => False | _ => True end.
Definition serene (l : nat) (p : pair) : Prop :=
  good l p /\ (running (end_A p) = true /\ Forall plain (sent_A p)) /\ (running (end_B p) = true /\ Forall plain (sent_B p)).
Lemma serene_mirror l p : serene l p -> serene l (mirror_pair p).
Proof. intros (G & S1 & S2). split; [by apply good_mirror|]. by split. Qed.
Lemma seals s f : closed s = false -> sendable f -> short f -> exists w, encrypt x s f = (with_send_seq s (next_seq (send_seq s)), Ok w).
Proof.
  intros C R S. unfold encrypt, seal_frame. rewrite C. destruct (canon_ok x (frame_to_value f)) as (t & _ & E); [apply R|]. rewrite E. cbn [mbind result_bind].
  specialize (S t E). rewrite (proj2 (Z.ltb_ge _ _)) by lia. by eexists.
Qed.
Lemma queue_sent l s r ws sent P : flows l s r ws sent -> running s = true -> Forall P sent -> Forall P (rx s) /\ closed (session s) = false.
Proof. intros (fs & h & left & _ & _ & K & -> & _) R F. destruct (K R) as [K1 ->]. apply Forall_app in F. split; [apply F|apply K1]. Qed.
Lemma loop_out_plain l p f q : serene l p -> rx (end_A p) = f :: q -> exists w e,
  loop_out (end_A p) (Ok tt) = (e, [w]) /\ rx e = q /\ running e = true.
Proof.
  intros (G & (R & P) & _) Q. destruct G as [(F & S & _) _]. destruct (queue_sent _ _ _ _ _ _ F R P) as [Pq C]. destruct (queue_sent _ _ _ _ _ _ F R S) as [Sq _].
  rewrite Q in Pq, Sq. apply Forall_cons in Pq as [[Pc Ps] _], Sq as [Sf _]. destruct (seals _ f C Sf Ps) as [w E].
  unfold loop_out. rewrite R, Q, E, Pc. by eexists _, _.
Qed.
Lemma is_close_normal f : is_close (normal f) = is_close f.
Proof. by destruct f. Qed.
Lemma loop_in_plain l p w ws : serene l p -> to_A p = w :: ws -> running (loop_in (end_A p) (Ok w)) = true.
Proof.
  intros (G & (R & _) & (_ & P)) T. destruct G as [_ ((fs & h & left & C & I & _ & E & H) & _)]. rewrite T in I. destruct fs as [|f fs]; [done|]. destruct I as [I _].
  unfold loop_in. rewrite R, (decrypt_ok x (session (end_A p)) w f) by (by apply I). cbn [running].
  assert (f ∈ normal <$> h) as (g & -> & Hg)%list_elem_of_fmap by (rewrite H; set_solver). rewrite is_close_normal.
  rewrite E, Forall_app in P. destruct P as [P _]. rewrite Forall_forall in P. by destruct (P g Hg) as [-> _].
Qed.
Lemma serene_step_A l p ev : admissible l ev -> calm ev -> serene l p -> serene l (step_A p ev).
Proof.
  intros Ad Ca Se. pose proof Se as (G & (R1 & P1) & (R2 & P2)). split; [by apply good_step_A|]. destruct ev as [d f|d k|d|d io|d|d|d]; cbn [step_A]; cbn in Ca.
  - destruct (handle (end_A p)); [|done]. unfold endpoint_send. rewrite R1. cbn. split; [|done]. split; [done|]. apply Forall_app. split; [done|by apply Forall_singleton].
  - by destruct (handle (end_A p)).
  - done.
  - subst io. destruct (rx (end_A p)) as [|f q] eqn:Q; [unfold loop_out; by rewrite R1, Q|]. destruct (loop_out_plain l p f q Se Q) as (w & e & -> & _ & R). by cbn.
  - destruct (to_A p) as [|w ws] eqn:T; [done|]. rewrite R1. cbn. by rewrite (loop_in_plain l p w ws Se T).
  - done.
  - rewrite R2. unfold loop_else. cbn. done.
Qed.
Lemma serene_run l evs : forall p, Forall (admissible l) evs -> Forall calm evs -> serene l p -> serene l (run_pair p evs).
Proof.
  induction evs as [|ev evs IH]; intros p F C S; [done|]. apply Forall_cons in F as [Ad F], C as [Ca C]. apply IH; [done..|]. unfold step_pair. destruct (side_of ev).
  - by apply serene_step_A.
  - by apply serene_mirror, serene_step_A, serene_mirror.
Qed.
Lemma serene_attached l a b : mirror a b -> serene l (attached l (spawn_endpoint a) (spawn_endpoint b)).
Proof. intros M. split; [by apply good_attached|]. by repeat constructor. Qed.

(** The turns that bring everything A has to B: A's queue, then the wire. *)
Definition flush (p : pair) : list event :=
  replicate (length (rx (end_A p))) (LOut A (Ok tt)) ++ replicate (length (to_B p) + length (rx (end_A p))) (LIn B).
Lemma out_drained l n : forall p, serene l p -> length (rx (end_A p)) = n -> let p' := run_pair p (replicate n (LOut A (Ok tt))) in
  rx (end_A p') = [] /\ length (to_B p') = (length (to_B p) + n)%nat /\ sent_A p' = sent_A p.
Proof.
  induction n as [|n IH]; intros p S N; [apply nil_length_inv in N; cbn; by rewrite Nat.add_0_r|]. destruct (rx (end_A p)) as [|f q] eqn:Q; [done|].
  destruct (loop_out_plain l p f q S Q) as (w & e & E & Qe & Re). cbn [replicate].
  change (run_pair p (?ev :: ?evs)) with (run_pair (step_pair p ev) evs).
  destruct (IH (step_pair p (LOut A (Ok tt)))) as (I1 & I2 & I3); [by apply serene_step_A|cbn; rewrite E; cbn in *; rewrite Qe; lia|].
  split; [exact I1|]. split; [|rewrite I3; cbn; by rewrite E]. rewrite I2. cbn. rewrite E. cbn. rewrite length_app. cbn. lia.
Qed.
Lemma in_drained l n : forall p, serene l p -> (length (to_A p) <= n)%nat -> let p' := run_pair p (replicate n (LIn A)) in
  to_A p' = [] /\ end_B p' = end_B p /\ sent_B p' = sent_B p.
Proof.
  induction n as [|n IH]; intros p S N; [split; [by apply nil_length_inv, Nat.le_0_r|done]|]. cbn [replicate]. change (run_pair p (?ev :: ?evs)) with (run_pair (step_pair p ev) evs).
  pose proof (serene_step_A l p (LIn A) I I S) as S'. destruct S as (_ & (R & _) & _).
  destruct (IH (step_pair p (LIn A))) as (I1 & I2 & I3); [done| |].
  - cbn. rewrite R. destruct (to_A p) eqn:T; cbn in *; [rewrite T; cbn; lia|lia].
  - split; [exact I1|]. rewrite I2, I3. cbn. rewrite R. by destruct (to_A p).
Qed.
Lemma mirror_twice p : mirror_pair (mirror_pair p) = p.
Proof. by destruct p. Qed.
Lemma run_in_mirror n : forall p, run_pair p (replicate n (LIn B)) = mirror_pair (run_pair (mirror_pair p) (replicate n (LIn A))).
Proof.
  induction n as [|n IH]; intros p; [cbn; by rewrite mirror_twice|]. cbn [replicate]. change (run_pair ?p (?ev :: ?evs)) with (run_pair (step_pair p ev) evs). rewrite IH.
  do 2 f_equal. unfold step_pair. cbn [side_of]. by rewrite mirror_twice.
Qed.
Lemma flushed l p : serene l p -> heard l (end_B (run_pair p (flush p))) = normal <$> sent_A p.
Proof.
  intros S. unfold flush. set (n := length (rx (end_A p))). unfold run_pair. rewrite foldl_app. fold (run_pair p (replicate n (LOut A (Ok tt)))).
  destruct (out_drained l n p S eq_refl) as (Q & T & Sn). assert (serene l (run_pair p (replicate n (LOut A (Ok tt))))) as S1
    by (apply serene_run; [by apply Forall_replicate..|done]).
  set (p1 := run_pair p (replicate n (LOut A (Ok tt)))) in *. fold (run_pair p1 (replicate (length (to_B p) + n) (LIn B))).
  assert (serene l (run_pair p1 (replicate (length (to_B p) + n) (LIn B)))) as (G & (R & _) & _) by (apply serene_run; [by apply Forall_replicate..|done]).
  destruct G as [(F & _) _]. destruct (flows_prefix _ _ _ _ _ F) as (fs & left & Lf & E & K). specialize (K R). rewrite run_in_mirror in *.
  destruct (in_drained l (length (to_B p) + n) (mirror_pair p1)) as (T2 & B2 & S2); [by apply serene_mirror|cbn; lia|].
  cbn [mirror_pair end_A end_B to_B sent_A] in *. rewrite T2 in Lf. destruct fs; [|done]. rewrite S2, B2 in *. cbn [mirror_pair end_B sent_B] in *.
  rewrite Q in K. cbn in K. subst left. rewrite app_nil_r in E. by rewrite <-E, Sn.
Qed.
End carrier.


(** ** Theorems *)

(** The frames [s] accepted, as [r] reads them, are those the listener was called
    with, then one for each message on the wire, then the rest: the queue of [s]
    as long as it runs. *)
Definition conserved (x : session_lib) (l : nat) (s r : SessionEndpoint) (ws : list (list Z)) (sent : list SessionFrame) : Prop :=
  exists fs left, length fs = length ws /\ normal_frame (nfc x) <$> sent = heard l r ++ fs ++ left /\
  (running s = true -> left = normal_frame (nfc x) <$> rx s).
(** C16: two peers that accept a common suite attach over one transport within six
    reads and writes.  Let each then register a listener before its loop takes a
    turn, and let the frames given for sending be readable: no doubles, distinct
    keys, nested less than 128 deep.  From then on, whatever the order of calls,
    loop turns, write failures, read errors and dropped handles, and in both
    directions, this listener is called with a prefix of the frames the peer
    accepted for sending, in order and without gaps or repetitions, each with its
    strings in Unicode normal form.  After the prefix come as many frames as
    messages on the wire; while the loop of the peer runs, the rest is its queue,
    and once it has ended the rest is lost. *)
Theorem carrier_conserves x m cfg_i cfg_r rng_i rng_id rng_r suite (L : session_laws x) (M : message_laws m) (Hs : agreed_suite cfg_i cfg_r = Some suite)
    (Hi : keys_ok x suite cfg_i) (Hr : keys_ok x suite cfg_r) (Hid : is_bytes (unwrap_or (c_session_id_seed cfg_i) rng_id)) :
  exists a b, exchange 6 (attach_initiator x m cfg_i rng_i rng_id) (attach_responder x m cfg_r rng_r) [] [] = (Finished (Ok a), Finished (Ok b), [], []) /\
    endpoint_peer_actor a = key_actor x (c_identity_pub cfg_r) /\ endpoint_peer_actor b = key_actor x (c_identity_pub cfg_i) /\
    forall l evs, Forall (admissible x l) evs -> let p := run_pair x (attached l a b) evs in
      conserved x l (end_A p) (end_B p) (to_B p) (sent_A p) /\ conserved x l (end_B p) (end_A p) (to_A p) (sent_B p).
Proof.
  destruct (handshake_mirrors x cfg_i cfg_r rng_i rng_id rng_r suite L Hs Hi Hr Hid) as (i & r & s_i & s_r & H & _ & _ & Mi & _ & _ & _ & P1 & P2).
  exists (spawn_endpoint s_i), (spawn_endpoint s_r). split; [by eapply attach_pair|]. do 2 (split; [done|]). intros l evs F p.
  destruct (good_run x L l evs _ F (good_attached x l _ _ Mi)) as [(F1 & _) (F2 & _)]. split; by apply flows_prefix.
Qed.
(** with sealed sessions that mirror each other, and as long as no close is
    sent and no transport operation fails, neither loop ends, and as many turns
    as there are frames queued and on the wire bring every frame sent so far to
    the listener, in order. *)
Theorem carrier_drains x a b l evs (L : session_laws x) (M : mirror a b) (F : Forall (admissible x l) evs) (C : Forall (calm x) evs) :
  let p := run_pair x (attached l (spawn_endpoint a) (spawn_endpoint b)) evs in
  running (end_A p) = true /\ running (end_B p) = true /\ heard l (end_B (run_pair x p (flush p))) = normal_frame (nfc x) <$> sent_A p.
Proof.
  intros p. pose proof (serene_run x L l evs _ F C (serene_attached x l a b M)) as S. split; [apply S|]. split; [apply S|]. by apply (flushed x L).
Qed.
(** A frame that arrives before a listener is registered is opened and handed to
    nobody, and the loop starts before the endpoint is returned: a listener
    registered at once can miss what the peer sent at once. *)
Theorem unheard_frame_lost x e w s f : running e = true -> listeners e = [] -> decrypt x (session e) w = (s, Ok f) ->
  calls (on_frame (loop_in x e (Ok w)) 0) = calls e /\ session (loop_in x e (Ok w)) = s.
Proof. intros R N D. unfold loop_in. rewrite R, D, N. cbn. by rewrite app_nil_r. Qed.
(** A close ends the loop: what is queued behind it is not sent, and what is sent
    later is refused, silently by the transport interface. *)
Theorem carrier_close x e reason q io : rx e = Close reason :: q -> running (loop_out x e io).1 = false /\
  forall f, (endpoint_send (loop_out x e io).1 f).2 = Err (HandshakeFailed "channel closed") /\ transport_send (loop_out x e io).1 f = (loop_out x e io).1.
Proof.
  intros Q. assert (running (loop_out x e io).1 = false) as R.
  { unfold loop_out. destruct (running e) eqn:R; [|done]. rewrite Q. destruct (encrypt x (session e) _) as [s [w|]]; [destruct io|]; done. }
  split; [done|]. intros f. unfold transport_send, endpoint_send. by rewrite R.
Qed.

(** ** Witnesses *)

#[global] Instance HelloI_eq_dec : EqDecision HelloI.
Proof. solve_decision. Defined.
#[global] Instance HelloR_eq_dec : EqDecision HelloR.
Proof. solve_decision. Defined.
#[global] Instance Auth_eq_dec : EqDecision Auth.
Proof. solve_decision. Defined.
#[global] Instance HelloI_countable : Countable HelloI.
Proof.
  apply (inj_countable' (fun h => (i_version h, i_suite h, i_supported_suites h, i_session_id h, i_peer_hint h, i_self_hint h, i_eph_pub h))
    (fun '(a, b, c, d, e, f, g) => mk_HelloI a b c d e f g)). by intros [].
Defined.
#[global] Instance HelloR_countable : Countable HelloR.
Proof.
  apply (inj_countable' (fun h => (r_eph_pub h, r_ident_pub h, r_selected_suite h, r_self_hint h, r_signature_mldsa h, r_ident_pub_mldsa h, r_signature h))
    (fun '(a, b, c, d, e, f, g) => mk_HelloR a b c d e f g)). by intros [].
Defined.
#[global] Instance Auth_countable : Countable Auth.
Proof.
  apply (inj_countable' (fun h => (a_ident_pub h, a_signature_mldsa h, a_ident_pub_mldsa h, a_signature h)) (fun '(a, b, c, d) => mk_Auth a b c d)). by intros [].
Defined.
Definition toy_to_vec `{Countable T} (t : T) : result string (list Z) := Ok [Zpos (encode t)].
Definition toy_from_slice `{Countable T} (bs : list Z) : result string T :=
  match bs with [Zpos p] => ok_or (decode p) "expected value" | _ => Err "expected value" end.
Lemma toy_message_reads `{Countable T} (t : T) : exists bs, toy_to_vec t = Ok bs /\ toy_from_slice bs = Ok t.
Proof. eexists. split; [done|]. cbn. by rewrite countable.decode_encode. Qed.
Definition toy_messages : message_lib := mk_message_lib toy_to_vec toy_from_slice toy_to_vec toy_from_slice toy_to_vec toy_from_slice.
Lemma toy_messages_laws : message_laws toy_messages.
Proof. split; intros; apply toy_message_reads. Qed.

(** A conversation: each side sends, one frame is on the wire when A's write
    fails. *)
Definition talk : list event :=
  [USend A (Ping "1"); LOut A (Ok tt); USend B (Data (JString "x")); USend A (Ping "2"); LIn B; LOut B (Ok tt); LOut A (Ok tt); USend A (Ping "3"); LOut A (Err "broken pipe")].
Definition calm_talk : list event := [USend A (Ping "1"); LOut A (Ok tt); USend B (Data (JString "x")); USend A (Ping "2"); LIn B; LOut B (Ok tt)].
Ltac admissible_tac := repeat (apply Forall_cons; split; [try exact I; try readable_tac|]); constructor.
Lemma carrier_conserves_witness : exists a b,
  exchange 6 (attach_initiator toy_session toy_messages (cfg_with 7 None) [] []) (attach_responder toy_session toy_messages (cfg_with 9 None) []) [] [] =
    (Finished (Ok a), Finished (Ok b), [], []) /\
  let p := run_pair toy_session (attached 0 a b) talk in conserved toy_session 0 (end_A p) (end_B p) (to_B p) (sent_A p).
Proof.
  destruct (carrier_conserves toy_session toy_messages (cfg_with 7 None) (cfg_with 9 None) [] [] [] SESSION_SUITE toy_session_laws toy_messages_laws eq_refl
    (cfg_keys_ok _ 7 _ ltac:(lia)) (cfg_keys_ok _ 9 _ ltac:(lia))) as (a & b & E & _ & _ & H).
  - repeat (constructor; [unfold is_u8; lia|]). constructor.
  - exists a, b. split; [exact E|]. apply (H 0%nat talk). unfold talk. admissible_tac.
Defined.
Lemma carrier_drains_witness :
  let p := run_pair toy_session (attached 0 (spawn_endpoint alice) (spawn_endpoint bob)) calm_talk in
  heard 0 (end_B (run_pair toy_session p (flush p))) = [Ping "1"; Ping "2"].
Proof.
  destruct (carrier_drains toy_session alice bob 0 calm_talk toy_session_laws alice_bob_mirror) as (_ & _ & E); [unfold calm_talk; admissible_tac| |intros p; etransitivity; [exact E|vm_compute; reflexivity]].
  unfold calm_talk. repeat (apply Forall_cons; split; [try reflexivity; try exact I; try (split; [reflexivity|]; intros t H; vm_compute in H; injection H as <-; vm_compute; reflexivity)|]). constructor.
Defined.
(** The frame on the wire and the one the failed write lost. *)
Example talk_outcome :
  let p := run_pair toy_session (attached 0 (spawn_endpoint alice) (spawn_endpoint bob)) talk in
  sent_A p = [Ping "1"; Ping "2"; Ping "3"] /\ heard 0 (end_B p) = [Ping "1"] /\ length (to_B p) = 1%nat /\ running (end_A p) = false /\ rx (end_A p) = [].
Proof. by vm_compute. Qed.

End Carrier.
