(* ===== verification/Packet.v ===== *)
(** * Packet: signed packets and their fragmentation ([packet.rs])

    Signing, verification, fragmentation and reassembly of packets.  The
    third-party code is the record [crypto] of [ed25519-dalek], [sha2],
    [flate2] and [serde_json] entry points, with its laws in
    [crypto_laws].  Rust panics are the value [Panic]. *)

From S2P Require Import Prelude Utf8 Json Base64 Cbor BinaryFormat Canonical Clock Expiration.
Import Canonical Clock Expiration.

Module Packet.

Record PacketSignatureEnvelope := mk_PacketSignatureEnvelope {
  algorithm : string; signer : string; sig_text : string
}.

Record PacketFragmentHeader := mk_PacketFragmentHeader {
  fragment_id : string;
  index : Z;
  count : Z;
  total_payload_bytes : Z;
  payload_digest : string
}.

Record Packet := mk_Packet {
  packet_version : string;
  packet_id : string;
  source : string;
  destination : string;
  priority : string;
  emergency : option bool;
  created_at : string;
  expires_at : option string;
  ttl_hops : option Z;
  route_constraints : option (list string);
  encoding : option string;
  compression : option string;
  payload : string;
  session_ref : option string;
  fragment : option PacketFragmentHeader;
  signature : PacketSignatureEnvelope
}.

Record SignPacketArgs := mk_SignPacketArgs {
  a_packet_id : string;
  a_source : string;
  a_destination : string;
  a_priority : string;
  a_payload : list Z;
  a_encoding : option string;
  a_compression : option string;
  a_emergency : bool;
  a_expires_at : option string;
  a_ttl_hops : option Z;
  a_route_constraints : option (list string);
  a_session_ref : option string;
  a_private_key : list Z;
  a_signer : string;
  a_created_at : option string
}.

(** ** The packet as JSON (its [Serialize]) *)

Definition fragment_to_value (h : PacketFragmentHeader) : json :=
  JObject [("fragment_id", JString (fragment_id h)); ("index", jint (index h)); ("count", jint (count h));
           ("total_payload_bytes", jint (total_payload_bytes h)); ("payload_digest", JString (payload_digest h))].
Definition signature_to_value (s : PacketSignatureEnvelope) : json :=
  JObject [("algorithm", JString (algorithm s)); ("signer", JString (signer s)); ("signature", JString (sig_text s))].

(** Every field but the signature, in declaration order. *)
Definition signed_fields (p : Packet) : list (string * json) :=
  field "packet_version" (JString (packet_version p)) ++ field "packet_id" (JString (packet_id p)) ++
  field "source" (JString (source p)) ++ field "destination" (JString (destination p)) ++
  field "priority" (JString (priority p)) ++ opt_field "emergency" (emergency p) JBool ++
  field "created_at" (JString (created_at p)) ++ opt_field "expires_at" (expires_at p) JString ++
  opt_field "ttl_hops" (ttl_hops p) jint ++
  opt_field "route_constraints" (route_constraints p) (fun l => JArray (JString <$> l)) ++
  opt_field "encoding" (encoding p) JString ++ opt_field "compression" (compression p) JString ++
  field "payload" (JString (payload p)) ++ opt_field "session_ref" (session_ref p) JString ++
  opt_field "fragment" (fragment p) fragment_to_value.

Definition packet_to_value (p : Packet) : json :=
  JObject (signed_fields p ++ field "signature" (signature_to_value (signature p))).

(** [map.remove("signature")] on the object. *)
Definition remove_signature (v : json) : json :=
  match v with JObject fields => JObject (assoc_remove "signature" fields) | _ => v end.

(** ** Third-party code *)

Record crypto := mk_crypto {
  nfc : string -> string;
  show_f64 : Z -> string;
  sha256 : list Z -> list Z;
  Sig : Type;
  VK : Type;
  Signature_from_slice : list Z -> result string Sig;
  VerifyingKey_from_bytes : list Z -> result string VK;
  verify : VK -> list Z -> Sig -> bool;
  (** [SigningKey::from_bytes(key).sign(msg).to_bytes()] *)
  sign : list Z -> list Z -> list Z;
  deflate : list Z -> result string (list Z);
  inflate : list Z -> option (list Z);
  json_from_slice : list Z -> result string json
}.

Inductive outcome (A : Type) := Returned (a : A) | Panic (what : string).
Arguments Returned {A} a.
Arguments Panic {A} what.

#[local] Open Scope string_scope.

(** [canonical.rs]'s error text. *)
Definition canonical_error_str (x : crypto) (e : CanonicalJsonError) : string :=
  match e with NonFinite bits => "cannot canonicalize non-finite number: " +:+ show_f64 x bits end.

Definition b64_encode (bs : list Z) : string := str_of_bytes (Base64.encode Base64.STANDARD bs).
Definition b64_decode (s : string) : result string (list Z) :=
  map_err Base64.decode_error_str (Base64.decode Base64.STANDARD (bytes_of_str s)).

(** ** CBOR envelope of the payload *)

(** Encoding a map of one text key and one byte string never fails (the
    source's [expect]). *)
Definition serde_cbor_envelope (raw : list Z) : list Z :=
  match Cbor.encode (Cbor.VMap [(Cbor.Text "raw", Cbor.Bytes raw)]) with Ok b => b | Err _ => [] end.

Fixpoint find_raw (entries : list (Cbor.Value * Cbor.Value)) : result string (list Z) :=
  match entries with
  | [] => Err "cbor envelope missing raw"
  | (Cbor.Text k, Cbor.Bytes b) :: rest => if k =? "raw" then Ok b else find_raw rest
  | _ :: rest => find_raw rest
  end.
Definition decode_cbor_envelope (bytes : list Z) : result string (list Z) :=
  value ← map_err (fun e => "cbor: " +:+ BinaryFormat.cbor_error_str e) (Cbor.decode bytes);
  match value with
  | Cbor.VMap entries => find_raw entries
  | _ => Err "cbor envelope not a map"
  end.

(** ** Signing *)

Section packet.
Variable x : crypto.

Definition canon (v : json) : result CanonicalJsonError string := canonicalize (nfc x) (show_f64 x) v.

Definition packet_signing_bytes (p : Packet) : list Z :=
  let value := remove_signature (packet_to_value p) in
  let canonical := match canon value with Ok t => t | Err _ => "" end in
  sha256 x (bytes_of_str canonical).

Definition with_signature (p : Packet) (text : string) : Packet :=
  mk_Packet (packet_version p) (packet_id p) (source p) (destination p) (priority p) (emergency p)
    (created_at p) (expires_at p) (ttl_hops p) (route_constraints p) (encoding p) (compression p)
    (payload p) (session_ref p) (fragment p)
    (mk_PacketSignatureEnvelope (algorithm (signature p)) (signer (signature p)) text).

(** The end of [sign_packet] and of each fragment: sign the digest of the
    draft and put the signature in. *)
Definition sign_draft (draft : Packet) (private_key : list Z) : Packet :=
  with_signature draft (b64_encode (sign x private_key (packet_signing_bytes draft))).

(** The payload wrapped in its envelope and compressed. *)
Definition wire_payload (encoding compression : string) (raw : list Z) : result string (list Z) :=
  payload_bytes ← (if encoding =? "cbor" then Ok (serde_cbor_envelope raw)
    else canonical ← map_err (fun e => "canonicalize: " +:+ canonical_error_str x e)
           (canon (JObject [("raw", JString (b64_encode raw))]));
         Ok (bytes_of_str canonical));
  if compression =? "deflate" then deflate x payload_bytes else Ok payload_bytes.

Definition non_empty {A} (l : list A) : bool := match l with [] => false | _ => true end.

Definition sign_packet (secs : Z) (args : SignPacketArgs) : result string Packet :=
  if (a_priority args =? "P0") && negb (a_emergency args)
  then Err "P0 priority is reserved for emergency packets" else
  let encoding := unwrap_or (a_encoding args) "cbor" in
  let compression := unwrap_or (a_compression args) "none" in
  final_bytes ← wire_payload encoding compression (a_payload args);
  let draft := mk_Packet "1" (a_packet_id args) (a_source args) (a_destination args) (a_priority args)
    (if a_emergency args then Some true else None)
    (unwrap_or (a_created_at args) (now_iso8601 secs)) (a_expires_at args) (a_ttl_hops args)
    (opt_filter non_empty (a_route_constraints args)) (Some encoding) (Some compression)
    (b64_encode final_bytes) (a_session_ref args) None
    (mk_PacketSignatureEnvelope "ed25519" (a_signer args) "") in
  Ok (sign_draft draft (a_private_key args)).

(** ** Verification *)

Record VerifyPacketResult := mk_VerifyPacketResult {
  ok : bool; reason : option string; verified_payload : option (list Z)
}.
Definition rejected (r : string) : VerifyPacketResult := mk_VerifyPacketResult false (Some r) None.

(** Early returns of the source as the error of a [result]. *)
Definition unwrap_payload (packet : Packet) : result string (list Z) :=
  wire ← map_err (fun e => "payload base64: " +:+ e) (b64_decode (payload packet));
  decompressed ← (if bool_decide (compression packet = Some "deflate")
    then ok_or (inflate x wire) "deflate inflate failed" else Ok wire);
  match encoding packet with
  | None | Some "json" =>
    v ← map_err (fun e => "json decode: " +:+ e) (json_from_slice x decompressed);
    b64 ← ok_or (jget "raw" v ≫= as_str) "json envelope missing raw";
    map_err (fun _ => "payload base64 inner") (b64_decode b64)
  | Some "cbor" => map_err (fun e => "cbor decode: " +:+ e) (decode_cbor_envelope decompressed)
  | Some other => Err ("unknown encoding " +:+ other)
  end.

Definition check_signature (packet : Packet) (public_key : list Z) : result string unit :=
  sig_bytes ← map_err (fun e => "signature base64 decode: " +:+ e) (b64_decode (sig_text (signature packet)));
  sig ← map_err (fun e => "signature parse: " +:+ e) (Signature_from_slice x sig_bytes);
  vk ← map_err (fun e => "verifying key: " +:+ e) (VerifyingKey_from_bytes x public_key);
  if verify x vk (packet_signing_bytes packet) sig then Ok tt else Err "signature verification failed".

Definition check_header (packet : Packet) (now : string) : result string unit :=
  if negb (packet_version packet =? "1") then Err ("unsupported packet_version " +:+ packet_version packet)
  else if negb (signer (signature packet) =? source packet) then Err "signature signer does not match source"
  else if (priority packet =? "P0") && negb (bool_decide (emergency packet = Some true))
  then Err "P0 reserved for emergency packets"
  else match expires_at packet with
       | Some expires =>
         if negb (is_within_window (mk_Window None (Some expires) None None None) now)
         then Err "packet expired" else Ok tt
       | None => Ok tt
       end.

Definition verify_packet (packet : Packet) (public_key : list Z) (now : string) : VerifyPacketResult :=
  match (_ ← check_header packet now; _ ← check_signature packet public_key; unwrap_payload packet) with
  | Ok p => mk_VerifyPacketResult true None (Some p)
  | Err r => rejected r
  end.

(** ** Fragmentation *)

Definition sha256_hex (b : list Z) : string := hex (sha256 x b).

(** The slice of fragment [i], [original[start..end]]. *)
Definition slice (mtu i : nat) (original : list Z) : list Z := take mtu (drop (i * mtu) original).

Definition fragment_draft (src : Packet) (mtu : nat) (original : list Z) (count : nat) (i : nat) : Packet :=
  mk_Packet "1" (packet_id src +:+ "-" +:+ pretty (Z.of_nat i)) (source src) (destination src)
    (priority src) (emergency src) (created_at src) (expires_at src) (ttl_hops src)
    (route_constraints src) (encoding src) (compression src) (b64_encode (slice mtu i original))
    (session_ref src)
    (Some (mk_PacketFragmentHeader ("frag-" +:+ packet_id src) (as_u32 (Z.of_nat i)) (as_u32 (Z.of_nat count))
       (as_u32 (Z.of_nat (length original))) ("sha256:" +:+ sha256_hex original)))
    (mk_PacketSignatureEnvelope "ed25519" (source src) "").

(** [a.div_ceil(b)] for [b > 0]. *)
Definition div_ceil (a b : nat) : nat := ((a + b - 1) / b)%nat.

Definition fragment_packet (src : Packet) (private_key : list Z) (opt_mtu : option nat) : outcome (list Packet) :=
  let mtu := unwrap_or opt_mtu 256%nat in
  let original := match b64_decode (payload src) with Ok b => b | Err _ => [] end in
  let total_bytes := length original in
  if (total_bytes <=? mtu)%nat then Returned [src]
  else if (mtu =? 0)%nat then Panic "attempt to divide by zero"
  else
    let count := div_ceil total_bytes mtu in
    Returned ((fun i => sign_draft (fragment_draft src mtu original count i) private_key) <$> seq 0 count).

Record ReassembleResult := mk_ReassembleResult {
  r_ok : bool;
  r_reason : option string;
  r_packet_id : option string;
  r_payload : option (list Z)
}.
Definition r_rejected (r : string) : ReassembleResult := mk_ReassembleResult false (Some r) None None.

(** Why the slotting loop stops early. *)
Inductive stop := Rejected (r : string) | OutOfBounds.

Fixpoint place (header : PacketFragmentHeader) (fragments : list Packet) (ordered : list (option Packet))
    : result stop (list (option Packet)) :=
  match fragments with
  | [] => Ok ordered
  | f :: rest =>
    match fragment f with
    | None => Err (Rejected "fragment missing header")
    | Some h =>
      if negb (fragment_id h =? fragment_id header) then Err (Rejected "mismatched fragment_id")
      else if negb (Z.eqb (count h) (count header)) then Err (Rejected "mismatched fragment count")
      else match ordered !! Z.to_nat (index h) with
           | None => Err OutOfBounds
           | Some (Some _) => Err (Rejected ("duplicate fragment index " +:+ pretty (index h)))
           | Some None => place header rest (<[Z.to_nat (index h) := Some f]> ordered)
           end
    end
  end.

Fixpoint join_slots (ordered : list (option Packet)) : result string (list Z) :=
  match ordered with
  | [] => Ok []
  | Some p :: rest =>
    bytes ← map_err (fun e => "base64: " +:+ e) (b64_decode (payload p));
    out ← join_slots rest; Ok (bytes ++ out)%list
  | None :: _ => Err "missing fragment slot"
  end.

Definition check_assembled (header : PacketFragmentHeader) (out : list Z) : ReassembleResult :=
  if negb (Z.eqb (Z.of_nat (length out)) (total_payload_bytes header)) then
    r_rejected ("assembled " +:+ pretty (Z.of_nat (length out)) +:+ " bytes, expected " +:+
                pretty (total_payload_bytes header))
  else if negb ("sha256:" +:+ sha256_hex out =? payload_digest header)
  then r_rejected "reassembled payload digest mismatch"
  else mk_ReassembleResult true None (Some (fragment_id header)) (Some out).

Definition reassemble_fragments (fragments : list Packet) : outcome ReassembleResult :=
  match fragments with
  | [] => Returned (r_rejected "no fragments")
  | first :: _ =>
    match fragment first with
    | None => Returned (r_rejected "first fragment missing fragment header")
    | Some header =>
      if negb (Z.eqb (Z.of_nat (length fragments)) (count header)) then
        Returned (r_rejected ("expected " +:+ pretty (count header) +:+ " fragments, got " +:+
                              pretty (Z.of_nat (length fragments))))
      else
        match place header fragments (replicate (Z.to_nat (count header)) None) with
        | Err OutOfBounds => Panic "index out of bounds"
        | Err (Rejected r) => Returned (r_rejected r)
        | Ok ordered =>
          match join_slots ordered with
          | Err r => Returned (r_rejected r)
          | Ok out => Returned (check_assembled header out)
          end
        end
    end
  end.

End packet.

(** ** Laws of the third-party code *)

(** [pk] is the public key of [sk]; signatures verify and are byte
    strings; inflating inverts deflating. *)
Record crypto_laws (x : crypto) (sk pk : list Z) : Prop := {
  law_key : exists vk, VerifyingKey_from_bytes x pk = Ok vk /\
    forall m, exists s, Signature_from_slice x (sign x sk m) = Ok s /\ verify x vk m s = true;
  law_sig_bytes : forall m, is_bytes (sign x sk m);
  law_deflate : forall b c, is_bytes b -> deflate x b = Ok c -> is_bytes c /\ inflate x c = Some b
}.

Lemma b64_decode_encode_bytes bs : is_bytes bs -> b64_decode (b64_encode bs) = Ok bs.
Proof.
  intros Hb. unfold b64_decode, b64_encode.
  pose proof (Base64.encode_bytes Base64.STANDARD (or_introl eq_refl) bs Hb) as He.
  rewrite bytes_of_str_of_bytes by done. rewrite Base64.b64_decode_encode by (done || by left). done.
Qed.

(** ** The signed part of a packet *)

Lemma assoc_remove_last {A} k (v : A) l : Forall (fun kv => kv.1 <> k) l ->
  assoc_remove k (l ++ [(k, v)])%list = l.
Proof.
  induction l as [|[k' v'] l IH]; intros Hl; simpl; [by rewrite String.eqb_refl|].
  inversion_clear Hl as [|? ? Hk Hr]. simpl in Hk. destruct (String.eqb_spec k k'); [congruence|]. by rewrite IH.
Qed.

Lemma signed_part p : remove_signature (packet_to_value p) = JObject (signed_fields p).
Proof.
  unfold packet_to_value, remove_signature. f_equal. apply assoc_remove_last. unfold signed_fields, opt_field, field.
  rewrite !Forall_app. repeat split; try (by repeat constructor); case_match; by repeat constructor.
Qed.

(** The signature does not cover itself. *)
Lemma signing_bytes_signature x p t : packet_signing_bytes x (with_signature p t) = packet_signing_bytes x p.
Proof. unfold packet_signing_bytes. by rewrite !signed_part. Qed.

(** ** Acceptance *)

Definition valid_signature (x : crypto) (p : Packet) (public_key : list Z) : Prop :=
  exists bytes s vk, b64_decode (sig_text (signature p)) = Ok bytes /\ Signature_from_slice x bytes = Ok s /\
    VerifyingKey_from_bytes x public_key = Ok vk /\ verify x vk (packet_signing_bytes x p) s = true.

Lemma check_signature_ok x p pk : check_signature x p pk = Ok tt <-> valid_signature x p pk.
Proof.
  unfold check_signature, valid_signature. split.
  - intros H. apply bind_ok in H as (bytes & H1 & H). apply bind_ok in H as (s & H2 & H).
    apply bind_ok in H as (vk & H3 & H). apply map_err_ok in H1, H2, H3.
    destruct (verify x vk _ s) eqn:E; [|done]. by exists bytes, s, vk.
  - intros (bytes & s & vk & -> & H2 & H3 & H4). simpl. rewrite H2. simpl. rewrite H3. simpl. by rewrite H4.
Qed.

Lemma check_header_ok p now : check_header p now = Ok tt <->
  packet_version p = "1" /\ signer (signature p) = source p /\
  (priority p = "P0" -> emergency p = Some true) /\
  (forall e, expires_at p = Some e -> str_le now e = true).
Proof.
  unfold check_header, is_within_window, check_window, window_start, window_end. simpl.
  destruct (String.eqb_spec (packet_version p) "1"); simpl; [|naive_solver].
  destruct (String.eqb_spec (signer (signature p)) (source p)); simpl; [|naive_solver].
  assert ((match expires_at p with
      | Some expires => if negb match (if str_lt expires now then VExpired expires else VOk) with VOk => true | _ => false end
          then Err "packet expired" else Ok tt
      | None => Ok tt end = @Ok string unit tt) <-> (forall e, expires_at p = Some e -> str_le now e = true)) as Hexp.
  { destruct (expires_at p) as [ex|]; [|naive_solver]. setoid_rewrite str_le_lt.
    split; [intros H e' [= <-]|intros H; specialize (H _ eq_refl)]; destruct (str_lt ex now); done. }
  destruct (String.eqb_spec (priority p) "P0"); simpl; [case_bool_decide; simpl|]; [..|].
  - rewrite Hexp. naive_solver.
  - naive_solver.
  - rewrite Hexp. naive_solver.
Qed.

(** C8: A packet is accepted exactly when it has version 1, is signed by its
    source, claims P0 only as an emergency, has not expired, carries a
    signature that verifies over everything but itself, and its payload
    unwraps; the payload returned is the unwrapped one. *)
Theorem verify_packet_ok_iff x p pk now payload :
  verify_packet x p pk now = mk_VerifyPacketResult true None (Some payload) <->
  packet_version p = "1" /\ signer (signature p) = source p /\
  (priority p = "P0" -> emergency p = Some true) /\
  (forall e, expires_at p = Some e -> str_le now e = true) /\
  valid_signature x p pk /\ unwrap_payload x p = Ok payload.
Proof.
  transitivity (check_header p now = Ok tt /\ check_signature x p pk = Ok tt /\ unwrap_payload x p = Ok payload).
  - unfold verify_packet, rejected. destruct (check_header p now) as [[]|]; simpl; [|naive_solver].
    destruct (check_signature x p pk) as [[]|]; simpl; [|naive_solver].
    destruct (unwrap_payload x p); naive_solver.
  - rewrite check_header_ok, check_signature_ok. tauto.
Qed.

(** ** What is signed verifies *)

Lemma envelope_ok raw : is_bytes raw -> Cbor.len raw < 2 ^ 64 ->
  is_bytes (serde_cbor_envelope raw) /\ decode_cbor_envelope (serde_cbor_envelope raw) = Ok raw.
Proof.
  intros Hb Hl. set (v := Cbor.VMap [(Cbor.Text "raw", Cbor.Bytes raw)]).
  assert (Cbor.wf v) as Hwf.
  { repeat split; try done; vm_compute; reflexivity. }
  assert (Cbor.encode v = Ok (Cbor.put_header 5 1 ++ ((Cbor.put_header 3 3 ++ bytes_of_str "raw") ++
    (Cbor.put_header 2 (Cbor.len raw) ++ raw) ++ []))%list) as He by reflexivity.
  unfold serde_cbor_envelope, decode_cbor_envelope. fold v. rewrite He. split.
  - rewrite app_nil_r. repeat (apply Forall_app; split); try apply Cbor.put_header_bytes; try lia; try done;
      try apply bytes_of_str_bytes. unfold Cbor.len in *. lia.
  - pose proof (Cbor.cbor_decode_encode_value v _ [] Hwf He) as Hd. rewrite app_nil_r in Hd.
    rewrite Hd by (vm_compute; lia). done.
Qed.

Lemma unwrap_signed x sk pk comp raw final p :
  crypto_laws x sk pk -> is_bytes raw -> Cbor.len raw < 2 ^ 64 ->
  wire_payload x "cbor" comp raw = Ok final ->
  payload p = b64_encode final -> encoding p = Some "cbor" -> compression p = Some comp ->
  unwrap_payload x p = Ok raw.
Proof.
  intros Hl Hb Hlen Hw Hp He Hc. destruct (envelope_ok raw Hb Hlen) as [Heb Hed].
  unfold unwrap_payload. rewrite Hp, He, Hc. unfold wire_payload in Hw. simpl in Hw.
  destruct (String.eqb_spec comp "deflate") as [->|Hne].
  - destruct (law_deflate _ _ _ Hl _ _ Heb Hw) as [Hfb Hinf].
    rewrite b64_decode_encode_bytes by done. simpl. rewrite Hinf. simpl. by rewrite Hed.
  - injection Hw as <-. rewrite b64_decode_encode_bytes by done. simpl.
    rewrite bool_decide_false by congruence. simpl. by rewrite Hed.
Qed.

(** A packet signed with the CBOR encoding and any compression verifies
    under the matching public key until it expires, and yields the payload
    that was signed. *)
Theorem sign_packet_verifies x pk secs args p now
    (Hlaws : crypto_laws x (a_private_key args) pk)
    (Hsigner : a_signer args = a_source args)
    (Henc : unwrap_or (a_encoding args) "cbor" = "cbor")
    (Hbytes : is_bytes (a_payload args)) (Hlen : Cbor.len (a_payload args) < 2 ^ 64)
    (Hexp : forall e, a_expires_at args = Some e -> str_le now e = true)
    (Hsign : sign_packet x secs args = Ok p) :
  verify_packet x p pk now = mk_VerifyPacketResult true None (Some (a_payload args)).
Proof.
  unfold sign_packet in Hsign. destruct ((a_priority args =? "P0") && negb (a_emergency args)) eqn:Hp0; [done|].
  apply bind_ok in Hsign as (final & Hw & Hp). rewrite Henc in *. apply Ok_inj in Hp.
  assert (check_header p now = Ok tt) as Hh.
  { apply check_header_ok. subst p. simpl. repeat split; try done. intros E. rewrite E in Hp0. simpl in Hp0.
    by destruct (a_emergency args). }
  assert (check_signature x p pk = Ok tt) as Hs.
  { apply check_signature_ok. destruct (law_key _ _ _ Hlaws) as (vk & Hvk & Hver).
    subst p. unfold valid_signature, sign_draft. rewrite signing_bytes_signature.
    match goal with |- context [packet_signing_bytes x ?d] => destruct (Hver (packet_signing_bytes x d)) as (sg & H1 & H2) end.
    eexists _, sg, vk. split; [|split; [exact H1|split; [exact Hvk|exact H2]]].
    apply b64_decode_encode_bytes, (law_sig_bytes _ _ _ Hlaws). }
  unfold verify_packet. rewrite Hh. simpl. rewrite Hs. simpl.
  rewrite (unwrap_signed x _ _ (unwrap_or (a_compression args) "none") (a_payload args) final p Hlaws Hbytes Hlen Hw);
    subst p; done.
Qed.

(** Third-party code for the witnesses: a signature is the key followed by
    the message, a digest is a prefix, deflating puts a zero in front. *)
Definition toy_sign (sk m : list Z) : list Z := (fun b => b mod 256) <$> (sk ++ m)%list.
Definition toy : crypto :=
  mk_crypto id (fun _ => "") (take 32) (list Z) (list Z) Ok Ok
    (fun vk m s => bool_decide (s = toy_sign vk m)) toy_sign
    (fun b => Ok (0 :: b)) (fun b => match b with 0 :: b' => Some b' | _ => None end) (fun _ => Err "no json").

Lemma toy_laws sk : crypto_laws toy sk sk.
Proof.
  split.
  - exists sk. split; [done|]. intros m. exists (toy_sign sk m). split; [done|]. by apply bool_decide_eq_true.
  - intros m. apply Forall_fmap, Forall_true. intros b. apply Z.mod_pos_bound. lia.
  - intros b c Hb [= <-]. split; [|done]. constructor; [unfold is_u8; lia|done].
Qed.

Definition args1 : SignPacketArgs :=
  mk_SignPacketArgs "p1" "tf:actor:a" "tf:actor:b" "P3" [104; 105] None (Some "deflate") false
    (Some "2027-01-01T00:00:00Z") (Some 3) None None [7; 7] "tf:actor:a" (Some "2026-01-01T00:00:00Z").

Lemma sign_packet_verifies_witness : exists p, sign_packet toy 0 args1 = Ok p /\
  verify_packet toy p [7; 7] "2026-06-01T00:00:00Z" = mk_VerifyPacketResult true None (Some [104; 105]).
Proof.
  eexists. split; [vm_compute; reflexivity|].
  apply (sign_packet_verifies toy [7; 7] 0 args1 _ "2026-06-01T00:00:00Z" (toy_laws [7; 7])).
  - reflexivity.
  - reflexivity.
  - repeat constructor; unfold is_u8; simpl; lia.
  - vm_compute. reflexivity.
  - intros e [= <-]. vm_compute. reflexivity.
  - vm_compute. reflexivity.
Defined.

(** ** Reassembly *)

Lemma slices_join mtu original n :
  concat ((fun i => slice mtu i original) <$> seq 0 n) = take (n * mtu) original.
Proof.
  induction n as [|n IH]; [done|]. rewrite seq_S, fmap_app, concat_app, IH. simpl. unfold slice.
  rewrite app_nil_r. replace (mtu + n * mtu)%nat with (n * mtu + mtu)%nat by lia.
  by rewrite take_take_drop.
Qed.

Lemma div_ceil_covers a b : (0 < b)%nat -> (a <= div_ceil a b * b)%nat.
Proof.
  intros Hb. unfold div_ceil.
  pose proof (Nat.div_mod (a + b - 1) b ltac:(lia)). pose proof (Nat.mod_upper_bound (a + b - 1) b ltac:(lia)). nia.
Qed.

(** Fragments carrying a common header, each with its own index. *)
Definition carries (h : PacketFragmentHeader) (f : Packet) (i : nat) : Prop :=
  exists h', fragment f = Some h' /\ fragment_id h' = fragment_id h /\ count h' = count h /\ Z.to_nat (index h') = i.

Lemma place_all h fs idxs ordered : Forall2 (carries h) fs idxs -> NoDup idxs ->
  (forall i, i ∈ idxs -> ordered !! i = Some None) ->
  exists out, place h fs ordered = Ok out /\ length out = length ordered /\
    (forall f i, (f, i) ∈ zip fs idxs -> out !! i = Some (Some f)) /\
    (forall i, i ∉ idxs -> out !! i = ordered !! i).
Proof.
  intros HF. revert ordered. induction HF as [|f i fs idxs (h' & Hf & Hid & Hc & Hi) HF IH]; intros ordered Hnd Hnone.
  - exists ordered. simpl. repeat split; set_solver.
  - inversion_clear Hnd as [|? ? Hni Hnd']. simpl. rewrite Hf, Hid, String.eqb_refl, Hc, Z.eqb_refl, Hi. simpl.
    rewrite (Hnone i) by left. pose proof (lookup_lt_Some _ _ _ (Hnone i ltac:(left))) as Hlt.
    destruct (IH (<[i := Some f]> ordered)) as (out & -> & Hlen & Hin & Hout); [done| |].
    { intros j Hj. rewrite list_lookup_insert_ne; [apply Hnone; by right|]. intros ->. done. }
    exists out. split; [done|]. rewrite length_insert in Hlen. split; [done|]. split.
    + intros f' j [[= -> ->]|Hz]%elem_of_cons; [|by apply Hin].
      rewrite Hout by done. by apply list_lookup_insert_eq.
    + intros j Hj. rewrite Hout by set_solver. apply list_lookup_insert_ne. set_solver.
Qed.

Lemma join_slots_all (fs : list Packet) bss : Forall2 (fun f b => b64_decode (payload f) = Ok b) fs bss ->
  join_slots (Some <$> fs) = Ok (concat bss).
Proof.
  induction 1 as [|f b fs bss Hf _ IH]; [done|]. rewrite fmap_cons. cbn [join_slots]. rewrite Hf. simpl mbind.
  by rewrite IH.
Qed.

Section roundtrip.
Variables (x : crypto) (src : Packet) (sk original : list Z) (mtu : nat).
Hypothesis Hpayload : b64_decode (payload src) = Ok original.
Hypothesis Hbytes : is_bytes original.
Hypothesis Hmtu : (0 < mtu < length original)%nat.
Hypothesis Hsize : Z.of_nat (length original) < 2 ^ 32.
Let n : nat := div_ceil (length original) mtu.
Let frag (i : nat) : Packet := sign_draft x (fragment_draft x src mtu original n i) sk.
Let header : PacketFragmentHeader :=
  mk_PacketFragmentHeader ("frag-" +:+ packet_id src) 0 (Z.of_nat n) (Z.of_nat (length original))
    ("sha256:" +:+ sha256_hex x original).

Lemma count_small : Z.of_nat n < 2 ^ 32.
Proof.
  enough (n <= length original)%nat by lia. unfold n, div_ceil. apply Nat.Div0.div_le_upper_bound. nia.
Qed.

Lemma frag_carries i : (i < n)%nat -> carries header (frag i) i.
Proof.
  intros Hi. pose proof count_small. eexists. split; [reflexivity|]. simpl. unfold as_u32.
  rewrite !Z.mod_small by lia. by rewrite Nat2Z.id.
Qed.

Lemma frag_payload i : b64_decode (payload (frag i)) = Ok (slice mtu i original).
Proof. apply b64_decode_encode_bytes. unfold slice. by apply Forall_take, Forall_drop. Qed.

Lemma fragment_packet_spec : fragment_packet x src sk (Some mtu) = Returned (frag <$> seq 0 n).
Proof.
  unfold fragment_packet. simpl. rewrite Hpayload.
  destruct (Nat.leb_spec (length original) mtu); [lia|]. destruct (Nat.eqb_spec mtu 0); [lia|]. done.
Qed.

Lemma frag_join : join_slots (Some <$> (frag <$> seq 0 n)) = Ok original.
Proof.
  rewrite (join_slots_all _ ((fun i => slice mtu i original) <$> seq 0 n)).
  - rewrite slices_join, take_ge; [done|]. apply div_ceil_covers. lia.
  - apply Forall2_fmap, Forall2_same_length_lookup. split; [done|]. intros j a b Ha Hb.
    rewrite Ha in Hb. injection Hb as <-. apply frag_payload.
Qed.

Lemma place_frags h idxs : fragment_id h = fragment_id header -> count h = count header -> idxs ≡ₚ seq 0 n ->
  place h (frag <$> idxs) (replicate n None) = Ok (Some <$> (frag <$> seq 0 n)).
Proof.
  intros Hid Hc Hp.
  assert (forall i, i ∈ idxs <-> (i < n)%nat) as Hin.
  { intros i. rewrite Hp, elem_of_seq. lia. }
  assert (NoDup idxs) as Hnd by (rewrite Hp; apply NoDup_seq).
  destruct (place_all h (frag <$> idxs) idxs (replicate n None)) as (out & -> & Hlen & Hz & _); [|done|..].
  - apply Forall2_fmap_l, Forall2_same_length_lookup. split; [done|]. intros j a b Ha Hb. rewrite Ha in Hb.
    injection Hb as <-. destruct (frag_carries a) as (h' & Hf & E1 & E2 & E3).
    { apply Hin. by apply list_elem_of_lookup_2 in Ha. }
    exists h'. rewrite Hid, Hc. auto.
  - intros i Hi%Hin. by apply lookup_replicate.
  - f_equal. rewrite length_replicate in Hlen. apply list_eq_same_length with n; [by rewrite !length_fmap, length_seq|done|].
    intros i a b Hi Ha Hb. rewrite !list_lookup_fmap, lookup_seq_lt in Hb by done. simpl in Hb.
    rewrite (Hz (frag i) i) in Ha; [congruence|]. apply Hin in Hi. apply list_elem_of_lookup_1 in Hi as [j Hj].
    apply list_elem_of_lookup_2 with j. rewrite lookup_zip_with, list_lookup_fmap, Hj. done.
Qed.

Lemma frag_header i : exists h, fragment (frag i) = Some h /\ fragment_id h = fragment_id header /\
  count h = count header /\ total_payload_bytes h = total_payload_bytes header /\
  payload_digest h = payload_digest header.
Proof.
  pose proof count_small. eexists. split; [reflexivity|]. simpl. unfold as_u32. by rewrite !Z.mod_small by lia.
Qed.

Lemma reassemble_frags fs : fs ≡ₚ frag <$> seq 0 n ->
  reassemble_fragments x fs =
  Returned (mk_ReassembleResult true None (Some ("frag-" +:+ packet_id src)) (Some original)).
Proof.
  intros Hp. apply Permutation_map_inv in Hp as (idxs & -> & Hp). symmetry in Hp.
  change (map frag idxs) with (frag <$> idxs).
  assert (0 < n)%nat as Hn0.
  { pose proof (div_ceil_covers (length original) mtu ltac:(lia)) as Hcov.
    change (div_ceil (length original) mtu) with n in Hcov. nia. }
  assert (length (frag <$> idxs) = n) as Hlen by (rewrite length_fmap, Hp; apply length_seq).
  unfold reassemble_fragments. destruct (frag <$> idxs) as [|f fs] eqn:Ef; [simpl in Hlen; lia|].
  assert (exists i0, f = frag i0) as [i0 ->].
  { destruct idxs as [|i0 idxs']; [done|]. rewrite fmap_cons in Ef. exists i0. congruence. }
  destruct (frag_header i0) as (h & -> & Hid & Hc & Ht & Hd).
  rewrite Hlen, Hc. simpl count. rewrite Z.eqb_refl, Nat2Z.id. cbn [negb].
  rewrite <- Ef, (place_frags h idxs Hid Hc Hp), frag_join.
  unfold check_assembled. rewrite Ht, Hd, Hid. simpl. rewrite Z.eqb_refl, String.eqb_refl. done.
Qed.

End roundtrip.

(** Fragmenting loses nothing: whatever order the fragments of a packet
    arrive in, reassembly accepts them and gives back the wire payload of
    the packet. *)
Theorem fragments_reassemble x src sk original mtu frags fs
    (Hpayload : b64_decode (payload src) = Ok original) (Hbytes : is_bytes original)
    (Hmtu : (0 < mtu < length original)%nat) (Hsize : Z.of_nat (length original) < 2 ^ 32)
    (Hfrag : fragment_packet x src sk (Some mtu) = Returned frags) (Hperm : fs ≡ₚ frags) :
  reassemble_fragments x fs =
  Returned (mk_ReassembleResult true None (Some ("frag-" +:+ packet_id src)) (Some original)).
Proof.
  rewrite (fragment_packet_spec x src sk original mtu Hpayload Hmtu) in Hfrag. injection Hfrag as <-.
  by apply reassemble_frags with sk mtu.
Qed.

Definition packet5 : Packet :=
  mk_Packet "1" "p" "a" "b" "P3" None "t" None None None None None (b64_encode [1; 2; 3; 4; 5]) None None
    (mk_PacketSignatureEnvelope "ed25519" "a" "").

Lemma fragments_reassemble_witness : exists frags,
  fragment_packet toy packet5 [9] (Some 2%nat) = Returned frags /\
  reassemble_fragments toy (reverse frags) =
  Returned (mk_ReassembleResult true None (Some "frag-p") (Some [1; 2; 3; 4; 5])).
Proof.
  eexists. split; [vm_compute; reflexivity|].
  eapply (fragments_reassemble toy packet5 [9] [1; 2; 3; 4; 5] 2);
    [vm_compute; reflexivity|repeat constructor; unfold is_u8; lia|simpl; lia|simpl; lia
    |vm_compute; reflexivity|apply reverse_Permutation].
Defined.

(** ** Out-of-range fragment indices *)

Lemma place_out_of_bounds h fs idxs ordered : Forall2 (carries h) fs idxs -> NoDup idxs ->
  (forall i, i ∈ idxs -> ordered !! i = Some None \/ ordered !! i = None) ->
  (exists i, i ∈ idxs /\ ordered !! i = None) -> place h fs ordered = Err OutOfBounds.
Proof.
  intros HF. revert ordered. induction HF as [|f i fs idxs (h' & Hf & Hid & Hc & Hi) HF IH]; intros ordered Hnd Hfree Hout.
  - destruct Hout as (i & Hi & _). set_solver.
  - inversion_clear Hnd as [|? ? Hni Hnd']. simpl. rewrite Hf, Hid, String.eqb_refl, Hc, Z.eqb_refl, Hi. simpl.
    destruct (Hfree i ltac:(left)) as [E|E]; rewrite E; [|done]. apply IH; [done|..].
    + intros j Hj. rewrite list_lookup_insert_ne by (intros ->; done). apply Hfree. by right.
    + destruct Hout as (j & [->|Hj]%elem_of_cons & Hn); [congruence|].
      exists j. split; [done|]. by apply list_lookup_insert_None.
Qed.

(** Reassembly does not check fragment indices against the count: a
    complete set of fragments with distinct indices, one of them out of
    range, makes it panic instead of being rejected. *)
Theorem reassemble_panics x first rest h idxs
    (Hfirst : fragment first = Some h) (Hcount : count h = Z.of_nat (length (first :: rest)))
    (Hall : Forall2 (carries h) (first :: rest) idxs) (Hnd : NoDup idxs)
    (Hbad : exists i, i ∈ idxs /\ (length (first :: rest) <= i)%nat) :
  reassemble_fragments x (first :: rest) = Panic "index out of bounds".
Proof.
  unfold reassemble_fragments. rewrite Hfirst, Hcount, Z.eqb_refl, Nat2Z.id. cbn [negb].
  rewrite (place_out_of_bounds h (first :: rest) idxs); [done|done|done|..].
  - intros i _. destruct (decide (i < length (first :: rest))%nat).
    + left. by apply lookup_replicate.
    + right. apply lookup_ge_None. rewrite length_replicate. lia.
  - destruct Hbad as (i & Hi & Hge). exists i. split; [done|]. apply lookup_ge_None. by rewrite length_replicate.
Qed.

Definition bad_fragment : Packet :=
  mk_Packet "1" "p-0" "a" "b" "P3" None "t" None None None None None (b64_encode [1]) None
    (Some (mk_PacketFragmentHeader "frag-p" 5 1 1 "d")) (mk_PacketSignatureEnvelope "ed25519" "a" "").

Lemma reassemble_panics_witness : reassemble_fragments toy [bad_fragment] = Panic "index out of bounds".
Proof.
  apply (reassemble_panics toy bad_fragment [] (mk_PacketFragmentHeader "frag-p" 5 1 1 "d") [5%nat]).
  - reflexivity.
  - reflexivity.
  - constructor; [|constructor]. by eexists.
  - apply NoDup_singleton.
  - exists 5%nat. split; [by left|simpl; lia].
Defined.

End Packet.
