(* ===== verification/Signed.v ===== *)
(** * Signed: documents signed over their canonical JSON

    Relay authorities, session migrations, permission grants, federation
    attestations, evidence bundles and sealed bundles are all signed the same
    way: the document as JSON, without its [signature] entry, in canonical
    text, hashed with SHA-256 and signed with ed25519.  A document type gives
    its JSON form and its signature text as a [SignedDoc] instance with the
    laws of [SignedDocLaws]; what is proved here holds for each of them.
    The third-party code is the record [Packet.crypto]. *)

From S2P Require Import Prelude Utf8 Json Base64 Cbor BinaryFormat Canonical Packet.
Import Canonical.

Module Signed.
#[local] Open Scope string_scope.
#[local] Open Scope list_scope.
#[local] Open Scope Z_scope.

(** [SignatureEnvelope], the same in every module that signs. *)
Record SignatureEnvelope := mk_SignatureEnvelope { algorithm : string; signer : string; sig_text : string }.
Definition envelope_to_value (s : SignatureEnvelope) : json :=
  JObject [("algorithm", JString (algorithm s)); ("signer", JString (signer s)); ("signature", JString (sig_text s))].
Definition fill_signature (s : SignatureEnvelope) (text : string) : SignatureEnvelope :=
  mk_SignatureEnvelope (algorithm s) (signer s) text.
(** The envelope before signing. *)
Definition blank_envelope (who : string) : SignatureEnvelope := mk_SignatureEnvelope "ed25519" who "".

(** Version 1, signed by the actor the document names, with ed25519; the
    texts are those of the calling module. *)
Definition check_head (version_label signer_text algorithm_label version who : string) (s : SignatureEnvelope) :
    result string unit :=
  if negb (version =? "1")%string then Err (version_label +:+ version)
  else if negb (signer s =? who)%string then Err signer_text
  else if negb (algorithm s =? "ed25519")%string then Err (algorithm_label +:+ algorithm s)
  else Ok tt.

(** [Option::filter(|l| !l.is_empty())]. *)
Definition filter_nonempty {A} (o : option (list A)) : option (list A) :=
  match o with Some [] => None | _ => o end.

Lemma check_head_ok l1 l2 l3 version who s : check_head l1 l2 l3 version who s = Ok tt <->
  version = "1" /\ signer s = who /\ algorithm s = "ed25519".
Proof.
  unfold check_head. destruct (String.eqb_spec version "1"); cbn [negb]; [|split; [discriminate|naive_solver]].
  destruct (String.eqb_spec (signer s) who); cbn [negb]; [|split; [discriminate|naive_solver]].
  destruct (String.eqb_spec (algorithm s) "ed25519"); cbn [negb]; split; (discriminate || naive_solver).
Qed.

(** Stripping the signature leaves the other entries. *)
Lemma strip_signature fs v : Forall (fun kv : string * json => kv.1 <> "signature") fs ->
  Packet.remove_signature (JObject (fs ++ field "signature" v)) = JObject fs.
Proof. intros H. unfold Packet.remove_signature. f_equal. by apply Packet.assoc_remove_last. Qed.

Section signed.
Variable x : Packet.crypto.

(** [canonicalize(&value).unwrap_or_default()], hashed, after
    [map.remove("signature")]. *)
Definition digest_value (v : json) : list Z :=
  Packet.sha256 x (bytes_of_str (match Packet.canon x v with Ok s => s | Err _ => "" end)).
Definition signing_digest (v : json) : list Z := digest_value (Packet.remove_signature v).

Definition sign_digest (private_key digest : list Z) : string := Packet.b64_encode (Packet.sign x private_key digest).

(** Base64 decoding, parsing of signature and key, verification; [b64_label],
    [parse_label] and [failure] are the texts of the calling module. *)
Definition check_digest (b64_label parse_label failure : string) (digest : list Z) (text : string) (public_key : list Z) :
    result string unit :=
  sig_bytes ← map_err (fun e => b64_label +:+ e) (Packet.b64_decode text);
  sig ← map_err (fun e => parse_label +:+ e) (Packet.Signature_from_slice x sig_bytes);
  vk ← map_err (fun e => "verifying key: " +:+ e) (Packet.VerifyingKey_from_bytes x public_key);
  if Packet.verify x vk digest sig then Ok tt else Err failure.

(** The signature [text] over [digest] verifies under [public_key]. *)
Definition digest_signed (digest : list Z) (text : string) (public_key : list Z) : Prop :=
  exists bs sig vk, Packet.b64_decode text = Ok bs /\ Packet.Signature_from_slice x bs = Ok sig /\
    Packet.VerifyingKey_from_bytes x public_key = Ok vk /\ Packet.verify x vk digest sig = true.

Lemma check_digest_ok l1 l2 l3 d t pk : check_digest l1 l2 l3 d t pk = Ok tt <-> digest_signed d t pk.
Proof.
  unfold check_digest, digest_signed. split.
  - intros E. apply bind_ok in E as (bs & Hb%map_err_ok & E). apply bind_ok in E as (sig & Hs%map_err_ok & E).
    apply bind_ok in E as (vk & Hv%map_err_ok & E). exists bs, sig, vk. do 3 (split; [done|]).
    by destruct (Packet.verify x vk d sig).
  - intros (bs & sig & vk & -> & Hs & Hv & Hver). cbn [map_err mbind result_bind]. rewrite Hs. cbn [map_err mbind result_bind].
    rewrite Hv. cbn [map_err mbind result_bind]. by rewrite Hver.
Qed.

Lemma sign_digest_checks sk pk d : Packet.crypto_laws x sk pk -> digest_signed d (sign_digest sk d) pk.
Proof.
  intros L. destruct (Packet.law_key _ _ _ L) as (vk & Hvk & Hs). destruct (Hs d) as (sig & Hsig & Hv).
  exists (Packet.sign x sk d), sig, vk. split; [|done].
  apply Packet.b64_decode_encode_bytes, (Packet.law_sig_bytes _ _ _ L).
Qed.
End signed.

(** ** Document types *)

Class SignedDoc (D : Type) := {
  doc_to_value : D -> json;
  doc_signature : D -> string;
  doc_fill : D -> string -> D
}.

Class SignedDocLaws (D : Type) `{SignedDoc D} : Prop := {
  (** The signature is not part of what is signed. *)
  doc_strip : forall (d : D) t, Packet.remove_signature (doc_to_value (doc_fill d t)) = Packet.remove_signature (doc_to_value d);
  doc_filled : forall (d : D) t, doc_signature (doc_fill d t) = t
}.

Section docs.
Context (x : Packet.crypto) {D : Type} `{Hlaws : SignedDocLaws D}.

Definition doc_digest (d : D) : list Z := signing_digest x (doc_to_value d).
Definition sign_doc (d : D) (private_key : list Z) : D := doc_fill d (sign_digest x private_key (doc_digest d)).

(** A document's own signature verifies. *)
Definition doc_signed (d : D) (public_key : list Z) : Prop :=
  digest_signed x (doc_digest d) (doc_signature d) public_key.

Lemma doc_digest_fill d t : doc_digest (doc_fill d t) = doc_digest d.
Proof using Hlaws. unfold doc_digest, signing_digest. by rewrite doc_strip. Qed.

(** Signing makes a document's signature verify. *)
Lemma sign_doc_signed d sk pk : Packet.crypto_laws x sk pk -> doc_signed (sign_doc d sk) pk.
Proof using Hlaws.
  intros L. unfold doc_signed, sign_doc. rewrite doc_digest_fill, doc_filled. by apply sign_digest_checks.
Qed.

(** Documents with the same signed part have the same valid signatures. *)
Lemma doc_signed_strip d e pk :
  Packet.remove_signature (doc_to_value d) = Packet.remove_signature (doc_to_value e) ->
  doc_signature d = doc_signature e -> doc_signed d pk -> doc_signed e pk.
Proof. unfold doc_signed, doc_digest, signing_digest. by intros -> ->. Qed.
End docs.

End Signed.
