(* ===== verification/Relay.v ===== *)
(** * Relay: forwarding authority and the relay handler ([relay.rs])

    A signed [RelayAuthority] lets a relay carry frames; [RelayHandler]
    checks the authority once, then its window, the frame's expiry, the hop
    count and the rate limit on every frame.  The handler's [Cell]s are
    fields of its state. *)

From Stdlib Require Import Sorted.
From S2P Require Import Prelude Utf8 Json Base64 Cbor BinaryFormat Canonical Clock Expiration Packet Signed.
Import Clock Expiration Signed.

Module Relay.
#[local] Open Scope string_scope.
#[local] Open Scope list_scope.
#[local] Open Scope Z_scope.

Record RelayAuthority := mk_RelayAuthority {
  relay_authority_version : string;
  relay : string;
  trust_domain : string;
  kinds : list string;
  max_hop_count : option Z;
  rate_limit_per_minute : option Z;
  valid_from : string;
  valid_until : option string;
  issuer : string;
  constraints : option (list json);
  signature : SignatureEnvelope
}.

Record RelayFrame := mk_RelayFrame {
  ciphertext : list Z;
  destination : string;
  priority : option string;
  hop_count : Z;
  frame_expires_at : option string;
  source : option string
}.

Record RelayForwardedEvent := mk_RelayForwardedEvent {
  kind : string;
  ev_relay : string;
  ev_destination : string;
  ev_source : option string;
  hop_count_in : Z;
  hop_count_out : Z;
  size_bytes : Z;
  forwarded_at : string;
  authority_id : option string;
  ev_priority : option string
}.

Inductive RelayPolicyError :=
| Authority (s : string)
| OutsideWindow (s : string)
| FrameExpired (s : string)
| HopCap (s : string)
| Rate (s : string).

Record RelayHandler := mk_RelayHandler {
  authority : RelayAuthority;
  issuer_pub : list Z;
  validated : bool;
  rate_bucket_minute : Z;
  rate_bucket_count : Z
}.

(** ** The authority and its signature *)

Definition authority_fields (a : RelayAuthority) : list (string * json) :=
  field "relay_authority_version" (JString (relay_authority_version a)) ++ field "relay" (JString (relay a)) ++
  field "trust_domain" (JString (trust_domain a)) ++ field "kinds" (JArray (JString <$> kinds a)) ++
  opt_field "max_hop_count" (max_hop_count a) jint ++ opt_field "rate_limit_per_minute" (rate_limit_per_minute a) jint ++
  field "valid_from" (JString (valid_from a)) ++ opt_field "valid_until" (valid_until a) JString ++
  field "issuer" (JString (issuer a)) ++ opt_field "constraints" (constraints a) JArray.
Definition authority_to_value (a : RelayAuthority) : json :=
  JObject (authority_fields a ++ field "signature" (envelope_to_value (signature a))).
Definition with_envelope (a : RelayAuthority) (s : SignatureEnvelope) : RelayAuthority :=
  mk_RelayAuthority (relay_authority_version a) (relay a) (trust_domain a) (kinds a) (max_hop_count a)
    (rate_limit_per_minute a) (valid_from a) (valid_until a) (issuer a) (constraints a) s.

#[export] Instance authority_doc : SignedDoc RelayAuthority := {
  doc_to_value := authority_to_value;
  doc_signature a := sig_text (signature a);
  doc_fill a t := with_envelope a (fill_signature (signature a) t)
}.

#[export] Instance authority_doc_laws : SignedDocLaws RelayAuthority.
Proof.
  split; [|done]. intros a t. cbn [doc_to_value authority_doc]. unfold authority_to_value.
  by rewrite !strip_signature by (unfold authority_fields, opt_field, field; repeat case_match; repeat constructor; done).
Qed.

Record VerifyRelayAuthorityResult := mk_VerifyRelayAuthorityResult { ok : bool; reason : option string }.

Section relay.
Variable x : Packet.crypto.

Definition relay_authority_signing_bytes (a : RelayAuthority) : list Z := doc_digest x a.

Definition sign_relay_authority (a : RelayAuthority) (private_key : list Z) : RelayAuthority :=
  sign_doc x (with_envelope a (blank_envelope (issuer a))) private_key.

Definition check_authority (a : RelayAuthority) (issuer_public_key : list Z) : result string unit :=
  if negb (relay_authority_version a =? "1")%string then Err ("unsupported version " +:+ relay_authority_version a)
  else if negb (algorithm (signature a) =? "ed25519")%string
  then Err ("unsupported signature algorithm " +:+ algorithm (signature a))
  else if negb (signer (signature a) =? issuer a)%string then Err "signature signer does not match authority issuer"
  else check_digest x "signature base64 decode: " "signature parse: " "relay authority signature did not verify"
         (relay_authority_signing_bytes a) (sig_text (signature a)) issuer_public_key.
Definition verify_relay_authority (a : RelayAuthority) (issuer_public_key : list Z) : VerifyRelayAuthorityResult :=
  match check_authority a issuer_public_key with
  | Ok _ => mk_VerifyRelayAuthorityResult true None
  | Err r => mk_VerifyRelayAuthorityResult false (Some r)
  end.

(** ** The handler *)

Definition new (a : RelayAuthority) (issuer_public_key : list Z) : RelayHandler :=
  mk_RelayHandler a issuer_public_key false (-1) 0.

Definition with_validated (h : RelayHandler) : RelayHandler :=
  mk_RelayHandler (authority h) (issuer_pub h) true (rate_bucket_minute h) (rate_bucket_count h).
Definition with_bucket (h : RelayHandler) (minute count : Z) : RelayHandler :=
  mk_RelayHandler (authority h) (issuer_pub h) (validated h) minute count.

(** The authority is verified on the first frame only. *)
Definition validate (h : RelayHandler) : result RelayPolicyError RelayHandler :=
  if validated h then Ok h
  else
    let v := verify_relay_authority (authority h) (issuer_pub h) in
    if negb (ok v) then Err (Authority (unwrap_or (reason v) "unknown")) else Ok (with_validated h).

(** The checks that leave the handler alone. *)
Definition check_frame (a : RelayAuthority) (frame : RelayFrame) (now : string) : result RelayPolicyError unit :=
  if negb (is_within_window (mk_Window (Some (valid_from a)) (valid_until a) None None None) now)
  then Err (OutsideWindow "outside valid_from/valid_until")
  else
    _ ← match frame_expires_at frame with
        | Some exp => if str_lt exp now then Err (FrameExpired ("frame expired at " +:+ exp)) else Ok tt
        | None => Ok tt
        end;
    match max_hop_count a with
    | Some max =>
      if max <=? hop_count frame
      then Err (HopCap ("hop count " +:+ pretty (hop_count frame) +:+ " >= max " +:+ pretty max)) else Ok tt
    | None => Ok tt
    end.

(** The request counted in the bucket of its minute. *)
Definition count_request (h : RelayHandler) (now : string) : RelayHandler :=
  let minute := parse_minute now in
  let h1 := if minute =? rate_bucket_minute h then h else with_bucket h minute 0 in
  with_bucket h1 (rate_bucket_minute h1) (as_u32 (rate_bucket_count h1 + 1)).

Definition forwarded (a : RelayAuthority) (frame : RelayFrame) (now : string) : RelayFrame * RelayForwardedEvent :=
  let outgoing := mk_RelayFrame (ciphertext frame) (destination frame) (priority frame) (as_u32 (hop_count frame + 1))
    (frame_expires_at frame) (source frame) in
  (outgoing, mk_RelayForwardedEvent "relay.forwarded" (relay a) (destination frame) (source frame) (hop_count frame)
     (hop_count outgoing) (Z.of_nat (length (ciphertext frame))) now (Some (relay a)) (priority frame)).

Definition forward (h : RelayHandler) (frame : RelayFrame) (now : string) :
    RelayHandler * result RelayPolicyError (RelayFrame * RelayForwardedEvent) :=
  match validate h with
  | Err e => (h, Err e)
  | Ok h =>
    match check_frame (authority h) frame now with
    | Err e => (h, Err e)
    | Ok _ =>
      match rate_limit_per_minute (authority h) with
      | Some limit =>
        let h := count_request h now in
        if limit <? rate_bucket_count h then (h, Err (Rate ("rate limit " +:+ pretty limit +:+ "/min exceeded")))
        else (h, Ok (forwarded (authority h) frame now))
      | None => (h, Ok (forwarded (authority h) frame now))
      end
    end
  end.
End relay.

(** ** What is forwarded *)

Definition authority_valid (x : Packet.crypto) (a : RelayAuthority) (pk : list Z) : Prop :=
  relay_authority_version a = "1" /\ algorithm (signature a) = "ed25519" /\ signer (signature a) = issuer a /\
  doc_signed x a pk.

Lemma check_authority_ok x a pk : check_authority x a pk = Ok tt <-> authority_valid x a pk.
Proof.
  unfold check_authority, authority_valid. fold (doc_signature a).
  destruct (String.eqb_spec (relay_authority_version a) "1"); cbn [negb]; [|split; [discriminate|naive_solver]].
  destruct (String.eqb_spec (algorithm (signature a)) "ed25519"); cbn [negb]; [|split; [discriminate|naive_solver]].
  destruct (String.eqb_spec (signer (signature a)) (issuer a)); cbn [negb]; [|split; [discriminate|naive_solver]].
  rewrite check_digest_ok. unfold doc_signed, relay_authority_signing_bytes. naive_solver.
Qed.

Definition frame_admissible (a : RelayAuthority) (frame : RelayFrame) (now : string) : Prop :=
  in_window (mk_Window (Some (valid_from a)) (valid_until a) None None None) now /\
  (forall e, frame_expires_at frame = Some e -> str_le now e = true) /\
  (forall m, max_hop_count a = Some m -> hop_count frame < m).

Lemma check_frame_ok a frame now : check_frame a frame now = Ok tt <-> frame_admissible a frame now.
Proof.
  unfold check_frame, frame_admissible. rewrite <- is_within_window_iff.
  destruct (is_within_window _ now); cbn [negb]; [|split; [discriminate|intros [? _]; done]].
  rewrite bind_ok. split.
  - intros ([] & He & Hm). split; [done|]. split.
    + intros e E. rewrite E in He. unfold str_le. fold (str_lt e now). by destruct (str_lt e now).
    + intros m E. rewrite E in Hm. destruct (Z.leb_spec m (hop_count frame)); [done|lia].
  - intros (_ & He & Hm). exists tt. split.
    + destruct (frame_expires_at frame) as [e|]; [|done]. specialize (He e eq_refl). unfold str_le in He.
      fold (str_lt e now) in He. by destruct (str_lt e now).
    + destruct (max_hop_count a) as [m|]; [|done]. specialize (Hm m eq_refl).
      destruct (Z.leb_spec m (hop_count frame)); [lia|done].
Qed.

(** The count of the minute's bucket once this request is in it. *)
Definition bucket_after (h : RelayHandler) (now : string) : Z := rate_bucket_count (count_request h now).

Lemma validate_ok x h h' : validate x h = Ok h' <->
  (validated h = true \/ authority_valid x (authority h) (issuer_pub h)) /\ h' = with_validated h.
Proof.
  unfold validate, verify_relay_authority. destruct (validated h) eqn:Ev.
  - assert (with_validated h = h) as -> by (destruct h; unfold with_validated; cbn in *; by subst).
    split; [intros [= ->]; auto|intros [_ ->]; done].
  - pose proof (check_authority_ok x (authority h) (issuer_pub h)) as Hc.
    destruct (check_authority x (authority h) (issuer_pub h)) as [[]|e] eqn:E; cbn [ok negb].
    + split; [intros [= <-]; split; [right; by apply Hc|done]|intros [_ ->]; done].
    + split; [discriminate|]. intros [[?|Hv] _]; [discriminate|]. by apply Hc in Hv.
Qed.


(** The frames of a handler with a valid authority that pass its checks. *)
Definition authorized (x : Packet.crypto) (h : RelayHandler) : Prop := validated h = true \/ authority_valid x (authority h) (issuer_pub h).



#[global] Instance authorized_dec x h : Decision (authorized x h).
Proof.
  unfold authorized. destruct (decide (validated h = true)); [left; by left|].
  destruct (check_authority x (authority h) (issuer_pub h)) as [[]|e] eqn:E; [left; right; by apply check_authority_ok|].
  right. intros [?|?%check_authority_ok]; congruence.
Defined.
#[global] Instance frame_admissible_dec a frame now : Decision (frame_admissible a frame now).
Proof.
  destruct (check_frame a frame now) as [[]|e] eqn:E; [left; by apply check_frame_ok|right]. intros ?%check_frame_ok. congruence.
Defined.


(** ** The rate limit over a run *)

(** The number of frames of minute [m] that a run of requests forwards. *)
Fixpoint forwarded_in (x : Packet.crypto) (h : RelayHandler) (reqs : list (RelayFrame * string)) (m : Z) : Z :=
  match reqs with
  | [] => 0
  | (frame, now) :: rest =>
    let '(h', r) := forward x h frame now in
    (if is_ok r && (parse_minute now =? m) then 1 else 0) + forwarded_in x h' rest m
  end.

(** What one request does to the bucket. *)
Lemma forward_bucket x h frame now limit :
  rate_limit_per_minute (authority h) = Some limit ->
  let '(h', r) := forward x h frame now in
  authority h' = authority h /\
  (rate_bucket_minute h' = rate_bucket_minute h /\ rate_bucket_count h' = rate_bucket_count h /\ is_ok r = false \/
   rate_bucket_minute h' = parse_minute now /\ rate_bucket_count h' = bucket_after h now /\
   (is_ok r = true -> bucket_after h now <= limit)).
Proof.
  intros Hl. unfold forward. destruct (validate x h) as [h1|e] eqn:E; [|auto].
  apply validate_ok in E as [_ ->]. cbn [authority with_validated].
  destruct (check_frame (authority h) frame now) as [[]|e]; [|auto]. rewrite Hl.
  assert (count_request (with_validated h) now = with_validated (count_request h now)) as ->
    by (unfold count_request; cbn; by destruct (parse_minute now =? rate_bucket_minute h)).
  assert (authority (count_request h now) = authority h /\ rate_bucket_minute (count_request h now) = parse_minute now) as [Ha Hm].
  { unfold count_request. destruct (Z.eqb_spec (parse_minute now) (rate_bucket_minute h)); cbn; auto. }
  cbn [rate_bucket_count with_validated]. fold (bucket_after h now).
  destruct (Z.ltb_spec limit (bucket_after h now)); (split; [exact Ha|]); right; (split; [exact Hm|]); by split.
Qed.

Lemma bucket_after_eq h now : 0 <= rate_bucket_count h < 2 ^ 32 - 1 ->
  bucket_after h now = if parse_minute now =? rate_bucket_minute h then rate_bucket_count h + 1 else 1.
Proof.
  intros H. unfold bucket_after, count_request, as_u32. destruct (Z.eqb_spec (parse_minute now) (rate_bucket_minute h)); cbn [rate_bucket_count with_bucket].
  - rewrite Z.mod_small; lia.
  - done.
Qed.

Lemma forwarded_in_none x h reqs m : Forall (fun r => parse_minute r.2 <> m) reqs -> forwarded_in x h reqs m = 0.
Proof.
  intros H. revert h. induction H as [|[frame now] reqs Hr _ IH]; intros h; [done|]. cbn [forwarded_in].
  destruct (forward x h frame now) as [h' r]. rewrite IH. cbn in Hr.
  destruct (Z.eqb_spec (parse_minute now) m); [done|]. by rewrite andb_false_r.
Qed.

Lemma forwarded_in_bound x limit reqs h m : 0 <= limit ->
  rate_limit_per_minute (authority h) = Some limit ->
  StronglySorted (fun a b => parse_minute a.2 <= parse_minute b.2) reqs ->
  rate_bucket_count h = 0 \/ Forall (fun r => rate_bucket_minute h <= parse_minute r.2) reqs ->
  0 <= rate_bucket_count h -> rate_bucket_count h + Z.of_nat (length reqs) < 2 ^ 32 ->
  forwarded_in x h reqs m <= if m =? rate_bucket_minute h then Z.max 0 (limit - rate_bucket_count h) else limit.
Proof.
  intros Hlim. revert h. induction reqs as [|[frame now] reqs IH]; intros h Hl Hs Hm Hc Hn.
  { cbn. destruct (m =? rate_bucket_minute h); lia. }
  inversion_clear Hs as [|? ? Hs' Hall]. cbn [forwarded_in length] in *.
  pose proof (forward_bucket x h frame now limit Hl) as Hf. destruct (forward x h frame now) as [h' r].
  destruct Hf as [Ha [(Hm' & Hc' & Hr)|(Hm' & Hc' & Hr)]].
  - rewrite Hr. cbn [andb]. rewrite <- Hm', <- Hc'. apply IH; rewrite ?Ha, ?Hm', ?Hc'; try done; [|lia].
    destruct Hm as [?|Hm]; [by left|right]. by inversion Hm.
  - rewrite bucket_after_eq in * by lia. specialize (IH h').
    rewrite Ha, Hm', Hc' in IH. specialize (IH Hl Hs' (or_intror Hall)).
    destruct (Z.eqb_spec (parse_minute now) (rate_bucket_minute h)) as [E|E].
    + specialize (IH ltac:(lia) ltac:(lia)). rewrite E in *.
      destruct (Z.eqb_spec m (rate_bucket_minute h)) as [->|Hne].
      * rewrite Z.eqb_refl, andb_true_r. destruct (is_ok r); [specialize (Hr eq_refl)|]; lia.
      * destruct (Z.eqb_spec (rate_bucket_minute h) m); [lia|]. rewrite andb_false_r. lia.
    + specialize (IH ltac:(lia) ltac:(lia)).
      destruct (Z.eqb_spec (parse_minute now) m) as [<-|Hne].
      * rewrite Z.eqb_refl in IH. rewrite andb_true_r. destruct (Z.eqb_spec (parse_minute now) (rate_bucket_minute h)); [done|].
        destruct (is_ok r); [specialize (Hr eq_refl)|]; lia.
      * rewrite andb_false_r. destruct (Z.eqb_spec m (parse_minute now)); [lia|].
        destruct (Z.eqb_spec m (rate_bucket_minute h)) as [->|]; [|lia].
        destruct Hm as [Hz|Hm]; [lia|]. inversion_clear Hm as [|? ? Hm0 _]. cbn in Hm0.
        rewrite forwarded_in_none; [lia|]. eapply Forall_impl; [exact Hall|]. cbn. lia.
Qed.

(** The rate limit holds over time.  A fresh handler whose clock does not
    run back over a minute boundary forwards at most [rate_limit_per_minute]
    frames in any minute, whatever it is asked to forward (below the 2^32
    requests at which its counter wraps). *)
Theorem relay_rate_limited x a pk limit reqs m
    (Hlim : 0 <= limit) (Hl : rate_limit_per_minute a = Some limit)
    (Hs : StronglySorted (fun r1 r2 => parse_minute r1.2 <= parse_minute r2.2) reqs)
    (Hn : Z.of_nat (length reqs) < 2 ^ 32) :
  forwarded_in x (new a pk) reqs m <= limit.
Proof.
  pose proof (forwarded_in_bound x limit reqs (new a pk) m Hlim Hl Hs (or_introl eq_refl)) as H. cbn in H.
  specialize (H ltac:(lia) ltac:(lia)). destruct (m =? -1); lia.
Qed.

(** ** Witnesses *)

Definition open_authority : RelayAuthority :=
  mk_RelayAuthority "1" "tf:actor:relay:r" "example.com" ["packet"] (Some 4) (Some 1) "2026-01-01T00:00:00Z" None "issuer" None
    (blank_envelope "issuer").
Definition frame0 : RelayFrame := mk_RelayFrame [1; 2; 3] "dst" None 0 None None.

Lemma relay_rate_limited_witness :
  forwarded_in Packet.toy (new (sign_relay_authority Packet.toy open_authority [7]) [7])
    [(frame0, "2026-05-01T00:00:01Z"); (frame0, "2026-05-01T00:00:30Z"); (frame0, "2026-05-01T00:01:00Z")] 29626560 <= 1.
Proof.
  apply (relay_rate_limited Packet.toy (sign_relay_authority Packet.toy open_authority [7]) [7] 1).
  - lia.
  - reflexivity.
  - repeat constructor; vm_compute; discriminate.
  - cbn. lia.
Defined.

(** Signing an authority makes it valid; the handler then forwards, counts
    the second frame of the minute out and the next minute in. *)
Example relay_run :
  let h := new (sign_relay_authority Packet.toy open_authority [7]) [7] in
  let r1 := forward Packet.toy h frame0 "2026-05-01T00:00:01Z" in
  let r2 := forward Packet.toy r1.1 frame0 "2026-05-01T00:00:30Z" in
  let r3 := forward Packet.toy r2.1 frame0 "2026-05-01T00:01:00Z" in
  (is_ok r1.2, is_ok r2.2, is_ok r3.2) = (true, false, true) /\ forwarded_in Packet.toy h
    [(frame0, "2026-05-01T00:00:01Z"); (frame0, "2026-05-01T00:00:30Z")] 29626560 = 1.
Proof. vm_compute. auto. Qed.

Lemma signed_authority_valid x a sk pk : Packet.crypto_laws x sk pk -> relay_authority_version a = "1" ->
  authority_valid x (sign_relay_authority x a sk) pk.
Proof. intros L Hv. do 3 (split; [done|]). apply (sign_doc_signed x _ sk pk L). Qed.

End Relay.
