(* ===== verification/OfflineApproval.v ===== *)
(** * OfflineApproval: signed approval packets ([offline_approval.rs])

    An approval decided offline travels as a packet signed over request,
    decision, responder and time.  The verifier slices the timestamp by byte
    offsets, which panics off a character boundary: panics are the value
    [Packet.Panic]. *)

From S2P Require Import Prelude Utf8 Json Base64 Cbor BinaryFormat Canonical Clock Packet Signed.
Import Clock Signed.
Import Packet(outcome, Returned, Panic).

Module OfflineApproval.
#[local] Open Scope string_scope.
#[local] Open Scope list_scope.
#[local] Open Scope Z_scope.

Record OfflineApprovalPacket := mk_OfflineApprovalPacket {
  packet_version : string;
  request : json;
  decision : string;
  responder : string;
  responded_at : string;
  transport_hint : string;
  signature : SignatureEnvelope
}.
Record OfflineApprovalCeremony := mk_OfflineApprovalCeremony {
  ceremony_version : string;
  ceremony_id : string;
  ceremony_kind : string;
  ceremony_request_id : string;
  ceremony_responder : string;
  packet_id : string;
  ceremony_transport_hint : string;
  ceremony_signature : string
}.
Record ApprovalResponse := mk_ApprovalResponse {
  response_version : string;
  request_id : string;
  response_decision : string;
  response_responder : string;
  signed_at : string;
  response_signature : SignatureEnvelope
}.
Record VerifyOfflineApprovalResult := mk_VerifyOfflineApprovalResult {
  ok : bool;
  reason : option string;
  response : option ApprovalResponse;
  ceremony : option OfflineApprovalCeremony
}.
Definition rejected (r : string) : VerifyOfflineApprovalResult := mk_VerifyOfflineApprovalResult false (Some r) None None.

(** ** Timestamps *)

(** A field of the timestamp: [s[a..b].parse().map_err(|_| ())?]; [None] is
    the parse error. *)
Definition slice_parse (s : string) (a b : nat) (parse : string -> option Z) : outcome (option Z) :=
  if is_char_boundary s a && is_char_boundary s b then Returned (parse (String.substring a (b - a) s))
  else Panic "byte index is not a char boundary".
Definition then_field (m : outcome (option Z)) (k : Z -> outcome (option Z)) : outcome (option Z) :=
  match m with Returned (Some v) => k v | Returned None => Returned None | Panic w => Panic w end.

Definition unix_from_civil (year month day hour minute second : Z) : Z :=
  ymd_to_days year month day * 86400 + hour * 3600 + minute * 60 + second.

Definition ends_with_Z (s : string) : bool :=
  match String.get (String.length s - 1) s with Some c => Ascii.eqb c "Z" | None => false end.

Definition parse_iso8601 (s : string) : outcome (option Z) :=
  if (String.length s <? 19)%nat || negb (ends_with_Z s) then Returned None else
  then_field (slice_parse s 0 4 parse_i64) (fun year =>
  then_field (slice_parse s 5 7 parse_u32) (fun month =>
  then_field (slice_parse s 8 10 parse_u32) (fun day =>
  then_field (slice_parse s 11 13 parse_u32) (fun hour =>
  then_field (slice_parse s 14 16 parse_u32) (fun minute =>
  then_field (slice_parse s 17 19 parse_u32) (fun second =>
  Returned (Some (unix_from_civil year month day hour minute second)))))))).

(** ** Signing and verifying *)

(** [json!({"request": .., "decision": .., "responder": .., "responded_at": ..})]. *)
Definition payload_value (request : json) (decision responder responded_at : string) : json :=
  JObject [("request", request); ("decision", JString decision); ("responder", JString responder);
           ("responded_at", JString responded_at)].

Section approval.
Variable x : Packet.crypto.

Definition sign_offline_approval_packet (secs : Z) (request : json) (decision responder : string)
    (private_key : list Z) (transport_hint : string) (responded_at : option string) : OfflineApprovalPacket :=
  let responded_at := unwrap_or responded_at (now_iso8601 secs) in
  let digest := digest_value x (payload_value request decision responder responded_at) in
  mk_OfflineApprovalPacket "1" request decision responder responded_at transport_hint
    (mk_SignatureEnvelope "ed25519" responder (sign_digest x private_key digest)).

Definition check_fields (packet : OfflineApprovalPacket) : result string unit :=
  check_head "unsupported packet_version " "signature signer does not match responder" "unsupported signature algorithm "
    (packet_version packet) (responder packet) (signature packet).

(** The age test; an unreadable time passes. *)
Definition check_age (packet : OfflineApprovalPacket) (now : option string) (max : Z) : outcome (result string unit) :=
  match parse_iso8601 (responded_at packet) with
  | Panic w => Panic w
  | Returned then_secs =>
    match now, then_secs with
    | Some now_str, Some then_secs =>
      match parse_iso8601 now_str with
      | Panic w => Panic w
      | Returned None => Returned (Ok tt)
      | Returned (Some now_secs) =>
        let age := now_secs - then_secs in
        Returned (if max <? age then Err ("packet older than " +:+ pretty max +:+ "s")
                  else if age <? -300 then Err "packet timestamp is in the future" else Ok tt)
      end
    | _, _ => Returned (Ok tt)
    end
  end.

Definition packet_digest (packet : OfflineApprovalPacket) : list Z :=
  digest_value x (payload_value (request packet) (decision packet) (responder packet) (responded_at packet)).

(** The response and ceremony record of an accepted packet. *)
Definition accepted (packet : OfflineApprovalPacket) : VerifyOfflineApprovalResult :=
  let packet_id := "pkt-" +:+ String.substring 0 16 (hex (packet_digest packet)) in
  let request_id := unwrap_or (jget "id" (request packet) ≫= as_str) "" in
  mk_VerifyOfflineApprovalResult true None
    (Some (mk_ApprovalResponse "1" request_id (decision packet) (responder packet) (responded_at packet) (signature packet)))
    (Some (mk_OfflineApprovalCeremony "1" ("cer-" +:+ packet_id) "offline-signed-packet" request_id (responder packet)
       packet_id (transport_hint packet) (sig_text (signature packet)))).

Definition verify_offline_approval_packet (packet : OfflineApprovalPacket) (public_key : list Z) (now : option string)
    (max_age_seconds : option Z) : outcome VerifyOfflineApprovalResult :=
  match check_fields packet with
  | Err r => Returned (rejected r)
  | Ok _ =>
    match check_age packet now (unwrap_or max_age_seconds 86400) with
    | Panic w => Panic w
    | Returned (Err r) => Returned (rejected r)
    | Returned (Ok _) =>
      Returned (match check_digest x "signature base64 decode: " "signature parse: " "signature verification failed"
                        (packet_digest packet) (sig_text (signature packet)) public_key with
                | Err r => rejected r
                | Ok _ => accepted packet
                end)
    end
  end.
End approval.

(** ** What an accepted packet means *)

(** The age lies within the limits whenever both times can be read. *)
Definition fresh (packet : OfflineApprovalPacket) (now : option string) (max : Z) : Prop :=
  forall n t s, now = Some n -> parse_iso8601 (responded_at packet) = Returned (Some t) ->
    parse_iso8601 n = Returned (Some s) -> -300 <= s - t <= max.
(** Neither timestamp is cut inside a character. *)
Definition sliceable (packet : OfflineApprovalPacket) (now : option string) : Prop :=
  (exists o, parse_iso8601 (responded_at packet) = Returned o) /\
  (forall n t, now = Some n -> parse_iso8601 (responded_at packet) = Returned (Some t) -> exists o, parse_iso8601 n = Returned o).

Lemma check_age_ok packet now max : check_age packet now max = Returned (Ok tt) <->
  sliceable packet now /\ fresh packet now max.
Proof.
  unfold check_age, sliceable, fresh. destruct (parse_iso8601 (responded_at packet)) as [o|w].
  2: { split; [discriminate|]. intros [[[? ?] _] _]. discriminate. }
  destruct now as [n|]; [|split; [intros _; split; [split; [eauto|naive_solver]|naive_solver]|done]].
  destruct o as [t|]; [|split; [intros _; split; [split; [eauto|naive_solver]|naive_solver]|done]].
  destruct (parse_iso8601 n) as [[s|]|w] eqn:En.
  - split.
    + intros H. assert (-300 <= s - t <= max) as Hr.
      { destruct (Z.ltb_spec max (s - t)); [discriminate|]. destruct (Z.ltb_spec (s - t) (-300)); [discriminate|]. lia. }
      split; [split; [eauto|intros ? ? [= <-] _; eauto]|]. intros n' t' s' [= <-] [= <-] E. rewrite En in E. by injection E as <-.
    + intros [_ Hf]. specialize (Hf n t s eq_refl eq_refl En).
      destruct (Z.ltb_spec max (s - t)); [lia|]. destruct (Z.ltb_spec (s - t) (-300)); [lia|]. done.
  - split; [|done]. intros _. split; [split; [eauto|intros ? ? [= <-] _; eauto]|]. intros n' t' s' [= <-] _ E. congruence.
  - split; [discriminate|]. intros [[_ H] _]. destruct (H n t eq_refl eq_refl) as [? ?]. congruence.
Qed.

Lemma check_fields_ok packet : check_fields packet = Ok tt <->
  packet_version packet = "1" /\ signer (signature packet) = responder packet /\ algorithm (signature packet) = "ed25519".
Proof. apply check_head_ok. Qed.

(** An offline approval is accepted exactly when it is well-formed, fresh
    and signed: version 1, signed with ed25519 by the responder it names, its
    age between five minutes ahead and the maximum wherever both times can be
    read, and the signature over request, decision, responder and time
    verifying under the given key.  The response it yields carries that
    decision and responder. *)
Theorem offline_approval_accepted_iff x packet pk now max_age res :
  verify_offline_approval_packet x packet pk now max_age = Returned res /\ ok res = true <->
  packet_version packet = "1" /\ signer (signature packet) = responder packet /\ algorithm (signature packet) = "ed25519" /\
  sliceable packet now /\ fresh packet now (unwrap_or max_age 86400) /\
  digest_signed x (packet_digest x packet) (sig_text (signature packet)) pk /\ res = accepted x packet.
Proof.
  unfold verify_offline_approval_packet. destruct (check_fields packet) as [[]|r] eqn:Ef.
  2: { split; [intros [[= <-] ?]; discriminate|]. intros (Hv & Hs & Ha & _).
       assert (check_fields packet = Ok tt) by (apply check_fields_ok; auto). congruence. }
  apply check_fields_ok in Ef as (Hv & Hs & Ha).
  destruct (check_age packet now (unwrap_or max_age 86400)) as [[[]|r]|w] eqn:Eg.
  2,3: split; [intros [[= <-] ?]; discriminate || intros [? ?]; discriminate|];
       intros (_ & _ & _ & Hsl & Hfr & _); pose proof (proj2 (check_age_ok _ _ _) (conj Hsl Hfr)); congruence.
  apply check_age_ok in Eg as [Hsl Hfr]. destruct (check_digest x _ _ _ _ _ _) as [[]|r] eqn:Ed.
  - apply check_digest_ok in Ed. split; [intros [[= <-] _]; auto 10|]. intros (_ & _ & _ & _ & _ & _ & ->). auto.
  - split; [intros [[= <-] ?]; discriminate|]. intros (_ & _ & _ & _ & _ & Hd & _).
    apply (check_digest_ok x "signature base64 decode: " "signature parse: " "signature verification failed") in Hd. congruence.
Qed.

(** ** Signing, panics and the unsigned hint *)

(** An approval signed by the key's holder is accepted while it is fresh,
    and yields the decision that was signed for the request that was asked. *)
Theorem signed_approval_accepted x secs req dec who sk pk hint at_ now max_age
    (Hl : Packet.crypto_laws x sk pk)
    (Hs : sliceable (sign_offline_approval_packet x secs req dec who sk hint at_) now)
    (Hf : fresh (sign_offline_approval_packet x secs req dec who sk hint at_) now (unwrap_or max_age 86400)) :
  exists res, verify_offline_approval_packet x (sign_offline_approval_packet x secs req dec who sk hint at_) pk now max_age
    = Returned res /\ ok res = true /\ response_decision <$> response res = Some dec /\
  response_responder <$> response res = Some who /\
  request_id <$> response res = Some (unwrap_or (jget "id" req ≫= as_str) "").
Proof.
  set (p := sign_offline_approval_packet x secs req dec who sk hint at_) in *.
  assert (digest_signed x (packet_digest x p) (sig_text (signature p)) pk) as Hd.
  { exact (sign_digest_checks x sk pk (packet_digest x p) Hl). }
  exists (accepted x p). split; [|done].
  unfold verify_offline_approval_packet. replace (check_fields p) with (@Ok string unit tt).
  2: { symmetry. apply check_fields_ok. done. }
  rewrite (proj2 (check_age_ok p now (unwrap_or max_age 86400)) (conj Hs Hf)).
  apply (check_digest_ok x "signature base64 decode: " "signature parse: " "signature verification failed") in Hd.
  by rewrite Hd.
Qed.

(** A packet whose [responded_at] has a character across byte 4 makes the
    verifier panic before it looks at the signature, whatever the key. *)
Theorem unsigned_packet_panics x packet pk now max_age
    (Hf : check_fields packet = Ok tt) (Hlen : (19 <= String.length (responded_at packet))%nat)
    (Hz : ends_with_Z (responded_at packet) = true) (Hb : is_char_boundary (responded_at packet) 4 = false) :
  exists w, verify_offline_approval_packet x packet pk now max_age = Panic w.
Proof.
  unfold verify_offline_approval_packet. rewrite Hf. unfold check_age, parse_iso8601.
  destruct (Nat.ltb_spec (String.length (responded_at packet)) 19); [lia|]. rewrite Hz. cbn [negb orb].
  unfold slice_parse at 1. rewrite Hb, andb_false_r. cbn [then_field]. eauto.
Qed.

(** Only a [sliceable] timestamp is guaranteed an answer, and ASCII ones are. *)
Lemma slice_parse_ascii s a b parse : is_ascii s = true -> (a <= String.length s)%nat -> (b <= String.length s)%nat ->
  slice_parse s a b parse = Returned (parse (String.substring a (b - a) s)).
Proof. intros H Ha Hb. unfold slice_parse. by rewrite !ascii_boundary. Qed.

Lemma then_field_returns m k : (exists o, m = Returned o) -> (forall v, exists o, k v = Returned o) ->
  exists o, then_field m k = Returned o.
Proof. intros [[v|] ->] Hk; cbn; [apply Hk|eauto]. Qed.

Lemma ascii_parse_returns s : is_ascii s = true -> exists o, parse_iso8601 s = Returned o.
Proof.
  intros H. unfold parse_iso8601. destruct (Nat.ltb_spec (String.length s) 19); [cbn; eauto|].
  destruct (ends_with_Z s); cbn [negb orb]; [|eauto].
  repeat (apply then_field_returns; [rewrite slice_parse_ascii by (done || lia); eauto|intros ?]). eauto.
Qed.

(** With ASCII timestamps the verifier always answers: no input makes it
    panic, whatever the other fields, the key and the limits. *)
Theorem ascii_approval_never_panics x packet pk now max_age
    (Hr : is_ascii (responded_at packet) = true) (Hn : forall n, now = Some n -> is_ascii n = true) :
  exists res, verify_offline_approval_packet x packet pk now max_age = Returned res.
Proof.
  unfold verify_offline_approval_packet. destruct (check_fields packet) as [|r]; [|eauto].
  unfold check_age. destruct (ascii_parse_returns _ Hr) as [[t|] ->]; [|destruct now; eauto].
  destruct now as [n|]; [|eauto]. destruct (ascii_parse_returns n (Hn n eq_refl)) as [[s|] ->]; [|eauto].
  destruct (_ <? _); [eauto|]. destruct (_ <? _); eauto.
Qed.

(** ** Witnesses *)

Definition request1 : json := JObject [("id", JString "req-1"); ("action", JString "fs.write")].
Definition approval1 : OfflineApprovalPacket :=
  sign_offline_approval_packet Packet.toy 0 request1 "approve" "tf:actor:human:h" [7] "qr" (Some "2026-05-01T00:00:00Z").

Lemma approval1_sliceable now : (forall n, now = Some n -> is_ascii n = true) -> sliceable approval1 now.
Proof. intros H. split; [by apply ascii_parse_returns|]. intros n t E _. by apply ascii_parse_returns, H. Qed.

Lemma signed_approval_accepted_witness : exists res,
  verify_offline_approval_packet Packet.toy approval1 [7] (Some "2026-05-01T01:00:00Z") None = Returned res /\
  ok res = true /\ response_decision <$> response res = Some "approve" /\
  response_responder <$> response res = Some "tf:actor:human:h" /\ request_id <$> response res = Some "req-1".
Proof.
  apply (signed_approval_accepted Packet.toy 0 request1 "approve" "tf:actor:human:h" [7] [7] "qr"
    (Some "2026-05-01T00:00:00Z") (Some "2026-05-01T01:00:00Z") None).
  - apply Packet.toy_laws.
  - apply approval1_sliceable. by intros n [= <-].
  - intros n t s [= <-] Ht Hs. vm_compute in Ht, Hs. injection Ht as <-. injection Hs as <-. cbn. lia.
Defined.

Lemma ascii_approval_never_panics_witness : exists res,
  verify_offline_approval_packet Packet.toy approval1 [8] (Some "not a time") (Some 60) = Returned res.
Proof. apply ascii_approval_never_panics; [reflexivity|]. by intros n [= <-]. Defined.

(** The panic, on a forged packet ([e] with an acute accent across byte 4),
    and an hour-old approval past a limit of a minute. *)
Definition forged : OfflineApprovalPacket :=
  mk_OfflineApprovalPacket "1" JNull "approve" "h" (str_of_bytes [50; 48; 50; 195; 169; 45; 48; 53; 45; 48; 49; 84; 48; 48; 58; 48; 48; 58; 48; 48; 90])
    "" (mk_SignatureEnvelope "ed25519" "h" "").
Example forged_panics : forall pk, exists w, verify_offline_approval_packet Packet.toy forged pk None None = Panic w.
Proof. intros pk. apply unsigned_packet_panics; reflexivity || (cbn; lia). Qed.
Example stale_rejected : verify_offline_approval_packet Packet.toy approval1 [7] (Some "2026-05-01T01:00:00Z") (Some 60)
  = Returned (rejected "packet older than 60s").
Proof. vm_compute. reflexivity. Qed.
Example future_rejected : verify_offline_approval_packet Packet.toy approval1 [7] (Some "2026-04-30T23:54:59Z") None
  = Returned (rejected "packet timestamp is in the future").
Proof. vm_compute. reflexivity. Qed.

End OfflineApproval.
