(* ===== verification/Permission.v ===== *)
(** * Permission: signed permission grants ([permission.rs])

    An agent's [PermissionRequest] is answered by a [PermissionGrant] that
    its issuer signs. *)

From S2P Require Import Prelude Utf8 Json Base64 Cbor BinaryFormat Canonical Clock Expiration Packet Signed.
Import Clock Expiration Signed.

Module Permission.
#[local] Open Scope string_scope.
#[local] Open Scope list_scope.
#[local] Open Scope Z_scope.

Record PermissionRequest := mk_PermissionRequest {
  request_version : string;
  id : string;
  agent : string;
  instance : option string;
  human : option string;
  model : option string;
  tool : option string;
  action : string;
  target : option string;
  risk : option string;
  danger_tags : option (list string);
  duration_seconds : option Z;
  request_reason : string;
  proof_level_offered : option string;
  requested_at : string;
  context : option json
}.

Record PermissionGrant := mk_PermissionGrant {
  grant_version : string;
  request_id : string;
  decision : string;
  capability : option json;
  constraints : option (list json);
  policy_decision : option json;
  ceremony_id : option string;
  denial_reason : option string;
  valid_from : option string;
  valid_until : option string;
  issued_at : string;
  issuer : string;
  signature : SignatureEnvelope
}.

Record VerifyPermissionGrantResult := mk_VerifyPermissionGrantResult { ok : bool; reason : option string }.

Record Provenance := mk_Provenance {
  p_human : option string;
  p_agent : option string;
  p_instance : option string;
  p_model : option string;
  p_tool : option string;
  requested_action : option string
}.

Definition provenance_from_request (req : PermissionRequest) : Provenance :=
  mk_Provenance (human req) (Some (agent req)) (instance req) (model req) (tool req) (Some (action req)).

Definition grant_fields (g : PermissionGrant) : list (string * json) :=
  field "grant_version" (JString (grant_version g)) ++ field "request_id" (JString (request_id g)) ++
  field "decision" (JString (decision g)) ++ opt_field "capability" (capability g) (fun v => v) ++
  opt_field "constraints" (constraints g) JArray ++ opt_field "policy_decision" (policy_decision g) (fun v => v) ++
  opt_field "ceremony_id" (ceremony_id g) JString ++ opt_field "denial_reason" (denial_reason g) JString ++
  opt_field "valid_from" (valid_from g) JString ++ opt_field "valid_until" (valid_until g) JString ++
  field "issued_at" (JString (issued_at g)) ++ field "issuer" (JString (issuer g)).
Definition grant_to_value (g : PermissionGrant) : json :=
  JObject (grant_fields g ++ field "signature" (envelope_to_value (signature g))).
Definition with_signature (g : PermissionGrant) (s : SignatureEnvelope) : PermissionGrant :=
  mk_PermissionGrant (grant_version g) (request_id g) (decision g) (capability g) (constraints g) (policy_decision g)
    (ceremony_id g) (denial_reason g) (valid_from g) (valid_until g) (issued_at g) (issuer g) s.

#[export] Instance grant_doc : SignedDoc PermissionGrant := {
  doc_to_value := grant_to_value;
  doc_signature g := sig_text (signature g);
  doc_fill g t := with_signature g (fill_signature (signature g) t)
}.
#[export] Instance grant_doc_laws : SignedDocLaws PermissionGrant.
Proof.
  split; [|done]. intros g t. cbn [doc_to_value grant_doc]. unfold grant_to_value.
  by rewrite !strip_signature by (unfold grant_fields, opt_field, field; repeat case_match; repeat constructor; done).
Qed.

Section permission.
Variable x : Packet.crypto.

Definition permission_grant_signing_bytes (g : PermissionGrant) : list Z := doc_digest x g.

Definition sign_permission_grant (secs : Z) (request : PermissionRequest) (decision issuer : string) (private_key : list Z)
    (capability : option json) (constraints : option (list json)) (policy_decision : option json)
    (ceremony_id denial_reason issued_at valid_from valid_until : option string) : PermissionGrant :=
  sign_doc x
    (mk_PermissionGrant "1" (id request) decision capability (filter_nonempty constraints) policy_decision ceremony_id
       denial_reason valid_from valid_until (unwrap_or issued_at (now_iso8601 secs)) issuer (blank_envelope issuer))
    private_key.

Definition grant_window (g : PermissionGrant) : Window := mk_Window (valid_from g) (valid_until g) None None None.

Definition check_grant (secs : Z) (grant : PermissionGrant) (public_key : list Z) (request : option PermissionRequest)
    (now : option string) : result string unit :=
  _ ← check_head "unsupported grant_version " "signature signer does not match issuer" "unsupported signature algorithm "
        (grant_version grant) (issuer grant) (signature grant);
  _ ← match request with
      | Some req => if negb (request_id grant =? id req)%string then Err "grant.request_id does not match request.id" else Ok tt
      | None => Ok tt
      end;
  if negb (is_within_window (grant_window grant) (unwrap_or now (now_iso8601 secs)))
  then Err "grant outside valid_from/valid_until window"
  else check_digest x "signature base64 decode: " "signature parse: " "grant signature did not verify"
         (permission_grant_signing_bytes grant) (sig_text (signature grant)) public_key.
Definition verify_permission_grant (secs : Z) (grant : PermissionGrant) (public_key : list Z)
    (request : option PermissionRequest) (now : option string) : VerifyPermissionGrantResult :=
  match check_grant secs grant public_key request now with
  | Ok _ => mk_VerifyPermissionGrantResult true None
  | Err r => mk_VerifyPermissionGrantResult false (Some r)
  end.

Lemma check_grant_ok secs grant pk request now : check_grant secs grant pk request now = Ok tt <->
  (grant_version grant = "1" /\ signer (signature grant) = issuer grant /\ algorithm (signature grant) = "ed25519") /\
  (forall req, request = Some req -> request_id grant = id req) /\
  in_window (grant_window grant) (unwrap_or now (now_iso8601 secs)) /\ doc_signed x grant pk.
Proof.
  unfold check_grant. rewrite <- is_within_window_iff. split.
  - intros E. apply bind_ok in E as ([] & Eh & E). apply check_head_ok in Eh. split; [exact Eh|].
    apply bind_ok in E as ([] & Er & E). destruct (is_within_window _ _); [|discriminate]. apply check_digest_ok in E.
    split; [|done]. intros req ->. by destruct (String.eqb_spec (request_id grant) (id req)).
  - intros (Hh & Hr & Hw & Hd). apply (check_head_ok "unsupported grant_version " "signature signer does not match issuer"
      "unsupported signature algorithm ") in Hh. rewrite Hh. cbn [mbind result_bind]. rewrite Hw. cbn [negb].
    assert (match request with Some req => if negb (request_id grant =? id req)%string then Err "grant.request_id does not match request.id" else Ok tt
            | None => Ok tt end = Ok tt) as ->.
    { destruct request as [req|]; [|done]. by rewrite (Hr req eq_refl), String.eqb_refl. }
    by apply check_digest_ok.
Qed.

Lemma verify_grant_ok secs grant pk request now :
  ok (verify_permission_grant secs grant pk request now) = true <-> check_grant secs grant pk request now = Ok tt.
Proof. unfold verify_permission_grant. destruct (check_grant secs grant pk request now) as [[]|r]; cbn; split; congruence. Qed.
End permission.

(** A permission grant is accepted exactly when it is version 1, signed
    with ed25519 by the issuer it names over everything but the signature,
    answers the request at hand, and the time lies in its window. *)
Theorem permission_grant_accepted_iff x secs grant pk request now :
  ok (verify_permission_grant x secs grant pk request now) = true <->
  (grant_version grant = "1" /\ signer (signature grant) = issuer grant /\ algorithm (signature grant) = "ed25519") /\
  (forall req, request = Some req -> request_id grant = id req) /\
  in_window (grant_window grant) (unwrap_or now (now_iso8601 secs)) /\ doc_signed x grant pk.
Proof. rewrite verify_grant_ok. apply check_grant_ok. Qed.

(** Signing a grant for a request makes a grant that verifies for this
    request, and for no request with another id, while the time lies in the
    window it was given. *)
Theorem signed_grant_answers_request x secs req dec who sk pk cap cs pd cer den iss from until_ now other
    (Hl : Packet.crypto_laws x sk pk)
    (Hw : in_window (mk_Window from until_ None None None) (unwrap_or now (now_iso8601 secs))) :
  ok (verify_permission_grant x secs (sign_permission_grant x secs req dec who sk cap cs pd cer den iss from until_) pk
        (Some other) now) = true <-> id other = id req.
Proof.
  set (g := sign_permission_grant x secs req dec who sk cap cs pd cer den iss from until_).
  assert (doc_signed x g pk) as Hd by (apply (sign_doc_signed x _ sk pk Hl)).
  rewrite verify_grant_ok, check_grant_ok. split; [intros (_ & Hr & _); symmetry; by apply Hr|].
  intros E. split; [done|]. split; [|done]. intros ? [= <-]. by rewrite E.
Qed.

Definition request1 : PermissionRequest :=
  mk_PermissionRequest "1" "req-1" "tf:actor:agent:a" None None None None "fs.write" None None None None "build" None
    "2026-05-01T00:00:00Z" None.

Lemma signed_grant_answers_request_witness :
  ok (verify_permission_grant Packet.toy 0
        (sign_permission_grant Packet.toy 0 request1 "grant" "tf:actor:human:h" [7] None (Some []) None None None
           (Some "2026-05-01T00:00:00Z") (Some "2026-05-01T00:00:00Z") (Some "2026-06-01T00:00:00Z"))
        [7] (Some request1) (Some "2026-05-02T00:00:00Z")) = true <-> id request1 = id request1.
Proof.
  apply signed_grant_answers_request; [apply Packet.toy_laws|]. apply is_within_window_iff. reflexivity.
Defined.

End Permission.
