(* ===== verification/Migration.v ===== *)
(** * Migration: moving a session between transports ([session_migration.rs])

    A signed [SessionMigration] announces the new binding of a session; the
    [Ratchet] replaces the session key after a number of messages. *)

From S2P Require Import Prelude Utf8 Json Base64 Cbor BinaryFormat Canonical Clock Packet Signed.
Import Clock Signed.

Module Migration.
#[local] Open Scope string_scope.
#[local] Open Scope list_scope.
#[local] Open Scope Z_scope.

Record TransportBinding := mk_TransportBinding {
  binding_version : string;
  kind : string;
  endpoint : option string;
  exporter_key : option string;
  peer_cert_fingerprint : option string;
  tls_alpn : option string;
  established_at : option string;
  metadata : option json
}.
Record SessionMigration := mk_SessionMigration {
  migration_version : string;
  session_id : string;
  m_generation : Z;
  from_binding : TransportBinding;
  to_binding : TransportBinding;
  preserved_capabilities : option (list json);
  rotated_keys : option bool;
  migrated_at : string;
  migration_reason : option string;
  m_signer : string;
  signature : SignatureEnvelope
}.
Record VerifyMigrationResult := mk_VerifyMigrationResult { ok : bool; reason : option string }.

Definition binding_to_value (b : TransportBinding) : json :=
  JObject (field "binding_version" (JString (binding_version b)) ++ field "kind" (JString (kind b)) ++
    opt_field "endpoint" (endpoint b) JString ++ opt_field "exporter_key" (exporter_key b) JString ++
    opt_field "peer_cert_fingerprint" (peer_cert_fingerprint b) JString ++ opt_field "tls_alpn" (tls_alpn b) JString ++
    opt_field "established_at" (established_at b) JString ++ opt_field "metadata" (metadata b) (fun v => v)).
Definition migration_fields (m : SessionMigration) : list (string * json) :=
  field "migration_version" (JString (migration_version m)) ++ field "session_id" (JString (session_id m)) ++
  field "generation" (jint (m_generation m)) ++ field "from_binding" (binding_to_value (from_binding m)) ++
  field "to_binding" (binding_to_value (to_binding m)) ++
  opt_field "preserved_capabilities" (preserved_capabilities m) JArray ++ opt_field "rotated_keys" (rotated_keys m) JBool ++
  field "migrated_at" (JString (migrated_at m)) ++ opt_field "reason" (migration_reason m) JString ++
  field "signer" (JString (m_signer m)).
Definition migration_to_value (m : SessionMigration) : json :=
  JObject (migration_fields m ++ field "signature" (envelope_to_value (signature m))).
Definition with_signature (m : SessionMigration) (s : SignatureEnvelope) : SessionMigration :=
  mk_SessionMigration (migration_version m) (session_id m) (m_generation m) (from_binding m) (to_binding m)
    (preserved_capabilities m) (rotated_keys m) (migrated_at m) (migration_reason m) (m_signer m) s.

#[export] Instance migration_doc : SignedDoc SessionMigration := {
  doc_to_value := migration_to_value;
  doc_signature m := sig_text (signature m);
  doc_fill m t := with_signature m (fill_signature (signature m) t)
}.
#[export] Instance migration_doc_laws : SignedDocLaws SessionMigration.
Proof.
  split; [|done]. intros m t. cbn [doc_to_value migration_doc]. unfold migration_to_value.
  by rewrite !strip_signature by (unfold migration_fields, opt_field, field; repeat case_match; repeat constructor; done).
Qed.

Section migration.
Variable x : Packet.crypto.

Definition migration_signing_bytes (m : SessionMigration) : list Z := doc_digest x m.

Definition migrate_session (secs : Z) (session_id : string) (generation : Z) (from_binding to_binding : TransportBinding)
    (rotated_keys : bool) (reason : option string) (signer : string) (private_key : list Z) (migrated_at : option string) :
    SessionMigration :=
  sign_doc x
    (mk_SessionMigration "1" session_id generation from_binding to_binding None (if rotated_keys then Some true else None)
       (unwrap_or migrated_at (now_iso8601 secs)) reason signer (blank_envelope signer))
    private_key.

Definition check_migration (m : SessionMigration) (public_key : list Z) (last_generation : option Z)
    (expected_session_id : option string) : result string unit :=
  _ ← check_head "unsupported migration_version " "signature signer does not match signer" "unsupported signature algorithm "
        (migration_version m) (m_signer m) (signature m);
  _ ← match expected_session_id with
      | Some expected => if negb (session_id m =? expected)%string then Err "session_id mismatch" else Ok tt
      | None => Ok tt
      end;
  _ ← match last_generation with
      | Some last =>
        if m_generation m <=? last
        then Err ("generation " +:+ pretty (m_generation m) +:+ " <= last seen " +:+ pretty last +:+ " (replay)") else Ok tt
      | None => Ok tt
      end;
  check_digest x "signature base64 decode: " "signature parse: " "migration signature did not verify"
    (migration_signing_bytes m) (sig_text (signature m)) public_key.
Definition verify_session_migration (m : SessionMigration) (public_key : list Z) (last_generation : option Z)
    (expected_session_id : option string) : VerifyMigrationResult :=
  match check_migration m public_key last_generation expected_session_id with
  | Ok _ => mk_VerifyMigrationResult true None
  | Err r => mk_VerifyMigrationResult false (Some r)
  end.

Lemma check_migration_ok m pk last expected : check_migration m pk last expected = Ok tt <->
  (migration_version m = "1" /\ signer (signature m) = m_signer m /\ algorithm (signature m) = "ed25519") /\
  (forall e, expected = Some e -> session_id m = e) /\ (forall g, last = Some g -> g < m_generation m) /\ doc_signed x m pk.
Proof.
  unfold check_migration. split.
  - intros E. apply bind_ok in E as ([] & Eh & E). apply check_head_ok in Eh. split; [exact Eh|].
    apply bind_ok in E as ([] & Es & E). apply bind_ok in E as ([] & Eg & E). apply check_digest_ok in E.
    split; [|split; [|exact E]].
    + intros e ->. by destruct (String.eqb_spec (session_id m) e).
    + intros g ->. destruct (Z.leb_spec (m_generation m) g); [discriminate|lia].
  - intros (Hh & Hs & Hg & Hd). apply (check_head_ok "unsupported migration_version " "signature signer does not match signer"
      "unsupported signature algorithm ") in Hh. rewrite Hh. cbn [mbind result_bind].
    assert (match expected with Some e => if negb (session_id m =? e)%string then Err "session_id mismatch" else Ok tt
            | None => Ok tt end = Ok tt) as ->.
    { destruct expected as [e|]; [|done]. by rewrite (Hs e eq_refl), String.eqb_refl. }
    cbn [mbind result_bind]. destruct last as [g|]; [|by apply check_digest_ok].
    specialize (Hg g eq_refl). destruct (Z.leb_spec (m_generation m) g); [lia|]. by apply check_digest_ok.
Qed.

Lemma verify_migration_ok m pk last expected :
  ok (verify_session_migration m pk last expected) = true <-> check_migration m pk last expected = Ok tt.
Proof. unfold verify_session_migration. destruct (check_migration m pk last expected) as [[]|r]; cbn; split; congruence. Qed.
End migration.

(** ** The ratchet *)

Definition RATCHET_INFO : string := "tf-session/ratchet".

Record Ratchet := mk_Ratchet {
  current_key : list Z;
  rotation_count : Z;
  messages_since_rotation : Z;
  max_messages : Z
}.

Section ratchet.
(** [Hkdf::<Sha256>::new(None, ikm)] expanded by [info] to 32 bytes. *)
Variable hkdf_expand : list Z -> list Z -> list Z.

Definition new (initial_key : list Z) (max_messages : option Z) : Ratchet :=
  mk_Ratchet initial_key 0 0 (unwrap_or max_messages 1024).
Definition key (r : Ratchet) : list Z := current_key r.
Definition generation (r : Ratchet) : Z := rotation_count r.

Definition next_key (k : list Z) : list Z := hkdf_expand k (bytes_of_str RATCHET_INFO).
Definition rotate (r : Ratchet) : Ratchet :=
  mk_Ratchet (next_key (current_key r)) (as_u64 (rotation_count r + 1)) 0 (max_messages r).
Definition observe_message (r : Ratchet) : Ratchet * bool :=
  let r := mk_Ratchet (current_key r) (rotation_count r) (as_u32 (messages_since_rotation r + 1)) (max_messages r) in
  if max_messages r <=? messages_since_rotation r then (rotate r, true) else (r, false).

(** The ratchet after [n] messages. *)
Definition observe_all (n : nat) (r : Ratchet) : Ratchet := Nat.iter n (fun r => (observe_message r).1) r.

Lemma observe_all_exact m n k : 0 <= m < 2 ^ 32 -> Z.of_nat n < 2 ^ 64 ->
  let p := Z.max 1 m in let q := Z.of_nat n / p in
  observe_all n (new k (Some m)) = mk_Ratchet (Nat.iter (Z.to_nat q) next_key k) q (Z.of_nat n mod p) m.
Proof.
  intros Hm. induction n as [|n IH]; intros Hn p q.
  { subst q. rewrite Z.mod_0_l by lia. cbn [Z.of_nat]. rewrite Z.div_0_l by lia. done. }
  unfold observe_all in *. rewrite Nat.iter_succ, IH by lia. fold p. unfold observe_message.
  cbn [current_key rotation_count messages_since_rotation max_messages].
  set (a := Z.of_nat n / p). set (b := Z.of_nat n mod p).
  assert (Z.of_nat n = p * a + b /\ 0 <= b < p) as [Hab Hb].
  { subst a b p. split; [apply Z.div_mod; lia|apply Z.mod_pos_bound; lia]. }
  assert (0 <= a) as Ha by (subst a; apply Z.div_pos; lia).
  replace (as_u32 (b + 1)) with (b + 1) by (unfold as_u32; rewrite Z.mod_small by lia; done).
  destruct (Z.leb_spec m (b + 1)) as [Hge|Hlt].
  - assert (Z.of_nat (S n) = p * (a + 1) + 0) as Hs by lia.
    assert (q = a + 1) as Hq by (symmetry; apply (Z.div_unique _ _ _ 0); lia).
    assert (Z.of_nat (S n) mod p = 0) as Hr by (symmetry; apply (Z.mod_unique _ _ (a + 1)); lia).
    rewrite Hr, Hq. unfold rotate. cbn. f_equal.
    + replace (Z.to_nat (a + 1)) with (S (Z.to_nat a)) by lia. by rewrite Nat.iter_succ.
    + unfold as_u64. rewrite Z.mod_small; [done|]. nia.
  - assert (Z.of_nat (S n) = p * a + (b + 1)) as Hs by lia.
    assert (q = a) as Hq by (symmetry; apply (Z.div_unique _ _ _ (b + 1)); lia).
    assert (Z.of_nat (S n) mod p = b + 1) as Hr by (symmetry; apply (Z.mod_unique _ _ a); lia).
    by rewrite Hr, Hq.
Qed.
End ratchet.

(** A migration is accepted exactly when it is version 1, signed with
    ed25519 by the signer it names over everything but the signature, belongs
    to the expected session, and its generation is above the last one seen. *)
Theorem migration_accepted_iff x m pk last expected :
  ok (verify_session_migration x m pk last expected) = true <->
  (migration_version m = "1" /\ signer (signature m) = m_signer m /\ algorithm (signature m) = "ed25519") /\
  (forall e, expected = Some e -> session_id m = e) /\ (forall g, last = Some g -> g < m_generation m) /\ doc_signed x m pk.
Proof. rewrite verify_migration_ok. apply check_migration_ok. Qed.

(** A migration that its session's owner signs is accepted once: with the
    last seen generation below its own it verifies, and once its generation
    is the last seen one it is refused for every key and session. *)
Theorem signed_migration_accepted_once x secs sid g from to_ rot why who sk pk at_ last
    (Hl : Packet.crypto_laws x sk pk) (Hg : forall g', last = Some g' -> g' < g) :
  let m := migrate_session x secs sid g from to_ rot why who sk at_ in
  ok (verify_session_migration x m pk last (Some sid)) = true /\
  (forall pk' expected, ok (verify_session_migration x m pk' (Some (m_generation m)) expected) = false).
Proof.
  intros m. split.
  - rewrite verify_migration_ok, check_migration_ok. split; [done|]. split; [by intros ? [= <-]|].
    split; [exact Hg|]. apply (sign_doc_signed x _ sk pk Hl).
  - intros pk' expected. apply not_true_is_false. rewrite verify_migration_ok, check_migration_ok.
    intros (_ & _ & Hgen & _). specialize (Hgen _ eq_refl). lia.
Qed.

(** C37: The ratchet rotates exactly every [max_messages] messages (every
    message for a limit of 0 or 1).  After [n] messages it has rotated
    [n / max_messages] times, holds the key derived that often from the
    initial one, and its 32-bit message counter stays below the limit, so it
    never overflows. *)
Theorem ratchet_exact hkdf_expand initial_key limit n
    (Hm : 0 <= unwrap_or limit 1024 < 2 ^ 32) (Hn : Z.of_nat n < 2 ^ 64) :
  let r := observe_all hkdf_expand n (new initial_key limit) in
  let period := Z.max 1 (unwrap_or limit 1024) in
  generation r = Z.of_nat n / period /\
  key r = Nat.iter (Z.to_nat (Z.of_nat n / period)) (next_key hkdf_expand) initial_key /\
  messages_since_rotation r = Z.of_nat n mod period /\
  0 <= messages_since_rotation r < period.
Proof.
  intros r period. subst r.
  replace (new initial_key limit) with (new initial_key (Some (unwrap_or limit 1024))) by (by destruct limit).
  rewrite observe_all_exact by done. cbn. repeat split; apply Z.mod_pos_bound; lia.
Qed.

(** ** Witnesses *)

Definition tcp (e : string) : TransportBinding := mk_TransportBinding "1" "tcp" (Some e) None None None None None.

Lemma signed_migration_accepted_once_witness :
  let m := migrate_session Packet.toy 0 "s-1" 2 (tcp "a:1") (tcp "b:2") true (Some "wifi") "tf:actor:a" [7] None in
  ok (verify_session_migration Packet.toy m [7] (Some 1) (Some "s-1")) = true /\
  (forall pk' expected, ok (verify_session_migration Packet.toy m pk' (Some (m_generation m)) expected) = false).
Proof. apply signed_migration_accepted_once; [apply Packet.toy_laws|]. intros g' [= <-]. lia. Defined.

Lemma ratchet_exact_witness :
  let r := observe_all (fun k info => reverse info ++ k) 7 (new [1] (Some 3)) in
  generation r = 7 / 3 /\ key r = Nat.iter 2 (next_key (fun k info => reverse info ++ k)) [1] /\
  messages_since_rotation r = 7 mod 3 /\ 0 <= messages_since_rotation r < 3.
Proof. apply (ratchet_exact (fun k info => reverse info ++ k) [1] (Some 3) 7); cbn; lia. Defined.

End Migration.
