(* ===== verification/Simulation.v ===== *)
(** * Simulation: the twelve scenarios of the simulation harness
      ([simulation.rs])

    Each scenario drives the guard, the policy engine, relays, quorums,
    packets or session migrations through one situation and reports what it
    saw.  The seeds it draws are arguments; the cryptographic crates are those
    of the components it calls.

    - [scenarios_pass]: whatever the seeds, ten scenarios pass, each with the
      observation it is about; the two that try a forgery pass exactly when the
      cryptographic crate refuses it;
    - [revoked_scenario_starts_denied]: what the revocation scenario shows. *)

From S2P Require Import Prelude Common Json Canonical Crypto Guard Quorum PolicyEngine Packet Signed Relay Migration.

#[local] Open Scope string_scope.
#[local] Open Scope list_scope.
#[local] Open Scope Z_scope.

Module Simulation.

Inductive ScenarioName :=
| PartialTrustDomainMerge | AiBoundaryBreach | RelayLoss | QuorumFailure | FrameReplay | ExpiredToken | RevokedActorMidSession | ForgedSignature
| HopCapExceeded | EmergencyWithoutFollowup | PqVerifierRejectsClassicalForgery | ContinuousReauthDuringStream.
Definition ALL_SCENARIOS : list ScenarioName :=
  [PartialTrustDomainMerge; AiBoundaryBreach; RelayLoss; QuorumFailure; FrameReplay; ExpiredToken; RevokedActorMidSession; ForgedSignature;
   HopCapExceeded; EmergencyWithoutFollowup; PqVerifierRejectsClassicalForgery; ContinuousReauthDuringStream].
Record ScenarioResult := mk_ScenarioResult { name : ScenarioName; ok : bool; observations : list string; failures : list string }.

(** What a scenario pushes: its observations and its failures. *)
Definition report : Type := list string * list string.
Definition when (b : bool) (failure : string) : list string := if b then [failure] else [].
Definition show_bool (b : bool) : string := if b then "true" else "false".

(** [Ed25519Signer::from_bytes(seed).public_key_bytes()], [try_keygen], the
    [regex] crate and [serde_json::to_value] of a manifest. *)
Record world := mk_world {
  pkt : Packet.crypto;
  lib : Crypto.crypto_lib;
  public_key : list Z -> list Z;
  try_keygen : result string (list Z * list Z);
  Regex_new : string -> option (string -> bool);
  manifest_value : PolicyEngine.PolicyManifest -> option json;
  (** what [OsRng] fills a seed with, by the order of the calls *)
  os_rng : nat -> list Z;
  secs : Z
}.

Definition empty_binding (kind : string) : Migration.TransportBinding := Migration.mk_TransportBinding "1" kind None None None None None None.
(** The texts of [RelayPolicyError] and of [ml_dsa_65_generate]'s error. *)
Definition relay_error_str (e : Relay.RelayPolicyError) : string :=
  match e with
  | Relay.Authority s => "relay authority invalid: " +:+ s
  | Relay.OutsideWindow s => "authority window: " +:+ s
  | Relay.FrameExpired s => "frame expired: " +:+ s
  | Relay.HopCap s => "hop count: " +:+ s
  | Relay.Rate s => "rate limit: " +:+ s
  end.

(** ** The guard *)

Definition action_json (name risk : string) : json := JObject [("name", JString name); ("risk", JString risk)].
Definition contract_a : json :=
  JObject [("actions", JArray [action_json "data.read" "R1"]);
           ("forbidden", JArray [JObject [("action", JString "data.delete"); ("reason", JString "domain A forbids deletion")]])].
Definition contract_b : json := JObject [("actions", JArray [action_json "data.read" "R1"; action_json "data.delete" "R3"])].
Definition partial_trust_domain_merge : report :=
  let q := Guard.mk_GuardQuery None None "data.delete" (Some "row/1") in
  let a := Guard.kind (Guard.check (Guard.from_contract contract_a) q).1 in
  let b := Guard.kind (Guard.check (Guard.from_contract contract_b) q).1 in
  (["domain A: " +:+ a; "domain B: " +:+ b],
   when (negb (a =? "deny")%string || (b =? "deny")%string) "expected A to deny and B to allow data.delete").
Definition ai_boundary_breach : report :=
  let guard := Guard.from_contract (JObject [("actions", JArray [action_json "file.read" "R0"])]) in
  let k := Guard.kind (Guard.check guard (Guard.mk_GuardQuery None None "shell.exec" (Some "rm -rf /"))).1 in
  (["shell.exec → " +:+ k], when (negb (k =? "deny")%string) "agent boundary not enforced").
Definition continuous_reauth_during_stream : report :=
  let q := Guard.mk_GuardQuery None None "session.stream" None in
  let before := (Guard.check (Guard.from_contract (JObject [("actions", JArray [action_json "session.stream" "R2"])])) q).1 in
  let after := Guard.apply_enforcement_level before Guard.E5 in
  let contract2 := JObject [("actions", JArray [JObject [("name", JString "session.stream"); ("risk", JString "R2"); ("danger_tags", JArray [JString "privacy"])]])] in
  let raw := Guard.check_raw (Guard.from_contract contract2) q in
  let tightened := Guard.apply_enforcement_level raw Guard.E5 in
  (["before=" +:+ Guard.kind before +:+ " after=" +:+ Guard.kind after; "tightened=" +:+ Guard.kind tightened],
   when (negb (Guard.kind before =? "allow")%string) "expected initial allow" ++
   when (Guard.kind tightened =? "allow")%string "E5 should deny allow-with-danger-tags after reauth").
Definition as_shadow_decision (d : Guard.GuardDecision) : Guard.GuardDecision := Guard.apply_enforcement_level d Guard.E0.

(** ** Relays, quorums, migrations *)

Section simulation.
Variable w : world.

Definition relay_authority (max_hop_count : Z) : Relay.RelayAuthority :=
  Relay.mk_RelayAuthority "1" "tf:actor:relay:example.com/edge" "example.com" ["forward-only"] (Some max_hop_count) None "2026-04-24T00:00:00Z"
    (Some "2026-04-25T00:00:00Z") "tf:actor:service:example.com/tf-daemon" None (Signed.mk_SignatureEnvelope "ed25519" "" "").
(** Lines 135 to 156 and, with the other cap, 354 to 375. *)
Definition issued_relay (max_hop_count : Z) : Relay.RelayHandler :=
  let issuer_seed := os_rng w 0 in
  Relay.new (Relay.sign_relay_authority (pkt w) (relay_authority max_hop_count) issuer_seed) (public_key w issuer_seed).
Definition relay_loss : report :=
  let frame := Relay.mk_RelayFrame (replicate 16 0) "tf:actor:agent:example.com/x" None 0 (Some "2026-04-24T11:00:00Z") None in
  match (Relay.forward (pkt w) (issued_relay 4) frame "2026-04-24T12:00:00Z").2 with
  | Ok _ => ([], ["expired frame should have been dropped"])
  | Err e => (["expired frame dropped: " +:+ relay_error_str e], [])
  end.
Definition hop_cap_exceeded : report :=
  let frame := Relay.mk_RelayFrame (replicate 8 0) "tf:actor:agent:example.com/x" None 5 None None in
  match (Relay.forward (pkt w) (issued_relay 2) frame "2026-04-24T12:00:00Z").2 with
  | Ok _ => ([], ["hop cap not enforced"])
  | Err e => (["hop cap blocked: " +:+ relay_error_str e], [])
  end.

(** [None]: the [expect] panics, which the configuration excludes. *)
Definition quorum_failure : option report :=
  let a := "tf:actor:human:example.com/a" in
  let b := "tf:actor:human:example.com/b" in
  match Quorum.new (Quorum.mk_QuorumConfig 2 [a; b]) with
  | Err _ => None
  | Ok collector => Some (
    let '(handle, st) := Quorum.push collector "req-q" "2026-04-24T12:00:00Z" in
    let st := (Quorum.respond_as handle (secs w) a "approve" (Quorum.mk_QuorumSignature "ed25519" a "AAA") st).2 in
    let st := (Quorum.respond_as handle (secs w) b "deny" (Quorum.mk_QuorumSignature "ed25519" b "BBB") st).2 in
    match Quorum.outcome st with
    | Some o => (["quorum decision=" +:+ Quorum.out_decision o +:+ " approvers=" +:+ pretty (Z.of_nat (length (Quorum.out_approvers o)))],
                 when (negb (Quorum.out_decision o =? "deny")%string) "quorum should have denied")
    | None => ([], ["quorum did not produce an outcome"])
    end)
  end.

Definition frame_replay : report :=
  let priv_seed := os_rng w 0 in
  let pub_bytes := public_key w priv_seed in
  let m1 := Migration.migrate_session (pkt w) (secs w) "s" 1 (empty_binding "websocket") (empty_binding "quic") false None
    "tf:actor:agent:example.com/x" priv_seed (Some "2026-04-24T12:00:00Z") in
  let v1 := Migration.ok (Migration.verify_session_migration (pkt w) m1 pub_bytes (Some 0) None) in
  let v2 := Migration.ok (Migration.verify_session_migration (pkt w) m1 pub_bytes (Some 1) None) in
  (["first migration ok=" +:+ show_bool v1 +:+ ", replay ok=" +:+ show_bool v2], when (negb v1 || v2) "replay protection not triggered").

(** ** Packets *)

(** The arguments of [sign_packet]; what the scenarios leave out is [None]. *)
Definition packet_args (id source priority : string) (payload : list Z) (emergency : bool) (expires_at : option string) (private_key : list Z) (created_at : string) :
    Packet.SignPacketArgs :=
  Packet.mk_SignPacketArgs id source "tf:actor:service:example.com/d" priority payload None None emergency expires_at None None None private_key source (Some created_at).
Definition expired_token : report :=
  let priv_seed := os_rng w 0 in
  let pub_bytes := public_key w priv_seed in
  match Packet.sign_packet (pkt w) (secs w)
    (packet_args "pkt-x" "tf:actor:agent:example.com/x" "P3" (bytes_of_str "hi") false (Some "2026-04-23T00:00:00Z") priv_seed "2026-04-22T00:00:00Z") with
  | Ok p =>
    let v := Packet.verify_packet (pkt w) p pub_bytes "2026-04-25T00:00:00Z" in
    (["expired-token verify: ok=" +:+ show_bool (Packet.ok v) +:+ " reason=" +:+ default "" (Packet.reason v)], when (Packet.ok v) "expired packet accepted")
  | Err e => ([], ["sign failed: " +:+ e])
  end.
Definition forged_packet (real_seed : list Z) : result string Packet.Packet :=
  Packet.sign_packet (pkt w) (secs w)
    (packet_args "pkt-forge" "tf:actor:agent:example.com/x" "P3" (bytes_of_str "real") false None real_seed "2026-04-24T12:00:00Z").
Definition forged_signature : report :=
  let real_seed := os_rng w 0 in
  let other_seed := os_rng w 1 in
  let pub_other := public_key w other_seed in
  match forged_packet real_seed with
  | Ok p =>
    let v := Packet.verify_packet (pkt w) p pub_other "2026-04-24T12:00:00Z" in
    (["forged check ok=" +:+ show_bool (Packet.ok v)], when (Packet.ok v) "packet verified under wrong public key")
  | Err e => ([], ["sign failed: " +:+ e])
  end.
Definition emergency_without_followup : report :=
  let priv_seed := os_rng w 0 in
  match Packet.sign_packet (pkt w) (secs w)
    (packet_args "pkt-emerg" "tf:actor:human:example.com/alice" "P0" (bytes_of_str "emergency") true None priv_seed "2026-04-24T12:00:00Z") with
  | Ok p =>
    let is_emergency := default false (Packet.emergency p) in
    (["emergency packet=" +:+ show_bool is_emergency] ++ when is_emergency "emergency invocation flagged incomplete (no follow-up review)",
     when (negb is_emergency) "emergency invocation should require follow-up review")
  | Err e => ([], ["sign failed: " +:+ e])
  end.

(** ** The policy engine *)

Definition revoked_query (action : string) (target : option string) (caps : list Guard.NegativeCapability) : PolicyEngine.PolicyQuery :=
  PolicyEngine.mk_PolicyQuery "tf:actor:agent:example.com/x" None action target ∅ caps None (Some "2026-04-24T12:00:00Z").
Definition revoked_actor_mid_session : report :=
  let policy := PolicyEngine.mk_PolicyManifest "1" "example.com" None
    [PolicyEngine.mk_PolicyRule "deny.shell" "deny" (Some "shell.exec") None None None None None None None] [] None None in
  let engine := PolicyEngine.new (Packet.nfc (pkt w)) (Packet.show_f64 (pkt w)) (Packet.sha256 (pkt w)) (manifest_value w) policy in
  let before := PolicyEngine.evaluate (Regex_new w) engine (secs w) (revoked_query "shell.exec" None []) in
  let after := PolicyEngine.evaluate (Regex_new w) engine (secs w)
    (revoked_query "file.delete" (Some "/etc/passwd") [Guard.mk_NegativeCapability "file.delete" None (Some "actor revoked") None]) in
  (["pre=" +:+ PolicyEngine.pd_decision before +:+ ", post=" +:+ PolicyEngine.pd_decision after],
   when (negb (PolicyEngine.pd_decision after =? "deny")%string) "revoked actor still allowed").

(** ** The hybrid signature *)

Definition ml_dsa_65_generate : result Crypto.CryptoError (list Z * list Z) :=
  '(pk, sk) ← map_err (fun e => Crypto.CryptoGeneric ("ml-dsa-65 keygen: " +:+ e)) (try_keygen w);
  Ok (sk, pk).
(** [bad_pq[0] ^= 0xff]; [None]: the index is out of bounds. *)
Definition flip_first (bs : list Z) : option (list Z) := match bs with b :: rest => Some (Z.lxor b 255 :: rest) | [] => None end.
Definition hybrid_msg : list Z := bytes_of_str "hello hybrid".
(** [None]: a panic. *)
Definition pq_verifier_rejects_classical_forgery : option report :=
  let classical_seed := os_rng w 0 in
  match ml_dsa_65_generate with
  | Err e => Some ([], ["ml-dsa-65 keygen: " +:+ Crypto.crypto_error_str e])
  | Ok (pq_sk, pq_pk) =>
    let classical_sig := Crypto.ed25519_sign (lib w) classical_seed hybrid_msg in
    match Crypto.ml_dsa_65_sign (lib w) pq_sk hybrid_msg with
    | Err e => Some ([], ["ml-dsa-65 sign: " +:+ Crypto.crypto_error_str e])
    | Ok pq_sig =>
      let classical_ok := is_ok (Crypto.ed25519_verify (lib w) (public_key w classical_seed) hybrid_msg classical_sig) in
      let hybrid_ok := classical_ok && Crypto.ml_dsa_65_verify (lib w) pq_pk hybrid_msg pq_sig in
      bad_pq ← flip_first pq_sig;
      let hybrid_after_forge := classical_ok && Crypto.ml_dsa_65_verify (lib w) pq_pk hybrid_msg bad_pq in
      Some (["hybrid pre-forge ok=" +:+ show_bool hybrid_ok +:+ ", post-forge ok=" +:+ show_bool hybrid_after_forge],
            when (negb hybrid_ok) "hybrid signature did not verify in honest path" ++ when hybrid_after_forge "hybrid verifier accepted classical-only signature")
    end
  end.

(** ** All of them *)

(** [None]: a panic. *)
Definition scenario (n : ScenarioName) : option report :=
  match n with
  | PartialTrustDomainMerge => Some partial_trust_domain_merge
  | AiBoundaryBreach => Some ai_boundary_breach
  | RelayLoss => Some relay_loss
  | QuorumFailure => quorum_failure
  | FrameReplay => Some frame_replay
  | ExpiredToken => Some expired_token
  | RevokedActorMidSession => Some revoked_actor_mid_session
  | ForgedSignature => Some forged_signature
  | HopCapExceeded => Some hop_cap_exceeded
  | EmergencyWithoutFollowup => Some emergency_without_followup
  | PqVerifierRejectsClassicalForgery => pq_verifier_rejects_classical_forgery
  | ContinuousReauthDuringStream => Some continuous_reauth_during_stream
  end.
Definition run_scenario (n : ScenarioName) : option ScenarioResult :=
  '(obs, fails) ← scenario n;
  Some (mk_ScenarioResult n (match fails with [] => true | _ => false end) obs fails).
End simulation.


(** Every scenario draws its own seeds. *)
Definition run_all_scenarios (worlds : ScenarioName -> world) : option (list ScenarioResult) :=
  mapM (fun n => run_scenario (worlds n) n) ALL_SCENARIOS.

(** ** The scenarios pass *)

#[local] Existing Instances Relay.authority_doc_laws Migration.migration_doc_laws.

(** The documented behaviour of the crates: the keys drawn are key pairs, for
    both ways of calling ed25519, and key generation gives a key pair. *)
Record world_laws (w : world) : Prop := {
  law_pairs : forall k, Packet.crypto_laws (pkt w) (os_rng w k) (public_key w (os_rng w k));
  law_lib : Crypto.crypto_lib_laws (lib w);
  law_ed25519 : forall k, Crypto.ed25519_pair (lib w) (os_rng w k) (public_key w (os_rng w k));
  law_keygen : exists sk pk, try_keygen w = Ok (pk, sk) /\ Crypto.pq_pair (lib w) sk pk
}.
(** What the ten scenarios without a forgery observe. *)
Definition expected (n : ScenarioName) : list string :=
  match n with
  | PartialTrustDomainMerge => ["domain A: deny"; "domain B: allow"]
  | AiBoundaryBreach => ["shell.exec → deny"]
  | RelayLoss => ["expired frame dropped: frame expired: frame expired at 2026-04-24T11:00:00Z"]
  | QuorumFailure => ["quorum decision=deny approvers=1"]
  | FrameReplay => ["first migration ok=true, replay ok=false"]
  | ExpiredToken => ["expired-token verify: ok=false reason=packet expired"]
  | RevokedActorMidSession => ["pre=deny, post=deny"]
  | HopCapExceeded => ["hop cap blocked: hop count: hop count 5 >= max 2"]
  | EmergencyWithoutFollowup => ["emergency packet=true"; "emergency invocation flagged incomplete (no follow-up review)"]
  | ContinuousReauthDuringStream => ["before=allow after=allow"; "tightened=deny"]
  | ForgedSignature | PqVerifierRejectsClassicalForgery => []
  end.

Section laws.
Context (w : world) (L : world_laws w).

Lemma guard_scenarios : partial_trust_domain_merge = (expected PartialTrustDomainMerge, []) /\ ai_boundary_breach = (expected AiBoundaryBreach, []) /\
  continuous_reauth_during_stream = (expected ContinuousReauthDuringStream, []).
Proof. by vm_compute. Qed.
Lemma issued_relay_validates cap : Relay.validate (pkt w) (issued_relay w cap) = Ok (Relay.with_validated (issued_relay w cap)).
Proof.
  apply Relay.validate_ok. split; [|done]. right. unfold Relay.authority_valid. do 3 (split; [done|]).
  by apply (Signed.sign_doc_signed (pkt w) _ (os_rng w 0) (public_key w (os_rng w 0))), law_pairs.
Qed.
Lemma relay_scenarios : relay_loss w = (expected RelayLoss, []) /\ hop_cap_exceeded w = (expected HopCapExceeded, []).
Proof. unfold relay_loss, hop_cap_exceeded, Relay.forward. by rewrite !issued_relay_validates. Qed.
Lemma quorum_scenario : quorum_failure w = Some (expected QuorumFailure, []).
Proof. done. Qed.
Lemma migration_scenario : frame_replay w = (expected FrameReplay, []).
Proof.
  unfold frame_replay. set (m1 := Migration.migrate_session _ _ _ _ _ _ _ _ _ _ _).
  assert (Migration.ok (Migration.verify_session_migration (pkt w) m1 (public_key w (os_rng w 0)) (Some 0) None) = true) as ->.
  { apply Migration.verify_migration_ok, Migration.check_migration_ok. do 2 (split; [done|]). split; [intros g [= <-]; unfold m1; cbn; lia|].
    apply (Signed.sign_doc_signed (pkt w)), (law_pairs w L). }
  done.
Qed.
Lemma packet_scenarios : expired_token w = (expected ExpiredToken, []) /\ emergency_without_followup w = (expected EmergencyWithoutFollowup, []).
Proof. done. Qed.
Lemma policy_scenario : revoked_actor_mid_session w = (expected RevokedActorMidSession, []).
Proof. done. Qed.

(** A packet is signed, and but for its signature it is in order. *)
Lemma forged_packet_in_order : exists p, forged_packet w (os_rng w 0) = Ok p /\ forall pk,
  Packet.ok (Packet.verify_packet (pkt w) p pk "2026-04-24T12:00:00Z") = is_ok (Packet.check_signature (pkt w) p pk).
Proof.
  eexists. split; [reflexivity|]. intros pk. unfold Packet.verify_packet. set (p := Packet.sign_draft _ _ _).
  assert (Packet.check_header p "2026-04-24T12:00:00Z" = Ok tt) as -> by done. assert (Packet.unwrap_payload (pkt w) p = Ok (bytes_of_str "real")) as -> by done.
  cbn [mbind result_bind]. by destruct (Packet.check_signature (pkt w) p pk) as [[]|].
Qed.
(** The key pair and the signature of the hybrid scenario. *)
Lemma hybrid_signed : exists sk pk sig bad, ml_dsa_65_generate w = Ok (sk, pk) /\ Crypto.ml_dsa_65_sign (lib w) sk hybrid_msg = Ok sig /\ flip_first sig = Some bad /\
  pq_verifier_rejects_classical_forgery w =
    Some (["hybrid pre-forge ok=true, post-forge ok=" +:+ show_bool (Crypto.ml_dsa_65_verify (lib w) pk hybrid_msg bad)],
          when (Crypto.ml_dsa_65_verify (lib w) pk hybrid_msg bad) "hybrid verifier accepted classical-only signature").
Proof.
  destruct (law_keygen w L) as (sk & pk & K & P). destruct (Crypto.pq_signature_verifies (lib w) sk pk hybrid_msg P) as (sig & S & _ & V).
  assert (ml_dsa_65_generate w = Ok (sk, pk)) as G by (unfold ml_dsa_65_generate; by rewrite K).
  destruct sig as [|b sig]; [exfalso; unfold Crypto.ml_dsa_65_verify in V; by repeat case_match|].
  exists sk, pk, (b :: sig), (Z.lxor b 255 :: sig). do 3 (split; [done|]). unfold pq_verifier_rejects_classical_forgery. rewrite G, S. cbn [flip_first mbind option_bind].
  assert (is_ok (Crypto.ed25519_verify (lib w) (public_key w (os_rng w 0)) hybrid_msg (Crypto.ed25519_sign (lib w) (os_rng w 0) hybrid_msg)) = true) as ->.
  { destruct (law_ed25519 w L 0) as (Lp & _ & vk & Vk & Ok_). unfold Crypto.ed25519_verify.
    rewrite !Crypto.array_of_length by (done || apply (Crypto.law_sign (lib w) (law_lib w L))). cbn [mbind result_bind]. rewrite Vk. cbn [ok_or mbind result_bind]. by rewrite Ok_. }
  rewrite V. done.
Qed.
End laws.


(** whatever seeds are drawn, ten scenarios pass, and each for the reason it
    is about: the observation recorded is the named one.  The scenario of the
    forged packet passes exactly when the signature crate refuses the packet
    under the other key, and the hybrid one exactly when the post-quantum crate
    refuses the altered signature. *)
Theorem scenarios_pass w (L : world_laws w) :
  (forall n, n <> ForgedSignature -> n <> PqVerifierRejectsClassicalForgery -> run_scenario w n = Some (mk_ScenarioResult n true (expected n) [])) /\
  (exists p, forged_packet w (os_rng w 0) = Ok p /\
    (ok <$> run_scenario w ForgedSignature = Some true <-> ~ Packet.valid_signature (pkt w) p (public_key w (os_rng w 1)))) /\
  (exists sk pk sig bad, ml_dsa_65_generate w = Ok (sk, pk) /\ Crypto.ml_dsa_65_sign (lib w) sk hybrid_msg = Ok sig /\ flip_first sig = Some bad /\
    (ok <$> run_scenario w PqVerifierRejectsClassicalForgery = Some true <-> Crypto.ml_dsa_65_verify (lib w) pk hybrid_msg bad = false)).
Proof.
  destruct guard_scenarios as (G1 & G2 & G3). destruct (relay_scenarios w L) as [R1 R2]. destruct (packet_scenarios w) as [P1 P2]. split; [|split].
  - intros n F Q. unfold run_scenario. destruct n; cbn [scenario]; try done;
      rewrite ?G1, ?G2, ?G3, ?R1, ?R2, ?P1, ?P2, ?(migration_scenario w L), ?(policy_scenario w), ?(quorum_scenario w); done.
  - destruct (forged_packet_in_order w) as (p & E & V). exists p. split; [done|]. unfold run_scenario. cbn [scenario]. unfold forged_signature. rewrite E, V.
    rewrite <-Packet.check_signature_ok. destruct (Packet.check_signature (pkt w) p _) as [[]|]; cbn; split; naive_solver.
  - destruct (hybrid_signed w L) as (sk & pk & sig & bad & K & S & B & E). exists sk, pk, sig, bad. do 3 (split; [done|]). unfold run_scenario. cbn [scenario]. rewrite E.
    cbn [mbind option_bind]. by destruct (Crypto.ml_dsa_65_verify (lib w) pk hybrid_msg bad).
Qed.
(** The scenario of a revoked actor passes with an actor that is denied before
    anything is revoked, and the two decisions are about different actions. *)
Theorem revoked_scenario_starts_denied w : observations <$> run_scenario w RevokedActorMidSession = Some ["pre=deny, post=deny"].
Proof. done. Qed.
(** At level E0 every decision becomes a record: nothing is denied. *)
Theorem shadow_never_denies d : Guard.is_deny (as_shadow_decision d) = false.
Proof. by destruct d. Qed.

(** ** Witness *)

Definition toy_world : world :=
  mk_world Packet.toy Crypto.toy_lib id (Ok (repeat 4 Crypto.PK_LEN, repeat 3 Crypto.SK_LEN)) (fun _ => None) (fun _ => None) (fun k => repeat (Z.of_nat k mod 256) 32) 0.
Lemma toy_world_laws : world_laws toy_world.
Proof.
  assert (forall b n, 0 <= b < 256 -> is_bytes (repeat b n)) as R by (intros b n H; apply List.Forall_forall; intros c ->%repeat_spec; exact H).
  split.
  - intros k. apply Packet.toy_laws.
  - apply Crypto.toy_lib_laws.
  - intros k. apply Crypto.toy_ed25519; [apply repeat_length|]. apply R, Z.mod_pos_bound. lia.
  - eexists _, _. split; [reflexivity|]. apply Crypto.toy_pq; [apply repeat_length..|]. apply R. lia.
Qed.
Lemma scenarios_pass_witness : run_scenario toy_world RelayLoss = Some (mk_ScenarioResult RelayLoss true (expected RelayLoss) []).
Proof. by apply (scenarios_pass toy_world toy_world_laws). Defined.

End Simulation.
