(* ===== verification/Federation.v ===== *)
(** * Federation: trust in other domains ([federation.rs])

    A signed [FederationAttestation] vouches for the keys of another trust
    domain; [FederatedTrustStore] keeps attestations by id and answers
    whether a foreign actor is known.  The store is a [HashMap], whose
    iteration order is unspecified: the order of its values is an argument
    of the operations that iterate, and [values_of] says it lists the map. *)

From S2P Require Import Prelude Utf8 Json Base64 Cbor BinaryFormat Canonical Clock Expiration Packet Signed.
Import Clock Expiration Signed.

Module Federation.
#[local] Open Scope string_scope.
#[local] Open Scope list_scope.
#[local] Open Scope Z_scope.

Record TrustBundleEntry := mk_TrustBundleEntry { kind : string; value : string; key_id : option string }.
Record FederationAttestation := mk_FederationAttestation {
  attestation_version : string;
  attestation_id : string;
  issuer_domain : string;
  subject_domain : string;
  subject_actor : option string;
  scope : option (list string);
  trust_levels_granted : option (list string);
  trust_bundle : list TrustBundleEntry;
  constraints : option (list json);
  issued_at : string;
  valid_until : string;
  issuer : string;
  signature : SignatureEnvelope
}.
Record SignAttestationArgs := mk_SignAttestationArgs {
  a_attestation_id : string;
  a_issuer_domain : string;
  a_subject_domain : string;
  a_subject_actor : option string;
  a_scope : option (list string);
  a_trust_levels_granted : option (list string);
  a_trust_bundle : list TrustBundleEntry;
  a_constraints : option (list json);
  a_issued_at : option string;
  a_valid_until : string;
  a_issuer : string;
  a_private_key : list Z
}.
Record VerifyAttestationResult := mk_VerifyAttestationResult { ok : bool; reason : option string }.
Record ForeignIdentityCheck := mk_ForeignIdentityCheck {
  f_ok : bool;
  f_reason : option string;
  matched_attestation_id : option string;
  trust_levels : option (list string);
  f_scope : option (list string)
}.

(** ** Signed attestations *)

Definition entry_to_value (e : TrustBundleEntry) : json :=
  JObject (field "kind" (JString (kind e)) ++ field "value" (JString (value e)) ++ opt_field "key_id" (key_id e) JString).
Definition jstrings (l : list string) : json := JArray (JString <$> l).
Definition attestation_fields (a : FederationAttestation) : list (string * json) :=
  field "attestation_version" (JString (attestation_version a)) ++ field "attestation_id" (JString (attestation_id a)) ++
  field "issuer_domain" (JString (issuer_domain a)) ++ field "subject_domain" (JString (subject_domain a)) ++
  opt_field "subject_actor" (subject_actor a) JString ++ opt_field "scope" (scope a) jstrings ++
  opt_field "trust_levels_granted" (trust_levels_granted a) jstrings ++
  field "trust_bundle" (JArray (entry_to_value <$> trust_bundle a)) ++ opt_field "constraints" (constraints a) JArray ++
  field "issued_at" (JString (issued_at a)) ++ field "valid_until" (JString (valid_until a)) ++
  field "issuer" (JString (issuer a)).
Definition attestation_to_value (a : FederationAttestation) : json :=
  JObject (attestation_fields a ++ field "signature" (envelope_to_value (signature a))).
Definition with_signature (a : FederationAttestation) (s : SignatureEnvelope) : FederationAttestation :=
  mk_FederationAttestation (attestation_version a) (attestation_id a) (issuer_domain a) (subject_domain a) (subject_actor a)
    (scope a) (trust_levels_granted a) (trust_bundle a) (constraints a) (issued_at a) (valid_until a) (issuer a) s.

#[export] Instance attestation_doc : SignedDoc FederationAttestation := {
  doc_to_value := attestation_to_value;
  doc_signature a := sig_text (signature a);
  doc_fill a t := with_signature a (fill_signature (signature a) t)
}.
#[export] Instance attestation_doc_laws : SignedDocLaws FederationAttestation.
Proof.
  split; [|done]. intros a t. cbn [doc_to_value attestation_doc]. unfold attestation_to_value.
  by rewrite !strip_signature by (unfold attestation_fields, opt_field, field; repeat case_match; repeat constructor; done).
Qed.

Definition attestation_window (a : FederationAttestation) : Window :=
  mk_Window (Some (issued_at a)) (Some (valid_until a)) None None None.

(** [FederatedTrustStore { by_id }]. *)
Abbreviation FederatedTrustStore := (gmap string FederationAttestation).

Section federation.
Variable x : Packet.crypto.

Definition attestation_signing_bytes (a : FederationAttestation) : list Z := doc_digest x a.

Definition sign_federation_attestation (secs : Z) (args : SignAttestationArgs) : result string FederationAttestation :=
  if bool_decide (a_trust_bundle args = []) then Err "trust_bundle must be non-empty"
  else Ok (sign_doc x
    (mk_FederationAttestation "1" (a_attestation_id args) (a_issuer_domain args) (a_subject_domain args)
       (a_subject_actor args) (filter_nonempty (a_scope args)) (filter_nonempty (a_trust_levels_granted args))
       (a_trust_bundle args) (filter_nonempty (a_constraints args)) (unwrap_or (a_issued_at args) (now_iso8601 secs))
       (a_valid_until args) (a_issuer args) (blank_envelope (a_issuer args)))
    (a_private_key args)).

Definition check_attestation (secs : Z) (a : FederationAttestation) (issuer_public_key : list Z) (now : option string) :
    result string unit :=
  _ ← check_head "unsupported version " "signature signer does not match issuer" "unsupported algorithm "
        (attestation_version a) (issuer a) (signature a);
  if negb (is_within_window (attestation_window a) (unwrap_or now (now_iso8601 secs)))
  then Err "attestation outside valid window"
  else check_digest x "signature base64: " "signature parse: " "signature did not verify"
         (attestation_signing_bytes a) (sig_text (signature a)) issuer_public_key.
Definition verify_federation_attestation (secs : Z) (a : FederationAttestation) (issuer_public_key : list Z)
    (now : option string) : VerifyAttestationResult :=
  match check_attestation secs a issuer_public_key now with
  | Ok _ => mk_VerifyAttestationResult true None
  | Err r => mk_VerifyAttestationResult false (Some r)
  end.

Lemma check_attestation_ok secs a pk now : check_attestation secs a pk now = Ok tt <->
  (attestation_version a = "1" /\ signer (signature a) = issuer a /\ algorithm (signature a) = "ed25519") /\
  in_window (attestation_window a) (unwrap_or now (now_iso8601 secs)) /\ doc_signed x a pk.
Proof.
  unfold check_attestation. rewrite <- is_within_window_iff. split.
  - intros E. apply bind_ok in E as ([] & Eh & E). apply check_head_ok in Eh. split; [exact Eh|].
    destruct (is_within_window _ _); [|discriminate]. by apply check_digest_ok in E.
  - intros (Hh & Hw & Hd). apply (check_head_ok "unsupported version " "signature signer does not match issuer"
      "unsupported algorithm ") in Hh. rewrite Hh. cbn [mbind result_bind]. rewrite Hw. by apply check_digest_ok.
Qed.

(** ** The store *)

Definition new : FederatedTrustStore := ∅.
Definition add (s : FederatedTrustStore) (att : FederationAttestation) : FederatedTrustStore :=
  <[attestation_id att := att]> s.
Definition remove (s : FederatedTrustStore) (attestation_id : string) : FederatedTrustStore * bool :=
  (delete attestation_id s, bool_decide (is_Some (s !! attestation_id))).

(** [vs] is an order in which [self.by_id.values()] may list the store. *)
Definition values_of (s : FederatedTrustStore) (vs : list FederationAttestation) : Prop :=
  vs ≡ₚ (map_to_list s).*2.

Definition applies (actor dom now : string) (a : FederationAttestation) : bool :=
  if negb (subject_domain a =? dom)%string then false
  else if match subject_actor a with Some s => negb (s =? actor)%string | None => false end then false
  else is_within_window (attestation_window a) now.
Fixpoint find_in (vs : list FederationAttestation) (actor dom now : string) : option FederationAttestation :=
  match vs with
  | [] => None
  | a :: vs => if applies actor dom now a then Some a else find_in vs actor dom now
  end.
Definition find_for (secs : Z) (vs : list FederationAttestation) (actor subject_domain : string) (now : option string) :
    option FederationAttestation :=
  find_in vs actor subject_domain (unwrap_or now (now_iso8601 secs)).

(** One key of the bundle tried on a signature. *)
Definition entry_matches (message : list Z) (sig : Packet.Sig x) (e : TrustBundleEntry) : bool :=
  if negb (kind e =? "ed25519")%string then false else
  match Packet.b64_decode (value e) with
  | Err _ => false
  | Ok pk_bytes =>
    if negb (Cbor.len pk_bytes =? 32) then false else
    match Packet.VerifyingKey_from_bytes x pk_bytes with
    | Err _ => false
    | Ok vk => Packet.verify x vk message sig
    end
  end.

Definition refused (why : string) (id : option string) : ForeignIdentityCheck :=
  mk_ForeignIdentityCheck false (Some why) id None None.
Definition verify_foreign (secs : Z) (vs : list FederationAttestation) (actor subject_domain : string)
    (signed : option (list Z * list Z)) (now : option string) : ForeignIdentityCheck :=
  match find_for secs vs actor subject_domain now with
  | None => refused ("no active attestation for " +:+ actor +:+ " in " +:+ subject_domain) None
  | Some a =>
    let accepted := mk_ForeignIdentityCheck true None (Some (attestation_id a)) (trust_levels_granted a) (scope a) in
    match signed with
    | None => accepted
    | Some (message, sig_bytes) =>
      match Packet.Signature_from_slice x sig_bytes with
      | Err e => refused ("foreign sig parse: " +:+ e) (Some (attestation_id a))
      | Ok sig =>
        if existsb (entry_matches message sig) (trust_bundle a) then accepted
        else refused "no bundle key matched the foreign actor's signature" (Some (attestation_id a))
      end
    end
  end.
End federation.

(** ** What the answers mean *)

(** The store after a sequence of [add] and [remove]. *)
Inductive op := Add (a : FederationAttestation) | Remove (id : string).
Definition apply_op (s : FederatedTrustStore) (o : op) : FederatedTrustStore :=
  match o with Add a => add s a | Remove id => (remove s id).1 end.
Definition run (ops : list op) : FederatedTrustStore := foldl apply_op new ops.

(** Attestations are stored under their own id. *)
Definition keyed (s : FederatedTrustStore) : Prop := forall id a, s !! id = Some a -> attestation_id a = id.

Lemma run_keyed ops : keyed (run ops).
Proof.
  unfold run. assert (forall s, keyed s -> keyed (foldl apply_op s ops)) as H; [|apply H; intros ? ?; discriminate].
  induction ops as [|o ops IH]; intros s Hs; [done|]. apply IH. destruct o as [a|i]; intros id b.
  - cbn. unfold add. rewrite lookup_insert_Some. intros [[<- <-]|[_ E]]; [done|by apply Hs].
  - cbn. rewrite lookup_delete_Some. intros [_ E]. by apply Hs.
Qed.

Lemma values_of_elem s vs a : values_of s vs -> a ∈ vs <-> exists id, s !! id = Some a.
Proof.
  intros H. rewrite H, list_elem_of_fmap. split.
  - intros ([id b] & -> & E). exists id. by apply elem_of_map_to_list.
  - intros [id E]. exists (id, a). split; [done|]. by apply elem_of_map_to_list.
Qed.

Lemma applies_true actor dom now a : applies actor dom now a = true <->
  subject_domain a = dom /\ (forall s, subject_actor a = Some s -> s = actor) /\ in_window (attestation_window a) now.
Proof.
  unfold applies. rewrite <- is_within_window_iff.
  destruct (String.eqb_spec (subject_domain a) dom); cbn [negb]; [|split; [discriminate|naive_solver]].
  destruct (subject_actor a) as [s|]; [|split; naive_solver].
  destruct (String.eqb_spec s actor); cbn [negb]; split; (discriminate || naive_solver).
Qed.

Lemma find_in_Some vs actor dom now a : find_in vs actor dom now = Some a -> a ∈ vs /\ applies actor dom now a = true.
Proof.
  induction vs as [|b vs IH]; [done|]. cbn. destruct (applies actor dom now b) eqn:E.
  - intros [= <-]. split; [left|done].
  - intros H. destruct (IH H). split; [by right|done].
Qed.

Lemma find_in_None vs actor dom now : find_in vs actor dom now = None -> forall a, a ∈ vs -> applies actor dom now a = false.
Proof.
  induction vs as [|b vs IH]; [by intros _ a ?%elem_of_nil|]. cbn. destruct (applies actor dom now b) eqn:E; [discriminate|].
  intros H a [->|Ha]%elem_of_cons; [done|by apply IH].
Qed.

(** A key of the attestation's bundle verifies the signature. *)
Definition bundle_signs (x : Packet.crypto) (a : FederationAttestation) (message sig_bytes : list Z) : Prop :=
  exists e pk vk sig, e ∈ trust_bundle a /\ kind e = "ed25519" /\ Packet.b64_decode (value e) = Ok pk /\ Cbor.len pk = 32 /\
    Packet.VerifyingKey_from_bytes x pk = Ok vk /\ Packet.Signature_from_slice x sig_bytes = Ok sig /\
    Packet.verify x vk message sig = true.

Lemma entry_matches_true x message sig e : entry_matches x message sig e = true <->
  exists pk vk, kind e = "ed25519" /\ Packet.b64_decode (value e) = Ok pk /\ Cbor.len pk = 32 /\
    Packet.VerifyingKey_from_bytes x pk = Ok vk /\ Packet.verify x vk message sig = true.
Proof.
  unfold entry_matches. destruct (String.eqb_spec (kind e) "ed25519"); cbn [negb]; [|split; [discriminate|naive_solver]].
  destruct (Packet.b64_decode (value e)) as [pk|]; [|split; [discriminate|naive_solver]].
  destruct (Z.eqb_spec (Cbor.len pk) 32); cbn [negb]; [|split; [discriminate|naive_solver]].
  destruct (Packet.VerifyingKey_from_bytes x pk) as [vk|] eqn:Ek; [|split; [discriminate|]].
  - split; [eauto 10|]. intros (? & ? & _ & [= <-] & _ & E & Hv). rewrite Ek in E. by injection E as <-.
  - intros (? & ? & _ & [= <-] & _ & E & _). congruence.
Qed.

Lemma bundle_signs_existsb x a message sig_bytes :
  bundle_signs x a message sig_bytes <-> exists sig, Packet.Signature_from_slice x sig_bytes = Ok sig /\
    existsb (entry_matches x message sig) (trust_bundle a) = true.
Proof.
  split.
  - intros (e & pk & vk & sig & He & Hk & Hp & Hl & Hv & Hs & Hver). exists sig. split; [exact Hs|].
    apply existsb_exists. exists e. split; [by apply list_elem_of_In|]. apply entry_matches_true. eauto 10.
  - intros (sig & Hs & (e & He & Hm)%existsb_exists). apply entry_matches_true in Hm as (pk & vk & Hk & Hp & Hl & Hv & Hver).
    exists e, pk, vk, sig. split; [by apply list_elem_of_In|]. auto 10.
Qed.

(** The answer when the search finds [a]. *)
Lemma verify_foreign_found x secs vs actor dom signed now a :
  find_for secs vs actor dom now = Some a ->
  f_ok (verify_foreign x secs vs actor dom signed now) = true <->
  (forall m sg, signed = Some (m, sg) -> bundle_signs x a m sg).
Proof.
  intros E. unfold verify_foreign. rewrite E. destruct signed as [[m sg]|]; [|split; [|done]; discriminate].
  destruct (Packet.Signature_from_slice x sg) as [sig|] eqn:Es.
  - destruct (existsb (entry_matches x m sig) (trust_bundle a)) eqn:Ee.
    + split; [|done]. intros _ ? ? [= <- <-]. apply bundle_signs_existsb. eauto.
    + split; [discriminate|]. intros H. destruct (proj1 (bundle_signs_existsb _ _ _ _) (H m sg eq_refl)) as (sig' & E1 & E2).
      congruence.
  - split; [discriminate|]. intros H. destruct (proj1 (bundle_signs_existsb _ _ _ _) (H m sg eq_refl)) as (sig' & E1 & E2).
    congruence.
Qed.

Lemma verify_foreign_ok x secs vs actor dom signed now :
  f_ok (verify_foreign x secs vs actor dom signed now) = true -> exists a,
  find_for secs vs actor dom now = Some a /\ (forall m sg, signed = Some (m, sg) -> bundle_signs x a m sg) /\
  verify_foreign x secs vs actor dom signed now =
    mk_ForeignIdentityCheck true None (Some (attestation_id a)) (trust_levels_granted a) (scope a).
Proof.
  intros H. destruct (find_for secs vs actor dom now) as [a|] eqn:E.
  - exists a. split; [done|]. split; [by apply (verify_foreign_found x secs vs actor dom signed now a E)|].
    revert H. unfold verify_foreign. rewrite E. destruct signed as [[m sg]|]; [|done].
    destruct (Packet.Signature_from_slice x sg); [|discriminate]. by destruct (existsb _ _).
  - revert H. unfold verify_foreign. by rewrite E.
Qed.

(** A federated store vouches for a foreign actor only through a live
    attestation.  After any sequence of additions and removals and for every
    iteration order of the map, an accepted identity comes from a stored
    attestation for the subject domain, for this actor or for any, valid
    now, whose bundle holds an ed25519 key that verifies the signature; the
    levels and scope are those of that attestation. *)
Theorem foreign_identity_sound x secs ops vs actor dom signed now
    (Hv : values_of (run ops) vs) (Hok : f_ok (verify_foreign x secs vs actor dom signed now) = true) :
  exists id a, run ops !! id = Some a /\ attestation_id a = id /\ subject_domain a = dom /\
    (forall s, subject_actor a = Some s -> s = actor) /\
    in_window (attestation_window a) (unwrap_or now (now_iso8601 secs)) /\
    (forall m sg, signed = Some (m, sg) -> bundle_signs x a m sg) /\
    verify_foreign x secs vs actor dom signed now =
      mk_ForeignIdentityCheck true None (Some id) (trust_levels_granted a) (scope a).
Proof.
  destruct (verify_foreign_ok _ _ _ _ _ _ _ Hok) as (a & Hf & Hs & He).
  apply find_in_Some in Hf as [Hin Ha]. apply (values_of_elem _ _ _ Hv) in Hin as [id Hid].
  pose proof (run_keyed ops id a Hid) as Hk. apply applies_true in Ha as (Hd & Hact & Hw).
  exists id, a. subst id. auto 10.
Qed.

(** Where exactly one stored attestation applies to the actor, the answer
    does not depend on the iteration order: the identity is accepted exactly
    when that attestation's bundle verifies the signature. *)
Theorem foreign_identity_complete x secs s vs actor dom signed now id a
    (Hv : values_of s vs) (Ha : s !! id = Some a)
    (Hap : applies actor dom (unwrap_or now (now_iso8601 secs)) a = true)
    (Hone : forall id' b, s !! id' = Some b -> applies actor dom (unwrap_or now (now_iso8601 secs)) b = true -> b = a) :
  f_ok (verify_foreign x secs vs actor dom signed now) = true <->
  (forall m sg, signed = Some (m, sg) -> bundle_signs x a m sg).
Proof.
  apply verify_foreign_found. unfold find_for.
  destruct (find_in vs actor dom (unwrap_or now (now_iso8601 secs))) as [b|] eqn:E.
  - apply find_in_Some in E as [Hin Hb]. apply (values_of_elem _ _ _ Hv) in Hin as [id' Hid]. f_equal. by apply (Hone id').
  - assert (a ∈ vs) as Hin by (apply (values_of_elem _ _ _ Hv); eauto). by rewrite (find_in_None _ _ _ _ E a Hin) in Hap.
Qed.

(** An attestation is accepted exactly when it is version 1, signed with
    ed25519 by the issuer it names over everything but the signature, and the
    time lies between its issue and its end. *)
Theorem attestation_accepted_iff x secs a pk now :
  ok (verify_federation_attestation x secs a pk now) = true <->
  (attestation_version a = "1" /\ signer (signature a) = issuer a /\ algorithm (signature a) = "ed25519") /\
  in_window (attestation_window a) (unwrap_or now (now_iso8601 secs)) /\ doc_signed x a pk.
Proof.
  rewrite <- check_attestation_ok. unfold verify_federation_attestation.
  destruct (check_attestation x secs a pk now) as [[]|r]; cbn; split; congruence.
Qed.

(** A signed attestation with a non-empty bundle verifies in its window. *)
Lemma signed_attestation_verifies x secs args pk a now : Packet.crypto_laws x (a_private_key args) pk ->
  sign_federation_attestation x secs args = Ok a -> in_window (attestation_window a) (unwrap_or now (now_iso8601 secs)) ->
  check_attestation x secs a pk now = Ok tt.
Proof.
  intros L. unfold sign_federation_attestation. case_bool_decide; [discriminate|]. intros <-%Ok_inj Hw.
  apply check_attestation_ok. split; [done|]. split; [exact Hw|]. apply (sign_doc_signed x _ _ pk L).
Qed.

(** ** Witnesses *)

Definition key_a : list Z := replicate 32 1.
Definition key_b : list Z := replicate 32 2.
Definition att (id : string) (who : option string) (k : list Z) : FederationAttestation :=
  mk_FederationAttestation "1" id "home.org" "away.org" who (Some ["read"]) None
    [mk_TrustBundleEntry "x25519" "" None; mk_TrustBundleEntry "ed25519" (Packet.b64_encode k) None] None
    "2026-01-01T00:00:00Z" "2027-01-01T00:00:00Z" "tf:actor:home" (blank_envelope "tf:actor:home").

Lemma foreign_identity_sound_witness : exists id a, run [Add (att "a" None key_a)] !! id = Some a /\ attestation_id a = id /\
  subject_domain a = "away.org" /\ (forall s, subject_actor a = Some s -> s = "tf:actor:z") /\
  in_window (attestation_window a) (unwrap_or (Some "2026-05-01T00:00:00Z") (now_iso8601 0)) /\
  (forall m sg, Some ([5], Packet.toy_sign key_a [5]) = Some (m, sg) -> bundle_signs Packet.toy a m sg) /\
  verify_foreign Packet.toy 0 [att "a" None key_a] "tf:actor:z" "away.org" (Some ([5], Packet.toy_sign key_a [5]))
    (Some "2026-05-01T00:00:00Z")
  = mk_ForeignIdentityCheck true None (Some id) (trust_levels_granted a) (scope a).
Proof. apply foreign_identity_sound; [vm_compute; reflexivity|vm_compute; reflexivity]. Defined.

Lemma foreign_identity_complete_witness :
  f_ok (verify_foreign Packet.toy 0 [att "a" None key_a] "tf:actor:z" "away.org" None (Some "2026-05-01T00:00:00Z")) = true <->
  (forall m sg, (None : option (list Z * list Z)) = Some (m, sg) -> bundle_signs Packet.toy (att "a" None key_a) m sg).
Proof.
  apply (foreign_identity_complete Packet.toy 0 {["a" := att "a" None key_a]} _ _ _ _ _ "a").
  - vm_compute. reflexivity.
  - reflexivity.
  - vm_compute. reflexivity.
  - intros id' b. rewrite lookup_singleton_Some. by intros [_ <-] _.
Defined.

(** With two live attestations for the domain the answer depends on the
    iteration order: a signature by a key that one of them vouches for is
    refused when the map happens to yield the other first. *)
Definition two : FederatedTrustStore := run [Add (att "a" None key_a); Add (att "b" None key_b)].
Theorem foreign_identity_depends_on_order : exists vs1 vs2, values_of two vs1 /\ values_of two vs2 /\
  let ask vs := f_ok (verify_foreign Packet.toy 0 vs "tf:actor:z" "away.org" (Some ([5], Packet.toy_sign key_a [5]))
                        (Some "2026-05-01T00:00:00Z")) in
  ask vs1 = true /\ ask vs2 = false.
Proof.
  assert ((map_to_list two).*2 ≡ₚ [att "a" None key_a; att "b" None key_b]) as Hp.
  { vm_compute. apply Permutation_refl || apply perm_swap. }
  exists [att "a" None key_a; att "b" None key_b], [att "b" None key_b; att "a" None key_a].
  unfold values_of. split; [by symmetry|]. split; [rewrite Hp; apply perm_swap|]. vm_compute. auto.
Qed.

End Federation.
