(* ===== verification/Chain.v ===== *)
(** * Chain: the proof-event hash chain and Merkle tree ([chain.rs])

    Events are hashed over their canonical JSON without the signature; each
    event names the hash of the one before it.  The theorems locate a hash
    collision among the byte strings actually hashed wherever two different
    histories share a hash, so none of them assumes that SHA-256 has no
    collisions. *)

From S2P Require Import Prelude Utf8 Json Base64 Cbor BinaryFormat Canonical CanonicalText Clock Common Crypto Packet.
Import Canonical.

Module Chain.
#[local] Open Scope string_scope.
#[local] Open Scope list_scope.
#[local] Open Scope Z_scope.

(** ** Events ([generated/proof_event.rs]) *)

Record Provenance := mk_Provenance {
  human : option string;
  agent : option string;
  instance : option string;
  model : option string;
  tool : option string;
  requested_action : option string
}.

(** [event_version] has the single value 1. *)
Record ProofEvent := mk_ProofEvent {
  id : string;
  type_ : string;
  actor_id : string;
  instance_id : option string;
  session_id : option string;
  timestamp : string;
  level : ProofLevel;
  subject_ref : option string;
  payload_hash : option string;
  parent_hash : option string;
  context : option json;
  provenance : option Provenance;
  signature : SignatureEnvelope
}.

Definition level_str (l : ProofLevel) : string :=
  match l with L0 => "L0" | L1 => "L1" | L2 => "L2" | L3 => "L3" | L4 => "L4" | L5 => "L5" end.
Definition provenance_to_value (p : Provenance) : json :=
  JObject (opt_field "human" (human p) JString ++ opt_field "agent" (agent p) JString ++
    opt_field "instance" (instance p) JString ++ opt_field "model" (model p) JString ++
    opt_field "tool" (tool p) JString ++ opt_field "requested_action" (requested_action p) JString).
Definition envelope_to_value (s : SignatureEnvelope) : json :=
  JObject (field "algorithm" (JString (algorithm s)) ++ field "signer" (JString (signer s)) ++
    field "signature" (JString (Common.signature s)) ++ opt_field "hash_alg" (hash_alg s) JString ++
    opt_field "alt_algorithm" (alt_algorithm s) JString ++ opt_field "alt_signature" (alt_signature s) JString).
Definition event_fields (e : ProofEvent) : list (string * json) :=
  field "event_version" (JString "1") ++ field "id" (JString (id e)) ++ field "type" (JString (type_ e)) ++
  field "actor_id" (JString (actor_id e)) ++ opt_field "instance_id" (instance_id e) JString ++
  opt_field "session_id" (session_id e) JString ++ field "timestamp" (JString (timestamp e)) ++
  field "level" (JString (level_str (level e))) ++ opt_field "subject_ref" (subject_ref e) JString ++
  opt_field "payload_hash" (payload_hash e) JString ++ opt_field "parent_hash" (parent_hash e) JString ++
  opt_field "context" (context e) (fun v => v) ++ opt_field "provenance" (provenance e) provenance_to_value.
Definition event_to_value (e : ProofEvent) : json :=
  JObject (event_fields e ++ field "signature" (envelope_to_value (signature e))).

(** ** Hashes *)

Inductive ChainError :=
| CanonicalError (s : string)
| SerializeError (s : string)
| BadHashRef (s : string)
| ParentMismatch (i : nat) (declared expected : string)
| MissingParentHash (i : nat).

(** [collect::<Result<_, _>>()]: the first error in order. *)
Fixpoint collect {A B} (f : A -> result ChainError B) (l : list A) : result ChainError (list B) :=
  match l with
  | [] => Ok []
  | a :: l' => b ← f a; bs ← collect f l'; Ok (b :: bs)
  end.

Section chain.
Variable x : Packet.crypto.

(** Serialising an event never fails. *)
Definition event_signed_payload (e : ProofEvent) : result ChainError string :=
  map_err (fun err => CanonicalError (Packet.canonical_error_str x err))
    (Packet.canon x (Packet.remove_signature (event_to_value e))).
Definition sha256_hash_of (bytes : list Z) : string := "sha256:" +:+ hex (Packet.sha256 x bytes).
Definition event_hash (e : ProofEvent) : result ChainError string :=
  payload ← event_signed_payload e; Ok (sha256_hash_of (bytes_of_str payload)).

(** The bytes behind an event's hash reference. *)
Definition event_digest (e : ProofEvent) : result ChainError (list Z) :=
  hash ← event_hash e;
  match Crypto.parse_hashref hash with
  | Ok (_, bytes) => Ok bytes
  | Err err => Err (BadHashRef (Crypto.crypto_error_str err))
  end.

(** ** The chain *)

(** The loop of [verify_chain] from event [i], [prev] being the one before. *)
Fixpoint verify_from (i : nat) (prev : ProofEvent) (events : list ProofEvent) : result ChainError unit :=
  match events with
  | [] => Ok tt
  | e :: rest =>
    expected ← event_hash prev;
    match parent_hash e with
    | None => Err (MissingParentHash i)
    | Some parent =>
      if negb (parent =? expected)%string then Err (ParentMismatch i parent expected) else verify_from (S i) e rest
    end
  end.
Definition verify_chain (events : list ProofEvent) : result ChainError unit :=
  match events with [] => Ok tt | e :: rest => verify_from 1 e rest end.

Definition zero_hash : list Z := replicate 32 0.

Fixpoint chain_from (state : list Z) (events : list ProofEvent) : result ChainError (list Z) :=
  match events with
  | [] => Ok state
  | e :: rest => event_bytes ← event_digest e; chain_from (Packet.sha256 x (state ++ event_bytes)) rest
  end.
Definition chain_hash (events : list ProofEvent) : result ChainError string :=
  state ← chain_from zero_hash events; Ok ("sha256:" +:+ hex state).

(** ** The Merkle tree *)

(** [level.push(level.last().unwrap().clone())] on odd levels. *)
Definition pad_odd (level : list (list Z)) : list (list Z) :=
  if Nat.odd (length level) then level ++ [List.last level []] else level.
(** [chunks_exact(2)]. *)
Fixpoint pairs (level : list (list Z)) : list (list Z) :=
  match level with a :: b :: rest => (a ++ b) :: pairs rest | _ => [] end.
Definition next_level (level : list (list Z)) : list (list Z) := Packet.sha256 x <$> pairs (pad_odd level).
(** [while level.len() > 1]; [None] is out of fuel. *)
Fixpoint merkle_loop (fuel : nat) (level : list (list Z)) : option (list Z) :=
  match level with
  | [] => None
  | [a] => Some a
  | _ => match fuel with O => None | S fuel' => merkle_loop fuel' (next_level level) end
  end.
Definition merkle_root (events : list ProofEvent) : option (result ChainError string) :=
  match events with
  | [] => Some (Ok ("sha256:" +:+ hex zero_hash))
  | _ =>
    match collect event_digest events with
    | Err e => Some (Err e)
    | Ok level => root ← merkle_loop (length level) level; Some (Ok ("sha256:" +:+ hex root))
    end
  end.
End chain.

(** ** Collisions *)

(** A byte string of [P] and a different one of [Q] have the same hash. *)
Definition collides (x : Packet.crypto) (P Q : list (list Z)) : Prop :=
  exists a b, a ∈ P /\ b ∈ Q /\ a <> b /\ Packet.sha256 x a = Packet.sha256 x b.

Lemma collides_mono x P Q P' Q' : P ⊆ P' -> Q ⊆ Q' -> collides x P Q -> collides x P' Q'.
Proof. intros HP HQ (a & b & Ha & Hb & H). exists a, b. auto. Qed.

Lemma same_hash x a b : Packet.sha256 x a = Packet.sha256 x b -> a = b \/ collides x [a] [b].
Proof.
  intros H. destruct (decide (a = b)) as [|Hne]; [by left|right]. exists a, b. split; [left|]. split; [left|done].
Qed.

Lemma same_hashes x P Q : Packet.sha256 x <$> P = Packet.sha256 x <$> Q -> P = Q \/ collides x P Q.
Proof.
  revert Q. induction P as [|a P IH]; intros [|b Q] H; try done; [by left|]. injection H as H1 H2.
  destruct (same_hash x a b H1) as [->|Hc]; [destruct (IH Q H2) as [->|Hc]|].
  - by left.
  - right. eapply collides_mono; [..|exact Hc]; by apply list_subseteq_cons.
  - right. eapply collides_mono; [..|exact Hc]; intros c ->%list_elem_of_singleton; left.
Qed.

(** [sha2]: digests are 32 bytes. *)
Definition sha256_law (x : Packet.crypto) : Prop :=
  forall m, length (Packet.sha256 x m) = 32%nat /\ is_bytes (Packet.sha256 x m).

Section facts.
Context (x : Packet.crypto) (Hsha : sha256_law x).

Lemma hash_of_parses b : Crypto.parse_hashref (sha256_hash_of x b) = Ok ("sha256", Packet.sha256 x b).
Proof using Hsha.
  unfold Crypto.parse_hashref, sha256_hash_of. rewrite !str_app_cons. change ("" +:+ ?s) with s. cbn.
  rewrite Crypto.parse_hex_hex by apply Hsha. done.
Qed.

Lemma hash_of_inj a b : sha256_hash_of x a = sha256_hash_of x b -> Packet.sha256 x a = Packet.sha256 x b.
Proof using Hsha. intros H. pose proof (hash_of_parses a) as Ha. rewrite H, hash_of_parses in Ha. by injection Ha. Qed.

Lemma event_digest_ok e d : event_digest x e = Ok d <->
  exists p, event_signed_payload x e = Ok p /\ d = Packet.sha256 x (bytes_of_str p).
Proof using Hsha.
  unfold event_digest, event_hash. destruct (event_signed_payload x e) as [p|err]; cbn [mbind result_bind].
  - rewrite hash_of_parses. split; [intros <-%Ok_inj; eauto|]. by intros (? & <-%Ok_inj & ->).
  - split; [discriminate|]. by intros (? & ? & _).
Qed.

Lemma event_hash_ok e h : event_hash x e = Ok h <->
  exists p, event_signed_payload x e = Ok p /\ h = sha256_hash_of x (bytes_of_str p).
Proof.
  unfold event_hash. destruct (event_signed_payload x e) as [p|err]; cbn [mbind result_bind].
  - split; [intros <-%Ok_inj; eauto|]. by intros (? & <-%Ok_inj & ->).
  - split; [discriminate|]. by intros (? & ? & _).
Qed.

Lemma collect_ok {A B} (f : A -> result ChainError B) l bs : collect f l = Ok bs <-> Forall2 (fun a b => f a = Ok b) l bs.
Proof.
  revert bs. induction l as [|a l IH]; intros bs; cbn [collect].
  - split; [intros <-%Ok_inj; constructor|]. by inversion 1.
  - split.
    + intros E. apply bind_ok in E as (b & Hb & E). apply bind_ok in E as (bs' & Hbs & E). apply Ok_inj in E as <-.
      constructor; [done|]. by apply IH.
    + inversion_clear 1 as [|? b ? bs' Hb Hbs]. rewrite Hb. cbn [mbind result_bind]. apply IH in Hbs. by rewrite Hbs.
Qed.

(** The texts of a list of events, as bytes. *)
Definition payloads (es : list ProofEvent) (ps : list (list Z)) : Prop :=
  exists ts, collect (event_signed_payload x) es = Ok ts /\ ps = bytes_of_str <$> ts.

Lemma payloads_cons e es ps : payloads (e :: es) ps <->
  exists p ps', event_signed_payload x e = Ok p /\ payloads es ps' /\ ps = bytes_of_str p :: ps'.
Proof.
  unfold payloads. split.
  - intros (ts & Hc & ->). apply collect_ok in Hc. inversion_clear Hc as [|? t ? ts' H1 H2].
    exists t, (bytes_of_str <$> ts'). split; [done|]. split; [|done]. exists ts'. split; [by apply collect_ok|done].
  - intros (p & ps' & Hp & (ts & Hc & ->) & ->). exists (p :: ts). split; [|done]. cbn [collect]. rewrite Hp.
    cbn [mbind result_bind]. by rewrite Hc.
Qed.

Lemma digests_payloads es level : collect (event_digest x) es = Ok level ->
  exists ps, payloads es ps /\ level = Packet.sha256 x <$> ps.
Proof using Hsha.
  rewrite collect_ok. induction 1 as [|e d es level Hd _ (ps & Hp & ->)].
  - exists []. split; [|done]. by exists [].
  - apply event_digest_ok in Hd as (p & Hp1 & ->). exists (bytes_of_str p :: ps). split; [|done].
    apply payloads_cons. eauto 10.
Qed.

(** ** The Merkle tree *)

Lemma pad_odd_length l : length (pad_odd l) = (2 * Nat.div2 (length l + 1))%nat.
Proof.
  unfold pad_odd. destruct (Nat.odd (length l)) eqn:E.
  - rewrite length_app. cbn [length]. apply Nat.odd_spec in E as [k ->].
    replace (2 * k + 1 + 1)%nat with (2 * (k + 1))%nat by lia. by rewrite Nat.div2_double.
  - assert (Nat.even (length l) = true) as Ev by (rewrite <- Nat.negb_odd, E; done).
    apply Nat.even_spec in Ev as [k ->]. replace (2 * k + 1)%nat with (S (2 * k)) by lia. by rewrite Nat.div2_succ_double.
Qed.

Lemma pairs_length l : length (pairs l) = Nat.div2 (length l).
Proof. induction l as [|a|a b l IH] using list_ind2; [done..|]. cbn [pairs length]. by rewrite IH. Qed.

Lemma next_level_length l : length (next_level x l) = Nat.div2 (length l + 1).
Proof. unfold next_level. rewrite length_fmap, pairs_length, pad_odd_length. by rewrite Nat.div2_double. Qed.

Lemma merkle_loop_total fuel l : l <> [] -> (length l <= fuel + 1)%nat -> exists r, merkle_loop x fuel l = Some r.
Proof.
  revert l. induction fuel as [|fuel IH]; intros [|a [|b l]] Hne Hl; try done; try (by eexists); [cbn in Hl; lia|].
  cbn [merkle_loop]. pose proof (next_level_length (a :: b :: l)) as Hn. cbn [length] in *.
  replace (S (S (length l)) + 1)%nat with (S (S (S (length l)))) in Hn by lia.
  change (Nat.div2 (S (S (S (length l))))) with (S (Nat.div2 (S (length l)))) in Hn.
  pose proof (Nat.div2_decr (S (length l)) (length l) ltac:(lia)) as Hd.
  apply IH; [by destruct (next_level x (a :: b :: l))|]. rewrite Hn. lia.
Qed.

(** [merkle_root] terminates: the fuel it is given is enough. *)
Lemma merkle_root_total es : exists r, merkle_root x es = Some r.
Proof.
  destruct es as [|e es]; [by eexists|]. cbn [merkle_root].
  destruct (collect (event_digest x) (e :: es)) as [level|err] eqn:E; [|by eexists].
  apply collect_ok in E. destruct level as [|a level]; [by inversion E|].
  destruct (merkle_loop_total (length (a :: level)) (a :: level)) as [r Hr]; [done|lia|]. rewrite Hr. by eexists.
Qed.

(** Nodes of one size: the pairs determine the level, and so does padding. *)
Definition nodes (l : list (list Z)) : Prop := Forall (fun n => length n = 32%nat) l.

Lemma pairs_inj l m : nodes l -> nodes m -> length l = length m -> Nat.Even (length l) -> pairs l = pairs m -> l = m.
Proof.
  revert m. induction l as [|a|a b l IH] using list_ind2; intros m Hl Hm Hlen Hev Hp.
  - by destruct m.
  - destruct Hev as [k Hk]. cbn in Hk. lia.
  - destruct m as [|a' [|b' m]]; try done. cbn [pairs] in Hp. injection Hp as Hab Hp.
    inversion_clear Hl as [|? ? Ha Hl']. inversion_clear Hl' as [|? ? Hb Hl].
    inversion_clear Hm as [|? ? Ha' Hm']. inversion_clear Hm' as [|? ? Hb' Hm].
    apply app_inj_1 in Hab as [-> ->]; [|congruence]. do 2 f_equal. apply IH; try done; [cbn in Hlen; lia|].
    destruct Hev as [k Hk]. exists (k - 1)%nat. cbn in Hk. lia.
Qed.

Lemma pad_odd_nodes l : nodes l -> nodes (pad_odd l).
Proof.
  intros H. unfold pad_odd. destruct (Nat.odd (length l)) eqn:E; [|done]. apply Forall_app. split; [done|].
  constructor; [|constructor]. destruct l as [|a l] using rev_ind; [done|]. rewrite List.last_last.
  apply Forall_app in H as [_ H]. by inversion_clear H.
Qed.

Lemma pad_odd_inj l m : length l = length m -> pad_odd l = pad_odd m -> l = m.
Proof.
  intros Hl. unfold pad_odd. rewrite Hl. destruct (Nat.odd (length m)); [|done]. intros H. by apply app_inj_1 in H as [-> _].
Qed.

Lemma next_level_nodes l : nodes (next_level x l).
Proof using Hsha. apply Forall_fmap, Forall_true. intros p. apply Hsha. Qed.

(** Everything hashed above a level. *)
Fixpoint loop_inputs (fuel : nat) (level : list (list Z)) : list (list Z) :=
  match fuel with
  | O => []
  | S fuel' => if (length level <=? 1)%nat then [] else pairs (pad_odd level) ++ loop_inputs fuel' (next_level x level)
  end.

Lemma merkle_loop_binding fuel l m r : nodes l -> nodes m -> length l = length m ->
  merkle_loop x fuel l = Some r -> merkle_loop x fuel m = Some r ->
  l = m \/ collides x (loop_inputs fuel l) (loop_inputs fuel m).
Proof using Hsha.
  revert l m. induction fuel as [|fuel IH]; intros [|a [|b l]] [|a' [|b' m]] Hl Hm Hlen H1 H2; try done; try (left; cbn in *; congruence).
  cbn [merkle_loop] in H1, H2. assert (length (next_level x (a :: b :: l)) = length (next_level x (a' :: b' :: m))) as Hn.
  { by rewrite !next_level_length, Hlen. }
  destruct (IH _ _ (next_level_nodes _) (next_level_nodes _) Hn H1 H2) as [He|Hc].
  - unfold next_level in He. destruct (same_hashes x _ _ He) as [Hp|Hc].
    + left. apply pad_odd_inj; [done|]. apply pairs_inj; [by apply pad_odd_nodes..|by rewrite !pad_odd_length, Hlen| |done].
      rewrite pad_odd_length. eexists. reflexivity.
    + right. eapply collides_mono; [..|exact Hc]; intros c Hin; cbn [loop_inputs length]; apply elem_of_app; by left.
  - right. eapply collides_mono; [..|exact Hc]; intros c Hin; cbn [loop_inputs length]; apply elem_of_app; by right.
Qed.

(** Everything [merkle_root] hashes for events with the texts [ps]. *)
Definition merkle_inputs (ps : list (list Z)) : list (list Z) :=
  ps ++ loop_inputs (length ps) (Packet.sha256 x <$> ps).

Lemma merkle_root_ok e es h : merkle_root x (e :: es) = Some (Ok h) -> exists ps r,
  payloads (e :: es) ps /\ merkle_loop x (length ps) (Packet.sha256 x <$> ps) = Some r /\ h = "sha256:" +:+ hex r.
Proof using Hsha.
  cbn [merkle_root]. destruct (collect (event_digest x) (e :: es)) as [level|err] eqn:E; [|discriminate].
  destruct (digests_payloads _ _ E) as (ps & Hp & ->). rewrite length_fmap.
  destruct (merkle_loop x (length ps) (Packet.sha256 x <$> ps)) as [r|] eqn:Er; [|discriminate]. intros [= <-]. eauto.
Qed.

(** ** The rolling hash *)

Definition roll (state : list Z) (ps : list (list Z)) : list Z :=
  foldl (fun st p => Packet.sha256 x (st ++ Packet.sha256 x p)) state ps.
(** Everything hashed beside the texts themselves. *)
Fixpoint roll_inputs (state : list Z) (ps : list (list Z)) : list (list Z) :=
  match ps with
  | [] => []
  | p :: ps' => let b := state ++ Packet.sha256 x p in b :: roll_inputs (Packet.sha256 x b) ps'
  end.

Lemma chain_from_ok state es r : chain_from x state es = Ok r -> exists ps, payloads es ps /\ r = roll state ps.
Proof using Hsha.
  revert state. induction es as [|e es IH]; intros state; cbn [chain_from].
  - intros <-%Ok_inj. exists []. split; [by exists []|done].
  - intros E. apply bind_ok in E as (d & Hd & E). apply event_digest_ok in Hd as (p & Hp & ->).
    apply IH in E as (ps & Hps & ->). exists (bytes_of_str p :: ps). split; [|done]. apply payloads_cons. eauto 10.
Qed.

Lemma roll_bytes state ps : is_bytes state -> is_bytes (roll state ps).
Proof using Hsha. unfold roll. revert state. induction ps as [|p ps IH]; intros state Hs; [done|]. apply IH, Hsha. Qed.

Lemma roll_binding ps qs s1 s2 : length s1 = length s2 -> length ps = length qs -> roll s1 ps = roll s2 qs ->
  (s1 = s2 /\ ps = qs) \/ collides x (ps ++ roll_inputs s1 ps) (qs ++ roll_inputs s2 qs).
Proof using Hsha.
  revert qs s1 s2. induction ps as [|p ps IH]; intros [|q qs] s1 s2 Hs Hl H; try done; [by left|].
  injection Hl as Hl. cbn in H. fold (roll (Packet.sha256 x (s1 ++ Packet.sha256 x p)) ps) in H.
  fold (roll (Packet.sha256 x (s2 ++ Packet.sha256 x q)) qs) in H.
  apply IH in H as [[Hh ->]|Hc]; [|right|by rewrite !(proj1 (Hsha _))|done].
  2: { eapply collides_mono; [..|exact Hc]; intros c; cbn [roll_inputs]; rewrite !elem_of_app, !elem_of_cons, ?elem_of_app; tauto. }
  destruct (same_hash x _ _ Hh) as [He|Hc].
  - apply app_inj_1 in He as [-> He]; [|done]. destruct (same_hash x _ _ He) as [->|Hc]; [by left|right].
    eapply collides_mono; [..|exact Hc]; intros c ->%list_elem_of_singleton; cbn [roll_inputs]; left.
  - right. eapply collides_mono; [..|exact Hc]; intros c ->%list_elem_of_singleton; cbn [roll_inputs]; set_solver.
Qed.

(** ** Links *)

(** [f] names the hash of [e]. *)
Definition link (e f : ProofEvent) : Prop := exists h, event_hash x e = Ok h /\ parent_hash f = Some h.

Lemma verify_from_ok i prev es : verify_from x i prev es = Ok tt <->
  forall j e f, (prev :: es) !! j = Some e -> (prev :: es) !! S j = Some f -> link e f.
Proof.
  revert i prev. induction es as [|e es IH]; intros i prev; cbn [verify_from]; [split; [|done]; by intros _ [|] ? ? ? ?|].
  assert ((exists h, event_hash x prev = Ok h /\ parent_hash e = Some h /\ verify_from x (S i) e es = Ok tt) <->
    (h ← event_hash x prev; match parent_hash e with None => Err (MissingParentHash i) | Some parent =>
      if negb (parent =? h)%string then Err (ParentMismatch i parent h) else verify_from x (S i) e es end) = Ok tt) as <-.
  { split.
    - intros (h & -> & -> & E). cbn [mbind result_bind]. by rewrite String.eqb_refl.
    - intros E. apply bind_ok in E as (h & Hh & E). exists h. split; [done|].
      destruct (parent_hash e) as [p|]; [|discriminate]. destruct (String.eqb_spec p h); [subst; auto|discriminate]. }
  split.
  - intros (h & Hh & Hp & Hv) [|j] a b Ha Hb; [|by apply (proj1 (IH (S i) e) Hv j)].
    cbn in Ha, Hb. injection Ha as <-. injection Hb as <-. by exists h.
  - intros H. destruct (H 0%nat prev e eq_refl eq_refl) as (h & Hh & Hp). exists h. do 2 (split; [done|]).
    apply IH. intros j. apply (H (S j)).
Qed.

Lemma verify_chain_ok es : verify_chain x es = Ok tt <->
  forall j e f, es !! j = Some e -> es !! S j = Some f -> link e f.
Proof. destruct es as [|e es]; [split; [by intros _ [|] ? ?|done]|]. apply verify_from_ok. Qed.

Lemma verify_chain_prefix es es' : verify_chain x (es ++ es') = Ok tt -> verify_chain x es = Ok tt.
Proof. rewrite !verify_chain_ok. intros H j e f He Hf. apply (H j); by apply lookup_app_l_Some. Qed.

Lemma verify_chain_last es e f : verify_chain x (es ++ [e; f]) = Ok tt -> link e f.
Proof.
  rewrite verify_chain_ok. intros H. apply (H (length es)).
  - by rewrite lookup_app_r, Nat.sub_diag by lia.
  - rewrite lookup_app_r by lia. by replace (S (length es) - length es)%nat with 1%nat by lia.
Qed.
End facts.

(** ** What a hash of the last event says about the history *)

(** NFC leaves ASCII alone. *)
Definition nfc_law (x : Packet.crypto) : Prop := forall s, Clock.is_ascii s = true -> Packet.nfc x s = s.

(** The free-form context carries no doubles. *)
Definition plain (e : ProofEvent) : Prop := forall v, context e = Some v -> CanonicalText.float_free v = true.

Lemma event_strip e : Packet.remove_signature (event_to_value e) = JObject (event_fields e).
Proof.
  unfold Packet.remove_signature, event_to_value. f_equal. apply Packet.assoc_remove_last.
  unfold event_fields, opt_field, field. repeat case_match; repeat constructor; done.
Qed.

Lemma opt_field_float_free {A} k (o : option A) f : (forall a, o = Some a -> CanonicalText.float_free (f a) = true) ->
  forallb (fun kv => CanonicalText.float_free kv.2) (opt_field k o f) = true.
Proof. intros H. destruct o as [a|]; [|done]. cbn. by rewrite (H a eq_refl). Qed.

Lemma event_float_free e : plain e -> CanonicalText.float_free (JObject (event_fields e)) = true.
Proof.
  intros H. cbn [CanonicalText.float_free]. unfold event_fields. rewrite !forallb_app, !opt_field_float_free; try done.
  intros p _. unfold provenance_to_value. cbn [CanonicalText.float_free]. by rewrite !forallb_app, !opt_field_float_free.
Qed.

(** Keys are ASCII, and the entry named [parent_hash] is the field. *)
Lemma event_entries e : Forall (fun kv => Clock.is_ascii kv.1 = true /\
  (kv.1 = "parent_hash" -> exists p, parent_hash e = Some p /\ kv.2 = JString p)) (event_fields e).
Proof.
  unfold event_fields, opt_field, field.
  repeat (apply Forall_app; split); repeat case_match;
    repeat (apply Forall_cons; split || apply Forall_nil); try done; split; try done; intros _; eauto.
Qed.

Section commit.
Context (x : Packet.crypto) (Hsha : sha256_law x) (Hnfc : nfc_law x).

Lemma plain_payload e : plain e -> exists t, event_signed_payload x e = Ok t /\
  CanonicalText.read_json t = Some (CanonicalText.normal_json (Packet.nfc x) (JObject (event_fields e))).
Proof.
  intros H%event_float_free. unfold event_signed_payload. rewrite event_strip.
  destruct (CanonicalText.canonical_readback (Packet.nfc x) (Packet.show_f64 x) _ H) as (t & Ht & Hr).
  exists t. unfold Packet.canon. by rewrite Ht.
Qed.

(** Events with the same text name the same parent. *)
Lemma same_payload_parent e f t p : plain e -> plain f -> event_signed_payload x e = Ok t -> event_signed_payload x f = Ok t ->
  parent_hash e = Some p -> exists q, parent_hash f = Some q /\ Packet.nfc x q = Packet.nfc x p.
Proof using Hnfc.
  intros He Hf Hte Htf Hp. destruct (plain_payload e He) as (t1 & E1 & R1). destruct (plain_payload f Hf) as (t2 & E2 & R2).
  rewrite Hte in E1. rewrite Htf in E2. apply Ok_inj in E1 as <-. apply Ok_inj in E2 as <-. rewrite R1 in R2.
  set (nrm := fun kv : string * json => (Packet.nfc x kv.1, CanonicalText.normal_json (Packet.nfc x) kv.2)).
  assert (BinaryFormat.sort_entries (nrm <$> event_fields e) = BinaryFormat.sort_entries (nrm <$> event_fields f)) as R.
  { change (Some (JObject (BinaryFormat.sort_entries (nrm <$> event_fields e))) =
      Some (JObject (BinaryFormat.sort_entries (nrm <$> event_fields f)))) in R2. congruence. }
  assert (("parent_hash", JString (Packet.nfc x p)) ∈ nrm <$> event_fields e) as Hin.
  { apply list_elem_of_fmap. exists ("parent_hash", JString p). split; [unfold nrm; cbn; by rewrite (Hnfc "parent_hash")|].
    unfold event_fields. rewrite Hp, !elem_of_app. do 10 right. left. apply list_elem_of_singleton. done. }
  rewrite <- BinaryFormat.sort_entries_perm, R, BinaryFormat.sort_entries_perm in Hin.
  apply list_elem_of_fmap in Hin as ([k v] & E & Hkv).
  pose proof (event_entries f) as Hall. rewrite Forall_forall in Hall. destruct (Hall _ Hkv) as [Hk Hq].
  unfold nrm in E. cbn in E, Hk, Hq. rewrite (Hnfc k) in E by done. injection E as <- Ev.
  destruct (Hq eq_refl) as (q & Hfq & ->). exists q. split; [done|]. cbn in Ev. by injection Ev.
Qed.

Lemma hash_ref_ascii bs : is_bytes bs -> Clock.is_ascii (hex bs) = true.
Proof.
  induction 1 as [|b bs Hb _ IH]; [done|]. cbn [hex foldr]. fold (hex bs). rewrite Clock.is_ascii_app, IH, andb_true_r.
  assert (all_below 256 (fun b => Clock.is_ascii (hex2 b)) = true) as Hall by (vm_compute; reflexivity).
  by apply (all_below_spec 256 _ Hall).
Qed.

Lemma event_hash_nfc e h : event_hash x e = Ok h -> Packet.nfc x h = h.
Proof using Hsha Hnfc.
  intros (p & _ & ->)%event_hash_ok. apply Hnfc. unfold sha256_hash_of. rewrite Clock.is_ascii_app.
  rewrite hash_ref_ascii by apply Hsha. done.
Qed.

(** Two events with different texts and the same hash. *)
Definition event_collision (es fs : list ProofEvent) : Prop :=
  exists e f t u, e ∈ es /\ f ∈ fs /\ event_signed_payload x e = Ok t /\ event_signed_payload x f = Ok u /\ t <> u /\
    event_hash x e = event_hash x f.
Definition same_payload (e f : ProofEvent) : Prop :=
  exists t, event_signed_payload x e = Ok t /\ event_signed_payload x f = Ok t.

Lemma chain_commits es fs e f h : length es = length fs ->
  Forall plain (es ++ [e]) -> Forall plain (fs ++ [f]) ->
  verify_chain x (es ++ [e]) = Ok tt -> verify_chain x (fs ++ [f]) = Ok tt ->
  event_hash x e = Ok h -> event_hash x f = Ok h ->
  Forall2 same_payload (es ++ [e]) (fs ++ [f]) \/ event_collision (es ++ [e]) (fs ++ [f]).
Proof using Hsha Hnfc.
  revert fs e f h. induction es as [|e' es IH] using rev_ind; intros fs e f h Hlen Hpe Hpf Hve Hvf He Hf;
  (pose proof He as (t & Ht & Hht)%event_hash_ok; pose proof Hf as (u & Hu & Hhu)%event_hash_ok;
   destruct (decide (t = u)) as [<-|Hne];
   [|right; exists e, f, t, u; rewrite !elem_of_app; repeat split; try done; [right; left|right; left|congruence]]).
  - destruct fs; [|done]. left. constructor; [by exists t|constructor].
  - destruct fs as [|f' fs _] using rev_ind; [rewrite length_app in Hlen; cbn in Hlen; lia|].
    rewrite !length_app in Hlen. rewrite <- !app_assoc in *. cbn [app] in *.
    destruct (verify_chain_last x _ _ _ Hve) as (h1 & Hh1 & Hp1). destruct (verify_chain_last x _ _ _ Hvf) as (h2 & Hh2 & Hp2).
    assert (plain e /\ plain f) as [Hple Hplf].
    { apply Forall_app in Hpe as [_ He2]. apply Forall_app in Hpf as [_ Hf2]. inversion_clear He2 as [|? ? _ He3].
      inversion_clear Hf2 as [|? ? _ Hf3]. inversion_clear He3. by inversion_clear Hf3. }
    destruct (same_payload_parent e f t h1 Hple Hplf Ht Hu Hp1) as (q & Hq & Hn).
    assert (h1 = h2) as <-. { rewrite (event_hash_nfc e' h1 Hh1) in Hn. assert (q = h2) as -> by congruence.
      by rewrite (event_hash_nfc f' h2 Hh2) in Hn. }
    change [e'; e] with ([e'] ++ [e]) in *. change [f'; f] with ([f'] ++ [f]) in *. rewrite !app_assoc in *.
    apply Forall_app in Hpe as [Hpe _]. apply Forall_app in Hpf as [Hpf _].
    apply verify_chain_prefix in Hve, Hvf.
    destruct (IH fs e' f' h1 ltac:(cbn in Hlen; lia) Hpe Hpf Hve Hvf Hh1 Hh2) as [H|(a & b & ta & tb & Ha & Hb & Hrest)].
    + left. apply Forall2_app; [done|]. constructor; [by exists t|constructor].
    + right. exists a, b, ta, tb. rewrite !(elem_of_app (_ ++ _)). auto.
Qed.
End commit.

(** A chain verifies exactly when every event but the first names, as
    its parent, the hash of the event before it. *)
Theorem verify_chain_iff x es : verify_chain x es = Ok tt <->
  forall i e f, es !! i = Some e -> es !! S i = Some f -> exists h, event_hash x e = Ok h /\ parent_hash f = Some h.
Proof. apply verify_chain_ok. Qed.

(** C20: The hash of the last event commits to the whole history.  Two chains
    of the same length that verify, whose event contexts carry no
    floating-point numbers, and whose last events have the same hash carry the same signed text event by event, or two events of theirs with
    different texts have the same SHA-256 hash: no event before the last can
    be changed without a collision. *)
Theorem last_hash_commits_to_chain x es fs e f h (Hsha : sha256_law x) (Hnfc : nfc_law x)
    (Hlen : length es = length fs) (Hpe : Forall plain (es ++ [e])) (Hpf : Forall plain (fs ++ [f]))
    (Hve : verify_chain x (es ++ [e]) = Ok tt) (Hvf : verify_chain x (fs ++ [f]) = Ok tt)
    (He : event_hash x e = Ok h) (Hf : event_hash x f = Ok h) :
  Forall2 (same_payload x) (es ++ [e]) (fs ++ [f]) \/ event_collision x (es ++ [e]) (fs ++ [f]).
Proof. by apply (chain_commits x Hsha Hnfc es fs e f h). Qed.

Lemma payloads_length x es ps : payloads x es ps -> length ps = length es.
Proof. intros (ts & H%collect_ok & ->). rewrite length_fmap. symmetry. by eapply Forall2_length. Qed.

Lemma merkle_loop_bytes x fuel l r : sha256_law x -> Forall is_bytes l -> merkle_loop x fuel l = Some r -> is_bytes r.
Proof.
  intros Hsha. revert l. induction fuel as [|fuel IH]; intros [|a [|b l]] Hl H; try done;
    cbn [merkle_loop] in H; try (injection H as <-; by inversion_clear Hl).
  apply (IH (next_level x (a :: b :: l))); [|done]. apply Forall_fmap, Forall_true. intros p. apply Hsha.
Qed.

(** The Merkle root always exists for events that can be hashed, and
    binds them: two non-empty lists of the same number of events with the
    same root have the same signed texts, or two different byte strings
    hashed on the way have the same SHA-256 hash. *)
Theorem merkle_root_binds x e es f fs h (Hsha : sha256_law x) (Hlen : length es = length fs)
    (He : merkle_root x (e :: es) = Some (Ok h)) (Hf : merkle_root x (f :: fs) = Some (Ok h)) :
  exists ps qs, payloads x (e :: es) ps /\ payloads x (f :: fs) qs /\
    (ps = qs \/ collides x (merkle_inputs x ps) (merkle_inputs x qs)).
Proof.
  destruct (merkle_root_ok x Hsha _ _ _ He) as (ps & r & Hp & Hr & Hh).
  destruct (merkle_root_ok x Hsha _ _ _ Hf) as (qs & r' & Hq & Hr' & Hh'). exists ps, qs. do 2 (split; [done|]).
  assert (forall l, Forall is_bytes (Packet.sha256 x <$> l) /\ nodes (Packet.sha256 x <$> l)) as Hn.
  { intros l. split; apply Forall_fmap, Forall_true; intros m; apply Hsha. }
  assert (length ps = length qs) as Hl by (rewrite (payloads_length _ _ _ Hp), (payloads_length _ _ _ Hq); cbn; congruence).
  assert (r = r') as <-. { apply Crypto.hash_text_inj; [..|congruence]; (eapply merkle_loop_bytes; [exact Hsha|apply Hn|eassumption]). }
  rewrite <- Hl in Hr'. destruct (merkle_loop_binding x Hsha (length ps) _ _ r (proj2 (Hn ps)) (proj2 (Hn qs)) ltac:(by rewrite !length_fmap) Hr Hr')
    as [H|Hc].
  - destruct (same_hashes x _ _ H) as [->|Hc]; [by left|right].
    eapply collides_mono; [..|exact Hc]; intros c Hin; apply elem_of_app; by left.
  - right. eapply collides_mono; [..|exact Hc]; intros c Hin; apply elem_of_app; right; [done|by rewrite <- Hl].
Qed.

(** The rolling chain hash binds a history of known length: two lists of
    the same number of events with the same chain hash have the same signed
    texts, or two different byte strings hashed on the way have the same
    SHA-256 hash. *)
Theorem chain_hash_binds x es fs h (Hsha : sha256_law x) (Hlen : length es = length fs)
    (He : chain_hash x es = Ok h) (Hf : chain_hash x fs = Ok h) :
  exists ps qs, payloads x es ps /\ payloads x fs qs /\
    (ps = qs \/ collides x (ps ++ roll_inputs x zero_hash ps) (qs ++ roll_inputs x zero_hash qs)).
Proof.
  unfold chain_hash in He, Hf. apply bind_ok in He as (r & Hr & He). apply bind_ok in Hf as (r' & Hr' & Hf).
  apply Ok_inj in He, Hf. apply (chain_from_ok x Hsha) in Hr as (ps & Hp & ->), Hr' as (qs & Hq & ->).
  exists ps, qs. do 2 (split; [done|]).
  assert (is_bytes zero_hash) as Hz by (apply Forall_replicate; unfold is_u8; lia).
  assert (roll x zero_hash ps = roll x zero_hash qs) as Hroll.
  { apply Crypto.hash_text_inj; [by apply roll_bytes..|congruence]. }
  destruct (roll_binding x Hsha ps qs zero_hash zero_hash eq_refl) as [[_ ->]|Hc]; [|done|by left|by right].
  by rewrite (payloads_length _ _ _ Hp), (payloads_length _ _ _ Hq).
Qed.

(** ** Padding *)

Lemma merkle_loop_more x fuel l r k : merkle_loop x fuel l = Some r -> merkle_loop x (fuel + k) l = Some r.
Proof.
  revert l. induction fuel as [|fuel IH]; intros [|a [|b l]]; try done; [by destruct k|]. apply IH.
Qed.

(** A level with the same next level has the same root. *)
Lemma merkle_loop_same_next x fuel k l l' r : (2 <= length l)%nat -> (2 <= length l')%nat ->
  next_level x l' = next_level x l -> merkle_loop x fuel l = Some r -> merkle_loop x (fuel + k) l' = Some r.
Proof.
  destruct l as [|a [|b l]], l' as [|a' [|b' l']]; cbn [length]; try lia. intros _ _ Hn.
  destruct fuel as [|fuel]; [done|]. cbn [merkle_loop Nat.add]. rewrite Hn. apply merkle_loop_more.
Qed.

Lemma collect_app {A B} (f : A -> result ChainError B) l m bs cs : collect f l = Ok bs -> collect f m = Ok cs ->
  collect f (l ++ m) = Ok (bs ++ cs).
Proof. rewrite !collect_ok. apply Forall2_app. Qed.

(** The root does not bind the number of events: repeating the last of
    an odd number of events (three or more) leaves the Merkle root as it is,
    whatever the hash function. *)
Theorem merkle_padding_ambiguous x es e h (Hlen : (2 <= length es)%nat) (Hodd : Nat.odd (length (es ++ [e])) = true)
    (Hroot : merkle_root x (es ++ [e]) = Some (Ok h)) :
  merkle_root x (es ++ [e; e]) = Some (Ok h).
Proof.
  destruct es as [|a es]; [cbn in Hlen; lia|]. revert Hroot. cbn [merkle_root app].
  change (a :: es ++ [e]) with ((a :: es) ++ [e]). replace (a :: es ++ [e; e]) with (((a :: es) ++ [e]) ++ [e])
    by (cbn; by rewrite <- app_assoc).
  destruct (collect (event_digest x) ((a :: es) ++ [e])) as [level|err] eqn:E; [|discriminate].
  apply collect_ok in E as E2. apply Forall2_app_inv_l in E2 as (l1 & l2 & _ & Hd & ->).
  inversion Hd as [|? d ? ? Hd1 Hd2]; subst. inversion Hd2; subst.
  rewrite (collect_app _ _ [e] _ [d] E) by (cbn [collect]; by rewrite Hd1).
  assert (length (l1 ++ [d]) = length ((a :: es) ++ [e])) as Hl.
  { apply collect_ok in E. symmetry. by eapply Forall2_length. }
  destruct (merkle_loop x (length (l1 ++ [d])) (l1 ++ [d])) as [r|] eqn:Er; [|discriminate]. intros [= <-].
  assert (merkle_loop x (length ((l1 ++ [d]) ++ [d])) ((l1 ++ [d]) ++ [d]) = Some r) as ->; [|done].
  assert (next_level x ((l1 ++ [d]) ++ [d]) = next_level x (l1 ++ [d])) as Hn.
  { unfold next_level. do 2 f_equal. unfold pad_odd at 2. rewrite Hl, Hodd, List.last_last. unfold pad_odd.
    rewrite (length_app _ [d]), Hl. cbn [length]. rewrite Nat.add_1_r, Nat.odd_succ, <- Nat.negb_odd, Hodd. done. }
  rewrite !length_app in *. cbn [length] in *. apply (merkle_loop_same_next x _ 1 (l1 ++ [d])); [rewrite ?length_app; cbn [length]; lia..|done|done].
Qed.

(** ** Witnesses *)

Definition toy : Packet.crypto :=
  Packet.mk_crypto (fun s => s) (fun _ => "") (fun m => Crypto.pad_to 32 (reverse m)) (list Z) (list Z) Ok Ok
    (fun _ _ _ => false) (fun _ _ => []) Ok Some (fun _ => Err "no json").
Lemma toy_sha : sha256_law toy.
Proof. intros m. apply Crypto.pad_to_spec. Qed.
Lemma toy_nfc : nfc_law toy.
Proof. by intros s _. Qed.

Definition event (name : string) (parent : option string) : ProofEvent :=
  mk_ProofEvent name "action.approved" "tf:actor:a" None None "2026-01-01T00:00:00Z" L2 None None parent None None
    (mk_SignatureEnvelope "ed25519" "tf:actor:a" "" None None None).
Definition hash_of (e : ProofEvent) : string := match event_hash toy e with Ok h => h | Err _ => "" end.
Definition e1 : ProofEvent := event "e1" None.
Definition e2 : ProofEvent := event "e2" (Some (hash_of e1)).

Lemma last_hash_commits_to_chain_witness :
  Forall2 (same_payload toy) ([e1] ++ [e2]) ([e1] ++ [e2]) \/ event_collision toy ([e1] ++ [e2]) ([e1] ++ [e2]).
Proof.
  apply (last_hash_commits_to_chain toy [e1] [e1] e2 e2 (hash_of e2) toy_sha toy_nfc).
  - reflexivity.
  - repeat constructor; by intros v.
  - repeat constructor; by intros v.
  - vm_compute. reflexivity.
  - vm_compute. reflexivity.
  - vm_compute. reflexivity.
  - vm_compute. reflexivity.
Defined.

Definition root_of (es : list ProofEvent) : string := match merkle_root toy es with Some (Ok h) => h | _ => "" end.
Lemma merkle_root_binds_witness : exists ps qs, payloads toy [e1; e2; e1] ps /\ payloads toy [e1; e2; e1] qs /\
  (ps = qs \/ collides toy (merkle_inputs toy ps) (merkle_inputs toy qs)).
Proof. apply (merkle_root_binds toy e1 [e2; e1] e1 [e2; e1] (root_of [e1; e2; e1]) toy_sha); vm_compute; reflexivity. Defined.

Lemma chain_hash_binds_witness : exists ps qs, payloads toy [e1; e2] ps /\ payloads toy [e1; e2] qs /\
  (ps = qs \/ collides toy (ps ++ roll_inputs toy zero_hash ps) (qs ++ roll_inputs toy zero_hash qs)).
Proof.
  apply (chain_hash_binds toy [e1; e2] [e1; e2] (match chain_hash toy [e1; e2] with Ok h => h | Err _ => "" end) toy_sha);
    vm_compute; reflexivity.
Defined.

Lemma merkle_padding_ambiguous_witness : merkle_root toy ([e1; e2] ++ [e1; e1]) = Some (Ok (root_of [e1; e2; e1])).
Proof. apply merkle_padding_ambiguous; [cbn; lia|reflexivity|vm_compute; reflexivity]. Defined.

End Chain.
