(* ===== verification/ActorId.v ===== *)
(** * ActorId: actor, instance and trust-domain names
      ([actor_id.rs], [instance_id.rs], [trust_domain.rs])

    Parsers and formatters of [tf:actor:<type>:<path>],
    [tf:instance:<type>:<path>/<instance>] and trust-domain names. *)

From S2P Require Import Prelude Utf8 Common Crypto.

Module ActorId.
#[local] Open Scope string_scope.
#[local] Open Scope list_scope.
#[local] Open Scope Z_scope.

Inductive ActorIdParseError :=
| MalformedScheme (s : string)
| WrongKind (kind : string)
| UnknownType (t : string)
| EmptyPath.

Record ParsedActorId := mk_ParsedActorId { actor_type : ActorType; path : string; raw : string }.
Record SchemeParts := mk_SchemeParts { kind : string; type_segment : string; sp_path : string }.

(** [s.find(c)] with the text on both sides of it. *)
Fixpoint split_first (c : ascii) (s : string) : option (string * string) :=
  match s with
  | EmptyString => None
  | String d r => if Ascii.eqb d c then Some ("", r) else '(a, b) ← split_first c r; Some (String d a, b)
  end.
(** [s.rfind(c)] with the text on both sides of it. *)
Fixpoint split_last (c : ascii) (s : string) : option (string * string) :=
  match s with
  | EmptyString => None
  | String d r =>
    match split_last c r with
    | Some (a, b) => Some (String d a, b)
    | None => if Ascii.eqb d c then Some ("", r) else None
    end
  end.

Definition split_scheme (s : string) : option SchemeParts :=
  rest ← strip_prefix "tf:" s;
  '(kind, remainder) ← split_first ":" rest;
  '(type_segment, path) ← split_first ":" remainder;
  Some (mk_SchemeParts kind type_segment path).

Definition actor_type_to_str (t : ActorType) : string :=
  match t with
  | AHuman => "human" | AAgent => "agent" | ADevice => "device" | AService => "service" | ASite => "site"
  | AOrganization => "organization" | ARelay => "relay" | APlugin => "plugin" | AProcess => "process" | ATool => "tool"
  | AModelProvider => "model-provider" | APolicyEngine => "policy-engine" | AProofAnchor => "proof-anchor"
  | AEmergencyAuthority => "emergency-authority"
  end.
Definition parse_actor_type (s : string) : option ActorType :=
  if (s =? "human")%string then Some AHuman
  else if (s =? "agent")%string then Some AAgent
  else if (s =? "device")%string then Some ADevice
  else if (s =? "service")%string then Some AService
  else if (s =? "site")%string then Some ASite
  else if (s =? "organization")%string then Some AOrganization
  else if (s =? "relay")%string then Some ARelay
  else if (s =? "plugin")%string then Some APlugin
  else if (s =? "process")%string then Some AProcess
  else if (s =? "tool")%string then Some ATool
  else if (s =? "model-provider")%string then Some AModelProvider
  else if (s =? "policy-engine")%string then Some APolicyEngine
  else if (s =? "proof-anchor")%string then Some AProofAnchor
  else if (s =? "emergency-authority")%string then Some AEmergencyAuthority
  else None.

Definition is_empty (s : string) : bool := (s =? "")%string.

Definition parse_actor_id (s : string) : result ActorIdParseError ParsedActorId :=
  parts ← ok_or (split_scheme s) (MalformedScheme s);
  if negb (kind parts =? "actor")%string then Err (WrongKind (kind parts)) else
  actor_type ← ok_or (parse_actor_type (type_segment parts)) (UnknownType (type_segment parts));
  if is_empty (sp_path parts) then Err EmptyPath else Ok (mk_ParsedActorId actor_type (sp_path parts) s).

Definition format_actor_id (actor_type : ActorType) (path : string) : result ActorIdParseError string :=
  if is_empty path then Err EmptyPath else Ok ("tf:actor:" +:+ actor_type_to_str actor_type +:+ ":" +:+ path).

Definition actor_id_equals (a b : string) : bool :=
  match parse_actor_id a, parse_actor_id b with
  | Ok pa, Ok pb => bool_decide (actor_type pa = actor_type pb) && (path pa =? path pb)%string
  | _, _ => false
  end.

(** ** Instances *)

Record ParsedInstanceId := mk_ParsedInstanceId {
  i_actor_type : ActorType; actor_path : string; instance_path : string; i_raw : string
}.

Definition parse_instance_id (s : string) : result ActorIdParseError ParsedInstanceId :=
  parts ← ok_or (split_scheme s) (MalformedScheme s);
  if negb (kind parts =? "instance")%string then Err (WrongKind (kind parts)) else
  actor_type ← ok_or (parse_actor_type (type_segment parts)) (UnknownType (type_segment parts));
  '(actor_path, instance_path) ← ok_or (split_last "/" (sp_path parts)) EmptyPath;
  if is_empty actor_path || is_empty instance_path then Err EmptyPath
  else Ok (mk_ParsedInstanceId actor_type actor_path instance_path s).

Definition format_instance_id (actor_type : ActorType) (actor_path instance_path : string) : result ActorIdParseError string :=
  if is_empty actor_path || is_empty instance_path then Err EmptyPath
  else Ok ("tf:instance:" +:+ actor_type_to_str actor_type +:+ ":" +:+ actor_path +:+ "/" +:+ instance_path).

Definition to_actor_id (instance_id : string) : result ActorIdParseError string :=
  parsed ← parse_instance_id instance_id; format_actor_id (i_actor_type parsed) (actor_path parsed).

(** ** Trust domains *)

Inductive TrustDomainParseError := Empty | BadDns (s : string).
Inductive TrustDomainKind := Dns | Local.
#[export] Instance TrustDomainKind_eq_dec : EqDecision TrustDomainKind.
Proof. solve_decision. Defined.
Record ParsedTrustDomain := mk_ParsedTrustDomain { td_kind : TrustDomainKind; td_value : string; td_raw : string }.

Definition is_alnum (b : Z) : bool :=
  ((48 <=? b) && (b <=? 57)) || ((65 <=? b) && (b <=? 90)) || ((97 <=? b) && (b <=? 122)).
Definition is_dns_like (s : string) : bool :=
  let bytes := bytes_of_str s in
  match bytes with
  | [] => false
  | first :: _ =>
    if negb (is_alnum first) || negb (is_alnum (List.last bytes 0)) then false
    else forallb (fun b => is_alnum b || (b =? 46) || (b =? 45)) bytes
  end.

(** [str::to_ascii_lowercase]. *)
Definition lower (c : ascii) : ascii :=
  let n := N_of_ascii c in if ((65 <=? n) && (n <=? 90))%N then ascii_of_N (n + 32) else c.
Fixpoint to_ascii_lowercase (s : string) : string :=
  match s with EmptyString => "" | String c r => String (lower c) (to_ascii_lowercase r) end.

Definition parse_trust_domain (s : string) : result TrustDomainParseError ParsedTrustDomain :=
  if is_empty s then Err Empty else
  match strip_prefix "local/" s with
  | Some rest => if is_empty rest then Err Empty else Ok (mk_ParsedTrustDomain Local rest s)
  | None => if negb (is_dns_like s) then Err (BadDns s) else Ok (mk_ParsedTrustDomain Dns (to_ascii_lowercase s) s)
  end.
Definition trust_domain_equals (a b : string) : bool :=
  match parse_trust_domain a, parse_trust_domain b with
  | Ok pa, Ok pb => bool_decide (td_kind pa = td_kind pb) && (td_value pa =? td_value pb)%string
  | _, _ => false
  end.

(** ** Splitting *)

Fixpoint has (c : ascii) (s : string) : bool :=
  match s with EmptyString => false | String d r => Ascii.eqb d c || has c r end.

Lemma has_app c s t : has c (s +:+ t) = has c s || has c t.
Proof. induction s as [|d s IH]; [by rewrite str_app_nil_l|]. rewrite str_app_cons. cbn. by rewrite IH, orb_assoc. Qed.

Lemma split_first_app c a b : has c a = false -> split_first c (a +:+ String c b) = Some (a, b).
Proof.
  induction a as [|d a IH]; [intros _; rewrite str_app_nil_l; cbn; by rewrite Ascii.eqb_refl|]. intros [H1 H2]%orb_false_iff.
  rewrite str_app_cons. cbn [split_first]. rewrite H1, (IH H2). done.
Qed.

Lemma split_first_Some c s a b : split_first c s = Some (a, b) -> s = a +:+ String c b /\ has c a = false.
Proof.
  revert a. induction s as [|d s IH]; intros a; [discriminate|]. cbn [split_first].
  destruct (Ascii.eqb d c) eqn:Ed; [apply Ascii.eqb_eq in Ed as ->; by intros [= <- <-]|].
  destruct (split_first c s) as [[a' b']|]; [|discriminate]. intros [= <- <-].
  destruct (IH a' eq_refl) as [-> Hh]. rewrite str_app_cons. split; [done|]. cbn. by rewrite Ed.
Qed.

Lemma split_app_inj c a b a' b' : has c a = false -> has c a' = false -> a +:+ String c b = a' +:+ String c b' -> a = a' /\ b = b'.
Proof. intros Ha Ha' E. pose proof (split_first_app c a b Ha) as H. rewrite E, split_first_app in H by done. by injection H. Qed.

Lemma split_last_none c s : split_last c s = None <-> has c s = false.
Proof.
  induction s as [|d s IH]; [done|]. cbn [split_last has]. destruct (split_last c s) as [[a b]|].
  - split; [discriminate|]. intros [_ H]%orb_false_iff. by apply IH in H.
  - rewrite (proj1 IH eq_refl), orb_false_r. destruct (Ascii.eqb d c); split; (discriminate || done).
Qed.

Lemma split_last_app c a b : has c b = false -> split_last c (a +:+ String c b) = Some (a, b).
Proof.
  intros H. induction a as [|d a IH]; [|rewrite str_app_cons; cbn [split_last]; by rewrite IH].
  rewrite str_app_nil_l. cbn [split_last]. rewrite (proj2 (split_last_none c b) H). by rewrite Ascii.eqb_refl.
Qed.

Lemma split_last_Some c s a b : split_last c s = Some (a, b) -> s = a +:+ String c b /\ has c b = false.
Proof.
  revert a. induction s as [|d s IH]; intros a; [discriminate|]. cbn [split_last].
  destruct (split_last c s) as [[a' b']|] eqn:E.
  - intros [= <- <-]. destruct (IH a' eq_refl) as [-> Hh]. by rewrite str_app_cons.
  - destruct (Ascii.eqb d c) eqn:Ed; [|discriminate]. apply Ascii.eqb_eq in Ed as ->. intros [= <- <-].
    split; [done|]. by apply split_last_none.
Qed.

(** ** Names *)

Lemma parse_type_to_str t : parse_actor_type (actor_type_to_str t) = Some t.
Proof. by destruct t. Qed.
Lemma parse_type_Some s t : parse_actor_type s = Some t -> s = actor_type_to_str t.
Proof.
  unfold parse_actor_type. repeat match goal with |- context [(s =? ?k)%string] => destruct (String.eqb_spec s k) as [->|]; [by intros [= <-]|] end.
  discriminate.
Qed.
Lemma type_no_colon t : has ":" (actor_type_to_str t) = false.
Proof. by destruct t. Qed.

Lemma split_scheme_spec s k t p : split_scheme s = Some (mk_SchemeParts k t p) <->
  s = "tf:" +:+ k +:+ ":" +:+ t +:+ ":" +:+ p /\ has ":" k = false /\ has ":" t = false.
Proof.
  unfold split_scheme. split.
  - destruct (strip_prefix "tf:" s) as [rest|] eqn:E1; [|discriminate]. cbn [mbind option_bind].
    destruct (split_first ":" rest) as [[k' r]|] eqn:E2; [|discriminate]. cbn [mbind option_bind].
    destruct (split_first ":" r) as [[t' p']|] eqn:E3; [|discriminate]. cbn [mbind option_bind]. intros [= -> -> ->].
    apply strip_prefix_spec in E1 as ->. apply split_first_Some in E2 as [-> Hk]. by apply split_first_Some in E3 as [-> Ht].
  - intros (-> & Hk & Ht). rewrite (proj2 (strip_prefix_spec "tf:" _ _) eq_refl). cbn [mbind option_bind].
    change (":" +:+ ?z) with (String ":" z). rewrite split_first_app by done. cbn [mbind option_bind].
    change (":" +:+ ?z) with (String ":" z). by rewrite split_first_app.
Qed.

Lemma is_empty_true s : is_empty s = true <-> s = "".
Proof. apply String.eqb_eq. Qed.

(** The parser and the formatter are inverse to each other. *)
Lemma parse_actor_id_iff s t p r : parse_actor_id s = Ok (mk_ParsedActorId t p r) <-> r = s /\ format_actor_id t p = Ok s.
Proof.
  unfold parse_actor_id, format_actor_id. split.
  - destruct (split_scheme s) as [[k ts p']|] eqn:E; [|discriminate]. cbn [ok_or mbind result_bind kind type_segment sp_path].
    apply split_scheme_spec in E as (-> & _ & _). destruct (String.eqb_spec k "actor") as [->|]; [|discriminate]. cbn [negb].
    destruct (parse_actor_type ts) as [t'|] eqn:Et; [|discriminate]. cbn [ok_or mbind result_bind].
    destruct (is_empty p') eqn:Ep; [discriminate|]. apply parse_type_Some in Et as ->. intros [= -> -> <-]. by rewrite Ep.
  - intros [-> E]. destruct (is_empty p) eqn:Ep; [discriminate|]. apply Ok_inj in E as <-.
    change ("tf:actor:" +:+ ?z) with ("tf:" +:+ "actor" +:+ ":" +:+ z).
    rewrite (proj2 (split_scheme_spec _ "actor" (actor_type_to_str t) p)) by (split; [done|split; [done|apply type_no_colon]]).
    cbn [ok_or mbind result_bind kind type_segment sp_path negb String.eqb Ascii.eqb Bool.eqb]. rewrite parse_type_to_str. cbn [ok_or mbind result_bind].
    by rewrite Ep.
Qed.

Lemma parse_instance_id_iff s t a i r : parse_instance_id s = Ok (mk_ParsedInstanceId t a i r) <->
  r = s /\ format_instance_id t a i = Ok s /\ has "/" i = false.
Proof.
  unfold parse_instance_id, format_instance_id. split.
  - destruct (split_scheme s) as [[k ts p]|] eqn:E; [|discriminate]. cbn [ok_or mbind result_bind kind type_segment sp_path].
    apply split_scheme_spec in E as (-> & _ & _). destruct (String.eqb_spec k "instance") as [->|]; [|discriminate]. cbn [negb].
    destruct (parse_actor_type ts) as [t'|] eqn:Et; [|discriminate]. cbn [ok_or mbind result_bind].
    destruct (split_last "/" p) as [[a' i']|] eqn:El; [|discriminate]. cbn [ok_or mbind result_bind].
    destruct (is_empty a' || is_empty i') eqn:Ee; [discriminate|]. apply parse_type_Some in Et as ->.
    apply split_last_Some in El as [-> Hi]. intros [= -> -> -> <-]. by rewrite Ee.
  - intros (-> & E & Hi). destruct (is_empty a || is_empty i) eqn:Ee; [discriminate|]. apply Ok_inj in E as <-.
    change ("tf:instance:" +:+ ?z) with ("tf:" +:+ "instance" +:+ ":" +:+ z).
    rewrite (proj2 (split_scheme_spec _ "instance" (actor_type_to_str t) (a +:+ "/" +:+ i)))
      by (split; [done|split; [done|apply type_no_colon]]).
    cbn [ok_or mbind result_bind kind type_segment sp_path negb String.eqb Ascii.eqb Bool.eqb]. rewrite parse_type_to_str. cbn [ok_or mbind result_bind].
    change (a +:+ "/" +:+ i) with (a +:+ String "/" i). rewrite split_last_app by done. cbn [ok_or mbind result_bind].
    by rewrite Ee.
Qed.

(** Actor and instance names are faithful.  Parsing and formatting are
    inverse on actor names, and on instance names whose instance part holds
    no slash; the actor of a formatted instance is the formatted actor. *)
Theorem actor_names_roundtrip s t a i r :
  (parse_actor_id s = Ok (mk_ParsedActorId t a r) <-> r = s /\ format_actor_id t a = Ok s) /\
  (parse_instance_id s = Ok (mk_ParsedInstanceId t a i r) <->
     r = s /\ format_instance_id t a i = Ok s /\ has "/" i = false) /\
  (format_instance_id t a i = Ok s -> has "/" i = false -> to_actor_id s = format_actor_id t a).
Proof.
  split; [apply parse_actor_id_iff|]. split; [apply parse_instance_id_iff|]. intros Hf Hi.
  unfold to_actor_id. rewrite (proj2 (parse_instance_id_iff s t a i s)) by done. done.
Qed.

(** [actor_id_equals] is equality of well-formed names: no two different
    names are taken for the same actor. *)
Theorem actor_id_equals_iff a b : actor_id_equals a b = true <-> a = b /\ is_ok (parse_actor_id a) = true.
Proof.
  unfold actor_id_equals. split.
  - destruct (parse_actor_id a) as [[t p r]|] eqn:Ea; [|discriminate].
    destruct (parse_actor_id b) as [[t' p' r']|] eqn:Eb; [|discriminate]. cbn [actor_type path].
    apply parse_actor_id_iff in Ea as [_ Ea], Eb as [_ Eb].
    intros [->%bool_decide_eq_true ->%String.eqb_eq]%andb_prop. split; [congruence|done].
  - intros [-> H]. destruct (parse_actor_id b) as [[t p r]|]; [|discriminate]. cbn.
    by rewrite bool_decide_true, String.eqb_refl.
Qed.

(** An instance part with a slash does not come back: the parser cuts at the
    last one. *)
Example instance_slash : format_instance_id ATool "a" "b/c" = Ok "tf:instance:tool:a/b/c" /\
  parse_instance_id "tf:instance:tool:a/b/c" = Ok (mk_ParsedInstanceId ATool "a/b" "c" "tf:instance:tool:a/b/c").
Proof. done. Qed.

(** ** Trust domains *)

Lemma parse_trust_domain_iff s k v r : parse_trust_domain s = Ok (mk_ParsedTrustDomain k v r) <-> r = s /\
  ((k = Local /\ s = "local/" +:+ v /\ v <> "") \/
   (k = Dns /\ strip_prefix "local/" s = None /\ is_dns_like s = true /\ v = to_ascii_lowercase s)).
Proof.
  unfold parse_trust_domain. destruct (is_empty s) eqn:E0.
  { apply is_empty_true in E0 as ->. split; [discriminate|]. intros [_ [(_ & E & _)|(_ & _ & E & _)]]; discriminate. }
  destruct (strip_prefix "local/" s) as [rest|] eqn:Ep.
  - apply strip_prefix_spec in Ep. destruct (is_empty rest) eqn:Er.
    + apply is_empty_true in Er as ->. split; [discriminate|]. intros [_ [(_ & E & Hv)|(_ & E & _)]]; [|discriminate].
      rewrite Ep, !str_app_cons in E. injection E as E. done.
    + split; [intros [= <- <- <-]; split; [done|]; left; repeat split; [done|]; intros ->; discriminate|].
      intros [-> [(-> & E & Hv)|(_ & E & _)]]; [|discriminate].
      rewrite Ep, !str_app_cons in E. injection E as E. rewrite !str_app_nil_l in E. by subst.
  - destruct (is_dns_like s) eqn:Ed; cbn [negb].
    + split; [intros [= <- <- <-]; split; [done|]; by right|].
      intros [-> [(_ & E & _)|(-> & _ & _ & ->)]]; [|done]. apply strip_prefix_spec in E. congruence.
    + split; [discriminate|]. intros [_ [(_ & E & _)|(_ & _ & E & _)]]; [|discriminate]. apply strip_prefix_spec in E. congruence.
Qed.

(** Two trust-domain names are taken for the same domain exactly when
    both are well-formed and they are the same local name or the same DNS
    name up to ASCII case. *)
Theorem trust_domain_equals_iff a b : trust_domain_equals a b = true <->
  (exists v, v <> "" /\ a = "local/" +:+ v /\ b = a) \/
  (strip_prefix "local/" a = None /\ strip_prefix "local/" b = None /\ is_dns_like a = true /\ is_dns_like b = true /\
   to_ascii_lowercase a = to_ascii_lowercase b).
Proof.
  unfold trust_domain_equals. split.
  - destruct (parse_trust_domain a) as [[k v r]|] eqn:Ea; [|discriminate].
    destruct (parse_trust_domain b) as [[k' v' r']|] eqn:Eb; [|discriminate]. cbn [td_kind td_value].
    apply parse_trust_domain_iff in Ea as [_ Ea], Eb as [_ Eb].
    intros [->%bool_decide_eq_true ->%String.eqb_eq]%andb_prop.
    destruct Ea as [(-> & -> & Hv)|(-> & H1 & H2 & ->)], Eb as [(E & Eb & _)|(E & H3 & H4 & Hl)]; try discriminate.
    + left. eauto.
    + right. auto.
  - intros [(v & Hv & Ha & ->)|(H1 & H2 & H3 & H4 & H5)].
    + rewrite (proj2 (parse_trust_domain_iff a Local v a)) by (split; [done|by left]). cbn. by rewrite String.eqb_refl.
    + rewrite (proj2 (parse_trust_domain_iff a Dns _ a)) by (split; [done|by right]).
      rewrite (proj2 (parse_trust_domain_iff b Dns _ b)) by (split; [done|by right]). cbn. by rewrite H5, String.eqb_refl.
Qed.

Example domains : trust_domain_equals "Example.COM" "example.com" = true /\ trust_domain_equals "local/Home" "local/home" = false /\
  trust_domain_equals "local/" "local/" = false /\ trust_domain_equals "-a" "-a" = false.
Proof. done. Qed.

End ActorId.
