(* ===== verification/Evidence.v ===== *)
(** * Evidence: compliance evidence bundles ([evidence.rs])

    [assemble_evidence_bundle] selects the events of an incident and signs
    them as one bundle.  The regular expressions of the [regex] crate are the
    parameters [Regex_new] and [is_match]. *)

From Stdlib Require Import Sorted.
From S2P Require Import Prelude Utf8 Json Base64 Cbor BinaryFormat Canonical Clock Packet Signed.
Import Clock Signed.

Module Evidence.
#[local] Open Scope string_scope.
#[local] Open Scope list_scope.
#[local] Open Scope Z_scope.

Record EvidenceIncident := mk_EvidenceIncident {
  label : string;
  started_at : string;
  ended_at : option string;
  domains : option (list string);
  description : option string
}.
Record EvidenceAnchor := mk_EvidenceAnchor { kind : string; url : option string; inclusion_proof : option json }.
Record EvidenceBundle := mk_EvidenceBundle {
  evidence_version : string;
  bundle_id : string;
  trust_domain : string;
  incident : EvidenceIncident;
  actors : option (list string);
  events : list json;
  policy_decisions : list json;
  approvals : list json;
  ceremonies : option (list json);
  quorum_outcomes : option (list json);
  anchors : option (list EvidenceAnchor);
  encrypted_payload : option json;
  level : option string;
  issued_at : string;
  issuer : string;
  signature : SignatureEnvelope
}.
Record AssembleArgs := mk_AssembleArgs {
  a_bundle_id : string;
  a_trust_domain : string;
  a_label : string;
  a_started_at : string;
  a_ended_at : option string;
  a_domains : option (list string);
  a_description : option string;
  actor_filter : option (list string);
  event_type_pattern : option string;
  a_policy_decisions : list json;
  a_approvals : list json;
  a_ceremonies : option (list json);
  a_quorum_outcomes : option (list json);
  a_issuer : string;
  a_private_key : list Z
}.
Record AssembleResult := mk_AssembleResult { bundle : EvidenceBundle; skipped : nat }.
Record VerifyResult := mk_VerifyResult {
  ok : bool;
  reason : option string;
  outer_signature_ok : bool;
  events_verified : nat;
  events_skipped : nat
}.

(** ** The bundle as a signed document *)

Definition jstrings (l : list string) : json := JArray (JString <$> l).
Definition incident_to_value (i : EvidenceIncident) : json :=
  JObject (field "label" (JString (label i)) ++ field "started_at" (JString (started_at i)) ++
    opt_field "ended_at" (ended_at i) JString ++ opt_field "domains" (domains i) jstrings ++
    opt_field "description" (description i) JString).
Definition anchor_to_value (a : EvidenceAnchor) : json :=
  JObject (field "kind" (JString (kind a)) ++ opt_field "url" (url a) JString ++
    opt_field "inclusion_proof" (inclusion_proof a) (fun v => v)).
Definition bundle_fields (b : EvidenceBundle) : list (string * json) :=
  field "evidence_version" (JString (evidence_version b)) ++ field "bundle_id" (JString (bundle_id b)) ++
  field "trust_domain" (JString (trust_domain b)) ++ field "incident" (incident_to_value (incident b)) ++
  opt_field "actors" (actors b) jstrings ++ field "events" (JArray (events b)) ++
  field "policy_decisions" (JArray (policy_decisions b)) ++ field "approvals" (JArray (approvals b)) ++
  opt_field "ceremonies" (ceremonies b) JArray ++ opt_field "quorum_outcomes" (quorum_outcomes b) JArray ++
  opt_field "anchors" (anchors b) (fun l => JArray (anchor_to_value <$> l)) ++
  opt_field "encrypted_payload" (encrypted_payload b) (fun v => v) ++ opt_field "level" (level b) JString ++
  field "issued_at" (JString (issued_at b)) ++ field "issuer" (JString (issuer b)).
Definition bundle_to_value (b : EvidenceBundle) : json :=
  JObject (bundle_fields b ++ field "signature" (envelope_to_value (signature b))).
Definition with_signature (b : EvidenceBundle) (s : SignatureEnvelope) : EvidenceBundle :=
  mk_EvidenceBundle (evidence_version b) (bundle_id b) (trust_domain b) (incident b) (actors b) (events b)
    (policy_decisions b) (approvals b) (ceremonies b) (quorum_outcomes b) (anchors b) (encrypted_payload b) (level b)
    (issued_at b) (issuer b) s.

#[export] Instance bundle_doc : SignedDoc EvidenceBundle := {
  doc_to_value := bundle_to_value;
  doc_signature b := sig_text (signature b);
  doc_fill b t := with_signature b (fill_signature (signature b) t)
}.
#[export] Instance bundle_doc_laws : SignedDocLaws EvidenceBundle.
Proof.
  split; [|done]. intros b t. cbn [doc_to_value bundle_doc]. unfold bundle_to_value.
  by rewrite !strip_signature by (unfold bundle_fields, opt_field, field; repeat case_match; repeat constructor; done).
Qed.

(** ** Selecting events *)

(** [ev.get(k).and_then(|v| v.as_str())]. *)
Definition text_of (ev : json) (k : string) : option string := jget k ev ≫= as_str.

(** [Vec::sort] and [Vec::dedup] on strings. *)
Fixpoint insert (s : string) (l : list string) : list string :=
  match l with [] => [s] | t :: l' => if str_le s t then s :: l else t :: insert s l' end.
Definition sort (l : list string) : list string := foldr insert [] l.
Fixpoint dedup (l : list string) : list string :=
  match l with
  | a :: ((b :: _) as l') => if (a =? b)%string then dedup l' else a :: dedup l'
  | _ => l
  end.

Definition order : list string := ["L0"; "L1"; "L2"; "L3"; "L4"; "L5"].
(** [order.iter().position(|x| *x == lvl)]. *)
Fixpoint position (s : string) (l : list string) : option nat :=
  match l with [] => None | t :: l' => if (t =? s)%string then Some 0%nat else S <$> position s l' end.
Definition highest_index (evs : list json) : nat :=
  foldl (fun mx ev =>
    match position (unwrap_or (text_of ev "level") "L0") order with
    | Some idx => if (mx <? idx)%nat then idx else mx
    | None => mx
    end) 0%nat evs.
Definition highest_level (evs : list json) : string := List.nth (highest_index evs) order "".

Section evidence.
Context (x : Packet.crypto) {Regex : Type} (Regex_new : string -> result string Regex) (is_match : Regex -> string -> bool).

Definition evidence_signing_bytes (b : EvidenceBundle) : list Z := doc_digest x b.

(** The guards of the loop body: [true] where it reaches [filtered.push]. *)
Definition selects (args : AssembleArgs) (regex : option Regex) (ev : json) : bool :=
  let ts := unwrap_or (text_of ev "timestamp") "" in
  if str_lt ts (a_started_at args) then false
  else if match a_ended_at args with Some end_ => str_lt end_ ts | None => false end then false
  else if match actor_filter args with
          | Some set => negb (bool_decide (unwrap_or (text_of ev "actor_id") "" ∈ set))
          | None => false
          end then false
  else match regex with Some re => is_match re (unwrap_or (text_of ev "type") "") | None => true end.
Fixpoint scan (args : AssembleArgs) (regex : option Regex) (evs : list json) : list json * nat :=
  match evs with
  | [] => ([], 0%nat)
  | ev :: rest =>
    let '(filtered, skipped) := scan args regex rest in
    if selects args regex ev then (ev :: filtered, skipped) else (filtered, S skipped)
  end.

Definition actors_of (evs : list json) : list string := dedup (sort (omap (fun ev => text_of ev "actor_id") evs)).

Definition compile_pattern (args : AssembleArgs) : result string (option Regex) :=
  match event_type_pattern args with
  | Some p => re ← map_err (fun e => "type pattern: " +:+ e) (Regex_new p); Ok (Some re)
  | None => Ok None
  end.

Definition assemble_evidence_bundle (secs : Z) (evs : list json) (args : AssembleArgs) : result string AssembleResult :=
  regex ← compile_pattern args;
  let '(filtered, skipped) := scan args regex evs in
  if bool_decide (filtered = []) then Err "evidence bundle requires at least one matching event" else
  let draft := mk_EvidenceBundle "1" (a_bundle_id args) (a_trust_domain args)
    (mk_EvidenceIncident (a_label args) (a_started_at args) (a_ended_at args) (a_domains args) (a_description args))
    (Some (actors_of filtered)) filtered (a_policy_decisions args) (a_approvals args) (a_ceremonies args)
    (a_quorum_outcomes args) None None (Some (highest_level filtered)) (now_iso8601 secs) (a_issuer args)
    (blank_envelope (a_issuer args)) in
  Ok (mk_AssembleResult (sign_doc x draft (a_private_key args)) skipped).

Definition verify_evidence_bundle (b : EvidenceBundle) (issuer_public_key : list Z) : VerifyResult :=
  match check_digest x "signature base64: " "signature parse: " "outer signature did not verify"
          (evidence_signing_bytes b) (sig_text (signature b)) issuer_public_key with
  | Err r => mk_VerifyResult false (Some r) false 0 0
  | Ok _ => mk_VerifyResult true None true 0 0
  end.
End evidence.

(** ** Actors and levels *)

Lemma insert_perm s l : insert s l ≡ₚ s :: l.
Proof.
  induction l as [|t l IH]; [done|]. cbn. destruct (str_le s t); [done|]. rewrite IH. apply perm_swap.
Qed.
Lemma sort_perm l : sort l ≡ₚ l.
Proof. induction l as [|s l IH]; [done|]. cbn. by rewrite insert_perm, IH. Qed.

Abbreviation nondecreasing := (StronglySorted (fun a b => str_le a b = true)).
Abbreviation increasing := (StronglySorted (fun a b => str_lt a b = true)).

Lemma insert_sorted s l : nondecreasing l -> nondecreasing (insert s l).
Proof.
  induction 1 as [|t l Hl IH Ht]; [by repeat constructor|]. cbn. destruct (str_le s t) eqn:E.
  - constructor; [by constructor|]. constructor; [done|]. eapply Forall_impl; [exact Ht|]. intros u. by apply str_le_trans.
  - constructor; [done|]. rewrite insert_perm. constructor; [by apply str_le_total|done].
Qed.
Lemma sort_sorted l : nondecreasing (sort l).
Proof. induction l as [|s l IH]; [constructor|]. cbn. by apply insert_sorted. Qed.

Lemma dedup_elem l a : a ∈ dedup l <-> a ∈ l.
Proof.
  induction l as [|b l IH]; [done|]. destruct l as [|c l]; [done|].
  change (dedup (b :: c :: l)) with (if (b =? c)%string then dedup (c :: l) else b :: dedup (c :: l)).
  destruct (String.eqb_spec b c) as [->|]; [rewrite IH; set_solver|]. rewrite !elem_of_cons in *. tauto.
Qed.

Lemma dedup_increasing l : nondecreasing l -> increasing (dedup l).
Proof.
  induction 1 as [|b l Hl IH Hb]; [constructor|]. destruct l as [|c l]; [by repeat constructor|].
  change (dedup (b :: c :: l)) with (if (b =? c)%string then dedup (c :: l) else b :: dedup (c :: l)).
  destruct (String.eqb_spec b c) as [->|Hne]; [done|]. constructor; [done|]. apply Forall_forall. intros a Ha. rewrite dedup_elem in Ha.
  assert (str_lt b c = true) as Hbc.
  { inversion_clear Hb as [|? ? H1 _]. rewrite str_le_lt in H1. destruct (str_lt b c) eqn:E; [done|].
    exfalso. apply Hne, str_lt_total; [done|]. by destruct (str_lt c b). }
  apply elem_of_cons in Ha as [->|Ha]; [done|]. inversion_clear Hl as [|? ? _ Hc]. rewrite Forall_forall in Hc.
  eapply str_lt_le_trans; [exact Hbc|by apply Hc].
Qed.

(** The index of an event's level, 0 when it has none or an unknown one. *)
Definition level_index (ev : json) : nat :=
  match position (unwrap_or (text_of ev "level") "L0") order with Some i => i | None => 0%nat end.

Lemma highest_index_fold evs mx :
  foldl (fun mx ev =>
    match position (unwrap_or (text_of ev "level") "L0") order with
    | Some idx => if (mx <? idx)%nat then idx else mx
    | None => mx
    end) mx evs = foldl Nat.max mx (level_index <$> evs).
Proof.
  revert mx. induction evs as [|ev evs IH]; intros mx; [done|]. cbn [foldl fmap list_fmap]. rewrite IH. f_equal.
  unfold level_index. destruct (position _ order) as [i|]; [|lia]. destruct (Nat.ltb_spec mx i); lia.
Qed.

Lemma foldl_max_spec l mx : (forall i, i ∈ l -> i <= foldl Nat.max mx l)%nat /\ (mx <= foldl Nat.max mx l)%nat /\
  (foldl Nat.max mx l = mx \/ foldl Nat.max mx l ∈ l).
Proof.
  revert mx. induction l as [|j l IH]; intros mx; cbn [foldl]; [set_solver by lia|].
  destruct (IH (Nat.max mx j)) as (H1 & H2 & H3). split; [|split; [lia|]].
  - intros i [->|Hi]%elem_of_cons; [lia|by apply H1].
  - destruct H3 as [->|H3]; [|right; by right]. destruct (Nat.max_spec mx j) as [[_ ->]|[_ ->]]; [right; left|by left].
Qed.

Lemma scan_filter {Regex} (is_match : Regex -> string -> bool) args re evs :
  scan is_match args re evs = (List.filter (selects is_match args re) evs,
    length (List.filter (fun ev => negb (selects is_match args re ev)) evs)).
Proof.
  induction evs as [|ev evs IH]; [done|]. cbn [scan List.filter]. rewrite IH. by destruct (selects is_match args re ev).
Qed.

Lemma filter_split {A} (f : A -> bool) l :
  (length (List.filter f l) + length (List.filter (fun a => negb (f a)) l) = length l)%nat.
Proof. induction l as [|a l IH]; [done|]. cbn. destruct (f a); cbn; lia. Qed.

Lemma actors_elem evs a : a ∈ actors_of evs <-> exists ev, ev ∈ evs /\ text_of ev "actor_id" = Some a.
Proof. unfold actors_of. rewrite dedup_elem, sort_perm. apply list_elem_of_omap. Qed.

Lemma position_bound s l i : position s l = Some i -> (i < length l)%nat.
Proof.
  revert i. induction l as [|t l IH]; intros i; [discriminate|]. cbn [position length].
  destruct (t =? s)%string; [intros [= <-]; lia|]. destruct (position s l) as [k|]; [|discriminate].
  intros [= <-]. specialize (IH k eq_refl). lia.
Qed.
Lemma level_index_bound ev : (level_index ev < 6)%nat.
Proof.
  unfold level_index. destruct (position _ order) as [i|] eqn:E; [|lia]. exact (position_bound _ _ _ E).
Qed.

(** The level of a bundle is the highest of its events. *)
Lemma highest_level_spec evs : evs <> [] -> exists n, Some (highest_level evs) = order !! n /\
  (forall ev, ev ∈ evs -> level_index ev <= n)%nat /\ exists ev, ev ∈ evs /\ level_index ev = n.
Proof.
  intros Hne. unfold highest_level, highest_index. rewrite highest_index_fold.
  destruct (foldl_max_spec (level_index <$> evs) 0) as (H1 & _ & H3). set (n := foldl Nat.max 0%nat _) in *.
  assert (n ∈ level_index <$> evs) as Hn.
  { destruct H3 as [H3|]; [|done]. destruct evs as [|ev evs]; [done|]. rewrite H3.
    specialize (H1 (level_index ev) ltac:(left)). apply list_elem_of_fmap. exists ev. split; [lia|left]. }
  apply list_elem_of_fmap in Hn as (ev & Hn & Hin). exists n. split; [|split].
  - rewrite Hn. pose proof (level_index_bound ev). destruct (level_index ev) as [|[|[|[|[|[|]]]]]]; (done || lia).
  - intros ev' Hin'. apply H1. apply list_elem_of_fmap. eauto.
  - eauto.
Qed.

(** An evidence bundle holds exactly the selected events.  With a valid
    type pattern a bundle is assembled exactly when some event lies in the
    time span and passes the actor and type filters.  It then holds these
    events and no others, in their order, every other event is counted as
    skipped, its actors are those of the events, strictly increasing, its
    level is the highest of theirs, and its signature verifies. *)
Theorem evidence_bundle_exact x {Regex} (Regex_new : string -> result string Regex) is_match secs evs args re pk
    (Hre : compile_pattern Regex_new args = Ok re) (Hl : Packet.crypto_laws x (a_private_key args) pk) :
  ((exists r, assemble_evidence_bundle x Regex_new is_match secs evs args = Ok r) <->
    exists ev, ev ∈ evs /\ selects is_match args re ev = true) /\
  forall r, assemble_evidence_bundle x Regex_new is_match secs evs args = Ok r ->
    events (bundle r) = List.filter (selects is_match args re) evs /\
    (skipped r + length (events (bundle r)) = length evs)%nat /\
    (exists l, actors (bundle r) = Some l /\ increasing l /\
       forall a, a ∈ l <-> exists ev, ev ∈ events (bundle r) /\ text_of ev "actor_id" = Some a) /\
    (exists n, level (bundle r) = order !! n /\ (forall ev, ev ∈ events (bundle r) -> level_index ev <= n)%nat /\
       exists ev, ev ∈ events (bundle r) /\ level_index ev = n) /\
    ok (verify_evidence_bundle x (bundle r) pk) = true.
Proof.
  unfold assemble_evidence_bundle. rewrite Hre. cbn [mbind result_bind]. rewrite scan_filter.
  set (evs' := List.filter (selects is_match args re) evs). case_bool_decide as Hnil.
  { split; [|discriminate]. split; [by intros [? ?]|]. intros (ev & Hin & Hs). exfalso.
    assert (ev ∈ evs') as H; [|rewrite Hnil in H; by apply elem_of_nil in H].
    apply list_elem_of_In, filter_In. split; [by apply list_elem_of_In|done]. }
  split.
  - split; [intros _|eauto]. destruct evs' as [|ev l] eqn:E; [done|]. exists ev.
    assert (In ev evs') as [Hin Hs]%filter_In by (rewrite E; by left). split; [by apply list_elem_of_In|done].
  - intros r <-%Ok_inj. cbn [bundle skipped events actors level sign_doc doc_fill bundle_doc with_signature].
    split; [done|]. split; [rewrite Nat.add_comm; apply filter_split|].
    split; [exists (actors_of evs'); split; [done|]; split; [apply dedup_increasing, sort_sorted|apply actors_elem]|].
    split; [by apply highest_level_spec|].
    unfold verify_evidence_bundle. set (d := mk_EvidenceBundle _ _ _ _ _ _ _ _ _ _ _ _ _ _ _ _).
    pose proof (sign_doc_signed x d _ pk Hl) as Hd.
    apply (check_digest_ok x "signature base64: " "signature parse: " "outer signature did not verify") in Hd.
    exact (eq_trans (f_equal ok (f_equal (fun r => match r with Err r => mk_VerifyResult false (Some r) false 0 0
      | Ok _ => mk_VerifyResult true None true 0 0 end) Hd)) eq_refl).
Qed.

(** Verification of an evidence bundle is the outer signature and nothing
    else: neither the signatures of its events nor their chain, neither the
    version nor the algorithm and signer of the envelope play a part. *)
Theorem evidence_verified_iff x b pk :
  (ok (verify_evidence_bundle x b pk) = true <-> doc_signed x b pk) /\
  (forall alg who, verify_evidence_bundle x (with_signature b (mk_SignatureEnvelope alg who (sig_text (signature b)))) pk =
     verify_evidence_bundle x b pk).
Proof.
  split.
  - unfold verify_evidence_bundle. pose proof (check_digest_ok x "signature base64: " "signature parse: "
      "outer signature did not verify" (evidence_signing_bytes x b) (sig_text (signature b)) pk) as Hd.
    destruct (check_digest x _ _ _ _ _ _) as [[]|r]; cbn; split; try done; intros H; [by apply Hd|by apply Hd in H].
  - intros alg who. unfold verify_evidence_bundle. do 2 f_equal. unfold evidence_signing_bytes, doc_digest, signing_digest.
    cbn [doc_to_value bundle_doc]. unfold bundle_to_value.
    by rewrite !strip_signature by (unfold bundle_fields, opt_field, field; repeat case_match; repeat constructor; done).
Qed.

(** ** Witness *)

Definition ev (who at_ lvl : string) : json :=
  JObject [("actor_id", JString who); ("timestamp", JString at_); ("type", JString "x.y"); ("level", JString lvl)].
Definition args1 : AssembleArgs :=
  mk_AssembleArgs "b1" "example.com" "incident" "2026-01-02" (Some "2026-01-04") None None (Some ["b"; "a"]) (Some "x") [] []
    None None "tf:actor:i" [7].
Definition log : list json := [ev "b" "2026-01-01" "L5"; ev "b" "2026-01-02" "L1"; ev "c" "2026-01-02" "L1"; ev "a" "2026-01-03" "L3"; ev "b" "2026-01-03" "L9"].

Lemma evidence_bundle_exact_witness : exists r,
  assemble_evidence_bundle Packet.toy (fun p => Ok p) (fun p s => is_ok (ok_or (strip_prefix p s) tt)) 0 log args1 = Ok r /\
  events (bundle r) = [ev "b" "2026-01-02" "L1"; ev "a" "2026-01-03" "L3"; ev "b" "2026-01-03" "L9"] /\
  ok (verify_evidence_bundle Packet.toy (bundle r) [7]) = true.
Proof.
  destruct (evidence_bundle_exact Packet.toy (fun p => Ok p) (fun p s => is_ok (ok_or (strip_prefix p s) tt)) 0 log args1
    (Some "x") [7] eq_refl (Packet.toy_laws [7])) as [He Hr].
  destruct (proj2 He) as [r Er].
  - exists (ev "a" "2026-01-03" "L3"). split; [do 3 right; left|vm_compute; reflexivity].
  - exists r. split; [exact Er|]. destruct (Hr r Er) as (H1 & _ & _ & _ & H5). split; [|exact H5].
    rewrite H1. vm_compute. reflexivity.
Defined.

End Evidence.
