(* ===== verification/Bundle.v ===== *)
(** * Bundle: sealed proof bundles and anchors ([bundle.rs])

    A bundle is encrypted under a random data key that is wrapped for each
    recipient, then signed.  The random bytes are arguments; the ciphers are
    those of [Crypto.crypto_lib], the signature crates those of
    [Packet.crypto].  The HTTP anchors are clients of outside services and
    are not modelled. *)

From S2P Require Import Prelude Utf8 Json Base64 Cbor BinaryFormat Canonical Crypto Packet Signed.
Import Signed.
Import Packet(outcome, Returned, Panic).

Module Bundle.
#[local] Open Scope string_scope.
#[local] Open Scope list_scope.
#[local] Open Scope Z_scope.

Definition HKDF_INFO : string := "tfbundle/wrap".

Record WrappedKey := mk_WrappedKey {
  recipient : string;
  recipient_key_id : option string;
  ephemeral_public : string;
  wrapped : string;
  wrap_nonce : string
}.
Record EncryptedProofBundle := mk_EncryptedProofBundle {
  bundle_version : string;
  level : string;
  ciphertext : string;
  nonce : string;
  wrapped_keys : list WrappedKey;
  transparency_anchor : option json;
  signature : SignatureEnvelope
}.
Record BundleRecipient := mk_BundleRecipient { actor : string; kem_public : list Z; key_id : option string }.

Definition wrapped_to_value (w : WrappedKey) : json :=
  JObject (field "recipient" (JString (recipient w)) ++ opt_field "recipient_key_id" (recipient_key_id w) JString ++
    field "ephemeral_public" (JString (ephemeral_public w)) ++ field "wrapped" (JString (wrapped w)) ++
    field "wrap_nonce" (JString (wrap_nonce w))).
Definition enc_fields (e : EncryptedProofBundle) : list (string * json) :=
  field "bundle_version" (JString (bundle_version e)) ++ field "level" (JString (level e)) ++
  field "ciphertext" (JString (ciphertext e)) ++ field "nonce" (JString (nonce e)) ++
  field "wrapped_keys" (JArray (wrapped_to_value <$> wrapped_keys e)) ++
  opt_field "transparency_anchor" (transparency_anchor e) (fun v => v).
Definition enc_to_value (e : EncryptedProofBundle) : json :=
  JObject (enc_fields e ++ field "signature" (envelope_to_value (signature e))).
Definition with_signature (e : EncryptedProofBundle) (s : SignatureEnvelope) : EncryptedProofBundle :=
  mk_EncryptedProofBundle (bundle_version e) (level e) (ciphertext e) (nonce e) (wrapped_keys e) (transparency_anchor e) s.

#[export] Instance enc_doc : SignedDoc EncryptedProofBundle := {
  doc_to_value := enc_to_value;
  doc_signature e := sig_text (signature e);
  doc_fill e t := with_signature e (fill_signature (signature e) t)
}.
#[export] Instance enc_doc_laws : SignedDocLaws EncryptedProofBundle.
Proof.
  split; [|done]. intros e t. cbn [doc_to_value enc_doc]. unfold enc_to_value.
  by rewrite !strip_signature by (unfold enc_fields, opt_field, field; repeat case_match; repeat constructor; done).
Qed.

(** Steps that may fail or panic. *)
Definition step {A B} (m : result string A) (k : A -> outcome (result string B)) : outcome (result string B) :=
  match m with Ok a => k a | Err e => Returned (Err e) end.
#[local] Notation "'let!' a := m 'in' k" := (step m (fun a => k)) (at level 10, a name, m at level 100, k at level 200).

Section bundle.
Context (x : Packet.crypto) (l : Crypto.crypto_lib).

Definition encrypted_signing_bytes (e : EncryptedProofBundle) : list Z := doc_digest x e.

(** [Hkdf::new(None, shared)] expanded to 32 bytes; no salt is 32 zeros. *)
Definition wrap_key_of (shared : list Z) : list Z := Crypto.hkdf l (replicate 32 0) shared (bytes_of_str HKDF_INFO) 32.

(** One turn of the loop over recipients, with the seed and nonce drawn. *)
Definition wrap_for (data_key : list Z) (r : BundleRecipient) (rng : list Z * list Z) : WrappedKey :=
  let '(eph_seed, wrap_nonce) := rng in
  let shared := Crypto.x25519 l eph_seed (kem_public r) in
  mk_WrappedKey (actor r) (key_id r) (Packet.b64_encode (Crypto.x25519_public l eph_seed))
    (Packet.b64_encode (Crypto.aead_seal l (wrap_key_of shared) wrap_nonce [] data_key)) (Packet.b64_encode wrap_nonce).

(** [rng i] is what the random source yields for recipient [i]. *)
Definition seal_bundle (data_key nonce_bytes : list Z) (rng : nat -> list Z * list Z) (bundle : json)
    (recipients : list BundleRecipient) (level : string) (signer_priv : list Z) (signer : string) : EncryptedProofBundle :=
  let plaintext := match Packet.canon x bundle with Ok t => t | Err _ => "" end in
  let ciphertext := Crypto.aead_seal l data_key nonce_bytes [] (bytes_of_str plaintext) in
  sign_doc x
    (mk_EncryptedProofBundle "1" level (Packet.b64_encode ciphertext) (Packet.b64_encode nonce_bytes)
       (imap (fun i r => wrap_for data_key r (rng i)) recipients) None (blank_envelope signer))
    signer_priv.

(** [ChaCha20Poly1305::new(key).decrypt(Nonce::from_slice(nonce), text)];
    [from_slice] panics unless the nonce has 12 bytes. *)
Definition decrypt (label : string) (key nonce text : list Z) : outcome (result string (list Z)) :=
  if Nat.eqb (length nonce) 12
  then Returned (map_err (fun e => label +:+ e) (ok_or (Crypto.aead_open l key nonce [] text) "aead::Error"))
  else Panic "nonce length".

Definition unwrap_key (wrap : WrappedKey) (recipient_priv : list Z) : outcome (result string (list Z)) :=
  let! eph_pub := map_err (fun e => "ephemeral_public base64: " +:+ e) (Packet.b64_decode (ephemeral_public wrap)) in
  if negb (Nat.eqb (length eph_pub) 32) then Returned (Err "ephemeral_public not 32 bytes") else
  let wrap_key := wrap_key_of (Crypto.x25519 l recipient_priv eph_pub) in
  let! wrapped := map_err (fun e => "wrapped base64: " +:+ e) (Packet.b64_decode (wrapped wrap)) in
  let! wrap_nonce := map_err (fun e => "wrap_nonce base64: " +:+ e) (Packet.b64_decode (wrap_nonce wrap)) in
  decrypt "unwrap: " wrap_key wrap_nonce wrapped.

Definition find_wrap (recipient_actor : string) (ws : list WrappedKey) : option WrappedKey :=
  List.find (fun w => (recipient w =? recipient_actor)%string) ws.

Definition check_signer (enc : EncryptedProofBundle) (signer_pub : option (list Z)) : result string unit :=
  match signer_pub with
  | None => Ok tt
  | Some pk => check_digest x "signature base64: " "sig parse: " "encrypted bundle signature did not verify"
                 (encrypted_signing_bytes enc) (sig_text (signature enc)) pk
  end.

Definition open_payload (enc : EncryptedProofBundle) (data_key_bytes : list Z) : outcome (result string (list Z)) :=
  let! ciphertext := map_err (fun e => "ciphertext base64: " +:+ e) (Packet.b64_decode (ciphertext enc)) in
  let! nonce := map_err (fun e => "nonce base64: " +:+ e) (Packet.b64_decode (nonce enc)) in
  if negb (Nat.eqb (length data_key_bytes) 32) then Returned (Err "data_key not 32 bytes") else
  decrypt "decrypt: " data_key_bytes nonce ciphertext.

Definition open_bundle (enc : EncryptedProofBundle) (recipient_priv : list Z) (recipient_actor : string)
    (signer_pub : option (list Z)) : outcome (result string json) :=
  let! wrap := ok_or (find_wrap recipient_actor (wrapped_keys enc)) ("no wrapped key for recipient " +:+ recipient_actor) in
  match unwrap_key wrap recipient_priv with
  | Panic w => Panic w
  | Returned (Err e) => Returned (Err e)
  | Returned (Ok data_key) =>
    match open_payload enc data_key with
    | Panic w => Panic w
    | Returned (Err e) => Returned (Err e)
    | Returned (Ok plaintext) =>
      let! _ := check_signer enc signer_pub in
      Returned (Packet.json_from_slice x plaintext)
    end
  end.
End bundle.

(** ** RFC 3161 time-stamp requests *)

(** The bytes of [n > 0], most significant first; [fuel] bounds their number. *)
Fixpoint len_bytes (fuel : nat) (v : Z) : list Z :=
  match fuel with
  | O => []
  | S fuel' => if v =? 0 then [] else len_bytes fuel' (Z.shiftr v 8) ++ [Z.land v 0xff]
  end.
(** A [usize] has at most 8 bytes. *)
Definition der_len (n : Z) : list Z :=
  if n <? 0x80 then [n] else let bytes := len_bytes 8 n in Z.lor 0x80 (Z.of_nat (length bytes)) :: bytes.
Definition der_sequence (parts : list (list Z)) : list Z :=
  let body := concat parts in 0x30 :: der_len (Cbor.len body) ++ body.
Definition der_octet_string (bytes : list Z) : list Z := 0x04 :: der_len (Cbor.len bytes) ++ bytes.
(** Leading zeros dropped, the last byte kept. *)
Fixpoint trim_zeros (bytes : list Z) : list Z :=
  match bytes with b :: ((_ :: _) as rest) => if b =? 0 then trim_zeros rest else bytes | _ => bytes end.
Definition der_integer (bytes : list Z) : list Z :=
  let payload := trim_zeros bytes in
  let needs_pad := negb (Z.land (List.hd 0 payload) 0x80 =? 0) in
  let payload := if needs_pad then 0x00 :: payload else payload in
  0x02 :: der_len (Cbor.len payload) ++ payload.

Definition oid_sha256 : list Z := [0x06; 0x09; 0x60; 0x86; 0x48; 0x01; 0x65; 0x03; 0x04; 0x02; 0x01].
Definition build_rfc3161_request (x : Packet.crypto) (data : list Z) : list Z :=
  let digest := Packet.sha256 x data in
  let alg_id := der_sequence [oid_sha256; [0x05; 0x00]] in
  let message_imprint := der_sequence [alg_id; der_octet_string digest] in
  der_sequence [der_integer [0x01]; message_imprint; [0x01; 0x01; 0xff]].

(** ** The in-memory anchor *)

(** [MemoryAnchor { entries }]. *)
Abbreviation MemoryAnchor := (gmap string Z).
Definition new : MemoryAnchor := ∅.
Definition digest_hex (x : Packet.crypto) (bundle_bytes : list Z) : string := hex (Packet.sha256 x bundle_bytes).
Definition submit (x : Packet.crypto) (entries : MemoryAnchor) (bundle_bytes : list Z) : MemoryAnchor * json :=
  let hex := digest_hex x bundle_bytes in
  let seq := Z.of_nat (size entries) in
  (<[hex := seq]> entries,
   JObject [("kind", JString "memory"); ("digest", JString hex); ("sequence_number", jint seq)]).

(** [Value::as_u64]. *)
Definition as_u64 (v : json) : option Z :=
  match v with JNumber (NInt n) => if (0 <=? n) && (n <? 2 ^ 64) then Some n else None | _ => None end.
Definition verify_inclusion (x : Packet.crypto) (entries : MemoryAnchor) (bundle_bytes : list Z) (inclusion_proof : json) :
    bool :=
  let hex := digest_hex x bundle_bytes in
  if negb (bool_decide (jget "digest" inclusion_proof ≫= as_str = Some hex)) then false
  else bool_decide (jget "sequence_number" inclusion_proof ≫= as_u64 = entries !! hex).

(** ** Sealing and opening *)

(** [chacha20poly1305]: ciphertexts are bytes. *)
Definition seal_bytes_law (l : Crypto.crypto_lib) : Prop :=
  forall k n a p, is_bytes p -> is_bytes (Crypto.aead_seal l k n a p).

Lemma find_wrap_imap (f : nat -> BundleRecipient -> WrappedKey) rs i r :
  (forall j r', recipient (f j r') = actor r') -> rs !! i = Some r ->
  (forall j r', (j < i)%nat -> rs !! j = Some r' -> actor r' <> actor r) ->
  find_wrap (actor r) (imap f rs) = Some (f i r).
Proof.
  revert f i. induction rs as [|r0 rs IH]; intros f i Hf Hi Hfirst; [done|]. rewrite imap_cons. unfold find_wrap. cbn [List.find].
  rewrite Hf. destruct i as [|i]; cbn in Hi.
  - injection Hi as ->. by rewrite String.eqb_refl.
  - destruct (String.eqb_spec (actor r0) (actor r)) as [E|_]; [by destruct (Hfirst 0%nat r0 ltac:(lia) eq_refl)|].
    apply (IH (f ∘ S)); [intros; apply Hf|done|]. intros j r' Hj Hr'. apply (Hfirst (S j)); [lia|done].
Qed.

Section roundtrip.
Context (x : Packet.crypto) (l : Crypto.crypto_lib) (Hl : Crypto.crypto_lib_laws l) (Hb : seal_bytes_law l).

Lemma decrypt_seal label k n p : length n = 12%nat -> decrypt l label k n (Crypto.aead_seal l k n [] p) = Returned (Ok p).
Proof using Hl. intros E. unfold decrypt. rewrite E. cbn. by rewrite (proj2 (Crypto.law_seal l Hl k n [] p)). Qed.

Lemma unwrap_wrap data_key r seed n priv : is_bytes data_key -> is_bytes n -> length n = 12%nat ->
  kem_public r = Crypto.x25519_public l priv ->
  unwrap_key l (wrap_for l data_key r (seed, n)) priv = Returned (Ok data_key).
Proof using Hl Hb.
  intros Hd Hn Hlen Hk. unfold unwrap_key, wrap_for. cbn [ephemeral_public wrapped wrap_nonce].
  destruct (Crypto.law_public l Hl seed) as [Hpl Hpb].
  rewrite !Packet.b64_decode_encode_bytes by (done || by apply Hb). cbn [map_err step]. rewrite Hpl. cbn [Nat.eqb negb step].
  rewrite Hk, (Crypto.law_agree l Hl priv seed). by apply decrypt_seal.
Qed.
End roundtrip.

(** Every recipient of a sealed bundle can open it: with the key whose
    public half the bundle was sealed for, and checking the signer or not,
    opening yields what the canonical text of the bundle reads as, provided
    no earlier recipient has the same actor name. *)
Theorem sealed_bundle_opens x l data_key nb rng bundle rs lvl sk pk who i r priv t signer_pub
    (Hl : Crypto.crypto_lib_laws l) (Hb : seal_bytes_law l) (Hx : Packet.crypto_laws x sk pk)
    (Hkey : is_bytes data_key /\ length data_key = 32%nat) (Hnonce : is_bytes nb /\ length nb = 12%nat)
    (Hrng : forall j, is_bytes (rng j).2 /\ length (rng j).2 = 12%nat)
    (Hr : rs !! i = Some r) (Hfirst : forall j r', (j < i)%nat -> rs !! j = Some r' -> actor r' <> actor r)
    (Hpub : kem_public r = Crypto.x25519_public l priv) (Ht : Packet.canon x bundle = Ok t)
    (Hs : signer_pub = None \/ signer_pub = Some pk) :
  open_bundle x l (seal_bundle x l data_key nb rng bundle rs lvl sk who) priv (actor r) signer_pub
  = Returned (Packet.json_from_slice x (bytes_of_str t)).
Proof.
  destruct Hkey as [Hkb Hkl], Hnonce as [Hnb Hnl], (Hrng i) as [Hwb Hwl].
  unfold open_bundle, seal_bundle. rewrite Ht. set (draft := mk_EncryptedProofBundle _ _ _ _ _ _ _).
  assert (check_signer x (sign_doc x draft sk) signer_pub = Ok tt) as Hc.
  { destruct Hs as [->| ->]; [done|]. apply check_digest_ok. change (doc_signed x (sign_doc x draft sk) pk). by apply sign_doc_signed; [apply _|]. }
  assert (wrapped_keys (sign_doc x draft sk) = imap (fun i r => wrap_for l data_key r (rng i)) rs) as -> by reflexivity.
  rewrite (find_wrap_imap _ rs i r) by (try done; intros j r'; unfold wrap_for; by destruct (rng j)). cbn [ok_or step].
  destruct (rng i) as [seed wn]. cbn in Hwb, Hwl. rewrite (unwrap_wrap l Hl Hb) by done.
  unfold open_payload. change (ciphertext (sign_doc x draft sk)) with (ciphertext draft).
  change (nonce (sign_doc x draft sk)) with (nonce draft). cbn [ciphertext nonce draft].
  rewrite !Packet.b64_decode_encode_bytes by (done || apply Hb, bytes_of_str_bytes). cbn [map_err step].
  rewrite Hkl. cbn [Nat.eqb negb]. rewrite (decrypt_seal l Hl) by done. by rewrite Hc.
Qed.

(** Opening with a signer's key returns nothing that signer did not
    sign: an opened bundle carries a valid signature over everything but the
    signature, and was decrypted under the key wrapped for this recipient. *)
Theorem opened_bundle_signed x l enc priv who pk v
    (Ho : open_bundle x l enc priv who (Some pk) = Returned (Ok v)) :
  doc_signed x enc pk /\
  exists wrap data_key plaintext, find_wrap who (wrapped_keys enc) = Some wrap /\
    unwrap_key l wrap priv = Returned (Ok data_key) /\ open_payload l enc data_key = Returned (Ok plaintext) /\
    Packet.json_from_slice x plaintext = Ok v.
Proof.
  unfold open_bundle in Ho. destruct (find_wrap who (wrapped_keys enc)) as [wrap|]; [|discriminate]. cbn [ok_or step] in Ho.
  destruct (unwrap_key l wrap priv) as [[data_key|]|] eqn:Eu; [|discriminate..].
  destruct (open_payload l enc data_key) as [[plaintext|]|] eqn:Ep; [|discriminate..].
  destruct (check_signer x enc (Some pk)) as [[]|] eqn:Ec; [|discriminate]. cbn [step] in Ho.
  split; [by apply check_digest_ok in Ec|]. exists wrap, data_key, plaintext. injection Ho as Ho. auto.
Qed.

(** A nonce of another length than 12 makes [open_bundle] panic, before any
    signature is looked at. *)
Theorem short_nonce_panics x l enc priv who signer_pub wrap eph sealed n
    (Hw : find_wrap who (wrapped_keys enc) = Some wrap)
    (He : Packet.b64_decode (ephemeral_public wrap) = Ok eph) (Hel : length eph = 32%nat)
    (Hs : Packet.b64_decode (wrapped wrap) = Ok sealed)
    (Hn : Packet.b64_decode (wrap_nonce wrap) = Ok n) (Hnl : length n <> 12%nat) :
  exists w, open_bundle x l enc priv who signer_pub = Panic w.
Proof.
  unfold open_bundle. rewrite Hw. cbn [ok_or step]. unfold unwrap_key. rewrite He. cbn [map_err step]. rewrite Hel.
  cbn [Nat.eqb negb]. rewrite Hs. cbn [map_err step]. rewrite Hn. cbn [map_err step]. unfold decrypt.
  destruct (Nat.eqb_spec (length n) 12); [done|]. eauto.
Qed.

(** Two keys of one actor: the bundle is sealed for both, and opening tries
    the first entry only, so the holder of the second key cannot open it. *)
Lemma second_key_ignored x l enc priv who signer_pub w1 ws : recipient w1 = who -> wrapped_keys enc = w1 :: ws ->
  forall e, unwrap_key l w1 priv = Returned (Err e) -> open_bundle x l enc priv who signer_pub = Returned (Err e).
Proof.
  intros Hr Hw e He. unfold open_bundle, find_wrap. rewrite Hw. cbn [List.find]. rewrite Hr, String.eqb_refl. cbn [ok_or step].
  by rewrite He.
Qed.

(** ** DER lengths *)

(** A reader of DER lengths: the value and what follows. *)
Definition read_len (bytes : list Z) : option (Z * list Z) :=
  match bytes with
  | [] => None
  | b :: rest =>
    if b <? 0x80 then Some (b, rest)
    else let k := Z.to_nat (b - 0x80) in Some (of_be (take k rest), drop k rest)
  end.

Lemma of_be_snoc bs b : of_be (bs ++ [b]) = of_be bs * 256 + b.
Proof.
  induction bs as [|c bs IH]; cbn [app of_be length]; [lia|]. rewrite IH, length_app. cbn [length].
  rewrite Nat.add_1_r, Nat2Z.inj_succ, Z.pow_succ_r by lia. lia.
Qed.

Lemma len_bytes_spec fuel v : 0 <= v < 256 ^ Z.of_nat fuel ->
  of_be (len_bytes fuel v) = v /\ (length (len_bytes fuel v) <= fuel)%nat /\ is_bytes (len_bytes fuel v) /\
  (0 < v -> (0 < length (len_bytes fuel v))%nat /\ 0 < List.hd 0 (len_bytes fuel v)).
Proof.
  revert v. induction fuel as [|fuel IH]; intros v Hv.
  { cbn in Hv. replace v with 0 by lia. cbn. repeat split; try done; lia. }
  cbn [len_bytes]. destruct (Z.eqb_spec v 0) as [->|Hne]; [cbn; repeat split; try done; lia|].
  change 0xff with (2 ^ 8 - 1). rewrite Z.shiftr_div_pow2, (land_mask v 8) by lia. change (2 ^ 8) with 256.
  rewrite Nat2Z.inj_succ, Z.pow_succ_r in Hv by lia.
  pose proof (Z.div_mod v 256 ltac:(lia)) as Hdm. pose proof (Z.mod_pos_bound v 256 ltac:(lia)) as Hm.
  destruct (IH (v / 256)) as (H1 & H2 & H3 & H4).
  { split; [apply Z.div_pos; lia|apply Z.div_lt_upper_bound; lia]. }
  rewrite of_be_snoc, H1, length_app. cbn [length]. split; [lia|]. split; [lia|]. split.
  - apply Forall_app. split; [done|]. constructor; [exact Hm|constructor].
  - intros _. split; [lia|]. destruct (len_bytes fuel (v / 256)) as [|b bs] eqn:E; cbn.
    + cbn in H1. lia.
    + destruct (Z.eq_dec (v / 256) 0) as [E0|E0]; [|apply H4; lia]. rewrite E0 in E. destruct fuel; discriminate E.
Qed.

(** DER lengths are exact and minimal: every [usize] length reads back,
    whatever follows it, in at most nine bytes, the long form being used
    from 128 on and never starting with a zero byte. *)
Theorem der_len_roundtrip n rest (Hn : 0 <= n < 2 ^ 64) :
  read_len (der_len n ++ rest) = Some (n, rest) /\ (length (der_len n) <= 9)%nat /\ is_bytes (der_len n) /\
  (n < 0x80 <-> length (der_len n) = 1%nat) /\ (0x80 <= n -> 0 < List.nth 1 (der_len n) 0).
Proof.
  unfold der_len. destruct (Z.ltb_spec n 0x80) as [Hlt|Hge].
  - cbn [app read_len]. destruct (Z.ltb_spec n 0x80); [|lia]. cbn. repeat split; try done; try lia.
    constructor; [unfold is_u8; lia|constructor].
  - destruct (len_bytes_spec 8 n) as (H1 & H2 & H3 & H4); [change (256 ^ Z.of_nat 8) with (2 ^ 64); lia|].
    destruct (H4 ltac:(lia)) as [H5 H6]. set (bs := len_bytes 8 n) in *.
    assert (Z.lor 0x80 (Z.of_nat (length bs)) = 0x80 + Z.of_nat (length bs)) as ->.
    { change 0x80 with (Z.shiftl 1 7) at 1. rewrite lor_shiftl_add by lia. lia. }
    cbn [app read_len length]. destruct (Z.ltb_spec (0x80 + Z.of_nat (length bs)) 0x80); [lia|].
    replace (Z.to_nat (0x80 + Z.of_nat (length bs) - 0x80)) with (length bs) by lia.
    rewrite take_app_length, drop_app_length, H1. repeat split; try done; try lia.
    + constructor; [unfold is_u8; lia|done].
    + intros _. revert H6. generalize bs. by intros [|b l].
Qed.

Lemma der_len_roundtrip_witness : read_len (der_len 300 ++ [7]) = Some (300, [7]) /\ (length (der_len 300) <= 9)%nat /\
  is_bytes (der_len 300) /\ (300 < 0x80 <-> length (der_len 300) = 1%nat) /\ (0x80 <= 300 -> 0 < List.nth 1 (der_len 300) 0).
Proof. apply der_len_roundtrip. lia. Defined.

(** The request is a fixed frame around the digest. *)
Lemma rfc3161_request_exact x data : length (Packet.sha256 x data) = 32%nat ->
  build_rfc3161_request x data = [0x30; 0x39; 0x02; 0x01; 0x01; 0x30; 0x31; 0x30; 0x0d] ++ oid_sha256 ++
    [0x05; 0x00; 0x04; 0x20] ++ Packet.sha256 x data ++ [0x01; 0x01; 0xff].
Proof.
  intros H. unfold build_rfc3161_request. destruct (Packet.sha256 x data) as [|b0 d]; [done|].
  do 31 (destruct d as [|? d]; [done|]). destruct d; [reflexivity|done].
Qed.

(** ** Anchors *)

(** A submitted bundle is anchored: the inclusion proof that [submit]
    returns verifies for the bundle it was issued for, and for no bundle
    with another digest. *)
Theorem anchored_bundle_verifies x entries bytes other (Hsize : Z.of_nat (size entries) < 2 ^ 64)
    (Hsha : is_bytes (Packet.sha256 x bytes) /\ is_bytes (Packet.sha256 x other)) :
  let '(entries', proof) := submit x entries bytes in
  verify_inclusion x entries' other proof = true <-> Packet.sha256 x other = Packet.sha256 x bytes.
Proof.
  unfold submit, verify_inclusion, digest_hex. cbn -[hex bool_decide].
  destruct (Z.leb_spec 0 (Z.of_nat (size entries))); [|lia]. destruct (Z.ltb_spec (Z.of_nat (size entries)) (2 ^ 64)); [|lia].
  cbn -[hex bool_decide]. case_bool_decide as Hd; cbn [negb].
  - injection Hd as Hd. apply Crypto.hex_inj in Hd; [|apply Hsha..]. rewrite Hd, lookup_insert_eq, bool_decide_true by done. done.
  - split; [discriminate|]. intros E. rewrite E in Hd. done.
Qed.

(** A proof without a sequence number verifies for every bundle that was
    never submitted. *)
Theorem unsubmitted_bundle_verifies x entries bytes (Hnew : entries !! digest_hex x bytes = None) :
  verify_inclusion x entries bytes (JObject [("digest", JString (digest_hex x bytes))]) = true.
Proof. unfold verify_inclusion. cbn -[bool_decide]. rewrite bool_decide_true by done. by rewrite Hnew. Qed.

(** ** Witnesses *)

Lemma toy_seal_bytes : seal_bytes_law Crypto.toy_lib.
Proof.
  intros k n a p Hp. cbn. apply Forall_app. split; [done|]. repeat constructor; unfold is_u8; lia.
Qed.

Definition bob_key : list Z := replicate 32 5.
Definition bob : BundleRecipient := mk_BundleRecipient "tf:actor:bob" (Crypto.x25519_public Crypto.toy_lib bob_key) None.
Definition eve : BundleRecipient := mk_BundleRecipient "tf:actor:eve" (Crypto.x25519_public Crypto.toy_lib (replicate 32 6)) None.
Definition draw (i : nat) : list Z * list Z := (replicate 32 (Z.of_nat i mod 256), replicate 12 9).
Definition payload1 : json := JObject [("event", JString "x")].

Lemma replicate_bytes n b : 0 <= b < 256 -> is_bytes (replicate n b).
Proof. intros H. by apply Forall_replicate. Qed.

Lemma sealed_bundle_opens_witness :
  open_bundle Packet.toy Crypto.toy_lib
    (seal_bundle Packet.toy Crypto.toy_lib (replicate 32 1) (replicate 12 2) draw payload1 [eve; bob] "L4" [7] "tf:actor:s")
    bob_key "tf:actor:bob" (Some [7])
  = Returned (Packet.json_from_slice Packet.toy
      (bytes_of_str (match Packet.canon Packet.toy payload1 with Ok t => t | Err _ => "" end))).
Proof.
  apply (sealed_bundle_opens Packet.toy Crypto.toy_lib _ _ draw payload1 [eve; bob] "L4" [7] [7] "tf:actor:s" 1 bob bob_key).
  - exact Crypto.toy_lib_laws.
  - exact toy_seal_bytes.
  - apply Packet.toy_laws.
  - split; [apply replicate_bytes; lia|reflexivity].
  - split; [apply replicate_bytes; lia|reflexivity].
  - intros j. split; [apply replicate_bytes; lia|reflexivity].
  - reflexivity.
  - intros [|j] r' Hj Hr'; [|lia]. injection Hr' as <-. discriminate.
  - reflexivity.
  - vm_compute. reflexivity.
  - by right.
Defined.

Definition json_lib : Packet.crypto :=
  Packet.mk_crypto (fun s => s) (fun _ => "") (take 32) (list Z) (list Z) Ok Ok
    (fun vk m s => bool_decide (s = Packet.toy_sign vk m)) Packet.toy_sign Ok Some (fun _ => Ok JNull).

Lemma opened_bundle_signed_witness :
  let enc := seal_bundle json_lib Crypto.toy_lib (replicate 32 1) (replicate 12 2) draw payload1 [bob] "L4" [7] "tf:actor:s" in
  doc_signed json_lib enc [7] /\
  exists wrap data_key plaintext, find_wrap "tf:actor:bob" (wrapped_keys enc) = Some wrap /\
    unwrap_key Crypto.toy_lib wrap bob_key = Returned (Ok data_key) /\
    open_payload Crypto.toy_lib enc data_key = Returned (Ok plaintext) /\ Packet.json_from_slice json_lib plaintext = Ok JNull.
Proof. intros enc. apply opened_bundle_signed. vm_compute. reflexivity. Defined.

Lemma anchored_bundle_verifies_witness :
  let '(entries', proof) := submit Packet.toy new [1; 2] in
  verify_inclusion Packet.toy entries' [1; 2] proof = true <-> Packet.sha256 Packet.toy [1; 2] = Packet.sha256 Packet.toy [1; 2].
Proof. apply anchored_bundle_verifies; [vm_compute; reflexivity|]. split; repeat constructor; unfold is_u8; lia. Defined.

(** Submitting a bundle again changes its sequence number, so the first proof
    stops verifying, and the next bundle gets the same number. *)
Example resubmission :
  let '(s1, p1) := submit Packet.toy new [1] in
  let '(s2, p2) := submit Packet.toy s1 [1] in
  let '(s3, p3) := submit Packet.toy s2 [2] in
  verify_inclusion Packet.toy s1 [1] p1 = true /\ verify_inclusion Packet.toy s2 [1] p1 = false /\
  jget "sequence_number" p2 = jget "sequence_number" p3.
Proof. vm_compute. auto. Qed.

End Bundle.
