(* ===== verification/NoStdPacket.v ===== *)
(** * NoStdPacket: packets and relay authorities of the embedded crate
      ([tf-core-no-std/src/packet.rs], [relay.rs])

    Fields live in buffers of fixed capacity; what is signed is the hash of
    the length-prefixed fields.  The crates [ed25519-compact] and [sha2] are
    the record [compact]. *)

From S2P Require Import Prelude Utf8 Cbor.

Module NoStdPacket.
#[local] Open Scope string_scope.
#[local] Open Scope list_scope.
#[local] Open Scope Z_scope.

Record compact := mk_compact {
  sha256 : list Z -> list Z;
  Sig : Type;
  PK : Type;
  Signature_from_slice : list Z -> option Sig;
  PublicKey_from_slice : list Z -> option PK;
  pk_verify : PK -> list Z -> Sig -> bool;
  (** [KeyPair::from_seed(seed).sk.sign(digest, None)]. *)
  sk_sign : list Z -> list Z -> list Z
}.

Definition STRING_CAP : nat := 256.
Definition PAYLOAD_CAP : nat := 1024.
Definition SIGNATURE_CAP : nat := 64.

Record Packet := mk_Packet {
  packet_version : string;
  packet_id : string;
  source : string;
  destination : string;
  priority : string;
  emergency : bool;
  created_at : string;
  expires_at : option string;
  signer : string;
  algorithm : string;
  payload : list Z;
  signature : list Z
}.

(** The bounds of the buffers. *)
Definition fits (n : nat) (s : string) : Prop := (String.length s <= n)%nat.
Definition within_caps (p : Packet) : Prop :=
  fits 8 (packet_version p) /\ fits STRING_CAP (packet_id p) /\ fits STRING_CAP (source p) /\
  fits STRING_CAP (destination p) /\ fits 8 (priority p) /\ fits STRING_CAP (created_at p) /\
  (forall e, expires_at p = Some e -> fits STRING_CAP e) /\ fits STRING_CAP (signer p) /\ fits 16 (algorithm p) /\
  (length (payload p) <= PAYLOAD_CAP)%nat /\ (length (signature p) <= SIGNATURE_CAP)%nat.

Inductive VerifyError :=
| UnsupportedVersion | SignerMismatch | V_P0NotEmergency | Expired | SignatureMalformed | PublicKeyMalformed
| SignatureInvalid | V_FieldTooLarge.
Inductive SignError := FieldTooLarge | PayloadTooLarge | P0NotEmergency.

(** [HString::push_str] into an empty string of capacity [n]. *)
Definition hstring (n : nat) (s : string) : result SignError string :=
  if (String.length s <=? n)%nat then Ok s else Err FieldTooLarge.

(** ** Signing bytes *)

Definition write_field (bytes : list Z) : list Z := be_bytes 4 (Cbor.len bytes) ++ bytes.
Definition write_str (s : string) : list Z := write_field (bytes_of_str s).
Definition write_optional_str (v : option string) : list Z :=
  match v with Some s => [1] ++ write_str s | None => [0] end.
Definition bit (b : bool) : Z := if b then 1 else 0.

(** What [packet_signing_bytes] hashes. *)
Definition preimage (p : Packet) : list Z :=
  write_str (packet_version p) ++ write_str (packet_id p) ++ write_str (source p) ++ write_str (destination p) ++
  write_str (priority p) ++ write_field [bit (emergency p)] ++ write_str (created_at p) ++
  write_optional_str (expires_at p) ++ write_str (signer p) ++ write_str (algorithm p) ++ write_field (payload p).

Definition with_signature (p : Packet) (sig : list Z) : Packet :=
  mk_Packet (packet_version p) (packet_id p) (source p) (destination p) (priority p) (emergency p) (created_at p)
    (expires_at p) (signer p) (algorithm p) (payload p) sig.

Section packet.
Variable x : compact.

Definition packet_signing_bytes (p : Packet) : list Z := sha256 x (preimage p).

(** The signature of [expect("signature fits ...")] has 64 bytes. *)
Definition sign_packet (payload private_key : list Z) (signer packet_id source destination priority : string)
    (expires_at : option string) : result SignError Packet :=
  if (priority =? "P0")%string then Err P0NotEmergency else
  _ ← (if (length payload <=? PAYLOAD_CAP)%nat then Ok tt else Err PayloadTooLarge);
  packet_version ← hstring 8 "1";
  packet_id ← hstring STRING_CAP packet_id;
  source ← hstring STRING_CAP source;
  destination ← hstring STRING_CAP destination;
  priority ← hstring 8 priority;
  expires_at ← match expires_at with Some e => e' ← hstring STRING_CAP e; Ok (Some e') | None => Ok None end;
  signer ← hstring STRING_CAP signer;
  algorithm ← hstring 16 "ed25519";
  let packet := mk_Packet packet_version packet_id source destination priority false "" expires_at signer algorithm payload [] in
  Ok (with_signature packet (sk_sign x private_key (packet_signing_bytes packet))).

Definition check_fields (p : Packet) (now : string) : result VerifyError unit :=
  if negb (packet_version p =? "1")%string then Err UnsupportedVersion
  else if negb (signer p =? source p)%string then Err SignerMismatch
  else if (priority p =? "P0")%string && negb (emergency p) then Err V_P0NotEmergency
  else match expires_at p with Some exp => if str_lt exp now then Err Expired else Ok tt | None => Ok tt end.

Definition verify_packet (p : Packet) (public_key : list Z) (now : string) : result VerifyError unit :=
  _ ← check_fields p now;
  let digest := packet_signing_bytes p in
  _ ← (if Nat.eqb (length (signature p)) 64 then Ok tt else Err SignatureMalformed);
  sig ← ok_or (Signature_from_slice x (signature p)) SignatureMalformed;
  pk ← ok_or (PublicKey_from_slice x public_key) PublicKeyMalformed;
  if pk_verify x pk digest sig then Ok tt else Err SignatureInvalid.
End packet.

(** ** Relay authorities *)

Definition KINDS_CAP : nat := 16.

Record SignatureEnvelope := mk_SignatureEnvelope { s_algorithm : string; s_signer : string; s_signature : list Z }.
Record RelayAuthority := mk_RelayAuthority {
  relay_authority_version : string;
  relay : string;
  trust_domain : string;
  kinds : list string;
  max_hop_count : option Z;
  rate_limit_per_minute : option Z;
  valid_from : string;
  valid_until : option string;
  issuer : string;
  r_signature : SignatureEnvelope
}.

Definition write_optional_u32 (v : option Z) : list Z :=
  match v with Some n => [1] ++ be_bytes 4 n | None => [0] end.
Definition authority_preimage (a : RelayAuthority) : list Z :=
  write_str (relay_authority_version a) ++ write_str (relay a) ++ write_str (trust_domain a) ++
  be_bytes 4 (Cbor.len (kinds a)) ++ concat (write_str <$> kinds a) ++ write_optional_u32 (max_hop_count a) ++
  write_optional_u32 (rate_limit_per_minute a) ++ write_str (valid_from a) ++ write_optional_str (valid_until a) ++
  write_str (issuer a).

Section relay.
Variable x : compact.

Definition relay_authority_signing_bytes (a : RelayAuthority) : list Z := sha256 x (authority_preimage a).

Definition verify_relay_authority (a : RelayAuthority) (issuer_pub : list Z) : bool :=
  if negb (relay_authority_version a =? "1")%string then false
  else if negb (s_algorithm (r_signature a) =? "ed25519")%string then false
  else if negb (s_signer (r_signature a) =? issuer a)%string then false
  else if negb (Nat.eqb (length (s_signature (r_signature a))) 64) then false
  else match Signature_from_slice x (s_signature (r_signature a)) with
  | None => false
  | Some sig =>
    match PublicKey_from_slice x issuer_pub with
    | None => false
    | Some pk => pk_verify x pk (relay_authority_signing_bytes a) sig
    end
  end.
End relay.

(** ** Length-prefixed fields can be taken apart *)

Definition short {A} (l : list A) : Prop := Cbor.len l < 2 ^ 32.

Lemma be4_inj m n r s : 0 <= m < 2 ^ 32 -> 0 <= n < 2 ^ 32 -> be_bytes 4 m ++ r = be_bytes 4 n ++ s -> m = n /\ r = s.
Proof.
  intros Hm Hn H. apply app_inj_1 in H as [H ->]; [|by rewrite !length_be_bytes]. split; [|done].
  rewrite <- (of_be_bytes_small 4 m), <- (of_be_bytes_small 4 n) by done. by rewrite H.
Qed.

Lemma len_nonneg {A} (l : list A) : 0 <= Cbor.len l.
Proof. unfold Cbor.len. lia. Qed.

Lemma write_field_inj a b r s : short a -> short b -> write_field a ++ r = write_field b ++ s -> a = b /\ r = s.
Proof.
  unfold write_field, short. rewrite <- !app_assoc. intros Ha Hb H. pose proof (len_nonneg a). pose proof (len_nonneg b).
  apply be4_inj in H as [Hl H]; [|lia..]. apply app_inj_1 in H; [done|]. unfold Cbor.len in Hl. lia.
Qed.

Lemma fits_short n s : (n <= 1024)%nat -> fits n s -> short (bytes_of_str s).
Proof. unfold fits, short, Cbor.len. rewrite length_bytes_of_str. lia. Qed.

Lemma write_str_inj n s t r u : (n <= 1024)%nat -> fits n s -> fits n t -> write_str s ++ r = write_str t ++ u -> s = t /\ r = u.
Proof.
  intros Hn Hs Ht H. apply write_field_inj in H as [H ->]; [|by eapply fits_short..]. split; [|done]. by apply bytes_of_str_inj.
Qed.

Lemma write_optional_str_inj v w r u : (forall e, v = Some e -> fits STRING_CAP e) -> (forall e, w = Some e -> fits STRING_CAP e) ->
  write_optional_str v ++ r = write_optional_str w ++ u -> v = w /\ r = u.
Proof.
  intros Hv Hw H. destruct v as [s|], w as [t|]; cbn [write_optional_str] in H; try discriminate; [|by apply app_inj_1 in H as [_ ->]].
  rewrite <- !app_assoc in H. apply app_inj_1 in H as [_ H]; [|done]. apply (write_str_inj STRING_CAP) in H as [-> ->]; [done|unfold STRING_CAP; lia|by apply Hv|by apply Hw].
Qed.

Lemma write_optional_u32_inj v w r u : (forall n, v = Some n -> 0 <= n < 2 ^ 32) -> (forall n, w = Some n -> 0 <= n < 2 ^ 32) ->
  write_optional_u32 v ++ r = write_optional_u32 w ++ u -> v = w /\ r = u.
Proof.
  intros Hv Hw H. destruct v as [m|], w as [n|]; cbn [write_optional_u32] in H; try discriminate; [|by apply app_inj_1 in H as [_ ->]].
  rewrite <- !app_assoc in H. apply app_inj_1 in H as [_ H]; [|done]. apply be4_inj in H as [-> ->]; [done|by apply Hv|by apply Hw].
Qed.

Lemma write_strs_inj n l m r u : (n <= 1024)%nat -> Forall (fits n) l -> Forall (fits n) m -> length l = length m ->
  concat (write_str <$> l) ++ r = concat (write_str <$> m) ++ u -> l = m /\ r = u.
Proof.
  intros Hn Hl. revert m. induction Hl as [|s l Hs _ IH]; intros [|t m] Hm Hlen H; try done.
  inversion_clear Hm as [|? ? Ht Hm']. cbn [fmap list_fmap concat] in H. rewrite <- !app_assoc in H.
  apply (write_str_inj n) in H as [-> H]; try done. apply IH in H as [-> ->]; [done..|]. by injection Hlen.
Qed.

(** One field taken off both sides of an equation of encodings. *)
Ltac peel := match goal with
  | H : write_str _ ++ _ = write_str _ ++ _ |- _ =>
    first [apply (write_str_inj STRING_CAP) in H as [? H]; [|unfold STRING_CAP; lia|assumption|assumption]
          |apply (write_str_inj 8) in H as [? H]; [|lia|assumption|assumption]
          |apply (write_str_inj 16) in H as [? H]; [|lia|assumption|assumption]]
  | H : write_optional_str _ ++ _ = write_optional_str _ ++ _ |- _ =>
    apply write_optional_str_inj in H as [? H]; [|assumption|assumption]
  | H : write_optional_u32 _ ++ _ = write_optional_u32 _ ++ _ |- _ =>
    apply write_optional_u32_inj in H as [? H]; [|assumption|assumption]
  end.

(** The same packet but for the signature. *)
Definition same_signed (p q : Packet) : Prop := with_signature p [] = with_signature q [].

Lemma preimage_inj p q : within_caps p -> within_caps q -> preimage p = preimage q -> same_signed p q.
Proof.
  intros (P1 & P2 & P3 & P4 & P5 & P6 & P7 & P8 & P9 & P10 & P11) (Q1 & Q2 & Q3 & Q4 & Q5 & Q6 & Q7 & Q8 & Q9 & Q10 & Q11) H.
  unfold preimage in H. do 5 peel. apply write_field_inj in H as [Hb H]; [|unfold short, Cbor.len; cbn [length]; lia..].
  do 4 peel. rewrite <- (app_nil_r (write_field (payload p))), <- (app_nil_r (write_field (payload q))) in H.
  apply write_field_inj in H as [H _]; [|unfold short, Cbor.len, PAYLOAD_CAP in *; lia..].
  unfold same_signed, with_signature. f_equal; try done. injection Hb. by destruct (emergency p), (emergency q).
Qed.

Definition authority_within_caps (a : RelayAuthority) : Prop :=
  fits 8 (relay_authority_version a) /\ fits STRING_CAP (relay a) /\ fits STRING_CAP (trust_domain a) /\
  (length (kinds a) <= KINDS_CAP)%nat /\ Forall (fits 32) (kinds a) /\
  (forall n, max_hop_count a = Some n -> 0 <= n < 2 ^ 32) /\ (forall n, rate_limit_per_minute a = Some n -> 0 <= n < 2 ^ 32) /\
  fits STRING_CAP (valid_from a) /\ (forall e, valid_until a = Some e -> fits STRING_CAP e) /\ fits STRING_CAP (issuer a).
Definition same_authority (a b : RelayAuthority) : Prop := forall s,
  mk_RelayAuthority (relay_authority_version a) (relay a) (trust_domain a) (kinds a) (max_hop_count a)
    (rate_limit_per_minute a) (valid_from a) (valid_until a) (issuer a) s =
  mk_RelayAuthority (relay_authority_version b) (relay b) (trust_domain b) (kinds b) (max_hop_count b)
    (rate_limit_per_minute b) (valid_from b) (valid_until b) (issuer b) s.

Lemma authority_preimage_inj a b : authority_within_caps a -> authority_within_caps b ->
  authority_preimage a = authority_preimage b -> same_authority a b.
Proof.
  intros (A1 & A2 & A3 & A4 & A5 & A6 & A7 & A8 & A9 & A10) (B1 & B2 & B3 & B4 & B5 & B6 & B7 & B8 & B9 & B10) H.
  unfold authority_preimage in H. do 3 peel.
  apply be4_inj in H as [Hk H]; [|unfold Cbor.len, KINDS_CAP in *; lia..].
  apply (write_strs_inj 32) in H as [? H]; [|lia|done|done|unfold Cbor.len in Hk; lia].
  do 4 peel. rewrite <- (app_nil_r (write_str (issuer a))), <- (app_nil_r (write_str (issuer b))) in H. peel.
  intros s. f_equal; done.
Qed.

(** ** Verification *)

(** A 64-byte signature over [digest] that verifies under [public_key]. *)
Definition signed_by (x : compact) (public_key digest sig_bytes : list Z) : Prop :=
  length sig_bytes = 64%nat /\ exists sig pk, Signature_from_slice x sig_bytes = Some sig /\
    PublicKey_from_slice x public_key = Some pk /\ pk_verify x pk digest sig = true.

(** [pk] is the public key of the seed [sk]. *)
Definition compact_laws (x : compact) (sk pk : list Z) : Prop :=
  exists key, PublicKey_from_slice x pk = Some key /\ forall d, length (sk_sign x sk d) = 64%nat /\
    exists s, Signature_from_slice x (sk_sign x sk d) = Some s /\ pk_verify x key d s = true.

Lemma compact_signs x sk pk d : compact_laws x sk pk -> signed_by x pk d (sk_sign x sk d).
Proof. intros (key & Hk & Hs). destruct (Hs d) as (Hl & s & H1 & H2). split; [done|]. by exists s, key. Qed.

Lemma nostd_fields_ok p now : check_fields p now = Ok tt <->
  packet_version p = "1" /\ signer p = source p /\ (priority p = "P0" -> emergency p = true) /\
  (forall e, expires_at p = Some e -> str_le now e = true).
Proof.
  unfold check_fields. split.
  - destruct (String.eqb_spec (packet_version p) "1"); [|discriminate]. destruct (String.eqb_spec (signer p) (source p)); [|discriminate].
    cbn [negb]. destruct (_ && _) eqn:Ep; [discriminate|]. intros E. do 2 (split; [done|]). split.
    + intros Hp. rewrite Hp in Ep. by destruct (emergency p).
    + intros ex Hx. rewrite Hx in E. rewrite str_le_lt. by destruct (str_lt ex now).
  - intros (-> & -> & Hp & He). rewrite !String.eqb_refl. cbn [negb].
    assert ((priority p =? "P0")%string && negb (emergency p) = false) as ->.
    { destruct (String.eqb_spec (priority p) "P0"); [|done]. by rewrite Hp. }
    destruct (expires_at p) as [ex|]; [|done]. specialize (He ex eq_refl). rewrite str_le_lt in He. by destruct (str_lt ex now).
Qed.

(** An embedded receiver accepts exactly the packets of version 1 signed
    by their source, P0 only as emergency, not expired, with a 64-byte
    signature that verifies over the length-prefixed fields. *)
Theorem nostd_verify_packet_iff x p pk now : verify_packet x p pk now = Ok tt <->
  packet_version p = "1" /\ signer p = source p /\ (priority p = "P0" -> emergency p = true) /\
  (forall e, expires_at p = Some e -> str_le now e = true) /\ signed_by x pk (packet_signing_bytes x p) (signature p).
Proof.
  unfold verify_packet, signed_by. split.
  - intros E. apply bind_ok in E as ([] & Ef & E). apply nostd_fields_ok in Ef as (H1 & H2 & H3 & H4).
    apply bind_ok in E as ([] & El & E). apply bind_ok in E as (sig & Es%ok_or_ok & E). apply bind_ok in E as (key & Ek%ok_or_ok & E).
    destruct (Nat.eqb_spec (length (signature p)) 64) as [Hl|]; [|discriminate]. destruct (pk_verify x key _ sig) eqn:Ev; [|discriminate].
    eauto 15.
  - intros (H1 & H2 & H3 & H4 & Hl & sig & key & Hs & Hk & Hv).
    rewrite (proj2 (nostd_fields_ok p now)) by auto. cbn [mbind result_bind]. rewrite Hl. cbn [Nat.eqb mbind result_bind].
    rewrite Hs. cbn [ok_or mbind result_bind]. rewrite Hk. cbn [ok_or mbind result_bind]. by rewrite Hv.
Qed.

(** What an embedded device signs determines what is signed.  Two packets
    within the buffer capacities with the same signing digest agree on every
    field but the signature, or their preimages are a SHA-256 collision; the
    same holds of relay authorities. *)
Theorem nostd_signature_unambiguous x :
  (forall p q, within_caps p -> within_caps q -> packet_signing_bytes x p = packet_signing_bytes x q ->
     same_signed p q \/ (preimage p <> preimage q /\ sha256 x (preimage p) = sha256 x (preimage q))) /\
  (forall a b, authority_within_caps a -> authority_within_caps b ->
     relay_authority_signing_bytes x a = relay_authority_signing_bytes x b ->
     same_authority a b \/ (authority_preimage a <> authority_preimage b /\
       sha256 x (authority_preimage a) = sha256 x (authority_preimage b))).
Proof.
  split.
  - intros p q Hp Hq H. destruct (decide (preimage p = preimage q)) as [E|E]; [left; by apply preimage_inj|by right].
  - intros a b Ha Hb H. destruct (decide (authority_preimage a = authority_preimage b)) as [E|E];
      [left; by apply authority_preimage_inj|by right].
Qed.

Lemma hstring_ok n s t : hstring n s = Ok t <-> t = s /\ fits n s.
Proof.
  unfold hstring, fits. destruct (Nat.leb_spec (String.length s) n) as [H|H]; split.
  - intros <-%Ok_inj. done.
  - by intros [-> _].
  - discriminate.
  - intros [_ H']. lia.
Qed.

(** The packet that signing produces. *)
Definition signed_packet (x : compact) (payload sk : list Z) (who id_ src dst prio : string) (exp : option string) : Packet :=
  let draft := mk_Packet "1" id_ src dst prio false "" exp who "ed25519" payload [] in
  with_signature draft (sk_sign x sk (packet_signing_bytes x draft)).

Lemma sign_packet_ok x payload sk who id_ src dst prio exp p :
  sign_packet x payload sk who id_ src dst prio exp = Ok p <->
  prio <> "P0" /\ (length payload <= PAYLOAD_CAP)%nat /\ fits STRING_CAP id_ /\ fits STRING_CAP src /\ fits STRING_CAP dst /\
  fits 8 prio /\ (forall e, exp = Some e -> fits STRING_CAP e) /\ fits STRING_CAP who /\
  p = signed_packet x payload sk who id_ src dst prio exp.
Proof.
  unfold sign_packet. split.
  - destruct (String.eqb_spec prio "P0"); [discriminate|]. intros E.
    apply bind_ok in E as ([] & E0 & E). destruct (Nat.leb_spec (length payload) PAYLOAD_CAP); [|discriminate].
    apply bind_ok in E as (v & [-> _]%hstring_ok & E). apply bind_ok in E as (i & [-> Hi]%hstring_ok & E).
    apply bind_ok in E as (s & [-> Hs]%hstring_ok & E). apply bind_ok in E as (d & [-> Hd]%hstring_ok & E).
    apply bind_ok in E as (pr & [-> Hp]%hstring_ok & E). apply bind_ok in E as (ex & Ex & E).
    apply bind_ok in E as (w & [-> Hw]%hstring_ok & E). apply bind_ok in E as (al & [-> _]%hstring_ok & E). apply Ok_inj in E.
    assert (ex = exp /\ forall e, exp = Some e -> fits STRING_CAP e) as [-> He].
    { destruct exp as [e|]; [|apply Ok_inj in Ex; split; [done|discriminate]].
      apply bind_ok in Ex as (e' & [-> He]%hstring_ok & <-%Ok_inj). split; [done|by intros ? [= <-]]. }
    auto 15.
  - intros (H1 & H2 & H3 & H4 & H5 & H6 & H7 & H8 & ->). destruct (String.eqb_spec prio "P0"); [done|].
    destruct (Nat.leb_spec (length payload) PAYLOAD_CAP); [|lia]. cbn [mbind result_bind].
    assert (forall n s, fits n s -> hstring n s = Ok s) as Hh by (intros n' s Hf; by apply hstring_ok).
    rewrite (Hh 8%nat "1"), (Hh 16%nat "ed25519"), !Hh by (done || (unfold fits; cbn; lia)). cbn [mbind result_bind].
    destruct exp as [e|]; [rewrite (Hh _ e) by (by apply H7)|]; reflexivity.
Qed.

(** C32: Signing respects the buffers.  A packet is signed exactly when it is
    not P0 and its payload and every field fit their capacity; the result is
    within the capacities, and the matching key accepts it if it is signed
    as its source and has not expired. *)
Theorem nostd_sign_packet_exact x payload sk pk who id_ src dst prio exp (Hl : compact_laws x sk pk) :
  ((exists p, sign_packet x payload sk who id_ src dst prio exp = Ok p) <->
    prio <> "P0" /\ (length payload <= PAYLOAD_CAP)%nat /\ fits STRING_CAP id_ /\ fits STRING_CAP src /\
    fits STRING_CAP dst /\ fits 8 prio /\ (forall e, exp = Some e -> fits STRING_CAP e) /\ fits STRING_CAP who) /\
  forall p, sign_packet x payload sk who id_ src dst prio exp = Ok p -> within_caps p /\
    forall now, who = src -> (forall e, exp = Some e -> str_le now e = true) -> verify_packet x p pk now = Ok tt.
Proof.
  split; [split|].
  - intros [p (H1 & H2 & H3 & H4 & H5 & H6 & H7 & H8 & _)%sign_packet_ok]. done.
  - intros (H1 & H2 & H3 & H4 & H5 & H6 & H7 & H8). eexists. by apply sign_packet_ok.
  - intros p (H1 & H2 & H3 & H4 & H5 & H6 & H7 & H8 & ->)%sign_packet_ok. split.
    + unfold within_caps. cbn. destruct Hl as (key & _ & Hs).
      repeat split; try done; try (unfold fits, STRING_CAP; cbn; lia). rewrite (proj1 (Hs _)). unfold SIGNATURE_CAP. lia.
    + intros now Hsrc Hexp. unfold verify_packet. rewrite (proj2 (nostd_fields_ok _ now)) by (cbn; by repeat split).
      cbn [mbind result_bind]. destruct Hl as (key & Hk & Hs).
      destruct (Hs (packet_signing_bytes x (mk_Packet "1" id_ src dst prio false "" exp who "ed25519" payload []))) as (Hlen & s & Hs1 & Hs2).
      unfold signed_packet. cbn [signature with_signature]. rewrite Hlen. cbn [Nat.eqb mbind result_bind].
      rewrite Hs1. cbn [ok_or mbind result_bind]. rewrite Hk. cbn [ok_or mbind result_bind].
      change (packet_signing_bytes x (with_signature ?d ?s)) with (packet_signing_bytes x d). by rewrite Hs2.
Qed.

(** ** Witness *)

Definition pad64 (bs : list Z) : list Z := take 64 (bs ++ replicate 64 0).
Definition toy : compact :=
  mk_compact (take 32) (list Z) (list Z) Some Some (fun pk d s => bool_decide (s = pad64 (pk ++ d))) (fun sk d => pad64 (sk ++ d)).
Lemma toy_compact sk : compact_laws toy sk sk.
Proof.
  exists sk. split; [done|]. intros d. split; [cbn; unfold pad64; rewrite length_take, length_app, length_replicate; lia|].
  eexists. split; [reflexivity|]. by apply bool_decide_eq_true.
Qed.

Lemma nostd_sign_packet_exact_witness : exists p,
  sign_packet toy [1; 2] [7] "a" "id" "a" "b" "P3" (Some "2027") = Ok p /\ within_caps p /\ verify_packet toy p [7] "2026" = Ok tt.
Proof.
  destruct (nostd_sign_packet_exact toy [1; 2] [7] [7] "a" "id" "a" "b" "P3" (Some "2027") (toy_compact [7])) as [_ H].
  eexists. split; [reflexivity|]. destruct (H _ eq_refl) as [Hw Hv]. split; [exact Hw|].
  apply Hv; [reflexivity|]. by intros e [= <-].
Defined.

End NoStdPacket.
