(* ===== verification/Boot.v ===== *)
(** * Boot: the verify-then-boot loader
      ([embedded/tf-bootloader-example/src/lib.rs], [main.rs])

    The application slot is a list of bytes; [usize] has [w] bits, 32 on the
    targets of the loader.  Sums of [usize] wrap, as in a release build.  The
    crates [ed25519-compact] and [sha2] are [NoStdPacket.compact].  Booting
    gives what the processor is started with: where the vector table is, the
    stack pointer and the reset address.

    - [boot_accepts_iff]: which slots are accepted, at every width from 32 bits;
    - [boot_runs_signed_image]: a signed image in a larger slot is accepted and
      started at its own vectors;
    - [boot_reads_signature]: an image shorter than its two vectors is started at
      an address read from the signature. *)

From S2P Require Import Prelude NoStdPacket.

#[local] Open Scope list_scope.
#[local] Open Scope Z_scope.

Module Boot.

Definition BUNDLE_MAGIC : list Z := [84; 70; 66; 49].
Definition HEADER_LEN : Z := 16.
Definition SIGNATURE_LEN : Z := 64.
Inductive BootVerifyError := BadMagic | HeaderTooShort | SlotOverflow | LengthMismatch | BadSignature | BadKey | BadSignatureFormat.

Definition len (bs : list Z) : Z := Z.of_nat (length bs).
(** [u32::from_le_bytes] of the four bytes from [i]. *)
Definition u32_at (i : nat) (slot : list Z) : Z := of_be (rev (take 4 (drop i slot))).
(** [u32::to_le_bytes]. *)
Definition u32_le (n : Z) : list Z := rev (be_bytes 4 n).

Section boot.
Variable x : NoStdPacket.compact.
Variable w : Z.

Definition usize_add (a b : Z) : Z := (a + b) mod 2 ^ w.

Definition verify_bundle (slot pinned_pubkey : list Z) : result BootVerifyError (Z * Z) :=
  if len slot <? HEADER_LEN + SIGNATURE_LEN then Err HeaderTooShort
  else if negb (bool_decide (take 4 slot = BUNDLE_MAGIC)) then Err BadMagic
  else
    let bundle_len := u32_at 4 slot in
    let image_len := u32_at 8 slot in
    if bundle_len <? HEADER_LEN + SIGNATURE_LEN then Err HeaderTooShort
    else if len slot <? bundle_len then Err SlotOverflow
    else if negb (usize_add (usize_add HEADER_LEN image_len) SIGNATURE_LEN =? bundle_len) then Err LengthMismatch
    else
      let end_ := usize_add HEADER_LEN image_len in
      let signed_bytes := take (Z.to_nat end_) slot in
      let sig_bytes := drop (Z.to_nat end_) (take (Z.to_nat bundle_len) slot) in
      let digest := NoStdPacket.sha256 x signed_bytes in
      pk ← ok_or (NoStdPacket.PublicKey_from_slice x pinned_pubkey) BadKey;
      sig ← ok_or (NoStdPacket.Signature_from_slice x sig_bytes) BadSignatureFormat;
      if NoStdPacket.pk_verify x pk digest sig then Ok (HEADER_LEN, image_len) else Err BadSignature.

(** What the processor is started with: the offset of the vector table in the
    slot, the stack pointer and the reset address; or the recovery loop. *)
Inductive boot_state := Recovery | Running (vtor : Z) (initial_sp reset : Z).
Definition jump_to_application (slot : list Z) (image_off : Z) : boot_state :=
  Running image_off (u32_at (Z.to_nat image_off) slot) (u32_at (Z.to_nat (image_off + 4)) slot).
Definition main (slot pinned_boot_key : list Z) : boot_state :=
  match verify_bundle slot pinned_boot_key with
  | Ok (image_off, _) => jump_to_application slot image_off
  | Err _ => Recovery
  end.

(** ** Layout *)

Definition header (image_len : Z) (reserved : list Z) : list Z :=
  BUNDLE_MAGIC ++ u32_le (HEADER_LEN + image_len + SIGNATURE_LEN) ++ u32_le image_len ++ reserved.
Definition verifies (key signed sig : list Z) : Prop :=
  exists pk s, NoStdPacket.PublicKey_from_slice x key = Some pk /\ NoStdPacket.Signature_from_slice x sig = Some s /\
  NoStdPacket.pk_verify x pk (NoStdPacket.sha256 x signed) s = true.
(** The slot holds a signed image, then anything. *)
Definition holds (key slot image : list Z) : Prop :=
  exists reserved sig rest, length reserved = 4%nat /\ length sig = 64%nat /\ HEADER_LEN + len image + SIGNATURE_LEN < 2 ^ 32 /\
  slot = header (len image) reserved ++ image ++ sig ++ rest /\ verifies key (header (len image) reserved ++ image) sig.

Lemma length_u32_le n : length (u32_le n) = 4%nat.
Proof. unfold u32_le. by rewrite length_rev, length_be_bytes. Qed.
Lemma length_header n reserved : length reserved = 4%nat -> length (header n reserved) = 16%nat.
Proof. intros R. unfold header. by rewrite !length_app, !length_u32_le, R. Qed.
Lemma u32_at_le pre n post : 0 <= n < 2 ^ 32 -> u32_at (length pre) (pre ++ u32_le n ++ post) = n.
Proof.
  intros R. unfold u32_at. rewrite drop_app_length, take_app_length' by (by rewrite length_u32_le). unfold u32_le. rewrite rev_involutive.
  by apply of_be_bytes_small.
Qed.
Lemma u32_le_at bs : is_bytes bs -> length bs = 4%nat -> u32_le (of_be (rev bs)) = bs.
Proof.
  intros B L. unfold u32_le. pose proof (be_bytes_of_be (rev bs)) as E. rewrite length_rev, L in E. rewrite E; [apply rev_involutive|].
  apply Forall_rev in B. exact B.
Qed.
Lemma u32_at_range i slot : is_bytes slot -> 0 <= u32_at i slot < 2 ^ 32.
Proof.
  intros B. unfold u32_at. assert (is_bytes (rev (take 4 (drop i slot)))) as B' by (apply Forall_rev, Forall_take, Forall_drop, B).
  pose proof (of_be_bound _ B') as R. rewrite length_rev, length_take in R.
  assert (256 ^ Z.of_nat (4 `min` length (drop i slot)) <= 256 ^ 4) by (apply Z.pow_le_mono_r; lia). lia.
Qed.

(** ** Arithmetic at the width of [usize] *)

(** The check of the two lengths accepts only the true sum, although the sum
    itself can wrap at 32 bits. *)
Lemma lengths_checked n b : 32 <= w -> 0 <= n < 2 ^ 32 -> HEADER_LEN + SIGNATURE_LEN <= b < 2 ^ 32 ->
  usize_add (usize_add HEADER_LEN n) SIGNATURE_LEN = b <-> HEADER_LEN + n + SIGNATURE_LEN = b.
Proof.
  intros W N B. unfold usize_add, HEADER_LEN, SIGNATURE_LEN in *. assert (2 ^ 32 <= 2 ^ w) by (apply Z.pow_le_mono_r; lia).
  rewrite Zplus_mod_idemp_l. split; [|intros <-; by rewrite Z.mod_small by lia].
  destruct (decide (16 + n + 64 < 2 ^ w)); [by rewrite Z.mod_small by lia|]. intros E.
  rewrite <-(Z.mod_unique (16 + n + 64) (2 ^ w) 1 (16 + n + 64 - 2 ^ w)) in E by lia. lia.
Qed.
Lemma image_end n b : 32 <= w -> 0 <= n -> HEADER_LEN + n + SIGNATURE_LEN = b -> b < 2 ^ 32 -> usize_add HEADER_LEN n = 16 + n.
Proof. unfold usize_add, HEADER_LEN, SIGNATURE_LEN. intros W N E B. assert (2 ^ 32 <= 2 ^ w) by (apply Z.pow_le_mono_r; lia). apply Z.mod_small. lia. Qed.

(** ** Which slots are accepted *)

Lemma slot_split (slot : list Z) n : (80 + n <= length slot)%nat ->
  slot = (take 4 slot ++ take 4 (drop 4 slot) ++ take 4 (drop 8 slot) ++ take 4 (drop 12 slot)) ++
    take n (drop 16 slot) ++ take 64 (drop (16 + n) slot) ++ drop (80 + n) slot.
Proof.
  intros L. rewrite <-!(assoc_L (++)). rewrite <-(take_drop 4 slot) at 1. f_equal.
  assert (forall a i, drop i slot = take a (drop i slot) ++ drop (i + a) slot) as S by (intros; by rewrite <-drop_drop, take_drop).
  etransitivity; [apply (S 4%nat 4%nat)|]. f_equal. etransitivity; [apply (S 4%nat 8%nat)|]. f_equal. etransitivity; [apply (S 4%nat 12%nat)|]. f_equal.
  etransitivity; [apply (S n 16%nat)|]. f_equal. replace (80 + n)%nat with (16 + n + 64)%nat by lia. apply S.
Qed.
Lemma slot_signed (slot : list Z) n : (80 + n <= length slot)%nat ->
  take (16 + n) slot = (take 4 slot ++ take 4 (drop 4 slot) ++ take 4 (drop 8 slot) ++ take 4 (drop 12 slot)) ++ take n (drop 16 slot).
Proof.
  intros L. rewrite (slot_split slot n L) at 1. rewrite (assoc_L (++)). rewrite take_app_length'; [done|].
  rewrite !length_app, !length_take, !length_drop. lia.
Qed.
Lemma sig_of_slot (slot : list Z) n : (80 + n <= length slot)%nat -> drop (16 + n) (take (80 + n) slot) = take 64 (drop (16 + n) slot).
Proof. intros L. replace (80 + n)%nat with (16 + n + 64)%nat by lia. by rewrite <-take_drop_commute. Qed.

(** The three checks on the lengths, as facts on the slot. *)
Definition measured (slot : list Z) (n : nat) : Prop :=
  (80 + n <= length slot)%nat /\ take 4 slot = BUNDLE_MAGIC /\ u32_at 4 slot = HEADER_LEN + Z.of_nat n + SIGNATURE_LEN /\ u32_at 8 slot = Z.of_nat n.
Lemma verify_measured slot key off n : 32 <= w -> is_bytes slot -> verify_bundle slot key = Ok (off, n) <->
  off = HEADER_LEN /\ exists k, n = Z.of_nat k /\ measured slot k /\ verifies key (take (16 + k) slot) (take 64 (drop (16 + k) slot)).
Proof.
  intros W B. pose proof (u32_at_range 4 slot B) as R4. pose proof (u32_at_range 8 slot B) as R8. unfold verify_bundle, verifies. split.
  - destruct (Z.ltb_spec (len slot) (HEADER_LEN + SIGNATURE_LEN)); [done|]. case_bool_decide as M; [|done]. cbn [negb].
    destruct (Z.ltb_spec (u32_at 4 slot) (HEADER_LEN + SIGNATURE_LEN)); [done|]. destruct (Z.ltb_spec (len slot) (u32_at 4 slot)); [done|].
    destruct (Z.eqb_spec (usize_add (usize_add HEADER_LEN (u32_at 8 slot)) SIGNATURE_LEN) (u32_at 4 slot)) as [E|]; [|done]. cbn [negb].
    apply lengths_checked in E; [|lia..]. rewrite (image_end _ (u32_at 4 slot)) by (done || lia).
    destruct (NoStdPacket.PublicKey_from_slice x key) as [pk|]; [|done]. cbn [ok_or mbind result_bind].
    destruct (NoStdPacket.Signature_from_slice x _) as [s|] eqn:S; [|done]. cbn [ok_or mbind result_bind].
    destruct (NoStdPacket.pk_verify x pk _ s) eqn:V; [|done]. intros [= <- <-]. split; [done|]. exists (Z.to_nat (u32_at 8 slot)).
    unfold measured, len, HEADER_LEN, SIGNATURE_LEN in *. replace (Z.to_nat (16 + u32_at 8 slot)) with (16 + Z.to_nat (u32_at 8 slot))%nat in * by lia.
    replace (Z.to_nat (u32_at 4 slot)) with (80 + Z.to_nat (u32_at 8 slot))%nat in S by lia. rewrite sig_of_slot in S by lia.
    split; [lia|]. split; [split_and!; [lia|done|lia..]|]. by exists pk, s.
  - intros (-> & k & -> & (L & M & E4 & E8) & pk & s & -> & S & V). unfold len, HEADER_LEN, SIGNATURE_LEN in *.
    rewrite bool_decide_eq_true_2 by done. rewrite (proj2 (Z.ltb_ge _ _)) by lia. cbn [negb].
    rewrite (proj2 (Z.ltb_ge (u32_at 4 slot) _)) by lia. rewrite (proj2 (Z.ltb_ge _ (u32_at 4 slot))) by lia.
    rewrite (proj2 (Z.eqb_eq _ _)) by (apply lengths_checked; unfold HEADER_LEN, SIGNATURE_LEN; lia). cbn [negb].
    rewrite (image_end _ (u32_at 4 slot)) by (unfold HEADER_LEN, SIGNATURE_LEN; lia). rewrite E8, E4.
    replace (Z.to_nat (16 + Z.of_nat k)) with (16 + k)%nat by lia. replace (Z.to_nat (16 + Z.of_nat k + 64)) with (80 + k)%nat by lia.
    rewrite sig_of_slot by lia. cbn [ok_or mbind result_bind]. rewrite S. cbn [ok_or mbind result_bind]. by rewrite V.
Qed.
Lemma holds_measured key slot k : is_bytes slot -> measured slot k -> verifies key (take (16 + k) slot) (take 64 (drop (16 + k) slot)) ->
  holds key slot (take k (drop 16 slot)) /\ length (take k (drop 16 slot)) = k.
Proof.
  intros B (L & M & E4 & E8) V. assert (length (take k (drop 16 slot)) = k) as LI by (rewrite length_take, length_drop; lia). split; [|done].
  assert (forall i, (i + 4 <= length slot)%nat -> u32_le (u32_at i slot) = take 4 (drop i slot)) as U.
  { intros i I. apply u32_le_at; [by apply Forall_take, Forall_drop|]. rewrite length_take, length_drop. lia. }
  exists (take 4 (drop 12 slot)), (take 64 (drop (16 + k) slot)), (drop (80 + k) slot). unfold holds, header, len. rewrite LI, <-E4, <-E8, !U, <-M by lia.
  rewrite <-slot_signed by done. split; [rewrite length_take, length_drop; lia|]. split; [rewrite length_take, length_drop; lia|].
  split; [apply u32_at_range, B|]. split; [|done]. by apply slot_split.
Qed.
Lemma measured_holds key slot image : holds key slot image -> measured slot (length image) /\
  verifies key (take (16 + length image) slot) (take 64 (drop (16 + length image) slot)).
Proof.
  intros (reserved & sig & rest & R & S & N & -> & V). pose proof (length_header (len image) reserved R) as LH. set (h := header (len image) reserved) in *.
  assert (length (h ++ image) = (16 + length image)%nat) as LB by (rewrite length_app; lia).
  assert (take (16 + length image) (h ++ image ++ sig ++ rest) = h ++ image) as -> by (rewrite (assoc_L (++)); by apply take_app_length').
  assert (take 64 (drop (16 + length image) (h ++ image ++ sig ++ rest)) = sig) as -> by (rewrite (assoc_L (++)), drop_app_length' by done; by apply take_app_length').
  split; [|done]. unfold measured, len, HEADER_LEN, SIGNATURE_LEN in *. split; [rewrite !length_app; lia|].
  subst h. unfold header. rewrite <-!(assoc_L (++)). split; [done|]. split.
  - apply (u32_at_le BUNDLE_MAGIC). unfold HEADER_LEN, SIGNATURE_LEN. lia.
  - rewrite (assoc_L (++) BUNDLE_MAGIC). pose proof (u32_at_le (BUNDLE_MAGIC ++ u32_le (HEADER_LEN + len image + SIGNATURE_LEN)) (Z.of_nat (length image))) as U.
    rewrite length_app, length_u32_le in U. apply U. lia.
Qed.
(** C39: a slot is accepted exactly when it starts with a bundle: the magic, the
    two lengths as the image has them, four bytes of any value, the image and a
    signature by the pinned key over all before it.  What follows is ignored.
    The lengths are checked as [usize] sums, which wrap at 32 bits; no slot is
    accepted because they do. *)
Theorem boot_accepts_iff slot key off n : 32 <= w -> is_bytes slot ->
  verify_bundle slot key = Ok (off, n) <-> off = HEADER_LEN /\ exists image, n = len image /\ holds key slot image.
Proof.
  intros W B. rewrite verify_measured by done. split.
  - intros (-> & k & -> & M & V). split; [done|]. destruct (holds_measured key slot k B M V) as [H L]. eexists. split; [|exact H]. unfold len. by rewrite L.
  - intros (-> & image & -> & H). split; [done|]. exists (length image). split; [done|]. by apply measured_holds.
Qed.

(** ** What is started *)

Lemma main_holds slot key image : 32 <= w -> is_bytes slot -> holds key slot image ->
  main slot key = Running 16 (u32_at 16 slot) (u32_at 20 slot).
Proof.
  intros W B H. unfold main. rewrite (proj2 (verify_measured slot key HEADER_LEN (len image) W B)); [done|]. split; [done|]. exists (length image). split; [done|].
  by apply measured_holds.
Qed.
Lemma vectors_read (h rest : list Z) sp reset : length h = 16%nat -> 0 <= sp < 2 ^ 32 -> 0 <= reset < 2 ^ 32 ->
  u32_at 16 (h ++ u32_le sp ++ u32_le reset ++ rest) = sp /\ u32_at 20 (h ++ u32_le sp ++ u32_le reset ++ rest) = reset.
Proof.
  intros L S R. split; [rewrite <-L; by apply u32_at_le|]. rewrite (assoc_L (++) h). pose proof (u32_at_le (h ++ u32_le sp) reset rest R) as U.
  by rewrite length_app, L, length_u32_le in U.
Qed.
(** an image that starts with its two vectors and is signed by the pinned key
    is started at them, whatever follows the bundle in the slot; nothing is
    started from a slot that holds no image signed by that key. *)
Theorem boot_runs_signed_image slot key : 32 <= w -> is_bytes slot ->
  (forall sp reset code, 0 <= sp < 2 ^ 32 -> 0 <= reset < 2 ^ 32 -> holds key slot (u32_le sp ++ u32_le reset ++ code) -> main slot key = Running 16 sp reset) /\
  (main slot key <> Recovery <-> exists image, holds key slot image).
Proof.
  intros W B. split; [|split].
  - intros sp reset code S R H. rewrite (main_holds slot key _ W B H). destruct H as (reserved & sig & rest & L & _ & _ & -> & _).
    rewrite <-!(assoc_L (++)). by destruct (vectors_read (header (len (u32_le sp ++ u32_le reset ++ code)) reserved) (code ++ sig ++ rest) sp reset (length_header _ _ L) S R) as [-> ->].
  - unfold main. destruct (verify_bundle slot key) as [[off n]|] eqn:E; [|done]. intros _. apply verify_measured in E as (_ & k & _ & M & V); [|done..].
    eexists. by apply (holds_measured key slot k B M V).
  - intros [image H]. by rewrite (main_holds slot key image W B H).
Qed.
(** An image without vectors is started all the same, with the stack pointer and
    the reset address read from the bytes of its signature: the length of the
    image is not compared with the vectors that are read from it. *)
Theorem boot_reads_signature key sig sp reset tail reserved rest : 32 <= w -> length reserved = 4%nat -> length sig = 64%nat ->
  0 <= sp < 2 ^ 32 -> 0 <= reset < 2 ^ 32 -> sig = u32_le sp ++ u32_le reset ++ tail -> is_bytes (header 0 reserved ++ sig ++ rest) -> verifies key (header 0 reserved) sig ->
  main (header 0 reserved ++ sig ++ rest) key = Running 16 sp reset.
Proof.
  intros W L LS S R E B V. rewrite (main_holds _ key [] W B).
  - rewrite E, <-!(assoc_L (++)). by destruct (vectors_read (header 0 reserved) (tail ++ rest) sp reset (length_header _ _ L) S R) as [-> ->].
  - exists reserved, sig, rest. rewrite app_nil_r. by split_and!.
Qed.
End boot.


(** ** Concrete bundles, on 32 bits *)

Definition signed_slot (image rest : list Z) : list Z :=
  let signed := header (len image) [0; 0; 0; 0] ++ image in signed ++ NoStdPacket.sk_sign NoStdPacket.toy [7] (NoStdPacket.sha256 NoStdPacket.toy signed) ++ rest.
Definition demo_image : list Z := u32_le 536887296 ++ u32_le 134283393 ++ [1; 2; 3].
Lemma demo_holds : holds NoStdPacket.toy [7] (signed_slot demo_image [255; 255]) demo_image.
Proof.
  set (sig := NoStdPacket.sk_sign NoStdPacket.toy [7] (NoStdPacket.sha256 NoStdPacket.toy (header (len demo_image) [0; 0; 0; 0] ++ demo_image))).
  exists [0; 0; 0; 0], sig, [255; 255]. do 4 (split; [reflexivity|]). by exists [7], sig.
Qed.
Lemma is_bytes_dec bs : forallb (fun b => (0 <=? b) && (b <? 256)) bs = true -> is_bytes bs.
Proof. intros H. apply Forall_forall. intros b I. apply list_elem_of_In in I. rewrite forallb_forall in H. specialize (H b I). unfold is_u8. lia. Qed.
Lemma boot_accepts_iff_witness : verify_bundle NoStdPacket.toy 32 (signed_slot demo_image [255; 255]) [7] = Ok (16, 11).
Proof.
  apply (boot_accepts_iff NoStdPacket.toy 32); [lia|by apply is_bytes_dec|]. split; [reflexivity|]. exists demo_image. split; [reflexivity|]. apply demo_holds.
Defined.
Lemma boot_runs_signed_image_witness : main NoStdPacket.toy 32 (signed_slot demo_image [255; 255]) [7] = Running 16 536887296 134283393.
Proof.
  apply (boot_runs_signed_image NoStdPacket.toy 32) with (code := [1; 2; 3]); [lia|by apply is_bytes_dec|lia..|]. apply demo_holds.
Defined.
(** A slot whose length fields wrap to the right sum modulo [2^32] cannot be made:
    the nearest claims are refused. *)
Example wrapped_length_refused :
  verify_bundle NoStdPacket.toy 32 (BUNDLE_MAGIC ++ u32_le 80 ++ u32_le (2 ^ 32 - 1) ++ replicate 100 0) [7] = Err LengthMismatch /\
  verify_bundle NoStdPacket.toy 32 (BUNDLE_MAGIC ++ u32_le 79 ++ u32_le (2 ^ 32 - 1) ++ replicate 100 0) [7] = Err HeaderTooShort.
Proof. by vm_compute. Qed.

(** The reset address of an empty image is its signature's. *)
Example empty_image_started : main NoStdPacket.toy 32 (signed_slot [] []) [7] = Running 16 (7 + 256 * (84 + 256 * (70 + 256 * 66))) (49 + 256 * 80).
Proof. by vm_compute. Qed.

End Boot.
