(* ===== verification/Receipts.v ===== *)
(** * Receipts: offline revocation lists, delivery receipts and proofs of
      forwarding ([constrained.rs])

    The documents a constrained deployment exchanges beside packets.  They
    are signed over their canonical text itself, without hashing it first. *)

From S2P Require Import Prelude Utf8 Json Base64 Cbor BinaryFormat Canonical Clock Common Crypto Packet Signed Chain.
Import Signed.

Module Receipts.
#[local] Open Scope string_scope.
#[local] Open Scope list_scope.
#[local] Open Scope Z_scope.

(** ** Data *)

Inductive RevokedEntry_Kind := Actor | Instance | Capability | Delegation | Key.
#[export] Instance RevokedEntry_Kind_eq_dec : EqDecision RevokedEntry_Kind.
Proof. solve_decision. Defined.
Definition revoked_entry_kind_str (k : RevokedEntry_Kind) : string :=
  match k with
  | Actor => "actor" | Instance => "instance" | Capability => "capability" | Delegation => "delegation" | Key => "key"
  end.

Record RevokedEntry := mk_RevokedEntry {
  kind : RevokedEntry_Kind; id : string; e_reason : option string; revoked_at : option string
}.
(** [list_version] has the single value 1. *)
Record OfflineRevocationList := mk_OfflineRevocationList {
  trust_domain : string;
  issued_at : string;
  valid_until : string;
  issuer : string;
  revoked : list RevokedEntry;
  l_signature : Common.SignatureEnvelope
}.
Inductive OrlError :=
| UnsupportedVersion | Expired (at_ : string) | FutureDated (at_ : string) | BadSignature | SignatureDecode (s : string)
| VerifyingKey (s : string) | Canonicalize (s : string).
Record OfflineRevocationListRuntime := mk_OfflineRevocationListRuntime {
  list_ : OfflineRevocationList; index : gmap string RevokedEntry
}.
Record OrlMetadata := mk_OrlMetadata { m_issuer : string; m_trust_domain : string; m_issued_at : string; m_valid_until : string }.

Record DeliveryReceipt := mk_DeliveryReceipt {
  receipt_version : string; packet_id : string; packet_hash : string; receiver : string; received_at : string;
  signature : SignatureEnvelope
}.
Record ProofOfForwarding := mk_ProofOfForwarding {
  proof_version : string; p_packet_id : string; p_packet_hash : string; relay : string; forwarded_at : string;
  hop_count : Z; p_signature : SignatureEnvelope
}.
Record VerifyResult := mk_VerifyResult { ok : bool; reason : option string }.
Definition reject (r : string) : VerifyResult := mk_VerifyResult false (Some r).
Definition as_result (m : result string unit) : VerifyResult :=
  match m with Ok _ => mk_VerifyResult true None | Err r => reject r end.

(** ** The documents as JSON *)

Definition entry_to_value (e : RevokedEntry) : json :=
  JObject (field "kind" (JString (revoked_entry_kind_str (kind e))) ++ field "id" (JString (id e)) ++
    opt_field "reason" (e_reason e) JString ++ opt_field "revoked_at" (revoked_at e) JString).
Definition list_fields (l : OfflineRevocationList) : list (string * json) :=
  field "list_version" (JString "1") ++ field "trust_domain" (JString (trust_domain l)) ++
  field "issued_at" (JString (issued_at l)) ++ field "valid_until" (JString (valid_until l)) ++
  field "issuer" (JString (issuer l)) ++ field "revoked" (JArray (entry_to_value <$> revoked l)).
Definition list_to_value (l : OfflineRevocationList) : json :=
  JObject (list_fields l ++ field "signature" (Chain.envelope_to_value (l_signature l))).
Definition receipt_fields (r : DeliveryReceipt) : list (string * json) :=
  field "receipt_version" (JString (receipt_version r)) ++ field "packet_id" (JString (packet_id r)) ++
  field "packet_hash" (JString (packet_hash r)) ++ field "receiver" (JString (receiver r)) ++
  field "received_at" (JString (received_at r)).
Definition receipt_to_value (r : DeliveryReceipt) : json :=
  JObject (receipt_fields r ++ field "signature" (envelope_to_value (signature r))).
Definition proof_fields (p : ProofOfForwarding) : list (string * json) :=
  field "proof_version" (JString (proof_version p)) ++ field "packet_id" (JString (p_packet_id p)) ++
  field "packet_hash" (JString (p_packet_hash p)) ++ field "relay" (JString (relay p)) ++
  field "forwarded_at" (JString (forwarded_at p)) ++ field "hop_count" (jint (hop_count p)).
Definition proof_to_value (p : ProofOfForwarding) : json :=
  JObject (proof_fields p ++ field "signature" (envelope_to_value (p_signature p))).

Section receipts.
Variable x : Packet.crypto.

(** The canonical text without the signature. *)
Definition signed_text (v : json) : result string string :=
  map_err (Packet.canonical_error_str x) (Packet.canon x (Packet.remove_signature v)).

(** ** Offline revocation lists *)

Definition verify_offline_revocation_list_signature (l : OfflineRevocationList) (public_key : list Z) :
    result OrlError bool :=
  canonical ← map_err Canonicalize (signed_text (list_to_value l));
  sig_bytes ← map_err SignatureDecode (Packet.b64_decode (Common.signature (l_signature l)));
  match Packet.Signature_from_slice x sig_bytes with
  | Err _ => Ok false
  | Ok sig =>
    vk ← map_err VerifyingKey (Packet.VerifyingKey_from_bytes x public_key);
    Ok (Packet.verify x vk (bytes_of_str canonical) sig)
  end.

Definition with_list_signature (l : OfflineRevocationList) (text : string) : OfflineRevocationList :=
  mk_OfflineRevocationList (trust_domain l) (issued_at l) (valid_until l) (issuer l) (revoked l)
    (Common.mk_SignatureEnvelope (Common.algorithm (l_signature l)) (Common.signer (l_signature l)) text None None None).
Definition sign_offline_revocation_list (l : OfflineRevocationList) (private_key : list Z) :
    result OrlError OfflineRevocationList :=
  canonical ← map_err Canonicalize (signed_text (list_to_value (with_list_signature l "")));
  Ok (with_list_signature l (sign_digest x private_key (bytes_of_str canonical))).

Definition index_key (k : RevokedEntry_Kind) (id : string) : string := revoked_entry_kind_str k +:+ ":" +:+ id.
Definition index_of (entries : list RevokedEntry) : gmap string RevokedEntry :=
  foldl (fun m e => <[index_key (kind e) (id e) := e]> m) ∅ entries.

Definition load (l : OfflineRevocationList) (issuer_public_key : list Z) (now : string) :
    result OrlError OfflineRevocationListRuntime :=
  if str_lt (valid_until l) now then Err (Expired (valid_until l))
  else if str_lt now (issued_at l) then Err (FutureDated (issued_at l))
  else
    valid ← verify_offline_revocation_list_signature l issuer_public_key;
    if negb valid then Err BadSignature else Ok (mk_OfflineRevocationListRuntime l (index_of (revoked l))).
Definition is_revoked (r : OfflineRevocationListRuntime) (k : RevokedEntry_Kind) (id : string) : option RevokedEntry :=
  index r !! index_key k id.
Definition metadata (r : OfflineRevocationListRuntime) : OrlMetadata :=
  mk_OrlMetadata (issuer (list_ r)) (trust_domain (list_ r)) (issued_at (list_ r)) (valid_until (list_ r)).

(** ** Receipts and proofs *)

Definition sha256_hashref (bytes : list Z) : string := "sha256:" +:+ hex (Packet.sha256 x bytes).

(** The hash of a packet, signature included. *)
Definition packet_hash_of (p : Packet.Packet) : result string string :=
  canonical ← map_err (Packet.canonical_error_str x) (Packet.canon x (Packet.packet_to_value p));
  Ok (sha256_hashref (bytes_of_str canonical)).

Definition sign_delivery_receipt (p : Packet.Packet) (receiver received_at : string) (private_key : list Z) :
    result OrlError DeliveryReceipt :=
  packet_hash ← map_err Canonicalize (packet_hash_of p);
  let draft t := mk_DeliveryReceipt "1" (Packet.packet_id p) packet_hash receiver received_at
                   (mk_SignatureEnvelope "ed25519" receiver t) in
  canonical ← map_err Canonicalize (signed_text (receipt_to_value (draft "")));
  Ok (draft (sign_digest x private_key (bytes_of_str canonical))).

Definition sign_proof_of_forwarding (p : Packet.Packet) (relay forwarded_at : string) (hop_count : Z) (private_key : list Z) :
    result OrlError ProofOfForwarding :=
  packet_hash ← map_err Canonicalize (packet_hash_of p);
  let draft t := mk_ProofOfForwarding "1" (Packet.packet_id p) packet_hash relay forwarded_at hop_count
                   (mk_SignatureEnvelope "ed25519" relay t) in
  canonical ← map_err Canonicalize (signed_text (proof_to_value (draft "")));
  Ok (draft (sign_digest x private_key (bytes_of_str canonical))).

(** The checks of a receipt or a proof, which differ in their texts. *)
Definition check_receipt (version_label signer_text failure version id_ hash who : string) (env : SignatureEnvelope)
    (value : json) (p : Packet.Packet) (public_key : list Z) : result string unit :=
  if negb (version =? "1")%string then Err (version_label +:+ version +:+ " unsupported")
  else if negb (id_ =? Packet.packet_id p)%string then Err "packet_id mismatch"
  else
    expected ← map_err (fun e => "canonicalize: " +:+ e) (packet_hash_of p);
    if negb (expected =? hash)%string then Err "packet_hash mismatch"
    else if negb (signer env =? who)%string then Err signer_text
    else
      canonical ← map_err (fun e => "canonicalize: " +:+ e) (signed_text value);
      check_digest x "signature base64: " "signature parse: " failure (bytes_of_str canonical) (sig_text env) public_key.
Definition verify_delivery_receipt (r : DeliveryReceipt) (p : Packet.Packet) (receiver_public_key : list Z) : VerifyResult :=
  as_result (check_receipt "receipt_version " "receipt signer != receiver" "receipt signature did not verify"
    (receipt_version r) (packet_id r) (packet_hash r) (receiver r) (signature r) (receipt_to_value r) p receiver_public_key).
Definition verify_proof_of_forwarding (f : ProofOfForwarding) (p : Packet.Packet) (relay_public_key : list Z) : VerifyResult :=
  as_result (check_receipt "proof_version " "proof signer != relay" "forwarding signature did not verify"
    (proof_version f) (p_packet_id f) (p_packet_hash f) (relay f) (p_signature f) (proof_to_value f) p relay_public_key).
End receipts.

(** ** What verifies *)

(** The signature [text] verifies over the canonical text of [v]. *)
Definition text_signed (x : Packet.crypto) (v : json) (text : string) (pk : list Z) : Prop :=
  exists c, signed_text x v = Ok c /\ digest_signed x (bytes_of_str c) text pk.

Lemma check_receipt_ok x l1 l2 l3 version id_ hash who env v p pk :
  check_receipt x l1 l2 l3 version id_ hash who env v p pk = Ok tt <->
  version = "1" /\ id_ = Packet.packet_id p /\ packet_hash_of x p = Ok hash /\ signer env = who /\
  text_signed x v (sig_text env) pk.
Proof.
  unfold check_receipt. split.
  - destruct (String.eqb_spec version "1"); [|discriminate]. destruct (String.eqb_spec id_ (Packet.packet_id p)); [|discriminate].
    cbn [negb]. intros E. apply bind_ok in E as (h & Hh%map_err_ok & E). destruct (String.eqb_spec h hash) as [->|]; [|discriminate].
    destruct (String.eqb_spec (signer env) who); [|discriminate]. cbn [negb] in E.
    apply bind_ok in E as (c & Hc%map_err_ok & E). apply check_digest_ok in E. do 4 (split; [done|]). by exists c.
  - intros (-> & -> & Hh & -> & c & Hc & Hd). rewrite !String.eqb_refl. cbn [negb]. rewrite Hh. cbn [map_err mbind result_bind].
    rewrite String.eqb_refl. cbn [negb]. rewrite Hc. cbn [map_err mbind result_bind]. by apply check_digest_ok.
Qed.

Lemma as_result_ok m : ok (as_result m) = true <-> m = Ok tt.
Proof. destruct m as [[]|]; cbn; split; congruence. Qed.

(** A delivery receipt or proof of forwarding is accepted for a packet
    exactly when it is version 1, names the packet's id and the hash of its
    canonical text, is signed by the receiver or relay it names, and the
    signature verifies over its own canonical text. *)
Theorem receipts_accepted_iff x p pk :
  (forall r, ok (verify_delivery_receipt x r p pk) = true <->
     receipt_version r = "1" /\ packet_id r = Packet.packet_id p /\ packet_hash_of x p = Ok (packet_hash r) /\
     signer (signature r) = receiver r /\ text_signed x (receipt_to_value r) (sig_text (signature r)) pk) /\
  (forall f, ok (verify_proof_of_forwarding x f p pk) = true <->
     proof_version f = "1" /\ p_packet_id f = Packet.packet_id p /\ packet_hash_of x p = Ok (p_packet_hash f) /\
     signer (p_signature f) = relay f /\ text_signed x (proof_to_value f) (sig_text (p_signature f)) pk).
Proof. split; intros d; unfold verify_delivery_receipt, verify_proof_of_forwarding; rewrite as_result_ok; apply check_receipt_ok. Qed.

(** The texts of receipts do not depend on their signature. *)
Lemma receipt_text x v i h w a s s' :
  signed_text x (receipt_to_value (mk_DeliveryReceipt v i h w a s)) = signed_text x (receipt_to_value (mk_DeliveryReceipt v i h w a s')).
Proof.
  unfold signed_text, receipt_to_value. by rewrite !strip_signature by (unfold receipt_fields, field; repeat constructor; done).
Qed.
Lemma proof_text x v i h w a n s s' :
  signed_text x (proof_to_value (mk_ProofOfForwarding v i h w a n s)) = signed_text x (proof_to_value (mk_ProofOfForwarding v i h w a n s')).
Proof.
  unfold signed_text, proof_to_value. by rewrite !strip_signature by (unfold proof_fields, field; repeat constructor; done).
Qed.

(** Receipts are binding.  The receipt and the proof that a party signs
    for a packet verify for that packet under its key.  A receipt accepted
    for two packets was accepted for packets with the same canonical text,
    or their texts are a SHA-256 collision. *)
Theorem receipts_bind_packet x p q sk pk (Hsha : Chain.sha256_law x) (Hl : Packet.crypto_laws x sk pk) :
  (forall who at_ r, sign_delivery_receipt x p who at_ sk = Ok r -> ok (verify_delivery_receipt x r p pk) = true) /\
  (forall who at_ hops f, sign_proof_of_forwarding x p who at_ hops sk = Ok f -> ok (verify_proof_of_forwarding x f p pk) = true) /\
  (forall r pk1 pk2, ok (verify_delivery_receipt x r p pk1) = true -> ok (verify_delivery_receipt x r q pk2) = true ->
     exists t u, Packet.canon x (Packet.packet_to_value p) = Ok t /\ Packet.canon x (Packet.packet_to_value q) = Ok u /\
       (t = u \/ (t <> u /\ Packet.sha256 x (bytes_of_str t) = Packet.sha256 x (bytes_of_str u)))).
Proof.
  split; [|split].
  - intros who at_ r E. unfold sign_delivery_receipt in E. apply bind_ok in E as (h & Hh%map_err_ok & E).
    apply bind_ok in E as (c & Hc%map_err_ok & <-%Ok_inj). unfold verify_delivery_receipt. apply as_result_ok, check_receipt_ok.
    do 4 (split; [done|]). exists c. split; [|by apply sign_digest_checks]. rewrite <- Hc. apply receipt_text.
  - intros who at_ hops f E. unfold sign_proof_of_forwarding in E. apply bind_ok in E as (h & Hh%map_err_ok & E).
    apply bind_ok in E as (c & Hc%map_err_ok & <-%Ok_inj). unfold verify_proof_of_forwarding. apply as_result_ok, check_receipt_ok.
    do 4 (split; [done|]). exists c. split; [|by apply sign_digest_checks]. rewrite <- Hc. apply proof_text.
  - intros r pk1 pk2 H1 H2. apply as_result_ok, check_receipt_ok in H1 as (_ & _ & H1 & _).
    apply as_result_ok, check_receipt_ok in H2 as (_ & _ & H2 & _). unfold packet_hash_of in *.
    apply bind_ok in H1 as (t & Ht%map_err_ok & H1%Ok_inj). apply bind_ok in H2 as (u & Hu%map_err_ok & H2%Ok_inj).
    exists t, u. do 2 (split; [done|]). destruct (decide (t = u)); [by left|right]. split; [done|].
    apply Crypto.hash_text_inj; [apply Hsha..|]. unfold sha256_hashref in *. congruence.
Qed.

(** ** The revocation list *)

Lemma index_key_inj k k' i i' : index_key k i = index_key k' i' -> k = k' /\ i = i'.
Proof. unfold index_key. destruct k, k'; cbn; rewrite ?str_app_cons; intros E; try discriminate; by injection E. Qed.

Lemma index_of_snoc es e : index_of (es ++ [e]) = <[index_key (kind e) (id e) := e]> (index_of es).
Proof. unfold index_of. by rewrite foldl_app. Qed.

(** The entry found is the last one for the target. *)
Definition last_entry (es : list RevokedEntry) (k : RevokedEntry_Kind) (i : string) (e : RevokedEntry) : Prop :=
  exists pre post, es = pre ++ e :: post /\ kind e = k /\ id e = i /\ Forall (fun e' => ~ (kind e' = k /\ id e' = i)) post.

Lemma index_of_lookup es k i e : index_of es !! index_key k i = Some e <-> last_entry es k i e.
Proof.
  revert e. induction es as [|e' es IH] using rev_ind; intros e.
  - split; [unfold index_of; cbn; discriminate|]. intros (pre & post & E & _). by destruct pre.
  - rewrite index_of_snoc, lookup_insert_Some, IH. split.
    + intros [[[<- <-]%index_key_inj <-]|[Hne (pre & post & -> & Hk & Hi & Hp)]].
      * exists es, []. by repeat constructor.
      * exists pre, (post ++ [e']). rewrite <- app_assoc. do 3 (split; [done|]). apply Forall_app. split; [done|].
        constructor; [|constructor]. intros [<- <-]. done.
    + intros (pre & post & E & Hk & Hi & Hp). destruct post as [|z post _] using rev_ind.
      * apply app_inj_tail in E as [-> ->]. left. by subst.
      * rewrite app_comm_cons, app_assoc in E. apply app_inj_tail in E as [-> ->]. apply Forall_app in Hp as [Hp Hz].
        inversion_clear Hz as [|? ? Hz' _]. right. split; [|by exists pre, post]. intros E%index_key_inj. by apply Hz'.
Qed.

Lemma verify_list_ok x l pk : verify_offline_revocation_list_signature x l pk = Ok true <->
  text_signed x (list_to_value l) (Common.signature (l_signature l)) pk.
Proof.
  unfold verify_offline_revocation_list_signature, text_signed, digest_signed. split.
  - intros E. apply bind_ok in E as (c & Hc%map_err_ok & E). apply bind_ok in E as (bs & Hb%map_err_ok & E).
    destruct (Packet.Signature_from_slice x bs) as [sig|] eqn:Es; [|discriminate].
    apply bind_ok in E as (vk & Hv%map_err_ok & E). apply Ok_inj in E. eauto 15.
  - intros (c & Hc & bs & sig & vk & Hb & Hs & Hv & Hver). rewrite Hc. cbn [map_err mbind result_bind]. rewrite Hb.
    cbn [map_err mbind result_bind]. rewrite Hs, Hv. cbn [map_err mbind result_bind]. by rewrite Hver.
Qed.

Lemma list_text x l t : signed_text x (list_to_value (with_list_signature l t)) = signed_text x (list_to_value l).
Proof.
  assert (forall fs v, Forall (fun kv : string * json => kv.1 <> "signature") fs ->
    Packet.remove_signature (JObject (fs ++ field "signature" v)) = JObject fs) as Hs by apply strip_signature.
  unfold signed_text, list_to_value. by rewrite !Hs by (unfold list_fields, field; repeat constructor; done).
Qed.

Lemma index_of_none es k i : index_of es !! index_key k i = None <-> Forall (fun e => ~ (kind e = k /\ id e = i)) es.
Proof.
  induction es as [|e es IH] using rev_ind; [split; [constructor|done]|].
  rewrite index_of_snoc, lookup_insert_None, Forall_app, Forall_singleton, IH. split.
  - intros [H1 H2]. split; [done|]. intros [<- <-]. done.
  - intros [H1 H2]. split; [done|]. intros E%index_key_inj. done.
Qed.

Lemma load_iff x l pk now : (exists r, load x l pk now = Ok r) <->
  str_le now (valid_until l) = true /\ str_le (issued_at l) now = true /\
  text_signed x (list_to_value l) (Common.signature (l_signature l)) pk.
Proof.
  unfold load. rewrite !str_le_lt, <- verify_list_ok. destruct (str_lt (valid_until l) now); [split; [by intros [? ?]|naive_solver]|].
  destruct (str_lt now (issued_at l)); [split; [by intros [? ?]|naive_solver]|].
  destruct (verify_offline_revocation_list_signature x l pk) as [[]|]; cbn; split; try by intros [? ?]; naive_solver.
Qed.

Lemma load_ok x l pk now r : load x l pk now = Ok r -> r = mk_OfflineRevocationListRuntime l (index_of (revoked l)).
Proof.
  unfold load. destruct (str_lt (valid_until l) now); [discriminate|]. destruct (str_lt now (issued_at l)); [discriminate|].
  intros E. apply bind_ok in E as ([] & _ & E); [|discriminate]. by apply Ok_inj in E as <-.
Qed.

(** An offline revocation list loads exactly when its time has come, its
    end is not past and its signature verifies; a loaded list reports, for a
    target of a kind, the last entry naming it, and no target that is not
    listed.  A list signed with the matching key loads throughout its
    validity. *)
Theorem revocation_list_exact x l pk now :
  ((exists r, load x l pk now = Ok r) <->
     str_le now (valid_until l) = true /\ str_le (issued_at l) now = true /\
     text_signed x (list_to_value l) (Common.signature (l_signature l)) pk) /\
  (forall r, load x l pk now = Ok r -> list_ r = l /\
     (forall k i e, is_revoked r k i = Some e <-> last_entry (revoked l) k i e) /\
     (forall k i, is_revoked r k i = None <-> Forall (fun e => ~ (kind e = k /\ id e = i)) (revoked l))) /\
  (forall sk l0, Packet.crypto_laws x sk pk -> sign_offline_revocation_list x l0 sk = Ok l ->
     str_le now (valid_until l) = true -> str_le (issued_at l) now = true -> exists r, load x l pk now = Ok r).
Proof.
  split; [apply load_iff|]. split.
  - intros r ->%load_ok. split; [done|]. split; [intros k i e; apply index_of_lookup|intros k i; apply index_of_none].
  - intros sk l0 L Hs Hu Hi. apply load_iff. do 2 (split; [done|]). unfold sign_offline_revocation_list in Hs.
    apply bind_ok in Hs as (c & Hc%map_err_ok & <-%Ok_inj). exists c. split; [|by apply sign_digest_checks].
    by rewrite list_text, <- Hc, list_text.
Qed.

(** ** Witnesses *)

Definition packet1 : Packet.Packet := match Packet.sign_packet Packet.toy 0 Packet.args1 with Ok p => p | Err _ =>
  Packet.mk_Packet "" "" "" "" "" None "" None None None None None "" None None (Packet.mk_PacketSignatureEnvelope "" "" "") end.

Definition lib : Packet.crypto :=
  Packet.mk_crypto (fun s => s) (fun _ => "") (fun m => Crypto.pad_to 32 m) (list Z) (list Z) Ok Ok
    (fun vk m s => bool_decide (s = Packet.toy_sign vk m)) Packet.toy_sign
    (fun b => Ok (0 :: b)) (fun b => match b with 0 :: b' => Some b' | _ => None end) (fun _ => Err "no json").
Lemma lib_laws sk : Packet.crypto_laws lib sk sk.
Proof. destruct (Packet.toy_laws sk) as [H1 H2 H3]. by split. Qed.
Lemma lib_sha : Chain.sha256_law lib.
Proof. intros m. apply Crypto.pad_to_spec. Qed.

Lemma receipts_bind_packet_witness : exists r, sign_delivery_receipt lib packet1 "tf:actor:r" "2026-05-01" [7] = Ok r /\
  ok (verify_delivery_receipt lib r packet1 [7]) = true.
Proof.
  destruct (receipts_bind_packet lib packet1 packet1 [7] [7] lib_sha (lib_laws [7])) as [H _].
  destruct (sign_delivery_receipt lib packet1 "tf:actor:r" "2026-05-01" [7]) as [r|] eqn:E; [|vm_compute in E; discriminate].
  exists r. split; [reflexivity|]. exact (H _ _ _ E).
Defined.

Example list_loads :
  let l0 := mk_OfflineRevocationList "d" "2026-01-01" "2027-01-01" "i" [mk_RevokedEntry Key "k1" None None; mk_RevokedEntry Actor "a" None None;
    mk_RevokedEntry Key "k1" (Some "again") None] (Common.mk_SignatureEnvelope "ed25519" "i" "" None None None) in
  match sign_offline_revocation_list lib l0 [7] with
  | Ok l => match load lib l [7] "2026-06-01" with
            | Ok r => (is_revoked r Key "k1" ≫= e_reason) = Some "again" /\ is_revoked r Instance "a" = None
            | Err _ => False
            end
  | Err _ => False
  end.
Proof. vm_compute. auto. Qed.

End Receipts.
