(* ===== verification/ApprovalQueue.v ===== *)
(** * ApprovalQueue: pending approvals with default-deny timeouts ([approval.rs])

    A call to [push] waits on a channel; a response, the timer of the call or
    [drain_deny] answers it.  The operations take the lock of the map, so an
    execution is a sequence of them; [Fire] is a timer whose sleep has ended
    and [Abort] the moment an abort requested by a response takes effect, so
    the sequences cover every interleaving of callers and timers.  The call
    that takes ticket [n] owns channel [n] and timer [n]. *)

From stdpp Require Import gmap.
From S2P Require Import Prelude.

Module ApprovalQueue.
#[local] Open Scope string_scope.
#[local] Open Scope list_scope.

Inductive ApprovalDecision := Approve | Deny.
(** The version has one value and is left out; the fields other than the id play no part. *)
Record ApprovalRequest := mk_ApprovalRequest {
  id : string; actor : string; action : string; target : option string; danger_tags : option (list string);
  reason : string; created_at : string; expires_at : option string
}.
Record ApprovalResult := mk_ApprovalResult { decision : ApprovalDecision; note : option string }.
(** [ApprovalError]: [ChannelClosed] is the answer of a channel whose sender
    was dropped. *)
Inductive answer := Answered (r : ApprovalResult) | ChannelClosed.

Record PendingRecord := mk_PendingRecord { request : ApprovalRequest; ticket : nat }.
Record ApprovalQueue := mk_ApprovalQueue {
  pending : gmap string PendingRecord;
  max_pending : nat;
  next : nat;
  (** Timers that still run, with the request their closure captured. *)
  timers : gmap nat ApprovalRequest;
  (** Aborts requested and not yet effective. *)
  aborting : gset nat;
  answers : gmap nat answer;
  (** Calls of [on_push] and [on_resolve]. *)
  push_log : list ApprovalRequest;
  resolve_log : list (ApprovalRequest * ApprovalResult)
}.

Definition new (max_pending : nat) : ApprovalQueue := mk_ApprovalQueue ∅ max_pending 0 ∅ ∅ ∅ [] [].
Definition size (q : ApprovalQueue) : nat := base.size (pending q).

(** A record leaves the map with a result: its timer is to be aborted. *)
Definition resolve (q : ApprovalQueue) (key : string) (rec : PendingRecord) (r : ApprovalResult) : ApprovalQueue :=
  mk_ApprovalQueue (delete key (pending q)) (max_pending q) (next q) (timers q) ({[ticket rec]} ∪ aborting q)
    (<[ticket rec := Answered r]> (answers q)) (push_log q) (resolve_log q ++ [(request rec, r)]).

(** The error carries the number of pending requests. *)
Definition push (q : ApprovalQueue) (req : ApprovalRequest) : ApprovalQueue * option nat :=
  if (max_pending q <=? size q)%nat then (q, Some (size q)) else
  let n := next q in
  (* [map.insert] drops a record under the same id, and with it its sender *)
  let answers' := match pending q !! id req with
                  | Some old => <[ticket old := ChannelClosed]> (answers q)
                  | None => answers q
                  end in
  (mk_ApprovalQueue (<[id req := mk_PendingRecord req n]> (pending q)) (max_pending q) (S n) (<[n := req]> (timers q))
     (aborting q) answers' (push_log q ++ [req]) (resolve_log q), None).

Definition respond (q : ApprovalQueue) (request_id : string) (decision : ApprovalDecision) (note : option string) :
    ApprovalQueue * bool :=
  match pending q !! request_id with
  | Some rec => (resolve q request_id rec (mk_ApprovalResult decision note), true)
  | None => (q, false)
  end.

(** The timer task after its sleep: the callback gets the request the timer
    was started for. *)
Definition fire (q : ApprovalQueue) (n : nat) : ApprovalQueue :=
  match timers q !! n with
  | None => q
  | Some req =>
    let timers' := delete n (timers q) in
    match pending q !! id req with
    | Some rec =>
      let r := mk_ApprovalResult Deny (Some "timeout") in
      mk_ApprovalQueue (delete (id req) (pending q)) (max_pending q) (next q) timers' (aborting q)
        (<[ticket rec := Answered r]> (answers q)) (push_log q) (resolve_log q ++ [(req, r)])
    | None => mk_ApprovalQueue (pending q) (max_pending q) (next q) timers' (aborting q) (answers q) (push_log q) (resolve_log q)
    end
  end.
Definition abort (q : ApprovalQueue) (n : nat) : ApprovalQueue :=
  if bool_decide (n ∈ aborting q)
  then mk_ApprovalQueue (pending q) (max_pending q) (next q) (delete n (timers q)) (aborting q ∖ {[n]}) (answers q)
         (push_log q) (resolve_log q)
  else q.

(** [drain_deny] visits the records in the order the map yields them. *)
Definition drain_deny (q : ApprovalQueue) (reason : string) : ApprovalQueue :=
  foldl (fun q kr => resolve q kr.1 kr.2 (mk_ApprovalResult Deny (Some reason))) q (map_to_list (pending q)).

Inductive op :=
| Push (req : ApprovalRequest)
| Respond (request_id : string) (d : ApprovalDecision) (n : option string)
| Fire (n : nat)
| Abort (n : nat)
| DrainDeny (reason : string).
Definition step (q : ApprovalQueue) (o : op) : ApprovalQueue :=
  match o with
  | Push req => (push q req).1
  | Respond i d n => (respond q i d n).1
  | Fire n => fire q n
  | Abort n => abort q n
  | DrainDeny r => drain_deny q r
  end.
Definition run (max : nat) (ops : list op) : ApprovalQueue := foldl step (new max) ops.

(** ** The invariant *)

(** A ticket is pending. *)
Definition waiting (q : ApprovalQueue) (n : nat) : Prop := exists key rec, pending q !! key = Some rec /\ ticket rec = n.

Record inv (q : ApprovalQueue) : Prop := {
  (** Records lie under the id of their request, with distinct tickets. *)
  inv_key : forall key rec, pending q !! key = Some rec -> id (request rec) = key;
  inv_ticket : forall k1 k2 r1 r2, pending q !! k1 = Some r1 -> pending q !! k2 = Some r2 -> ticket r1 = ticket r2 -> k1 = k2;
  (** Tickets taken so far are waiting or answered, never both. *)
  inv_once : forall n, (n < next q)%nat <-> (waiting q n \/ is_Some (answers q !! n));
  inv_either : forall n, waiting q n -> answers q !! n = None;
  (** The timer of a waiting call runs, and no abort of it is under way. *)
  inv_timer : forall key rec, pending q !! key = Some rec -> timers q !! ticket rec = Some (request rec) /\ ticket rec ∉ aborting q;
  inv_fresh : forall n, is_Some (timers q !! n) \/ n ∈ aborting q -> (n < next q)%nat;
  inv_size : (size q <= max_pending q)%nat
}.

Lemma inv_new max : inv (new max).
Proof.
  split; unfold waiting, size; cbn [pending answers timers aborting next max_pending new].
  - intros k r. by rewrite lookup_empty.
  - intros k1 k2 r1 r2. by rewrite lookup_empty.
  - intros n. split; [lia|]. intros [(k & r & E & _)|[? E]]; by rewrite lookup_empty in E.
  - intros n (k & r & E & _). by rewrite lookup_empty in E.
  - intros k r. by rewrite lookup_empty.
  - intros n [[? E]|E]; [by rewrite lookup_empty in E|set_solver].
  - rewrite map_size_empty. lia.
Qed.

(** Taking a record out of the map and answering its call. *)
Lemma inv_remove q key rec T A a L1 L2 : inv q -> pending q !! key = Some rec ->
  (forall k r, k <> key -> pending q !! k = Some r -> T !! ticket r = timers q !! ticket r /\ ticket r ∉ A) ->
  (forall n, is_Some (T !! n) \/ n ∈ A -> (n < next q)%nat) ->
  inv (mk_ApprovalQueue (delete key (pending q)) (max_pending q) (next q) T A (<[ticket rec := a]> (answers q)) L1 L2).
Proof.
  intros I Hrec HT HA. split; cbn.
  - intros k r [_ E]%lookup_delete_Some. by apply (inv_key q I).
  - intros k1 k2 r1 r2 [_ E1]%lookup_delete_Some [_ E2]%lookup_delete_Some. by apply (inv_ticket q I).
  - intros n. rewrite (inv_once q I). unfold waiting. cbn. split.
    + intros [(k & r & E & Ht)|[b E]].
      * destruct (decide (k = key)) as [->|Hne].
        -- right. assert (r = rec) as -> by congruence. rewrite Ht, lookup_insert_eq. eauto.
        -- left. exists k, r. by rewrite lookup_delete_ne.
      * right. destruct (decide (n = ticket rec)) as [->|Hne]; [rewrite lookup_insert_eq; eauto|]. rewrite lookup_insert_ne by done. eauto.
    + intros [(k & r & [_ E]%lookup_delete_Some & Ht)|[b E]]; [left; eauto|].
      destruct (decide (ticket rec = n)) as [Hn|Hne]; [left; eauto|]. rewrite lookup_insert_ne in E by done. right. eauto.
  - intros n (k & r & E & Ht). cbn in E. apply lookup_delete_Some in E as [Hk E]. rewrite lookup_insert_ne.
    + apply (inv_either q I). by exists k, r.
    + intros Hn. apply Hk. apply (inv_ticket q I _ _ _ _ Hrec E). congruence.
  - intros k r [Hk E]%lookup_delete_Some. destruct (HT k r ltac:(congruence) E) as [H1 H2]. rewrite H1. split; [|done].
    by apply (inv_timer q I k r).
  - exact HA.
  - unfold size. cbn. rewrite map_size_delete_Some by eauto. pose proof (inv_size q I). unfold size in *. lia.
Qed.

(** A new call under a free id. *)
Lemma inv_insert q req L1 L2 : inv q -> pending q !! id req = None -> (size q < max_pending q)%nat ->
  inv (mk_ApprovalQueue (<[id req := mk_PendingRecord req (next q)]> (pending q)) (max_pending q) (S (next q))
         (<[next q := req]> (timers q)) (aborting q) (answers q) L1 L2).
Proof.
  intros I Hnone Hsize.
  assert (forall k r, pending q !! k = Some r -> (ticket r < next q)%nat) as Hlt.
  { intros k r E. apply (inv_fresh q I). left. destruct (inv_timer q I k r E) as [-> _]. eauto. }
  split; cbn.
  - intros k r. rewrite lookup_insert_Some. intros [[<- <-]|[_ E]]; [done|by apply (inv_key q I)].
  - intros k1 k2 r1 r2. rewrite !lookup_insert_Some. intros [[<- <-]|[_ E1]] [[<- <-]|[_ E2]]; cbn; intros Ht; try done.
    + apply Hlt in E2. lia.
    + apply Hlt in E1. lia.
    + by apply (inv_ticket q I _ _ _ _ E1 E2).
  - intros n. unfold waiting. cbn. split.
    + intros Hn. destruct (decide (n = next q)) as [->|Hne].
      * left. exists (id req), (mk_PendingRecord req (next q)). by rewrite lookup_insert_eq.
      * destruct (proj1 (inv_once q I n) ltac:(lia)) as [(k & r & E & Ht)|E]; [|by right]. left. exists k, r.
        rewrite lookup_insert_ne by congruence. done.
    + intros [(k & r & E & Ht)|E]; [|assert (n < next q)%nat by (apply (inv_once q I); by right); lia].
      rewrite lookup_insert_Some in E. destruct E as [[<- <-]|[_ E]]; [cbn in Ht; lia|apply Hlt in E; lia].
  - intros n (k & r & E & Ht). cbn in E. rewrite lookup_insert_Some in E. destruct E as [[<- <-]|[_ E]].
    + cbn in Ht. subst n. destruct (answers q !! next q) eqn:Ea; [|done].
      assert (next q < next q)%nat; [|lia]. apply (inv_once q I). right. eauto.
    + apply (inv_either q I). by exists k, r.
  - intros k r. rewrite lookup_insert_Some. intros [[<- <-]|[_ E]]; cbn.
    + rewrite lookup_insert_eq. split; [done|]. intros Hin. assert (next q < next q)%nat; [|lia]. apply (inv_fresh q I). by right.
    + rewrite lookup_insert_ne by (apply Hlt in E; lia). by apply (inv_timer q I k r).
  - intros n [E|E].
    + destruct (decide (n = next q)) as [->|Hne]; [lia|]. rewrite lookup_insert_ne in E by done.
      assert (n < next q)%nat by (apply (inv_fresh q I); by left). lia.
    + assert (n < next q)%nat by (apply (inv_fresh q I); by right). lia.
  - unfold size. cbn. rewrite map_size_insert_None by done. exact Hsize.
Qed.

Lemma inv_resolve q key rec r : inv q -> pending q !! key = Some rec -> inv (resolve q key rec r).
Proof.
  intros I E. apply inv_remove; [done|done| |].
  - intros k r' Hk E'. split; [done|]. intros [Ht%elem_of_singleton|Hin]%elem_of_union.
    + apply Hk. by apply (inv_ticket q I _ _ _ _ E' E).
    + by apply (inv_timer q I k r' E').
  - intros n [Hn|[->%elem_of_singleton|Hn]%elem_of_union]; apply (inv_fresh q I); [by left| |by right].
    left. destruct (inv_timer q I key rec E) as [-> _]. eauto.
Qed.

Lemma inv_fire q n : inv q -> inv (fire q n).
Proof.
  intros I. unfold fire. destruct (timers q !! n) as [req|] eqn:Et; [|done].
  assert (forall k r, pending q !! k = Some r -> ticket r = n -> k = id req) as Hown.
  { intros k r E <-. destruct (inv_timer q I k r E) as [Ht _]. assert (req = request r) as -> by congruence.
    symmetry. by apply (inv_key q I). }
  assert (forall m, is_Some (delete n (timers q) !! m) \/ m ∈ aborting q -> (m < next q)%nat) as Hfresh.
  { intros m [[r E]|E]; apply (inv_fresh q I); [|by right]. apply lookup_delete_Some in E as [_ E]. left. eauto. }
  destruct (pending q !! id req) as [rec|] eqn:Ep.
  - apply inv_remove; [done|done| |done]. intros k r Hk E. rewrite lookup_delete_ne by (intros Hn; apply Hk, (Hown k r); congruence).
    split; [done|]. by apply (inv_timer q I k r).
  - destruct I as [I1 I2 I3 I4 I5 I6 I7]. split; cbn; try done. intros k r E.
    rewrite lookup_delete_ne; [by apply (I5 k r)|]. intros Hn. rewrite (Hown k r E (eq_sym Hn)) in E. congruence.
Qed.

Lemma inv_abort q n : inv q -> inv (abort q n).
Proof.
  intros [I1 I2 I3 I4 I5 I6 I7]. unfold abort. case_bool_decide as Hn; [|by split]. split; cbn; try done.
  - intros k r E. destruct (I5 k r E) as [Ht Ha]. rewrite lookup_delete_ne by congruence. split; [done|set_solver].
  - intros m [[r E]|E]; apply I6; [|right; set_solver]. apply lookup_delete_Some in E as [_ E]. left. eauto.
Qed.

Lemma inv_push q req : inv q -> inv (push q req).1.
Proof.
  intros I. unfold push. destruct (Nat.leb_spec (max_pending q) (size q)); [done|]. cbn.
  destruct (pending q !! id req) as [old|] eqn:E; [|by apply inv_insert].
  assert (inv (mk_ApprovalQueue (delete (id req) (pending q)) (max_pending q) (next q) (timers q) (aborting q)
    (<[ticket old := ChannelClosed]> (answers q)) [] [])) as I1.
  { apply inv_remove; [done|done| |apply (inv_fresh q I)]. intros k r _ Hr. split; [done|]. by apply (inv_timer q I k r). }
  apply (inv_insert _ req (push_log q ++ [req]) (resolve_log q)) in I1; cbn in *.
  - by rewrite insert_delete_eq in I1.
  - apply lookup_delete_eq.
  - unfold size in *. cbn. rewrite map_size_delete_Some by eauto. lia.
Qed.

Lemma inv_drain q r : inv q -> inv (drain_deny q r).
Proof.
  intros I. unfold drain_deny.
  assert (forall l q, NoDup (l.*1) -> (forall kr, kr ∈ l -> pending q !! kr.1 = Some kr.2) -> inv q ->
    inv (foldl (fun q kr => resolve q kr.1 kr.2 (mk_ApprovalResult Deny (Some r))) q l)) as H.
  { clear. induction l as [|[k rec] l IH]; intros q Hnd Hl I; [done|]. cbn in Hnd. inversion_clear Hnd as [|? ? Hk Hnd'].
    cbn [foldl]. apply IH; [done| |apply inv_resolve; [done|apply (Hl (k, rec)); left]].
    intros [k' rec'] Hin. cbn. rewrite lookup_delete_ne; [apply (Hl (k', rec')); by right|]. intros ->.
    apply Hk. apply list_elem_of_fmap. by exists (k', rec'). }
  apply H; [apply NoDup_fst_map_to_list| |done]. intros [k rec] Hin. by apply elem_of_map_to_list in Hin.
Qed.

Lemma queue_inv_step q o : inv q -> inv (step q o).
Proof.
  intros I. destruct o as [req|i d n|n|n|r]; cbn [step].
  - by apply inv_push.
  - unfold respond. destruct (pending q !! i) as [rec|] eqn:E; [by apply inv_resolve|done].
  - by apply inv_fire.
  - by apply inv_abort.
  - by apply inv_drain.
Qed.

Lemma queue_inv_run max ops : inv (run max ops).
Proof.
  unfold run. induction ops as [|o ops IH] using rev_ind; [apply inv_new|]. rewrite foldl_app. by apply queue_inv_step.
Qed.

(** ** Where answers come from *)

Definition is_approval (a : answer) : bool := match a with Answered (mk_ApprovalResult Approve _) => true | _ => false end.

Lemma drain_answers l q r n a :
  answers (foldl (fun q kr => resolve q kr.1 kr.2 (mk_ApprovalResult Deny (Some r))) q l) !! n = Some a ->
  answers q !! n = Some a \/ is_approval a = false.
Proof.
  revert q. induction l as [|[k rec] l IH]; intros q; [by left|]. cbn [foldl]. intros [H|H]%IH; [|by right].
  cbn in H. apply lookup_insert_Some in H as [[_ <-]|[_ H]]; [by right|by left].
Qed.

(** An approval is entered by a response to the waiting call only. *)
Lemma step_approval q o n a : answers (step q o) !! n = Some a -> is_approval a = true -> answers q !! n = Some a \/
  exists i nt rec, o = Respond i Approve nt /\ pending q !! i = Some rec /\ ticket rec = n /\
    a = Answered (mk_ApprovalResult Approve nt).
Proof.
  intros H Ha. destruct o as [req|i d nt|m|m|r]; cbn [step] in H.
  - left. unfold push in H. destruct (max_pending q <=? size q)%nat; [done|]. cbn in H.
    destruct (pending q !! id req); [|done]. apply lookup_insert_Some in H as [[_ <-]|[_ H]]; done.
  - unfold respond in H. destruct (pending q !! i) as [rec|] eqn:E; [|by left]. cbn in H.
    apply lookup_insert_Some in H as [[Hn <-]|[_ H]]; [|by left]. right. destruct d; [|done]. by exists i, nt, rec.
  - left. unfold fire in H. destruct (timers q !! m) as [req|]; [|done]. destruct (pending q !! id req); [|done].
    cbn in H. apply lookup_insert_Some in H as [[_ <-]|[_ H]]; done.
  - left. unfold abort in H. by case_bool_decide.
  - left. unfold drain_deny in H. apply drain_answers in H as [H|H]; congruence.
Qed.

Lemma resolve_keeps q key rec r n a : inv q -> pending q !! key = Some rec -> answers q !! n = Some a ->
  answers (resolve q key rec r) !! n = Some a.
Proof.
  intros I E H. cbn. rewrite lookup_insert_ne; [done|]. intros <-.
  rewrite (inv_either q I) in H; [done|by exists key, rec].
Qed.

Lemma drain_keeps l q r n a : answers q !! n = Some a -> (forall kr, kr ∈ l -> ticket kr.2 <> n) ->
  answers (foldl (fun q kr => resolve q kr.1 kr.2 (mk_ApprovalResult Deny (Some r))) q l) !! n = Some a.
Proof.
  revert q. induction l as [|[k rec] l IH]; intros q H Hl; [done|]. cbn [foldl]. apply IH.
  - cbn. rewrite lookup_insert_ne; [done|]. apply (Hl (k, rec)). left.
  - intros kr Hin. apply Hl. by right.
Qed.

(** Answers are final. *)
Lemma queue_step_keeps q o n a : inv q -> answers q !! n = Some a -> answers (step q o) !! n = Some a.
Proof.
  intros I H. assert (forall key rec, pending q !! key = Some rec -> ticket rec <> n) as Hw.
  { intros key rec E <-. rewrite (inv_either q I) in H; [done|by exists key, rec]. }
  destruct o as [req|i d nt|m|m|r]; cbn [step].
  - unfold push. destruct (max_pending q <=? size q)%nat; [done|]. cbn. destruct (pending q !! id req) as [old|] eqn:E; [|done].
    rewrite lookup_insert_ne; [done|by eapply Hw].
  - unfold respond. destruct (pending q !! i) as [rec|] eqn:E; [|done]. by apply resolve_keeps.
  - unfold fire. destruct (timers q !! m) as [req|]; [|done]. destruct (pending q !! id req) as [rec|] eqn:E; [|done].
    cbn. rewrite lookup_insert_ne; [done|by eapply Hw].
  - unfold abort. by case_bool_decide.
  - unfold drain_deny.
    assert (forall kr, kr ∈ map_to_list (pending q) -> ticket kr.2 <> n) as Hl.
    { intros [k rec] Hin%elem_of_map_to_list. by eapply Hw. }
    by apply drain_keeps.
Qed.

(** Every timer that runs fires: nothing waits any more. *)
Lemma fire_shrinks q n key : pending (fire q n) !! key = None \/ pending (fire q n) !! key = pending q !! key.
Proof.
  unfold fire. destruct (timers q !! n) as [req|]; [|by right]. destruct (pending q !! id req) as [rec|]; [|by right]. cbn.
  destruct (decide (key = id req)) as [->|Hne]; [left; apply lookup_delete_eq|right; by rewrite lookup_delete_ne].
Qed.

Lemma fire_own q n key rec : inv q -> pending q !! key = Some rec -> ticket rec = n -> pending (fire q n) !! key = None.
Proof.
  intros I E <-. unfold fire. destruct (inv_timer q I key rec E) as [-> _]. rewrite (inv_key q I key rec E), E. cbn.
  apply lookup_delete_eq.
Qed.

Lemma fire_all_drains ts q : inv q -> (forall key rec, pending q !! key = Some rec -> ticket rec ∈ ts) ->
  pending (foldl fire q ts) = ∅.
Proof.
  revert q. induction ts as [|n ts IH]; intros q I Hall.
  - cbn. apply map_empty. intros key. destruct (pending q !! key) as [rec|] eqn:E; [|done]. apply Hall in E. by apply elem_of_nil in E.
  - cbn [foldl]. apply IH; [by apply inv_fire|]. intros key rec E. destruct (fire_shrinks q n key) as [H|H]; [congruence|].
    rewrite H in E. specialize (Hall key rec E) as [Hn|Hin]%elem_of_cons; [|done].
    rewrite (fire_own q n key rec I E Hn) in H. congruence.
Qed.

Lemma step_max q o : max_pending (step q o) = max_pending q.
Proof.
  destruct o as [req|i d nt|m|m|r]; cbn [step]; unfold push, respond, fire, abort; repeat case_match; try done.
  unfold drain_deny. generalize (map_to_list (pending q)). intros l. revert q. induction l as [|kr l IH]; intros q; [done|].
  cbn [foldl]. by rewrite IH.
Qed.

(** Every call gets exactly one answer.  In every interleaving the queue
    holds at most [max_pending] requests; a call that was let in is waiting
    or has been answered, never both, and its answer never changes. *)
Theorem approval_answered_once max ops more n :
  let q := run max ops in
  (size q <= max)%nat /\
  ((n < next q)%nat <-> (waiting q n \/ is_Some (answers q !! n))) /\
  ~ (waiting q n /\ is_Some (answers q !! n)) /\
  (forall a, answers q !! n = Some a -> answers (run max (ops ++ more)) !! n = Some a).
Proof.
  intros q. pose proof (queue_inv_run max ops) as I. fold q in I. assert (forall ops, max_pending (run max ops) = max) as Hmax.
  { clear. intros ops. unfold run. induction ops as [|o ops IH] using rev_ind; [done|]. rewrite foldl_app. cbn [foldl].
    by rewrite step_max. }
  split; [rewrite <- (Hmax ops); apply (inv_size q I)|]. split; [apply (inv_once q I)|]. split.
  - intros [Hw [a Ha]]. rewrite (inv_either q I n Hw) in Ha. done.
  - intros a Ha. induction more as [|o more IH] using rev_ind; [by rewrite app_nil_r|]. rewrite app_assoc. unfold run in *.
    rewrite foldl_app. cbn [foldl]. apply queue_step_keeps; [apply queue_inv_run|done].
Qed.

(** C21: Nothing is approved by default.  In every interleaving of pushes,
    responses, timeouts, aborts and drains, a call is answered with an
    approval only by an approving response to its request's id, given while
    that very call was waiting. *)
Theorem approval_fails_closed max ops n nt
    (Ha : answers (run max ops) !! n = Some (Answered (mk_ApprovalResult Approve nt))) :
  exists pre post i rec, ops = pre ++ Respond i Approve nt :: post /\ pending (run max pre) !! i = Some rec /\
    id (request rec) = i /\ ticket rec = n.
Proof.
  induction ops as [|o ops IH] using rev_ind; [discriminate Ha|]. unfold run in Ha. rewrite foldl_app in Ha.
  cbn [foldl] in Ha. destruct (step_approval _ _ _ _ Ha eq_refl) as [H|(i & nt' & rec & -> & Hp & Ht & E)].
  - destruct (IH H) as (pre & post & i & rec & -> & Hr). exists pre, (post ++ [o]), i, rec. by rewrite <- app_assoc.
  - injection E as <-. exists ops, [], i, rec. split; [done|]. split; [done|]. split; [|done].
    by apply (inv_key _ (queue_inv_run max ops)).
Qed.

(** C27: No call waits for ever: the timer of every waiting call runs, so once
    all running timers have fired, in any order, nothing is pending and every
    call that was let in has its answer. *)
Theorem timeouts_answer_every_call max ops ts n
    (Hall : forall m, is_Some (timers (run max ops) !! m) -> m ∈ ts) (Hn : (n < next (run max ops))%nat) :
  pending (foldl fire (run max ops) ts) = ∅ /\ is_Some (answers (foldl fire (run max ops) ts) !! n).
Proof.
  pose proof (queue_inv_run max ops) as I.
  assert (pending (foldl fire (run max ops) ts) = ∅) as He.
  { apply fire_all_drains; [done|]. intros key rec E. apply Hall. destruct (inv_timer _ I key rec E) as [-> _]. eauto. }
  split; [exact He|]. assert (inv (foldl fire (run max ops) ts) /\ next (foldl fire (run max ops) ts) = next (run max ops)) as [I' Hnext].
  { clear - I. generalize dependent (run max ops). induction ts as [|m ts IH]; intros q I; [done|]. cbn [foldl].
    destruct (IH _ (inv_fire q m I)) as [H1 H2]. split; [done|]. rewrite H2. unfold fire. by repeat case_match. }
  rewrite <- Hnext in Hn. apply (inv_once _ I') in Hn as [(key & rec & E & _)|H]; [|done]. by rewrite He, lookup_empty in E.
Qed.

(** ** Runs *)

Definition ask (i : string) : ApprovalRequest := mk_ApprovalRequest i "a" "fs.write" None None "" "" None.

Lemma approval_fails_closed_witness : exists pre post i rec,
  [Push (ask "r1"); Push (ask "r2"); Respond "r2" Approve None; Fire 0; Abort 1] = pre ++ Respond i Approve None :: post /\
  pending (run 4 pre) !! i = Some rec /\ id (request rec) = i /\ ticket rec = 1%nat.
Proof.
  apply (approval_fails_closed 4 [Push (ask "r1"); Push (ask "r2"); Respond "r2" Approve None; Fire 0; Abort 1] 1 None).
  vm_compute. reflexivity.
Defined.

Lemma timeouts_answer_every_call_witness :
  pending (foldl fire (run 4 [Push (ask "r1"); Push (ask "r2")]) [1; 0]%nat) = ∅ /\
  is_Some (answers (foldl fire (run 4 [Push (ask "r1"); Push (ask "r2")]) [1; 0]%nat) !! 0%nat).
Proof.
  apply timeouts_answer_every_call; [|vm_compute; lia]. intros m Hm. assert (m < 2)%nat.
  { apply (inv_fresh _ (queue_inv_run 4 [Push (ask "r1"); Push (ask "r2")])). by left. }
  destruct m as [|[|m]]; [right; left|left|lia].
Defined.

(** A second request under an id that is pending displaces the first, whose
    caller sees a closed channel.  The displaced call's timer keeps running
    and denies the second request when the first one's time is up, although
    the second one's own timer has not fired. *)
Example displaced_timer_denies :
  let q := run 4 [Push (ask "r"); Push (ask "r"); Fire 0] in
  answers q !! 0%nat = Some ChannelClosed /\
  answers q !! 1%nat = Some (Answered (mk_ApprovalResult Deny (Some "timeout"))) /\ timers q !! 1%nat = Some (ask "r").
Proof. vm_compute. auto. Qed.

End ApprovalQueue.
