(* ===== verification/Profile.v ===== *)
(** * Profile: conformance profiles and signature envelopes
      ([profile.rs], [envelope.rs])

    [select_profile] checks a profile against what a daemon offers;
    [validate_envelope_shape] checks the shape of a signature envelope. *)

From S2P Require Import Prelude Utf8 Common Guard Base64.
Import Guard.

Module Profile.
#[local] Open Scope string_scope.
#[local] Open Scope list_scope.

Definition QUOTE : string := String (ascii_of_N 34) "".

Record Feature := mk_Feature { f_id : string; f_description : option string; spec_ref : option string }.
Inductive RequiredAnchor := Rfc6962 | Sigstore | Rfc3161 | Memory | Custom.
(** [profile_version] has the single value 1; [MinEnforcementLevel] is a copy
    of [EnforcementLevel]. *)
Record ProfileSpec := mk_ProfileSpec {
  profile_id : string;
  label : string;
  description : option string;
  must : list Feature;
  should : list Feature;
  must_not : option (list Feature);
  min_enforcement_level : option EnforcementLevel;
  min_proof_level : option ProofLevel;
  required_bridges : option (list string);
  required_anchors : option (list RequiredAnchor)
}.
Record ProfileFeatureGate := mk_ProfileFeatureGate {
  features : gset string;
  enforcement_level : EnforcementLevel;
  proof_level_floor : ProofLevel;
  bridges : gset string;
  anchors : gset string
}.
Record ProfileVerdict := mk_ProfileVerdict { ok : bool; profile : string; failures : list string; warnings : list string }.

Definition enf_rank (e : EnforcementLevel) : nat :=
  match e with E0 => 0 | E1 => 1 | E2 => 2 | E3 => 3 | E4 => 4 | E5 => 5 end.
Definition proof_rank (p : ProofLevel) : nat :=
  match p with L0 => 0 | L1 => 1 | L2 => 2 | L3 => 3 | L4 => 4 | L5 => 5 end.
Definition enf_label (e : EnforcementLevel) : string :=
  match e with E0 => "E0" | E1 => "E1" | E2 => "E2" | E3 => "E3" | E4 => "E4" | E5 => "E5" end.
Definition proof_label (p : ProofLevel) : string :=
  match p with L0 => "L0" | L1 => "L1" | L2 => "L2" | L3 => "L3" | L4 => "L4" | L5 => "L5" end.
Definition anchor_id (a : RequiredAnchor) : string :=
  match a with
  | Rfc6962 => "rfc6962" | Sigstore => "sigstore" | Rfc3161 => "rfc3161" | Memory => "memory" | Custom => "custom"
  end.

(** [Option<Vec<_>>] iterated only when present. *)
Definition items {A} (o : option (list A)) : list A := match o with Some l => l | None => [] end.
(** One line for every item that fails the test. *)
Definition report {A} (bad : A -> bool) (text : A -> string) (l : list A) : list string := text <$> List.filter bad l.

Definition select_profile (spec : ProfileSpec) (gate : ProfileFeatureGate) : ProfileVerdict :=
  let says s := "profile " +:+ profile_id spec +:+ s in
  let has f := bool_decide (f_id f ∈ features gate) in
  let failures :=
    report (fun m => negb (has m)) (fun m => says (" requires feature " +:+ QUOTE +:+ f_id m +:+ QUOTE +:+ " — missing")) (must spec) ++
    report has (fun n => says (" forbids feature " +:+ QUOTE +:+ f_id n +:+ QUOTE)) (items (must_not spec)) ++
    match min_enforcement_level spec with
    | Some min => if (enf_rank (enforcement_level gate) <? enf_rank min)%nat
                  then [says (" requires EnforcementLevel ≥ " +:+ enf_label min +:+ ", daemon at " +:+ enf_label (enforcement_level gate))]
                  else []
    | None => []
    end ++
    match min_proof_level spec with
    | Some min => if (proof_rank (proof_level_floor gate) <? proof_rank min)%nat
                  then [says (" requires proof level floor ≥ " +:+ proof_label min +:+ ", daemon at " +:+ proof_label (proof_level_floor gate))]
                  else []
    | None => []
    end ++
    report (fun b => negb (bool_decide (b ∈ bridges gate))) (fun b => says (" requires bridge " +:+ b +:+ " — missing")) (items (required_bridges spec)) ++
    report (fun a => negb (bool_decide (anchor_id a ∈ anchors gate))) (fun a => says (" requires anchor " +:+ anchor_id a +:+ " — missing"))
      (items (required_anchors spec)) in
  let warnings :=
    report (fun s => negb (has s)) (fun s => says (" recommends feature " +:+ QUOTE +:+ f_id s +:+ QUOTE)) (should spec) in
  mk_ProfileVerdict (bool_decide (failures = [])) (profile_id spec) failures warnings.

Definition feature (i : string) : Feature := mk_Feature i None None.

Definition builtin_profiles : list ProfileSpec := [
  mk_ProfileSpec "tf-home-compatible" "TrustForge home / personal-network profile" None
    [feature "agent-contract"; feature "proof-log"; feature "ed25519"; feature "vault"]
    [feature "webauthn"; feature "shadow-mode"] None (Some E3) (Some L1) None None;
  mk_ProfileSpec "tf-enterprise-compatible" "TrustForge enterprise profile" None
    [feature "policy-engine"; feature "quorum-collector"; feature "continuous-reauth"; feature "transparency-anchor.any";
     feature "federation"; feature "webauthn"; feature "agent-contract"]
    [feature "shadow-mode"; feature "hybrid-pq"] None (Some E4) (Some L2)
    (Some ["webauthn"; "oauth"; "spiffe"]) (Some [Rfc6962]);
  mk_ProfileSpec "tf-constrained-compatible" "TrustForge constrained / LoRa / offline profile" None
    [feature "packet-mode"; feature "fragment-reassembly"; feature "offline-revocation-list"; feature "emergency-authority"]
    [feature "cbor-encoding"; feature "deflate-compression"]
    (Some [feature "transport.websocket-only"; feature "transparency-anchor.always-online"]) (Some E3) (Some L1) None None;
  mk_ProfileSpec "tf-compliance-evidence-compatible" "TrustForge compliance / legal-evidence profile" None
    [feature "policy-engine"; feature "quorum-collector"; feature "signed-log-events"; feature "evidence-bundle";
     feature "l4-encrypted-bundle"; feature "l5-rfc3161-anchor"; feature "continuous-reauth"]
    [feature "redaction"; feature "federation"] None (Some E4) (Some L3) None (Some [Rfc6962; Rfc3161])].
Definition builtin_profile (i : string) : option ProfileSpec :=
  List.find (fun p => (profile_id p =? i)%string) builtin_profiles.

(** ** Envelopes *)

Inductive EnvelopeIssue :=
| MissingAlgorithm | MissingSigner | MissingSignature
| InvalidBase64 (field : string)
| AltWithoutAlgorithm
| UnknownAlgorithm (algorithm : string)
| UnknownAltAlgorithm (algorithm : string).
Definition is_warning (i : EnvelopeIssue) : bool :=
  match i with UnknownAlgorithm _ | UnknownAltAlgorithm _ => true | _ => false end.
Record EnvelopeValidation := mk_EnvelopeValidation { v_ok : bool; issues : list EnvelopeIssue }.

Definition KNOWN_ALGORITHMS : list string :=
  ["ed25519"; "ed448"; "p256"; "p384"; "p521"; "rsa-pss-sha256"; "ml-dsa-44"; "ml-dsa-65"; "ml-dsa-87";
   "slh-dsa-sha2-128s"; "slh-dsa-sha2-192s"].

Definition is_b64_char (c : ascii) : bool :=
  let n := N_of_ascii c in
  ((65 <=? n) && (n <=? 90) || (97 <=? n) && (n <=? 122) || (48 <=? n) && (n <=? 57) || (n =? 43) || (n =? 47))%N.
(** The loop over the characters; a multi-byte character starts with a byte
    above 127 and is refused there. *)
Fixpoint is_base64_from (eq_seen : nat) (s : string) : bool :=
  match s with
  | EmptyString => true
  | String c r =>
    if is_b64_char c then (if (0 <? eq_seen)%nat then false else is_base64_from eq_seen r)
    else if Ascii.eqb c "=" then (if (2 <? S eq_seen)%nat then false else is_base64_from (S eq_seen) r)
    else false
  end.
Definition is_base64 (s : string) : bool := if (s =? "")%string then false else is_base64_from 0 s.

Definition when (b : bool) (i : EnvelopeIssue) : list EnvelopeIssue := if b then [i] else [].
Definition known (a : string) : bool := bool_decide (a ∈ KNOWN_ALGORITHMS).
Definition validate_envelope_shape (e : SignatureEnvelope) : EnvelopeValidation :=
  let empty s := (s =? "")%string in
  let issues :=
    when (empty (algorithm e)) MissingAlgorithm ++ when (empty (signer e)) MissingSigner ++
    when (empty (signature e)) MissingSignature ++
    when (negb (empty (signature e)) && negb (is_base64 (signature e))) (InvalidBase64 "signature") ++
    match alt_signature e with
    | Some alt => when (negb (is_base64 alt)) (InvalidBase64 "alt_signature") ++
                  when (match alt_algorithm e with None => true | Some _ => false end) AltWithoutAlgorithm
    | None => []
    end in
  let fatal_count := length (List.filter (fun i => negb (is_warning i)) issues) in
  let issues := issues ++
    when (negb (empty (algorithm e)) && negb (known (algorithm e))) (UnknownAlgorithm (algorithm e)) ++
    match alt_algorithm e with Some alt => when (negb (known alt)) (UnknownAltAlgorithm alt) | None => [] end in
  mk_EnvelopeValidation (Nat.eqb fatal_count 0) issues.

(** ** Profiles *)

Lemma report_nil {A} (bad : A -> bool) text l : report bad text l = [] <-> forall a, a ∈ l -> bad a = false.
Proof.
  unfold report. induction l as [|a l IH]; cbn; [split; [by intros _ a ?%elem_of_nil|done]|]. destruct (bad a) eqn:E.
  - split; [done|]. intros H. specialize (H a ltac:(left)). congruence.
  - rewrite IH. split; [intros H b [->|Hb]%elem_of_cons; auto|]. intros H b Hb. apply H. by right.
Qed.

Lemma negb_decide_false P `{Decision P} : negb (bool_decide P) = false <-> P.
Proof. case_bool_decide; split; (done || intros; discriminate). Qed.

Lemma report_items_nil {A} (bad : A -> bool) text (o : option (list A)) :
  report bad text (items o) = [] <-> forall l a, o = Some l -> a ∈ l -> bad a = false.
Proof.
  rewrite report_nil. destruct o as [l|]; cbn [items].
  - split; [intros H l' a [= <-]; apply H|intros H a; by apply H].
  - split; [done|intros _ a ?%elem_of_nil; done].
Qed.

Lemma minimum_nil {A} (o : option A) (bad : A -> bool) (text : A -> string) :
  match o with Some m => if bad m then [text m] else [] | None => [] end = [] <-> forall m, o = Some m -> bad m = false.
Proof.
  destruct o as [m|]; [|split; [intros _ m; discriminate|done]].
  destruct (bad m) eqn:E; split; try done; [intros H; by rewrite (H m eq_refl) in E|intros _ m' [= <-]; done].
Qed.

(** A profile is satisfied exactly when the daemon offers every mandatory
    feature, none of the forbidden ones, at least the required enforcement
    and proof levels, and every required bridge and anchor; recommended
    features never decide, and a warning is given for each one missing. *)
Theorem select_profile_ok_iff spec gate :
  (ok (select_profile spec gate) = true <->
    (forall f, f ∈ must spec -> f_id f ∈ features gate) /\
    (forall l f, must_not spec = Some l -> f ∈ l -> f_id f ∉ features gate) /\
    (forall m, min_enforcement_level spec = Some m -> (enf_rank m <= enf_rank (enforcement_level gate))%nat) /\
    (forall m, min_proof_level spec = Some m -> (proof_rank m <= proof_rank (proof_level_floor gate))%nat) /\
    (forall l b, required_bridges spec = Some l -> b ∈ l -> b ∈ bridges gate) /\
    (forall l a, required_anchors spec = Some l -> a ∈ l -> anchor_id a ∈ anchors gate)) /\
  (warnings (select_profile spec gate) = [] <-> forall f, f ∈ should spec -> f_id f ∈ features gate).
Proof.
  split.
  - unfold select_profile. cbn [ok]. rewrite bool_decide_eq_true, !app_nil, !report_items_nil, report_nil.
    rewrite !(minimum_nil _ (fun m => (_ <? _ m)%nat)). setoid_rewrite negb_decide_false. setoid_rewrite bool_decide_eq_false.
    by setoid_rewrite Nat.ltb_ge.
  - unfold select_profile. cbn [warnings]. rewrite report_nil. by setoid_rewrite negb_decide_false.
Qed.

(** A gate that satisfies the home profile without its recommendations. *)
Example home_profile : exists p, builtin_profile "tf-home-compatible" = Some p /\
  let v := select_profile p (mk_ProfileFeatureGate {["agent-contract"; "proof-log"; "ed25519"; "vault"]} E3 L1 ∅ ∅) in
  ok v = true /\ length (warnings v) = 2%nat.
Proof. eexists. split; [reflexivity|]. vm_compute. auto. Qed.
Example home_profile_at_E2 : match builtin_profile "tf-home-compatible" with
  | Some p => failures (select_profile p (mk_ProfileFeatureGate {["agent-contract"; "proof-log"; "ed25519"; "vault"]} E2 L1 ∅ ∅))
  | None => []
  end = ["profile tf-home-compatible requires EnforcementLevel ≥ E3, daemon at E2"].
Proof. vm_compute. reflexivity. Qed.

(** ** Envelopes *)

Fixpoint all_b64 (s : string) : bool := match s with EmptyString => true | String c r => is_b64_char c && all_b64 r end.

Lemma is_base64_body body pad : all_b64 body = true -> is_base64_from 0 pad = true -> is_base64_from 0 (body +:+ pad) = true.
Proof.
  induction body as [|c body IH]; [done|]. cbn [all_b64]. intros [Hc Hb]%andb_prop Hp. rewrite str_app_cons. cbn. rewrite Hc. by apply IH.
Qed.

(** What the strict decoder accepts has the shape. *)
Lemma symbol_b64 : all_below 64 (fun i => is_b64_char (ascii_of_N (Z.to_N (Base64.at_ Base64.STD_ALPHABET i)))) = true.
Proof. vm_compute. reflexivity. Qed.

Lemma all_b64_bytes l : Forall (fun b => is_b64_char (ascii_of_N (Z.to_N b)) = true) l -> all_b64 (str_of_bytes l) = true.
Proof. induction 1 as [|b l Hb _ IH]; [done|]. cbn. by rewrite Hb. Qed.

Lemma syms_b64 bs : is_bytes bs -> all_b64 (str_of_bytes (Base64.syms Base64.STANDARD bs)) = true.
Proof.
  intros Hb. apply all_b64_bytes. eapply Forall_impl; [by apply Base64.syms_symbols|].
  intros b (i & Hi & ->). apply (all_below_spec 64 _ symbol_b64 i). lia.
Qed.

Lemma decodable_is_base64 s bs : Base64.decode Base64.STANDARD (bytes_of_str s) = Ok bs -> s <> "" -> is_base64 s = true.
Proof.
  intros H Hne. unfold is_base64. destruct (String.eqb_spec s ""); [done|].
  assert (Base64.known Base64.STANDARD) as Hk by (by left).
  apply (Base64.decode_sound _ Hk _ _ (bytes_of_str_bytes s)) in H as [Hb E]. rewrite (Base64.encode_syms _ _ Hb) in E.
  rewrite <- (str_of_bytes_of_str s), E, str_of_bytes_app. apply is_base64_body; [by apply syms_b64|].
  unfold Base64.padding. cbn [Base64.padded Base64.STANDARD]. by repeat case_match.
Qed.

Lemma when_fatal b i l : is_warning i = false ->
  length (List.filter (fun i => negb (is_warning i)) (when b i ++ l)) = 0%nat <->
  b = false /\ length (List.filter (fun i => negb (is_warning i)) l) = 0%nat.
Proof. intros Hi. destruct b; cbn; [rewrite Hi; cbn; split; [lia|by intros [? _]]|tauto]. Qed.

(** An envelope has the right shape exactly when algorithm, signer and
    signature are present, the signature has base64 shape, and an alternative
    signature has it too and names its algorithm; unknown algorithms are
    warnings and never decide.  Every non-empty signature the strict base64
    decoder accepts has the shape, so no well-encoded envelope is refused. *)
Theorem envelope_shape_ok_iff e :
  (v_ok (validate_envelope_shape e) = true <->
    algorithm e <> "" /\ signer e <> "" /\ signature e <> "" /\ is_base64 (signature e) = true /\
    (forall alt, alt_signature e = Some alt -> is_base64 alt = true /\ alt_algorithm e <> None)) /\
  (forall s bs, Base64.decode Base64.STANDARD (bytes_of_str s) = Ok bs -> s <> "" -> is_base64 s = true).
Proof.
  split; [|apply decodable_is_base64]. unfold validate_envelope_shape. cbn [v_ok]. rewrite Nat.eqb_eq, !when_fatal by done.
  rewrite !String.eqb_neq. destruct (String.eqb_spec (signature e) "") as [Es|Es]; cbn [negb andb].
  { split; [naive_solver|]. intros (_ & _ & H & _). done. }
  rewrite negb_false_iff. destruct (alt_signature e) as [alt|].
  - rewrite when_fatal, <- (app_nil_r (when _ AltWithoutAlgorithm)), when_fatal by done. rewrite negb_false_iff.
    destruct (alt_algorithm e); naive_solver.
  - naive_solver.
Qed.

(** The shape is weaker than decodability. *)
Example shape_only : is_base64 "A" = true /\ is_ok (Base64.decode Base64.STANDARD (bytes_of_str "A")) = false /\ is_base64 "A===" = false.
Proof. vm_compute. auto. Qed.

End Profile.
