(* ===== verification/Jws.v ===== *)
(** * Jws: compact signed tokens ([jws.rs])

    Parsing of [header.payload.signature], the algorithm allow-list, the
    agreement of key and algorithm, the registered claims, and minting.  The
    signature crates and serde_json are the functions of [jws_lib]; the type
    of the claims and its serde instance are arguments. *)

From S2P Require Import Prelude Utf8 Json Base64 ActorId.

Module Jws.
#[local] Open Scope string_scope.
#[local] Open Scope list_scope.
#[local] Open Scope Z_scope.

Definition u64_max : Z := 2 ^ 64 - 1.

Inductive JwsError :=
| Malformed (m : string)
| UnsupportedAlgorithm (a : string)
| AlgorithmNotAllowed (a : string)
| BadKey (m : string)
| BadSignature
| InvalidClaim (m : string).

Inductive Algorithm := ES256 | ES384 | RS256 | RS384 | RS512 | EdDSA.
#[export] Instance Algorithm_eq_dec : EqDecision Algorithm.
Proof. solve_decision. Defined.

(** [str::to_ascii_uppercase]. *)
Definition upper (c : ascii) : ascii :=
  let n := N_of_ascii c in if ((97 <=? n) && (n <=? 122))%N then ascii_of_N (n - 32) else c.
Fixpoint to_ascii_uppercase (s : string) : string :=
  match s with EmptyString => "" | String c r => String (upper c) (to_ascii_uppercase r) end.

Definition parse (name : string) : result JwsError Algorithm :=
  let n := to_ascii_uppercase name in
  if (n =? "ES256")%string then Ok ES256
  else if (n =? "ES384")%string then Ok ES384
  else if (n =? "RS256")%string then Ok RS256
  else if (n =? "RS384")%string then Ok RS384
  else if (n =? "RS512")%string then Ok RS512
  else if (n =? "EDDSA")%string then Ok EdDSA
  else Err (UnsupportedAlgorithm n).

Definition name (a : Algorithm) : string :=
  match a with
  | ES256 => "ES256" | ES384 => "ES384" | RS256 => "RS256" | RS384 => "RS384" | RS512 => "RS512" | EdDSA => "EdDSA"
  end.

Record Header := mk_Header { alg : string; kid : option string; typ : option string; jwk : option json }.
Definition new_header (a : Algorithm) : Header := mk_Header (name a) None (Some "JWT") None.
Definition algorithm (h : Header) : result JwsError Algorithm := parse (alg h).

(** ** Registered claims *)

Record Validation := mk_Validation {
  algorithms : list Algorithm; leeway : Z; validate_exp : bool; validate_nbf : bool;
  issuer : option (list string); audience : option (list string)
}.
Definition new_validation (a : Algorithm) : Validation := mk_Validation [a] 0 true false None None.
Definition set_issuer (v : Validation) (issuers : list string) : Validation :=
  mk_Validation (algorithms v) (leeway v) (validate_exp v) (validate_nbf v) (Some issuers) (audience v).
Definition set_audience (v : Validation) (audiences : list string) : Validation :=
  mk_Validation (algorithms v) (leeway v) (validate_exp v) (validate_nbf v) (issuer v) (Some audiences).

(** [Value::as_u64]. *)
Definition as_u64 (v : json) : option Z :=
  match v with JNumber (NInt i) => if 0 <=? i then Some i else None | _ => None end.
Definition saturating_add (a b : Z) : Z := Z.min (a + b) u64_max.
Definition saturating_sub (a b : Z) : Z := Z.max (a - b) 0.

Definition check_exp (claims : json) (v : Validation) (now : Z) : result JwsError unit :=
  exp ← ok_or (jget "exp" claims ≫= as_u64) (InvalidClaim "exp missing");
  if saturating_add exp (leeway v) <? now then Err (InvalidClaim "token expired") else Ok tt.
Definition check_nbf (claims : json) (v : Validation) (now : Z) : result JwsError unit :=
  match jget "nbf" claims ≫= as_u64 with
  | Some nbf => if now <? saturating_sub nbf (leeway v) then Err (InvalidClaim "token not yet valid") else Ok tt
  | None => Ok tt
  end.
Definition check_iss (claims : json) (issuers : list string) : result JwsError unit :=
  iss ← ok_or (jget "iss" claims ≫= as_str) (InvalidClaim "iss missing");
  if negb (existsb (String.eqb iss) issuers) then Err (InvalidClaim ("issuer " +:+ iss +:+ " not accepted")) else Ok tt.
Definition aud_ok (claims : json) (audiences : list string) : bool :=
  match jget "aud" claims with
  | Some (JString a) => existsb (String.eqb a) audiences
  | Some (JArray arr) => existsb (fun a => existsb (String.eqb a) audiences) (omap as_str arr)
  | _ => false
  end.

Definition validate_registered_claims (claims : json) (v : Validation) (now : Z) : result JwsError unit :=
  _ ← (if validate_exp v then check_exp claims v now else Ok tt);
  _ ← (if validate_nbf v then check_nbf claims v now else Ok tt);
  _ ← match issuer v with Some issuers => check_iss claims issuers | None => Ok tt end;
  match audience v with
  | Some audiences => if negb (aud_ok claims audiences) then Err (InvalidClaim "audience not accepted") else Ok tt
  | None => Ok tt
  end.

(** ** The compact form *)

(** [str::split(c)]: the texts between the occurrences of [c]. *)
Fixpoint split (c : ascii) (s : string) : list string :=
  match s with
  | EmptyString => [""]
  | String d r => if Ascii.eqb d c then "" :: split c r
                  else match split c r with [] => [String d ""] | w :: ws => String d w :: ws end
  end.

Definition b64_decode (s : string) : result Base64.DecodeError (list Z) :=
  Base64.decode Base64.URL_SAFE_NO_PAD (bytes_of_str s).
Definition b64_encode (bs : list Z) : string := str_of_bytes (Base64.encode Base64.URL_SAFE_NO_PAD bs).

(** The SHA-2 variant of an RSA signature. *)
Inductive rsa_digest := Sha256 | Sha384 | Sha512.

(** ed25519-dalek, p256, p384 and rsa; serde_json on the header and on
    untyped values.  An error is its text; a signature that does not parse
    is [None]. *)
Record jws_lib := mk_jws_lib {
  ed_key : Type; p256_key : Type; p384_key : Type; rsa_key : Type; ed_secret : Type; p256_secret : Type;
  ed_sig : Type; p256_sig : Type; p384_sig : Type; rsa_sig : Type;
  ed_from_bytes : list Z -> result string ed_key;
  p256_from_sec1 : list Z -> result string p256_key;
  p384_from_sec1 : list Z -> result string p384_key;
  rsa_new : Z -> Z -> result string rsa_key;
  ed_sig_from : list Z -> option ed_sig;
  p256_sig_from : list Z -> option p256_sig;
  p384_sig_from : list Z -> option p384_sig;
  rsa_sig_from : list Z -> option rsa_sig;
  ed_verify : ed_key -> list Z -> ed_sig -> bool;
  p256_verify : p256_key -> list Z -> p256_sig -> bool;
  p384_verify : p384_key -> list Z -> p384_sig -> bool;
  rsa_verify : rsa_digest -> rsa_key -> list Z -> rsa_sig -> bool;
  ed_from_pem : string -> result string ed_secret;
  p256_from_pem : string -> result string p256_secret;
  ed_sign : ed_secret -> list Z -> list Z;
  p256_sign : p256_secret -> list Z -> list Z;
  header_from_slice : list Z -> result string Header;
  header_to_vec : Header -> result string (list Z);
  value_from_slice : list Z -> result string json
}.

Section lib.
Context (x : jws_lib).

Inductive DecodingKey :=
| Ed25519 (k : ed_key x)
| P256 (k : p256_key x)
| P384 (k : p384_key x)
| Rsa (k : rsa_key x).
Inductive EncodingKey :=
| EncEd25519 (k : ed_secret x)
| EncP256 (k : p256_secret x).

Definition header_of (segment : string) : result JwsError Header :=
  bytes ← map_err (fun e => Malformed ("header base64url: " +:+ Base64.decode_error_str e)) (b64_decode segment);
  map_err (fun e => Malformed ("header JSON: " +:+ e)) (header_from_slice x bytes).

Definition decode_header (token : string) : result JwsError Header :=
  first ← ok_or (head (split "." token)) (Malformed "empty token");
  header_of first.

(** ** Keys *)

Definition b64u (s what : string) : result JwsError (list Z) :=
  map_err (fun e => BadKey ("base64url " +:+ what +:+ ": " +:+ Base64.decode_error_str e)) (b64_decode s).

Definition from_ec_components (sx sy : string) : result JwsError DecodingKey :=
  xb ← b64u sx "x"; yb ← b64u sy "y";
  if negb (length xb =? length yb)%nat then Err (BadKey "EC x/y length mismatch") else
  let sec1 := 4 :: xb ++ yb in
  if (length xb =? 32)%nat then map_err (fun e => BadKey ("P-256 point: " +:+ e)) (k ← p256_from_sec1 x sec1; Ok (P256 k))
  else if (length xb =? 48)%nat then map_err (fun e => BadKey ("P-384 point: " +:+ e)) (k ← p384_from_sec1 x sec1; Ok (P384 k))
  else Err (BadKey ("unsupported EC width " +:+ pretty (Z.of_nat (length xb)))).

Definition from_rsa_components (n e : string) : result JwsError DecodingKey :=
  nb ← b64u n "n"; eb ← b64u e "e";
  key ← map_err (fun e => BadKey ("RSA components: " +:+ e)) (rsa_new x (of_be nb) (of_be eb));
  Ok (Rsa key).

Definition from_ed_components (sx : string) : result JwsError DecodingKey :=
  xb ← b64u sx "x";
  if negb (length xb =? 32)%nat then Err (BadKey "Ed25519 x must be 32 bytes") else
  map_err (fun e => BadKey ("Ed25519 point: " +:+ e)) (k ← ed_from_bytes x xb; Ok (Ed25519 k)).

(** A signature that does not parse and one that does not verify are the
    same error. *)
Definition check_sig {S} (sig : option S) (verify : S -> bool) : result JwsError unit :=
  sig ← ok_or sig BadSignature;
  if verify sig then Ok tt else Err BadSignature.

Definition verify_rsa (d : rsa_digest) (key : rsa_key x) (message signature : list Z) : result JwsError unit :=
  check_sig (rsa_sig_from x signature) (rsa_verify x d key message).

Definition verify (key : DecodingKey) (a : Algorithm) (message signature : list Z) : result JwsError unit :=
  match key, a with
  | Ed25519 k, EdDSA => check_sig (ed_sig_from x signature) (ed_verify x k message)
  | P256 k, ES256 => check_sig (p256_sig_from x signature) (p256_verify x k message)
  | P384 k, ES384 => check_sig (p384_sig_from x signature) (p384_verify x k message)
  | Rsa k, RS256 => verify_rsa Sha256 k message signature
  | Rsa k, RS384 => verify_rsa Sha384 k message signature
  | Rsa k, RS512 => verify_rsa Sha512 k message signature
  | _, _ => Err (AlgorithmNotAllowed (name a +:+ " incompatible with the provided key type"))
  end.

(** ** Verifying and minting *)

Context {T : Type} (claims_to_vec : T -> result string (list Z)) (claims_of : json -> result string T).

Record TokenData := mk_TokenData { header : Header; claims : T }.

Definition decode (token : string) (key : DecodingKey) (v : Validation) (now : Z) : result JwsError TokenData :=
  match split "." token with
  | [h; p; s] =>
    header ← header_of h;
    a ← algorithm header;
    if negb (bool_decide (a ∈ algorithms v)) then Err (AlgorithmNotAllowed (name a)) else
    signature ← map_err (fun e => Malformed ("signature base64url: " +:+ Base64.decode_error_str e)) (b64_decode s);
    let message := take (String.length h + 1 + String.length p) (bytes_of_str token) in
    _ ← verify key a message signature;
    payload_bytes ← map_err (fun e => Malformed ("payload base64url: " +:+ Base64.decode_error_str e)) (b64_decode p);
    claims_value ← map_err (fun e => Malformed ("payload JSON: " +:+ e)) (value_from_slice x payload_bytes);
    _ ← validate_registered_claims claims_value v now;
    claims ← map_err (fun e => Malformed ("claims shape: " +:+ e)) (claims_of claims_value);
    Ok (mk_TokenData header claims)
  | _ => Err (Malformed "expected three dot-separated segments")
  end.

Definition from_ed_pem (pem : list Z) : result JwsError EncodingKey :=
  if negb (valid_utf8 pem) then Err (BadKey "PEM not UTF-8") else
  map_err (fun e => BadKey ("Ed25519 PKCS#8: " +:+ e)) (k ← ed_from_pem x (str_of_bytes pem); Ok (EncEd25519 k)).
Definition from_ec_pem (pem : list Z) : result JwsError EncodingKey :=
  if negb (valid_utf8 pem) then Err (BadKey "PEM not UTF-8") else
  map_err (fun e => BadKey ("EC PKCS#8: " +:+ e)) (k ← p256_from_pem x (str_of_bytes pem); Ok (EncP256 k)).

Definition sign (key : EncodingKey) (a : Algorithm) (message : list Z) : result JwsError (list Z) :=
  match key, a with
  | EncEd25519 k, EdDSA => Ok (ed_sign x k message)
  | EncP256 k, ES256 => Ok (p256_sign x k message)
  | _, _ => Err (AlgorithmNotAllowed (name a +:+ " incompatible with the provided signing key"))
  end.

Definition encode (header : Header) (claims : T) (key : EncodingKey) : result JwsError string :=
  a ← algorithm header;
  header_json ← map_err Malformed (header_to_vec x header);
  payload_json ← map_err Malformed (claims_to_vec claims);
  let token := b64_encode header_json +:+ "." +:+ b64_encode payload_json in
  signature ← sign key a (bytes_of_str token);
  Ok (token +:+ "." +:+ b64_encode signature).

End lib.

Arguments decode {x T}. Arguments encode {x T}. Arguments verify {x}. Arguments sign {x}.
Arguments Ed25519 {x}. Arguments P256 {x}. Arguments P384 {x}. Arguments Rsa {x}. Arguments EncEd25519 {x}. Arguments EncP256 {x}.
Arguments mk_TokenData {T}. Arguments header {T}. Arguments claims {T}.

(** ** Segments *)

Lemma split_none c s : ActorId.has c s = false -> split c s = [s].
Proof. induction s as [|d s IH]; [done|]. cbn. intros [-> H]%orb_false_iff. by rewrite IH. Qed.

Lemma split_cons c a b : ActorId.has c a = false -> split c (a +:+ String c b) = a :: split c b.
Proof.
  induction a as [|d a IH]; [intros _; rewrite str_app_nil_l; cbn; by rewrite Ascii.eqb_refl|].
  rewrite str_app_cons. cbn. intros [-> H]%orb_false_iff. by rewrite IH.
Qed.

Lemma split_inv c s w ws : split c s = w :: ws -> ActorId.has c w = false /\
  (ws = [] /\ s = w \/ exists r, s = w +:+ String c r /\ split c r = ws).
Proof.
  revert w ws. induction s as [|d s IH]; intros w ws; [cbn; intros [= <- <-]; auto|]. cbn [split].
  destruct (Ascii.eqb d c) eqn:Ed; [apply Ascii.eqb_eq in Ed as ->; intros [= <- <-]; split; [done|right; by exists s]|].
  destruct (split c s) as [|w' ws'] eqn:Es.
  - intros [= <- <-]. destruct s as [|d' s]; [discriminate|]. cbn in Es. repeat case_match; discriminate.
  - intros [= <- <-]. destruct (IH _ _ eq_refl) as [H H']. split; [cbn; by rewrite Ed|].
    destruct H' as [[-> ->]|(r & -> & <-)]; [by left|]. right. exists r. by rewrite str_app_cons.
Qed.

(** The compact serialization of three byte strings. *)
Definition signing_input (hb pb : list Z) : string := b64_encode hb +:+ "." +:+ b64_encode pb.
Definition compact (hb pb sb : list Z) : string := signing_input hb pb +:+ "." +:+ b64_encode sb.

Lemma url_no_dot : all_below 64 (fun i => negb (Ascii.eqb (ascii_of_N (Z.to_N (Base64.at_ Base64.URL_ALPHABET i))) ".")) = true.
Proof. vm_compute. reflexivity. Qed.

Lemma has_bytes c l : Forall (fun b => negb (Ascii.eqb (ascii_of_N (Z.to_N b)) c) = true) l -> ActorId.has c (str_of_bytes l) = false.
Proof. induction 1 as [|b l Hb _ IH]; [done|]. cbn. by rewrite (proj1 (negb_true_iff _) Hb). Qed.

Lemma b64_no_dot bs : is_bytes bs -> ActorId.has "." (b64_encode bs) = false.
Proof.
  intros Hb. apply has_bytes. rewrite Base64.encode_syms by done. unfold Base64.padding. cbn [Base64.padded Base64.URL_SAFE_NO_PAD].
  rewrite app_nil_r. eapply Forall_impl; [by apply Base64.syms_symbols|].
  intros b (i & Hi & ->). apply (all_below_spec 64 _ url_no_dot i). lia.
Qed.

Lemma b64_decode_iff s bs : b64_decode s = Ok bs <-> is_bytes bs /\ s = b64_encode bs.
Proof.
  unfold b64_decode, b64_encode. split.
  - intros H. apply Base64.decode_sound in H as [Hb E]; [|by right|apply bytes_of_str_bytes].
    split; [done|]. by rewrite <- E, str_of_bytes_of_str.
  - intros [Hb ->]. rewrite bytes_of_str_of_bytes by (apply Base64.encode_bytes; [by right|done]).
    apply Base64.b64_decode_encode; [by right|done].
Qed.

Lemma split_compact hb pb sb : is_bytes hb -> is_bytes pb -> is_bytes sb ->
  split "." (compact hb pb sb) = [b64_encode hb; b64_encode pb; b64_encode sb].
Proof.
  intros H1 H2 H3. unfold compact, signing_input. rewrite !str_app_assoc, !str_app_cons, !str_app_nil_l.
  by rewrite !split_cons, split_none by by apply b64_no_dot.
Qed.

Lemma split_three token h p s : split "." token = [h; p; s] -> token = h +:+ "." +:+ p +:+ "." +:+ s.
Proof.
  intros [_ [[? _]|(r & -> & E)]]%split_inv; [discriminate|].
  apply split_inv in E as [_ [[? _]|(r' & -> & E)]]; [discriminate|].
  apply split_inv in E as [_ [[_ ->]|(r'' & _ & E)]]; [by rewrite !str_app_cons, !str_app_nil_l|].
  destruct r'' as [|d r'']; [discriminate|]. cbn in E. repeat case_match; discriminate.
Qed.

Lemma message_compact h p s :
  take (String.length h + 1 + String.length p) (bytes_of_str (h +:+ "." +:+ p +:+ "." +:+ s)) = bytes_of_str (h +:+ "." +:+ p).
Proof.
  replace (h +:+ "." +:+ p +:+ "." +:+ s) with ((h +:+ "." +:+ p) +:+ "." +:+ s) by by rewrite !str_app_assoc.
  rewrite (bytes_of_str_app (h +:+ "." +:+ p)).
  rewrite take_app_length'; [done|]. rewrite length_bytes_of_str, !str_length_app. cbn [String.length]. lia.
Qed.

(** ** What an accepted token is *)

(** The key and the algorithm agree and the signature verifies. *)
Definition accepts {x} (key : DecodingKey x) (a : Algorithm) (message sb : list Z) : Prop :=
  match key, a with
  | Ed25519 k, EdDSA => exists s, ed_sig_from x sb = Some s /\ ed_verify x k message s = true
  | P256 k, ES256 => exists s, p256_sig_from x sb = Some s /\ p256_verify x k message s = true
  | P384 k, ES384 => exists s, p384_sig_from x sb = Some s /\ p384_verify x k message s = true
  | Rsa k, RS256 => exists s, rsa_sig_from x sb = Some s /\ rsa_verify x Sha256 k message s = true
  | Rsa k, RS384 => exists s, rsa_sig_from x sb = Some s /\ rsa_verify x Sha384 k message s = true
  | Rsa k, RS512 => exists s, rsa_sig_from x sb = Some s /\ rsa_verify x Sha512 k message s = true
  | _, _ => False
  end.

Lemma check_sig_ok {S} (sig : option S) (f : S -> bool) : check_sig sig f = Ok tt <-> exists s, sig = Some s /\ f s = true.
Proof.
  unfold check_sig. destruct sig as [s|]; cbn [ok_or mbind result_bind]; [|split; [discriminate|by intros (? & ? & _)]].
  destruct (f s) eqn:E; split; [by exists s|done|discriminate|]. intros (? & [= <-] & E'). congruence.
Qed.

Lemma verify_ok {x} (key : DecodingKey x) a m sb : verify key a m sb = Ok tt <-> accepts key a m sb.
Proof. destruct key, a; try (split; [discriminate|done]); cbn; apply check_sig_ok. Qed.

(** The registered claims a token has to satisfy at [now]. *)
Record claims_valid (claims : json) (v : Validation) (now : Z) : Prop := {
  valid_exp : validate_exp v = true -> exists e, jget "exp" claims ≫= as_u64 = Some e /\ now <= e + leeway v;
  valid_nbf : validate_nbf v = true -> forall n, jget "nbf" claims ≫= as_u64 = Some n -> n - leeway v <= now;
  valid_iss : forall l, issuer v = Some l -> exists i, jget "iss" claims = Some (JString i) /\ i ∈ l;
  valid_aud : forall l, audience v = Some l ->
    exists a, a ∈ l /\ (jget "aud" claims = Some (JString a) \/ exists arr, jget "aud" claims = Some (JArray arr) /\ JString a ∈ arr)
}.

Lemma existsb_eqb s l : existsb (String.eqb s) l = true <-> s ∈ l.
Proof.
  rewrite existsb_exists. setoid_rewrite <- list_elem_of_In. split; [|intros H; exists s; by rewrite String.eqb_refl].
  by intros (t & Ht & ->%String.eqb_eq).
Qed.

Lemma aud_ok_iff claims l : aud_ok claims l = true <->
  exists a, a ∈ l /\ (jget "aud" claims = Some (JString a) \/ exists arr, jget "aud" claims = Some (JArray arr) /\ JString a ∈ arr).
Proof.
  unfold aud_ok. destruct (jget "aud" claims) as [[| | |s|arr|]|];
    try (split; [discriminate|]; intros (a & _ & [?|(? & ? & _)]); discriminate).
  - rewrite existsb_eqb. split; [intros; exists s; auto|]. by intros (a & Ha & [[= ->]|(? & ? & _)]).
  - rewrite existsb_exists. setoid_rewrite <- list_elem_of_In. setoid_rewrite list_elem_of_omap. split.
    + intros (a & ([] & Hv & [= ->]) & Ha%existsb_eqb). exists a. split; [done|]. right. by exists arr.
    + intros (a & Ha & [?|(arr' & [= <-] & Hin)]); [discriminate|]. exists a. split; [by exists (JString a)|]. by apply existsb_eqb.
Qed.

Lemma check_exp_ok claims v now : 0 <= now <= u64_max -> check_exp claims v now = Ok tt <->
  exists e, jget "exp" claims ≫= as_u64 = Some e /\ now <= e + leeway v.
Proof.
  intros Hn. unfold check_exp. destruct (jget "exp" claims ≫= as_u64) as [e|]; cbn [ok_or mbind result_bind].
  - unfold saturating_add. destruct (Z.ltb_spec (Z.min (e + leeway v) u64_max) now) as [H|H].
    + split; [discriminate|]. intros (e' & [= <-] & H'). lia.
    + split; [|done]. intros _. exists e. split; [done|]. lia.
  - split; [discriminate|by intros (? & ? & _)].
Qed.

Lemma check_nbf_ok claims v now : 0 <= now -> check_nbf claims v now = Ok tt <->
  forall n, jget "nbf" claims ≫= as_u64 = Some n -> n - leeway v <= now.
Proof.
  intros Hn. unfold check_nbf. destruct (jget "nbf" claims ≫= as_u64) as [n|]; [|done].
  unfold saturating_sub. destruct (Z.ltb_spec now (Z.max (n - leeway v) 0)) as [H|H].
  - split; [discriminate|]. intros H'. specialize (H' n eq_refl). lia.
  - split; [|done]. intros _ n' [= <-]. lia.
Qed.

Lemma check_iss_ok claims l : check_iss claims l = Ok tt <-> exists i, jget "iss" claims = Some (JString i) /\ i ∈ l.
Proof.
  unfold check_iss. destruct (jget "iss" claims) as [[| | |s| |]|]; cbn [mbind option_bind as_str ok_or result_bind];
    try (split; [discriminate|]; intros (? & ? & _); discriminate).
  destruct (existsb (String.eqb s) l) eqn:E; cbn [negb]; split; [|done|discriminate|].
  - intros _. exists s. by rewrite <- existsb_eqb.
  - intros (i & [= <-] & H). apply existsb_eqb in H. congruence.
Qed.

Lemma claims_ok claims v now : 0 <= now <= u64_max -> validate_registered_claims claims v now = Ok tt <-> claims_valid claims v now.
Proof.
  intros Hn. unfold validate_registered_claims. split.
  - intros ([] & H1 & ([] & H2 & ([] & H3 & H4)%bind_ok)%bind_ok)%bind_ok. split.
    + intros E. rewrite E in H1. by apply check_exp_ok.
    + intros E. rewrite E in H2. exact (proj1 (check_nbf_ok claims v now (proj1 Hn)) H2).
    + intros l E. rewrite E in H3. by apply check_iss_ok.
    + intros l E. rewrite E in H4. apply aud_ok_iff. by destruct (aud_ok claims l).
  - intros [H1 H2 H3 H4]. assert ((if validate_exp v then check_exp claims v now else Ok tt) = Ok tt) as ->.
    { destruct (validate_exp v); [|done]. apply check_exp_ok; auto. }
    assert ((if validate_nbf v then check_nbf claims v now else Ok tt) = Ok tt) as ->.
    { destruct (validate_nbf v); [|done]. apply check_nbf_ok; [lia|auto]. }
    cbn [mbind result_bind]. assert (match issuer v with Some l => check_iss claims l | None => Ok tt end = Ok tt) as ->.
    { destruct (issuer v) as [l|]; [|done]. apply check_iss_ok; auto. }
    cbn [mbind result_bind]. destruct (audience v) as [l|]; [|done]. by rewrite (proj2 (aud_ok_iff claims l)) by auto.
Qed.

(** What a verifier establishes about a token. *)
Definition token_ok {x T} (claims_of : json -> result string T) (hb pb sb : list Z) (key : DecodingKey x) (v : Validation) (now : Z)
    (d : TokenData) : Prop := exists a cv,
  header_from_slice x hb = Ok (header d) /\ algorithm (header d) = Ok a /\ a ∈ algorithms v /\
  accepts key a (bytes_of_str (signing_input hb pb)) sb /\
  value_from_slice x pb = Ok cv /\ claims_valid cv v now /\ claims_of cv = Ok (claims d).

Lemma decode_compact {x T} (claims_of : json -> result string T) hb pb sb (key : DecodingKey x) v now d :
  0 <= now <= u64_max -> is_bytes hb -> is_bytes pb -> is_bytes sb -> token_ok claims_of hb pb sb key v now d ->
  decode claims_of (compact hb pb sb) key v now = Ok d.
Proof.
  intros Hnow Hb Hp Hs (a & cv & Hh & Ha & Hin & Hv & Hcv & Hc & Hcl).
  unfold decode. rewrite split_compact by done. unfold header_of. rewrite (proj2 (b64_decode_iff _ _) (conj Hb eq_refl)).
  cbn [map_err mbind result_bind]. rewrite Hh. cbn [map_err mbind result_bind]. rewrite Ha. cbn [mbind result_bind].
  rewrite bool_decide_eq_true_2 by done. cbn [negb]. rewrite (proj2 (b64_decode_iff _ _) (conj Hs eq_refl)).
  cbn [map_err mbind result_bind].
  replace (compact hb pb sb) with (b64_encode hb +:+ "." +:+ b64_encode pb +:+ "." +:+ b64_encode sb)
    by (unfold compact, signing_input; by rewrite !str_app_assoc).
  rewrite message_compact. fold (signing_input hb pb). rewrite (proj2 (verify_ok _ _ _ _) Hv).
  rewrite (proj2 (b64_decode_iff _ _) (conj Hp eq_refl)). cbn [map_err mbind result_bind]. rewrite Hcv. cbn [map_err mbind result_bind].
  rewrite (proj2 (claims_ok _ _ _ Hnow) Hc). cbn [mbind result_bind]. rewrite Hcl. by destruct d.
Qed.

Lemma decode_inv {x T} (claims_of : json -> result string T) token (key : DecodingKey x) v now d : 0 <= now <= u64_max ->
  decode claims_of token key v now = Ok d ->
  exists hb pb sb, is_bytes hb /\ is_bytes pb /\ is_bytes sb /\ token = compact hb pb sb /\ token_ok claims_of hb pb sb key v now d.
Proof.
  intros Hnow. unfold decode. destruct (split "." token) as [|h [|p [|s [|? ?]]]] eqn:Es; try discriminate.
  intros (hd & H1 & (a & H2 & H)%bind_ok)%bind_ok. destruct (bool_decide (a ∈ algorithms v)) eqn:Ea; [|discriminate].
  cbn [negb] in H. apply bind_ok in H as (sb & [Hs ->]%map_err_ok%b64_decode_iff & ([] & Hv & H)%bind_ok).
  apply bind_ok in H as (pb & [Hp ->]%map_err_ok%b64_decode_iff & (cv & Hcv%map_err_ok & ([] & Hc & H)%bind_ok)%bind_ok).
  apply bind_ok in H as (c & Hcl%map_err_ok & [= <-]). apply bind_ok in H1 as (hb & [Hb ->]%map_err_ok%b64_decode_iff & Hh%map_err_ok).
  apply split_three in Es as ->. rewrite message_compact in Hv. exists hb, pb, sb. repeat split; try done.
  { unfold compact, signing_input. by rewrite !str_app_assoc. }
  exists a, cv. apply bool_decide_eq_true in Ea. apply verify_ok in Hv. apply claims_ok in Hc; [|done]. done.
Qed.

(** C19: [decode] accepts exactly the canonical serializations: a token is
    accepted with a result exactly when it is the unpadded base64url form of
    a header, a payload and a signature, the header names an algorithm that
    the caller allows and that fits the type of the key, the signature
    verifies over the two first segments as they are written, and the
    payload satisfies every registered claim the caller asks for.  The
    saturating clock arithmetic of the code is exact.  Distinct tokens never
    have the same three parts. *)
Theorem jws_decode_iff {x T} (claims_of : json -> result string T) token (key : DecodingKey x) v now d
    (Hnow : 0 <= now <= u64_max) :
  (decode claims_of token key v now = Ok d <->
   exists hb pb sb, is_bytes hb /\ is_bytes pb /\ is_bytes sb /\ token = compact hb pb sb /\ token_ok claims_of hb pb sb key v now d) /\
  (forall hb pb sb hb' pb' sb', is_bytes hb -> is_bytes pb -> is_bytes sb -> is_bytes hb' -> is_bytes pb' -> is_bytes sb' ->
   compact hb pb sb = compact hb' pb' sb' -> hb = hb' /\ pb = pb' /\ sb = sb').
Proof.
  split; [split|].
  - by apply decode_inv.
  - intros (hb & pb & sb & Hb & Hp & Hs & -> & H). by apply decode_compact.
  - intros * H1 H2 H3 H4 H5 H6 E%(f_equal (split ".")). rewrite !split_compact in E by done.
    assert (forall b b', is_bytes b -> is_bytes b' -> b64_encode b = b64_encode b' -> b = b') as Hinj.
    { intros b b' Hb Hb' Eb. apply (Ok_inj (E := Base64.DecodeError)).
      rewrite <- (proj2 (b64_decode_iff _ _) (conj Hb eq_refl)), Eb. by apply b64_decode_iff. }
    injection E as E1 E2 E3. auto.
Qed.

(** ** Minting *)

Lemma parse_iff s a : parse s = Ok a <-> to_ascii_uppercase s = to_ascii_uppercase (name a).
Proof.
  unfold parse. split.
  - intros H. destruct (to_ascii_uppercase s =? _)%string eqn:E in H; [apply String.eqb_eq in E; rewrite E; by injection H as <-|clear E].
    repeat (destruct (to_ascii_uppercase s =? _)%string eqn:E in H; [apply String.eqb_eq in E; rewrite E; by injection H as <-|clear E]).
    discriminate.
  - intros ->. by destruct a.
Qed.

(** A signing key with the algorithm it signs with, and the verifying key
    that belongs to it: every signature parses and verifies. *)
Definition key_alg {x} (key : EncodingKey x) : Algorithm := match key with EncEd25519 _ => EdDSA | EncP256 _ => ES256 end.
Definition key_pair {x} (ek : EncodingKey x) (dk : DecodingKey x) : Prop := forall m,
  match ek, dk with
  | EncEd25519 sk, Ed25519 pk =>
    is_bytes (ed_sign x sk m) /\ exists s, ed_sig_from x (ed_sign x sk m) = Some s /\ ed_verify x pk m s = true
  | EncP256 sk, P256 pk =>
    is_bytes (p256_sign x sk m) /\ exists s, p256_sig_from x (p256_sign x sk m) = Some s /\ p256_verify x pk m s = true
  | _, _ => False
  end.

Lemma sign_accepts {x} (ek : EncodingKey x) dk m : key_pair ek dk -> exists sb,
  sign ek (key_alg ek) m = Ok sb /\ is_bytes sb /\ accepts dk (key_alg ek) m sb.
Proof. intros H. specialize (H m). destruct ek, dk; try done; destruct H as [Hb H]; eexists; (split; [reflexivity|done]). Qed.

(** Minting and verifying agree.  A header that names the algorithm of
    the signing key and claims that serialize give a token; the verifier
    that holds the matching key and allows the algorithm returns the header
    and the claims, provided the claims are valid at the time.  With any
    other algorithm in the header nothing is minted. *)
Theorem jws_roundtrip {x T} (claims_to_vec : T -> result string (list Z)) (claims_of : json -> result string T)
    hd c ek (dk : DecodingKey x) v now hb pb cv
    (Hnow : 0 <= now <= u64_max) (Hkey : key_pair ek dk)
    (Hh : header_to_vec x hd = Ok hb) (Hhb : is_bytes hb) (Hh' : header_from_slice x hb = Ok hd)
    (Hc : claims_to_vec c = Ok pb) (Hpb : is_bytes pb) (Hcv : value_from_slice x pb = Ok cv) (Hc' : claims_of cv = Ok c)
    (Hv : key_alg ek ∈ algorithms v) (Hval : claims_valid cv v now) :
  (algorithm hd = Ok (key_alg ek) ->
   exists token, encode claims_to_vec hd c ek = Ok token /\ decode claims_of token dk v now = Ok (mk_TokenData hd c)) /\
  (algorithm hd <> Ok (key_alg ek) -> is_ok (encode claims_to_vec hd c ek) = false).
Proof.
  split.
  - intros Ha. destruct (sign_accepts ek dk (bytes_of_str (signing_input hb pb)) Hkey) as (sb & Hs & Hsb & Hacc).
    exists (compact hb pb sb). split.
    + unfold encode. rewrite Ha, Hh, Hc. cbn [map_err mbind result_bind]. fold (signing_input hb pb). by rewrite Hs.
    + apply decode_compact; try done. by exists (key_alg ek), cv.
  - intros Hne. unfold encode. destruct (algorithm hd) as [a|] eqn:Ea; [|done]. rewrite Hh, Hc. cbn [map_err mbind result_bind].
    assert (a <> key_alg ek) by congruence. destruct ek, a; done.
Qed.

(** An EC key is built from two coordinates of the width of its curve. *)
Lemma from_ec_components_ok x sx sy key : from_ec_components x sx sy = Ok key <-> exists xb yb,
  b64_decode sx = Ok xb /\ b64_decode sy = Ok yb /\ length xb = length yb /\
  (length xb = 32%nat /\ (exists k, p256_from_sec1 x (4 :: xb ++ yb) = Ok k /\ key = P256 k) \/
   length xb = 48%nat /\ (exists k, p384_from_sec1 x (4 :: xb ++ yb) = Ok k /\ key = P384 k)).
Proof.
  unfold from_ec_components. split.
  - intros (xb & Hx%map_err_ok & (yb & Hy%map_err_ok & H)%bind_ok)%bind_ok. exists xb, yb.
    destruct (Nat.eqb_spec (length xb) (length yb)) as [El|]; [|discriminate]. cbn [negb] in H.
    destruct (Nat.eqb_spec (length xb) 32) as [E|_]; [|destruct (Nat.eqb_spec (length xb) 48) as [E|_]; [|discriminate]];
      apply map_err_ok, bind_ok in H as (k & Hk & [= <-]); repeat split; try done; [left|right]; eauto.
  - intros (xb & yb & Hx & Hy & El & H). unfold b64u. rewrite Hx, Hy. cbn [map_err mbind result_bind].
    rewrite (proj2 (Nat.eqb_eq _ _) El). cbn [negb]. destruct H as [[E (k & Hk & ->)]|[E (k & Hk & ->)]]; rewrite E; cbn [Nat.eqb];
      by rewrite Hk.
Qed.

(** ** Witnesses *)

Definition toy_sign (k m : list Z) : list Z := (fun b => b mod 256) <$> (k ++ m).
Definition claims1 : json := JObject [("exp", jint 100); ("iss", JString "idp"); ("aud", JArray [JString "a"; JString "b"])].
Definition toy : jws_lib := {|
  ed_key := list Z; p256_key := list Z; p384_key := list Z; rsa_key := Z * Z; ed_secret := list Z; p256_secret := list Z;
  ed_sig := list Z; p256_sig := list Z; p384_sig := list Z; rsa_sig := list Z;
  ed_from_bytes := Ok; p256_from_sec1 := Ok; p384_from_sec1 := Ok; rsa_new := fun n e => Ok (n, e);
  ed_sig_from := Some; p256_sig_from := Some; p384_sig_from := Some; rsa_sig_from := Some;
  ed_verify := fun k m s => bool_decide (s = toy_sign k m); p256_verify := fun k m s => bool_decide (s = toy_sign k m);
  p384_verify := fun k m s => bool_decide (s = toy_sign k m); rsa_verify := fun _ _ _ _ => false;
  ed_from_pem := fun s => Ok (bytes_of_str s); p256_from_pem := fun s => Ok (bytes_of_str s);
  ed_sign := toy_sign; p256_sign := toy_sign;
  header_from_slice := fun bs => Ok (mk_Header (str_of_bytes bs) None (Some "JWT") None);
  header_to_vec := fun h => Ok (bytes_of_str (alg h));
  value_from_slice := fun bs => if bool_decide (bs = [123; 125]) then Ok claims1 else Err "syntax"
|}.
Lemma toy_sign_bytes k m : is_bytes (toy_sign k m).
Proof. apply Forall_fmap, Forall_true. intros b. apply Z.mod_pos_bound. lia. Qed.
Lemma toy_pair k : key_pair (x := toy) (EncEd25519 (x := toy) k) (Ed25519 (x := toy) k).
Proof. intros m. split; [apply toy_sign_bytes|]. eexists. split; [reflexivity|]. by apply bool_decide_eq_true. Qed.
Definition validation1 : Validation := set_audience (set_issuer (new_validation EdDSA) ["idp"]) ["b"].
Lemma claims1_valid : claims_valid claims1 validation1 100.
Proof.
  split; cbn; [|discriminate|intros l [= <-]; exists "idp"; split; [done|set_solver]|].
  - intros _. exists 100. split; [done|lia].
  - intros l [= <-]. exists "b". split; [set_solver|]. right. exists [JString "a"; JString "b"]. split; [done|set_solver].
Qed.

Lemma jws_decode_iff_witness : decode (x := toy) Ok (compact (bytes_of_str "eddsa") [123; 125]
    (toy_sign [7] (bytes_of_str (signing_input (bytes_of_str "eddsa") [123; 125])))) (Ed25519 (x := toy) [7]) validation1 100 =
  Ok (mk_TokenData (mk_Header "eddsa" None (Some "JWT") None) claims1).
Proof.
  apply (jws_decode_iff (x := toy)); [unfold u64_max; lia|]. do 3 eexists. repeat split;
    [apply bytes_of_str_bytes| |apply toy_sign_bytes|..]; [repeat constructor; unfold is_u8; lia|].
  exists EdDSA, claims1. split_and!; try done; try set_solver; try apply claims1_valid.
Defined.

Lemma jws_roundtrip_witness : exists token, encode (x := toy) (fun _ : json => Ok [123; 125]) (new_header EdDSA) claims1 (EncEd25519 (x := toy) [7]) = Ok token /\
  decode (x := toy) Ok token (Ed25519 (x := toy) [7]) validation1 100 = Ok (mk_TokenData (new_header EdDSA) claims1).
Proof.
  apply (jws_roundtrip (x := toy) (fun _ : json => Ok [123; 125]) Ok (new_header EdDSA) claims1 (EncEd25519 (x := toy) [7])
    (Ed25519 (x := toy) [7]) validation1 100 (bytes_of_str "EdDSA") [123; 125] claims1);
    try done; try apply toy_pair; try apply claims1_valid; try (unfold u64_max; lia); try set_solver.
  - apply bytes_of_str_bytes.
  - repeat constructor; unfold is_u8; lia.
Defined.

(** [none] is not an algorithm, and a key of another type is refused. *)
Example alg_none : parse "none" = Err (UnsupportedAlgorithm "NONE") /\
  verify (x := toy) (Rsa (x := toy) (3, 5)) ES256 [] [] = Err (AlgorithmNotAllowed "ES256 incompatible with the provided key type").
Proof. split; vm_compute; reflexivity. Qed.

End Jws.
