(* ===== verification/Bridges.v ===== *)
(** * Bridges: the bridge framework and the WebAuthn bridge
      ([bridges.rs], [bridge_webauthn.rs])

    - the errors, the kinds and the registry of bridges;
    - the identity document the bridges produce ([generated/actor_identity.rs]);
    - percent-encoding of subjects and timestamps, which the bridges repeat;
    - [WebAuthnBridge]: [accept] and its reverse [project], with
      [webauthn_projects_back] and [webauthn_actor_id_unique]. *)

From S2P Require Import Prelude Common Json Clock ActorId.

#[local] Open Scope string_scope.
#[local] Open Scope list_scope.
#[local] Open Scope Z_scope.

Module Bridges.

Inductive BridgeError := Unsupported (s : string) | InvalidInput (s : string) | Rejected (s : string) | InternalError (s : string).
Definition display (e : BridgeError) : string :=
  match e with
  | Unsupported s => "bridge unsupported: " +:+ s
  | InvalidInput s => "bridge invalid input: " +:+ s
  | Rejected s => "bridge rejected input: " +:+ s
  | InternalError s => "bridge internal error: " +:+ s
  end.

(** A call returns, panics, or does not return. *)
Inductive run (E A : Type) := Done (r : result E A) | Panics | Loops.
Arguments Done {E A} r. Arguments Panics {E A}. Arguments Loops {E A}.
#[global] Instance run_bind {E} : MBind (run E) := fun A B f m =>
  match m with Done (Ok a) => f a | Done (Err e) => Done (Err e) | Panics => Panics | Loops => Loops end.
Lemma bind_returns {E A B} (m : run E A) (f : A -> run E B) : m <> Loops -> (forall a, m = Done (Ok a) -> f a <> Loops) -> m ≫= f <> Loops.
Proof. destruct m as [[a|e]| |]; cbn; naive_solver. Qed.

Inductive BridgeKind := Spiffe | Webauthn | Mcp | Oauth | Gnap | Tls | Did | Matrix | Webhook | Grpc | ServiceMesh | A2a.
#[global] Instance BridgeKind_eq_dec : EqDecision BridgeKind. Proof. solve_decision. Defined.

(** ** The registry: bridges by kind, in order of registration *)

Section registry.
Variable B : Type.
Variable kind : B -> BridgeKind.
Definition BridgeRegistry := list B.
Definition register (bridge : B) (r : BridgeRegistry) : BridgeRegistry := r ++ [bridge].
Definition get (k : BridgeKind) (r : BridgeRegistry) : option B := List.find (fun b => bool_decide (kind b = k)) r.
End registry.

(** ** Identity documents *)

Inductive PublicKey_Purpose := Signing | Kem | Attestation.
Record PublicKey := mk_PublicKey {
  key_id : string; key_algorithm : string; public_key : string; purpose : PublicKey_Purpose; key_valid_from : option string; key_valid_until : option string }.
Inductive AuthorityRoot_Kind :=
| Owner | Organization | Manufacturer | HardwareKey | Federation | ComplianceIssuer | LocalEmergency | TransparencyAnchor | TrustDomain.
#[global] Instance AuthorityRoot_Kind_eq_dec : EqDecision AuthorityRoot_Kind. Proof. solve_decision. Defined.
Record AuthorityRoot := mk_AuthorityRoot { root_kind : AuthorityRoot_Kind; root_id : string }.
(** [identity_version] has one value. *)
Record ActorIdentity := mk_ActorIdentity {
  actor_id : string; actor_type : ActorType; instance_id : option string; public_keys : list PublicKey; trust_levels : list TrustLevel;
  authority_roots : list AuthorityRoot; attestations : option (list json); valid_from : string; valid_until : option string;
  revocation_ref : option string; signature : option SignatureEnvelope }.

(** ** Percent-encoding and timestamps *)

Definition is_unreserved (b : Z) : bool :=
  (65 <=? b) && (b <=? 90) || (97 <=? b) && (b <=? 122) || (48 <=? b) && (b <=? 57) || (b =? 45) || (b =? 95) || (b =? 46) || (b =? 126).
Definition upper_digit (n : Z) : Z := if n <? 10 then 48 + n else 55 + n.
Definition encode_byte (b : Z) : list Z := if is_unreserved b then [b] else [37; upper_digit (b / 16); upper_digit (b mod 16)].
Definition encode_subject (s : string) : string := str_of_bytes (mjoin (encode_byte <$> bytes_of_str s)).

(** [timestamp(t)] with [t as i64]. *)
Definition timestamp (t : Z) : string := Clock.now_iso8601 (Clock.as_i64 t).

(** ** WebAuthn credentials *)

Record WebAuthnCredential := mk_WebAuthnCredential {
  credential_id : string; cred_public_key : string; cred_algorithm : string; rp_id : string; user_handle : string; aaguid : option string;
  attestation_format : option string; cred_valid_from : option string; cred_valid_until : option string }.
Record WebAuthnBridgeConfig := mk_WebAuthnBridgeConfig {
  bridge_id : string; trust_domain : string; cfg_rp_id : string; allowed_algorithms : option (list string) }.

(** [trim_end_matches('=')], [replace]. *)
Fixpoint trim_end_eq (s : string) : string :=
  match s with
  | EmptyString => ""
  | String c s => match trim_end_eq s with "" => if Ascii.eqb c "=" then "" else String c "" | s' => String c s' end
  end.
Fixpoint str_replace (a b : ascii) (s : string) : string :=
  match s with EmptyString => "" | String c s => String (if Ascii.eqb c a then b else c) (str_replace a b s) end.
Definition slug (b64url : string) : string := str_replace "+" "-" (str_replace "/" "_" (trim_end_eq b64url)).

Definition accept (cfg : WebAuthnBridgeConfig) (now : Z) (cred : WebAuthnCredential) : result BridgeError ActorIdentity :=
  if str_is_empty (cred_public_key cred) then Err (InvalidInput "missing public_key")
  else if str_is_empty (rp_id cred) then Err (InvalidInput "missing rp_id")
  else if str_is_empty (user_handle cred) then Err (InvalidInput "missing user_handle")
  else if negb (str_is_empty (cfg_rp_id cfg)) && negb (cfg_rp_id cfg =? rp_id cred)%string then
    Err (Rejected ("credential rp_id " +:+ rp_id cred +:+ " does not match bridge rp_id " +:+ cfg_rp_id cfg))
  else if match allowed_algorithms cfg with Some allow => negb (existsb (fun a => a =? cred_algorithm cred)%string allow) | None => false end then
    Err (Rejected ("algorithm " +:+ cred_algorithm cred +:+ " is not in the bridge's allow-list"))
  else
    Ok (mk_ActorIdentity ("tf:actor:human:" +:+ rp_id cred +:+ "/" +:+ slug (user_handle cred)) AHuman None
          [mk_PublicKey (credential_id cred) (cred_algorithm cred) (cred_public_key cred) Signing (cred_valid_from cred) (cred_valid_until cred)]
          [T4] [mk_AuthorityRoot HardwareKey (unwrap_or (aaguid cred) "(unknown-aaguid)")] None
          (unwrap_or (cred_valid_from cred) (Clock.now_iso8601 now)) (cred_valid_until cred) None None).

(** [rest.find('/')] and the two slices around it. *)
Fixpoint split_slash (s : string) : option (string * string) :=
  match s with
  | EmptyString => None
  | String c s => if Ascii.eqb c "/" then Some ("", s) else '(a, b) ← split_slash s; Some (String c a, b)
  end.
Definition parse_actor_uri (uri : string) : result BridgeError (string * string) :=
  let malformed := InvalidInput ("malformed actor URI: " +:+ uri) in
  rest ← ok_or (strip_prefix "tf:actor:human:" uri) malformed;
  ok_or (split_slash rest) malformed.

(** [{:?}] of the type, as the parameter [debug]. *)
Definition project (debug : ActorType -> string) (identity : ActorIdentity) : result BridgeError WebAuthnCredential :=
  if negb (bool_decide (actor_type identity = AHuman)) then
    Err (Unsupported ("WebAuthn bridge only reverses human actors, got " +:+ debug (actor_type identity)))
  else
    root ← ok_or (List.find (fun r => bool_decide (root_kind r = HardwareKey)) (authority_roots identity))
      (Rejected "identity's authority_roots does not include hardware-key");
    key ← ok_or (head (public_keys identity)) (InvalidInput "identity has no public_keys");
    '(rp_id, user_handle) ← parse_actor_uri (actor_id identity);
    Ok (mk_WebAuthnCredential (key_id key) (public_key key) (key_algorithm key) rp_id user_handle
          (if (root_id root =? "(unknown-aaguid)")%string then None else Some (root_id root)) None (Some (valid_from identity)) (valid_until identity)).


(** ** Encoded subjects determine the subject *)

Definition is_byte_code (b : Z) : bool := forallb (fun c => (0 <=? c) && (c <? 256)) (encode_byte b).
Lemma encode_byte_bytes b : is_u8 b -> is_bytes (encode_byte b).
Proof.
  intros Hb. assert (all_below 256 is_byte_code = true) as H by (vm_compute; reflexivity).
  apply (all_below_spec 256 is_byte_code H) in Hb. unfold is_byte_code in Hb. rewrite forallb_forall in Hb. apply Forall_forall. intros c Hc%list_elem_of_In.
  apply Hb in Hc. unfold is_u8. lia.
Qed.

Lemma upper_digit_inj m n : 0 <= m < 16 -> 0 <= n < 16 -> upper_digit m = upper_digit n -> m = n.
Proof. unfold upper_digit. repeat case_match; lia. Qed.
Lemma unreserved_percent b : is_unreserved b = true -> b <> 37.
Proof. intros H ->. done. Qed.

(** The code of a byte can be read off a text. *)
Lemma encode_byte_inj a b r s : is_u8 a -> is_u8 b -> encode_byte a ++ r = encode_byte b ++ s -> a = b /\ r = s.
Proof.
  intros Ha Hb. unfold encode_byte. destruct (is_unreserved a) eqn:Ea, (is_unreserved b) eqn:Eb; cbn [app]; intros H.
  - by injection H.
  - injection H as -> _. by apply unreserved_percent in Ea.
  - injection H as <- _. by apply unreserved_percent in Eb.
  - injection H as H1 H2 H3. unfold is_u8 in *. pose proof (Z.mod_pos_bound a 16 ltac:(lia)). pose proof (Z.mod_pos_bound b 16 ltac:(lia)).
    apply upper_digit_inj in H1; [|split; [apply Z.div_pos|apply Z.div_lt_upper_bound]; lia..]. apply upper_digit_inj in H2; [|lia..].
    split; [|done]. rewrite (Z.div_mod a 16), (Z.div_mod b 16) by lia. congruence.
Qed.

(** A byte code whose words can be read off a text gives an injective encoding
    of texts. *)
Lemma byte_code_inj (code : Z -> list Z) s t :
  (forall b, is_u8 b -> is_bytes (code b) /\ code b <> []) ->
  (forall a b l m, is_u8 a -> is_u8 b -> code a ++ l = code b ++ m -> a = b /\ l = m) ->
  str_of_bytes (mjoin (code <$> bytes_of_str s)) = str_of_bytes (mjoin (code <$> bytes_of_str t)) -> s = t.
Proof.
  intros Hc Hi H%(f_equal bytes_of_str).
  assert (forall l, is_bytes l -> is_bytes (mjoin (code <$> l))) as Hb.
  { intros l Hl. induction Hl; [apply Forall_nil_2|]. cbn. apply Forall_app_2; [by apply Hc|done]. }
  rewrite !bytes_of_str_of_bytes in H by (apply Hb, bytes_of_str_bytes). apply bytes_of_str_inj.
  pose proof (bytes_of_str_bytes s) as Hs. pose proof (bytes_of_str_bytes t) as Ht. revert H Hs Ht.
  generalize (bytes_of_str s) as l, (bytes_of_str t) as m. induction l as [|a l IH]; intros [|b m] H Hl Hm; [done|..].
  - exfalso. apply Forall_cons_1 in Hm as [Hm _]. apply Hc in Hm as [_ Hm]. cbn in H. by destruct (code b).
  - exfalso. apply Forall_cons_1 in Hl as [Hl _]. apply Hc in Hl as [_ Hl]. cbn in H. by destruct (code a).
  - apply Forall_cons_1 in Hl as [Ha Hl], Hm as [Hb' Hm]. cbn in H. apply Hi in H as [-> H]; [|done..]. f_equal. by apply IH.
Qed.

Lemma encode_byte_code b : is_u8 b -> is_bytes (encode_byte b) /\ encode_byte b <> [].
Proof. intros Hb. split; [by apply encode_byte_bytes|]. unfold encode_byte. by destruct (is_unreserved b). Qed.

Lemma encode_subject_inj s t : encode_subject s = encode_subject t -> s = t.
Proof. apply byte_code_inj; [apply encode_byte_code|apply encode_byte_inj]. Qed.

(** ** The WebAuthn bridge *)

Lemma split_slash_app a b : ActorId.has "/" a = false -> split_slash (a +:+ "/" +:+ b) = Some (a, b).
Proof.
  induction a as [|c a IH]; [done|]. rewrite str_app_cons. cbn [ActorId.has]. intros [Hc H]%orb_false_iff. cbn [split_slash]. rewrite Hc.
  by rewrite IH.
Qed.
Lemma parse_accepted rp h : ActorId.has "/" rp = false -> parse_actor_uri ("tf:actor:human:" +:+ rp +:+ "/" +:+ h) = Ok (rp, h).
Proof.
  intros H. unfold parse_actor_uri. rewrite (proj2 (strip_prefix_spec _ _ _) eq_refl). cbn [ok_or mbind result_bind]. by rewrite split_slash_app.
Qed.
Lemma accept_ok cfg now cred i : accept cfg now cred = Ok i ->
  (cfg_rp_id cfg = "" \/ cfg_rp_id cfg = rp_id cred) /\
  i = mk_ActorIdentity ("tf:actor:human:" +:+ rp_id cred +:+ "/" +:+ slug (user_handle cred)) AHuman None
        [mk_PublicKey (credential_id cred) (cred_algorithm cred) (cred_public_key cred) Signing (cred_valid_from cred) (cred_valid_until cred)]
        [T4] [mk_AuthorityRoot HardwareKey (unwrap_or (aaguid cred) "(unknown-aaguid)")] None
        (unwrap_or (cred_valid_from cred) (Clock.now_iso8601 now)) (cred_valid_until cred) None None.
Proof.
  unfold accept, str_is_empty. destruct (_ =? "")%string; [done|]. destruct (_ =? "")%string; [done|]. destruct (_ =? "")%string; [done|].
  destruct (String.eqb_spec (cfg_rp_id cfg) ""), (String.eqb_spec (cfg_rp_id cfg) (rp_id cred)); cbn [negb andb]; try done;
    case_match; try done; intros [= <-]; (split; [tauto|done]).
Qed.

(** projecting an accepted credential back gives the same credential, with
    its user handle in slug form, the attestation format forgotten, and the
    start of validity filled in, provided the relying-party id has no slash. *)
Theorem webauthn_projects_back debug cfg now cred i
  (Hrp : ActorId.has "/" (rp_id cred) = false) (Ha : aaguid cred <> Some "(unknown-aaguid)") (H : accept cfg now cred = Ok i) :
  project debug i = Ok (mk_WebAuthnCredential (credential_id cred) (cred_public_key cred) (cred_algorithm cred) (rp_id cred)
    (slug (user_handle cred)) (aaguid cred) None (Some (unwrap_or (cred_valid_from cred) (Clock.now_iso8601 now))) (cred_valid_until cred)).
Proof.
  apply accept_ok in H as [_ ->]. unfold project. cbn [actor_type authority_roots public_keys actor_id List.find root_kind head ok_or mbind result_bind].
  rewrite !bool_decide_eq_true_2 by done. cbn [negb ok_or mbind result_bind]. rewrite parse_accepted by done. cbn [mbind result_bind].
  do 2 f_equal. cbn [root_id]. destruct (aaguid cred) as [g|]; [|done]. cbn [unwrap_or].
  destruct (String.eqb_spec g "(unknown-aaguid)"); [congruence|done].
Qed.

(** two credentials whose relying-party ids have no slash are given the
    same actor id only if they have the same relying party and user handles
    with the same slug. *)
Theorem webauthn_actor_id_unique cfg cfg' now now' cred cred' i i'
  (Hrp : ActorId.has "/" (rp_id cred) = false) (Hrp' : ActorId.has "/" (rp_id cred') = false)
  (H : accept cfg now cred = Ok i) (H' : accept cfg' now' cred' = Ok i') (Hid : actor_id i = actor_id i') :
  rp_id cred = rp_id cred' /\ slug (user_handle cred) = slug (user_handle cred').
Proof.
  apply accept_ok in H as [_ ->], H' as [_ ->]. cbn [actor_id] in Hid. apply (f_equal parse_actor_uri) in Hid.
  rewrite !parse_accepted in Hid by done. by injection Hid.
Qed.

Definition cred1 : WebAuthnCredential := mk_WebAuthnCredential "id" "pk" "p256" "example.org" "ab/c+=" (Some "aa") None None None.
Definition bridge1 : WebAuthnBridgeConfig := mk_WebAuthnBridgeConfig "b" "d" "example.org" None.
Lemma webauthn_projects_back_witness : exists i, accept bridge1 0 cred1 = Ok i /\ actor_id i = "tf:actor:human:example.org/ab_c-" /\
  exists c, project (fun _ => "") i = Ok c /\ user_handle c = "ab_c-".
Proof.
  eexists. split; [vm_compute; reflexivity|]. split; [reflexivity|]. eexists.
  split; [apply (webauthn_projects_back (fun _ => "") bridge1 0 cred1); [reflexivity|discriminate|vm_compute; reflexivity]|reflexivity].
Defined.
Lemma webauthn_actor_id_unique_witness : rp_id cred1 = rp_id cred1 /\ slug (user_handle cred1) = slug (user_handle cred1).
Proof.
  destruct (accept bridge1 0 cred1) as [i|] eqn:E; [|vm_compute in E; discriminate].
  apply (webauthn_actor_id_unique bridge1 bridge1 0 0 cred1 cred1 i i); try exact E; reflexivity.
Defined.

(** With a slash in the relying-party id, the projection names another relying
    party. *)
Example webauthn_slash_confusion :
  let cred := mk_WebAuthnCredential "id" "pk" "p256" "a/b" "c" None None None None in
  (i ← accept (mk_WebAuthnBridgeConfig "b" "d" "" None) 0 cred; c ← project (fun _ => "") i; Ok (rp_id c, user_handle c)) = Ok ("a", "b/c").
Proof. vm_compute. reflexivity. Qed.

End Bridges.
