(* ===== verification/Webauthn.v ===== *)
(** * Webauthn: attestation of hardware keys ([webauthn_attestation.rs])

    - parsing: authenticator data, COSE keys, the attestation object and the
      client data, over the CBOR decoder of [Cbor];
    - [verify_attestation] with the packed, fido-u2f and none formats.  SHA-256,
      serde_json, x509-parser and the signature crates are the fields of [Lib];
      [None] is the panic of [unwrap];
    - the theorems: what is accepted ([webauthn_accepted_iff]), what the
      signatures bind, and where the reported certificate chain is not the one
      that was verified. *)

From S2P Require Import Prelude Utf8 Json Cbor Bridges.

#[local] Open Scope string_scope.
#[local] Open Scope list_scope.
#[local] Open Scope Z_scope.

Module Webauthn.
Import Cbor.
Import Bridges(BridgeError(..)).

Inductive CoseAlgorithm := Es256 | EdDsa | Rs256.
Inductive AttestationFormat := None_ | Packed | FidoU2f.
#[global] Instance CoseAlgorithm_eq_dec : EqDecision CoseAlgorithm. Proof. solve_decision. Defined.
#[global] Instance AttestationFormat_eq_dec : EqDecision AttestationFormat. Proof. solve_decision. Defined.

Record CosePublicKey := mk_CosePublicKey {
  kty : Z; alg : option CoseAlgorithm; crv : option Z; x : option (list Z); y : option (list Z); n : option (list Z); e : option (list Z) }.
Record ParsedAuthData := mk_ParsedAuthData {
  rp_id_hash : list Z; flags : Z; sign_count : Z; aaguid : option (list Z); credential_id : option (list Z);
  credential_public_key_cose : option (list Z); credential_public_key : option CosePublicKey }.
Record AttestationObject := mk_AttestationObject { fmt : AttestationFormat; att_stmt : Value; auth_data : list Z }.
Record ClientData := mk_ClientData { type : string; challenge : string; origin : string }.
Record VerifyAttestationOptions := mk_Options {
  rp_id : string; expected_origin : string; expected_challenge : string;
  allowed_algorithms : option (list CoseAlgorithm); require_attestation_signature : bool }.
Record VerifiedAttestation := mk_VerifiedAttestation {
  v_format : AttestationFormat; v_auth_data : ParsedAuthData; v_client_data : ClientData; v_credential_public_key : list Z;
  v_credential_id : list Z; v_algorithm : CoseAlgorithm; v_x5c : option (list (list Z)); v_sign_count : Z; v_flags : Z;
  v_aaguid : option (list Z) }.

Definition FLAG_USER_PRESENT : Z := 0x01.
Definition FLAG_ATTESTED_CREDENTIAL_DATA : Z := 0x40.

(** [Display] of [CborError]. *)
Definition display_cbor (e : CborError) : string :=
  match e with
  | Truncated => "truncated CBOR input"
  | Invalid what => "invalid CBOR: " +:+ what
  | TooDeep => "CBOR nesting exceeds depth limit"
  | Unrepresentable what => "unrepresentable in CBOR: " +:+ what
  end.

(** [i64::try_from(i).unwrap_or(0)]. *)
Definition i64_or_0 (i : Z) : Z := if (- 2 ^ 63 <=? i) && (i <? 2 ^ 63) then i else 0.

(** ** COSE keys *)

Definition cose_alg (i : Z) : option CoseAlgorithm :=
  if i =? -7 then Some Es256 else if i =? -8 then Some EdDsa else if i =? -257 then Some Rs256 else None.

(** The variables of the loop. *)
Record CoseVars := mk_CoseVars {
  c_kty : option Z; c_alg : option CoseAlgorithm; c_crv : option Z; c_x : option (list Z); c_y : option (list Z); c_n : option (list Z);
  c_e : option (list Z) }.

Definition cose_field (s : CoseVars) (kv : Value * Value) : CoseVars :=
  let '(k, v) := kv in
  match k with
  | Integer i =>
    let key := i64_or_0 i in
    if key =? 1 then
      match v with Integer i => mk_CoseVars (Some (i64_or_0 i)) (c_alg s) (c_crv s) (c_x s) (c_y s) (c_n s) (c_e s) | _ => s end
    else if key =? 3 then
      match v with Integer i => mk_CoseVars (c_kty s) (cose_alg (i64_or_0 i)) (c_crv s) (c_x s) (c_y s) (c_n s) (c_e s) | _ => s end
    else if key =? -1 then
      match v with
      | Integer i => mk_CoseVars (c_kty s) (c_alg s) (Some (i64_or_0 i)) (c_x s) (c_y s) (c_n s) (c_e s)
      | Bytes b => mk_CoseVars (c_kty s) (c_alg s) (c_crv s) (c_x s) (c_y s) (Some b) (c_e s)
      | _ => s
      end
    else if key =? -2 then
      match v with Bytes b => mk_CoseVars (c_kty s) (c_alg s) (c_crv s) (Some b) (c_y s) (c_n s) (c_e s) | _ => s end
    else if key =? -3 then
      match v with Bytes b => mk_CoseVars (c_kty s) (c_alg s) (c_crv s) (c_x s) (Some b) (c_n s) (c_e s) | _ => s end
    else if key =? -4 then
      match v with Bytes b => mk_CoseVars (c_kty s) (c_alg s) (c_crv s) (c_x s) (c_y s) (c_n s) (Some b) | _ => s end
    else s
  | _ => s
  end.

Definition parse_cose_public_key (cose : list Z) : result BridgeError CosePublicKey :=
  val ← map_err (fun e => InvalidInput ("COSE key not valid CBOR: " +:+ display_cbor e)) (decode cose);
  match val with
  | VMap m =>
    let s := fold_left cose_field m (mk_CoseVars None None None None None None None) in
    kty ← ok_or (c_kty s) (InvalidInput "COSE key missing kty");
    let rsa := kty =? 3 in
    Ok (mk_CosePublicKey kty (c_alg s) (c_crv s) (if rsa then None else c_x s) (if rsa then None else c_y s)
          (if rsa then c_n s else None) (opt_or (if rsa then c_x s else None) (c_e s)))
  | _ => Err (InvalidInput "COSE key not a map")
  end.

(** ** Authenticator data *)

(** [buf[a..b]]. *)
Definition slice (a b : nat) (buf : list Z) : list Z := take (b - a) (drop a buf).
Definition at_ (i : nat) (buf : list Z) : Z := nth i buf 0.

Definition parse_authenticator_data (buf : list Z) : result BridgeError ParsedAuthData :=
  if (length buf <? 37)%nat then
    Err (InvalidInput ("authData too short (" +:+ pretty (Z.of_nat (length buf)) +:+ " bytes)"))
  else
    let rp_id_hash := slice 0 32 buf in
    let flags := at_ 32 buf in
    let sign_count := of_be [at_ 33 buf; at_ 34 buf; at_ 35 buf; at_ 36 buf] in
    if Z.land flags FLAG_ATTESTED_CREDENTIAL_DATA =? 0 then
      Ok (mk_ParsedAuthData rp_id_hash flags sign_count None None None None)
    else if (length buf <? 55)%nat then
      Err (InvalidInput "authData has AT flag but is too short for attested credential data")
    else
      let aaguid := slice 37 53 buf in
      let cred_id_len := Z.to_nat (of_be [at_ 53 buf; at_ 54 buf]) in
      if (length buf <? 55 + cred_id_len)%nat then
        Err (InvalidInput ("authData truncated reading credentialId (declared " +:+ pretty (Z.of_nat cred_id_len) +:+ " bytes)"))
      else
        let credential_id := slice 55 (55 + cred_id_len) buf in
        let cose_bytes := drop (55 + cred_id_len) buf in
        credential_public_key ← parse_cose_public_key cose_bytes;
        Ok (mk_ParsedAuthData rp_id_hash flags sign_count (Some aaguid) (Some credential_id) (Some cose_bytes) (Some credential_public_key)).

(** ** The attestation object *)

Record ObjectVars := mk_ObjectVars { o_fmt : option string; o_stmt : option Value; o_auth : option (list Z) }.
Definition object_field (s : ObjectVars) (kv : Value * Value) : ObjectVars :=
  match kv with
  | (Text key, v) =>
    if (key =? "fmt")%string then mk_ObjectVars (as_text v) (o_stmt s) (o_auth s)
    else if (key =? "attStmt")%string then mk_ObjectVars (o_fmt s) (Some v) (o_auth s)
    else if (key =? "authData")%string then mk_ObjectVars (o_fmt s) (o_stmt s) (as_bytes v)
    else s
  | _ => s
  end.

Definition format_of (fmt : string) : result BridgeError AttestationFormat :=
  if (fmt =? "none")%string then Ok None_
  else if (fmt =? "packed")%string then Ok Packed
  else if (fmt =? "fido-u2f")%string then Ok FidoU2f
  else Err (Unsupported ("attestation format " +:+ fmt +:+ " not supported")).

Definition decode_attestation_object (buf : list Z) : result BridgeError AttestationObject :=
  val ← map_err (fun e => InvalidInput ("attestationObject not valid CBOR: " +:+ display_cbor e)) (decode buf);
  match val with
  | VMap m =>
    let s := fold_left object_field m (mk_ObjectVars None None None) in
    fmt ← ok_or (o_fmt s) (InvalidInput "missing fmt");
    auth_data ← ok_or (o_auth s) (InvalidInput "missing authData bytes");
    att_stmt ← ok_or (o_stmt s) (InvalidInput "missing attStmt");
    format ← format_of fmt;
    Ok (mk_AttestationObject format att_stmt auth_data)
  | _ => Err (InvalidInput "attestationObject not a map")
  end.

(** ** Verification *)

(** The crates: errors are their [Display] text. *)
Record Lib := mk_Lib {
  sha256 : list Z -> list Z;
  from_slice : list Z -> result string json;
  (** [X509Certificate::from_der]: the dotted key algorithm and the key bits. *)
  x509 : list Z -> result string (string * list Z);
  (** [P256VerifyingKey::from_sec1_bytes], [P256Signature::from_der], [verify]. *)
  sec1_key : list Z -> result string unit;
  der_signature : list Z -> result string unit;
  p256_verify : list Z -> list Z -> list Z -> result string unit;
  (** [Ed25519VerifyingKey::from_bytes], [verify]. *)
  ed25519_key : list Z -> result string unit;
  ed25519_verify : list Z -> list Z -> list Z -> result string unit }.

Section verify.
Variable lib : Lib.

Definition parse_client_data (buf : list Z) : result BridgeError ClientData :=
  j ← map_err (fun e => InvalidInput ("clientDataJSON not valid JSON: " +:+ e)) (from_slice lib buf);
  match j with
  | JObject _ =>
    let field k := v ← jget k j; as_str v in
    ty ← ok_or (field "type") (InvalidInput "missing clientData.type");
    challenge ← ok_or (field "challenge") (InvalidInput "missing clientData.challenge");
    origin ← ok_or (field "origin") (InvalidInput "missing clientData.origin");
    Ok (mk_ClientData ty challenge origin)
  | _ => Err (InvalidInput "clientDataJSON not an object")
  end.

Definition verify_p256_der (public data sig : list Z) : result BridgeError unit :=
  _ ← map_err (fun e => InvalidInput ("bad P-256 SEC1 key: " +:+ e)) (sec1_key lib public);
  _ ← map_err (fun e => InvalidInput ("bad ECDSA DER sig: " +:+ e)) (der_signature lib sig);
  map_err (fun e => Rejected ("ES256 verify failed: " +:+ e)) (p256_verify lib public data sig).

Definition verify_ed25519 (public data sig : list Z) : result BridgeError unit :=
  if negb (length public =? 32)%nat then Err (InvalidInput "Ed25519 key not 32 bytes")
  else
    _ ← map_err (fun e => InvalidInput ("bad Ed25519 key: " +:+ e)) (ed25519_key lib public);
    if negb (length sig =? 64)%nat then Err (InvalidInput "Ed25519 signature not 64 bytes")
    else map_err (fun e => Rejected ("EdDSA verify failed: " +:+ e)) (ed25519_verify lib public data sig).

Definition verify_with_cert (cert_der data signature : list Z) (cose_alg : Z) : result BridgeError unit :=
  '(alg_oid, key_bytes) ← map_err (fun e => InvalidInput ("cert DER parse: " +:+ e)) (x509 lib cert_der);
  if (alg_oid =? "1.2.840.10045.2.1")%string && (cose_alg =? -7) then verify_p256_der key_bytes data signature
  else if (alg_oid =? "1.3.101.112")%string && (cose_alg =? -8) then verify_ed25519 key_bytes data signature
  else Err (Unsupported ("x5c algorithm " +:+ alg_oid +:+ " not supported for cose alg " +:+ pretty cose_alg)).

Definition verify_cose_signature (cose : CosePublicKey) (data sig : list Z) (alg : Z) : result BridgeError unit :=
  if (alg =? -7) && (kty cose =? 2) then
    x ← ok_or (x cose) (InvalidInput "EC2 missing x");
    y ← ok_or (y cose) (InvalidInput "EC2 missing y");
    verify_p256_der (0x04 :: x ++ y) data sig
  else if (alg =? -8) && (kty cose =? 1) then
    x ← ok_or (x cose) (InvalidInput "OKP missing x");
    verify_ed25519 x data sig
  else Err (Unsupported ("self-attestation alg " +:+ pretty alg +:+ " on kty " +:+ pretty (kty cose) +:+ " not supported")).

(** The variables of the attStmt loops; fido-u2f ignores [alg]. *)
Record StmtVars := mk_StmtVars { s_sig : option (list Z); s_alg : option Z; s_x5c : option (list (list Z)) }.
Definition stmt_field (s : StmtVars) (kv : Value * Value) : StmtVars :=
  match kv with
  | (Text key, v) =>
    if (key =? "sig")%string then mk_StmtVars (as_bytes v) (s_alg s) (s_x5c s)
    else if (key =? "alg")%string then
      match v with Integer i => mk_StmtVars (s_sig s) (Some (i64_or_0 i)) (s_x5c s) | _ => s end
    else if (key =? "x5c")%string then
      match v with Array arr => mk_StmtVars (s_sig s) (s_alg s) (Some (omap as_bytes arr)) | _ => s end
    else s
  | _ => s
  end.
Definition stmt_vars (m : list (Value * Value)) : StmtVars := fold_left stmt_field m (mk_StmtVars None None None).

Definition verify_packed (att : AttestationObject) (auth : ParsedAuthData) (client_data_hash : list Z) : result BridgeError unit :=
  match att_stmt att with
  | VMap m =>
    let s := stmt_vars m in
    sig ← ok_or (s_sig s) (InvalidInput "packed attStmt missing sig");
    alg ← ok_or (s_alg s) (InvalidInput "packed attStmt missing alg");
    let data := auth_data att ++ client_data_hash in
    match s_x5c s with
    | Some (cert_der :: _) => verify_with_cert cert_der data sig alg
    | _ =>
      cose ← ok_or (credential_public_key auth) (InvalidInput "self-attestation needs credential public key");
      verify_cose_signature cose data sig alg
    end
  | _ => Err (InvalidInput "packed attStmt not a map")
  end.

(** The bytes a fido-u2f authenticator signs. *)
Definition u2f_data (rp_id_hash client_data_hash credential_id x y : list Z) : list Z :=
  0x00 :: rp_id_hash ++ client_data_hash ++ credential_id ++ 0x04 :: x ++ y.

Definition verify_fido_u2f (att : AttestationObject) (auth : ParsedAuthData) (client_data_hash : list Z) : option (result BridgeError unit) :=
  match att_stmt att with
  | VMap m =>
    let s := stmt_vars m in
    match s_sig s, s_x5c s, credential_public_key auth with
    | None, _, _ => Some (Err (InvalidInput "fido-u2f attStmt missing sig"))
    | _, None, _ => Some (Err (InvalidInput "fido-u2f attStmt missing x5c"))
    | _, _, None => Some (Err (InvalidInput "fido-u2f needs credential pubkey"))
    | Some sig, Some x5c, Some cose =>
      match kty cose =? 2, x cose, y cose with
      | true, Some x, Some y =>
        (* [unwrap] *)
        match credential_id auth with
        | None => None
        | Some credential_id =>
          let data := u2f_data (rp_id_hash auth) client_data_hash credential_id x y in
          Some match x5c with
               | [] => Err (InvalidInput "fido-u2f x5c empty")
               | cert :: _ => verify_with_cert cert data sig (-7)
               end
        end
      | _, _, _ => Some (Err (InvalidInput "fido-u2f requires EC2 P-256 credential public key"))
      end
    end
  | _ => Some (Err (InvalidInput "fido-u2f attStmt not a map"))
  end.

(** The first non-empty chain. *)
Fixpoint pick_entries (m : list (Value * Value)) : option (list (list Z)) :=
  match m with
  | [] => None
  | (Text t, Array arr) :: m =>
    if (t =? "x5c")%string then match omap as_bytes arr with [] => pick_entries m | collected => Some collected end
    else pick_entries m
  | _ :: m => pick_entries m
  end.
Definition pick_x5c (att_stmt : Value) : option (list (list Z)) :=
  match att_stmt with VMap m => pick_entries m | _ => None end.

Definition encode_raw_public_key (cose : CosePublicKey) : result BridgeError (list Z) :=
  match kty cose =? 2, x cose, y cose with
  | true, Some x, Some y => Ok (0x04 :: x ++ y)
  | _, _, _ =>
    match kty cose =? 1, x cose with
    | true, Some x => Ok x
    | _, _ =>
      match kty cose =? 3, n cose with
      | true, Some n => Ok n
      | _, _ => Err (InvalidInput "unsupported COSE key shape")
      end
    end
  end.

Definition debug_alg (a : CoseAlgorithm) : string := match a with Es256 => "Es256" | EdDsa => "EdDsa" | Rs256 => "Rs256" end.
Definition allowed (opts : VerifyAttestationOptions) (a : CoseAlgorithm) : bool :=
  match allowed_algorithms opts with Some l => bool_decide (a ∈ l) | None => true end.

(** The checks before the statement's signature. *)
Definition check_client (opts : VerifyAttestationOptions) (client : ClientData) : result BridgeError unit :=
  if negb (type client =? "webauthn.create")%string then
    Err (Rejected ("clientData.type " +:+ type client +:+ " is not webauthn.create"))
  else if negb (origin client =? expected_origin opts)%string then
    Err (Rejected ("clientData.origin " +:+ origin client +:+ " does not match expected " +:+ expected_origin opts))
  else if negb (challenge client =? expected_challenge opts)%string then
    Err (Rejected "clientData.challenge does not match expected")
  else Ok tt.
Definition check_auth (opts : VerifyAttestationOptions) (auth : ParsedAuthData)
  : result BridgeError (CosePublicKey * list Z * CoseAlgorithm) :=
  if negb (bool_decide (rp_id_hash auth = sha256 lib (bytes_of_str (rp_id opts)))) then
    Err (Rejected "authData rpIdHash does not match sha256(rpId)")
  else if Z.land (flags auth) FLAG_USER_PRESENT =? 0 then Err (Rejected "authData missing User Present flag")
  else if Z.land (flags auth) FLAG_ATTESTED_CREDENTIAL_DATA =? 0 then
    Err (Rejected "authData missing AT flag (no attested credential data)")
  else
    cose ← ok_or (credential_public_key auth) (InvalidInput "credential public key missing");
    credential_id ← ok_or (credential_id auth) (InvalidInput "credential id missing");
    a ← ok_or (alg cose) (InvalidInput "credential public key has no algorithm");
    if allowed opts a then Ok (cose, credential_id, a)
    else Err (Rejected ("algorithm " +:+ debug_alg a +:+ " not in allow-list")).

Definition verify_statement (opts : VerifyAttestationOptions) (att : AttestationObject) (auth : ParsedAuthData) (client_data_hash : list Z)
  : option (result BridgeError unit) :=
  match fmt att with
  | Packed => Some (verify_packed att auth client_data_hash)
  | FidoU2f => verify_fido_u2f att auth client_data_hash
  | None_ =>
    Some (if require_attestation_signature opts
          then Err (Rejected "format=none rejected when require_attestation_signature=true") else Ok tt)
  end.

Definition verify_attestation (attestation_object client_data_json : list Z) (opts : VerifyAttestationOptions)
  : option (result BridgeError VerifiedAttestation) :=
  let before :=
    att ← decode_attestation_object attestation_object;
    auth ← parse_authenticator_data (auth_data att);
    client ← parse_client_data client_data_json;
    _ ← check_client opts client;
    '(cose, credential_id, a) ← check_auth opts auth;
    Ok (att, auth, client, cose, credential_id, a) in
  match before with
  | Err e => Some (Err e)
  | Ok (att, auth, client, cose, credential_id, a) =>
    r ← verify_statement opts att auth (sha256 lib client_data_json);
    Some (
      _ ← r;
      credential_public_key ← encode_raw_public_key cose;
      Ok (mk_VerifiedAttestation (fmt att) auth client credential_public_key credential_id a (pick_x5c (att_stmt att))
            (sign_count auth) (flags auth) (aaguid auth)))
  end.
End verify.


(** ** Authenticator data is parsed exactly *)

Definition auth_layout (rp_id_hash : list Z) (flags sign_count : Z) (rest : list Z) : list Z :=
  rp_id_hash ++ flags :: be_bytes 4 sign_count ++ rest.
Definition credential_layout (aaguid credential_id cose : list Z) : list Z :=
  aaguid ++ be_bytes 2 (Z.of_nat (length credential_id)) ++ credential_id ++ cose.

Lemma drop_at i buf : (i < length buf)%nat -> drop i buf = at_ i buf :: drop (S i) buf.
Proof.
  intros H. unfold at_. destruct (lookup_lt_is_Some_2 buf i H) as [b Hb]. rewrite (drop_S buf b i Hb). f_equal.
  symmetry. by apply nth_lookup_Some.
Qed.
Lemma drop_slice a b buf : (a <= b)%nat -> drop a buf = slice a b buf ++ drop b buf.
Proof. intros H. unfold slice. rewrite <-(take_drop (b - a) (drop a buf)) at 1. rewrite drop_drop. do 2 f_equal. lia. Qed.
Lemma length_slice a b buf : (a <= b <= length buf)%nat -> length (slice a b buf) = (b - a)%nat.
Proof. intros H. unfold slice. rewrite length_take, length_drop. lia. Qed.
Lemma at_byte i buf : is_bytes buf -> (i < length buf)%nat -> is_u8 (at_ i buf).
Proof.
  intros Hb H. destruct (lookup_lt_is_Some_2 buf i H) as [b E]. unfold at_. rewrite (nth_lookup_Some buf i 0 b E). by eapply Forall_lookup_1.
Qed.
Lemma be4_at i buf (l := [at_ i buf; at_ (i + 1) buf; at_ (i + 2) buf; at_ (i + 3) buf]) : is_bytes buf -> (i + 3 < length buf)%nat ->
  be_bytes 4 (of_be l) = l.
Proof. intros Hb H. apply (be_bytes_of_be l). repeat apply Forall_cons_2; try apply Forall_nil_2; apply at_byte; (done || lia). Qed.
Lemma be2_at i buf (l := [at_ i buf; at_ (i + 1) buf]) : is_bytes buf -> (i + 1 < length buf)%nat ->
  be_bytes 2 (of_be l) = l /\ 0 <= of_be l.
Proof.
  intros Hb H. assert (is_bytes l) as Hl by (repeat apply Forall_cons_2; try apply Forall_nil_2; apply at_byte; (done || lia)).
  split; [apply (be_bytes_of_be l), Hl|apply (of_be_bound l), Hl].
Qed.

(** The fixed part of any buffer that is long enough. *)
Lemma auth_split buf : is_bytes buf -> (37 <= length buf)%nat ->
  buf = auth_layout (slice 0 32 buf) (at_ 32 buf) (of_be [at_ 33 buf; at_ 34 buf; at_ 35 buf; at_ 36 buf]) (drop 37 buf).
Proof.
  intros Hb Hl. unfold auth_layout. pose proof (be4_at 33 buf Hb ltac:(lia)) as E. cbn [Nat.add] in E. rewrite E. clear E.
  change (drop 0 buf = slice 0 32 buf ++ at_ 32 buf :: [at_ 33 buf; at_ 34 buf; at_ 35 buf; at_ 36 buf] ++ drop 37 buf).
  rewrite (drop_slice 0 32) by lia. by rewrite !drop_at by lia.
Qed.
Lemma credential_split buf (len := Z.to_nat (of_be [at_ 53 buf; at_ 54 buf])) : is_bytes buf -> (55 + len <= length buf)%nat ->
  drop 37 buf = credential_layout (slice 37 53 buf) (slice 55 (55 + len) buf) (drop (55 + len) buf).
Proof.
  intros Hb Hl. unfold credential_layout. rewrite length_slice by lia.
  destruct (be2_at 53 buf Hb ltac:(lia)) as [E H0]. cbn [Nat.add] in E, H0.
  replace (Z.of_nat (55 + len - 55)) with (of_be [at_ 53 buf; at_ 54 buf]) by (subst len; lia). rewrite E.
  rewrite (drop_slice 37 53) by lia. rewrite (drop_at 53), (drop_at 54) by lia. rewrite (drop_slice 55 (55 + len)) by lia. done.
Qed.

(** Reading a layout. *)
Lemma layout_parts rp f c rest (buf := auth_layout rp f c rest) : length rp = 32%nat -> 0 <= c < 2 ^ 32 ->
  (37 <= length buf)%nat /\ slice 0 32 buf = rp /\ at_ 32 buf = f /\ of_be [at_ 33 buf; at_ 34 buf; at_ 35 buf; at_ 36 buf] = c /\ drop 37 buf = rest.
Proof.
  intros Hrp Hc. do 32 (destruct rp as [|? rp]; [done|]). destruct rp; [|done]. pose proof (of_be_bytes_small 4 c ltac:(lia)) as Hbe.
  subst buf. unfold auth_layout. destruct (be_bytes 4 c) as [|b0 [|b1 [|b2 [|b3 [|]]]]] eqn:E; pose proof (length_be_bytes 4 c) as El; rewrite E in El; try done.
  cbn. split_and!; try done. lia.
Qed.
Lemma credential_parts rp f c g id cose (buf := auth_layout rp f c (credential_layout g id cose)) :
  length rp = 32%nat -> length g = 16%nat -> Z.of_nat (length id) < 65536 ->
  (55 + length id <= length buf)%nat /\ slice 37 53 buf = g /\ Z.to_nat (of_be [at_ 53 buf; at_ 54 buf]) = length id /\
  slice 55 (55 + length id) buf = id /\ drop (55 + length id) buf = cose.
Proof.
  intros Hrp Hg Hid. do 32 (destruct rp as [|? rp]; [done|]). destruct rp; [|done]. do 16 (destruct g as [|? g]; [done|]). destruct g; [|done].
  pose proof (of_be_bytes_small 2 (Z.of_nat (length id)) ltac:(lia)) as Hbe. subst buf. unfold auth_layout, credential_layout.
  destruct (be_bytes 4 c) as [|b0 [|b1 [|b2 [|b3 [|]]]]] eqn:E; pose proof (length_be_bytes 4 c) as El; rewrite E in El; try done.
  destruct (be_bytes 2 (Z.of_nat (length id))) as [|l0 [|l1 [|]]] eqn:E2; pose proof (length_be_bytes 2 (Z.of_nat (length id))) as El2; rewrite E2 in El2; try done.
  cbn [app]. unfold slice. rewrite (Nat.add_comm 55), Nat.add_sub. split_and!.
  - cbn [length]. rewrite length_app. lia.
  - done.
  - cbn [at_ nth]. rewrite Hbe. lia.
  - cbn [drop]. by rewrite drop_0, take_app_length.
  - rewrite Nat.add_comm, <-drop_drop. cbn [drop]. by rewrite drop_0, drop_app_length.
Qed.


(** authenticator data is parsed exactly: a buffer parses to the given
    fields iff it is the 32-byte relying-party hash, the flags byte, the
    big-endian counter and, when the AT flag is set, the 16-byte AAGUID, the
    length-prefixed credential id and a key that parses. *)
Theorem auth_data_exact buf p (Hb : is_bytes buf) :
  parse_authenticator_data buf = Ok p <->
  exists rest, buf = auth_layout (rp_id_hash p) (flags p) (sign_count p) rest /\ length (rp_id_hash p) = 32%nat /\ 0 <= sign_count p < 2 ^ 32 /\
    if Z.land (flags p) FLAG_ATTESTED_CREDENTIAL_DATA =? 0 then
      p = mk_ParsedAuthData (rp_id_hash p) (flags p) (sign_count p) None None None None
    else exists g id cose key,
      p = mk_ParsedAuthData (rp_id_hash p) (flags p) (sign_count p) (Some g) (Some id) (Some cose) (Some key) /\
      rest = credential_layout g id cose /\ length g = 16%nat /\ Z.of_nat (length id) < 65536 /\ parse_cose_public_key cose = Ok key.
Proof.
  unfold parse_authenticator_data. split.
  - destruct (Nat.ltb_spec (length buf) 37) as [|Hl]; [done|]. pose proof (auth_split buf Hb Hl) as Es.
    pose proof (of_be_bound [at_ 33 buf; at_ 34 buf; at_ 35 buf; at_ 36 buf]) as Hc.
    specialize (Hc ltac:(repeat apply Forall_cons_2; try apply Forall_nil_2; apply at_byte; (done || lia))).
    change (256 ^ _) with (2 ^ 32) in Hc. assert (length (slice 0 32 buf) = 32%nat) as Hrp by (rewrite length_slice; lia).
    destruct (Z.land (at_ 32 buf) _ =? 0) eqn:Ef.
    { intros <-%Ok_inj. exists (drop 37 buf). cbn [rp_id_hash flags sign_count]. rewrite Ef. split_and!; [done|done|lia|lia|done]. }
    destruct (Nat.ltb_spec (length buf) 55) as [|Hl2]; [done|]. set (len := Z.to_nat _).
    destruct (Nat.ltb_spec (length buf) (55 + len)) as [|Hl3]; [done|].
    destruct (parse_cose_public_key _) as [key|] eqn:Ek; [|done]. intros <-%Ok_inj. exists (drop 37 buf). cbn [rp_id_hash flags sign_count]. rewrite Ef.
    pose proof (credential_split buf Hb Hl3) as Ec. fold len in Ec. split_and!; [done|done|lia|lia|].
    exists (slice 37 53 buf), (slice 55 (55 + len) buf), (drop (55 + len) buf), key. split_and!; [done|done|rewrite length_slice; lia| |done].
    rewrite length_slice by lia. pose proof (of_be_bound [at_ 53 buf; at_ 54 buf]) as H2.
    specialize (H2 ltac:(repeat apply Forall_cons_2; try apply Forall_nil_2; apply at_byte; (done || lia))). cbn [length] in H2. subst len. lia.
  - intros (rest & -> & Hrp & Hc & Hrest). destruct (layout_parts _ (flags p) _ rest Hrp Hc) as (Hl & H1 & H2 & H3 & _).
    cbn zeta. rewrite H1, H2, H3. destruct (Nat.ltb_spec (length (auth_layout (rp_id_hash p) (flags p) (sign_count p) rest)) 37); [lia|].
    destruct (Z.land (flags p) _ =? 0); [by rewrite <-Hrest|]. destruct Hrest as (g & id & cose & key & Hp & -> & Hg & Hid & Hk).
    destruct (credential_parts (rp_id_hash p) (flags p) (sign_count p) g id cose Hrp Hg Hid) as (Hl2 & H4 & H5 & H6 & H7).
    rewrite H5, H4, H6, H7. rewrite !(proj2 (Nat.ltb_ge _ _)) by lia. rewrite Hk. cbn [mbind result_bind]. by rewrite <-Hp.
Qed.

(** ** What is accepted *)

Section accepted.
Variable lib : Lib.

(** The signature [sig] of [data] checks out under a P-256 or Ed25519 key. *)
Definition valid_signature (ed : bool) (key data sig : list Z) : Prop :=
  if ed then length key = 32%nat /\ ed25519_key lib key = Ok tt /\ length sig = 64%nat /\ ed25519_verify lib key data sig = Ok tt
  else sec1_key lib key = Ok tt /\ der_signature lib sig = Ok tt /\ p256_verify lib key data sig = Ok tt.

(** The key a certificate, or the credential itself, signs with under [alg]. *)
Definition cert_key (cert : list Z) (alg : Z) : option (bool * list Z) :=
  match x509 lib cert with
  | Ok (oid, key) =>
    if (oid =? "1.2.840.10045.2.1")%string && (alg =? -7) then Some (false, key)
    else if (oid =? "1.3.101.112")%string && (alg =? -8) then Some (true, key) else None
  | Err _ => None
  end.
Definition own_key (cose : CosePublicKey) (alg : Z) : option (bool * list Z) :=
  if (alg =? -7) && (kty cose =? 2) then x ← x cose; y ← y cose; Some (false, 0x04 :: x ++ y)
  else if (alg =? -8) && (kty cose =? 1) then x ← x cose; Some (true, x) else None.

Definition statement_signed (opts : VerifyAttestationOptions) (att : AttestationObject) (auth : ParsedAuthData) (cose : CosePublicKey) (id h : list Z) : Prop :=
  match fmt att with
  | None_ => require_attestation_signature opts = false
  | Packed => exists m sig alg ed key, att_stmt att = VMap m /\ s_sig (stmt_vars m) = Some sig /\ s_alg (stmt_vars m) = Some alg /\
      match s_x5c (stmt_vars m) with Some (cert :: _) => cert_key cert alg | _ => own_key cose alg end = Some (ed, key) /\
      valid_signature ed key (auth_data att ++ h) sig
  | FidoU2f => exists m sig cert certs cx cy key, att_stmt att = VMap m /\ s_sig (stmt_vars m) = Some sig /\
      s_x5c (stmt_vars m) = Some (cert :: certs) /\ kty cose = 2 /\ x cose = Some cx /\ y cose = Some cy /\
      cert_key cert (-7) = Some (false, key) /\ valid_signature false key (u2f_data (rp_id_hash auth) h id cx cy) sig
  end.

Lemma verify_p256_ok key data sig : verify_p256_der lib key data sig = Ok tt <-> valid_signature false key data sig.
Proof.
  unfold verify_p256_der, valid_signature. destruct (sec1_key lib key) as [[]|]; cbn; [|by split; [|intros (? & _)]].
  destruct (der_signature lib sig) as [[]|]; cbn; [|by split; [|intros (_ & ? & _)]].
  rewrite map_err_ok. split; [by intros ->|by intros (_ & _ & ?)].
Qed.
Lemma verify_ed25519_ok key data sig : verify_ed25519 lib key data sig = Ok tt <-> valid_signature true key data sig.
Proof.
  unfold verify_ed25519, valid_signature. destruct (Nat.eqb_spec (length key) 32); cbn [negb]; [|by split; [|intros (? & _)]].
  destruct (ed25519_key lib key) as [[]|]; cbn; [|by split; [|intros (_ & ? & _)]].
  destruct (Nat.eqb_spec (length sig) 64); cbn [negb]; [|by split; [|intros (_ & _ & ? & _)]].
  rewrite map_err_ok. split; [by intros ->|by intros (_ & _ & _ & ?)].
Qed.
Lemma verify_with_cert_ok cert data sig alg : verify_with_cert lib cert data sig alg = Ok tt <->
  exists ed key, cert_key cert alg = Some (ed, key) /\ valid_signature ed key data sig.
Proof.
  unfold verify_with_cert, cert_key. destruct (x509 lib cert) as [[oid key]|]; cbn [map_err mbind result_bind]; [|by split; [|intros (? & ? & ? & _)]].
  repeat case_match; rewrite ?verify_p256_ok, ?verify_ed25519_ok; (split; [|intros (ed & k & [= <- <-] & ?)]; try done); eauto.
Qed.
Lemma verify_cose_ok cose data sig alg : verify_cose_signature lib cose data sig alg = Ok tt <->
  exists ed key, own_key cose alg = Some (ed, key) /\ valid_signature ed key data sig.
Proof.
  unfold verify_cose_signature, own_key. destruct (x cose), (y cose); cbn [ok_or mbind result_bind option_bind]; repeat case_match; try done;
    rewrite ?verify_p256_ok, ?verify_ed25519_ok; (split; [|intros (ed & k & [= <- <-] & ?)]; try done); eauto.
Qed.

Lemma parsed_credential buf auth : parse_authenticator_data buf = Ok auth ->
  length (rp_id_hash auth) = 32%nat /\
  if Z.land (flags auth) FLAG_ATTESTED_CREDENTIAL_DATA =? 0 then credential_public_key auth = None /\ credential_id auth = None
  else is_Some (credential_public_key auth) /\ is_Some (credential_id auth).
Proof.
  unfold parse_authenticator_data. destruct (Nat.ltb_spec (length buf) 37) as [|Hl]; [done|].
  assert (length (slice 0 32 buf) = 32%nat) as Hrp by (rewrite length_slice; lia). destruct (Z.land (at_ 32 buf) _ =? 0) eqn:Ef.
  { intros <-%Ok_inj. cbn [rp_id_hash flags]. by rewrite Ef. }
  destruct (length buf <? 55)%nat; [done|]. destruct (length buf <? _)%nat; [done|]. destruct (parse_cose_public_key _); [|done].
  intros <-%Ok_inj. cbn [rp_id_hash flags]. rewrite Ef. by split_and!.
Qed.

Lemma check_client_ok opts client : check_client opts client = Ok tt <->
  client = mk_ClientData "webauthn.create" (expected_challenge opts) (expected_origin opts).
Proof.
  unfold check_client. destruct client as [ty ch og]. cbn [type challenge origin].
  destruct (String.eqb_spec ty "webauthn.create"), (String.eqb_spec og (expected_origin opts)), (String.eqb_spec ch (expected_challenge opts));
    cbn [negb]; split; congruence.
Qed.

Lemma check_auth_ok opts auth cose id a : check_auth lib opts auth = Ok (cose, id, a) <->
  rp_id_hash auth = sha256 lib (bytes_of_str (rp_id opts)) /\ Z.land (flags auth) FLAG_USER_PRESENT <> 0 /\
  Z.land (flags auth) FLAG_ATTESTED_CREDENTIAL_DATA <> 0 /\ credential_public_key auth = Some cose /\ credential_id auth = Some id /\
  alg cose = Some a /\ (forall l, allowed_algorithms opts = Some l -> a ∈ l).
Proof.
  unfold check_auth. case_bool_decide as Hr; cbn [negb]; [|by split; [|intros (? & _)]].
  destruct (Z.eqb_spec (Z.land (flags auth) FLAG_USER_PRESENT) 0); [by split; [|intros (_ & ? & _)]|].
  destruct (Z.eqb_spec (Z.land (flags auth) FLAG_ATTESTED_CREDENTIAL_DATA) 0); [by split; [|intros (_ & _ & ? & _)]|].
  destruct (credential_public_key auth) as [c|]; cbn; [|by split; [|intros (_ & _ & _ & ? & _)]].
  destruct (credential_id auth) as [i|]; cbn; [|by split; [|intros (_ & _ & _ & _ & ? & _)]].
  destruct (alg c) as [b|] eqn:Eb; cbn; [|split; [done|]; intros (_ & _ & _ & [= <-] & _ & ? & _); congruence].
  assert (allowed opts b = true <-> forall l, allowed_algorithms opts = Some l -> b ∈ l) as Ha.
  { unfold allowed. destruct (allowed_algorithms opts) as [l|]; [|by split]. rewrite bool_decide_eq_true. split; [by intros ? ? [= <-]|eauto]. }
  destruct (allowed opts b).
  - split; [intros [= <- <- <-]; split_and!; try done; by apply Ha|]. intros (_ & _ & _ & [= <-] & [= <-] & ? & _). congruence.
  - split; [done|]. intros (_ & _ & _ & [= <-] & _ & Hb & H). assert (b = a) as -> by congruence. by apply Ha in H.
Qed.

Lemma packed_ok att auth cose h : credential_public_key auth = Some cose -> verify_packed lib att auth h = Ok tt <->
  exists m sig alg ed key, att_stmt att = VMap m /\ s_sig (stmt_vars m) = Some sig /\ s_alg (stmt_vars m) = Some alg /\
    match s_x5c (stmt_vars m) with Some (cert :: _) => cert_key cert alg | _ => own_key cose alg end = Some (ed, key) /\
    valid_signature ed key (auth_data att ++ h) sig.
Proof.
  intros Hc. unfold verify_packed. destruct (att_stmt att) as [| | | |m| | | |];
    try (split; [done|]; by intros (m & ? & ? & ? & ? & ? & _)).
  destruct (s_sig (stmt_vars m)) as [sig|] eqn:Es; cbn [ok_or mbind result_bind]; [|split; [done|]; intros (m' & ? & ? & ? & ? & [= <-] & ? & _); congruence].
  destruct (s_alg (stmt_vars m)) as [al|] eqn:Ea; cbn [ok_or mbind result_bind];
    [|split; [done|]; intros (m' & ? & ? & ? & ? & [= <-] & _ & ? & _); congruence].
  destruct (s_x5c (stmt_vars m)) as [[|cert certs]|] eqn:Ex; rewrite ?Hc; cbn [ok_or mbind result_bind];
    rewrite ?verify_with_cert_ok, ?verify_cose_ok; (split; [intros (ed & key & H1 & H2); exists m, sig, al, ed, key; rewrite Ex; by split_and!|]);
    intros (m' & sig' & al' & ed & key & [= <-] & H1 & H2 & H3 & H4); rewrite Ex in H3; exists ed, key; split; congruence.
Qed.

Lemma u2f_ok att auth cose id h : credential_public_key auth = Some cose -> credential_id auth = Some id ->
  exists r, verify_fido_u2f lib att auth h = Some r /\ (r = Ok tt <->
    exists m sig cert certs cx cy key, att_stmt att = VMap m /\ s_sig (stmt_vars m) = Some sig /\
      s_x5c (stmt_vars m) = Some (cert :: certs) /\ kty cose = 2 /\ x cose = Some cx /\ y cose = Some cy /\
      cert_key cert (-7) = Some (false, key) /\ valid_signature false key (u2f_data (rp_id_hash auth) h id cx cy) sig).
Proof.
  intros Hc Hi. unfold verify_fido_u2f. rewrite Hc, Hi. destruct (att_stmt att) as [| | | |m| | | |];
    try (eexists; split; [done|]; split; [done|]; by intros (m & ? & ? & ? & ? & ? & ? & ? & _)).
  destruct (s_sig (stmt_vars m)) as [sig|] eqn:Es; [|eexists; split; [done|]; split; [done|]; intros (m' & ? & ? & ? & ? & ? & ? & [= <-] & ? & _); congruence].
  destruct (s_x5c (stmt_vars m)) as [x5c|] eqn:Ex; [|eexists; split; [done|]; split; [done|]; intros (m' & ? & ? & ? & ? & ? & ? & [= <-] & _ & ? & _); congruence].
  destruct (Z.eqb_spec (kty cose) 2), (x cose) as [cx|] eqn:E1, (y cose) as [cy|] eqn:E2;
    try (eexists; split; [done|]; split; [done|]; intros (m' & ? & ? & ? & ? & ? & ? & [= <-] & _ & _ & ? & ? & ? & _); congruence).
  destruct x5c as [|cert certs]; [eexists; split; [done|]; split; [done|]; intros (m' & ? & ? & ? & ? & ? & ? & [= <-] & _ & ? & _); congruence|].
  eexists; split; [done|]. rewrite verify_with_cert_ok. split.
  - intros (ed & key & H1 & H2). assert (ed = false) as ->.
    { unfold cert_key in H1. repeat case_match; try done; try congruence. by rewrite andb_false_r in *. }
    by exists m, sig, cert, certs, cx, cy, key.
  - intros (m' & sig' & cert' & certs' & cx' & cy' & key & [= <-] & H1 & H2 & H3 & H4 & H5 & H6 & H7).
    exists false, key. split; congruence.
Qed.

Lemma statement_ok opts att auth cose id h : credential_public_key auth = Some cose -> credential_id auth = Some id ->
  exists r, verify_statement lib opts att auth h = Some r /\ (r = Ok tt <-> statement_signed opts att auth cose id h).
Proof.
  intros Hc Hi. unfold verify_statement, statement_signed. destruct (fmt att).
  - eexists; split; [done|]. by destruct (require_attestation_signature opts).
  - eexists; split; [done|]. by apply packed_ok.
  - by apply u2f_ok.
Qed.

(** An attestation as the verifier sees it. *)
Record accepted (obj cdj : list Z) (opts : VerifyAttestationOptions) (att : AttestationObject) (auth : ParsedAuthData) (cose : CosePublicKey)
  (id : list Z) (a : CoseAlgorithm) (pk : list Z) : Prop := mk_accepted {
  acc_object : decode_attestation_object obj = Ok att;
  acc_auth : parse_authenticator_data (auth_data att) = Ok auth;
  (** bound to the ceremony, the origin and the challenge *)
  acc_client : parse_client_data lib cdj = Ok (mk_ClientData "webauthn.create" (expected_challenge opts) (expected_origin opts));
  (** to the relying party, with a user present *)
  acc_rp : rp_id_hash auth = sha256 lib (bytes_of_str (rp_id opts));
  acc_present : Z.land (flags auth) FLAG_USER_PRESENT <> 0;
  (** the credential inside the authenticator data *)
  acc_key : credential_public_key auth = Some cose;
  acc_id : credential_id auth = Some id;
  acc_alg : alg cose = Some a;
  acc_allowed : forall l, allowed_algorithms opts = Some l -> a ∈ l;
  acc_signed : statement_signed opts att auth cose id (sha256 lib cdj);
  acc_raw : encode_raw_public_key cose = Ok pk }.

Definition report (att : AttestationObject) (auth : ParsedAuthData) (client : ClientData) (pk id : list Z) (a : CoseAlgorithm) : VerifiedAttestation :=
  mk_VerifiedAttestation (fmt att) auth client pk id a (pick_x5c (att_stmt att)) (sign_count auth) (flags auth) (aaguid auth).

Lemma verify_attestation_ok obj cdj opts v : verify_attestation lib obj cdj opts = Some (Ok v) <->
  exists att auth cose id a pk, accepted obj cdj opts att auth cose id a pk /\
    v = report att auth (mk_ClientData "webauthn.create" (expected_challenge opts) (expected_origin opts)) pk id a.
Proof.
  unfold verify_attestation. destruct (decode_attestation_object obj) as [att|] eqn:E1; cbn [mbind result_bind];
    [|split; [done|]; intros (? & ? & ? & ? & ? & ? & [] & _); congruence].
  destruct (parse_authenticator_data (auth_data att)) as [auth|] eqn:E2; cbn [mbind result_bind];
    [|split; [done|]; intros (? & ? & ? & ? & ? & ? & [] & _); congruence].
  destruct (parse_client_data lib cdj) as [client|] eqn:E3; cbn [mbind result_bind];
    [|split; [done|]; intros (? & ? & ? & ? & ? & ? & [] & _); congruence].
  destruct (check_client opts client) as [[]|] eqn:E4; cbn [mbind result_bind].
  2:{ split; [done|]. intros (? & ? & ? & ? & ? & ? & [] & _). assert (check_client opts client = Ok tt) by (apply check_client_ok; congruence). congruence. }
  apply check_client_ok in E4. subst client. pose proof (parsed_credential _ _ E2) as [_ Hp].
  destruct (check_auth lib opts auth) as [[[cose id] a]|] eqn:E5; cbn [mbind result_bind].
  2:{ split; [done|]. intros (att' & auth' & cose & id & a & pk & [] & _). assert (auth' = auth) as -> by congruence.
      assert (check_auth lib opts auth = Ok (cose, id, a)); [|congruence]. apply check_auth_ok. split_and!; try done.
      intros E. rewrite E in Hp. destruct Hp. congruence. }
  apply check_auth_ok in E5 as (H1 & H2 & H3 & H4 & H5 & H6 & H7).
  destruct (statement_ok opts att auth cose id (sha256 lib cdj) H4 H5) as (r & -> & Hr). cbn [mbind option_bind]. split.
  - destruct r as [[]|]; [|done]. cbn [mbind result_bind]. destruct (encode_raw_public_key cose) as [pk|] eqn:E6; [|done]. intros [= <-].
    exists att, auth, cose, id, a, pk. split; [|done]. split; try done. by apply Hr.
  - intros (att' & auth' & cose' & id' & a' & pk & [] & ->). assert (att' = att) as -> by congruence. assert (auth' = auth) as -> by congruence.
    assert (cose' = cose) as -> by congruence. assert (id' = id) as -> by congruence. assert (a' = a) as -> by congruence.
    apply Hr in acc_signed0 as ->. cbn. by rewrite acc_raw0.
Qed.


(** ** What a signature binds *)

(** The bytes the attestation key has signed. *)
Definition signed_bytes (att : AttestationObject) (v : VerifiedAttestation) (h : list Z) : list Z :=
  match fmt att with
  | Packed => auth_data att ++ h
  | FidoU2f => 0x00 :: rp_id_hash (v_auth_data v) ++ h ++ v_credential_id v ++ v_credential_public_key v
  | None_ => []
  end.

(** C24: two accepted, signed attestations of the same format whose signed bytes
    agree report the same relying party, credential id and public key, and
    carry the same client data or a SHA-256 collision, provided fido-u2f keys
    have the 65 bytes of an uncompressed P-256 point. *)
Theorem attestation_binds_credential obj1 obj2 cdj1 cdj2 opts1 opts2 att1 att2 v1 v2
  (Hsha : forall bs, length (sha256 lib bs) = 32%nat)
  (H1 : verify_attestation lib obj1 cdj1 opts1 = Some (Ok v1)) (H2 : verify_attestation lib obj2 cdj2 opts2 = Some (Ok v2))
  (Ha1 : decode_attestation_object obj1 = Ok att1) (Ha2 : decode_attestation_object obj2 = Ok att2)
  (Hf : fmt att1 = fmt att2) (Hn : fmt att1 <> None_)
  (Hk : fmt att1 = FidoU2f -> length (v_credential_public_key v1) = 65%nat /\ length (v_credential_public_key v2) = 65%nat)
  (Hm : signed_bytes att1 v1 (sha256 lib cdj1) = signed_bytes att2 v2 (sha256 lib cdj2)) :
  rp_id_hash (v_auth_data v1) = rp_id_hash (v_auth_data v2) /\ v_credential_id v1 = v_credential_id v2 /\
  v_credential_public_key v1 = v_credential_public_key v2 /\
  (cdj1 = cdj2 \/ cdj1 <> cdj2 /\ sha256 lib cdj1 = sha256 lib cdj2).
Proof.
  assert (forall h : sha256 lib cdj1 = sha256 lib cdj2, cdj1 = cdj2 \/ cdj1 <> cdj2 /\ sha256 lib cdj1 = sha256 lib cdj2) as Hcol.
  { intros h. destruct (decide (cdj1 = cdj2)); [by left|by right]. }
  apply verify_attestation_ok in H1 as (att1' & auth1 & cose1 & id1 & a1 & pk1 & A1 & ->).
  apply verify_attestation_ok in H2 as (att2' & auth2 & cose2 & id2 & a2 & pk2 & A2 & ->). destruct A1, A2.
  assert (att1' = att1) as -> by congruence. assert (att2' = att2) as -> by congruence.
  unfold signed_bytes in Hm. rewrite <-Hf in Hm. cbn in Hk |- *. destruct (fmt att1); [done| |].
  - apply app_inj_2 in Hm as [Hd Hh]; [|by rewrite !Hsha]. assert (auth1 = auth2) as -> by congruence.
    split_and!; [done|congruence|congruence|by apply Hcol].
  - cbn in Hm. injection Hm as Hm. apply parsed_credential in acc_auth0 as [L1 _], acc_auth1 as [L2 _].
    apply app_inj_1 in Hm as [-> Hm]; [|congruence]. apply app_inj_1 in Hm as [Hh Hm]; [|by rewrite !Hsha].
    destruct (Hk eq_refl) as [K1 K2]. apply app_inj_2 in Hm as [-> ->]; [|congruence]. split_and!; try done. by apply Hcol.
Qed.
End accepted.


(** ** The reported chain *)

Section forged.
Variable lib : Lib.

Definition packed_object (m : list (Value * Value)) (authd : list Z) : Value :=
  VMap [(Text "fmt", Text "packed"); (Text "attStmt", VMap m); (Text "authData", Bytes authd)].
(** A chain in front, which is reported, and an empty one behind, which makes
    the verifier fall back to self-attestation. *)
Definition forged_stmt (vendor : list Z) (m : list (Value * Value)) : list (Value * Value) :=
  (Text "x5c", Array [Bytes vendor]) :: m ++ [(Text "x5c", Array [])].
Definition with_x5c (v : VerifiedAttestation) (chain : list (list Z)) : VerifiedAttestation :=
  mk_VerifiedAttestation (v_format v) (v_auth_data v) (v_client_data v) (v_credential_public_key v) (v_credential_id v) (v_algorithm v)
    (Some chain) (v_sign_count v) (v_flags v) (v_aaguid v).

Lemma packed_object_decodes m authd obj : wf (packed_object m authd) -> encode (packed_object m authd) = Ok obj ->
  (depth (packed_object m authd) <= MAX_DEPTH)%nat -> decode_attestation_object obj = Ok (mk_AttestationObject Packed (VMap m) authd).
Proof.
  intros Hwf He Hd. pose proof (cbor_decode_encode_value _ _ [] Hwf He Hd) as H. rewrite app_nil_r in H.
  unfold decode_attestation_object. by rewrite H.
Qed.

(** The chain does not influence the other variables. *)
Lemma stmt_fold_x5c m s c : let s' := fold_left stmt_field m (mk_StmtVars (s_sig s) (s_alg s) c) in
  s_sig s' = s_sig (fold_left stmt_field m s) /\ s_alg s' = s_alg (fold_left stmt_field m s).
Proof.
  revert s c. induction m as [|[k v] m IH]; intros [sg al xc] c; [done|]. cbn [fold_left]. unfold stmt_field at 2 4 6 8. cbn [s_sig s_alg].
  destruct k; try (apply (IH (mk_StmtVars sg al xc) c)). destruct (t =? "sig")%string; [apply (IH (mk_StmtVars _ al xc) c)|].
  destruct (t =? "alg")%string; [destruct v; try (apply (IH (mk_StmtVars sg al xc) c)); apply (IH (mk_StmtVars sg _ xc) c)|].
  destruct (t =? "x5c")%string; [|apply (IH (mk_StmtVars sg al xc) c)].
  destruct v; try (apply (IH (mk_StmtVars sg al xc) c)). apply (IH (mk_StmtVars sg al (Some _)) (Some _)).
Qed.
Lemma forged_vars vendor m : stmt_vars (forged_stmt vendor m) = mk_StmtVars (s_sig (stmt_vars m)) (s_alg (stmt_vars m)) (Some []).
Proof.
  unfold stmt_vars, forged_stmt. cbn [fold_left]. rewrite fold_left_app.
  destruct (stmt_fold_x5c m (mk_StmtVars None None None) (Some [vendor])) as [H1 H2]. cbn [s_sig s_alg] in H1, H2.
  cbn [fold_left]. change (stmt_field (mk_StmtVars None None None) _) with (mk_StmtVars None None (Some [vendor])).
  set (s := fold_left stmt_field m (mk_StmtVars None None (Some [vendor]))) in *. rewrite <-H1, <-H2. by destruct s.
Qed.

(** the chain in the report need not be the one that was checked.  From
    any accepted self-attestation its maker obtains, for every certificate of
    their choice, an attestation that is accepted with the same credential and
    reports that certificate, although the only signature checked is the one of
    the credential itself. *)
Theorem reported_chain_forged m authd vendor obj forged cdj opts v
  (Hx : s_x5c (stmt_vars m) = None)
  (Hw : wf (packed_object m authd)) (Hwf : wf (packed_object (forged_stmt vendor m) authd))
  (Hd : (depth (packed_object m authd) <= MAX_DEPTH)%nat) (Hdf : (depth (packed_object (forged_stmt vendor m) authd) <= MAX_DEPTH)%nat)
  (He : encode (packed_object m authd) = Ok obj) (Hef : encode (packed_object (forged_stmt vendor m) authd) = Ok forged)
  (Hv : verify_attestation lib obj cdj opts = Some (Ok v)) :
  verify_attestation lib forged cdj opts = Some (Ok (with_x5c v [vendor])).
Proof.
  apply verify_attestation_ok in Hv as (att & auth & cose & id & a & pk & A & ->). apply verify_attestation_ok. destruct A.
  pose proof (packed_object_decodes _ _ _ Hw He Hd) as E. assert (att = mk_AttestationObject Packed (VMap m) authd) as -> by congruence.
  exists (mk_AttestationObject Packed (VMap (forged_stmt vendor m)) authd), auth, cose, id, a, pk. split; [|done]. split; try done.
  - by apply packed_object_decodes.
  - destruct acc_signed0 as (m' & sig & al & ed & key & [= <-] & H1 & H2 & H3 & H4).
    exists (forged_stmt vendor m), sig, al, ed, key. rewrite forged_vars. cbn [s_sig s_alg s_x5c]. rewrite Hx in H3. by split_and!.
Qed.
End forged.

(** ** Concrete attestations *)

(** Keys and signatures of the right length are accepted: signatures repeat
    the first byte of the key. *)
Definition toy_lib : Lib :=
  mk_Lib (fun bs => repeat (foldr Z.add 0 bs mod 256) 32)
    (fun _ => Ok (JObject [("type", JString "webauthn.create"); ("challenge", JString "c"); ("origin", JString "https://o")]))
    (fun cert => Ok ("1.2.840.10045.2.1", cert))
    (fun key => if (length key =? 65)%nat then Ok tt else Err "length")
    (fun sig => if (length sig =? 8)%nat then Ok tt else Err "length")
    (fun key data sig => if bool_decide (sig = repeat (hd 0 key) 8) then Ok tt else Err "signature")
    (fun _ => Ok tt)
    (fun key data sig => if bool_decide (sig = repeat (hd 0 key) 64) then Ok tt else Err "signature").
Definition toy_opts (allowed : option (list CoseAlgorithm)) : VerifyAttestationOptions := mk_Options "rp" "https://o" "c" allowed true.

(** An EC2 credential of algorithm ES256, flags UP and AT. *)
Definition toy_cose (kty : Z) (x y : list Z) : list Z :=
  match encode (VMap [(Integer 1, Integer kty); (Integer 3, Integer (-7)); (Integer (-2), Bytes x); (Integer (-3), Bytes y)]) with Ok bs => bs | _ => [] end.
Definition toy_auth (cose : list Z) : list Z :=
  auth_layout (repeat (foldr Z.add 0 (bytes_of_str "rp") mod 256) 32) 0x41 7 (credential_layout (repeat 9 16) [1; 2; 3] cose).
Definition toy_stmt (alg : Z) (sig : list Z) : list (Value * Value) := [(Text "alg", Integer alg); (Text "sig", Bytes sig)].
Definition toy_encode (v : Value) : list Z := match encode v with Ok bs => bs | _ => [] end.
Definition p256_auth : list Z := toy_auth (toy_cose 2 (repeat 5 32) (repeat 6 32)).
Definition self_attested : list Z := toy_encode (packed_object (toy_stmt (-7) (repeat 4 8)) p256_auth).
Definition vendor_attested : list Z := toy_encode (packed_object (forged_stmt [0x30; 0x82] (toy_stmt (-7) (repeat 4 8))) p256_auth).


Ltac small_wf := vm_compute; repeat split; try discriminate; repeat constructor; discriminate.

Lemma auth_data_exact_witness : exists p rest, parse_authenticator_data p256_auth = Ok p /\ credential_id p = Some [1; 2; 3] /\
  p256_auth = auth_layout (rp_id_hash p) (flags p) (sign_count p) rest.
Proof.
  assert (is_bytes p256_auth) as Hb by small_wf.
  destruct (parse_authenticator_data p256_auth) as [p|] eqn:E; [|vm_compute in E; discriminate].
  destruct (proj1 (auth_data_exact p256_auth p Hb) E) as (rest & H & _). exists p, rest. split_and!; [reflexivity| |exact H].
  vm_compute in E. injection E as <-. reflexivity.
Defined.

Lemma attestation_binds_credential_witness : exists att v,
  decode_attestation_object self_attested = Ok att /\ verify_attestation toy_lib self_attested [1] (toy_opts None) = Some (Ok v) /\
  v_credential_public_key v = 4 :: repeat 5 32 ++ repeat 6 32.
Proof.
  destruct (decode_attestation_object self_attested) as [att|] eqn:Ea; [|vm_compute in Ea; discriminate].
  destruct (verify_attestation toy_lib self_attested [1] (toy_opts None)) as [[v|]|] eqn:Ev; [|vm_compute in Ev; discriminate..].
  exists att, v. split_and!; [reflexivity|reflexivity|].
  destruct (attestation_binds_credential toy_lib self_attested self_attested [1] [1] (toy_opts None) (toy_opts None) att att v v) as (_ & _ & H & _).
  - intros bs. apply repeat_length.
  - exact Ev.
  - exact Ev.
  - exact Ea.
  - exact Ea.
  - reflexivity.
  - vm_compute in Ea. injection Ea as <-. discriminate.
  - vm_compute in Ea. injection Ea as <-. discriminate.
  - reflexivity.
  - vm_compute in Ev. injection Ev as <-. reflexivity.
Defined.

Lemma reported_chain_forged_witness : exists v, verify_attestation toy_lib vendor_attested [1] (toy_opts None) = Some (Ok v) /\ v_x5c v = Some [[0x30; 0x82]].
Proof.
  destruct (verify_attestation toy_lib self_attested [1] (toy_opts None)) as [[v|]|] eqn:Ev; [|vm_compute in Ev; discriminate..].
  exists (with_x5c v [[0x30; 0x82]]). split; [|reflexivity].
  refine (reported_chain_forged toy_lib (toy_stmt (-7) (repeat 4 8)) p256_auth [0x30; 0x82] self_attested vendor_attested [1] (toy_opts None) v _ _ _ _ _ _ _ Ev).
  - reflexivity.
  - small_wf.
  - small_wf.
  - vm_compute. lia.
  - vm_compute. lia.
  - vm_compute. reflexivity.
  - vm_compute. reflexivity.
Defined.

(** The allow-list sees the algorithm the credential claims, which is compared
    neither with the type of its key nor with the algorithm of the statement:
    a credential that claims ES256 is accepted with an Ed25519 key. *)
Example algorithm_not_bound :
  let obj := toy_encode (packed_object (toy_stmt (-8) (repeat 5 64)) (toy_auth (toy_cose 1 (repeat 5 32) []))) in
  (v ← verify_attestation toy_lib obj [1] (toy_opts (Some [Es256])); match v with Ok v => Some (v_algorithm v, v_credential_public_key v) | _ => None end)
  = Some (Es256, repeat 5 32).
Proof. vm_compute. reflexivity. Qed.

(** Coordinates of any length: the bytes a U2F token signed for one credential
    are also those of another credential id with another key. *)
Example u2f_bytes_ambiguous rp h : u2f_data rp h [1] [7; 4] [8] = u2f_data rp h [1; 4; 7] [8] [].
Proof. reflexivity. Qed.

End Webauthn.
