(* ===== verification/OAuth.v ===== *)
(** * OAuth: bearer tokens as TrustForge identities ([bridge_oauth.rs])

    [verify_token] checks a token with the model of [jws.rs] against the
    configured keys and projects its claims.  serde on the claims and the
    clock are arguments; [None] is a panic: an RSA key with an empty number
    ([der_integer] indexes its first byte), or a timestamp the system clock
    cannot represent.

    - [oauth_token_sound]: what an accepted token proves;
    - [oauth_actor_id_unique]: an actor id determines the subject;
    - [rsa_spki_exact]: the DER form of an RSA key determines its numbers. *)

From S2P Require Import Prelude Utf8 Common Json Base64 Cbor Bundle Clock ActorId Jws Bridges.

#[local] Open Scope string_scope.
#[local] Open Scope list_scope.
#[local] Open Scope Z_scope.

Module OAuth.
Import Jws.
Import Bridges(BridgeError(..)).

Record Jwk := mk_Jwk {
  kty : string; jwk_alg : option string; jwk_kid : option string; crv : option string; jx : option string; jy : option string;
  jn : option string; je : option string }.
Definition Jwks := list Jwk.
Record OAuthBridgeConfig := mk_OAuthBridgeConfig {
  bridge_id : string; trust_domain : string; jwks : Jwks; allowed_algorithms : list string; cfg_issuer : string; cfg_audience : list string;
  clock_tolerance_seconds : Z }.
(** [extra] collects the other claims. *)
Record OAuthClaims := mk_OAuthClaims {
  iss : option string; sub : option string; aud : option json; exp : option Z; iat : option Z; scope : option json;
  tf_actor_type : option string; extra : list (string * json) }.
Record OAuthVerificationResult := mk_OAuthVerificationResult {
  identity : Bridges.ActorIdentity; capabilities : list string; result_claims : OAuthClaims }.

(** [Display] of [JwsError]. *)
Definition display_jws (e : JwsError) : string :=
  match e with
  | Malformed m => "malformed JWT: " +:+ m
  | UnsupportedAlgorithm a => "unsupported algorithm: " +:+ a
  | AlgorithmNotAllowed a => "algorithm " +:+ a +:+ " not allowed"
  | BadKey m => "bad key: " +:+ m
  | BadSignature => "signature verification failed"
  | InvalidClaim m => "invalid claim: " +:+ m
  end.
Definition eq_ignore_ascii_case (a b : string) : bool := (to_ascii_uppercase a =? to_ascii_uppercase b)%string.

(** ** Keys *)

(** [der_integer] reads the first byte: an empty number panics. *)
Definition der_integer (bytes : list Z) : option (list Z) :=
  match bytes with [] => None | _ => Some (Bundle.der_integer bytes) end.
Definition oid_rsa_encryption : list Z := [0x06; 0x09; 0x2a; 0x86; 0x48; 0x86; 0xf7; 0x0d; 0x01; 0x01; 0x01].
Definition encode_rsa_spki (n e : list Z) : option (list Z) :=
  n ← der_integer n; e ← der_integer e;
  let rsa_public_key := Bundle.der_sequence [n; e] in
  let alg_id := Bundle.der_sequence [oid_rsa_encryption; [0x05; 0x00]] in
  let bit_string_body := 0x00 :: rsa_public_key in
  let bit_string := 0x03 :: Bundle.der_len (Cbor.len bit_string_body) ++ bit_string_body in
  Some (Bundle.der_sequence [alg_id; bit_string]).

Definition b64_standard (bs : list Z) : string := str_of_bytes (Base64.encode Base64.STANDARD bs).
Definition url_decode (s what : string) : result BridgeError (list Z) :=
  map_err (fun e => InvalidInput ("base64url " +:+ what +:+ ": " +:+ Base64.decode_error_str e)) (b64_decode s).
Definition jwk_member (o : option string) (what : string) : result BridgeError string := ok_or o (InvalidInput what).

Definition ec_name (crv : string) : string :=
  if (crv =? "P-256")%string then "p256" else if (crv =? "P-384")%string then "p384" else if (crv =? "P-521")%string then "p521" else "ec".
Definition signing_key (key_id algorithm : string) (bytes : list Z) : Bridges.PublicKey :=
  Bridges.mk_PublicKey key_id algorithm (b64_standard bytes) Bridges.Signing None None.

Definition project_jwk_to_public_key (jwk : Jwk) : option (result BridgeError Bridges.PublicKey) :=
  let key_id := unwrap_or (jwk_kid jwk) "oauth-bridge-bearer" in
  if (kty jwk =? "OKP")%string then
    Some (x ← jwk_member (jx jwk) "OKP JWK missing x"; bytes ← url_decode x "x"; Ok (signing_key key_id "ed25519" bytes))
  else if (kty jwk =? "EC")%string then
    Some (x ← jwk_member (jx jwk) "EC JWK missing x"; y ← jwk_member (jy jwk) "EC JWK missing y";
          xb ← url_decode x "x"; yb ← url_decode y "y";
          Ok (signing_key key_id (ec_name (unwrap_or (crv jwk) "")) (0x04 :: xb ++ yb)))
  else if (kty jwk =? "RSA")%string then
    match (n ← jwk_member (jn jwk) "RSA JWK missing n"; e ← jwk_member (je jwk) "RSA JWK missing e";
           nb ← url_decode n "n"; eb ← url_decode e "e"; Ok (nb, eb)) with
    | Err e => Some (Err e)
    | Ok (nb, eb) => der ← encode_rsa_spki nb eb; Some (Ok (signing_key key_id "rsa" der))
    end
  else Some (Err (Unsupported ("unsupported JWK kty: " +:+ kty jwk))).

Definition parse_algorithm (name : string) : result BridgeError Algorithm := map_err (fun e => InvalidInput (display_jws e)) (parse name).

(** [str::split_whitespace]. *)
Fixpoint words (cur : list Z) (l : list Z) : list (list Z) :=
  match l with
  | [] => match cur with [] => [] | _ => [cur] end
  | c :: l => if is_whitespace c then match cur with [] => words [] l | _ => cur :: words [] l end else words (cur ++ [c]) l
  end.
Definition split_whitespace (s : string) : list string := str_of_chars <$> words [] (chars s).
Definition scopes_from_claims (claims : OAuthClaims) : list string :=
  match scope claims with
  | Some (JString s) => split_whitespace s
  | Some (JArray arr) => omap as_str arr
  | _ => []
  end.

(** [UNIX_EPOCH + Duration::from_secs(t)] overflows beyond [i64::MAX]. *)
Definition timestamp (t : Z) : option string := if t <=? 2 ^ 63 - 1 then Some (Bridges.timestamp t) else None.

Definition actor_type_of (s : string) : result BridgeError ActorType :=
  if (s =? "human")%string then Ok AHuman
  else if (s =? "agent")%string then Ok AAgent
  else if (s =? "device")%string then Ok ADevice
  else if (s =? "service")%string then Ok AService
  else if (s =? "site")%string then Ok ASite
  else if (s =? "organization")%string then Ok AOrganization
  else Err (Rejected ("unsupported tf_actor_type: " +:+ s)).

Section bridge.
Context (x : jws_lib) (claims_of : json -> result string OAuthClaims).

Definition decoding_key_for (jwk : Jwk) : result BridgeError (DecodingKey x) :=
  if (kty jwk =? "EC")%string then
    sx ← jwk_member (jx jwk) "EC JWK missing x"; sy ← jwk_member (jy jwk) "EC JWK missing y";
    map_err (fun e => InvalidInput ("bad EC components: " +:+ display_jws e)) (from_ec_components x sx sy)
  else if (kty jwk =? "RSA")%string then
    n ← jwk_member (jn jwk) "RSA JWK missing n"; e ← jwk_member (je jwk) "RSA JWK missing e";
    map_err (fun e => InvalidInput ("bad RSA components: " +:+ display_jws e)) (from_rsa_components x n e)
  else if (kty jwk =? "OKP")%string then
    sx ← jwk_member (jx jwk) "OKP JWK missing x";
    map_err (fun e => InvalidInput ("bad OKP components: " +:+ display_jws e)) (from_ed_components x sx)
  else Err (InvalidInput ("unsupported kty " +:+ kty jwk)).

(** The checks both token bridges make before they verify the signature. *)
Definition select_key (allowed : list string) (keys : Jwks) (token : string) : result BridgeError (Algorithm * Jwk * DecodingKey x) :=
  header ← map_err (fun e => Rejected ("malformed JWT: " +:+ display_jws e)) (decode_header x token);
  alg ← map_err (fun e => Rejected (display_jws e)) (algorithm header);
  if negb (existsb (fun a => eq_ignore_ascii_case a (name alg)) allowed) then
    Err (Rejected ("algorithm " +:+ name alg +:+ " not in allow-list"))
  else
    kid ← ok_or (kid header) (Rejected "JWT header missing kid");
    jwk ← ok_or (List.find (fun k => bool_decide (jwk_kid k = Some kid)) keys) (Rejected ("no JWK with kid " +:+ kid));
    key ← decoding_key_for jwk;
    Ok (alg, jwk, key).

Definition validation_for (cfg : OAuthBridgeConfig) (alg : Algorithm) : Validation :=
  mk_Validation [alg] (clock_tolerance_seconds cfg) true false (Some [cfg_issuer cfg]) (Some (cfg_audience cfg)).

Definition actor_uri (actor_type trust_domain subject : string) : string :=
  "tf:actor:" +:+ actor_type +:+ ":" +:+ trust_domain +:+ "/" +:+ Bridges.encode_subject subject.

Definition verify_token (cfg : OAuthBridgeConfig) (now : Z) (token : string) : option (result BridgeError OAuthVerificationResult) :=
  if str_is_empty token then Some (Err (InvalidInput "empty token"))
  else
    let checked :=
      '(alg, jwk, key) ← select_key (allowed_algorithms cfg) (jwks cfg) token;
      data ← map_err (fun e => Rejected ("JWT verify failed: " +:+ display_jws e)) (decode claims_of token key (validation_for cfg alg) now);
      subject ← ok_or (sub (claims data)) (Rejected "JWT missing sub claim");
      let actor_type_str := unwrap_or (tf_actor_type (claims data)) "human" in
      actor_type ← actor_type_of actor_type_str;
      Ok (jwk, claims data, subject, actor_type_str, actor_type) in
    match checked with
    | Err e => Some (Err e)
    | Ok (jwk, claims, subject, actor_type_str, actor_type) =>
      projected ← project_jwk_to_public_key jwk;
      match projected with
      | Err e => Some (Err e)
      | Ok public_key =>
        valid_from ← match iat claims with Some t => timestamp t | None => timestamp now end;
        valid_until ← match exp claims with Some t => Some <$> timestamp t | None => Some None end;
        Some (Ok (mk_OAuthVerificationResult
          (Bridges.mk_ActorIdentity (actor_uri actor_type_str (trust_domain cfg) subject) actor_type None [public_key] [T3]
             [Bridges.mk_AuthorityRoot Bridges.Organization (cfg_issuer cfg)] None valid_from valid_until None None)
          (scopes_from_claims claims) claims))
      end
    end.
End bridge.


(** ** The DER form of RSA keys *)

Lemma read_der_len n rest : 0 <= n < 2 ^ 64 -> Bundle.read_len (Bundle.der_len n ++ rest) = Some (n, rest) /\ Cbor.len (Bundle.der_len n) <= 9.
Proof. intros H. destruct (Bundle.der_len_roundtrip n rest H) as (H1 & H2 & _). unfold Cbor.len. split; [done|lia]. Qed.

Definition tlv (tag : Z) (body : list Z) : list Z := tag :: Bundle.der_len (Cbor.len body) ++ body.
Lemma list_len_nonneg (l : list Z) : 0 <= Cbor.len l.
Proof. unfold Cbor.len. lia. Qed.
Lemma len_app (a b : list Z) : Cbor.len (a ++ b) = Cbor.len a + Cbor.len b.
Proof. unfold Cbor.len. rewrite length_app. lia. Qed.
Lemma len_cons b (l : list Z) : Cbor.len (b :: l) = 1 + Cbor.len l.
Proof. unfold Cbor.len. cbn [length]. lia. Qed.

Lemma tlv_len tag b : Cbor.len b < 2 ^ 64 -> Cbor.len (tlv tag b) <= Cbor.len b + 10.
Proof.
  intros H. pose proof (list_len_nonneg b). unfold tlv. rewrite len_cons, len_app. destruct (read_der_len (Cbor.len b) [] ltac:(lia)) as [_ Hl]. lia.
Qed.
Lemma tlv_inj tag a b r s : Cbor.len a < 2 ^ 64 -> Cbor.len b < 2 ^ 64 -> tlv tag a ++ r = tlv tag b ++ s -> a = b /\ r = s.
Proof.
  intros Ha Hb. unfold tlv. cbn [app]. rewrite <-!app_assoc. intros H. apply (f_equal tail) in H. cbn [tail] in H. apply (f_equal Bundle.read_len) in H.
  pose proof (list_len_nonneg a). pose proof (list_len_nonneg b).
  rewrite (proj1 (read_der_len (Cbor.len a) (a ++ r) ltac:(lia))), (proj1 (read_der_len (Cbor.len b) (b ++ s) ltac:(lia))) in H.
  injection H as Hl H. unfold Cbor.len in Hl. apply app_inj_1 in H; [done|lia].
Qed.
Lemma tlv_inj_nil tag a b : Cbor.len a < 2 ^ 64 -> Cbor.len b < 2 ^ 64 -> tlv tag a = tlv tag b -> a = b.
Proof. intros Ha Hb H. apply (tlv_inj tag a b [] []); [done..|]. by rewrite !app_nil_r. Qed.

Lemma trim_zeros_value bs : of_be (Bundle.trim_zeros bs) = of_be bs /\ (length (Bundle.trim_zeros bs) <= length bs)%nat.
Proof.
  induction bs as [|b [|c bs] IH]; [done|done|].
  change (Bundle.trim_zeros (b :: c :: bs)) with (if b =? 0 then Bundle.trim_zeros (c :: bs) else b :: c :: bs). destruct (Z.eqb_spec b 0) as [->|]; [|done].
  destruct IH as [-> Hl]. split; [done|]. cbn [length] in *. lia.
Qed.

(** The contents of an INTEGER carry the number. *)
Lemma der_integer_body bs d : der_integer bs = Some d -> exists body, d = tlv 0x02 body /\ of_be body = of_be bs /\ Cbor.len body <= 1 + Cbor.len bs.
Proof.
  unfold der_integer. destruct bs as [|b bs]; [done|]. intros H%Some_inj. subst d. destruct (trim_zeros_value (b :: bs)) as [Hv Hl].
  unfold Bundle.der_integer. eexists. split; [reflexivity|]. unfold Cbor.len in *. destruct (negb _); [|split; [done|lia]].
  split; [by rewrite <-Hv|]. cbn [length] in *. lia.
Qed.

Lemma rsa_spki_tlv n e d : encode_rsa_spki n e = Some d -> exists dn de, der_integer n = Some dn /\ der_integer e = Some de /\
  d = tlv 0x30 (tlv 0x30 (oid_rsa_encryption ++ [0x05; 0x00]) ++ tlv 0x03 (0x00 :: tlv 0x30 (dn ++ de))).
Proof.
  unfold encode_rsa_spki. destruct (der_integer n) as [dn|]; [|done]. destruct (der_integer e) as [de|]; [|done]. cbn [mbind option_bind].
  intros H%Some_inj. subst d. exists dn, de. split_and!; [done|done|]. unfold Bundle.der_sequence. cbn [concat]. by rewrite !app_nil_r.
Qed.

(** the SubjectPublicKeyInfo of an RSA key exists exactly when both numbers
    have a byte (otherwise the code panics), and it determines the modulus and
    the exponent as numbers. *)
Theorem rsa_spki_exact n e n' e' (Hn : Cbor.len n < 2 ^ 32) (He : Cbor.len e < 2 ^ 32) (Hn' : Cbor.len n' < 2 ^ 32) (He' : Cbor.len e' < 2 ^ 32) :
  (is_Some (encode_rsa_spki n e) <-> n <> [] /\ e <> []) /\
  (is_Some (encode_rsa_spki n e) -> encode_rsa_spki n e = encode_rsa_spki n' e' -> of_be n = of_be n' /\ of_be e = of_be e').
Proof.
  split; [by destruct n as [|n0 n], e as [|e0 e]; (split; [by intros []|by intros [? ?]])|].
  intros [d Hd] H. rewrite Hd in H. symmetry in H.
  apply rsa_spki_tlv in Hd as (dn & de & Dn & De & ->), H as (dn' & de' & Dn' & De' & H).
  apply der_integer_body in Dn as (bn & -> & <- & Ln), De as (be & -> & <- & Le), Dn' as (bn' & -> & <- & Ln'), De' as (be' & -> & <- & Le').
  pose proof (tlv_len 2 bn ltac:(lia)). pose proof (tlv_len 2 be ltac:(lia)). pose proof (tlv_len 2 bn' ltac:(lia)). pose proof (tlv_len 2 be' ltac:(lia)).
  assert (Cbor.len (tlv 2 bn ++ tlv 2 be) < 2 ^ 34) as L1 by (rewrite len_app; lia). assert (Cbor.len (tlv 2 bn' ++ tlv 2 be') < 2 ^ 34) as L2 by (rewrite len_app; lia).
  pose proof (tlv_len 0x30 _ (Z.lt_trans _ _ (2 ^ 64) L1 ltac:(lia))) as L3. pose proof (tlv_len 0x30 _ (Z.lt_trans _ _ (2 ^ 64) L2 ltac:(lia))) as L4.
  set (seq1 := tlv 0x30 (tlv 2 bn ++ tlv 2 be)) in *. set (seq2 := tlv 0x30 (tlv 2 bn' ++ tlv 2 be')) in *.
  assert (Cbor.len (tlv 0x03 (0x00 :: seq1)) < 2 ^ 35) as L5 by (pose proof (tlv_len 3 (0 :: seq1)) as T; rewrite len_cons in T; lia).
  assert (Cbor.len (tlv 0x03 (0x00 :: seq2)) < 2 ^ 35) as L6 by (pose proof (tlv_len 3 (0 :: seq2)) as T; rewrite len_cons in T; lia).
  apply tlv_inj_nil in H; [|rewrite len_app; change (Cbor.len (tlv 48 _)) with 15; lia..]. apply app_inv_head in H.
  apply tlv_inj_nil in H; [|rewrite len_cons; lia..]. apply (f_equal tail) in H.
  change (seq1 = seq2) in H. apply tlv_inj_nil in H; [|lia..]. apply tlv_inj in H as [-> H]; [|lia..]. apply tlv_inj_nil in H as ->; [done|lia..].
Qed.
Lemma rsa_spki_exact_witness : is_Some (encode_rsa_spki [0; 0x90; 1] [3]) <-> [0; 0x90; 1] <> [] /\ [3] <> [].
Proof. apply (rsa_spki_exact [0; 0x90; 1] [3] [0x90; 1] [3]); vm_compute; reflexivity. Defined.


(** ** Accepted tokens *)

Section accepted.
Context (x : jws_lib) (claims_of : json -> result string OAuthClaims).

Lemma decode_header_decode {T} (co : json -> result string T) token key v now d :
  decode (x := x) co token key v now = Ok d -> decode_header x token = Ok (header d).
Proof.
  unfold decode, decode_header. destruct (split "." token) as [|h [|p [|s [|]]]]; try done. cbn [head ok_or mbind result_bind].
  destruct (header_of x h) as [hd|]; [|done]. cbn [mbind result_bind]. intros H. repeat (apply bind_ok in H as (? & _ & H) || case_match; try done).
  by injection H as <-.
Qed.

(** The key a token is checked with. *)
Record selected (allowed : list string) (keys : Jwks) (h : Header) (alg : Algorithm) (jwk : Jwk) (key : DecodingKey x) : Prop := mk_selected {
  sel_alg : algorithm h = Ok alg;
  sel_allowed : exists a, a ∈ allowed /\ to_ascii_uppercase a = to_ascii_uppercase (name alg);
  sel_jwk : jwk ∈ keys;
  sel_kid : kid h = jwk_kid jwk /\ is_Some (kid h);
  sel_key : decoding_key_for x jwk = Ok key }.

Lemma select_key_ok allowed keys token alg jwk key : select_key x allowed keys token = Ok (alg, jwk, key) ->
  exists h, decode_header x token = Ok h /\ selected allowed keys h alg jwk key.
Proof.
  unfold select_key. intros (h & Hh%map_err_ok & (a & Ha%map_err_ok & H)%bind_ok)%bind_ok.
  destruct (existsb _ allowed) eqn:Ee; [|done]. cbn [negb] in H.
  apply bind_ok in H as (k & Hk%ok_or_ok & (j & Hj%ok_or_ok & (dk & Hd & [= <- <- <-])%bind_ok)%bind_ok). exists h. split; [done|].
  apply find_first in Hj as (l1 & l2 & -> & _ & Hb). apply bool_decide_eq_true in Hb. apply existsb_exists in Ee as (b & Hin & Hb').
  split; [done| |set_solver|split; [congruence|by rewrite Hk]|done].
  exists b. split; [by apply list_elem_of_In|]. by apply String.eqb_eq in Hb'.
Qed.

(** What an accepted token proves. *)
Record token_proves (cfg : OAuthBridgeConfig) (now : Z) (token : string) (r : OAuthVerificationResult) (jwk : Jwk) (alg : Algorithm)
  (hb pb sb : list Z) (h : Header) (key : DecodingKey x) (cv : json) (subject : string) : Prop := mk_token_proves {
  tp_token : token = compact hb pb sb /\ header_from_slice x hb = Ok h /\ value_from_slice x pb = Ok cv;
  tp_key : selected (allowed_algorithms cfg) (jwks cfg) h alg jwk key;
  (** signed by that key over the header and the claims *)
  tp_signed : accepts key alg (bytes_of_str (signing_input hb pb)) sb;
  tp_issuer : jget "iss" cv = Some (JString (cfg_issuer cfg));
  tp_audience : exists a, a ∈ cfg_audience cfg /\ (jget "aud" cv = Some (JString a) \/ exists arr, jget "aud" cv = Some (JArray arr) /\ JString a ∈ arr);
  tp_unexpired : exists e, jget "exp" cv ≫= as_u64 = Some e /\ now <= e + clock_tolerance_seconds cfg;
  (** and projected from its claims *)
  tp_claims : claims_of cv = Ok (result_claims r);
  tp_subject : sub (result_claims r) = Some subject;
  tp_actor : actor_type_of (unwrap_or (tf_actor_type (result_claims r)) "human") = Ok (Bridges.actor_type (identity r)) /\
    Bridges.actor_id (identity r) = actor_uri (unwrap_or (tf_actor_type (result_claims r)) "human") (trust_domain cfg) subject;
  tp_public_key : exists pk, project_jwk_to_public_key jwk = Some (Ok pk) /\ Bridges.public_keys (identity r) = [pk];
  tp_scopes : capabilities r = scopes_from_claims (result_claims r) }.

Lemma verify_token_proves cfg now token r : 0 <= now <= u64_max -> verify_token x claims_of cfg now token = Some (Ok r) ->
  exists jwk alg hb pb sb h key cv subject, token_proves cfg now token r jwk alg hb pb sb h key cv subject.
Proof.
  intros Hnow H. unfold verify_token in H. destruct (str_is_empty token); [done|].
  destruct (_ ≫= _) as [[[[[jwk cl] subject] ats] at_]|] eqn:E; [|done].
  apply bind_ok in E as ([[alg jwk'] key] & Hsel & (d & Hd%map_err_ok & (s & Hs%ok_or_ok & (t & Ht & E)%bind_ok)%bind_ok)%bind_ok).
  injection E as <- <- <- <- <-.
  destruct (project_jwk_to_public_key jwk') as [[pk|]|] eqn:Ep; [|done..]. cbn [mbind option_bind] in H.
  destruct (match iat (claims d) with Some t => timestamp t | None => timestamp now end) as [vf|]; [|done].
  destruct (match exp (claims d) with Some t => Some <$> timestamp t | None => Some None end) as [vu|]; [|done].
  injection H as <-. pose proof (decode_header_decode _ _ _ _ _ _ Hd) as Hh.
  apply select_key_ok in Hsel as (h & Hh' & Hsel). assert (h = header d) as -> by congruence.
  apply decode_inv in Hd as (hb & pb & sb & _ & _ & _ & -> & a & cv & H1 & H2 & _ & H4 & H5 & [C1 _ C3 C4] & H6); [|done].
  assert (a = alg) as ->. { destruct Hsel. congruence. }
  exists jwk', alg, hb, pb, sb, (header d), key, cv, s. split; try done.
  - destruct (C3 [cfg_issuer cfg] eq_refl) as (i & Hi & Hin). apply list_elem_of_singleton in Hin as ->. done.
  - exact (C4 (cfg_audience cfg) eq_refl).
  - exact (C1 eq_refl).
  - by exists pk.
Qed.


Lemma oauth_token_claims cfg now token r : 0 <= now <= u64_max -> verify_token x claims_of cfg now token = Some (Ok r) ->
  exists subject, sub (result_claims r) = Some subject /\
    actor_type_of (unwrap_or (tf_actor_type (result_claims r)) "human") = Ok (Bridges.actor_type (identity r)) /\
    Bridges.actor_id (identity r) = actor_uri (unwrap_or (tf_actor_type (result_claims r)) "human") (trust_domain cfg) subject.
Proof.
  intros Hnow H. destruct (verify_token_proves cfg now token r Hnow H) as (? & ? & ? & ? & ? & ? & ? & ? & s & []). exists s. by destruct tp_actor0.
Qed.

Lemma actor_type_of_names s t : actor_type_of s = Ok t -> s ∈ ["human"; "agent"; "device"; "service"; "site"; "organization"].
Proof.
  unfold actor_type_of. repeat match goal with |- context [(s =? ?c)%string] => destruct (String.eqb_spec s c) as [->|] end; try done; set_solver.
Qed.
Lemma actor_type_no_colon s t : actor_type_of s = Ok t -> ActorId.has ":" s = false.
Proof. intros H%actor_type_of_names. set_unfold in H. by destruct_or? H; subst. Qed.

Lemma separator_inj c a b r s : ActorId.has c a = false -> ActorId.has c b = false -> a +:+ String c r = b +:+ String c s -> a = b /\ r = s.
Proof.
  revert b. induction a as [|d a IH]; intros [|d' b]; rewrite ?str_app_cons, ?str_app_nil_l; cbn [ActorId.has].
  - by intros _ _ [= ->].
  - intros _ [Hd _]%orb_false_iff [= <- _]. by rewrite Ascii.eqb_refl in Hd.
  - intros [Hd _]%orb_false_iff _ [= -> _]. by rewrite Ascii.eqb_refl in Hd.
  - intros [_ Ha]%orb_false_iff [_ Hb]%orb_false_iff [= -> H]. by destruct (IH b Ha Hb H) as [-> ->].
Qed.

(** within a trust domain an actor id names one type of actor and one
    subject: two accepted tokens that are given the same actor id carry the
    same [sub] claim and the same actor type. *)
Theorem oauth_actor_id_unique cfg cfg' now now' token token' r r'
  (Hnow : 0 <= now <= u64_max) (Hnow' : 0 <= now' <= u64_max)
  (H : verify_token x claims_of cfg now token = Some (Ok r)) (H' : verify_token x claims_of cfg' now' token' = Some (Ok r'))
  (Hd : trust_domain cfg = trust_domain cfg') (Hid : Bridges.actor_id (identity r) = Bridges.actor_id (identity r')) :
  sub (result_claims r) = sub (result_claims r') /\ Bridges.actor_type (identity r) = Bridges.actor_type (identity r').
Proof.
  destruct (oauth_token_claims cfg now token r Hnow H) as (s & Hs & Ht & Hi).
  destruct (oauth_token_claims cfg' now' token' r' Hnow' H') as (s' & Hs' & Ht' & Hi').
  rewrite Hi, Hi', <-Hd in Hid. unfold actor_uri in Hid. apply str_app_inv_head in Hid.
  apply separator_inj in Hid as [Ha Hid]; [|by eapply actor_type_no_colon..]. rewrite Ha in Ht.
  apply str_app_inv_head in Hid. apply str_app_inv_head, Bridges.encode_subject_inj in Hid as ->. split; congruence.
Qed.
End accepted.


(** ** A token *)

Definition claims2 : json :=
  JObject [("exp", jint 100); ("iss", JString "idp"); ("aud", JString "b"); ("sub", JString "a/b"); ("scope", JString "read  write")].
Definition toy2 : jws_lib := {|
  ed_key := list Z; p256_key := list Z; p384_key := list Z; rsa_key := Z * Z; ed_secret := list Z; p256_secret := list Z;
  ed_sig := list Z; p256_sig := list Z; p384_sig := list Z; rsa_sig := list Z;
  ed_from_bytes := Ok; p256_from_sec1 := Ok; p384_from_sec1 := Ok; rsa_new := fun n e => Ok (n, e);
  ed_sig_from := Some; p256_sig_from := Some; p384_sig_from := Some; rsa_sig_from := Some;
  ed_verify := fun k m s => bool_decide (s = toy_sign k m); p256_verify := fun k m s => bool_decide (s = toy_sign k m);
  p384_verify := fun k m s => bool_decide (s = toy_sign k m); rsa_verify := fun _ _ _ _ => false;
  ed_from_pem := fun s => Ok (bytes_of_str s); p256_from_pem := fun s => Ok (bytes_of_str s);
  ed_sign := toy_sign; p256_sign := toy_sign;
  header_from_slice := fun bs => Ok (mk_Header "EdDSA" (Some "k") (Some "dpop+jwt") None);
  header_to_vec := fun h => Ok (bytes_of_str (alg h));
  value_from_slice := fun bs => Ok claims2
|}.
Definition claims_of2 (v : json) : result string OAuthClaims :=
  Ok (mk_OAuthClaims (jget "iss" v ≫= as_str) (jget "sub" v ≫= as_str) (jget "aud" v) (jget "exp" v ≫= as_u64) (jget "iat" v ≫= as_u64)
        (jget "scope" v) (jget "tf_actor_type" v ≫= as_str) []).
Definition ed_jwk (bs : list Z) : Jwk := mk_Jwk "OKP" None (Some "k") (Some "Ed25519") (Some (b64_encode bs)) None None None.
Definition oauth_cfg : OAuthBridgeConfig := mk_OAuthBridgeConfig "b" "example.org" [ed_jwk (repeat 7 32)] ["eddsa"] "idp" ["b"] 60.
Definition token2 : string := compact [1] [2] (toy_sign (repeat 7 32) (bytes_of_str (signing_input [1] [2]))).

Lemma oauth_actor_id_unique_witness : exists r, verify_token toy2 claims_of2 oauth_cfg 150 token2 = Some (Ok r) /\ sub (result_claims r) = sub (result_claims r).
Proof.
  destruct (verify_token toy2 claims_of2 oauth_cfg 150 token2) as [[r|]|] eqn:E; [|vm_compute in E; discriminate..].
  exists r. split; [reflexivity|].
  apply (oauth_actor_id_unique toy2 claims_of2 oauth_cfg oauth_cfg 150 150 token2 token2 r r); try exact E; try reflexivity; unfold u64_max; lia.
Defined.

(** The [nbf] claim is not looked at, and a validity beyond the range of the
    system clock panics. *)
Example oauth_ignores_nbf : validate_nbf (validation_for oauth_cfg EdDSA) = false.
Proof. reflexivity. Qed.
Example oauth_timestamp_panics : timestamp (2 ^ 63) = None.
Proof. reflexivity. Qed.

End OAuth.
