(* ===== verification/Gnap.v ===== *)
(** * Gnap: bound access tokens and DPoP proofs ([bridge_gnap.rs])

    Access tokens and proofs are verified with the model of [jws.rs]; serde on
    a [Jwk], the [Debug] form of values and SHA-256 are arguments.  [None] is
    the panic of [project_jwk_to_public_key] on an RSA key without digits.

    - [dpop_binds_key]: a proof that is accepted for a thumbprint was signed
      with the key of that thumbprint, for that request;
    - [gnap_token_bound]: what an accepted access token proves;
    - [gnap_capabilities_requested], [gnap_unbound_token_any_key],
      [dpop_ignores_time], [gnap_empty_modulus_panics]: what it does not. *)

From S2P Require Import Prelude Common Json Base64 Cbor ActorId Jws Bridges OAuth.

#[local] Open Scope string_scope.
#[local] Open Scope list_scope.
#[local] Open Scope Z_scope.

Module Gnap.
Import Jws OAuth.
Import Bridges(BridgeError(..)).

Record GnapKeyDescriptor := mk_GnapKeyDescriptor { proof : string; key_jwk : Jwk }.
Record GnapClient := mk_GnapClient { client_id : option string; client_key : GnapKeyDescriptor }.
Inductive GnapAccessRight :=
| Reference (s : string)
| Object (actions locations : option (list string)) (kind : option string).
Definition actions (r : GnapAccessRight) : list string :=
  match r with Reference s => [s] | Object a _ _ => unwrap_or a [] end.
Record GnapGrantRequest := mk_GnapGrantRequest { client : GnapClient; access : list GnapAccessRight }.
Record GnapGrantResponse := mk_GnapGrantResponse { value : string; bound : bool; expires_in : option Z; continue_uri : option string }.
Record GnapBridgeConfig := mk_GnapBridgeConfig {
  g_bridge_id : string; g_trust_domain : string; g_issuer : string; g_allowed_algorithms : list string; g_jwks : Jwks }.
Record GnapVerifiedGrant := mk_GnapVerifiedGrant {
  g_identity : Bridges.ActorIdentity; g_capabilities : list string; client_key_thumbprint : string }.
Record DpopProofVerification := mk_Dpop { ok : bool; reason : option string; jkt_expected : option string; jkt_seen : option string }.

Definition build_grant_response (req : GnapGrantRequest) (token : string) (finish_uri : option string) : result BridgeError GnapGrantResponse :=
  match access req with
  | [] => Err (InvalidInput "access_token.access required")
  | _ =>
    if str_is_empty (kty (key_jwk (client_key (client req)))) then Err (InvalidInput "client.key.jwk required")
    else Ok (mk_GnapGrantResponse token true (Some 600) finish_uri)
  end.

(** ** RFC 7638 thumbprints *)

(** A double quote. *)
Definition q : string := String (ascii_of_nat 34) "".
Definition quoted (k v : string) : string := q +:+ k +:+ q +:+ ":" +:+ q +:+ v +:+ q.
Definition thumbprint_text (jwk : Jwk) : result BridgeError string :=
  if (kty jwk =? "EC")%string then
    crv ← jwk_member (crv jwk) "EC JWK missing crv"; sx ← jwk_member (jx jwk) "EC JWK missing x"; sy ← jwk_member (jy jwk) "EC JWK missing y";
    Ok ("{" +:+ quoted "crv" crv +:+ "," +:+ quoted "kty" (kty jwk) +:+ "," +:+ quoted "x" sx +:+ "," +:+ quoted "y" sy +:+ "}")
  else if (kty jwk =? "OKP")%string then
    crv ← jwk_member (crv jwk) "OKP JWK missing crv"; sx ← jwk_member (jx jwk) "OKP JWK missing x";
    Ok ("{" +:+ quoted "crv" crv +:+ "," +:+ quoted "kty" (kty jwk) +:+ "," +:+ quoted "x" sx +:+ "}")
  else if (kty jwk =? "RSA")%string then
    n ← jwk_member (jn jwk) "RSA JWK missing n"; e ← jwk_member (je jwk) "RSA JWK missing e";
    Ok ("{" +:+ quoted "e" e +:+ "," +:+ quoted "kty" (kty jwk) +:+ "," +:+ quoted "n" n +:+ "}")
  else Err (Unsupported ("unsupported kty for thumbprint: " +:+ kty jwk)).

Section bridge.
Context (x : jws_lib) (sha256 : list Z -> list Z).
(** serde on a key and on a map, [{:?}] of an optional value. *)
Context (jwk_of : json -> result string Jwk) (shape_error : json -> string) (debug : option json -> string).

Definition jwk_thumbprint (jwk : Jwk) : result BridgeError string :=
  text ← thumbprint_text jwk; Ok (b64_encode (sha256 (bytes_of_str text))).
Definition map_of (v : json) : result string json := match v with JObject _ => Ok v | _ => Err (shape_error v) end.

(** ** Access tokens *)

Definition token_validation (cfg : GnapBridgeConfig) (alg : Algorithm) : Validation :=
  mk_Validation [alg] 0 true false (Some [g_issuer cfg]) None.
(** [claims["cnf"]["jkt"]], where the shapes fit. *)
Definition cnf_jkt (claims : json) : option string :=
  match jget "cnf" claims with Some (JObject fields) => assoc "jkt" fields ≫= as_str | _ => None end.
Definition str_claim (claims : json) (k default : string) : string := unwrap_or (jget k claims ≫= as_str) default.

Definition verify_access_token (cfg : GnapBridgeConfig) (now : Z) (token : string) (request : GnapGrantRequest)
  : option (result BridgeError GnapVerifiedGrant) :=
  let jwk := key_jwk (client_key (client request)) in
  if str_is_empty token then Some (Err (InvalidInput "missing access token"))
  else
    let checked :=
      '(alg, _, key) ← select_key x (g_allowed_algorithms cfg) (g_jwks cfg) token;
      data ← map_err (fun e => Rejected ("GNAP access token verify failed: " +:+ display_jws e)) (decode map_of token key (token_validation cfg alg) now);
      let claims := claims data in
      expected_jkt ← jwk_thumbprint jwk;
      _ ← match cnf_jkt claims with
          | Some jkt => if negb (jkt =? expected_jkt)%string then Err (Rejected "access token cnf.jkt does not match client.key") else Ok tt
          | None => Ok tt
          end;
      let actor_type_str := str_claim claims "tf_actor_type" "agent" in
      actor_type ← actor_type_of actor_type_str;
      Ok (claims, expected_jkt, actor_type_str, actor_type) in
    match checked with
    | Err e => Some (Err e)
    | Ok (claims, expected_jkt, actor_type_str, actor_type) =>
      projected ← project_jwk_to_public_key jwk;
      Some (
        public_key ← projected;
        Ok (mk_GnapVerifiedGrant
          (Bridges.mk_ActorIdentity (actor_uri actor_type_str (g_trust_domain cfg) (str_claim claims "sub" "anonymous")) actor_type None
             [public_key] [T3] [Bridges.mk_AuthorityRoot Bridges.Organization (g_issuer cfg)] None
             (match jget "iat" claims ≫= as_u64 with Some t => Bridges.timestamp t | None => Bridges.timestamp now end)
             (Bridges.timestamp <$> (jget "exp" claims ≫= as_u64)) None None)
          (flat_map actions (access request)) expected_jkt))
    end.

(** ** DPoP proofs *)

Definition refuse (expected_jkt : string) (seen : option string) (reason : string) : DpopProofVerification :=
  mk_Dpop false (Some reason) (Some expected_jkt) seen.
Definition dpop_validation (alg : Algorithm) : Validation := mk_Validation [alg] 0 false false None None.
Definition is_str (o : option json) (s : string) : bool := bool_decide (o ≫= as_str = Some s).
Definition is_number (v : json) : bool := match v with JNumber _ => true | _ => false end.

(** The claims of a proof whose signature has been verified. *)
Definition check_payload (payload : json) (htm htu : string) (access_token_hash : option string) (expected_jkt jkt : string) : DpopProofVerification :=
  let refuse := refuse expected_jkt (Some jkt) in
  if negb (is_str (jget "htm" payload) htm) then refuse ("DPoP htm " +:+ debug (jget "htm" payload) +:+ " does not match expected " +:+ htm)
  else if negb (is_str (jget "htu" payload) htu) then refuse ("DPoP htu " +:+ debug (jget "htu" payload) +:+ " does not match expected " +:+ htu)
  else if match access_token_hash with Some ath => negb (is_str (jget "ath" payload) ath) | None => false end then
    refuse "DPoP ath does not match expected access-token hash"
  else if negb (match jget "iat" payload with Some v => is_number v | None => false end) then refuse "DPoP missing iat"
  else mk_Dpop true None (Some expected_jkt) (Some jkt).

(** The key, the algorithm and the signature. *)
Definition check_signed (now : Z) (proof_jwt : string) (header : json) (jwk : Jwk) (htm htu : string) (access_token_hash : option string)
  (expected_jkt jkt : string) : DpopProofVerification :=
  let refuse := refuse expected_jkt (Some jkt) in
  if negb (jkt =? expected_jkt)%string then refuse "jkt mismatch"
  else
    match decoding_key_for x jwk with
    | Err e => refuse ("DPoP key build: " +:+ Bridges.display e)
    | Ok key =>
      match parse_algorithm (unwrap_or (jget "alg" header ≫= as_str) "ES256") with
      | Err e => refuse ("DPoP alg parse: " +:+ Bridges.display e)
      | Ok alg =>
        match decode map_of proof_jwt key (dpop_validation alg) now with
        | Err e => refuse ("DPoP signature verify failed: " +:+ display_jws e)
        | Ok data => check_payload (claims data) htm htu access_token_hash expected_jkt jkt
        end
      end
    end.

Definition verify_dpop_proof (now : Z) (proof_jwt htm htu : string) (access_token_hash : option string) (expected_jkt : string) : DpopProofVerification :=
  let refuse := refuse expected_jkt None in
  if str_is_empty proof_jwt then refuse "missing DPoP proof"
  else
    match split "." proof_jwt with
    | [part0; _; _] =>
      match b64_decode part0 with
      | Err e => refuse ("DPoP header decode: " +:+ Base64.decode_error_str e)
      | Ok header_bytes =>
        match value_from_slice x header_bytes with
        | Err e => refuse ("DPoP header parse: " +:+ e)
        | Ok header =>
          if negb (is_str (jget "typ" header) "dpop+jwt") then refuse ("DPoP typ " +:+ debug (jget "typ" header) +:+ " is not dpop+jwt")
          else
            match jget "jwk" header with
            | None => refuse "DPoP header missing jwk"
            | Some jwk_value =>
              match jwk_of jwk_value with
              | Err e => refuse ("DPoP jwk parse: " +:+ e)
              | Ok jwk =>
                match jwk_thumbprint jwk with
                | Err e => refuse ("DPoP thumbprint: " +:+ Bridges.display e)
                | Ok jkt => check_signed now proof_jwt header jwk htm htu access_token_hash expected_jkt jkt
                end
              end
            end
        end
      end
    | _ => refuse "DPoP proof not a JWT"
    end.
End bridge.


(** ** The text of a thumbprint determines the key *)

Lemma last_separator {A} (c : A) s t y z : c ∉ y -> c ∉ z -> s ++ c :: y = t ++ c :: z -> s = t /\ y = z.
Proof.
  revert t. induction s as [|a s IH]; intros [|b t] Hy Hz H; cbn in H.
  - by injection H.
  - injection H as -> ->. set_solver.
  - injection H as -> <-. set_solver.
  - injection H as -> H. by destruct (IH t Hy Hz H) as [-> ->].
Qed.

Definition quote_free (s : string) : Prop := 34 ∉ bytes_of_str s.
Lemma url_no_quote : all_below 64 (fun i => negb (Base64.at_ Base64.URL_ALPHABET i =? 34)) = true.
Proof. vm_compute. reflexivity. Qed.
Lemma b64_quote_free s bs : b64_decode s = Ok bs -> quote_free s.
Proof.
  intros [Hb ->]%b64_decode_iff Hin. unfold b64_encode in Hin. rewrite bytes_of_str_of_bytes in Hin by (apply Base64.encode_bytes; [by right|done]).
  rewrite Base64.encode_syms in Hin by done. unfold Base64.padding in Hin. cbn [Base64.padded Base64.URL_SAFE_NO_PAD] in Hin. rewrite app_nil_r in Hin.
  pose proof (Base64.syms_symbols Base64.URL_SAFE_NO_PAD bs Hb) as Hs. rewrite Forall_forall in Hs. destruct (Hs _ Hin) as (i & Hi & E).
  pose proof (all_below_spec 64 _ url_no_quote i ltac:(lia)) as Hq. cbn beta in Hq.
  change (Base64.at_ Base64.URL_ALPHABET i) with (Base64.at_ (Base64.alphabet Base64.URL_SAFE_NO_PAD) i) in Hq. by rewrite <-E in Hq.
Qed.

(** The last quoted value before a common end. *)
Lemma last_value s t y z r : quote_free y -> quote_free z -> s +:+ q +:+ y +:+ r = t +:+ q +:+ z +:+ r -> s = t /\ y = z.
Proof.
  intros Hy Hz H%(f_equal bytes_of_str). rewrite !bytes_of_str_app in H. rewrite !app_assoc in H. apply app_inv_tail in H. rewrite <-!app_assoc in H.
  apply last_separator in H as [H1 H2]; [|done..]. split; by apply bytes_of_str_inj.
Qed.
Lemma app_inv_suffix s t a b : String.length a = String.length b -> s +:+ a = t +:+ b -> s = t /\ a = b.
Proof.
  intros Hl H%(f_equal bytes_of_str). rewrite !bytes_of_str_app in H. apply app_inj_2 in H as [H1 H2]; [|by rewrite !length_bytes_of_str].
  split; by apply bytes_of_str_inj.
Qed.

(** The texts, split at their last values. *)
Definition key_open (k : string) : string := q +:+ k +:+ q +:+ ":".
Definition ec_head (crv : string) : string := "{" +:+ quoted "crv" crv +:+ "," +:+ quoted "kty" "EC" +:+ "," +:+ key_open "x".
Definition okp_head (crv : string) : string := "{" +:+ quoted "crv" crv +:+ "," +:+ quoted "kty" "OKP" +:+ "," +:+ q.
Definition rsa_head (e : string) : string := "{" +:+ key_open "e" +:+ q +:+ e +:+ q +:+ "," +:+ quoted "kty" "RSA" +:+ "," +:+ q.
Definition value_end : string := q +:+ "}".
Definition name_end (c : string) : string := c +:+ q +:+ ":".

Lemma thumbprint_text_ok jwk text : thumbprint_text jwk = Ok text -> exists s c v,
  text = (s +:+ name_end c) +:+ q +:+ v +:+ value_end /\
  ((kty jwk = "EC" /\ c = "y" /\ jy jwk = Some v /\ exists crv sx, jx jwk = Some sx /\ s = ec_head crv +:+ q +:+ sx +:+ q +:+ "," +:+ q) \/
   (kty jwk = "OKP" /\ c = "x" /\ jx jwk = Some v /\ exists crv, s = okp_head crv) \/
   (kty jwk = "RSA" /\ c = "n" /\ jn jwk = Some v /\ exists e, je jwk = Some e /\ s = rsa_head e)).
Proof.
  unfold thumbprint_text, jwk_member. destruct (String.eqb_spec (kty jwk) "EC") as [E|_]; [|destruct (String.eqb_spec (kty jwk) "OKP") as [E|_]; [|destruct (String.eqb_spec (kty jwk) "RSA") as [E|_]; [|done]]].
  - intros (c & _ & (sx & Hx%ok_or_ok & (sy & Hy%ok_or_ok & [= <-])%bind_ok)%bind_ok)%bind_ok.
    exists (ec_head c +:+ q +:+ sx +:+ q +:+ "," +:+ q), "y", sy. split; [|left; rewrite E; by split_and!; [..|exists c, sx]].
    unfold ec_head, quoted, name_end, value_end, key_open. rewrite E. by rewrite !str_app_assoc.
  - intros (c & _ & (sx & Hx%ok_or_ok & [= <-])%bind_ok)%bind_ok.
    exists (okp_head c), "x", sx. split; [|right; left; split_and!; [done..|by exists c]].
    unfold okp_head, quoted, name_end, value_end. rewrite E. by rewrite !str_app_assoc.
  - intros (n & Hn%ok_or_ok & (e & He%ok_or_ok & [= <-])%bind_ok)%bind_ok.
    exists (rsa_head e), "n", n. split; [|right; right; split_and!; [done..|by exists e]].
    unfold rsa_head, quoted, name_end, value_end, key_open. rewrite E. by rewrite !str_app_assoc.
Qed.

(** The members of a key that decodes have no quote. *)
Lemma decodable_quote_free x jwk key : decoding_key_for x jwk = Ok key ->
  (kty jwk = "EC" -> exists sx sy, jx jwk = Some sx /\ jy jwk = Some sy /\ quote_free sx /\ quote_free sy) /\
  (kty jwk = "OKP" -> exists sx, jx jwk = Some sx /\ quote_free sx) /\
  (kty jwk = "RSA" -> exists n e, jn jwk = Some n /\ je jwk = Some e /\ quote_free n /\ quote_free e).
Proof.
  assert (forall s what bs, b64u s what = Ok bs -> quote_free s) as Hq. { intros s what bs H%map_err_ok. by eapply b64_quote_free. }
  unfold decoding_key_for, jwk_member. intros H. split_and!; intros E; rewrite E in H; cbn [String.eqb Ascii.eqb Bool.eqb] in H.
  - apply bind_ok in H as (sx & Hx%ok_or_ok & (sy & Hy%ok_or_ok & H)%bind_ok). apply map_err_ok, bind_ok in H as (xb & Hxb & (yb & Hyb & _)%bind_ok).
    exists sx, sy. split_and!; by eauto.
  - apply bind_ok in H as (sx & Hx%ok_or_ok & H). apply map_err_ok, bind_ok in H as (xb & Hxb & _). exists sx. split_and!; by eauto.
  - apply bind_ok in H as (n & Hn%ok_or_ok & (e & He%ok_or_ok & H)%bind_ok). apply map_err_ok, bind_ok in H as (nb & Hnb & (eb & Heb & _)%bind_ok).
    exists n, e. split_and!; by eauto.
Qed.

Lemma thumbprint_same_key x jwk jwk' key key' text : decoding_key_for x jwk = Ok key -> decoding_key_for x jwk' = Ok key' ->
  thumbprint_text jwk = Ok text -> thumbprint_text jwk' = Ok text -> key = key'.
Proof.
  intros Hk Hk' H H'. destruct (decodable_quote_free _ _ _ Hk) as (Q1 & Q2 & Q3), (decodable_quote_free _ _ _ Hk') as (R1 & R2 & R3).
  apply thumbprint_text_ok in H as (s & c & v & -> & Hs), H' as (s' & c' & v' & E & Hs').
  assert (quote_free v) as Qv. { destruct Hs as [(E1 & _ & Ev & _)|[(E1 & _ & Ev & _)|(E1 & _ & Ev & _)]];
    [destruct (Q1 E1) as (? & ? & ? & ? & ? & ?)|destruct (Q2 E1) as (? & ? & ?)|destruct (Q3 E1) as (? & ? & ? & ? & ? & ?)]; congruence. }
  assert (quote_free v') as Rv. { destruct Hs' as [(E1 & _ & Ev & _)|[(E1 & _ & Ev & _)|(E1 & _ & Ev & _)]];
    [destruct (R1 E1) as (? & ? & ? & ? & ? & ?)|destruct (R2 E1) as (? & ? & ?)|destruct (R3 E1) as (? & ? & ? & ? & ? & ?)]; congruence. }
  apply last_value in E as [E <-]; [|done..]. apply app_inv_suffix in E as [E Ec].
  2:{ destruct Hs as [(_ & -> & _)|[(_ & -> & _)|(_ & -> & _)]], Hs' as [(_ & -> & _)|[(_ & -> & _)|(_ & -> & _)]]; reflexivity. }
  destruct Hs as [(K & -> & Ev & crv & sx & Ex & ->)|[(K & -> & Ev & crv & ->)|(K & -> & Ev & e & Ee & ->)]],
    Hs' as [(K' & -> & Ev' & crv' & sx' & Ex' & ->)|[(K' & -> & Ev' & crv' & ->)|(K' & -> & Ev' & e' & Ee' & ->)]];
    try (exfalso; by apply (f_equal bytes_of_str) in Ec).
  - destruct (Q1 K) as (? & ? & X1 & _ & X2 & _), (R1 K') as (? & ? & Y1 & _ & Y2 & _).
    apply last_value in E as [_ ->]; [|congruence..]. unfold decoding_key_for in Hk, Hk'. rewrite K, Ev, Ex in Hk. rewrite K', Ev', Ex' in Hk'. cbn [String.eqb Ascii.eqb Bool.eqb] in Hk, Hk'. congruence.
  - unfold decoding_key_for in Hk, Hk'. rewrite K, Ev in Hk. rewrite K', Ev' in Hk'. cbn [String.eqb Ascii.eqb Bool.eqb] in Hk, Hk'. congruence.
  - unfold rsa_head in E. apply str_app_inv_head, str_app_inv_head, str_app_inv_head in E. apply app_inv_suffix in E as [-> _]; [|done].
    unfold decoding_key_for in Hk, Hk'. rewrite K, Ev, Ee in Hk. rewrite K', Ev', Ee' in Hk'. cbn [String.eqb Ascii.eqb Bool.eqb] in Hk, Hk'. congruence.
Qed.

Section proofs.
Context (x : jws_lib) (sha256 : list Z -> list Z) (jwk_of : json -> result string Jwk) (shape_error : json -> string) (debug : option json -> string).
Hypothesis Hsha : forall bs, is_bytes (sha256 bs).
Abbreviation verify_dpop := (verify_dpop_proof x sha256 jwk_of shape_error debug).
Abbreviation verify_token := (verify_access_token x sha256 shape_error).

(** Two keys with different thumbprint texts and the same thumbprint. *)
Definition thumbprints_collide (jwk jwk' : Jwk) : Prop := exists t t', thumbprint_text jwk = Ok t /\ thumbprint_text jwk' = Ok t' /\
  t <> t' /\ sha256 (bytes_of_str t) = sha256 (bytes_of_str t').

(** A thumbprint names one key. *)
Lemma thumbprint_names_key jwk jwk' key key' jkt : decoding_key_for x jwk = Ok key -> decoding_key_for x jwk' = Ok key' ->
  jwk_thumbprint sha256 jwk = Ok jkt -> jwk_thumbprint sha256 jwk' = Ok jkt -> key = key' \/ thumbprints_collide jwk jwk'.
Proof.
  intros Hk Hk' (t & Ht & [= <-])%bind_ok (t' & Ht' & E)%bind_ok. injection E as E.
  assert (sha256 (bytes_of_str t') = sha256 (bytes_of_str t)) as Es.
  { apply (Ok_inj (E := Base64.DecodeError)). rewrite <-(proj2 (b64_decode_iff _ _) (conj (Hsha (bytes_of_str t')) eq_refl)), E.
    by apply b64_decode_iff. }
  destruct (decide (t = t')) as [->|Hne]; [left; by eapply thumbprint_same_key|right]. by exists t, t'.
Qed.

(** The key that the header of a proof carries. *)
Definition header_key (hb : list Z) (jwk : Jwk) (key : DecodingKey x) : Prop := exists header jv,
  value_from_slice x hb = Ok header /\ jget "typ" header = Some (JString "dpop+jwt") /\
  jget "jwk" header = Some jv /\ jwk_of jv = Ok jwk /\ decoding_key_for x jwk = Ok key.
(** What the claims of a proof say about the request. *)
Definition claims_request (cv : json) (htm htu : string) (ath : option string) : Prop :=
  jget "htm" cv = Some (JString htm) /\ jget "htu" cv = Some (JString htu) /\
  (forall h, ath = Some h -> jget "ath" cv = Some (JString h)).

Lemma is_str_ok o s : is_str o s = true -> o = Some (JString s).
Proof. intros [v [Hv Hs]]%bool_decide_eq_true%bind_Some. destruct v; try done. cbn in Hs. congruence. Qed.
Lemma check_payload_ok cv htm htu ath e jkt : ok (check_payload debug cv htm htu ath e jkt) = true -> claims_request cv htm htu ath.
Proof.
  unfold check_payload, claims_request. intros H. destruct (is_str (jget "htm" cv) htm) eqn:E1; [|done].
  destruct (is_str (jget "htu" cv) htu) eqn:E2; [|done]. cbn [negb] in H. split; [by apply is_str_ok|]. split; [by apply is_str_ok|].
  intros h ->. apply is_str_ok. by destruct (is_str (jget "ath" cv) h).
Qed.

(** C26: a DPoP proof is accepted for the thumbprint of a key only if it is a
    compact JWS signed with the key its header carries, and whose signed claims
    name the method and URI of the request and the hash of the access token,
    when one is given; and the key in the header is the key of the thumbprint,
    unless the thumbprint texts of these two keys are a SHA-256 collision. *)
Theorem dpop_binds_key now proof_jwt htm htu ath jkt jwk0 key0
  (Hnow : 0 <= now <= u64_max) (Hk : decoding_key_for x jwk0 = Ok key0) (Hj : jwk_thumbprint sha256 jwk0 = Ok jkt)
  (Hok : ok (verify_dpop now proof_jwt htm htu ath jkt) = true) :
  exists hb pb sb alg cv jwk key, proof_jwt = compact hb pb sb /\ header_key hb jwk key /\
    accepts key alg (bytes_of_str (signing_input hb pb)) sb /\ value_from_slice x pb = Ok cv /\ claims_request cv htm htu ath /\
    (key = key0 \/ thumbprints_collide jwk jwk0).
Proof.
  unfold verify_dpop_proof in Hok. destruct (str_is_empty proof_jwt); [done|]. destruct (split "." proof_jwt) as [|p0 [|p1 [|p2 [|]]]] eqn:Es; try done.
  destruct (b64_decode p0) as [hbs|] eqn:Eb; [|done]. destruct (value_from_slice x hbs) as [hd|] eqn:Eh; [|done].
  destruct (is_str (jget "typ" hd) _) eqn:Et; [|done]. cbn [negb] in Hok. apply is_str_ok in Et.
  destruct (jget "jwk" hd) as [jv|] eqn:Ev; [|done]. destruct (jwk_of jv) as [jwk|] eqn:Ew; [|done].
  destruct (jwk_thumbprint sha256 jwk) as [jkt'|] eqn:Ej; [|done]. unfold check_signed in Hok.
  destruct (String.eqb_spec jkt' jkt) as [->|]; [|done]. cbn [negb] in Hok. destruct (decoding_key_for x jwk) as [key|] eqn:Ek; [|done].
  destruct (parse_algorithm _) as [alg|]; [|done]. destruct (decode (x := x) _ _ _ _ _) as [d|] eqn:Ed; [|done].
  apply decode_inv in Ed as (hb & pb & sb & B1 & B2 & B3 & -> & a & cv & _ & _ & Ha & Hacc & Hcv & _ & Hcl); [|done].
  rewrite split_compact in Es by done. injection Es as <- <- <-. rewrite (proj2 (b64_decode_iff _ _) (conj B1 eq_refl)) in Eb. injection Eb as <-.
  assert (claims d = cv) as E. { unfold map_of in Hcl. destruct cv; try done. by injection Hcl. }
  exists hb, pb, sb, a, cv, jwk, key. split; [done|]. split; [by exists hd, jv|]. split; [done|]. split; [done|].
  split; [rewrite E in Hok; by eapply check_payload_ok|]. by eapply thumbprint_names_key.
Qed.

(** a proof never goes stale: the verdict does not depend on the time at
    which it is presented, whatever its [iat] claim says. *)
Theorem dpop_ignores_time now now' proof_jwt htm htu ath jkt :
  verify_dpop now proof_jwt htm htu ath jkt = verify_dpop now' proof_jwt htm htu ath jkt.
Proof.
  unfold verify_dpop_proof, check_signed. repeat (case_match; try done).
Qed.

(** ** Access tokens *)

(** The state of [verify_access_token] once the token is verified. *)
Definition token_verified (cfg : GnapBridgeConfig) (now : Z) (token : string) (claims : json) (ats : string) (t : ActorType) : Prop :=
  str_is_empty token = false /\ ats = str_claim claims "tf_actor_type" "agent" /\ actor_type_of ats = Ok t /\
  exists alg jwk key d, select_key x (g_allowed_algorithms cfg) (g_jwks cfg) token = Ok (alg, jwk, key) /\
    decode (map_of shape_error) token key (token_validation cfg alg) now = Ok d /\ Jws.claims d = claims.

Definition grant (cfg : GnapBridgeConfig) (now : Z) (claims : json) (ats : string) (t : ActorType) (pk : Bridges.PublicKey) (caps : list string) (jkt : string)
  : GnapVerifiedGrant :=
  mk_GnapVerifiedGrant
    (Bridges.mk_ActorIdentity (actor_uri ats (g_trust_domain cfg) (str_claim claims "sub" "anonymous")) t None [pk] [T3]
       [Bridges.mk_AuthorityRoot Bridges.Organization (g_issuer cfg)] None
       (match jget "iat" claims ≫= as_u64 with Some t => Bridges.timestamp t | None => Bridges.timestamp now end)
       (Bridges.timestamp <$> (jget "exp" claims ≫= as_u64)) None None) caps jkt.

Abbreviation request_key := (fun req => key_jwk (client_key (client req))).

Lemma access_token_ok cfg now token req g : verify_token cfg now token req = Some (Ok g) <->
  exists claims ats t jkt pk, token_verified cfg now token claims ats t /\ jwk_thumbprint sha256 (request_key req) = Ok jkt /\
    (forall j, cnf_jkt claims = Some j -> j = jkt) /\ project_jwk_to_public_key (request_key req) = Some (Ok pk) /\
    g = grant cfg now claims ats t pk (flat_map actions (access req)) jkt.
Proof.
  unfold verify_access_token. destruct (str_is_empty token) eqn:Et; [split; [done|]; intros (? & ? & ? & ? & ? & (? & _) & _); congruence|].
  split.
  - destruct (_ ≫= _) as [[[[cl jkt] ats] t]|] eqn:E; [|done].
    apply bind_ok in E as ([[alg jwk] key] & Hsel & (d & Hd%map_err_ok & (j & Hj & ([] & Hc & (t' & Ht & [= <- <- <- <-])%bind_ok)%bind_ok)%bind_ok)%bind_ok).
    destruct (project_jwk_to_public_key _) as [[pk|]|] eqn:Ep; [|done..]. cbn [mbind option_bind result_bind]. intros [= <-].
    exists (Jws.claims d), (str_claim (Jws.claims d) "tf_actor_type" "agent"), t', j, pk. split_and!; try done.
    + split_and!; try done. by exists alg, jwk, key, d.
    + intros j' Hj'. rewrite Hj' in Hc. by destruct (String.eqb_spec j' j).
  - intros (cl & ats & t & jkt & pk & (_ & -> & Ht & alg & jwk & key & d & Hsel & Hd & <-) & Hj & Hc & Hp & ->).
    rewrite Hsel. cbn [mbind result_bind]. rewrite Hd. cbn [map_err mbind result_bind]. rewrite Hj. cbn [mbind result_bind].
    assert (match cnf_jkt (claims d) with
      | Some j => if negb (j =? jkt)%string then Err (Rejected "access token cnf.jkt does not match client.key") else Ok tt | None => Ok tt end = Ok tt) as ->.
    { destruct (cnf_jkt (claims d)) as [j|]; [|done]. by rewrite (Hc j eq_refl), String.eqb_refl. }
    cbn [mbind result_bind]. rewrite Ht. cbn [mbind result_bind]. by rewrite Hp.
Qed.

(** an access token is accepted only if a configured key signed it with an
    allowed algorithm for the configured issuer, it has not expired and, when
    it is bound to a key, the client key of the request is that key. *)
Theorem gnap_token_bound cfg now token req g (Hnow : 0 <= now <= u64_max) (H : verify_token cfg now token req = Some (Ok g)) :
  exists hb pb sb h alg jwk key cv, token = compact hb pb sb /\ header_from_slice x hb = Ok h /\ value_from_slice x pb = Ok cv /\
    selected x (g_allowed_algorithms cfg) (g_jwks cfg) h alg jwk key /\ accepts key alg (bytes_of_str (signing_input hb pb)) sb /\
    jget "iss" cv = Some (JString (g_issuer cfg)) /\ (exists e, jget "exp" cv ≫= as_u64 = Some e /\ now <= e) /\
    Bridges.actor_id (g_identity g) = actor_uri (str_claim cv "tf_actor_type" "agent") (g_trust_domain cfg) (str_claim cv "sub" "anonymous") /\
    (forall j, cnf_jkt cv = Some j -> jwk_thumbprint sha256 (request_key req) = Ok j).
Proof.
  apply access_token_ok in H as (cl & ats & t & jkt & pk & (_ & -> & _ & alg & jwk & key & d & Hsel & Hd & <-) & Hj & Hc & _ & ->).
  pose proof (decode_header_decode _ _ _ _ _ _ _ Hd) as Hh. apply select_key_ok in Hsel as (h & Hh' & Hsel). assert (h = header d) as -> by congruence.
  apply decode_inv in Hd as (hb & pb & sb & _ & _ & _ & -> & a & cv & H1 & H2 & _ & H4 & H5 & [C1 _ C3 _] & H6); [|done].
  assert (Jws.claims d = cv) as E. { unfold map_of in H6. destruct cv; try done. by injection H6. }
  assert (a = alg) as ->. { destruct Hsel. congruence. }
  exists hb, pb, sb, (header d), alg, jwk, key, cv. rewrite <-E in *. split_and!; try done.
  - destruct (C3 [g_issuer cfg] eq_refl) as (i & Hi & Hin). apply list_elem_of_singleton in Hin as ->. done.
  - destruct (C1 eq_refl) as (e & He & Hle). exists e. split; [done|]. cbn in Hle. lia.
  - intros j Hj'. by rewrite (Hc j Hj').
Qed.

(** the capabilities of a grant are whatever the request asks for: from an
    accepted token its bearer obtains a grant with any list of actions, none of
    which the issuer has signed. *)
Theorem gnap_capabilities_requested cfg now token req g rights (H : verify_token cfg now token req = Some (Ok g)) :
  verify_token cfg now token (mk_GnapGrantRequest (client req) rights) =
    Some (Ok (mk_GnapVerifiedGrant (g_identity g) (flat_map actions rights) (client_key_thumbprint g))).
Proof.
  apply access_token_ok in H as (cl & ats & t & jkt & pk & Hv & Hj & Hc & Hp & ->). apply access_token_ok. by exists cl, ats, t, jkt, pk.
Qed.

(** a token without [cnf.jkt] is accepted with every client key, which
    becomes the public key of the identity: presenting such a token proves
    possession of no key at all. *)
Theorem gnap_unbound_token_any_key cfg now token claims ats t client' rights jkt pk
  (Hv : token_verified cfg now token claims ats t) (Hc : cnf_jkt claims = None)
  (Hj : jwk_thumbprint sha256 (key_jwk (client_key client')) = Ok jkt) (Hp : project_jwk_to_public_key (key_jwk (client_key client')) = Some (Ok pk)) :
  verify_token cfg now token (mk_GnapGrantRequest client' rights) = Some (Ok (grant cfg now claims ats t pk (flat_map actions rights) jkt)).
Proof. apply access_token_ok. exists claims, ats, t, jkt, pk. split_and!; try done. intros j E. congruence. Qed.

(** such a request also decides whether the process survives: an RSA client
    key with an empty modulus makes the bridge panic. *)
Theorem gnap_empty_modulus_panics cfg now token claims ats t proof id kid alg e eb rights
  (Hv : token_verified cfg now token claims ats t) (Hc : cnf_jkt claims = None) (He : b64_decode e = Ok eb) :
  verify_token cfg now token (mk_GnapGrantRequest (mk_GnapClient id (mk_GnapKeyDescriptor proof (mk_Jwk "RSA" alg kid None None None (Some "") (Some e)))) rights)
  = None.
Proof.
  destruct Hv as (Et & -> & Ht & al & jwk & key & d & Hsel & Hd & <-). unfold verify_access_token. rewrite Et, Hsel. cbn [mbind result_bind].
  rewrite Hd. cbn [map_err mbind result_bind]. rewrite Hc. cbn [mbind result_bind]. rewrite Ht.
  unfold jwk_thumbprint, thumbprint_text, project_jwk_to_public_key, url_decode, jwk_member.
  cbn [kty jn je key_jwk client_key client ok_or mbind result_bind String.eqb Ascii.eqb Bool.eqb]. by rewrite He.
Qed.
End proofs.


(** ** A grant and a proof *)

Definition toy_sha (bs : list Z) : list Z := [foldr Z.add 0 bs mod 256].
Lemma toy_sha_bytes bs : is_bytes (toy_sha bs).
Proof. apply Forall_singleton. unfold is_u8. pose proof (Z.mod_pos_bound (foldr Z.add 0 bs) 256 ltac:(lia)). lia. Qed.

Definition gnap_cfg : GnapBridgeConfig := mk_GnapBridgeConfig "b" "example.org" "idp" ["EdDSA"] [ed_jwk (repeat 7 32)].
Definition a_client (bs : list Z) : GnapClient := mk_GnapClient None (mk_GnapKeyDescriptor "dpop" (ed_jwk bs)).
Definition a_request (rights : list GnapAccessRight) : GnapGrantRequest := mk_GnapGrantRequest (a_client (repeat 9 32)) rights.
Abbreviation toy_token := (verify_access_token toy2 toy_sha (fun _ => "shape") gnap_cfg 50 token2).

Lemma gnap_token_bound_witness : exists g, toy_token (a_request []) = Some (Ok g) /\ exists hb pb sb, token2 = compact hb pb sb.
Proof.
  destruct (toy_token (a_request [])) as [[g|]|] eqn:E; [|vm_compute in E; discriminate..]. exists g. split; [reflexivity|].
  destruct (gnap_token_bound toy2 toy_sha (fun _ => "shape") gnap_cfg 50 token2 (a_request []) g) as (hb & pb & sb & h & a & j & k & cv & Ht & _).
  - unfold u64_max. lia.
  - exact E.
  - exists hb, pb, sb. exact Ht.
Defined.
Lemma gnap_capabilities_requested_witness : exists g, toy_token (a_request [Reference "admin.everything"]) = Some (Ok g) /\ g_capabilities g = ["admin.everything"].
Proof.
  destruct (toy_token (a_request [])) as [[g|]|] eqn:E; [|vm_compute in E; discriminate..]. eexists. split.
  - exact (gnap_capabilities_requested toy2 toy_sha (fun _ => "shape") gnap_cfg 50 token2 (a_request []) g [Reference "admin.everything"] E).
  - reflexivity.
Defined.

Lemma toy_verified : token_verified toy2 (fun _ => "shape") gnap_cfg 50 token2 claims2 "agent" AAgent.
Proof.
  split; [reflexivity|]. split; [reflexivity|]. split; [reflexivity|].
  exists EdDSA, (ed_jwk (repeat 7 32)), (Ed25519 (x := toy2) (repeat 7 32)), (mk_TokenData (mk_Header "EdDSA" (Some "k") (Some "dpop+jwt") None) claims2).
  split; [vm_compute; reflexivity|]. split; [vm_compute; reflexivity|reflexivity].
Qed.
Lemma gnap_unbound_token_any_key_witness : exists g, toy_token (mk_GnapGrantRequest (a_client (repeat 1 32)) []) = Some (Ok g).
Proof.
  eexists. eapply (gnap_unbound_token_any_key toy2 toy_sha (fun _ => "shape") gnap_cfg 50 token2 claims2 "agent" AAgent (a_client (repeat 1 32)) []).
  - exact toy_verified.
  - reflexivity.
  - vm_compute. reflexivity.
  - vm_compute. reflexivity.
Defined.
Lemma gnap_empty_modulus_panics_witness :
  toy_token (mk_GnapGrantRequest (mk_GnapClient None (mk_GnapKeyDescriptor "dpop" (mk_Jwk "RSA" None None None None None (Some "") (Some "AQAB")))) []) = None.
Proof.
  apply (gnap_empty_modulus_panics toy2 toy_sha (fun _ => "shape") gnap_cfg 50 token2 claims2 "agent" AAgent "dpop" None None None "AQAB" [1; 0; 1] []).
  - exact toy_verified.
  - reflexivity.
  - vm_compute. reflexivity.
Defined.

Definition proof_header : json := JObject [("typ", JString "dpop+jwt"); ("alg", JString "EdDSA"); ("jwk", JNull)].
Definition proof_claims : json := JObject [("htm", JString "GET"); ("htu", JString "https://r"); ("iat", jint 1)].
Definition toy3 : jws_lib := {|
  ed_key := list Z; p256_key := list Z; p384_key := list Z; rsa_key := Z * Z; ed_secret := list Z; p256_secret := list Z;
  ed_sig := list Z; p256_sig := list Z; p384_sig := list Z; rsa_sig := list Z;
  ed_from_bytes := Ok; p256_from_sec1 := Ok; p384_from_sec1 := Ok; rsa_new := fun n e => Ok (n, e);
  ed_sig_from := Some; p256_sig_from := Some; p384_sig_from := Some; rsa_sig_from := Some;
  ed_verify := fun k m s => bool_decide (s = toy_sign k m); p256_verify := fun k m s => bool_decide (s = toy_sign k m);
  p384_verify := fun k m s => bool_decide (s = toy_sign k m); rsa_verify := fun _ _ _ _ => false;
  ed_from_pem := fun s => Ok (bytes_of_str s); p256_from_pem := fun s => Ok (bytes_of_str s);
  ed_sign := toy_sign; p256_sign := toy_sign;
  header_from_slice := fun bs => Ok (mk_Header "EdDSA" None (Some "dpop+jwt") None);
  header_to_vec := fun h => Ok (bytes_of_str (alg h));
  value_from_slice := fun bs => Ok (if bool_decide (bs = [1]) then proof_header else proof_claims)
|}.
Definition proof_token : string := compact [1] [2] (toy_sign (repeat 7 32) (bytes_of_str (signing_input [1] [2]))).
Definition toy_jkt : string := match jwk_thumbprint toy_sha (ed_jwk (repeat 7 32)) with Ok s => s | Err _ => "" end.
Lemma dpop_binds_key_witness : exists hb pb sb alg cv jwk key, proof_token = compact hb pb sb /\
  header_key toy3 (fun _ => Ok (ed_jwk (repeat 7 32))) hb jwk key /\
  accepts key alg (bytes_of_str (signing_input hb pb)) sb /\ value_from_slice toy3 pb = Ok cv /\
  claims_request cv "GET" "https://r" None /\ key = Ed25519 (x := toy3) (repeat 7 32).
Proof.
  destruct (dpop_binds_key toy3 toy_sha (fun _ => Ok (ed_jwk (repeat 7 32))) (fun _ => "shape") (fun _ => "debug") toy_sha_bytes 50 proof_token "GET" "https://r" None
    toy_jkt (ed_jwk (repeat 7 32)) (Ed25519 (x := toy3) (repeat 7 32))) as (hb & pb & sb & alg & cv & jwk & key & H1 & H2 & H3 & H4 & H5 & H6).
  - unfold u64_max. lia.
  - vm_compute. reflexivity.
  - vm_compute. reflexivity.
  - vm_compute. reflexivity.
  - exists hb, pb, sb, alg, cv, jwk, key. split_and!; try done. destruct H6 as [H6|(t & t' & T & T' & N & _)]; [done|].
    destruct H2 as (? & ? & _ & _ & _ & J & _). exfalso. apply N. congruence.
Defined.

End Gnap.
