(* ===== verification/Tls.v ===== *)
(** * Tls: certificate chains as TrustForge identities ([bridge_tls.rs])

    [verify_chain] walks from the leaf to a configured root and projects the
    leaf; X.509 and PEM parsing are those of the [x509-parser] crate, the
    record [Lib].  [None] is a panic or a loop that does not end.  The OCSP and
    CRL helpers of the same source file are in [Ocsp].

    - [tls_chain_sound]: what an accepted chain proves;
    - [tls_honest_chain_accepted]: an honest chain is accepted;
    - [tls_leaf_can_issue]: that a certificate may issue others is not checked;
    - [tls_actor_id_unique]: an actor id determines the subject and the type. *)

From S2P Require Import Prelude Utf8 Common Json Clock Base64 Bridges.
Import Bridges(BridgeError(..)).

#[local] Open Scope string_scope.
#[local] Open Scope list_scope.
#[local] Open Scope Z_scope.

Module Tls.

(** ** What [x509-parser] hands out *)

Inductive GeneralName := URI (u : string) | DNSName (d : string) | OtherGeneralName.
(** [other] holds the texts of the object identifiers. *)
Record ExtendedKeyUsage := mk_ExtendedKeyUsage {
  any : bool; server_auth : bool; client_auth : bool; code_signing : bool; email_protection : bool; time_stamping : bool; ocsp_signing : bool;
  other : list string }.
Inductive ParsedExtension := SubjectAlternativeName (general_names : list GeneralName) | ExtendedKeyUsageExt (eku : ExtendedKeyUsage) | OtherExtension.

(** [pem_read] gives the label, the contents and the number of bytes read;
    errors are their texts.  [name_eqb] and [name_text] are [PartialEq] and
    [to_string] of a name, [debug] is the [{:?}] form of a list of texts. *)
Record Lib := mk_Lib {
  Cert : Type; Name : Type; Key : Type; Time : Type;
  pem_read : list Z -> option (string * list Z * Z);
  from_der : list Z -> result string Cert;
  from_timestamp : Z -> result string Time;
  is_valid_at : Cert -> Time -> bool;
  subject : Cert -> Name; issuer : Cert -> Name; name_eqb : Name -> Name -> bool; name_text : Name -> string;
  public_key : Cert -> Key; verify_signature : Cert -> Key -> result string unit;
  extensions : Cert -> list ParsedExtension; not_before : Cert -> Z; not_after : Cert -> Z; cert_bytes : Cert -> list Z;
  key_oid : Key -> string; key_data : Key -> list Z; sha256 : list Z -> list Z; debug : list string -> string }.

(** ** Configuration and result *)

Record TlsBridgeConfig := mk_TlsBridgeConfig {
  bridge_id : string; trust_domain : string; root_certificates_pem : list string; max_chain_length : option nat;
  required_san_uri : option string; now_unix_seconds : option Z }.
Record TlsVerificationResult := mk_TlsVerificationResult {
  identity : Bridges.ActorIdentity; capabilities : list string; leaf_subject : string; chain_subjects : list string }.
Record TlsBridge := mk_TlsBridge { cfg : TlsBridgeConfig; roots : list (list Z) }.

(** ** Helpers *)

Definition default_eku_to_action (oid : string) : option string :=
  if (oid =? "1.3.6.1.5.5.7.3.1")%string then Some "tls.server-auth"
  else if (oid =? "1.3.6.1.5.5.7.3.2")%string then Some "tls.client-auth"
  else if (oid =? "1.3.6.1.5.5.7.3.3")%string then Some "code.sign"
  else if (oid =? "1.3.6.1.5.5.7.3.4")%string then Some "email.protect"
  else if (oid =? "1.3.6.1.5.5.7.3.8")%string then Some "timestamp.sign"
  else if (oid =? "1.3.6.1.5.5.7.3.9")%string then Some "ocsp.sign"
  else None.

(** [split(['\n', ','])] and [trim], on characters. *)
Fixpoint split_dn (l : list Z) : list (list Z) :=
  match l with
  | [] => [[]]
  | c :: r => if (c =? 10) || (c =? 44) then [] :: split_dn r else match split_dn r with p :: ps => (c :: p) :: ps | [] => [[c]] end
  end.
Fixpoint find_cn (parts : list (list Z)) : option string :=
  match parts with
  | [] => None
  | part :: parts =>
    let trimmed := str_of_chars (trim part) in
    match opt_or (strip_prefix "CN=" trimmed) (strip_prefix "cn=" trimmed) with Some rest => Some rest | None => find_cn parts end
  end.
Definition parse_common_name (distinguished_name : string) : option string := find_cn (split_dn (chars distinguished_name)).

Definition path_byte (b : Z) : list Z := if b =? 47 then [b] else Bridges.encode_byte b.
Definition encode_actor_path (s : string) : string := str_of_bytes (mjoin (path_byte <$> bytes_of_str s)).

Definition rfc3339_from_unix : Z -> string := Clock.now_iso8601.

(** The first occurrences, in order. *)
Fixpoint dedup (seen : gset string) (l : list string) : list string :=
  match l with [] => [] | s :: l => if bool_decide (s ∈ seen) then dedup seen l else s :: dedup ({[ s ]} ∪ seen) l end.

Definition eku_actions (eku : ExtendedKeyUsage) : list string :=
  if any eku then []
  else
    omap default_eku_to_action (other eku)
    ++ (if client_auth eku then ["tls.client-auth"] else []) ++ (if server_auth eku then ["tls.server-auth"] else [])
    ++ (if code_signing eku then ["code.sign"] else []) ++ (if email_protection eku then ["email.protect"] else [])
    ++ (if time_stamping eku then ["timestamp.sign"] else []) ++ (if ocsp_signing eku then ["ocsp.sign"] else []).

Section tls.
Variable x : Lib.
Abbreviation Cert := (Cert x).

(** [while !bytes.is_empty()]; [&bytes[consumed..]] panics beyond the end. *)
Fixpoint pem_blocks (fuel : nat) (bytes : list Z) : option (list (list Z)) :=
  match bytes, fuel with
  | [], _ => Some []
  | _, O => None
  | _, S fuel =>
    match pem_read x bytes with
    | Some (label, contents, consumed) =>
      if Z.of_nat (length bytes) <? consumed then None
      else
        rest ← pem_blocks fuel (drop (Z.to_nat consumed) bytes);
        Some (if (label =? "CERTIFICATE")%string then contents :: rest else rest)
    | None => Some []
    end
  end.
Definition parse_pem_bundle (pem : string) : option (list (list Z)) := pem_blocks (String.length pem) (bytes_of_str pem).
Definition parse_single_pem (pem : string) : option (result string (list Z)) :=
  all ← parse_pem_bundle pem; Some (match all with [] => Err "no CERTIFICATE block" | der :: _ => Ok der end).

Fixpoint load_roots (i : nat) (pems : list string) : option (result BridgeError (list (list Z))) :=
  match pems with
  | [] => Some (Ok [])
  | pem :: pems =>
    r ← parse_single_pem pem;
    match r with
    | Err e => Some (Err (InvalidInput ("root[" +:+ pretty i +:+ "]: " +:+ e)))
    | Ok der => rest ← load_roots (S i) pems; Some (ders ← rest; Ok (der :: ders))
    end
  end.
Definition new (c : TlsBridgeConfig) : option (result BridgeError TlsBridge) :=
  match root_certificates_pem c with
  | [] => Some (Err (InvalidInput "TLS bridge requires at least one trust anchor"))
  | pems => r ← load_roots 0 pems; Some (ders ← r; Ok (mk_TlsBridge c ders))
  end.

(** ** The leaf *)

Definition san_names (f : GeneralName -> option string) (ext : ParsedExtension) : list string :=
  match ext with SubjectAlternativeName names => omap f names | _ => [] end.
Definition collect_san_uris (cert : Cert) : list string :=
  mjoin (san_names (fun gn => match gn with URI u => Some u | _ => None end) <$> extensions x cert).
Definition collect_san_dns (cert : Cert) : list string :=
  mjoin (san_names (fun gn => match gn with DNSName d => Some d | _ => None end) <$> extensions x cert).
Definition collect_eku_actions (cert : Cert) : list string :=
  dedup ∅ (mjoin ((fun ext => match ext with ExtendedKeyUsageExt eku => eku_actions eku | _ => [] end) <$> extensions x cert)).

Definition subject_text (c : Cert) : string := name_text x (subject x c).
Definition issuer_text (c : Cert) : string := name_text x (issuer x c).
Definition key_algorithm (alg_oid : string) : string :=
  if (alg_oid =? "1.2.840.113549.1.1.1")%string then "rsa"
  else if (alg_oid =? "1.2.840.10045.2.1")%string then "p256"
  else if (alg_oid =? "1.3.101.112")%string then "ed25519"
  else "unknown".

(** The name of the leaf and whether it is a SPIFFE id. *)
Definition spiffe_san (leaf : Cert) : option string := List.find (String.prefix "spiffe://") (collect_san_uris leaf).
Definition actor_subject (leaf : Cert) : string :=
  unwrap_or (opt_or (spiffe_san leaf) (opt_or (parse_common_name (subject_text leaf)) (head (collect_san_dns leaf)))) (subject_text leaf).
Definition type_str (service : bool) : string := if service then "service" else "device".
Definition actor_id_of (c : TlsBridgeConfig) (leaf : Cert) : string :=
  "tf:actor:" +:+ type_str (bool_decide (is_Some (spiffe_san leaf))) +:+ ":" +:+ trust_domain c +:+ "/" +:+ encode_actor_path (actor_subject leaf).

Definition project (c : TlsBridgeConfig) (leaf root : Cert) (chain_subjects : list string) : result BridgeError TlsVerificationResult :=
  let san_uris := collect_san_uris leaf in
  if match required_san_uri c with Some req => negb (existsb (fun u => u =? req)%string san_uris) | None => false end then
    Err (Rejected ("leaf SAN URIs " +:+ debug x san_uris +:+ " missing required " +:+ unwrap_or (required_san_uri c) ""))
  else
    let service := bool_decide (is_Some (spiffe_san leaf)) in
    let pk := public_key x leaf in
    Ok (mk_TlsVerificationResult
      (Bridges.mk_ActorIdentity (actor_id_of c leaf) (if service then AService else ADevice) None
        [Bridges.mk_PublicKey (hex (sha256 x (cert_bytes x leaf))) (key_algorithm (key_oid x pk)) (str_of_bytes (Base64.encode Base64.STANDARD (key_data x pk)))
           Bridges.Signing None None]
        [if service then T4 else T3]
        [Bridges.mk_AuthorityRoot Bridges.Organization (unwrap_or (parse_common_name (subject_text root)) (subject_text root))] None
        (rfc3339_from_unix (not_before x leaf)) (Some (rfc3339_from_unix (not_after x leaf))) None None)
      (collect_eku_actions leaf) (subject_text leaf) chain_subjects).

(** ** The walk *)

(** [parsed.iter().enumerate().find(...)] from index [i] on. *)
Fixpoint find_issuer (i current : nat) (name : Name x) (certs : list Cert) : option (nat * Cert) :=
  match certs with
  | [] => None
  | c :: certs => if negb (i =? current)%nat && name_eqb x (subject x c) name then Some (i, c) else find_issuer (S i) current name certs
  end.

Section walk.
Variable c : TlsBridgeConfig.
Variables (parsed roots_parsed : list Cert) (leaf : Cert) (max : nat).
Fixpoint walk (rounds : nat) (current : nat) (visited : gset string) (subjects : list string) : option (result BridgeError TlsVerificationResult) :=
  match rounds with
  | O => Some (Err (Rejected ("chain exceeds max depth " +:+ pretty max +:+ " without reaching trust anchor")))
  | S rounds =>
    cur ← parsed !! current;
    let inter := find_issuer 0 current (issuer x cur) parsed in
    let root_match := List.find (fun r => name_eqb x (subject x r) (issuer x cur)) roots_parsed in
    match opt_or (snd <$> inter) root_match with
    | None => Some (Err (Rejected ("no issuer cert for " +:+ subject_text cur +:+ " (issuer=" +:+ issuer_text cur +:+ ")")))
    | Some issuer =>
      match verify_signature x cur (public_key x issuer) with
      | Err e => Some (Err (Rejected ("signature verification failed for " +:+ subject_text cur +:+ ": " +:+ e)))
      | Ok _ =>
        let subjects := subjects ++ [subject_text issuer] in
        match inter with
        | None =>
          match verify_signature x issuer (public_key x issuer) with
          | Err e => Some (Err (Rejected ("root " +:+ subject_text issuer +:+ " not self-consistent: " +:+ e)))
          | Ok _ => Some (project c leaf issuer subjects)
          end
        | Some (i, _) =>
          if bool_decide (subject_text issuer ∈ visited) then Some (Err (Rejected "chain loop detected"))
          else walk rounds i ({[ subject_text issuer ]} ∪ visited) subjects
        end
      end
    end
  end.
End walk.

(** [collect::<Result<_, _>>()]. *)
Fixpoint parse_all {E} (err : string -> E) (ders : list (list Z)) : result E (list Cert) :=
  match ders with
  | [] => Ok []
  | d :: ders => cert ← map_err err (from_der x d); rest ← parse_all err ders; Ok (cert :: rest)
  end.
Fixpoint read_chain (chain_pem : list string) : option (list (list Z)) :=
  match chain_pem with [] => Some [] | pem :: rest => ders ← parse_pem_bundle pem; more ← read_chain rest; Some (ders ++ more) end.

Definition verify_chain (b : TlsBridge) (clock : Z) (chain_pem : list string) : option (result BridgeError TlsVerificationResult) :=
  chain_der ← read_chain chain_pem;
  let max := unwrap_or (max_chain_length (cfg b)) 6%nat in
  if (length chain_der =? 0)%nat then Some (Err (InvalidInput "empty chain"))
  else if (max <? length chain_der)%nat then
    Some (Err (Rejected ("chain longer than max (" +:+ pretty (length chain_der) +:+ " > " +:+ pretty max +:+ ")")))
  else
    let now := unwrap_or (now_unix_seconds (cfg b)) clock in
    match
      now_asn1 ← map_err (fun e => InvalidInput ("now overflow: " +:+ e)) (from_timestamp x (Clock.as_i64 now));
      parsed ← parse_all (fun e => InvalidInput ("DER parse: " +:+ e)) chain_der;
      match List.find (fun cert => negb (is_valid_at x cert now_asn1)) parsed with
      | Some cert => Err (Rejected ("cert " +:+ subject_text cert +:+ " outside validity window"))
      | None =>
        roots_parsed ← parse_all (fun e => InternalError ("root DER reparse: " +:+ e)) (roots b);
        Ok (parsed, roots_parsed)
      end
    with
    | Err e => Some (Err e)
    | Ok (parsed, roots_parsed) =>
      leaf ← head parsed;
      walk (cfg b) parsed roots_parsed leaf max max 0 {[ subject_text leaf ]} [subject_text leaf]
    end.

End tls.
(** ** Names *)

Lemma path_byte_code b : is_u8 b -> is_bytes (path_byte b) /\ path_byte b <> [].
Proof. intros Hb. unfold path_byte. destruct (b =? 47); [|by apply Bridges.encode_byte_code]. split; [|done]. repeat constructor; apply Hb. Qed.
Lemma path_byte_inj a b l m : is_u8 a -> is_u8 b -> path_byte a ++ l = path_byte b ++ m -> a = b /\ l = m.
Proof.
  intros Ha Hb. unfold path_byte. destruct (Z.eqb_spec a 47) as [->|], (Z.eqb_spec b 47) as [->|].
  - by intros [= ->].
  - unfold Bridges.encode_byte. destruct (Bridges.is_unreserved b) eqn:E; cbn [app]; intros [= H H']; congruence.
  - unfold Bridges.encode_byte. destruct (Bridges.is_unreserved a) eqn:E; cbn [app]; intros [= H H']; congruence.
  - by apply Bridges.encode_byte_inj.
Qed.
Lemma encode_actor_path_inj s t : encode_actor_path s = encode_actor_path t -> s = t.
Proof. apply Bridges.byte_code_inj; [apply path_byte_code|apply path_byte_inj]. Qed.

(** ** Capabilities *)


Lemma size_list_to_set_le (l : list string) : (size (list_to_set l : gset string) <= length l)%nat.
Proof.
  induction l as [|a l IH]; [done|]. rewrite list_to_set_cons, size_union_alt, size_singleton. cbn [length].
  assert (size ((list_to_set l : gset string) ∖ {[a]}) <= size (list_to_set l : gset string))%nat by (apply subseteq_size; set_solver). lia.
Qed.

Section spec.
Variable x : Lib.
Abbreviation Cert := (Cert x).


(** ** Signature paths *)

(** [d] is named as the issuer of [c] and its key verifies [c]. *)
Definition issued (c d : Cert) : Prop := name_eqb x (subject x d) (issuer x c) = true /\ verify_signature x c (public_key x d) = Ok tt.

(** [above] leads from [c] through certificates of the chain to the root [r]. *)
Inductive anchored (parsed roots : list Cert) : Cert -> list Cert -> Cert -> Prop :=
| anchored_root c r : r ∈ roots -> issued c r -> verify_signature x r (public_key x r) = Ok tt -> anchored parsed roots c [] r
| anchored_next c d above r : d ∈ parsed -> issued c d -> anchored parsed roots d above r -> anchored parsed roots c (d :: above) r.

Lemma find_issuer_some i current name certs j c : find_issuer x i current name certs = Some (j, c) ->
  (i <= j)%nat /\ certs !! (j - i)%nat = Some c /\ j <> current /\ name_eqb x (subject x c) name = true.
Proof.
  revert i. induction certs as [|d certs IH]; intros i; cbn [find_issuer]; [done|].
  destruct (Nat.eqb_spec i current), (name_eqb x (subject x d) name) eqn:E; cbn [negb andb].
  2,3: intros H. 1: intros H. 4: intros H.
  3: { injection H as <- <-. rewrite Nat.sub_diag. done. }
  all: apply IH in H as (Hij & Hl & ? & ?); (split; [lia|]); replace (j - i)%nat with (S (j - S i)) by lia; done.
Qed.

Lemma root_found (f : Cert -> bool) roots r : List.find f roots = Some r -> r ∈ roots /\ f r = true.
Proof. intros [H ?]%List.find_some. split; [by apply list_elem_of_In|done]. Qed.

Lemma ok_tt {E} (m : result E unit) u : m = Ok u -> m = Ok tt.
Proof. by destruct u. Qed.

Section walk_spec.
Variable c : TlsBridgeConfig.
Variables (parsed roots : list Cert) (max : nat).

Lemma walk_ok leaf rounds current visited subjects cur res :
  walk x c parsed roots leaf max rounds current visited subjects = Some (Ok res) -> parsed !! current = Some cur ->
  exists above r, anchored parsed roots cur above r /\ project x c leaf r (subjects ++ (subject_text x <$> above) ++ [subject_text x r]) = Ok res.
Proof.
  revert current visited subjects cur. induction rounds as [|rounds IH]; intros current visited subjects cur H Hc; [done|].
  cbn [walk] in H. rewrite Hc in H. cbn [mbind option_bind] in H. destruct (find_issuer x 0 current (issuer x cur) parsed) as [[i d]|] eqn:Ei; cbn [fmap option_fmap option_map snd opt_or] in H.
  - apply find_issuer_some in Ei as (_ & Hd & _ & Hn). rewrite Nat.sub_0_r in Hd.
    destruct (verify_signature x cur (public_key x d)) as [u|] eqn:Es; [|done]. case_bool_decide; [done|].
    apply ok_tt in Es. destruct (IH _ _ _ _ H Hd) as (above & r & Ha & Hp). exists (d :: above), r. split.
    + apply anchored_next; [by eapply list_elem_of_lookup_2|by split|done].
    + by rewrite <- app_assoc in Hp.
  - destruct (List.find _ roots) as [r|] eqn:Er; [|done]. destruct (verify_signature x cur (public_key x r)) as [u|] eqn:Es; [|done].
    destruct (verify_signature x r (public_key x r)) as [u'|] eqn:Es'; [|done]. apply ok_tt in Es, Es'. apply root_found in Er as [Hr Hn]. injection H as H.
    exists [], r. split; [by apply anchored_root|done].
Qed.

(** The walk sees a new subject in every round, so the bound on the number of
    rounds is not what ends it. *)
Definition unseen (visited : gset string) : nat := size (list_to_set (subject_text x <$> parsed) ∖ visited).
Lemma unseen_visit d visited : d ∈ parsed -> subject_text x d ∉ visited -> (unseen ({[ subject_text x d ]} ∪ visited) < unseen visited)%nat.
Proof.
  intros Hd Hv. unfold unseen. apply subset_size. split; [set_solver|]. intros H.
  assert (subject_text x d ∈ (list_to_set (subject_text x <$> parsed) : gset string)) as Ht by (apply elem_of_list_to_set, list_elem_of_fmap; eauto).
  set_solver.
Qed.
Lemma walk_rounds leaf R R' current visited subjects : (unseen visited < R)%nat -> (unseen visited < R')%nat ->
  walk x c parsed roots leaf max R current visited subjects = walk x c parsed roots leaf max R' current visited subjects.
Proof.
  revert R' current visited subjects. induction R as [|R IH]; intros [|R'] current visited subjects HR HR'; try lia. cbn [walk].
  destruct (parsed !! current) as [cur|]; [|done]. cbn [mbind option_bind].
  destruct (find_issuer x 0 current (issuer x cur) parsed) as [[i d]|] eqn:Ei; [|done]. cbn [fmap option_fmap option_map snd opt_or].
  destruct (verify_signature _ _ _); [|done]. case_bool_decide as Hv; [done|].
  apply find_issuer_some in Ei as (_ & Hd & _ & _). apply list_elem_of_lookup_2 in Hd. pose proof (unseen_visit d visited Hd Hv). apply IH; lia.
Qed.

(** A chain accepted from some certificate on is accepted with a further
    certificate in front that issued none of the others. *)
Lemma find_issuer_shift i current name certs :
  find_issuer x (S i) (S current) name certs = (fun '(j, d) => (S j, d)) <$> find_issuer x i current name certs.
Proof. revert i. induction certs as [|d certs IH]; intros i; [done|]. cbn [find_issuer Nat.eqb]. destruct (negb _ && _); [done|]. apply IH. Qed.

Lemma walk_shift leaf leaf' c' R current visited subjects subjects' res :
  (forall d, d ∈ parsed -> name_eqb x (subject x c') (issuer x d) = false /\ subject_text x d <> subject_text x c') ->
  walk x c parsed roots leaf max R current visited subjects = Some (Ok res) ->
  exists r tail, project x c leaf r (subjects ++ tail) = Ok res /\ r ∈ roots /\
    walk x c (c' :: parsed) roots leaf' max R (S current) ({[ subject_text x c' ]} ∪ visited) subjects' = Some (project x c leaf' r (subjects' ++ tail)).
Proof.
  intros Hf. revert current visited subjects subjects'. induction R as [|R IH]; intros current visited subjects subjects' H; [done|]. cbn [walk] in *.
  change ((c' :: parsed) !! S current) with (parsed !! current). destruct (parsed !! current) as [cur|] eqn:Ecur; [|done]. cbn [mbind option_bind] in *.
  assert (find_issuer x 0 (S current) (issuer x cur) (c' :: parsed) = find_issuer x 1 (S current) (issuer x cur) parsed) as Ef.
  { cbn [find_issuer Nat.eqb negb andb]. by rewrite (proj1 (Hf cur ltac:(by eapply list_elem_of_lookup_2))). }
  rewrite Ef, find_issuer_shift. destruct (find_issuer x 0 current (issuer x cur) parsed) as [[i d]|] eqn:Ei; cbn [fmap option_fmap option_map snd opt_or] in *.
  - destruct (verify_signature _ _ _); [|done]. apply find_issuer_some in Ei as (_ & Hd & _ & _). apply list_elem_of_lookup_2, Hf in Hd as [_ Hd].
    case_bool_decide as Hv; [done|]. rewrite bool_decide_eq_false_2 by set_solver.
    destruct (IH _ _ _ (subjects' ++ [subject_text x d]) H) as (r & tail & Hp & Hr & Hw). exists r, (subject_text x d :: tail).
    rewrite <- app_assoc in Hp, Hw. split; [done|]. split; [done|]. by replace ({[subject_text x c']} ∪ ({[subject_text x d]} ∪ visited)) with
      ({[subject_text x d]} ∪ ({[subject_text x c']} ∪ visited)) in Hw by set_solver.
  - destruct (List.find _ roots) as [r|] eqn:Er; [|done]. destruct (verify_signature x cur _); [|done]. destruct (verify_signature x r _); [|done].
    injection H as H. apply root_found in Er as [Hr _]. by exists r, [subject_text x r].
Qed.

End walk_spec.
(** ** The bridge *)

Definition max_of (b : TlsBridge) : nat := unwrap_or (max_chain_length (cfg b)) 6%nat.

(** The chain and the roots read as certificates, the chain is not too long
    and every certificate of it is valid now. *)
Definition loaded (b : TlsBridge) (clock : Z) (chain_pem : list string) (certs rs : list Cert) : Prop :=
  (exists ders, read_chain x chain_pem = Some ders /\ Forall2 (fun d c => from_der x d = Ok c) ders certs) /\
  Forall2 (fun d c => from_der x d = Ok c) (roots b) rs /\ (length certs <= max_of b)%nat /\
  exists now, from_timestamp x (Clock.as_i64 (unwrap_or (now_unix_seconds (cfg b)) clock)) = Ok now /\ Forall (fun c => is_valid_at x c now = true) certs.

Lemma parse_all_ok {E} (err : string -> E) ders certs : parse_all x err ders = Ok certs <-> Forall2 (fun d c => from_der x d = Ok c) ders certs.
Proof.
  revert certs. induction ders as [|d ders IH]; intros certs; cbn [parse_all].
  - split; [by intros <-%Ok_inj|by intros ->%Forall2_nil_inv_l].
  - destruct (from_der x d) as [c|e] eqn:Ed; cbn [map_err mbind result_bind].
    + destruct (parse_all x err ders) as [cs|e] eqn:Ep; cbn [mbind result_bind].
      * split; [intros <-%Ok_inj; constructor; [done|by apply IH]|]. intros (c' & cs' & Hc & Hcs & ->)%Forall2_cons_inv_l. apply IH in Hcs. congruence.
      * split; [done|]. intros (c' & cs' & Hc & Hcs & ->)%Forall2_cons_inv_l. apply IH in Hcs. congruence.
    + split; [done|]. intros (c' & cs' & Hc & Hcs & ->)%Forall2_cons_inv_l. congruence.
Qed.

Lemma find_none_iff {A} (f : A -> bool) l : List.find (fun a => negb (f a)) l = None <-> Forall (fun a => f a = true) l.
Proof.
  induction l as [|a l IH]; cbn [List.find]; [by split; [constructor|]|]. rewrite Forall_cons. destruct (f a); cbn [negb]; [rewrite IH; naive_solver|naive_solver].
Qed.

Lemma verify_chain_loaded b clock chain leaf rest rs : loaded b clock chain (leaf :: rest) rs ->
  verify_chain x b clock chain = walk x (cfg b) (leaf :: rest) rs leaf (max_of b) (max_of b) 0 {[ subject_text x leaf ]} [subject_text x leaf].
Proof.
  intros ((ders & Hd & Hp) & Hr & Hm & now & Hn & Hv). unfold verify_chain. rewrite Hd. cbn [mbind option_bind]. pose proof (Forall2_length _ _ _ Hp) as Hl.
  cbn [length] in Hl, Hm. rewrite Hl. cbn [Nat.eqb]. fold (max_of b). rewrite (proj2 (Nat.ltb_ge _ _)) by done. rewrite Hn. cbn [map_err mbind result_bind].
  rewrite (proj2 (parse_all_ok _ _ _) Hp). cbn [mbind result_bind]. rewrite (proj2 (find_none_iff _ _) Hv). by rewrite (proj2 (parse_all_ok _ _ _) Hr).
Qed.

Lemma verify_chain_inv b clock chain res : verify_chain x b clock chain = Some (Ok res) -> exists leaf rest rs, loaded b clock chain (leaf :: rest) rs.
Proof.
  unfold verify_chain. destruct (read_chain x chain) as [ders|] eqn:Ec; [|done]. cbn [mbind option_bind]. fold (max_of b).
  destruct (Nat.eqb_spec (length ders) 0); [done|]. destruct (Nat.ltb_spec (max_of b) (length ders)) as [|Hm]; [done|].
  destruct (from_timestamp _ _) as [now|] eqn:En; [|done]. cbn [map_err mbind result_bind].
  destruct (parse_all x _ ders) as [certs|] eqn:Ep; [|done]. cbn [mbind result_bind]. destruct (List.find _ certs) eqn:Ef; [done|].
  destruct (parse_all x _ (roots b)) as [rs|] eqn:Er; [|done]. intros _. apply parse_all_ok in Ep, Er. apply find_none_iff in Ef.
  pose proof (Forall2_length _ _ _ Ep) as Hl. destruct certs as [|leaf rest]; [by rewrite Hl in *|]. exists leaf, rest, rs.
  split; [by exists ders|]. split; [done|]. split; [lia|by exists now].
Qed.

Lemma project_ok c leaf r subjects res : project x c leaf r subjects = Ok res <->
  (forall req, required_san_uri c = Some req -> req ∈ collect_san_uris x leaf) /\
  res = mk_TlsVerificationResult
    (let service := bool_decide (is_Some (spiffe_san x leaf)) in
     Bridges.mk_ActorIdentity (actor_id_of x c leaf) (if service then AService else ADevice) None
      [Bridges.mk_PublicKey (hex (sha256 x (cert_bytes x leaf))) (key_algorithm (key_oid x (public_key x leaf)))
        (str_of_bytes (Base64.encode Base64.STANDARD (key_data x (public_key x leaf)))) Bridges.Signing None None]
      [if service then T4 else T3] [Bridges.mk_AuthorityRoot Bridges.Organization (unwrap_or (parse_common_name (subject_text x r)) (subject_text x r))] None
      (rfc3339_from_unix (not_before x leaf)) (Some (rfc3339_from_unix (not_after x leaf))) None None)
    (collect_eku_actions x leaf) (subject_text x leaf) subjects.
Proof.
  unfold project. destruct (required_san_uri c) as [req|]; cbn [unwrap_or].
  - destruct (existsb _ _) eqn:E; cbn [negb].
    + apply existsb_exists in E as (u & Hu & ->%String.eqb_eq). apply list_elem_of_In in Hu. split; [intros <-%Ok_inj; split; [by intros ? [= <-]|done]|by intros [_ ->]].
    + split; [done|]. intros [H _]. specialize (H req eq_refl). apply list_elem_of_In in H. assert (existsb (fun u => u =? req)%string (collect_san_uris x leaf) = true); [|congruence].
      apply existsb_exists. exists req. by rewrite String.eqb_refl.
  - split; [by intros <-%Ok_inj|by intros [_ ->]].
Qed.

(** ** What [x509-parser] documents *)

(** Equal names have equal texts; reading a PEM block consumes part of the
    input. *)
Record lib_laws : Prop := {
  law_text : forall m n, name_eqb x m n = true -> name_text x m = name_text x n;
  law_pem : forall bytes label contents n, pem_read x bytes = Some (label, contents, n) -> 0 < n <= Z.of_nat (length bytes) }.

(** ** Honest chains *)

(** Each certificate is issued by the next one and the last one by the root,
    the first of its name. *)
Fixpoint linked (r : Cert) (rs : list Cert) (certs : list Cert) : Prop :=
  match certs with
  | [] => False
  | [c] => List.find (fun q => name_eqb x (subject x q) (issuer x c)) rs = Some r /\ verify_signature x c (public_key x r) = Ok tt
  | c :: (d :: _) as above => issued c d /\ linked r rs above
  end.

Lemma find_issuer_unique i current name certs j d : certs !! j = Some d -> (i + j)%nat <> current -> name_eqb x (subject x d) name = true ->
  (forall k e, certs !! k = Some e -> name_eqb x (subject x e) name = true -> k = j) -> find_issuer x i current name certs = Some ((i + j)%nat, d).
Proof.
  revert i j. induction certs as [|e certs IH]; intros i j Hj Hi Hn Hu; [done|]. cbn [find_issuer]. destruct j as [|j].
  - injection Hj as ->. rewrite Nat.add_0_r in *. by rewrite (proj2 (Nat.eqb_neq _ _)), Hn by done.
  - destruct (name_eqb x (subject x e) name) eqn:Ee; [by specialize (Hu 0%nat e eq_refl Ee)|]. rewrite andb_false_r. rewrite <- Nat.add_succ_comm.
    apply IH; [done|lia|done|]. intros k e' Hk He. specialize (Hu (S k) e' Hk He). lia.
Qed.
Lemma find_issuer_none i current name certs : Forall (fun e => name_eqb x (subject x e) name = false) certs -> find_issuer x i current name certs = None.
Proof. intros H. revert i. induction H as [|e certs He _ IH]; intros i; [done|]. cbn [find_issuer]. by rewrite He, andb_false_r. Qed.

Lemma walk_linked (L : lib_laws) c parsed rs leaf max r pre cur l rounds visited subjects :
  parsed = pre ++ cur :: l -> linked r rs (cur :: l) -> NoDup (subject_text x <$> parsed) -> subject_text x r ∉ subject_text x <$> parsed ->
  verify_signature x r (public_key x r) = Ok tt -> (forall d, d ∈ l -> subject_text x d ∉ visited) -> (length l < rounds)%nat ->
  walk x c parsed rs leaf max rounds (length pre) visited subjects = Some (project x c leaf r (subjects ++ (subject_text x <$> l) ++ [subject_text x r])).
Proof.
  intros Hp Hk Hd Hr Hs. revert pre cur l visited subjects Hp Hk. induction rounds as [|rounds IH]; intros pre cur l visited subjects Hp Hk Hv Hl; [lia|].
  cbn [walk]. assert (parsed !! length pre = Some cur) as -> by (by rewrite Hp, list_lookup_middle). cbn [mbind option_bind].
  destruct l as [|d l]; cbn [linked] in Hk.
  - destruct Hk as [Hf Hc]. rewrite Hf. rewrite find_issuer_none; cbn [fmap option_fmap option_map opt_or]; [by rewrite Hc, Hs|].
    apply Forall_forall. intros e He. destruct (name_eqb _ _ _) eqn:E; [|done]. exfalso. apply root_found in Hf as [_ Hf]. apply (law_text L) in E, Hf.
    apply Hr. apply list_elem_of_fmap. exists e. split; [|done]. unfold subject_text. congruence.
  - destruct Hk as [[Hn Hc] Hk]. rewrite (find_issuer_unique 0 _ _ parsed (S (length pre)) d); [|..].
    + cbn [fmap option_fmap option_map opt_or snd]. rewrite Hc. rewrite bool_decide_eq_false_2 by (apply Hv; set_solver).
      assert (length (pre ++ [cur]) = S (length pre)) as Hlen by (rewrite length_app; cbn; lia).
      rewrite <- Hlen, (IH (pre ++ [cur]) d l); [by rewrite <- app_assoc|by rewrite Hp, <- app_assoc|done| |cbn in Hl; lia].
      intros e He. assert (subject_text x e <> subject_text x d); [|specialize (Hv e); set_solver]. intros E.
      rewrite Hp, fmap_app, !fmap_cons in Hd. apply NoDup_app in Hd as (_ & _ & Hd). apply NoDup_cons in Hd as [_ Hd]. apply NoDup_cons in Hd as [Hd _].
      apply Hd. apply list_elem_of_fmap. by exists e.
    + rewrite Hp, lookup_app_r by lia. by replace (S (length pre) - length pre)%nat with 1%nat by lia.
    + lia.
    + done.
    + intros k e Hke He. apply (law_text L) in He, Hn. eapply NoDup_lookup; [exact Hd|rewrite list_lookup_fmap, Hke; reflexivity|].
      rewrite list_lookup_fmap, Hp, lookup_app_r by lia. replace (S (length pre) - length pre)%nat with 1%nat by lia. cbn. unfold subject_text. congruence.
Qed.

(** ** Totality *)


Lemma unseen_start leaf rest : (unseen (leaf :: rest) {[ subject_text x leaf ]} <= length rest)%nat.
Proof.
  unfold unseen. rewrite fmap_cons, list_to_set_cons. etrans; [apply (subseteq_size _ (list_to_set (subject_text x <$> rest))); set_solver|].
  rewrite <- (length_fmap (subject_text x) rest). apply size_list_to_set_le.
Qed.
Lemma verify_chain_leaf b clock chain res : verify_chain x b clock chain = Some (Ok res) ->
  exists leaf rest rs, loaded b clock chain (leaf :: rest) rs /\ Bridges.actor_id (identity res) = actor_id_of x (cfg b) leaf.
Proof.
  intros H. pose proof (verify_chain_inv _ _ _ _ H) as (leaf & rest & rs & Hl). exists leaf, rest, rs. split; [done|].
  rewrite (verify_chain_loaded _ _ _ _ _ _ Hl) in H. apply (walk_ok _ _ _ _ _ _ _ _ _ leaf) in H as (above & root & _ & Hp); [|done].
  by apply project_ok in Hp as [_ ->].
Qed.

(** ** Theorems *)


(** a chain in order, whose subjects are distinct and differ from the root's, is
    accepted: each certificate is issued by the next one, the last one by the
    first configured root of its name, which is self-signed, everything is valid
    and within the length limit, and the leaf has the required SAN. *)
Theorem tls_honest_chain_accepted (L : lib_laws) b clock chain leaf rest rs r (Hl : loaded b clock chain (leaf :: rest) rs) (Hk : linked r rs (leaf :: rest))
  (Hd : NoDup (subject_text x <$> leaf :: rest)) (Hr : subject_text x r ∉ subject_text x <$> leaf :: rest)
  (Hs : verify_signature x r (public_key x r) = Ok tt) (Hq : forall req, required_san_uri (cfg b) = Some req -> req ∈ collect_san_uris x leaf) :
  exists res, verify_chain x b clock chain = Some (Ok res) /\ chain_subjects res = (subject_text x <$> leaf :: rest) ++ [subject_text x r] /\
    Bridges.actor_id (identity res) = actor_id_of x (cfg b) leaf.
Proof.
  rewrite (verify_chain_loaded _ _ _ _ _ _ Hl). rewrite (walk_linked L _ _ rs leaf _ r [] leaf rest); [|done..| |].
  - eexists. split; [f_equal; by apply project_ok|done].
  - intros d Hin. rewrite fmap_cons, NoDup_cons in Hd. destruct Hd as [Hd _]. intros E%elem_of_singleton. apply Hd, list_elem_of_fmap. by exists d.
  - destruct Hl as (_ & _ & Hm & _). cbn in Hm. lia.
Qed.

(** whoever holds the key of an accepted leaf can issue: any further certificate
    that names the leaf as its issuer and is signed with the leaf's key is
    accepted in front of the chain, under the names it chooses for itself.
    Nothing that says whether the leaf may act as an authority is consulted. *)
Theorem tls_leaf_can_issue b clock chain res leaf rest rs pem der c' now (H : verify_chain x b clock chain = Some (Ok res))
  (Hl : loaded b clock chain (leaf :: rest) rs) (Hm : (S (length rest) < max_of b)%nat)
  (Hp : parse_pem_bundle x pem = Some [der]) (Hc : from_der x der = Ok c')
  (Hn : from_timestamp x (Clock.as_i64 (unwrap_or (now_unix_seconds (cfg b)) clock)) = Ok now) (Hv : is_valid_at x c' now = true)
  (Hi : issued c' leaf) (Hf : forall d, d ∈ leaf :: rest -> name_eqb x (subject x c') (issuer x d) = false /\ subject_text x d <> subject_text x c')
  (Hq : forall req, required_san_uri (cfg b) = Some req -> req ∈ collect_san_uris x c') :
  exists res', verify_chain x b clock (pem :: chain) = Some (Ok res') /\ Bridges.actor_id (identity res') = actor_id_of x (cfg b) c' /\
    capabilities res' = collect_eku_actions x c'.
Proof.
  rewrite (verify_chain_loaded _ _ _ _ _ _ Hl) in H.
  assert (loaded b clock (pem :: chain) (c' :: leaf :: rest) rs) as Hl'.
  { destruct Hl as ((ders & Hd & Hp') & Hr & _ & now' & Hn' & Hv'). rewrite Hn in Hn'. apply Ok_inj in Hn' as <-. split.
    { exists (der :: ders). cbn [read_chain]. rewrite Hp, Hd. split; [done|by constructor]. }
    split; [done|]. split; [cbn [length]; lia|]. exists now. by auto. }
  rewrite (verify_chain_loaded _ _ _ _ _ _ Hl'). clear Hl'. destruct (max_of b) as [|m] eqn:Em; [lia|].
  rewrite (walk_rounds _ _ _ _ _ (S m) m) in H by (eapply Nat.le_lt_trans; [apply unseen_start|cbn [length]; lia]).
  apply (walk_shift _ _ _ _ leaf c' c' _ _ _ _ ([subject_text x c'] ++ [subject_text x leaf])) in H as (r & tail & Hpr & _ & Hw); [|done].
  destruct Hi as [Hi1 Hi2]. cbn [walk]. change ((c' :: leaf :: rest) !! 0%nat) with (Some c'). cbn [mbind option_bind find_issuer Nat.eqb negb andb].
  rewrite Hi1. cbn [fmap option_fmap option_map snd opt_or]. rewrite Hi2.
  rewrite bool_decide_eq_false_2 by (destruct (Hf leaf ltac:(set_solver)); set_solver).
  replace ({[subject_text x leaf]} ∪ {[subject_text x c']} : gset string) with ({[subject_text x c']} ∪ {[subject_text x leaf]} : gset string) by set_solver.
  rewrite Hw. eexists. split; [f_equal; by apply project_ok|done].
Qed.

(** an actor id issued by a bridge determines the subject it was made from and
    whether that was a SPIFFE id. *)
Theorem tls_actor_id_unique b clock chain res clock' chain' res' (H : verify_chain x b clock chain = Some (Ok res)) (H' : verify_chain x b clock' chain' = Some (Ok res'))
  (Hid : Bridges.actor_id (identity res) = Bridges.actor_id (identity res')) :
  exists leaf rest rs leaf' rest' rs', loaded b clock chain (leaf :: rest) rs /\ loaded b clock' chain' (leaf' :: rest') rs' /\
    actor_subject x leaf = actor_subject x leaf' /\ (is_Some (spiffe_san x leaf) <-> is_Some (spiffe_san x leaf')).
Proof.
  apply verify_chain_leaf in H as (leaf & rest & rs & Hl & E), H' as (leaf' & rest' & rs' & Hl' & E'). exists leaf, rest, rs, leaf', rest', rs'.
  do 2 (split; [done|]). rewrite E, E' in Hid. unfold actor_id_of in Hid. apply str_app_inv_head in Hid.
  do 2 case_bool_decide; cbn [type_str] in Hid; try discriminate; do 4 apply str_app_inv_head in Hid; apply encode_actor_path_inj in Hid; tauto.
Qed.

End spec.

(** ** A small instance *)

(** Certificates of one letter; a key is a text and a signature is the key that
    made it. *)
Record cert1 := mk_cert1 { sub1 : string; iss1 : string; key1 : string; by1 : string; until1 : Z; ext1 : list ParsedExtension }.
Definition table1 (b : Z) : result string cert1 :=
  if b =? 82 then Ok (mk_cert1 "CN=Root" "CN=Root" "kR" "kR" 10 [])
  else if b =? 73 then Ok (mk_cert1 "CN=Intermediate" "CN=Root" "kI" "kR" 100 [])
  else if b =? 76 then Ok (mk_cert1 "O=x, CN=leaf" "CN=Intermediate" "kL" "kI" 100
    [ExtendedKeyUsageExt (mk_ExtendedKeyUsage false true true false false false false ["1.3.6.1.5.5.7.3.2"])])
  else if b =? 88 then Ok (mk_cert1 "CN=forged" "O=x, CN=leaf" "kX" "kL" 100
    [SubjectAlternativeName [URI "spiffe://prod/admin"]; ExtendedKeyUsageExt (mk_ExtendedKeyUsage false false false true false false false [])])
  else Err "DER".
Definition lib1 : Lib :=
  mk_Lib cert1 string string Z (fun bytes => match bytes with b :: _ => Some ("CERTIFICATE", [b], 1) | [] => None end)
    (fun der => match der with [b] => table1 b | _ => Err "DER" end) (fun t => Ok t) (fun c now => now <=? until1 c) sub1 iss1 String.eqb (fun s => s)
    key1 (fun c k => if (by1 c =? k)%string then Ok tt else Err "signature") ext1 (fun _ => 0) until1 (fun _ => []) (fun _ => "1.3.101.112") bytes_of_str
    (fun b => b) (fun _ => "").
Lemma lib1_laws : lib_laws lib1.
Proof.
  constructor.
  - by intros m n ->%String.eqb_eq.
  - intros [|b bytes] ??? H; cbn [pem_read lib1] in H; [done|]. injection H as <- <- <-. cbn [length]. lia.
Qed.
Definition bridge1 : TlsBridge := mk_TlsBridge (mk_TlsBridgeConfig "tls" "d" ["R"] None None (Some 50)) [[82]].
Definition leaf1 : cert1 := mk_cert1 "O=x, CN=leaf" "CN=Intermediate" "kL" "kI" 100
    [ExtendedKeyUsageExt (mk_ExtendedKeyUsage false true true false false false false ["1.3.6.1.5.5.7.3.2"])].
Definition inter1 : cert1 := mk_cert1 "CN=Intermediate" "CN=Root" "kI" "kR" 100 [].
Definition root1 : cert1 := mk_cert1 "CN=Root" "CN=Root" "kR" "kR" 10 [].
Definition forged1 : cert1 := mk_cert1 "CN=forged" "O=x, CN=leaf" "kX" "kL" 100
    [SubjectAlternativeName [URI "spiffe://prod/admin"]; ExtendedKeyUsageExt (mk_ExtendedKeyUsage false false false true false false false [])].

(** The summary of a verdict. *)
Definition verdict (r : option (result BridgeError TlsVerificationResult)) : option (result BridgeError (string * list string * list string)) :=
  r ← r; Some (res ← r; Ok (Bridges.actor_id (identity res), capabilities res, chain_subjects res)).
Example tls_chain_example : verdict (verify_chain lib1 bridge1 0 ["L"; "I"]) =
  Some (Ok ("tf:actor:device:d/leaf", ["tls.client-auth"; "tls.server-auth"], ["O=x, CN=leaf"; "CN=Intermediate"; "CN=Root"])).
Proof. vm_compute. reflexivity. Qed.

Lemma loaded1 : loaded lib1 bridge1 0 ["LI"] [leaf1; inter1] [root1].
Proof.
  split; [exists [[76]; [73]]; split; [vm_compute; reflexivity|repeat constructor]|]. split; [repeat constructor|]. split; [cbn; lia|].
  exists 50. split; [reflexivity|repeat constructor].
Qed.
Lemma accepted1 : exists res, verify_chain lib1 bridge1 0 ["LI"] = Some (Ok res).
Proof. eexists. vm_compute. reflexivity. Qed.

Lemma tls_honest_chain_accepted_witness : exists res, verify_chain lib1 bridge1 0 ["LI"] = Some (Ok res) /\
  chain_subjects res = ["O=x, CN=leaf"; "CN=Intermediate"; "CN=Root"].
Proof.
  destruct (tls_honest_chain_accepted lib1 lib1_laws bridge1 0 ["LI"] leaf1 [inter1] [root1] root1 loaded1) as (res & H & E & _).
  - split; [by split|by split].
  - apply (bool_decide_eq_true_1 (NoDup ["O=x, CN=leaf"; "CN=Intermediate"])). vm_compute. reflexivity.
  - apply (bool_decide_eq_true_1 ("CN=Root" ∉ ["O=x, CN=leaf"; "CN=Intermediate"])). vm_compute. reflexivity.
  - reflexivity.
  - discriminate.
  - exists res. split; [exact H|]. rewrite E. reflexivity.
Defined.
Lemma tls_leaf_can_issue_witness : exists res, verify_chain lib1 bridge1 0 ["X"; "LI"] = Some (Ok res) /\
  Bridges.actor_id (identity res) = "tf:actor:service:d/spiffe%3A//prod/admin" /\ capabilities res = ["code.sign"].
Proof.
  destruct accepted1 as [res H].
  destruct (tls_leaf_can_issue lib1 bridge1 0 ["LI"] res leaf1 [inter1] [root1] "X" [88] forged1 50 H loaded1) as (res' & H' & E & C).
  - cbn. lia.
  - reflexivity.
  - reflexivity.
  - reflexivity.
  - reflexivity.
  - split; reflexivity.
  - intros d [->|[->|[]%not_elem_of_nil]%elem_of_cons]%elem_of_cons; (split; [reflexivity|discriminate]).
  - discriminate.
  - exists res'. split; [exact H'|]. rewrite E, C. split; vm_compute; reflexivity.
Defined.
Lemma tls_actor_id_unique_witness : exists leaf leaf', actor_subject lib1 leaf = actor_subject lib1 leaf'.
Proof.
  destruct accepted1 as [res H].
  destruct (tls_actor_id_unique lib1 bridge1 0 ["LI"] res 0 ["LI"] res H H eq_refl) as (leaf & _ & _ & leaf' & _ & _ & _ & _ & E & _). exists leaf, leaf'. exact E.
Defined.

(** The root is used beyond its validity: it expired at 10, the clock says 50.
    A root in the chain itself is checked. *)
Example tls_expired_root : is_valid_at lib1 root1 50 = false /\ (exists res, verify_chain lib1 bridge1 0 ["LI"] = Some (Ok res)) /\
  verify_chain lib1 bridge1 0 ["LIR"] = Some (Err (Rejected "cert CN=Root outside validity window")).
Proof. split; [reflexivity|]. split; [exact accepted1|]. vm_compute. reflexivity. Qed.

(** The common name is read off the printed name, so a comma inside another
    attribute introduces one. *)
Example common_name_injected : parse_common_name "O=Acme, CN=admin Inc, CN=guest" = Some "admin Inc".
Proof. vm_compute. reflexivity. Qed.

End Tls.
