(* ===== verification/Ocsp.v ===== *)
(** * Ocsp: revocation of certificates and channel binding ([bridge_tls.rs])

    - [ocsp]: the DER walker and the reader of OCSP responses, and [OcspCheck];
    - [CrlIndex]: revocation lists indexed by serial number;
    - [derive]: the key derived from a TLS exporter; [verify_response]: the
      signature of a post-handshake challenge.

    Positions are [usize] of 64 bits and stay below the length of the buffer.
    Arithmetic is that of a release build, where the day 0 of March wraps
    around instead of panicking. *)

From S2P Require Import Prelude Utf8 Clock Base64 Crypto Bridges Tls.
Import Bridges(BridgeError(..), run(..), run_bind).

#[local] Open Scope string_scope.
#[local] Open Scope list_scope.
#[local] Open Scope Z_scope.

Module Ocsp.

Inductive OcspStatus := Good | Revoked | Unknown.
Inductive OcspError :=
| Parse (s : string) | ResponderError (n : Z) | NotBasic | NotYetValid (this_update now : Z) | Stale (next_update now : Z) | NoSingleResponses.

Abbreviation run := (Bridges.run OcspError).
Definition or_parse {A} (o : option A) (what : string) : run A := Done (ok_or o (Parse what)).

(** ** The TLV walker *)

Record Tlv := mk_Tlv { tag : Z; content_start : Z; content_len : Z }.
Definition len (buf : list Z) : Z := Z.of_nat (length buf).
(** [buf[pos]], where [pos] is in range. *)
Definition at_ (buf : list Z) (pos : Z) : Z := List.nth (Z.to_nat pos) buf 0.
(** [&buf[pos..pos + n]]. *)
Definition slice (buf : list Z) (pos n : Z) : list Z := take (Z.to_nat n) (drop (Z.to_nat pos) buf).
Definition content (buf : list Z) (t : Tlv) : list Z := slice buf (content_start t) (content_len t).
Definition after (t : Tlv) : Z := content_start t + content_len t.

Definition read_length (buf : list Z) (pos : Z) : option (Z * Z) :=
  if len buf <=? pos then None
  else
    let b := at_ buf pos in
    if b <? 0x80 then Some (b, 1)
    else
      let n := Z.land b 0x7f in
      if (n =? 0) || (4 <? n) || (len buf <=? pos + n) then None
      else Some (foldl (fun acc c => Z.lor (Z.shiftl acc 8) c) 0 (slice buf (pos + 1) n), 1 + n).
Definition read_tlv (buf : list Z) (pos : Z) : option Tlv :=
  if len buf <=? pos then None
  else
    let tag := at_ buf pos in
    '(n, header) ← read_length buf (pos + 1);
    if len buf <? pos + 1 + header + n then None else Some (mk_Tlv tag (pos + 1 + header) n).
Definition read_seq (buf : list Z) (pos : Z) : option Tlv := t ← read_tlv buf pos; if tag t =? 0x30 then Some t else None.

(** ** Times *)

(** [s.parse()] of the slice [core[a..b]], which panics off a character
    boundary. *)
Definition field (core : string) (a b : nat) (parse : string -> option Z) (what : string) : run Z :=
  match Clock.str_get core a b with None => Panics | Some s => or_parse (parse s) what end.
Definition parse_i32 : string -> option Z := Clock.parse_int (- 2 ^ 31) (2 ^ 31 - 1).
Definition ymdhms_to_unix (y m d hh mm ss : Z) : Z := Clock.ymd_to_days y m d * 86400 + hh * 3600 + mm * 60 + ss.

Definition time_fields (core : string) : run Z :=
  y ← field core 0 4 parse_i32 "year"; m ← field core 4 6 Clock.parse_u32 "month"; d ← field core 6 8 Clock.parse_u32 "day";
  hh ← field core 8 10 Clock.parse_u32 "hour"; mm ← field core 10 12 Clock.parse_u32 "min"; ss ← field core 12 14 Clock.parse_u32 "sec";
  Done (Ok (ymdhms_to_unix y m d hh mm ss)).
Definition parse_generalized_time (bytes : list Z) : run Z :=
  if negb (valid_utf8 bytes) then Done (Err (Parse "generalized time non-utf8"))
  else if negb (bool_decide (last bytes = Some 90)) then Done (Err (Parse "generalized time must be Zulu-suffixed"))
  else
    let core := str_of_bytes (removelast bytes) in
    if (String.length core <? 14)%nat then Done (Err (Parse "generalized time too short"))
    else
      time_fields core.

(** ** Responses *)

Record SingleResponse := mk_SingleResponse { status : OcspStatus; this_update : Z; next_update : option Z }.
Record BasicResponseData := mk_BasicResponseData { single_responses : list SingleResponse }.
Record OcspResponse := mk_OcspResponse { response_status : Z; basic : option BasicResponseData }.
Definition ID_PKIX_OCSP_BASIC : list Z := [0x2b; 0x06; 0x01; 0x05; 0x05; 0x07; 0x30; 0x01; 0x01].

Definition cert_status (tag : Z) : run OcspStatus :=
  if tag =? 0x80 then Done (Ok Good) else if tag =? 0xa1 then Done (Ok Revoked) else if tag =? 0x82 then Done (Ok Unknown)
  else Done (Err (Parse ("unknown certStatus tag 0x" +:+ hex2 tag))).

Definition parse_single_response (der : list Z) : run SingleResponse :=
  cert_id ← or_parse (read_seq der 0) "certID";
  cs ← or_parse (read_tlv der (after cert_id)) "certStatus";
  status ← cert_status (tag cs);
  tu ← or_parse (read_tlv der (after cs)) "thisUpdate";
  if negb (tag tu =? 0x18) then Done (Err (Parse ("thisUpdate expected 0x18, got 0x" +:+ hex2 (tag tu))))
  else
    this_update ← parse_generalized_time (content der tu);
    if (after tu <? len der) && (at_ der (after tu) =? 0xa0) then
      nu_outer ← or_parse (read_tlv der (after tu)) "nextUpdate [0]";
      inner ← or_parse (read_tlv der (content_start nu_outer)) "nextUpdate inner";
      if negb (tag inner =? 0x18) then Done (Err (Parse ("nextUpdate expected 0x18, got 0x" +:+ hex2 (tag inner))))
      else next_update ← parse_generalized_time (content der inner); Done (Ok (mk_SingleResponse status this_update (Some next_update)))
    else Done (Ok (mk_SingleResponse status this_update None)).

(** [while q < qend]. *)
Fixpoint single_loop (fuel : nat) (der : list Z) (q qend : Z) : run (list SingleResponse) :=
  if q <? qend then
    match fuel with
    | O => Loops
    | S fuel =>
      sr ← or_parse (read_seq der q) "SingleResponse"; s ← parse_single_response (content der sr);
      rest ← single_loop fuel der (after sr) qend; Done (Ok (s :: rest))
    end
  else Done (Ok []).

(** [if p < end { let t = read_tlv(der, p)...; p = after t }]. *)
Definition skip (present : bool) (der : list Z) (p : Z) (what : string) : run Z :=
  if present then t ← or_parse (read_tlv der p) what; Done (Ok (after t)) else Done (Ok p).

Definition parse_basic_response (der : list Z) : run BasicResponseData :=
  basic_seq ← or_parse (read_seq der 0) "BasicOCSPResponse SEQ";
  tbs ← or_parse (read_seq der (content_start basic_seq)) "tbsResponseData SEQ";
  let p := content_start tbs in let end_ := after tbs in
  p ← skip ((p <? end_) && (at_ der p =? 0xa0)) der p "version";
  p ← skip (p <? end_) der p "responderID";
  p ← skip (p <? end_) der p "producedAt";
  resp_seq ← or_parse (read_seq der p) "responses SEQUENCE OF";
  singles ← single_loop (length der) der (content_start resp_seq) (after resp_seq);
  Done (Ok (mk_BasicResponseData singles)).

Definition parse_ocsp_response (der : list Z) : run OcspResponse :=
  outer ← or_parse (read_seq der 0) "outer SEQUENCE";
  status_tlv ← or_parse (read_tlv der (content_start outer)) "responseStatus tag";
  if negb (tag status_tlv =? 0x0a) then Done (Err (Parse ("responseStatus expected ENUMERATED (0x0a), got 0x" +:+ hex2 (tag status_tlv))))
  else if negb (content_len status_tlv =? 1) then Done (Err (Parse "responseStatus len != 1"))
  else
    let response_status := at_ der (content_start status_tlv) in
    let p := after status_tlv in
    if p <? after outer then
      rb_tlv ← or_parse (read_tlv der p) "[0] tag";
      if tag rb_tlv =? 0xa0 then
        rb_seq ← or_parse (read_seq der (content_start rb_tlv)) "ResponseBytes SEQUENCE";
        oid_tlv ← or_parse (read_tlv der (content_start rb_seq)) "responseType OID";
        if negb (tag oid_tlv =? 0x06) then Done (Err (Parse "responseType not OID"))
        else if bool_decide (content der oid_tlv = ID_PKIX_OCSP_BASIC) then
          response_octets ← or_parse (read_tlv der (after oid_tlv)) "response OCTET STRING";
          if negb (tag response_octets =? 0x04) then Done (Err (Parse "response not OCTET STRING"))
          else b ← parse_basic_response (content der response_octets); Done (Ok (mk_OcspResponse response_status (Some b)))
        else Done (Ok (mk_OcspResponse response_status None))
      else Done (Ok (mk_OcspResponse response_status None))
    else Done (Ok (mk_OcspResponse response_status None)).

(** ** [OcspCheck] *)

Definition parse_response (der : list Z) (now : Z) : run OcspStatus :=
  parsed ← parse_ocsp_response der;
  if negb (response_status parsed =? 0) then Done (Err (ResponderError (response_status parsed)))
  else
    b ← Done (ok_or (basic parsed) NotBasic);
    single ← Done (ok_or (head (single_responses b)) NoSingleResponses);
    if now <? this_update single then Done (Err (NotYetValid (this_update single) now))
    else
      match next_update single with
      | Some next => if next <? now then Done (Err (Stale next now)) else Done (Ok (status single))
      | None => Done (Ok (status single))
      end.

Record X509Cert := mk_X509Cert { der : list Z; cert_subject : string; serial_be : list Z }.
Definition bridge_error (e : OcspError) : BridgeError :=
  match e with
  | Parse s => InvalidInput ("OCSP: " +:+ s)
  | ResponderError n => Rejected ("OCSP responder error " +:+ pretty n)
  | NotBasic => Rejected "OCSP not BasicOCSPResponse"
  | NotYetValid this_update now => Rejected ("OCSP thisUpdate=" +:+ pretty this_update +:+ " > now=" +:+ pretty now)
  | Stale next_update now => Rejected ("OCSP nextUpdate=" +:+ pretty next_update +:+ " < now=" +:+ pretty now)
  | NoSingleResponses => Rejected "OCSP had no SingleResponse entries"
  end.
(** The fetcher is the caller's; [None] is a panic or an endless loop. *)
Definition query (fetch : X509Cert -> X509Cert -> string -> result BridgeError (list Z)) (cert issuer : X509Cert) (ocsp_url : string) (now : Z) :
  option (result BridgeError OcspStatus) :=
  match fetch cert issuer ocsp_url with
  | Err e => Some (Err e)
  | Ok der => match parse_response der now with Done r => Some (map_err bridge_error r) | Panics | Loops => None end
  end.

Section certificates.
Variable x : Tls.Lib.
Variable raw_serial : Tls.Cert x -> list Z.
Definition from_der (bytes : list Z) : result BridgeError X509Cert :=
  parsed ← map_err (fun e => InvalidInput ("X509Cert: " +:+ e)) (Tls.from_der x bytes);
  Ok (mk_X509Cert bytes (Tls.subject_text x parsed) (raw_serial parsed)).
Definition from_pem (pem : string) : option (result BridgeError X509Cert) :=
  r ← Tls.parse_single_pem x pem;
  Some (der ← map_err (fun e => InvalidInput ("X509Cert PEM: " +:+ e)) r; from_der der).
End certificates.

(** ** Revocation lists *)

Record RevocationEntry := mk_RevocationEntry { entry_serial : list Z; revocation_date : Z; reason_code : option Z }.
(** What [CertificateRevocationList] holds: names as texts, times as Unix
    times. *)
Inductive CrlExtension := ReasonCode (rc : Z) | OtherCrlExtension.
Record RevokedCertificate := mk_RevokedCertificate { rc_serial : list Z; rc_date : Z; rc_extensions : list CrlExtension }.
Record CertificateRevocationList := mk_CertificateRevocationList {
  crl_issuer : string; crl_last_update : Z; crl_next_update : option Z; crl_revoked : list RevokedCertificate }.
Record CrlIndex := mk_CrlIndex { issuer : string; index_this_update : Z; index_next_update : option Z; revoked : gmap (list Z) RevocationEntry }.

Fixpoint normalise_serial (s : list Z) : list Z :=
  match s with a :: ((_ :: _) as r) => if a =? 0 then normalise_serial r else s | _ => s end.
Definition is_revoked (idx : CrlIndex) (serial_be : list Z) : option RevocationEntry := revoked idx !! normalise_serial serial_be.

Fixpoint find_reason (exts : list CrlExtension) : option Z :=
  match exts with [] => None | ReasonCode rc :: _ => Some rc | OtherCrlExtension :: exts => find_reason exts end.
Definition entry_of (r : RevokedCertificate) : RevocationEntry :=
  mk_RevocationEntry (normalise_serial (rc_serial r)) (rc_date r) (find_reason (rc_extensions r)).
Definition crl_load (crl_from_der : list Z -> result string CertificateRevocationList) (crl_bytes : list Z) : result string CrlIndex :=
  crl ← crl_from_der crl_bytes;
  Ok (mk_CrlIndex (crl_issuer crl) (crl_last_update crl) (crl_next_update crl)
        (foldl (fun m r => <[ entry_serial (entry_of r) := entry_of r ]> m) ∅ (crl_revoked crl))).

(** ** Channel binding *)

Section binding.
(** HMAC-SHA256 of a key and a message; [Hkdf::new(None, prk).expand(info)]
    of a length, which refuses more than 255 blocks. *)
Variable hmac_sha256 : list Z -> list Z -> list Z.
Variable hkdf_expand : list Z -> list Z -> Z -> option (list Z).
Definition derive (transport_secret : list Z) (label : string) (context : list Z) (length : Z) : option (list Z) :=
  match transport_secret with
  | [] => None
  | _ =>
    let salt := bytes_of_str ("tf-tls-exporter:" +:+ label) in
    let prk1 := hmac_sha256 salt (transport_secret ++ context) in
    hkdf_expand prk1 salt length
  end.
End binding.

(** The random source is the bytes it yields. *)
Definition challenge (rng : list Z) : list Z := rng.
Definition verify_response (l : Crypto.crypto_lib) (challenge pubkey signature : list Z) : bool :=
  is_ok (Crypto.ed25519_verify l pubkey challenge signature).

(** ** The walker finds what is there *)

(** The rest of the buffer from a position on. *)
Definition rest_at (buf : list Z) (pos : Z) (r : list Z) : Prop := 0 <= pos <= len buf /\ drop (Z.to_nat pos) buf = r.
Lemma buf_nonneg (l : list Z) : 0 <= len l.
Proof. unfold len. lia. Qed.
Lemma buf_app (a b : list Z) : len (a ++ b) = len a + len b.
Proof. unfold len. rewrite length_app. lia. Qed.
Lemma buf_cons a (b : list Z) : len (a :: b) = 1 + len b.
Proof. unfold len. cbn [length]. lia. Qed.

Lemma rest_at_pos buf pos r : rest_at buf pos r -> pos = len buf - len r.
Proof. intros [H <-]. unfold len in *. rewrite length_drop. lia. Qed.
Lemma rest_at_app buf pos a r : rest_at buf pos (a ++ r) -> rest_at buf (pos + len a) r /\ slice buf pos (len a) = a.
Proof.
  intros H. pose proof (rest_at_pos _ _ _ H) as Hp. destruct H as [H E]. rewrite buf_app in Hp. pose proof (buf_nonneg a). pose proof (buf_nonneg r).
  split; [split; [lia|]|].
  - rewrite Z2Nat.inj_add, <- drop_drop, E by lia. unfold len. by rewrite Nat2Z.id, drop_app_length.
  - unfold slice. rewrite E. unfold len. by rewrite Nat2Z.id, take_app_length.
Qed.
Lemma rest_at_cons buf pos a r : rest_at buf pos (a :: r) -> pos < len buf /\ at_ buf pos = a /\ rest_at buf (pos + 1) r.
Proof.
  intros H. pose proof (rest_at_pos _ _ _ H) as Hp. rewrite buf_cons in Hp. pose proof (buf_nonneg r). split; [lia|]. split; [|by apply (rest_at_app buf pos [a])].
  destruct H as [H E]. unfold at_. rewrite nth_lookup. rewrite <- (Nat.add_0_r (Z.to_nat pos)), <- lookup_drop, E. done.
Qed.
Lemma rest_at_start buf : rest_at buf 0 buf.
Proof. split; [pose proof (buf_nonneg buf); lia|done]. Qed.

(** A length in short form, or in long form of at most four bytes. *)
Definition header (n : Z) (h : list Z) : Prop :=
  (0 <= n < 128 /\ h = [n]) \/ exists k, (1 <= k <= 4)%nat /\ 0 <= n < 256 ^ Z.of_nat k /\ h = (128 + Z.of_nat k) :: be_bytes k n.
Definition is_tlv (t : Z) (body w : list Z) : Prop := exists h, header (len body) h /\ w = t :: h ++ body.

Lemma fold_be acc bs : is_bytes bs -> foldl (fun acc c => Z.lor (Z.shiftl acc 8) c) acc bs = acc * 256 ^ len bs + of_be bs.
Proof.
  intros H. revert acc. induction H as [|b bs Hb _ IH]; intros acc; cbn [foldl of_be]; [by rewrite Z.mul_1_r, Z.add_0_r|].
  rewrite IH, lor_shiftl_add by (unfold is_u8 in Hb; lia). rewrite buf_cons. unfold len. rewrite Z.pow_add_r by lia. change (2 ^ 8) with 256. lia.
Qed.

Lemma read_length_at buf pos n h r : header n h -> rest_at buf pos (h ++ r) -> read_length buf pos = Some (n, len h).
Proof.
  intros Hh Hr. unfold read_length. destruct Hh as [[Hn ->]|(k & Hk & Hn & ->)]; cbn [app] in Hr; pose proof Hr as (Hp & Ha & Hr')%rest_at_cons.
  - rewrite (proj2 (Z.leb_gt _ _)), Ha, (proj2 (Z.ltb_lt n _)) by lia. done.
  - rewrite (proj2 (Z.leb_gt _ _)), Ha, (proj2 (Z.ltb_ge _ _)) by lia.
    assert (Z.land (128 + Z.of_nat k) 0x7f = Z.of_nat k) as ->.
    { change 0x7f with (Z.ones 7). rewrite Z.land_ones by lia. change (2 ^ 7) with 128. rewrite <- (Z.mul_1_l 128) at 1. rewrite Z.add_comm, Z.mod_add by lia. apply Z.mod_small. lia. }
    pose proof (rest_at_pos _ _ _ Hr') as Hq. rewrite buf_app in Hq. pose proof (buf_nonneg r).
    assert (len (be_bytes k n) = Z.of_nat k) as Hl by (unfold len; by rewrite length_be_bytes).
    rewrite (proj2 (Z.eqb_neq _ _)), (proj2 (Z.ltb_ge 4 _)), (proj2 (Z.leb_gt _ _)) by lia. cbn [orb].
    apply rest_at_app in Hr' as [_ Hs]. rewrite Hl in Hs. rewrite Hs, fold_be by apply be_bytes_bytes. rewrite of_be_bytes_small by done.
    by rewrite buf_cons, Hl.
Qed.

(** Where the buffer continues with an element, [read_tlv] finds it. *)
Lemma read_tlv_at buf pos t body w r : is_tlv t body w -> rest_at buf pos (w ++ r) ->
  exists s, read_tlv buf pos = Some (mk_Tlv t s (len body)) /\ rest_at buf s (body ++ r) /\ rest_at buf (s + len body) r /\ slice buf s (len body) = body.
Proof.
  intros (h & Hh & ->) Hr. cbn [app] in Hr. pose proof Hr as (Hp & Ha & Hr')%rest_at_cons. rewrite <- app_assoc in Hr'.
  exists (pos + 1 + len h). unfold read_tlv. rewrite (proj2 (Z.leb_gt _ _)), Ha by lia. rewrite (read_length_at _ _ _ _ _ Hh Hr'). cbn [mbind option_bind].
  apply rest_at_app in Hr' as [Hb _]. pose proof (rest_at_pos _ _ _ Hb) as Hq. rewrite buf_app in Hq. pose proof (buf_nonneg r).
  rewrite (proj2 (Z.ltb_ge _ _)) by lia. split; [done|]. split; [done|]. by apply rest_at_app in Hb as [].
Qed.
Lemma read_seq_at buf pos body w r : is_tlv 0x30 body w -> rest_at buf pos (w ++ r) ->
  exists s, read_seq buf pos = Some (mk_Tlv 0x30 s (len body)) /\ rest_at buf s (body ++ r) /\ rest_at buf (s + len body) r /\ slice buf s (len body) = body.
Proof. intros Hw Hr. destruct (read_tlv_at _ _ _ _ _ _ Hw Hr) as (s & E & H). exists s. unfold read_seq. by rewrite E. Qed.

(** ** Times *)

Definition gtime (secs : Z) : string :=
  let '(y, m, d, h, mi, s) := Clock.secs_to_ymdhms secs in
  Clock.pad 4 y +:+ Clock.pad 2 m +:+ Clock.pad 2 d +:+ Clock.pad 2 h +:+ Clock.pad 2 mi +:+ Clock.pad 2 s +:+ "Z".
Definition time_bytes (secs : Z) : list Z := bytes_of_str (gtime secs).

Lemma ascii_is_utf8 s : Clock.is_ascii s = true -> valid_utf8 (bytes_of_str s) = true.
Proof.
  unfold valid_utf8. intros H. assert (is_Some (decode_utf8 (bytes_of_str s))) as [? ->]; [|done].
  induction s as [|c s IH]; [by eexists|]. cbn [Clock.is_ascii] in H. apply andb_prop in H as [Hc H]. destruct (IH H) as [l E].
  change (bytes_of_str (String c s)) with (Z.of_N (N_of_ascii c) :: bytes_of_str s). cbn [decode_utf8].
  rewrite Hc, (proj2 (Z.leb_le 0 _)) by lia. cbn [andb]. rewrite E. by eexists.
Qed.

#[local] Ltac Zify.zify_post_hook ::= Z.div_mod_to_equations.

Lemma time_fields_digits y mo d h mi s : 0 <= y < 10000 -> 0 <= mo < 100 -> 0 <= d < 100 -> 0 <= h < 100 -> 0 <= mi < 100 -> 0 <= s < 100 ->
  time_fields (Clock.digits 4 y +:+ Clock.digits 2 mo +:+ Clock.digits 2 d +:+ Clock.digits 2 h +:+ Clock.digits 2 mi +:+ Clock.digits 2 s)
  = Done (Ok (ymdhms_to_unix y mo d h mi s)).
Proof.
  intros Hy Hmo Hd Hh Hmi Hs. unfold time_fields. set (core := Clock.digits 4 y +:+ _). assert (Clock.is_ascii core = true) as Ha.
  { subst core. by rewrite !Clock.is_ascii_app, !Clock.is_ascii_digits. }
  assert (String.length core = 14%nat) as Hlen by (subst core; by rewrite !str_length_app, !Clock.length_digits).
  unfold field. rewrite !Clock.ascii_str_get by (done || lia). subst core. clear Ha Hlen. cbn [Nat.sub]. unfold parse_i32, Clock.parse_u32. simpl mbind. simpl String.substring. Clock.fold2 mo. Clock.fold2 d. Clock.fold2 h. Clock.fold2 mi. Clock.fold2 s.
  change (String (Clock.dchar (y / 10 / 10 / 10 mod 10)) (String (Clock.dchar (y / 10 / 10 mod 10))
    (String (Clock.dchar (y / 10 mod 10)) (String (Clock.dchar (y mod 10)) "")))) with (Clock.digits 4 y).
  by rewrite !Clock.parse_int_digits by lia.
Qed.

Lemma generalized_time_roundtrip secs : Clock.in_range secs -> parse_generalized_time (time_bytes secs) = Done (Ok secs).
Proof.
  intros Hr. pose proof Hr as Hr'. unfold Clock.in_range in Hr'.
  destruct (Clock.days_to_ymd_civil (secs / 86400)) as (Y & mp & d & C & Hy & E); [lia|].
  pose proof (Clock.civil_m_bounds _ (Clock.civil_mp _ _ _ _ C)). pose proof (Clock.civil_d _ _ _ _ C).
  assert (gtime secs = Clock.digits 4 (Clock.civil_y Y mp) +:+ Clock.digits 2 (Clock.civil_m mp) +:+ Clock.digits 2 d +:+ Clock.digits 2 (secs mod 86400 / 3600)
    +:+ Clock.digits 2 (secs mod 86400 mod 3600 / 60) +:+ Clock.digits 2 (secs mod 86400 mod 60) +:+ "Z") as Eg.
  { unfold gtime, Clock.secs_to_ymdhms. rewrite E. unfold Clock.as_u32. rewrite !(Z.mod_small _ (2 ^ 32)) by lia. by rewrite !Clock.pad_digits by lia. }
  unfold parse_generalized_time, time_bytes. rewrite Eg, ascii_is_utf8 by (by rewrite !Clock.is_ascii_app, !Clock.is_ascii_digits). cbn [negb].
  rewrite <- !str_app_assoc, bytes_of_str_app. change (bytes_of_str "Z") with [90]. rewrite last_snoc, bool_decide_eq_true_2 by done. cbn [negb].
  rewrite removelast_last, str_of_bytes_of_str, !str_app_assoc.
  rewrite time_fields_digits by lia.
  rewrite !str_length_app, !Clock.length_digits. cbn [Nat.add Nat.ltb Nat.leb]. unfold ymdhms_to_unix. rewrite (Clock.ymd_to_days_civil _ _ _ _ C Hy). do 2 f_equal. lia.
Qed.

(** ** Well-formed responses *)

Definition status_tag (s : OcspStatus) : Z := match s with Good => 0x80 | Revoked => 0xa1 | Unknown => 0x82 end.
Inductive next_form : option Z -> list Z -> Prop :=
| next_none : next_form None []
| next_some t tw w : Clock.in_range t -> is_tlv 0x18 (time_bytes t) tw -> is_tlv 0xa0 tw w -> next_form (Some t) w.
(** A [SingleResponse], about any certificate; [ext] are its extensions. *)
Inductive single_form (s : SingleResponse) (w : list Z) : Prop :=
| single_bytes cert_id cw sbody sw tw nw ext :
  is_tlv 0x30 cert_id cw -> is_tlv (status_tag (status s)) sbody sw -> Clock.in_range (this_update s) -> is_tlv 0x18 (time_bytes (this_update s)) tw ->
  next_form (next_update s) nw -> head ext <> Some 0xa0 -> is_tlv 0x30 (cw ++ sw ++ tw ++ nw ++ ext) w -> single_form s w.
Inductive singles_form : list SingleResponse -> list Z -> Prop :=
| singles_nil : singles_form [] []
| singles_cons s w l v : single_form s w -> singles_form l v -> singles_form (s :: l) (w ++ v).
(** A [BasicOCSPResponse]: version, responder, time of production, the
    responses and extensions; then the algorithm, signature and certificates. *)
Inductive basic_form (l : list SingleResponse) (w : list Z) : Prop :=
| basic_bytes version rtag rbody responder pbody produced singles responses ext tbs sig :
  (version = [] \/ exists v, is_tlv 0xa0 v version) -> rtag <> 0xa0 -> is_tlv rtag rbody responder -> is_tlv 0x18 pbody produced ->
  singles_form l singles -> is_tlv 0x30 singles responses -> is_tlv 0x30 (version ++ responder ++ produced ++ responses ++ ext) tbs ->
  is_tlv 0x30 (tbs ++ sig) w -> basic_form l w.
Inductive response_form (code : Z) : option (list SingleResponse) -> list Z -> Prop :=
| error_bytes st w : is_tlv 0x0a [code] st -> is_tlv 0x30 st w -> response_form code None w
| response_bytes l b ob oid rs rb st w : basic_form l b -> is_tlv 0x04 b ob -> is_tlv 0x06 ID_PKIX_OCSP_BASIC oid -> is_tlv 0x30 (oid ++ ob) rs ->
  is_tlv 0xa0 rs rb -> is_tlv 0x0a [code] st -> is_tlv 0x30 (st ++ rb) w -> response_form code (Some l) w.

Lemma is_tlv_len t body w : is_tlv t body w -> 2 <= len w.
Proof.
  intros (h & Hh & ->). rewrite buf_cons, buf_app. pose proof (buf_nonneg body). assert (1 <= len h); [|lia].
  destruct Hh as [[_ ->]|(k & _ & _ & ->)]; rewrite buf_cons; [|pose proof (buf_nonneg (be_bytes k (len body)))]; unfold len in *; cbn [length]; lia.
Qed.
Lemma is_tlv_head t body w r : is_tlv t body w -> exists v, w ++ r = t :: v.
Proof. intros (h & _ & ->). by eexists. Qed.

Lemma ltb_rest buf p r q s : rest_at buf p r -> rest_at buf q s -> (p <? q) = (len s <? len r).
Proof. intros H1%rest_at_pos H2%rest_at_pos. destruct (Z.ltb_spec p q), (Z.ltb_spec (len s) (len r)); (done || lia). Qed.
Lemma cert_status_tag s : cert_status (status_tag s) = Done (Ok s).
Proof. by destruct s. Qed.

Lemma read_single cert_id cw s sbody sw tw nw ext : is_tlv 0x30 cert_id cw -> is_tlv (status_tag (status s)) sbody sw -> Clock.in_range (this_update s) ->
  is_tlv 0x18 (time_bytes (this_update s)) tw -> next_form (next_update s) nw -> head ext <> Some 0xa0 ->
  parse_single_response (cw ++ sw ++ tw ++ nw ++ ext) = Done (Ok s).
Proof.
  intros Hc Hs Ht Htw Hn He. set (buf := cw ++ sw ++ tw ++ nw ++ ext). unfold parse_single_response.
  assert (rest_at buf 0 (cw ++ sw ++ tw ++ nw ++ ext)) as H0 by apply rest_at_start.
  edestruct (read_seq_at _ _ _ _ _ Hc H0) as (s0 & E0 & _ & H1 & _). rewrite E0. cbn [or_parse ok_or mbind run_bind].
  change (after (mk_Tlv 0x30 s0 (len cert_id))) with (s0 + len cert_id).
  edestruct (read_tlv_at _ _ _ _ _ _ Hs H1) as (s1 & E1 & _ & H2 & _). rewrite E1. cbn [or_parse ok_or mbind run_bind tag]. rewrite cert_status_tag. cbn [mbind run_bind].
  change (after (mk_Tlv (status_tag (status s)) s1 (len sbody))) with (s1 + len sbody).
  edestruct (read_tlv_at _ _ _ _ _ _ Htw H2) as (s2 & E2 & _ & H3 & C2). rewrite E2. cbn [or_parse ok_or mbind run_bind tag Z.eqb Pos.eqb negb].
  unfold content. cbn [content_start content_len]. rewrite C2, generalized_time_roundtrip by done. cbn [mbind run_bind].
  change (after (mk_Tlv 0x18 s2 (len (time_bytes (this_update s))))) with (s2 + len (time_bytes (this_update s))).
  destruct s as [st tu nu]. cbn [next_update this_update status] in *. destruct Hn as [|t tw' w Ht' Htw' Hw].
  - cbn [app] in H3. destruct ext as [|c ext].
    + apply rest_at_pos in H3. change (len []) with 0 in H3. rewrite H3, Z.sub_0_r, Z.ltb_irrefl. done.
    + apply rest_at_cons in H3 as (_ & Ha & _). rewrite Ha. rewrite (proj2 (Z.eqb_neq c 0xa0)) by (cbn in He; congruence). by rewrite andb_false_r.
  - pose proof (is_tlv_head _ _ _ ext Hw) as [v Hv]. pose proof H3 as H3'. rewrite Hv in H3'. apply rest_at_cons in H3' as (Hl & Ha & _).
    rewrite (proj2 (Z.ltb_lt _ _) Hl), Ha. cbn [andb Z.eqb Pos.eqb].
    edestruct (read_tlv_at _ _ _ _ _ _ Hw H3) as (s3 & E3 & H4 & _). rewrite E3. cbn [or_parse ok_or mbind run_bind content_start].
    edestruct (read_tlv_at _ _ _ _ _ _ Htw' H4) as (s4 & E4 & _ & _ & C4). rewrite E4. cbn [or_parse ok_or mbind run_bind tag content_start content_len Z.eqb Pos.eqb negb].
    rewrite C4, generalized_time_roundtrip by done. done.
Qed.

Lemma read_singles fuel buf q qend l w r : singles_form l w -> rest_at buf q (w ++ r) -> rest_at buf qend r -> (length w <= fuel)%nat ->
  single_loop fuel buf q qend = Done (Ok l).
Proof.
  intros H. revert fuel q. induction H as [|s w l v Hs _ IH]; intros fuel q Hq He Hf.
  - assert ((q <? qend) = false) as E by (erewrite ltb_rest by eassumption; apply Z.ltb_irrefl). destruct fuel; cbn [single_loop]; by rewrite E.
  - destruct Hs as [cert_id cw sbody sw tw nw ext Hc Hst Ht Htw Hn Hx Hw]. pose proof (is_tlv_len _ _ _ Hw) as Hl.
    assert ((q <? qend) = true) as E.
    { erewrite ltb_rest by eassumption. rewrite !buf_app. pose proof (buf_nonneg v). apply Z.ltb_lt. lia. }
    rewrite <- app_assoc in Hq. destruct fuel as [|fuel]; [rewrite length_app in Hf; unfold len in Hl; lia|]. cbn [single_loop]. rewrite E.
    edestruct (read_seq_at _ _ _ _ _ Hw Hq) as (s0 & E0 & _ & H1 & C). rewrite E0. cbn [or_parse ok_or mbind run_bind]. unfold content, after. cbn [content_start content_len].
    rewrite C. erewrite read_single by eassumption. cbn [mbind run_bind]. rewrite IH; [done|done|done|]. rewrite length_app in Hf. unfold len in Hl. lia.
Qed.

Lemma read_basic l w : basic_form l w -> parse_basic_response w = Done (Ok (mk_BasicResponseData l)).
Proof.
  intros [version rtag rbody responder pbody produced singles responses ext tbs sig Hv Hrt Hr Hp Hl Hrs Ht Hw].
  unfold parse_basic_response. assert (rest_at w 0 (w ++ [])) as R0 by (rewrite app_nil_r; apply rest_at_start).
  edestruct (read_seq_at _ _ _ _ _ Hw R0) as (s0 & E0 & R1 & _ & _). rewrite E0. cbn [or_parse ok_or mbind run_bind content_start]. rewrite <- app_assoc in R1.
  edestruct (read_seq_at _ _ _ _ _ Ht R1) as (s1 & E1 & R2 & Hend & _). rewrite E1. cbn [or_parse ok_or mbind run_bind content_start].
  change (after (mk_Tlv 48 s1 (len (version ++ responder ++ produced ++ responses ++ ext)))) with (s1 + len (version ++ responder ++ produced ++ responses ++ ext)).
  set (e := s1 + _) in *. rewrite <- !app_assoc in R2. pose proof (is_tlv_len _ _ _ Hr). pose proof (is_tlv_len _ _ _ Hp). pose proof (buf_nonneg responses). pose proof (buf_nonneg ext).
  pose proof (buf_nonneg (sig ++ [])). pose proof (buf_nonneg version).
  assert (exists p, skip ((s1 <? e) && (at_ w s1 =? 160)) w s1 "version" = Done (Ok p) /\ rest_at w p (responder ++ produced ++ responses ++ ext ++ sig ++ [])) as (p & Ev & R3).
  { destruct Hv as [->|(v & Hv)].
    - exists s1. split; [|done]. cbn [app] in R2. destruct (is_tlv_head _ _ _ (produced ++ responses ++ ext ++ sig ++ []) Hr) as [y Hy]. rewrite Hy in R2. apply rest_at_cons in R2 as (_ & Ha & _).
      rewrite Ha, (proj2 (Z.eqb_neq _ _) Hrt), andb_false_r. done.
    - destruct (is_tlv_head _ _ _ (responder ++ produced ++ responses ++ ext ++ sig ++ []) Hv) as [y Hy]. pose proof R2 as R2'. rewrite Hy in R2'. apply rest_at_cons in R2' as (_ & Ha & _).
      erewrite ltb_rest by eassumption. rewrite (proj2 (Z.ltb_lt _ _)) by (rewrite !buf_app in *; lia). rewrite Ha. cbn [andb Z.eqb Pos.eqb skip].
      edestruct (read_tlv_at _ _ _ _ _ _ Hv R2) as (s2 & E2 & _ & R3 & _). rewrite E2. eexists. split; [reflexivity|done]. }
  rewrite Ev. cbn [mbind run_bind]. erewrite ltb_rest by eassumption. rewrite (proj2 (Z.ltb_lt _ _)) by (rewrite !buf_app in *; lia). cbn [skip].
  edestruct (read_tlv_at _ _ _ _ _ _ Hr R3) as (s3 & E3 & _ & R4 & _). rewrite E3. cbn [or_parse ok_or mbind run_bind]. unfold after. cbn [content_start content_len].
  erewrite ltb_rest by eassumption. rewrite (proj2 (Z.ltb_lt _ _)) by (rewrite !buf_app in *; lia). cbn [skip].
  edestruct (read_tlv_at _ _ _ _ _ _ Hp R4) as (s4 & E4 & _ & R5 & _). rewrite E4. cbn [or_parse ok_or mbind run_bind]. unfold after. cbn [content_start content_len].
  edestruct (read_seq_at _ _ _ _ _ Hrs R5) as (s5 & E5 & R6 & R7 & _). rewrite E5. cbn [or_parse ok_or mbind run_bind]. unfold after. cbn [content_start content_len].
  erewrite read_singles; [done|eassumption|eassumption|eassumption|]. pose proof (rest_at_pos _ _ _ R6) as Hs5. destruct R6 as [Hb _].
  rewrite buf_app in Hs5. pose proof (buf_nonneg (ext ++ sig ++ [])). unfold len in *. lia.
Qed.

Lemma read_response code l w : response_form code l w -> parse_ocsp_response w = Done (Ok (mk_OcspResponse code (mk_BasicResponseData <$> l))).
Proof.
  intros H. unfold parse_ocsp_response. assert (rest_at w 0 (w ++ [])) as R0 by (rewrite app_nil_r; apply rest_at_start).
  destruct H as [st w Hst Hw|l b ob oid rs rb st w Hb Hob Hoid Hrs Hrb Hst Hw].
  - edestruct (read_seq_at _ _ _ _ _ Hw R0) as (s0 & E0 & R1 & Rend & _). rewrite E0. cbn [or_parse ok_or mbind run_bind content_start].
    edestruct (read_tlv_at _ _ _ _ _ _ Hst R1) as (s1 & E1 & R2 & R3 & _). rewrite E1. cbn [or_parse ok_or mbind run_bind tag content_len content_start].
    apply rest_at_cons in R2 as (_ & Ha & _). rewrite Ha. unfold after. cbn [content_len content_start]. erewrite ltb_rest by eassumption. rewrite Z.ltb_irrefl. done.
  - edestruct (read_seq_at _ _ _ _ _ Hw R0) as (s0 & E0 & R1 & Rend & _). rewrite E0. cbn [or_parse ok_or mbind run_bind content_start]. rewrite <- app_assoc in R1.
    edestruct (read_tlv_at _ _ _ _ _ _ Hst R1) as (s1 & E1 & R2 & R3 & _). rewrite E1. cbn [or_parse ok_or mbind run_bind tag content_len content_start].
    apply rest_at_cons in R2 as (_ & Ha & _). rewrite Ha. unfold after. cbn [content_len content_start Z.eqb Pos.eqb negb]. change (len [code]) with 1. cbn [Z.eqb Pos.eqb negb].
    change (len [code]) with 1 in R3. erewrite ltb_rest by eassumption.
    pose proof (is_tlv_len _ _ _ Hrb). rewrite (proj2 (Z.ltb_lt _ _)) by (rewrite buf_app; lia).
    edestruct (read_tlv_at _ _ _ _ _ _ Hrb R3) as (s2 & E2 & R4 & _). rewrite E2. cbn [or_parse ok_or mbind run_bind tag content_len content_start Z.eqb Pos.eqb].
    edestruct (read_seq_at _ _ _ _ _ Hrs R4) as (s3 & E3 & R5 & _). rewrite E3. cbn [or_parse ok_or mbind run_bind content_start]. rewrite <- app_assoc in R5.
    edestruct (read_tlv_at _ _ _ _ _ _ Hoid R5) as (s4 & E4 & _ & R6 & C4). rewrite E4. cbn [or_parse ok_or mbind run_bind tag content_len content_start Z.eqb Pos.eqb negb].
    unfold content. cbn [content_len content_start]. rewrite C4, bool_decide_eq_true_2 by done.
    edestruct (read_tlv_at _ _ _ _ _ _ Hob R6) as (s5 & E5 & _ & _ & C5). rewrite E5. cbn [or_parse ok_or mbind run_bind tag content_len content_start Z.eqb Pos.eqb negb].
    rewrite C5. by rewrite (read_basic l b Hb).
Qed.

(** The verdict on the first response of a list. *)
Definition verdict (code : Z) (l : option (list SingleResponse)) (now : Z) : result OcspError OcspStatus :=
  if code =? 0 then
    match l with
    | None => Err NotBasic
    | Some [] => Err NoSingleResponses
    | Some (s :: _) =>
      if now <? this_update s then Err (NotYetValid (this_update s) now)
      else match next_update s with Some n => if n <? now then Err (Stale n now) else Ok (status s) | None => Ok (status s) end
    end
  else Err (ResponderError code).

(** a well-formed OCSP response, of any certificate, in any admissible encoding
    of its lengths, and with times in the years 1970 to 9999, is read back: the
    verdict is the status of its first entry if the time lies in the window of
    that entry, and the error that says why not otherwise. *)
Theorem ocsp_reads_response code l w now (H : response_form code l w) : parse_response w now = Done (verdict code l now).
Proof.
  unfold parse_response, verdict. rewrite (read_response _ _ _ H). cbn [mbind run_bind response_status basic]. destruct (code =? 0); [|done]. cbn [negb].
  destruct l as [[|s l]|]; [done| |done]. cbn [fmap option_fmap option_map ok_or mbind run_bind single_responses head]. destruct (now <? this_update s); [done|].
  destruct (next_update s); [|done]. by case_match.
Qed.

(** ** The reader returns *)

Lemma read_tlv_bounds buf pos t : is_bytes buf -> 0 <= pos -> read_tlv buf pos = Some t -> pos + 2 <= content_start t /\ 0 <= content_len t /\ after t <= len buf.
Proof.
  intros Hb Hp. unfold read_tlv, read_length. destruct (Z.leb_spec (len buf) pos); [done|]. destruct (Z.leb_spec (len buf) (pos + 1)); [done|].
  assert (forall i, 0 <= at_ buf i < 256) as Hat.
  { intros i. unfold at_. rewrite nth_lookup. destruct (buf !! Z.to_nat i) as [c|] eqn:E; [|cbn; lia]. cbn. by apply (Forall_lookup_1 _ _ _ _ Hb E). }
  pose proof (Hat (pos + 1)). destruct (Z.ltb_spec (at_ buf (pos + 1)) 0x80).
  - cbn [mbind option_bind]. destruct (Z.ltb_spec (len buf) (pos + 1 + 1 + at_ buf (pos + 1))); [done|]. intros <-%Some_inj. unfold after. cbn [content_start content_len]. lia.
  - set (n := Z.land _ _). destruct (Z.eqb_spec n 0); [done|]. destruct (Z.ltb_spec 4 n); [done|]. destruct (Z.leb_spec (len buf) (pos + 1 + n)); [done|]. cbn [orb mbind option_bind].
    assert (0 <= n) by (apply Z.land_nonneg; lia). assert (is_bytes (slice buf (pos + 1 + 1) n)) as Hs by (apply Forall_take, Forall_drop, Hb).
    rewrite fold_be by done. pose proof (of_be_bound _ Hs). set (m := 0 * _ + _). destruct (Z.ltb_spec (len buf) (pos + 1 + (1 + n) + m)); [done|]. intros <-%Some_inj.
    unfold after. cbn [content_start content_len]. lia.
Qed.

Lemma field_returns core a b parse what : field core a b parse what <> Loops.
Proof. unfold field. by case_match. Qed.
Lemma time_returns bytes : parse_generalized_time bytes <> Loops.
Proof. unfold parse_generalized_time, time_fields. do 3 (case_match; [done|]). repeat (apply Bridges.bind_returns; [apply field_returns|intros ? _]). done. Qed.
Lemma single_returns der : parse_single_response der <> Loops.
Proof. unfold parse_single_response. repeat first [done | apply time_returns | apply Bridges.bind_returns; [|intros ? _] | unfold cert_status; case_match]. Qed.

Lemma loop_returns fuel der q qend : is_bytes der -> 0 <= q -> (len der - q <= Z.of_nat fuel) -> qend <= len der -> single_loop fuel der q qend <> Loops.
Proof.
  intros Hb. revert q. induction fuel as [|fuel IH]; intros q Hq Hf He; cbn [single_loop]; destruct (Z.ltb_spec q qend); try done; [lia|].
  apply Bridges.bind_returns; [done|]. intros sr Hsr. apply Bridges.bind_returns; [apply single_returns|]. intros s _. apply Bridges.bind_returns; [|done].
  unfold or_parse, read_seq in Hsr. destruct (read_tlv der q) as [t|] eqn:E; [|done]. cbn [mbind option_bind] in Hsr. destruct (tag t =? 48); [|done]. injection Hsr as ->.
  apply read_tlv_bounds in E as (? & ? & Ha); [|done..]. unfold after in *. apply IH; lia.
Qed.

Lemma read_seq_tlv buf pos t what : or_parse (read_seq buf pos) what = Done (Ok t) -> read_tlv buf pos = Some t.
Proof. unfold or_parse, read_seq. destruct (read_tlv buf pos) as [u|]; [|done]. cbn [mbind option_bind]. destruct (_ =? _); [|done]. by intros [= ->]. Qed.
Lemma read_tlv_some buf pos t what : or_parse (read_tlv buf pos) what = Done (Ok t) -> read_tlv buf pos = Some t.
Proof. unfold or_parse. destruct (read_tlv buf pos); [|done]. by intros [= ->]. Qed.
Lemma skip_bounds present der p what q : is_bytes der -> 0 <= p -> skip present der p what = Done (Ok q) -> 0 <= q.
Proof.
  intros Hb Hp. unfold skip. destruct present; [|by intros [= <-]]. unfold or_parse. destruct (read_tlv der p) as [t|] eqn:E; [|done]. cbn. intros [= <-].
  apply read_tlv_bounds in E as (? & ? & ?); [|done..]. unfold after in *. lia.
Qed.
Lemma skip_returns present der p what : skip present der p what <> Loops.
Proof. unfold skip. case_match; [|done]. apply Bridges.bind_returns; [done|]. by intros. Qed.

Lemma basic_returns der : is_bytes der -> parse_basic_response der <> Loops.
Proof.
  intros Hb. unfold parse_basic_response. apply Bridges.bind_returns; [done|]. intros b Eb%read_seq_tlv. apply read_tlv_bounds in Eb as (Eb & _); [|done|lia].
  apply Bridges.bind_returns; [done|]. intros tbs Et%read_seq_tlv. apply read_tlv_bounds in Et as (Et & _); [|done|lia].
  apply Bridges.bind_returns; [apply skip_returns|]. intros p1 Ep1. apply skip_bounds in Ep1; [|done|lia]. apply Bridges.bind_returns; [apply skip_returns|]. intros p2 Ep2. apply skip_bounds in Ep2; [|done|lia].
  apply Bridges.bind_returns; [apply skip_returns|]. intros p3 Ep3. apply skip_bounds in Ep3; [|done|lia]. apply Bridges.bind_returns; [done|]. intros rs Er%read_seq_tlv.
  apply read_tlv_bounds in Er as (? & ? & ?); [|done|lia]. apply Bridges.bind_returns; [|done]. apply loop_returns; [done|lia|unfold len; lia|done].
Qed.

(** reading an OCSP response ends on every input, however its lengths are forged. *)
Theorem ocsp_terminates der now (Hb : is_bytes der) : parse_response der now <> Loops.
Proof.
  assert (parse_ocsp_response der <> Loops) as H.
  { unfold parse_ocsp_response. apply Bridges.bind_returns; [done|]. intros outer _. apply Bridges.bind_returns; [done|]. intros st _. do 3 (case_match; [done||idtac|try done]).
    apply Bridges.bind_returns; [done|]. intros rb _. case_match; [|done]. apply Bridges.bind_returns; [done|]. intros rs _. apply Bridges.bind_returns; [done|]. intros oid _. case_match; [done|].
    case_bool_decide; [|done]. apply Bridges.bind_returns; [done|]. intros oc _. case_match; [done|]. apply Bridges.bind_returns; [|done]. apply basic_returns, Forall_take, Forall_drop, Hb. }
  unfold parse_response. apply Bridges.bind_returns; [done|]. intros parsed _. case_match; [done|]. apply Bridges.bind_returns; [done|]. intros b _.
  apply Bridges.bind_returns; [done|]. intros s _. repeat case_match; done.
Qed.

(** ** Serial numbers *)

Lemma normalise_cons a b s : normalise_serial (a :: b :: s) = if a =? 0 then normalise_serial (b :: s) else a :: b :: s.
Proof. done. Qed.
Lemma normalise_value s : of_be (normalise_serial s) = of_be s.
Proof.
  induction s as [|a s IH]; [done|]. destruct s as [|b s]; [done|]. rewrite normalise_cons. destruct (Z.eqb_spec a 0) as [->|]; [|done].
  rewrite IH. cbn [of_be]. lia.
Qed.
Lemma normalise_bytes s : is_bytes s -> s <> [] -> is_bytes (normalise_serial s) /\
  exists a r, normalise_serial s = a :: r /\ (r = [] \/ 0 < a).
Proof.
  induction s as [|a s IH]; intros Hb Hn; [done|]. destruct s as [|b s]; [split; [done|]; exists a, []; auto|]. rewrite normalise_cons.
  pose proof (Forall_inv Hb) as Ha. destruct (Z.eqb_spec a 0); [apply IH; [by apply Forall_inv_tail in Hb|done]|]. split; [done|]. exists a, (b :: s).
  split; [done|]. right. unfold is_u8 in Ha. lia.
Qed.
Lemma canonical_length a r b s : is_bytes (a :: r) -> is_bytes (b :: s) -> 0 < a -> of_be (a :: r) = of_be (b :: s) -> (length r <= length s)%nat.
Proof.
  intros H1 H2 Ha E. pose proof (of_be_bound _ H2) as Hs. pose proof (of_be_bound _ (Forall_inv_tail H1)) as Hr. cbn [of_be length] in E, Hs.
  destruct (Nat.le_gt_cases (length r) (length s)) as [|Hl]; [done|]. exfalso.
  assert (256 ^ Z.of_nat (S (length s)) <= 256 ^ Z.of_nat (length r)) by (apply Z.pow_le_mono_r; lia). cbn [of_be] in Hs. nia.
Qed.
Lemma normalise_iff s t : is_bytes s -> is_bytes t -> s <> [] -> t <> [] -> normalise_serial s = normalise_serial t <-> of_be s = of_be t.
Proof.
  intros Hs Ht Ns Nt. split; [intros E; by rewrite <- normalise_value, E, normalise_value|]. rewrite <- (normalise_value s), <- (normalise_value t).
  destruct (normalise_bytes s Hs Ns) as (Bs & a & r & E1 & Ca), (normalise_bytes t Ht Nt) as (Bt & b & u & E2 & Cb). rewrite E1 in *. rewrite E2 in *. intros E.
  assert (length r = length u) as Hl.
  { apply Nat.le_antisymm; [destruct Ca as [->|Ha]; [cbn; lia|exact (canonical_length a r b u Bs Bt Ha E)]|destruct Cb as [->|Hb]; [cbn; lia|exact (canonical_length b u a r Bt Bs Hb (eq_sym E))]]. }
  rewrite <- (be_bytes_of_be _ Bs), <- (be_bytes_of_be _ Bt). cbn [length]. by rewrite E, Hl.
Qed.

(** a serial number is found in a loaded revocation list exactly when the list
    revokes that number, whatever leading zeros either side writes, and the
    answer is the last entry for it. *)
Theorem crl_revoked_iff crl_from_der bytes crl idx serial e (Hc : crl_from_der bytes = Ok crl) (Hi : crl_load crl_from_der bytes = Ok idx)
  (Hs : Forall (fun r => is_bytes (rc_serial r) /\ rc_serial r <> []) (crl_revoked crl)) (Hb : is_bytes serial) (Hn : serial <> []) :
  is_revoked idx serial = Some e <->
  exists before r later, crl_revoked crl = before ++ r :: later /\ of_be (rc_serial r) = of_be serial /\
    Forall (fun r' => of_be (rc_serial r') <> of_be serial) later /\ e = entry_of r.
Proof.
  unfold crl_load in Hi. rewrite Hc in Hi. apply Ok_inj in Hi as <-. unfold is_revoked. cbn [revoked]. revert Hs.
  induction (crl_revoked crl) as [|r l IH] using rev_ind; intros Hs; [split; [done|by intros ([] & ? & ? & ? & _)]|].
  apply Forall_app in Hs as [Hl [[Hr Hr'] _]%Forall_cons]. rewrite foldl_app. cbn [foldl]. specialize (IH Hl).
  destruct (decide (of_be (rc_serial r) = of_be serial)) as [E|E].
  - rewrite (proj2 (normalise_iff _ _ Hb Hr Hn Hr')) by done. rewrite lookup_insert_eq. split.
    + intros <-%Some_inj. exists l, r, []. auto.
    + intros (before & r' & later & Hd & _ & Hf & ->). f_equal. destruct later as [|q later _] using rev_ind.
      * by apply app_inj_tail in Hd as [_ ->].
      * exfalso. rewrite app_comm_cons, app_assoc in Hd. apply app_inj_tail in Hd as [_ <-]. apply Forall_app in Hf as [_ [Hq _]%Forall_cons]. done.
  - rewrite lookup_insert_ne by (cbn; intros Heq; by apply (normalise_iff _ _ Hr Hb Hr' Hn) in Heq). rewrite IH. split.
    + intros (before & r' & later & -> & He & Hf & ->). exists before, r', (later ++ [r]). rewrite <- app_assoc. split; [done|]. split; [done|]. split; [|done].
      apply Forall_app. auto.
    + intros (before & r' & later & Hd & He & Hf & ->). destruct later as [|q later _] using rev_ind.
      * apply app_inj_tail in Hd as [_ <-]. done.
      * rewrite app_comm_cons, app_assoc in Hd. apply app_inj_tail in Hd as [-> <-]. apply Forall_app in Hf as [Hf _]. exists before, r', later. auto.
Qed.

(** ** Examples *)

Definition element (t : Z) (body : list Z) : list Z := if len body <? 128 then t :: len body :: body else t :: 129 :: len body :: body.
Lemma element_tlv t body : len body < 256 -> is_tlv t body (element t body).
Proof.
  intros H. pose proof (buf_nonneg body). unfold element. destruct (Z.ltb_spec (len body) 128).
  - exists [len body]. split; [by left|done].
  - exists [129; len body]. split; [|done]. right. exists 1%nat. split; [lia|]. split; [done|]. cbn [be_bytes]. rewrite Z.div_1_r, Z.mod_small by lia. done.
Qed.
(** A response about the certificate with serial number 7. *)
Definition single1 (this : list Z) : list Z :=
  element 0x30 (element 0x30 (element 0x02 [7]) ++ element 0x80 [] ++ element 0x18 this ++ element 0xa0 (element 0x18 (time_bytes 1800000000)) ++ []).
Definition basic1 (this : list Z) : list Z :=
  element 0x30 (element 0x30 ([] ++ element 0xa2 [1; 2] ++ element 0x18 [3] ++ element 0x30 (single1 this ++ []) ++ []) ++ []).
Definition response1 (this : list Z) : list Z :=
  element 0x30 (element 0x0a [0] ++ element 0xa0 (element 0x30 (element 0x06 ID_PKIX_OCSP_BASIC ++ element 0x04 (basic1 this)))).
Definition entry1 : SingleResponse := mk_SingleResponse Good 1700000000 (Some 1800000000).

Lemma response1_form : response_form 0 (Some [entry1]) (response1 (time_bytes 1700000000)).
Proof.
  assert (forall t body, (len body <? 256) = true -> is_tlv t body (element t body)) as Ht by (intros t body H; apply element_tlv; lia).
  set (T := time_bytes 1700000000). set (n := element 0x18 (time_bytes 1800000000)).
  apply (response_bytes 0 [entry1] (basic1 T) (element 0x04 (basic1 T)) (element 0x06 ID_PKIX_OCSP_BASIC) (element 0x30 (element 0x06 ID_PKIX_OCSP_BASIC ++ element 0x04 (basic1 T)))
    (element 0xa0 (element 0x30 (element 0x06 ID_PKIX_OCSP_BASIC ++ element 0x04 (basic1 T)))) (element 0x0a [0])); [|apply Ht; vm_compute; reflexivity..].
  apply (basic_bytes _ _ [] 0xa2 [1; 2] (element 0xa2 [1; 2]) [3] (element 0x18 [3]) (single1 T ++ []) (element 0x30 (single1 T ++ [])) []
    (element 0x30 ([] ++ element 0xa2 [1; 2] ++ element 0x18 [3] ++ element 0x30 (single1 T ++ []) ++ [])) []); [by left|discriminate| | | | | |];
    [apply Ht; vm_compute; reflexivity..| |apply Ht; vm_compute; reflexivity|apply Ht; vm_compute; reflexivity|apply Ht; vm_compute; reflexivity].
  constructor; [|constructor].
  apply (single_bytes _ _ (element 0x02 [7]) (element 0x30 (element 0x02 [7])) [] (element 0x80 []) (element 0x18 T) (element 0xa0 n) []);
    [apply Ht; vm_compute; reflexivity|apply Ht; vm_compute; reflexivity| |apply Ht; vm_compute; reflexivity| |discriminate|apply Ht; vm_compute; reflexivity].
  - unfold Clock.in_range. cbn [this_update entry1]. lia.
  - apply (next_some _ n); [unfold Clock.in_range; lia|apply Ht; vm_compute; reflexivity..].
Qed.
Lemma ocsp_reads_response_witness : parse_response (response1 (time_bytes 1700000000)) 1750000000 = Done (Ok Good) /\
  parse_response (response1 (time_bytes 1700000000)) 1800000001 = Done (Err (Stale 1800000000 1800000001)).
Proof. split; [exact (ocsp_reads_response 0 _ _ 1750000000 response1_form)|exact (ocsp_reads_response 0 _ _ 1800000001 response1_form)]. Defined.
Lemma ocsp_terminates_witness : parse_response [0x30; 0x84; 255; 255; 255; 255] 0 <> Loops.
Proof. apply ocsp_terminates. repeat constructor; done. Defined.

(** The certificate asked about plays no part: the answer for serial number 7
    is taken for serial number 9. *)
Example ocsp_other_certificate :
  query (fun _ _ _ => Ok (response1 (time_bytes 1700000000))) (mk_X509Cert [] "CN=other" [9]) (mk_X509Cert [] "CN=ca" [1]) "http://ocsp" 1750000000 = Some (Ok Good).
Proof. vm_compute. reflexivity. Qed.

(** A time with a character of two bytes across the first field boundary stops
    the process. *)
Definition bad_time : list Z := [50; 48; 50; 0xc3; 0xa9; 48; 48; 48; 48; 48; 48; 48; 48; 48; 48; 90].
Example ocsp_time_panics : parse_response (response1 bad_time) 0 = Panics.
Proof. vm_compute. reflexivity. Qed.

Definition crl1 : CertificateRevocationList :=
  mk_CertificateRevocationList "CN=ca" 0 None [mk_RevokedCertificate [0; 200] 5 []; mk_RevokedCertificate [0; 0; 200] 6 [OtherCrlExtension; ReasonCode 1]].
Lemma crl_revoked_iff_witness : exists idx, crl_load (fun _ => Ok crl1) [] = Ok idx /\ is_revoked idx [200] = Some (mk_RevocationEntry [200] 6 (Some 1)).
Proof.
  eexists. split; [reflexivity|]. apply (crl_revoked_iff (fun _ => Ok crl1) [] crl1 _ [200]); [reflexivity|reflexivity|repeat constructor; done|repeat constructor; done|done|].
  exists [mk_RevokedCertificate [0; 200] 5 []], (mk_RevokedCertificate [0; 0; 200] 6 [OtherCrlExtension; ReasonCode 1]), []. split; [reflexivity|]. split; [reflexivity|]. split; [constructor|reflexivity].
Defined.

(** The key of an exporter depends only on the secret and the context put
    together. *)
Example exporter_context_shift hmac expand label n : derive hmac expand [1] label [2; 3] n = derive hmac expand [1; 2] label [3] n.
Proof. reflexivity. Qed.

End Ocsp.
