(* ===== verification/Mesh.v ===== *)
(** * Mesh: identities from SPIFFE and from service-mesh sidecars
      ([bridge_spiffe.rs], [bridge_service_mesh.rs])

    - SPIFFE ids and service actors;
    - the [X-Forwarded-Client-Cert] header of Envoy, a [&str] being the list of
      its characters;
    - Istio principals, from a token or from a protobuf message, and Linkerd
      client ids.

    serde_json and the [{:?}] form of texts are arguments.

    - [xfcc_roundtrip]: headers in the documented form are read back;
    - [istio_message_exact]: the principal of a message is its first SPIFFE text;
    - [istio_header_panics]: a header that stops the process;
    - [spiffe_roundtrip]: SPIFFE ids and service actors correspond. *)

From S2P Require Import Prelude Utf8 Common Json Clock Base64 ActorId Bridges Jws.
Import Bridges(BridgeError(..), run(..), run_bind).

#[local] Open Scope string_scope.
#[local] Open Scope list_scope.
#[local] Open Scope Z_scope.

Module Mesh.

(** ** SPIFFE ids *)

Definition is_dns_like (s : string) : bool :=
  match bytes_of_str s with
  | [] => false
  | first :: rest =>
    if negb (ActorId.is_alnum first) then false
    else
      match rest with
      | [] => true
      | _ => ActorId.is_alnum (List.last rest 0) && forallb (fun b => ActorId.is_alnum b || (b =? 46) || (b =? 45)) (removelast rest)
      end
  end.
Record ParsedSpiffeId := mk_ParsedSpiffeId { trust_domain : string; path : string; raw : string }.

Definition parse_spiffe_id (debug : string -> string) (id : string) : result BridgeError ParsedSpiffeId :=
  if str_is_empty id then Err (InvalidInput "empty SPIFFE ID")
  else
    rest ← ok_or (strip_prefix "spiffe://" id) (InvalidInput ("SPIFFE ID must start with spiffe://, got " +:+ debug id));
    let '(trust_domain, path) := unwrap_or (ActorId.split_first "/" rest) (rest, "") in
    if str_is_empty trust_domain then Err (InvalidInput "SPIFFE ID has no trust domain")
    else if str_is_empty path then Err (InvalidInput "SPIFFE ID has no path")
    else if negb (is_dns_like trust_domain) then Err (InvalidInput ("SPIFFE trust domain is not DNS-like: " +:+ trust_domain))
    else Ok (mk_ParsedSpiffeId trust_domain path id).
Definition spiffe_to_actor_id (debug : string -> string) (id : string) : result BridgeError string :=
  parsed ← parse_spiffe_id debug id; Ok ("tf:actor:service:" +:+ trust_domain parsed +:+ "/" +:+ path parsed).

Definition actor_id_to_spiffe (actor_id : string) : result BridgeError string :=
  let malformed := InvalidInput ("malformed actor URI: " +:+ actor_id) in
  rest ← ok_or (strip_prefix "tf:actor:" actor_id) malformed;
  '(type_segment, path_segment) ← ok_or (ActorId.split_first ":" rest) malformed;
  if str_is_empty type_segment || str_is_empty path_segment || ActorId.has "010" path_segment then Err malformed
  else if negb (type_segment =? "service")%string then Err (Unsupported ("SPIFFE bridge only projects service actors, got " +:+ type_segment))
  else
    '(trust_domain, tail) ← ok_or (ActorId.split_first "/" path_segment)
      (InvalidInput ("service actor path must be <trust-domain>/<path>, got " +:+ path_segment));
    Ok ("spiffe://" +:+ trust_domain +:+ "/" +:+ tail).

(** ** Envoy *)

Record XfccEntry := mk_XfccEntry { uri : option string; hash : option string; by_ : option string; subject : option string }.
Record ProofEventStub := mk_ProofEventStub { event_type : string; payload : json }.
Record ServiceMeshBridgeConfig := mk_ServiceMeshBridgeConfig { bridge_id : string; cfg_trust_domain : string }.

(** The loop that [split_xfcc_entries] and [split_xfcc_pairs] share: pieces
    between separators outside quotes go to [flush]. *)
Section scan.
Context {A : Type} (sep : Z) (flush : list Z -> A -> result BridgeError A) (mismatched : BridgeError).
Fixpoint scan (chars : list Z) (in_quotes : bool) (current : list Z) (out : A) : result BridgeError A :=
  match chars with
  | [] => if in_quotes then Err mismatched else flush current out
  | c :: rest =>
    if (c =? 92) && in_quotes then
      match rest with next :: rest' => scan rest' in_quotes (current ++ [c; next]) out | [] => scan rest in_quotes (current ++ [c]) out end
    else if c =? 34 then scan rest (negb in_quotes) (current ++ [c]) out
    else if (c =? sep) && negb in_quotes then out ← flush current out; scan rest in_quotes [] out
    else scan rest in_quotes (current ++ [c]) out
  end.
End scan.

Definition push_entry (current : list Z) (out : list (list Z)) : result BridgeError (list (list Z)) :=
  match trim current with [] => Ok out | trimmed => Ok (out ++ [trimmed]) end.
Definition split_xfcc_entries (header : list Z) : result BridgeError (list (list Z)) :=
  scan 44 push_entry (InvalidInput "XFCC header has mismatched quotes") header false [] [].

(** The characters between the quotes. *)
Fixpoint unescape (inner : list Z) : result BridgeError (list Z) :=
  match inner with
  | [] => Ok []
  | c :: rest =>
    if c =? 92 then
      match rest with
      | [] => Err (InvalidInput "XFCC value ends with dangling backslash")
      | esc :: rest' => out ← unescape rest'; Ok (if (esc =? 34) || (esc =? 92) then esc :: out else 92 :: esc :: out)
      end
    else if c =? 34 then Err (InvalidInput "XFCC value contains unescaped quote")
    else out ← unescape rest; Ok (c :: out)
  end.
Definition unquote_xfcc_value (raw : list Z) : result BridgeError (list Z) :=
  if (2 <=? length raw)%nat && bool_decide (head raw = Some 34) && bool_decide (last raw = Some 34) then unescape (removelast (tail raw))
  else if bool_decide (34 ∈ raw) then Err (InvalidInput "XFCC value has mismatched quotes")
  else Ok raw.

(** [raw.find('=')] and the texts around it. *)
Fixpoint split_eq (l : list Z) : option (list Z * list Z) :=
  match l with [] => None | c :: r => if c =? 61 then Some ([], r) else '(a, b) ← split_eq r; Some (c :: a, b) end.
Definition push_pair (current : list Z) (out : list (list Z * list Z)) : result BridgeError (list (list Z * list Z)) :=
  match trim current with
  | [] => Ok out
  | raw =>
    '(k, v) ← ok_or (split_eq raw) (InvalidInput ("XFCC pair missing '=': " +:+ str_of_chars raw));
    match trim k with
    | [] => Err (InvalidInput "XFCC pair has empty key")
    | key => value ← unquote_xfcc_value (trim v); Ok (out ++ [(key, value)])
    end
  end.
Definition split_xfcc_pairs (entry : list Z) : result BridgeError (list (list Z * list Z)) :=
  scan 59 push_pair (InvalidInput "XFCC entry has mismatched quotes") entry false [] [].

Definition entry_field (acc : XfccEntry * list string) (kv : list Z * list Z) : XfccEntry * list string :=
  let '(e, dns) := acc in
  let k := ActorId.to_ascii_lowercase (str_of_chars (fst kv)) in let v := str_of_chars (snd kv) in
  if (k =? "uri")%string then (mk_XfccEntry (Some v) (hash e) (by_ e) (subject e), dns)
  else if (k =? "hash")%string then (mk_XfccEntry (uri e) (Some v) (by_ e) (subject e), dns)
  else if (k =? "by")%string then (mk_XfccEntry (uri e) (hash e) (Some v) (subject e), dns)
  else if (k =? "subject")%string then (mk_XfccEntry (uri e) (hash e) (by_ e) (Some v), dns)
  else if (k =? "dns")%string then (e, dns ++ [v])
  else (e, dns).
Definition parse_xfcc_entry (entry : list Z) : result BridgeError XfccEntry :=
  pairs ← split_xfcc_pairs entry;
  let '(e, dns) := foldl entry_field (mk_XfccEntry None None None None, []) pairs in
  Ok match subject e, dns with None, _ :: _ => mk_XfccEntry (uri e) (hash e) (by_ e) (Some ("dns:" +:+ str_join "," dns)) | _, _ => e end.

Fixpoint parse_entries (raw_entries : list (list Z)) : result BridgeError (list XfccEntry) :=
  match raw_entries with [] => Ok [] | raw :: rest => e ← parse_xfcc_entry raw; es ← parse_entries rest; Ok (e :: es) end.
Definition identified (e : XfccEntry) : bool :=
  match uri e, subject e, by_ e with None, None, None => false | _, _, _ => true end.
Fixpoint check_entries (i : nat) (es : list XfccEntry) : result BridgeError unit :=
  match es with
  | [] => Ok tt
  | e :: es => if identified e then check_entries (S i) es else Err (InvalidInput ("XFCC entry #" +:+ pretty i +:+ " has no URI/By/Subject/DNS fields"))
  end.
Definition parse_xfcc (header : list Z) : result BridgeError (list XfccEntry) :=
  match trim header with
  | [] => Err (InvalidInput "empty XFCC header")
  | header =>
    raw_entries ← split_xfcc_entries header;
    out ← parse_entries raw_entries;
    match out with [] => Err (InvalidInput "XFCC header parsed to zero entries") | _ => _ ← check_entries 0 out; Ok out end
  end.

(** ** Istio *)

Record IstioPrincipal := mk_IstioPrincipal { spiffe_id : string; namespace : string }.

(** [read_varint(bytes)]: the value, of 64 bits, and the bytes read. *)
Fixpoint varint_loop (i : Z) (result : Z) (bytes : list Z) : option (Z * Z) :=
  match bytes with
  | [] => None
  | b :: rest =>
    if 10 <=? i then None
    else
      let result := Z.lor result (Clock.as_u64 (Z.shiftl (Z.land b 0x7f) (7 * i))) in
      if Z.land b 0x80 =? 0 then Some (result, i + 1) else varint_loop (i + 1) result rest
  end.
Definition read_varint (bytes : list Z) : option (Z * Z) := varint_loop 0 0 bytes.

Definition len (l : list Z) : Z := Z.of_nat (length l).
(** [bytes[i..]]. *)
Definition from (bytes : list Z) (i : Z) : list Z := drop (Z.to_nat i) bytes.

(** One round of the loop: the next position, and the text of a
    length-delimited field.  The sum [i + len] wraps around. *)
Definition read_field (bytes : list Z) (i : Z) : run BridgeError (Z * option (list Z)) :=
  '(tag, n) ← Done (ok_or (read_varint (from bytes i)) (InvalidInput "Istio proto: bad varint tag"));
  let i := i + n in
  let wire := Z.land tag 7 in
  if wire =? 0 then
    '(_, n) ← Done (ok_or (read_varint (from bytes i)) (InvalidInput "Istio proto: bad varint")); Done (Ok (i + n, None))
  else if wire =? 1 then
    if len bytes <? i + 8 then Done (Err (InvalidInput "Istio proto: truncated fixed64")) else Done (Ok (i + 8, None))
  else if wire =? 2 then
    '(m, n) ← Done (ok_or (read_varint (from bytes i)) (InvalidInput "Istio proto: bad length-delim varint"));
    let i := i + n in
    let end_ := Clock.as_u64 (i + m) in
    if len bytes <? end_ then Done (Err (InvalidInput "Istio proto: truncated length-delim"))
    else if end_ <? i then Panics
    else Done (Ok (end_, Some (take (Z.to_nat m) (from bytes i))))
  else if wire =? 5 then
    if len bytes <? i + 4 then Done (Err (InvalidInput "Istio proto: truncated fixed32")) else Done (Ok (i + 4, None))
  else Done (Err (InvalidInput ("Istio proto: unknown wire type " +:+ pretty wire))).

Definition is_spiffe (payload : list Z) : bool := valid_utf8 payload && String.prefix "spiffe://" (str_of_bytes payload).
Definition better (best : option string) (payload : option (list Z)) : option string :=
  match best, payload with
  | None, Some p => if is_spiffe p then Some (str_of_bytes p) else None
  | _, _ => best
  end.
Fixpoint proto_loop (fuel : nat) (bytes : list Z) (i : Z) (best : option string) : run BridgeError (option string) :=
  if i <? len bytes then
    match fuel with
    | O => Loops
    | S fuel => '(i, payload) ← read_field bytes i; proto_loop fuel bytes i (better best payload)
    end
  else Done (Ok best).
Definition decode_istio_protobuf_principal (bytes : list Z) : run BridgeError string :=
  best ← proto_loop (length bytes) bytes 0 None;
  Done (ok_or best (InvalidInput "Istio proto: no spiffe:// principal field present")).

Definition decode_base64_either (s : string) : option (list Z) :=
  match Base64.decode Base64.STANDARD (bytes_of_str s) with
  | Ok v => Some v
  | Err _ => match Base64.decode Base64.URL_SAFE_NO_PAD (bytes_of_str s) with Ok v => Some v | Err _ => None end
  end.

Fixpoint find_namespace (segments : list string) : string :=
  match segments with
  | a :: ((b :: _) as rest) => if (a =? "ns")%string then b else find_namespace rest
  | _ => ""
  end.

Section istio.
Variable debug : string -> string.
Variable from_slice : list Z -> option json.
Definition spiffe_to_principal (spiffe : string) : result BridgeError IstioPrincipal :=
  parsed ← parse_spiffe_id debug spiffe;
  let namespace := find_namespace (Jws.split "/" (path parsed)) in
  if str_is_empty namespace then Err (InvalidInput ("Istio SPIFFE id has no /ns/<namespace>/ segment: " +:+ spiffe))
  else Ok (mk_IstioPrincipal spiffe namespace).

Definition is_istio_issuer (iss : string) : bool :=
  (iss =? "https://kubernetes.default.svc.cluster.local")%string || (iss =? "kubernetes/serviceaccount")%string || (iss =? "istio-ca")%string
  || (iss =? "istiod.istio-system.svc")%string || String.prefix "https://kubernetes.default.svc" iss || String.prefix "istiod." iss.

Definition try_parse_istio_jwt (header : string) : result BridgeError (option IstioPrincipal) :=
  let header := trim_str (unwrap_or (strip_prefix "Bearer " header) header) in
  match Jws.split "." header with
  | [_; p; _] =>
    match Base64.decode Base64.URL_SAFE_NO_PAD (bytes_of_str p) with
    | Err _ => Ok None
    | Ok payload_bytes =>
      match from_slice payload_bytes with
      | None => Ok None
      | Some payload =>
        let issuer := unwrap_or (jget "iss" payload ≫= as_str) "" in
        if negb (is_istio_issuer issuer) then Err (Rejected ("Istio JWT has non-Istio issuer: " +:+ issuer))
        else
          spiffe ← ok_or (opt_or (jget "sub" payload ≫= as_str) (jget "spiffe" payload ≫= as_str)) (InvalidInput "Istio JWT missing sub/spiffe claim");
          principal ← spiffe_to_principal spiffe; Ok (Some principal)
      end
    end
  | _ => Ok None
  end.
Definition parse_istio_attributes (header : string) : run BridgeError IstioPrincipal :=
  let header := trim_str header in
  if str_is_empty header then Done (Err (InvalidInput "empty Istio header"))
  else
    jwt ← Done (try_parse_istio_jwt header);
    match jwt with
    | Some p => Done (Ok p)
    | None =>
      bytes ← Done (ok_or (decode_base64_either header) (InvalidInput "Istio header is not base64 or a JWT"));
      principal ← decode_istio_protobuf_principal bytes;
      Done (spiffe_to_principal principal)
    end.

(** ** Linkerd *)

Record LinkerdClient := mk_LinkerdClient { client_spiffe_id : string }.
(** [s.find(pat)] and the texts around it; [s.strip_suffix(suf)]. *)
Fixpoint split_str (pat s : string) : option (string * string) :=
  match strip_prefix pat s with
  | Some post => Some ("", post)
  | None => match s with EmptyString => None | String c s => '(a, b) ← split_str pat s; Some (String c a, b) end
  end.
Fixpoint strip_suffix (suf s : string) : option string :=
  if (s =? suf)%string then Some "" else match s with EmptyString => None | String c s => r ← strip_suffix suf s; Some (String c r) end.

Definition parse_linkerd_client_id (header : string) : result BridgeError LinkerdClient :=
  let header := trim_str header in
  if str_is_empty header then Err (InvalidInput "empty l5d-client-id header")
  else if String.prefix "spiffe://" header then _ ← parse_spiffe_id debug header; Ok (mk_LinkerdClient header)
  else if bool_decide (is_Some (split_str "://" header)) then Err (InvalidInput ("l5d-client-id has non-spiffe scheme: " +:+ header))
  else
    '(pre, post) ← ok_or (split_str ".serviceaccount.identity." header)
      (InvalidInput ("l5d-client-id has no `.serviceaccount.identity.` segment: " +:+ header));
    cluster ← ok_or (strip_suffix ".cluster.local" post) (InvalidInput ("l5d-client-id missing `.cluster.local` suffix: " +:+ header));
    '(sa, ns) ← ok_or (ActorId.split_first "." pre) (InvalidInput ("l5d-client-id missing `<sa>.<ns>`: " +:+ header));
    if str_is_empty sa || str_is_empty ns || str_is_empty cluster then Err (InvalidInput ("l5d-client-id has empty sa/ns/cluster: " +:+ header))
    else
      let synthetic := "spiffe://" +:+ cluster +:+ "/ns/" +:+ ns +:+ "/sa/" +:+ sa in
      _ ← parse_spiffe_id debug synthetic; Ok (mk_LinkerdClient synthetic).

(** ** Proof events *)

Definition jopt (o : option string) : json := match o with Some s => JString s | None => JNull end.
Definition envoy_accepted_event (e : XfccEntry) : ProofEventStub :=
  mk_ProofEventStub "bridge.service_mesh.envoy.accepted"
    (JObject [("uri", jopt (uri e)); ("by", jopt (by_ e)); ("hash", jopt (hash e)); ("subject", jopt (subject e))]).
Definition istio_accepted_event (p : IstioPrincipal) : ProofEventStub :=
  mk_ProofEventStub "bridge.service_mesh.istio.accepted" (JObject [("spiffe_id", JString (spiffe_id p)); ("namespace", JString (namespace p))]).
Definition linkerd_accepted_event (c : LinkerdClient) : ProofEventStub :=
  mk_ProofEventStub "bridge.service_mesh.linkerd.accepted" (JObject [("spiffe_id", JString (client_spiffe_id c))]).

(** ** The bridge *)

Definition identity_from (now : Z) (actor : string) (federation : option string) : Bridges.ActorIdentity :=
  Bridges.mk_ActorIdentity actor AService None [Bridges.mk_PublicKey "service-mesh" "ed25519" "AA==" Bridges.Signing None None] [T3]
    [Bridges.mk_AuthorityRoot Bridges.Federation (unwrap_or federation "service-mesh")] None (Clock.now_iso8601 now) None None None.
Definition accept_envoy (now : Z) (entry : XfccEntry) : result BridgeError Bridges.ActorIdentity :=
  u ← ok_or (uri entry) (InvalidInput "XFCC entry needs URI in this Rust path");
  if negb (String.prefix "spiffe://" u) then Err (Rejected "Rust XFCC bridge only accepts spiffe:// URIs")
  else actor ← spiffe_to_actor_id debug u; Ok (identity_from now actor (by_ entry)).
Definition accept_istio (now : Z) (id : string) : result BridgeError Bridges.ActorIdentity :=
  if negb (String.prefix "spiffe://" id) then Err (InvalidInput "Istio context.spiffe_id must be a spiffe:// URI")
  else actor ← spiffe_to_actor_id debug id; Ok (identity_from now actor (Some "istio")).
Definition accept_linkerd (now : Z) (client_id : string) : result BridgeError Bridges.ActorIdentity :=
  if String.prefix "spiffe://" client_id then actor ← spiffe_to_actor_id debug client_id; Ok (identity_from now actor (Some "linkerd"))
  else
    let refused := InvalidInput ("not a linkerd client_id: " +:+ client_id) in
    '(pre, post) ← ok_or (split_str ".serviceaccount.identity." client_id) refused;
    cluster_local ← ok_or (strip_suffix ".cluster.local" post) refused;
    '(sa, ns) ← ok_or (ActorId.split_first "." pre) refused;
    Ok (identity_from now ("tf:actor:service:" +:+ cluster_local +:+ "/" +:+ ns +:+ "/" +:+ sa) (Some "linkerd")).
End istio.

(** ** Headers as they are documented *)

Definition escape (v : list Z) : list Z := mjoin ((fun c => if (c =? 34) || (c =? 92) then [92; c] else [c]) <$> v).
Lemma escape_cons c v : escape (c :: v) = (if (c =? 34) || (c =? 92) then [92; c] else [c]) ++ escape v.
Proof. done. Qed.
Definition quote (v : list Z) : list Z := 34 :: escape v ++ [34].
Definition pair_text (kv : string * string) : list Z := chars (fst kv) ++ 61 :: quote (chars (snd kv)).
Definition pairs_of (e : XfccEntry) : list (string * string) :=
  (match by_ e with Some v => [("By", v)] | None => [] end) ++ (match hash e with Some v => [("Hash", v)] | None => [] end)
  ++ (match subject e with Some v => [("Subject", v)] | None => [] end) ++ (match uri e with Some v => [("URI", v)] | None => [] end).
Fixpoint sep_join (sep : Z) (l : list (list Z)) : list Z :=
  match l with [] => [] | [p] => p | p :: ps => p ++ sep :: sep_join sep ps end.
Definition entry_text (e : XfccEntry) : list Z := sep_join 59 (pair_text <$> pairs_of e).
Definition header_text (es : list XfccEntry) : list Z := sep_join 44 (entry_text <$> es).

(** Texts the scanner passes over whole. *)
Definition whole (sep : Z) (e : list Z) : Prop :=
  forall A flush m rest cur (out : A), scan sep flush m (e ++ rest) false cur out = scan sep flush m rest false (cur ++ e) out.
Lemma whole_app sep a b : whole sep a -> whole sep b -> whole sep (a ++ b).
Proof. intros Ha Hb A flush m rest cur out. by rewrite <- app_assoc, Ha, Hb, <- app_assoc. Qed.
Lemma whole_nil sep : whole sep [].
Proof. intros A flush m rest cur out. by rewrite app_nil_r. Qed.
Lemma whole_char sep c : c <> 34 -> c <> sep -> whole sep [c].
Proof.
  intros H1 H2 A flush m rest cur out. cbn [app scan]. rewrite andb_false_r, (proj2 (Z.eqb_neq c 34)), (proj2 (Z.eqb_neq c sep)) by done. done.
Qed.
Lemma whole_plain sep l : forallb (fun c => negb (c =? 34) && negb (c =? sep)) l = true -> whole sep l.
Proof.
  induction l as [|c l IH]; intros H; [apply whole_nil|]. cbn [forallb] in H. apply andb_prop in H as [[H1 H2]%andb_prop H].
  apply (whole_app sep [c]); [apply whole_char; lia|by apply IH].
Qed.
Lemma scan_escaped {A} sep flush m v rest cur (out : A) : scan sep flush m (escape v ++ 34 :: rest) true cur out = scan sep flush m rest false (cur ++ escape v ++ [34]) out.
Proof.
  revert cur. induction v as [|c v IH]; intros cur; [done|]. rewrite escape_cons.
  destruct (Z.eqb_spec c 34) as [->|H1]; [|destruct (Z.eqb_spec c 92) as [->|H2]]; cbn [orb app].
  - cbn [scan Z.eqb Pos.eqb andb]. rewrite IH. by rewrite <- app_assoc.
  - cbn [scan Z.eqb Pos.eqb andb]. rewrite IH. by rewrite <- app_assoc.
  - cbn [scan]. rewrite (proj2 (Z.eqb_neq c 92)), (proj2 (Z.eqb_neq c 34)), andb_false_r by done. cbn [andb]. rewrite IH. by rewrite <- app_assoc.
Qed.
Lemma whole_quote sep v : whole sep (quote v).
Proof.
  intros A flush m rest cur out. unfold quote. cbn [app scan Z.eqb Pos.eqb andb negb]. rewrite <- app_assoc. cbn [app]. rewrite scan_escaped. by rewrite <- app_assoc.
Qed.

Fixpoint flush_all {A} (flush : list Z -> A -> result BridgeError A) (es : list (list Z)) (out : A) : result BridgeError A :=
  match es with [] => Ok out | e :: es => out ← flush e out; flush_all flush es out end.
Lemma scan_join {A} sep flush m e es (out : A) : sep <> 34 -> sep <> 92 -> Forall (whole sep) (e :: es) ->
  scan sep flush m (sep_join sep (e :: es)) false [] out = flush_all flush (e :: es) out.
Proof.
  intros Hs Hs'. revert e out. induction es as [|e' es IH]; intros e out H.
  - apply Forall_cons in H as [H _]. change (sep_join sep [e]) with e. rewrite <- (app_nil_r e) at 1. rewrite H. cbn [scan app flush_all]. by destruct (flush e out).
  - apply Forall_cons in H as [H Hes]. change (sep_join sep (e :: e' :: es)) with (e ++ sep :: sep_join sep (e' :: es)). rewrite H. cbn [scan app].
    rewrite andb_false_r, (proj2 (Z.eqb_neq sep 34)), Z.eqb_refl by done. cbn [andb negb flush_all]. destruct (flush e out) as [out'|]; [|done]. by apply IH.
Qed.

(** ** Values and pairs *)

Lemma unescape_pair c r : unescape (92 :: c :: r) = out ← unescape r; Ok (if (c =? 34) || (c =? 92) then c :: out else 92 :: c :: out).
Proof. done. Qed.
Lemma unescape_escaped v : unescape (escape v) = Ok v.
Proof.
  induction v as [|c v IH]; [done|]. rewrite escape_cons.
  destruct ((c =? 34) || (c =? 92)) eqn:E; cbn [app].
  - rewrite unescape_pair, IH, E. done.
  - apply orb_false_iff in E as [E1 E2]. cbn [unescape]. by rewrite E1, E2, IH.
Qed.
Lemma unquote_quote v : unquote_xfcc_value (quote v) = Ok v.
Proof.
  unfold unquote_xfcc_value. assert ((2 <=? length (quote v))%nat = true) as -> by (apply Nat.leb_le; unfold quote; cbn; rewrite length_app; cbn; lia).
  assert (last (quote v) = Some 34) as -> by (unfold quote; by rewrite app_comm_cons, last_snoc). rewrite !bool_decide_eq_true_2 by done. cbn [andb].
  unfold quote. cbn [tail]. rewrite removelast_last. apply unescape_escaped.
Qed.

Lemma trim_id l a b : head l = Some a -> last l = Some b -> is_whitespace a = false -> is_whitespace b = false -> trim l = l.
Proof.
  intros Ha Hb Wa Wb. unfold trim. destruct l as [|c l]; [done|]. injection Ha as ->. rewrite trim_start_id by done. unfold trim_end.
  apply last_Some in Hb as [r ->]. rewrite reverse_snoc, trim_start_id by done. by rewrite reverse_cons, reverse_involutive.
Qed.
Lemma trim_quote v : trim (quote v) = quote v.
Proof. apply (trim_id _ 34 34); [done|unfold quote; by rewrite app_comm_cons, last_snoc|done..]. Qed.

(** The names of fields. *)
Definition is_key (k : string) : bool :=
  let l := chars k in
  forallb (fun c => negb (is_whitespace c) && negb (c =? 61) && negb (c =? 34) && negb (c =? 44) && negb (c =? 59)) l && negb (bool_decide (l = [])).
Lemma key_ends k : is_key k = true -> exists a b l, chars k = a :: l /\ last (a :: l) = Some b /\ is_whitespace a = false /\ is_whitespace b = false.
Proof.
  unfold is_key. intros [H E]%andb_prop. destruct (chars k) as [|a l] eqn:El; [done|]. destruct (last (a :: l)) as [b|] eqn:Eb; [|by apply last_None in Eb].
  rewrite forallb_forall in H. exists a, b, l. split; [done|]. split; [done|]. split.
  - specialize (H a (or_introl eq_refl)). destruct (is_whitespace a); [done|done].
  - apply last_Some in Eb as [r Er]. specialize (H b). rewrite Er in H. specialize (H (in_elt b r [])). by destruct (is_whitespace b).
Qed.
Lemma split_key l r : forallb (fun c => negb (c =? 61)) l = true -> split_eq (l ++ 61 :: r) = Some (l, r).
Proof. induction l as [|c l IH]; [done|]. cbn [forallb app split_eq]. intros [H1 H]%andb_prop. destruct (c =? 61); [done|]. by rewrite IH. Qed.
Lemma key_plain k (f : Z -> bool) : is_key k = true -> (forall c, negb (is_whitespace c) && negb (c =? 61) && negb (c =? 34) && negb (c =? 44) && negb (c =? 59) = true -> f c = true) ->
  forallb f (chars k) = true.
Proof. unfold is_key. intros [H _]%andb_prop Hf. rewrite forallb_forall in *. intros c Hc. by apply Hf, H. Qed.

Lemma push_pair_text k v out : is_key k = true -> push_pair (pair_text (k, v)) out = Ok (out ++ [(chars k, chars v)]).
Proof.
  intros Hk. destruct (key_ends k Hk) as (a & b & l & El & Eb & Ha & Hb). unfold push_pair, pair_text. cbn [fst snd].
  rewrite (trim_id _ a 34); [|by rewrite El|unfold quote; by rewrite !app_comm_cons, app_assoc, last_snoc|done|done]. rewrite El at 1. cbn [app].
  assert (split_eq (a :: l ++ 61 :: quote (chars v)) = Some (chars k, quote (chars v))) as ->.
  { change (a :: l ++ 61 :: quote (chars v)) with ((a :: l) ++ 61 :: quote (chars v)). rewrite <- El. apply split_key. apply key_plain; [done|]. intros c Hc. by destruct (c =? 61), (is_whitespace c). }
  cbn [ok_or mbind result_bind]. rewrite (trim_id (chars k) a b) by (done || by rewrite El). rewrite trim_quote, unquote_quote. by rewrite El.
Qed.

Lemma pair_whole sep k v : sep = 44 \/ sep = 59 -> is_key k = true -> whole sep (pair_text (k, v)).
Proof.
  intros Hs Hk. unfold pair_text. cbn [fst snd]. change (chars k ++ 61 :: quote (chars v)) with (chars k ++ [61] ++ quote (chars v)).
  apply whole_app; [|apply whole_app; [apply whole_char; lia|apply whole_quote]]. apply whole_plain. apply key_plain; [done|]. intros c Hc. lia.
Qed.

(** ** Entries *)

Definition text_ok (o : option string) : Prop := forall s, o = Some s -> valid_utf8 (bytes_of_str s) = true.
(** An entry with a name, of well-formed texts. *)
Definition entry_ok (e : XfccEntry) : Prop := identified e = true /\ text_ok (uri e) /\ text_ok (hash e) /\ text_ok (by_ e) /\ text_ok (subject e).

Lemma pairs_keys e : Forall (fun kv => is_key (fst kv) = true) (pairs_of e).
Proof. destruct e as [[u|] [h|] [b|] [s|]]; cbn; repeat constructor. Qed.
Lemma flush_pairs kvs out : Forall (fun kv => is_key (fst kv) = true) kvs ->
  flush_all push_pair (pair_text <$> kvs) out = Ok (out ++ ((fun kv => (chars (fst kv), chars (snd kv))) <$> kvs)).
Proof.
  intros H. revert out. induction H as [|[k v] kvs Hk _ IH]; intros out; [by rewrite app_nil_r|]. rewrite !fmap_cons. cbn [flush_all].
  rewrite push_pair_text by done. cbn [mbind result_bind]. rewrite IH. cbn [fst snd]. by rewrite <- app_assoc.
Qed.
Lemma split_entry_text e : identified e = true -> split_xfcc_pairs (entry_text e) = Ok ((fun kv => (chars (fst kv), chars (snd kv))) <$> pairs_of e).
Proof.
  intros H. unfold split_xfcc_pairs, entry_text. pose proof (pairs_keys e) as Hk. pose proof (flush_pairs (pairs_of e) [] Hk) as Hf.
  destruct (pairs_of e) as [|kv kvs] eqn:Ep; [by destruct e as [[u|] [h|] [b|] [s|]]|]. rewrite fmap_cons. rewrite scan_join; [by rewrite <- fmap_cons, Hf|lia|lia|].
  rewrite <- fmap_cons. apply Forall_fmap. eapply Forall_impl; [exact Hk|]. intros [k v] Hkv. apply pair_whole; [by right|done].
Qed.

Lemma entry_field_known e dns v : valid_utf8 (bytes_of_str v) = true ->
  entry_field (e, dns) (chars "By", chars v) = (mk_XfccEntry (uri e) (hash e) (Some v) (subject e), dns) /\
  entry_field (e, dns) (chars "Hash", chars v) = (mk_XfccEntry (uri e) (Some v) (by_ e) (subject e), dns) /\
  entry_field (e, dns) (chars "Subject", chars v) = (mk_XfccEntry (uri e) (hash e) (by_ e) (Some v), dns) /\
  entry_field (e, dns) (chars "URI", chars v) = (mk_XfccEntry (Some v) (hash e) (by_ e) (subject e), dns).
Proof. intros H. unfold entry_field. cbn [fst snd]. rewrite (str_of_chars_chars v) by done. split_and!; reflexivity. Qed.
Lemma parse_entry e : entry_ok e -> parse_xfcc_entry (entry_text e) = Ok e.
Proof.
  intros (Hi & Hu & Hh & Hb & Hs). unfold parse_xfcc_entry. rewrite split_entry_text by done. cbn [mbind result_bind].
  assert (foldl entry_field (mk_XfccEntry None None None None, []) ((fun kv => (chars (fst kv), chars (snd kv))) <$> pairs_of e) = (e, [])) as ->; [|by destruct (subject e)].
  unfold pairs_of. rewrite !fmap_app, !foldl_app. destruct e as [u h b s]. cbn [uri hash by_ subject] in *.
  destruct b as [b|]; cbn [fmap list_fmap foldl fst snd]; [rewrite (proj1 (entry_field_known _ _ b (Hb b eq_refl)))|];
  (destruct h as [h|]; cbn [fmap list_fmap foldl fst snd]; [rewrite (proj1 (proj2 (entry_field_known _ _ h (Hh h eq_refl))))|]);
  (destruct s as [s|]; cbn [fmap list_fmap foldl fst snd]; [rewrite (proj1 (proj2 (proj2 (entry_field_known _ _ s (Hs s eq_refl)))))|]);
  (destruct u as [u|]; cbn [fmap list_fmap foldl fst snd]; [rewrite (proj2 (proj2 (proj2 (entry_field_known _ _ u (Hu u eq_refl)))))|]); done.
Qed.

(** The first and the last character of an entry, or of a header. *)
Definition solid (l : list Z) : Prop := (exists a, head l = Some a /\ is_whitespace a = false) /\ last l = Some 34.
Lemma solid_trim l : solid l -> trim l = l /\ l <> [].
Proof. intros [(a & Ha & Wa) Hb]. split; [by apply (trim_id l a 34)|]. by intros ->. Qed.
Lemma solid_join sep l : l <> [] -> Forall solid l -> solid (sep_join sep l).
Proof.
  intros Hn H. induction H as [|p ps Hp Hps IH]; [done|]. destruct ps as [|q ps]; [done|]. change (sep_join sep (p :: q :: ps)) with (p ++ sep :: sep_join sep (q :: ps)).
  destruct (IH ltac:(done)) as [_ Hl]. destruct Hp as [(a & Ha & Wa) _]. split.
  - exists a. split; [|done]. by destruct p.
  - apply last_Some in Hl as [r Hl]. rewrite Hl. rewrite app_comm_cons, app_assoc. apply last_snoc.
Qed.
Lemma solid_pair kv : is_key (fst kv) = true -> solid (pair_text kv).
Proof.
  intros Hk. destruct (key_ends _ Hk) as (a & b & l & El & _ & Wa & _). unfold pair_text. split.
  - exists a. by rewrite El.
  - unfold quote. by rewrite !app_comm_cons, app_assoc, last_snoc.
Qed.
Lemma solid_entry e : identified e = true -> solid (entry_text e).
Proof.
  intros H. apply solid_join; [by destruct e as [[u|] [h|] [b|] [s|]]|]. apply Forall_fmap. eapply Forall_impl; [apply pairs_keys|]. intros kv. apply solid_pair.
Qed.
Lemma whole_join sep l : sep <> 34 -> forall c, c <> 34 -> c <> sep -> Forall (whole sep) l -> whole sep (sep_join c l).
Proof.
  intros Hs c Hc Hcs H. induction H as [|p ps Hp Hps IH]; [apply whole_nil|]. destruct ps as [|q ps]; [done|].
  change (sep_join c (p :: q :: ps)) with (p ++ [c] ++ sep_join c (q :: ps)). apply whole_app; [done|]. apply whole_app; [by apply whole_char|done].
Qed.
Lemma entry_whole e : whole 44 (entry_text e).
Proof.
  apply whole_join; [lia|lia|lia|]. apply Forall_fmap. eapply Forall_impl; [apply pairs_keys|]. intros [k v] Hk. apply pair_whole; [by left|done].
Qed.

Lemma flush_entries ts out : Forall solid ts -> flush_all push_entry ts out = Ok (out ++ ts).
Proof.
  intros H. revert out. induction H as [|t ts Ht _ IH]; intros out; cbn [flush_all]; [by rewrite app_nil_r|]. apply solid_trim in Ht as [Ht Hn]. unfold push_entry. rewrite Ht.
  destruct t as [|c t]; [done|]. cbn [mbind result_bind]. rewrite IH. by rewrite <- app_assoc.
Qed.
Lemma parse_entries_text es : Forall entry_ok es -> parse_entries (entry_text <$> es) = Ok es.
Proof. induction 1 as [|e es He _ IH]; [done|]. rewrite fmap_cons. cbn [parse_entries]. rewrite parse_entry by done. cbn [mbind result_bind]. by rewrite IH. Qed.
Lemma check_entries_ok i es : Forall entry_ok es -> check_entries i es = Ok tt.
Proof. intros H. revert i. induction H as [|e es [He _] _ IH]; intros i; [done|]. cbn [check_entries]. rewrite He. apply IH. Qed.

(** an [X-Forwarded-Client-Cert] header in the documented form, with every value
    quoted and its quotes and backslashes escaped, is read as exactly the
    entries it lists: no value, whatever separators it contains, can add,
    hide or change an entry or a field. *)
Theorem xfcc_roundtrip es (Hn : es <> []) (H : Forall entry_ok es) : parse_xfcc (header_text es) = Ok es.
Proof.
  assert (Forall solid (entry_text <$> es)) as Hs by (apply Forall_fmap; eapply Forall_impl; [exact H|]; intros e [He _]; by apply solid_entry).
  assert (solid (header_text es)) as [Ht Hne]%solid_trim by (apply solid_join; [by destruct es|done]). unfold parse_xfcc. rewrite Ht.
  assert (split_xfcc_entries (header_text es) = Ok (entry_text <$> es)) as Hsp.
  { unfold split_xfcc_entries, header_text. destruct es as [|e es]; [done|]. rewrite fmap_cons, scan_join; [|lia|lia|].
    - rewrite flush_entries; [done|]. exact Hs.
    - rewrite <- fmap_cons. apply Forall_fmap, Forall_true. intros e'. apply entry_whole. }
  destruct (header_text es) as [|c l] eqn:Eh; [done|]. rewrite Hsp. cbn [mbind result_bind]. rewrite parse_entries_text by done. cbn [mbind result_bind].
  destruct es as [|e es]; [done|]. by rewrite check_entries_ok.
Qed.

(** ** Messages *)

Fixpoint varint (fuel : nat) (n : Z) : list Z :=
  match fuel with O => [n] | S fuel => if n <? 128 then [n] else 128 + n mod 128 :: varint fuel (n / 128) end.

Definition group_ok (b : Z) : bool :=
  (if b <? 128 then (Z.land b 0x80 =? 0) && (Z.land b 0x7f =? b) else negb (Z.land b 0x80 =? 0) && (Z.land b 0x7f =? b - 128)).
Lemma group_spec b : 0 <= b < 256 -> group_ok b = true.
Proof. assert (all_below 256 group_ok = true) as H by (vm_compute; reflexivity). apply (all_below_spec 256 group_ok H). Qed.
Lemma group_last b : 0 <= b < 128 -> Z.land b 0x80 = 0 /\ Z.land b 0x7f = b.
Proof. intros H. pose proof (group_spec b ltac:(lia)) as G. unfold group_ok in G. rewrite (proj2 (Z.ltb_lt _ _)) in G by lia. lia. Qed.
Lemma group_more b : 0 <= b < 128 -> Z.land (128 + b) 0x80 <> 0 /\ Z.land (128 + b) 0x7f = b.
Proof. intros H. pose proof (group_spec (128 + b) ltac:(lia)) as G. unfold group_ok in G. rewrite (proj2 (Z.ltb_ge _ _)) in G by lia. lia. Qed.

Lemma add_group acc g i : 0 <= i -> 0 <= acc < 2 ^ (7 * i) -> 0 <= g -> g * 2 ^ (7 * i) < 2 ^ 64 -> Z.lor acc (Clock.as_u64 (Z.shiftl g (7 * i))) = acc + g * 2 ^ (7 * i).
Proof.
  intros Hi Ha Hg Hb. unfold Clock.as_u64. rewrite Z.mod_small by (rewrite Z.shiftl_mul_pow2 by lia; split; [apply Z.mul_nonneg_nonneg; lia|lia]).
  rewrite Z.lor_comm, lor_shiftl_add by lia. lia.
Qed.
Lemma varint_read fuel n i acc r : 0 <= i < 10 -> 0 <= n < 2 ^ (64 - 7 * i) -> 0 <= acc < 2 ^ (7 * i) -> n < 128 ^ (1 + Z.of_nat fuel) ->
  varint_loop i acc (varint fuel n ++ r) = Some (acc + n * 2 ^ (7 * i), i + len (varint fuel n)).
Proof.
  revert n i acc. induction fuel as [|fuel IH]; intros n i acc Hi Hn Ha Hf; cbn [varint].
  - change (128 ^ (1 + Z.of_nat 0)) with 128 in Hf. cbn [app varint_loop]. rewrite (proj2 (Z.leb_gt 10 i)) by lia. destruct (group_last n ltac:(lia)) as [-> ->].
    rewrite Z.eqb_refl, add_group; [done|lia|lia|lia|]. assert (2 ^ 64 = 2 ^ (64 - 7 * i) * 2 ^ (7 * i)) as -> by (rewrite <- Z.pow_add_r by lia; f_equal; lia). nia.
  - assert (2 ^ 64 = 2 ^ (64 - 7 * i) * 2 ^ (7 * i)) as E64 by (rewrite <- Z.pow_add_r by lia; f_equal; lia). destruct (Z.ltb_spec n 128) as [Hs|Hs].
    + cbn [app varint_loop]. rewrite (proj2 (Z.leb_gt 10 i)) by lia. destruct (group_last n ltac:(lia)) as [-> ->].
      rewrite Z.eqb_refl, add_group; [done|lia|lia|lia|]. rewrite E64. nia.
    + pose proof (Z.mod_pos_bound n 128 ltac:(lia)). cbn [app varint_loop]. rewrite (proj2 (Z.leb_gt 10 i)) by lia. destruct (group_more (n mod 128) ltac:(lia)) as [Hb ->].
      rewrite (proj2 (Z.eqb_neq _ _) Hb). assert (7 < 64 - 7 * i) as Hi7.
      { destruct (Z.le_gt_cases (64 - 7 * i) 7) as [Hle|]; [|lia]. assert (2 ^ (64 - 7 * i) <= 2 ^ 7) by (apply Z.pow_le_mono_r; lia). change (2 ^ 7) with 128 in *. lia. }
      assert (2 ^ (64 - 7 * i) = 128 * 2 ^ (64 - 7 * (i + 1))) as Ep by (change 128 with (2 ^ 7); rewrite <- Z.pow_add_r by lia; f_equal; lia).
      assert (2 ^ (7 * (i + 1)) = 128 * 2 ^ (7 * i)) as Eq by (change 128 with (2 ^ 7); rewrite <- Z.pow_add_r by lia; f_equal; lia).
      assert (0 < 2 ^ (7 * i)) by (apply Z.pow_pos_nonneg; lia). pose proof (Z.div_mod n 128 ltac:(lia)) as Hd.
      rewrite add_group; [|lia|lia|lia|rewrite E64; nia]. rewrite IH.
      * rewrite Eq. f_equal. f_equal; [|unfold len; cbn [length]; lia]. rewrite Hd at 3. lia.
      * lia.
      * split; [apply Z.div_pos; lia|]. apply Z.div_lt_upper_bound; lia.
      * rewrite Eq. nia.
      * apply Z.div_lt_upper_bound; [lia|]. rewrite <- Z.pow_succ_r by lia. replace (Z.succ (1 + Z.of_nat fuel)) with (1 + Z.of_nat (S fuel)) by lia. done.
Qed.
Definition enc (n : Z) : list Z := varint 9 n.
Lemma read_enc n r : 0 <= n < 2 ^ 64 -> read_varint (enc n ++ r) = Some (n, len (enc n)).
Proof. intros H. unfold read_varint, enc. rewrite varint_read; [f_equal; f_equal; lia|lia|done|lia|]. change (128 ^ (1 + Z.of_nat 9)) with (2 ^ 70). lia. Qed.

(** The fields of a protobuf message, by wire type, with their numbers. *)
Inductive pfield := PVarint (num v : Z) | PFixed64 (num : Z) (bs : list Z) | PBytes (num : Z) (payload : list Z) | PFixed32 (num : Z) (bs : list Z).
Definition field_bytes (f : pfield) : list Z :=
  match f with
  | PVarint num v => enc (num * 8) ++ enc v
  | PFixed64 num bs => enc (num * 8 + 1) ++ bs
  | PBytes num payload => enc (num * 8 + 2) ++ enc (len payload) ++ payload
  | PFixed32 num bs => enc (num * 8 + 5) ++ bs
  end.
Definition field_ok (f : pfield) : Prop :=
  match f with
  | PVarint num v => 0 <= num < 2 ^ 61 /\ 0 <= v < 2 ^ 64
  | PFixed64 num bs => 0 <= num < 2 ^ 61 /\ len bs = 8
  | PBytes num payload => 0 <= num < 2 ^ 61
  | PFixed32 num bs => 0 <= num < 2 ^ 61 /\ len bs = 4
  end.
Definition payload_of (f : pfield) : option (list Z) := match f with PBytes _ p => Some p | _ => None end.
Definition message (fs : list pfield) : list Z := mjoin (field_bytes <$> fs).
(** The first text that is a SPIFFE id. *)
Definition first_spiffe (fs : list pfield) : option string :=
  p ← List.find is_spiffe (omap payload_of fs); Some (str_of_bytes p).

Lemma buf_len_app (a b : list Z) : len (a ++ b) = len a + len b.
Proof. unfold len. rewrite length_app. lia. Qed.
Lemma from_app bytes i a r : 0 <= i <= len bytes -> from bytes i = a ++ r -> from bytes (i + len a) = r /\ 0 <= i + len a <= len bytes /\ len bytes = i + len a + len r.
Proof.
  intros Hi E. assert (len bytes = i + len (a ++ r)) as Hl by (rewrite <- E; unfold from, len in *; rewrite length_drop; lia). rewrite buf_len_app in Hl.
  assert (0 <= len r /\ 0 <= len a) as [? ?] by (unfold len; lia). split; [|lia]. unfold from in *. rewrite Z2Nat.inj_add, <- drop_drop, E by lia.
  unfold len. by rewrite Nat2Z.id, drop_app_length.
Qed.
Lemma wire_of num w : 0 <= w < 8 -> Z.land (num * 8 + w) 7 = w.
Proof. intros H. change 7 with (Z.ones 3). rewrite Z.land_ones by lia. change (2 ^ 3) with 8. rewrite Z.add_comm, Z.mod_add by lia. by apply Z.mod_small. Qed.
Lemma wire_0 num : Z.land (num * 8) 7 = 0.
Proof. rewrite <- (Z.add_0_r (num * 8)). by apply wire_of. Qed.

Lemma read_field_at bytes i f r : field_ok f -> 0 <= i <= len bytes -> len bytes < 2 ^ 63 -> from bytes i = field_bytes f ++ r ->
  read_field bytes i = Done (Ok (i + len (field_bytes f), payload_of f)).
Proof.
  intros Hf Hi Hlen E. unfold read_field. destruct f as [num v|num bs|num p|num bs]; cbn [field_bytes field_ok payload_of] in *; rewrite <- ?app_assoc in E.
  - rewrite E, read_enc by lia. cbn [ok_or mbind run_bind]. rewrite wire_0. cbn [Z.eqb]. destruct (from_app _ _ _ _ Hi E) as (E2 & Hi2 & _).
    rewrite E2, read_enc by lia. cbn [ok_or mbind run_bind]. by rewrite buf_len_app, Z.add_assoc.
  - destruct Hf as [Hn Hb]. rewrite E, read_enc by lia. cbn [ok_or mbind run_bind]. rewrite wire_of by lia. cbn [Z.eqb Pos.eqb]. destruct (from_app _ _ _ _ Hi E) as (E2 & Hi2 & Hl).
    rewrite buf_len_app in Hl. assert (0 <= len r) by (unfold len; lia). rewrite (proj2 (Z.ltb_ge _ _)) by lia. by rewrite buf_len_app, Z.add_assoc, Hb.
  - rewrite E, read_enc by lia. cbn [ok_or mbind run_bind]. rewrite wire_of by lia. cbn [Z.eqb Pos.eqb]. destruct (from_app _ _ _ _ Hi E) as (E2 & Hi2 & Hl).
    rewrite !buf_len_app in Hl. assert (0 <= len r /\ 0 <= len p) as [? ?] by (unfold len; lia). assert (0 <= len (enc (len p))) by (unfold len; lia).
    rewrite E2, read_enc by lia. cbn [ok_or mbind run_bind]. destruct (from_app _ _ _ _ Hi2 E2) as (E3 & Hi3 & _).
    unfold Clock.as_u64. rewrite Z.mod_small by lia. rewrite (proj2 (Z.ltb_ge _ _)), (proj2 (Z.ltb_ge _ _)) by lia. rewrite E3.
    assert (Z.to_nat (len p) = length p) as -> by (unfold len; lia). rewrite take_app_length, !buf_len_app. do 3 f_equal. lia.
  - destruct Hf as [Hn Hb]. rewrite E, read_enc by lia. cbn [ok_or mbind run_bind]. rewrite wire_of by lia. cbn [Z.eqb Pos.eqb]. destruct (from_app _ _ _ _ Hi E) as (E2 & Hi2 & Hl).
    rewrite buf_len_app in Hl. assert (0 <= len r) by (unfold len; lia). rewrite (proj2 (Z.ltb_ge _ _)) by lia. by rewrite buf_len_app, Z.add_assoc, Hb.
Qed.

Lemma enc_pos n : 1 <= len (enc n).
Proof. unfold enc. cbn [varint]. case_match; unfold len; cbn [length]; lia. Qed.
Lemma field_pos f : 1 <= len (field_bytes f).
Proof. destruct f; cbn [field_bytes]; rewrite !buf_len_app; match goal with |- 1 <= len (enc ?n) + _ => pose proof (enc_pos n) end; unfold len in *; lia. Qed.

(** The loop passes over a list of fields. *)
Lemma loop_fields fs bytes i best fuel r : Forall field_ok fs -> 0 <= i <= len bytes -> len bytes < 2 ^ 63 -> from bytes i = message fs ++ r -> len bytes - i <= Z.of_nat fuel ->
  exists fuel', len bytes - (i + len (message fs)) <= Z.of_nat fuel' /\
    proto_loop fuel bytes i best = proto_loop fuel' bytes (i + len (message fs)) (foldl better best (payload_of <$> fs)).
Proof.
  intros H. revert i best fuel. induction H as [|f fs Hf _ IH]; intros i best fuel Hi Hl E Hfu.
  - exists fuel. change (len (message [])) with 0. rewrite Z.add_0_r. done.
  - change (message (f :: fs)) with (field_bytes f ++ message fs) in *. rewrite <- app_assoc in E. destruct (from_app _ _ _ _ Hi E) as (E2 & Hi2 & Hl2).
    pose proof (field_pos f). assert (0 <= len (message fs ++ r)) by (unfold len; lia). destruct fuel as [|fuel]; [lia|]. cbn [proto_loop]. rewrite (proj2 (Z.ltb_lt _ _)) by lia.
    rewrite (read_field_at _ _ _ _ Hf Hi Hl E). cbn [mbind run_bind]. destruct (IH (i + len (field_bytes f)) (better best (payload_of f)) fuel) as (fuel' & Hf' & ->); [done|done|done|lia|].
    exists fuel'. rewrite buf_len_app, Z.add_assoc in *. done.
Qed.
Lemma better_some s ps : foldl better (Some s) ps = Some s.
Proof. induction ps as [|p ps IH]; [done|]. cbn [foldl]. by destruct p. Qed.
Lemma best_first fs : foldl better None (payload_of <$> fs) = first_spiffe fs.
Proof.
  unfold first_spiffe. induction fs as [|f fs IH]; [done|]. rewrite fmap_cons. cbn [foldl omap list_omap]. destruct (payload_of f) as [p|]; cbn [better]; [|exact IH].
  cbn [List.find]. destruct (is_spiffe p); [apply better_some|exact IH].
Qed.
Lemma from_start bytes : from bytes 0 = bytes.
Proof. done. Qed.

(** the principal read from a well-formed protobuf message is the first of its
    length-delimited fields that is a [spiffe://] text; a message without one is
    refused. *)
Theorem istio_message_exact fs (H : Forall field_ok fs) (Hl : len (message fs) < 2 ^ 63) :
  decode_istio_protobuf_principal (message fs) = Done (ok_or (first_spiffe fs) (InvalidInput "Istio proto: no spiffe:// principal field present")).
Proof.
  unfold decode_istio_protobuf_principal. assert (0 <= len (message fs)) by (unfold len; lia).
  destruct (loop_fields fs (message fs) 0 None (length (message fs)) []) as (fuel & _ & ->); [done|lia|done|by rewrite app_nil_r|unfold len; lia|].
  rewrite best_first, Z.add_0_l. assert (forall f b, proto_loop f (message fs) (len (message fs)) b = Done (Ok b)) as -> by (intros [|f] b; cbn [proto_loop]; by rewrite Z.ltb_irrefl). done.
Qed.

(** after any well-formed fields, a length-delimited field whose length is so
    close to [2^64] that adding the position to it overflows makes the decoder
    panic instead of refusing the header. *)
Theorem istio_length_panics fs num m r (H : Forall field_ok fs) (Hn : 0 <= num < 2 ^ 61) (Hm : 0 <= m < 2 ^ 64)
  (Hl : len (message fs ++ enc (num * 8 + 2) ++ enc m ++ r) < 2 ^ 63) (Ho : 2 ^ 64 <= len (message fs) + len (enc (num * 8 + 2)) + len (enc m) + m) :
  decode_istio_protobuf_principal (message fs ++ enc (num * 8 + 2) ++ enc m ++ r) = Panics.
Proof.
  unfold decode_istio_protobuf_principal. set (bytes := message fs ++ _) in *. assert (0 <= len bytes) by (unfold len; lia).
  destruct (loop_fields fs bytes 0 None (length bytes) (enc (num * 8 + 2) ++ enc m ++ r)) as (fuel & Hfu & ->); [done|lia|done|done|unfold len; lia|]. rewrite Z.add_0_l in *.
  assert (from bytes 0 = message fs ++ enc (num * 8 + 2) ++ enc m ++ r) as E by done. assert (0 <= 0 <= len bytes) as Hi0 by lia. destruct (from_app _ _ _ _ Hi0 E) as (E1 & Hi1 & Hl1). rewrite Z.add_0_l in *.
  destruct (from_app _ _ _ _ Hi1 E1) as (E2 & Hi2 & Hl2). destruct (from_app _ _ _ _ Hi2 E2) as (E3 & Hi3 & Hl3). pose proof (enc_pos (num * 8 + 2)).
  assert (0 <= len r) by (unfold len; lia). pose proof (enc_pos m).
  destruct fuel as [|fuel]; [lia|]. cbn [proto_loop]. rewrite (proj2 (Z.ltb_lt _ _)) by lia. unfold read_field. rewrite E1, read_enc by lia.
  cbn [ok_or mbind run_bind]. rewrite wire_of by lia. cbn [Z.eqb Pos.eqb]. rewrite E2, read_enc by lia. cbn [ok_or mbind run_bind].
  set (i := len (message fs) + len (enc (num * 8 + 2)) + len (enc m)) in *. assert (Clock.as_u64 (i + m) = i + m - 2 ^ 64) as ->.
  { unfold Clock.as_u64. replace (i + m) with (i + m - 2 ^ 64 + 1 * 2 ^ 64) at 1 by lia. rewrite Z.mod_add by lia. apply Z.mod_small. lia. }
  rewrite (proj2 (Z.ltb_ge _ _)), (proj2 (Z.ltb_lt _ _)) by lia. done.
Qed.

Lemma varint_advances i acc bytes v n : varint_loop i acc bytes = Some (v, n) -> i < n.
Proof.
  revert i acc. induction bytes as [|b bytes IH]; intros i acc; cbn [varint_loop]; [done|]. destruct (10 <=? i); [done|].
  destruct (Z.land b 128 =? 0); [intros [= _ <-]; lia|]. intros H%IH. lia.
Qed.
Lemma field_advances bytes i j p : read_field bytes i = Done (Ok (j, p)) -> i < j.
Proof.
  unfold read_field. destruct (read_varint (from bytes i)) as [[tag n]|] eqn:E; [|done]. apply varint_advances in E. cbn [ok_or mbind run_bind].
  case_match; [|case_match; [case_match; [done|]; intros [= <- _]; lia|case_match; [|case_match; [case_match; [done|]; intros [= <- _]; lia|done]]]].
  - destruct (read_varint (from bytes (i + n))) as [[w m]|] eqn:E2; [|done]. apply varint_advances in E2. intros [= <- _]. lia.
  - destruct (read_varint (from bytes (i + n))) as [[w m]|] eqn:E2; [|done]. apply varint_advances in E2. cbn [ok_or mbind run_bind]. case_match; [done|].
    destruct (Z.ltb_spec (Clock.as_u64 (i + n + m + w)) (i + n + m)); [done|]. intros [= <- _]. lia.
Qed.
Lemma read_field_returns bytes i : read_field bytes i <> Loops.
Proof.
  unfold read_field. apply Bridges.bind_returns; [done|]. intros [tag n] _. case_match; [apply Bridges.bind_returns; [done|]; by intros [] _|].
  case_match; [by case_match|]. case_match; [|case_match; [by case_match|done]]. apply Bridges.bind_returns; [done|]. intros [m n'] _. repeat case_match; done.
Qed.
Lemma proto_returns fuel bytes i best : len bytes - i <= Z.of_nat fuel -> proto_loop fuel bytes i best <> Loops.
Proof.
  revert i best. induction fuel as [|fuel IH]; intros i best Hf; cbn [proto_loop]; destruct (Z.ltb_spec i (len bytes)); try done; [lia|].
  apply Bridges.bind_returns; [apply read_field_returns|]. intros [j p] Hj%field_advances. apply IH. lia.
Qed.

(** reading the Istio header ends on every input. *)
Theorem istio_terminates debug from_slice header : parse_istio_attributes debug from_slice header <> Loops.
Proof.
  unfold parse_istio_attributes. case_match; [done|]. apply Bridges.bind_returns; [done|]. intros [p|] _; [done|]. apply Bridges.bind_returns; [done|]. intros bytes _.
  apply Bridges.bind_returns; [|done]. unfold decode_istio_protobuf_principal. apply Bridges.bind_returns; [|done]. apply proto_returns. unfold len. lia.
Qed.

(** ** SPIFFE ids and service actors *)

Lemma split_at c a b : ActorId.has c a = false -> ActorId.split_first c (a +:+ String c "" +:+ b) = Some (a, b).
Proof. apply ActorId.split_first_app. Qed.
Lemma parse_spiffe_ok debug id p : parse_spiffe_id debug id = Ok p -> id = "spiffe://" +:+ trust_domain p +:+ "/" +:+ path p /\
  ActorId.has "/" (trust_domain p) = false /\ trust_domain p <> "" /\ path p <> "" /\ is_dns_like (trust_domain p) = true.
Proof.
  unfold parse_spiffe_id. destruct (str_is_empty id); [done|]. destruct (strip_prefix "spiffe://" id) as [rest|] eqn:E; [|done]. apply strip_prefix_spec in E as ->.
  cbn [ok_or mbind result_bind]. destruct (ActorId.split_first "/" rest) as [[d q]|] eqn:Es; cbn [unwrap_or].
  - unfold str_is_empty. destruct (String.eqb_spec d ""), (String.eqb_spec q ""); try done. destruct (is_dns_like d) eqn:Ed; [|done]. intros <-%Ok_inj.
    apply ActorId.split_first_Some in Es as [-> Hd]. done.
  - destruct (str_is_empty rest); [done|]. done.
Qed.
Lemma parse_spiffe_text debug d q : ActorId.has "/" d = false -> d <> "" -> q <> "" -> is_dns_like d = true ->
  parse_spiffe_id debug ("spiffe://" +:+ d +:+ "/" +:+ q) = Ok (mk_ParsedSpiffeId d q ("spiffe://" +:+ d +:+ "/" +:+ q)).
Proof.
  intros Hd Hd' Hq Hdns. unfold parse_spiffe_id. rewrite (proj2 (strip_prefix_spec _ _ _) eq_refl). cbn [ok_or mbind result_bind].
  rewrite (split_at "/" d q Hd). cbn [unwrap_or]. unfold str_is_empty.
  rewrite (proj2 (String.eqb_neq d "") Hd'), (proj2 (String.eqb_neq q "") Hq), Hdns. done.
Qed.
Lemma actor_to_spiffe_text d q : ActorId.has "/" d = false -> ActorId.has "010" (d +:+ "/" +:+ q) = false ->
  actor_id_to_spiffe ("tf:actor:service:" +:+ d +:+ "/" +:+ q) = Ok ("spiffe://" +:+ d +:+ "/" +:+ q).
Proof.
  intros Hd Hn. unfold actor_id_to_spiffe. change ("tf:actor:service:" +:+ d +:+ "/" +:+ q) with ("tf:actor:" +:+ "service" +:+ ":" +:+ d +:+ "/" +:+ q).
  rewrite (proj2 (strip_prefix_spec _ _ _) eq_refl). cbn [ok_or mbind result_bind].
  rewrite (split_at ":" "service" (d +:+ "/" +:+ q) eq_refl). cbn [ok_or mbind result_bind]. rewrite Hn.
  assert (str_is_empty (d +:+ "/" +:+ q) = false) as -> by (by destruct d). cbn [str_is_empty String.eqb orb Ascii.eqb Bool.eqb andb negb].
  rewrite (split_at "/" d q Hd). done.
Qed.
Lemma actor_to_spiffe_ok a id : actor_id_to_spiffe a = Ok id ->
  exists d q, a = "tf:actor:service:" +:+ d +:+ "/" +:+ q /\ id = "spiffe://" +:+ d +:+ "/" +:+ q /\ ActorId.has "/" d = false.
Proof.
  unfold actor_id_to_spiffe. destruct (strip_prefix "tf:actor:" a) as [rest|] eqn:E; [|done]. apply strip_prefix_spec in E as ->. cbn [ok_or mbind result_bind].
  destruct (ActorId.split_first ":" rest) as [[t p]|] eqn:Et; [|done]. apply ActorId.split_first_Some in Et as [-> _]. cbn [ok_or mbind result_bind].
  destruct (_ || _ || _); [done|]. destruct (String.eqb_spec t "service") as [->|]; [|done]. cbn [negb]. destruct (ActorId.split_first "/" p) as [[d q]|] eqn:Ep; [|done].
  apply ActorId.split_first_Some in Ep as [-> Hd]. intros <-%Ok_inj. by exists d, q.
Qed.

(** the translations between SPIFFE ids and service actors invert each other, on
    ids without line breaks: an id is translated to an actor exactly when it is a
    valid id that the actor translates back to. *)
Theorem spiffe_roundtrip debug id a (Hn : ActorId.has "010" id = false) :
  spiffe_to_actor_id debug id = Ok a <-> is_ok (parse_spiffe_id debug id) = true /\ actor_id_to_spiffe a = Ok id.
Proof.
  unfold spiffe_to_actor_id. split.
  - destruct (parse_spiffe_id debug id) as [p|] eqn:E; [|done]. cbn [mbind result_bind]. intros <-%Ok_inj. split; [done|]. apply parse_spiffe_ok in E as (-> & Hd & _).
    rewrite ActorId.has_app in Hn. apply orb_false_iff in Hn as [_ Hn]. by apply actor_to_spiffe_text.
  - intros [Hp (d & q & -> & -> & Hd)%actor_to_spiffe_ok]. destruct (parse_spiffe_id debug _) as [p|] eqn:E; [|done]. apply parse_spiffe_ok in E as (E & Hd' & _).
    apply str_app_inv_head in E. apply (f_equal (ActorId.split_first "/")) in E. rewrite (split_at "/" d q Hd),
      (split_at "/" (trust_domain p) (path p) Hd') in E. injection E as -> ->. done.
Qed.

(** ** Examples *)

Definition entry1 : XfccEntry := mk_XfccEntry (Some "spiffe://prod/ns/a/sa/b") None (Some "spiffe://prod/ca") (Some "CN=x,URI=spiffe://prod/admin").
Definition entry2 : XfccEntry := mk_XfccEntry None (Some "ab") None (Some "O=\,;").
Lemma xfcc_roundtrip_witness : parse_xfcc (header_text [entry1; entry2]) = Ok [entry1; entry2] /\
  str_of_chars (header_text [entry2]) = str_of_bytes [72; 97; 115; 104; 61; 34; 97; 98; 34; 59; 83; 117; 98; 106; 101; 99; 116; 61; 34; 79; 61; 92; 92; 44; 59; 34].
Proof.
  split; [|vm_compute; reflexivity]. apply xfcc_roundtrip; [discriminate|].
  assert (forall o, match o with Some s => valid_utf8 (bytes_of_str s) | None => true end = true -> text_ok o) as T by (intros [t|] H s Hs; [injection Hs as <-; exact H|discriminate]).
  apply List.Forall_cons; [|apply List.Forall_cons; [|apply List.Forall_nil]]; (split; [reflexivity|]); split_and!; apply T; vm_compute; reflexivity.
Defined.

Definition message1 : list pfield := [PVarint 1 300; PBytes 2 (bytes_of_str "istio"); PFixed32 3 [0; 0; 0; 0]; PBytes 4 (bytes_of_str "spiffe://prod/ns/a/sa/b"); PBytes 5 (bytes_of_str "spiffe://other/x")].
Lemma istio_message_exact_witness : decode_istio_protobuf_principal (message message1) = Done (Ok "spiffe://prod/ns/a/sa/b").
Proof.
  rewrite (istio_message_exact message1); [vm_compute; reflexivity| |vm_compute; reflexivity]. repeat (apply List.Forall_cons; [cbn; unfold len; cbn; lia|]). apply List.Forall_nil.
Defined.
Lemma istio_length_panics_witness : decode_istio_protobuf_principal (message [] ++ enc (1 * 8 + 2) ++ enc (2 ^ 64 - 1) ++ []) = Panics.
Proof. apply istio_length_panics; [apply List.Forall_nil|lia|lia|vm_compute; reflexivity|vm_compute; discriminate]. Defined.
(** The same as a header. *)
Example istio_header_panics : parse_istio_attributes (fun s => s) (fun _ => None) "Cv///////////wE=" = Panics.
Proof. vm_compute. reflexivity. Qed.
Lemma spiffe_roundtrip_witness : spiffe_to_actor_id (fun s => s) "spiffe://prod.example/a/b" = Ok "tf:actor:service:prod.example/a/b" /\
  actor_id_to_spiffe "tf:actor:service:prod.example/a/b" = Ok "spiffe://prod.example/a/b".
Proof. split; [reflexivity|]. apply (spiffe_roundtrip (fun s => s) "spiffe://prod.example/a/b"); reflexivity. Defined.

(** The two ways in for a legacy Linkerd id lead to different actors, and only
    the parser checks the parts. *)
Example linkerd_ids_differ :
  let id := "web.shop.serviceaccount.identity.linkerd.cluster.local" in
  (c ← parse_linkerd_client_id (fun s => s) id; i ← accept_linkerd (fun s => s) 0 (client_spiffe_id c); Ok (Bridges.actor_id i)) = Ok "tf:actor:service:linkerd/ns/shop/sa/web" /\
  (i ← accept_linkerd (fun s => s) 0 id; Ok (Bridges.actor_id i)) = Ok "tf:actor:service:linkerd/shop/web".
Proof. split; vm_compute; reflexivity. Qed.
Example linkerd_empty_parts : (i ← accept_linkerd (fun s => s) 0 "..serviceaccount.identity..cluster.local"; Ok (Bridges.actor_id i)) = Ok "tf:actor:service://".
Proof. vm_compute. reflexivity. Qed.
(** Issuers are matched by prefix. *)
Example istio_issuer_prefix : is_istio_issuer "https://kubernetes.default.svc.attacker.example" = true.
Proof. vm_compute. reflexivity. Qed.

End Mesh.
