(* ===== verification/Did.v ===== *)
(** * Did: decentralised identifiers ([bridge_did.rs])

    - [base58btc_encode], [base58btc_decode]: numbers in base 58, computed in
      arrays whose sizes come from floating-point estimates;
    - [resolve_did_key], [accept]: the document of a [did:key] and the identity
      of a document.

    [to_lowercase], which follows the Unicode tables, is an argument.

    - [base58_decode_iff]: decoding and encoding are inverse, so the estimates
      are always large enough;
    - [did_key_roundtrip]: an ed25519 key written as a [did:key] comes back;
    - [multibase_panics]: a document that stops the process. *)

From S2P Require Import Prelude Utf8 Common Json Clock Base64 ActorId Bridges.
Import Bridges(BridgeError(..), run(..), run_bind).

#[local] Open Scope string_scope.
#[local] Open Scope list_scope.
#[local] Open Scope Z_scope.

Module Did.

(** ** Base 58 *)

(** The double nearest to an integer, ties to even. *)
Definition round53 (p : Z) : Z :=
  let s := Z.log2 p - 52 in
  if s <=? 0 then p
  else
    let q := p / 2 ^ s in let r := p mod 2 ^ s in
    (if (2 ^ s <? 2 * r) || ((2 * r =? 2 ^ s) && Z.odd q) then q + 1 else q) * 2 ^ s.
(** [(n as f64 * c).ceil() as usize] for the double [c = m / 2^k]. *)
Definition mul_ceil (m k n : Z) : Z := (round53 (n * m) + 2 ^ k - 1) / 2 ^ k.
(** The doubles [0.733] and [1.366]. *)
Definition size256 (n : Z) : Z := mul_ceil 6602277053725147 53 n + 1.
Definition size58 (n : Z) : Z := mul_ceil 6151917090988098 52 n + 1.

Definition BASE58_ALPHABET : list Z := bytes_of_str "123456789ABCDEFGHJKLMNPQRSTUVWXYZabcdefghijkmnopqrstuvwxyz".
(** [iter().position(|&b| b == c)]. *)
Fixpoint position (c : Z) (l : list Z) : option Z :=
  match l with [] => None | b :: l => if b =? c then Some 0 else n ← position c l; Some (n + 1) end.

(** The leading elements equal to [c], and the rest. *)
Fixpoint leading (c : Z) (l : list Z) : nat := match l with b :: l => if b =? c then S (leading c l) else 0%nat | [] => 0%nat end.

(** [for j in (0..size).rev()]: a most-significant-first number times a factor
    plus a carry, and the carry out. *)
Fixpoint times58 (b256 : list Z) (carry : Z) : list Z * Z :=
  match b256 with
  | [] => ([], carry)
  | b :: bs => let '(bs, carry) := times58 bs carry in let carry := carry + b * 58 in (Z.land carry 0xff :: bs, Z.shiftr carry 8)
  end.
Fixpoint times256 (b58 : list Z) (carry : Z) : list Z * Z :=
  match b58 with
  | [] => ([], carry)
  | b :: bs => let '(bs, carry) := times256 bs carry in let carry := carry + b * 256 in (carry mod 58 :: bs, carry / 58)
  end.

Fixpoint decode_loop (b256 : list Z) (cs : list Z) : option (list Z) :=
  match cs with
  | [] => Some b256
  | c :: cs => idx ← position c BASE58_ALPHABET; let '(b256, carry) := times58 b256 idx in if negb (carry =? 0) then None else decode_loop b256 cs
  end.
Definition base58btc_decode (s : list Z) : option (list Z) :=
  match s with
  | [] => Some []
  | _ =>
    let zeros := leading 49 s in
    let size := size256 (Z.of_nat (length s - zeros)) in
    b256 ← decode_loop (replicate (Z.to_nat size) 0) (drop zeros s);
    Some (replicate zeros 0 ++ drop (leading 0 b256) b256)
  end.

Definition base58btc_encode (bytes : list Z) : list Z :=
  match bytes with
  | [] => []
  | _ =>
    let zeros := leading 0 bytes in
    let size := size58 (Z.of_nat (length bytes)) in
    let b58 := foldl (fun b58 byte => fst (times256 b58 byte)) (replicate (Z.to_nat size) 0) (drop zeros bytes) in
    replicate zeros 49 ++ ((fun b => List.nth (Z.to_nat b) BASE58_ALPHABET 0) <$> drop (leading 0 b58) b58)
  end.

(** ** Documents *)

Record DidVerificationMethod := mk_DidVerificationMethod {
  vm_id : string; kind : string; controller : string; public_key_multibase : option string; public_key_jwk : option json }.
Record DidDocument := mk_DidDocument {
  id : string; verification_method : option (list DidVerificationMethod); authentication : option (list json); doc_controller : option json }.
Record DidBridgeConfig := mk_DidBridgeConfig { bridge_id : string; trust_domain : string; allowed_methods : option (list string) }.

Definition parse_did_method (did : string) : result BridgeError string :=
  rest ← ok_or (strip_prefix "did:" did) (InvalidInput ("not a DID: " +:+ did));
  '(method, _) ← ok_or (ActorId.split_first ":" rest) (InvalidInput ("not a DID: " +:+ did));
  Ok method.

Definition resolve_did_key (cfg : DidBridgeConfig) (did_url : string) : result BridgeError DidDocument :=
  method ← parse_did_method did_url;
  if match allowed_methods cfg with Some allow => negb (existsb (fun m => m =? method)%string allow) | None => false end then
    Err (Rejected ("DID method " +:+ method +:+ " not in allow-list"))
  else if negb (method =? "key")%string then
    Err (Unsupported ("method " +:+ method +:+ " not supported by built-in resolver; provide a custom resolver"))
  else
    multibase ← ok_or (strip_prefix "did:key:" did_url) (InvalidInput ("not did:key: " +:+ did_url));
    let id := "did:key:" +:+ multibase in
    Ok (mk_DidDocument id
          (Some [mk_DidVerificationMethod (id +:+ "#" +:+ multibase) "Ed25519VerificationKey2020" id (Some multibase) None])
          (Some [JString (id +:+ "#" +:+ multibase)]) (Some (JString id))).

(** [&s[1..]] panics inside a character. *)
Definition decode_multibase (s : string) : run BridgeError (option (list Z)) :=
  match s with
  | EmptyString => Done (Ok None)
  | String prefix body =>
    if negb (Clock.is_char_boundary s 1) then Panics
    else
      let body := bytes_of_str body in
      Done (Ok (if Ascii.eqb prefix "z" then base58btc_decode body
                else if Ascii.eqb prefix "m" then match Base64.decode Base64.STANDARD body with Ok v => Some v | Err _ => None end
                else if Ascii.eqb prefix "u" then match Base64.decode Base64.URL_SAFE_NO_PAD body with Ok v => Some v | Err _ => None end
                else None))
  end.

Record ProjectedKey := mk_ProjectedKey { algorithm : string; key_bytes : list Z }.
Section did.
Variable to_lowercase : string -> string.
Definition extract_public_key (vm : DidVerificationMethod) : run BridgeError (option ProjectedKey) :=
  match public_key_multibase vm with
  | Some mb =>
    decoded ← decode_multibase mb;
    Done (Ok (match decoded with
              | None => None
              | Some (0xed :: 0x01 :: rest) => Some (mk_ProjectedKey "ed25519" rest)
              | Some decoded => Some (mk_ProjectedKey (to_lowercase (kind vm)) decoded)
              end))
  | None =>
    Done (Ok (jwk ← public_key_jwk vm;
      if bool_decide (jget "kty" jwk ≫= as_str = Some "OKP") && bool_decide (jget "crv" jwk ≫= as_str = Some "Ed25519") then
        x ← jget "x" jwk ≫= as_str;
        match Base64.decode Base64.URL_SAFE_NO_PAD (bytes_of_str x) with Ok bytes => Some (mk_ProjectedKey "ed25519" bytes) | Err _ => None end
      else None))
  end.

Definition accept (cfg : DidBridgeConfig) (now : Z) (document : DidDocument) : run BridgeError Bridges.ActorIdentity :=
  vms ← Done (ok_or (verification_method document) (Rejected "DID has no verification methods"));
  match vms with
  | [] => Done (Err (Rejected "DID verification_method is empty"))
  | vm :: _ =>
    found ← extract_public_key vm;
    pk ← Done (ok_or found (Unsupported ("vm " +:+ vm_id vm +:+ " has no usable public key")));
    Done (Ok (Bridges.mk_ActorIdentity ("tf:actor:human:" +:+ trust_domain cfg +:+ "/" +:+ Bridges.encode_subject (id document)) AHuman None
      [Bridges.mk_PublicKey (vm_id vm) (algorithm pk) (str_of_bytes (Base64.encode Base64.STANDARD (key_bytes pk))) Bridges.Signing None None] [T2]
      [Bridges.mk_AuthorityRoot Bridges.Federation (controller vm)] None (Clock.now_iso8601 now) None None None))
  end.
End did.

Definition ed25519_public_key_to_did_key (pub_bytes : list Z) : result BridgeError string :=
  if negb (length pub_bytes =? 32)%nat then Err (InvalidInput ("ed25519 public key must be 32 bytes, got " +:+ pretty (length pub_bytes)))
  else Ok ("z" +:+ str_of_bytes (base58btc_encode (0xed :: 0x01 :: pub_bytes))).

(** ** Numbers in a base *)

Fixpoint val (b : Z) (l : list Z) : Z := match l with [] => 0 | d :: r => d * b ^ Z.of_nat (length r) + val b r end.
Definition digits_ok (b : Z) (l : list Z) : Prop := Forall (fun d => 0 <= d < b) l.
(** No leading zero. *)
Definition canonical (l : list Z) : Prop := match l with d :: _ => d <> 0 | [] => True end.

Lemma val_bound b l : 1 < b -> digits_ok b l -> 0 <= val b l < b ^ Z.of_nat (length l).
Proof.
  intros Hb. induction 1 as [|d l Hd _ IH]; cbn [val length]; [lia|]. rewrite Nat2Z.inj_succ, Z.pow_succ_r by lia. nia.
Qed.
Lemma val_snoc b l d : 0 <= b -> val b (l ++ [d]) = val b l * b + d.
Proof.
  intros Hb. induction l as [|a l IH]; cbn [app val length]; [lia|]. rewrite length_app. cbn [length]. rewrite IH, Nat.add_1_r, Nat2Z.inj_succ, Z.pow_succ_r by lia. lia.
Qed.
Lemma val_zeros b n : val b (replicate n 0) = 0.
Proof. induction n as [|n IH]; [done|]. cbn [replicate val]. lia. Qed.
Lemma val_strip b l : val b (drop (leading 0 l) l) = val b l.
Proof. induction l as [|d l IH]; [done|]. cbn [leading]. destruct (Z.eqb_spec d 0) as [->|]; [|done]. cbn [drop val]. rewrite IH. lia. Qed.
Lemma strip_canonical l : canonical (drop (leading 0 l) l).
Proof. induction l as [|d l IH]; [done|]. cbn [leading]. destruct (Z.eqb_spec d 0); [exact IH|done]. Qed.

(** A number has one representation of a given length, and one without leading
    zeros. *)
Lemma val_inj b l m : 1 < b -> digits_ok b l -> digits_ok b m -> length l = length m -> val b l = val b m -> l = m.
Proof.
  intros Hb Hl. revert m. induction Hl as [|d l Hd Hl IH]; intros [|e m] Hm E H; try done. apply Forall_cons in Hm as [He Hm]. injection E as E.
  cbn [val] in H. rewrite E in H. pose proof (val_bound b l Hb Hl) as B1. pose proof (val_bound b m Hb Hm) as B2. rewrite E in B1.
  assert (d = e) as -> by nia. f_equal. apply IH; [done|done|lia].
Qed.
Lemma canonical_len b l m : 1 < b -> digits_ok b l -> digits_ok b m -> canonical l -> val b l = val b m -> (length l <= length m)%nat.
Proof.
  intros Hb Hl Hm Hc H. destruct l as [|d l]; [cbn; lia|]. apply Forall_cons in Hl as [Hd Hl]. cbn [canonical] in Hc. pose proof (val_bound b l Hb Hl) as B1. pose proof (val_bound b m Hb Hm) as B2.
  cbn [val] in H. destruct (Nat.le_gt_cases (length (d :: l)) (length m)) as [|Hlt]; [done|]. exfalso. cbn [length] in Hlt.
  assert (b ^ Z.of_nat (length m) <= b ^ Z.of_nat (length l)) by (apply Z.pow_le_mono_r; lia). nia.
Qed.
Lemma canonical_unique b l m : 1 < b -> digits_ok b l -> digits_ok b m -> canonical l -> canonical m -> val b l = val b m -> l = m.
Proof.
  intros Hb Hl Hm Cl Cm H. apply (val_inj b); [done..| |done]. apply Nat.le_antisymm; [by apply (canonical_len b)|by apply (canonical_len b)].
Qed.

Lemma times58_spec l c l' c' : digits_ok 256 l -> 0 <= c -> times58 l c = (l', c') ->
  length l' = length l /\ digits_ok 256 l' /\ 0 <= c' /\ val 256 l' + c' * 256 ^ Z.of_nat (length l) = val 256 l * 58 + c.
Proof.
  intros Hl Hc. revert l' c'. induction Hl as [|d l Hd _ IH]; intros l' c'; cbn [times58].
  { intros [= <- <-]. cbn [length val]. split; [done|]. split; [constructor|]. lia. }
  destruct (times58 l c) as [l1 c1]. destruct (IH l1 c1 eq_refl) as (Hlen & Hok & Hc1 & Hv). intros [= <- <-].
  change 0xff with (Z.ones 8). rewrite Z.land_ones, Z.shiftr_div_pow2 by lia. change (2 ^ 8) with 256.
  pose proof (Z.div_mod (c1 + d * 58) 256 ltac:(lia)) as Hdm. pose proof (Z.mod_pos_bound (c1 + d * 58) 256 ltac:(lia)) as Hb. cbn [length val].
  rewrite Hlen, Nat2Z.inj_succ, Z.pow_succ_r by lia. split; [done|]. split; [by constructor|]. split; [apply Z.div_pos; lia|]. nia.
Qed.
Lemma times256_spec l c l' c' : digits_ok 58 l -> 0 <= c -> times256 l c = (l', c') ->
  length l' = length l /\ digits_ok 58 l' /\ 0 <= c' /\ val 58 l' + c' * 58 ^ Z.of_nat (length l) = val 58 l * 256 + c.
Proof.
  intros Hl Hc. revert l' c'. induction Hl as [|d l Hd _ IH]; intros l' c'; cbn [times256].
  { intros [= <- <-]. cbn [length val]. split; [done|]. split; [constructor|]. lia. }
  destruct (times256 l c) as [l1 c1]. destruct (IH l1 c1 eq_refl) as (Hlen & Hok & Hc1 & Hv). intros [= <- <-].
  pose proof (Z.div_mod (c1 + d * 256) 58 ltac:(lia)) as Hdm. pose proof (Z.mod_pos_bound (c1 + d * 256) 58 ltac:(lia)) as Hb. cbn [length val].
  rewrite Hlen, Nat2Z.inj_succ, Z.pow_succ_r by lia. split; [done|]. split; [by constructor|]. split; [apply Z.div_pos; lia|]. nia.
Qed.

(** ** The estimates are large enough *)

Lemma round53_lower p : 0 <= p -> p * (2 ^ 53 - 1) <= round53 p * 2 ^ 53.
Proof.
  intros Hp. unfold round53. destruct (Z.leb_spec (Z.log2 p - 52) 0) as [|Hs]; [nia|]. set (s := Z.log2 p - 52) in *.
  assert (0 < p) as Hp' by (destruct (Z.eq_dec p 0) as [->|]; [cbn in s; lia|lia]). pose proof (Z.log2_spec p Hp') as [Hlo _].
  assert (2 ^ Z.log2 p = 2 ^ s * 2 ^ 52) as E by (rewrite <- Z.pow_add_r by lia; f_equal; lia). rewrite E in Hlo.
  pose proof (Z.div_mod p (2 ^ s) ltac:(lia)) as Hd. pose proof (Z.mod_pos_bound p (2 ^ s) ltac:(lia)) as Hm. set (q := p / 2 ^ s) in *. set (r := p mod 2 ^ s) in *.
  destruct (Z.ltb_spec (2 ^ s) (2 * r)); cbn [orb]; [nia|]. destruct ((2 * r =? 2 ^ s) && Z.odd q); nia.
Qed.
Lemma mul_ceil_lower m k n : 0 <= m -> 0 <= n -> 0 <= k -> n * m * (2 ^ 53 - 1) <= mul_ceil m k n * 2 ^ k * 2 ^ 53.
Proof.
  intros Hm Hn Hk. unfold mul_ceil. pose proof (round53_lower (n * m) ltac:(nia)) as H. assert (0 < 2 ^ k) by (apply Z.pow_pos_nonneg; lia).
  pose proof (Z.div_mod (round53 (n * m) + 2 ^ k - 1) (2 ^ k) ltac:(lia)) as Hd. pose proof (Z.mod_pos_bound (round53 (n * m) + 2 ^ k - 1) (2 ^ k) ltac:(lia)) as Hb. nia.
Qed.

Lemma pow_compare a b p q n s : 1 < a -> 1 < b -> 0 < p -> 0 <= q -> 0 <= n -> 0 <= s -> a ^ p <= b ^ q -> q * n <= p * s -> a ^ n <= b ^ s.
Proof.
  intros Ha Hb Hp Hq Hn Hs H1 H2. apply (Z.pow_le_mono_l_iff _ _ p); [apply Z.pow_nonneg; lia..|done|]. rewrite <- !Z.pow_mul_r by lia. rewrite (Z.mul_comm n p), Z.pow_mul_r by lia.
  transitivity ((b ^ q) ^ n); [apply Z.pow_le_mono_l; split; [apply Z.pow_nonneg; lia|done]|]. rewrite <- Z.pow_mul_r by lia. apply Z.pow_le_mono_r; lia.
Qed.
Lemma size256_enough n : 0 <= n < 2 ^ 50 -> 58 ^ n <= 256 ^ size256 n /\ 0 <= size256 n.
Proof.
  intros Hn. pose proof (mul_ceil_lower 6602277053725147 53 n ltac:(lia) ltac:(lia) ltac:(lia)) as H.
  assert (733 * n <= 1000 * size256 n) as Hs by (unfold size256; lia). split; [|lia]. apply (pow_compare 58 256 1000 733); try lia.
Qed.
Lemma size58_enough n : 0 <= n < 2 ^ 50 -> 256 ^ n <= 58 ^ size58 n /\ 0 <= size58 n.
Proof.
  intros Hn. pose proof (mul_ceil_lower 6151917090988098 52 n ltac:(lia) ltac:(lia) ltac:(lia)) as H.
  assert (1366 * n <= 1000 * size58 n) as Hs by (unfold size58; lia). split; [|lia]. apply (pow_compare 256 58 1000 1366); try lia.
Qed.

(** ** The alphabet *)

Definition letter (d : Z) : Z := List.nth (Z.to_nat d) BASE58_ALPHABET 0.
Lemma position_letter d : 0 <= d < 58 -> position (letter d) BASE58_ALPHABET = Some d.
Proof.
  intros H. assert (all_below 58 (fun d => bool_decide (position (letter d) BASE58_ALPHABET = Some d)) = true) as Hall by (vm_compute; reflexivity).
  exact (bool_decide_eq_true_1 _ (all_below_spec 58 _ Hall d H)).
Qed.
Lemma position_some c l d : position c l = Some d -> 0 <= d < Z.of_nat (length l) /\ List.nth (Z.to_nat d) l 0 = c.
Proof.
  revert d. induction l as [|b l IH]; intros d; cbn [position]; [done|]. destruct (Z.eqb_spec b c) as [->|].
  - intros [= <-]. cbn [length List.nth Z.to_nat]. split; [lia|done].
  - destruct (position c l) as [n'|]; [|done]. cbn [mbind option_bind]. intros [= <-]. destruct (IH n' eq_refl) as [Hr Hn]. cbn [length]. split; [lia|].
    replace (Z.to_nat (n' + 1)) with (S (Z.to_nat n')) by lia. done.
Qed.
Lemma position_iff c d : position c BASE58_ALPHABET = Some d <-> 0 <= d < 58 /\ c = letter d.
Proof. split; [|intros [H ->]; by apply position_letter]. intros [H E]%position_some. change (Z.of_nat (length BASE58_ALPHABET)) with 58 in H. done. Qed.
Lemma letter_zero d : 0 <= d < 58 -> (letter d =? 49) = (d =? 0).
Proof.
  intros H. destruct (Z.eqb_spec d 0) as [->|Hd]; [done|]. apply Z.eqb_neq. intros E. pose proof (position_letter d H) as P. rewrite E in P. assert (Some 0 = Some d) by exact P. congruence.
Qed.

(** ** The loops *)

Lemma decode_loop_val b256 ds : digits_ok 256 b256 -> digits_ok 58 ds -> val 256 b256 * 58 ^ Z.of_nat (length ds) + val 58 ds < 256 ^ Z.of_nat (length b256) ->
  exists l, decode_loop b256 (letter <$> ds) = Some l /\ length l = length b256 /\ digits_ok 256 l /\ val 256 l = val 256 b256 * 58 ^ Z.of_nat (length ds) + val 58 ds.
Proof.
  intros Hb Hd. revert b256 Hb. induction Hd as [|d ds Hd Hds IH]; intros b256 Hb Hlt.
  - exists b256. cbn [val length]. split; [done|]. split; [done|]. split; [done|]. lia.
  - rewrite fmap_cons. cbn [decode_loop]. rewrite position_letter by done. cbn [mbind option_bind]. destruct (times58 b256 d) as [l1 c1] eqn:E.
    apply times58_spec in E as (Hlen & Hok & Hc & Hv); [|done|lia]. cbn [val length] in Hlt |- *. rewrite Nat2Z.inj_succ, Z.pow_succ_r in Hlt |- * by lia.
    pose proof (val_bound 58 ds ltac:(lia) Hds) as Bd. pose proof (val_bound 256 l1 ltac:(lia) Hok) as B1. pose proof (val_bound 256 b256 ltac:(lia) Hb) as B0.
    assert (0 < 58 ^ Z.of_nat (length ds)) by (apply Z.pow_pos_nonneg; lia). assert (0 < 256 ^ Z.of_nat (length b256)) by (apply Z.pow_pos_nonneg; lia).
    assert (c1 = 0) as -> by nia. cbn [Z.eqb negb]. destruct (IH l1 Hok) as (l & Hl & Hl2 & Hl3 & Hl4); [rewrite Hlen; nia|]. exists l. rewrite Hl, Hl2, Hlen, Hl4.
    split; [done|]. split; [done|]. split; [done|]. nia.
Qed.
Lemma decode_loop_some b256 cs l : digits_ok 256 b256 -> decode_loop b256 cs = Some l ->
  exists ds, digits_ok 58 ds /\ cs = letter <$> ds /\ length l = length b256 /\ digits_ok 256 l /\ val 256 l = val 256 b256 * 58 ^ Z.of_nat (length ds) + val 58 ds.
Proof.
  intros Hb. revert b256 Hb. induction cs as [|c cs IH]; intros b256 Hb; cbn [decode_loop].
  - intros [= ->]. exists []. cbn [val length]. split; [constructor|]. split; [done|]. split; [done|]. split; [done|]. lia.
  - destruct (position c BASE58_ALPHABET) as [d|] eqn:Ep; [|done]. apply position_iff in Ep as [Hd ->]. cbn [mbind option_bind]. destruct (times58 b256 d) as [l1 c1] eqn:E.
    apply times58_spec in E as (Hlen & Hok & Hc & Hv); [|done|lia]. destruct (Z.eqb_spec c1 0) as [->|]; [|done]. cbn [negb].
    intros (ds & Hds & -> & Hl1 & Hl2 & Hl3)%IH; [|done]. exists (d :: ds). split; [by constructor|]. split; [done|]. split; [congruence|]. split; [done|].
    cbn [val length]. rewrite Nat2Z.inj_succ, Z.pow_succ_r by lia. nia.
Qed.
Lemma encode_loop_val b58 bs : digits_ok 58 b58 -> is_bytes bs -> val 58 b58 * 256 ^ Z.of_nat (length bs) + val 256 bs < 58 ^ Z.of_nat (length b58) ->
  let l := foldl (fun b58 byte => fst (times256 b58 byte)) b58 bs in
  length l = length b58 /\ digits_ok 58 l /\ val 58 l = val 58 b58 * 256 ^ Z.of_nat (length bs) + val 256 bs.
Proof.
  intros Hb Hd. revert b58 Hb. induction Hd as [|d bs Hd Hds IH]; intros b58 Hb Hlt; cbn [foldl].
  - cbn [val length]. split; [done|]. split; [done|]. lia.
  - destruct (times256 b58 d) as [l1 c1] eqn:E. unfold is_u8 in Hd. apply times256_spec in E as (Hlen & Hok & Hc & Hv); [|done|lia]. cbn [fst]. cbn [val length] in Hlt |- *.
    rewrite Nat2Z.inj_succ, Z.pow_succ_r in Hlt |- * by lia.
    pose proof (val_bound 256 bs ltac:(lia) Hds) as Bd. pose proof (val_bound 58 l1 ltac:(lia) Hok) as B1. pose proof (val_bound 58 b58 ltac:(lia) Hb) as B0.
    assert (0 < 256 ^ Z.of_nat (length bs)) by (apply Z.pow_pos_nonneg; lia). assert (0 < 58 ^ Z.of_nat (length b58)) by (apply Z.pow_pos_nonneg; lia).
    assert (c1 = 0) as -> by nia. destruct (IH l1 Hok) as (Hl2 & Hl3 & Hl4); [rewrite Hlen; nia|]. split; [congruence|]. split; [done|]. nia.
Qed.

Lemma zeros_ok b n : 1 < b -> digits_ok b (replicate n 0).
Proof. intros H. induction n; constructor; [lia|done]. Qed.
Lemma strip_ok b l : digits_ok b l -> digits_ok b (drop (leading 0 l) l).
Proof. apply Forall_drop. Qed.
(** Leading characters and the rest. *)
Lemma leading_split c l : l = replicate (leading c l) c ++ drop (leading c l) l.
Proof. induction l as [|d l IH]; [done|]. cbn [leading]. destruct (Z.eqb_spec d c) as [->|]; [|done]. cbn [replicate drop app]. by rewrite <- IH. Qed.
Lemma leading_head c l : head (drop (leading c l) l) <> Some c.
Proof. induction l as [|d l IH]; [done|]. cbn [leading]. destruct (Z.eqb_spec d c); [exact IH|]. cbn. congruence. Qed.
Lemma leading_app c n l : head l <> Some c -> leading c (replicate n c ++ l) = n /\ drop n (replicate n c ++ l) = l.
Proof.
  intros H. split; [|by rewrite drop_app_length' by (by rewrite length_replicate)]. induction n as [|n IH]; cbn [replicate app leading].
  - destruct l as [|d l]; [done|]. cbn [leading]. destruct (Z.eqb_spec d c); [|done]. cbn in H. congruence.
  - by rewrite Z.eqb_refl, IH.
Qed.

Lemma decode_body s : base58btc_decode s =
  b256 ← decode_loop (replicate (Z.to_nat (size256 (Z.of_nat (length s - leading 49 s)))) 0) (drop (leading 49 s) s);
  Some (replicate (leading 49 s) 0 ++ drop (leading 0 b256) b256).
Proof. by destruct s. Qed.
Definition encoded (bytes : list Z) : list Z :=
  foldl (fun b58 byte => fst (times256 b58 byte)) (replicate (Z.to_nat (size58 (Z.of_nat (length bytes)))) 0) (drop (leading 0 bytes) bytes).
Lemma encode_body bytes : base58btc_encode bytes =
  replicate (leading 0 bytes) 49 ++ (letter <$> drop (leading 0 (encoded bytes)) (encoded bytes)).
Proof. by destruct bytes. Qed.

(** The digits of an encoded number. *)
Lemma encoded_val bytes : is_bytes bytes -> Z.of_nat (length bytes) < 2 ^ 50 -> digits_ok 58 (encoded bytes) /\ val 58 (encoded bytes) = val 256 bytes.
Proof.
  intros Hb Hl. destruct (size58_enough (Z.of_nat (length bytes)) ltac:(lia)) as [Hs Hs0]. unfold encoded. set (r := drop (leading 0 bytes) bytes).
  assert (is_bytes r) as Hr by (by apply Forall_drop). pose proof (val_bound 256 r ltac:(lia) Hr) as Br.
  assert (256 ^ Z.of_nat (length r) <= 256 ^ Z.of_nat (length bytes)) by (apply Z.pow_le_mono_r; [lia|unfold r; rewrite length_drop; lia]).
  destruct (encode_loop_val (replicate (Z.to_nat (size58 (Z.of_nat (length bytes)))) 0) r) as (_ & Hok & Hv); [apply zeros_ok; lia|done| |].
  - rewrite val_zeros, length_replicate, Z2Nat.id by done. lia.
  - split; [done|]. rewrite Hv, val_zeros. unfold r. rewrite val_strip. lia.
Qed.

Lemma letter_head ds : digits_ok 58 ds -> canonical ds <-> head (letter <$> ds) <> Some 49.
Proof.
  destruct ds as [|d ds]; [done|]. intros [Hd _]%Forall_cons. rewrite fmap_cons. cbn [head canonical]. pose proof (letter_zero d Hd) as H. destruct (Z.eqb_spec (letter d) 49), (Z.eqb_spec d 0); split; congruence.
Qed.
Lemma head_canonical l : canonical l <-> head l <> Some 0.
Proof. destruct l as [|d l]; [done|]. cbn. split; congruence. Qed.

Lemma base58_inverse s b : Z.of_nat (length s) < 2 ^ 50 -> Z.of_nat (length b) < 2 ^ 50 ->
  base58btc_decode s = Some b <-> is_bytes b /\ s = base58btc_encode b.
Proof.
  intros Hs Hb. rewrite decode_body, encode_body. set (z := leading 49 s). pose proof (size256_enough (Z.of_nat (length s - z)) ltac:(lia)) as [Hsz Hsz0]. split.
  - destruct (decode_loop _ _) as [l|] eqn:E; [|done]. cbn [mbind option_bind]. intros <-%Some_inj. apply decode_loop_some in E as (ds & Hds & Er & _ & Hl & Hv); [|apply zeros_ok; lia].
    rewrite val_zeros in Hv. pose proof (strip_canonical l) as Cl. pose proof (leading_head 49 s) as Hh. fold z in Hh. rewrite Er in Hh. apply letter_head in Hh as Cds; [|done].
    assert (is_bytes (replicate z 0 ++ drop (leading 0 l) l)) as Hbytes by (apply Forall_app_2; [apply (zeros_ok 256); lia|by apply Forall_drop]). split; [done|].
    destruct (encoded_val _ Hbytes Hb) as [Hok Hval]. destruct (leading_app 0 z (drop (leading 0 l) l) ltac:(by apply head_canonical)) as [Ez Ed].
    rewrite Ez. rewrite (canonical_unique 58 (drop (leading 0 (encoded _)) (encoded _)) ds); [|lia|by apply strip_ok|done|apply strip_canonical|done|].
    + rewrite <- Er. unfold z. apply leading_split.
    + rewrite val_strip, Hval, <- val_strip, Ez, Ed, val_strip. lia.
  - intros [Hbytes Es]. destruct (encoded_val b Hbytes Hb) as [Hok Hval]. set (ds := drop (leading 0 (encoded b)) (encoded b)) in *.
    assert (digits_ok 58 ds) as Hds by (by apply strip_ok). assert (canonical ds) as Cds by apply strip_canonical.
    destruct (leading_app 49 (leading 0 b) (letter <$> ds) ltac:(by apply letter_head)) as [Ez Ed]. rewrite <- Es in Ez, Ed. fold z in Ez. rewrite Ez in Hsz, Hsz0 |- *. rewrite Ed.
    assert (length s - leading 0 b = length ds)%nat as El by (rewrite Es, length_app, length_replicate, length_fmap; lia). rewrite El in *.
    destruct (decode_loop_val (replicate (Z.to_nat (size256 (Z.of_nat (length ds)))) 0) ds) as (l & -> & _ & Hl & Hv); [apply zeros_ok; lia|done| |].
    { rewrite val_zeros, length_replicate, Z2Nat.id by done. pose proof (val_bound 58 ds ltac:(lia) Hds). lia. }
    cbn [mbind option_bind]. f_equal. rewrite (canonical_unique 256 (drop (leading 0 l) l) (drop (leading 0 b) b)); [symmetry; apply leading_split|lia|by apply strip_ok|by apply strip_ok|apply strip_canonical..|].
    rewrite !val_strip, Hv, val_zeros. unfold ds. rewrite val_strip, Hval. lia.
Qed.

(** decoding base 58 accepts exactly the encodings of byte strings and gives the
    string back, for every length below [2^50]: the array sizes estimated in
    floating point always suffice, and no text is decoded that another one also
    encodes. *)
Theorem base58_decode_iff s b (Hs : Z.of_nat (length s) < 2 ^ 50) (Hb : Z.of_nat (length b) < 2 ^ 50) :
  base58btc_decode s = Some b <-> is_bytes b /\ s = base58btc_encode b.
Proof. by apply base58_inverse. Qed.

(** ** [did:key] *)

Lemma letter_ascii d : 0 <= d < 58 -> 0 <= letter d < 128.
Proof.
  intros H. assert (all_below 58 (fun d => (0 <=? letter d) && (letter d <? 128)) = true) as Hall by (vm_compute; reflexivity).
  apply (all_below_spec 58 _ Hall) in H. lia.
Qed.
Lemma ascii_text l : Forall (fun c => 0 <= c < 128) l -> is_bytes l /\ Clock.is_ascii (str_of_bytes l) = true.
Proof.
  intros H. assert (is_bytes l) as Hb by (eapply Forall_impl; [exact H|]; unfold is_u8; cbn; lia). split; [done|].
  rewrite <- (bytes_of_str_of_bytes l Hb) in H. induction (str_of_bytes l) as [|c s IH]; [done|]. change (bytes_of_str (String c s)) with (Z.of_N (N_of_ascii c) :: bytes_of_str s) in H.
  apply Forall_cons in H as [Hc H]. cbn [Clock.is_ascii]. rewrite (proj2 (Z.ltb_lt _ _)) by lia. by apply IH.
Qed.
Lemma encode_ascii b : is_bytes b -> Z.of_nat (length b) < 2 ^ 50 -> Forall (fun c => 0 <= c < 128) (base58btc_encode b).
Proof.
  intros Hb Hl. rewrite encode_body. apply Forall_app. split; [apply Forall_replicate; lia|]. apply Forall_fmap. destruct (encoded_val b Hb Hl) as [Hok _].
  eapply Forall_impl; [by apply strip_ok|]. intros d Hd. by apply letter_ascii.
Qed.
Lemma encode_length b : (length (base58btc_encode b) <= length b + Z.to_nat (size58 (Z.of_nat (length b))))%nat.
Proof.
  rewrite encode_body, length_app, length_replicate, length_fmap, length_drop. assert (leading 0 b <= length b)%nat.
  { induction b as [|d b IH]; [done|]. cbn [leading length]. destruct (d =? 0); lia. }
  assert (length (encoded b) = Z.to_nat (size58 (Z.of_nat (length b)))) as E; [|lia]. unfold encoded. rewrite <- (length_replicate (Z.to_nat (size58 (Z.of_nat (length b)))) 0) at 2.
  generalize (replicate (Z.to_nat (size58 (Z.of_nat (length b)))) 0) as l. induction (drop (leading 0 b) b) as [|d bs IH]; intros l; [done|]. cbn [foldl]. rewrite IH.
  clear. revert d. induction l as [|a l IHl]; intros d; [done|]. cbn [times256]. specialize (IHl d). destruct (times256 l d). cbn [fst length] in *. lia.
Qed.

Definition prefixed (pub : list Z) : list Z := 0xed :: 0x01 :: pub.
Lemma to_did_key pub mb : is_bytes pub -> ed25519_public_key_to_did_key pub = Ok mb ->
  length pub = 32%nat /\ mb = "z" +:+ str_of_bytes (base58btc_encode (prefixed pub)) /\ decode_multibase mb = Done (Ok (Some (prefixed pub))).
Proof.
  unfold ed25519_public_key_to_did_key. fold (prefixed pub). intros Hb. destruct (Nat.eqb_spec (length pub) 32) as [El|]; [|done]. cbn [negb]. intros <-%Ok_inj. split; [done|]. split; [done|].
  assert (is_bytes (prefixed pub)) as Hp by (repeat constructor; done). assert (length (prefixed pub) = 34%nat) as Lp by (cbn; lia).
  assert (Forall (fun c => 0 <= c < 128) (base58btc_encode (prefixed pub))) as Ha by (apply encode_ascii; [done|rewrite Lp; lia]).
  pose proof (ascii_text _ Ha) as [Hbytes Hascii]. unfold decode_multibase. rewrite str_app_cons. change ("" +:+ ?t) with t. cbn [bytes_of_str].
  rewrite Clock.ascii_boundary; [|cbn [Clock.is_ascii]; by rewrite Hascii|cbn [String.length]; lia]. cbn [negb Ascii.eqb Bool.eqb].
  rewrite bytes_of_str_of_bytes by done. 
  assert (Z.of_nat (length (base58btc_encode (prefixed pub))) < 2 ^ 50) as Hl.
  { pose proof (encode_length (prefixed pub)) as Hl. rewrite Lp in Hl. change (Z.to_nat (size58 (Z.of_nat 34))) with 48%nat in Hl. lia. }
  assert (base58btc_decode (base58btc_encode (prefixed pub)) = Some (prefixed pub)) as -> by (apply base58_inverse; [done|rewrite Lp; lia|done]). done.
Qed.

(** an ed25519 key written as a [did:key] resolves, where the method is allowed,
    to a document that is accepted as an identity with exactly that key; different
    keys are written differently. *)
Theorem did_key_roundtrip to_lowercase cfg now pub mb (Hb : is_bytes pub) (H : ed25519_public_key_to_did_key pub = Ok mb)
  (Ha : forall allow, allowed_methods cfg = Some allow -> "key" ∈ allow) :
  (exists doc i, resolve_did_key cfg ("did:key:" +:+ mb) = Ok doc /\ accept to_lowercase cfg now doc = Done (Ok i) /\
    Bridges.actor_id i = "tf:actor:human:" +:+ trust_domain cfg +:+ "/" +:+ Bridges.encode_subject ("did:key:" +:+ mb) /\
    ((fun k => (Bridges.key_algorithm k, Bridges.public_key k)) <$> Bridges.public_keys i) = [("ed25519", str_of_bytes (Base64.encode Base64.STANDARD pub))]) /\
  forall pub', is_bytes pub' -> ed25519_public_key_to_did_key pub' = Ok mb -> pub' = pub.
Proof.
  destruct (to_did_key pub mb Hb H) as (El & Em & Ed). split.
  - eexists _, (Bridges.mk_ActorIdentity _ _ _ [Bridges.mk_PublicKey _ _ _ _ _ _] _ _ _ _ _ _ _). split.
    + unfold resolve_did_key. assert (parse_did_method ("did:key:" +:+ mb) = Ok "key") as -> by reflexivity. cbn [mbind result_bind].
      assert (match allowed_methods cfg with Some allow => negb (existsb (fun m => m =? "key")%string allow) | None => false end = false) as ->.
      { destruct (allowed_methods cfg) as [allow|]; [|done]. apply negb_false_iff, existsb_exists. exists "key". split; [by apply list_elem_of_In, Ha|done]. }
      cbn [String.eqb Ascii.eqb Bool.eqb negb andb]. rewrite (proj2 (strip_prefix_spec "did:key:" _ _) eq_refl). reflexivity.
    + split; [|split; reflexivity]. unfold accept. cbn [verification_method ok_or mbind run_bind]. unfold extract_public_key. cbn [public_key_multibase]. rewrite Ed. reflexivity.
  - intros pub' Hb' H'. destruct (to_did_key pub' mb Hb' H') as (_ & _ & Ed'). rewrite Ed in Ed'. by injection Ed'.
Qed.

(** ** Examples *)

Lemma base58_decode_iff_witness : base58btc_decode (bytes_of_str "11Ldp") = Some [0; 0; 1; 2; 3].
Proof. apply base58_decode_iff; [vm_compute; reflexivity|vm_compute; reflexivity|]. split; [repeat constructor; done|vm_compute; reflexivity]. Defined.
Definition config1 : DidBridgeConfig := mk_DidBridgeConfig "did" "d" (Some ["web"; "key"]).
Lemma did_key_roundtrip_witness : exists mb doc i, ed25519_public_key_to_did_key (replicate 32 7) = Ok mb /\ resolve_did_key config1 ("did:key:" +:+ mb) = Ok doc /\
  accept (fun s => s) config1 0 doc = Done (Ok i).
Proof.
  destruct (ed25519_public_key_to_did_key (replicate 32 7)) as [mb|e] eqn:E; [|discriminate].
  destruct (did_key_roundtrip (fun s => s) config1 0 (replicate 32 7) mb) as [(doc & i & H1 & H2 & _) _].
  - apply Forall_replicate. done.
  - exact E.
  - intros allow [= <-]. apply elem_of_cons. right. apply elem_of_cons. left. reflexivity.
  - exists mb, doc, i. split; [reflexivity|]. split; assumption.
Defined.

(** A key text that begins with a character of two bytes. *)
Example multibase_panics :
  accept (fun s => s) config1 0 (mk_DidDocument "did:web:x" (Some [mk_DidVerificationMethod "k" "t" "c" (Some (str_of_bytes [0xc3; 0xa9])) None]) None None) = Panics.
Proof. vm_compute. reflexivity. Qed.
(** The text of a key lacks the scheme that [resolve_did_key] asks for. *)
Example key_text_is_no_did : exists mb, ed25519_public_key_to_did_key (replicate 32 7) = Ok mb /\ resolve_did_key config1 mb = Err (InvalidInput ("not a DID: " +:+ mb)).
Proof. eexists. split; vm_compute; reflexivity. Qed.

End Did.
