(* ===== verification/Http.v ===== *)
(** * Http: the HTTP/1.1 client ([tf-transport/src/lib.rs])

    - [validate_headers], [parse_url], [raw_request]: what is sent;
    - [response_framing], [decode_chunked], [response_complete],
      [parse_response]: how answers are delimited and read;
    - [receive]: the loop over what the socket yields, a list of non-empty reads
      followed by the end of the stream.

    Connecting, writing and the timeout are not modelled: an answer is the
    sequence of reads.  Arithmetic on [usize] is that of a release build on a
    64-bit target.

    - [http_receive_exact]: how the network splits an answer does not matter;
    - [chunked_decode_iff]: the chunked bodies that are accepted are exactly
      those of the grammar [chunked_body];
    - [http_request_lines]: checked headers cannot add lines to a request;
      [url_injects_header]: the path of the URL can;
    - [folded_check_never_fires]: the test for folded headers is dead code;
    - [chunk_size_panics]: an answer that stops the client. *)

From S2P Require Import Prelude Utf8 Clock CanonicalText ActorId Bridges Jws OAuth.
Import Bridges(run(..), run_bind).

#[local] Open Scope string_scope.
#[local] Open Scope list_scope.
#[local] Open Scope Z_scope.

Module Http.

Inductive Method := Get | Post.
#[global] Instance Method_eq_dec : EqDecision Method. Proof. solve_decision. Defined.
Definition as_str (m : Method) : string := match m with Get => "GET" | Post => "POST" end.
(** The time limit is not modelled. *)
Record HttpRequest := mk_HttpRequest { method : Method; url : string; headers : list (string * string); body : list Z; max_response_bytes : Z }.
Record HttpResponse := mk_HttpResponse { status : Z; resp_headers : list (string * string); resp_body : list Z }.
Inductive HttpError := UnsupportedUrl (u : string) | InvalidHeader (h : string) | Malformed (what : string) | MalformedDetail (what : string).

(** ** Requests *)

Definition new (m : Method) (u : string) : HttpRequest := mk_HttpRequest m u [] [] (16 * 1024 * 1024).
Definition header (name value : string) (r : HttpRequest) : HttpRequest :=
  mk_HttpRequest (method r) (url r) (headers r ++ [(name, value)]) (body r) (max_response_bytes r).
Definition bearer_auth (token : string) (r : HttpRequest) : HttpRequest :=
  if str_is_empty token then r else header "Authorization" ("Bearer " +:+ token) r.
Definition set_body (bytes : list Z) (r : HttpRequest) : HttpRequest := mk_HttpRequest (method r) (url r) (headers r) bytes (max_response_bytes r).
Definition json_body (bytes : list Z) (r : HttpRequest) : HttpRequest := set_body bytes (header "Content-Type" "application/json" r).

Definition is_reserved_request_header (name : string) : bool :=
  let n := ActorId.to_ascii_lowercase name in
  (n =? "host")%string || (n =? "connection")%string || (n =? "content-length")%string || (n =? "transfer-encoding")%string.
Definition any_byte (p : Z -> bool) (s : string) : bool := existsb p (bytes_of_str s).
Definition is_crlf (b : Z) : bool := (b =? 13) || (b =? 10).
Definition header_ok (nv : string * string) : bool :=
  let '(name, value) := nv in
  negb (str_is_empty name) && negb (any_byte (fun b => (b <=? 0x20) || (b =? 58) || (b =? 13) || (b =? 10)) name)
  && negb (is_reserved_request_header name) && negb (any_byte is_crlf value).
Fixpoint validate_headers (hs : list (string * string)) : result HttpError unit :=
  match hs with [] => Ok tt | h :: hs => if header_ok h then validate_headers hs else Err (InvalidHeader (fst h)) end.

(** [rest.find(['/', '?'])]: the texts before and from there on. *)
Fixpoint split_authority (s : string) : string * string :=
  match s with
  | EmptyString => ("", "")
  | String c r => if Ascii.eqb c "/" || Ascii.eqb c "?" then ("", s) else let '(a, b) := split_authority r in (String c a, b)
  end.
Definition valid_port (port : string) : bool :=
  negb (str_is_empty port) && bool_decide (is_Some (Clock.parse_int 0 (2 ^ 16 - 1) port)).
Fixpoint count_char (c : ascii) (s : string) : nat :=
  match s with EmptyString => 0%nat | String d r => if Ascii.eqb d c then S (count_char c r) else count_char c r end.

Definition parse_url (u : string) : result HttpError (string * string * string) :=
  let unsupported := UnsupportedUrl u in
  rest ← ok_or (strip_prefix "http://" u) unsupported;
  let '(authority, tail) := split_authority rest in
  let path := match tail with EmptyString => "/" | String c _ => if Ascii.eqb c "?" then "/" +:+ tail else tail end in
  if str_is_empty authority || ActorId.has "@" authority || ActorId.has "#" authority || any_byte (fun b => (b <=? 0x20) || (b =? 47)) authority then Err unsupported
  else
    '(addr, host_header) ←
      match strip_prefix "[" authority with
      | Some after_bracket =>
        '(host, rest) ← ok_or (ActorId.split_first "]" after_bracket) unsupported;
        if str_is_empty host then Err unsupported
        else
          port ← (if str_is_empty rest then Ok "80" else ok_or (opt_filter valid_port (strip_prefix ":" rest)) unsupported);
          Ok ("[" +:+ host +:+ "]:" +:+ port, authority)
      | None =>
        if (1 <? count_char ":" authority)%nat then Err unsupported
        else
          match ActorId.split_last ":" authority with
          | Some (host, port) => if str_is_empty host || negb (valid_port port) then Err unsupported else Ok (authority, authority)
          | None => Ok (authority +:+ ":80", authority)
          end
      end;
    Ok (addr, host_header, path).

Definition crlf : string := str_of_bytes [13; 10].
Fixpoint header_lines (hs : list (string * string)) : string :=
  match hs with [] => "" | (name, value) :: hs => name +:+ ": " +:+ value +:+ crlf +:+ header_lines hs end.
(** The head of the request; the body follows it. *)
Definition raw_request (r : HttpRequest) (host path : string) : string :=
  as_str (method r) +:+ " " +:+ path +:+ " HTTP/1.1" +:+ crlf +:+ "Host: " +:+ host +:+ crlf +:+ "Connection: close" +:+ crlf
  +:+ header_lines (headers r)
  +:+ (if negb (length (body r) =? 0)%nat || bool_decide (method r = Post) then "Content-Length: " +:+ pretty (length (body r)) +:+ crlf else "")
  +:+ crlf.
(** What [send_inner] connects to and writes before it reads. *)
Definition prepare (r : HttpRequest) : result HttpError (string * list Z) :=
  _ ← validate_headers (headers r);
  '(addr, host, path) ← parse_url (url r);
  Ok (addr, bytes_of_str (raw_request r host path) ++ body r).

(** ** Answers *)

(** [raw.windows(k).position(|w| w == pat)]. *)
Fixpoint find_bytes (pat raw : list Z) : option nat :=
  if bool_decide (take (length pat) raw = pat) then Some 0%nat
  else match raw with [] => None | _ :: raw => S <$> find_bytes pat raw end.
Definition find_header_end (raw : list Z) : option nat := (fun i => (i + 4)%nat) <$> find_bytes [13; 10; 13; 10] raw.

(** [String::from_utf8_lossy]: each maximal invalid piece becomes U+FFFD. *)
Definition replacement : list Z := [0xef; 0xbf; 0xbd].
Definition within (lo hi b : Z) : bool := (lo <=? b) && (b <=? hi).
Definition second_of_3 (b0 b1 : Z) : bool :=
  (b0 =? 0xe0) && within 0xa0 0xbf b1 || within 0xe1 0xec b0 && within 0x80 0xbf b1 || (b0 =? 0xed) && within 0x80 0x9f b1 || within 0xee 0xef b0 && within 0x80 0xbf b1.
Definition second_of_4 (b0 b1 : Z) : bool :=
  (b0 =? 0xf0) && within 0x90 0xbf b1 || within 0xf1 0xf3 b0 && within 0x80 0xbf b1 || (b0 =? 0xf4) && within 0x80 0x8f b1.
Fixpoint from_utf8_lossy (bs : list Z) : list Z :=
  match bs with
  | [] => []
  | b0 :: r0 =>
    if b0 <? 0x80 then b0 :: from_utf8_lossy r0
    else if within 0xc2 0xdf b0 then
      match r0 with b1 :: r1 => if within 0x80 0xbf b1 then b0 :: b1 :: from_utf8_lossy r1 else replacement ++ from_utf8_lossy r0 | [] => replacement end
    else if within 0xe0 0xef b0 then
      match r0 with
      | b1 :: r1 =>
        if second_of_3 b0 b1 then
          match r1 with b2 :: r2 => if within 0x80 0xbf b2 then b0 :: b1 :: b2 :: from_utf8_lossy r2 else replacement ++ from_utf8_lossy r1 | [] => replacement end
        else replacement ++ from_utf8_lossy r0
      | [] => replacement
      end
    else if within 0xf0 0xf4 b0 then
      match r0 with
      | b1 :: r1 =>
        if second_of_4 b0 b1 then
          match r1 with
          | b2 :: r2 =>
            if within 0x80 0xbf b2 then
              match r2 with b3 :: r3 => if within 0x80 0xbf b3 then b0 :: b1 :: b2 :: b3 :: from_utf8_lossy r3 else replacement ++ from_utf8_lossy r2 | [] => replacement end
            else replacement ++ from_utf8_lossy r1
          | [] => replacement
          end
        else replacement ++ from_utf8_lossy r0
      | [] => replacement
      end
    else replacement ++ from_utf8_lossy r0
  end.

(** [str::lines]. *)
Fixpoint strip_cr (s : string) : string :=
  match s with EmptyString => "" | String c EmptyString => if Ascii.eqb c "013" then "" else s | String c r => String c (strip_cr r) end.
Fixpoint lines_from (current : string) (s : string) : list string :=
  match s with
  | EmptyString => if str_is_empty current then [] else [current]
  | String c r => if Ascii.eqb c "010" then strip_cr current :: lines_from "" r else lines_from (current +:+ String c "") r
  end.
Definition lines (s : string) : list string := lines_from "" s.

Record ResponseFraming := mk_ResponseFraming { content_length : option Z; chunked : bool }.
Definition eq_ignore_ascii_case (a b : string) : bool := (ActorId.to_ascii_lowercase a =? ActorId.to_ascii_lowercase b)%string.
Definition starts_blank (s : string) : bool := String.prefix " " s || String.prefix (str_of_bytes [9]) s.
Definition parse_usize : string -> option Z := Clock.parse_int 0 (2 ^ 64 - 1).
Definition codings (value : string) : list string :=
  List.filter (fun v => negb (str_is_empty v)) ((fun v => ActorId.to_ascii_lowercase (trim_str v)) <$> Jws.split "," value).

Fixpoint framing_lines (ls : list string) (framing : ResponseFraming) : result HttpError ResponseFraming :=
  match ls with
  | [] => Ok framing
  | line :: ls =>
    if str_is_empty line then Ok framing
    else
      '(name, value) ← ok_or (ActorId.split_first ":" line) (MalformedDetail ("header line without colon: " +:+ line));
      if any_byte (fun b => b <=? 0x20) name then Err (MalformedDetail ("invalid header name: " +:+ name))
      else if String.prefix " " value && starts_blank (str_of_chars (trim_start (chars value))) then Err (Malformed "obsolete folded header")
      else if eq_ignore_ascii_case name "content-length" then
        parsed ← ok_or (parse_usize (trim_str value)) (Malformed "bad content-length");
        match content_length framing with
        | Some existing => if negb (existing =? parsed) then Err (Malformed "conflicting content-length") else framing_lines ls framing
        | None => framing_lines ls (mk_ResponseFraming (Some parsed) (chunked framing))
        end
      else if eq_ignore_ascii_case name "transfer-encoding" then
        let cs := codings value in
        if bool_decide (last cs = Some "chunked") then framing_lines ls (mk_ResponseFraming (content_length framing) true)
        else if existsb (fun v => v =? "chunked")%string cs then Err (Malformed "chunked transfer-coding is not final")
        else framing_lines ls framing
      else framing_lines ls framing
  end.
Definition response_framing (head : string) : result HttpError ResponseFraming :=
  framing ← framing_lines (drop 1 (lines head)) (mk_ResponseFraming None false);
  if chunked framing && bool_decide (is_Some (content_length framing)) then Err (Malformed "both transfer-encoding and content-length present")
  else Ok framing.

(** [usize::from_str_radix(s, 16)]. *)
Definition hex_value (c : ascii) : option Z :=
  let n := Z.of_N (N_of_ascii c) in
  if (48 <=? n) && (n <=? 57) then Some (n - 48) else if (97 <=? n) && (n <=? 102) then Some (n - 87) else if (65 <=? n) && (n <=? 70) then Some (n - 55) else None.
Fixpoint hex_digits (acc : Z) (s : string) : option Z :=
  match s with
  | EmptyString => Some acc
  | String c r => d ← hex_value c; let n := acc * 16 + d in if n <? 2 ^ 64 then hex_digits n r else None
  end.
Definition from_str_radix_16 (s : string) : option Z :=
  let s := match s with String "+" r => r | _ => s end in if str_is_empty s then None else hex_digits 0 s.

Definition bad {A} (what : string) : run HttpError A := Done (Err (Malformed what)).
Definition len (l : list Z) : Z := Z.of_nat (length l).
(** What the line before a chunk announces. *)
Definition chunk_size (size_bytes : list Z) : result HttpError Z :=
  if negb (valid_utf8 size_bytes) then Err (Malformed "chunk header is not utf-8")
  else
    size_part ← ok_or (List.hd_error (Jws.split ";" (trim_str (str_of_bytes size_bytes)))) (Malformed "empty chunk size");
    ok_or (from_str_radix_16 size_part) (Malformed "bad chunk size").
(** The rest of the body and the bytes decoded so far; [size + 2] wraps. *)
Fixpoint chunk_loop (fuel : nat) (rest out : list Z) : run HttpError (list Z) :=
  match fuel with
  | O => Loops
  | S fuel =>
    match find_bytes [13; 10] rest with
    | None => bad "incomplete chunk header"
    | Some line_end =>
      match chunk_size (take line_end rest) with
      | Err e => Done (Err e)
      | Ok size =>
        let rest := drop (line_end + 2) rest in
        if size =? 0 then match find_bytes [13; 10] rest with None => bad "incomplete chunk trailers" | Some _ => Done (Ok out) end
        else
          let end_ := Clock.as_u64 (size + 2) in
          if len rest <? end_ then bad "incomplete chunk body"
          else if end_ <? size then Panics
          else if negb (bool_decide (take 2 (drop (Z.to_nat size) rest) = [13; 10])) then bad "incomplete chunk body"
          else chunk_loop fuel (drop (Z.to_nat end_) rest) (out ++ take (Z.to_nat size) rest)
      end
    end
  end.
Definition decode_chunked (rest : list Z) : run HttpError (list Z) := chunk_loop (S (length rest)) rest [].

Definition head_of (raw : list Z) (header_end : nat) : string := str_of_bytes (from_utf8_lossy (take header_end raw)).
Definition response_complete (raw : list Z) : run HttpError bool :=
  match find_header_end raw with
  | None => Done (Ok false)
  | Some header_end =>
    framing ← Done (response_framing (head_of raw header_end));
    match content_length framing with
    | Some n => Done (Ok (Clock.as_u64 (Z.of_nat header_end + n) <=? len raw))
    | None =>
      if chunked framing then match decode_chunked (drop header_end raw) with Done r => Done (Ok (is_ok r)) | Panics => Panics | Loops => Loops end
      else Done (Ok false)
    end
  end.

Fixpoint parse_header_lines (ls : list string) : result HttpError (list (string * string)) :=
  match ls with
  | [] => Ok []
  | line :: ls =>
    if str_is_empty line then Ok []
    else
      '(name, value) ← ok_or (ActorId.split_first ":" line) (Malformed "header line without colon");
      rest ← parse_header_lines ls; Ok ((trim_str name, trim_str value) :: rest)
  end.
Definition parse_headers (head : string) : result HttpError (list (string * string)) := parse_header_lines (drop 1 (lines head)).

(** The body taken from what follows the head. *)
Definition body_of (framing : ResponseFraming) (body_raw : list Z) : run HttpError (list Z) :=
  match content_length framing with
  | Some n => if len body_raw <? n then bad "body shorter than content-length" else Done (Ok (take (Z.to_nat n) body_raw))
  | None => if chunked framing then decode_chunked body_raw else Done (Ok body_raw)
  end.
Definition parse_response (raw : list Z) : run HttpError HttpResponse :=
  header_end ← Done (ok_or (find_header_end raw) (Malformed "no header terminator"));
  let head := head_of raw header_end in
  status_line ← Done (ok_or (List.hd_error (lines head)) (Malformed "empty"));
  let parts := OAuth.split_whitespace status_line in
  version ← Done (ok_or (parts !! 0%nat) (Malformed "status line"));
  if negb (String.prefix "HTTP/1." version) then bad "not HTTP/1.x"
  else
    status ← Done (ok_or (s ← parts !! 1%nat; Clock.parse_int 0 (2 ^ 16 - 1) s) (Malformed "status code"));
    framing ← Done (response_framing head);
    hs ← Done (parse_headers head);
    body ← body_of framing (drop header_end raw);
    Done (Ok (mk_HttpResponse status hs body)).

(** The loop of [send_inner] over the reads that follow [raw]. *)
Fixpoint receive (max : Z) (raw : list Z) (reads : list (list Z)) : run HttpError HttpResponse :=
  match reads with
  | [] => parse_response raw
  | buf :: reads =>
    let raw := raw ++ buf in
    if max <? len raw then bad "response exceeds configured cap"
    else complete ← response_complete raw; if complete : bool then parse_response raw else receive max raw reads
  end.

(** ** Where a pattern first occurs *)

Lemma find_bytes_bound pat raw i : find_bytes pat raw = Some i -> (i + length pat <= length raw)%nat.
Proof.
  revert i; induction raw as [|b raw IH]; intros i; cbn [find_bytes]; case_bool_decide as E; intros H; simplify_eq/=.
  - destruct pat; done.
  - rewrite <- E at 1. rewrite length_take. cbn. lia.
  - apply fmap_Some in H as (j & H & ->). apply IH in H. lia.
Qed.
Lemma take_app_shorter {A} (n : nat) (a b : list A) : (n <= length a)%nat -> take n (a ++ b) = take n a.
Proof. intros H. rewrite take_app. replace (n - length a)%nat with 0%nat by lia. by rewrite take_0, app_nil_r. Qed.
Lemma find_bytes_app pat raw i more : find_bytes pat raw = Some i -> find_bytes pat (raw ++ more) = Some i.
Proof.
  revert i; induction raw as [|b raw IH]; intros i H.
  - cbn in H. case_bool_decide as E; [|done]. rewrite take_nil in E. subst pat. simplify_eq. by destruct more.
  - pose proof (find_bytes_bound _ _ _ H) as B. cbn [find_bytes app] in *.
    change (b :: raw ++ more) with ((b :: raw) ++ more). rewrite take_app_shorter by lia.
    case_bool_decide; [done|]. apply fmap_Some in H as (j & H & ->). by rewrite (IH _ H).
Qed.
Lemma find_header_end_app raw n more : find_header_end raw = Some n -> find_header_end (raw ++ more) = Some n /\ (n <= length raw)%nat.
Proof.
  unfold find_header_end. intros (i & H & ->)%fmap_Some. split; [by rewrite (find_bytes_app _ _ _ _ H)|].
  apply find_bytes_bound in H. cbn in H. lia.
Qed.
Lemma head_of_app raw n more : (n <= length raw)%nat -> head_of (raw ++ more) n = head_of raw n.
Proof. intros H. unfold head_of. by rewrite take_app_shorter. Qed.
Lemma drop_app_shorter {A} (n : nat) (a b : list A) : (n <= length a)%nat -> drop n (a ++ b) = drop n a ++ b.
Proof. intros H. rewrite drop_app. by replace (n - length a)%nat with 0%nat by lia. Qed.

(** ** The loop over chunks *)

Lemma resp_len_app (a b : list Z) : len (a ++ b) = len a + len b.
Proof. unfold len. rewrite length_app. lia. Qed.
Lemma len_drop (n : nat) (l : list Z) : (n <= length l)%nat -> len (drop n l) = len l - Z.of_nat n.
Proof. unfold len. rewrite length_drop. lia. Qed.
Lemma wrapped_end (size : Z) : 0 <= size < 2 ^ 64 -> Clock.as_u64 (size + 2) = size + 2 \/ Clock.as_u64 (size + 2) < size.
Proof.
  intros H. unfold Clock.as_u64. destruct (Z.lt_ge_cases (size + 2) (2 ^ 64)) as [L|L]; [left; by rewrite Z.mod_small by lia|right].
  replace (size + 2) with (size + 2 - 2 ^ 64 + 1 * 2 ^ 64) by lia. rewrite Z_mod_plus_full, Z.mod_small; lia.
Qed.
Lemma hex_value_range c d : hex_value c = Some d -> 0 <= d < 16.
Proof. unfold hex_value. repeat case_match; intros; simplify_eq; lia. Qed.
Lemma hex_digits_range s : forall acc n, 0 <= acc < 2 ^ 64 -> hex_digits acc s = Some n -> 0 <= n < 2 ^ 64.
Proof.
  induction s as [|c s IH]; intros acc n R; cbn -[Z.pow]; [naive_solver|].
  destruct (hex_value c) as [d|] eqn:E; [|done]. cbn -[Z.pow]. apply hex_value_range in E.
  destruct (Z.ltb_spec (acc * 16 + d) (2 ^ 64)); [|done]. apply IH. lia.
Qed.
Lemma chunk_size_range line size : chunk_size line = Ok size -> 0 <= size < 2 ^ 64.
Proof.
  unfold chunk_size. destruct (valid_utf8 line); cbn; [|done].
  destruct (List.hd_error _) as [part|]; cbn; [|done].
  destruct (from_str_radix_16 part) as [n|] eqn:E; cbn; [|done]. intros <-%Ok_inj.
  unfold from_str_radix_16 in E. case_match; [done|]. eapply hex_digits_range; [|done]. lia.
Qed.

(** A verdict that more input does not change. *)
Definition settled (r : run HttpError (list Z)) : Prop := r = Panics \/ exists out, r = Done (Ok out).
Lemma chunk_loop_app fuel : forall rest out more fuel', (fuel <= fuel')%nat -> settled (chunk_loop fuel rest out) ->
  chunk_loop fuel' (rest ++ more) out = chunk_loop fuel rest out.
Proof.
  induction fuel as [|fuel IH]; intros rest out more [|fuel'] L S; [by destruct S as [S|[? S]]..|lia|].
  cbn [chunk_loop] in *. destruct (find_bytes [13; 10] rest) as [i|] eqn:F; [|by destruct S as [S|[? S]]].
  rewrite (find_bytes_app _ _ _ more F). apply find_bytes_bound in F. cbn [length] in F.
  rewrite take_app_shorter, drop_app_shorter by lia. set (body := drop (i + 2) rest) in *.
  destruct (chunk_size (take i rest)) as [size|e] eqn:Z; [|by destruct S as [S|[? S]]]. apply chunk_size_range in Z.
  cbn zeta in *. destruct (Z.eqb_spec size 0).
  { destruct (find_bytes [13; 10] body) as [j|] eqn:G; [|by destruct S as [S|[? S]]]. by rewrite (find_bytes_app _ _ _ more G). }
  destruct (Z.ltb_spec (len body) (Clock.as_u64 (size + 2))) as [B|B]; [by destruct S as [S|[? S]]|].
  rewrite (proj2 (Z.ltb_ge (len (body ++ more)) _)) by (rewrite resp_len_app; unfold len in *; lia).
  destruct (Z.ltb_spec (Clock.as_u64 (size + 2)) size) as [|W]; [done|].
  destruct (wrapped_end size Z) as [E|E]; [|lia]. rewrite E in *. unfold len in B.
  rewrite !drop_app_shorter, !take_app_shorter by (rewrite ?length_drop; lia).
  case_bool_decide; [|by destruct S as [S|[? S]]]. cbn [negb] in *. apply IH; [lia|done].
Qed.
Lemma chunk_loop_returns fuel : forall rest out, (length rest < fuel)%nat -> chunk_loop fuel rest out <> Loops.
Proof.
  induction fuel as [|fuel IH]; intros rest out L; [lia|]. cbn [chunk_loop]. cbn zeta.
  destruct (find_bytes [13; 10] rest) as [i|] eqn:F; [|done]. apply find_bytes_bound in F. cbn [length] in F.
  destruct (chunk_size _) as [size|e]; [|done]. destruct (size =? 0); [by destruct (find_bytes _ _)|].
  do 2 (case_match; [done|]). destruct (negb _); [done|]. apply IH. rewrite !length_drop. lia.
Qed.
Lemma decode_chunked_returns rest : decode_chunked rest <> Loops.
Proof. apply chunk_loop_returns. lia. Qed.
Lemma decode_chunked_app rest more : settled (decode_chunked rest) -> decode_chunked (rest ++ more) = decode_chunked rest.
Proof. apply chunk_loop_app. rewrite length_app. lia. Qed.

(** ** The receive loop *)

Lemma response_complete_app raw more : response_complete raw <> Done (Ok false) -> response_complete (raw ++ more) = response_complete raw.
Proof.
  unfold response_complete. destruct (find_header_end raw) as [n|] eqn:F; [|done].
  destruct (find_header_end_app _ _ more F) as [-> B]. rewrite (head_of_app _ _ _ B), (drop_app_shorter _ _ _ B).
  destruct (response_framing (head_of raw n)) as [framing|e]; cbn [mbind run_bind]; [|done].
  destruct (content_length framing) as [k|].
  - destruct (Z.leb_spec (Clock.as_u64 (Z.of_nat n + k)) (len raw)) as [L|L]; [|done]. intros _. do 2 f_equal.
    apply Z.leb_le. rewrite resp_len_app. unfold len in *. lia.
  - destruct (chunked framing); [|done].
    destruct (decode_chunked (drop n raw)) as [[out|e]| |] eqn:D; cbn [is_ok].
    + intros _. rewrite decode_chunked_app by (rewrite D; right; eauto). by rewrite D.
    + done.
    + intros _. rewrite decode_chunked_app by (rewrite D; by left). by rewrite D.
    + by destruct (decode_chunked_returns (drop n raw)).
Qed.
Lemma bodies_agree raw more n framing : response_complete raw = Done (Ok true) -> len (raw ++ more) < 2 ^ 63 ->
  find_header_end raw = Some n -> response_framing (head_of raw n) = Ok framing ->
  body_of framing (drop n raw ++ more) = body_of framing (drop n raw).
Proof.
  intros C M F R. unfold response_complete in C. rewrite F, R in C. cbn [mbind run_bind] in C.
  apply (find_header_end_app _ _ []) in F as [_ B]. unfold body_of.
  destruct (content_length framing) as [k|].
  - apply (f_equal (fun r => match r with Done (Ok b) => b | _ => false end)) in C. apply Z.leb_le in C.
    rewrite resp_len_app in M. rewrite resp_len_app, len_drop by done.
    assert (0 <= len more) by (unfold len; lia). unfold Clock.as_u64 in C.
    destruct (Z.lt_ge_cases k 0) as [|K]; [|destruct (Z.lt_ge_cases (Z.of_nat n + k) (2 ^ 64)) as [S|S]].
    + rewrite !(proj2 (Z.ltb_ge _ _)) by (unfold len in *; lia). by replace (Z.to_nat k) with 0%nat by lia.
    + rewrite Z.mod_small in C by lia. rewrite !(proj2 (Z.ltb_ge _ _)) by lia.
      by rewrite take_app_shorter by (rewrite length_drop; unfold len in *; lia).
    + by rewrite !(proj2 (Z.ltb_lt _ _)) by (unfold len in *; lia).
  - destruct (chunked framing); [|done].
    destruct (decode_chunked (drop n raw)) as [[out|e]| |] eqn:D; [|done..].
    rewrite decode_chunked_app by (rewrite D; right; eauto). done.
Qed.
Lemma parse_response_app raw more : response_complete raw = Done (Ok true) -> len (raw ++ more) < 2 ^ 63 ->
  parse_response (raw ++ more) = parse_response raw.
Proof.
  intros C M. assert (exists n, find_header_end raw = Some n) as [n F].
  { unfold response_complete in C. destruct (find_header_end raw); [eauto|done]. }
  unfold parse_response. destruct (find_header_end_app _ _ more F) as [-> B]. rewrite F. cbn [ok_or mbind run_bind].
  rewrite (head_of_app _ _ _ B), (drop_app_shorter _ _ _ B).
  destruct (ok_or (List.hd_error _) _); cbn [mbind run_bind]; [|done]. destruct (ok_or _ _); cbn [mbind run_bind]; [|done]. case_match; [done|].
  destruct (ok_or _ _); cbn [mbind run_bind]; [|done]. destruct (response_framing (head_of raw n)) as [framing|e] eqn:R; cbn [mbind run_bind]; [|done].
  by rewrite (bodies_agree raw more n framing).
Qed.
Lemma receive_whole max reads : forall raw, len (raw ++ List.concat reads) <= max -> max < 2 ^ 63 -> response_complete raw = Done (Ok false) ->
  receive max raw reads = (_ ← response_complete (raw ++ List.concat reads); parse_response (raw ++ List.concat reads)).
Proof.
  induction reads as [|buf reads IH]; intros raw M X C; cbn [receive List.concat].
  - rewrite app_nil_r, C. done.
  - cbn [List.concat] in M. rewrite app_assoc in *.
    rewrite (proj2 (Z.ltb_ge max _)) by (rewrite resp_len_app in M; unfold len in *; lia).
    destruct (response_complete (raw ++ buf)) as [[[]|e]| |] eqn:D; cbn [mbind run_bind].
    + rewrite (response_complete_app (raw ++ buf)) by (by rewrite D). rewrite D. cbn [mbind run_bind].
      by rewrite (parse_response_app (raw ++ buf)) by (done || lia).
    + by apply IH.
    + rewrite (response_complete_app (raw ++ buf)) by (by rewrite D). by rewrite D.
    + rewrite (response_complete_app (raw ++ buf)) by (by rewrite D). by rewrite D.
    + rewrite (response_complete_app (raw ++ buf)) by (by rewrite D). by rewrite D.
Qed.
(** C31: how the network cuts an answer does not matter: an answer within the
    size limit gives, whatever the reads were, what the checks and the reader
    give on the whole of it, although the client stops reading as soon as it
    takes the answer for complete. *)
Theorem http_receive_exact max reads : len (List.concat reads) <= max -> max < 2 ^ 63 ->
  receive max [] reads = (_ ← response_complete (List.concat reads); parse_response (List.concat reads)).
Proof. intros M X. by apply (receive_whole max reads []). Qed.

Definition answer_head : string := "HTTP/1.1 200 OK" +:+ crlf +:+ "Content-Length: 2" +:+ crlf +:+ crlf.
Lemma http_receive_exact_witness :
  let reads := [bytes_of_str answer_head ++ [104]; [105; 33]; [33]] in
  receive 100 [] reads = Done (Ok (mk_HttpResponse 200 [("Content-Length", "2")] [104; 105])).
Proof. intros reads. rewrite (http_receive_exact 100 reads); [by vm_compute|by vm_compute|lia]. Defined.

(** ** Chunked bodies *)

Definition no_crlf (line : list Z) : Prop := find_bytes [13; 10] (line ++ [13]) = None.
Lemma find_bytes_line line rest : no_crlf line -> find_bytes [13; 10] (line ++ [13; 10] ++ rest) = Some (length line).
Proof.
  unfold no_crlf. induction line as [|b line IH]; [done|]. cbn [app find_bytes length take].
  case_bool_decide as E; [done|]. intros H%fmap_None.
  cbn [app] in IH. rewrite bool_decide_false; [by rewrite IH|]. destruct line as [|c line]; cbn in *; [|done].
  by intros [= ->].
Qed.
Lemma find_bytes_split rest i : find_bytes [13; 10] rest = Some i ->
  rest = take i rest ++ [13; 10] ++ drop (i + 2) rest /\ no_crlf (take i rest).
Proof.
  revert i; induction rest as [|b rest IH]; intros i; [done|]. cbn [find_bytes length].
  case_bool_decide as E.
  - intros [= <-]. split; [|done]. cbn [take app drop Nat.add]. destruct rest as [|c rest]; cbn in E; [done|]. simplify_eq. done.
  - intros (j & H & ->)%fmap_Some. destruct (IH _ H) as [I N]. split.
    + change (S j + 2)%nat with (S (j + 2)). cbn [take drop]. rewrite I at 1. done.
    + unfold no_crlf in *. cbn [take app find_bytes length]. rewrite bool_decide_false; [by rewrite N|].
      intros F. apply E. rewrite I. destruct j; cbn in F |- *; [done|]. destruct rest; done.
Qed.
(** The bodies and what they stand for: chunks after a line giving their length,
    then a line giving zero and whatever follows up to a line end. *)
Inductive chunked_body : list Z -> list Z -> Prop :=
| last_chunk line rest : no_crlf line -> chunk_size line = Ok 0 -> is_Some (find_bytes [13; 10] rest) -> chunked_body (line ++ [13; 10] ++ rest) []
| chunk line data rest out : no_crlf line -> chunk_size line = Ok (len data) -> data <> [] -> len data + 2 < 2 ^ 64 ->
  chunked_body rest out -> chunked_body (line ++ [13; 10] ++ data ++ [13; 10] ++ rest) (data ++ out).
Lemma chunk_loop_sound fuel : forall rest pre out, chunk_loop fuel rest pre = Done (Ok out) -> exists body, chunked_body rest body /\ out = pre ++ body.
Proof.
  induction fuel as [|fuel IH]; intros rest pre out; [done|]. cbn [chunk_loop]. cbn zeta.
  destruct (find_bytes [13; 10] rest) as [i|] eqn:F; [|done]. apply find_bytes_split in F as [E N].
  destruct (chunk_size (take i rest)) as [size|e] eqn:Z; [|done]. pose proof (chunk_size_range _ _ Z) as R.
  set (more := drop (i + 2) rest) in *. rewrite E. destruct (Z.eqb_spec size 0) as [->|].
  { destruct (find_bytes [13; 10] more) eqn:G; [|done]. intros [= <-]. exists []. rewrite app_nil_r. split; [|done]. by constructor. }
  destruct (Z.ltb_spec (len more) (Clock.as_u64 (size + 2))) as [|L]; [done|].
  destruct (Z.ltb_spec (Clock.as_u64 (size + 2)) size) as [|W]; [done|].
  destruct (wrapped_end size R) as [A|A]; [|lia]. rewrite A in *. case_bool_decide as T; [|done]. cbn [negb].
  intros (body & C & ->)%IH. exists (take (Z.to_nat size) more ++ body). split; [|by rewrite app_assoc].
  assert (D : len (take (Z.to_nat size) more) = size) by (unfold len in *; rewrite length_take; lia).
  assert (M : more = take (Z.to_nat size) more ++ [13; 10] ++ drop (Z.to_nat (size + 2)) more).
  { rewrite <- T, Z2Nat.inj_add by lia. change (Z.to_nat 2) with 2%nat. rewrite <- drop_drop, take_drop. by rewrite take_drop. }
  rewrite M at 1. constructor; [done|by rewrite D|intros H; rewrite H in D; unfold len in D; cbn [length] in D; lia| |done].
  rewrite D, <- A. unfold Clock.as_u64. apply Z.mod_pos_bound. lia.
Qed.
Lemma chunk_loop_complete rest body : chunked_body rest body -> forall fuel pre, (length rest < fuel)%nat -> chunk_loop fuel rest pre = Done (Ok (pre ++ body)).
Proof.
  induction 1 as [line rest N Z F|line data rest out N Z D W C IH]; intros [|fuel] pre L; try lia; cbn [chunk_loop]; cbn zeta;
    rewrite (find_bytes_line _ _ N), take_app_length, Z, <- drop_drop, drop_app_length; cbn [drop app]; rewrite ?drop_0.
  - destruct F as [j F]. rewrite F. rewrite Z.eqb_refl, app_nil_r. done.
  - assert (P : 0 < len data) by (destruct data; [done|unfold len; cbn [length]; lia]).
    rewrite (proj2 (Z.eqb_neq _ 0)) by lia.
    replace (Clock.as_u64 (len data + 2)) with (len data + 2) by (unfold Clock.as_u64; rewrite Z.mod_small by lia; done).
    change (data ++ 13 :: 10 :: rest) with (data ++ [13; 10] ++ rest).
    rewrite (proj2 (Z.ltb_ge _ _)) by (rewrite !resp_len_app; unfold len; cbn [length]; lia). rewrite (proj2 (Z.ltb_ge _ _)) by lia.
    rewrite Z2Nat.inj_add by lia. unfold len. rewrite !Nat2Z.id. change (Z.to_nat 2) with 2%nat.
    rewrite <- drop_drop, drop_app_length, take_app_length. cbn [take drop app]. rewrite bool_decide_true, ?drop_0 by (by rewrite ?take_0).
    cbn [negb]. rewrite IH, app_assoc; [done|]. repeat (rewrite length_app in L || cbn [length] in L). lia.
Qed.
(** the chunked bodies that are accepted, and what they are read as, are
    exactly those of the grammar: every chunk has the length its line gives and
    ends its line, and the body ends with a chunk of no bytes. *)
Theorem chunked_decode_iff rest out : decode_chunked rest = Done (Ok out) <-> chunked_body rest out.
Proof.
  split.
  - intros (body & C & ->)%chunk_loop_sound. done.
  - intros C. unfold decode_chunked. rewrite (chunk_loop_complete _ _ C) by lia. done.
Qed.
(** A chunk size near the machine limit: the client panics. *)
Example chunk_size_panics : decode_chunked (bytes_of_str ("ffffffffffffffff" +:+ crlf +:+ "abc")) = Panics.
Proof. by vm_compute. Qed.

(** ** The lines of a request *)

Definition one_line (s : string) : Prop := any_byte is_crlf s = false.
Lemma any_byte_app p s t : any_byte p (s +:+ t) = any_byte p s || any_byte p t.
Proof. unfold any_byte. by rewrite bytes_of_str_app, existsb_app. Qed.
Lemma one_line_app s t : one_line (s +:+ t) <-> one_line s /\ one_line t.
Proof. unfold one_line. by rewrite any_byte_app, orb_false_iff. Qed.
Lemma any_byte_mono (p q : Z -> bool) s : (forall b, q b = true -> p b = true) -> any_byte p s = false -> any_byte q s = false.
Proof.
  intros I H. apply not_true_is_false. intros E%existsb_exists. apply eq_true_false_abs in H; [done|].
  apply existsb_exists. naive_solver.
Qed.
Lemma digits_one_line n s : one_line s -> one_line (pretty_N_go n s).
Proof.
  revert s. induction (N.lt_wf_0 n) as [n _ IH]. intros s Hs. destruct (decide (0 < n)%N) as [Hn|Hn].
  - rewrite pretty_N_go_step by done. apply IH; [by apply N.div_lt|].
    apply (one_line_app (String _ "")). split; [|done].
    assert (n `mod` 10 < 10)%N as [D _]%CanonicalText.pretty_char_digit by (apply N.mod_lt; lia).
    unfold CanonicalText.is_digit in D. apply andb_prop in D as [D _]. apply N.leb_le in D.
    unfold one_line, any_byte, is_crlf. cbn -[N_of_ascii pretty_N_char]. rewrite !(proj2 (Z.eqb_neq _ _)) by lia. done.
  - assert (n = 0%N) as -> by lia. by rewrite pretty_N_go_0.
Qed.
Lemma pretty_nat_one_line (n : nat) : one_line (pretty n).
Proof. change (one_line (pretty (N.of_nat n))). unfold pretty, pretty_N. case_decide; [done|]. by apply digits_one_line. Qed.

Lemma strip_cr_line s : strip_cr (s +:+ str_of_bytes [13]) = s.
Proof.
  induction s as [|c s IH]; [done|]. rewrite str_app_cons. cbn [strip_cr]. rewrite IH.
  by destruct s.
Qed.
Lemma lines_from_line a : forall cur s, one_line a -> lines_from cur (a +:+ crlf +:+ s) = (cur +:+ a) :: lines s.
Proof.
  induction a as [|c a IH]; intros cur s H.
  - change (crlf +:+ s) with (String "013" (String "010" s)). rewrite str_app_nil_l, str_app_nil_r. cbn -[strip_cr].
    f_equal. apply (strip_cr_line cur).
  - rewrite str_app_cons. cbn [lines_from]. change (String c a) with (String c "" +:+ a) in H. apply one_line_app in H as [Hc H].
    assert (Ascii.eqb c "010" = false) as -> by (destruct (Ascii.eqb_spec c "010"); [by subst|done]).
    rewrite IH by done. by rewrite str_app_assoc.
Qed.
Lemma lines_line a s : one_line a -> lines (a +:+ crlf +:+ s) = a :: lines s.
Proof. apply (lines_from_line a ""). Qed.
Definition header_line (nv : string * string) : string := fst nv +:+ ": " +:+ snd nv.
Lemma header_ok_line nv : header_ok nv = true -> one_line (header_line nv).
Proof.
  destruct nv as [name value]. unfold header_ok, header_line. cbn [fst snd].
  intros (((_ & N%negb_true_iff)%andb_prop & _)%andb_prop & V%negb_true_iff)%andb_prop. rewrite !one_line_app.
  split; [|split; done]. eapply any_byte_mono; [|exact N]. unfold is_crlf. intros b H. apply orb_true_iff in H as [H|H]; rewrite H, ?orb_true_r; done.
Qed.
Lemma validate_headers_lines hs s : validate_headers hs = Ok tt -> lines (header_lines hs +:+ s) = (header_line <$> hs) ++ lines s.
Proof.
  induction hs as [|[name value] hs IH]; [done|]. cbn [validate_headers header_lines fmap list_fmap app].
  destruct (header_ok (name, value)) eqn:E; [|done]. intros H. apply header_ok_line in E. rewrite <- IH by done.
  rewrite <- lines_line by done. unfold header_line. cbn [fst snd]. by rewrite !str_app_assoc.
Qed.

Lemma split_authority_app s a b : split_authority s = (a, b) -> s = a +:+ b.
Proof.
  revert a b; induction s as [|c s IH]; intros a b; cbn [split_authority]; [by intros [= <- <-]|].
  case_match; [by intros [= <- <-]|]. destruct (split_authority s) as [a' b'] eqn:E. intros [= <- <-].
  rewrite str_app_cons. f_equal. by apply IH.
Qed.
Lemma parse_url_parts u addr host path : parse_url u = Ok (addr, host, path) ->
  exists tail, u = "http://" +:+ host +:+ tail /\ (path = tail \/ path = "/" +:+ tail).
Proof.
  unfold parse_url. destruct (strip_prefix "http://" u) as [rest|] eqn:E; cbn [ok_or mbind result_bind]; [|done].
  apply strip_prefix_spec in E as ->. destruct (split_authority rest) as [authority tail] eqn:E.
  apply split_authority_app in E as ->. case_match; [done|].
  assert (forall r : result HttpError (string * string), (forall a h, r = Ok (a, h) -> h = authority) ->
    ('(a, h) ← r; Ok (a, h, match tail with EmptyString => "/" | String c _ => if Ascii.eqb c "?" then "/" +:+ tail else tail end)) = Ok (addr, host, path) ->
    exists tail0, "http://" +:+ (authority +:+ tail) = "http://" +:+ host +:+ tail0 /\ (path = tail0 \/ path = "/" +:+ tail0)) as K.
  { intros [[a h]|e] Hr; cbn [mbind result_bind]; [|done]. rewrite (Hr a h eq_refl). intros [= -> -> <-]. exists tail.
    split; [done|]. destruct tail; [by right|]. case_match; [by right|by left]. }
  apply K. intros a h. clear K. destruct (strip_prefix "[" authority) as [after|].
  - destruct (ActorId.split_first "]" after) as [[x y]|]; cbn [ok_or mbind result_bind]; [|done]. case_match; [done|].
    destruct (if str_is_empty y then _ else _); cbn [mbind result_bind]; [|done]. naive_solver.
  - case_match; [done|]. destruct (ActorId.split_last ":" authority) as [[x y]|]; [case_match; [done|]|]; naive_solver.
Qed.
(** when the URL has no line break, the text that is sent before the body has
    exactly the expected lines: the request line, Host, Connection, one per header
    given and, when there is a body to announce, its length.  No header name or
    value that passes the checks can add a line or end the head. *)
Theorem http_request_lines r addr bytes : one_line (url r) -> prepare r = Ok (addr, bytes) ->
  exists head path host, bytes = bytes_of_str head ++ body r /\
  lines head = (as_str (method r) +:+ " " +:+ path +:+ " HTTP/1.1") :: ("Host: " +:+ host) :: "Connection: close" ::
    (header_line <$> headers r) ++
    (if negb (length (body r) =? 0)%nat || bool_decide (method r = Post) then ["Content-Length: " +:+ pretty (length (body r))] else []) ++ [""].
Proof.
  intros U P. unfold prepare in P. destruct (validate_headers (headers r)) as [[]|] eqn:V; cbn [mbind result_bind] in P; [|done].
  destruct (parse_url (url r)) as [[[a host] path]|] eqn:E; cbn [mbind result_bind] in P; [|done].
  apply Ok_inj in P as [= <- <-]. exists (raw_request r host path), path, host. split; [done|].
  apply parse_url_parts in E as (tail & E & T). rewrite E in U. apply one_line_app in U as [_ (H & U)%one_line_app].
  assert (one_line path) as Q by (destruct T as [->| ->]; [done|apply one_line_app; done]).
  assert (K : raw_request r host path = (as_str (method r) +:+ " " +:+ path +:+ " HTTP/1.1") +:+ crlf +:+ ("Host: " +:+ host) +:+ crlf
    +:+ "Connection: close" +:+ crlf +:+ header_lines (headers r) +:+ (if negb (length (body r) =? 0)%nat || bool_decide (method r = Post)
      then ("Content-Length: " +:+ pretty (length (body r))) +:+ crlf +:+ crlf else crlf)).
  { unfold raw_request. rewrite !str_app_assoc. do 13 f_equal. case_match; [|done]. by rewrite !str_app_assoc. }
  rewrite K, lines_line; [|rewrite !one_line_app; repeat split; try done; by destruct (method r)].
  rewrite lines_line by (by apply one_line_app). rewrite lines_line, validate_headers_lines by done.
  do 4 f_equal. case_match; [|done]. rewrite lines_line; [done|]. apply one_line_app. split; [done|apply pretty_nat_one_line].
Qed.

Definition post_request : HttpRequest := json_body [123; 125] (bearer_auth "t" (new Post "http://h:80/v1")).
Lemma http_request_lines_witness : exists head path host bytes, bytes = bytes_of_str head ++ [123; 125] /\
  lines head = ["POST " +:+ path +:+ " HTTP/1.1"; "Host: " +:+ host; "Connection: close"; "Authorization: Bearer t"; "Content-Type: application/json"; "Content-Length: 2"; ""].
Proof.
  destruct (http_request_lines post_request "h:80" (match prepare post_request with Ok (_, b) => b | _ => [] end)) as (head & path & host & B & L);
    [by vm_compute|by vm_compute|].
  exists head, path, host. eexists. split; [exact B|]. rewrite L. by vm_compute.
Defined.
(** The path of the URL is not checked: a line break in it adds a header. *)
Example url_injects_header :
  let r := new Get ("http://h/ HTTP/1.1" +:+ crlf +:+ "X-Role: admin" +:+ crlf +:+ "X-Rest:") in
  match prepare r with
  | Ok (_, bytes) => lines (str_of_bytes bytes) = ["GET / HTTP/1.1"; "X-Role: admin"; "X-Rest: HTTP/1.1"; "Host: h"; "Connection: close"; ""]
  | Err _ => False
  end.
Proof. by vm_compute. Qed.

Lemma starts_blank_head s : starts_blank s = true -> List.hd_error (bytes_of_str s) = Some 32 \/ List.hd_error (bytes_of_str s) = Some 9.
Proof.
  unfold starts_blank. intros [H|H]%orb_prop; destruct s as [|c s]; cbn -[ascii_dec] in H; try done; destruct (ascii_dec _ c); subst; try done; auto.
Qed.
Lemma encode_char_head c : is_scalar c -> is_whitespace c = false -> exists b r, encode_char c = b :: r /\ b <> 32 /\ b <> 9.
Proof.
  intros S W. unfold encode_char. repeat case_match; do 2 eexists; (split; [done|]); unfold is_scalar in S.
  - split; intros ->; done.
  - split; apply Z.ltb_ge in H; pose proof (Z.div_pos c 64); lia.
  - split; apply Z.ltb_ge in H; pose proof (Z.div_pos c 4096); lia.
  - split; apply Z.ltb_ge in H; pose proof (Z.div_pos c 262144); lia.
Qed.
(** The test for folded headers never refuses: what [trim_start] leaves does not
    start with a blank. *)
Lemma folded_check_never_fires value : valid_utf8 (bytes_of_str value) = true -> starts_blank (str_of_chars (trim_start (chars value))) = false.
Proof.
  intros S%chars_scalars. apply not_true_is_false. intros H%starts_blank_head. revert H.
  induction S as [|c l C S IH]; [by intros []|]. cbn [trim_start]. destruct (is_whitespace c) eqn:W; [exact IH|]. clear IH.
  unfold str_of_chars. rewrite bytes_of_str_of_bytes by (apply encode_chars_bytes; by constructor). cbn [flat_map].
  destruct (encode_char_head c C W) as (b & r & -> & N & M). cbn. naive_solver.
Qed.

End Http.
