(* ===== verification/Envoy.v ===== *)
(** * Envoy: the filter that asks the daemon from inside Envoy
      ([tools/native/envoy/src/lib.rs])

    Texts are lists of characters.  The filter writes its question as JSON by
    hand and picks the decision out of the answer with a search; both are
    modelled in full.  The callbacks of the proxy-wasm host give the headers, the
    callout and the answer's body, and take what the filter does: an effect.
    Unicode lower-casing of the method is an argument.

    - [envoy_question_unambiguous]: the text sent determines actor, action and
      target, whatever characters they hold;
    - [envoy_reads_decision]: a decision written first in the answer is read back;
    - [envoy_resumes_iff]: when a request goes on;
    - [decision_elsewhere]: an answer that denies and is read as allowing. *)

From S2P Require Import Prelude Utf8 Http.

#[local] Open Scope list_scope.
#[local] Open Scope Z_scope.

Module Envoy.

Definition lit (s : string) : list Z := bytes_of_str s.
Definition DEFAULT_DAEMON_CLUSTER : list Z := lit "tf_daemon".
Definition DECIDE_PATH : list Z := lit "/v1/decide".
Record DecideRequest := mk_DecideRequest { actor : list Z; action : list Z; target : list Z }.
Record DecideResponse := mk_DecideResponse { decision : list Z; reason : list Z }.

(** ** Writing the question *)

Definition hex_digit_char (n : Z) : Z := if n <? 10 then 48 + n else 87 + n.
(** What [json_str] writes for one character. *)
Definition escape_char (c : Z) : list Z :=
  if c =? 34 then [92; 34] else if c =? 92 then [92; 92] else if c =? 10 then [92; 110] else if c =? 13 then [92; 114] else if c =? 9 then [92; 116]
  else if c <? 32 then [92; 117; 48; 48; hex_digit_char (c / 16); hex_digit_char (c mod 16)] else [c].
Definition json_str (s : list Z) : list Z := 34 :: flat_map escape_char s ++ [34].
Definition to_json (r : DecideRequest) : list Z :=
  lit "{" ++ json_str (lit "actor") ++ lit ":" ++ json_str (actor r) ++ lit "," ++ json_str (lit "action") ++ lit ":" ++ json_str (action r) ++
  lit "," ++ json_str (lit "target") ++ lit ":" ++ json_str (target r) ++ lit "}".

Fixpoint trim_start_slashes (p : list Z) : list Z := match p with c :: r => if c =? 47 then trim_start_slashes r else p | [] => [] end.
(** The part before the first [/] or [?]. *)
Fixpoint first_segment (p : list Z) : list Z := match p with c :: r => if (c =? 47) || (c =? 63) then [] else c :: first_segment r | [] => [] end.
Definition path_first_segment (path : list Z) : list Z :=
  match first_segment (trim_start_slashes path) with [] => lit "_root" | seg => seg end.
Section filter.
Variable to_lowercase : list Z -> list Z.
Definition build_decide_request (authority method path : list Z) (authz_header cookie_header : option (list Z)) : DecideRequest :=
  mk_DecideRequest (default [] (match authz_header with Some s => Some s | None => cookie_header end))
    (lit "http." ++ to_lowercase method ++ lit "." ++ path_first_segment path) (authority ++ path).

(** ** Reading the answer *)

(** The loop that walks to the closing quotation mark. *)
Fixpoint walk (body out : list Z) : option (list Z) :=
  match body with
  | [] => None
  | c :: r =>
    if c =? 34 then Some out
    else if c =? 92 then
      match r with
      | [] => None
      | e :: r => walk r (out ++ [if e =? 110 then 10 else if e =? 114 then 13 else if e =? 116 then 9 else e])
      end
    else walk r (out ++ [c])
  end.
Definition extract_str_field (s key : list Z) : option (list Z) :=
  let needle := [34] ++ key ++ [34] in
  start ← Http.find_bytes needle s;
  let after := drop (start + length needle) s in
  colon ← Http.find_bytes [58] after;
  match trim_start (drop (colon + 1) after) with
  | c :: body => if c =? 34 then walk body [] else None
  | [] => None
  end.
Definition parse_decide_response (body : list Z) : DecideResponse :=
  match decode_utf8 body with
  | None => mk_DecideResponse [] []
  | Some s => mk_DecideResponse (default [] (extract_str_field s (lit "decision"))) (default [] (extract_str_field s (lit "reason")))
  end.

(** ** The filter *)

Record TfHttp := mk_TfHttp { cluster : list Z; pending : option Z }.
Inductive effect := Dispatch (cluster body : list Z) | ResumeRequest | SendResponse (status : Z) (body : list Z).
Definition create_http_context (cluster : list Z) : TfHttp := mk_TfHttp cluster None.
(** [header]: the request's headers; [token]: what the host answers to the
    callout.  The request is paused in any case. *)
Definition on_http_request_headers (header : list Z -> option (list Z)) (token : result unit Z) (self : TfHttp) : TfHttp * list effect :=
  let req := build_decide_request (default [] (header (lit ":authority"))) (default [] (header (lit ":method"))) (default [] (header (lit ":path")))
    (header (lit "authorization")) (header (lit "cookie")) in
  let sent := Dispatch (cluster self) (to_json req) in
  match token with
  | Ok tok => (mk_TfHttp (cluster self) (Some tok), [sent])
  | Err _ => (self, [sent; SendResponse 503 (lit "TrustForge daemon unreachable")])
  end.
(** [body]: the body of the daemon's answer, if the host has one. *)
Definition on_http_call_response (body : option (list Z)) : list effect :=
  let resp := parse_decide_response (default [] body) in
  if bool_decide (decision resp = lit "allow") then [ResumeRequest]
  else [SendResponse 403 (match reason resp with [] => lit "TrustForge denied request" | r => r end)].
End filter.

(** ** The question *)

Lemma hex_digit_char_inj a b : 0 <= a < 16 -> 0 <= b < 16 -> hex_digit_char a = hex_digit_char b -> a = b.
Proof. unfold hex_digit_char. destruct (Z.ltb_spec a 10), (Z.ltb_spec b 10); lia. Qed.
(** How an escape starts. *)
Inductive escaped : Z -> list Z -> Prop :=
| esc_letter c e : c = 34 /\ e = 34 \/ c = 92 /\ e = 92 \/ c = 10 /\ e = 110 \/ c = 13 /\ e = 114 \/ c = 9 /\ e = 116 -> escaped c [92; e]
| esc_control c : 0 <= c < 32 -> escaped c [92; 117; 48; 48; hex_digit_char (c / 16); hex_digit_char (c mod 16)]
| esc_plain c : c <> 34 -> c <> 92 -> escaped c [c].
Lemma escape_escaped c : 0 <= c -> escaped c (escape_char c).
Proof.
  intros P. unfold escape_char. destruct (Z.eqb_spec c 34) as [->|]; [apply esc_letter; lia|]. destruct (Z.eqb_spec c 92) as [->|]; [apply esc_letter; lia|].
  destruct (Z.eqb_spec c 10) as [->|]; [apply esc_letter; lia|]. destruct (Z.eqb_spec c 13) as [->|]; [apply esc_letter; lia|].
  destruct (Z.eqb_spec c 9) as [->|]; [apply esc_letter; lia|]. destruct (Z.ltb_spec c 32); [by apply esc_control|by apply esc_plain].
Qed.
Lemma escaped_head c l : escaped c l -> exists h t, l = h :: t /\ h <> 34.
Proof. intros [? ? _|? _|? N _]; by eexists _, _. Qed.
Lemma escaped_prefix c d l k x y : escaped c l -> escaped d k -> l ++ x = k ++ y -> c = d /\ x = y.
Proof.
  intros H1 H2. destruct H1 as [c e I|c R|c N M], H2 as [d f J|d S|d O P]; cbn; intros E; simplify_eq/=; try done.
  - split; [lia|done].
  - lia.
  - lia.
  - split; [|done]. assert (c / 16 = d / 16) by (apply hex_digit_char_inj; [..|done]; split; try apply Z.div_pos; try apply Z.div_lt_upper_bound; lia).
    assert (c mod 16 = d mod 16) by (apply hex_digit_char_inj; [apply Z.mod_pos_bound..|done]; lia). rewrite (Z.div_mod c 16), (Z.div_mod d 16) by lia. lia.
Qed.
Lemma body_prefix a : forall b x y, Forall (Z.le 0) a -> Forall (Z.le 0) b -> flat_map escape_char a ++ 34 :: x = flat_map escape_char b ++ 34 :: y -> a = b /\ x = y.
Proof.
  induction a as [|c a IH]; intros b x y Fa Fb E.
  - destruct b as [|d b]; [by injection E as ->|]. exfalso. apply Forall_cons in Fb as [Pd _]. destruct (escaped_head d _ (escape_escaped d Pd)) as (h & t & Hd & N).
    cbn in E. rewrite Hd in E. by injection E as <-.
  - apply Forall_cons in Fa as [Pc Fa]. destruct b as [|d b].
    + exfalso. destruct (escaped_head c _ (escape_escaped c Pc)) as (h & t & Hc & N). cbn in E. rewrite Hc in E. by injection E as ->.
    + apply Forall_cons in Fb as [Pd Fb]. cbn in E. rewrite <-!(assoc_L (++)) in E.
      destruct (escaped_prefix c d _ _ _ _ (escape_escaped c Pc) (escape_escaped d Pd) E) as [-> E']. destruct (IH b x y Fa Fb E') as [-> ->]. done.
Qed.
Lemma json_str_prefix a b x y : Forall (Z.le 0) a -> Forall (Z.le 0) b -> json_str a ++ x = json_str b ++ y -> a = b /\ x = y.
Proof. intros Fa Fb E. unfold json_str in E. cbn in E. rewrite <-!(assoc_L (++)) in E. injection E as E. by apply body_prefix in E. Qed.
Definition is_text (r : DecideRequest) : Prop := Forall (Z.le 0) (actor r) /\ Forall (Z.le 0) (action r) /\ Forall (Z.le 0) (target r).
(** the text sent to the daemon determines the actor, the action and the
    target: no header, path or host name can put a field of its own into it. *)
Theorem envoy_question_unambiguous r s : is_text r -> is_text s -> to_json r = to_json s -> r = s.
Proof.
  intros (A1 & B1 & C1) (A2 & B2 & C2) E. destruct r as [a b c], s as [a' b' c']. unfold to_json in E. cbn [actor action target] in *.
  apply app_inv_head, app_inv_head, app_inv_head in E. apply json_str_prefix in E as [-> E]; [|done..].
  apply app_inv_head, app_inv_head, app_inv_head in E. apply json_str_prefix in E as [-> E]; [|done..].
  apply app_inv_head, app_inv_head, app_inv_head in E. by apply json_str_prefix in E as [-> _].
Qed.
Lemma envoy_question_unambiguous_witness :
  mk_DecideRequest [] (lit "http.get._root") [34; 44; 34; 97] = mk_DecideRequest [] (lit "http.get._root") ([34; 44; 34] ++ [97]).
Proof.
  apply envoy_question_unambiguous; [..|reflexivity]; unfold is_text; cbn; repeat (split || constructor); lia.
Defined.

(** ** The answer *)

(** The characters that come back: not the other control characters, which are
    written as numbers and read as letters. *)
Definition plain_char (c : Z) : Prop := c = 9 \/ c = 10 \/ c = 13 \/ 32 <= c.
Lemma walk_escaped d : forall out rest, Forall plain_char d -> walk (flat_map escape_char d ++ 34 :: rest) out = Some (out ++ d).
Proof.
  induction d as [|c d IH]; intros out rest F; [cbn; by rewrite app_nil_r|]. apply Forall_cons in F as [P F]. cbn [flat_map].
  rewrite <-(assoc_L (++)). replace (out ++ c :: d) with ((out ++ [c]) ++ d) by (by rewrite <-(assoc_L (++))). unfold plain_char in P. unfold escape_char.
  destruct (Z.eqb_spec c 34) as [->|]; [by apply IH|]. destruct (Z.eqb_spec c 92) as [->|]; [by apply IH|]. destruct (Z.eqb_spec c 10) as [->|]; [by apply IH|].
  destruct (Z.eqb_spec c 13) as [->|]; [by apply IH|]. destruct (Z.eqb_spec c 9) as [->|]; [by apply IH|]. destruct (Z.ltb_spec c 32); [lia|].
  cbn [app walk]. rewrite (proj2 (Z.eqb_neq c 34)), (proj2 (Z.eqb_neq c 92)) by done. by apply IH.
Qed.
(** where the decision is the first field of the answer, it is read as it was
    written, whatever else the answer holds. *)
Theorem envoy_reads_decision d rest : Forall plain_char d ->
  extract_str_field (lit "{" ++ json_str (lit "decision") ++ lit ":" ++ json_str d ++ rest) (lit "decision") = Some d.
Proof.
  intros F. set (tail := lit ":" ++ json_str d ++ rest). unfold extract_str_field.
  assert (Http.find_bytes ([34] ++ lit "decision" ++ [34]) (lit "{" ++ json_str (lit "decision") ++ tail) = Some 1%nat) as -> by reflexivity.
  cbn [mbind option_bind]. change (drop _ (lit "{" ++ json_str (lit "decision") ++ tail)) with tail.
  assert (Http.find_bytes [58] tail = Some 0%nat) as -> by reflexivity. cbn [mbind option_bind].
  change (trim_start (drop (0 + 1) tail)) with (34 :: (flat_map escape_char d ++ [34]) ++ rest). cbn [Z.eqb Pos.eqb].
  rewrite <-(assoc_L (++)). exact (walk_escaped d [] rest F).
Qed.
Lemma envoy_reads_decision_witness :
  extract_str_field (lit "{" ++ json_str (lit "decision") ++ lit ":" ++ json_str (lit "deny") ++ lit ",...") (lit "decision") = Some (lit "deny").
Proof. apply envoy_reads_decision. cbn. repeat (apply Forall_cons; split; [unfold plain_char; lia|]). apply Forall_nil_2. Defined.
Lemma allow_found bs : decision (parse_decide_response bs) = lit "allow" <-> exists s, decode_utf8 bs = Some s /\ extract_str_field s (lit "decision") = Some (lit "allow").
Proof.
  unfold parse_decide_response. destruct (decode_utf8 bs) as [s|]; [|split; [done|by intros (? & ? & _)]]. cbn [decision]. split.
  - destruct (extract_str_field s (lit "decision")) as [d|] eqn:X; [|done]. intros E. exists s. split; [done|]. rewrite X. f_equal. exact E.
  - intros (s' & [= <-] & ->). done.
Qed.
(** a request goes on exactly when the text found for the decision in the
    daemon's answer is allow; without an answer, and with one that is not text,
    it is refused. *)
Theorem envoy_resumes_iff body :
  (ResumeRequest ∈ on_http_call_response body <-> exists bs s, body = Some bs /\ decode_utf8 bs = Some s /\ extract_str_field s (lit "decision") = Some (lit "allow")) /\
  (forall lower header token self, ResumeRequest ∉ (on_http_request_headers lower header token self).2).
Proof.
  split.
  - unfold on_http_call_response. case_bool_decide as A.
    + apply allow_found in A as (s & D & X). split; [|set_solver]. intros _. destruct body as [bs|]; [by exists bs, s|]. cbn in D. by injection D as <-.
    + split; [set_solver|]. intros (bs & s & -> & D & X). destruct A. apply allow_found. by exists s.
  - intros lower header token self. unfold on_http_request_headers. destruct token; set_solver.
Qed.
(** An answer that denies, with a reason that is the word decision: the search
    finds that word, and reads the value of the next field. *)
Example decision_elsewhere :
  let field k v := json_str (lit k) ++ lit ":" ++ json_str (lit v) in
  on_http_call_response (Some (lit "{" ++ field "reason"%string "decision"%string ++ lit "," ++ field "detail"%string "allow"%string ++ lit "," ++
    field "decision"%string "deny"%string ++ lit "}")) = [ResumeRequest].
Proof. by vm_compute. Qed.

End Envoy.
