(* ===== verification/Webhook.v ===== *)
(** * Webhook: signed deliveries of other systems ([bridge_webhook.rs])

    [verify] checks the signature of a delivery, its age, and makes an event and
    a capability of it.  HMAC, ed25519 ([Packet.crypto]) and [to_lowercase], which
    follows the Unicode tables, are arguments; so is the clock.  A [json!] object
    lists its keys in order, as [serde_json]'s map does.  [Packet.Panic] is a
    panic: slices of texts off a character boundary.

    - [webhook_accepted_iff]: which deliveries are accepted;
    - [webhook_timestamp_dropped]: the HMAC schemes do not cover the timestamp,
      so an old delivery is accepted again without it;
    - [webhook_body_truncated]: the ed25519 scheme signs timestamp and body
      around a dot, so the start of the body can be moved into the timestamp;
    - [signature_header_panics]: a header that stops the process. *)

From S2P Require Import Prelude Utf8 Json Clock Packet OfflineApproval ActorId Bridges.
Import Clock Packet(outcome, Returned, Panic) OfflineApproval(slice_parse, then_field).
Import Bridges(BridgeError(..)).

#[local] Open Scope string_scope.
#[local] Open Scope list_scope.
#[local] Open Scope Z_scope.

Module Webhook.

Inductive WebhookScheme := HmacSha256 | HmacSha1 | Ed25519.
Definition scheme_debug (s : WebhookScheme) : string := match s with HmacSha256 => "HmacSha256" | HmacSha1 => "HmacSha1" | Ed25519 => "Ed25519" end.
Record WebhookBridgeConfig := mk_WebhookBridgeConfig {
  bridge_id : string; trust_domain : string; vendor : string; scheme : WebhookScheme; secret : list Z;
  max_age_seconds : option Z; default_risk : option string }.
Record VerifyWebhookArgs := mk_VerifyWebhookArgs {
  body : list Z; signature_header : string; timestamp_header : option string; event_type : string; event_id : string; received_at : option string }.
Record WebhookVerificationResult := mk_WebhookVerificationResult { event : json; capability : json }.

(** ** Helpers *)

(** [u8::from_str_radix(_, 16)] of a text of two bytes. *)
Definition hex_nibble (c : ascii) : option Z :=
  let n := Z.of_N (N_of_ascii c) in
  if (48 <=? n) && (n <=? 57) then Some (n - 48) else if (97 <=? n) && (n <=? 102) then Some (n - 87)
  else if (65 <=? n) && (n <=? 70) then Some (n - 55) else None.
Definition u8_from_hex2 (s : string) : option Z :=
  match s with
  | String a (String b EmptyString) => if Ascii.eqb a "+" then hex_nibble b else x ← hex_nibble a; y ← hex_nibble b; Some (x * 16 + y)
  | _ => None
  end.
(** [str::trim_start_matches]; the fuel is the number of bytes. *)
Fixpoint trim_matches (fuel : nat) (p s : string) : string :=
  match fuel with
  | O => s
  | S fuel => match strip_prefix p s with Some r => trim_matches fuel p r | None => s end
  end.
Definition trim_start_matches (p s : string) : string := trim_matches (String.length s) p s.
(** [for i in (0..len).step_by(2)]: [n] slices from [i] on. *)
Fixpoint hex_pairs (n i : nat) (s : string) : outcome (option (list Z)) :=
  match n with
  | O => Returned (Some [])
  | S n =>
    if is_char_boundary s i && is_char_boundary s (i + 2) then
      match u8_from_hex2 (String.substring i 2 s) with
      | None => Returned None
      | Some b => match hex_pairs n (i + 2) s with Returned (Some bs) => Returned (Some (b :: bs)) | r => r end
      end
    else Panic "byte index is not a char boundary"
  end.

(** The loop of [constant_time_eq_hex]. *)
Fixpoint diff_loop (diff : Z) (xs ys : list Z) : Z :=
  match xs, ys with x :: xs, y :: ys => diff_loop (Z.lor diff (Z.lxor x y)) xs ys | _, _ => diff end.
Definition constant_time_eq_hex (a b : string) : bool :=
  if negb (String.length a =? String.length b)%nat then false else diff_loop 0 (bytes_of_str a) (bytes_of_str b) =? 0.

Definition parse_iso8601 (s : string) : outcome (option Z) :=
  if (String.length s <? 19)%nat then Returned None else
  then_field (slice_parse s 0 4 parse_i64) (fun year =>
  then_field (slice_parse s 5 7 parse_u32) (fun month =>
  then_field (slice_parse s 8 10 parse_u32) (fun day =>
  then_field (slice_parse s 11 13 parse_u32) (fun hour =>
  then_field (slice_parse s 14 16 parse_u32) (fun minute =>
  then_field (slice_parse s 17 19 parse_u32) (fun second =>
  Returned (Some (ymd_to_days year month day * 86400 + hour * 3600 + minute * 60 + second)))))))).

Definition is_ascii_alphanumeric (c : Z) : bool := (48 <=? c) && (c <=? 57) || (65 <=? c) && (c <=? 90) || (97 <=? c) && (c <=? 122).
(** [event_type.replace(|c| .., "_")]. *)
Definition sanitize (s : string) : string :=
  str_of_chars ((fun c => if is_ascii_alphanumeric c || (c =? 46) || (c =? 95) || (c =? 45) then c else 95) <$> chars s).

(** ** Verification *)

Section webhook.
Variable x : Packet.crypto.
(** [Hmac::new_from_slice(key)], then [update] and [finalize]. *)
Variable hmac_sha256 hmac_sha1 : list Z -> result string (list Z -> list Z).
Variable to_lowercase : string -> string.

Definition decode_hex (s : string) : outcome (option (list Z)) :=
  let trimmed := trim_start_matches "0x" (to_lowercase (trim_str s)) in
  let trimmed := trim_start_matches "sha1=" (trim_start_matches "sha256=" trimmed) in
  if negb (Nat.even (String.length trimmed)) then Returned None else hex_pairs (String.length trimmed / 2) 0 trimmed.

Definition check_hmac (hmac : list Z -> result string (list Z -> list Z)) (prefix : string) (cfg : WebhookBridgeConfig) (args : VerifyWebhookArgs)
    : outcome (result BridgeError bool) :=
  match hmac (secret cfg) with
  | Err e => Returned (Err (InvalidInput ("hmac: " +:+ e)))
  | Ok mac => Returned (Ok (constant_time_eq_hex (hex (mac (body args))) (trim_start_matches prefix (to_lowercase (signature_header args)))))
  end.
Definition payload (ts : string) (args : VerifyWebhookArgs) : list Z := bytes_of_str ts ++ [46] ++ body args.
Definition check_ed25519 (cfg : WebhookBridgeConfig) (args : VerifyWebhookArgs) : outcome (result BridgeError bool) :=
  match timestamp_header args with
  | None => Returned (Err (InvalidInput "ed25519 webhook requires timestamp header"))
  | Some ts =>
    match decode_hex (signature_header args) with
    | Panic w => Panic w
    | Returned None => Returned (Err (InvalidInput "signature header not hex"))
    | Returned (Some sig_bytes) =>
      Returned (
        if negb (length (secret cfg) =? 32)%nat then Err (InvalidInput "ed25519 public key must be 32 bytes")
        else
          vk ← map_err (fun e => InvalidInput ("ed25519 key: " +:+ e)) (Packet.VerifyingKey_from_bytes x (secret cfg));
          sig ← map_err (fun e => InvalidInput ("signature parse: " +:+ e)) (Packet.Signature_from_slice x sig_bytes);
          Ok (Packet.verify x vk (payload ts args) sig))
    end
  end.
Definition check_signature (cfg : WebhookBridgeConfig) (args : VerifyWebhookArgs) : outcome (result BridgeError bool) :=
  match scheme cfg with
  | HmacSha256 => check_hmac hmac_sha256 "sha256=" cfg args
  | HmacSha1 => check_hmac hmac_sha1 "sha1=" cfg args
  | Ed25519 => check_ed25519 cfg args
  end.

Definition ts_text (ts : string) : string := if ActorId.has "T" ts then ts else now_iso8601 (default 0 (parse_i64 ts)).
Definition check_age (cfg : WebhookBridgeConfig) (ts : option string) (now_str : string) : outcome (result BridgeError unit) :=
  let max := default 300 (max_age_seconds cfg) in
  match ts with
  | None => Returned (Ok tt)
  | Some ts =>
    match parse_iso8601 (ts_text ts), parse_iso8601 now_str with
    | Panic w, _ | _, Panic w => Panic w
    | Returned (Some t1), Returned (Some t2) =>
      let age := Z.abs (t2 - t1) in
      Returned (if max <? age then Err (Rejected ("webhook age " +:+ pretty age +:+ "s exceeds " +:+ pretty max +:+ "s")) else Ok tt)
    | _, _ => Returned (Ok tt)
    end
  end.

Definition action_of (cfg : WebhookBridgeConfig) (args : VerifyWebhookArgs) : string := "webhook." +:+ vendor cfg +:+ "." +:+ sanitize (event_type args).
Definition result_of (cfg : WebhookBridgeConfig) (args : VerifyWebhookArgs) (now_str : string) : WebhookVerificationResult :=
  let actor := "tf:actor:service:" +:+ trust_domain cfg +:+ "/" +:+ vendor cfg in
  let action := action_of cfg args in
  mk_WebhookVerificationResult
    (JObject [("actor_id", JString actor);
              ("context", JObject [("event_type", JString (event_type args)); ("scheme", JString (scheme_debug (scheme cfg))); ("vendor", JString (vendor cfg))]);
              ("event_version", JString "1"); ("id", JString (event_id args)); ("level", JString "L2");
              ("signature", JObject [("algorithm", JString "ed25519"); ("signature", JString "AAAA"); ("signer", JString actor)]);
              ("timestamp", JString now_str); ("type", JString action)])
    (JObject [("name", JString action); ("risk", JString (default "R2" (default_risk cfg)))]).

(** [verify] at Unix time [secs]. *)
Definition verify (cfg : WebhookBridgeConfig) (secs : Z) (args : VerifyWebhookArgs) : outcome (result BridgeError WebhookVerificationResult) :=
  let now_str := default (now_iso8601 secs) (received_at args) in
  match check_signature cfg args with
  | Panic w => Panic w
  | Returned (Err e) => Returned (Err e)
  | Returned (Ok false) => Returned (Err (Rejected ("webhook signature failed (" +:+ scheme_debug (scheme cfg) +:+ ")")))
  | Returned (Ok true) =>
    match check_age cfg (timestamp_header args) now_str with
    | Panic w => Panic w
    | Returned (Err e) => Returned (Err e)
    | Returned (Ok _) => Returned (Ok (result_of cfg args now_str))
    end
  end.
End webhook.

(** ** Comparing in constant time *)

Lemma diff_loop_zero xs : forall ys diff, 0 <= diff -> is_bytes xs -> is_bytes ys -> length xs = length ys ->
  diff_loop diff xs ys = 0 <-> diff = 0 /\ xs = ys.
Proof.
  induction xs as [|b xs IH]; intros [|c ys] diff D X Y L; cbn [diff_loop]; try done.
  - naive_solver.
  - apply Forall_cons in X as [B X], Y as [C Y]. cbn in L. rewrite IH; [|apply Z.lor_nonneg; split; [done|]; apply Z.lxor_nonneg; unfold is_u8 in *; lia|done|done|lia].
    rewrite Z.lor_eq_0_iff, Z.lxor_eq_0_iff. naive_solver.
Qed.
Lemma constant_time_eq_iff a b : constant_time_eq_hex a b = true <-> a = b.
Proof.
  unfold constant_time_eq_hex. destruct (Nat.eqb_spec (String.length a) (String.length b)) as [L|L]; cbn [negb].
  - rewrite Z.eqb_eq, diff_loop_zero; [|lia|apply bytes_of_str_bytes..|by rewrite !length_bytes_of_str].
    split; [by intros [_ E%bytes_of_str_inj]|by intros ->].
  - split; [done|]. by intros ->.
Qed.

(** ** What is accepted *)

Section theorems.
Variable x : Packet.crypto.
Variable hmac_sha256 hmac_sha1 : list Z -> result string (list Z -> list Z).
Variable to_lowercase : string -> string.
#[local] Abbreviation verify := (verify x hmac_sha256 hmac_sha1 to_lowercase).
#[local] Abbreviation check_signature := (check_signature x hmac_sha256 hmac_sha1 to_lowercase).

(** The signature header carries the MAC of the body, or a signature over
    timestamp and body. *)
Definition has_mac (hmac : list Z -> result string (list Z -> list Z)) (prefix : string) (cfg : WebhookBridgeConfig) (args : VerifyWebhookArgs) : Prop :=
  exists mac, hmac (secret cfg) = Ok mac /\ trim_start_matches prefix (to_lowercase (signature_header args)) = hex (mac (body args)).
Definition signed (cfg : WebhookBridgeConfig) (args : VerifyWebhookArgs) : Prop :=
  match scheme cfg with
  | HmacSha256 => has_mac hmac_sha256 "sha256=" cfg args
  | HmacSha1 => has_mac hmac_sha1 "sha1=" cfg args
  | Ed25519 =>
    exists ts sig_bytes vk sig, timestamp_header args = Some ts /\ decode_hex to_lowercase (signature_header args) = Returned (Some sig_bytes) /\
      length (secret cfg) = 32%nat /\ Packet.VerifyingKey_from_bytes x (secret cfg) = Ok vk /\ Packet.Signature_from_slice x sig_bytes = Ok sig /\
      Packet.verify x vk (payload ts args) sig = true
  end.
(** A timestamp is near the time of receipt where both can be read. *)
Definition timely (cfg : WebhookBridgeConfig) (ts : option string) (now_str : string) : Prop :=
  forall t, ts = Some t -> exists o1 o2, parse_iso8601 (ts_text t) = Returned o1 /\ parse_iso8601 now_str = Returned o2 /\
  forall t1 t2, o1 = Some t1 -> o2 = Some t2 -> Z.abs (t2 - t1) <= default 300 (max_age_seconds cfg).

Lemma check_hmac_iff hmac prefix cfg args : check_hmac to_lowercase hmac prefix cfg args = Returned (Ok true) <-> has_mac hmac prefix cfg args.
Proof.
  unfold check_hmac, has_mac. destruct (hmac (secret cfg)) as [mac|e]; [|naive_solver]. split.
  - intros [= H%constant_time_eq_iff]. eauto.
  - intros (mac' & [= <-] & H). do 2 f_equal. by apply constant_time_eq_iff.
Qed.
Lemma check_signature_iff cfg args : check_signature cfg args = Returned (Ok true) <-> signed cfg args.
Proof.
  unfold check_signature, signed. destruct (scheme cfg); [apply check_hmac_iff..|]. unfold check_ed25519. split.
  - destruct (timestamp_header args) as [ts|]; [|done]. destruct (decode_hex _ _) as [[sig_bytes|]|w]; try done.
    destruct (Nat.eqb_spec (length (secret cfg)) 32) as [L|]; cbn [negb]; [|done].
    destruct (Packet.VerifyingKey_from_bytes x (secret cfg)) as [vk|] eqn:V; [|done].
    destruct (Packet.Signature_from_slice x sig_bytes) as [sig|] eqn:S; [|done]. cbn. intros [= H]. by exists ts, sig_bytes, vk, sig.
  - intros (ts & sig_bytes & vk & sig & -> & -> & L & V & S & H). rewrite L, V, S. cbn. by rewrite H.
Qed.
Lemma check_age_iff cfg ts now_str : check_age cfg ts now_str = Returned (Ok tt) <-> timely cfg ts now_str.
Proof.
  unfold check_age, timely. destruct ts as [ts|]; [|done].
  destruct (parse_iso8601 (ts_text ts)) as [o1|w1] eqn:P1; [|split; [done|intros H; destruct (H ts eq_refl) as (? & ? & ? & _); congruence]].
  destruct (parse_iso8601 now_str) as [o2|w2];
    [|split; [by destruct o1|intros H; destruct (H ts eq_refl) as (? & ? & _ & ? & _); congruence]].
  destruct o1 as [t1|], o2 as [t2|]; try (by split; [intros _ t [= <-]; rewrite P1; eexists _, _; split_and!; [done..|]; naive_solver|done]).
  destruct (Z.ltb_spec (default 300 (max_age_seconds cfg)) (Z.abs (t2 - t1))) as [B|B]; split; try done.
  - intros H. destruct (H ts eq_refl) as (o1 & o2 & E1 & E2 & K). rewrite P1 in E1. simplify_eq. pose proof (K _ _ eq_refl eq_refl). lia.
  - intros _ t [= <-]. exists (Some t1), (Some t2). split_and!; [done..|]. by intros ? ? [= <-] [= <-].
Qed.
(** a delivery is accepted exactly when its header carries the MAC of the
    body, or a signature over timestamp and body, under the configured secret,
    and its timestamp, if any can be read, is near the time of receipt; the
    outcome is then the event and the capability of that delivery. *)
Theorem webhook_accepted_iff cfg secs args res :
  let now_str := default (now_iso8601 secs) (received_at args) in
  verify cfg secs args = Returned (Ok res) <-> signed cfg args /\ timely cfg (timestamp_header args) now_str /\ res = result_of cfg args now_str.
Proof.
  intros now_str. unfold Webhook.verify. fold now_str. rewrite <- check_signature_iff, <- check_age_iff.
  destruct (check_signature cfg args) as [[[]|e]|w]; try naive_solver.
  destruct (check_age cfg (timestamp_header args) now_str) as [[[]|e]|w]; naive_solver.
Qed.

Definition set_timestamp (ts received : option string) (args : VerifyWebhookArgs) : VerifyWebhookArgs :=
  mk_VerifyWebhookArgs (body args) (signature_header args) ts (event_type args) (event_id args) received.
(** the HMAC schemes do not cover the timestamp: a delivery that was accepted
    once is accepted again at any later time when its timestamp is left out. *)
Theorem webhook_timestamp_dropped cfg secs args res secs' received : scheme cfg <> Ed25519 -> verify cfg secs args = Returned (Ok res) ->
  exists res', verify cfg secs' (set_timestamp None received args) = Returned (Ok res').
Proof.
  intros S V. unfold Webhook.verify in *. assert (check_signature cfg (set_timestamp None received args) = check_signature cfg args) as ->.
  { unfold Webhook.check_signature. by destruct (scheme cfg). }
  destruct (check_signature cfg args) as [[[]|e]|w]; try done. cbn. eauto.
Qed.

(** ** Moving the start of the body into the timestamp *)

Lemma get_app_left s t i : (i < String.length s)%nat -> String.get i (s +:+ t) = String.get i s.
Proof. revert i; induction s as [|c s IH]; intros i L; cbn in L; [lia|]. rewrite str_app_cons. destruct i; [done|]. cbn. apply IH. lia. Qed.
Lemma get_app_right s t : String.get (String.length s) (s +:+ t) = String.get 0 t.
Proof. by induction s. Qed.
Lemma get_end s : String.get (String.length s) s = None.
Proof. by induction s. Qed.
Lemma boundary_app s t i : (i <= String.length s)%nat -> is_char_boundary (s +:+ "." +:+ t) i = is_char_boundary s i.
Proof.
  intros L. unfold is_char_boundary. destruct (decide (i = String.length s)) as [->|N].
  - rewrite get_app_right, get_end, Nat.eqb_refl. done.
  - rewrite get_app_left by lia. destruct (String.get i s) eqn:E; [done|].
    exfalso. assert (forall s i, (i < String.length s)%nat -> String.get i s <> None) as G.
    { clear. induction s as [|c s IH]; intros [|i] L; cbn in *; try lia; try done. apply IH. lia. }
    apply (G s i); [lia|done].
Qed.
Lemma substring_app s t i n : (i + n <= String.length s)%nat -> String.substring i n (s +:+ t) = String.substring i n s.
Proof.
  revert i n; induction s as [|c s IH]; intros i n L; cbn in L.
  - assert (i = 0%nat) as -> by lia. assert (n = 0%nat) as -> by lia. by destruct t.
  - rewrite str_app_cons. destruct i as [|i], n as [|n]; cbn; try done; [f_equal; apply (IH 0%nat n)|apply IH|apply IH]; lia.
Qed.
Lemma slice_parse_app s t a b parse : (a <= b)%nat -> (b <= String.length s)%nat -> slice_parse (s +:+ "." +:+ t) a b parse = slice_parse s a b parse.
Proof. intros A B. unfold slice_parse. rewrite !boundary_app, substring_app by lia. done. Qed.
Lemma parse_iso8601_app s t : (19 <= String.length s)%nat -> parse_iso8601 (s +:+ "." +:+ t) = parse_iso8601 s.
Proof.
  intros L. unfold parse_iso8601. rewrite str_length_app. rewrite !(proj2 (Nat.ltb_ge _ _)) by lia.
  unfold then_field. repeat (rewrite slice_parse_app by lia; destruct (slice_parse s _ _ _) as [[]|]; [|done..]). done.
Qed.
Definition shift_body (ts start : string) (rest : list Z) (args : VerifyWebhookArgs) : VerifyWebhookArgs :=
  mk_VerifyWebhookArgs rest (signature_header args) (Some (ts +:+ "." +:+ start)) (event_type args) (event_id args) (received_at args).
(** with ed25519, timestamp and body are signed around a dot: where the
    timestamp is in the long form, the start of the body up to any dot can be
    moved to the end of the timestamp, and the outcome is the same.  What is
    accepted as the body is then only the end of what was signed. *)
Theorem webhook_body_truncated cfg secs args ts start rest : scheme cfg = Ed25519 -> timestamp_header args = Some ts ->
  ActorId.has "T" ts = true -> (19 <= String.length ts)%nat -> body args = bytes_of_str start ++ [46] ++ rest ->
  verify cfg secs (shift_body ts start rest args) = verify cfg secs args.
Proof.
  intros S T H L B. unfold Webhook.verify, Webhook.check_signature, check_ed25519. rewrite S, T. cbn [shift_body timestamp_header signature_header received_at].
  assert (payload (ts +:+ "." +:+ start) (shift_body ts start rest args) = payload ts args) as ->.
  { unfold payload. rewrite B, !bytes_of_str_app. cbn [shift_body body]. by rewrite <- !app_assoc. }
  destruct (decode_hex _ _) as [[sig_bytes|]|w]; [|done..]. destruct (if negb _ then _ else _) as [[]|e]; [|done..].
  assert (forall now, check_age cfg (Some (ts +:+ "." +:+ start)) now = check_age cfg (Some ts) now) as ->.
  { intros now. unfold check_age. assert (ts_text (ts +:+ "." +:+ start) = ts +:+ "." +:+ start) as -> by (unfold ts_text; by rewrite ActorId.has_app, H).
    rewrite parse_iso8601_app by done. unfold ts_text. by rewrite H. }
  done.
Qed.
End theorems.

(** ** Examples *)

Definition toy_hmac (key : list Z) : result string (list Z -> list Z) := Ok (fun m => take 4 (key ++ m)).
Definition hmac_config : WebhookBridgeConfig := mk_WebhookBridgeConfig "b" "example.com" "acme" HmacSha256 [1; 2] None None.
Definition old_delivery : VerifyWebhookArgs :=
  mk_VerifyWebhookArgs [7; 8] "sha256=01020708" (Some "2024-01-01T00:00:00Z") "push" "e1" (Some "2024-01-01T00:01:00Z").
Lemma webhook_timestamp_dropped_witness :
  verify Packet.toy toy_hmac toy_hmac id hmac_config 1900000000 (set_timestamp (Some "2024-01-01T00:00:00Z") None old_delivery)
    = Returned (Err (Rejected "webhook age 195932800s exceeds 300s")) /\
  exists res, verify Packet.toy toy_hmac toy_hmac id hmac_config 1900000000 (set_timestamp None None old_delivery) = Returned (Ok res).
Proof.
  split; [by vm_compute|].
  apply (webhook_timestamp_dropped Packet.toy toy_hmac toy_hmac id hmac_config 0 old_delivery
    (result_of hmac_config old_delivery "2024-01-01T00:01:00Z")); [done|by vm_compute].
Defined.

Definition ed_config : WebhookBridgeConfig := mk_WebhookBridgeConfig "b" "example.com" "acme" Ed25519 (replicate 32 5) None None.
Definition ts1 : string := "2024-01-01T00:00:00Z".
Definition body1 : list Z := bytes_of_str "keep=1.drop=all".
Definition signed_delivery : VerifyWebhookArgs :=
  mk_VerifyWebhookArgs body1 (hex (Packet.toy_sign (replicate 32 5) (bytes_of_str ts1 ++ [46] ++ body1))) (Some ts1) "push" "e1" (Some "2024-01-01T00:01:00Z").
Lemma webhook_body_truncated_witness :
  verify Packet.toy toy_hmac toy_hmac id ed_config 0 (shift_body ts1 "keep=1" (bytes_of_str "drop=all") signed_delivery)
    = Returned (Ok (result_of ed_config signed_delivery "2024-01-01T00:01:00Z")).
Proof.
  rewrite (webhook_body_truncated Packet.toy toy_hmac toy_hmac id ed_config 0 signed_delivery ts1 "keep=1" (bytes_of_str "drop=all"));
    [by vm_compute|done|done|done|cbn; lia|done].
Defined.
(** A signature header with a character of two bytes at an odd position. *)
Example signature_header_panics :
  verify Packet.toy toy_hmac toy_hmac id ed_config 0
    (mk_VerifyWebhookArgs [] (str_of_bytes [97; 0xc3; 0xa9; 97]) (Some ts1) "push" "e1" None) = Panic "byte index is not a char boundary".
Proof. by vm_compute. Qed.
(** Different events of a vendor share an action. *)
Example actions_collide : sanitize "repo deleted" = sanitize "repo_deleted".
Proof. by vm_compute. Qed.
(** A timestamp that cannot be read is not checked. *)
Example unreadable_timestamp_accepted :
  is_ok (match verify Packet.toy toy_hmac toy_hmac id hmac_config 1900000000 (set_timestamp (Some "T") None old_delivery) with Returned r => r | Panic _ => Err (Rejected "") end) = true.
Proof. by vm_compute. Qed.

End Webhook.
