(* ===== verification/Proxy.v ===== *)
(** * Proxy: the enforcing reverse proxy ([tf-proxy/src/lib.rs])

    For each request the proxy asks the daemon and forwards, refuses or hands
    over to an approval.  hyper, http and serde_json are the record [Lib]: header
    maps, values and names, building and sending requests, URLs.  What the daemon
    and the upstream answer are [exchange]; [handle_request] gives its response
    with the requests it sent, in order.  A response body is the JSON value it
    serialises or the bytes of the upstream.  The time in nanoseconds is an
    argument, the counter is state.  Listening, TLS, telemetry and the copying of
    bytes of a spliced connection are not modelled.

    - [proxy_forwards_iff]: on which answers of the daemon a request, or a
      whole spliced connection, reaches the upstream, in either mode;
    - [upgrade_hides_action]: a request with an upgrade header is asked about as
      another action and forwarded as if the header were not there;
    - [splice_decided_on_head]: a connection is spliced on the strength of its
      first request head alone;
    - [actions_collide_by_dots]: paths with the same action. *)

From S2P Require Import Prelude Utf8 Json Clock ActorId Bridges Jws OAuth Http.

#[local] Open Scope string_scope.
#[local] Open Scope list_scope.
#[local] Open Scope Z_scope.

Module Proxy.

Inductive Mode := ObserveOnly | Enforce.
#[global] Instance Mode_eq_dec : EqDecision Mode. Proof. solve_decision. Defined.
Definition from_str (s : string) : result string Mode :=
  if (s =? "observe-only")%string || (s =? "observe_only")%string || (s =? "observe")%string then Ok ObserveOnly
  else if (s =? "enforce")%string then Ok Enforce
  else Err ("unknown mode: " +:+ s).
(** The address to listen on and the TLS files are not modelled. *)
Record ProxyConfig := mk_ProxyConfig { upstream : string; daemon : string; admin_token : option string; profile : string; mode : Mode }.
(** [actor] is always [None]. *)
Record DecideRequest := mk_DecideRequest {
  host_token : option string; host_token_kind : option string; action : string; target : string; context : json; trace_id : string }.
Record DecideResponse := mk_DecideResponse { decision : string; reason : option string; proof_id : option string; approval_id : option string }.

(** ** hyper, http and serde_json *)

Record Lib := mk_Lib {
  HeaderMap : Type; HeaderValue : Type; Req : Type;
  new_map : HeaderMap;
  get : HeaderMap -> string -> option HeaderValue;
  insert : string -> HeaderValue -> HeaderMap -> HeaderMap;
  iter : HeaderMap -> list (string * HeaderValue);
  to_str : HeaderValue -> option string;
  name_from_bytes : string -> option string;
  value_from_str : string -> option HeaderValue;
  method_from_bytes : string -> option string;
  (** [parse::<Uri>()] and [host()]. *)
  uri_host : string -> option string;
  (** [Request::builder() .. body(..)]: method, URL, headers (texts or values), body. *)
  build : string -> string -> list (string * (string + HeaderValue)) -> list Z -> result string Req;
  to_vec : DecideRequest -> result string (list Z);
  from_slice : list Z -> result string DecideResponse;
  (** [Display] of a status code. *)
  show_status : Z -> string
}.
Section proxy.
Variable l : Lib.
Record Response := mk_Response { r_status : Z; r_headers : list (string * (string + HeaderValue l)); r_body : json + list Z }.
(** A request as hyper hands it over; reading its body may fail. *)
Record Request := mk_Request { method : string; path : string; path_and_query : option string; headers : HeaderMap l; body : result string (list Z) }.
(** The answer to a request that was sent: status, headers and body. *)
Variable exchange : Req l -> result string (Z * list (string * HeaderValue l) * result string (list Z)).

(** ** Tokens and actions *)

Definition is_token_byte (b : Z) : bool :=
  (48 <=? b) && (b <=? 57) || (65 <=? b) && (b <=? 90) || (97 <=? b) && (b <=? 122) || (b =? 46) || (b =? 45) || (b =? 95).
Definition classify_token (t : string) : string :=
  if (length (List.filter (fun b => (b =? 46)%Z) (bytes_of_str t)) =? 2)%nat && forallb is_token_byte (bytes_of_str t) then "jwt" else "opaque".
(** A text after a prefix, trimmed, when it is not empty. *)
Definition token_after (prefix s : string) : option string :=
  rest ← strip_prefix prefix s; let token := trim_str rest in if str_is_empty token then None else Some token.
Fixpoint cookie_token (parts : list string) : option string :=
  match parts with
  | [] => None
  | raw :: parts =>
    let part := trim_str raw in
    match token_after "__session=" part with
    | Some t => Some t
    | None => match token_after "__Secure-next-auth.session-token=" part with Some t => Some t | None => cookie_token parts end
    end
  end.
Definition header_text (hs : HeaderMap l) (name : string) : option string := v ← get l hs name; to_str l v.
Definition extract_host_token (hs : HeaderMap l) : option (string * string) :=
  let with_kind t := (t, classify_token t) in
  match (s ← header_text hs "authorization"; token_after "Bearer " s) with
  | Some t => Some (with_kind t)
  | None => with_kind <$> (s ← header_text hs "cookie"; cookie_token (Jws.split ";" s))
  end.

Definition action_for (m p : string) : string :=
  let segments := List.filter (fun s => negb (str_is_empty s)) (Jws.split "/" p) in
  let m := ActorId.to_ascii_lowercase m in
  match segments with [] => m +:+ ".root" | _ => m +:+ "." +:+ String.concat "." segments end.
Definition is_websocket_upgrade (req : Request) : bool :=
  match header_text (headers req) "upgrade" with Some s => Http.eq_ignore_ascii_case s "websocket" | None => false end.

(** ** The daemon *)

Fixpoint trim_end_slashes (s : string) : string :=
  match s with
  | EmptyString => ""
  | String c r => let r := trim_end_slashes r in if Ascii.eqb c "/" && str_is_empty r then "" else String c r
  end.
(** [fetch_add] on an [AtomicU64]. *)
Definition next_trace_id (counter nanos : Z) : string * Z := ("tf-proxy-" +:+ pretty nanos +:+ "-" +:+ pretty counter, Clock.as_u64 (counter + 1)).
Definition decide_request (hs : HeaderMap l) (m p ip : string) (is_connect : bool) (trace : string) : DecideRequest :=
  let token := extract_host_token hs in
  mk_DecideRequest (fst <$> token) (snd <$> token) (if is_connect then "connect" else action_for m p) p
    (JObject [("ip", JString ip); ("user_agent", match header_text hs "user-agent" with Some s => JString s | None => JNull end)]) trace.
Definition is_success (status : Z) : bool := (200 <=? status) && (status <? 300).
(** The answer to a question; the request is [None] when it was not built. *)
Definition call_decide (cfg : ProxyConfig) (q : DecideRequest) : option (Req l) * result string DecideResponse :=
  let url := trim_end_slashes (daemon cfg) +:+ "/v1/decide" in
  match map_err (fun e => "encode decide body: " +:+ e) (to_vec l q) with
  | Err e => (None, Err e)
  | Ok payload =>
    let hs := ("content-type", inl "application/json") :: match admin_token cfg with Some t => [("X-Admin-Token", inl t)] | None => [] end in
    match map_err (fun e => "build decide request: " +:+ e) (build l "POST" url hs payload) with
    | Err e => (None, Err e)
    | Ok req =>
      (Some req,
       '(status, _, bytes) ← map_err (fun e => "daemon unreachable: " +:+ e) (exchange req);
       if negb (is_success status) then Err ("daemon status " +:+ show_status l status)
       else
         bytes ← map_err (fun e => "daemon body read: " +:+ e) bytes;
         decoded ← map_err (fun e => "daemon malformed body: " +:+ e +:+ ": " +:+ str_of_bytes (Http.from_utf8_lossy bytes)) (from_slice l bytes);
         if str_is_empty (decision decoded) then Err "daemon returned empty decision" else Ok decoded)
    end
  end.

(** ** The upstream *)

Definition hop_by_hop (name : string) : bool :=
  existsb (String.eqb name) ["connection"; "keep-alive"; "proxy-authenticate"; "proxy-authorization"; "te"; "trailers"; "transfer-encoding"; "upgrade"; "content-length"].
Definition as_values (hs : list (string * HeaderValue l)) : list (string * (string + HeaderValue l)) := prod_map id inr <$> hs.
Definition request_headers (hs : list (string * HeaderValue l)) : list (string * HeaderValue l) :=
  List.filter (fun kv => negb ((ActorId.to_ascii_lowercase (fst kv) =? "host")%string || hop_by_hop (ActorId.to_ascii_lowercase (fst kv)))) hs.
Definition response_headers (hs : list (string * HeaderValue l)) : list (string * HeaderValue l) :=
  List.filter (fun kv => negb (hop_by_hop (ActorId.to_ascii_lowercase (fst kv)))) hs.
Definition upstream_request (cfg : ProxyConfig) (req : Request) : result string (Req l) :=
  body_bytes ← map_err (fun e => "read req body: " +:+ e) (body req);
  map_err (fun e => "build upstream request: " +:+ e)
    (build l (method req) (trim_end_slashes (upstream cfg) +:+ default (path req) (path_and_query req)) (as_values (request_headers (iter l (headers req)))) body_bytes).
(** The headers copied to the response come from one, so building it does not
    fail. *)
Definition forward_to_upstream (cfg : ProxyConfig) (req : Request) : option (Req l) * result string Response :=
  match upstream_request cfg req with
  | Err e => (None, Err e)
  | Ok u =>
    (Some u,
     '(status, hs, bytes) ← map_err (fun e => "upstream error: " +:+ e) (exchange u);
     bytes ← map_err (fun e => "upstream body: " +:+ e) bytes;
     Ok (mk_Response status (as_values (response_headers hs)) (inr bytes)))
  end.

Definition json_response (status : Z) (b : list (string * json)) : Response :=
  mk_Response status [("content-type", inl "application/json")] (inl (JObject b)).
Definition with_header (name text : string) (r : Response) : Response :=
  match value_from_str l text with Some v => mk_Response (r_status r) (r_headers r ++ [(name, inr v)]) (r_body r) | None => r end.
Definition quote : string := str_of_bytes [34].
Definition forward (cfg : ProxyConfig) (req : Request) : option (Req l) * Response :=
  match forward_to_upstream cfg req with
  | (sent, Ok r) => (sent, r)
  | (sent, Err e) => (sent, json_response 502 [("detail", JString e); ("error", JString "upstream-error")])
  end.
Definition approval_location (cfg : ProxyConfig) (id : string) : string := trim_end_slashes (daemon cfg) +:+ "/v1/approval/" +:+ id.
Definition is_approval (d : string) : bool := (d =? "approval-required")%string || (d =? "approval_required")%string.
(** What follows the decision: the request sent upstream, if any, and the response. *)
Definition act_on (cfg : ProxyConfig) (req : Request) (d : DecideResponse) : option (Req l) * Response :=
  if (decision d =? "allow")%string then forward cfg req
  else if (decision d =? "deny")%string then
    if bool_decide (mode cfg = Enforce) then
      let realm := default (profile cfg) (uri_host l (upstream cfg)) in
      let why := default "" (reason d) in
      (None, with_header "www-authenticate" ("TrustForge realm=" +:+ quote +:+ realm +:+ quote +:+ ", reason=" +:+ quote +:+ why +:+ quote)
               (json_response 403 [("error", JString "deny"); ("proof_id", JString (default "" (proof_id d))); ("reason", JString why)]))
    else forward cfg req
  else if is_approval (decision d) then
    let id := default "" (approval_id d) in
    (None, with_header "location" (approval_location cfg id) (json_response 202 [("approval_id", JString id); ("status", JString "pending")]))
  else if (decision d =? "log-only")%string || (decision d =? "log_only")%string then forward cfg req
  else if bool_decide (mode cfg = Enforce) then
    (None, json_response 403 [("error", JString "deny"); ("reason", JString ("unknown decision: " +:+ decision d))])
  else forward cfg req.

Record Handled := mk_Handled { asked : option (Req l); forwarded : option (Req l); response : Response; counter : Z }.
Definition handle_request (cfg : ProxyConfig) (c nanos : Z) (ip : string) (req : Request) : Handled :=
  let '(trace, c) := next_trace_id c nanos in
  match call_decide cfg (decide_request (headers req) (method req) (path req) ip (is_websocket_upgrade req) trace) with
  | (a, Err e) => mk_Handled a None (json_response 502 [("detail", JString e); ("error", JString "daemon-error")]) c
  | (a, Ok d) => let '(f, r) := act_on cfg req d in mk_Handled a f r c
  end.

(** ** Connections *)

(** [split("\r\n")]. *)
Fixpoint split_crlf (current bs : list Z) : list (list Z) :=
  match bs with
  | [] => [current]
  | b :: r =>
    match r with
    | c :: r' => if (b =? 13) && (c =? 10) then current :: split_crlf [] r' else split_crlf (current ++ [b]) r
    | [] => [current ++ [b]]
    end
  end.
(** The lines before the first empty line, or all of them. *)
Definition head_lines (buf : list Z) : list string :=
  let head := match Http.find_bytes [13; 10; 13; 10] buf with Some i => take i buf | None => buf end in
  str_of_bytes <$> split_crlf [] head.
Definition head_looks_like_websocket (buf : list Z) : bool :=
  if negb (valid_utf8 buf) then false
  else existsb (fun line =>
    match ActorId.split_first ":" line with
    | Some (name, value) => Http.eq_ignore_ascii_case (trim_str name) "upgrade" && Http.eq_ignore_ascii_case (trim_str value) "websocket"
    | None => false
    end) (drop 1 (head_lines buf)).
Fixpoint insert_lines (ls : list string) (hs : HeaderMap l) : HeaderMap l :=
  match ls with
  | [] => hs
  | line :: ls =>
    insert_lines ls
      (match ActorId.split_first ":" line with
       | Some (n, v) => match name_from_bytes l (trim_str n), value_from_str l (trim_str v) with Some hn, Some hv => insert l hn hv hs | _, _ => hs end
       | None => hs
       end)
  end.
Definition parse_request_head (buf : list Z) : option (string * string * HeaderMap l) :=
  if negb (valid_utf8 buf) then None
  else
    match head_lines buf with
    | [] => None
    | request_line :: ls =>
      let parts := OAuth.split_whitespace request_line in
      m ← parts !! 0%nat; p ← parts !! 1%nat; Some (m, p, insert_lines ls (new_map l))
    end.

Inductive Connection := Closed | Spliced | Wrote (text : string) | ServedByHyper.
Definition raw_response (status_line : string) (extra : string) (b : string) : string :=
  "HTTP/1.1 " +:+ status_line +:+ Http.crlf +:+ extra +:+ "Content-Type: application/json" +:+ Http.crlf +:+ "Content-Length: " +:+ pretty (String.length b)
  +:+ Http.crlf +:+ "Connection: close" +:+ Http.crlf +:+ Http.crlf +:+ b.
Definition json_text (name1 value1 name2 value2 : string) : string :=
  "{" +:+ quote +:+ name1 +:+ quote +:+ ":" +:+ quote +:+ value1 +:+ quote +:+ "," +:+ quote +:+ name2 +:+ quote +:+ ":" +:+ quote +:+ value2 +:+ quote +:+ "}".
(** What is done with a connection whose first bytes are [peek]. *)
Definition serve_connection_inner (cfg : ProxyConfig) (c nanos : Z) (ip : string) (peek : list Z) : Connection * Z :=
  match peek with
  | [] => (Closed, c)
  | _ =>
    if head_looks_like_websocket peek then
      match parse_request_head peek with
      | Some (m, p, hs) =>
        let m := default "GET" (method_from_bytes l m) in
        let '(trace, c) := next_trace_id c nanos in
        (match snd (call_decide cfg (decide_request hs m p ip true trace)) with
         | Ok d =>
           if (decision d =? "allow")%string || bool_decide (mode cfg = ObserveOnly) && negb (is_approval (decision d)) then Spliced
           else if is_approval (decision d) then
             let id := default "" (approval_id d) in
             Wrote (raw_response "202 Accepted" ("Location: " +:+ approval_location cfg id +:+ Http.crlf) (json_text "status" "pending" "approval_id" id))
           else Wrote (raw_response "403 Forbidden" "" (json_text "error" "deny" "reason" (default "" (reason d))))
         | Err e => Wrote (raw_response "502 Bad Gateway" "" (json_text "error" "daemon-error" "detail" e))
         end, c)
      | None => (ServedByHyper, c)
      end
    else (ServedByHyper, c)
  end.

(** ** What reaches the upstream *)

(** The decisions on which a request is sent on. *)
Definition passes (m : Mode) (d : string) : bool :=
  (d =? "allow")%string || (d =? "log-only")%string || (d =? "log_only")%string || bool_decide (m = ObserveOnly) && negb (is_approval d).
Lemma forward_sends cfg req : fst (forward cfg req) = match upstream_request cfg req with Ok u => Some u | Err _ => None end.
Proof. unfold forward, forward_to_upstream. destruct (upstream_request cfg req) as [u|e]; [|done]. by destruct (mbind _ _). Qed.
Lemma act_on_sends cfg req d : fst (act_on cfg req d) = if passes (mode cfg) (decision d) then fst (forward cfg req) else None.
Proof.
  unfold act_on, passes, is_approval.
  destruct (String.eqb_spec (decision d) "allow") as [|N1]; [done|]. destruct (String.eqb_spec (decision d) "deny") as [->|N2].
  { cbn. by destruct (mode cfg). }
  destruct (String.eqb_spec (decision d) "approval-required") as [->|N3]; [cbn; by rewrite andb_false_r|].
  destruct (String.eqb_spec (decision d) "approval_required") as [->|N4]; [cbn; by rewrite andb_false_r|].
  destruct (decision d =? "log-only")%string, (decision d =? "log_only")%string; cbn; try done; by destruct (mode cfg).
Qed.
Definition question (cfg : ProxyConfig) (c nanos : Z) (ip : string) (req : Request) : DecideRequest :=
  decide_request (headers req) (method req) (path req) ip (is_websocket_upgrade req) (fst (next_trace_id c nanos)).
Lemma forwarded_iff cfg c nanos ip req u :
  forwarded (handle_request cfg c nanos ip req) = Some u <->
  upstream_request cfg req = Ok u /\ exists d, snd (call_decide cfg (question cfg c nanos ip req)) = Ok d /\ passes (mode cfg) (decision d) = true.
Proof.
  unfold handle_request, question. destruct (next_trace_id c nanos) as [trace c']. cbn [fst].
  destruct (call_decide cfg _) as [a [d|e]]; cbn [snd]; [|naive_solver].
  pose proof (act_on_sends cfg req d) as A. destruct (act_on cfg req d) as [f r]. cbn [fst forwarded] in *. subst f. rewrite forward_sends.
  destruct (passes (mode cfg) (decision d)) eqn:P; [|split; [done|intros (_ & d' & [= <-] & P'); congruence]].
  destruct (upstream_request cfg req); naive_solver.
Qed.
Lemma passes_iff m d : passes m d = true <-> d = "allow" \/ d = "log-only" \/ d = "log_only" \/ m = ObserveOnly /\ is_approval d = false.
Proof. unfold passes. rewrite !orb_true_iff, andb_true_iff, negb_true_iff, bool_decide_eq_true, !String.eqb_eq. tauto. Qed.

(** The question asked about a connection that starts with the head of a
    websocket request. *)
Definition splice_question (c nanos : Z) (ip : string) (m p : string) (hs : HeaderMap l) : DecideRequest :=
  decide_request hs (default "GET" (method_from_bytes l m)) p ip true (fst (next_trace_id c nanos)).

Lemma spliced_iff cfg c nanos ip peek :
  fst (serve_connection_inner cfg c nanos ip peek) = Spliced <->
  peek <> [] /\ head_looks_like_websocket peek = true /\
  exists m p hs d, parse_request_head peek = Some (m, p, hs) /\ snd (call_decide cfg (splice_question c nanos ip m p hs)) = Ok d /\
  (decision d = "allow" \/ mode cfg = ObserveOnly /\ is_approval (decision d) = false).
Proof.
  unfold serve_connection_inner, splice_question. destruct peek as [|b peek]; [naive_solver|]. destruct (head_looks_like_websocket _); [|naive_solver].
  destruct (parse_request_head _) as [[[m p] hs]|]; [|naive_solver]. destruct (next_trace_id c nanos) as [trace c']. cbn [fst].
  assert (forall d, (decision d =? "allow")%string || bool_decide (mode cfg = ObserveOnly) && negb (is_approval (decision d)) = true <->
    decision d = "allow" \/ mode cfg = ObserveOnly /\ is_approval (decision d) = false) as E.
  { intros d. by rewrite orb_true_iff, andb_true_iff, negb_true_iff, bool_decide_eq_true, String.eqb_eq. }
  split.
  - intros H. split; [done|]. split; [done|]. exists m, p, hs. destruct (snd (call_decide cfg _)) as [d|e]; [|done]. exists d. split_and!; try done.
    apply E. destruct (_ || _); [done|]. by destruct (is_approval _).
  - intros (_ & _ & m' & p' & hs' & d & [= <- <- <-] & -> & H%E). by rewrite H.
Qed.

(** C38: a request that hyper serves is sent to the upstream exactly when the
    daemon was asked about it and answered allow or log-only, or, in observing
    mode, anything but an approval; what is sent is the request, without the
    headers that concern the connection.  In either mode nothing is sent when
    the daemon gives no answer or asks for an approval, although the
    documentation of the observing mode says that it always forwards.  A
    connection is handed to the upstream as a whole exactly when its first
    bytes are the head of a websocket request for which the daemon answered
    allow, or, in observing mode, anything but an approval; only this first
    head is asked about, not what follows on the connection. *)
Theorem proxy_forwards_iff cfg c nanos ip req u peek :
  (forwarded (handle_request cfg c nanos ip req) = Some u <->
   upstream_request cfg req = Ok u /\ exists d, snd (call_decide cfg (question cfg c nanos ip req)) = Ok d /\
   (decision d = "allow" \/ decision d = "log-only" \/ decision d = "log_only" \/ mode cfg = ObserveOnly /\ is_approval (decision d) = false)) /\
  (fst (serve_connection_inner cfg c nanos ip peek) = Spliced <->
   peek <> [] /\ head_looks_like_websocket peek = true /\
   exists m p hs d, parse_request_head peek = Some (m, p, hs) /\ snd (call_decide cfg (splice_question c nanos ip m p hs)) = Ok d /\
   (decision d = "allow" \/ mode cfg = ObserveOnly /\ is_approval (decision d) = false)).
Proof. split; [|apply spliced_iff]. rewrite forwarded_iff. by setoid_rewrite passes_iff. Qed.
(** The daemon is asked about the action of the request, unless it has an
    upgrade header. *)
Lemma question_action cfg c nanos ip req : is_websocket_upgrade req = false -> action (question cfg c nanos ip req) = action_for (method req) (path req).
Proof. unfold question. intros ->. done. Qed.

Definition same_headers_but (name : string) (h h' : HeaderMap l) : Prop :=
  (forall n, n <> name -> get l h' n = get l h n) /\
  List.filter (fun kv => negb (ActorId.to_ascii_lowercase (fst kv) =? name)%string) (iter l h') = List.filter (fun kv => negb (ActorId.to_ascii_lowercase (fst kv) =? name)%string) (iter l h).
Definition with_headers (h : HeaderMap l) (req : Request) : Request := mk_Request (method req) (path req) (path_and_query req) h (body req).
Lemma filter_filter {A} (p q : A -> bool) xs : (forall x, p x = true -> q x = true) -> List.filter p (List.filter q xs) = List.filter p xs.
Proof.
  intros I. induction xs as [|y xs IH]; [done|]. cbn. destruct (q y) eqn:Q; cbn; [by rewrite IH|]. rewrite IH.
  destruct (p y) eqn:P; [|done]. by rewrite (I y P) in Q.
Qed.
Lemma upstream_ignores_upgrade cfg req h : same_headers_but "upgrade" (headers req) h -> upstream_request cfg (with_headers h req) = upstream_request cfg req.
Proof.
  intros [_ E]. unfold upstream_request. cbn [with_headers method path path_and_query headers body].
  assert (request_headers (iter l h) = request_headers (iter l (headers req))) as ->; [|done].
  unfold request_headers. rewrite <- (filter_filter _ (fun kv => negb (ActorId.to_ascii_lowercase (fst kv) =? "upgrade")%string) (iter l h)), E.
  - apply filter_filter. intros [n v]. cbn [fst]. destruct (String.eqb_spec (ActorId.to_ascii_lowercase n) "upgrade") as [->|]; done.
  - intros [n v]. cbn [fst]. destruct (String.eqb_spec (ActorId.to_ascii_lowercase n) "upgrade") as [->|]; done.
Qed.
(** a client chooses what the daemon is asked: with an [Upgrade: websocket]
    header on any request, the daemon is asked about the action [connect], the
    token and the rest of the question being the same, and, when it passes, the
    upstream gets the request exactly as if the header were not there. *)
Theorem upgrade_hides_action cfg c nanos ip req h d : same_headers_but "upgrade" (headers req) h ->
  header_text h "upgrade" = Some "websocket" ->
  let req' := with_headers h req in
  let q' := question cfg c nanos ip req' in
  action q' = "connect" /\ host_token q' = host_token (question cfg c nanos ip req) /\ target q' = path req /\
  (snd (call_decide cfg q') = Ok d -> decision d = "allow" ->
   forwarded (handle_request cfg c nanos ip req') = match upstream_request cfg req with Ok u => Some u | Err _ => None end).
Proof.
  intros S U req' q'. assert (is_websocket_upgrade req' = true) as W by (unfold is_websocket_upgrade; cbn [req' with_headers headers]; by rewrite U).
  split; [unfold q', question; by rewrite W|]. split.
  { unfold q', question, decide_request, extract_host_token, header_text. cbn [host_token req' with_headers headers]. rewrite !(proj1 S) by done. done. }
  split; [done|]. intros D A. destruct (forwarded (handle_request cfg c nanos ip req')) as [u|] eqn:F.
  - apply forwarded_iff in F as [F _]. unfold req' in F. rewrite upstream_ignores_upgrade in F by done. by rewrite F.
  - destruct (upstream_request cfg req) as [u|] eqn:E; [|done]. rewrite <- F. apply forwarded_iff. split.
    + unfold req'. by rewrite upstream_ignores_upgrade.
    + exists d. split; [done|]. unfold passes. by rewrite A.
Qed.

(** ** Connections that are spliced *)

Definition same_head (i : nat) (buf buf' : list Z) : Prop :=
  Http.find_bytes [13; 10; 13; 10] buf = Some i /\ Http.find_bytes [13; 10; 13; 10] buf' = Some i /\ take i buf = take i buf' /\
  valid_utf8 buf = true /\ valid_utf8 buf' = true.
(** what is done with a connection that asks for a websocket depends only on
    the head of its first request: whatever follows in the same bytes, further
    requests included, is not looked at; and in enforcing mode the connection is
    handed to the upstream only when the daemon allowed [connect] for that head. *)
Theorem splice_decided_on_head cfg c nanos ip i buf buf' : same_head i buf buf' ->
  serve_connection_inner cfg c nanos ip buf = serve_connection_inner cfg c nanos ip buf' /\
  (mode cfg = Enforce -> fst (serve_connection_inner cfg c nanos ip buf) = Spliced ->
   exists m p hs d, parse_request_head buf = Some (m, p, hs) /\ decision d = "allow" /\
   snd (call_decide cfg (decide_request hs (default "GET" (method_from_bytes l m)) p ip true (fst (next_trace_id c nanos)))) = Ok d).
Proof.
  intros (F & F' & T & V & V'). assert (head_lines buf = head_lines buf') as H by (unfold head_lines; by rewrite F, F', T). split.
  - unfold serve_connection_inner, head_looks_like_websocket, parse_request_head. rewrite V, V', H. destruct buf, buf'; done.
  - intros M. unfold serve_connection_inner. destruct buf as [|b buf]; [done|]. destruct (head_looks_like_websocket _); [|done].
    destruct (parse_request_head _) as [[[m p] hs]|] eqn:P; [|done]. destruct (next_trace_id c nanos) as [trace c']. cbn [fst].
    destruct (snd (call_decide cfg _)) as [d|e] eqn:D; [|done]. rewrite M, (bool_decide_false (Enforce = ObserveOnly)) by done.
    destruct (String.eqb_spec (decision d) "allow") as [A|A]; [intros _; by exists m, p, hs, d|]. cbn [orb andb fst]. by destruct (is_approval _).
Qed.
End proxy.

(** ** Examples *)

(** Header maps as lists; the daemon and the upstream answer [exchange1]. *)
Definition toy : Lib :=
  mk_Lib (list (string * string)) string (string * string) []
    (fun h n => snd <$> List.find (fun kv => (fst kv =? n)%string) h) (fun n v h => h ++ [(n, v)]) id Some
    (fun n => Some (ActorId.to_ascii_lowercase n)) Some Some (fun _ => None) (fun m u _ _ => Ok (m, u))
    (fun q => Ok (bytes_of_str (action q))) (fun b => Ok (mk_DecideResponse (str_of_bytes b) None None None)) (fun _ => "").
Definition exchange1 (allowed : string) (r : string * string) : result string (Z * list (string * string) * result string (list Z)) :=
  if (fst r =? "POST")%string then Ok (200, [], Ok (bytes_of_str allowed)) else Ok (200, [], Ok []).
Definition config1 : ProxyConfig := mk_ProxyConfig "http://up" "http://daemon" None "p" Enforce.
Definition delete_user : Request toy := mk_Request toy "DELETE" "/users/1" None [("authorization", "Bearer t")] (Ok []).
Lemma upgrade_hides_action_witness :
  action (question toy config1 0 0 "ip" delete_user) = "delete.users.1" /\
  forwarded toy (handle_request toy (exchange1 "allow") config1 0 0 "ip" (with_headers toy [("authorization", "Bearer t"); ("upgrade", "websocket")] delete_user)) = Some ("DELETE", "http://up/users/1").
Proof.
  split; [by vm_compute|].
  destruct (upgrade_hides_action toy (exchange1 "allow") config1 0 0 "ip" delete_user [("authorization", "Bearer t"); ("upgrade", "websocket")]
    (mk_DecideResponse "allow" None None None)) as (_ & _ & _ & H); [|done|rewrite H; [done|by vm_compute|done]].
  split; [|by vm_compute]. intros n N. cbn -[String.eqb]. destruct (String.eqb "authorization" n); [done|].
  by rewrite (proj2 (String.eqb_neq "upgrade" n)) by congruence.
Defined.
Definition ws_head : string := "GET /chat HTTP/1.1" +:+ Http.crlf +:+ "Upgrade: websocket".
Definition first_bytes (rest : string) : list Z := bytes_of_str (ws_head +:+ Http.crlf +:+ Http.crlf +:+ rest).
Lemma splice_decided_on_head_witness :
  fst (serve_connection_inner toy (exchange1 "allow") config1 0 0 "ip" (first_bytes ("DELETE /users/1 HTTP/1.1" +:+ Http.crlf))) = Spliced.
Proof.
  rewrite (proj1 (splice_decided_on_head toy (exchange1 "allow") config1 0 0 "ip" 38 (first_bytes ("DELETE /users/1 HTTP/1.1" +:+ Http.crlf)) (first_bytes "")
    ltac:(split_and!; by vm_compute))). by vm_compute.
Defined.
(** Paths that a service tells apart and the policy does not. *)
Example actions_collide_by_dots : action_for "GET" "/users/1.delete" = action_for "GET" "/users/1/delete" /\ action_for "GET" "/root" = action_for "GET" "/".
Proof. by vm_compute. Qed.
(** The texts of the daemon are put between quotes as they are. *)
Example reason_is_not_escaped :
  json_text "error" "deny" "reason" (quote +:+ "," +:+ quote +:+ "error" +:+ quote +:+ ":" +:+ quote +:+ "none")
  = "{" +:+ quote +:+ "error" +:+ quote +:+ ":" +:+ quote +:+ "deny" +:+ quote +:+ "," +:+ quote +:+ "reason" +:+ quote +:+ ":" +:+ quote +:+ quote
    +:+ "," +:+ quote +:+ "error" +:+ quote +:+ ":" +:+ quote +:+ "none" +:+ quote +:+ "}".
Proof. by vm_compute. Qed.

End Proxy.
