(* ===== verification/Adapters.v ===== *)
(** * Adapters: asking the daemon from a web framework
      ([adapters/tf-decide-client], [axum], [actix-web], [rocket], [tonic])

    The client sends one question to the daemon; each adapter turns its answer
    into a call of the wrapped service or a refusal.  A request is what the
    framework shows of it; sending, serde and the texts of foreign errors are
    arguments.  Telemetry is left out.

    - [adapters_implement_gate]: the four adapters implement one gate: what is
      let through, and what is answered otherwise;
    - [rocket_handler_runs]: with Rocket the handler runs whatever the daemon
      answers, and only its answer is replaced;
    - [tonic_method_unseen]: with tonic the daemon is asked the same question
      for every method;
    - [axum_body_dropped]: a body that cannot be read is replaced by an empty
      one. *)

From S2P Require Import Prelude Json ActorId Http Proxy.

#[local] Open Scope string_scope.
#[local] Open Scope list_scope.
#[local] Open Scope Z_scope.

Module Adapters.

(** ** The client *)

Record DecideRequest := mk_DecideRequest {
  actor : option string; host_token : option string; host_token_kind : option string; action : string; target : option string; context : json; trace_id : option string }.
Record DecideResponse := mk_DecideResponse {
  decision : string; reason : string; approval_id : option string; proof_id : string; actor_resolved : option string; trust_level : option string;
  authority_mode : option string; danger_tags : list string }.
Record TfDecideClient := mk_TfDecideClient { daemon_url : string; admin_token : string; timeout : Z }.
Inductive ClientError (E : Type) := Transport (e : E) | Status (status : Z) (body : string) | Encode (e : string) | Decode (e : string).
Arguments Transport {E} e.
Arguments Status {E} status body.
Arguments Encode {E} e.
Arguments Decode {E} e.

Definition new (url token : string) : TfDecideClient := mk_TfDecideClient (Proxy.trim_end_slashes url) token 5000.
Definition with_timeout (t : Z) (c : TfDecideClient) : TfDecideClient := mk_TfDecideClient (daemon_url c) (admin_token c) t.
Definition is_allow (d : DecideResponse) : bool := Http.eq_ignore_ascii_case (decision d) "allow".
Definition is_deny (d : DecideResponse) : bool := Http.eq_ignore_ascii_case (decision d) "deny".
Definition approval_word (s : string) : bool := (s =? "approval")%string || (s =? "approval_required")%string || (s =? "approval-required")%string.
Definition is_approval (d : DecideResponse) : bool := approval_word (ActorId.to_ascii_lowercase (decision d)).

(** ** Options and requests *)

Record TrustForgeOpts := mk_TrustForgeOpts { host_token_header : string; opt_token_kind : option string; strip_bearer : bool; fail_open : bool }.
Definition default_opts : TrustForgeOpts := mk_TrustForgeOpts "authorization" None true false.
(** [header_text n]: the value of the first header of that name, if it is text. *)
Record Inbound := mk_Inbound { method : string; path : string; uri : string; header_text : string -> option string }.
Definition strip_token (opts : TrustForgeOpts) (s : string) : string :=
  if strip_bearer opts then
    match strip_prefix "Bearer " s with Some r => r | None => default s (strip_prefix "bearer " s) end
  else s.
Definition extract_token (req : Inbound) (opts : TrustForgeOpts) : option string := strip_token opts <$> header_text req (host_token_header opts).
(** The question of the three adapters of HTTP frameworks. *)
Definition decide_request (opts : TrustForgeOpts) (req : Inbound) : DecideRequest :=
  mk_DecideRequest None (extract_token req opts) (opt_token_kind opts) (method req +:+ " " +:+ path req) (Some (uri req)) JNull (header_text req "x-trace-id").

Section adapters.
Variable E : Type.
Variable transport_text : E -> string.
Variable to_vec : DecideRequest -> result string (list Z).
Variable from_slice : list Z -> result string DecideResponse.
(** [HttpRequest::send] with its time limit. *)
Variable send : Http.HttpRequest -> Z -> result E Http.HttpResponse.

Definition client_error_str (e : ClientError E) : string :=
  match e with
  | Transport e => "transport error: " +:+ transport_text e
  | Status s b => "daemon returned non-success status " +:+ pretty s +:+ ": " +:+ b
  | Encode e => "encode error: " +:+ e
  | Decode e => "decode error: " +:+ e
  end.
Definition decide (c : TfDecideClient) (req : DecideRequest) : result (ClientError E) DecideResponse :=
  let url := daemon_url c +:+ "/v1/decide" in
  body ← map_err Encode (to_vec req);
  resp ← map_err Transport (send (Http.json_body body (Http.bearer_auth (admin_token c) (Http.new Http.Post url))) (timeout c));
  if negb ((200 <=? Http.status resp) && (Http.status resp <? 300)) then Err (Status (Http.status resp) (str_of_bytes (Http.from_utf8_lossy (Http.resp_body resp))))
  else map_err Decode (from_slice (Http.resp_body resp)).

(** ** Answers *)

Definition fail_open_response (e : ClientError E) : DecideResponse :=
  mk_DecideResponse "allow" ("fail_open: " +:+ client_error_str e) None "" None None None [].
Definition opt_json (o : option string) : json := match o with Some s => JString s | None => JNull end.
Definition unreachable_json (detail : string) : json := JObject [("error", JString "tf_decide_unreachable"); ("detail", JString detail)].
Definition denied_json (d : DecideResponse) : json :=
  JObject [("error", JString "tf_denied"); ("reason", JString (reason d)); ("proof_id", JString (proof_id d)); ("danger_tags", JArray (JString <$> danger_tags d))].
Definition approval_json (d : DecideResponse) : json :=
  JObject [("status", JString "approval_required"); ("approval_id", opt_json (approval_id d)); ("proof_id", JString (proof_id d)); ("reason", JString (reason d))].
Definition unknown_json (other : string) : json := JObject [("error", JString "tf_unknown_decision"); ("decision", JString other)].

(** ** axum and actix-web *)

(** The service called with a body and the decision attached, or an answer. *)
Inductive outcome := Called (body : list Z) (d : DecideResponse) | Answered (status : Z) (body : json).
(** [body]: what reading the body of the request gives. *)
Definition axum_call (c : TfDecideClient) (opts : TrustForgeOpts) (req : Inbound) (body : result string (list Z)) : outcome :=
  let body_bytes := match body with Ok bs => bs | Err _ => [] end in
  match decide c (decide_request opts req) with
  | Err e => if fail_open opts then Called body_bytes (fail_open_response e) else Answered 503 (unreachable_json (client_error_str e))
  | Ok d =>
    let s := ActorId.to_ascii_lowercase (decision d) in
    if (s =? "allow")%string then Called body_bytes d
    else if (s =? "deny")%string then Answered 403 (denied_json d)
    else if approval_word s then Answered 202 (approval_json d)
    else Answered 502 (unknown_json s)
  end.
(** The body is left in the request; [bytes] is what the service would read. *)
Definition actix_call (c : TfDecideClient) (opts : TrustForgeOpts) (req : Inbound) (bytes : list Z) : outcome :=
  match decide c (decide_request opts req) with
  | Err e => if fail_open opts then Called bytes (fail_open_response e) else Answered 503 (unreachable_json (client_error_str e))
  | Ok d =>
    let s := ActorId.to_ascii_lowercase (decision d) in
    if (s =? "allow")%string then Called bytes d
    else if (s =? "deny")%string then Answered 403 (denied_json d)
    else if approval_word s then Answered 202 (approval_json d)
    else Answered 502 (unknown_json s)
  end.

(** ** Rocket *)

Inductive TfOutcome := Allow (d : DecideResponse) | Deny (d : DecideResponse) | Approval (d : DecideResponse) | Error (detail : string) | Unknown (other : string).
Record Response := mk_Response { r_status : Z; r_body : string; content_type : option string }.
Variable json_text : json -> string.
(** What is left in the request's slot. *)
Definition on_request (c : TfDecideClient) (opts : TrustForgeOpts) (req : Inbound) : TfOutcome :=
  match decide c (decide_request opts req) with
  | Ok d =>
    let s := ActorId.to_ascii_lowercase (decision d) in
    if (s =? "allow")%string then Allow d else if (s =? "deny")%string then Deny d else if approval_word s then Approval d else Unknown s
  | Err e => if fail_open opts then Allow (fail_open_response e) else Error (client_error_str e)
  end.
Definition rewritten (status : Z) (body : json) : Response := mk_Response status (json_text body) (Some "application/json").
Definition on_response (slot : option TfOutcome) (resp : Response) : Response :=
  match slot with
  | Some (Allow _) | None => resp
  | Some (Deny d) => rewritten 403 (denied_json d)
  | Some (Approval d) => rewritten 202 (approval_json d)
  | Some (Error detail) => rewritten 503 (unreachable_json detail)
  | Some (Unknown other) => rewritten 502 (unknown_json other)
  end.

(** ** tonic *)

Inductive Code := PermissionDenied | FailedPrecondition | Unavailable | Internal.
(** The metadata of a gRPC request, by key; [{:?}] of an optional text. *)
Variable debug_option : option string -> string.
Definition tonic_request (opts : TrustForgeOpts) (metadata : string -> option string) : DecideRequest :=
  mk_DecideRequest None (strip_token opts <$> metadata (host_token_header opts)) (opt_token_kind opts) (default "/" (metadata ":path")) None JNull (metadata "x-trace-id").
(** The decision attached to the request, or the status it is rejected with. *)
Definition tonic_check (c : TfDecideClient) (opts : TrustForgeOpts) (metadata : string -> option string) : result (Code * string) DecideResponse :=
  match decide c (tonic_request opts metadata) with
  | Err e => if fail_open opts then Ok (fail_open_response e) else Err (Unavailable, "tf_decide_unreachable: " +:+ client_error_str e)
  | Ok d =>
    let s := ActorId.to_ascii_lowercase (decision d) in
    if (s =? "allow")%string then Ok d
    else if (s =? "deny")%string then Err (PermissionDenied, "tf_denied: " +:+ reason d)
    else if approval_word s then Err (FailedPrecondition, "tf_approval_required: approval_id=" +:+ debug_option (approval_id d))
    else Err (Internal, "tf_unknown_decision: " +:+ s)
  end.
(** [Interceptor::call] and [tonic_interceptor]: [runtime] is whether there is a
    current tokio runtime. *)
Definition interceptor_call (runtime : bool) (c : TfDecideClient) (opts : TrustForgeOpts) (metadata : string -> option string) : result (Code * string) DecideResponse :=
  if runtime then tonic_check c opts metadata else Err (Internal, "tf-tonic interceptor requires a tokio runtime").

(** ** The gate *)

(** What the client's own predicates make of an answer. *)
Inductive verdict := Pass (d : DecideResponse) | Refused (status : Z) (body : json).
Definition gate (opts : TrustForgeOpts) (answer : result (ClientError E) DecideResponse) : verdict :=
  match answer with
  | Err e => if fail_open opts then Pass (fail_open_response e) else Refused 503 (unreachable_json (client_error_str e))
  | Ok d =>
    if is_allow d then Pass d else if is_deny d then Refused 403 (denied_json d) else if is_approval d then Refused 202 (approval_json d)
    else Refused 502 (unknown_json (ActorId.to_ascii_lowercase (decision d)))
  end.
Definition as_outcome (bytes : list Z) (v : verdict) : outcome := match v with Pass d => Called bytes d | Refused s b => Answered s b end.
Definition tonic_code (s : Z) : Code := if s =? 403 then PermissionDenied else if s =? 202 then FailedPrecondition else if s =? 503 then Unavailable else Internal.

Lemma adapters_agree c opts req bytes :
  let v := gate opts (decide c (decide_request opts req)) in
  axum_call c opts req (Ok bytes) = as_outcome bytes v /\ actix_call c opts req bytes = as_outcome bytes v /\
  forall resp, on_response (Some (on_request c opts req)) resp = match v with Pass _ => resp | Refused s b => rewritten s b end.
Proof.
  intros v. subst v. unfold axum_call, actix_call, on_request, on_response, gate, is_allow, is_deny, is_approval, Http.eq_ignore_ascii_case.
  change (ActorId.to_ascii_lowercase "allow") with "allow". change (ActorId.to_ascii_lowercase "deny") with "deny".
  destruct (decide c _); repeat case_match; simplify_eq; by split_and!.
Qed.
(** the four adapters implement one gate.  axum and actix-web call the
    service or answer as it says, what Rocket sends back is the handler's answer
    or the gate's refusal, and tonic lets a call through or rejects it with the
    code that stands for the refusal. *)
Theorem adapters_implement_gate c opts req bytes metadata resp :
  let v := gate opts (decide c (decide_request opts req)) in
  axum_call c opts req (Ok bytes) = as_outcome bytes v /\ actix_call c opts req bytes = as_outcome bytes v /\
  on_response (Some (on_request c opts req)) resp = match v with Pass _ => resp | Refused s b => rewritten s b end /\
  match gate opts (decide c (tonic_request opts metadata)) with
  | Pass d => tonic_check c opts metadata = Ok d
  | Refused s _ => exists m, tonic_check c opts metadata = Err (tonic_code s, m)
  end.
Proof.
  destruct (adapters_agree c opts req bytes) as (A1 & A2 & A3). intros v. split; [exact A1|]. split; [exact A2|]. split; [apply A3|].
  unfold tonic_check, gate, is_allow, is_deny, is_approval, Http.eq_ignore_ascii_case.
  change (ActorId.to_ascii_lowercase "allow") with "allow". change (ActorId.to_ascii_lowercase "deny") with "deny".
  destruct (decide c (tonic_request opts metadata)) as [d|e].
  - destruct (_ =? "allow")%string; [done|]. destruct (_ =? "deny")%string; [by eexists|]. destruct (approval_word _); by eexists.
  - destruct (fail_open opts); [done|by eexists].
Qed.

(** The daemon was asked, answered with success and allowed. *)
Definition daemon_allows (c : TfDecideClient) (q : DecideRequest) (d : DecideResponse) : Prop :=
  exists raw resp, to_vec q = Ok raw /\ send (Http.json_body raw (Http.bearer_auth (admin_token c) (Http.new Http.Post (daemon_url c +:+ "/v1/decide")))) (timeout c) = Ok resp /\
  200 <= Http.status resp < 300 /\ from_slice (Http.resp_body resp) = Ok d /\ ActorId.to_ascii_lowercase (decision d) = "allow".
Lemma decide_ok c q d : decide c q = Ok d <-> exists raw resp, to_vec q = Ok raw /\
  send (Http.json_body raw (Http.bearer_auth (admin_token c) (Http.new Http.Post (daemon_url c +:+ "/v1/decide")))) (timeout c) = Ok resp /\
  200 <= Http.status resp < 300 /\ from_slice (Http.resp_body resp) = Ok d.
Proof.
  unfold decide. destruct (to_vec q) as [raw|]; cbn [map_err mbind result_bind]; [|naive_solver].
  destruct (send _ _) as [resp|] eqn:S; cbn [map_err mbind result_bind]; [|split; [done|]; intros (raw' & resp' & [= <-] & S' & _); congruence].
  destruct (_ && _) eqn:B; cbn [negb].
  - destruct (from_slice _) as [d'|] eqn:D; cbn [map_err]; split.
    + intros [= <-]. exists raw, resp. split_and!; [done..|lia|lia|done].
    + intros (raw' & resp' & [= <-] & S' & _ & D'). congruence.
    + done.
    + intros (raw' & resp' & [= <-] & S' & _ & D'). congruence.
  - split; [done|]. intros (raw' & resp' & [= <-] & S' & R & _). rewrite S in S'. injection S' as <-. lia.
Qed.
Lemma gate_passes c opts q d : gate opts (decide c q) = Pass d <->
  daemon_allows c q d \/ fail_open opts = true /\ exists e, decide c q = Err e /\ d = fail_open_response e.
Proof.
  unfold daemon_allows. unfold gate, is_allow, Http.eq_ignore_ascii_case. change (ActorId.to_ascii_lowercase "allow") with "allow". split.
  - destruct (decide c q) as [d'|e] eqn:D.
    + destruct (String.eqb_spec (ActorId.to_ascii_lowercase (decision d')) "allow") as [A|]; [|by repeat case_match].
      intros [= ->]. left. apply decide_ok in D as (raw & resp & D1 & D2 & D3 & D4). by exists raw, resp.
    + destruct (fail_open opts); [|done]. intros [= <-]. right. split; [done|]. by exists e.
  - intros [(raw & resp & D1 & D2 & D3 & D4 & A)|(O & e & -> & ->)]; [|by rewrite O].
    rewrite (proj2 (decide_ok c q d)) by (by exists raw, resp). by rewrite A, String.eqb_refl.
Qed.
(** a request reaches the service behind axum exactly when the daemon was
    asked about it, answered with a success and allowed it, or, where failing
    open is configured, when no such answer came; by default only the former. *)
Theorem axum_calls_iff c opts req bytes d : axum_call c opts req (Ok bytes) = Called bytes d <->
  daemon_allows c (decide_request opts req) d \/ fail_open opts = true /\ exists e, decide c (decide_request opts req) = Err e /\ d = fail_open_response e.
Proof.
  destruct (adapters_agree c opts req bytes) as [-> _]. rewrite <-gate_passes. destruct (gate _ _); cbn; split; naive_solver.
Qed.
(** When the body of a request cannot be read to its end the service is called
    all the same, with an empty one. *)
Theorem axum_body_dropped c opts req e d : gate opts (decide c (decide_request opts req)) = Pass d -> axum_call c opts req (Err e) = Called [] d.
Proof. intros G. pose proof (adapters_agree c opts req []) as [A _]. rewrite G in A. exact A. Qed.

(** ** Rocket's life cycle *)

(** The framework runs the request fairings, the handler and the response
    fairings, in this order; a fairing cannot end a request. *)
Section rocket.
Variable St : Type.
Variable handler : St -> Inbound -> St * Response.
Variable dispatch : (Inbound -> TfOutcome) -> (option TfOutcome -> Response -> Response) -> St -> Inbound -> St * Response.
Hypothesis dispatch_order : forall onq onr s req, dispatch onq onr s req = let '(s', r) := handler s req in (s', onr (Some (onq req)) r).
(** with Rocket the handler runs, and does what it does, whatever the daemon
    answers; a refusal only replaces what the handler sends back. *)
Theorem rocket_handler_runs c opts s req :
  fst (dispatch (on_request c opts) on_response s req) = fst (handler s req) /\
  snd (dispatch (on_request c opts) on_response s req) =
    match gate opts (decide c (decide_request opts req)) with Pass _ => snd (handler s req) | Refused st b => rewritten st b end.
Proof. rewrite dispatch_order. destruct (handler s req) as [s' r]. split; [done|]. apply (adapters_agree c opts req []). Qed.
End rocket.

(** ** The method of a gRPC call *)

(** where metadata has no pseudo-headers, as in HTTP/2 header maps, the
    interceptor asks about the action "/" for every method, and its outcome
    depends on the token and the trace id only. *)
Theorem tonic_method_unseen c opts metadata metadata' : metadata ":path" = None -> metadata' ":path" = None ->
  metadata (host_token_header opts) = metadata' (host_token_header opts) -> metadata "x-trace-id" = metadata' "x-trace-id" ->
  action (tonic_request opts metadata) = "/" /\ tonic_check c opts metadata = tonic_check c opts metadata'.
Proof. intros P P' T I. unfold tonic_check, tonic_request. by rewrite P, P', T, I. Qed.
End adapters.


(** ** Witnesses *)

(** A daemon that denies, and a handler that counts its calls. *)
Definition answer_with (d : string) (bs : list Z) : result string DecideResponse := Ok (mk_DecideResponse d "no" None "" None None None []).
Definition reachable (r : Http.HttpRequest) (t : Z) : result string Http.HttpResponse := Ok (Http.mk_HttpResponse 200 [] []).
Definition client1 : TfDecideClient := new "http://127.0.0.1:7080/" "t".
Definition delete_all : Inbound := mk_Inbound "DELETE" "/rows" "/rows" (fun _ => None).
Definition counting (n : Z) (req : Inbound) : Z * Response := (n + 1, mk_Response 200 "deleted" None).
Definition lifecycle (onq : Inbound -> TfOutcome) (onr : option TfOutcome -> Response -> Response) (n : Z) (req : Inbound) : Z * Response :=
  let '(s', r) := counting n req in (s', onr (Some (onq req)) r).
Lemma rocket_handler_runs_witness :
  fst (lifecycle (on_request string id (fun _ => Ok []) (answer_with "deny") reachable client1 default_opts) (on_response (fun _ => "{}")) 0 delete_all) = 1 /\
  r_status (snd (lifecycle (on_request string id (fun _ => Ok []) (answer_with "deny") reachable client1 default_opts) (on_response (fun _ => "{}")) 0 delete_all)) = 403.
Proof.
  destruct (rocket_handler_runs string id (fun _ => Ok []) (answer_with "deny") reachable (fun _ => "{}") Z counting lifecycle (fun _ _ _ _ => eq_refl) client1 default_opts 0 delete_all)
    as [-> ->]. split; reflexivity.
Defined.
(** Two methods, one of which the daemon would allow by its name. *)
Definition asks (name : string) : string -> option string := fun k => if (k =? "authorization")%string then Some "Bearer s" else if (k =? "grpc-method")%string then Some name else None.
Lemma tonic_method_unseen_witness :
  tonic_check string id (fun _ => Ok []) (answer_with "allow") reachable (fun _ => "None") client1 default_opts (asks "/admin.Root/Wipe") =
  tonic_check string id (fun _ => Ok []) (answer_with "allow") reachable (fun _ => "None") client1 default_opts (asks "/public.Info/Ping").
Proof.
  apply (tonic_method_unseen string id (fun _ => Ok []) (answer_with "allow") reachable (fun _ => "None") client1 default_opts (asks "/admin.Root/Wipe") (asks "/public.Info/Ping"));
    reflexivity.
Defined.
(** The prefix of a token is recognised in two spellings only. *)
Example bearer_spellings : strip_token default_opts "bearer t" = "t" /\ strip_token default_opts "BEARER t" = "BEARER t".
Proof. done. Qed.

End Adapters.
