(* ===== verification/Vault.v ===== *)
(** * Vault: the file-backed passphrase vault ([vault.rs])

    Entries are sealed under a key derived from the passphrase, held in
    memory and written to disk by every change.  The file system is a map
    from paths to texts; a write may stop at any of its steps, by an error or
    by a crash, and the models of the operations say what is then on disk and
    in memory.  Random bytes and the clock are arguments; argon2, the AEAD
    and serde_json are the functions of [vault_lib]. *)

From stdpp Require Import gmap.
From S2P Require Import Prelude Json Base64 Canonical CanonicalText Crypto Packet ActorId Bundle.

Module Vault.
#[local] Open Scope string_scope.
#[local] Open Scope list_scope.
#[local] Open Scope Z_scope.

Inductive VaultError :=
| Io (e : string)
| Parse (e : string)
| UnsupportedVersion (v : string)
| UnsupportedAlgorithm (a : string)
| Argon2 (e : string)
| EntryNotFound (id : string)
| Base64Error (e : string)
| Aead
| BadNonce.

Record OnDiskEntry := mk_OnDiskEntry {
  d_id : string; d_purpose : string; d_algorithm : string; nonce : string; ciphertext : string; d_created_at : string
}.
Record OnDiskKdf := mk_OnDiskKdf { kdf_algorithm : string; salt : string; m_cost : Z; t_cost : Z; p_cost : Z }.
(** The cipher record holds the name of its algorithm. *)
Record OnDiskVault := mk_OnDiskVault {
  vault_version : string; kdf : OnDiskKdf; cipher_algorithm : string; entries : list OnDiskEntry
}.
Record VaultEntryPlain := mk_VaultEntryPlain {
  id : string; purpose : string; algorithm : string; key_bytes : list Z; created_at : string
}.
Record VaultEntrySummary := mk_VaultEntrySummary { s_id : string; s_purpose : string; s_algorithm : string; s_created_at : string }.
Record VaultCreateOptions := mk_VaultCreateOptions { o_m_cost : Z; o_t_cost : Z; o_p_cost : Z; o_salt : option (list Z) }.
Definition default_options : VaultCreateOptions := mk_VaultCreateOptions 19456 2 1 None.

(** A path with a file name: its directory and the name, which has no
    slash. *)
Abbreviation Path := (string * string)%type.
Abbreviation files := (gmap (string * string) string).
Definition display (p : Path) : string := if (p.1 =? "")%string then p.2 else p.1 +:+ "/" +:+ p.2.
(** [Path::file_stem]: a dot at the front starts no extension. *)
Definition file_stem (name : string) : string :=
  match ActorId.split_last "." name with
  | Some (stem, _) => if (stem =? "")%string then name else stem
  | None => name
  end.
Definition with_extension (p : Path) (ext : string) : Path := (p.1, file_stem p.2 +:+ "." +:+ ext).

(** How far a write gets: [FailWrite n] has written [n] bytes. *)
Inductive fault :=
| NoFault
| FailOpen (e : string)
| FailWrite (n : nat) (e : string)
| FailSync (e : string)
| FailRename (e : string).

Record vault_lib := mk_vault_lib {
  crypto : Crypto.crypto_lib;
  nfc : string -> string;
  show_f64 : Z -> string;
  (** [Params::new] and [hash_password_into]: costs, password, salt. *)
  argon2id : Z -> Z -> Z -> list Z -> list Z -> result string (list Z);
  to_string_pretty : OnDiskVault -> result string string;
  from_str : string -> result string OnDiskVault;
  (** The text of the error of reading a file that does not exist. *)
  not_found : Path -> string
}.

Record Vault := mk_Vault { path : Path; wrap_key : list Z; data : OnDiskVault }.

Section lib.
Context (x : vault_lib).

(** The canonical form of three strings always exists ([aad_canonical]), so
    the [expect] never fires. *)
Definition aad_for (id purpose algorithm : string) : list Z :=
  match Canonical.canonicalize (nfc x) (show_f64 x) (JArray [JString id; JString purpose; JString algorithm]) with
  | Ok text => bytes_of_str text
  | Err _ => []
  end.

Definition derive_key (password salt : list Z) (m_cost t_cost p_cost : Z) : result VaultError (list Z) :=
  map_err Argon2 (argon2id x m_cost t_cost p_cost password salt).

Definition newline : string := String (ascii_of_N 10) "".

Definition persist (fs : files) (path : Path) (data : OnDiskVault) (nanos : Z) (f : fault) : files * result VaultError unit :=
  match to_string_pretty x data with
  | Err e => (fs, Err (Parse e))
  | Ok text =>
    let final_text := text +:+ newline in
    let tmp := with_extension path ("tmp." +:+ pretty nanos) in
    match f with
    | FailOpen e => (fs, Err (Io e))
    | FailWrite n e => (<[tmp := String.substring 0 n final_text]> fs, Err (Io e))
    | FailSync e | FailRename e => (<[tmp := final_text]> fs, Err (Io e))
    | NoFault => (<[path := final_text]> (delete tmp (<[tmp := final_text]> fs)), Ok tt)
    end
  end.

(** ** Operations *)

Definition create_at_path (fs : files) (path : Path) (passphrase : string) (opts : VaultCreateOptions)
    (random : list Z) (nanos : Z) (f : fault) : files * result VaultError Vault :=
  match fs !! path with
  | Some _ => (fs, Err (Io ("vault already exists at " +:+ display path)))
  | None =>
    let salt := unwrap_or (o_salt opts) random in
    match derive_key (bytes_of_str passphrase) salt (o_m_cost opts) (o_t_cost opts) (o_p_cost opts) with
    | Err e => (fs, Err e)
    | Ok wrap_key =>
      let data := mk_OnDiskVault "1"
        (mk_OnDiskKdf "argon2id" (Packet.b64_encode salt) (o_m_cost opts) (o_t_cost opts) (o_p_cost opts))
        "chacha20poly1305" [] in
      let '(fs, r) := persist fs path data nanos f in
      (fs, _ ← r; Ok (mk_Vault path wrap_key data))
    end
  end.

Definition open_at_path (fs : files) (path : Path) (passphrase : string) : result VaultError Vault :=
  raw ← ok_or (fs !! path) (Io (not_found x path));
  data ← map_err Parse (from_str x raw);
  if negb (vault_version data =? "1")%string then Err (UnsupportedVersion (vault_version data)) else
  if negb (kdf_algorithm (kdf data) =? "argon2id")%string || negb (cipher_algorithm data =? "chacha20poly1305")%string
  then Err (UnsupportedAlgorithm ("kdf=" +:+ kdf_algorithm (kdf data) +:+ ", cipher=" +:+ cipher_algorithm data)) else
  salt_bytes ← map_err Base64Error (Packet.b64_decode (salt (kdf data)));
  if (length salt_bytes <? 8)%nat
  then Err (Parse ("salt too short: " +:+ pretty (Z.of_nat (length salt_bytes)) +:+ " bytes")) else
  wrap_key ← derive_key (bytes_of_str passphrase) salt_bytes (m_cost (kdf data)) (t_cost (kdf data)) (p_cost (kdf data));
  Ok (mk_Vault path wrap_key data).

Definition list_entries (v : Vault) : list VaultEntrySummary :=
  (fun e => mk_VaultEntrySummary (d_id e) (d_purpose e) (d_algorithm e) (d_created_at e)) <$> entries (data v).

(** The first entry with the id is replaced, else the entry is appended. *)
Fixpoint upsert (d : OnDiskEntry) (es : list OnDiskEntry) : list OnDiskEntry :=
  match es with
  | [] => [d]
  | e :: es' => if (d_id e =? d_id d)%string then d :: es' else e :: upsert d es'
  end.
Definition with_entries (v : Vault) (es : list OnDiskEntry) : Vault :=
  mk_Vault (path v) (wrap_key v) (mk_OnDiskVault (vault_version (data v)) (kdf (data v)) (cipher_algorithm (data v)) es).

Definition seal_entry (wrap_key : list Z) (entry : VaultEntryPlain) (nonce : list Z) : OnDiskEntry :=
  let aad := aad_for (id entry) (purpose entry) (algorithm entry) in
  mk_OnDiskEntry (id entry) (purpose entry) (algorithm entry) (Packet.b64_encode nonce)
    (Packet.b64_encode (Crypto.chacha20poly1305_encrypt (crypto x) wrap_key nonce aad (key_bytes entry))) (created_at entry).

(** The entry stays in memory when the write fails. *)
Definition store (fs : files) (v : Vault) (entry : VaultEntryPlain) (nonce : list Z) (nanos : Z) (f : fault) :
    files * Vault * result VaultError unit :=
  let v' := with_entries v (upsert (seal_entry (wrap_key v) entry nonce) (entries (data v))) in
  let '(fs', r) := persist fs (path v) (data v') nanos f in
  (fs', v', r).

Definition find_entry (i : string) (es : list OnDiskEntry) : option OnDiskEntry := List.find (fun e => (d_id e =? i)%string) es.

Definition open_entry (wrap_key : list Z) (e : OnDiskEntry) : result VaultError VaultEntryPlain :=
  nonce_bytes ← map_err Base64Error (Packet.b64_decode (nonce e));
  if negb (length nonce_bytes =? 12)%nat then Err BadNonce else
  ct ← map_err Base64Error (Packet.b64_decode (ciphertext e));
  let aad := aad_for (d_id e) (d_purpose e) (d_algorithm e) in
  plaintext ← map_err (fun _ => Aead) (Crypto.chacha20poly1305_decrypt (crypto x) wrap_key nonce_bytes aad ct);
  Ok (mk_VaultEntryPlain (d_id e) (d_purpose e) (d_algorithm e) plaintext (d_created_at e)).

Definition read (v : Vault) (i : string) : result VaultError VaultEntryPlain :=
  e ← ok_or (find_entry i (entries (data v))) (EntryNotFound i);
  open_entry (wrap_key v) e.

Definition remove (fs : files) (v : Vault) (i : string) (nanos : Z) (f : fault) : files * Vault * result VaultError bool :=
  let es := List.filter (fun e => negb (d_id e =? i)%string) (entries (data v)) in
  let v' := with_entries v es in
  if negb (length es =? length (entries (data v)))%nat then
    let '(fs', r) := persist fs (path v) (data v') nanos f in
    (fs', v', _ ← r; Ok true)
  else (fs, v', Ok false).

End lib.

(** ** Paths and associated data *)

(** The temporary file is never the vault itself. *)
Lemma tmp_distinct p ext : ActorId.has "." ext = true -> with_extension p ext <> p.
Proof.
  intros Hext E. destruct p as [d f]. unfold with_extension in E. cbn [fst snd] in E. injection E as E.
  assert (forall s t, s +:+ String "." t <> s) as Hne.
  { intros s t E'. apply (f_equal String.length) in E'. rewrite str_length_app in E'. cbn in E'. lia. }
  unfold file_stem in E. destruct (ActorId.split_last "." f) as [[a b]|] eqn:Es.
  - destruct (String.eqb_spec a "") as [->|_]; [by apply Hne in E|].
    apply ActorId.split_last_Some in Es as [-> Hb]. rewrite str_app_cons, str_app_nil_l in E.
    apply str_app_inv_head in E. injection E as ->. congruence.
  - by apply Hne in E.
Qed.

Lemma aad_canonical x i p a : exists t,
  Canonical.canonicalize (nfc x) (show_f64 x) (JArray [JString i; JString p; JString a]) = Ok t /\ aad_for x i p a = bytes_of_str t /\
  CanonicalText.read_json t = Some (JArray [JString (nfc x i); JString (nfc x p); JString (nfc x a)]).
Proof.
  destruct (CanonicalText.canonical_readback (nfc x) (show_f64 x) (JArray [JString i; JString p; JString a]) eq_refl) as (t & Ht & Hr).
  exists t. split; [done|]. split; [|done]. unfold aad_for. by rewrite Ht.
Qed.

(** ** The vault as a map *)

(** serde_json writes every vault and reads back what it wrote. *)
Definition serde_law (x : vault_lib) : Prop :=
  forall d, exists t, to_string_pretty x d = Ok t /\ from_str x (t +:+ newline) = Ok d.

Inductive op :=
| Store (e : VaultEntryPlain) (nonce : list Z) (nanos : Z) (f : fault)
| Remove (i : string) (nanos : Z) (f : fault).
Definition op_ok (o : op) : Prop :=
  match o with
  | Store e n _ _ => is_bytes (key_bytes e) /\ is_bytes n /\ length n = 12%nat
  | Remove _ _ _ => True
  end.
Definition step (x : vault_lib) (s : files * Vault) (o : op) : files * Vault :=
  match o with
  | Store e n t f => (store x s.1 s.2 e n t f).1
  | Remove i t f => (remove x s.1 s.2 i t f).1
  end.

(** What the memory and the disk are meant to hold: a change reaches the
    disk when its write has no fault. *)
Record contents := mk_contents { mem : gmap string VaultEntryPlain; disk : gmap string VaultEntryPlain }.
Definition written (m : gmap string VaultEntryPlain) (c : contents) (f : fault) : contents :=
  mk_contents m (match f with NoFault => m | _ => disk c end).
Definition meant (c : contents) (o : op) : contents :=
  match o with
  | Store e _ _ f => written (<[id e := e]> (mem c)) c f
  | Remove i _ f => if bool_decide (is_Some (mem c !! i)) then written (delete i (mem c)) c f else c
  end.
Definition looked_up (m : gmap string VaultEntryPlain) (i : string) : result VaultError VaultEntryPlain :=
  ok_or (m !! i) (EntryNotFound i).

(** *** Entries *)

Lemma b64_roundtrip bs : is_bytes bs -> Packet.b64_decode (Packet.b64_encode bs) = Ok bs.
Proof.
  intros H. unfold Packet.b64_decode, Packet.b64_encode.
  rewrite bytes_of_str_of_bytes by (apply Base64.encode_bytes; [by left|done]).
  rewrite Base64.b64_decode_encode; [done|by left|done].
Qed.

Lemma find_entry_None i es : find_entry i es = None <-> i ∉ (d_id <$> es).
Proof.
  unfold find_entry. induction es as [|e es IH]; [split; [set_solver|done]|]. cbn [List.find fmap list_fmap].
  rewrite not_elem_of_cons. destruct (String.eqb_spec (d_id e) i) as [->|Hne]; [split; [discriminate|naive_solver]|].
  rewrite IH. split; [by split|by intros [_ ?]].
Qed.

Lemma find_upsert i d es : find_entry i (upsert d es) = if (d_id d =? i)%string then Some d else find_entry i es.
Proof.
  unfold find_entry. induction es as [|e es IH]; [done|]. cbn [upsert].
  destruct (String.eqb_spec (d_id e) (d_id d)) as [E|E]; cbn [List.find].
  - rewrite E. by destruct (d_id d =? i)%string.
  - rewrite IH. destruct (String.eqb_spec (d_id d) i) as [<-|_]; [|done]. by destruct (String.eqb_spec (d_id e) (d_id d)).
Qed.

Lemma ids_upsert d es : NoDup (d_id <$> es) -> NoDup (d_id <$> upsert d es) /\ forall i, i ∈ d_id <$> upsert d es -> i = d_id d \/ i ∈ d_id <$> es.
Proof.
  induction es as [|e es IH]; cbn; [intros _; split; [apply NoDup_singleton|set_solver]|].
  intros [Hn Hd]%NoDup_cons. destruct (String.eqb_spec (d_id e) (d_id d)) as [E|E]; cbn [fmap list_fmap].
  - rewrite <- E. split; [by apply NoDup_cons|set_solver].
  - destruct (IH Hd) as [H1 H2]. split; [apply NoDup_cons; split; [|done]; intros [?|?]%H2; congruence || done|].
    intros i [->|[->|?]%H2]%elem_of_cons; [right|left|right]; set_solver.
Qed.

Lemma find_filter i j es : find_entry i (List.filter (fun e => negb (d_id e =? j)%string) es) =
  if (i =? j)%string then None else find_entry i es.
Proof.
  unfold find_entry. induction es as [|e es IH]; [by destruct (i =? j)%string|]. cbn [List.filter List.find].
  destruct (String.eqb_spec (d_id e) j) as [<-|Hj]; cbn [negb List.find]; rewrite IH.
  - destruct (String.eqb_spec i (d_id e)) as [->|Hi]; [done|]. by destruct (String.eqb_spec (d_id e) i).
  - destruct (String.eqb_spec (d_id e) i) as [<-|]; [|done]. by destruct (String.eqb_spec (d_id e) j).
Qed.

Lemma ids_filter p es : NoDup (d_id <$> es) -> NoDup (d_id <$> List.filter p es).
Proof.
  intros H. eapply sublist_NoDup; [exact H|]. apply fmap_sublist. clear. induction es as [|e es IH]; cbn; [done|].
  destruct (p e); by constructor.
Qed.

Lemma filter_length i es : length (List.filter (fun e => negb (d_id e =? i)%string) es) = length es <->
  i ∉ d_id <$> es.
Proof.
  induction es as [|e es IH]; [split; [set_solver|done]|]. cbn [List.filter fmap list_fmap]. rewrite not_elem_of_cons.
  pose proof (List.filter_length_le (fun e => negb (d_id e =? i)%string) es) as Hle.
  destruct (String.eqb_spec (d_id e) i) as [->|Hne]; cbn [negb length].
  - split; [lia|by intros [[] _]].
  - rewrite <- IH. split; [intros [= H]; by split|]. intros [_ H]. by rewrite H.
Qed.

Lemma filter_same i es : i ∉ d_id <$> es -> List.filter (fun e => negb (d_id e =? i)%string) es = es.
Proof.
  induction es as [|e es IH]; [done|]. cbn [List.filter fmap list_fmap]. intros [Hne H]%not_elem_of_cons.
  destruct (String.eqb_spec (d_id e) i) as [E|_]; [by destruct Hne|]. cbn [negb]. by rewrite IH.
Qed.

Section refinement.
Context (x : vault_lib) (Hl : Crypto.crypto_lib_laws (crypto x)) (Hb : Bundle.seal_bytes_law (crypto x)) (Hserde : serde_law x).

Lemma open_seal w e n : is_bytes (key_bytes e) -> is_bytes n -> length n = 12%nat -> open_entry x w (seal_entry x w e n) = Ok e.
Proof using Hl Hb.
  intros Hk Hn Hlen. unfold open_entry, seal_entry. cbn [nonce ciphertext d_id d_purpose d_algorithm d_created_at].
  rewrite (b64_roundtrip n Hn). cbn [map_err mbind result_bind]. rewrite Hlen. cbn [Nat.eqb negb].
  rewrite b64_roundtrip by by apply Hb. cbn [map_err mbind result_bind].
  unfold Crypto.chacha20poly1305_decrypt, Crypto.chacha20poly1305_encrypt. rewrite (proj2 (Crypto.law_seal _ Hl _ _ _ _)).
  by destruct e.
Qed.

(** The entries stand for a map under a wrap key. *)
Record stands (w : list Z) (es : list OnDiskEntry) (m : gmap string VaultEntryPlain) : Prop := {
  stands_ids : NoDup (d_id <$> es);
  stands_find : forall i, match find_entry i es with
                          | Some e => exists p, m !! i = Some p /\ open_entry x w e = Ok p
                          | None => m !! i = None
                          end
}.

Lemma stands_upsert w es m e n : stands w es m -> is_bytes (key_bytes e) -> is_bytes n -> length n = 12%nat ->
  stands w (upsert (seal_entry x w e n) es) (<[id e := e]> m).
Proof using Hl Hb.
  intros [H1 H2] Hk Hn Hlen. split; [by apply ids_upsert|]. intros i. rewrite find_upsert. change (d_id (seal_entry x w e n)) with (id e).
  destruct (String.eqb_spec (id e) i) as [<-|Hne].
  - exists e. rewrite lookup_insert_eq. split; [done|]. by apply open_seal.
  - rewrite lookup_insert_ne by done. apply H2.
Qed.

Lemma stands_filter w es m i : stands w es m -> stands w (List.filter (fun e => negb (d_id e =? i)%string) es) (delete i m).
Proof.
  intros [H1 H2]. split; [by apply ids_filter|]. intros j. rewrite find_filter.
  destruct (String.eqb_spec j i) as [->|Hne]; [apply lookup_delete_eq|]. rewrite lookup_delete_ne by done. apply H2.
Qed.

Lemma stands_Some w es m i : stands w es m -> is_Some (m !! i) <-> i ∈ d_id <$> es.
Proof.
  intros [_ H]. specialize (H i). destruct (find_entry i es) as [e|] eqn:E.
  - destruct H as (p & -> & _). split; [|by eexists]. intros _. destruct (decide (i ∈ d_id <$> es)) as [|Hn]; [done|].
    apply find_entry_None in Hn. congruence.
  - rewrite H. apply find_entry_None in E. split; [by intros [? ?]|done].
Qed.

Lemma persist_at fs p d t f : exists text, from_str x text = Ok d /\
  (persist x fs p d t f).1 !! p = match f with NoFault => Some text | _ => fs !! p end /\
  (is_ok (persist x fs p d t f).2 = true <-> f = NoFault).
Proof using Hserde.
  destruct (Hserde d) as (s & Hs & Hr). exists (s +:+ newline). split; [done|]. unfold persist. rewrite Hs.
  assert (with_extension p ("tmp." +:+ pretty t) <> p) as Hne by (apply tmp_distinct; by rewrite ActorId.has_app).
  destruct f; cbn; rewrite ?lookup_insert_eq, ?lookup_insert_ne by done; split; (done || split; done).
Qed.

Lemma read_stands v m i : stands (wrap_key v) (entries (data v)) m -> read x v i = looked_up m i.
Proof.
  intros [_ H]. specialize (H i). unfold read, looked_up. destruct (find_entry i (entries (data v))) as [e|].
  - destruct H as (p & -> & Hp). cbn [ok_or mbind result_bind]. done.
  - by rewrite H.
Qed.

(** ** Every execution *)

Context (p : Path) (w : list Z) (k : OnDiskKdf).
Definition vault_data (es : list OnDiskEntry) : OnDiskVault := mk_OnDiskVault "1" k "chacha20poly1305" es.
Record inv (s : files * Vault) (c : contents) : Prop := {
  inv_vault : exists es, s.2 = mk_Vault p w (vault_data es) /\ stands w es (mem c);
  inv_disk : exists text es, s.1 !! p = Some text /\ from_str x text = Ok (vault_data es) /\ stands w es (disk c)
}.

Lemma vault_inv_write fs es m c t f v' : stands w es m -> inv (fs, v') c -> inv
  ((persist x fs p (vault_data es) t f).1, mk_Vault p w (vault_data es)) (written m c f).
Proof using Hserde.
  intros Hs [_ Hd]. split; [by exists es|]. destruct (persist_at fs p (vault_data es) t f) as (text & Ht & Hp & _).
  cbn [fst written disk]. rewrite Hp. destruct f; [by exists text, es|done..].
Qed.

Lemma vault_inv_step s c o : inv s c -> op_ok o -> inv (step x s o) (meant c o).
Proof using Hl Hb Hserde.
  intros I Ho. pose proof I as [(es & Ev & Hs) Hd]. destruct s as [fs v]. cbn [fst snd] in *. subst v. destruct o as [e n t f|i t f].
  - cbn in Ho. destruct Ho as (Hk & Hn & Hlen). pose proof (stands_upsert _ _ _ _ _ Hs Hk Hn Hlen) as Hs'.
    pose proof (vault_inv_write fs _ _ c t f _ Hs' I) as I'. cbn [step meant fst snd]. unfold store, with_entries.
    cbn [path wrap_key data vault_version kdf cipher_algorithm entries vault_data].
    fold (vault_data (upsert (seal_entry x w e n) es)).
    by destruct (persist x fs p (vault_data (upsert (seal_entry x w e n) es)) t f) as [fs' r].
  - cbn [step meant fst snd]. unfold remove, with_entries. cbn [path wrap_key data vault_version kdf cipher_algorithm entries vault_data].
    destruct (decide (i ∈ d_id <$> es)) as [Hin|Hout].
    + rewrite bool_decide_eq_true_2 by by apply (stands_Some w es).
      destruct (Nat.eqb_spec (length (List.filter (fun e => negb (d_id e =? i)%string) es)) (length es)) as [El|_];
        [by apply filter_length in El|]. cbn [negb].
      pose proof (vault_inv_write fs _ _ c t f _ (stands_filter _ _ _ i Hs) I) as I'.
      fold (vault_data (List.filter (fun e => negb (d_id e =? i)%string) es)).
      by destruct (persist x fs p (vault_data (List.filter (fun e => negb (d_id e =? i)%string) es)) t f) as [fs' r].
    + rewrite bool_decide_eq_false_2 by by rewrite (stands_Some w es).
      rewrite (filter_same i es Hout), Nat.eqb_refl. cbn [negb fst]. exact I.
Qed.

Lemma vault_inv_run s c ops : inv s c -> Forall op_ok ops -> inv (foldl (step x) s ops) (foldl meant c ops).
Proof using Hl Hb Hserde.
  intros I Hops. revert s c I. induction Hops as [|o ops Ho _ IH]; intros s c I; [done|]. cbn [foldl]. apply IH. by apply vault_inv_step.
Qed.

End refinement.

Lemma create_ok x fs p pass opts rnd t f fs' v : create_at_path x fs p pass opts rnd t f = (fs', Ok v) ->
  exists w, fs !! p = None /\ derive_key x (bytes_of_str pass) (unwrap_or (o_salt opts) rnd) (o_m_cost opts) (o_t_cost opts) (o_p_cost opts) = Ok w /\
  let d := mk_OnDiskVault "1" (mk_OnDiskKdf "argon2id" (Packet.b64_encode (unwrap_or (o_salt opts) rnd)) (o_m_cost opts) (o_t_cost opts) (o_p_cost opts))
    "chacha20poly1305" [] in
  v = mk_Vault p w d /\ persist x fs p d t f = (fs', Ok tt).
Proof.
  unfold create_at_path. destruct (fs !! p) as [?|]; [discriminate|]. destruct (derive_key _ _ _ _ _ _) as [w|]; [|discriminate].
  destruct (persist _ _ _ _ _ _) as [fs1 [[]|]] eqn:E; cbn [mbind result_bind]; [|discriminate].
  intros [= <- <-]. exists w. done.
Qed.

Lemma open_ok x fs p pass w sb mc tc pc text es : fs !! p = Some text ->
  from_str x text = Ok (mk_OnDiskVault "1" (mk_OnDiskKdf "argon2id" (Packet.b64_encode sb) mc tc pc) "chacha20poly1305" es) ->
  is_bytes sb -> (8 <= length sb)%nat -> derive_key x (bytes_of_str pass) sb mc tc pc = Ok w ->
  exists v, open_at_path x fs p pass = Ok v /\ path v = p /\ wrap_key v = w /\ entries (data v) = es.
Proof.
  intros Hfs Hs Hb Hlen Hd. unfold open_at_path. rewrite Hfs. cbn [ok_or mbind result_bind]. rewrite Hs.
  cbn [map_err mbind result_bind vault_version kdf kdf_algorithm cipher_algorithm salt m_cost t_cost p_cost].
  cbn [String.eqb Ascii.eqb Bool.eqb negb orb]. rewrite b64_roundtrip by done. cbn [map_err mbind result_bind].
  destruct (Nat.ltb_spec (length sb) 8); [lia|]. rewrite Hd. cbn [mbind result_bind]. by eexists.
Qed.

(** C14: The vault implements a map from ids to keys, in memory and on disk.
    From its creation on and for every sequence of stores and removals, each
    of whose writes may fail or be cut off at any step: reading from memory
    answers as the map of the changes made so far; opening the file with the
    passphrase succeeds and the vault so opened answers as the map of the
    changes up to the last write that completed, so no partial write is ever
    read; and the listed ids are the ids of the map, without duplicates. *)
Theorem vault_refines_map x fs0 p pass opts rnd t f fs1 v0 ops
    (Hl : Crypto.crypto_lib_laws (crypto x)) (Hb : Bundle.seal_bytes_law (crypto x)) (Hserde : serde_law x)
    (Hsalt : is_bytes (unwrap_or (o_salt opts) rnd) /\ length (unwrap_or (o_salt opts) rnd) = 16%nat)
    (Hcreate : create_at_path x fs0 p pass opts rnd t f = (fs1, Ok v0)) (Hops : Forall op_ok ops) :
  let '(fs, v) := foldl (step x) (fs1, v0) ops in
  let c := foldl meant (mk_contents ∅ ∅) ops in
  (forall i, read x v i = looked_up (mem c) i) /\
  (exists v', open_at_path x fs p pass = Ok v' /\ forall i, read x v' i = looked_up (disk c) i) /\
  NoDup (s_id <$> list_entries v) /\ (forall i, i ∈ s_id <$> list_entries v <-> is_Some (mem c !! i)).
Proof.
  destruct (create_ok _ _ _ _ _ _ _ _ _ _ Hcreate) as (w & _ & Hd & -> & Hp). clear Hcreate.
  set (k := mk_OnDiskKdf _ _ _ _ _) in *. destruct Hsalt as [Hsb Hslen].
  assert (stands x w [] ∅) as H0 by (split; [constructor|by intros i]).
  assert (inv x p w k (fs1, mk_Vault p w (vault_data k [])) (mk_contents ∅ ∅)) as I.
  { split; [by exists []|]. destruct (persist_at x Hserde fs0 p (vault_data k []) t f) as (text & Ht & Hat & Hf).
    unfold vault_data in *. rewrite Hp in Hat, Hf. cbn [fst snd is_ok] in Hat, Hf. rewrite (proj1 Hf eq_refl) in Hat.
    by exists text, []. }
  pose proof (vault_inv_run x Hl Hb Hserde p w k _ _ ops I Hops) as [(es & Ev & Hs) (text & ds & Hfs & Hst & Hsd)].
  unfold vault_data in Ev at 2. unfold vault_data in *. destruct (foldl (step x) _ ops) as [fs v]. cbn [fst snd] in *. subst v.
  destruct (open_ok x fs p pass w _ _ _ _ text ds Hfs Hst Hsb ltac:(lia) Hd) as (v' & Ho & _ & Hw & He).
  split; [intros i; by apply read_stands|]. split; [exists v'; split; [done|]; intros i; apply read_stands; by rewrite Hw, He|].
  assert (s_id <$> list_entries (mk_Vault p w (mk_OnDiskVault "1" k "chacha20poly1305" es)) = d_id <$> es) as ->.
  { unfold list_entries. cbn [data entries]. rewrite <- list_fmap_compose. done. }
  split; [exact (stands_ids _ _ _ _ Hs)|]. intros i. symmetry. by apply (stands_Some x w).
Qed.

(** A key that is read was sealed for what it is read as: the entry
    found under the id opened under associated data that determines the id,
    the purpose and the algorithm, up to Unicode normalisation.  Renaming an
    entry or relabelling its purpose or algorithm on disk therefore changes
    the data its seal is checked against. *)
Theorem vault_entry_bound x v i e (Hread : read x v i = Ok e) :
  id e = i /\
  (exists d n ct, d ∈ entries (data v) /\ d_id d = i /\ Packet.b64_decode (nonce d) = Ok n /\ length n = 12%nat /\
     Packet.b64_decode (ciphertext d) = Ok ct /\
     Crypto.aead_open (crypto x) (wrap_key v) n (aad_for x (id e) (purpose e) (algorithm e)) ct = Some (key_bytes e)) /\
  (forall i' p' a', aad_for x i' p' a' = aad_for x (id e) (purpose e) (algorithm e) <->
     nfc x i' = nfc x (id e) /\ nfc x p' = nfc x (purpose e) /\ nfc x a' = nfc x (algorithm e)).
Proof.
  unfold read in Hread. apply bind_ok in Hread as (d & Hd%ok_or_ok & H). unfold find_entry in Hd.
  apply List.find_some in Hd as [Hin Hid]. apply String.eqb_eq in Hid. unfold open_entry in H.
  apply bind_ok in H as (n & Hn%map_err_ok & H). destruct (Nat.eqb_spec (length n) 12) as [Hlen|]; [|discriminate]. cbn [negb] in H.
  apply bind_ok in H as (ct & Hct%map_err_ok & (pt & Hpt%map_err_ok & [= <-])%bind_ok).
  cbn [id purpose algorithm key_bytes]. split; [done|]. split.
  - exists d, n, ct. apply list_elem_of_In in Hin. apply ok_or_ok in Hpt. done.
  - intros i' p' a'. destruct (aad_canonical x i' p' a') as (u & Hu & -> & Hru).
    destruct (aad_canonical x (d_id d) (d_purpose d) (d_algorithm d)) as (t & Ht & -> & Hrt). split.
    + intros ->%bytes_of_str_inj. rewrite Hrt in Hru. by injection Hru.
    + intros (E1 & E2 & E3). f_equal. apply (Ok_inj (E := Canonical.CanonicalJsonError)). rewrite <- Hu, <- Ht.
      unfold Canonical.canonicalize. rewrite <- (CanonicalText.encode_normal _ _ (JArray [JString i'; _; _])).
      rewrite <- (CanonicalText.encode_normal _ _ (JArray [JString (d_id d); _; _])). cbn. by rewrite E1, E2, E3.
Qed.

(** ** Witnesses *)

#[local] Instance OnDiskEntry_eq_dec : EqDecision OnDiskEntry.
Proof. solve_decision. Defined.
#[local] Instance OnDiskEntry_countable : Countable OnDiskEntry.
Proof.
  refine (inj_countable' (fun e => (d_id e, d_purpose e, d_algorithm e, nonce e, ciphertext e, d_created_at e))
    (fun '(a, b, c, d, e, f) => mk_OnDiskEntry a b c d e f) _). by intros [].
Defined.
#[local] Instance OnDiskKdf_eq_dec : EqDecision OnDiskKdf.
Proof. solve_decision. Defined.
#[local] Instance OnDiskVault_eq_dec : EqDecision OnDiskVault.
Proof. solve_decision. Defined.
#[local] Instance OnDiskVault_countable : Countable OnDiskVault.
Proof.
  refine (inj_countable' (fun v => (vault_version v, (kdf_algorithm (kdf v), salt (kdf v), m_cost (kdf v), t_cost (kdf v), p_cost (kdf v)),
      cipher_algorithm v, entries v))
    (fun '(a, (b, c, d, e, f), g, h) => mk_OnDiskVault a (mk_OnDiskKdf b c d e f) g h) _). by intros [? [] ? ?].
Defined.
Fixpoint pos_text (n : positive) : string :=
  match n with xH => "" | xO n => String "0" (pos_text n) | xI n => String "1" (pos_text n) end.
Fixpoint text_pos (s : string) : positive :=
  match s with
  | String c r => if Ascii.eqb c "0" then xO (text_pos r) else if Ascii.eqb c "1" then xI (text_pos r) else xH
  | EmptyString => xH
  end.
Lemma text_pos_text n : text_pos (pos_text n +:+ newline) = n.
Proof. induction n as [n IH|n IH|]; [..|done]; cbn [pos_text]; rewrite str_app_cons; cbn; by rewrite IH. Qed.

Definition toy : vault_lib := {|
  crypto := Crypto.toy_lib; nfc := fun s => s; show_f64 := fun _ => "";
  argon2id := fun _ _ _ password salt => Ok (Crypto.pad_to 32 (password ++ salt));
  to_string_pretty := fun d => Ok (pos_text (encode d));
  from_str := fun s => ok_or (decode (text_pos s)) "syntax";
  not_found := fun _ => "No such file or directory (os error 2)"
|}.
Lemma toy_serde : serde_law toy.
Proof. intros d. eexists. split; [reflexivity|]. cbn. by rewrite text_pos_text, decode_encode. Qed.

Definition key1 : VaultEntryPlain := mk_VaultEntryPlain "k1" "signing" "ed25519" [1; 2; 3] "2026-01-01T00:00:00Z".
Definition key2 : VaultEntryPlain := mk_VaultEntryPlain "k2" "signing" "ed25519" [4; 5; 6] "2026-01-01T00:00:00Z".
Definition ops1 : list op := [Store key1 (repeat 0 12) 5 NoFault; Store key2 (repeat 9 12) 6 (FailWrite 3 "ENOSPC")].
Lemma repeat_bytes n b : is_u8 b -> is_bytes (repeat b n).
Proof. intros H. induction n; by constructor. Qed.
Lemma ops1_ok : Forall op_ok ops1.
Proof.
  assert (forall a b c, is_u8 a -> is_u8 b -> is_u8 c -> is_bytes [a; b; c]) as H3 by (intros; rewrite !Forall_cons, Forall_nil; done).
  assert (forall e n t f, is_bytes (key_bytes e) -> is_u8 n -> op_ok (Store e (repeat n 12) t f)) as Hst
    by (intros; split; [done|]; split; [by apply repeat_bytes|done]).
  unfold ops1. repeat apply Forall_cons_2; [..|apply Forall_nil_2]; (apply Hst; [apply H3|]); unfold is_u8; lia.
Qed.
Definition created := create_at_path toy ∅ ("/home", "vault.json") "pass" default_options (repeat 7 16) 4 NoFault.
Definition v1 : Vault := match created.2 with Ok v => v | Err _ => mk_Vault ("", "") [] (mk_OnDiskVault "" (mk_OnDiskKdf "" "" 0 0 0) "" []) end.

Lemma vault_refines_map_witness : let '(fs, v) := foldl (step toy) (created.1, v1) ops1 in
  read toy v "k2" = Ok key2 /\
  exists v', open_at_path toy fs ("/home", "vault.json") "pass" = Ok v' /\ read toy v' "k1" = Ok key1 /\
    read toy v' "k2" = Err (EntryNotFound "k2").
Proof.
  pose proof (vault_refines_map toy ∅ ("/home", "vault.json") "pass" default_options (repeat 7 16) 4 NoFault created.1 v1 ops1
    Crypto.toy_lib_laws Bundle.toy_seal_bytes toy_serde
    (conj (repeat_bytes 16 7 ltac:(unfold is_u8; lia)) eq_refl) eq_refl
    ops1_ok) as H.
  destruct (foldl (step toy) (created.1, v1) ops1) as [fs v]. destruct H as (Hr & (v' & Ho & Hr') & _).
  split; [rewrite Hr; reflexivity|]. exists v'. split; [done|]. rewrite !Hr'. split; reflexivity.
Defined.

Lemma vault_entry_bound_witness : let v := mk_Vault ("/home", "v") (repeat 7 32) (mk_OnDiskVault "1" (mk_OnDiskKdf "argon2id" "" 1 1 1)
    "chacha20poly1305" [seal_entry toy (repeat 7 32) key1 (repeat 0 12)]) in
  read toy v "k1" = Ok key1 /\ id key1 = "k1".
Proof.
  intros v. assert (read toy v "k1" = Ok key1) as Hr by (vm_compute; reflexivity). split; [done|].
  apply (vault_entry_bound toy v "k1" key1 Hr).
Defined.

End Vault.
