(* ===== verification/FileStore.v ===== *)
(** * FileStore: the file-backed store ([tf-store-file/src/lib.rs],
      [tf-types/src/store.rs])

    An append-only log of proof events, a snapshot of revocations, and
    evidence files with checksum sidecars.  The directory is a record of
    files; every operation that writes takes the point at which its writes
    stop, by an error or by a crash, so that the theorems speak about what
    the next start finds.  SHA-256, Unicode normalisation and serde_json are
    parameters; the operations of opening a store meet no I/O error. *)

From stdpp Require Import gmap sorting.
From S2P Require Import Prelude Utf8 Json Base64 Cbor BinaryFormat Canonical CanonicalText Clock Crypto Chain ActorId.

Module FileStore.
#[local] Open Scope string_scope.
#[local] Open Scope list_scope.
#[local] Open Scope Z_scope.

(** The errors of the traits of [store.rs]. *)
Inductive StoreError := Unavailable (m : string) | NotFound | Conflict | Other (m : string).

(** [BTreeMap<(String, String), String>] in key order. *)
Abbreviation key := (string * string)%type.
Abbreviation revmap := (list (key * string)).
Definition key_lt (a b : key) : bool := str_lt a.1 b.1 || (a.1 =? b.1)%string && str_lt a.2 b.2.
Fixpoint bt_insert (k : key) (v : string) (l : revmap) : revmap :=
  match l with
  | [] => [(k, v)]
  | (k', v') :: r => if bool_decide (k = k') then (k, v) :: r
                     else if key_lt k k' then (k, v) :: l else (k', v') :: bt_insert k v r
  end.
Fixpoint bt_get (k : key) (l : revmap) : option string :=
  match l with
  | [] => None
  | (k', v) :: r => if bool_decide (k = k') then Some v else bt_get k r
  end.

Record State := mk_State { proof_order : list string; proof_payloads : gmap string json; revocations : revmap }.
Definition empty_state : State := mk_State [] ∅ [].

(** The files of the store: the two indexes with their temporaries, and the
    directory [evidence].  A content is its bytes. *)
Record Disk := mk_Disk {
  proof_log : option string; proof_tmp : option string;
  rev_file : option string; rev_tmp : option string;
  evidence : gmap string string
}.
Definition empty_disk : Disk := mk_Disk None None None None ∅.
Record FileStore := mk_FileStore { root : string; disk : Disk; state : State }.
Record HealthReport := mk_HealthReport { proof_events : Z; n_revocations : Z; evidence_bundles : Z }.

Record store_lib := mk_store_lib {
  crypto : Crypto.crypto_lib;
  nfc : string -> string;
  show_f64 : Z -> string;
  from_str : string -> result string json;
  (** The text of a [FromUtf8Error]. *)
  utf8_error : list Z -> string
}.

(** Where the writes of an operation stop.  [FailWrite n] has written [n]
    bytes of the (temporary) file; [FailSync] fails once all is in place. *)
Inductive fault :=
| NoFault
| FailOpen (e : string)
| FailWrite (n : nat) (e : string)
| FailRename (e : string)
| FailSync (e : string).

(** ** Text *)

Definition TAB : ascii := ascii_of_N 9.
Definition LF : ascii := ascii_of_N 10.
Definition CR : ascii := ascii_of_N 13.

(** [BufRead::lines]: a line loses its line feed and a carriage return
    before it; bytes after the last line feed are a line of their own. *)
Definition strip_cr (s : string) : string :=
  match ActorId.split_last CR s with Some (a, "") => a | _ => s end.
Fixpoint lines_fuel (fuel : nat) (s : string) : list string :=
  match fuel with
  | O => []
  | S fuel =>
    match ActorId.split_first LF s with
    | Some (a, r) => strip_cr a :: lines_fuel fuel r
    | None => if (s =? "")%string then [] else [s]
    end
  end.
Definition lines (s : string) : list string := lines_fuel (S (String.length s)) s.

(** [str::trim]. *)
Definition trim (s : string) : string := str_of_chars (reverse (trim_start (reverse (trim_start (chars s))))).
Definition blank (s : string) : bool := (trim s =? "")%string.

(** [line.splitn(3, '\t')]. *)
Definition splitn3 (s : string) : string * option string * option string :=
  match ActorId.split_first TAB s with
  | None => (s, None, None)
  | Some (a, r) => match ActorId.split_first TAB r with
                   | None => (a, Some r, None)
                   | Some (b, c) => (a, Some b, Some c)
                   end
  end.

Definition not_utf8 : StoreError := Other "stream did not contain valid UTF-8".

Definition hex_value (b : Z) : result StoreError Z :=
  if (48 <=? b) && (b <=? 57) then Ok (b - 48)
  else if (97 <=? b) && (b <=? 102) then Ok (b - 97 + 10)
  else if (65 <=? b) && (b <=? 70) then Ok (b - 65 + 10)
  else Err (Other ("invalid hex byte: " +:+ pretty b)).

(** A byte that is not escaped is pushed as the character of its value. *)
Definition escape_byte (b : Z) : list Z :=
  if b =? 37 then bytes_of_str "%25" else if b =? 9 then bytes_of_str "%09"
  else if b =? 10 then bytes_of_str "%0a" else if b =? 13 then bytes_of_str "%0d" else encode_char b.
Definition escape_field (s : string) : string := str_of_bytes (flat_map escape_byte (bytes_of_str s)).

Fixpoint unescape_bytes (s : string) (bs : list Z) : result StoreError (list Z) :=
  match bs with
  | [] => Ok []
  | b :: r =>
    if b =? 37 then
      match r with
      | h :: l :: r' => hi ← hex_value h; lo ← hex_value l; out ← unescape_bytes s r'; Ok (Z.lor (Z.shiftl hi 4) lo :: out)
      | _ => Err (Other ("bad escape in field: " +:+ s))
      end
    else out ← unescape_bytes s r; Ok (b :: out)
  end.
Fixpoint hex_decode_bytes (bs : list Z) : result StoreError (list Z) :=
  match bs with
  | h :: l :: r => hi ← hex_value h; lo ← hex_value l; out ← hex_decode_bytes r; Ok (Z.lor (Z.shiftl hi 4) lo :: out)
  | _ => Ok []
  end.
Definition hex_decode (s : string) : result StoreError (list Z) :=
  if negb (str_len s mod 2 =? 0) then Err (Other ("odd-length hex string: " +:+ s)) else hex_decode_bytes (bytes_of_str s).

Section lib.
Context (x : store_lib).

Definition from_utf8 (bs : list Z) (label : string) : result StoreError string :=
  if valid_utf8 bs then Ok (str_of_bytes bs) else Err (Other (label +:+ utf8_error x bs)).
Definition unescape_field (s : string) : result StoreError string :=
  out ← unescape_bytes s (bytes_of_str s);
  from_utf8 out "field is not utf-8: ".

Definition hashref (s : string) : string := Crypto.sha256_hashref (crypto x) (bytes_of_str s).
Definition record_checksum (hash canonical_payload : string) : string := hashref (hash +:+ String TAB canonical_payload).
Definition canonical (v : json) : result StoreError string :=
  map_err (fun '(Canonical.NonFinite bits) => Other ("canonicalize: cannot canonicalize non-finite number: " +:+ show_f64 x bits))
    (Canonical.canonicalize (nfc x) (show_f64 x) v).

(** ** Reading the indexes *)

(** A line of [proof.log]: nothing when it is blank. *)
Definition parse_record (line_no : nat) (line : string) : result StoreError (option (string * json)) :=
  let at_ := pretty (Z.of_nat line_no + 1) in
  if negb (valid_utf8 (bytes_of_str line)) then Err not_utf8 else
  if blank line then Ok None else
  let '(hash, c, p) := splitn3 line in
  checksum ← ok_or c (Other ("malformed proof.log line " +:+ at_));
  payload ← ok_or p (Other ("malformed proof.log line " +:+ at_));
  if negb (checksum =? record_checksum hash payload)%string
  then Err (Other ("proof.log line " +:+ at_ +:+ " checksum mismatch")) else
  if negb (hash =? hashref payload)%string then Err (Other ("proof.log line " +:+ at_ +:+ " event hash mismatch")) else
  value ← map_err (fun e => Other ("parse proof.log line " +:+ at_ +:+ ": " +:+ e)) (from_str x payload);
  Ok (Some (hash, value)).

(** A line of [revocations.tsv]. *)
Definition parse_revocation (line_no : nat) (line : string) : result StoreError (option (key * string)) :=
  if negb (valid_utf8 (bytes_of_str line)) then Err not_utf8 else
  if blank line then Ok None else
  let '(kind, i, e) := splitn3 line in
  effective_at ← ok_or e (Other ("malformed revocations.tsv line " +:+ pretty (Z.of_nat line_no + 1)));
  kind ← unescape_field kind; i ← unescape_field (unwrap_or i ""); effective_at ← unescape_field effective_at;
  Ok (Some ((kind, i), effective_at)).

(** The loop over the lines of a file. *)
Fixpoint fold_lines {A B} (parse : nat -> string -> result StoreError (option A)) (f : B -> A -> B) (n : nat) (ls : list string) (s : B) :
    result StoreError B :=
  match ls with
  | [] => Ok s
  | line :: ls' => r ← parse n line; fold_lines parse f (S n) ls' (match r with Some a => f s a | None => s end)
  end.
Definition fold_file {A B} (parse : nat -> string -> result StoreError (option A)) (f : B -> A -> B) (file : option string) (s : B) :
    result StoreError B :=
  match file with Some text => fold_lines parse f 0 (lines text) s | None => Ok s end.

Definition add_record (st : State) (r : string * json) : State :=
  let order := match proof_payloads st !! r.1 with Some _ => proof_order st | None => proof_order st ++ [r.1] end in
  mk_State order (<[r.1 := r.2]> (proof_payloads st)) (revocations st).
Definition add_revocation (st : State) (r : key * string) : State :=
  mk_State (proof_order st) (proof_payloads st) (bt_insert r.1 r.2 (revocations st)).

Definition load (d : Disk) : result StoreError State :=
  st ← fold_file parse_record add_record (proof_log d) empty_state;
  fold_file parse_revocation add_revocation (rev_file d) st.

Definition ends_with (s suf : string) : bool := Base64.ends_with (bytes_of_str s) (bytes_of_str suf).

Definition cleanup_stale_temps (d : Disk) : Disk :=
  mk_Disk (proof_log d) None (rev_file d) None
    (filter (fun kv => ~ (valid_utf8 (bytes_of_str kv.1) = true /\ ends_with kv.1 ".tmp" = true)) (evidence d)).

Definition open (root : string) (d : Disk) : result StoreError FileStore :=
  let d := cleanup_stale_temps d in
  st ← load d;
  Ok (mk_FileStore root d st).

(** ** Writing *)

(** The record after the old content, cut where the writes stop; there is no
    rename. *)
Definition append_file (file : option string) (record : string) (f : fault) : option string :=
  let old := unwrap_or file "" in
  match f with
  | FailOpen _ => file
  | FailWrite n _ => Some (old +:+ String.substring 0 n record)
  | FailRename _ | FailSync _ | NoFault => Some (old +:+ record)
  end.
Definition fault_result (f : fault) : result StoreError unit :=
  match f with NoFault => Ok tt | FailOpen e | FailWrite _ e | FailRename e | FailSync e => Err (Other e) end.

Definition record_text (hash canonical : string) : string :=
  hash +:+ String TAB (record_checksum hash canonical +:+ String TAB (canonical +:+ String LF "")).

Definition append (s : FileStore) (event : json) (f : fault) : FileStore * result StoreError string :=
  match canonical event with
  | Err e => (s, Err e)
  | Ok text =>
    let hash := hashref text in
    match proof_payloads (state s) !! hash with
    | Some _ => (s, Ok hash)
    | None =>
      let d := disk s in
      let d' := mk_Disk (append_file (proof_log d) (record_text hash text) f) (proof_tmp d) (rev_file d) (rev_tmp d) (evidence d) in
      match fault_result f with
      | Err e => (mk_FileStore (root s) d' (state s), Err e)
      | Ok _ =>
        (mk_FileStore (root s) d' (mk_State (proof_order (state s) ++ [hash]) (<[hash := event]> (proof_payloads (state s)))
           (revocations (state s))), Ok hash)
      end
    end
  end.

Definition lookup (s : FileStore) (event_hash : string) : option json := proof_payloads (state s) !! event_hash.
Definition tail (s : FileStore) (limit : nat) : list json :=
  omap (fun h => proof_payloads (state s) !! h) (drop (length (proof_order (state s)) - limit) (proof_order (state s))).

(** A file replaced through its temporary: the file and the temporary. *)
Definition replace_file (file tmp : option string) (text : string) (f : fault) : option string * option string :=
  match f with
  | FailOpen _ => (file, tmp)
  | FailWrite n _ => (file, Some (String.substring 0 n text))
  | FailRename _ => (file, Some text)
  | FailSync _ | NoFault => (Some text, None)
  end.

Definition revocation_line (r : key * string) : string :=
  escape_field r.1.1 +:+ String TAB (escape_field r.1.2 +:+ String TAB (escape_field r.2 +:+ String LF "")).
Definition persist_revocations (d : Disk) (r : revmap) (f : fault) : Disk * result StoreError unit :=
  let '(file, tmp) := replace_file (rev_file d) (rev_tmp d) (str_join "" (revocation_line <$> r)) f in
  (mk_Disk (proof_log d) (proof_tmp d) file tmp (evidence d), fault_result f).

Definition insert (s : FileStore) (target_kind target_id effective_at : string) (f : fault) : FileStore * result StoreError unit :=
  let r := bt_insert (target_kind, target_id) effective_at (revocations (state s)) in
  let '(d, res) := persist_revocations (disk s) r f in
  (mk_FileStore (root s) d (mk_State (proof_order (state s)) (proof_payloads (state s)) r), res).
Definition is_revoked (s : FileStore) (target_kind target_id at_ : string) : bool :=
  match bt_get (target_kind, target_id) (revocations (state s)) with Some e => str_le e at_ | None => false end.
Definition list_revocations (s : FileStore) : list (string * string * string) :=
  (fun r => (r.1.1, r.1.2, r.2)) <$> revocations (state s).

(** The text of the rewritten log, up to a value without a canonical text. *)
Fixpoint log_text (order : list string) (payloads : gmap string json) : string * option StoreError :=
  match order with
  | [] => ("", None)
  | hash :: order' =>
    match payloads !! hash with
    | None => log_text order' payloads
    | Some value =>
      match canonical value with
      | Err e => ("", Some e)
      | Ok text => let '(rest, e) := log_text order' payloads in (record_text hash text +:+ rest, e)
      end
    end
  end.
Definition persist_proof_log (d : Disk) (order : list string) (payloads : gmap string json) (f : fault) : Disk * result StoreError unit :=
  match log_text order payloads with
  | (text, Some e) => (mk_Disk (proof_log d) (Some text) (rev_file d) (rev_tmp d) (evidence d), Err e)
  | (text, None) =>
    let '(file, tmp) := replace_file (proof_log d) (proof_tmp d) text f in
    (mk_Disk file tmp (rev_file d) (rev_tmp d) (evidence d), fault_result f)
  end.
Definition compact (s : FileStore) (f g : fault) : FileStore * result StoreError unit :=
  let st := state s in
  match persist_proof_log (disk s) (proof_order st) (proof_payloads st) f with
  | (d, Err e) => (mk_FileStore (root s) d st, Err e)
  | (d, Ok _) => let '(d, r) := persist_revocations d (revocations st) g in (mk_FileStore (root s) d st, r)
  end.

(** ** Evidence *)

(** Where [put] stops: in the bytes of the temporary, in those of the
    checksum's, before the first rename, between the renames, after them. *)
Inductive put_fault :=
| PutOk
| PutOpen (e : string)
| PutBytes (n : nat) (e : string)
| PutSum (n : nat) (e : string)
| PutRename (e : string)
| PutBetween (e : string)
| PutSync (e : string).

Definition sum_name (name : string) : string := name +:+ ".sha256".
Definition sum_tmp_name (name : string) : string := name +:+ ".sha256.tmp".
Definition put_files (files : gmap string string) (name bytes : string) (f : put_fault) : gmap string string * result StoreError unit :=
  let tmp := name +:+ ".tmp" in
  let sum := hashref bytes +:+ String LF "" in
  let staged := <[sum_tmp_name name := sum]> (<[tmp := bytes]> files) in
  let renamed := <[name := bytes]> (delete tmp staged) in
  let done_ := <[sum_name name := sum]> (delete (sum_tmp_name name) renamed) in
  match f with
  | PutOpen e => (files, Err (Other e))
  | PutBytes n e => (<[tmp := String.substring 0 n bytes]> files, Err (Other e))
  | PutSum n e => (<[sum_tmp_name name := String.substring 0 n sum]> (<[tmp := bytes]> files), Err (Other e))
  | PutRename e => (staged, Err (Other e))
  | PutBetween e => (renamed, Err (Other e))
  | PutSync e => (done_, Err (Other e))
  | PutOk => (done_, Ok tt)
  end.
Definition bundle_name (bundle_id : string) : string := hex (bytes_of_str bundle_id).
Definition with_evidence (s : FileStore) (files : gmap string string) : FileStore :=
  mk_FileStore (root s) (mk_Disk (proof_log (disk s)) (proof_tmp (disk s)) (rev_file (disk s)) (rev_tmp (disk s)) files) (state s).

Definition put (s : FileStore) (bundle_id bytes : string) (f : put_fault) : FileStore * result StoreError unit :=
  if (bundle_id =? "")%string then (s, Err (Other "empty bundle id")) else
  let '(files, r) := put_files (evidence (disk s)) (bundle_name bundle_id) bytes f in
  (with_evidence s files, r).

Definition evidence_path (s : FileStore) (name : string) : string := root s +:+ "/evidence/" +:+ name.
Definition verify_evidence_checksum (s : FileStore) (name bytes : string) : result StoreError unit :=
  text ← ok_or (evidence (disk s) !! sum_name name)
    (Other ("missing evidence checksum: " +:+ evidence_path s (sum_name name)));
  if negb (valid_utf8 (bytes_of_str text)) then Err not_utf8 else
  if negb (trim text =? hashref bytes)%string
  then Err (Other ("evidence checksum mismatch: " +:+ evidence_path s name)) else Ok tt.

Definition get (s : FileStore) (bundle_id : string) : result StoreError (option string) :=
  match evidence (disk s) !! bundle_name bundle_id with
  | Some bytes => _ ← verify_evidence_checksum s (bundle_name bundle_id) bytes; Ok (Some bytes)
  | None => Ok None
  end.

(** The names of the bundle files in a directory listing. *)
Definition bundle_files (s : FileStore) : list (string * string) :=
  List.filter (fun kv => valid_utf8 (bytes_of_str kv.1) && negb (ends_with kv.1 ".tmp" || ends_with kv.1 ".sha256"))
    (map_to_list (evidence (disk s))).
Fixpoint insert_str (s : string) (l : list string) : list string :=
  match l with [] => [s] | t :: r => if str_le s t then s :: l else t :: insert_str s r end.
Definition list_bundles (s : FileStore) : result StoreError (list string) :=
  out ← foldr (fun kv acc =>
      bs ← hex_decode kv.1; i ← from_utf8 bs ("invalid evidence bundle id filename " +:+ kv.1 +:+ ": "); l ← acc; Ok (i :: l))
    (Ok []) (bundle_files s);
  Ok (foldr insert_str [] out).

Definition count_lines {A} (parse : nat -> string -> result StoreError (option A)) (file : option string) : result StoreError Z :=
  fold_file parse (fun n _ => n + 1) file 0.
Definition verify_all_evidence (s : FileStore) : result StoreError Z :=
  foldl (fun acc kv => n ← acc; _ ← verify_evidence_checksum s kv.1 kv.2; Ok (n + 1)) (Ok 0) (bundle_files s).
Definition health_check (s : FileStore) : result StoreError HealthReport :=
  p ← count_lines parse_record (proof_log (disk s));
  r ← count_lines parse_revocation (rev_file (disk s));
  e ← verify_all_evidence s;
  Ok (mk_HealthReport p r e).

End lib.

(** ** Lines *)

#[local] Abbreviation has := ActorId.has.

Lemma split_first_None c s : ActorId.split_first c s = None <-> has c s = false.
Proof.
  induction s as [|d s IH]; [done|]. cbn [ActorId.split_first ActorId.has]. destruct (Ascii.eqb d c); [done|].
  cbn [orb]. rewrite <- IH. destruct (ActorId.split_first c s) as [[]|]; [split; discriminate|done].
Qed.

Lemma lines_fuel_enough n m s : (String.length s < n)%nat -> (String.length s < m)%nat -> lines_fuel n s = lines_fuel m s.
Proof.
  revert m s. induction n as [|n IH]; intros [|m] s Hn Hm; try lia. cbn [lines_fuel].
  destruct (ActorId.split_first LF s) as [[a r]|] eqn:E; [|done]. apply ActorId.split_first_Some in E as [-> _].
  rewrite str_length_app in *. cbn [String.length] in *. f_equal. apply IH; lia.
Qed.

Lemma lines_cons a r : has LF a = false -> lines (a +:+ String LF r) = strip_cr a :: lines r.
Proof.
  intros H. unfold lines at 1. cbn [lines_fuel]. rewrite ActorId.split_first_app by done. f_equal.
  apply lines_fuel_enough; rewrite ?str_length_app; cbn; lia.
Qed.

Lemma lines_last s : has LF s = false -> s <> "" -> lines s = [s].
Proof.
  intros H Hne. unfold lines. cbn [lines_fuel]. rewrite (proj2 (split_first_None _ _) H).
  by destruct (String.eqb_spec s "").
Qed.

Lemma strip_cr_id s : has CR s = false -> strip_cr s = s.
Proof. intros H. unfold strip_cr. by rewrite (proj2 (ActorId.split_last_none CR s) H). Qed.

(** A file of complete lines. *)
Definition one_line (s : string) : Prop := has LF s = false /\ has CR s = false.
Definition text_of (ls : list string) : string := str_join "" ((fun l => l +:+ String LF "") <$> ls).

Lemma str_join_empty_cons a l : str_join "" (a :: l) = a +:+ str_join "" l.
Proof. destruct l; [by rewrite str_app_nil_r|]. cbn [str_join]. by rewrite str_app_nil_l. Qed.

Lemma text_of_cons l ls : text_of (l :: ls) = l +:+ String LF (text_of ls).
Proof. unfold text_of. cbn [fmap list_fmap]. rewrite str_join_empty_cons, str_app_assoc. by rewrite str_app_cons, str_app_nil_l. Qed.

Lemma text_of_app ls ms : text_of (ls ++ ms) = text_of ls +:+ text_of ms.
Proof.
  induction ls as [|l ls IH]; [by rewrite str_app_nil_l|]. cbn [app]. rewrite !text_of_cons, IH, str_app_assoc. by rewrite str_app_cons.
Qed.

Lemma lines_text_of ls s : Forall one_line ls -> lines (text_of ls +:+ s) = ls ++ lines s.
Proof.
  induction 1 as [|l ls [H1 H2] _ IH]; [by rewrite str_app_nil_l|].
  rewrite text_of_cons, str_app_assoc, str_app_cons, lines_cons by done. by rewrite strip_cr_id, IH.
Qed.

Lemma fold_lines_app {A B} parse (f : B -> A -> B) n ls ms s :
  fold_lines parse f n (ls ++ ms) s = (s' ← fold_lines parse f n ls s; fold_lines parse f (n + length ls) ms s').
Proof.
  revert n s. induction ls as [|l ls IH]; intros n s; [by rewrite Nat.add_0_r|]. cbn [app fold_lines length].
  destruct (parse n l) as [r|]; [|done]. cbn [mbind result_bind]. rewrite IH. by rewrite Nat.add_succ_r.
Qed.

(** Lines that parse to the elements of a list. *)
Lemma fold_lines_ok {A B} parse (f : B -> A -> B) n ls rs s :
  Forall2 (fun l r => forall n, parse n l = Ok (Some r)) ls rs -> fold_lines parse f n ls s = Ok (foldl f s rs).
Proof.
  intros H. revert n s. induction H as [|l r ls rs Hl _ IH]; intros n s; [done|]. cbn [fold_lines foldl]. rewrite Hl. apply IH.
Qed.

(** ** ASCII lines *)

Lemma decode_ascii s rest : Clock.is_ascii s = true ->
  decode_utf8 (bytes_of_str s ++ rest) = (app (bytes_of_str s)) <$> decode_utf8 rest.
Proof.
  induction s as [|c s IH]; [intros _; cbn; by destruct (decode_utf8 rest)|]. cbn [Clock.is_ascii]. intros [Hc Hs]%andb_prop.
  change (bytes_of_str (String c s)) with (Z.of_N (N_of_ascii c) :: bytes_of_str s). cbn [app decode_utf8].
  rewrite Hc, (proj2 (Z.leb_le 0 (Z.of_N (N_of_ascii c)))) by lia. cbn [andb].
  rewrite IH by done. by destruct (decode_utf8 rest).
Qed.

Lemma valid_ascii_app s t : Clock.is_ascii s = true -> valid_utf8 (bytes_of_str (s +:+ t)) = valid_utf8 (bytes_of_str t).
Proof. intros H. unfold valid_utf8. rewrite bytes_of_str_app, decode_ascii by done. by destruct (decode_utf8 (bytes_of_str t)). Qed.

Lemma valid_tab s : valid_utf8 (bytes_of_str (String TAB s)) = valid_utf8 (bytes_of_str s).
Proof. exact (valid_ascii_app (String TAB "") s eq_refl). Qed.

Lemma chars_ascii s : Clock.is_ascii s = true -> chars s = bytes_of_str s.
Proof.
  intros H. unfold chars. pose proof (decode_ascii s [] H) as E. rewrite app_nil_r in E. rewrite E. cbn. by rewrite app_nil_r.
Qed.

Lemma str_of_ascii s : Clock.is_ascii s = true -> flat_map encode_char (bytes_of_str s) = bytes_of_str s.
Proof.
  intros H. apply encode_decode. pose proof (decode_ascii s [] H) as E. rewrite app_nil_r in E. rewrite E. cbn. by rewrite app_nil_r.
Qed.

(** ** Blank lines *)

Lemma encode_char_ne c : encode_char c <> [].
Proof. unfold encode_char. repeat case_match; discriminate. Qed.

Lemma chars_cons (c : ascii) r : (Z.of_N (N_of_ascii c) < 128)%Z -> exists cs, chars (String c r) = Z.of_N (N_of_ascii c) :: cs.
Proof.
  intros H. unfold chars. change (bytes_of_str (String c r)) with (Z.of_N (N_of_ascii c) :: bytes_of_str r). cbn [decode_utf8].
  rewrite (proj2 (Z.leb_le 0 _)), (proj2 (Z.ltb_lt _ 0x80)) by lia. cbn [andb].
  destruct (decode_utf8 (bytes_of_str r)) as [cs|]; cbn [fmap option_fmap option_map]; by eexists.
Qed.

Lemma blank_cons (c : ascii) r : (Z.of_N (N_of_ascii c) < 128)%Z -> is_whitespace (Z.of_N (N_of_ascii c)) = false -> blank (String c r) = false.
Proof.
  intros Hc Hw. unfold blank, trim. destruct (chars_cons c r Hc) as (cs & ->). rewrite trim_start_id by done.
  rewrite reverse_cons. destruct (trim_start_snoc (reverse cs) _ Hw) as (l' & ->). rewrite reverse_snoc.
  unfold str_of_chars. cbn [flat_map]. destruct (encode_char _) as [|b bs] eqn:E; [by apply encode_char_ne in E|]. done.
Qed.

Lemma trim_line s : Clock.is_ascii s = true -> forallb (fun b => negb (is_whitespace b)) (bytes_of_str s) = true -> s <> "" ->
  trim (s +:+ String LF "") = s.
Proof.
  intros Ha Hw Hne. unfold trim. rewrite chars_ascii by by rewrite Clock.is_ascii_app, Ha. rewrite bytes_of_str_app.
  change (bytes_of_str (String LF "")) with [10]. assert (trim_start (bytes_of_str s ++ [10]) = bytes_of_str s ++ [10]) as ->.
  { destruct s as [|c s]; [done|]. change (bytes_of_str (String c s)) with (Z.of_N (N_of_ascii c) :: bytes_of_str s) in *.
    cbn [forallb] in Hw. apply andb_prop in Hw as [Hw _]. cbn [app]. apply trim_start_id. by apply negb_true_iff. }
  rewrite reverse_snoc. change (trim_start (10 :: reverse (bytes_of_str s))) with (trim_start (reverse (bytes_of_str s))).
  assert (trim_start (reverse (bytes_of_str s)) = reverse (bytes_of_str s)) as ->.
  { destruct (reverse (bytes_of_str s)) as [|b r] eqn:E; [done|]. apply trim_start_id. apply negb_true_iff.
    rewrite forallb_forall in Hw. apply Hw. apply list_elem_of_In. rewrite <- (reverse_involutive (bytes_of_str s)), E, elem_of_reverse. left. }
  rewrite reverse_involutive. unfold str_of_chars. by rewrite str_of_ascii, str_of_bytes_of_str.
Qed.

(** ** Control characters *)

Fixpoint no_ctrl (s : string) : bool :=
  match s with EmptyString => true | String c r => (32 <=? Z.of_N (N_of_ascii c)) && no_ctrl r end.

Lemma no_ctrl_app s t : no_ctrl (s +:+ t) = no_ctrl s && no_ctrl t.
Proof. induction s as [|c s IH]; [by rewrite str_app_nil_l|]. rewrite str_app_cons. cbn. by rewrite IH, andb_assoc. Qed.

Lemma no_ctrl_has c s : no_ctrl s = true -> (Z.of_N (N_of_ascii c) < 32)%Z -> has c s = false.
Proof.
  intros Hs Hc. induction s as [|d s IH]; [done|]. cbn in Hs. apply andb_prop in Hs as [Hd Hs]. apply Z.leb_le in Hd.
  cbn [ActorId.has]. rewrite (IH Hs), orb_false_r. apply Ascii.eqb_neq. intros ->. lia.
Qed.

Lemma no_ctrl_one_line s : no_ctrl s = true -> one_line s /\ has TAB s = false.
Proof. intros H. repeat split; apply no_ctrl_has; (done || vm_compute; reflexivity). Qed.

Lemma no_ctrl_join sep l : no_ctrl sep = true -> Forall (fun t => no_ctrl t = true) l -> no_ctrl (str_join sep l) = true.
Proof.
  intros Hs. induction 1 as [|t l Ht Hl IH]; [done|]. destruct l as [|u l]; [done|]. rewrite CanonicalText.str_join_cons2, !no_ctrl_app.
  by rewrite Ht, Hs, IH.
Qed.

Lemma escape_no_ctrl c : no_ctrl (Canonical.escape c) = true.
Proof.
  assert (forallb (fun n => no_ctrl (Canonical.escape (ascii_of_N (N.of_nat n)))) (seq 0 256) = true) as H by (vm_compute; reflexivity).
  rewrite forallb_forall in H. rewrite <- (ascii_N_embedding c), <- (N2Nat.id (N_of_ascii c)). apply H. apply in_seq.
  pose proof (N_ascii_bounded c). lia.
Qed.

Lemma string_no_ctrl s : no_ctrl (Canonical.write_json_string s) = true.
Proof.
  unfold Canonical.write_json_string. assert (no_ctrl (Canonical.escape_all s) = true) as H.
  { induction s as [|c s IH]; [done|]. cbn [Canonical.escape_all]. by rewrite no_ctrl_app, escape_no_ctrl, IH. }
  cbn. rewrite ?no_ctrl_app, H. done.
Qed.

Lemma digits_no_ctrl n s : no_ctrl s = true -> no_ctrl (pretty_N_go n s) = true.
Proof.
  revert s. induction (N.lt_wf_0 n) as [n _ IH]. intros s Hs. destruct (decide (0 < n)%N) as [Hn|Hn].
  - rewrite pretty_N_go_step by done. apply IH; [by apply N.div_lt|]. cbn. rewrite Hs, andb_true_r.
    assert (n `mod` 10 < 10)%N as Hm by (apply N.mod_lt; lia). pose proof (CanonicalText.pretty_char_digit (n `mod` 10) Hm) as Hd.
    destruct Hd as [Hd _]. unfold CanonicalText.is_digit in Hd. apply andb_prop in Hd as [Hd _]. apply N.leb_le in Hd. apply Z.leb_le. lia.
  - assert (n = 0%N) as -> by lia. by rewrite pretty_N_go_0.
Qed.

Lemma pretty_no_ctrl (i : Z) : no_ctrl (pretty i) = true.
Proof.
  assert (forall n : N, no_ctrl (pretty n) = true) as H.
  { intros n. unfold pretty, pretty_N. case_decide; [done|]. by apply digits_no_ctrl. }
  destruct i as [|q|q]; [done|apply (H (Npos q))|]. change (no_ctrl (String "-" (pretty (Npos q))) = true). cbn [no_ctrl]. by rewrite H.
Qed.

Lemma sequence_Ok {A} (l : list (result Canonical.CanonicalJsonError A)) ts :
  Canonical.sequence l = Ok ts -> Forall2 (fun r t => r = Ok t) l ts.
Proof.
  revert ts. induction l as [|r l IH]; intros ts; [intros [= <-]; constructor|]. cbn.
  intros (t & Ht & (ts' & Hts & [= <-])%bind_ok)%bind_ok. constructor; auto.
Qed.

Lemma sequence_no_ctrl l ts : Canonical.sequence l = Ok ts -> Forall (fun r => forall t, r = Ok t -> no_ctrl t = true) l ->
  Forall (fun t => no_ctrl t = true) ts.
Proof.
  intros H%sequence_Ok Hl. apply Forall_forall. intros t Ht. apply list_elem_of_lookup in Ht as (i & Hi).
  destruct (Forall2_lookup_r _ _ _ _ _ H Hi) as (r & Hr & ->). by apply (Forall_lookup_1 _ _ _ _ Hl Hr).
Qed.

Lemma canonical_no_ctrl nfc show v t : CanonicalText.float_free v = true -> Canonical.encode_canonical nfc show v = Ok t -> no_ctrl t = true.
Proof.
  revert t. induction v as [|b|[i|bits]|s|xs IH|fs IH] using json_ind'; intros t Hff Ht; try discriminate Hff.
  - by injection Ht as <-.
  - injection Ht as <-. by destruct b.
  - injection Ht as <-. apply pretty_no_ctrl.
  - injection Ht as <-. apply string_no_ctrl.
  - cbn [CanonicalText.float_free] in Hff. rewrite forallb_forall in Hff. cbn [Canonical.encode_canonical] in Ht.
    apply bind_ok in Ht as (ts & Hts & [= <-]). rewrite !no_ctrl_app, no_ctrl_join; [done|done|].
    eapply sequence_no_ctrl; [exact Hts|]. apply Forall_fmap. rewrite Forall_forall in IH |- *. intros v Hv u Hu.
    apply (IH v Hv); [|done]. apply Hff. by apply list_elem_of_In.
  - cbn [CanonicalText.float_free] in Hff. rewrite forallb_forall in Hff. cbn [Canonical.encode_canonical] in Ht.
    apply bind_ok in Ht as (ts & Hts & [= <-]). rewrite !no_ctrl_app, no_ctrl_join; [done|done|].
    eapply sequence_no_ctrl; [exact Hts|]. apply Forall_fmap.
    eapply (Forall_impl (fun kv : string * result _ string => forall u, kv.2 = Ok u -> no_ctrl u = true)).
    + rewrite BinaryFormat.sort_entries_perm. apply Forall_fmap. rewrite Forall_forall in IH |- *. intros kv Hv u Hu.
      apply (IH kv Hv); [|done]. apply Hff. by apply list_elem_of_In.
    + intros [k r] Hr u. unfold compose, Canonical.member. cbn [snd fst]. intros (w & -> & [= <-])%bind_ok.
      rewrite !no_ctrl_app, string_no_ctrl. cbn. by apply Hr.
Qed.

(** ** The proof log *)

(** SHA-256 digests are 32 bytes. *)
Definition sha_law (x : store_lib) : Prop :=
  forall m, length (Crypto.sha256 (crypto x) m) = 32%nat /\ is_bytes (Crypto.sha256 (crypto x) m).
(** serde_json reads the canonical text of a value that is nested less deep
    than its recursion limit as the normal form of the value. *)
Definition parse_law (x : store_lib) : Prop := forall v t,
  CanonicalText.float_free v = true -> Cbor.jwf (CanonicalText.normal_json (nfc x) v) -> (json_depth v < 128)%nat ->
  Canonical.canonicalize (nfc x) (show_f64 x) v = Ok t -> from_str x t = Ok (CanonicalText.normal_json (nfc x) v).

(** An event without doubles, nested below the recursion limit of the reader,
    and its text, which as a Rust string is UTF-8. *)
Record storable (x : store_lib) (v : json) (t : string) : Prop := {
  storable_float : CanonicalText.float_free v = true;
  storable_wf : Cbor.jwf (CanonicalText.normal_json (nfc x) v);
  storable_depth : (json_depth v < 128)%nat;
  storable_text : Canonical.canonicalize (nfc x) (show_f64 x) v = Ok t;
  storable_utf8 : valid_utf8 (bytes_of_str t) = true
}.

(** The texts have the same SHA-256 digest. *)
Definition same_digest (x : store_lib) (s t : string) : Prop :=
  Crypto.sha256 (crypto x) (bytes_of_str s) = Crypto.sha256 (crypto x) (bytes_of_str t).
(** A proper part of the event text has, in a record of this event, the
    checksum of the whole text. *)
Definition torn_collision (x : store_lib) (t : string) : Prop := exists t' r, t = t' +:+ r /\ r <> "" /\
  same_digest x (hashref x t +:+ String TAB t') (hashref x t +:+ String TAB t).

Section log.
Context (x : store_lib) (Hsha : sha_law x) (Hparse : parse_law x).

Lemma hashref_inj s t : hashref x s = hashref x t -> same_digest x s t.
Proof using Hsha. unfold hashref, Crypto.sha256_hashref. intros H. apply Crypto.hash_text_inj in H; [done|apply Hsha..]. Qed.

Lemma hex_chars (f : ascii -> bool) bs : all_below 16 (fun n => f (hex_digit n)) = true -> is_bytes bs ->
  Forall (fun c => f c = true) (String.list_ascii_of_string (hex bs)).
Proof.
  intros Hf. induction 1 as [|b bs Hb _ IH]; [constructor|]. unfold is_u8 in Hb.
  change (hex (b :: bs)) with (hex2 b +:+ hex bs). unfold hex2. rewrite !str_app_cons, str_app_nil_l.
  cbn [String.list_ascii_of_string]. constructor; [|constructor; [|done]]; apply (all_below_spec 16 _ Hf);
    [split; [apply Z.div_pos|apply Z.div_lt_upper_bound]; lia|apply Z.mod_pos_bound; lia].
Qed.

Lemma hashref_shape s : Clock.is_ascii (hashref x s) = true /\ no_ctrl (hashref x s) = true /\
  forallb (fun b => negb (is_whitespace b)) (bytes_of_str (hashref x s)) = true /\ exists r, hashref x s = String "s" r.
Proof using Hsha.
  unfold hashref, Crypto.sha256_hashref. destruct (Hsha (bytes_of_str s)) as [_ Hb].
  split; [|split; [|split]].
  - by rewrite Clock.is_ascii_app, Chain.hash_ref_ascii.
  - rewrite no_ctrl_app. cbn [andb]. change (no_ctrl "sha256:") with true. cbn [andb].
    pose proof (hex_chars (fun c => 32 <=? Z.of_N (N_of_ascii c)) _ eq_refl Hb) as H.
    revert H. generalize (hex (Crypto.sha256 (crypto x) (bytes_of_str s))). induction s0 as [|c r IH]; [done|].
    intros [Hc Hr]%Forall_cons. cbn. by rewrite Hc, IH.
  - rewrite bytes_of_str_app, forallb_app. change (forallb _ (bytes_of_str "sha256:")) with true. cbn [andb].
    pose proof (hex_chars (fun c => negb (is_whitespace (Z.of_N (N_of_ascii c)))) _ eq_refl Hb) as H.
    revert H. generalize (hex (Crypto.sha256 (crypto x) (bytes_of_str s))). induction s0 as [|c r IH]; [done|].
    intros [Hc Hr]%Forall_cons. change (bytes_of_str (String c r)) with (Z.of_N (N_of_ascii c) :: bytes_of_str r).
    cbn [forallb]. by rewrite Hc, IH.
  - eexists. rewrite str_app_cons. reflexivity.
Qed.

Lemma hashref_plain s : one_line (hashref x s) /\ has TAB (hashref x s) = false.
Proof using Hsha. apply no_ctrl_one_line. exact (proj1 (proj2 (hashref_shape s))). Qed.

(** The line of an event's record. *)
Definition record_line (t : string) : string :=
  hashref x t +:+ String TAB (record_checksum x (hashref x t) t +:+ String TAB t).

Lemma record_text_line t : record_text x (hashref x t) t = record_line t +:+ String LF "".
Proof. unfold record_text, record_line. by rewrite str_app_assoc, !str_app_cons, str_app_assoc, !str_app_cons. Qed.

Lemma splitn3_fields a b c : has TAB a = false -> has TAB b = false ->
  splitn3 (a +:+ String TAB (b +:+ String TAB c)) = (a, Some b, Some c).
Proof. intros Ha Hb. unfold splitn3. by rewrite !ActorId.split_first_app. Qed.

Lemma record_line_s t : exists r, record_line t = String "s" r.
Proof using Hsha.
  destruct (hashref_shape t) as (_ & _ & _ & r & Hr). unfold record_line.
  generalize (String TAB (record_checksum x (hashref x t) t +:+ String TAB t)). intros u. rewrite Hr, str_app_cons. by eexists.
Qed.

Lemma record_line_ok v t : storable x v t -> one_line (record_line t) /\
  forall n, parse_record x n (record_line t) = Ok (Some (hashref x t, CanonicalText.normal_json (nfc x) v)).
Proof using Hsha Hparse.
  intros [Hf Hw Hd Ht Hu]. pose proof (canonical_no_ctrl _ _ _ _ Hf Ht) as Hc.
  destruct (hashref_plain t) as [[H1 H2] H3]. destruct (hashref_plain (hashref x t +:+ String TAB t)) as [[H4 H5] H6].
  apply no_ctrl_one_line in Hc as [[H7 H8] H9]. fold (record_checksum x (hashref x t) t) in H4, H5, H6. split.
  - split; unfold record_line; rewrite !ActorId.has_app; cbn [ActorId.has]; rewrite !ActorId.has_app; cbn [ActorId.has].
    + by rewrite H1, H4, H7.
    + by rewrite H2, H5, H8.
  - intros n. unfold parse_record. destruct (record_line_s t) as [r Hr]. rewrite Hr at 2. rewrite (blank_cons "s" r) by done.
    unfold record_line at 1. rewrite valid_ascii_app by exact (proj1 (hashref_shape _)).
    assert (valid_utf8 (bytes_of_str (String TAB (record_checksum x (hashref x t) t +:+ String TAB t))) = true) as ->.
    { rewrite valid_tab, valid_ascii_app by exact (proj1 (hashref_shape _)). by rewrite valid_tab. }
    cbn [negb]. unfold record_line. rewrite splitn3_fields by done. cbn [ok_or mbind result_bind]. rewrite !String.eqb_refl. cbn [negb].
    by rewrite (Hparse v t Hf Hw Hd Ht).
Qed.

(** ** Escaped fields *)

Lemma unescape_escape_byte s b r : is_u8 b ->
  unescape_bytes s (escape_byte b ++ r) = (out ← unescape_bytes s r; Ok (encode_char b ++ out)).
Proof.
  intros Hb. unfold is_u8 in Hb. unfold escape_byte.
  destruct (Z.eqb_spec b 37) as [->|H1]; [cbn; by destruct (unescape_bytes s r)|].
  destruct (Z.eqb_spec b 9) as [->|H2]; [cbn; by destruct (unescape_bytes s r)|].
  destruct (Z.eqb_spec b 10) as [->|H3]; [cbn; by destruct (unescape_bytes s r)|].
  destruct (Z.eqb_spec b 13) as [->|H4]; [cbn; by destruct (unescape_bytes s r)|].
  unfold encode_char. destruct (Z.ltb_spec b 0x80) as [Hlt|Hge].
  - cbn [app unescape_bytes]. destruct (Z.eqb_spec b 37); [done|]. by destruct (unescape_bytes s r).
  - destruct (Z.ltb_spec b 0x800) as [_|?]; [|lia]. cbn [app unescape_bytes].
    assert (0 <= b / 64 < 4) by (split; [apply Z.div_pos|apply Z.div_lt_upper_bound]; lia).
    assert (0 <= b mod 64 < 64) by (apply Z.mod_pos_bound; lia).
    destruct (Z.eqb_spec (0xC0 + b / 64) 37); [lia|]. destruct (Z.eqb_spec (0x80 + b mod 64) 37); [lia|].
    by destruct (unescape_bytes s r).
Qed.

(** What comes back: the bytes of the field read as characters. *)
Lemma unescape_escape_field s : unescape_field x (escape_field s) = Ok (str_of_chars (bytes_of_str s)).
Proof.
  unfold unescape_field, escape_field.
  assert (forall bs, is_bytes bs -> is_bytes (flat_map escape_byte bs)) as Hb.
  { induction 1 as [|b bs Hb _ IH]; [constructor|]. cbn. apply Forall_app. split; [|done]. revert b Hb.
    assert (all_below 256 (fun b => forallb (fun c => (0 <=? c) && (c <? 256)) (escape_byte b)) = true) as H by (vm_compute; reflexivity).
    intros b Hb. apply Forall_forall. intros c Hc. pose proof (all_below_spec 256 _ H b Hb) as H'. rewrite forallb_forall in H'.
    apply list_elem_of_In in Hc. specialize (H' c Hc). unfold is_u8. lia. }
  rewrite bytes_of_str_of_bytes by (apply Hb, bytes_of_str_bytes).
  assert (forall w bs, is_bytes bs -> unescape_bytes w (flat_map escape_byte bs) = Ok (flat_map encode_char bs)) as Hu.
  { intros w. induction 1 as [|b bs Hb' _ IH]; [done|]. cbn [flat_map]. rewrite unescape_escape_byte by done. by rewrite IH. }
  rewrite Hu by apply bytes_of_str_bytes. cbn [mbind result_bind]. unfold from_utf8, valid_utf8.
  rewrite decode_encode; [done|]. eapply Forall_impl; [apply bytes_of_str_bytes|]. intros b Hb'. unfold is_u8 in Hb'. left. lia.
Qed.

Lemma str_of_chars_ascii s : str_of_chars (bytes_of_str s) = s <-> Clock.is_ascii s = true.
Proof.
  split.
  - intros E. assert (length (flat_map encode_char (bytes_of_str s)) = length (bytes_of_str s)) as Hl.
    { unfold str_of_chars in E. apply (f_equal String.length) in E. rewrite (length_bytes_of_str s), <- E.
      unfold str_of_bytes. generalize (flat_map encode_char (bytes_of_str s)). clear. induction l as [|b l IH]; [done|]. cbn. by rewrite IH. }
    clear E. revert Hl. induction s as [|c s IH]; [done|]. change (bytes_of_str (String c s)) with (Z.of_N (N_of_ascii c) :: bytes_of_str s).
    assert (forall l, (length l <= length (flat_map encode_char l))%nat) as Hle.
    { induction l as [|b l IHl]; [done|]. cbn [flat_map]. rewrite length_app. cbn [length].
      pose proof (encode_char_ne b). destruct (encode_char b); [done|]. cbn [length]. lia. }
    specialize (Hle (bytes_of_str s)). cbn [flat_map length Clock.is_ascii]. rewrite length_app. intros Hl.
    unfold encode_char in Hl at 1. destruct (Z.ltb_spec (Z.of_N (N_of_ascii c)) 0x80) as [Hlt|Hge].
    + cbn [andb]. apply IH. cbn [length] in Hl. lia.
    + exfalso. repeat case_match; cbn [length] in Hl; lia.
  - intros H. unfold str_of_chars. by rewrite str_of_ascii, str_of_bytes_of_str.
Qed.

End log.

(** ** Revocations in key order *)

Lemma key_lt_irrefl k : key_lt k k = false.
Proof. unfold key_lt. by rewrite !str_lt_irrefl, andb_false_r. Qed.

Lemma key_lt_iff a b : key_lt a b = true <-> str_lt a.1 b.1 = true \/ a.1 = b.1 /\ str_lt a.2 b.2 = true.
Proof. unfold key_lt. by rewrite orb_true_iff, andb_true_iff, String.eqb_eq. Qed.

Lemma key_lt_trans a b c : key_lt a b = true -> key_lt b c = true -> key_lt a c = true.
Proof.
  rewrite !key_lt_iff. intros [H1|[E1 H1]] [H2|[E2 H2]].
  - left. by eapply str_lt_trans.
  - left. by rewrite <- E2.
  - left. by rewrite E1.
  - right. split; [congruence|]. by eapply str_lt_trans.
Qed.

Lemma key_lt_total a b : a <> b -> key_lt a b = false -> key_lt b a = true.
Proof.
  intros Hne H. apply key_lt_iff. destruct (str_lt b.1 a.1) eqn:E1; [by left|]. right.
  destruct (str_lt a.1 b.1) eqn:E2; [exfalso; assert (key_lt a b = true) by (apply key_lt_iff; by left); congruence|].
  pose proof (str_lt_total _ _ E2 E1) as E. split; [done|]. destruct (str_lt b.2 a.2) eqn:E3; [done|]. exfalso.
  destruct (str_lt a.2 b.2) eqn:E4; [assert (key_lt a b = true) by (apply key_lt_iff; by right); congruence|].
  pose proof (str_lt_total _ _ E4 E3). apply Hne. destruct a, b; cbn in *; congruence.
Qed.

Abbreviation in_order := (StronglySorted (fun a b : key * string => key_lt a.1 b.1 = true)).

Lemma bt_insert_elem k v l r : r ∈ bt_insert k v l -> r = (k, v) \/ r ∈ l.
Proof.
  induction l as [|[k' v'] l IH]; cbn; [set_solver|]. case_bool_decide; [subst; set_solver|]. case_match; [set_solver|].
  intros [->|?%IH]%elem_of_cons; set_solver.
Qed.

Lemma bt_insert_sorted k v l : in_order l -> in_order (bt_insert k v l).
Proof.
  induction 1 as [|[k' v'] l Hs IH Hf]; cbn; [repeat constructor|]. case_bool_decide as E; [subst; by constructor|].
  destruct (key_lt k k') eqn:Elt.
  - constructor; [by constructor|]. constructor; [done|]. eapply Forall_impl; [exact Hf|]. intros r Hr. cbn in *. by eapply key_lt_trans.
  - constructor; [done|]. apply Forall_forall. intros r [->|Hr]%bt_insert_elem; [cbn; by apply key_lt_total|].
    rewrite Forall_forall in Hf. by apply Hf.
Qed.

Lemma bt_get_insert k v l k' : bt_get k' (bt_insert k v l) = if bool_decide (k' = k) then Some v else bt_get k' l.
Proof.
  induction l as [|[j w] l IH]; [done|]. cbn [bt_insert bt_get]. destruct (decide (k = j)) as [<-|E1].
  - rewrite bool_decide_eq_true_2 by done. cbn [bt_get]. by case_bool_decide.
  - rewrite (bool_decide_eq_false_2 (k = j)) by done. destruct (key_lt k j); cbn [bt_get]; [done|]. rewrite IH. repeat case_bool_decide; congruence.
Qed.

Lemma bt_insert_last k v l : Forall (fun r => key_lt r.1 k = true) l -> bt_insert k v l = l ++ [(k, v)].
Proof.
  induction 1 as [|[j w] l Hj _ IH]; [done|]. cbn in *. case_bool_decide as E; [subst; by rewrite key_lt_irrefl in Hj|].
  destruct (key_lt k j) eqn:E'; [pose proof (key_lt_trans _ _ _ Hj E') as H; by rewrite key_lt_irrefl in H|]. by rewrite IH.
Qed.

Lemma bt_rebuild l : in_order l -> foldl (fun m r => bt_insert r.1 r.2 m) [] l = l.
Proof.
  intros Hs. assert (forall acc, in_order (acc ++ l) -> foldl (fun m r => bt_insert r.1 r.2 m) acc l = acc ++ l) as H;
    [|by apply (H [])].
  clear Hs. induction l as [|[k v] l IH]; intros acc Hs; cbn [foldl]; [by rewrite app_nil_r|]. cbn [fst snd].
  rewrite bt_insert_last.
  - replace (acc ++ (k, v) :: l) with ((acc ++ [(k, v)]) ++ l) in * by by rewrite <- app_assoc. by apply IH.
  - clear IH. induction acc as [|r acc IHa]; [constructor|]. cbn in Hs. inversion Hs as [|? ? Hs' Hf]; subst. constructor; [|by apply IHa].
    rewrite Forall_app in Hf. destruct Hf as [_ Hf]. by apply Forall_cons in Hf as [? _].
Qed.

(** A revocation that survives its file: ASCII, and not blank as a line. *)
Definition rev_text (r : key * string) : string :=
  escape_field r.1.1 +:+ String TAB (escape_field r.1.2 +:+ String TAB (escape_field r.2)).
Definition durable (r : key * string) : Prop :=
  Clock.is_ascii r.1.1 = true /\ Clock.is_ascii r.1.2 = true /\ Clock.is_ascii r.2 = true /\ blank (rev_text r) = false.

Lemma revocation_line_text r : revocation_line r = rev_text r +:+ String LF "".
Proof. unfold revocation_line, rev_text. by rewrite str_app_assoc, !str_app_cons, str_app_assoc, !str_app_cons. Qed.

Lemma escape_ascii s : Clock.is_ascii s = true -> Clock.is_ascii (escape_field s) = true /\
  has TAB (escape_field s) = false /\ has LF (escape_field s) = false /\ has CR (escape_field s) = false.
Proof.
  induction s as [|c s IH]; [done|]. cbn [Clock.is_ascii]. intros [Hc Hs]%andb_prop. specialize (IH Hs).
  assert (escape_field (String c s) = str_of_bytes (escape_byte (Z.of_N (N_of_ascii c))) +:+ escape_field s) as ->.
  { unfold escape_field. change (bytes_of_str (String c s)) with (Z.of_N (N_of_ascii c) :: bytes_of_str s). cbn [flat_map]. apply str_of_bytes_app. }
  assert (all_below 128 (fun b => let e := str_of_bytes (escape_byte b) in
    Clock.is_ascii e && negb (has TAB e) && negb (has LF e) && negb (has CR e)) = true) as H by (vm_compute; reflexivity).
  pose proof (all_below_spec 128 _ H (Z.of_N (N_of_ascii c)) ltac:(lia)) as Hb. cbn beta zeta in Hb.
  apply andb_prop in Hb as [[[H1 H2]%andb_prop H3]%andb_prop H4]. apply negb_true_iff in H2, H3, H4.
  rewrite Clock.is_ascii_app, !ActorId.has_app. destruct IH as (-> & -> & -> & ->). by rewrite H1, H2, H3, H4.
Qed.

(** ** Executions *)

Inductive op :=
| OpAppend (e : json) (f : fault)
| OpInsert (target_kind target_id effective_at : string) (f : fault)
| OpPut (bundle_id bytes : string) (f : put_fault)
| OpCompact (f g : fault).
Definition step (x : store_lib) (s : FileStore) (o : op) : FileStore :=
  match o with
  | OpAppend e f => (append x s e f).1
  | OpInsert k i e f => (insert s k i e f).1
  | OpPut i b f => (put x s i b f).1
  | OpCompact f g => (compact x s f g).1
  end.
Definition fresh (root : string) : FileStore := mk_FileStore root empty_disk empty_state.

(** Appends complete or stop before they write; the other operations may
    stop anywhere. *)
Definition op_ok (x : store_lib) (o : op) : Prop :=
  match o with
  | OpAppend e f => (exists t, storable x e t) /\ (f = NoFault \/ exists m, f = FailOpen m)
  | OpInsert k i e _ => durable ((k, i), e)
  | _ => True
  end.

(** The revocations in memory, and those of the last snapshot whose rename
    took place. *)
Definition renamed (f : fault) : bool := match f with NoFault | FailSync _ => true | _ => false end.
Definition revoked_after (md : revmap * revmap) (o : op) : revmap * revmap :=
  match o with
  | OpInsert k i e f => let m := bt_insert (k, i) e md.1 in (m, if renamed f then m else md.2)
  | OpCompact NoFault g => (md.1, if renamed g then md.1 else md.2)
  | _ => md
  end.

Section reopen.
Context (x : store_lib) (Hsha : sha_law x) (Hparse : parse_law x).
#[local] Abbreviation norm := (CanonicalText.normal_json (nfc x)).

Lemma rev_line_ok r : durable r -> one_line (rev_text r) /\ forall n, parse_revocation x n (rev_text r) = Ok (Some r).
Proof.
  intros (H1 & H2 & H3 & Hbl). destruct r as [[k i] e]. unfold rev_text in *. cbn [fst snd] in *.
  destruct (escape_ascii k H1) as (A1 & T1 & L1 & C1), (escape_ascii i H2) as (A2 & T2 & L2 & C2), (escape_ascii e H3) as (A3 & T3 & L3 & C3).
  split.
  - split; rewrite !ActorId.has_app; cbn [ActorId.has]; rewrite !ActorId.has_app; cbn [ActorId.has].
    + by rewrite L1, L2, L3.
    + by rewrite C1, C2, C3.
  - intros n. unfold parse_revocation. rewrite Hbl. rewrite valid_ascii_app by done.
    rewrite valid_tab, valid_ascii_app, valid_tab by done.
    assert (valid_utf8 (bytes_of_str (escape_field e)) = true) as ->.
    { rewrite <- (str_app_nil_r (escape_field e)). by rewrite valid_ascii_app. }
    cbn [negb]. rewrite splitn3_fields by done. cbn [ok_or unwrap_or mbind result_bind].
    rewrite !unescape_escape_field. cbn [mbind result_bind]. by rewrite !(proj2 (str_of_chars_ascii _)).
Qed.

Record log_inv (s : FileStore) (ws : list (json * string)) : Prop := {
  log_ok : Forall (fun w => storable x w.1 w.2) ws;
  log_order : proof_order (state s) = (fun w => hashref x w.2) <$> ws;
  log_nodup : NoDup (proof_order (state s));
  log_payloads : proof_payloads (state s) = list_to_map ((fun w => (hashref x w.2, w.1)) <$> ws);
  log_file : unwrap_or (proof_log (disk s)) "" = text_of ((fun w => record_line x w.2) <$> ws)
}.
Record rev_inv (s : FileStore) (md : revmap * revmap) : Prop := {
  rev_mem : revocations (state s) = md.1;
  rev_sorted : in_order md.1 /\ in_order md.2;
  rev_durable : Forall durable md.1 /\ Forall durable md.2;
  rev_text_file : unwrap_or (rev_file (disk s)) "" = text_of (rev_text <$> md.2)
}.

Lemma log_keys s ws : log_inv s ws -> ((fun w => (hashref x w.2, w.1)) <$> ws).*1 = proof_order (state s).
Proof. intros I. rewrite (log_order _ _ I), <- list_fmap_compose. done. Qed.

Lemma log_fresh s ws h : log_inv s ws -> proof_payloads (state s) !! h = None <-> h ∉ proof_order (state s).
Proof. intros I. rewrite (log_payloads _ _ I), <- not_elem_of_list_to_map. by rewrite (log_keys _ _ I). Qed.

Lemma log_payload s ws h v : log_inv s ws -> proof_payloads (state s) !! h = Some v <-> exists t, (v, t) ∈ ws /\ h = hashref x t.
Proof.
  intros I. rewrite (log_payloads _ _ I), <- elem_of_list_to_map by (rewrite (log_keys _ _ I); exact (log_nodup _ _ I)).
  rewrite list_elem_of_fmap. split.
  - intros ([v' t] & [= -> ->] & Hin). by exists t.
  - intros (t & Hin & ->). by exists (v, t).
Qed.

Lemma text_of_snoc ls l : text_of (ls ++ [l]) = text_of ls +:+ l +:+ String LF "".
Proof. rewrite text_of_app. unfold text_of at 2. done. Qed.

Lemma canonical_ok v t : storable x v t -> canonical x v = Ok t.
Proof. intros [_ _ _ Ht _]. unfold canonical. by rewrite Ht. Qed.

Lemma append_inv s ws e t f : log_inv s ws -> storable x e t -> (f = NoFault \/ exists m, f = FailOpen m) ->
  exists ws', log_inv (append x s e f).1 ws'.
Proof.
  intros I Hst Hf. unfold append. rewrite (canonical_ok e t Hst). destruct (proof_payloads (state s) !! hashref x t) eqn:Eh; [by exists ws|].
  destruct Hf as [->|[m ->]]; cbn [fault_result append_file fst]; [|exists ws; by destruct I].
  apply (log_fresh s ws) in Eh; [|done]. exists (ws ++ [(e, t)]). pose proof I as [H1 H2 H3 H4 H5]. split; cbn [state disk proof_order proof_payloads proof_log].
  - apply Forall_app. split; [done|]. by constructor.
  - by rewrite H2, fmap_app.
  - apply NoDup_app. split; [done|]. split; [|apply NoDup_singleton]. intros h Hh ->%list_elem_of_singleton. done.
  - rewrite fmap_app. cbn [fmap list_fmap fst snd]. rewrite list_to_map_snoc by by rewrite (log_keys _ _ I). by rewrite H4.
  - cbn [unwrap_or]. rewrite H5, fmap_app. cbn [fmap list_fmap]. by rewrite text_of_snoc, record_text_line.
Qed.

Lemma log_text_ok ws (m : gmap string json) : (forall w, w ∈ ws -> storable x w.1 w.2 /\ m !! hashref x w.2 = Some w.1) ->
  log_text x ((fun w => hashref x w.2) <$> ws) m = (text_of ((fun w => record_line x w.2) <$> ws), None).
Proof.
  induction ws as [|[e t] ws IH]; intros H; [done|]. cbn [fmap list_fmap log_text fst snd].
  destruct (H (e, t) ltac:(left)) as [Hst Hm]. cbn [fst snd] in Hst, Hm. rewrite Hm, (canonical_ok e t Hst), IH by (intros; apply H; by right).
  by rewrite text_of_cons, record_text_line, str_app_assoc, str_app_cons, str_app_nil_l.
Qed.

Lemma compact_inv s ws f g : log_inv s ws -> exists ws', log_inv (compact x s f g).1 ws'.
Proof.
  intros I. exists ws. pose proof I as [H1 H2 H3 H4 H5]. unfold compact, persist_proof_log. rewrite H2, log_text_ok.
  2: { intros [e t] Hw. rewrite Forall_forall in H1. split; [by apply (H1 (e, t))|]. apply (log_payload s ws _ _ I). by exists t. }
  unfold persist_revocations. destruct f, g; cbn; split; cbn; done.
Qed.

Lemma log_step s ws o : log_inv s ws -> op_ok x o -> exists ws', log_inv (step x s o) ws'.
Proof.
  intros I Ho. destruct o as [e f|k i e f|i b f|f g]; cbn [step].
  - destruct Ho as [[t Ht] Hf]. by eapply append_inv.
  - exists ws. unfold insert, persist_revocations. destruct (replace_file _ _ _ f) as [file tmp]. by destruct I.
  - exists ws. unfold put. destruct (i =? "")%string; [done|]. destruct (put_files _ _ _ _ _) as [files r]. by destruct I.
  - by eapply compact_inv.
Qed.

Lemma persist_rev_file d m f : unwrap_or (rev_file (persist_revocations d m f).1) "" =
  if renamed f then text_of (rev_text <$> m) else unwrap_or (rev_file d) "".
Proof.
  assert (str_join "" (revocation_line <$> m) = text_of (rev_text <$> m)) as E.
  { unfold text_of. rewrite <- list_fmap_compose. f_equal. apply list_fmap_ext. intros i r _. apply revocation_line_text. }
  unfold persist_revocations. destruct f; cbn; by rewrite ?E.
Qed.

Lemma rev_step s md o : rev_inv s md -> op_ok x o -> (exists ws, log_inv s ws) ->
  rev_inv (step x s o) (revoked_after md o).
Proof.
  intros I Ho [ws L]. pose proof I as [H1 [H2 H2'] [H3 H3'] H4]. destruct o as [e f|k i e f|i b f|f g]; cbn [step revoked_after].
  - unfold append. destruct (canonical x e) as [t|]; [|done]. destruct (proof_payloads (state s) !! hashref x t); [done|].
    destruct (fault_result f); by destruct I.
  - unfold insert. pose proof (persist_rev_file (disk s) (bt_insert (k, i) e (revocations (state s))) f) as Hp. rewrite H1 in *.
    destruct (persist_revocations _ _ f) as [d r]. cbn [fst snd] in *. pose proof (bt_insert_sorted (k, i) e _ H2) as Hs.
    assert (Forall durable (bt_insert (k, i) e md.1)) as Hd.
    { apply Forall_forall. intros q [->|Hq]%bt_insert_elem; [done|]. rewrite Forall_forall in H3. by apply H3. }
    destruct (renamed f); split; cbn [fst snd state disk revocations]; auto; congruence.
  - unfold put. destruct (i =? "")%string; [done|]. destruct (put_files _ _ _ _ _) as [files r]. by destruct I.
  - unfold compact, persist_proof_log. pose proof L as [L1 L2 L3 L4 L5]. rewrite L2, log_text_ok.
    2: { intros [e t] Hw. rewrite Forall_forall in L1. split; [by apply (L1 (e, t))|]. apply (log_payload s ws _ _ L). by exists t. }
    destruct f; cbn [replace_file fault_result]; try by (split; cbn [fst snd state disk revocations]; auto).
    match goal with |- context [persist_revocations ?d ?m g] => pose proof (persist_rev_file d m g) as Hp;
      destruct (persist_revocations d m g) as [d' r] end.
    cbn [fst snd rev_file] in *. rewrite H1 in Hp. destruct (renamed g); split; cbn [fst snd state disk revocations]; auto; congruence.
Qed.

Lemma fold_file_lines {A B} parse (f : B -> A -> B) file s :
  fold_file parse f file s = fold_lines parse f 0 (lines (unwrap_or file "")) s.
Proof. by destruct file. Qed.

Lemma fold_file_text {A B} parse (f : B -> A -> B) file ls rs s : unwrap_or file "" = text_of ls -> Forall one_line ls ->
  Forall2 (fun l r => forall n, parse n l = Ok (Some r)) ls rs -> fold_file parse f file s = Ok (foldl f s rs).
Proof.
  intros E H1 H2. rewrite fold_file_lines, E. rewrite <- (str_app_nil_r (text_of ls)), lines_text_of by done.
  change (lines "") with (@nil string). rewrite app_nil_r. by apply fold_lines_ok.
Qed.

Lemma add_records (rs : list (string * json)) st : NoDup (proof_order st ++ rs.*1) ->
  (forall h, is_Some (proof_payloads st !! h) <-> h ∈ proof_order st) ->
  foldl add_record st rs = mk_State (proof_order st ++ rs.*1) (list_to_map (reverse rs) ∪ proof_payloads st) (revocations st).
Proof.
  revert st. induction rs as [|[h v] rs IH]; intros st Hnd Hp; cbn [foldl fmap list_fmap fst].
  - rewrite app_nil_r. change (list_to_map (reverse [])) with (∅ : gmap string json). rewrite (left_id_L ∅ (∪)). by destruct st.
  - cbn [fmap list_fmap fst] in Hnd. assert (h ∉ proof_order st) as Hh.
    { intros Hin. apply NoDup_app in Hnd as (_ & Hd & _). apply (Hd h Hin). left. }
    unfold add_record at 2. cbn [fst snd]. rewrite (proj2 (eq_None_not_Some _)) by by rewrite Hp.
    rewrite IH; cbn [proof_order proof_payloads revocations].
    + rewrite <- app_assoc. cbn [app]. f_equal. rewrite reverse_cons, list_to_map_app, <- (assoc_L (∪)). f_equal.
      change (list_to_map [(h, v)]) with (<[h := v]> ∅ : gmap string json). by rewrite <- insert_union_l, (left_id_L ∅ (∪)).
    + by rewrite <- app_assoc.
    + intros j. rewrite lookup_insert_is_Some, elem_of_app, list_elem_of_singleton, Hp. split; [intros [->|[_ ?]]; auto|].
      intros [? | ->]; [|by left]. destruct (decide (h = j)); [by left|by right].
Qed.

Lemma reopen_ok s ws md : log_inv s ws -> rev_inv s md -> exists s', open x (root s) (disk s) = Ok s' /\
  proof_order (state s') = proof_order (state s) /\
  (forall h, lookup s' h = norm <$> lookup s h) /\ revocations (state s') = md.2.
Proof using Hsha Hparse.
  intros I R. pose proof I as [H1 H2 H3 H4 H5]. pose proof R as [R1 [R2 R2'] [R3 R3'] R4].
  unfold open, load. cbn [cleanup_stale_temps proof_log rev_file].
  set (rs := (fun w => (hashref x w.2, norm w.1)) <$> ws).
  assert (rs.*1 = proof_order (state s)) as Hrs by (unfold rs; rewrite H2, <- list_fmap_compose; done).
  rewrite (fold_file_text _ _ _ _ rs _ H5).
  2: { apply Forall_fmap. eapply Forall_impl; [exact H1|]. intros w Hw. by apply (record_line_ok x Hsha Hparse w.1 w.2 Hw). }
  2: { unfold rs. apply Forall2_fmap_l, Forall2_fmap_r, Forall2_same_length_lookup_2; [done|]. intros i w w' Hi Hi'.
       assert (w' = w) as -> by congruence. rewrite Forall_lookup in H1. exact (proj2 (record_line_ok x Hsha Hparse w.1 w.2 (H1 i w Hi))). }
  rewrite add_records; [|cbn; by rewrite Hrs|intros h; cbn; rewrite lookup_empty; split; [by intros []|by intros ?%elem_of_nil]].
  cbn [mbind result_bind proof_order proof_payloads revocations empty_state].
  rewrite (fold_file_text _ _ _ _ md.2 _ R4).
  2: { apply Forall_fmap. eapply Forall_impl; [exact R3'|]. intros r Hr. by apply rev_line_ok. }
  2: { apply Forall2_fmap_l, Forall2_same_length_lookup_2; [done|]. intros i r r' Hi Hi'.
       assert (r' = r) as -> by congruence. rewrite Forall_lookup in R3'. exact (proj2 (rev_line_ok r (R3' i r Hi))). }
  cbn [mbind result_bind]. eexists. split; [reflexivity|]. cbn [state].
  assert (forall l st, foldl add_revocation st l = mk_State (proof_order st) (proof_payloads st)
    (foldl (fun m r => bt_insert r.1 r.2 m) (revocations st) l)) as Hrev.
  { induction l as [|r l IH]; intros st; [by destruct st|]. cbn [foldl]. by rewrite IH. }
  rewrite Hrev. cbn [proof_order proof_payloads revocations]. rewrite (right_id_L ∅ (∪)). split; [exact Hrs|]. split; [|by apply bt_rebuild].
  intros h. unfold lookup. cbn [state proof_payloads]. apply option_eq. intros v.
  rewrite <- elem_of_list_to_map by (by rewrite fmap_reverse, reverse_Permutation, Hrs).
  rewrite elem_of_reverse. unfold rs. rewrite list_elem_of_fmap, fmap_Some. setoid_rewrite (log_payload s ws _ _ I). split.
  - intros ([e t] & [= -> ->] & Hin). exists e. split; [by exists t|done].
  - intros (e & (t & Hin & ->) & ->). by exists (e, t).
Qed.

Lemma fresh_inv r : log_inv (fresh r) [] /\ rev_inv (fresh r) ([], []).
Proof. split; split; cbn; try done; try split; try constructor. Qed.

Lemma root_step s o : root (step x s o) = root s.
Proof.
  destruct o as [e f|k i e f|i b f|f g]; cbn [step].
  - unfold append. destruct (canonical x e); [|done]. destruct (_ !! _); [done|]. by destruct (fault_result f).
  - unfold insert. by destruct (persist_revocations _ _ f).
  - unfold put. destruct (i =? "")%string; [done|]. by destruct (put_files _ _ _ _ _).
  - unfold compact. destruct (persist_proof_log _ _ _ _ f) as [d [[]|]]; [|done]. by destruct (persist_revocations _ _ g).
Qed.

Lemma run_inv r ops : Forall (op_ok x) ops -> (exists ws, log_inv (foldl (step x) (fresh r) ops) ws) /\
  rev_inv (foldl (step x) (fresh r) ops) (foldl revoked_after ([], []) ops) /\ root (foldl (step x) (fresh r) ops) = r.
Proof.
  induction ops as [|o ops IH] using rev_ind.
  - intros _. destruct (fresh_inv r) as [L R]. split; [by exists []|done].
  - intros [H Ho]%Forall_app. apply Forall_cons in Ho as [Ho _]. destruct (IH H) as ([ws L] & R & Hr). rewrite !foldl_app. cbn [foldl].
    split; [by eapply log_step|]. split; [by apply rev_step; [..|exists ws]|]. by rewrite root_step.
Qed.

Lemma omap_fmap_opt {A B C} (g : B -> C) (m : A -> option B) (l : list A) : omap (fun a => g <$> m a) l = g <$> omap m l.
Proof. induction l as [|a l IH]; [done|]. cbn. destruct (m a); cbn; by rewrite IH. Qed.

Lemma tail_norm s s' n : proof_order (state s') = proof_order (state s) -> (forall h, lookup s' h = norm <$> lookup s h) ->
  tail s' n = norm <$> tail s n.
Proof.
  intros Ho Hl. unfold tail. rewrite Ho, <- omap_fmap_opt. generalize (drop (length (proof_order (state s)) - n) (proof_order (state s))).
  induction l as [|h l IH]; [done|]. cbn [omap list_omap]. specialize (Hl h). unfold lookup in Hl. by rewrite Hl, IH.
Qed.

End reopen.

(** C13: What a store holds survives a restart.  Take any sequence of
    appends, revocations, evidence writes and compactions in which every
    appended event has no doubles and is nested less than 128 deep, every
    append completes or stops before it writes, and the fields of every
    revocation are ASCII and not all blank; evidence writes, revocations and
    compactions may be cut off at any step.  Then the directory opens.  The reopened ledger has the same
    events in the same order, each in the normal form of its canonical text,
    under the same hashes; the reopened revocations are those in memory at
    the last snapshot that was renamed into place, and memory holds all of
    them. *)
Theorem file_store_reopens x r ops (Hsha : sha_law x) (Hparse : parse_law x) (Hops : Forall (op_ok x) ops) :
  let s := foldl (step x) (fresh r) ops in
  exists s', open x r (disk s) = Ok s' /\
  (forall h, lookup s' h = CanonicalText.normal_json (nfc x) <$> lookup s h) /\
  (forall n, tail s' n = CanonicalText.normal_json (nfc x) <$> tail s n) /\
  revocations (state s) = (foldl revoked_after ([], []) ops).1 /\
  revocations (state s') = (foldl revoked_after ([], []) ops).2.
Proof.
  intros s. destruct (run_inv x r ops Hops) as ([ws L] & R & Hr). fold s in L, R, Hr.
  destruct (reopen_ok x Hsha Hparse s ws _ L R) as (s' & Ho & H1 & H2 & H3). rewrite Hr in Ho.
  exists s'. split; [done|]. split; [done|]. split; [intros n; by apply tail_norm|]. split; [exact (rev_mem _ _ R)|done].
Qed.

(** ** An append that is cut off *)

Section torn.
Context (x : store_lib) (Hsha : sha_law x) (Hparse : parse_law x).

Lemma substring_prefix n s : exists r, s = String.substring 0 n s +:+ r /\ String.length (String.substring 0 n s) = Nat.min n (String.length s).
Proof.
  revert n. induction s as [|c s IH]; intros [|n]; cbn.
  - by exists "".
  - by exists "".
  - exists (String c s). by rewrite str_app_nil_l.
  - destruct (IH n) as (r & E & El). exists r. rewrite str_app_cons. split; [by f_equal|]. by rewrite El.
Qed.

Lemma substring_full n s : (String.length s <= n)%nat -> String.substring 0 n s = s.
Proof. revert n. induction s as [|c s IH]; intros [|n] H; cbn in *; try done; try lia. by rewrite IH by lia. Qed.

Lemma app_eq_tab a b c d : has TAB a = false -> has TAB b = false -> a +:+ String TAB c = b +:+ String TAB d -> a = b /\ c = d.
Proof.
  intros Ha Hb E. pose proof (ActorId.split_first_app TAB a c Ha) as H1. rewrite E, ActorId.split_first_app in H1 by done. by injection H1.
Qed.

(** A proper part of a record is refused, or its checksum is that of a shorter
    text. *)
Lemma torn_line t p r n : record_line x t = p +:+ r -> r <> "" -> p <> "" -> is_ok (parse_record x n p) = true -> torn_collision x t.
Proof using Hsha.
  intros E Hr Hp Hok. destruct (record_line_s x Hsha t) as [u Hu]. unfold parse_record in Hok.
  destruct p as [|c p]; [done|]. assert (c = "s"%char) as ->. { rewrite Hu, str_app_cons in E. by injection E. }
  destruct (negb (valid_utf8 _)); [done|]. rewrite (blank_cons "s" p) in Hok by done. revert E Hok. generalize (String "s" p). intros q E Hok.
  destruct (hashref_plain x Hsha t) as [_ H1]. destruct (hashref_plain x Hsha (hashref x t +:+ String TAB t)) as [_ H2].
  fold (record_checksum x (hashref x t) t) in H2. unfold record_line in E. unfold splitn3 in Hok.
  destruct (ActorId.split_first TAB q) as [[a q1]|] eqn:E1; [|done]. apply ActorId.split_first_Some in E1 as [-> Ha].
  destruct (ActorId.split_first TAB q1) as [[b q2]|] eqn:E2; [|done]. apply ActorId.split_first_Some in E2 as [-> Hb].
  rewrite str_app_assoc, str_app_cons in E. apply app_eq_tab in E as [<- E]; [|done..].
  rewrite str_app_assoc, str_app_cons in E. apply app_eq_tab in E as [<- E]; [|done..].
  cbn [ok_or mbind result_bind] in Hok. destruct (String.eqb_spec (record_checksum x (hashref x t) t) (record_checksum x (hashref x t) q2)) as [Ec|];
    [|done]. apply (hashref_inj x Hsha) in Ec. by exists q2, r.
Qed.

Lemma app_prefix a b c d : a +:+ b = c +:+ d -> (String.length c <= String.length a)%nat -> exists r, a = c +:+ r /\ d = r +:+ b.
Proof.
  revert a. induction c as [|e c IH]; intros a E Hl; [rewrite str_app_nil_l in E; exists a; by rewrite str_app_nil_l|].
  destruct a as [|f a]; [cbn in Hl; lia|]. rewrite !str_app_cons in E. injection E as -> E. cbn in Hl.
  destruct (IH a E ltac:(lia)) as (r & -> & ->). exists r. by rewrite str_app_cons.
Qed.

Lemma load_ext d d' : lines (unwrap_or (proof_log d) "") = lines (unwrap_or (proof_log d') "") ->
  rev_file d = rev_file d' -> load x d = load x d'.
Proof. intros H1 H2. unfold load. by rewrite !(fold_file_lines (parse_record x)), H1, H2. Qed.

Lemma open_state r d d' s' : load x (cleanup_stale_temps d) = load x (cleanup_stale_temps d') -> open x r d' = Ok s' ->
  exists s1, open x r d = Ok s1 /\ state s1 = state s'.
Proof.
  unfold open. intros -> (st & E & [= <-])%bind_ok. rewrite E. cbn [mbind result_bind]. eexists. split; [reflexivity|done].
Qed.

Lemma append_disk s e t f : storable x e t -> lookup s (hashref x t) = None ->
  disk (append x s e f).1 = mk_Disk (append_file (proof_log (disk s)) (record_line x t +:+ String LF "") f) (proof_tmp (disk s))
    (rev_file (disk s)) (rev_tmp (disk s)) (evidence (disk s)).
Proof.
  intros Hst Hn. unfold append. rewrite (canonical_ok x e t Hst). unfold lookup in Hn. rewrite Hn, record_text_line.
  by destruct f.
Qed.

Lemma append_lookup s e t : storable x e t -> lookup s (hashref x t) = None ->
  forall h, lookup (append x s e NoFault).1 h = if bool_decide (h = hashref x t) then Some e else lookup s h.
Proof.
  intros Hst Hn h. unfold append. rewrite (canonical_ok x e t Hst). unfold lookup in *. rewrite Hn. cbn [fault_result fst state proof_payloads].
  case_bool_decide as E; [subst; apply lookup_insert_eq|by apply lookup_insert_ne].
Qed.

Lemma append_revs s e f md : rev_inv s md -> rev_inv (append x s e f).1 md.
Proof.
  intros I. unfold append. destruct (canonical x e) as [t|]; [|done]. destruct (proof_payloads (state s) !! hashref x t); [done|].
  destruct (fault_result f); by destruct I.
Qed.

Lemma torn_lines s ws t n : log_inv x s ws -> (exists e, storable x e t) ->
  let p := String.substring 0 n (record_line x t +:+ String LF "") in
  lines (unwrap_or (proof_log (disk s)) "" +:+ p) = ((fun w => record_line x w.2) <$> ws) ++ lines p /\
  ((0 < n <= String.length (record_line x t))%nat -> lines p = [p] /\ exists r, record_line x t = p +:+ r /\
     (String.length r = String.length (record_line x t) - n)%nat).
Proof using Hsha Hparse.
  intros I [e He] p. pose proof I as [H1 _ _ _ H5]. split.
  - rewrite H5. apply lines_text_of. apply Forall_fmap. eapply Forall_impl; [exact H1|]. intros w Hw.
    by apply (record_line_ok x Hsha Hparse w.1 w.2 Hw).
  - intros Hn. destruct (substring_prefix n (record_line x t +:+ String LF "")) as (r & E & El). fold p in E, El.
    rewrite str_length_app in El. cbn [String.length] in El. destruct (app_prefix _ _ _ _ E) as (r' & E' & _); [lia|].
    destruct (record_line_ok x Hsha Hparse e t He) as [[HL _] _]. rewrite E', ActorId.has_app in HL. apply orb_false_iff in HL as [HL _].
    split; [apply lines_last; [done|]; intros Ep; rewrite Ep in El; cbn in El; lia|]. exists r'. split; [done|].
    apply (f_equal String.length) in E'. rewrite str_length_app in E'. lia.
Qed.

(** The store before the append and the disk after it. *)
Context (s : FileStore) (ws : list (json * string)) (md : revmap * revmap) (L : log_inv x s ws) (R : rev_inv s md).
Context (e : json) (t m : string) (n : nat) (He : storable x e t) (Hnew : lookup s (hashref x t) = None).
#[local] Abbreviation torn_disk := (disk (append x s e (FailWrite n m)).1).
#[local] Abbreviation piece := (String.substring 0 n (record_line x t +:+ String LF "")).

Lemma torn_disk_eq : torn_disk = mk_Disk (Some (unwrap_or (proof_log (disk s)) "" +:+ piece)) (proof_tmp (disk s))
  (rev_file (disk s)) (rev_tmp (disk s)) (evidence (disk s)).
Proof using He Hnew. by rewrite (append_disk s e t (FailWrite n m) He Hnew). Qed.

Lemma torn_refused r : (0 < n < String.length (record_line x t))%nat -> is_ok (open x r torn_disk) = true -> torn_collision x t.
Proof using Hsha Hparse L He Hnew.
  intros Hn Hok. destruct (torn_lines s ws t n L (ex_intro _ e He)) as [Hls Hlp].
  destruct (Hlp ltac:(lia)) as (Hp1 & q & Hq & Hql). unfold open, load in Hok. rewrite torn_disk_eq in Hok.
  cbn [cleanup_stale_temps proof_log rev_file] in Hok. rewrite (fold_file_lines (parse_record x)) in Hok. cbn [unwrap_or] in Hok.
  rewrite Hls, Hp1, fold_lines_app in Hok. destruct (fold_lines (parse_record x) add_record 0 _ _) as [st|]; [|done].
  cbn [mbind result_bind fold_lines] in Hok. destruct (parse_record x _ piece) as [o|] eqn:Eo; [|done].
  eapply (torn_line t piece q _ Hq); [..|by rewrite Eo].
  - intros ->. cbn in Hql. lia.
  - intros Ep. rewrite Ep, str_app_nil_l in Hq. rewrite <- Hq in Hql. lia.
Qed.

Lemma torn_nothing r : root s = r -> n = 0%nat -> exists s', open x r torn_disk = Ok s' /\
  forall h, lookup s' h = CanonicalText.normal_json (nfc x) <$> lookup s h.
Proof using Hsha Hparse L R He Hnew.
  intros Hr Hn. assert (log_inv x (mk_FileStore r torn_disk (state s)) ws) as L'.
  { destruct L as [H1 H2 H3 H4 H5]. split; try done. cbn [disk]. rewrite torn_disk_eq. cbn [proof_log unwrap_or].
    assert (piece = "") as -> by (rewrite Hn; by destruct (record_line x t)). by rewrite str_app_nil_r. }
  assert (rev_inv (mk_FileStore r torn_disk (state s)) md) as R'.
  { destruct R. split; cbn [state disk]; try done. by rewrite torn_disk_eq. }
  destruct (reopen_ok x Hsha Hparse _ _ _ L' R') as (s' & Ho & _ & Hl & _). by exists s'.
Qed.

(** A whole record is read with and without its line feed. *)
Lemma whole_lines : (String.length (record_line x t) <= n)%nat -> lines piece = [record_line x t].
Proof using Hsha Hparse He L.
  intros Hn. destruct (record_line_ok x Hsha Hparse e t He) as [[HL HC] _]. destruct (decide (n = String.length (record_line x t))) as [En|Hne].
  - destruct (torn_lines s ws t n L (ex_intro _ e He)) as [_ Hlp]. destruct Hlp as (Hp1 & q & Hq & Hql).
    { destruct (record_line_s x Hsha t) as [u Hu]. rewrite En, Hu. cbn. lia. }
    rewrite Hp1. destruct q; [|cbn in Hql; lia]. rewrite str_app_nil_r in Hq. by rewrite <- Hq.
  - rewrite substring_full by (rewrite str_length_app; cbn; lia). by rewrite lines_cons, strip_cr_id by done.
Qed.

Lemma torn_whole r : root s = r -> (String.length (record_line x t) <= n)%nat -> exists s', open x r torn_disk = Ok s' /\
  forall h, lookup s' h = if bool_decide (h = hashref x t) then Some (CanonicalText.normal_json (nfc x) e)
                          else CanonicalText.normal_json (nfc x) <$> lookup s h.
Proof using Hsha Hparse L R He Hnew.
  intros Hr Hn. destruct (append_inv x s ws e t NoFault L He ltac:(by left)) as [ws' L'].
  destruct (reopen_ok x Hsha Hparse _ _ _ L' (append_revs s e NoFault _ R)) as (s' & Ho & _ & Hl & _).
  assert (root (append x s e NoFault).1 = r) as Hr' by (rewrite <- Hr; apply (root_step x s (OpAppend e NoFault))).
  rewrite Hr' in Ho. destruct (open_state r torn_disk (disk (append x s e NoFault).1) s') as (s1 & Ho1 & Hst1); [|done|].
  - apply load_ext; cbn [cleanup_stale_temps proof_log rev_file]; rewrite torn_disk_eq, (append_disk s e t NoFault He Hnew);
      cbn [proof_log rev_file append_file unwrap_or]; [|done]. destruct (torn_lines s ws t n L (ex_intro _ e He)) as [-> _].
    destruct (torn_lines s ws t (S (String.length (record_line x t))) L (ex_intro _ e He)) as [Hls' _].
    rewrite substring_full in Hls' by (rewrite str_length_app; cbn; lia). rewrite Hls', whole_lines by done. f_equal.
    destruct (record_line_ok x Hsha Hparse e t He) as [[HL HC] _]. by rewrite lines_cons, strip_cr_id by done.
  - exists s1. split; [done|]. intros h. replace (lookup s1 h) with (lookup s' h) by (unfold lookup; by rewrite Hst1).
    rewrite Hl, (append_lookup s e t He Hnew). by case_bool_decide.
Qed.
End torn.

(** C18: A torn append is never taken for an event.  In a store that such
    operations have led to, let the record of a new event, without doubles and
    nested less than 128 deep, be cut off after [n] bytes.  Then: with nothing written the store
    opens without the event; with a proper part of the record written the
    store is refused, unless the text of the event and a proper part of it,
    each after the hash of the event, have the same SHA-256 digest; with all of the record but for its line feed written the store opens and
    has the event.  Wherever it opens, the other events are as they were. *)
Theorem torn_append_detected x r ops e t n m (Hsha : sha_law x) (Hparse : parse_law x) (Hops : Forall (op_ok x) ops)
    (He : storable x e t) (Hnew : lookup (foldl (step x) (fresh r) ops) (hashref x t) = None) :
  let s := foldl (step x) (fresh r) ops in
  let d := disk (append x s e (FailWrite n m)).1 in
  let len := String.length (record_line x t) in
  ((0 < n < len)%nat -> is_ok (open x r d) = true -> torn_collision x t) /\
  ((n = 0 \/ len <= n)%nat -> exists s', open x r d = Ok s' /\ forall h, lookup s' h =
     if bool_decide (h = hashref x t) then if bool_decide (n = 0%nat) then None else Some (CanonicalText.normal_json (nfc x) e)
     else CanonicalText.normal_json (nfc x) <$> lookup s h).
Proof.
  intros s d len. destruct (run_inv x r ops Hops) as ([ws L] & R & Hr). split.
  - intros Hn. by apply (torn_refused x Hsha Hparse s ws L e t m n He Hnew r).
  - intros [Hn|Hn].
    + destruct (torn_nothing x Hsha Hparse s ws _ L R e t m n He Hnew r Hr Hn) as (s' & Ho & Hl). exists s'. split; [done|].
      intros h. rewrite Hl. case_bool_decide as E; [|done]. subst h. rewrite (bool_decide_eq_true_2 (n = 0%nat)) by done.
      change (lookup s (hashref x t) = None) in Hnew. by rewrite Hnew.
    + destruct (torn_whole x Hsha Hparse s ws _ L R e t m n He Hnew r Hr Hn) as (s' & Ho & Hl). exists s'. split; [done|].
      intros h. rewrite Hl. case_bool_decide; [|done]. rewrite bool_decide_eq_false_2; [done|].
      destruct (record_line_s x Hsha t) as [u Hu]. unfold len in Hn. rewrite Hu in Hn. cbn in Hn. lia.
Qed.

(** A revocation field survives its file exactly when it is ASCII: every
    other field comes back as the characters its bytes have as Latin-1. *)
Theorem escape_roundtrip_iff x s : unescape_field x (escape_field s) = Ok (str_of_chars (bytes_of_str s)) /\
  (unescape_field x (escape_field s) = Ok s <-> Clock.is_ascii s = true).
Proof.
  rewrite unescape_escape_field. split; [done|]. rewrite <- str_of_chars_ascii. split; [intros H; by apply Ok_inj in H|by intros ->].
Qed.

(** ** Evidence *)

Section evidence.
Context (x : store_lib) (Hsha : sha_law x).

Lemma bundle_no_dot i : has "." (bundle_name i) = false.
Proof.
  unfold bundle_name. pose proof (hex_chars (fun c => negb (Ascii.eqb c ".")) _ eq_refl (bytes_of_str_bytes i)) as H.
  revert H. generalize (hex (bytes_of_str i)). induction s as [|c s IH]; [done|]. intros [Hc Hs]%Forall_cons. cbn.
  by rewrite (proj1 (negb_true_iff _) Hc), IH.
Qed.

Lemma bundle_name_inj i j : bundle_name i = bundle_name j -> i = j.
Proof. intros H%Crypto.hex_inj; [by apply bytes_of_str_inj|apply bytes_of_str_bytes..]. Qed.

(** A name without a dot is not one with, and names with the same stem are
    told apart by what follows the dot. *)
Lemma dotted i r j r' : bundle_name i +:+ String "." r = bundle_name j +:+ String "." r' -> i = j /\ r = r'.
Proof.
  intros E. pose proof (ActorId.split_first_app "." _ r (bundle_no_dot i)) as H. rewrite E, ActorId.split_first_app in H by apply bundle_no_dot.
  injection H as H1 H2. by apply eq_sym, bundle_name_inj in H1.
Qed.
Lemma undotted i j r : bundle_name i <> bundle_name j +:+ String "." r.
Proof. intros E. pose proof (bundle_no_dot i) as H. rewrite E, ActorId.has_app in H. cbn in H. by rewrite orb_true_r in H. Qed.

Lemma ends_with_dot s : ends_with s ".tmp" = true -> exists r, s = r +:+ ".tmp".
Proof.
  unfold ends_with. intros H%Base64.ends_with_inv. exists (str_of_bytes (take (length (bytes_of_str s) - length (bytes_of_str ".tmp")) (bytes_of_str s))).
  apply bytes_of_str_inj. rewrite bytes_of_str_app. rewrite bytes_of_str_of_bytes; [done|]. apply Forall_take, bytes_of_str_bytes.
Qed.

Lemma kept i r : ~ (valid_utf8 (bytes_of_str (bundle_name i)) = true /\ ends_with (bundle_name i) ".tmp" = true) /\
  (r = ".sha256" -> ~ (valid_utf8 (bytes_of_str (bundle_name i +:+ r)) = true /\ ends_with (bundle_name i +:+ r) ".tmp" = true)).
Proof.
  split.
  - intros [_ (q & E)%ends_with_dot]. pose proof (bundle_no_dot i) as H. rewrite E, ActorId.has_app in H. cbn in H. by rewrite orb_true_r in H.
  - intros -> [_ (q & E)%ends_with_dot].
    apply (f_equal (fun s => drop (String.length s - 1) (bytes_of_str s))) in E. rewrite !bytes_of_str_app, !str_length_app in E.
    rewrite !drop_app_ge in E by (rewrite length_bytes_of_str; cbn; lia). rewrite !length_bytes_of_str in E.
    change (String.length ".sha256") with 7%nat in E. change (String.length ".tmp") with 4%nat in E.
    replace (String.length (bundle_name i) + 7 - 1 - String.length (bundle_name i))%nat with 6%nat in E by lia.
    replace (String.length q + 4 - 1 - String.length q)%nat with 3%nat in E by lia. discriminate.
Qed.

(** The store that the next start finds. *)
Definition restarted (s : FileStore) : FileStore := mk_FileStore (root s) (cleanup_stale_temps (disk s)) (state s).

Lemma restarted_lookup s i r : r = "" \/ r = ".sha256" ->
  evidence (disk (restarted s)) !! (bundle_name i +:+ r) = evidence (disk s) !! (bundle_name i +:+ r).
Proof.
  intros Hr. cbn [restarted disk cleanup_stale_temps evidence]. destruct (evidence (disk s) !! (bundle_name i +:+ r)) as [b|] eqn:E.
  - apply map_lookup_filter_Some. split; [done|]. cbn [fst]. destruct Hr as [-> | ->]; [rewrite str_app_nil_r; apply (kept i "")|by apply (kept i ".sha256")].
  - apply map_lookup_filter_None. by left.
Qed.

Lemma get_ext s s' i : root s = root s' ->
  evidence (disk s) !! bundle_name i = evidence (disk s') !! bundle_name i ->
  evidence (disk s) !! sum_name (bundle_name i) = evidence (disk s') !! sum_name (bundle_name i) -> get x s i = get x s' i.
Proof. intros Hr H1 H2. unfold get, verify_evidence_checksum, evidence_path. by rewrite H1, H2, Hr. Qed.

Lemma get_restarted s i : get x (restarted s) i = get x s i.
Proof.
  apply get_ext; [done|..].
  - rewrite <- (str_app_nil_r (bundle_name i)). apply restarted_lookup. by left.
  - apply restarted_lookup. by right.
Qed.

(** The files of a bundle after [put]. *)
Lemma put_lookup s i b f : i <> "" -> let d := disk (put x s i b f).1 in
  evidence d !! bundle_name i = match f with PutOk | PutSync _ | PutBetween _ => Some b | _ => evidence (disk s) !! bundle_name i end /\
  evidence d !! sum_name (bundle_name i) =
    match f with PutOk | PutSync _ => Some (hashref x b +:+ String LF "") | _ => evidence (disk s) !! sum_name (bundle_name i) end /\
  root (put x s i b f).1 = root s.
Proof.
  intros Hi d. unfold d, put. destruct (String.eqb_spec i "") as [|_]; [done|]. set (n := bundle_name i).
  assert (n +:+ ".tmp" <> n) as H1 by (intros E; symmetry in E; by apply undotted in E).
  assert (sum_tmp_name n <> n) as H2 by (intros E; symmetry in E; by apply undotted in E).
  assert (sum_name n <> n) as H3 by (intros E; symmetry in E; by apply undotted in E).
  assert (n +:+ ".tmp" <> sum_name n) as H4 by (intros E; apply dotted in E as [_ E]; discriminate).
  assert (sum_tmp_name n <> sum_name n) as H5 by (intros E; apply dotted in E as [_ E]; discriminate).
  unfold put_files. destruct f; cbn [fst disk with_evidence evidence root];
    repeat first [rewrite lookup_insert_eq | rewrite lookup_insert_ne by done | rewrite lookup_delete_ne by done]; done.
Qed.

Lemma put_other s i j b f : j <> i -> get x (put x s i b f).1 j = get x s j.
Proof.
  intros Hne. unfold put. destruct (i =? "")%string; [done|]. set (n := bundle_name i). set (n' := bundle_name j).
  assert (n <> n') as H0 by (intros E; by apply eq_sym, bundle_name_inj in E).
  assert (forall r, n +:+ String "." r <> n') as H1 by (intros r E; symmetry in E; by apply undotted in E).
  assert (n <> sum_name n') as H2 by (intros E; by apply undotted in E).
  assert (forall r, n +:+ String "." r <> sum_name n') as H3 by (intros r E; by apply dotted in E as [E _]; subst).
  assert (forall files, (put_files x files n b f).1 !! n' = files !! n' /\ (put_files x files n b f).1 !! sum_name n' = files !! sum_name n') as H.
  { intros files. unfold put_files. destruct f; cbn [fst];
      repeat first [rewrite lookup_insert_ne by first [done|apply H1|apply H3] | rewrite lookup_delete_ne by first [done|apply H1|apply H3]]; done. }
  destruct (put_files x (evidence (disk s)) n b f) as [files r] eqn:E. specialize (H (evidence (disk s))). rewrite E in H. destruct H as [Ha Hb].
  apply get_ext; [done|exact Ha|exact Hb].
Qed.

Lemma sum_verifies s i b : evidence (disk s) !! sum_name (bundle_name i) = Some (hashref x b +:+ String LF "") ->
  verify_evidence_checksum x s (bundle_name i) b = Ok tt.
Proof using Hsha.
  intros E. unfold verify_evidence_checksum. rewrite E. cbn [ok_or mbind result_bind].
  destruct (hashref_shape x Hsha b) as (Ha & _ & Hw & r & Hr). rewrite valid_ascii_app by done. change (valid_utf8 (bytes_of_str (String LF ""))) with true.
  cbn [negb]. rewrite trim_line by (done || rewrite Hr; discriminate). by rewrite String.eqb_refl.
Qed.
End evidence.

(** Writing evidence.  After a restart: a [put] that completed, or whose
    last directory sync failed, is read back; one that stopped before its
    first rename has changed nothing; one that stopped between its two
    renames leaves the new bytes beside the old checksum, so that reading
    fails, unless the bytes have the SHA-256 digest of the old ones.
    Other bundles never change, and no bytes are returned that were not
    written. *)
Theorem evidence_put_exact x s i b f (Hsha : sha_law x) (Hi : i <> "") :
  let s' := restarted (put x s i b f).1 in
  match f with
  | PutOk | PutSync _ => get x s' i = Ok (Some b)
  | PutBetween _ =>
    (evidence (disk s) !! sum_name (bundle_name i) = None -> is_ok (get x s' i) = false) /\
    (forall old, get x s i = Ok (Some old) -> is_ok (get x s' i) = true -> same_digest x old b)
  | _ => get x s' i = get x s i
  end /\
  (forall j, j <> i -> get x s' j = get x s j).
Proof.
  intros s'. unfold s'. rewrite get_restarted. split; [|intros j Hj; rewrite get_restarted; by apply put_other].
  destruct (put_lookup x s i b f Hi) as (H1 & H2 & Hr). destruct f; try by apply get_ext.
  1, 3: unfold get; rewrite H1; by rewrite (sum_verifies x Hsha _ i b H2).
  unfold get at 1 3. rewrite !H1. unfold verify_evidence_checksum at 1 2. rewrite !H2. split.
  - intros ->. done.
  - intros old Hold Hok. unfold get, verify_evidence_checksum in Hold. destruct (evidence (disk s) !! bundle_name i) as [o|]; [|done].
    destruct (evidence (disk s) !! sum_name (bundle_name i)) as [sum|]; [|done]. cbn [ok_or mbind result_bind] in *.
    destruct (negb (valid_utf8 _)); [discriminate|]. destruct (String.eqb_spec (trim sum) (hashref x o)) as [E1|]; [|discriminate Hold].
    destruct (String.eqb_spec (trim sum) (hashref x b)) as [E2|]; [|discriminate Hok]. injection Hold as ->. apply hashref_inj; [done|congruence].
Qed.

(** ** Witnesses *)

Definition toy : store_lib := {|
  crypto := Crypto.toy_lib; nfc := fun s => s; show_f64 := fun _ => "";
  from_str := fun t => ok_or (CanonicalText.read_json t) "syntax"; utf8_error := fun _ => "invalid utf-8 sequence"
|}.
Lemma toy_sha_law : sha_law toy.
Proof. exact (Crypto.law_sha256 _ Crypto.toy_lib_laws). Qed.
Lemma toy_parse_law : parse_law toy.
Proof.
  intros v t Hf _ _ Ht. destruct (CanonicalText.canonical_readback (nfc toy) (show_f64 toy) v Hf) as (u & Hu & Hr).
  assert (u = t) as -> by congruence. cbn [from_str toy]. by rewrite Hr.
Qed.

Definition event (i : string) : json := JObject [("id", JString i); ("actor", JString "tf:actor:a")].
Definition event_text (i : string) : string := match canonical toy (event i) with Ok t => t | Err _ => "" end.
Lemma e1_storable : storable toy (event "e1") (event_text "e1").
Proof.
  split; [done| |apply Nat.ltb_lt; vm_compute; reflexivity|vm_compute; reflexivity|vm_compute; reflexivity].
  change (CanonicalText.normal_json (nfc toy) (event "e1")) with (JObject [("actor", JString "tf:actor:a"); ("id", JString "e1")]).
  cbn [Cbor.jwf]. split; [vm_compute; reflexivity|]. split; [apply (bool_decide_unpack _); vm_compute; done|].
  unfold Cbor.str_ok. split_and!; vm_compute; reflexivity.
Qed.

Definition history : list op := [
  OpAppend (event "e1") (FailOpen "EMFILE"); OpAppend (event "e1") NoFault;
  OpInsert "actor" "mallory" "2026-01-01" NoFault; OpInsert "actor" "eve" "2026-02-01" (FailWrite 4 "ENOSPC"); OpPut "b1" "evidence" PutOk].
Lemma history_ok : Forall (op_ok toy) history.
Proof.
  unfold history. repeat apply Forall_cons_2; [..|apply Forall_nil_2]; cbn [op_ok]; try done.
  - split; [eexists; exact e1_storable|right; by eexists].
  - split; [eexists; exact e1_storable|by left].
Qed.

Lemma file_store_reopens_witness : let s := foldl (step toy) (fresh "/tf") history in
  exists s', open toy "/tf" (disk s) = Ok s' /\ tail s' 5 = [JObject [("actor", JString "tf:actor:a"); ("id", JString "e1")]] /\
  is_revoked s "actor" "eve" "2026-03-01" = true /\ is_revoked s' "actor" "mallory" "2026-03-01" = true /\
  is_revoked s' "actor" "eve" "2026-03-01" = false.
Proof.
  intros s. destruct (file_store_reopens toy "/tf" history toy_sha_law toy_parse_law history_ok) as (s' & Ho & _ & Ht & Hm & Hd).
  fold s in Ho, Ht, Hm. exists s'. split; [done|]. rewrite Ht. unfold is_revoked. rewrite Hm, Hd. split_and!; vm_compute; reflexivity.
Defined.

Lemma torn_append_detected_witness : exists s',
  open toy "/tf" (disk (append toy (fresh "/tf") (event "e1") (FailWrite (String.length (record_line toy (event_text "e1"))) "EIO")).1) = Ok s' /\
  lookup s' (hashref toy (event_text "e1")) = Some (JObject [("actor", JString "tf:actor:a"); ("id", JString "e1")]).
Proof.
  destruct (torn_append_detected toy "/tf" [] (event "e1") (event_text "e1") (String.length (record_line toy (event_text "e1"))) "EIO"
    toy_sha_law toy_parse_law (Forall_nil_2 _) e1_storable eq_refl) as [_ H].
  destruct (H ltac:(right; done)) as (s' & Ho & Hl). exists s'. split; [exact Ho|]. rewrite Hl. vm_compute. reflexivity.
Defined.

Lemma evidence_put_exact_witness :
  get toy (restarted (put toy (fresh "/tf") "b1" "bytes" PutOk).1) "b1" = Ok (Some "bytes").
Proof. apply (evidence_put_exact toy (fresh "/tf") "b1" "bytes" PutOk toy_sha_law). discriminate. Defined.

(** ** What the store loses *)

(** A revocation of an actor with a non-ASCII name holds until the store is
    reopened. *)
Definition e_acute : string := str_of_bytes [195; 169].
Example revocation_lost : let s := (insert (fresh "/tf") "actor" e_acute "2026-01-01" NoFault).1 in
  is_revoked s "actor" e_acute "2026-03-01" = true /\
  match open toy "/tf" (disk s) with Ok s' => is_revoked s' "actor" e_acute "2026-03-01" | Err _ => true end = false.
Proof. vm_compute. auto. Qed.

(** After an append that failed half-way, a later append reports success and
    the store no longer opens. *)
Example append_after_failure : let s := (append toy (fresh "/tf") (event "e1") (FailWrite 9 "ENOSPC")).1 in
  let '(s', r) := append toy s (event "e2") NoFault in
  is_ok r = true /\ is_ok (open toy "/tf" (disk s')) = false.
Proof. vm_compute. auto. Qed.

(** A reader with serde_json's recursion limit: an event with 128 nested arrays
    is appended with success, and the store no longer opens. *)
Definition shallow : store_lib := {|
  crypto := Crypto.toy_lib; nfc := fun s => s; show_f64 := fun _ => "";
  from_str := fun t => match CanonicalText.read_json t with
    | Some v => if (json_depth v <? 128)%nat then Ok v else Err "recursion limit exceeded" | None => Err "syntax" end;
  utf8_error := fun _ => "invalid utf-8 sequence"
|}.
Example deep_event_blocks_open :
  let '(s, r) := append shallow (fresh "/tf") (Nat.iter 127 (fun v => JArray [v]) (JArray [])) NoFault in
  is_ok r = true /\ is_ok (open shallow "/tf" (disk s)) = false.
Proof. vm_compute. auto. Qed.

(** Replacing a bundle, cut off between the renames: neither version can be
    read. *)
Example replacement_lost : let s := (put toy (fresh "/tf") "b1" "old" PutOk).1 in
  let s' := restarted (put toy s "b1" "new" (PutBetween "crash")).1 in
  get toy s "b1" = Ok (Some "old") /\ is_ok (get toy s' "b1") = false.
Proof. vm_compute. auto. Qed.

End FileStore.
