(* ===== verification/Yaml.v ===== *)
(** * Yaml: the TF-YAML subset ([yaml.rs])

    A Rust [&str] is the list of its characters ([Utf8.chars]).  The byte
    scans of the source only look for ASCII characters, which never occur
    inside a multi-byte sequence, so scanning characters is the same walk.

    - [resolve_scalar], [is_float_syntax]: the core-schema scalars;
    - [parse_quoted], [strip_comment], [find_key]: the line scanners;
    - [flow_value] and its loops: [FlowParser];
    - [new], [parse_node], [parse_sequence], [parse_mapping],
      [parse_inline_value], [parse_block_scalar]: [Parser], whose state is the
      list of items still to be read;
    - [emit] and its helpers: the emitter.

    The loops that are not structural take fuel; [None] is "out of fuel" and
    [YamlProofs] shows that [parse] never returns it. *)

From S2P Require Import Prelude Utf8 Json.

#[local] Open Scope string_scope.
#[local] Open Scope list_scope.
#[local] Open Scope Z_scope.

Module Yaml.

Abbreviation text := (list Z).

(** ** Errors *)

(** A message is fixed text, or text around the [{:?}] rendering of a string
    of the input. *)
Inductive Message :=
| Text (s : string)
| WithDebug (s : string) (shown : text).

Record YamlError := mk_YamlError { message : Message; line : option nat }.

Definition fail_at {A} (m : string) (l : nat) : result YamlError A := Err (mk_YamlError (Text m) (Some l)).

(** ** Characters and literals *)

Definition ch (c : ascii) : Z := Z.of_N (N_of_ascii c).
#[global] Arguments ch _%_char.
Definition lit (s : string) : text := bytes_of_str s.
Definition is_lit (t : text) (s : string) : bool := bool_decide (t = lit s).
Definition one_of (t : text) (l : list string) : bool := existsb (is_lit t) l.
Definition starts (c : Z) (t : text) : bool := match t with d :: _ => d =? c | [] => false end.
Definition ends (p : Z -> bool) (t : text) : bool := match last t with Some c => p c | None => false end.
Definition is_empty (t : text) : bool := match t with [] => true | _ => false end.
Definition has_char (c : Z) (t : text) : bool := existsb (Z.eqb c) t.
Definition strip (c : Z) (t : text) : option text :=
  match t with d :: r => if d =? c then Some r else None | [] => None end.
Definition trim (t : text) : text := trim_end (trim_start t).
Definition blank (t : text) : bool := is_empty (trim t).

(** [trim_start_matches(c)] and [trim_end_matches(c)]. *)
Fixpoint trim_start_of (c : Z) (t : text) : text :=
  match t with d :: r => if d =? c then trim_start_of c r else t | [] => [] end.
Definition trim_end_of (c : Z) (t : text) : text := reverse (trim_start_of c (reverse t)).

(** [str::split(c)]: never empty. *)
Fixpoint split (c : Z) (t : text) : list text :=
  match t with
  | [] => [[]]
  | d :: r => if d =? c then [] :: split c r
              else match split c r with l :: ls => (d :: l) :: ls | [] => [[d]] end
  end.
Fixpoint join (c : Z) (ls : list text) : text :=
  match ls with
  | [] => []
  | [l] => l
  | l :: ls' => l ++ c :: join c ls'
  end.

Definition is_digit (c : Z) : bool := (48 <=? c) && (c <=? 57).
Definition is_octal (c : Z) : bool := (48 <=? c) && (c <=? 55).
Definition is_hexdigit (c : Z) : bool := is_digit c || (97 <=? c) && (c <=? 102) || (65 <=? c) && (c <=? 70).
Definition is_alphanumeric (c : Z) : bool := is_digit c || (97 <=? c) && (c <=? 122) || (65 <=? c) && (c <=? 90).
Definition digits (t : text) : bool := negb (is_empty t) && forallb is_digit t.

Definition digit_value (c : Z) : Z :=
  if is_digit c then c - 48 else if (97 <=? c) && (c <=? 102) then c - 87 else c - 55.
Definition radix_value (base : Z) (t : text) : Z := fold_left (fun n c => n * base + digit_value c) t 0.

(** ** Numbers *)

Definition i64_min : Z := - 2 ^ 63.
Definition in_i64 (n : Z) : bool := (i64_min <=? n) && (n <? 2 ^ 63).
(** [i64::abs] without overflow checks; with them the call panics on
    [i64::MIN]. *)
Definition abs_i64 (n : Z) : Z := if n =? i64_min then i64_min else Z.abs n.
Definition MAX_SAFE_INTEGER : Z := 9007199254740991.

(** The sign of a literal, and the rest. *)
Definition unsigned (t : text) : bool * text :=
  match strip (ch "-") t with
  | Some r => (true, r)
  | None => match strip (ch "+") t with Some r => (false, r) | None => (false, t) end
  end.
Definition signed (neg : bool) (n : Z) : Z := if neg then - n else n.

Definition parse_i64 (t : text) : option Z :=
  let '(neg, body) := unsigned t in
  let n := signed neg (radix_value 10 body) in
  if digits body && in_i64 n then Some n else None.
(** [i64::from_str_radix] on digits of that radix. *)
Definition radix_i64 (base : Z) (t : text) : option Z :=
  let n := radix_value base t in if in_i64 n then Some n else None.

(** The text up to the first [e] or [E], and the text after it. *)
Fixpoint split_exponent (t : text) : text * option text :=
  match t with
  | [] => ([], None)
  | c :: r => if (c =? ch "e") || (c =? ch "E") then ([], Some r)
              else let '(m, e) := split_exponent r in (c :: m, e)
  end.
Fixpoint split_dot (t : text) : text * option text :=
  match t with
  | [] => ([], None)
  | c :: r => if c =? ch "." then ([], Some r) else let '(i, f) := split_dot r in (c :: i, f)
  end.

Definition is_float_syntax (t : text) : bool :=
  let s := snd (unsigned t) in
  let '(mantissa, exponent) := split_exponent s in
  let mantissa_ok :=
    match strip (ch ".") mantissa with
    | Some frac => digits frac
    | None =>
      match split_dot mantissa with
      | (int, Some frac) => digits int && forallb is_digit frac
      | (_, None) => match exponent with Some _ => digits mantissa | None => false end
      end
    end in
  mantissa_ok && match exponent with None => true | Some e => digits (snd (unsigned e)) end.

(** [n / d] rounded to an integer, ties to even. *)
Definition round_half_even (n d : Z) : Z :=
  let q := n / d in
  let r := 2 * (n mod d) in
  if (d <? r) || (r =? d) && Z.odd q then q + 1 else q.

(** The binary64 nearest to [n / d] (both positive), as its bit pattern; the
    pattern of infinity when it is out of range. *)
Definition round_f64 (n d : Z) : Z :=
  let e0 := Z.log2 n - Z.log2 d in
  let e1 := if n * 2 ^ Z.max 0 (- e0) <? d * 2 ^ Z.max 0 e0 then e0 - 1 else e0 in
  let e := Z.max e1 (-1022) in
  let x := e - 52 in
  let m := if 0 <=? x then round_half_even n (d * 2 ^ x) else round_half_even (n * 2 ^ (- x)) d in
  Z.min ((e + 1022) * 2 ^ 52 + m) (2047 * 2 ^ 52).

(** [str::parse::<f64>] on a text of [is_float_syntax]. *)
Definition parse_f64 (t : text) : Z :=
  let '(neg, s) := unsigned t in
  let '(mantissa, exponent) := split_exponent s in
  let '(int, frac) := split_dot mantissa in
  let frac := unwrap_or frac [] in
  let m := radix_value 10 (int ++ frac) in
  let e := match exponent with
           | Some e => let '(eneg, e) := unsigned e in signed eneg (radix_value 10 e)
           | None => 0
           end - Z.of_nat (length frac) in
  let bits := if m =? 0 then 0 else if 0 <=? e then round_f64 (m * 10 ^ e) 1 else round_f64 m (10 ^ (- e)) in
  if neg then bits + 2 ^ 63 else bits.
Definition is_finite (bits : Z) : bool := Z.land (Z.shiftr bits 52) 2047 <? 2047.

(** ** Scalar resolution *)

Definition jstr (t : text) : json := JString (str_of_chars t).

Definition resolve_number (t : text) : option json :=
  if digits (snd (unsigned t)) then
    match parse_i64 t with
    | Some n => if abs_i64 n <=? MAX_SAFE_INTEGER then Some (jint n) else Some (jstr t)
    | None => Some (jstr t)
    end
  else None.

(** [0x1f], [0o17]: an integer when it fits the safe range, else a string. *)
Definition resolve_radix (p : Z) (base : Z) (ok : Z -> bool) (t : text) : option json :=
  match t with
  | z :: q :: body =>
    if (z =? ch "0") && (q =? p) && negb (is_empty body) && forallb ok body then
      match radix_i64 base body with
      | Some n => if n <=? MAX_SAFE_INTEGER then Some (jint n) else Some (jstr t)
      | None => Some (jstr t)
      end
    else None
  | _ => None
  end.

Definition resolve_float (t : text) : option json :=
  if is_float_syntax t then
    let f := parse_f64 t in if is_finite f then Some (JNumber (NFloat f)) else None
  else None.

Definition NON_FINITE : Message := Text "non-finite floats are not supported".

Definition resolve_scalar (t : text) : result YamlError json :=
  if one_of t [""; "~"; "null"; "Null"; "NULL"] then Ok JNull
  else if one_of t ["true"; "True"; "TRUE"] then Ok (JBool true)
  else if one_of t ["false"; "False"; "FALSE"] then Ok (JBool false)
  else if one_of t [".nan"; ".NaN"; ".NAN"] then Err (mk_YamlError NON_FINITE None)
  else match resolve_number t with Some v => Ok v | None =>
       match resolve_radix (ch "x") 16 is_hexdigit t with Some v => Ok v | None =>
       match resolve_radix (ch "o") 8 is_octal t with Some v => Ok v | None =>
       match resolve_float t with Some v => Ok v | None =>
       if one_of t [".inf"; ".Inf"; ".INF"; "-.inf"; "-.Inf"; "-.INF"; "+.inf"; "+.Inf"; "+.INF"]
       then Err (mk_YamlError NON_FINITE None)
       else Ok (jstr t)
       end end end end.

(** The caller's line replaces the one of the scalar. *)
Definition resolve_at (t : text) (l : nat) : result YamlError json :=
  map_err (fun e => mk_YamlError (message e) (Some l)) (resolve_scalar t).

(** ** Quoted scalars *)

(** [u32::from_str_radix(h, 16)]: a leading [+] is accepted. *)
Definition from_hex (h : text) : option Z :=
  let body := match strip (ch "+") h with Some r => r | None => h end in
  if negb (is_empty body) && forallb is_hexdigit body then Some (radix_value 16 body) else None.
(** [char::from_u32]. *)
Definition from_u32 (n : Z) : option Z :=
  if (n <? 0xD800) || (0xE000 <=? n) && (n <? 0x110000) then Some n else None.
Definition code_point (h : text) : option Z := from_hex h ≫= from_u32.

(** The single-character escapes. *)
Definition simple_escape (c : Z) : option Z :=
  if c =? ch "n" then Some 10 else if c =? ch "t" then Some 9 else if c =? ch "r" then Some 13
  else if c =? ch "0" then Some 0 else if c =? ch "a" then Some 7 else if c =? ch "b" then Some 8
  else if c =? ch "f" then Some 12 else if c =? ch "v" then Some 11 else if c =? ch "e" then Some 27
  else if (c =? 34) || (c =? 92) || (c =? ch "/") then Some c else None.

Definition push (c : Z) (r : option (text * text)) : option (text * text) :=
  '(out, rest) ← r; Some (c :: out, rest).

Fixpoint single_quoted (t : text) : option (text * text) :=
  match t with
  | [] => None
  | c :: r =>
    if c =? 39 then
      match r with
      | d :: r' => if d =? 39 then push 39 (single_quoted r') else Some ([], r)
      | [] => Some ([], r)
      end
    else push c (single_quoted r)
  end.

Fixpoint double_quoted (t : text) : option (text * text) :=
  match t with
  | [] => None
  | c :: r =>
    if c =? 34 then Some ([], r)
    else if c =? 92 then
      match r with
      | [] => None
      | esc :: r =>
        match simple_escape esc with
        | Some d => push d (double_quoted r)
        | None =>
          if esc =? ch "x" then
            match r with
            | a :: b :: r' => d ← code_point [a; b]; push d (double_quoted r')
            | _ => None
            end
          else if esc =? ch "u" then
            match r with
            | a :: b :: e :: f :: r' => d ← code_point [a; b; e; f]; push d (double_quoted r')
            | _ => None
            end
          else if esc =? ch "U" then
            match r with
            | a :: b :: e :: f :: g :: h :: i :: j :: r' =>
              d ← code_point [a; b; e; f; g; h; i; j]; push d (double_quoted r')
            | _ => None
            end
          else None
        end
      end
    else push c (double_quoted r)
  end.

(** The value of the quoted scalar [t] starts with, and the text after it. *)
Definition parse_quoted (t : text) : option (text * text) :=
  match t with
  | q :: r => if q =? 39 then single_quoted r else if q =? 34 then double_quoted r else None
  | [] => None
  end.

(** ** Line scanners *)

Fixpoint count_indent (t : text) : nat :=
  match t with c :: r => if c =? 32 then S (count_indent r) else O | [] => O end.

Definition prev_is (p : option Z) (c : Z) : bool := match p with Some d => d =? c | None => false end.

(** The offset of the [#] that starts a comment outside quotes. *)
Fixpoint comment_at (in_single in_double : bool) (prev : option Z) (t : text) : option nat :=
  match t with
  | [] => None
  | c :: r =>
    if (c =? 39) && negb in_double then S <$> comment_at (negb in_single) in_double (Some c) r
    else if (c =? 34) && negb in_single && negb (prev_is prev 92) then S <$> comment_at in_single (negb in_double) (Some c) r
    else if (c =? 35) && negb in_single && negb in_double && (prev_is prev 32 || prev_is prev 9) then Some O
    else S <$> comment_at in_single in_double (Some c) r
  end.

Definition strip_comment (t : text) : text :=
  if starts 35 t then [] else
  match comment_at false false None t with Some i => trim_end (take i t) | None => t end.

(** The offset of the [:] that ends a plain key. *)
Fixpoint colon_at (depth : Z) (prev : option Z) (t : text) : option nat :=
  match t with
  | [] => None
  | c :: r =>
    if (c =? ch "[") || (c =? ch "{") then S <$> colon_at (depth + 1) (Some c) r
    else if (c =? ch "]") || (c =? ch "}") then S <$> colon_at (depth - 1) (Some c) r
    else if (c =? ch ":") && (depth =? 0) && (is_empty r || starts 32 r) then Some O
    else if (c =? 35) && prev_is prev 32 then None
    else S <$> colon_at depth (Some c) r
  end.

Definition is_quote (t : text) : bool := starts 34 t || starts 39 t.

(** The key of a mapping line, and the rest without its comment. *)
Definition find_key (content : text) : option (text * text) :=
  if is_quote content then
    '(key, after) ← parse_quoted content;
    rest ← strip (ch ":") (trim_start after);
    if negb (is_empty rest) && negb (starts 32 rest) then None else
    Some (key, strip_comment (trim rest))
  else
    i ← colon_at 0 None content;
    let key := trim (take i content) in
    if is_empty key || starts 35 key then None else
    Some (key, strip_comment (trim (drop (S i) content))).

Fixpoint balanced (depth : Z) (in_single in_double : bool) (t : text) : bool :=
  match t with
  | [] => (depth <=? 0) && negb in_single && negb in_double
  | b :: r =>
    if in_single then balanced depth (negb (b =? 39)) in_double r
    else if in_double then
      if b =? 92 then match r with _ :: r' => balanced depth in_single in_double r' | [] => balanced depth in_single in_double r end
      else balanced depth in_single (negb (b =? 34)) r
    else if b =? 39 then balanced depth true in_double r
    else if b =? 34 then balanced depth in_single true r
    else if (b =? ch "[") || (b =? ch "{") then balanced (depth + 1) in_single in_double r
    else if (b =? ch "]") || (b =? ch "}") then balanced (depth - 1) in_single in_double r
    else balanced depth in_single in_double r
  end.
Definition flow_balanced (t : text) : bool := balanced 0 false false t.

(** ** Flow collections: [FlowParser]

    The state is the text still to be read; [None] is out of fuel. *)

Abbreviation flow A := (option (result YamlError (A * text))).
Definition flow_bind {A B} (m : flow A) (f : A -> text -> flow B) : flow B :=
  match m with
  | Some (Ok (a, t)) => f a t
  | Some (Err e) => Some (Err e)
  | None => None
  end.
Definition flow_fail {A} (raw_line : nat) (msg : string) : flow A :=
  Some (fail_at (msg +:+ " in flow collection") raw_line).

Fixpoint ws (t : text) : text :=
  match t with c :: r => if (c =? 32) || (c =? 9) then ws r else t | [] => [] end.

(** The plain scalar a flow value starts with, and the text after it. *)
Fixpoint flow_plain (t : text) : text * text :=
  match t with
  | [] => ([], [])
  | c :: r =>
    if (c =? ch ",") || (c =? ch "]") || (c =? ch "}") then ([], t)
    else if (c =? ch ":") && (is_empty r || starts 32 r) then ([], t)
    else let '(a, b) := flow_plain r in (c :: a, b)
  end.
Fixpoint flow_plain_key (t : text) : text * text :=
  match t with
  | [] => ([], [])
  | c :: r =>
    if (c =? ch ":") || (c =? ch ",") || (c =? ch "}") then ([], t)
    else let '(a, b) := flow_plain_key r in (c :: a, b)
  end.

Section flow.
Variable raw_line : nat.

Definition flow_quoted (what : string) (t : text) : flow text :=
  match parse_quoted t with
  | Some (value, r) => Some (Ok (value, r))
  | None => flow_fail raw_line what
  end.

Definition flow_key (t : text) : flow text :=
  if is_quote t then flow_quoted "unterminated quoted key" t
  else let '(k, r) := flow_plain_key t in Some (Ok (trim k, r)).

Fixpoint flow_value (fuel : nat) (t : text) : flow json :=
  match fuel with
  | O => None
  | S fuel =>
    match ws t with
    | [] => flow_fail raw_line "unexpected end"
    | c :: r =>
      if c =? ch "[" then
        let r := ws r in
        if starts (ch "]") r then Some (Ok (JArray [], tail r)) else flow_items fuel [] r
      else if c =? ch "{" then
        let r := ws r in
        if starts (ch "}") r then Some (Ok (JObject [], tail r)) else flow_entries fuel [] r
      else if (c =? 34) || (c =? 39) then
        flow_bind (flow_quoted "unterminated quoted scalar" (c :: r)) (fun v t => Some (Ok (jstr v, t)))
      else if (c =? ch "&") || (c =? ch "*") then flow_fail raw_line "anchors/aliases are not supported"
      else if c =? ch "!" then flow_fail raw_line "tags are not supported"
      else let '(s, rest) := flow_plain (c :: r) in
           Some (v ← resolve_at (trim s) raw_line; Ok (v, rest))
    end
  end

(** The loop of [parse_array]. *)
with flow_items (fuel : nat) (out : list json) (t : text) : flow json :=
  match fuel with
  | O => None
  | S fuel =>
    flow_bind (flow_value fuel t) (fun v t =>
    let out := out ++ [v] in
    let t := ws t in
    if starts (ch ",") t then
      let t := ws (tail t) in
      if starts (ch "]") t then Some (Ok (JArray out, tail t)) else flow_items fuel out t
    else if starts (ch "]") t then Some (Ok (JArray out, tail t))
    else flow_fail raw_line "expected , or ]")
  end

(** The loop of [parse_map]. *)
with flow_entries (fuel : nat) (out : list (string * json)) (t : text) : flow json :=
  match fuel with
  | O => None
  | S fuel =>
    flow_bind (flow_key (ws t)) (fun key t =>
    let t := ws t in
    flow_bind (if starts (ch ":") t then flow_value fuel (tail t) else Some (Ok (JNull, t))) (fun value t =>
    let k := str_of_chars key in
    match assoc k out with
    | Some _ => Some (Err (mk_YamlError (WithDebug "duplicate key {} in flow collection" key) (Some raw_line)))
    | None =>
      let out := assoc_insert k value out in
      let t := ws t in
      if starts (ch ",") t then
        let t := ws (tail t) in
        if starts (ch "}") t then Some (Ok (JObject out, tail t)) else flow_entries fuel out t
      else if starts (ch "}") t then Some (Ok (JObject out, tail t))
      else flow_fail raw_line "expected , or }"
    end))
  end.

(** [parse_value] then [expect_end]. *)
Definition flow_parse (t : text) : option (result YamlError json) :=
  match flow_value (S (2 * length t)) t with
  | Some (Ok (v, rest)) =>
    Some (if is_empty (ws rest) then Ok v else fail_at "trailing content in flow collection" raw_line)
  | Some (Err e) => Some (Err e)
  | None => None
  end.
End flow.

(** ** The line parser: [Parser] *)

Record Line := mk_Line { indent : nat; content : text; raw : nat }.

Definition input_lines (input : text) : list text := map (trim_end_of 13) (split 10 input).

(** The items of [Parser::new]; [first] is [items.is_empty()]. *)
Fixpoint scan (i : nat) (first : bool) (lines : list text) : result YamlError (list Line) :=
  match lines with
  | [] => Ok []
  | raw :: lines' =>
    let trimmed := trim_end raw in
    let indent := count_indent trimmed in
    if has_char 9 (take indent raw) || starts 9 (trim_start_of 32 raw) && blank raw
    then fail_at "tabs are not allowed in indentation" i else
    let content := drop indent trimmed in
    if is_empty content || starts 35 content then scan (S i) first lines'
    else if is_lit content "---" then
      if first then scan (S i) first lines' else fail_at "multi-document streams are not supported" i
    else if is_lit content "..." then scan (S i) first lines'
    else items ← scan (S i) false lines'; Ok (mk_Line indent content i :: items)
  end.

(** The items still to be read are the state ([self.items[self.pos..]]). *)
Abbreviation parser A := (option (result YamlError (A * list Line))).
Definition parse_bind {A B} (m : parser A) (f : A -> list Line -> parser B) : parser B :=
  match m with
  | Some (Ok (a, s)) => f a s
  | Some (Err e) => Some (Err e)
  | None => None
  end.
Definition ret {A} (a : A) (s : list Line) : parser A := Some (Ok (a, s)).
Definition lift {A} (m : result YamlError A) (s : list Line) : parser A := Some (a ← m; Ok (a, s)).

Definition is_dash (t : text) : bool := is_lit t "-" || bool_decide (take 2 t = lit "- ").

(** [self.peek().map(|n| n.indent > indent).unwrap_or(false)]. *)
Definition deeper (indent' : nat) (s : list Line) : bool :=
  match s with l :: _ => (indent' <? indent l)%nat | [] => false end.

(** The continuation lines of a plain scalar are folded into it. *)
Fixpoint fold_plain (indent' : nat) (t : text) (s : list Line) : text * list Line :=
  match s with
  | [] => (t, [])
  | next :: s' =>
    if (indent next <=? indent')%nat then (t, s)
    else if is_dash (content next) then (t, s)
    else match find_key (content next) with
         | Some _ => (t, s)
         | None => fold_plain indent' (t ++ 32 :: strip_comment (content next)) s'
         end
  end.

Fixpoint collect_more (raw_line : nat) (t : text) (s : list Line) : result YamlError (text * list Line) :=
  if flow_balanced t then Ok (t, s) else
  match s with
  | [] => fail_at "unterminated flow collection" raw_line
  | next :: s' => collect_more raw_line (t ++ 32 :: strip_comment (trim (content next))) s'
  end.
Definition collect_flow (first : text) (raw_line : nat) (s : list Line) : result YamlError (text * list Line) :=
  collect_more raw_line (strip_comment (trim first)) s.

Definition parse_inline_value (rest : text) (indent' raw_line : nat) (s : list Line) : parser json :=
  if starts (ch "[") rest || starts (ch "{") rest then
    match collect_flow rest raw_line s with
    | Err e => Some (Err e)
    | Ok (t, s) =>
      match flow_parse raw_line t with
      | Some m => lift m s
      | None => None
      end
    end
  else if is_quote rest then
    match parse_quoted rest with
    | None => Some (fail_at "unterminated quoted scalar" raw_line)
    | Some (value, after) =>
      if negb (is_empty (strip_comment (trim after))) then Some (fail_at "unexpected content after quoted scalar" raw_line)
      else ret (jstr value) s
    end
  else if starts (ch "&") rest || starts (ch "*") rest then
    Some (fail_at "anchors and aliases are not supported (TF-YAML subset)" raw_line)
  else if starts (ch "!") rest then Some (fail_at "tags are not supported (TF-YAML subset)" raw_line)
  else let '(t, s) := fold_plain indent' (strip_comment rest) s in
       lift (resolve_at (trim t) raw_line) s.

Definition parse_scalar_lines (first : Line) (s : list Line) : parser json :=
  parse_inline_value (content first) (indent first - 1) (raw first) s.

(** *** Block scalars *)

Inductive Chomp := Clip | Strip | Keep.

Fixpoint block_header (key_indent : nat) (chomp : Chomp) (explicit_indent : option nat) (t : text) : option (Chomp * option nat) :=
  match t with
  | [] => Some (chomp, explicit_indent)
  | c :: r =>
    if c =? ch "-" then block_header key_indent Strip explicit_indent r
    else if c =? ch "+" then block_header key_indent Keep explicit_indent r
    else if (49 <=? c) && (c <=? 57) then block_header key_indent chomp (Some (key_indent + Z.to_nat (c - 48))%nat) r
    else None
  end.

(** How many of the lines after the header belong to the block: up to the last
    one that is indented past the key, before the first that is not. *)
Fixpoint block_extent (key_indent i end_ : nat) (lines : list text) : nat :=
  match lines with
  | [] => end_
  | l :: lines' =>
    if blank l then block_extent key_indent (S i) end_ lines'
    else if (count_indent l <=? key_indent)%nat then end_
    else block_extent key_indent (S i) (S i) lines'
  end.

Fixpoint skip_items (end_raw : nat) (s : list Line) : list Line :=
  match s with
  | l :: s' => if (raw l <? end_raw)%nat then skip_items end_raw s' else s
  | [] => []
  end.

Definition first_indent (lines : list text) : option nat :=
  count_indent <$> List.find (fun l => negb (blank l)) lines.

Definition block_line (block_indent : nat) (l : text) : text :=
  if blank l then [] else drop (Nat.min block_indent (count_indent l)) l.

(** [body[..end]]: without the empty lines at the end. *)
Fixpoint drop_empty (ls : list text) : list text :=
  match ls with l :: ls' => if is_empty l then drop_empty ls' else ls | [] => [] end.
Definition kept (body : list text) : list text := reverse (drop_empty (reverse body)).

Fixpoint fold_block (t : text) (prev_was_text prev_was_literal : bool) (ls : list text) : text :=
  match ls with
  | [] => t
  | l :: ls' =>
    if is_empty l then fold_block (t ++ [10]) false false ls'
    else
      let literal := starts 32 l || starts 9 l in
      let t := if prev_was_text && negb literal && negb prev_was_literal then t ++ [32]
               else if prev_was_literal || prev_was_text && literal then t ++ [10] else t in
      fold_block (t ++ l) true literal ls'
  end.

Definition chomped (chomp : Chomp) (kept_lines trailing_blank : nat) (t : text) : text :=
  match chomp with
  | Strip => trim_end_of 10 t
  | Keep => if (kept_lines =? 0)%nat && (trailing_blank =? 0)%nat then t else t ++ repeat 10 (trailing_blank + 1)
  | Clip => if is_empty t && (trailing_blank =? 0)%nat then t else t ++ [10]
  end.

(** [lines] is [self.lines]. *)
Definition parse_block_scalar (lines : list text) (header : text) (key_indent raw_line : nat) (s : list Line) : parser text :=
  match block_header key_indent Clip None (strip_comment (trim (tail header))) with
  | None => Some (Err (mk_YamlError (WithDebug "bad block scalar header {}" header) (Some raw_line)))
  | Some (chomp, explicit_indent) =>
    let start_raw := S raw_line in
    let after := drop start_raw lines in
    let n := block_extent key_indent 0 0 after in
    let raw := take n after in
    let s := skip_items (start_raw + n) s in
    let block_indent := unwrap_or (opt_or explicit_indent (first_indent raw)) (key_indent + 1)%nat in
    if (block_indent <=? key_indent)%nat then
      Some (fail_at "block scalar body must be indented past its key" raw_line) else
    let body := map (block_line block_indent) raw in
    let ls := kept body in
    let t := if starts (ch ">") header then fold_block [] false false ls else join 10 ls in
    ret (chomped chomp (length ls) (length body - length ls) t) s
  end.

(** *** Nodes *)

(** The value of a mapping entry whose line ends in [rest]. *)
Definition entry_value (lines : list text) (node : nat -> list Line -> parser json) (indent' : nat) (rest : text) (raw : nat)
  (s : list Line) : parser json :=
  if is_empty rest then
    if deeper indent' s then node (indent' + 1)%nat s else ret JNull s
  else if starts (ch "|") rest || starts (ch ">") rest then
    parse_bind (parse_block_scalar lines rest indent' raw s) (fun t s => ret (jstr t) s)
  else parse_inline_value rest indent' raw s.

Section nodes.
Variable lines : list text.

Fixpoint parse_node (fuel min_indent : nat) (s : list Line) : parser json :=
  match fuel with
  | O => None
  | S fuel =>
    match s with
    | [] => ret JNull s
    | line :: s' =>
      if (indent line <? min_indent)%nat then ret JNull s
      else if is_dash (content line) then parse_sequence fuel (indent line) [] s
      else match find_key (content line) with
           | Some _ => parse_mapping fuel (indent line) [] s
           | None => parse_scalar_lines line s'
           end
    end
  end

with parse_sequence (fuel indent' : nat) (out : list json) (s : list Line) : parser json :=
  match fuel with
  | O => None
  | S fuel =>
    match s with
    | [] => ret (JArray out) s
    | line :: s' =>
      if negb (indent line =? indent')%nat then ret (JArray out) s
      else if is_lit (content line) "-" then
        parse_bind (if deeper indent' s' then parse_node fuel (indent' + 1) s' else ret JNull s')
          (fun v s => parse_sequence fuel indent' (out ++ [v]) s)
      else if negb (bool_decide (take 2 (content line) = lit "- ")) then ret (JArray out) s
      else
        let rest := drop 2 (content line) in
        let extra := count_indent rest in
        parse_bind (parse_node fuel (indent' + 1) (mk_Line (indent' + 2 + extra) (drop extra rest) (raw line) :: s'))
          (fun v s => parse_sequence fuel indent' (out ++ [v]) s)
    end
  end

with parse_mapping (fuel indent' : nat) (out : list (string * json)) (s : list Line) : parser json :=
  match fuel with
  | O => None
  | S fuel =>
    match s with
    | [] => ret (JObject out) s
    | line :: s' =>
      if negb (indent line =? indent')%nat then ret (JObject out) s
      else if is_dash (content line) then ret (JObject out) s
      else match find_key (content line) with
           | None => ret (JObject out) s
           | Some (key, rest) =>
             parse_bind (entry_value lines (parse_node fuel) indent' rest (raw line) s')
               (fun value s =>
                  let k := str_of_chars key in
                  match assoc k out with
                  | Some _ => Some (Err (mk_YamlError (WithDebug "duplicate mapping key {}" key) (Some (raw line))))
                  | None => parse_mapping fuel indent' (assoc_insert k value out) s
                  end)
           end
    end
  end.
End nodes.

(** Enough fuel for the items: every call that does not read an item at least
    shortens one. *)
Definition weight (s : list Line) : nat := sum_list_with (fun l => S (length (content l))) s.
Definition node_fuel (s : list Line) : nat := 2 * weight s + 1.

Definition parse_lines (ls : list text) : option (result YamlError json) :=
  match scan 0 true ls with
  | Err e => Some (Err e)
  | Ok [] => Some (Ok JNull)
  | Ok items =>
    match parse_node ls (node_fuel items) 0 items with
    | Some (Ok (v, [])) => Some (Ok v)
    | Some (Ok (_, l :: _)) => Some (fail_at "unexpected content" (raw l))
    | Some (Err e) => Some (Err e)
    | None => None
    end
  end.

(** [yaml::parse]. *)
Definition parse (input : string) : option (result YamlError json) := parse_lines (input_lines (chars input)).

(** ** The emitter *)

Definition plain_char (c : Z) : bool :=
  is_alphanumeric c || (c =? ch "_") || (c =? ch "-") || (c =? ch ".") || (c =? ch "/") || (c =? ch "@") || (c =? 32).
Definition plain_safe (t : text) : bool :=
  match t with
  | c :: _ => (is_alphanumeric c || (c =? ch "_")) && forallb plain_char t
  | [] => false
  end.

Definition needs_quoting (t : text) : bool :=
  if is_empty t || negb (plain_safe t) || negb (bool_decide (t = trim t)) then true else
  match resolve_scalar t with
  | Ok (JString _) =>
    let body := snd (unsigned t) in
    if negb (is_empty body) && forallb (fun b => is_digit b || (b =? ch "_")) body
       && match body with b :: _ => is_digit b | [] => false end
    then true else is_float_syntax t
  | _ => true
  end.

(** [serde_json::to_string] of a string. *)
Definition hex_char (n : Z) : Z := ch (hex_digit n).
Definition escape (c : Z) : text :=
  if c =? 34 then [92; 34] else if c =? 92 then [92; 92]
  else if c =? 8 then [92; ch "b"] else if c =? 9 then [92; ch "t"] else if c =? 10 then [92; ch "n"]
  else if c =? 12 then [92; ch "f"] else if c =? 13 then [92; ch "r"]
  else if c <? 32 then lit "\u00" ++ [hex_char (c / 16); hex_char (c mod 16)]
  else [c].
Definition quote (t : text) : text := 34 :: flat_map escape t ++ [34].

Section emitter.
(** The digits [serde_json] prints for a finite [f64] (the [ryu] crate). *)
Variable show_f64 : Z -> string.

Definition show_number (n : number) : text :=
  match n with NInt i => lit (pretty i) | NFloat bits => lit (show_f64 bits) end.

Definition format_string (s : string) : text :=
  let t := chars s in if needs_quoting t then quote t else t.

(** Callers have checked for a scalar. *)
Definition format_scalar (v : json) : text :=
  match v with
  | JNull => lit "null"
  | JBool true => lit "true"
  | JBool false => lit "false"
  | JNumber n => show_number n
  | JString s => format_string s
  | JArray _ | JObject _ => []
  end.

Definition is_scalar (v : json) : bool := match v with JArray _ | JObject _ => false | _ => true end.

Definition format_key (k : string) : text :=
  let t := chars k in
  if needs_quoting t || has_char (ch ":") t || has_char 35 t then quote t else t.

Definition pad (n : nat) : text := repeat 32 (2 * n).

Fixpoint has_triple_lf (t : text) : bool :=
  match t with
  | a :: r => match r with b :: c :: _ => (a =? 10) && (b =? 10) && (c =? 10) | _ => false end || has_triple_lf r
  | [] => false
  end.
Definition block_ok (t : text) : bool :=
  has_char 10 t && negb (match t with c :: _ => is_whitespace c | [] => false end)
  && negb (ends is_whitespace t) && negb (has_triple_lf t).
Definition body_line (n : nat) (l : text) : text := if is_empty l then [] else pad n ++ l.

Definition format_multiline (v : json) (n : nat) : text :=
  match v with
  | JString s =>
    let t := chars s in
    if block_ok t then lit "|-" ++ 10 :: join 10 (map (body_line n) (split 10 t)) else format_scalar v
  | _ => format_scalar v
  end.

(** [last.push_str(..)]: [emit] has pushed a line before. *)
Definition push_last (t : text) (out : list text) : list text :=
  match last out with Some l => removelast out ++ [l ++ t] | None => out end.

Definition emit_entry (emit_node : json -> nat -> list text -> list text) (prefix : text) (key : string) (val : json)
  (child_indent : nat) (out : list text) : list text :=
  if is_scalar val then out ++ [prefix ++ format_key key ++ lit ": " ++ format_multiline val child_indent]
  else emit_node val child_indent (out ++ [prefix ++ format_key key ++ lit ":"]).

Fixpoint emit_node (v : json) (n : nat) (out : list text) : list text :=
  match v with
  | JArray [] => push_last (lit " []") out
  | JArray items =>
    fold_left (fun out item =>
      match item with
      | JArray _ => emit_node item (n + 1) (out ++ [pad n ++ lit "-"])
      | JObject [] => out ++ [pad n ++ lit "- {}"]
      | JObject ((k, val) :: map) =>
        fold_left (fun out kv => emit_entry emit_node (pad n ++ lit "  ") kv.1 kv.2 (n + 2) out) map
          (emit_entry emit_node (pad n ++ lit "- ") k val (n + 2) out)
      | _ => out ++ [pad n ++ lit "- " ++ format_scalar item]
      end) items out
  | JObject [] => push_last (lit " {}") out
  | JObject map => fold_left (fun out kv => emit_entry emit_node (pad n) kv.1 kv.2 (n + 1) out) map out
  | _ => out
  end.

Definition emit (v : json) : text :=
  if is_scalar v then format_scalar v ++ [10] else
  match v with
  | JArray [] => lit "[]" ++ [10]
  | JObject [] => lit "{}" ++ [10]
  | _ => join 10 (emit_node v 0 []) ++ [10]
  end.

(** [yaml::to_string] of a value tree. *)
Definition to_string (v : json) : string := str_of_chars (emit v).
End emitter.

End Yaml.
