(* ===== verification/YamlProofs.v ===== *)
(** * YamlProofs: the TF-YAML reader always answers, and reads back what the
    emitter writes

    - [yaml_parse_total]: the fuel of [Yaml.parse] always suffices;
    - [yaml_roundtrip]: for a value whose integers are in the safe range and
      whose multi-line strings have no line the block form loses,
      [parse (to_string v)] is [v];
    - the values that are not read back: the examples at the end. *)

From S2P Require Import Prelude Utf8 Json CanonicalText Yaml.

#[local] Open Scope string_scope.
#[local] Open Scope list_scope.
#[local] Open Scope Z_scope.

Module YamlProofs.
Import Yaml.

(** ** Every scanner returns a suffix no longer than its input *)

Lemma length_ws t : (length (ws t) <= length t)%nat.
Proof. induction t as [|c t IH]; cbn [ws length]; [done|]. destruct (_ || _); cbn [length]; lia. Qed.

Lemma length_tail {A} (t : list A) : (length (tail t) <= length t)%nat.
Proof. destruct t; cbn; lia. Qed.

Lemma length_starts c t : starts c t = true -> (length (tail t) < length t)%nat.
Proof. destruct t; cbn; [done|lia]. Qed.

Lemma push_Some c m v r : push c m = Some (v, r) -> exists v', m = Some (v', r) /\ v = c :: v'.
Proof. destruct m as [[v' r']|]; cbn; [|done]. intros [= <- <-]. eauto. Qed.


Lemma length_single_quoted t v r : single_quoted t = Some (v, r) -> (length r < length t)%nat.
Proof.
  assert (forall n t v r, (length t <= n)%nat -> single_quoted t = Some (v, r) -> (length r < length t)%nat) as H; [|by eauto].
  clear. induction n as [|n IH]; intros [|c t] v r Hn; cbn [length] in *; try done; try lia. cbn [single_quoted].
  destruct (c =? 39).
  - destruct t as [|d t]; [intros [= <- <-]; cbn; lia|]. destruct (d =? 39); [|intros [= <- <-]; cbn; lia].
    intros (v' & H & ->)%push_Some. apply IH in H; cbn [length] in *; lia.
  - intros (v' & H & ->)%push_Some. apply IH in H; lia.
Qed.

Lemma length_double_quoted t v r : double_quoted t = Some (v, r) -> (length r < length t)%nat.
Proof.
  assert (forall n t v r, (length t <= n)%nat -> double_quoted t = Some (v, r) -> (length r < length t)%nat) as H; [|by eauto].
  clear. induction n as [|n IH]; intros [|c t] v r Hn; cbn [length] in *; try done; try lia. cbn [double_quoted].
  assert (forall k (d : Z) t', (length t' + k <= length t)%nat -> push d (double_quoted t') = Some (v, r) -> (length r < S (length t))%nat) as Hp.
  { intros k d t' Hk (v' & H & ->)%push_Some. apply IH in H; lia. }
  assert (forall o t', (length t' <= length t)%nat -> (d ← o; push d (double_quoted t')) = Some (v, r) -> (length r < S (length t))%nat) as Hb.
  { intros [d|] t' Hk; cbn; [|done]. by apply (Hp 0%nat); lia. }
  destruct (c =? 34); [intros [= <- <-]; lia|]. destruct (c =? 92); [|apply (Hp 0%nat); lia].
  destruct t as [|e t]; [done|]. cbn [length] in *. destruct (simple_escape e); [apply (Hp 1%nat); lia|].
  destruct (e =? ch "x"); [destruct t as [|? [|? t]]; try done; apply Hb; cbn; lia|].
  destruct (e =? ch "u"); [destruct t as [|? [|? [|? [|? t]]]]; try done; apply Hb; cbn; lia|].
  destruct (e =? ch "U"); [|done].
  destruct t as [|? [|? [|? [|? [|? [|? [|? [|? t]]]]]]]]; try done; apply Hb; cbn; lia.
Qed.

Lemma length_parse_quoted t v r : parse_quoted t = Some (v, r) -> (length r < length t)%nat.
Proof.
  destruct t as [|q t]; cbn; [done|]. destruct (q =? 39); [intros ?%length_single_quoted; lia|].
  destruct (q =? 34); [intros ?%length_double_quoted; lia|done].
Qed.

Lemma length_flow_plain t : (length (flow_plain t).2 <= length t)%nat.
Proof.
  induction t as [|c t IH]; cbn; [done|]. do 2 (case_match; [cbn; lia|]). destruct (flow_plain t). cbn in *. lia.
Qed.
Lemma length_flow_plain_key t : (length (flow_plain_key t).2 <= length t)%nat.
Proof.
  induction t as [|c t IH]; cbn; [done|]. case_match; [cbn; lia|]. destruct (flow_plain_key t). cbn in *. lia.
Qed.

(** ** Flow collections end *)

(** [m] read from a text of [n] characters with [fuel] where [need] is enough. *)
Definition flow_good {A} (n need fuel : nat) (m : flow A) : Prop :=
  match m with
  | None => (fuel < need)%nat
  | Some (Ok (_, r)) => (length r <= n)%nat
  | Some (Err _) => True
  end.

Lemma flow_good_bind {A B} n n' need need' fuel (m : flow A) (f : A -> text -> flow B) :
  flow_good n' need' fuel m -> (fuel < need' -> fuel < need)%nat ->
  (forall a t, (length t <= n')%nat -> flow_good n need fuel (f a t)) -> flow_good n need fuel (flow_bind m f).
Proof. destruct m as [[[a t]|e]|]; cbn; auto. Qed.

Lemma flow_good_quoted raw n need fuel what t : (length t <= n)%nat -> flow_good n need fuel (flow_quoted raw what t).
Proof.
  unfold flow_quoted. intros H. destruct (parse_quoted t) as [[v r]|] eqn:E; cbn; [|done].
  apply length_parse_quoted in E. lia.
Qed.

Lemma flow_good_key raw n need fuel t : (length t <= n)%nat -> flow_good n need fuel (flow_key raw t).
Proof.
  unfold flow_key. intros H. destruct (is_quote t); [by apply flow_good_quoted|].
  pose proof (length_flow_plain_key t). destruct (flow_plain_key t); cbn in *. lia.
Qed.

Lemma flow_good_weaken {A} n need need' fuel fuel' (m : flow A) n' :
  flow_good n need fuel m -> (n <= n')%nat -> (fuel < need -> fuel' < need')%nat -> flow_good n' need' fuel' m.
Proof. destruct m as [[[a t]|e]|]; cbn; [lia|done|auto]. Qed.

Ltac text_len := repeat match goal with
  | |- context [ws ?t] => lazymatch goal with H : (length (ws t) <= length t)%nat |- _ => fail | _ => pose proof (length_ws t) end
  | H : context [ws ?t] |- _ => lazymatch goal with H' : (length (ws t) <= length t)%nat |- _ => fail | _ => pose proof (length_ws t) end
  | H : starts _ ?t = true |- _ => apply length_starts in H
  end; cbn [length flow_good] in *; try lia; try exact I.

Lemma flow_total raw fuel :
  (forall t, flow_good (length t) (2 * length t + 1) fuel (flow_value raw fuel t)) /\
  (forall out t, flow_good (length t) (2 * length t + 2) fuel (flow_items raw fuel out t)) /\
  (forall out t, flow_good (length t) (2 * length t + 2) fuel (flow_entries raw fuel out t)).
Proof.
  induction fuel as [|fuel (IHv & IHi & IHe)]; [by cbn; repeat split; intros; lia|]. split; [|split].
  - intros t. cbn [flow_value]. pose proof (length_ws t) as Hl. destruct (ws t) as [|c r]; [done|]. cbn [length] in Hl.
    destruct (c =? ch "["); [case_match; text_len; eapply flow_good_weaken; [apply IHi| |]; text_len|].
    destruct (c =? ch "{"); [case_match; text_len; eapply flow_good_weaken; [apply IHe| |]; text_len|].
    destruct (_ || _).
    { eapply (flow_good_bind _ (length t) _ 0); [apply flow_good_quoted; cbn; lia|lia|by intros; cbn]. }
    destruct (_ || _); [done|]. destruct (c =? ch "!"); [done|]. pose proof (length_flow_plain (c :: r)).
    destruct (flow_plain (c :: r)) as [s rest]. destruct (resolve_at _ _); cbn in *; [lia|done].
  - intros out t. cbn [flow_items]. eapply (flow_good_bind _ (length t) _ (2 * length t + 2)); [|lia|].
    { eapply flow_good_weaken; [apply IHv|lia|lia]. }
    intros v u Hu. case_match; text_len.
    + case_match; text_len. eapply flow_good_weaken; [apply IHi| |]; text_len.
    + case_match; text_len.
  - intros out t. cbn [flow_entries]. eapply (flow_good_bind _ (length t) _ 0); [apply flow_good_key; text_len|lia|].
    intros k u Hu. eapply (flow_good_bind _ (length t) _ (2 * length t + 2)); [|lia|].
    { case_match; text_len. eapply flow_good_weaken; [apply IHv| |]; text_len. }
    intros v w Hw. case_match; [done|]. case_match; text_len.
    + case_match; text_len. eapply flow_good_weaken; [apply IHe| |]; text_len.
    + case_match; text_len.
Qed.

Lemma flow_parse_total raw t : flow_parse raw t <> None.
Proof.
  unfold flow_parse. destruct (flow_total raw (S (2 * length t))) as [H _]. specialize (H t).
  destruct (flow_value _ _ _) as [[[v r]|e]|]; try done. cbn in H. lia.
Qed.

(** ** The reader ends: every call reads an item or shortens one *)

Definition parse_good {A} (w need fuel : nat) (m : parser A) : Prop :=
  match m with
  | None => (fuel < need)%nat
  | Some (Ok (_, s)) => (weight s <= w)%nat
  | Some (Err _) => True
  end.

Lemma parse_good_bind {A B} w w' need fuel (m : parser A) (f : A -> list Line -> parser B) :
  parse_good w' need fuel m -> (forall a s, (weight s <= w')%nat -> parse_good w need fuel (f a s)) ->
  parse_good w need fuel (parse_bind m f).
Proof. destruct m as [[[a s]|e]|]; cbn; auto. Qed.

Lemma parse_good_weaken {A} w need need' fuel fuel' (m : parser A) w' :
  parse_good w need fuel m -> (w <= w')%nat -> (fuel < need -> fuel' < need')%nat -> parse_good w' need' fuel' m.
Proof. destruct m as [[[a t]|e]|]; cbn; [lia|done|auto]. Qed.

Lemma weight_fold_plain ind t s : (weight (fold_plain ind t s).2 <= weight s)%nat.
Proof.
  revert t; induction s as [|l s IH]; intros t; cbn [fold_plain]; [done|].
  destruct (_ <=? _)%nat; [done|]. destruct (is_dash _); [done|]. destruct (find_key _); [done|].
  etrans; [apply IH|]. unfold weight. cbn. lia.
Qed.

Lemma weight_collect raw t s t' s' : collect_more raw t s = Ok (t', s') -> (weight s' <= weight s)%nat.
Proof.
  revert t; induction s as [|l s IH]; intros t; cbn [collect_more].
  - destruct (flow_balanced t); [|discriminate]. by intros [= <- <-].
  - destruct (flow_balanced t); [by intros [= <- <-]|]. intros H%IH. cbn. unfold weight in *. lia.
Qed.

Lemma weight_skip n s : (weight (skip_items n s) <= weight s)%nat.
Proof. induction s as [|l s IH]; cbn; [done|]. case_match; [|done]. unfold weight in *. lia. Qed.

Lemma inline_good rest ind raw s need fuel : parse_good (weight s) need fuel (parse_inline_value rest ind raw s).
Proof.
  unfold parse_inline_value. destruct (_ || _).
  { destruct (collect_flow rest raw s) as [[t s']|e] eqn:E; [|done]. apply weight_collect in E.
    pose proof (flow_parse_total raw t). destruct (flow_parse raw t) as [[v|e]|]; done. }
  destruct (is_quote rest); [repeat case_match; first [exact I|apply Nat.le_refl]|]. destruct (_ || _); [done|]. destruct (starts _ rest); [done|].
  pose proof (weight_fold_plain ind (strip_comment rest) s). destruct (fold_plain _ _ _) as [t s'].
  destruct (resolve_at _ _); done.
Qed.

Lemma block_good lines header k raw s need fuel : parse_good (weight s) need fuel (parse_block_scalar lines header k raw s).
Proof.
  unfold parse_block_scalar. destruct (block_header _ _ _ _) as [[c e]|]; [|done]. cbn zeta. destruct (_ <=? _)%nat; [done|].
  apply weight_skip.
Qed.

Lemma weight_cons l s : weight (l :: s) = (S (length (content l)) + weight s)%nat.
Proof. done. Qed.

(** A call that answers without recursion. *)
Ltac answered := first [exact I | apply Nat.le_refl | cbn; unfold weight in *; lia].

Lemma parse_total_aux lines fuel :
  (forall min s, parse_good (weight s) (2 * weight s + 1) fuel (parse_node lines fuel min s)) /\
  (forall ind out s, parse_good (weight s) (1 `max` (2 * weight s)) fuel (parse_sequence lines fuel ind out s)) /\
  (forall ind out s, parse_good (weight s) (1 `max` (2 * weight s)) fuel (parse_mapping lines fuel ind out s)).
Proof.
  induction fuel as [|fuel (IHn & IHs & IHm)]; [by cbn; repeat split; intros; lia|]. split; [|split].
  - intros min [|l s]; [answered|]. cbn [parse_node]. destruct (_ <? _)%nat; [answered|]. destruct (is_dash _).
    { eapply parse_good_weaken; [apply IHs|done|]. rewrite weight_cons. lia. }
    destruct (find_key _).
    { eapply parse_good_weaken; [apply IHm|done|]. rewrite weight_cons. lia. }
    eapply parse_good_weaken; [apply inline_good|rewrite weight_cons; lia|exact id].
  - intros ind out [|l s]; [answered|]. cbn [parse_sequence]. destruct (negb _); [answered|].
    assert (forall v s', (weight s' <= weight s + length (content l))%nat ->
      parse_good (weight (l :: s)) (1 `max` (2 * weight (l :: s))) (S fuel) (parse_sequence lines fuel ind (out ++ [v]) s')) as Hnext.
    { intros v s' Hs'. eapply parse_good_weaken; [apply IHs| |]; rewrite weight_cons; lia. }
    destruct (is_lit _ _).
    { eapply (parse_good_bind _ (weight s)); [|intros; apply Hnext; lia]. case_match; [|answered].
      eapply parse_good_weaken; [apply IHn|done|rewrite weight_cons; lia]. }
    destruct (negb _) eqn:E; [answered|]. eapply (parse_good_bind _ (weight s + length (content l))); [|done].
    apply negb_false_iff, bool_decide_eq_true in E. assert (2 <= length (content l))%nat as Hl.
    { destruct (content l) as [|? [|? ?]]; [discriminate E|discriminate E|cbn; lia]. }
    eapply parse_good_weaken; [apply IHn| |]; rewrite !weight_cons; cbn [content]; rewrite !length_drop; lia.
  - intros ind out [|l s]; [answered|]. cbn [parse_mapping]. destruct (negb _); [answered|]. destruct (is_dash _); [answered|].
    destruct (find_key _) as [[key rest]|]; [|answered]. eapply (parse_good_bind _ (weight s)).
    + unfold entry_value. destruct (is_empty rest).
      { case_match; [|answered]. eapply parse_good_weaken; [apply IHn|done|rewrite weight_cons; lia]. }
      destruct (_ || _); [|apply inline_good]. eapply parse_good_bind; [apply block_good|intros; answered].
    + intros v s' Hs'. cbn zeta. case_match; [answered|].
      eapply parse_good_weaken; [apply IHm| |]; rewrite weight_cons; lia.
Qed.

Lemma parse_node_total lines min s : parse_node lines (node_fuel s) min s <> None.
Proof.
  destruct (parse_total_aux lines (node_fuel s)) as [H _]. specialize (H min s). unfold node_fuel in *.
  destruct (parse_node _ _ _ _) as [[[]|]|]; try done. cbn in H. lia.
Qed.

(** C35: the TF-YAML reader answers on every input: with the fuel [parse]
    gives them, neither the line parser nor the flow parser runs out, so the
    loops of [yaml.rs] end with a value or an error. *)
Theorem yaml_parse_total input : exists r, parse input = Some r.
Proof.
  unfold parse, parse_lines. destruct (scan _ _ _) as [[|l s]|e]; [eauto| |eauto].
  pose proof (parse_node_total (input_lines (chars input)) 0 (l :: s)) as H.
  destruct (parse_node _ _ _ _) as [[[v [|]]|e]|]; eauto. done.
Qed.

(** ** Text lemmas *)

(** Neither end is whitespace. *)
Definition solid (t : text) : bool :=
  match t with c :: _ => negb (is_whitespace c) | [] => false end && negb (ends is_whitespace t).

Lemma last_cons_Some {A} (c : A) r : exists t' d, c :: r = t' ++ [d].
Proof. destruct (exists_last (l := c :: r)) as (t' & d & ->); [done|]. eauto. Qed.

Lemma ends_snoc p t d : ends p (t ++ [d]) = p d.
Proof. unfold ends. by rewrite last_snoc. Qed.

Lemma solid_head t : solid t = true -> exists c r, t = c :: r /\ is_whitespace c = false.
Proof. destruct t as [|c r]; [done|]. intros [H _]%andb_prop. exists c, r. split; [done|]. by apply negb_true_iff. Qed.

Lemma solid_last t : solid t = true -> exists t' d, t = t' ++ [d] /\ is_whitespace d = false.
Proof.
  intros H. destruct (solid_head t H) as (c & r & -> & _). destruct (last_cons_Some c r) as (t' & d & E).
  exists t', d. split; [done|]. apply andb_prop in H as [_ H]. rewrite E, ends_snoc in H. by apply negb_true_iff.
Qed.

Lemma trim_end_solid p t : solid t = true -> trim_end (p ++ t) = p ++ t.
Proof.
  intros (t' & d & -> & Hd)%solid_last. unfold trim_end. rewrite !reverse_app. cbn [reverse rev_append app].
  change (reverse [d]) with [d]. cbn [app]. rewrite trim_start_id by done.
  by rewrite reverse_cons, !reverse_app, !reverse_involutive, <-app_assoc.
Qed.

Lemma trim_start_spaces k t : trim_start (repeat 32 k ++ t) = trim_start t.
Proof. induction k as [|k IH]; cbn; [done|]. done. Qed.

Lemma trim_start_solid t : solid t = true -> trim_start t = t.
Proof. intros (c & r & -> & H)%solid_head. by apply trim_start_id. Qed.

Lemma trim_solid k t : solid t = true -> trim (repeat 32 k ++ t) = t.
Proof.
  intros H. unfold trim. rewrite trim_start_spaces, trim_start_solid by done. exact (trim_end_solid [] t H).
Qed.

Lemma trim_solid0 t : solid t = true -> trim t = t.
Proof. exact (trim_solid 0 t). Qed.

Lemma trim_end_of_last c p d : c <> d -> trim_end_of c (p ++ [d]) = p ++ [d].
Proof.
  intros H. unfold trim_end_of. rewrite reverse_snoc. cbn [trim_start_of]. destruct (Z.eqb_spec d c); [congruence|].
  by rewrite reverse_cons, reverse_involutive.
Qed.

Lemma count_indent_pad k c r : c <> 32 -> count_indent (repeat 32 k ++ c :: r) = k.
Proof. intros H. induction k as [|k IH]; cbn; [|by rewrite IH]. by destruct (Z.eqb_spec c 32). Qed.

Lemma drop_pad k (t : text) : drop k (repeat 32 k ++ t) = t.
Proof. apply drop_app_length'. by rewrite repeat_length. Qed.

(** ** Plain texts: the characters of unquoted scalars *)

Definition plainish (c : Z) : bool := plain_char c || (c =? ch "+").
Definition plain (t : text) : bool := solid t && forallb plainish t && negb (is_dash t).

Lemma plainish_ne c x : plainish c = true -> plainish x = false -> (c =? x) = false.
Proof. intros Hc Hx. apply Z.eqb_neq. intros ->. congruence. Qed.

Lemma comment_at_plain prev t : forallb plainish t = true -> comment_at false false prev t = None.
Proof.
  revert prev; induction t as [|c t IH]; intros prev; cbn [comment_at forallb]; [done|]. intros [Hc Ht]%andb_prop.
  rewrite !(plainish_ne c) by done. cbn [andb]. by rewrite IH.
Qed.

Lemma colon_at_plain prev t : forallb plainish t = true -> colon_at 0 prev t = None.
Proof.
  revert prev; induction t as [|c t IH]; intros prev; cbn [colon_at forallb]; [done|]. intros [Hc Ht]%andb_prop.
  rewrite !(plainish_ne c) by done. cbn [andb orb]. by rewrite IH.
Qed.

Lemma colon_at_key prev k r : forallb plainish k = true -> is_empty r || starts 32 r = true ->
  colon_at 0 prev (k ++ ch ":" :: r) = Some (length k).
Proof.
  intros Hk Hr. revert prev Hk; induction k as [|c k IH]; intros prev; cbn [colon_at forallb app].
  - intros _. rewrite Hr. done.
  - intros [Hc Hk]%andb_prop. rewrite !(plainish_ne c) by done. cbn [andb orb]. by rewrite IH.
Qed.

Lemma plain_parts t : plain t = true -> solid t = true /\ forallb plainish t = true /\ is_dash t = false.
Proof. unfold plain. intros [[? ?]%andb_prop ?%negb_true_iff]%andb_prop. done. Qed.

Lemma plain_starts x t : plainish x = false -> plain t = true -> starts x t = false.
Proof.
  intros Hx (_ & H & _)%plain_parts. destruct t as [|c t]; [done|]. cbn in *. apply andb_prop in H as [H _]. by apply plainish_ne.
Qed.

Lemma plain_is_quote t : plain t = true -> is_quote t = false.
Proof. intros H. unfold is_quote. by rewrite !plain_starts. Qed.

Lemma strip_comment_plain t : plain t = true -> strip_comment t = t.
Proof.
  intros H. unfold strip_comment. rewrite plain_starts by done. apply plain_parts in H as (_ & H & _). by rewrite comment_at_plain.
Qed.

Lemma find_key_plain t : plain t = true -> find_key t = None.
Proof.
  intros H. unfold find_key. rewrite plain_is_quote by done. apply plain_parts in H as (_ & H & _). by rewrite colon_at_plain.
Qed.

(** ** Quoted texts *)

Lemma control_cases c : 0 <= c < 32 -> c ∈ [0; 1; 2; 3; 4; 5; 6; 7; 8; 9; 10; 11; 12; 13; 14; 15; 16; 17; 18; 19; 20; 21; 22;
  23; 24; 25; 26; 27; 28; 29; 30; 31].
Proof. rewrite !elem_of_cons. lia. Qed.

Lemma double_quoted_escape c r : 0 <= c -> double_quoted (escape c ++ r) = push c (double_quoted r).
Proof.
  intros Hc. destruct (Z_lt_ge_dec c 32) as [H|H].
  - pose proof (control_cases c ltac:(lia)) as Hin.
    repeat (apply elem_of_cons in Hin as [->|Hin]; [reflexivity|]). by apply elem_of_nil in Hin.
  - unfold escape. destruct (Z.eqb_spec c 34) as [->|]; [done|]. destruct (Z.eqb_spec c 92) as [->|]; [done|].
    rewrite !(proj2 (Z.eqb_neq c _)) by lia. rewrite (proj2 (Z.ltb_ge c 32)) by lia. cbn [app double_quoted].
    by rewrite !(proj2 (Z.eqb_neq c _)) by lia.
Qed.

Lemma double_quoted_all t r : Forall (fun c => 0 <= c) t -> double_quoted (flat_map escape t ++ 34 :: r) = Some (t, r).
Proof.
  induction 1 as [|c t Hc Ht IH]; [done|]. cbn [flat_map]. rewrite <-app_assoc, double_quoted_escape by done. by rewrite IH.
Qed.

Lemma parse_quoted_quote t r : Forall (fun c => 0 <= c) t -> parse_quoted (quote t ++ r) = Some (t, r).
Proof. intros H. unfold quote. cbn [app parse_quoted]. cbn. rewrite <-app_assoc. by apply double_quoted_all. Qed.

(** Inside a quoted text no quote character is seen as closing it. *)
Lemma comment_at_quoted t prev : Forall (fun c => 0 <= c) t -> comment_at false true prev (flat_map escape t ++ [34]) = None.
Proof.
  intros Ht. revert prev. induction Ht as [|c t Hc Ht IH]; intros prev.
  { cbn. by destruct (prev_is prev 92). }
  cbn [flat_map]. rewrite <-app_assoc. destruct (Z_lt_ge_dec c 32) as [H|H].
  - pose proof (control_cases c ltac:(lia)) as Hin.
    repeat (apply elem_of_cons in Hin as [->|Hin]; [cbn; by rewrite IH|]). by apply elem_of_nil in Hin.
  - unfold escape. destruct (Z.eqb_spec c 34) as [->|]; [cbn; by rewrite IH|].
    destruct (Z.eqb_spec c 92) as [->|]; [cbn; by rewrite IH|].
    rewrite !(proj2 (Z.eqb_neq c _)) by lia. rewrite (proj2 (Z.ltb_ge c 32)) by lia. cbn [app comment_at].
    rewrite (proj2 (Z.eqb_neq c 34)) by lia. by destruct (c =? 39), (c =? 35); cbn [andb negb]; rewrite IH.
Qed.

Lemma strip_comment_quote t : Forall (fun c => 0 <= c) t -> strip_comment (quote t) = quote t.
Proof. intros H. unfold strip_comment, quote. cbn [starts comment_at]. cbn -[comment_at]. by rewrite comment_at_quoted. Qed.

(** ** Numbers *)

(** The codes of the character literals. *)
Ltac char_codes := repeat match goal with
  | |- context [ch ?c] => let z := eval vm_compute in (ch c) in change (ch c) with z
  | H : context [ch ?c] |- _ => let z := eval vm_compute in (ch c) in change (ch c) with z in H
  end.

Lemma one_of_ne (p : text -> bool) t l : p t = true -> forallb (fun s => negb (p (lit s))) l = true -> one_of t l = false.
Proof.
  intros Hp Hl. unfold one_of. induction l as [|s l IH]; [done|]. cbn in *. apply andb_prop in Hl as [Hs Hl].
  rewrite IH by done. unfold is_lit. case_bool_decide as E; [|done]. subst t. by rewrite Hp in Hs.
Qed.

Definition numchar (c : Z) : bool :=
  is_digit c || (c =? ch ".") || (c =? ch "e") || (c =? ch "E") || (c =? ch "+") || (c =? ch "-").

Lemma digit_numchar c : is_digit c = true -> numchar c = true.
Proof. unfold numchar. by intros ->. Qed.

Lemma forallb_digit t : forallb is_digit t = true -> forallb numchar t = true.
Proof. rewrite !forallb_forall. auto using digit_numchar. Qed.

Lemma numchar_facts c : numchar c = true -> plainish c = true /\ is_whitespace c = false.
Proof.
  unfold numchar, plainish, plain_char, is_alphanumeric, is_digit, is_whitespace. intros H. char_codes. split; lia.
Qed.

Lemma num_plain t : forallb numchar t = true -> t <> [] -> t <> lit "-" -> plain t = true.
Proof.
  intros H Hne Hd. rewrite forallb_forall in H. unfold plain, solid. destruct t as [|c r]; [done|].
  destruct (last_cons_Some c r) as (t' & d & E). rewrite (proj2 (numchar_facts c (H c (or_introl eq_refl)))).
  assert (numchar d = true) as Hnd by (apply H; rewrite E; apply in_or_app; right; by left).
  rewrite E at 1. rewrite ends_snoc, (proj2 (numchar_facts d Hnd)). cbn [negb andb].
  assert (forallb plainish (c :: r) = true) as -> by (apply forallb_forall; intros x Hx; by apply numchar_facts, H).
  unfold is_dash, is_lit. rewrite bool_decide_eq_false_2 by done. cbn [orb andb]. apply negb_true_iff, bool_decide_eq_false.
  destruct r as [|c' r]; [done|]. intros [= _ ->]. discriminate (H 32 (or_intror (or_introl eq_refl))).
Qed.

Lemma unsigned_cases t : let s := snd (unsigned t) in t = s \/ t = ch "-" :: s \/ t = ch "+" :: s.
Proof.
  unfold unsigned, strip. destruct t as [|c r]; [by left|]. destruct (Z.eqb_spec c (ch "-")) as [->|]; [auto|].
  destruct (Z.eqb_spec c (ch "+")) as [->|]; auto.
Qed.

Lemma unsigned_numchar t : forallb numchar (snd (unsigned t)) = true -> forallb numchar t = true.
Proof. intros H. destruct (unsigned_cases t) as [E|[E|E]]; rewrite E; cbn [forallb]; by rewrite H. Qed.

Lemma split_exponent_spec t : t = fst (split_exponent t) ++ match snd (split_exponent t) with Some e => ch "e" :: e | None => [] end \/
  t = fst (split_exponent t) ++ match snd (split_exponent t) with Some e => ch "E" :: e | None => [] end.
Proof.
  induction t as [|c t IH]; [by left|]. cbn [split_exponent].
  destruct (Z.eqb_spec c (ch "e")) as [->|]; [by left|]. destruct (Z.eqb_spec c (ch "E")) as [->|]; [by right|]. cbn [orb].
  destruct (split_exponent t) as [m e]. cbn in *. destruct IH as [-> | ->]; auto.
Qed.

Lemma split_dot_spec t : t = fst (split_dot t) ++ match snd (split_dot t) with Some f => ch "." :: f | None => [] end.
Proof.
  induction t as [|c t IH]; [done|]. cbn [split_dot]. destruct (Z.eqb_spec c (ch ".")) as [->|]; [done|].
  destruct (split_dot t) as [i f]. cbn in *. by rewrite IH at 1.
Qed.

Lemma digits_numchar t : digits t = true -> forallb numchar t = true.
Proof. unfold digits. intros [_ H]%andb_prop. by apply forallb_digit. Qed.

Lemma float_numchar t : is_float_syntax t = true -> forallb numchar t = true.
Proof.
  intros H. apply unsigned_numchar. unfold is_float_syntax in H. revert H. generalize (snd (unsigned t)). clear t. intros s.
  pose proof (split_exponent_spec s) as Hs. destruct (split_exponent s) as [m e]. cbn [fst snd] in Hs. intros [Hm He]%andb_prop.
  assert (forallb numchar m = true) as Hmn.
  { destruct (strip (ch ".") m) as [f|] eqn:Ef.
    - destruct m as [|c m]; [done|]. cbn in Ef. destruct (Z.eqb_spec c (ch ".")) as [->|]; [|done]. injection Ef as ->.
      cbn [forallb]. by rewrite digits_numchar.
    - pose proof (split_dot_spec m) as Hd. destruct (split_dot m) as [i [f|]]; cbn [fst snd] in Hd.
      + apply andb_prop in Hm as [Hi Hf]. rewrite Hd, forallb_app. cbn [forallb]. by rewrite digits_numchar, forallb_digit.
      + destruct e; [by apply digits_numchar|done]. }
  assert (forall x, numchar x = true -> forallb numchar (match e with Some e => x :: e | None => [] end) = true) as Hen.
  { intros x Hx. destruct e as [e|]; [|done]. cbn [forallb]. rewrite Hx. by apply unsigned_numchar, digits_numchar. }
  by destruct Hs as [-> | ->]; rewrite forallb_app, Hmn, Hen.
Qed.

Lemma read_digits_all acc s n : CanonicalText.read_digits acc s = (n, "") ->
  forallb is_digit (bytes_of_str s) = true /\
  fold_left (fun n c => n * 10 + digit_value c) (bytes_of_str s) (Z.of_N acc) = Z.of_N n.
Proof.
  revert acc; induction s as [|c s IH]; intros acc; cbn [CanonicalText.read_digits]; [by intros [= <-]|].
  unfold CanonicalText.is_digit. destruct (_ && _)%N eqn:E; [|discriminate]. intros H%IH.
  change (bytes_of_str (String c s)) with (Z.of_N (N_of_ascii c) :: bytes_of_str s). cbn [forallb fold_left].
  apply andb_prop in E as [E1 E2]. apply N.leb_le in E1, E2.
  assert (is_digit (Z.of_N (N_of_ascii c)) = true) as Hd by (unfold is_digit; lia).
  rewrite Hd. split; [apply H|]. destruct H as [_ <-]. unfold digit_value at 2. rewrite Hd. do 2 f_equal. lia.
Qed.

Lemma pretty_N_text (n : N) : digits (lit (pretty n)) = true /\ radix_value 10 (lit (pretty n)) = Z.of_N n.
Proof.
  pose proof (CanonicalText.read_pretty_N n "" I) as H. rewrite str_app_nil_r in H. apply read_digits_all in H as [H1 H2].
  destruct (CanonicalText.pretty_N_head n) as (c & r & E & _). unfold digits, lit. rewrite E in *. by rewrite H1.
Qed.

Lemma digits_unsigned t : digits t = true -> unsigned t = (false, t).
Proof.
  unfold digits. destruct t as [|c t]; [done|]. cbn [forallb]. intros [_ [Hc _]%andb_prop]%andb_prop. unfold unsigned, strip.
  assert ((c =? ch "-") = false /\ (c =? ch "+") = false) as [-> ->]; [|done]. unfold is_digit in Hc. char_codes. lia.
Qed.

Lemma pretty_Z_text (i : Z) : exists body, unsigned (lit (pretty i)) = (i <? 0, body) /\ digits body = true /\
  radix_value 10 body = Z.abs i /\ lit (pretty i) <> lit "-".
Proof.
  assert (forall n : N, exists body, unsigned (lit (pretty n)) = (false, body) /\ digits body = true /\
    radix_value 10 body = Z.of_N n /\ lit (pretty n) <> lit "-") as Hpos.
  { intros n. destruct (pretty_N_text n) as [Hd Hv]. exists (lit (pretty n)). split_and!; [by apply digits_unsigned|done|done|].
    intros E. by rewrite E in Hd. }
  destruct i as [|p|p].
  - exact (Hpos 0%N).
  - exact (Hpos (N.pos p)).
  - change (pretty (Z.neg p)) with (String "-" (pretty (N.pos p))). destruct (pretty_N_text (N.pos p)) as [Hd Hv].
    exists (lit (pretty (N.pos p))). split_and!; [done|done|done|]. intros E%(f_equal tail).
    change (lit (pretty (N.pos p)) = []) in E. by rewrite E in Hd.
Qed.

Lemma int_text (i : Z) : Z.abs i <= MAX_SAFE_INTEGER ->
  plain (lit (pretty i)) = true /\ resolve_scalar (lit (pretty i)) = Ok (jint i).
Proof.
  intros Hi. destruct (pretty_Z_text i) as (body & Hu & Hd & Hv & Hne). set (t := lit (pretty i)) in *. split.
  - apply num_plain; [|intros E; rewrite E in Hu; by injection Hu as _ <-|done]. apply unsigned_numchar. rewrite Hu. by apply digits_numchar.
  - unfold resolve_scalar. rewrite !(one_of_ne (fun t => digits (snd (unsigned t))) t) by (done || by rewrite Hu).
    unfold resolve_number, parse_i64. rewrite Hu. cbn [snd]. rewrite Hd, Hv. cbn [andb].
    assert (signed (i <? 0) (Z.abs i) = i) as -> by (unfold signed; destruct (Z.ltb_spec i 0); lia).
    unfold MAX_SAFE_INTEGER in Hi. unfold in_i64, i64_min. rewrite (proj2 (Z.leb_le _ _)), (proj2 (Z.ltb_lt _ _)) by lia. cbn [andb].
    unfold abs_i64, i64_min. rewrite (proj2 (Z.eqb_neq _ _)) by lia. by rewrite (proj2 (Z.leb_le _ _)).
Qed.

(** ** Scalars *)

Section roundtrip.
Variable show_f64 : Z -> string.

(** What the float printer promises of a finite double: a float literal that
    reads back as it. *)
Definition shown (bits : Z) : Prop :=
  is_float_syntax (lit (show_f64 bits)) = true /\ parse_f64 (lit (show_f64 bits)) = bits /\ is_finite bits = true.

Lemma float_not_digits t : is_float_syntax t = true -> digits (snd (unsigned t)) = false.
Proof.
  unfold is_float_syntax. generalize (snd (unsigned t)). clear t. intros s.
  pose proof (split_exponent_spec s) as Hs. destruct (split_exponent s) as [m e]. cbn [fst snd] in Hs. intros [Hm He]%andb_prop.
  apply not_true_iff_false. intros [_ Hd]%andb_prop. rewrite forallb_forall in Hd.
  assert (e = None) as ->.
  { destruct e as [e|]; [|done]. exfalso.
    destruct Hs as [Hs|Hs];
      match type of Hs with _ = _ ++ ?x :: _ => assert (In x s) as Hin by (rewrite Hs; apply in_or_app; right; by left) end;
      discriminate (Hd _ Hin). }
  assert (s = m) as -> by (destruct Hs as [Hs|Hs]; by rewrite app_nil_r in Hs). clear Hs.
  destruct (strip (ch ".") m) as [f|] eqn:Ef.
  - destruct m as [|c m]; [done|]. cbn in Ef. destruct (Z.eqb_spec c (ch ".")) as [->|]; [|done].
    discriminate (Hd (ch ".") (or_introl eq_refl)).
  - pose proof (split_dot_spec m) as Hsp. destruct (split_dot m) as [i [f|]]; [|done]. cbn in Hsp.
    assert (In (ch ".") m) as Hin by (rewrite Hsp; apply in_or_app; right; by left). discriminate (Hd _ Hin).
Qed.

Lemma radix_numchar p base ok t : forallb numchar t = true -> numchar p = false -> resolve_radix p base ok t = None.
Proof.
  intros Ht Hp. destruct t as [|z [|q body]]; [done|done|]. cbn [resolve_radix forallb] in *.
  destruct (Z.eqb_spec q p) as [->|]; [rewrite Hp in Ht; by destruct (numchar z)|]. by rewrite andb_false_r.
Qed.

Lemma float_text bits : shown bits ->
  plain (lit (show_f64 bits)) = true /\ resolve_scalar (lit (show_f64 bits)) = Ok (JNumber (NFloat bits)).
Proof.
  intros (Hf & Hp & Hb). set (t := lit (show_f64 bits)) in *. pose proof (float_numchar t Hf) as Hn. split.
  - apply num_plain; [done|by intros E; rewrite E in Hf|by intros E; rewrite E in Hf].
  - unfold resolve_scalar. rewrite !(one_of_ne is_float_syntax t) by done. unfold resolve_number.
    rewrite float_not_digits by done. rewrite !radix_numchar by done. unfold resolve_float. by rewrite Hf, Hp, Hb.
Qed.

(** A text that stands for the scalar [v] on a line. *)
Definition reads_as (f : text) (v : json) : Prop :=
  plain f = true /\ resolve_scalar f = Ok v \/ exists t, f = quote t /\ Forall (fun c => 0 <= c) t /\ v = jstr t.

Lemma quote_last t : exists q, quote t = 34 :: q /\ quote t = (34 :: flat_map escape t) ++ [34].
Proof. unfold quote. eexists. split; reflexivity. Qed.

Lemma reads_solid f v : reads_as f v -> solid f = true.
Proof.
  intros [[(H & _)%plain_parts _]|(t & -> & _)]; [done|]. destruct (quote_last t) as (q & E1 & E2).
  unfold solid. rewrite E1 at 1. by rewrite E2, ends_snoc.
Qed.

Lemma reads_dash f v : reads_as f v -> is_dash f = false.
Proof. by intros [[(_ & _ & H)%plain_parts _]|(t & -> & _)]. Qed.

Lemma reads_key f v : reads_as f v -> find_key f = None.
Proof.
  intros [[H _]|(t & -> & Ht & _)]; [by apply find_key_plain|]. unfold find_key. cbn [is_quote starts quote].
  rewrite <-(app_nil_r (quote t)). rewrite parse_quoted_quote by done. done.
Qed.

Lemma reads_strip f v : reads_as f v -> strip_comment f = f.
Proof. intros [[H _]|(t & -> & Ht & _)]; [by apply strip_comment_plain|by apply strip_comment_quote]. Qed.

Lemma reads_starts x f v : plainish x = false -> x <> 34 -> reads_as f v -> starts x f = false.
Proof.
  intros Hx Hq [[H _]|(t & -> & Ht & _)]; [by apply plain_starts|]. change ((34 =? x) = false). apply Z.eqb_neq. congruence.
Qed.

Lemma has_char_app c s t : has_char c (s ++ t) = has_char c s || has_char c t.
Proof. apply existsb_app. Qed.

Lemma plainish_no_lf t : forallb plainish t = true -> has_char 10 t = false.
Proof.
  induction t as [|c t IH]; [done|]. cbn [forallb has_char existsb]. intros [Hc Ht]%andb_prop.
  rewrite Z.eqb_sym, (plainish_ne c) by done. by apply IH.
Qed.

Lemma escape_no_lf c : 0 <= c -> has_char 10 (escape c) = false.
Proof.
  intros Hc. destruct (Z_lt_ge_dec c 32) as [H|H].
  - pose proof (control_cases c ltac:(lia)) as Hin.
    repeat (apply elem_of_cons in Hin as [->|Hin]; [reflexivity|]). by apply elem_of_nil in Hin.
  - unfold escape. destruct (Z.eqb_spec c 34) as [->|]; [done|]. destruct (Z.eqb_spec c 92) as [->|]; [done|].
    rewrite !(proj2 (Z.eqb_neq c _)) by lia. rewrite (proj2 (Z.ltb_ge c 32)) by lia. unfold has_char. cbn [existsb]. rewrite orb_false_r. apply Z.eqb_neq. lia.
Qed.

Lemma quote_no_lf t : Forall (fun c => 0 <= c) t -> has_char 10 (quote t) = false.
Proof.
  intros H. unfold quote. cbn [has_char existsb]. change (existsb (Z.eqb 10)) with (has_char 10). rewrite has_char_app.
  rewrite orb_false_r. cbn. induction H as [|c t Hc Ht IH]; [done|]. cbn [flat_map]. by rewrite has_char_app, escape_no_lf, IH.
Qed.

Lemma reads_no_lf f v : reads_as f v -> has_char 10 f = false.
Proof. intros [[(_ & H & _)%plain_parts _]|(t & -> & Ht & _)]; [by apply plainish_no_lf|by apply quote_no_lf]. Qed.

(** The items do not continue a scalar at that indentation. *)
Definition no_deeper (ind : nat) (s : list Line) : Prop :=
  match s with l :: _ => (indent l <= ind)%nat | [] => True end.

Lemma reads_inline f v ind raw s : reads_as f v -> no_deeper ind s -> parse_inline_value f ind raw s = ret v s.
Proof.
  intros Hf Hs. unfold parse_inline_value. rewrite !(reads_starts _ f v) by done. cbn [orb].
  pose proof (reads_strip f v Hf) as Hstrip. pose proof (reads_solid f v Hf) as Hsol. destruct Hf as [[H Hr]|(t & -> & Ht & ->)].
  - rewrite plain_is_quote by done. rewrite Hstrip.
    assert (fold_plain ind f s = (f, s)) as ->.
    { destruct s as [|l s]; [done|]. cbn in *. by rewrite (proj2 (Nat.leb_le _ _)). }
    rewrite trim_solid0 by done. unfold resolve_at. by rewrite Hr.
  - cbn [is_quote starts quote]. rewrite <-(app_nil_r (quote t)). by rewrite parse_quoted_quote.
Qed.

(** *** Strings *)

Lemma trim_start_head t : match trim_start t with c :: _ => is_whitespace c = false | [] => True end.
Proof. induction t as [|c t IH]; cbn; [done|]. by destruct (is_whitespace c) eqn:E. Qed.

Lemma trim_ends t : ends is_whitespace (trim t) = false.
Proof.
  unfold trim, trim_end, ends. rewrite last_reverse. pose proof (trim_start_head (reverse (trim_start t))) as H.
  destruct (trim_start (reverse _)); [done|]. exact H.
Qed.

Lemma plain_char_head c : is_alphanumeric c || (c =? ch "_") = true -> is_whitespace c = false /\ c <> ch "-".
Proof. unfold is_alphanumeric, is_digit, is_whitespace. intros H. char_codes. split; lia. Qed.

Lemma resolve_string t x : resolve_scalar t = Ok (JString x) -> x = str_of_chars t.
Proof.
  unfold resolve_scalar, resolve_number, resolve_radix, resolve_float, jstr, jint. intros H.
  repeat case_match; simplify_eq; done.
Qed.

Lemma unquoted_reads t : needs_quoting t = false -> reads_as t (jstr t) /\ forallb plain_char t = true.
Proof.
  unfold needs_quoting. destruct (is_empty t) eqn:E1; [done|]. destruct (plain_safe t) eqn:E2; [|done].
  case_bool_decide as E3; [|done]. cbn [orb negb]. destruct (resolve_scalar t) as [[| | |x| |]|] eqn:E4; try done. intros _.
  unfold plain_safe in E2. destruct t as [|c r] eqn:Et; [done|]. rewrite <-Et in *. apply andb_prop in E2 as [Hc Ht].
  split; [|done]. apply plain_char_head in Hc as [Hw Hd].
  left. apply resolve_string in E4 as Hx. rewrite E4, Hx. split; [|done].
  assert (forallb plainish t = true) as Hp.
  { rewrite !forallb_forall in *. intros y Hy. unfold plainish. by rewrite Ht. }
  unfold plain, solid. rewrite Hp. rewrite E3 at 2. rewrite trim_ends. unfold is_dash, is_lit. rewrite Et in *. rewrite Hw. cbn [negb andb].
  apply negb_true_iff, orb_false_intro; apply bool_decide_eq_false.
  - change (lit "-") with [ch "-"]. congruence.
  - change (lit "- ") with [ch "-"; 32]. destruct r; cbn [take]; congruence.
Qed.

Lemma scalars_nonneg t : Forall Utf8.is_scalar t -> Forall (fun c => 0 <= c) t.
Proof. intros H. eapply Forall_impl; [exact H|]. unfold Utf8.is_scalar. lia. Qed.

Abbreviation valid s := (valid_utf8 (bytes_of_str s) = true).

Lemma jstr_chars s : valid s -> jstr (chars s) = JString s.
Proof. intros H. unfold jstr. by rewrite str_of_chars_chars. Qed.

Lemma format_string_reads s : valid s -> reads_as (format_string s) (JString s).
Proof.
  intros Hs. unfold format_string. rewrite <-jstr_chars by done. destruct (needs_quoting (chars s)) eqn:E.
  - right. exists (chars s). split_and!; [done| |done]. by apply scalars_nonneg, chars_scalars.
  - by apply unquoted_reads.
Qed.

(** The scalars the reader can tell apart. *)
Definition scalar_ok (v : json) : Prop :=
  match v with
  | JNumber (NInt i) => Z.abs i <= MAX_SAFE_INTEGER
  | JNumber (NFloat bits) => shown bits
  | JString s => valid s
  | _ => True
  end.

Lemma format_scalar_reads v : is_scalar v = true -> scalar_ok v -> reads_as (format_scalar show_f64 v) v.
Proof.
  destruct v as [|[]|[i|b]|s| |]; cbn [is_scalar scalar_ok format_scalar show_number]; try done; intros _ H.
  - left. by split.
  - left. by split.
  - left. by split.
  - left. by apply int_text.
  - left. by apply float_text.
  - by apply format_string_reads.
Qed.

(** ** Lines and items *)

Lemma solid_app a m b : solid a = true -> solid b = true -> solid (a ++ m ++ b) = true.
Proof.
  intros Ha (b' & d & -> & Hd)%solid_last. destruct (solid_head a Ha) as (c & r & -> & Hc). unfold solid.
  rewrite !app_assoc, ends_snoc, Hd. cbn. by rewrite Hc.
Qed.

(** The content of a line that is neither a comment nor a marker. *)
Definition good (c : text) : bool := solid c && negb (starts 35 c) && negb (is_lit c "---") && negb (is_lit c "...").

(** The item of one line. *)
Definition item_of (i : nat) (raw : text) : list Line :=
  let trimmed := trim_end raw in
  let ind := count_indent trimmed in
  let c := drop ind trimmed in
  if is_empty c || starts 35 c || is_lit c "..." then [] else [mk_Line ind c i].
Fixpoint its (i : nat) (ls : list text) : list Line :=
  match ls with [] => [] | l :: ls' => item_of i l ++ its (S i) ls' end.

Definition line_ok (raw : text) : bool :=
  let trimmed := trim_end raw in
  let ind := count_indent trimmed in
  negb (has_char 9 (take ind raw) || starts 9 (trim_start_of 32 raw) && blank raw) && negb (is_lit (drop ind trimmed) "---").

Lemma scan_its i first ls : forallb line_ok ls = true -> scan i first ls = Ok (its i ls).
Proof.
  revert i first; induction ls as [|l ls IH]; intros i first; [done|]. cbn [forallb scan its]. intros [Hl Hls]%andb_prop.
  unfold line_ok in Hl. cbn zeta in Hl. apply andb_prop in Hl as [H1%negb_true_iff H2%negb_true_iff]. rewrite H1, H2.
  unfold item_of. cbn zeta. destruct (is_empty _); [by apply IH|]. destruct (starts 35 _); [by apply IH|]. cbn [orb].
  destruct (is_lit _ "..."); [by apply IH|]. by rewrite IH.
Qed.

Lemma its_app i a b : its i (a ++ b) = its i a ++ its (i + length a) b.
Proof.
  revert i; induction a as [|l a IH]; intros i; cbn [its app length]; [by rewrite Nat.add_0_r|].
  rewrite IH, app_assoc. do 2 f_equal. lia.
Qed.

Lemma its_raw i ls : Forall (fun l => (i <= raw l < i + length ls)%nat) (its i ls).
Proof.
  revert i; induction ls as [|l ls IH]; intros i; [constructor|]. cbn [its length]. apply Forall_app. split.
  - unfold item_of. cbn zeta. case_match; [constructor|]. repeat constructor; cbn; lia.
  - eapply Forall_impl; [apply (IH (S i))|]. cbn. intros x Hx. lia.
Qed.

Lemma skip_items_app n a b : Forall (fun l => (raw l < n)%nat) a -> Forall (fun l => (n <= raw l)%nat) b -> skip_items n (a ++ b) = b.
Proof.
  intros Ha Hb. induction Ha as [|l a Hl Ha IH]; cbn [app skip_items].
  - destruct b as [|l b]; [done|]. cbn [skip_items]. apply Forall_cons in Hb as [Hl _]. by rewrite (proj2 (Nat.ltb_ge _ _)).
  - by rewrite (proj2 (Nat.ltb_lt _ _)).
Qed.

Lemma skip_its i a b : skip_items (i + length a) (its i (a ++ b)) = its (i + length a) b.
Proof.
  rewrite its_app. apply skip_items_app.
  - eapply Forall_impl; [apply its_raw|]. cbn. lia.
  - eapply Forall_impl; [apply its_raw|]. cbn. lia.
Qed.

Lemma good_parts c : good c = true -> solid c = true /\ starts 35 c = false /\ is_lit c "---" = false /\ is_lit c "..." = false.
Proof. unfold good. rewrite !andb_true_iff, !negb_true_iff. tauto. Qed.

Lemma good_line k c : good c = true ->
  trim_end (repeat 32 k ++ c) = repeat 32 k ++ c /\ count_indent (repeat 32 k ++ c) = k /\ blank (repeat 32 k ++ c) = false.
Proof.
  intros (H & _)%good_parts. split_and!; [by apply trim_end_solid| |].
  - destruct (solid_head c H) as (x & r & -> & Hx). apply count_indent_pad. by intros ->.
  - unfold blank. rewrite trim_solid by done. by destruct (solid_head c H) as (x & r & -> & _).
Qed.

Lemma its_good i k c ls : good c = true -> its i ((repeat 32 k ++ c) :: ls) = mk_Line k c i :: its (S i) ls.
Proof.
  intros H. destruct (good_line k c H) as (H1 & H2 & _). cbn [its]. unfold item_of. cbn zeta. rewrite H1, H2, drop_pad.
  apply good_parts in H as (Hs & -> & _ & ->). by destruct (solid_head c Hs) as (x & r & -> & _).
Qed.

Lemma has_char_spaces c k n : c <> 32 -> has_char c (take n (repeat 32 k)) = false.
Proof.
  intros H. revert n; induction k as [|k IH]; intros [|n]; cbn; try done. unfold has_char in IH. rewrite IH. rewrite orb_false_r. by apply Z.eqb_neq.
Qed.

Lemma line_ok_good k c : good c = true -> line_ok (repeat 32 k ++ c) = true.
Proof.
  intros H. destruct (good_line k c H) as (H1 & H2 & H3). unfold line_ok. cbn zeta. rewrite H1, H2, H3, drop_pad, andb_false_r.
  rewrite take_app_length' by by rewrite repeat_length. rewrite <-(take_ge (repeat 32 k) k) by by rewrite repeat_length.
  rewrite has_char_spaces by done. apply good_parts in H as (_ & _ & -> & _). done.
Qed.

(** What follows a node: the end of the text, or a line indented less than [k]. *)
Definition stop (k : nat) (ls : list text) : Prop :=
  ls = [[]] \/ exists j c ls', ls = (repeat 32 j ++ c) :: ls' /\ good c = true /\ (j < k)%nat.

Lemma stop_mono k k' ls : stop k ls -> (k <= k')%nat -> stop k' ls.
Proof. intros [->|(j & c & ls' & -> & Hc & Hj)] Hk; [by left|]. right. exists j, c, ls'. split_and!; [done|done|lia]. Qed.

Lemma stop_good k j c ls : good c = true -> (j < k)%nat -> stop k ((repeat 32 j ++ c) :: ls).
Proof. intros. right. by eexists _, _, _. Qed.

Lemma stop_items k r ls : stop k ls -> its r ls = [] \/ exists l s, its r ls = l :: s /\ (indent l < k)%nat.
Proof. intros [->|(j & c & ls' & -> & Hc & Hj)]; [by left|]. right. rewrite its_good by done. by eexists _, _. Qed.

Lemma stop_no_deeper k r ls : stop (S k) ls -> no_deeper k (its r ls).
Proof. intros H. destruct (stop_items _ r _ H) as [->|(l & s & -> & Hl)]; cbn; [done|lia]. Qed.

(** ** Keys *)

Definition key_text (k : string) (f : text) : Prop :=
  f = quote (chars k) \/ f = chars k /\ reads_as (chars k) (jstr (chars k)) /\ forallb plain_char (chars k) = true.

Lemma format_key_text k : key_text k (format_key k).
Proof.
  unfold format_key. destruct (needs_quoting (chars k)) eqn:E; [by left|]. cbn [orb]. destruct (_ || _); [by left|].
  right. apply unquoted_reads in E as [? ?]. done.
Qed.

Lemma key_solid k : valid k -> solid (format_key k) = true.
Proof.
  intros Hk. destruct (format_key_text k) as [->|(-> & H & _)]; [|by eapply reads_solid].
  eapply reads_solid. right. exists (chars k). split_and!; [done|by apply scalars_nonneg, chars_scalars|reflexivity].
Qed.

Lemma key_no_lf k : valid k -> has_char 10 (format_key k) = false.
Proof.
  intros Hk. destruct (format_key_text k) as [->|(-> & H & _)]; [|by eapply reads_no_lf].
  by apply quote_no_lf, scalars_nonneg, chars_scalars.
Qed.

Lemma plain_char_ne c x : plain_char c = true -> plain_char x = false -> (c =? x) = false.
Proof. intros Hc Hx. apply Z.eqb_neq. intros ->. congruence. Qed.

(** The first character of a key. *)
Lemma key_head k : valid k -> exists c r, format_key k = c :: r /\ c <> ch "-" /\ c <> 35 /\ c <> ch "." /\ is_whitespace c = false.
Proof.
  intros Hk. pose proof (key_solid k Hk) as Hs. unfold format_key in *.
  destruct (needs_quoting (chars k)) eqn:E; [by eexists _, _|]. cbn [orb] in *. destruct (_ || _); [by eexists _, _|].
  unfold needs_quoting in E. destruct (is_empty (chars k)) eqn:E1; [done|]. destruct (plain_safe (chars k)) eqn:E2; [|done].
  unfold plain_safe in E2. destruct (chars k) as [|c r]; [done|]. exists c, r. apply andb_prop in E2 as [Hc _].
  unfold is_alphanumeric, is_digit in Hc. unfold is_whitespace. char_codes. split_and!; try done; lia.
Qed.

Lemma find_key_entry k r : valid k -> is_empty r || starts 32 r = true ->
  find_key (format_key k ++ ch ":" :: r) = Some (chars k, strip_comment (trim r)).
Proof.
  intros Hk Hr. destruct (format_key_text k) as [->|(-> & Hf & Hp)]; unfold find_key.
  - change (is_quote (quote (chars k) ++ ch ":" :: r)) with true. cbn iota.
    rewrite parse_quoted_quote by by apply scalars_nonneg, chars_scalars. cbn [mbind option_bind].
    change (trim_start (ch ":" :: r)) with (ch ":" :: r). change (strip (ch ":") (ch ":" :: r)) with (Some r). cbn [mbind option_bind].
    destruct r as [|c r]; [done|]. cbn [is_empty orb] in Hr. by rewrite Hr.
  - pose proof (reads_solid _ _ Hf) as Hsol.
    assert (forallb plainish (chars k) = true) as Hpl.
    { rewrite !forallb_forall in *. intros y Hy. unfold plainish. by rewrite Hp. }
    assert (is_quote (chars k ++ ch ":" :: r) = false) as ->.
    { destruct (chars k) as [|c t]; [done|]. cbn [app is_quote starts forallb] in *. unfold is_quote. cbn [starts].
      apply andb_prop in Hp as [Hp _]. by rewrite !(plain_char_ne c). }
    rewrite colon_at_key by done. cbn [mbind option_bind]. rewrite take_app_length. rewrite trim_solid0 by done.
    assert (is_empty (chars k) || starts 35 (chars k) = false) as ->.
    { destruct (chars k) as [|c t]; [done|]. cbn [is_empty starts orb]. cbn in Hp. apply andb_prop in Hp as [Hp _]. by apply plain_char_ne. }
    rewrite drop_app_ge by lia. by replace (S (length (chars k)) - length (chars k))%nat with 1%nat by lia.
Qed.

Lemma key_line_good k r : valid k -> r = [] \/ (exists f, r = 32 :: f /\ solid f = true) ->
  good (format_key k ++ ch ":" :: r) = true /\ is_dash (format_key k ++ ch ":" :: r) = false.
Proof.
  intros Hk Hr. destruct (key_head k Hk) as (c & t & E & H1 & H2 & H3 & H4). split.
  - assert (solid (format_key k ++ ch ":" :: r) = true) as Hs.
    { destruct Hr as [->|(f & -> & Hf)].
      - rewrite <-(app_nil_l [ch ":"]). by apply (solid_app _ []); [apply key_solid|].
      - change (ch ":" :: 32 :: f) with ([ch ":"; 32] ++ f). apply solid_app; [by apply key_solid|done]. }
    unfold good. rewrite Hs, E. cbn [app starts]. rewrite (proj2 (Z.eqb_neq c 35)) by done. unfold is_lit.
    rewrite !bool_decide_eq_false_2; [done| |].
    + change (lit "...") with [ch "."; ch "."; ch "."]. congruence.
    + change (lit "---") with [ch "-"; ch "-"; ch "-"]. congruence.
  - unfold is_dash, is_lit. rewrite E. cbn [app]. rewrite !bool_decide_eq_false_2; [done| |].
    + change (lit "- ") with [ch "-"; 32]. destruct t; cbn [app take]; congruence.
    + change (lit "-") with [ch "-"]. congruence.
Qed.

(** ** The physical lines of a node *)

Definition entry_head (val : json) : text :=
  match val with
  | JArray [] => lit " []"
  | JObject [] => lit " {}"
  | JArray _ | JObject _ => []
  | JString s => if block_ok (chars s) then lit " |-" else 32 :: format_scalar show_f64 val
  | _ => 32 :: format_scalar show_f64 val
  end.
Definition entry_tail (node : json -> nat -> list text) (val : json) (n : nat) : list text :=
  match val with
  | JArray (_ :: _) | JObject (_ :: _) => node val n
  | JString s => if block_ok (chars s) then map (body_line n) (split 10 (chars s)) else []
  | _ => []
  end.

Definition key_line (k : string) (val : json) : text := format_key k ++ ch ":" :: entry_head val.

(** The first line of a sequence item, and the lines after it. *)
Definition item_head (item : json) : text :=
  match item with
  | JArray [] => lit "- " ++ lit "[]"
  | JArray _ => lit "-"
  | JObject [] => lit "- " ++ lit "{}"
  | JObject ((k, val) :: _) => lit "- " ++ key_line k val
  | _ => lit "- " ++ format_scalar show_f64 item
  end.
Definition entry_lines (node : json -> nat -> list text) (n : nat) (kv : string * json) : list text :=
  (pad n ++ key_line kv.1 kv.2) :: entry_tail node kv.2 (n + 1).
Definition item_tail (node : json -> nat -> list text) (item : json) (n : nat) : list text :=
  match item with
  | JArray (_ :: _) => node item (n + 1)%nat
  | JObject ((k, val) :: fs) => entry_tail node val (n + 1 + 1) ++ flat_map (entry_lines node (n + 1)) fs
  | _ => []
  end.

Fixpoint node_lines (v : json) (n : nat) : list text :=
  match v with
  | JArray items => flat_map (fun item => (pad n ++ item_head item) :: item_tail node_lines item n) items
  | JObject fields => flat_map (entry_lines node_lines n) fields
  | _ => []
  end.

(** ** Block scalars *)

Lemma trim_start_nil t : trim_start t = [] <-> forallb is_whitespace t = true.
Proof. induction t as [|c t IH]; cbn; [done|]. by destruct (is_whitespace c); cbn. Qed.

Lemma trim_start_app a b : forallb is_whitespace a = false -> trim_start (a ++ b) = trim_start a ++ b.
Proof. induction a as [|c a IH]; cbn; [done|]. by destruct (is_whitespace c); cbn. Qed.

Lemma forallb_reverse {A} (p : A -> bool) l : forallb p (reverse l) = forallb p l.
Proof.
  apply eq_true_iff_eq. rewrite !forallb_forall. setoid_rewrite <-list_elem_of_In. by setoid_rewrite elem_of_reverse.
Qed.

Lemma trim_end_app p x : forallb is_whitespace x = false -> trim_end (p ++ x) = p ++ trim_end x.
Proof.
  intros H. unfold trim_end. rewrite reverse_app, trim_start_app by by rewrite forallb_reverse.
  by rewrite reverse_app, reverse_involutive.
Qed.

Lemma trim_end_cons c x : is_whitespace c = false -> exists r, trim_end (c :: x) = c :: r.
Proof.
  intros Hc. unfold trim_end. rewrite reverse_cons. destruct (trim_start_snoc (reverse x) c Hc) as (l' & ->).
  rewrite reverse_snoc. eauto.
Qed.

Lemma blank_spec x : blank x = forallb is_whitespace x.
Proof.
  unfold blank, trim. induction x as [|c x IH]; [done|]. cbn [trim_start forallb]. destruct (is_whitespace c) eqn:E; [exact IH|].
  destruct (trim_end_cons c x E) as (r & ->). done.
Qed.

Lemma split_spaces l : exists j x, l = repeat 32 j ++ x /\ trim_start_of 32 l = x /\ starts 32 x = false.
Proof.
  induction l as [|c l (j & x & E1 & E2 & E3)]; [by exists O, []|]. cbn. destruct (Z.eqb_spec c 32) as [->|Hc].
  - exists (S j), x. split_and!; [cbn; by f_equal|done|done].
  - exists O, (c :: l). split_and!; [done|done|]. cbn. by apply Z.eqb_neq.
Qed.

Lemma count_indent_spaces j x : starts 32 x = false -> count_indent (repeat 32 j ++ x) = j.
Proof. intros H. induction j as [|j IH]; cbn; [|by rewrite IH]. destruct x as [|c x]; [done|]. cbn in *. by rewrite H. Qed.

(** A line of a multi-line string that the block form keeps. *)
Definition safe_line (l : text) : bool :=
  is_empty l || negb (blank l) && negb (ends (Z.eqb 13) l) && negb (is_lit (trim_end (trim_start_of 32 l)) "---").

Lemma repeat_pad n j (x : text) : pad n ++ repeat 32 j ++ x = repeat 32 (2 * n + j) ++ x.
Proof. unfold pad. by rewrite repeat_app, app_assoc. Qed.

Lemma safe_line_ok n l : safe_line l = true -> line_ok (body_line n l) = true.
Proof.
  unfold safe_line, body_line. destruct (is_empty l) eqn:E; [done|]. cbn [orb]. rewrite !andb_true_iff, !negb_true_iff.
  intros [[Hb _] Hd]. destruct (split_spaces l) as (j & x & El & Et & Hx). rewrite Et in Hd. rewrite El in Hb |- *.
  rewrite repeat_pad. rewrite blank_spec, forallb_app in Hb. unfold line_ok. cbn zeta.
  assert (forallb is_whitespace x = false) as Hw.
  { rewrite (proj2 (forallb_forall _ (repeat 32 j))) in Hb; [done|]. by intros y ->%repeat_spec. }
  rewrite trim_end_app by done. assert (starts 32 (trim_end x) = false) as Hx'.
  { destruct x as [|c x]; [done|]. destruct (is_whitespace c) eqn:Ec.
    - change (c :: x) with ([c] ++ x) in *. rewrite trim_end_app; [exact Hx|]. cbn in Hw. by rewrite Ec in Hw.
    - by destruct (trim_end_cons c x Ec) as (r & ->). }
  rewrite count_indent_spaces by done. rewrite drop_pad, Hd. rewrite blank_spec, forallb_app, Hw, !andb_false_r.
  rewrite take_app_length' by by rewrite repeat_length. rewrite <-(take_ge (repeat 32 _) (2 * n + j)) by by rewrite repeat_length.
  by rewrite has_char_spaces.
Qed.

Lemma join_split c t : join c (split c t) = t.
Proof.
  induction t as [|d t IH]; [done|]. cbn [split]. destruct (Z.eqb_spec d c) as [->|].
  - cbn [join]. destruct (split c t) eqn:E; [|by cbn; rewrite <-IH]. by destruct t; cbn in E; repeat case_match.
  - destruct (split c t) as [|l ls]; [by cbn in *; subst|]. destruct ls; cbn in *; by rewrite <-IH.
Qed.

Lemma split_no c t : forallb (fun l => negb (has_char c l)) (split c t) = true.
Proof.
  induction t as [|d t IH]; [done|]. cbn [split]. destruct (Z.eqb_spec d c) as [->|Hd]; [done|].
  destruct (split c t) as [|l ls]; cbn in *; rewrite (proj2 (Z.eqb_neq c d)) by congruence; done.
Qed.

Lemma split_snoc c t d : d <> c -> exists ls l, split c (t ++ [d]) = ls ++ [l ++ [d]].
Proof.
  intros Hd. induction t as [|x t (ls & l & E)]; cbn [split app].
  - rewrite (proj2 (Z.eqb_neq d c)) by done. by exists [], [].
  - destruct (x =? c); [exists ([] :: ls), l; by rewrite E|]. rewrite E. destruct ls as [|l0 ls]; cbn.
    + by exists [], (x :: l).
    + by exists ((x :: l0) :: ls), l.
Qed.

Lemma split_head c x t : x <> c -> exists l ls, split c (x :: t) = (x :: l) :: ls.
Proof.
  intros H. cbn [split]. rewrite (proj2 (Z.eqb_neq x c)) by done. destruct (split c t); eauto.
Qed.

Lemma extent_stop k i en ls : stop (S k) ls -> block_extent k i en ls = en.
Proof.
  intros [->|(j & c & ls' & -> & Hc & Hj)]; [done|]. destruct (good_line j c Hc) as (_ & H2 & H3).
  cbn [block_extent]. rewrite H3, H2. by rewrite (proj2 (Nat.leb_le _ _)) by lia.
Qed.

Lemma extent_body k i en body l ls : Forall (fun l => blank l = true \/ (k < count_indent l)%nat) body ->
  blank l = false -> (k < count_indent l)%nat -> stop (S k) ls ->
  block_extent k i en ((body ++ [l]) ++ ls) = (i + length (body ++ [l]))%nat.
Proof.
  intros Hbody Hb Hl Hls. revert i en; induction Hbody as [|x body Hx Hbody IH]; intros i en; cbn [app block_extent length].
  - rewrite Hb, (proj2 (Nat.leb_gt _ _)) by done. rewrite extent_stop by done. lia.
  - destruct (blank x) eqn:Ex.
    + rewrite IH. lia.
    + destruct Hx as [|Hx]; [congruence|]. rewrite (proj2 (Nat.leb_gt _ _)) by done. rewrite IH. lia.
Qed.

(** ** Reading back *)

(** The multi-line string values are kept by the block form. *)
Definition string_ok (v : json) : Prop :=
  match v with
  | JString s => block_ok (chars s) = true -> forallb safe_line (split 10 (chars s)) = true
  | _ => True
  end.

Fixpoint yaml_ok (v : json) : Prop :=
  match v with
  | JArray items => (fix go l := match l with [] => True | x :: l' => yaml_ok x /\ go l' end) items
  | JObject fields =>
    NoDup (fields.*1) /\
    (fix go l := match l with [] => True | kv :: l' => (valid kv.1 /\ string_ok kv.2 /\ yaml_ok kv.2) /\ go l' end) fields
  | _ => scalar_ok v
  end.

Lemma yaml_ok_array items : yaml_ok (JArray items) <-> Forall yaml_ok items.
Proof. cbn. induction items as [|x l IH]; [by split; [constructor|]|]. by rewrite Forall_cons, IH. Qed.

Definition entry_ok (kv : string * json) : Prop := valid kv.1 /\ string_ok kv.2 /\ yaml_ok kv.2.

Lemma yaml_ok_object fields : yaml_ok (JObject fields) <-> NoDup (fields.*1) /\ Forall entry_ok fields.
Proof.
  cbn [yaml_ok]. apply and_iff_compat_l. induction fields as [|x l IH]; [by split; [constructor|]|]. by rewrite Forall_cons, IH.
Qed.

Lemma yaml_ok_scalar v : is_scalar v = true -> yaml_ok v -> scalar_ok v.
Proof. by destruct v. Qed.

Definition nonempty (v : json) : bool := match v with JArray (_ :: _) | JObject (_ :: _) => true | _ => false end.

(** The head of an entry whose value is a scalar, or an empty collection. *)
Lemma entry_head_shape val : yaml_ok val -> entry_head val = [] \/ (exists f, entry_head val = 32 :: f /\ solid f = true).
Proof.
  intros Hv. assert (forall v, is_scalar v = true -> yaml_ok v -> exists f, 32 :: format_scalar show_f64 v = 32 :: f /\ solid f = true) as Hs.
  { intros v H1 H2. eexists. split; [reflexivity|]. eapply reads_solid, format_scalar_reads; [done|]. by apply yaml_ok_scalar. }
  destruct val as [| | |s|[|]|[|]]; cbn [entry_head]; try (right; by apply Hs); try (by left); try (right; by eexists).
  destruct (block_ok (chars s)); [right; by eexists|right; by apply Hs].
Qed.

Lemma key_line_ok k val : valid k -> yaml_ok val -> good (key_line k val) = true /\ is_dash (key_line k val) = false.
Proof. intros Hk Hv. apply key_line_good; [done|]. by apply entry_head_shape. Qed.

Lemma key_line_find k val : valid k -> yaml_ok val -> find_key (key_line k val) = Some (chars k, strip_comment (trim (entry_head val))).
Proof. intros Hk Hv. apply find_key_entry; [done|]. by destruct (entry_head_shape val Hv) as [->|(f & -> & _)]. Qed.

Section reading.
(** All the lines of the text. *)
Variable L : list text.

(** [m] answers [a], leaving [s], unless it runs out of fuel. *)
Definition gives {A} (m : parser A) (a : A) (s : list Line) : Prop := m = None \/ m = ret a s.

Lemma gives_bind {A B} (m : parser A) (f : A -> list Line -> parser B) a s b s' :
  gives m a s -> gives (f a s) b s' -> gives (parse_bind m f) b s'.
Proof. intros [-> | ->]; cbn; [by left|done]. Qed.

Lemma block_read t e r ls : block_ok t = true -> forallb safe_line (split 10 t) = true ->
  drop (S r) L = map (body_line (e + 1)) (split 10 t) ++ ls -> stop (S (2 * e)) ls ->
  parse_block_scalar L (lit "|-") (2 * e) r (its (S r) (map (body_line (e + 1)) (split 10 t) ++ ls)) =
  ret t (its (S r + length (map (body_line (e + 1)) (split 10 t))) ls).
Proof.
  intros Hok Hsafe HL Hls. unfold block_ok in Hok. rewrite !andb_true_iff, !negb_true_iff in Hok. destruct Hok as [[[Hlf Hh] He] _].
  destruct t as [|c0 t0] eqn:Et; [done|]. rewrite <-Et in *. assert (c0 <> 10) as Hc0 by (by intros ->).
  destruct (split_head 10 c0 t0 Hc0) as (l0 & ls0 & Hsp0). rewrite <-Et in Hsp0.
  destruct (last_cons_Some c0 t0) as (t' & d & Etd). rewrite <-Et in Etd. rewrite Etd, ends_snoc in He.
  destruct (split_snoc 10 t' d ltac:(by intros ->)) as (ls1 & l1 & Hsp1). rewrite <-Etd in Hsp1.
  set (lsp := split 10 t) in *. set (body := map (body_line (e + 1)) lsp) in *.
  assert (forall l, l ∈ lsp -> is_empty l = false -> blank (body_line (e + 1) l) = false /\ (2 * e < count_indent (body_line (e + 1) l))%nat
    /\ block_line (2 * (e + 1)) (body_line (e + 1) l) = l) as Hline.
  { intros l Hl Hne. rewrite forallb_forall in Hsafe. specialize (Hsafe l ltac:(by apply list_elem_of_In)).
    unfold safe_line in Hsafe. rewrite Hne in Hsafe. cbn [orb] in Hsafe. rewrite !andb_true_iff, !negb_true_iff in Hsafe.
    destruct Hsafe as [[Hb _] _]. unfold body_line. rewrite Hne. destruct (split_spaces l) as (j & x & El & _ & Hx).
    assert (count_indent (pad (e + 1) ++ l) = 2 * (e + 1) + j)%nat as Hci by (rewrite El, repeat_pad; by apply count_indent_spaces).
    assert (blank (pad (e + 1) ++ l) = false) as Hbl.
    { rewrite blank_spec in *. rewrite forallb_app, Hb. apply andb_false_r. }
    split_and!; [done|lia|]. unfold block_line. rewrite Hbl, Hci. rewrite Nat.min_l by lia. apply drop_pad. }
  assert (block_extent (2 * e) 0 0 (body ++ ls) = length body) as Hext.
  { subst body. rewrite Hsp1, map_app. cbn [map].
    destruct (Hline (l1 ++ [d]) ltac:(rewrite Hsp1; set_solver) ltac:(by destruct l1)) as (H1 & H2 & _).
    rewrite extent_body; [done| |done|done|done]. apply Forall_forall. intros x (l & -> & Hl)%list_elem_of_fmap.
    destruct (is_empty l) eqn:E; [left; unfold body_line; by rewrite E|]. right. apply Hline; [rewrite Hsp1; set_solver|done]. }
  assert (first_indent body = Some (2 * (e + 1))%nat) as Hfi.
  { subst body. rewrite Hsp0. cbn [map]. unfold first_indent. cbn [List.find].
    destruct (Hline (c0 :: l0) ltac:(rewrite Hsp0; set_solver) eq_refl) as (-> & _). cbn. f_equal. apply count_indent_pad.
    intros ->. done. }
  assert (map (block_line (2 * (e + 1))) body = lsp) as Hbl.
  { subst body. rewrite map_map. rewrite <-(map_id lsp) at 2. apply map_ext_in. intros l Hl. destruct (is_empty l) eqn:E.
    - destruct l; [done|discriminate E].
    - apply Hline; [by apply list_elem_of_In|done]. }
  assert (kept lsp = lsp) as Hk.
  { unfold kept. rewrite Hsp1, reverse_snoc. cbn [drop_empty]. assert (is_empty (l1 ++ [d]) = false) as -> by by destruct l1.
    by rewrite reverse_cons, reverse_involutive. }
  unfold parse_block_scalar. change (block_header _ _ _ _) with (Some (Strip, @None nat)). cbn iota zeta.
  rewrite HL, Hext. rewrite take_app_length, Hfi. cbn [opt_or unwrap_or]. rewrite (proj2 (Nat.leb_gt _ _)) by lia.
  rewrite Hbl, Hk. change (starts (ch ">") (lit "|-")) with false. cbn iota. rewrite skip_its. cbn [chomped].
  subst lsp. rewrite join_split. rewrite Etd, trim_end_of_last; [done|]. by intros <-.
Qed.

(** What reading a node back means. *)
Definition reads_node (v : json) : Prop := forall n r ls fuel min,
  yaml_ok v -> nonempty v = true -> drop r L = node_lines v n ++ ls -> stop (2 * n) ls -> (min <= 2 * n)%nat ->
  gives (parse_node L fuel min (its r (node_lines v n ++ ls))) v (its (r + length (node_lines v n)) ls).

Lemma inline_empty ind raw s :
  parse_inline_value (lit "[]") ind raw s = ret (JArray []) s /\ parse_inline_value (lit "{}") ind raw s = ret (JObject []) s.
Proof. by destruct s. Qed.

Lemma item_head_ok item : yaml_ok item -> good (item_head item) = true /\ is_dash (item_head item) = true.
Proof.
  intros Hi. assert (forall x, solid x = true -> good (lit "- " ++ x) = true /\ is_dash (lit "- " ++ x) = true) as Hd.
  { intros x Hx. split; [|done]. unfold good. change (lit "- " ++ x) with ([ch "-"] ++ [32] ++ x).
    by rewrite (solid_app [ch "-"] [32] x). }
  assert (forall v, is_scalar v = true -> yaml_ok v -> solid (format_scalar show_f64 v) = true) as Hs.
  { intros v H1 H2. eapply reads_solid, format_scalar_reads; [done|]. by apply yaml_ok_scalar. }
  destruct item as [| | | |[|]|[|[k val] fs]]; cbn [item_head]; try (apply Hd; by apply Hs); try (by apply Hd); [done|].
  apply Hd. apply yaml_ok_object in Hi as (_ & ((Hk & _ & Hv) & _)%Forall_cons).
  destruct (key_line_ok k val Hk Hv) as [(H & _)%good_parts _]. done.
Qed.

(** The line a non-empty collection starts with. *)
Lemma node_first v n : yaml_ok v -> nonempty v = true -> exists c rest,
  node_lines v n = (repeat 32 (2 * n) ++ c) :: rest /\ good c = true.
Proof.
  destruct v as [| | | |[|x xs]|[|[k val] fs]]; try done.
  - intros (Hx & _)%yaml_ok_array%Forall_cons _. do 2 eexists. split; [reflexivity|]. by apply item_head_ok.
  - intros (_ & ((Hk & _ & Hv) & _)%Forall_cons)%yaml_ok_object _. do 2 eexists. split; [reflexivity|]. by apply key_line_ok.
Qed.

Lemma entry_read e k val r ls fuel : reads_node val -> entry_ok (k, val) ->
  drop (S r) L = entry_tail node_lines val (e + 1) ++ ls -> stop (S (2 * e)) ls ->
  gives (entry_value L (parse_node L fuel) (2 * e) (strip_comment (trim (entry_head val))) r
           (its (S r) (entry_tail node_lines val (e + 1) ++ ls)))
    val (its (S r + length (entry_tail node_lines val (e + 1))) ls).
Proof.
  intros Hnode (Hk & Hs & Hv) HL Hls. cbn [fst snd] in *.
  assert (forall v, is_scalar v = true -> yaml_ok v -> gives (entry_value L (parse_node L fuel) (2 * e)
    (strip_comment (trim (32 :: format_scalar show_f64 v))) r (its (S r) ls)) v (its (S r + 0) ls)) as Hscalar.
  { intros v H1 H2. pose proof (format_scalar_reads v H1 (yaml_ok_scalar v H1 H2)) as Hf.
    change (32 :: format_scalar show_f64 v) with (repeat 32 1 ++ format_scalar show_f64 v).
    rewrite trim_solid by by eapply reads_solid. rewrite (reads_strip _ v) by done. unfold entry_value.
    pose proof (reads_solid _ _ Hf) as Hsol. destruct (solid_head _ Hsol) as (c & t & Ec & _). rewrite Ec at 1. cbn [is_empty].
    rewrite !(reads_starts _ _ v) by done. cbn [orb]. right. rewrite Nat.add_0_r. by apply reads_inline, stop_no_deeper. }
  assert (nonempty val = true -> gives (entry_value L (parse_node L fuel) (2 * e) [] r (its (S r) (node_lines val (e + 1) ++ ls)))
    val (its (S r + length (node_lines val (e + 1))) ls)) as Hcoll.
  { intros Hne. unfold entry_value. cbn [is_empty]. destruct (node_first val (e + 1) Hv Hne) as (c & rest & E & Hc).
    assert (deeper (2 * e) (its (S r) (node_lines val (e + 1) ++ ls)) = true) as ->.
    { rewrite E. cbn [app]. rewrite its_good by done. unfold deeper. cbn [indent]. apply Nat.ltb_lt. lia. }
    apply Hnode; [done|done| |eapply stop_mono; [done|lia]|lia]. destruct val as [| | | |[|]|[|]]; try done. }
  destruct val as [| | |s|[|]|[|]]; cbn [entry_head entry_tail] in *; try (by apply Hscalar); try (by apply Hcoll).
  - destruct (block_ok (chars s)) eqn:E; [|by apply Hscalar]. change (strip_comment (trim (lit " |-"))) with (lit "|-").
    unfold entry_value. change (is_empty (lit "|-")) with false. change (starts (ch "|") (lit "|-")) with true. cbn [orb].
    rewrite block_read by auto. right. cbn. by rewrite jstr_chars.
  - right. cbn [app length]. rewrite Nat.add_0_r. apply inline_empty.
  - right. cbn [app length]. rewrite Nat.add_0_r. apply inline_empty.
Qed.

Lemma mapping_stop k fuel out r ls : stop k ls -> gives (parse_mapping L fuel k out (its r ls)) (JObject out) (its r ls).
Proof.
  intros H. destruct fuel as [|fuel]; [by left|]. right. destruct (stop_items _ r _ H) as [->|(l & s & -> & Hl)]; [done|].
  cbn [parse_mapping]. by rewrite (proj2 (Nat.eqb_neq _ _)) by lia.
Qed.

Lemma sequence_stop k fuel out r ls : stop k ls -> gives (parse_sequence L fuel k out (its r ls)) (JArray out) (its r ls).
Proof.
  intros H. destruct fuel as [|fuel]; [by left|]. right. destruct (stop_items _ r _ H) as [->|(l & s & -> & Hl)]; [done|].
  cbn [parse_sequence]. by rewrite (proj2 (Nat.eqb_neq _ _)) by lia.
Qed.

Lemma entries_stop e fs ls k : (2 * e < k)%nat -> Forall entry_ok fs -> stop k ls -> stop k (flat_map (entry_lines node_lines e) fs ++ ls).
Proof.
  intros Hk Hfs Hls. destruct Hfs as [|[k' v'] fs (H1 & _ & H2) _]; [done|]. cbn. apply stop_good; [by apply key_line_ok|lia].
Qed.

(** One entry, and what the loop does with the lines after it. *)
Lemma mapping_step e k val out r ls fuel o s : reads_node val -> entry_ok (k, val) -> k ∉ out.*1 ->
  drop (S r) L = entry_tail node_lines val (e + 1) ++ ls -> stop (S (2 * e)) ls ->
  gives (parse_mapping L fuel (2 * e) (out ++ [(k, val)]) (its (S r + length (entry_tail node_lines val (e + 1))) ls)) o s ->
  gives (parse_mapping L (S fuel) (2 * e) out
    (mk_Line (2 * e) (key_line k val) r :: its (S r) (entry_tail node_lines val (e + 1) ++ ls))) o s.
Proof.
  intros Hn Hok Hk HL Hls Hnext. pose proof Hok as (Hvk & _ & Hv). cbn [fst snd] in *.
  cbn [parse_mapping indent content raw]. rewrite Nat.eqb_refl. cbn [negb].
  destruct (key_line_ok k val Hvk Hv) as [_ ->]. rewrite key_line_find by done.
  eapply gives_bind; [by eapply entry_read|]. cbn zeta. rewrite str_of_chars_chars by done.
  rewrite (proj2 (assoc_None k out)) by done. by rewrite assoc_insert_new.
Qed.

(** A mapping is read from its first line on. *)
Lemma mapping_read e fs : Forall (fun kv => reads_node kv.2) fs -> forall k val out r ls fuel,
  reads_node val -> entry_ok (k, val) -> Forall entry_ok fs -> NoDup ((out ++ (k, val) :: fs).*1) ->
  drop (S r) L = entry_tail node_lines val (e + 1) ++ flat_map (entry_lines node_lines e) fs ++ ls -> stop (2 * e) ls ->
  gives (parse_mapping L fuel (2 * e) out (mk_Line (2 * e) (key_line k val) r ::
      its (S r) (entry_tail node_lines val (e + 1) ++ flat_map (entry_lines node_lines e) fs ++ ls)))
    (JObject (out ++ (k, val) :: fs))
    (its (S r + length (entry_tail node_lines val (e + 1) ++ flat_map (entry_lines node_lines e) fs)) ls).
Proof.
  induction 1 as [|[k' val'] fs Hn' Hfs IH]; intros k val out r ls fuel Hn Hok Hoks Hnd HL Hls;
    (destruct fuel as [|fuel]; [by left|]);
    (apply mapping_step; [done|done| |done|by apply entries_stop; [lia|done|eapply stop_mono; [done|lia]]|]);
    try (rewrite fmap_app, fmap_cons in Hnd; apply NoDup_app in Hnd as (_ & Hnd & _); intros H; apply (Hnd k H); by left).
  - cbn [flat_map]. rewrite app_nil_r. by apply mapping_stop.
  - set (tv := entry_tail node_lines val (e + 1)) in *. apply Forall_cons in Hoks as [Hok' Hoks]. cbn [flat_map] in *.
    change (entry_lines node_lines e (k', val')) with ((repeat 32 (2 * e) ++ key_line k' val') :: entry_tail node_lines val' (e + 1)) in *.
    rewrite <-app_assoc in *. cbn [app] in *. rewrite its_good by (by apply key_line_ok; apply Hok').
    assert (drop (S (S r + length tv)) L = entry_tail node_lines val' (e + 1) ++ flat_map (entry_lines node_lines e) fs ++ ls) as HL'.
    { replace (S (S r + length tv)) with (S r + (length tv + 1))%nat by lia. rewrite <-drop_drop, HL, <-drop_drop, drop_app_length. done. }
    specialize (IH k' val' (out ++ [(k, val)]) (S r + length tv)%nat ls fuel Hn' Hok' Hoks).
    rewrite <-!app_assoc in IH. cbn [app] in IH. specialize (IH Hnd HL' Hls).
    rewrite !length_app in *. cbn [length]. rewrite length_app.
    by replace (S r + (length tv + S (length (entry_tail node_lines val' (e + 1)) + length (flat_map (entry_lines node_lines e) fs))))%nat
      with (S (S r + length tv) + (length (entry_tail node_lines val' (e + 1)) + length (flat_map (entry_lines node_lines e) fs)))%nat by lia.
Qed.

Definition fields_read (v : json) : Prop :=
  match v with JObject fs => Forall (fun kv => reads_node kv.2) fs | _ => True end.

(** The text after the dash of an item that starts on that line. *)
Lemma dash_line_read n x r s fuel v s' : solid x = true ->
  gives (parse_node L fuel (2 * n + 1) (mk_Line (2 * n + 2) x r :: s)) v s' ->
  forall o s'' out, gives (parse_sequence L fuel (2 * n) (out ++ [v]) s') o s'' ->
  gives (parse_sequence L (S fuel) (2 * n) out (mk_Line (2 * n) (lit "- " ++ x) r :: s)) o s''.
Proof.
  intros Hx Hnode o s'' out Hnext. cbn [parse_sequence indent content raw]. rewrite Nat.eqb_refl. cbn [negb].
  change (is_lit (lit "- " ++ x) "-") with false. change (take 2 (lit "- " ++ x)) with (lit "- "). rewrite bool_decide_eq_true_2 by done.
  cbn [negb]. cbn zeta. change (drop 2 (lit "- " ++ x)) with x.
  assert (count_indent x = O) as ->.
  { destruct (solid_head x Hx) as (c & t & -> & Hc). apply (count_indent_pad 0). by intros ->. }
  rewrite Nat.add_0_r, drop_0. by eapply gives_bind.
Qed.

(** An item whose value is a scalar or an empty collection. *)
Lemma leaf_read n x v r s fuel : is_dash x = false -> find_key x = None ->
  parse_inline_value x (2 * n + 1) r s = ret v s ->
  gives (parse_node L fuel (2 * n + 1) (mk_Line (2 * n + 2) x r :: s)) v s.
Proof.
  intros Hd Hk Hv. destruct fuel as [|fuel]; [by left|]. right. cbn [parse_node indent content raw].
  rewrite (proj2 (Nat.ltb_ge _ _)) by lia. rewrite Hd, Hk. unfold parse_scalar_lines. cbn [indent content raw].
  by replace (2 * n + 2 - 1)%nat with (2 * n + 1)%nat by lia.
Qed.

Lemma sequence_step n item out r ls fuel o s : reads_node item -> fields_read item -> yaml_ok item ->
  drop (S r) L = item_tail node_lines item n ++ ls -> stop (S (2 * n)) ls ->
  gives (parse_sequence L fuel (2 * n) (out ++ [item]) (its (S r + length (item_tail node_lines item n)) ls)) o s ->
  gives (parse_sequence L (S fuel) (2 * n) out
    (mk_Line (2 * n) (item_head item) r :: its (S r) (item_tail node_lines item n ++ ls))) o s.
Proof.
  intros Hn Hfs Hok HL Hls Hnext. assert (stop (2 * n + 2) ls) as Hls' by (eapply stop_mono; [done|lia]).
  assert (no_deeper (2 * n + 1) (its (S r) ls)) as Hnd by (apply stop_no_deeper; eapply stop_mono; [done|lia]).
  assert (is_scalar item = true -> item_tail node_lines item n = [] ->
    gives (parse_sequence L (S fuel) (2 * n) out (mk_Line (2 * n) (lit "- " ++ format_scalar show_f64 item) r :: its (S r) ls)) o s) as Hscalar.
  { intros H1 H2. rewrite H2 in Hnext. cbn [length] in Hnext. rewrite Nat.add_0_r in Hnext.
    pose proof (format_scalar_reads item H1 (yaml_ok_scalar item H1 Hok)) as Hf.
    eapply dash_line_read; [by eapply reads_solid| |done]. apply leaf_read; [by eapply reads_dash|by eapply reads_key|by apply reads_inline]. }
  destruct item as [| | | |[|x xs]|[|[k val] fs]]; cbn [item_head item_tail length app] in *; rewrite ?Nat.add_0_r in Hnext; try (by apply Hscalar).
  - eapply dash_line_read; [done| |done]. apply leaf_read; [done|done|apply inline_empty].
  - cbn [parse_sequence indent content]. rewrite Nat.eqb_refl. cbn [negb]. change (is_lit (lit "-") "-") with true. cbn iota.
    destruct (node_first _ (n + 1) Hok eq_refl) as (c & rest & E & Hc).
    assert (deeper (2 * n) (its (S r) (node_lines (JArray (x :: xs)) (n + 1) ++ ls)) = true) as ->.
    { rewrite E. cbn [app]. rewrite its_good by done. unfold deeper. cbn [indent]. apply Nat.ltb_lt. lia. }
    eapply gives_bind; [|done]. apply Hn; [done|done|done| |lia]. by replace (2 * (n + 1))%nat with (2 * n + 2)%nat by lia.
  - eapply dash_line_read; [done| |done]. apply leaf_read; [done|done|apply inline_empty].
  - apply yaml_ok_object in Hok as (Hnodup & Hoks). apply Forall_cons in Hoks as [Hokv Hoks]. apply Forall_cons in Hfs as [Hnv Hfs].
    pose proof Hokv as (Hk & _ & Hv). cbn [fst snd] in *. destruct (key_line_ok k val Hk Hv) as [(Hs & _)%good_parts Hd].
    eapply dash_line_read; [done| |done]. destruct fuel as [|fuel]; [by left|]. cbn [parse_node indent content raw].
    rewrite (proj2 (Nat.ltb_ge _ _)) by lia. rewrite Hd, key_line_find by done. rewrite <-app_assoc in *.
    replace (2 * n + 2)%nat with (2 * (n + 1))%nat in * by lia. by apply (mapping_read (n + 1) fs Hfs k val []).
Qed.

Lemma sequence_read n items : Forall (fun v => reads_node v /\ fields_read v) items -> forall out r ls fuel,
  Forall yaml_ok items -> drop r L = node_lines (JArray items) n ++ ls -> stop (2 * n) ls ->
  gives (parse_sequence L fuel (2 * n) out (its r (node_lines (JArray items) n ++ ls)))
    (JArray (out ++ items)) (its (r + length (node_lines (JArray items) n)) ls).
Proof.
  induction 1 as [|item items [Hn Hfs] Hitems IH]; intros out r ls fuel Hoks HL Hls.
  { cbn [node_lines flat_map app length]. rewrite app_nil_r, Nat.add_0_r. by apply sequence_stop. }
  apply Forall_cons in Hoks as [Hok Hoks]. destruct fuel as [|fuel]; [by left|].
  change (node_lines (JArray (item :: items)) n) with
    ((repeat 32 (2 * n) ++ item_head item) :: item_tail node_lines item n ++ node_lines (JArray items) n) in *.
  cbn [app] in *. rewrite <-app_assoc in *. rewrite its_good by by apply item_head_ok.
  assert (drop (S r) L = item_tail node_lines item n ++ node_lines (JArray items) n ++ ls) as HL1.
  { replace (S r) with (r + 1)%nat by lia. by rewrite <-drop_drop, HL. }
  apply sequence_step; [done|done|done|done| |].
  { destruct items as [|item' items]; [by eapply stop_mono; [|apply Nat.le_succ_diag_r]|]. cbn. apply stop_good; [|lia].
    apply item_head_ok. by apply Forall_cons in Hoks as [? _]. }
  specialize (IH (out ++ [item]) (S r + length (item_tail node_lines item n))%nat ls fuel Hoks).
  rewrite <-app_assoc in IH. cbn [app length] in *. rewrite length_app.
  replace (r + S (length (item_tail node_lines item n) + length (node_lines (JArray items) n)))%nat with
    (S (r + length (item_tail node_lines item n)) + length (node_lines (JArray items) n))%nat by lia.
  apply IH; [|done]. change (S (r + length (item_tail node_lines item n)))%nat with (S r + length (item_tail node_lines item n))%nat.
  by rewrite <-drop_drop, HL1, drop_app_length.
Qed.

Lemma node_reads v : reads_node v /\ fields_read v.
Proof.
  induction v as [| | | |items IH|fs IH] using json_ind'; try (by split; [intros ? ? ? ? ?|]).
  - split; [|done]. intros n r ls fuel min Hok Hne HL Hls Hmin. destruct fuel as [|fuel]; [by left|].
    apply yaml_ok_array in Hok. destruct items as [|item items]; [done|].
    pose proof (sequence_read n (item :: items) IH [] r ls fuel Hok HL Hls) as H. revert H.
    change (node_lines (JArray (item :: items)) n) with
      ((repeat 32 (2 * n) ++ item_head item) :: item_tail node_lines item n ++ node_lines (JArray items) n) in *.
    apply Forall_cons in Hok as [Hok _]. destruct (item_head_ok item Hok) as [Hg Hd]. cbn [app]. rewrite its_good by done.
    cbn [parse_node indent content]. by rewrite (proj2 (Nat.ltb_ge _ _)), Hd.
  - assert (Forall (fun kv => reads_node kv.2) fs) as Hfs by (eapply Forall_impl; [exact IH|]; by intros ? []). split; [|done].
    intros n r ls fuel min Hok Hne HL Hls Hmin. destruct fuel as [|fuel]; [by left|].
    apply yaml_ok_object in Hok as [Hnd Hok]. destruct fs as [|[k val] fs]; [done|].
    apply Forall_cons in Hok as [Hokv Hok]. apply Forall_cons in Hfs as [Hnv Hfs]. pose proof Hokv as (Hk & _ & Hv). cbn [fst snd] in *.
    change (node_lines (JObject ((k, val) :: fs)) n) with
      ((repeat 32 (2 * n) ++ key_line k val) :: entry_tail node_lines val (n + 1) ++ flat_map (entry_lines node_lines n) fs) in *.
    destruct (key_line_ok k val Hk Hv) as [Hg Hd]. cbn [app length] in *. rewrite its_good by done. rewrite <-app_assoc in *.
    cbn [parse_node indent content]. rewrite (proj2 (Nat.ltb_ge _ _)), Hd, key_line_find by done.
    replace (r + S (length (entry_tail node_lines val (n + 1) ++ flat_map (entry_lines node_lines n) fs)))%nat with
      (S r + length (entry_tail node_lines val (n + 1) ++ flat_map (entry_lines node_lines n) fs))%nat by lia.
    apply (mapping_read n fs Hfs k val []); try done. replace (S r) with (r + 1)%nat by lia. by rewrite <-drop_drop, HL.
Qed.
End reading.

(** ** The emitter writes these lines *)

Lemma split_app c a b : split c (a ++ c :: b) = split c a ++ split c b.
Proof.
  induction a as [|d a IH]; cbn [split app]; [by rewrite Z.eqb_refl|]. rewrite IH. destruct (d =? c); [done|].
  destruct (split c a) eqn:E; [|done]. by destruct a; cbn in E; repeat case_match.
Qed.

Lemma split_unbroken c t : has_char c t = false -> split c t = [t].
Proof.
  induction t as [|d t IH]; [done|]. cbn [has_char existsb split]. rewrite Z.eqb_sym. intros [-> H]%orb_false_elim. by rewrite IH.
Qed.

Lemma split_join c ls : ls <> [] -> split c (join c ls) = flat_map (split c) ls.
Proof.
  intros H. destruct ls as [|l ls]; [done|]. clear H. revert l. induction ls as [|l' ls IH]; intros l; [cbn; by rewrite app_nil_r|].
  change (join c (l :: l' :: ls)) with (l ++ c :: join c (l' :: ls)). by rewrite split_app, IH.
Qed.

Lemma flat_map_none c ls : forallb (fun l => negb (has_char c l)) ls = true -> flat_map (split c) ls = ls.
Proof.
  induction ls as [|l ls IH]; [done|]. cbn [forallb flat_map]. intros [H%negb_true_iff Hls]%andb_prop. by rewrite split_unbroken, IH.
Qed.

Lemma has_char_pad c n : c <> 32 -> has_char c (pad n) = false.
Proof. intros H. unfold pad. rewrite <-(take_ge (repeat 32 _) (2 * n)) by by rewrite repeat_length. by apply has_char_spaces. Qed.

Lemma body_lines_split n t : flat_map (split 10) (map (body_line n) (split 10 t)) = map (body_line n) (split 10 t).
Proof.
  apply flat_map_none. pose proof (split_no 10 t) as H. rewrite !forallb_forall in *. intros x (l & <- & Hl)%in_map_iff.
  specialize (H l Hl). unfold body_line. destruct (is_empty l); [done|]. rewrite has_char_app, has_char_pad by done. exact H.
Qed.

Abbreviation physical := (flat_map (split 10)).

Lemma physical_snoc out t : physical (out ++ [t]) = physical out ++ split 10 t.
Proof. rewrite flat_map_app. cbn. by rewrite app_nil_r. Qed.

Lemma push_last_snoc t out l : push_last t (out ++ [l]) = out ++ [l ++ t].
Proof. unfold push_last. by rewrite last_snoc, removelast_last. Qed.

Definition emits (v : json) : Prop := forall n out, yaml_ok v -> nonempty v = true ->
  physical (emit_node show_f64 v n out) = physical out ++ node_lines v n.

Lemma split_entry prefix k r : valid k -> has_char 10 prefix = false -> has_char 10 r = false ->
  split 10 (prefix ++ format_key k ++ ch ":" :: r) = [prefix ++ format_key k ++ ch ":" :: r].
Proof.
  intros Hk Hp Hr. apply split_unbroken. rewrite !has_char_app, Hp, key_no_lf by done. exact Hr.
Qed.

Lemma emit_entry_lines prefix k val n out : emits val -> entry_ok (k, val) -> has_char 10 prefix = false ->
  physical (emit_entry show_f64 (emit_node show_f64) prefix k val n out) =
  physical out ++ (prefix ++ key_line k val) :: entry_tail node_lines val n.
Proof.
  intros Hem (Hk & Hs & Hv) Hp. cbn [fst snd] in *. unfold emit_entry, key_line.
  assert (forall v, is_scalar v = true -> yaml_ok v -> physical (out ++ [prefix ++ format_key k ++ lit ": " ++ format_scalar show_f64 v]) =
    physical out ++ [prefix ++ format_key k ++ ch ":" :: 32 :: format_scalar show_f64 v]) as Hscalar.
  { intros v H1 H2. rewrite physical_snoc. f_equal. apply split_entry; [done|done|].
    change (has_char 10 (format_scalar show_f64 v) = false). eapply (reads_no_lf _ v), format_scalar_reads; [done|]. by apply yaml_ok_scalar. }
  destruct val as [| | |s|[|]|[|]]; cbn [is_scalar format_multiline entry_head entry_tail] in *; try (by apply Hscalar).
  - destruct (block_ok (chars s)); [|by apply Hscalar]. rewrite physical_snoc. f_equal.
    change (lit ": " ++ lit "|-" ++ ?x) with (ch ":" :: lit " |-" ++ x).
    rewrite !(app_comm_cons), !app_assoc, split_app, split_join, body_lines_split.
    + rewrite <-app_assoc. by rewrite split_entry.
    + pose proof (join_split 10 (chars s)). by destruct (split 10 (chars s)) eqn:E; [destruct (chars s); cbn in E; repeat case_match|].
  - cbn [emit_node]. rewrite push_last_snoc, physical_snoc. rewrite <-!app_assoc. change (lit ":" ++ lit " []") with (ch ":" :: lit " []").
    by rewrite split_entry.
  - rewrite (Hem n) by done. rewrite physical_snoc, <-app_assoc. change (lit ":") with (ch ":" :: []). by rewrite split_entry.
  - cbn [emit_node]. rewrite push_last_snoc, physical_snoc. rewrite <-!app_assoc. change (lit ":" ++ lit " {}") with (ch ":" :: lit " {}").
    by rewrite split_entry.
  - rewrite (Hem n) by done. rewrite physical_snoc, <-app_assoc. change (lit ":") with (ch ":" :: []). by rewrite split_entry.
Qed.

Lemma emit_fields_lines prefix n fs : has_char 10 prefix = false -> Forall (fun kv => emits kv.2) fs -> Forall entry_ok fs -> forall out,
  physical (fold_left (fun out kv => emit_entry show_f64 (emit_node show_f64) prefix kv.1 kv.2 n out) fs out) =
  physical out ++ flat_map (fun kv => (prefix ++ key_line kv.1 kv.2) :: entry_tail node_lines kv.2 n) fs.
Proof.
  intros Hp Hem Hok. induction Hem as [|[k val] fs Hv Hfs IH]; intros out; cbn [fold_left flat_map]; [by rewrite app_nil_r|].
  apply Forall_cons in Hok as [Hkv Hok]. rewrite IH by done. by rewrite emit_entry_lines, <-app_assoc.
Qed.

Lemma pad_succ n : pad n ++ lit "  " = pad (n + 1).
Proof. unfold pad. replace (2 * (n + 1))%nat with (2 * n + 2)%nat by lia. by rewrite repeat_app. Qed.

Lemma emit_item_lines n item out : emits item -> match item with JObject fs => Forall (fun kv => emits kv.2) fs | _ => True end -> yaml_ok item ->
  physical (match item with
            | JArray _ => emit_node show_f64 item (n + 1) (out ++ [pad n ++ lit "-"])
            | JObject [] => out ++ [pad n ++ lit "- {}"]
            | JObject ((k, val) :: map) =>
              fold_left (fun out kv => emit_entry show_f64 (emit_node show_f64) (pad n ++ lit "  ") kv.1 kv.2 (n + 2) out) map
                (emit_entry show_f64 (emit_node show_f64) (pad n ++ lit "- ") k val (n + 2) out)
            | _ => out ++ [pad n ++ lit "- " ++ format_scalar show_f64 item]
            end) = physical out ++ (pad n ++ item_head item) :: item_tail node_lines item n.
Proof.
  intros Hem Hfs Hok. assert (has_char 10 (pad n) = false) as Hpad by by apply has_char_pad.
  assert (forall v, is_scalar v = true -> yaml_ok v -> physical (out ++ [pad n ++ lit "- " ++ format_scalar show_f64 v]) =
    physical out ++ [pad n ++ lit "- " ++ format_scalar show_f64 v]) as Hscalar.
  { intros v H1 H2. rewrite physical_snoc. f_equal. apply split_unbroken. rewrite !has_char_app, Hpad. cbn [orb].
    change (has_char 10 (format_scalar show_f64 v) = false). eapply (reads_no_lf _ v), format_scalar_reads; [done|]. by apply yaml_ok_scalar. }
  destruct item as [| | | |[|x xs]|[|[k val] fs]]; cbn [item_head item_tail]; try (by apply Hscalar).
  - cbn [emit_node]. rewrite push_last_snoc, physical_snoc. f_equal. rewrite <-app_assoc. apply split_unbroken. by rewrite has_char_app, Hpad.
  - rewrite (Hem (n + 1)%nat) by done. rewrite physical_snoc, <-app_assoc. do 2 f_equal. rewrite split_unbroken; [done|]. by rewrite has_char_app, Hpad.
  - rewrite physical_snoc. f_equal. apply split_unbroken. by rewrite has_char_app, Hpad.
  - apply yaml_ok_object in Hok as (_ & (Hkv & Hok)%Forall_cons). apply Forall_cons in Hfs as [Hv Hfs]. cbn [snd] in Hv.
    rewrite emit_fields_lines; [|by rewrite has_char_app, Hpad|done|done]. rewrite emit_entry_lines; [|done|done|by rewrite has_char_app, Hpad].
    rewrite <-app_assoc, pad_succ. replace (n + 1 + 1)%nat with (n + 2)%nat by lia. cbn [app]. rewrite <-app_assoc. do 3 f_equal.
    unfold entry_lines. by replace (n + 1 + 1)%nat with (n + 2)%nat by lia.
Qed.

Lemma emits_all v : emits v /\ match v with JObject fs => Forall (fun kv => emits kv.2) fs | _ => True end.
Proof.
  induction v as [| | | |items IH|fs IH] using json_ind'; try (by split; [intros ? ?|]).
  - split; [|done]. intros n out Hok Hne. apply yaml_ok_array in Hok. destruct items as [|x xs]; [done|]. cbn [emit_node node_lines].
    revert out Hok. generalize (x :: xs) IH. clear x xs IH Hne. intros items. induction 1 as [|item items [H1 H2] _ IH]; intros out Hok.
    { cbn. by rewrite app_nil_r. }
    apply Forall_cons in Hok as [Hi Hok]. cbn [fold_left flat_map]. rewrite IH by done. by rewrite emit_item_lines, <-app_assoc.
  - assert (Forall (fun kv => emits kv.2) fs) as Hfs by (eapply Forall_impl; [exact IH|]; by intros ? []). split; [|done].
    intros n out Hok Hne. apply yaml_ok_object in Hok as [_ Hok]. destruct fs as [|kv fs]; [done|]. cbn [emit_node].
    rewrite emit_fields_lines; [done|by apply has_char_pad|done|done].
Qed.

(** *** The lines are read as they are *)

Definition clean (l : text) : Prop := line_ok l = true /\ trim_end_of 13 l = l /\ Forall Utf8.is_scalar l.

Lemma small_scalar c : 0 <= c < 128 -> Utf8.is_scalar c.
Proof. unfold Utf8.is_scalar. lia. Qed.

Lemma small_text t : forallb (fun c => (0 <=? c) && (c <? 128)) t = true -> Forall Utf8.is_scalar t.
Proof. rewrite forallb_forall, Forall_forall. intros H x Hx%list_elem_of_In. specialize (H x Hx). apply small_scalar. lia. Qed.

Lemma escape_scalar c : Utf8.is_scalar c -> Forall Utf8.is_scalar (escape c).
Proof.
  intros Hc. destruct (Z_lt_ge_dec c 128) as [H|H].
  - apply small_text. apply (all_below_spec 128 (fun c => forallb (fun c => (0 <=? c) && (c <? 128)) (escape c))); [by vm_compute|].
    unfold Utf8.is_scalar in Hc. lia.
  - unfold escape. rewrite !(proj2 (Z.eqb_neq c _)) by lia. rewrite (proj2 (Z.ltb_ge c 32)) by lia. by constructor.
Qed.

Lemma quote_scalar t : Forall Utf8.is_scalar t -> Forall Utf8.is_scalar (quote t).
Proof.
  intros H. unfold quote. constructor; [by apply small_scalar|]. apply Forall_app. split; [|by apply small_text].
  induction H as [|c t Hc _ IH]; [constructor|]. cbn. apply Forall_app. split; [by apply escape_scalar|done].
Qed.

Lemma numchar_scalar t : forallb numchar t = true -> Forall Utf8.is_scalar t.
Proof.
  intros H. apply small_text. rewrite !forallb_forall in *. intros c Hc. specialize (H c Hc).
  unfold numchar, is_digit in H. char_codes. lia.
Qed.

Lemma format_scalar_scalar v : is_scalar v = true -> scalar_ok v -> Forall Utf8.is_scalar (format_scalar show_f64 v).
Proof.
  destruct v as [|[]|[i|b]|s| |]; cbn [is_scalar scalar_ok format_scalar show_number]; try done; intros _ H; try (by apply small_text).
  - apply numchar_scalar, unsigned_numchar. destruct (pretty_Z_text i) as (body & -> & Hd & _). by apply digits_numchar.
  - apply numchar_scalar, float_numchar, H.
  - unfold format_string. destruct (needs_quoting _); [apply quote_scalar|]; by apply chars_scalars.
Qed.

Lemma format_key_scalar k : valid k -> Forall Utf8.is_scalar (format_key k).
Proof. intros H. unfold format_key. destruct (_ || _); [apply quote_scalar|]; by apply chars_scalars. Qed.

Lemma spaces_scalar k : Forall Utf8.is_scalar (repeat 32 k).
Proof. apply Forall_forall. intros x ->%list_elem_of_In%repeat_spec. by apply small_scalar. Qed.

Lemma clean_good k c : good c = true -> Forall Utf8.is_scalar c -> clean (repeat 32 k ++ c).
Proof.
  intros Hg Hs. split_and!; [by apply line_ok_good| |].
  - apply good_parts in Hg as ((t & d & -> & Hd)%solid_last & _). rewrite app_assoc. apply trim_end_of_last. by intros <-.
  - apply Forall_app. split; [apply spaces_scalar|done].
Qed.

Lemma key_line_scalar k val : valid k -> yaml_ok val -> Forall Utf8.is_scalar (key_line k val).
Proof.
  intros Hk Hv. unfold key_line. apply Forall_app. split; [by apply format_key_scalar|]. constructor; [by apply small_scalar|].
  assert (forall v, is_scalar v = true -> yaml_ok v -> Forall Utf8.is_scalar (32 :: format_scalar show_f64 v)) as Hs.
  { intros v H1 H2. constructor; [by apply small_scalar|]. apply format_scalar_scalar; [done|by apply yaml_ok_scalar]. }
  destruct val as [| | |s|[|]|[|]]; cbn [entry_head]; try (by apply Hs); try (by apply small_text).
  destruct (block_ok _); [by apply small_text|by apply Hs].
Qed.

Lemma split_scalars t : Forall Utf8.is_scalar t -> Forall (Forall Utf8.is_scalar) (split 10 t).
Proof.
  induction 1 as [|c t Hc _ IH]; [by apply Forall_singleton|]. cbn [split]. destruct (c =? 10); [by constructor|].
  destruct (split 10 t) as [|l ls]; [by rewrite Forall_singleton, Forall_singleton|].
  apply Forall_cons in IH as [Hl Hls]. by rewrite !Forall_cons.
Qed.

Lemma body_clean n t : Forall Utf8.is_scalar t -> forallb safe_line (split 10 t) = true -> Forall clean (map (body_line n) (split 10 t)).
Proof.
  intros Ht Hsafe. apply split_scalars in Ht. apply Forall_forall. intros x (l & -> & Hl)%list_elem_of_fmap.
  rewrite Forall_forall in Ht. rewrite forallb_forall in Hsafe. specialize (Ht l Hl). specialize (Hsafe l ltac:(by apply list_elem_of_In)).
  split_and!; [by apply safe_line_ok| |].
  - unfold body_line, safe_line in *. destruct l as [|c l]; [done|]. cbn [is_empty orb] in *.
    rewrite !andb_true_iff, !negb_true_iff in Hsafe. destruct Hsafe as [[_ H] _]. destruct (last_cons_Some c l) as (l' & d & E).
    rewrite E in *. rewrite ends_snoc in H. rewrite app_assoc. apply trim_end_of_last. by apply Z.eqb_neq.
  - unfold body_line. destruct (is_empty l); [constructor|]. apply Forall_app. split; [apply spaces_scalar|done].
Qed.

Lemma entry_clean n kv : entry_ok kv -> Forall clean (entry_tail node_lines kv.2 (n + 1)) -> Forall clean (entry_lines node_lines n kv).
Proof. intros (Hk & _ & Hv) H. constructor; [|done]. apply clean_good; [by apply key_line_ok|by apply key_line_scalar]. Qed.

Lemma tail_clean n v : (forall n, Forall clean (node_lines v n)) -> string_ok v -> yaml_ok v -> Forall clean (entry_tail node_lines v n).
Proof.
  intros Hn Hs Hv. destruct v as [| | |s|[|]|[|]]; cbn [entry_tail]; try apply Hn; try apply Forall_nil_2.
  destruct (block_ok (chars s)) eqn:E; [|constructor]. apply body_clean; [by apply chars_scalars|by apply Hs].
Qed.

Lemma entries_clean n fs : Forall (fun kv => yaml_ok kv.2 -> forall n, Forall clean (node_lines kv.2 n)) fs -> Forall entry_ok fs ->
  Forall clean (flat_map (entry_lines node_lines n) fs).
Proof.
  induction 1 as [|kv fs H _ IH]; [constructor|]. intros [(Hk & Hs & Hv) Hok]%Forall_cons. cbn [flat_map]. apply Forall_app.
  split; [|by apply IH]. apply entry_clean; [done|]. apply tail_clean; auto.
Qed.

Lemma item_clean n item : (forall n, Forall clean (node_lines item n)) ->
  match item with JObject fs => Forall (fun kv => yaml_ok kv.2 -> forall n, Forall clean (node_lines kv.2 n)) fs | _ => True end ->
  yaml_ok item -> Forall clean ((pad n ++ item_head item) :: item_tail node_lines item n).
Proof.
  intros Hn Hfs Hok. constructor.
  - apply clean_good; [by apply item_head_ok|].
    assert (forall v, is_scalar v = true -> yaml_ok v -> Forall Utf8.is_scalar (lit "- " ++ format_scalar show_f64 v)) as Hs.
    { intros v H1 H2. apply Forall_app. split; [by apply small_text|]. apply format_scalar_scalar; [done|by apply yaml_ok_scalar]. }
    destruct item as [| | | |[|]|[|[k val] fs]]; cbn [item_head]; try (by apply Hs); try (by apply small_text).
    apply yaml_ok_object in Hok as (_ & ((Hk & _ & Hv) & _)%Forall_cons). apply Forall_app. split; [by apply small_text|by apply key_line_scalar].
  - destruct item as [| | | |[|]|[|[k val] fs]]; cbn [item_tail]; try apply Hn; try apply Forall_nil_2.
    apply yaml_ok_object in Hok as (_ & ((Hk & Hs & Hv) & Hok)%Forall_cons). apply Forall_cons in Hfs as [Hfv Hfs].
    apply Forall_app. split; [|by apply entries_clean]. apply tail_clean; [by apply Hfv|done|done].
Qed.

Lemma node_clean v : (yaml_ok v -> forall n, Forall clean (node_lines v n)) /\
  match v with JObject fs => Forall (fun kv => yaml_ok kv.2 -> forall n, Forall clean (node_lines kv.2 n)) fs | _ => True end.
Proof.
  induction v as [| | | |items IH|fs IH] using json_ind'; try (split; [intros; constructor|done]).
  - split; [|done]. intros Hok%yaml_ok_array n. cbn [node_lines]. revert Hok.
    induction IH as [|item items [H1 H2] _ IH]; [constructor|]. intros [Hi Hok]%Forall_cons. cbn [flat_map]. apply Forall_app.
    split; [|by apply IH]. apply item_clean; auto.
  - assert (Forall (fun kv => yaml_ok kv.2 -> forall n, Forall clean (node_lines kv.2 n)) fs) as Hfs
      by (eapply Forall_impl; [exact IH|]; by intros ? []).
    split; [|done]. intros [_ Hok]%yaml_ok_object n. by apply entries_clean.
Qed.

(** The lines of the text of a non-empty collection. *)
Lemma emit_collection v : yaml_ok v -> nonempty v = true -> emit show_f64 v = join 10 (node_lines v 0) ++ [10] /\
  input_lines (emit show_f64 v) = node_lines v 0 ++ [[]].
Proof.
  intros Hok Hne. pose proof (proj1 (emits_all v) 0%nat [] Hok Hne) as Hem. cbn [flat_map app] in Hem.
  destruct (node_first v 0 Hok Hne) as (c & rest & E & _).
  assert (emit_node show_f64 v 0 [] <> []) as Ho by (intros H; rewrite H in Hem; cbn in Hem; rewrite E in Hem; discriminate Hem).
  assert (emit show_f64 v = join 10 (emit_node show_f64 v 0 []) ++ [10]) as Hv by (destruct v as [| | | |[|]|[|]]; done).
  split.
  - rewrite Hv. f_equal. rewrite <-Hem, <-split_join by done. by rewrite join_split.
  - unfold input_lines. rewrite Hv, split_app, split_join by done. cbn [split]. rewrite Hem, map_app. f_equal.
    rewrite <-(map_id (node_lines v 0)) at 2. apply map_ext_in. intros l Hl%list_elem_of_In.
    pose proof (proj1 (node_clean v) Hok 0%nat) as Hc. rewrite Forall_forall in Hc. by apply Hc.
Qed.

Lemma join_scalars ls : Forall (Forall Utf8.is_scalar) ls -> Forall Utf8.is_scalar (join 10 ls).
Proof.
  induction 1 as [|l ls Hl Hls IH]; [constructor|]. destruct ls as [|l' ls]; [done|].
  change (join 10 (l :: l' :: ls)) with (l ++ 10 :: join 10 (l' :: ls)). apply Forall_app. split; [done|].
  constructor; [by apply small_scalar|done].
Qed.

Lemma node_lines_read v : yaml_ok v -> nonempty v = true -> parse_lines (node_lines v 0 ++ [[]]) = Some (Ok v).
Proof.
  intros Hok Hne. set (ls := node_lines v 0 ++ [[]]). unfold parse_lines. rewrite scan_its.
  2: { unfold ls. rewrite forallb_app, andb_true_r. apply forallb_forall. intros l Hl%list_elem_of_In.
       pose proof (proj1 (node_clean v) Hok 0%nat) as Hc. rewrite Forall_forall in Hc. by apply Hc. }
  pose proof (parse_node_total ls 0 (its 0 ls)) as Htot.
  pose proof (proj1 (node_reads ls v) 0%nat 0%nat [[]] (node_fuel (its 0 ls)) 0%nat Hok Hne eq_refl (or_introl eq_refl) (Nat.le_refl _)) as [H|H];
    [done|]. fold ls in H. rewrite H. destruct (node_first v 0 Hok Hne) as (c & rest & E & Hg).
  assert (its 0 ls = mk_Line 0 c 0 :: its 1 (rest ++ [[]])) as -> by (unfold ls; rewrite E; by apply (its_good 0 0)). done.
Qed.

Lemma scalar_line_good v : is_scalar v = true -> scalar_ok v -> good (format_scalar show_f64 v) = true.
Proof.
  intros H1 H2. pose proof (format_scalar_reads v H1 H2) as Hf. unfold good. rewrite (reads_solid _ v) by done.
  rewrite (reads_starts _ _ v) by done. unfold is_lit.
  destruct v as [|[]|n|s| |]; try done.
  - destruct Hf as [[_ Hr]|(t & _ & _ & H)]; [|done]. set (f := format_scalar show_f64 (JNumber n)) in *.
    rewrite !bool_decide_eq_false_2; [done|intros E; by rewrite E in Hr|intros E; by rewrite E in Hr].
  - cbn [format_scalar]. unfold format_string. destruct (needs_quoting (chars s)) eqn:E; [done|]. unfold needs_quoting in E.
    destruct (is_empty (chars s)) eqn:E1; [done|]. destruct (plain_safe (chars s)) eqn:E2; [|done]. unfold plain_safe in E2.
    destruct (chars s) as [|c t]; [done|]. apply andb_prop in E2 as [Hc _]. unfold is_alphanumeric, is_digit in Hc.
    rewrite !bool_decide_eq_false_2; [done| |]; intros [= -> _]; by vm_compute in Hc.
Qed.

Lemma scalar_text_read f v : reads_as f v -> good f = true -> Forall Utf8.is_scalar f ->
  parse_lines (input_lines (f ++ [10])) = Some (Ok v).
Proof.
  intros Hf Hg Hsc. pose proof (clean_good 0 f Hg Hsc) as (Hl & Ht & _). cbn [repeat app] in Hl, Ht.
  assert (input_lines (f ++ [10]) = [f; []]) as ->.
  { unfold input_lines. rewrite split_app. rewrite (split_unbroken 10 f) by by eapply reads_no_lf. cbn [app map split]. by rewrite Ht. }
  unfold parse_lines. rewrite scan_its by (cbn [forallb]; by rewrite Hl).
  pose proof (its_good 0 0 f [[]] Hg) as Hi. cbn [repeat app] in Hi. rewrite Hi.
  change (its 1 [[]]) with (@nil Line). unfold node_fuel. rewrite Nat.add_1_r.
  cbn [parse_node indent content raw]. change (0 <? 0)%nat with false. cbn iota.
  rewrite (reads_dash f v), (reads_key f v) by done. unfold parse_scalar_lines. cbn [indent content raw].
  by rewrite (reads_inline f v).
Qed.

Lemma scalar_read v : is_scalar v = true -> scalar_ok v -> parse_lines (input_lines (emit show_f64 v)) = Some (Ok v).
Proof.
  intros H1 H2. unfold emit. rewrite H1.
  apply scalar_text_read; [by apply format_scalar_reads|by apply scalar_line_good|by apply format_scalar_scalar].
Qed.

Lemma emit_scalars v : yaml_ok v -> Forall Utf8.is_scalar (emit show_f64 v).
Proof.
  intros Hok. destruct (is_scalar v) eqn:Hs.
  { unfold emit. rewrite Hs. apply Forall_app. split; [|by apply small_text]. apply format_scalar_scalar; [done|by apply yaml_ok_scalar]. }
  destruct (nonempty v) eqn:Hne.
  - rewrite (proj1 (emit_collection v Hok Hne)). apply Forall_app. split; [|by apply small_text]. apply join_scalars.
    eapply Forall_impl; [by apply node_clean|]. by intros l (_ & _ & H).
  - destruct v as [| | | |[|]|[|]]; try done; by apply small_text.
Qed.
End roundtrip.

Lemma yaml_reads_back show_f64 v (Hv : yaml_ok show_f64 v) : parse (to_string show_f64 v) = Some (Ok v).
Proof.
  unfold parse, to_string. rewrite chars_str_of_chars by by apply emit_scalars. destruct (is_scalar v) eqn:Hs.
  { apply scalar_read; [done|by apply yaml_ok_scalar]. }
  destruct (nonempty v) eqn:Hne.
  - rewrite (proj2 (emit_collection show_f64 v Hv Hne)). by apply node_lines_read.
  - by destruct v as [| | | |[|]|[|]].
Qed.

(** C34: YAML round trip: [parse] reads back exactly the value [to_string]
    wrote, for every tree of any depth - block sequences and mappings, nested
    either way, empty collections, quoted and plain keys and scalars, literal
    block strings - provided that its strings are Unicode, the keys of each
    object distinct, its integers within 2^53 - 1, its doubles printed as float
    literals that denote them, and no multi-line mapping value has a line the
    literal block form loses (blank but not empty, ending in a carriage return,
    or [---]). *)
Theorem yaml_roundtrip show_f64 v (Hv : yaml_ok show_f64 v) : parse (to_string show_f64 v) = Some (Ok v).
Proof. by apply yaml_reads_back. Qed.

Definition LF : string := String (ascii_of_nat 10) "".
Definition sample : json :=
  JObject [("name", JString "test"); ("pi", JNumber (NFloat 0x3FF8000000000000)); ("digits", JString "0123"); ("", JNull);
    ("weird key: yes", JArray [jint (-7); JArray []; JArray [JArray [JString "# x"]];
                               JObject [("k", JString ("first" +:+ LF +:+ LF +:+ "  - second")); ("nested", JObject [("deep", JArray [JBool true])])];
                               JObject []]);
    ("empty", JObject [])].

Lemma yaml_roundtrip_witness : parse (to_string (fun _ => "1.5") sample) = Some (Ok sample) /\ sample <> JNull.
Proof.
  split; [|done]. apply yaml_roundtrip. cbn -[valid_utf8 block_ok split].
  split_and!; try done; try (by apply (bool_decide_unpack _); vm_compute); try (by intros [=]); by vm_compute.
Defined.

(** ** Values the emitter writes and the reader does not read back *)

Definition lost (s : string) : option (result YamlError json) := parse (to_string (fun _ => "") (JObject [("k", JString s)])).

(** A [---] line of a multi-line string makes the whole text unreadable. *)
Example document_marker_lost :
  lost ("a" +:+ LF +:+ "---" +:+ LF +:+ "b") = Some (fail_at "multi-document streams are not supported" 2).
Proof. reflexivity. Qed.

(** The spaces of a blank line, and a carriage return at the end of a line, are dropped. *)
Example blank_line_lost : lost ("a" +:+ LF +:+ "  " +:+ LF +:+ "b") = Some (Ok (JObject [("k", JString ("a" +:+ LF +:+ LF +:+ "b"))])).
Proof. reflexivity. Qed.

Example carriage_return_lost : lost ("a" +:+ String (ascii_of_nat 13) LF +:+ "b") = Some (Ok (JObject [("k", JString ("a" +:+ LF +:+ "b"))])).
Proof. reflexivity. Qed.

Example tab_line_lost : lost ("a" +:+ LF +:+ String (ascii_of_nat 9) LF +:+ "b") = Some (fail_at "tabs are not allowed in indentation" 2).
Proof. reflexivity. Qed.

(** The one integer outside the safe range that is read as a number: without
    overflow checks [i64::MIN.abs()] is negative. *)
Example min_integer_accepted : parse "-9223372036854775808" = Some (Ok (jint i64_min)).
Proof. reflexivity. Qed.

(** An integer outside the safe range is read back as a string. *)
Lemma big_integer_text (i : Z) : MAX_SAFE_INTEGER < Z.abs i -> i <> i64_min ->
  plain (lit (pretty i)) = true /\ resolve_scalar (lit (pretty i)) = Ok (jstr (lit (pretty i))).
Proof.
  intros Hi Hmin. destruct (pretty_Z_text i) as (body & Hu & Hd & Hv & Hne). set (t := lit (pretty i)) in *. split.
  - apply num_plain; [|intros E; rewrite E in Hu; by injection Hu as _ <-|done]. apply unsigned_numchar. rewrite Hu. by apply digits_numchar.
  - unfold resolve_scalar. rewrite !(one_of_ne (fun t => digits (snd (unsigned t))) t) by (done || by rewrite Hu).
    unfold resolve_number, parse_i64. rewrite Hu. cbn [snd]. rewrite Hd, Hv. cbn [andb].
    assert (signed (i <? 0) (Z.abs i) = i) as -> by (unfold signed; destruct (Z.ltb_spec i 0); lia).
    destruct (in_i64 i); [|done]. unfold abs_i64. rewrite (proj2 (Z.eqb_neq _ _)) by done. by rewrite (proj2 (Z.leb_gt _ _)).
Qed.

Lemma str_of_chars_numchar s : forallb numchar (lit s) = true -> str_of_chars (lit s) = s.
Proof.
  intros H. rewrite <-(str_of_bytes_of_str s) at 2. unfold str_of_chars, lit in *. f_equal.
  induction (bytes_of_str s) as [|c t IH]; [done|]. cbn [forallb flat_map] in *. apply andb_prop in H as [Hc Ht]. rewrite IH by done.
  unfold encode_char, numchar, is_digit in *. rewrite (proj2 (Z.ltb_lt c 128)); [done|]. char_codes. lia.
Qed.

(** Integers beyond 2^53 - 1 do not survive: the emitter writes their digits
    plainly and the reader takes them for a string, so the type of the value
    changes. *)
Theorem big_integer_becomes_string show_f64 i (Hi : MAX_SAFE_INTEGER < Z.abs i) (Hmin : i <> i64_min) :
  parse (to_string show_f64 (jint i)) = Some (Ok (JString (pretty i))).
Proof.
  destruct (big_integer_text i Hi Hmin) as [Hp Hr]. destruct (pretty_Z_text i) as (body & Hu & Hd & _).
  unfold parse, to_string, emit. cbn [is_scalar jint format_scalar show_number].
  assert (forallb numchar (lit (pretty i)) = true) as Hn by (apply unsigned_numchar; rewrite Hu; by apply digits_numchar).
  pose proof (numchar_scalar _ Hn) as Hs. rewrite chars_str_of_chars by (apply Forall_app; split; [done|by apply small_text]).
  erewrite scalar_text_read; [|left; split; [exact Hp|exact Hr]| |done].
  - do 2 f_equal. unfold jstr. by rewrite str_of_chars_numchar.
  - unfold good. apply plain_parts in Hp as Hp'. rewrite (proj1 Hp'), (plain_starts 35) by done. unfold is_lit.
    rewrite !bool_decide_eq_false_2; [done| |]; intros E; rewrite E in Hu; injection Hu as _ <-; done.
Qed.

Lemma big_integer_becomes_string_witness : parse (to_string (fun _ => "") (jint (2 ^ 53))) = Some (Ok (JString "9007199254740992")).
Proof. exact (big_integer_becomes_string (fun _ => "") (2 ^ 53) eq_refl ltac:(done)). Defined.

End YamlProofs.
