(* ===== verification/Rpc.v ===== *)
(** * Rpc: the ProofRPC runtime ([rpc.rs])

    Frames are values of [RpcFrame], sent as the payload of a session frame:
    [encode_rpc] writes them with the field names and tags of their [Serialize],
    [decode_rpc] reads them with serde's derived reader, an argument.  A session
    frame that does not decode is ignored by both listeners ([client_listener],
    [server_listener]).

    - client: [pending] calls and the items handed to each caller's channel
      ([delivered]); a channel whose call is no longer pending has been closed.
      The [*_raw] calls register a call and give the frames they send; the
      pumps give the client-stream frames for what the caller pushes.
    - server: a machine whose steps are the events the runtime interleaves:
      a registration, a frame, the first poll of a spawned dispatcher (which
      installs its pipe and calls the handler), an item the handler sends, its
      end.  Handlers are user code: the machine is driven by what they do. *)

From S2P Require Import Prelude Json Base64 Crypto Session.

#[local] Open Scope string_scope.
#[local] Open Scope list_scope.
#[local] Open Scope Z_scope.

Module Rpc.

(** ** Wire types *)

Inductive RpcErrorCode := InvalidArgument | Unauthenticated | PermissionDenied | NotFound | Internal.
Record RpcError := mk_RpcError { code : RpcErrorCode; message : string }.

Inductive RpcMethodKind :=
| Unary | ServerStreaming | ClientStreaming | BidiStreaming | Subscribe | CommandChannel | BulkTransfer | Telemetry
| RemoteShell | AgentSession | HttpBridge.
Inductive RemoteShellStream := Stdin | Stdout | Stderr.
Inductive StreamingPriority := P0 | P1 | P2 | P3 | P4 | P5.
Inductive HttpFrame :=
| RequestHeaders (method path : string) (headers : gmap string string)
| ResponseHeaders (status : Z) (headers : gmap string string)
| BodyChunk (data : string)
| Trailers (headers : gmap string string).

#[global] Instance RpcErrorCode_eq_dec : EqDecision RpcErrorCode. Proof. solve_decision. Defined.
#[global] Instance RpcError_eq_dec : EqDecision RpcError. Proof. solve_decision. Defined.
#[global] Instance RemoteShellStream_eq_dec : EqDecision RemoteShellStream. Proof. solve_decision. Defined.

Record RpcBulkExt := mk_RpcBulkExt { chunk_index : option Z; total_chunks : option Z; expected_hash : option string }.
Record RpcFrameExt := mk_RpcFrameExt {
  method_kind : option RpcMethodKind; streaming_priority : option StreamingPriority; subscribe_topic : option string;
  credit : option Z; bulk : option RpcBulkExt; shell_stream : option RemoteShellStream;
  responsibility_chain : option (list string); ack : option string }.

Inductive ResponseStatus := StatusOk | StatusError.
Inductive RpcFrame :=
| RpcCall (call_id method : string) (request : json) (ext : option RpcFrameExt)
| RpcResponse (call_id : string) (status : ResponseStatus) (response : option json) (error : option RpcError) (ext : option RpcFrameExt)
| RpcStream (call_id : string) (seq : Z) (more : bool) (value : option json) (error : option RpcError) (ext : option RpcFrameExt)
| RpcClientStream (call_id : string) (seq : Z) (more : bool) (value : option json) (error : option RpcError) (ext : option RpcFrameExt).

Record RemoteShellOut := mk_RemoteShellOut { stream : RemoteShellStream; data : list Z }.
Record AgentSessionFrame := mk_AgentSessionFrame { value : json; chain : list string }.

(** [RpcFrameExt { method_kind: Some(kind), ..Default::default() }]. *)
Definition kind_ext (k : RpcMethodKind) : RpcFrameExt := mk_RpcFrameExt (Some k) None None None None None None None.
Definition topic_ext (k : RpcMethodKind) (topic : option string) : RpcFrameExt := mk_RpcFrameExt (Some k) None topic None None None None None.
Definition priority_ext (p : StreamingPriority) : RpcFrameExt := mk_RpcFrameExt (Some Telemetry) (Some p) None None None None None None.
Definition credit_ext (n : Z) : RpcFrameExt := mk_RpcFrameExt (Some CommandChannel) None None (Some n) None None None None.
Definition bulk_ext (b : RpcBulkExt) : RpcFrameExt := mk_RpcFrameExt (Some BulkTransfer) None None None (Some b) None None None.
Definition shell_ext (s : RemoteShellStream) : RpcFrameExt := mk_RpcFrameExt (Some RemoteShell) None None None None (Some s) None None.
Definition chain_ext (c : list string) : RpcFrameExt := mk_RpcFrameExt (Some AgentSession) None None None None None (Some c) None.
Definition ack_ext (a : string) (topic : option string) : RpcFrameExt := mk_RpcFrameExt (Some Subscribe) None topic None None None None (Some a).

(** ** The frames as JSON ([encode_rpc], [decode_rpc]) *)

Definition code_str (c : RpcErrorCode) : string :=
  match c with
  | InvalidArgument => "invalid_argument" | Unauthenticated => "unauthenticated" | PermissionDenied => "permission_denied"
  | NotFound => "not_found" | Internal => "internal"
  end.
Definition kind_str (k : RpcMethodKind) : string :=
  match k with
  | Unary => "unary" | ServerStreaming => "server-streaming" | ClientStreaming => "client-streaming" | BidiStreaming => "bidi-streaming"
  | Subscribe => "subscribe" | CommandChannel => "command-channel" | BulkTransfer => "bulk-transfer" | Telemetry => "telemetry"
  | RemoteShell => "remote-shell" | AgentSession => "agent-session" | HttpBridge => "http-bridge"
  end.
Definition shell_str (s : RemoteShellStream) : string := match s with Stdin => "stdin" | Stdout => "stdout" | Stderr => "stderr" end.
Definition priority_str (p : StreamingPriority) : string :=
  match p with P0 => "P0" | P1 => "P1" | P2 => "P2" | P3 => "P3" | P4 => "P4" | P5 => "P5" end.
Definition status_str (s : ResponseStatus) : string := match s with StatusOk => "ok" | StatusError => "error" end.
Definition error_to_value (e : RpcError) : json := JObject (field "code" (JString (code_str (code e))) ++ field "message" (JString (message e))).
Definition bulk_to_value (b : RpcBulkExt) : json :=
  JObject (opt_field "chunk_index" (chunk_index b) jint ++ opt_field "total_chunks" (total_chunks b) jint ++
    opt_field "expected_hash" (expected_hash b) JString).
Definition ext_to_value (e : RpcFrameExt) : json :=
  JObject (opt_field "method_kind" (method_kind e) (JString ∘ kind_str) ++
    opt_field "streaming_priority" (streaming_priority e) (JString ∘ priority_str) ++
    opt_field "subscribe_topic" (subscribe_topic e) JString ++ opt_field "credit" (credit e) jint ++ opt_field "bulk" (bulk e) bulk_to_value ++
    opt_field "shell_stream" (shell_stream e) (JString ∘ shell_str) ++
    opt_field "responsibility_chain" (responsibility_chain e) (fun l => JArray (JString <$> l)) ++ opt_field "ack" (ack e) JString).
(** An optional value is left out when it is [None], and written as it is, a
    null too, when it is there. *)
Definition stream_fields (kind id : string) (seq : Z) (more : bool) (value : option json) (error : option RpcError) (ext : option RpcFrameExt)
  : list (string * json) :=
  field "kind" (JString kind) ++ field "call_id" (JString id) ++ field "seq" (jint seq) ++ field "more" (JBool more) ++
  opt_field "value" value (fun v => v) ++ opt_field "error" error error_to_value ++ opt_field "ext" ext ext_to_value.
Definition rpc_to_value (f : RpcFrame) : json :=
  JObject match f with
  | RpcCall id method request ext =>
    field "kind" (JString "rpc-call") ++ field "call_id" (JString id) ++ field "method" (JString method) ++ field "request" request ++
    opt_field "ext" ext ext_to_value
  | RpcResponse id status response error ext =>
    field "kind" (JString "rpc-response") ++ field "call_id" (JString id) ++ field "status" (JString (status_str status)) ++
    opt_field "response" response (fun v => v) ++ opt_field "error" error error_to_value ++ opt_field "ext" ext ext_to_value
  | RpcStream id seq more value error ext => stream_fields "rpc-stream" id seq more value error ext
  | RpcClientStream id seq more value error ext => stream_fields "rpc-client-stream" id seq more value error ext
  end.
Definition encode_rpc (f : RpcFrame) : Session.SessionFrame := Session.Data (rpc_to_value f).
(** [from_value] is serde's reader for the type. *)
Definition decode_rpc (from_value : json -> option RpcFrame) (frame : Session.SessionFrame) : option RpcFrame :=
  match frame with Session.Data payload => from_value payload | _ => None end.

(** [B64.encode] to a string and [B64.decode(s.as_bytes())]. *)
Definition b64 (bs : list Z) : string := str_of_bytes (Base64.encode Base64.STANDARD bs).

(** [Value::as_u64] and [x as u8]. *)
Definition as_byte (v : json) : option Z :=
  match v with JNumber (NInt n) => if (0 <=? n) && (n <? 2 ^ 64) then Some (n mod 256) else None | _ => None end.

Definition decode_bulk_chunk (v : json) : list Z :=
  match v with
  | JString s => match Base64.decode Base64.STANDARD (bytes_of_str s) with Ok bs => bs | Err _ => [] end
  | JArray arr => omap as_byte arr
  | _ => []
  end.

(** ** Client *)

Inductive Pending :=
| PUnary
| PStream (next_seq : Z) (last_shell_stream : option RemoteShellStream) (last_chain : option (list string))
| PShell (next_seq : Z) (last_stream : RemoteShellStream)
| PAgent (next_seq : Z) (last_chain : list string).

(** What a caller's channel receives. *)
Inductive Payload := Value (v : json) | ShellOut (o : RemoteShellOut) | AgentFrame (f : AgentSessionFrame).
Abbreviation Item := (result RpcError Payload).

Record RpcClient := mk_RpcClient { pending : gmap string Pending; delivered : gmap string (list Item) }.

(** [tx.send(..)]. *)
Definition deliver (id : string) (i : Item) (c : RpcClient) : RpcClient :=
  mk_RpcClient (pending c) (<[id := unwrap_or (delivered c !! id) [] ++ [i]]> (delivered c)).
(** [map.remove(&call_id)], which drops the sender. *)
Definition close (id : string) (c : RpcClient) : RpcClient := mk_RpcClient (delete id (pending c)) (delivered c).
Definition update (id : string) (p : Pending) (c : RpcClient) : RpcClient := mk_RpcClient (<[id := p]> (pending c)) (delivered c).

Definition no_error_body : RpcError := mk_RpcError Internal "(no error body)".
Definition on_response (id : string) (status : ResponseStatus) (response : option json) (error : option RpcError) (c : RpcClient) : RpcClient :=
  match pending c !! id with
  | Some PUnary =>
    close id (deliver id (match status with
                          | StatusOk => Ok (Value (unwrap_or response JNull))
                          | StatusError => Err (unwrap_or error no_error_body)
                          end) c)
  | _ => close id c
  end.

Definition next_seq (p : Pending) : Z := match p with PUnary => 0 | PStream n _ _ | PShell n _ | PAgent n _ => n end.
Definition ext_field {A} (f : RpcFrameExt -> option A) (ext : option RpcFrameExt) : option A := e ← ext; f e.

(** [*next_seq += 1], and what the frame's ext leaves behind. *)
Definition advance (p : Pending) (ext : option RpcFrameExt) : Pending :=
  match p with
  | PUnary => PUnary
  | PStream n s c => PStream (n + 1) (opt_or (ext_field shell_stream ext) s) (opt_or (ext_field responsibility_chain ext) c)
  | PShell n s => PShell (n + 1) (unwrap_or (ext_field shell_stream ext) s)
  | PAgent n c => PAgent (n + 1) (unwrap_or (ext_field responsibility_chain ext) c)
  end.
Definition payload (p : Pending) (v : json) : Payload :=
  match p with
  | PUnary | PStream _ _ _ => Value v
  | PShell _ s => ShellOut (mk_RemoteShellOut s (decode_bulk_chunk v))
  | PAgent _ c => AgentFrame (mk_AgentSessionFrame v c)
  end.

Definition seq_mismatch (expected got : Z) : RpcError :=
  mk_RpcError Internal ("stream seq mismatch: expected " +:+ pretty expected +:+ ", got " +:+ pretty got).

(** The three stream cases of the listener. *)
Definition on_stream (id : string) (seq : Z) (more : bool) (value : option json) (error : option RpcError) (ext : option RpcFrameExt)
  (c : RpcClient) : RpcClient :=
  match pending c !! id with
  | None | Some PUnary => c
  | Some p =>
    if seq <? 0 then if more then c else close id c
    else if negb (seq =? next_seq p) then close id (deliver id (Err (seq_mismatch (next_seq p) seq)) c)
    else
      let p := advance p ext in
      if more then
        update id p (match value with Some v => deliver id (Ok (payload p v)) c | None => c end)
      else
        close id (match error with Some e => deliver id (Err e) c | None => c end)
  end.

(** The listener of [RpcClient::new]; [None] is a frame that is not an rpc
    frame. *)
Definition client_listener (frame : option RpcFrame) (c : RpcClient) : RpcClient :=
  match frame with
  | Some (RpcResponse id status response error _) => on_response id status response error c
  | Some (RpcStream id seq more value error ext) => on_stream id seq more value error ext c
  | _ => c
  end.

(** *** Calls: register the call, and the frame that is sent *)

Definition start_call (id : string) (p : Pending) (method : string) (request : json) (ext : option RpcFrameExt) (c : RpcClient)
  : RpcClient * RpcFrame := (update id p c, RpcCall id method request ext).

Definition call_raw (id method : string) (request : json) := start_call id PUnary method request None.
Definition server_stream_raw (id method : string) (request : json) := start_call id (PStream 0 None None) method request None.
Definition subscribe_raw (id method : string) (request : json) (topic : option string) :=
  start_call id (PStream 0 None None) method request (Some (topic_ext Subscribe topic)).
Definition client_stream_raw (id method : string) (request : json) :=
  start_call id PUnary method request (Some (kind_ext ClientStreaming)).
Definition bidi_with_kind (id method : string) (request : json) (kind : RpcMethodKind) (topic : option string) :=
  start_call id (PStream 0 None None) method request (Some (topic_ext kind topic)).
Definition telemetry_raw (id method : string) (request : json) (priority : StreamingPriority) :=
  start_call id PUnary method request (Some (priority_ext priority)).
Definition remote_shell_raw (id method : string) (request : json) :=
  start_call id (PShell 0 Stdout) method request (Some (kind_ext RemoteShell)).
Definition agent_session_raw (id method : string) (request : json) (initial_chain : list string) :=
  start_call id (PAgent 0 initial_chain) method request (Some (chain_ext initial_chain)).

(** What the caller is told when its oneshot is gone. *)
Definition call_result (o : option (result RpcError json)) : result RpcError json :=
  match o with Some r => r | None => Err (mk_RpcError Internal "transport dropped the pending call") end.

(** *** Pumps: the frames for what the caller pushes until it drops its end *)

Definition end_frame (id : string) (seq : Z) (error : option RpcError) (ext : option RpcFrameExt) : RpcFrame :=
  RpcClientStream id seq false None error ext.

Fixpoint pump_results (id : string) (value_ext error_ext end_ext : option RpcFrameExt) (seq : Z) (items : list (result RpcError json)) : list RpcFrame :=
  match items with
  | [] => [end_frame id seq None end_ext]
  | Ok v :: items => RpcClientStream id seq true (Some v) None value_ext :: pump_results id value_ext error_ext end_ext (seq + 1) items
  | Err e :: _ => [end_frame id seq (Some e) error_ext]
  end.
Definition client_stream_pump (id : string) := pump_results id None None None 0.
Definition bidi_pump (id : string) (ext : RpcFrameExt) := pump_results id (Some ext) (Some ext) (Some ext) 0.
Definition telemetry_pump (id : string) (p : StreamingPriority) :=
  pump_results id (Some (priority_ext p)) None (Some (kind_ext Telemetry)) 0.

Fixpoint bulk_pump (id : string) (seq : Z) (chunks : list (list Z)) : list RpcFrame :=
  match chunks with
  | [] => [end_frame id seq None (Some (kind_ext BulkTransfer))]
  | chunk :: chunks =>
    RpcClientStream id seq true (Some (JString (b64 chunk))) None
      (Some (bulk_ext (mk_RpcBulkExt (Some (seq mod 2 ^ 32)) None None))) :: bulk_pump id (seq + 1) chunks
  end.
Fixpoint shell_pump (id : string) (seq : Z) (chunks : list (list Z)) : list RpcFrame :=
  match chunks with
  | [] => [end_frame id seq None (Some (kind_ext RemoteShell))]
  | chunk :: chunks =>
    RpcClientStream id seq true (Some (JString (b64 chunk))) None (Some (shell_ext Stdin)) :: shell_pump id (seq + 1) chunks
  end.
Fixpoint agent_pump (id : string) (seq : Z) (frames : list AgentSessionFrame) : list RpcFrame :=
  match frames with
  | [] => [end_frame id seq None (Some (kind_ext AgentSession))]
  | f :: frames => RpcClientStream id seq true (Some (value f)) None (Some (chain_ext (chain f))) :: agent_pump id (seq + 1) frames
  end.

(** ** Server *)

Inductive CapabilityDecision := Allow | Deny (reason : string).
(** [CapabilityEnforcer::check(caller, method, capability)]. *)
Abbreviation CapabilityEnforcer := (string -> string -> string -> CapabilityDecision).
Definition AllowAllEnforcer : CapabilityEnforcer := fun _ _ _ => Allow.
Definition DenyAllEnforcer : CapabilityEnforcer := fun _ _ _ => Deny "capability enforcement denied all".

Inductive HandlerKind :=
| HUnary | HStream | HSubscribe | HClientStream | HBidi | HCommandChannel (initial_credit : Z) | HBulkTransfer
| HTelemetry (priority : StreamingPriority) | HRemoteShell | HAgentSession | HHttpBridge.
(** A registered handler; [body] tells the user functions apart. *)
Record Handler := mk_Handler { capability : string; hkind : HandlerKind; body : nat }.

Definition is_streaming (h : Handler) : bool :=
  match hkind h with
  | HStream | HSubscribe | HBidi | HCommandChannel _ | HRemoteShell | HAgentSession | HHttpBridge => true
  | HUnary | HClientStream | HBulkTransfer | HTelemetry _ => false
  end.

Record RpcContext := mk_RpcContext {
  caller_actor : string; method : string; call_id : string; initial_chain : list string; topic : option string }.

Inductive InflightMsg := MValue (v : json) (ext : option RpcFrameExt) | MDone | MError (e : RpcError).

(** A spawned dispatcher: the arguments of its [dispatch_*] call. *)
Record Task := mk_Task { ctx : RpcContext; request : json; handler : Handler; expected : option string }.

(** What a handler sends into its outbound channel. *)
Inductive Emission := EResult (r : result RpcError json) | EShell (o : RemoteShellOut) | EAgent (f : AgentSessionFrame) | EHttp (f : HttpFrame).

(** [tasks]: dispatchers spawned but not polled yet; [running]: those whose
    handler has been called, with the sequence number of the next frame;
    [pipes]: the messages pushed into each client pipe; [out] and [emitted]: the
    frames each dispatcher has sent and the items its handler has; [replies]:
    the frames the listener sent itself; [invoked]: the handler each dispatcher
    has called. *)
Record RpcServer := mk_RpcServer {
  handlers : gmap string Handler; inflight : gmap string nat; pipes : gmap nat (list InflightMsg); next : nat;
  tasks : gmap nat Task; running : gmap nat (Task * Z); out : gmap nat (list RpcFrame); emitted : gmap nat (list Emission);
  replies : list RpcFrame; invoked : gmap nat Task }.

Definition new_server : RpcServer := mk_RpcServer ∅ ∅ ∅ 0 ∅ ∅ ∅ ∅ [] ∅.

Definition set_handlers h s := mk_RpcServer h (inflight s) (pipes s) (next s) (tasks s) (running s) (out s) (emitted s) (replies s) (invoked s).
Definition set_inflight i s := mk_RpcServer (handlers s) i (pipes s) (next s) (tasks s) (running s) (out s) (emitted s) (replies s) (invoked s).
Definition set_pipes p s := mk_RpcServer (handlers s) (inflight s) p (next s) (tasks s) (running s) (out s) (emitted s) (replies s) (invoked s).
Definition set_tasks n t s := mk_RpcServer (handlers s) (inflight s) (pipes s) n t (running s) (out s) (emitted s) (replies s) (invoked s).
Definition set_running r s := mk_RpcServer (handlers s) (inflight s) (pipes s) (next s) (tasks s) r (out s) (emitted s) (replies s) (invoked s).
Definition set_out o s := mk_RpcServer (handlers s) (inflight s) (pipes s) (next s) (tasks s) (running s) o (emitted s) (replies s) (invoked s).
Definition set_emitted e s := mk_RpcServer (handlers s) (inflight s) (pipes s) (next s) (tasks s) (running s) (out s) e (replies s) (invoked s).
Definition reply f s := mk_RpcServer (handlers s) (inflight s) (pipes s) (next s) (tasks s) (running s) (out s) (emitted s) (replies s ++ [f]) (invoked s).
Definition log_invoked k t s := mk_RpcServer (handlers s) (inflight s) (pipes s) (next s) (tasks s) (running s) (out s) (emitted s) (replies s) (<[k := t]> (invoked s)).

Definition error_response (id : string) (e : RpcError) (ext : option RpcFrameExt) : RpcFrame := RpcResponse id StatusError None (Some e) ext.
Definition ok_response (id : string) (v : json) (ext : option RpcFrameExt) : RpcFrame := RpcResponse id StatusOk (Some v) None ext.

Section server.
Variable sha256 : list Z -> list Z.
(** [serde_json::to_value] and [from_value] of an [HttpFrame]. *)
Variable http_to_value : HttpFrame -> json.
(** The peer the session authenticated, and the pluggable policy. *)
Variable caller : string.
Variable enforcer : CapabilityEnforcer.

Definition sha256_of_chunks (chunks : list (list Z)) : string := "sha256:" +:+ hex (sha256 (concat chunks)).

(** The client side of a bulk transfer asserts the hash up front. *)
Definition bulk_transfer_raw (id method : string) (request : json) (chunks : list (list Z)) :=
  start_call id PUnary method request
    (Some (bulk_ext (mk_RpcBulkExt None (Some (Z.of_nat (length chunks) mod 2 ^ 32)) (Some (sha256_of_chunks chunks))))).

(** *** The listener of [RpcServer::new] *)

Definition route (id : string) (more : bool) (value : option json) (error : option RpcError) (ext : option RpcFrameExt) (s : RpcServer) : RpcServer :=
  match inflight s !! id with
  | None => s
  | Some k =>
    let push m := set_pipes (<[k := unwrap_or (pipes s !! k) [] ++ [m]]> (pipes s)) s in
    match error with
    | Some e => push (MError e)
    | None => if more then match value with Some v => push (MValue v ext) | None => s end else push MDone
    end
  end.

Definition on_call (id method : string) (request : json) (ext : option RpcFrameExt) (s : RpcServer) : RpcServer :=
  match handlers s !! method with
  | None => reply (error_response id (mk_RpcError NotFound ("unknown method: " +:+ method)) None) s
  | Some h =>
    match enforcer caller method (capability h) with
    | Deny reason =>
      let e := mk_RpcError PermissionDenied reason in
      reply (if is_streaming h then RpcStream id 0 false None (Some e) None else error_response id e None) s
    | Allow =>
      let ctx := mk_RpcContext caller method id (unwrap_or (ext_field responsibility_chain ext) []) (ext_field subscribe_topic ext) in
      let expected := b ← ext_field bulk ext; expected_hash b in
      set_tasks (S (next s)) (<[next s := mk_Task ctx request h expected]> (tasks s)) s
    end
  end.

Definition server_listener (frame : option RpcFrame) (s : RpcServer) : RpcServer :=
  match frame with
  | Some (RpcClientStream id _ more value error ext) => route id more value error ext s
  | Some (RpcCall id method request ext) => on_call id method request ext s
  | _ => s
  end.

(** *** Dispatchers *)

Definition has_pipe (h : Handler) : bool :=
  match hkind h with HUnary | HStream | HSubscribe => false | _ => true end.

(** The synthetic frames a dispatcher opens and closes with. *)
Definition opening (t : Task) : list RpcFrame :=
  let id := call_id (ctx t) in
  match hkind (handler t) with
  | HSubscribe => [RpcStream id (-1) true None None (Some (ack_ext "subscribed" (topic (ctx t))))]
  | HCommandChannel credit => [RpcStream id (-1) true None None (Some (credit_ext credit))]
  | _ => []
  end.
Definition trailer (t : Task) : list RpcFrame :=
  match hkind (handler t) with
  | HSubscribe => [RpcStream (call_id (ctx t)) (-1) false None None (Some (ack_ext "unsubscribed" None))]
  | _ => []
  end.
Definition stream_kind (h : Handler) : RpcMethodKind :=
  match hkind h with
  | HStream => ServerStreaming | HSubscribe => Subscribe | HBidi => BidiStreaming | HCommandChannel _ => CommandChannel
  | HRemoteShell => RemoteShell | HAgentSession => AgentSession | HHttpBridge => HttpBridge
  | HUnary => Unary | HClientStream => ClientStreaming | HBulkTransfer => BulkTransfer | HTelemetry _ => Telemetry
  end.

(** The frame of one item, per loop; the boolean tells that the loop returns
    after it. *)
Definition value_frame (id : string) (kind : RpcMethodKind) (seq : Z) (r : result RpcError json) : RpcFrame * bool :=
  match r with
  | Ok v => (RpcStream id seq true (Some v) None (Some (kind_ext kind)), false)
  | Err err => (RpcStream id seq false None (Some err) (Some (kind_ext kind)), true)
  end.
Definition shell_frame (id : string) (seq : Z) (o : RemoteShellOut) : RpcFrame * bool :=
  (RpcStream id seq true (Some (JString (b64 (data o)))) None (Some (shell_ext (stream o))), false).
Definition agent_frame (id : string) (seq : Z) (f : AgentSessionFrame) : RpcFrame * bool :=
  (RpcStream id seq true (Some (value f)) None (Some (chain_ext (chain f))), false).
Definition http_frame (id : string) (seq : Z) (f : HttpFrame) : RpcFrame * bool :=
  (RpcStream id seq true (Some (http_to_value f)) None (Some (kind_ext HttpBridge)), false).
(** [None]: the handler's channel does not carry such items. *)
Definition item_frame (t : Task) (seq : Z) (e : Emission) : option (RpcFrame * bool) :=
  let id := call_id (ctx t) in
  match hkind (handler t), e with
  | (HStream | HSubscribe | HBidi | HCommandChannel _), EResult r => Some (value_frame id (stream_kind (handler t)) seq r)
  | HRemoteShell, EShell o => Some (shell_frame id seq o)
  | HAgentSession, EAgent f => Some (agent_frame id seq f)
  | HHttpBridge, EHttp f => Some (http_frame id seq f)
  | _, _ => None
  end.
Definition end_of_stream (t : Task) (seq : Z) : RpcFrame :=
  RpcStream (call_id (ctx t)) seq false None None (Some (kind_ext (stream_kind (handler t)))).

(** The chunks the tee of [dispatch_bulk_transfer] has collected after taking
    these messages. *)
Fixpoint collected (msgs : list InflightMsg) : list (list Z) :=
  match msgs with
  | MValue v _ :: msgs => decode_bulk_chunk v :: collected msgs
  | _ => []
  end.
Definition hash_ext (h : string) : RpcFrameExt := bulk_ext (mk_RpcBulkExt None None (Some h)).
Definition missing_hash : RpcError := mk_RpcError InvalidArgument "bulk-transfer requires ext.bulk.expected_hash".
Definition hash_mismatch (actual expected : string) : RpcError :=
  mk_RpcError InvalidArgument ("bulk-transfer hash mismatch: got " +:+ actual +:+ ", expected " +:+ expected).

Definition result_frame (id : string) (r : result RpcError json) (ext : option RpcFrameExt) : RpcFrame :=
  match r with Ok v => ok_response id v ext | Err e => error_response id e ext end.

Definition bulk_response (id expected : string) (r : result RpcError json) (chunks : list (list Z)) : RpcFrame :=
  let actual := sha256_of_chunks chunks in
  match r with
  | Ok v => if (actual =? expected)%string then ok_response id v (Some (hash_ext actual))
            else error_response id (hash_mismatch actual expected) (Some (hash_ext actual))
  | Err e => error_response id e None
  end.
Definition telemetry_response (id : string) (p : StreamingPriority) (r : result RpcError json) : RpcFrame :=
  match r with
  | Ok _ => ok_response id JNull (Some (priority_ext p))
  | Err e => error_response id e (Some (priority_ext p))
  end.
(** The response of a dispatcher whose handler returned [r]; [chunks] have been
    collected by then. *)
Definition final_response (t : Task) (r : result RpcError json) (chunks : list (list Z)) : RpcFrame :=
  let id := call_id (ctx t) in
  match hkind (handler t) with
  | HBulkTransfer => bulk_response id (unwrap_or (expected t) "") r chunks
  | HTelemetry p => telemetry_response id p r
  | _ => result_frame id r None
  end.

(** *** Steps *)

Definition send (k : nat) (fs : list RpcFrame) (s : RpcServer) : RpcServer :=
  set_out (<[k := unwrap_or (out s !! k) [] ++ fs]> (out s)) s.
Definition install_client_pipe (k : nat) (id : string) (s : RpcServer) : RpcServer :=
  set_inflight (<[id := k]> (inflight s)) (set_pipes (<[k := []]> (pipes s)) s).
Definition remove_inflight (t : Task) (s : RpcServer) : RpcServer :=
  if has_pipe (handler t) then set_inflight (delete (call_id (ctx t)) (inflight s)) s else s.

(** The first poll of a spawned dispatcher, up to the call of the handler. *)
Definition start (k : nat) (s : RpcServer) : RpcServer :=
  match tasks s !! k with
  | None => s
  | Some t =>
    let s := set_tasks (next s) (delete k (tasks s)) s in
    match hkind (handler t), expected t with
    | HBulkTransfer, None => send k [error_response (call_id (ctx t)) missing_hash None] s
    | _, _ =>
      let s := if has_pipe (handler t) then install_client_pipe k (call_id (ctx t)) s else s in
      log_invoked k t (set_running (<[k := (t, 0)]> (running s)) (send k (opening t) s))
    end
  end.

(** The dispatcher is done. *)
Definition finish (k : nat) (t : Task) (fs : list RpcFrame) (s : RpcServer) : RpcServer :=
  set_running (delete k (running s)) (send k fs (remove_inflight t s)).

Definition emit (k : nat) (e : Emission) (s : RpcServer) : RpcServer :=
  match running s !! k with
  | None => s
  | Some (t, seq) =>
    match item_frame t seq e with
    | None => s
    | Some (f, last) =>
      let s := set_emitted (<[k := unwrap_or (emitted s !! k) [] ++ [e]]> (emitted s)) s in
      if last then finish k t (f :: trailer t) s
      else set_running (<[k := (t, seq + 1)]> (running s)) (send k [f] s)
    end
  end.

(** The handler drops its sender. *)
Definition hang_up (k : nat) (s : RpcServer) : RpcServer :=
  match running s !! k with
  | Some (t, seq) => if is_streaming (handler t) then finish k t (end_of_stream t seq :: trailer t) s else s
  | None => s
  end.

(** The handler returns; a bulk transfer's tee has taken [taken] messages. *)
Definition return_ (k : nat) (r : result RpcError json) (taken : nat) (s : RpcServer) : RpcServer :=
  match running s !! k with
  | Some (t, _) =>
    if is_streaming (handler t) then s
    else finish k t [final_response t r (collected (take taken (unwrap_or (pipes s !! k) [])))] s
  | None => s
  end.

(** The http-bridge pump reads the end of the client stream, which may be after
    the dispatcher has ended. *)
Definition is_end (m : InflightMsg) : bool := match m with MValue _ _ => false | _ => true end.
Definition http_done (k : nat) (s : RpcServer) : RpcServer :=
  match invoked s !! k with
  | Some t =>
    match hkind (handler t) with
    | HHttpBridge => if existsb is_end (unwrap_or (pipes s !! k) []) then remove_inflight t s else s
    | _ => s
    end
  | None => s
  end.

Inductive event :=
| Register (method : string) (h : Handler)
| Frame (f : option RpcFrame)
| Start (k : nat)
| Emit (k : nat) (e : Emission)
| HangUp (k : nat)
| Return (k : nat) (r : result RpcError json) (taken : nat)
| HttpDone (k : nat).

Definition step (s : RpcServer) (ev : event) : RpcServer :=
  match ev with
  | Register method h => set_handlers (<[method := h]> (handlers s)) s
  | Frame f => server_listener f s
  | Start k => start k s
  | Emit k e => emit k e s
  | HangUp k => hang_up k s
  | Return k r taken => return_ k r taken s
  | HttpDone k => http_done k s
  end.
Definition run (evs : list event) : RpcServer := fold_left step evs new_server.

(** [check_authorization]. *)
Definition check_authorization (caller method capability : string) : CapabilityDecision := enforcer caller method capability.
End server.

(** *** What a client pipe hands to the handler *)

(** [pipe_to_value_rx]: values up to the end or the first error. *)
Fixpoint value_rx (msgs : list InflightMsg) : list (result RpcError json) :=
  match msgs with
  | MValue v _ :: msgs => Ok v :: value_rx msgs
  | MError e :: _ => [Err e]
  | _ => []
  end.
(** The stdin pipe of a remote shell drops frames tagged otherwise. *)
Fixpoint stdin_rx (msgs : list InflightMsg) : list (list Z) :=
  match msgs with
  | MValue v ext :: msgs =>
    match unwrap_or (ext_field shell_stream ext) Stdin with
    | Stdin => decode_bulk_chunk v :: stdin_rx msgs
    | _ => stdin_rx msgs
    end
  | _ => []
  end.
Fixpoint frames_rx (initial : list string) (msgs : list InflightMsg) : list AgentSessionFrame :=
  match msgs with
  | MValue v ext :: msgs => mk_AgentSessionFrame v (unwrap_or (ext_field responsibility_chain ext) initial) :: frames_rx initial msgs
  | _ => []
  end.
Fixpoint http_rx (of_value : json -> option HttpFrame) (msgs : list InflightMsg) : list HttpFrame :=
  match msgs with
  | MValue v _ :: msgs => match of_value v with Some f => f :: http_rx of_value msgs | None => http_rx of_value msgs end
  | _ => []
  end.

End Rpc.
