(* ===== verification/RpcProofs.v ===== *)
(** * RpcProofs: what the ProofRPC runtime guarantees

    - [rpc_handlers_authorized]: in every interleaving, only authorized
      handlers run;
    - [rpc_streams_delivered], [rpc_calls_answered]: the frames a dispatcher
      sends, mixed with those of other calls, give the caller exactly what the
      handler produced, but for items that are null, which the encoding loses;
    - [bulk_transfer_exact]: what a bulk receipt certifies;
    - [unknown_stream_silent], [kind_mismatch_hangs]: the replies a client
      loses. *)

From S2P Require Import Prelude Json Base64 Crypto Session Rpc.

#[local] Open Scope string_scope.
#[local] Open Scope list_scope.
#[local] Open Scope Z_scope.

Module RpcProofs.
Import Rpc.

(** ** The trip through the encoding *)

(** The integers of a frame have the widths of their types. *)
Definition is_u32 (n : Z) : bool := (0 <=? n) && (n <? 2 ^ 32).
Definition opt_all {A} (p : A -> bool) (o : option A) : bool := match o with Some a => p a | None => true end.
Definition ext_widths (ext : option RpcFrameExt) : bool :=
  opt_all (fun e => opt_all is_u32 (credit e) && opt_all (fun b => opt_all is_u32 (chunk_index b) && opt_all is_u32 (total_chunks b)) (bulk e)) ext.
Definition widths_ok (f : RpcFrame) : bool :=
  match f with
  | RpcCall _ _ _ ext | RpcResponse _ _ _ _ ext => ext_widths ext
  | RpcStream _ seq _ _ _ ext => (- 2 ^ 63 <=? seq) && (seq <? 2 ^ 63) && ext_widths ext
  | RpcClientStream _ seq _ _ _ ext => (0 <=? seq) && (seq <? 2 ^ 64) && ext_widths ext
  end.

(** A frame as it is read: an optional value that was written as null is
    absent. *)
Definition null_absent (v : option json) : option json := match v with Some JNull => None | _ => v end.
Definition read_back (f : RpcFrame) : RpcFrame :=
  match f with
  | RpcCall id method request ext => f
  | RpcResponse id status response error ext => RpcResponse id status (null_absent response) error ext
  | RpcStream id seq more value error ext => RpcStream id seq more (null_absent value) error ext
  | RpcClientStream id seq more value error ext => RpcClientStream id seq more (null_absent value) error ext
  end.

(** serde's derived reader inverts the derived writer, except that it takes
    null for the absence of an optional field. *)
Definition reader_law (from_value : json -> option RpcFrame) : Prop :=
  forall f, widths_ok f = true -> from_value (rpc_to_value f) = Some (read_back f).

Section proofs.
Variable sha256 : list Z -> list Z.
Variable http_to_value : HttpFrame -> json.
Variable caller : string.
Variable enforcer : CapabilityEnforcer.
Abbreviation step := (step sha256 http_to_value caller enforcer).
Abbreviation run := (run sha256 http_to_value caller enforcer).

(** ** Only authorized handlers run *)

(** The task answers a call that was received, with a handler that was
    registered for its method and that the policy allows. *)
Definition authorized (evs : list event) (t : Task) : Prop :=
  caller_actor (ctx t) = caller /\ enforcer caller (method (ctx t)) (capability (handler t)) = Allow /\
  Register (method (ctx t)) (handler t) ∈ evs /\
  exists ext, Frame (Some (RpcCall (call_id (ctx t)) (method (ctx t)) (request t) ext)) ∈ evs.

Definition auth_inv (evs : list event) (s : RpcServer) : Prop :=
  (forall m h, handlers s !! m = Some h -> Register m h ∈ evs) /\
  map_Forall (fun _ t => authorized evs t) (tasks s) /\ map_Forall (fun _ t => authorized evs t) (invoked s).

Lemma authorized_mono evs ev t : authorized evs t -> authorized (evs ++ [ev]) t.
Proof. intros (H1 & H2 & H3 & ext & H4). split_and!; [done|done|set_solver|]. exists ext. set_solver. Qed.

Lemma auth_inv_mono evs ev s : auth_inv evs s -> auth_inv (evs ++ [ev]) s.
Proof.
  intros (H1 & H2 & H3). split_and!.
  - intros m h H. apply H1 in H. set_solver.
  - eapply map_Forall_impl; [exact H2|]. eauto using authorized_mono.
  - eapply map_Forall_impl; [exact H3|]. eauto using authorized_mono.
Qed.

(** The steps after the listener touch neither the handlers nor the tasks. *)
Lemma start_auth evs k s : auth_inv evs s -> auth_inv evs (start k s).
Proof.
  intros (H1 & H2 & H3). unfold start. destruct (tasks s !! k) as [t|] eqn:E; [|done].
  assert (authorized evs t) as Ht by by eapply H2.
  assert (map_Forall (fun _ t => authorized evs t) (delete k (tasks s))) as Hd by by apply map_Forall_delete.
  assert (map_Forall (fun _ t => authorized evs t) (<[k := t]> (invoked s))) as Hi by by apply map_Forall_insert_2.
  by destruct (hkind (handler t)), (expected t), (has_pipe (handler t)).
Qed.

Lemma other_auth evs s s' : handlers s' = handlers s -> tasks s' = tasks s -> invoked s' = invoked s -> auth_inv evs s -> auth_inv evs s'.
Proof. unfold auth_inv. by intros -> -> ->. Qed.

Lemma step_auth evs s ev : auth_inv evs s -> auth_inv (evs ++ [ev]) (step s ev).
Proof.
  intros Hi. pose proof (auth_inv_mono evs ev s Hi) as Hm. destruct ev as [m h|f|k|k e|k|k r n|k]; cbn [step].
  - destruct Hm as (H1 & H2 & H3). split_and!; [|done|done]. cbn. intros m' h'. rewrite lookup_insert_Some.
    intros [[<- <-]|[_ H]]; [set_solver|by apply H1].
  - destruct f as [[id m req ext| | |id seq more v e ext]|]; try done; cbn [server_listener].
    + unfold on_call. destruct (handlers s !! m) as [h|] eqn:E; [|done]. destruct (enforcer caller m (capability h)) eqn:Ee; [|done].
      destruct Hm as (H1 & H2 & H3). split_and!; [done| |done]. cbn. apply map_Forall_insert_2; [|done].
      split_and!; [done|done|by apply H1|]. exists ext. cbn. set_solver.
    + unfold route. repeat case_match; done.
  - by apply start_auth.
  - revert Hm. apply other_auth; unfold emit, finish, remove_inflight; repeat case_match; done.
  - revert Hm. apply other_auth; unfold hang_up, finish, remove_inflight; repeat case_match; done.
  - revert Hm. apply other_auth; unfold return_, finish, remove_inflight; repeat case_match; done.
  - revert Hm. apply other_auth; unfold http_done, remove_inflight; repeat case_match; done.
Qed.

Lemma run_snoc evs ev : run (evs ++ [ev]) = step (run evs) ev.
Proof. unfold Rpc.run. by rewrite fold_left_app. Qed.

Lemma run_auth evs : auth_inv evs (run evs).
Proof.
  induction evs as [|ev evs IH] using rev_ind; [by split_and!; intros ? ?|]. rewrite run_snoc. by apply step_auth.
Qed.

(** C17: in every interleaving of registrations, frames, polls and handler
    events, a handler is called only for a call frame that was received, for
    its own method, and only when the enforcer allowed the authenticated caller
    the capability that handler was registered with. *)
Theorem rpc_handlers_authorized evs k t (H : invoked (run evs) !! k = Some t) : authorized evs t.
Proof. by apply (proj2 (proj2 (run_auth evs))) in H. Qed.

(** ** What a dispatcher sends *)

(** The frames of items that do not end the stream. *)
Fixpoint frames_of (t : Task) (seq : Z) (es : list Emission) : option (list RpcFrame) :=
  match es with
  | [] => Some []
  | e :: es =>
    match item_frame http_to_value t seq e with
    | Some (f, false) => cons f <$> frames_of t (seq + 1) es
    | _ => None
    end
  end.

Lemma frames_of_snoc t seq es e fs f : frames_of t seq es = Some fs ->
  item_frame http_to_value t (seq + Z.of_nat (length es)) e = Some (f, false) -> frames_of t seq (es ++ [e]) = Some (fs ++ [f]).
Proof.
  revert seq fs; induction es as [|x es IH]; intros seq fs; cbn [frames_of app length].
  - intros [= <-]. rewrite Z.add_0_r. by intros ->.
  - destruct (item_frame _ _ _ x) as [[g []]|]; try done. destruct (frames_of t (seq + 1) es) as [gs|] eqn:E; [|done].
    intros [= <-] Hf. cbn. rewrite (IH (seq + 1) gs); [done|done|]. rewrite <-Hf. f_equal. lia.
Qed.

(** The frames of a streaming dispatcher whose handler has emitted [es], and
    whether it is done. *)
Inductive stream_sent (t : Task) : list Emission -> bool -> list RpcFrame -> Prop :=
| sent_open es fs : frames_of t 0 es = Some fs -> stream_sent t es false (opening t ++ fs)
| sent_end es fs : frames_of t 0 es = Some fs ->
    stream_sent t es true (opening t ++ fs ++ end_of_stream t (Z.of_nat (length es)) :: trailer t)
| sent_error es fs e f : frames_of t 0 es = Some fs -> item_frame http_to_value t (Z.of_nat (length es)) e = Some (f, true) ->
    stream_sent t (es ++ [e]) true (opening t ++ fs ++ f :: trailer t).

Definition emitted_by (s : RpcServer) (k : nat) : list Emission := unwrap_or (emitted s !! k) [].
Definition sent_by (s : RpcServer) (k : nat) : list RpcFrame := unwrap_or (out s !! k) [].
Definition piped (s : RpcServer) (k : nat) : list InflightMsg := unwrap_or (pipes s !! k) [].

(** The invariant of the dispatchers after the events [evs]. *)
Definition dispatch_ok (evs : list event) (s : RpcServer) (k : nat) (t : Task) : Prop :=
  if is_streaming (handler t) then
    match running s !! k with
    | Some (t', n) => t' = t /\ n = Z.of_nat (length (emitted_by s k)) /\ exists fs,
        frames_of t 0 (emitted_by s k) = Some fs /\ sent_by s k = opening t ++ fs
    | None => stream_sent t (emitted_by s k) true (sent_by s k)
    end
  else
    match running s !! k with
    | Some (t', n) => t' = t /\ sent_by s k = []
    | None => exists r taken, Return k r taken ∈ evs /\
        exists n, (n <= taken)%nat /\ (n <= length (piped s k))%nat /\
          sent_by s k = [final_response sha256 t r (collected (take n (piped s k)))]
    end.

Definition dispatch_inv (evs : list event) (s : RpcServer) : Prop :=
  (forall k t, invoked s !! k = Some t -> dispatch_ok evs s k t) /\
  (forall k t n, running s !! k = Some (t, n) -> invoked s !! k = Some t) /\
  (forall k, is_Some (tasks s !! k) -> (k < next s)%nat /\ invoked s !! k = None /\ out s !! k = None /\ emitted s !! k = None) /\
  (forall k, (next s <= k)%nat -> tasks s !! k = None /\ invoked s !! k = None /\ out s !! k = None /\ emitted s !! k = None).

Lemma dispatch_ok_mono evs ev s k t : dispatch_ok evs s k t -> dispatch_ok (evs ++ [ev]) s k t.
Proof.
  unfold dispatch_ok. destruct (is_streaming _); [done|]. destruct (running s !! k) as [[]|]; [done|].
  intros (r & n & H & Hm). exists r, n. split; [set_solver|done].
Qed.

(** The dispatcher only looks at its own entries. *)
Lemma dispatch_ok_ext evs s s' k t : running s' !! k = running s !! k -> emitted s' !! k = emitted s !! k -> out s' !! k = out s !! k ->
  piped s k `prefix_of` piped s' k -> dispatch_ok evs s k t -> dispatch_ok evs s' k t.
Proof.
  unfold dispatch_ok, emitted_by, sent_by. intros -> -> -> [l Hl]. destruct (is_streaming _), (running s !! k) as [[]|]; try done.
  intros (r & n & H & m & H1 & H2 & H3). exists r, n. split; [done|]. exists m. rewrite Hl, length_app, take_app_le by done. split_and!; [done|lia|done].
Qed.

Lemma dispatch_inv_ext evs ev s s' : running s' = running s -> emitted s' = emitted s -> out s' = out s -> invoked s' = invoked s ->
  tasks s' = tasks s -> next s' = next s -> (forall k, piped s k `prefix_of` piped s' k) -> dispatch_inv evs s -> dispatch_inv (evs ++ [ev]) s'.
Proof.
  intros H1 H2 H3 H4 H5 H6 H7 (I1 & I2 & I3 & I4). split_and!.
  - intros k t. rewrite H4. intros H. apply dispatch_ok_mono. eapply dispatch_ok_ext; [..|by apply I1]; by rewrite ?H1, ?H2, ?H3.
  - intros k t n. rewrite H1, H4. apply I2.
  - intros k. rewrite H5, H6, H4, H3, H2. apply I3.
  - intros k. rewrite H5, H6, H4, H3, H2. apply I4.
Qed.

Lemma on_call_inv evs ev id m req ext s : dispatch_inv evs s -> dispatch_inv (evs ++ [ev]) (on_call caller enforcer id m req ext s).
Proof.
  intros Hi. unfold on_call. destruct (handlers s !! m) as [h|]; [|by eapply dispatch_inv_ext].
  destruct (enforcer _ _ _); [|by eapply dispatch_inv_ext]. destruct Hi as (I1 & I2 & I3 & I4). split_and!; cbn.
  - intros k t H. apply dispatch_ok_mono. by apply I1.
  - done.
  - intros k [t Ht]. destruct (decide (k = next s)) as [->|Hk].
    + destruct (I4 (next s) (Nat.le_refl _)) as (_ & H1 & H2 & H3). split_and!; [lia|done|done|done].
    + rewrite lookup_insert_ne in Ht by done. destruct (I3 k) as (H0 & H1 & H2 & H3); [eauto|]. split_and!; [lia|done|done|done].
  - intros k Hk. rewrite lookup_insert_ne by lia. apply I4. lia.
Qed.

Lemma opening_response t : is_streaming (handler t) = false -> opening t = [].
Proof. unfold is_streaming, opening. by destruct (hkind (handler t)). Qed.

Lemma start_inv evs ev k s : dispatch_inv evs s -> dispatch_inv (evs ++ [ev]) (start k s).
Proof.
  intros Hi. unfold start. destruct (tasks s !! k) as [t|] eqn:Et; [|by eapply dispatch_inv_ext].
  destruct Hi as (I1 & I2 & I3 & I4). destruct (I3 k) as (Hk & Hinv & Hout & Hem); [eauto|].
  assert (Hrun : running s !! k = None).
  { destruct (running s !! k) as [[t' n]|] eqn:E; [|done]. apply I2 in E. congruence. }
  set (s1 := set_tasks _ _ _).
  assert (Hmiss : dispatch_inv (evs ++ [ev]) (send k [error_response (call_id (ctx t)) missing_hash None] s1)).
  { split_and!; cbn.
    - intros k' t' H. apply dispatch_ok_mono. destruct (decide (k' = k)) as [->|Hne]; [congruence|].
      eapply dispatch_ok_ext; [..|by apply I1]; cbn; try done. by rewrite lookup_insert_ne.
    - done.
    - intros k' [t' H]. apply lookup_delete_Some in H as [Hne H]. rewrite lookup_insert_ne by done. apply I3. eauto.
    - intros k' H. rewrite lookup_delete_ne, lookup_insert_ne by lia. by apply I4. }
  assert (Hrest : forall s2, s2 = (if has_pipe (handler t) then install_client_pipe k (call_id (ctx t)) s1 else s1) ->
    dispatch_inv (evs ++ [ev]) (log_invoked k t (set_running (<[k := (t, 0)]> (running s2)) (send k (opening t) s2)))).
  { intros s2 H2. assert (running s2 = running s /\ out s2 = out s /\ emitted s2 = emitted s /\ invoked s2 = invoked s /\
      tasks s2 = delete k (tasks s) /\ next s2 = next s /\ forall k', k' <> k -> pipes s2 !! k' = pipes s !! k') as (E1 & E2 & E3 & E4 & E5 & E6 & E7).
    { subst s2. destruct (has_pipe _); split_and!; try done. intros k' Hne. cbn. by rewrite lookup_insert_ne. }
    clear H2. split_and!; cbn; rewrite ?E1, ?E2, ?E3, ?E4, ?E5, ?E6, ?Hout.
    - intros k' t'. rewrite lookup_insert_Some. intros [[<- <-]|[Hne H]].
      + unfold dispatch_ok, emitted_by, sent_by. cbn. rewrite ?E1, ?E2, ?E3, !lookup_insert_eq, ?Hout, ?Hem. cbn.
        destruct (is_streaming (handler t)) eqn:Es; [|by rewrite opening_response]. split_and!; [done|done|]. exists []. by rewrite app_nil_r.
      + apply dispatch_ok_mono. eapply dispatch_ok_ext; [..|by apply I1]; cbn; rewrite ?E1, ?E2, ?E3; try done;
          [by rewrite lookup_insert_ne..|]. unfold piped. cbn. by rewrite E7.
    - intros k' t' n. rewrite !lookup_insert_Some. intros [[<- [= <- <-]]|[Hne H]]; [by left|right; split; [done|by eapply I2]].
    - intros k' [t' H]. apply lookup_delete_Some in H as [Hne H]. rewrite !lookup_insert_ne by done. apply I3. eauto.
    - intros k' H. rewrite lookup_delete_ne, !lookup_insert_ne by lia. by apply I4. }
  destruct (hkind (handler t)); try (by apply Hrest); destruct (expected t); try (by apply Hrest). exact Hmiss.
Qed.

(** A step of the running dispatcher [k]. *)
Lemma local_inv evs ev s s' k t n : dispatch_inv evs s -> running s !! k = Some (t, n) ->
  invoked s' = invoked s -> tasks s' = tasks s -> next s' = next s ->
  (forall k', k' <> k -> running s' !! k' = running s !! k' /\ emitted s' !! k' = emitted s !! k' /\ out s' !! k' = out s !! k') ->
  pipes s' = pipes s ->
  (forall t' n', running s' !! k = Some (t', n') -> t' = t) -> dispatch_ok (evs ++ [ev]) s' k t -> dispatch_inv (evs ++ [ev]) s'.
Proof.
  intros (I1 & I2 & I3 & I4) Hk H1 H2 H3 Hother Hp Hrun Hok. pose proof (I2 k t n Hk) as Hinv. split_and!.
  - intros k' t'. rewrite H1. intros H. destruct (decide (k' = k)) as [->|Hne]; [by assert (t' = t) as -> by congruence|].
    apply dispatch_ok_mono. destruct (Hother k' Hne) as (? & ? & ?). eapply dispatch_ok_ext; [..|by apply I1]; try done. unfold piped. by rewrite Hp.
  - intros k' t' n' H. rewrite H1. destruct (decide (k' = k)) as [->|Hne]; [by rewrite (Hrun t' n' H)|].
    destruct (Hother k' Hne) as (E & _). rewrite E in H. by eapply I2.
  - intros k'. rewrite H2, H3, H1. intros H. destruct (I3 k' H) as (? & Hi & ? & ?).
    assert (k' <> k) as Hne by (intros ->; congruence). destruct (Hother k' Hne) as (_ & -> & ->). done.
  - intros k'. rewrite H2, H3, H1. intros H. destruct (I4 k' H) as (? & Hi & ? & ?).
    assert (k' <> k) as Hne by (intros ->; congruence). destruct (Hother k' Hne) as (_ & -> & ->). done.
Qed.

Lemma finish_other k t fs s k' : k' <> k -> running (finish k t fs s) !! k' = running s !! k' /\
  emitted (finish k t fs s) !! k' = emitted s !! k' /\ out (finish k t fs s) !! k' = out s !! k'.
Proof.
  intros H. unfold finish, remove_inflight. destruct (has_pipe _); cbn; by rewrite lookup_delete_ne, lookup_insert_ne.
Qed.

Lemma finish_self k t fs s : running (finish k t fs s) !! k = None /\ emitted (finish k t fs s) = emitted s /\
  out (finish k t fs s) !! k = Some (sent_by s k ++ fs) /\ invoked (finish k t fs s) = invoked s /\ tasks (finish k t fs s) = tasks s /\
  next (finish k t fs s) = next s /\ pipes (finish k t fs s) = pipes s.
Proof. unfold finish, remove_inflight, sent_by. destruct (has_pipe _); cbn; by rewrite lookup_delete_eq, lookup_insert_eq. Qed.

Lemma item_streaming t seq e f last : item_frame http_to_value t seq e = Some (f, last) -> is_streaming (handler t) = true.
Proof. unfold item_frame, is_streaming. by destruct (hkind (handler t)). Qed.

(** The running dispatcher's record. *)
Lemma running_ok evs s k t n : dispatch_inv evs s -> running s !! k = Some (t, n) -> dispatch_ok evs s k t.
Proof. intros (I1 & I2 & _) H. eapply I1, I2, H. Qed.

Lemma emit_inv evs ev k e s : dispatch_inv evs s -> dispatch_inv (evs ++ [ev]) (emit http_to_value k e s).
Proof.
  intros Hi. unfold emit. destruct (running s !! k) as [[t n]|] eqn:Er; [|by eapply dispatch_inv_ext].
  destruct (item_frame http_to_value t n e) as [[f last]|] eqn:Ef; [|by eapply dispatch_inv_ext].
  pose proof (item_streaming _ _ _ _ _ Ef) as Hs. pose proof (running_ok _ _ _ _ _ Hi Er) as Hok.
  unfold dispatch_ok in Hok. rewrite Hs, Er in Hok. destruct Hok as (_ & -> & fs & Hfs & Hsent).
  set (s1 := set_emitted _ s). assert (emitted_by s1 k = emitted_by s k ++ [e]) as He.
  { unfold emitted_by, s1. cbn. by rewrite lookup_insert_eq. }
  destruct last.
  - destruct (finish_self k t (f :: trailer t) s1) as (F1 & F2 & F3 & F4 & F5 & F6 & F7).
    eapply (local_inv evs ev s); [done|done|by rewrite F4|by rewrite F5|by rewrite F6| | |congruence|].
    { intros k' Hne. destruct (finish_other k t (f :: trailer t) s1 k' Hne) as (-> & -> & ->). unfold s1. cbn. by rewrite lookup_insert_ne. }
    { by rewrite F7. }
    unfold dispatch_ok. rewrite Hs, F1. unfold emitted_by at 1, sent_by at 1. rewrite F2, F3. fold (emitted_by s1 k). rewrite He. cbn [unwrap_or].
    replace (sent_by s1 k) with (sent_by s k) by done. rewrite Hsent, <-app_assoc. by apply sent_error.
  - eapply (local_inv evs ev s); [done|done|done|done|done| |done| |].
    { intros k' Hne. cbn. by rewrite !lookup_insert_ne. }
    { intros t' n'. cbn. rewrite lookup_insert_eq. by intros [= <- _]. }
    unfold dispatch_ok. rewrite Hs. cbn [running set_running]. rewrite lookup_insert_eq. unfold emitted_by, sent_by. cbn.
    rewrite !lookup_insert_eq. cbn. fold (emitted_by s k) (sent_by s k). rewrite Hsent, length_app. split_and!; [done|cbn; lia|].
    exists (fs ++ [f]). split; [by eapply frames_of_snoc|]. by rewrite app_assoc.
Qed.

Lemma hang_up_inv evs ev k s : dispatch_inv evs s -> dispatch_inv (evs ++ [ev]) (hang_up k s).
Proof.
  intros Hi. unfold hang_up. destruct (running s !! k) as [[t n]|] eqn:Er; [|by eapply dispatch_inv_ext].
  destruct (is_streaming (handler t)) eqn:Hs; [|by eapply dispatch_inv_ext]. pose proof (running_ok _ _ _ _ _ Hi Er) as Hok.
  unfold dispatch_ok in Hok. rewrite Hs, Er in Hok. destruct Hok as (_ & -> & fs & Hfs & Hsent).
  set (cl := end_of_stream _ _ :: _). destruct (finish_self k t cl s) as (F1 & F2 & F3 & F4 & F5 & F6 & F7).
  eapply (local_inv evs ev s); [done|done|done|done|done|by apply finish_other|done|congruence|].
  unfold dispatch_ok. rewrite Hs, F1. unfold emitted_by at 1, sent_by at 1. rewrite F2, F3. cbn [unwrap_or]. rewrite Hsent, <-app_assoc. by apply sent_end.
Qed.

Lemma return_inv evs k r taken s : dispatch_inv evs s -> dispatch_inv (evs ++ [Return k r taken]) (return_ sha256 k r taken s).
Proof.
  intros Hi. unfold return_. destruct (running s !! k) as [[t n]|] eqn:Er; [|by eapply dispatch_inv_ext].
  destruct (is_streaming (handler t)) eqn:Hs; [by eapply dispatch_inv_ext|]. pose proof (running_ok _ _ _ _ _ Hi Er) as Hok.
  unfold dispatch_ok in Hok. rewrite Hs, Er in Hok. destruct Hok as (_ & Hsent).
  set (fs := [final_response sha256 t r _]). destruct (finish_self k t fs s) as (F1 & F2 & F3 & F4 & F5 & F6 & F7).
  eapply (local_inv evs _ s); [done|done|done|done|done|by apply finish_other|done|congruence|].
  unfold dispatch_ok. rewrite Hs, F1. unfold sent_by at 1. rewrite F3. cbn [unwrap_or]. rewrite Hsent.
  exists r, taken. split; [set_solver|]. exists (min taken (length (piped s k))).
  replace (piped (finish k t fs s) k) with (piped s k) by (unfold piped; by rewrite F7). split_and!; [lia|lia|]. unfold fs. cbn [app].
  fold (piped s k). assert (take taken (piped s k) = take (min taken (length (piped s k))) (piped s k)) as <-; [|done].
  destruct (Nat.min_spec taken (length (piped s k))) as [[? ->]|[? ->]]; [done|]. by rewrite !take_ge by lia.
Qed.

Lemma push_inv evs ev k m s : dispatch_inv evs s ->
  dispatch_inv (evs ++ [ev]) (set_pipes (<[k := unwrap_or (pipes s !! k) [] ++ [m]]> (pipes s)) s).
Proof.
  apply dispatch_inv_ext; try done. intros k'. unfold piped. cbn. destruct (decide (k' = k)) as [->|Hne].
  - rewrite lookup_insert_eq. by eexists.
  - by rewrite lookup_insert_ne.
Qed.

Lemma run_dispatch evs : dispatch_inv evs (run evs).
Proof.
  induction evs as [|ev evs IH] using rev_ind.
  { split_and!; cbn; [by intros k t H|by intros k t n H|by intros k [t H]|by intros]. }
  rewrite run_snoc. destruct ev as [m h|f|k|k e|k|k r n|k]; cbn [Rpc.step].
  - by eapply dispatch_inv_ext.
  - destruct f as [[id m req ext| | |id seq more v e ext]|]; cbn [server_listener]; try (by eapply dispatch_inv_ext); [by apply on_call_inv|].
    unfold route. destruct (inflight _ !! id); [|by eapply dispatch_inv_ext]. repeat case_match; first [by apply push_inv|by eapply dispatch_inv_ext].
  - by apply start_inv.
  - by apply emit_inv.
  - by apply hang_up_inv.
  - by apply return_inv.
  - unfold http_done, remove_inflight. repeat case_match; by eapply dispatch_inv_ext.
Qed.

(** ** What the caller receives *)

Definition frame_call_id (f : RpcFrame) : string :=
  match f with
  | RpcCall id _ _ _ | RpcResponse id _ _ _ _ | RpcStream id _ _ _ _ _ | RpcClientStream id _ _ _ _ _ => id
  end.
Definition of_call (id : string) (f : RpcFrame) : Prop := frame_call_id f = id.
#[local] Instance of_call_dec id f : Decision (of_call id f).
Proof. unfold of_call. apply _. Defined.

(** The client hears frames that have been decoded. *)
Definition hear (fs : list RpcFrame) (c : RpcClient) : RpcClient := fold_left (fun c f => client_listener (Some f) c) fs c.
(** The client is given the session frames that carry the frames [fs]. *)
Definition receive (from_value : json -> option RpcFrame) (fs : list RpcFrame) (c : RpcClient) : RpcClient :=
  fold_left (fun c f => client_listener (decode_rpc from_value (encode_rpc f)) c) fs c.
Definition channel (c : RpcClient) (id : string) : list Item := unwrap_or (delivered c !! id) [].

Lemma hear_app fs gs c : hear (fs ++ gs) c = hear gs (hear fs c).
Proof. apply fold_left_app. Qed.

Lemma receive_hear from_value fs c : reader_law from_value -> Forall (fun f => widths_ok f = true) fs ->
  receive from_value fs c = hear (read_back <$> fs) c.
Proof.
  intros Hl Hw. revert c. induction Hw as [|f fs Hf _ IH]; intros c; [done|].
  cbn [receive hear fold_left fmap list_fmap encode_rpc decode_rpc]. rewrite (Hl f Hf). apply IH.
Qed.

Lemma read_back_call id (fs : list RpcFrame) : filter (of_call id) (read_back <$> fs) = read_back <$> filter (of_call id) fs.
Proof.
  induction fs as [|f fs IH]; [done|]. rewrite fmap_cons, !filter_cons. assert (of_call id (read_back f) <-> of_call id f) as E by by destruct f.
  destruct (decide (of_call id (read_back f))), (decide (of_call id f)); try tauto; rewrite IH; done.
Qed.

(** What the client holds for one call. *)
Definition same_call (id : string) (c d : RpcClient) : Prop :=
  pending c !! id = pending d !! id /\ delivered c !! id = delivered d !! id.

Lemma listener_other id f c : frame_call_id f <> id -> same_call id (client_listener (Some f) c) c.
Proof.
  intros Hne. destruct f as [|i st r e x|i seq more v e x|]; try done; unfold same_call; cbn [client_listener frame_call_id] in *.
  - unfold on_response, close, deliver. destruct (pending c !! i) as [[]|]; cbn; by rewrite ?lookup_delete_ne, ?lookup_insert_ne.
  - unfold on_stream, close, deliver, update. repeat case_match; cbn; by rewrite ?lookup_delete_ne, ?lookup_insert_ne.
Qed.

Lemma listener_same id f c d : frame_call_id f = id -> same_call id c d ->
  same_call id (client_listener (Some f) c) (client_listener (Some f) d).
Proof.
  intros <- [H1 H2]. destruct f as [|i st r e x|i seq more v e x|]; try done; unfold same_call; cbn [client_listener frame_call_id] in *.
  - unfold on_response, close, deliver. rewrite <-H1. destruct (pending c !! i) as [[]|]; cbn; by rewrite ?lookup_delete_eq, ?lookup_insert_eq, ?H2.
  - unfold on_stream, close, deliver, update. rewrite <-H1.
    repeat case_match; cbn; rewrite ?lookup_delete_eq, ?lookup_insert_eq, ?H2; split; congruence.
Qed.

(** The frames of other calls do not disturb a call. *)
Lemma hear_filter id fs c d : same_call id c d -> same_call id (hear fs c) (hear (filter (of_call id) fs) d).
Proof.
  revert c d; induction fs as [|f fs IH]; intros c d H; [done|]. cbn [hear fold_left]. fold (hear fs (client_listener (Some f) c)).
  rewrite filter_cons. destruct (decide (of_call id f)) as [Hf|Hf].
  - cbn [hear fold_left]. apply IH. by apply listener_same.
  - apply IH. destruct (listener_other id f c Hf) as [H1 H2], H as [H3 H4]. split; congruence.
Qed.

Lemma receive_filter from_value id fs gs c : reader_law from_value -> Forall (fun f => widths_ok f = true) fs -> filter (of_call id) fs = gs ->
  same_call id (receive from_value fs c) (hear (read_back <$> gs) c).
Proof. intros Hl Hw <-. rewrite receive_hear, <- read_back_call by done. by apply hear_filter. Qed.

(** The pending entry a stream handler's items need. *)
Definition fits (h : Handler) (p : Pending) : Prop :=
  match hkind h, p with
  | HRemoteShell, PShell _ _ | HAgentSession, PAgent _ _ => True
  | (HStream | HSubscribe | HBidi | HCommandChannel _ | HHttpBridge), PStream _ _ _ => True
  | _, _ => False
  end.
Definition item (e : Emission) : Item :=
  match e with
  | EResult (Ok v) => Ok (Value v)
  | EResult (Err err) => Err err
  | EShell o => Ok (ShellOut o)
  | EAgent f => Ok (AgentFrame f)
  | EHttp f => Ok (Value (http_to_value f))
  end.
(** The items whose JSON form is null. *)
Definition is_null (v : json) : bool := match v with JNull => true | _ => false end.
Definition null_item (e : Emission) : bool :=
  match e with
  | EResult (Ok v) => is_null v
  | EAgent f => is_null (value f)
  | EHttp f => is_null (http_to_value f)
  | EResult (Err _) | EShell _ => false
  end.
Definition carried (e : Emission) : bool := negb (null_item e).
Definition emission_bytes (e : Emission) : Prop := match e with EShell o => is_bytes (data o) | _ => True end.

Lemma decode_b64 bs : is_bytes bs -> decode_bulk_chunk (JString (b64 bs)) = bs.
Proof.
  intros H. unfold decode_bulk_chunk, b64. rewrite bytes_of_str_of_bytes by (by apply Base64.encode_bytes; [left|]).
  by rewrite Base64.b64_decode_encode by (done || by left).
Qed.

Lemma channel_deliver id i c : channel (deliver id i c) id = channel c id ++ [i].
Proof. unfold channel, deliver. cbn. by rewrite lookup_insert_eq. Qed.

(** One item. *)
Lemma item_received t n e f last c p : item_frame http_to_value t n e = Some (f, last) -> pending c !! call_id (ctx t) = Some p ->
  fits (handler t) p -> next_seq p = n -> 0 <= n -> emission_bytes e ->
  let c' := client_listener (Some (read_back f)) c in let id := call_id (ctx t) in
  channel c' id = channel c id ++ map item (List.filter carried [e]) /\
  if last then pending c' !! id = None else exists p', pending c' !! id = Some p' /\ fits (handler t) p' /\ next_seq p' = n + 1.
Proof.
  intros Hf Hp Hfit Hn H0 Hb. assert ((n <? 0) = false) as Hlt by by apply Z.ltb_ge.
  unfold item_frame in Hf. unfold fits in *. destruct (hkind (handler t)), p as [|? ? ?|? ?|? ?]; try done; cbn [next_seq] in Hn; subst;
    destruct e as [[v|err]|[st d]|[v ch]|hf]; try done; cbn [value_frame shell_frame agent_frame http_frame] in Hf; injection Hf as <- <-;
    unfold carried; cbn [List.filter null_item map];
    try destruct v; try destruct (http_to_value hf) eqn:Eh; cbn [client_listener read_back null_absent is_null negb map]; unfold on_stream;
    rewrite Hp, Hlt; cbn [next_seq]; rewrite Z.eqb_refl; cbn [negb advance payload item]; rewrite ?Eh;
    (split; [|first [by cbn; rewrite lookup_delete_eq | cbn; rewrite lookup_insert_eq; eexists; by split_and!]]);
    unfold channel, update, close, deliver; cbn; rewrite ?lookup_insert_eq; cbn [unwrap_or]; rewrite ?app_nil_r; try done.
  pose proof (decode_b64 d Hb) as E. cbn in E. by rewrite E.
Qed.

Lemma items_received t n es fs c p : frames_of t n es = Some fs -> pending c !! call_id (ctx t) = Some p ->
  fits (handler t) p -> next_seq p = n -> 0 <= n -> Forall emission_bytes es ->
  let c' := hear (read_back <$> fs) c in let id := call_id (ctx t) in
  channel c' id = channel c id ++ map item (List.filter carried es) /\
  exists p', pending c' !! id = Some p' /\ fits (handler t) p' /\ next_seq p' = n + Z.of_nat (length es).
Proof.
  intros Hf Hp Hfit Hn H0 Hb. revert n fs c p Hf Hp Hfit Hn H0. induction Hb as [|e es He Hb IH]; intros n fs c p Hf Hp Hfit Hn H0; cbn [frames_of] in Hf.
  { injection Hf as <-. split; [by rewrite app_nil_r|]. exists p. rewrite Z.add_0_r. by split_and!. }
  destruct (item_frame http_to_value t n e) as [[f []]|] eqn:Ef; try done.
  destruct (frames_of t (n + 1) es) as [gs|] eqn:Eg; [|done]. injection Hf as <-.
  destruct (item_received _ _ _ _ _ c p Ef Hp Hfit Hn H0 He) as (Hc & p1 & Hp1 & Hfit1 & Hn1).
  destruct (IH (n + 1) gs (client_listener (Some (read_back f)) c) p1 Eg Hp1 Hfit1 Hn1 ltac:(lia)) as (Hc' & p2 & Hp2 & Hfit2 & Hn2).
  change (hear (read_back <$> (f :: gs)) c) with (hear (read_back <$> gs) (client_listener (Some (read_back f)) c)).
  split; [rewrite Hc', Hc, <-app_assoc, <-map_app; do 2 f_equal; cbn; by destruct (carried e)|].
  exists p2. split_and!; [done|done|]. rewrite Hn2. cbn [length]. lia.
Qed.

(** The synthetic frames change nothing for a call that is still open or
    already closed. *)
Lemma opening_received t c : pending c !! call_id (ctx t) <> None -> hear (read_back <$> opening t) c = c.
Proof.
  intros Hp. unfold opening. destruct (hkind (handler t)); try done; cbn; unfold on_stream; by destruct (pending c !! _) as [[]|].
Qed.
Lemma closed_ignores t fs c : pending c !! call_id (ctx t) = None -> Forall (fun f => exists seq more v e ext, f = RpcStream (call_id (ctx t)) seq more v e ext) fs ->
  hear (read_back <$> fs) c = c.
Proof.
  intros Hp H. induction H as [|f fs (seq & more & v & e & ext & ->) H IH]; [done|]. cbn. unfold on_stream. by rewrite Hp.
Qed.
Lemma trailer_received t c : pending c !! call_id (ctx t) = None -> hear (read_back <$> trailer t) c = c.
Proof.
  intros Hp. apply (closed_ignores t); [done|]. unfold trailer. destruct (hkind (handler t)); try apply Forall_nil_2.
  apply Forall_singleton. by do 5 eexists.
Qed.

Lemma end_received t n c p : pending c !! call_id (ctx t) = Some p -> fits (handler t) p -> next_seq p = n -> 0 <= n ->
  let c' := client_listener (Some (end_of_stream t n)) c in
  channel c' (call_id (ctx t)) = channel c (call_id (ctx t)) /\ pending c' !! call_id (ctx t) = None.
Proof.
  intros Hp Hfit Hn H0. cbn [client_listener end_of_stream]. unfold on_stream. rewrite Hp, Hn, Z.eqb_refl.
  assert ((n <? 0) = false) as -> by by apply Z.ltb_ge.
  destruct p; [unfold fits in Hfit; by destruct (hkind (handler t))|..]; cbn; by rewrite lookup_delete_eq.
Qed.

Lemma sent_received t es closed fs c p : stream_sent t es closed fs -> pending c !! call_id (ctx t) = Some p ->
  fits (handler t) p -> next_seq p = 0 -> channel c (call_id (ctx t)) = [] -> Forall emission_bytes es ->
  let c' := hear (read_back <$> fs) c in
  channel c' (call_id (ctx t)) = map item (List.filter carried es) /\ (pending c' !! call_id (ctx t) = None <-> closed = true).
Proof.
  intros Hs Hp Hfit Hn Hc Hb. assert (pending c !! call_id (ctx t) <> None) as Hsome by congruence.
  destruct Hs as [es fs Hf|es fs Hf|es fs e f Hf He]; cbn zeta; rewrite ?fmap_app, ?hear_app, opening_received by done.
  - destruct (items_received _ _ _ _ _ _ Hf Hp Hfit Hn (Z.le_refl 0) Hb) as (H1 & p' & H2 & _). rewrite H1, Hc, H2. done.
  - destruct (items_received _ _ _ _ _ _ Hf Hp Hfit Hn (Z.le_refl 0) Hb) as (H1 & p' & H2 & H3 & H4).
    destruct (end_received t (Z.of_nat (length es)) (hear (read_back <$> fs) c) p' H2 H3 H4 ltac:(lia)) as [H5 H6].
    change (hear (read_back <$> (end_of_stream t (Z.of_nat (length es)) :: trailer t)) (hear (read_back <$> fs) c)) with
      (hear (read_back <$> trailer t) (client_listener (Some (end_of_stream t (Z.of_nat (length es)))) (hear (read_back <$> fs) c))).
    rewrite trailer_received by exact H6. cbn zeta in H5. rewrite H5, H1, Hc. done.
  - apply Forall_app in Hb as [Hb [Hbe _]%Forall_cons_1].
    destruct (items_received _ _ _ _ _ _ Hf Hp Hfit Hn (Z.le_refl 0) Hb) as (H1 & p' & H2 & H3 & H4).
    destruct (item_received _ _ _ _ _ (hear (read_back <$> fs) c) p' He H2 H3 H4 ltac:(lia) Hbe) as [H5 H6].
    change (hear (read_back <$> (f :: trailer t)) (hear (read_back <$> fs) c)) with
      (hear (read_back <$> trailer t) (client_listener (Some (read_back f)) (hear (read_back <$> fs) c))).
    rewrite trailer_received by exact H6. cbn zeta in H5. rewrite H5, H1, Hc, List.filter_app, map_app. done.
Qed.

(** C15: end to end, through the encoding of the frames, in every interleaving
    on the server and with the frames of any other calls mixed in, the caller of
    a streaming method receives exactly the items its handler sent whose JSON
    form is not null, in order and once each (values, errors, shell output with
    its stream tag, agent frames with their chain), and its channel is closed
    exactly when the dispatcher has ended.  The integers of the frames, the
    sequence numbers among them, are within the widths of their types. *)
Theorem rpc_streams_delivered from_value evs k t c p fs
  (Hread : reader_law from_value) (Hw : Forall (fun f => widths_ok f = true) fs)
  (Hk : invoked (run evs) !! k = Some t) (Hs : is_streaming (handler t) = true)
  (Hp : pending c !! call_id (ctx t) = Some p) (Hfit : fits (handler t) p) (Hn : next_seq p = 0)
  (Hd : delivered c !! call_id (ctx t) = None)
  (Hb : Forall emission_bytes (emitted_by (run evs) k))
  (Hfs : filter (of_call (call_id (ctx t))) fs = sent_by (run evs) k) :
  channel (receive from_value fs c) (call_id (ctx t)) = map item (List.filter carried (emitted_by (run evs) k)) /\
  (pending (receive from_value fs c) !! call_id (ctx t) = None <-> running (run evs) !! k = None).
Proof.
  destruct (receive_filter from_value (call_id (ctx t)) fs _ c Hread Hw Hfs) as [H1 H2]. unfold channel. rewrite H1, H2.
  fold (channel (hear (read_back <$> sent_by (run evs) k) c) (call_id (ctx t))).
  destruct (run_dispatch evs) as (Hok & _). specialize (Hok k t Hk). unfold dispatch_ok in Hok. rewrite Hs in Hok.
  assert (channel c (call_id (ctx t)) = []) as Hc by (unfold channel; by rewrite Hd).
  destruct (running (run evs) !! k) as [[t' n]|].
  - destruct Hok as (-> & _ & gs & Hgs & ->).
    destruct (sent_received t _ _ _ c p (sent_open t _ _ Hgs) Hp Hfit Hn Hc Hb) as [H3 H4]. split; [done|]. rewrite H4. done.
  - destruct (sent_received t _ _ _ c p Hok Hp Hfit Hn Hc Hb) as [H3 H4]. split; [done|]. rewrite H4. done.
Qed.

(** ** Calls with one answer *)

(** What a handler's result becomes; a bulk transfer's is checked first, see
    below. *)
Definition answer (h : Handler) (r : result RpcError json) : Item :=
  match r with
  | Ok v => Ok (Value match hkind h with HTelemetry _ => JNull | _ => v end)
  | Err e => Err e
  end.

Lemma answer_received t r chunks c : is_streaming (handler t) = false -> hkind (handler t) <> HBulkTransfer ->
  pending c !! call_id (ctx t) = Some PUnary -> channel c (call_id (ctx t)) = [] ->
  let c' := hear (read_back <$> [final_response sha256 t r chunks]) c in
  channel c' (call_id (ctx t)) = [answer (handler t) r] /\ pending c' !! call_id (ctx t) = None.
Proof.
  unfold is_streaming, final_response, answer, channel. intros Hs Hb Hp Hc.
  destruct (hkind (handler t)); try done; destruct r as [v|e]; try destruct v; cbn; unfold on_response; rewrite Hp; cbn;
    by rewrite lookup_delete_eq, lookup_insert_eq, Hc.
Qed.

(** the caller of a unary, client-streaming or telemetry method is given
    nothing before its handler returns, and then exactly one answer: what the
    handler returned (telemetry replies null), in every interleaving and
    whatever frames of other calls are mixed in. *)
Theorem rpc_calls_answered from_value evs k t c fs
  (Hread : reader_law from_value) (Hw : Forall (fun f => widths_ok f = true) fs)
  (Hk : invoked (run evs) !! k = Some t) (Hs : is_streaming (handler t) = false) (Hb : hkind (handler t) <> HBulkTransfer)
  (Hp : pending c !! call_id (ctx t) = Some PUnary) (Hd : delivered c !! call_id (ctx t) = None)
  (Hfs : filter (of_call (call_id (ctx t))) fs = sent_by (run evs) k) :
  let c' := receive from_value fs c in
  match running (run evs) !! k with
  | Some _ => channel c' (call_id (ctx t)) = [] /\ pending c' !! call_id (ctx t) = Some PUnary
  | None => pending c' !! call_id (ctx t) = None /\
      exists r taken, Return k r taken ∈ evs /\ channel c' (call_id (ctx t)) = [answer (handler t) r]
  end.
Proof.
  destruct (receive_filter from_value (call_id (ctx t)) fs _ c Hread Hw Hfs) as [H1 H2]. cbn zeta. unfold channel. rewrite H1, H2.
  fold (channel (hear (read_back <$> sent_by (run evs) k) c) (call_id (ctx t))).
  destruct (run_dispatch evs) as (Hok & _). specialize (Hok k t Hk). unfold dispatch_ok in Hok. rewrite Hs in Hok.
  assert (channel c (call_id (ctx t)) = []) as Hc by (unfold channel; by rewrite Hd).
  destruct (running (run evs) !! k) as [[t' n]|]; [by destruct Hok as [_ ->]|].
  destruct Hok as (r & taken & Hr & n & _ & _ & ->).
  destruct (answer_received t r (collected (take n (piped (run evs) k))) c Hs Hb Hp Hc) as [H3 H4]. split; [done|]. by exists r, taken.
Qed.

(** ** What the caller pushes *)

Definition pipe_inv (s : RpcServer) : Prop :=
  forall id k, inflight s !! id = Some k -> exists t, invoked s !! k = Some t /\ call_id (ctx t) = id.

Lemma finish_pipe k t fs s : pipe_inv s -> pipe_inv (finish k t fs s).
Proof.
  intros H id k'. unfold finish, remove_inflight. destruct (has_pipe _); cbn; [|apply H]. intros [_ Hi]%lookup_delete_Some. by apply H.
Qed.
Lemma pipe_inv_ext s s' : inflight s' = inflight s -> invoked s' = invoked s -> pipe_inv s -> pipe_inv s'.
Proof. unfold pipe_inv. by intros -> ->. Qed.

Lemma start_pipe evs k s : dispatch_inv evs s -> pipe_inv s -> pipe_inv (start k s).
Proof.
  intros (_ & _ & Hnew & _) Hp. unfold start. destruct (tasks s !! k) as [t|] eqn:Et; [|done].
  destruct (Hnew k ltac:(by eexists)) as (_ & Hno & _).
  assert (forall i k', inflight s !! i = Some k' -> exists t', <[k := t]> (invoked s) !! k' = Some t' /\ call_id (ctx t') = i) as Hold.
  { intros i k' Hi. destruct (Hp i k' Hi) as (t' & H1 & H2). exists t'. rewrite lookup_insert_ne by (intros ->; congruence). done. }
  assert (forall i k', <[call_id (ctx t) := k]> (inflight s) !! i = Some k' ->
    exists t', <[k := t]> (invoked s) !! k' = Some t' /\ call_id (ctx t') = i) as Hins.
  { intros i k'. rewrite lookup_insert_Some. intros [[<- <-]|[_ Hi]]; [|by apply Hold]. exists t. by rewrite lookup_insert_eq. }
  destruct (hkind (handler t)) eqn:Eh, (expected t); unfold has_pipe; rewrite ?Eh; cbn; try exact Hold; try exact Hins; exact Hp.
Qed.

Lemma run_pipe evs : pipe_inv (run evs).
Proof.
  induction evs as [|ev evs IH] using rev_ind; [by intros id k H|]. rewrite run_snoc.
  destruct ev as [m h|f|k|k e|k|k r n|k]; cbn [Rpc.step]; [done|..].
  - destruct f as [[]|]; cbn [server_listener]; try done; unfold on_call, route; repeat case_match; done.
  - eapply start_pipe; [apply run_dispatch|done].
  - unfold emit. repeat case_match; try done. by apply finish_pipe.
  - unfold hang_up. repeat case_match; try done. by apply finish_pipe.
  - unfold return_. repeat case_match; try done. by apply finish_pipe.
  - unfold http_done, remove_inflight. repeat case_match; try done. intros id k' Hi. cbn in Hi. apply lookup_delete_Some in Hi as [_ Hi]. by apply IH.
Qed.

(** The messages the listener pushes for the frames of one call. *)
Definition pushed (more : bool) (value : option json) (error : option RpcError) (ext : option RpcFrameExt) : list InflightMsg :=
  match error with
  | Some e => [MError e]
  | None => if more then match value with Some v => [MValue v ext] | None => [] end else [MDone]
  end.
Definition frame_msgs (f : RpcFrame) : list InflightMsg :=
  match f with RpcClientStream _ _ more value error ext => pushed more value error ext | _ => [] end.
Definition event_frames (id : string) (evs : list event) : list RpcFrame :=
  filter (of_call id) (omap (fun ev => match ev with Frame f => f | _ => None end) evs).

Lemma route_pipe id more v e ext s k : pipe_inv s -> inflight s !! id = Some k ->
  piped (route id more v e ext s) k = piped s k ++ pushed more v e ext.
Proof.
  intros _ Hi. unfold route, pushed, piped. rewrite Hi. destruct e as [e|]; [|destruct more; [destruct v|]]; cbn;
    rewrite ?lookup_insert_eq, ?app_nil_r; done.
Qed.

Lemma route_other id id' more v e ext s k : pipe_inv s -> inflight s !! id = Some k -> id' <> id ->
  piped (route id' more v e ext s) k = piped s k.
Proof.
  intros Hp Hi Hne. unfold route. destruct (inflight s !! id') as [k'|] eqn:Ei; [|done].
  assert (k' <> k) as Hk. { intros ->. destruct (Hp _ _ Hi) as (t & H1 & H2), (Hp _ _ Ei) as (t' & H1' & H2'). congruence. }
  unfold piped. repeat case_match; cbn; try done; by rewrite lookup_insert_ne.
Qed.

Lemma step_pipe evs id k ev : inflight (run evs) !! id = Some k ->
  piped (run (evs ++ [ev])) k = piped (run evs) k ++ flat_map frame_msgs (event_frames id [ev]).
Proof.
  intros Hi. pose proof (run_pipe evs) as Hp. rewrite run_snoc. destruct ev as [m h|f|k'|k' e|k'|k' r n|k']; cbn [Rpc.step].
  - by rewrite app_nil_r.
  - unfold event_frames. destruct f as [f|]; cbn [omap list_omap server_listener]; [|by rewrite app_nil_r]. rewrite filter_cons, filter_nil.
    destruct f as [i m req ext|i st r e ext|i seq more v e ext|i seq more v e ext]; cbn [server_listener];
      try (destruct (decide _); cbn; rewrite app_nil_r; done).
    + assert (forall s', pipes s' = pipes (run evs) -> piped s' k = piped (run evs) k ++ []) as H.
      { intros s' E. unfold piped. by rewrite E, app_nil_r. }
      destruct (decide _); cbn [flat_map frame_msgs app]; apply H; unfold on_call; repeat case_match; done.
    + destruct (decide _) as [Hid|Hid]; unfold of_call in Hid; cbn in Hid.
      * subst i. cbn. rewrite app_nil_r. by apply route_pipe.
      * rewrite app_nil_r. by eapply route_other.
  - rewrite app_nil_r. destruct (Hp _ _ Hi) as (t & Ht & _). unfold start. destruct (tasks (run evs) !! k') as [t'|] eqn:Et; [|done].
    destruct (run_dispatch evs) as (_ & _ & Hnew & _). destruct (Hnew k' ltac:(by eexists)) as (_ & Hno & _).
    assert (k' <> k) as Hne by congruence. unfold piped. repeat case_match; cbn; try done; by rewrite lookup_insert_ne.
  - rewrite app_nil_r. unfold emit, finish, remove_inflight. repeat case_match; done.
  - rewrite app_nil_r. unfold hang_up, finish, remove_inflight. repeat case_match; done.
  - rewrite app_nil_r. unfold return_, finish, remove_inflight. repeat case_match; done.
  - rewrite app_nil_r. unfold http_done, remove_inflight. repeat case_match; done.
Qed.

(** The dispatcher [k] stays connected to the call [id] through [evs']. *)
Definition connected (evs evs' : list event) (id : string) (k : nat) : Prop :=
  forall pre, pre `prefix_of` evs' -> inflight (run (evs ++ pre)) !! id = Some k.

Lemma connected_pipe evs evs' id k : connected evs evs' id k ->
  piped (run (evs ++ evs')) k = piped (run evs) k ++ flat_map frame_msgs (event_frames id evs').
Proof.
  induction evs' as [|ev evs' IH] using rev_ind; intros Hc; [by rewrite !app_nil_r|].
  rewrite app_assoc, (step_pipe _ id).
  - rewrite IH, <-app_assoc, <-flat_map_app.
    + f_equal. unfold event_frames. by rewrite omap_app, filter_app.
    + intros pre Hpre. apply Hc. by apply prefix_app_r.
  - apply Hc. by apply prefix_app_r.
Qed.

Fixpoint until_error (items : list (result RpcError json)) : list (result RpcError json) :=
  match items with
  | Ok v :: items => Ok v :: until_error items
  | Err e :: _ => [Err e]
  | [] => []
  end.

(** What the encoding keeps of pushed values. *)
Definition kept (r : result RpcError json) : bool := match r with Ok v => negb (is_null v) | Err _ => true end.
Lemma pump_values id x y z n items :
  value_rx (flat_map frame_msgs (read_back <$> pump_results id x y z n items)) = until_error (List.filter kept items).
Proof.
  revert n; induction items as [|[v|e] items IH]; intros n; cbn; [done| |done]. destruct v; cbn; by rewrite IH.
Qed.
Lemma pump_stdin id n chunks : Forall is_bytes chunks -> stdin_rx (flat_map frame_msgs (shell_pump id n chunks)) = chunks.
Proof.
  intros H. revert n; induction H as [|ch chunks Hb H IH]; intros n; [done|]. cbn [shell_pump flat_map frame_msgs pushed app stdin_rx].
  cbn [ext_field mbind option_bind shell_ext shell_stream unwrap_or]. by rewrite decode_b64, IH.
Qed.
Lemma pump_agent id init n fs : frames_rx init (flat_map frame_msgs (read_back <$> agent_pump id n fs)) = List.filter (fun f => negb (is_null (value f))) fs.
Proof. revert n; induction fs as [|[v ch] fs IH]; intros n; [done|]. destruct v; cbn; by rewrite IH. Qed.
Lemma pump_bulk id n chunks : Forall is_bytes chunks -> collected (flat_map frame_msgs (bulk_pump id n chunks)) = chunks.
Proof.
  intros H. revert n; induction H as [|ch chunks Hb H IH]; intros n; [done|]. cbn [bulk_pump flat_map frame_msgs pushed app collected].
  by rewrite decode_b64, IH.
Qed.

(** once a dispatcher is connected to its call, the handler reads exactly
    what the caller pushed, but for nulls, whatever other events the server
    interleaves: a value stream up to and including its first error, every
    stdin chunk of a shell byte for byte, every agent frame with its own
    responsibility chain.  The frames of the call are those of the pump as
    they are read from their encoding. *)
Theorem rpc_pushes_delivered evs evs' id k
  (Hc : connected evs evs' id k) (Hempty : piped (run evs) k = []) :
  let got := piped (run (evs ++ evs')) k in
  (forall x y z items, event_frames id evs' = read_back <$> pump_results id x y z 0 items -> value_rx got = until_error (List.filter kept items)) /\
  (forall chunks, Forall is_bytes chunks -> event_frames id evs' = shell_pump id 0 chunks -> stdin_rx got = chunks) /\
  (forall init frames, event_frames id evs' = read_back <$> agent_pump id 0 frames ->
    frames_rx init got = List.filter (fun f => negb (is_null (value f))) frames).
Proof.
  cbn zeta. rewrite (connected_pipe _ _ id k Hc), Hempty. cbn [app]. split_and!.
  - intros x y z items ->. apply pump_values.
  - intros chunks Hb ->. by apply pump_stdin.
  - intros init frames ->. apply pump_agent.
Qed.

(** ** Bulk transfers *)

Section bulk.
Variables (t : Task) (chunks : list (list Z)).
Hypothesis Hkind : hkind (handler t) = HBulkTransfer.
(** The caller opened the transfer with [bulk_transfer_raw]. *)
Hypothesis Hexp : expected t = Some (sha256_of_chunks sha256 chunks).

(** a bulk transfer is acknowledged only when the bytes the server's
    handler was fed hash to what the caller announced: they are the caller's
    chunks, joined, or the two are a SHA-256 collision.  In particular no
    acknowledged transfer was truncated, reordered or spliced. *)
Theorem bulk_transfer_exact evs k v ext
  (Hsha : forall bs, is_bytes (sha256 bs))
  (Hk : invoked (run evs) !! k = Some t) (Hdone : running (run evs) !! k = None)
  (Hok : RpcResponse (call_id (ctx t)) StatusOk v None ext ∈ sent_by (run evs) k) :
  exists w taken n, v = Some w /\ Return k (Ok w) taken ∈ evs /\ (n <= taken)%nat /\
    let got := concat (collected (take n (piped (run evs) k))) in
    got = concat chunks \/ got <> concat chunks /\ sha256 got = sha256 (concat chunks).
Proof.
  destruct (run_dispatch evs) as (Hd & _). specialize (Hd k t Hk). unfold dispatch_ok, is_streaming in Hd. rewrite Hkind, Hdone in Hd.
  destruct Hd as (r & taken & Hr & n & Hn & _ & Hs). rewrite Hs in Hok. apply list_elem_of_singleton in Hok.
  unfold final_response in Hok. rewrite Hkind, Hexp in Hok. unfold bulk_response in Hok. cbn [unwrap_or] in Hok. destruct r as [w|e]; [|done].
  destruct (String.eqb_spec (sha256_of_chunks sha256 (collected (take n (piped (run evs) k)))) (sha256_of_chunks sha256 chunks)) as [He|He]; [|done].
  injection Hok as -> _. exists w, taken, n. split_and!; [done|done|done|]. cbn zeta. unfold sha256_of_chunks in He. apply Crypto.hash_text_inj in He; [|apply Hsha..].
  destruct (decide (concat (collected (take n (piped (run evs) k))) = concat chunks)); [by left|by right].
Qed.

(** a transfer whose frames arrive while the dispatcher is connected is
    acknowledged with the handler's own reply and the announced hash, once the
    handler returns after the last chunk was taken. *)
Theorem bulk_transfer_completes evs evs' k n v taken
  (Hb : Forall is_bytes chunks) (Hrun : running (run (evs ++ evs')) !! k = Some (t, n))
  (Hc : connected evs evs' (call_id (ctx t)) k) (Hempty : piped (run evs) k = [])
  (Hf : event_frames (call_id (ctx t)) evs' = bulk_pump (call_id (ctx t)) 0 chunks) (Ht : (length chunks < taken)%nat) :
  sent_by (run ((evs ++ evs') ++ [Return k (Ok v) taken])) k =
    [ok_response (call_id (ctx t)) v (Some (hash_ext (sha256_of_chunks sha256 chunks)))].
Proof.
  rewrite run_snoc. cbn [Rpc.step]. unfold return_. rewrite Hrun. unfold is_streaming. rewrite Hkind.
  pose proof (running_ok _ _ _ _ _ (run_dispatch (evs ++ evs')) Hrun) as Hok. unfold dispatch_ok, is_streaming in Hok.
  rewrite Hkind, Hrun in Hok. destruct Hok as (_ & Hs). set (fs := [final_response _ _ _ _]).
  destruct (finish_self k t fs (run (evs ++ evs'))) as (_ & _ & Ho & _). unfold sent_by at 1. rewrite Ho, Hs. cbn [unwrap_or app].
  unfold fs. fold (piped (run (evs ++ evs')) k). rewrite (connected_pipe _ _ _ k Hc), Hempty, Hf. cbn [app].
  assert (forall i, length (flat_map frame_msgs (bulk_pump (call_id (ctx t)) i chunks)) = S (length chunks)) as Hl.
  { clear. induction chunks as [|ch l IH]; intros i; [done|]. cbn [bulk_pump flat_map frame_msgs pushed app length]. by rewrite IH. }
  rewrite take_ge by (rewrite Hl; lia). rewrite pump_bulk by done. unfold final_response. rewrite Hkind, Hexp. cbn [unwrap_or bulk_response].
  unfold bulk_response. by rewrite String.eqb_refl.
Qed.
End bulk.


(** ** Replies that are lost *)

(** a streaming call to a method the server does not know is answered with a
    [NotFound] response frame, which the client consumes without telling the
    caller: its stream just ends, empty, as if the method had produced
    nothing. *)
Theorem unknown_stream_silent from_value evs c id m req ext p (Hread : reader_law from_value)
  (Hm : handlers (run evs) !! m = None) (Hp : pending c !! id = Some p) (Hu : p <> PUnary) (Hd : delivered c !! id = None) :
  let f := error_response id (mk_RpcError NotFound ("unknown method: " +:+ m)) None in
  replies (run (evs ++ [Frame (Some (RpcCall id m req ext))])) = replies (run evs) ++ [f] /\
  channel (receive from_value [f] c) id = [] /\ pending (receive from_value [f] c) !! id = None.
Proof.
  cbn zeta. rewrite receive_hear by (done || by repeat constructor). split; [rewrite run_snoc; cbn [Rpc.step server_listener]; unfold on_call; by rewrite Hm|].
  cbn. unfold on_response, channel. rewrite Hp. destruct p; try done; cbn; by rewrite Hd, lookup_delete_eq.
Qed.

Lemma sent_stream_frames t es closed fs : stream_sent t es closed fs ->
  Forall (fun f => exists seq more v e ext, f = RpcStream (call_id (ctx t)) seq more v e ext) fs.
Proof.
  assert (Hitem : forall n e f last, item_frame http_to_value t n e = Some (f, last) ->
    exists seq more v e ext, f = RpcStream (call_id (ctx t)) seq more v e ext).
  { intros n e f last. unfold item_frame, value_frame, shell_frame, agent_frame, http_frame. repeat case_match; try done; intros [= <- _]; by do 5 eexists. }
  assert (Hitems : forall es n fs, frames_of t n es = Some fs ->
    Forall (fun f => exists seq more v e ext, f = RpcStream (call_id (ctx t)) seq more v e ext) fs).
  { clear es fs. intros es; induction es as [|e es IH]; intros n fs; cbn [frames_of]; [intros [= <-]; apply Forall_nil_2|].
    destruct (item_frame _ _ _ _) as [[f []]|] eqn:Ef; try done. destruct (frames_of t (n + 1) es) as [gs|] eqn:Eg; [|done].
    intros [= <-]. apply Forall_cons_2; eauto. }
  assert (Hopen : Forall (fun f => exists seq more v e ext, f = RpcStream (call_id (ctx t)) seq more v e ext) (opening t)).
  { unfold opening. destruct (hkind _); try apply Forall_nil_2; apply Forall_singleton; by do 5 eexists. }
  assert (Htr : Forall (fun f => exists seq more v e ext, f = RpcStream (call_id (ctx t)) seq more v e ext) (trailer t)).
  { unfold trailer. destruct (hkind _); try apply Forall_nil_2; apply Forall_singleton; by do 5 eexists. }
  intros []; repeat (apply Forall_app_2 || apply Forall_cons_2); eauto. by do 5 eexists.
Qed.

(** a unary call that reaches a streaming handler is never answered: the
    client ignores every frame such a dispatcher sends, an error included, and
    the call is pending for ever. *)
Theorem kind_mismatch_hangs from_value evs k t c fs
  (Hread : reader_law from_value) (Hw : Forall (fun f => widths_ok f = true) fs)
  (Hk : invoked (run evs) !! k = Some t) (Hs : is_streaming (handler t) = true)
  (Hp : pending c !! call_id (ctx t) = Some PUnary)
  (Hfs : filter (of_call (call_id (ctx t))) fs = sent_by (run evs) k) :
  pending (receive from_value fs c) !! call_id (ctx t) = Some PUnary /\
  delivered (receive from_value fs c) !! call_id (ctx t) = delivered c !! call_id (ctx t).
Proof.
  destruct (receive_filter from_value (call_id (ctx t)) fs _ c Hread Hw Hfs) as [H1 H2]. rewrite H1, H2.
  assert (exists es closed, stream_sent t es closed (sent_by (run evs) k)) as (es & closed & Hsent).
  { destruct (run_dispatch evs) as (Hok & _). specialize (Hok k t Hk). unfold dispatch_ok in Hok. rewrite Hs in Hok.
    destruct (running (run evs) !! k) as [[t' n]|]; [|by do 2 eexists]. destruct Hok as (_ & _ & gs & Hg & ->). do 2 eexists. by apply sent_open. }
  apply sent_stream_frames in Hsent. assert (hear (read_back <$> sent_by (run evs) k) c = c) as ->; [|done].
  clear Hfs H1 H2. induction Hsent as [|f l (seq & more & v & e & ext & ->) H IH]; [done|].
  unfold hear in *. cbn [fmap list_fmap read_back fold_left client_listener]. unfold on_stream. rewrite Hp. exact IH.
Qed.
End proofs.


(** ** A session *)

Definition toy_sha256 (bs : list Z) : list Z := [foldr Z.add 0 bs mod 256].
Definition toy_http (f : HttpFrame) : json := match f with BodyChunk d => JString d | _ => JNull end.
Abbreviation toy_run := (run toy_sha256 toy_http "tf:actor:peer" AllowAllEnforcer).

Lemma toy_sha256_bytes bs : is_bytes (toy_sha256 bs).
Proof. apply Forall_singleton. unfold is_u8. pose proof (Z.mod_pos_bound (foldr Z.add 0 bs) 256 ltac:(lia)). lia. Qed.

Lemma widths_check fs : forallb widths_ok fs = true -> Forall (fun f => widths_ok f = true) fs.
Proof. intros H. apply Forall_forall. intros f Hf. rewrite forallb_forall in H. apply H. by apply list_elem_of_In. Qed.

(** A reader for the frames the runtime sends. *)
Definition read_opt {A} (read : json -> option A) (o : option json) : option (option A) :=
  match o with None | Some JNull => Some None | Some v => Some <$> read v end.
Definition read_int (v : json) : option Z := match v with JNumber (NInt n) => Some n | _ => None end.
Definition read_bool (v : json) : option bool := match v with JBool b => Some b | _ => None end.
Definition read_name {A} (name : A -> string) (all : list A) (v : json) : option A := s ← as_str v; List.find (fun a => (name a =? s)%string) all.
Definition read_strings (v : json) : option (list string) := l ← as_array v; mapM as_str l.
Definition read_kind := read_name kind_str [Unary; ServerStreaming; ClientStreaming; BidiStreaming; Subscribe; CommandChannel; BulkTransfer;
  Telemetry; RemoteShell; AgentSession; HttpBridge].
Definition read_error (v : json) : option RpcError :=
  c ← jget "code" v ≫= read_name code_str [InvalidArgument; Unauthenticated; PermissionDenied; NotFound; Internal];
  m ← jget "message" v ≫= as_str; Some (mk_RpcError c m).
Definition read_bulk (v : json) : option RpcBulkExt :=
  a ← read_opt read_int (jget "chunk_index" v); b ← read_opt read_int (jget "total_chunks" v); c ← read_opt as_str (jget "expected_hash" v);
  Some (mk_RpcBulkExt a b c).
Definition read_ext (v : json) : option RpcFrameExt :=
  a ← read_opt read_kind (jget "method_kind" v);
  b ← read_opt (read_name priority_str [P0; P1; P2; P3; P4; P5]) (jget "streaming_priority" v);
  c ← read_opt as_str (jget "subscribe_topic" v); d ← read_opt read_int (jget "credit" v); e ← read_opt read_bulk (jget "bulk" v);
  f ← read_opt (read_name shell_str [Stdin; Stdout; Stderr]) (jget "shell_stream" v);
  g ← read_opt read_strings (jget "responsibility_chain" v); h ← read_opt as_str (jget "ack" v);
  Some (mk_RpcFrameExt a b c d e f g h).
Definition toy_reader (v : json) : option RpcFrame :=
  kind ← jget "kind" v ≫= as_str; id ← jget "call_id" v ≫= as_str;
  ext ← read_opt read_ext (jget "ext" v);
  if (kind =? "rpc-call")%string then
    m ← jget "method" v ≫= as_str; r ← jget "request" v; Some (RpcCall id m r ext)
  else
    error ← read_opt read_error (jget "error" v);
    if (kind =? "rpc-response")%string then
      st ← jget "status" v ≫= read_name status_str [StatusOk; StatusError]; r ← read_opt Some (jget "response" v);
      Some (RpcResponse id st r error ext)
    else
      seq ← jget "seq" v ≫= read_int; more ← jget "more" v ≫= read_bool; value ← read_opt Some (jget "value" v);
      Some ((if (kind =? "rpc-stream")%string then RpcStream else RpcClientStream) id seq more value error ext).

(** An optional field written by [w] is read back by a reader of [w]. *)
Lemma read_opt_written {A} (read : json -> option A) w (o : option A) : (forall a, read (w a) = Some a) -> (forall a, w a <> JNull) ->
  read_opt read (w <$> o) = Some o.
Proof.
  intros Hr Hn. destruct o as [a|]; [|done]. cbn. specialize (Hr a). specialize (Hn a). unfold read_opt. destruct (w a); try done; by rewrite Hr.
Qed.
Lemma read_opt_value (o : option json) : read_opt Some ((fun v => v) <$> o) = Some (null_absent o).
Proof. by destruct o as [[]|]. Qed.
Lemma as_strings_written (l : list string) : mapM as_str (JString <$> l) = Some l.
Proof. induction l as [|s l IH]; [done|]. rewrite fmap_cons. cbn. by rewrite IH. Qed.
Lemma option_eta {A} (o : option A) : match o with Some v => Some v | None => None end = o.
Proof. by destruct o. Qed.
Ltac read_fields := cbn [jget ext_to_value bulk_to_value]; rewrite ?assoc_app, ?assoc_opt_field;
  cbn [assoc field String.eqb Ascii.eqb Bool.eqb mbind option_bind as_str]; rewrite ?option_eta.

Lemma read_bulk_written b : read_bulk (bulk_to_value b) = Some b.
Proof.
  unfold read_bulk. read_fields. rewrite !(read_opt_written read_int jint) by done. rewrite (read_opt_written as_str JString) by done. by destruct b.
Qed.
Lemma read_ext_written e : read_ext (ext_to_value e) = Some e.
Proof.
  unfold read_ext. read_fields.
  rewrite (read_opt_written read_kind (JString ∘ kind_str)) by (done || by intros []).
  rewrite (read_opt_written _ (JString ∘ priority_str)) by (done || by intros []). rewrite !(read_opt_written as_str JString) by done.
  rewrite (read_opt_written read_int jint) by done. rewrite (read_opt_written read_bulk bulk_to_value) by (done || apply read_bulk_written).
  rewrite (read_opt_written _ (JString ∘ shell_str)) by (done || by intros []).
  rewrite (read_opt_written read_strings (fun l => JArray (JString <$> l))) by (done || apply as_strings_written). by destruct e.
Qed.
Lemma read_error_written e : read_error (error_to_value e) = Some e.
Proof. by destruct e as [[] m]. Qed.

Lemma toy_reader_law : reader_law toy_reader.
Proof.
  assert (forall ext, read_opt read_ext (ext_to_value <$> ext) = Some ext) as Hx by (intros ext; apply read_opt_written; [apply read_ext_written|done]).
  assert (forall e, read_opt read_error (error_to_value <$> e) = Some e) as He by (intros e; apply read_opt_written; [apply read_error_written|done]).
  intros f _. destruct f as [id m r ext|id st r e ext|id seq more v e ext|id seq more v e ext]; unfold toy_reader, rpc_to_value, stream_fields; read_fields; rewrite Hx.
  - reflexivity.
  - rewrite He, read_opt_value. by destruct st.
  - by rewrite He, read_opt_value.
  - by rewrite He, read_opt_value.
Qed.

Definition open_call (h : HandlerKind) (ext : option RpcFrameExt) : list event :=
  [Register "m" (mk_Handler "cap" h 0); Frame (Some (RpcCall "1" "m" JNull ext)); Start 0].
Definition the_task (h : HandlerKind) (expected : option string) : Task :=
  mk_Task (mk_RpcContext "tf:actor:peer" "m" "1" [] None) JNull (mk_Handler "cap" h 0) expected.
Definition calling (p : Pending) : RpcClient := fst (start_call "1" p "m" JNull None (mk_RpcClient ∅ ∅)).

Lemma rpc_handlers_authorized_witness :
  authorized "tf:actor:peer" AllowAllEnforcer (open_call HUnary None) (the_task HUnary None).
Proof. apply (rpc_handlers_authorized toy_sha256 toy_http) with (k := 0%nat). vm_compute. reflexivity. Defined.

Definition item_events : list event :=
  open_call HStream None ++ [Emit 0 (EResult (Ok (JBool true))); Emit 0 (EResult (Ok JNull)); Emit 0 (EResult (Ok (JString "x"))); HangUp 0].
Lemma rpc_streams_delivered_witness :
  let c := receive toy_reader (sent_by (toy_run item_events) 0) (calling (PStream 0 None None)) in
  channel c "1" = [Ok (Value (JBool true)); Ok (Value (JString "x"))] /\ pending c !! "1" = None.
Proof.
  assert (forallb widths_ok (sent_by (toy_run item_events) 0) = true) as Hw by (vm_compute; reflexivity).
  destruct (rpc_streams_delivered toy_sha256 toy_http "tf:actor:peer" AllowAllEnforcer toy_reader item_events 0 (the_task HStream None)
    (calling (PStream 0 None None)) (PStream 0 None None) (sent_by (toy_run item_events) 0) toy_reader_law
    (widths_check _ Hw)) as [H1 H2]; try (vm_compute; reflexivity).
  - repeat constructor.
  - split; [etransitivity; [exact H1|vm_compute; reflexivity]|]. apply H2. vm_compute. reflexivity.
Defined.

Definition telemetry_events : list event := open_call (HTelemetry P3) None ++ [Return 0 (Ok (JBool true)) 0].
Lemma rpc_calls_answered_witness :
  exists r taken, Return 0 r taken ∈ telemetry_events /\
    channel (receive toy_reader (sent_by (toy_run telemetry_events) 0) (calling PUnary)) "1" = [answer (mk_Handler "cap" (HTelemetry P3) 0) r].
Proof.
  assert (forallb widths_ok (sent_by (toy_run telemetry_events) 0) = true) as Hw by (vm_compute; reflexivity).
  apply (rpc_calls_answered toy_sha256 toy_http "tf:actor:peer" AllowAllEnforcer toy_reader telemetry_events 0 (the_task (HTelemetry P3) None)
    (calling PUnary) (sent_by (toy_run telemetry_events) 0) toy_reader_law (widths_check _ Hw));
    first [discriminate|vm_compute; reflexivity].
Defined.

Lemma connected_check evs evs' id k :
  forallb (fun n => bool_decide (inflight (toy_run (evs ++ take n evs')) !! id = Some k)) (seq 0 (S (length evs'))) = true ->
  connected toy_sha256 toy_http "tf:actor:peer" AllowAllEnforcer evs evs' id k.
Proof.
  rewrite forallb_forall. intros H pre [suf ->]. specialize (H (length pre)). rewrite take_app_length in H.
  apply (bool_decide_eq_true_1 _), H, list_elem_of_In, elem_of_seq. rewrite length_app. lia.
Qed.

Definition pushes (fs : list RpcFrame) : list event := map (fun f => Frame (Some f)) fs.
Definition bidi_items : list (result RpcError json) := [Ok (JString "a"); Ok JNull; Err no_error_body; Ok (JBool true)].
Lemma rpc_pushes_delivered_witness :
  value_rx (piped (toy_run (open_call HBidi None ++ pushes (read_back <$> bidi_pump "1" (kind_ext BidiStreaming) bidi_items))) 0) =
    [Ok (JString "a"); Err no_error_body].
Proof.
  edestruct (rpc_pushes_delivered toy_sha256 toy_http "tf:actor:peer" AllowAllEnforcer (open_call HBidi None)
    (pushes (read_back <$> bidi_pump "1" (kind_ext BidiStreaming) bidi_items)) "1" 0) as [H _].
  - apply connected_check. vm_compute. reflexivity.
  - vm_compute. reflexivity.
  - apply (H (Some (kind_ext BidiStreaming)) (Some (kind_ext BidiStreaming)) (Some (kind_ext BidiStreaming)) bidi_items). vm_compute. reflexivity.
Defined.

Definition bulk_chunks : list (list Z) := [[1; 2]; [3]].
Definition bulk_hash : string := sha256_of_chunks toy_sha256 bulk_chunks.
Definition bulk_open : list event := open_call HBulkTransfer (Some (bulk_ext (mk_RpcBulkExt None (Some 2) (Some bulk_hash)))).
Definition bulk_events : list event := (bulk_open ++ pushes (bulk_pump "1" 0 bulk_chunks)) ++ [Return 0 (Ok JNull) 3].
Lemma bulk_transfer_exact_witness : exists w taken n, Some JNull = Some w /\ Return 0 (Ok w) taken ∈ bulk_events /\ (n <= taken)%nat /\
  let got := concat (collected (take n (piped (toy_run bulk_events) 0))) in
  got = concat bulk_chunks \/ got <> concat bulk_chunks /\ toy_sha256 got = toy_sha256 (concat bulk_chunks).
Proof.
  apply (bulk_transfer_exact toy_sha256 toy_http "tf:actor:peer" AllowAllEnforcer (the_task HBulkTransfer (Some bulk_hash)) bulk_chunks)
    with (ext := Some (hash_ext bulk_hash)); try (vm_compute; reflexivity).
  - apply toy_sha256_bytes.
  - assert (sent_by (toy_run bulk_events) 0 = [ok_response "1" JNull (Some (hash_ext bulk_hash))]) as -> by (vm_compute; reflexivity).
    by apply list_elem_of_singleton.
Defined.
Lemma bulk_transfer_completes_witness :
  sent_by (toy_run bulk_events) 0 = [ok_response "1" JNull (Some (hash_ext bulk_hash))].
Proof.
  refine (bulk_transfer_completes toy_sha256 toy_http "tf:actor:peer" AllowAllEnforcer (the_task HBulkTransfer (Some bulk_hash)) bulk_chunks
    eq_refl eq_refl bulk_open (pushes (bulk_pump "1" 0 bulk_chunks)) 0 0 JNull 3 _ _ _ _ _ _).
  - repeat constructor; vm_compute; congruence.
  - vm_compute. reflexivity.
  - apply connected_check. vm_compute. reflexivity.
  - vm_compute. reflexivity.
  - vm_compute. reflexivity.
  - cbn. lia.
Defined.

Lemma unknown_stream_silent_witness :
  let c := receive toy_reader [error_response "1" (mk_RpcError NotFound "unknown method: m") None] (calling (PStream 0 None None)) in
  channel c "1" = [] /\ pending c !! "1" = None.
Proof.
  apply (unknown_stream_silent toy_sha256 toy_http "tf:actor:peer" AllowAllEnforcer toy_reader [] (calling (PStream 0 None None)) "1" "m" JNull None
    (PStream 0 None None) toy_reader_law); first [discriminate|vm_compute; reflexivity].
Defined.
Definition mismatch_events : list event := open_call HStream None ++ [Emit 0 (EResult (Err no_error_body))].
Lemma kind_mismatch_hangs_witness : pending (receive toy_reader (sent_by (toy_run mismatch_events) 0) (calling PUnary)) !! "1" = Some PUnary.
Proof.
  assert (forallb widths_ok (sent_by (toy_run mismatch_events) 0) = true) as Hw by (vm_compute; reflexivity).
  apply (kind_mismatch_hangs toy_sha256 toy_http "tf:actor:peer" AllowAllEnforcer toy_reader mismatch_events 0 (the_task HStream None)
    (calling PUnary) (sent_by (toy_run mismatch_events) 0) toy_reader_law (widths_check _ Hw)); vm_compute; reflexivity.
Defined.

(** A null that a stream handler sends is written, read as no value at all, and
    never reaches the caller. *)
Example null_item_lost :
  let f := RpcStream "1" 0 true (Some JNull) None None in
  toy_reader (rpc_to_value f) = Some (RpcStream "1" 0 true None None None) /\
  channel (receive toy_reader [f] (calling (PStream 0 None None))) "1" = [].
Proof. vm_compute. auto. Qed.

(** Frames that reach the listener before the dispatcher's first poll are
    dropped: nothing is left in its pipe, not even the end of the stream. *)
Example early_pushes_lost :
  piped (toy_run ([Register "m" (mk_Handler "cap" HClientStream 0); Frame (Some (RpcCall "1" "m" JNull None))] ++
    pushes (client_stream_pump "1" [Ok JNull; Ok (JBool true)]) ++ [Start 0])) 0 = [].
Proof. vm_compute. reflexivity. Qed.

End RpcProofs.
