(* ===== verification/Registry.v ===== *)
(** * Registry: the bridges registry ([bridges_registry.rs])

    The file [.tf/bridges.yaml] says which bridge handles the credentials of an
    issuer.  It is read with the model of [yaml.rs]; the [{:?}] form of a text
    and the text of a double, which only messages and the emitter use, are
    arguments.  The checks on names look at ASCII characters, which never occur
    inside a multi-byte sequence, so they are made on bytes.

    - [registry_accepted_iff]: the registries that loading can give;
    - [registry_roundtrip]: a registry written as YAML is loaded back;
    - [resolve_first_match]: which bridge an issuer gets;
    - [validate_profile_iff], [validate_action_name_iff]: the checks are the
      regular expressions their comments give;
    - [issuer_pattern_anywhere]: a pattern matches anywhere in an issuer. *)

From S2P Require Import Prelude Utf8 Json Jws Yaml YamlProofs.

#[local] Open Scope string_scope.
#[local] Open Scope list_scope.
#[local] Open Scope Z_scope.

Module Registry.

Inductive BridgesRegistryKind :=
| Oauth | Clerk | NextAuth | BetterAuth | Webauthn | Tls | Spiffe | Did | Gnap | Mcp | Matrix | Webhook | Grpc | ServiceMesh | A2a
| SessionCookie | Aws | Gcp | Azure | Vault | Doppler.
#[global] Instance BridgesRegistryKind_eq_dec : EqDecision BridgesRegistryKind. Proof. solve_decision. Defined.

Definition as_str (k : BridgesRegistryKind) : string :=
  match k with
  | Oauth => "oauth" | Clerk => "clerk" | NextAuth => "next-auth" | BetterAuth => "better-auth" | Webauthn => "webauthn" | Tls => "tls"
  | Spiffe => "spiffe" | Did => "did" | Gnap => "gnap" | Mcp => "mcp" | Matrix => "matrix" | Webhook => "webhook" | Grpc => "grpc"
  | ServiceMesh => "service-mesh" | A2a => "a2a" | SessionCookie => "session-cookie" | Aws => "aws" | Gcp => "gcp" | Azure => "azure"
  | Vault => "vault" | Doppler => "doppler"
  end.
(** The arms of the [match] on texts, in order. *)
Fixpoint match_text {A} (s : string) (arms : list (string * A)) : option A :=
  match arms with [] => None | (t, a) :: arms => if (s =? t)%string then Some a else match_text s arms end.
Definition parse (s : string) : option BridgesRegistryKind :=
  match_text s
    [("oauth", Oauth); ("clerk", Clerk); ("next-auth", NextAuth); ("better-auth", BetterAuth); ("webauthn", Webauthn); ("tls", Tls);
     ("spiffe", Spiffe); ("did", Did); ("gnap", Gnap); ("mcp", Mcp); ("matrix", Matrix); ("webhook", Webhook); ("grpc", Grpc);
     ("service-mesh", ServiceMesh); ("a2a", A2a); ("session-cookie", SessionCookie); ("aws", Aws); ("gcp", Gcp); ("azure", Azure);
     ("vault", Vault); ("doppler", Doppler)].

Record BridgeEntry := mk_BridgeEntry {
  kind : BridgesRegistryKind; issuer_match : option string; iss_pattern : option string; trust_domain : option string;
  trust_level : option string; capability_map : option (gmap string string); profile : option string }.
Record BridgesRegistry := mk_BridgesRegistry { registry_version : string; default_profile : option string; bridges : list BridgeEntry }.
(** [Parse] carries the error of the YAML reader instead of its text. *)
Inductive BridgesRegistryError := Invalid (m : string) | Io | Parse (e : Yaml.YamlError).
Definition TRUST_LEVELS : list string := ["T0"; "T1"; "T2"; "T3"; "T4"; "T5"; "T6"; "T7"].

(** ** Names *)

Definition is_ascii_lowercase (c : ascii) : bool := ((97 <=? N_of_ascii c) && (N_of_ascii c <=? 122))%N.
Definition is_ascii_digit (c : ascii) : bool := ((48 <=? N_of_ascii c) && (N_of_ascii c <=? 57))%N.
Fixpoint all_chars (p : ascii -> bool) (s : string) : bool := match s with EmptyString => true | String c r => p c && all_chars p r end.
(** [ends_with] and the slice before the suffix. *)
Fixpoint strip_suffix (suffix s : string) : option string :=
  if (s =? suffix)%string then Some "" else match s with EmptyString => None | String c r => String c <$> strip_suffix suffix r end.

Definition validate_profile (s : string) : bool :=
  match s with
  | String c0 (String c1 (String c2 body)) =>
    if negb (Ascii.eqb c0 "t") || negb (Ascii.eqb c1 "f") || negb (Ascii.eqb c2 "-") then false
    else
      match strip_suffix "-compatible" body with
      | None | Some EmptyString => false
      | Some (String first it) =>
        if negb (is_ascii_lowercase first) then false
        else all_chars (fun c => is_ascii_lowercase c || is_ascii_digit c || Ascii.eqb c "-") it
      end
  | _ => false
  end.

Definition valid_action_segment (s : string) : bool :=
  match s with
  | EmptyString => false
  | String first it =>
    if negb (is_ascii_lowercase first) then false else all_chars (fun c => is_ascii_lowercase c || is_ascii_digit c || Ascii.eqb c "_") it
  end.
Definition validate_action_name (s : string) : bool :=
  match Jws.split "." s with
  | [] => false
  | first :: segs =>
    if str_is_empty first then false
    else if negb (valid_action_segment first) then false
    else if negb (forallb valid_action_segment segs) then false
    else (1 <=? length segs)%nat
  end.

(** ** Entries *)

Section registry.
Variable debug : string -> string.

(** The variables of [parse_entry]. *)
Record EntryVars := mk_EntryVars {
  e_kind : option BridgesRegistryKind; e_issuer_match : option string; e_iss_pattern : option string; e_trust_domain : option string;
  e_trust_level : option string; e_capability_map : option (gmap string string); e_profile : option string }.
Definition no_vars : EntryVars := mk_EntryVars None None None None None None None.

Definition at_index (index : nat) (what : string) : BridgesRegistryError := Invalid ("bridges[" +:+ pretty index +:+ "]" +:+ what).
(** A text that may be null, checked; [continue] on null. *)
Definition text_field (index : nat) (name : string) (ok : string -> bool) (problem : string) (v : json) (vars : EntryVars)
    (assign : string -> EntryVars) : result BridgesRegistryError EntryVars :=
  match v with
  | JNull => Ok vars
  | _ =>
    s ← ok_or (Json.as_str v) (at_index index ("." +:+ name +:+ " must be a string"));
    if negb (ok s) then Err (at_index index ("." +:+ name +:+ problem)) else Ok (assign s)
  end.
Fixpoint capability_loop (index : nat) (m : list (string * json)) (out : gmap string string) : result BridgesRegistryError (gmap string string) :=
  match m with
  | [] => Ok out
  | (mk, mv) :: m =>
    mv ← ok_or (Json.as_str mv) (at_index index (".capability_map[" +:+ mk +:+ "] must be a string"));
    if negb (validate_action_name mv) then Err (at_index index (".capability_map[" +:+ mk +:+ "] must be a dotted action name"))
    else capability_loop index m (<[mk := mv]> out)
  end.
Definition not_empty (s : string) : bool := negb (str_is_empty s).
Definition entry_key (index : nat) (vars : EntryVars) (key : string) (v : json) : result BridgesRegistryError EntryVars :=
  let '(mk_EntryVars k im ip td tl cm pr) := vars in
  if (key =? "kind")%string then
    s ← ok_or (Json.as_str v) (at_index index ".kind must be a string");
    k ← ok_or (parse s) (at_index index (".kind invalid: " +:+ s));
    Ok (mk_EntryVars (Some k) im ip td tl cm pr)
  else if (key =? "issuer_match")%string then
    text_field index "issuer_match" not_empty " must be non-empty" v vars (fun s => mk_EntryVars k (Some s) ip td tl cm pr)
  else if (key =? "iss_pattern")%string then
    text_field index "iss_pattern" not_empty " must be non-empty" v vars (fun s => mk_EntryVars k im (Some s) td tl cm pr)
  else if (key =? "trust_domain")%string then
    text_field index "trust_domain" (fun _ => true) "" v vars (fun s => mk_EntryVars k im ip (Some s) tl cm pr)
  else if (key =? "trust_level")%string then
    text_field index "trust_level" (fun s => existsb (String.eqb s) TRUST_LEVELS) " must be T0..T7" v vars
      (fun s => mk_EntryVars k im ip td (Some s) cm pr)
  else if (key =? "capability_map")%string then
    match v with
    | JNull => Ok vars
    | JObject m => out ← capability_loop index m ∅; Ok (mk_EntryVars k im ip td tl (Some out) pr)
    | _ => Err (at_index index ".capability_map must be a mapping")
    end
  else if (key =? "profile")%string then
    text_field index "profile" validate_profile " must match ^tf-[a-z][a-z0-9-]*-compatible$" v vars
      (fun s => mk_EntryVars k im ip td tl cm (Some s))
  else Err (at_index index (": unknown key " +:+ key)).
Fixpoint entry_loop (index : nat) (vars : EntryVars) (map : list (string * json)) : result BridgesRegistryError EntryVars :=
  match map with [] => Ok vars | (key, v) :: map => vars ← entry_key index vars key v; entry_loop index vars map end.
Definition parse_entry (value : json) (index : nat) : result BridgesRegistryError BridgeEntry :=
  match value with
  | JObject map =>
    '(mk_EntryVars k im ip td tl cm pr) ← entry_loop index no_vars map;
    k ← ok_or k (at_index index ".kind is required");
    Ok (mk_BridgeEntry k im ip td tl cm pr)
  | _ => Err (at_index index " must be a mapping")
  end.

(** ** The registry *)

Fixpoint parse_entries (i : nat) (entries : list json) : result BridgesRegistryError (list BridgeEntry) :=
  match entries with [] => Ok [] | entry :: entries => e ← parse_entry entry i; es ← parse_entries (S i) entries; Ok (e :: es) end.
Fixpoint doc_loop (version profile : option string) (value : option json) (doc : list (string * json))
    : result BridgesRegistryError (option string * option string * option json) :=
  match doc with
  | [] => Ok (version, profile, value)
  | (key, v) :: doc =>
    if (key =? "registry_version")%string then
      s ← ok_or (Json.as_str v) (Invalid "registry_version must be a string"); doc_loop (Some s) profile value doc
    else if (key =? "default_profile")%string then
      match v with
      | JNull => doc_loop version profile value doc
      | _ =>
        s ← ok_or (Json.as_str v) (Invalid "default_profile must be a string");
        if negb (validate_profile s) then Err (Invalid ("default_profile must match ^tf-[a-z][a-z0-9-]*-compatible$, got " +:+ s))
        else doc_loop version (Some s) value doc
      end
    else if (key =? "bridges")%string then doc_loop version profile (Some v) doc
    else Err (Invalid ("unknown registry key: " +:+ key))
  end.
Definition quote : string := str_of_bytes [34].
(** [from_str] after the YAML reader. *)
Definition from_value (raw : json) : result BridgesRegistryError BridgesRegistry :=
  match raw with
  | JObject doc =>
    '(version, profile, value) ← doc_loop None None None doc;
    version ← ok_or version (Invalid "registry_version is required");
    if negb (version =? "1")%string then Err (Invalid ("registry_version must be " +:+ quote +:+ "1" +:+ quote +:+ ", got " +:+ debug version))
    else
      value ← ok_or value (Invalid "bridges is required");
      match value with
      | JArray entries => bs ← parse_entries 0 entries; Ok (mk_BridgesRegistry "1" profile bs)
      | _ => Err (Invalid "bridges must be a sequence")
      end
  | _ => Err (Invalid "registry root must be a mapping")
  end.
(** [None]: the YAML reader does not answer, which does not happen. *)
Definition from_str (text : string) : option (result BridgesRegistryError BridgesRegistry) :=
  match Yaml.parse text with
  | Some (Ok raw) => Some (from_value raw)
  | Some (Err e) => Some (Err (Parse e))
  | None => None
  end.
(** What [fs::read_to_string] gives. *)
Inductive FileRead := FileText (text : string) | NotFound | OtherError.
Definition load (file : FileRead) : option (result BridgesRegistryError BridgesRegistry) :=
  match file with
  | FileText text => from_str text
  | NotFound => Some (Ok (mk_BridgesRegistry "1" None []))
  | OtherError => Some (Err Io)
  end.
End registry.

(** [str::contains]. *)
Fixpoint contains (s pat : string) : bool :=
  String.prefix pat s || match s with EmptyString => false | String _ r => contains r pat end.
Definition resolve_by_issuer (self : BridgesRegistry) (iss : string) : option BridgeEntry :=
  if str_is_empty iss then None
  else
    match List.find (fun e => match issuer_match e with Some m => (m =? iss)%string | None => false end) (bridges self) with
    | Some e => Some e
    | None => List.find (fun e => match iss_pattern e with Some p => contains iss p | None => false end) (bridges self)
    end.
Definition resolve_by_kind (self : BridgesRegistry) (k : BridgesRegistryKind) : option BridgeEntry :=
  List.find (fun e => bool_decide (kind e = k)) (bridges self).

(** ** Kinds and names *)

Lemma parse_as_str k : parse (as_str k) = Some k.
Proof. by destruct k. Qed.
Lemma match_text_elem {A} s (arms : list (string * A)) a : match_text s arms = Some a -> (s, a) ∈ arms.
Proof.
  induction arms as [|[t b] arms IH]; [done|]. cbn [match_text]. destruct (String.eqb_spec s t) as [->|]; [intros [= ->]; by left|]. intros. right. auto.
Qed.
(** The names of the kinds are read back, and nothing else is a kind. *)
Theorem registry_kind_iff s k : parse s = Some k <-> s = as_str k.
Proof.
  split; [|intros ->; apply parse_as_str]. intros H%match_text_elem.
  repeat (apply elem_of_cons in H as [H|H]; [by inversion H|]). by apply elem_of_nil in H.
Qed.

Lemma strip_suffix_spec suffix s r : strip_suffix suffix s = Some r <-> s = r +:+ suffix.
Proof.
  revert r; induction s as [|c s IH]; intros r; cbn [strip_suffix].
  - destruct (String.eqb_spec "" suffix) as [<-|N]; split.
    + by intros [= <-].
    + by destruct r.
    + done.
    + intros E. destruct r, suffix; done.
  - destruct (String.eqb_spec (String c s) suffix) as [<-|N]; split.
    + by intros [= <-].
    + intros E. assert (String.length (r +:+ String c s) = String.length (String c s)) as L by (by rewrite <- E).
      rewrite str_length_app in L. destruct r; [done|cbn in L; lia].
    + intros (r' & E & ->)%fmap_Some. apply IH in E as ->. done.
    + intros E. destruct r as [|d r]; [done|]. rewrite str_app_cons in E. injection E as -> E.
      by rewrite (proj2 (IH r) E).
Qed.
(** The profile names are those of [^tf-[a-z][a-z0-9-]*-compatible$]. *)
Theorem validate_profile_iff s : validate_profile s = true <->
  exists first it, s = "tf-" +:+ String first it +:+ "-compatible" /\ is_ascii_lowercase first = true /\
  all_chars (fun c => is_ascii_lowercase c || is_ascii_digit c || Ascii.eqb c "-") it = true.
Proof.
  split.
  - destruct s as [|c0 [|c1 [|c2 body]]]; try done. cbn [validate_profile].
    destruct (Ascii.eqb_spec c0 "t") as [->|]; [|done]. destruct (Ascii.eqb_spec c1 "f") as [->|]; [|done].
    destruct (Ascii.eqb_spec c2 "-") as [->|]; [|done]. cbn [negb orb].
    destruct (strip_suffix "-compatible" body) as [[|first it]|] eqn:E; try done. apply strip_suffix_spec in E as ->.
    destruct (is_ascii_lowercase first) eqn:L; [|done]. cbn [negb]. intros H. by exists first, it.
  - intros (first & it & -> & L & A). change (validate_profile ("tf-" +:+ ?x)) with (validate_profile (String "t" (String "f" (String "-" x)))).
    cbn [validate_profile Ascii.eqb Bool.eqb negb orb]. rewrite (proj2 (strip_suffix_spec _ _ (String first it)) eq_refl), L. done.
Qed.

Definition dotted (segs : list string) : string := String.concat "." segs.
Lemma split_dotted s : s = dotted (Jws.split "." s).
Proof.
  induction s as [|c s IH]; [done|]. cbn [Jws.split]. destruct (Ascii.eqb_spec c ".") as [->|N].
  - assert (Jws.split "." s <> []) as H by (destruct s; cbn; repeat case_match; done).
    destruct (Jws.split "." s) as [|w ws] eqn:E; [done|]. unfold dotted in *. rewrite IH at 1. done.
  - destruct (Jws.split "." s) as [|w ws] eqn:E; [destruct s; cbn in E; repeat case_match; done|].
    unfold dotted in *. rewrite IH at 1. destruct ws; done.
Qed.
Definition no_dot (w : string) : Prop := all_chars (fun c => negb (Ascii.eqb c ".")) w = true.
Lemma split_word w : no_dot w -> Jws.split "." w = [w].
Proof.
  unfold no_dot. induction w as [|c w IH]; [done|]. cbn [all_chars Jws.split]. intros [C W]%andb_prop.
  destruct (Ascii.eqb c "."); [done|]. by rewrite IH.
Qed.
Lemma split_word_dot w s : no_dot w -> Jws.split "." (w +:+ "." +:+ s) = w :: Jws.split "." s.
Proof.
  unfold no_dot. induction w as [|c w IH]; [done|]. rewrite str_app_cons. cbn [all_chars Jws.split]. intros [C W]%andb_prop.
  destruct (Ascii.eqb c "."); [done|]. by rewrite IH.
Qed.
Lemma dotted_split segs : segs <> [] -> Forall no_dot segs -> Jws.split "." (dotted segs) = segs.
Proof.
  intros N F. induction F as [|w [|v segs] W F IH]; [done|by apply split_word|].
  change (dotted (w :: v :: segs)) with (w +:+ "." +:+ dotted (v :: segs)). by rewrite split_word_dot, IH.
Qed.
Lemma all_chars_mono (p q : ascii -> bool) s : (forall c, p c = true -> q c = true) -> all_chars p s = true -> all_chars q s = true.
Proof. intros I. induction s as [|c s IH]; [done|]. cbn. intros [?%I ?%IH]%andb_prop. by apply andb_true_intro. Qed.
Lemma segment_no_dot w : valid_action_segment w = true -> no_dot w.
Proof.
  destruct w as [|c w]; [done|]. cbn [valid_action_segment]. destruct (is_ascii_lowercase c) eqn:L; [|done]. cbn [negb].
  intros A. unfold no_dot. cbn [all_chars]. apply andb_true_intro. split.
  - by destruct (Ascii.eqb_spec c ".") as [->|].
  - eapply all_chars_mono; [|exact A]. intros d H. by destruct (Ascii.eqb_spec d ".") as [->|].
Qed.
(** The action names are two or more segments joined by dots, each a letter
    followed by letters, digits and underscores. *)
Theorem validate_action_name_iff s : validate_action_name s = true <->
  exists segs, s = dotted segs /\ (2 <= length segs)%nat /\ Forall (fun w => valid_action_segment w = true) segs.
Proof.
  unfold validate_action_name. split.
  - destruct (Jws.split "." s) as [|first segs] eqn:E; [done|]. destruct (str_is_empty first); [done|].
    destruct (valid_action_segment first) eqn:F; [|done]. cbn [negb]. destruct (forallb _ segs) eqn:A; [|done]. cbn [negb].
    intros L%Nat.leb_le. exists (first :: segs). rewrite <- E at 1. split; [apply split_dotted|]. split; [cbn; lia|].
    constructor; [done|]. apply Forall_forall. intros x X%list_elem_of_In. rewrite forallb_forall in A. by apply A.
  - intros (segs & -> & L & F). rewrite dotted_split; [|intros ->; cbn in L; lia|by eapply Forall_impl; [exact F|apply segment_no_dot]].
    destruct F as [|first segs V F]; [cbn in L; lia|]. rewrite V. assert (str_is_empty first = false) as -> by (by destruct first). cbn [negb].
    assert (forallb valid_action_segment segs = true) as -> by (apply forallb_forall; intros x X%list_elem_of_In; rewrite Forall_forall in F; by apply F).
    cbn [negb]. apply Nat.leb_le. cbn in L. lia.
Qed.

(** ** What loading gives *)

Definition opt_all {A} (p : A -> bool) (o : option A) : Prop := match o with Some a => p a = true | None => True end.
Definition is_level (s : string) : bool := existsb (String.eqb s) TRUST_LEVELS.
Definition map_wf (cm : option (gmap string string)) : Prop := match cm with Some m => map_Forall (fun _ a => validate_action_name a = true) m | None => True end.
Definition vars_wf (v : EntryVars) : Prop :=
  opt_all not_empty (e_issuer_match v) /\ opt_all not_empty (e_iss_pattern v) /\ opt_all is_level (e_trust_level v) /\
  map_wf (e_capability_map v) /\ opt_all validate_profile (e_profile v).
Definition entry_vars (e : BridgeEntry) : EntryVars :=
  mk_EntryVars (Some (kind e)) (issuer_match e) (iss_pattern e) (trust_domain e) (trust_level e) (capability_map e) (profile e).
(** Entries and registries as the schema wants them. *)
Definition entry_wf (e : BridgeEntry) : Prop := vars_wf (entry_vars e).
Definition registry_wf (r : BridgesRegistry) : Prop :=
  registry_version r = "1" /\ opt_all validate_profile (default_profile r) /\ Forall entry_wf (bridges r).

Lemma text_field_wf index name ok problem v vars assign vars' :
  text_field index name ok problem v vars assign = Ok vars' -> vars' = vars \/ exists s, ok s = true /\ vars' = assign s.
Proof.
  destruct v; cbn; try done; [by intros <-%Ok_inj; left|].
  destruct (ok s) eqn:E; cbn; [|done]. intros <-%Ok_inj. right. eauto.
Qed.
Lemma capability_loop_wf index m : forall out out', map_Forall (fun _ a => validate_action_name a = true) out ->
  capability_loop index m out = Ok out' -> map_Forall (fun _ a => validate_action_name a = true) out'.
Proof.
  induction m as [|[k v] m IH]; intros out out' W; cbn [capability_loop]; [by intros <-%Ok_inj|].
  destruct (ok_or _ _) as [a|]; cbn [mbind result_bind]; [|done]. destruct (validate_action_name a) eqn:E; [|done]. cbn [negb].
  apply IH. by apply map_Forall_insert_2.
Qed.
Lemma entry_key_wf index vars key v vars' : vars_wf vars -> entry_key index vars key v = Ok vars' -> vars_wf vars'.
Proof.
  destruct vars as [k im ip td tl cm pr]. unfold vars_wf. intros W. unfold entry_key.
  repeat match goal with |- (if (key =? ?t)%string then _ else _) = _ -> _ => destruct (key =? t)%string end; try done;
    try (intros [->|(s & S & ->)]%text_field_wf; cbn in *; naive_solver).
  - destruct (ok_or (Json.as_str v) _) as [s|]; cbn [mbind result_bind]; [|done].
    destruct (ok_or (parse s) _); cbn [mbind result_bind]; [|done]. by intros <-%Ok_inj.
  - destruct v; try done; [by intros <-%Ok_inj|]. destruct (capability_loop index fields ∅) as [m|] eqn:E; cbn [mbind result_bind]; [|done].
    intros <-%Ok_inj. cbn in *. apply capability_loop_wf in E; [naive_solver|apply map_Forall_empty].
Qed.
Lemma entry_loop_wf index map : forall vars vars', vars_wf vars -> entry_loop index vars map = Ok vars' -> vars_wf vars'.
Proof.
  induction map as [|[key v] map IH]; intros vars vars' W; cbn [entry_loop]; [by intros <-%Ok_inj|].
  destruct (entry_key index vars key v) as [vars1|] eqn:E; cbn [mbind result_bind]; [|done]. apply IH. by eapply entry_key_wf.
Qed.
Lemma parse_entry_wf value index e : parse_entry value index = Ok e -> entry_wf e.
Proof.
  destruct value; try done. cbn [parse_entry]. destruct (entry_loop index no_vars fields) as [vars|] eqn:E; cbn [mbind result_bind]; [|done].
  apply entry_loop_wf in E; [|done]. destruct vars as [[k|] im ip td tl cm pr]; cbn; [|done]. by intros <-%Ok_inj.
Qed.
Lemma parse_entries_wf entries : forall i es, parse_entries i entries = Ok es -> Forall entry_wf es.
Proof.
  induction entries as [|v entries IH]; intros i es; cbn [parse_entries]; [by intros <-%Ok_inj|].
  destruct (parse_entry v i) as [e|] eqn:E; cbn [mbind result_bind]; [|done].
  destruct (parse_entries (S i) entries) eqn:F; cbn [mbind result_bind]; [|done]. intros <-%Ok_inj. constructor; [by eapply parse_entry_wf|by eapply IH].
Qed.
Lemma doc_loop_wf doc : forall version profile value version' profile' value', opt_all validate_profile profile ->
  doc_loop version profile value doc = Ok (version', profile', value') -> opt_all validate_profile profile'.
Proof.
  induction doc as [|[key v] doc IH]; intros version profile value version' profile' value' W; cbn [doc_loop]; [by intros [= <- <- <-]%Ok_inj|].
  destruct (key =? "registry_version")%string.
  { destruct (ok_or _ _) as [s|]; cbn [mbind result_bind]; [by apply IH|done]. }
  destruct (key =? "default_profile")%string; [|destruct (key =? "bridges")%string; [by apply IH|done]].
  assert (forall s, (if negb (validate_profile s) then Err (Invalid ("default_profile must match ^tf-[a-z][a-z0-9-]*-compatible$, got " +:+ s))
    else doc_loop version (Some s) value doc) = Ok (version', profile', value') -> opt_all validate_profile profile') as K.
  { intros s. destruct (validate_profile s) eqn:E; [|done]. by apply IH. }
  destruct v; try done; [by apply IH|]. apply K.
Qed.
Lemma from_value_wf debug v r : from_value debug v = Ok r -> registry_wf r.
Proof.
  destruct v; try done. cbn [from_value]. destruct (doc_loop None None None fields) as [[[version profile] value]|] eqn:E; cbn [mbind result_bind]; [|done].
  apply doc_loop_wf in E; [|done]. destruct version as [version|]; cbn [ok_or mbind result_bind]; [|done]. case_match; [done|].
  destruct value as [[]|]; cbn [ok_or mbind result_bind]; try done.
  destruct (parse_entries 0 xs) as [es|] eqn:F; cbn [mbind result_bind]; [|done]. intros <-%Ok_inj. split_and!; [done..|by eapply parse_entries_wf].
Qed.

(** ** Documents that load *)

Definition text_entry (name : string) (o : option string) : list (string * json) := match o with Some s => [(name, JString s)] | None => [] end.
Definition map_entry (cm : option (gmap string string)) : list (string * json) :=
  match cm with Some m => [("capability_map", JObject ((fun kv => (kv.1, JString kv.2)) <$> map_to_list m))] | None => [] end.
Definition entry_json (e : BridgeEntry) : json :=
  JObject ([("kind", JString (as_str (kind e)))] ++ text_entry "issuer_match" (issuer_match e) ++ text_entry "iss_pattern" (iss_pattern e)
    ++ text_entry "trust_domain" (trust_domain e) ++ text_entry "trust_level" (trust_level e) ++ map_entry (capability_map e)
    ++ text_entry "profile" (profile e)).
Definition registry_json (r : BridgesRegistry) : json :=
  JObject ([("registry_version", JString (registry_version r))] ++ text_entry "default_profile" (default_profile r)
    ++ [("bridges", JArray (entry_json <$> bridges r))]).

Lemma entry_loop_app index a b : forall vars, entry_loop index vars (a ++ b) = (vars ← entry_loop index vars a; entry_loop index vars b).
Proof.
  induction a as [|[key v] a IH]; intros vars; [done|]. cbn [app entry_loop]. destruct (entry_key index vars key v); cbn [mbind result_bind]; [apply IH|done].
Qed.
Lemma text_field_ok index name ok problem s vars assign : ok s = true ->
  text_field index name ok problem (JString s) vars assign = Ok (assign s).
Proof. intros E. cbn. by rewrite E. Qed.
Lemma capability_loop_ok index m : forall out, Forall (fun kv => validate_action_name kv.2 = true) m ->
  capability_loop index ((fun kv => (kv.1, JString kv.2)) <$> m) out = Ok (foldl (fun out kv => <[kv.1 := kv.2]> out) out m).
Proof.
  induction m as [|[k a] m IH]; intros out F; [done|]. apply Forall_cons in F as [V F]. cbn -[validate_action_name] in *. rewrite V. cbn [negb]. by apply IH.
Qed.
Lemma fold_inserts (m : list (string * string)) : NoDup m.*1 -> forall out : gmap string string, (forall k, k ∈ m.*1 -> out !! k = None) ->
  foldl (fun out kv => <[kv.1 := kv.2]> out) out m = list_to_map m ∪ out.
Proof.
  induction m as [|[k a] m IH]; intros N out D; [cbn; by rewrite (left_id_L ∅ (∪))|]. cbn in *. apply NoDup_cons in N as [K N].
  rewrite IH; [|done|].
  - rewrite <- insert_union_r by (by apply not_elem_of_list_to_map_1). by rewrite insert_union_l.
  - intros j J. rewrite lookup_insert_ne by set_solver. apply D. by right.
Qed.
Lemma map_loads index (m : gmap string string) : map_Forall (fun _ a => validate_action_name a = true) m ->
  capability_loop index ((fun kv => (kv.1, JString kv.2)) <$> map_to_list m) ∅ = Ok m.
Proof.
  intros W. rewrite capability_loop_ok.
  - rewrite fold_inserts; [by rewrite list_to_map_to_list, (right_id_L ∅ (∪))|apply NoDup_fst_map_to_list|intros; apply lookup_empty].
  - apply Forall_forall. intros [k a] E%elem_of_map_to_list. by apply (W k).
Qed.
Lemma parse_entry_json index e : entry_wf e -> parse_entry (entry_json e) index = Ok e.
Proof.
  destruct e as [k im ip td tl cm pr]. intros (Him & Hip & Htl & Hcm & Hpr). cbn in Him, Hip, Htl, Hcm, Hpr.
  unfold entry_json, parse_entry. cbn [kind issuer_match iss_pattern trust_domain trust_level capability_map profile].
  cbn [app entry_loop]. unfold entry_key at 1. cbn [no_vars String.eqb Ascii.eqb Bool.eqb Json.as_str ok_or mbind result_bind].
  rewrite parse_as_str. cbn [ok_or mbind result_bind].
  assert (forall vars name ok problem assign o, opt_all ok o -> (forall s, entry_key index vars name (JString s) = text_field index name ok problem (JString s) vars assign) ->
    entry_loop index vars (text_entry name o) = Ok (match o with Some s => assign s | None => vars end)) as K.
  { intros vars name ok problem assign [s|] O E; [|done]. cbn [text_entry entry_loop]. rewrite E, text_field_ok by done. done. }
  rewrite entry_loop_app, (K _ "issuer_match" not_empty " must be non-empty" (fun s => mk_EntryVars (Some k) (Some s) None None None None None) im) by done. cbn [mbind result_bind].
  replace (match im with Some s => _ | None => _ end) with (mk_EntryVars (Some k) im None None None None None) by (by destruct im).
  rewrite entry_loop_app, (K _ "iss_pattern" not_empty " must be non-empty" (fun s => mk_EntryVars (Some k) im (Some s) None None None None) ip) by done. cbn [mbind result_bind].
  replace (match ip with Some s => _ | None => _ end) with (mk_EntryVars (Some k) im ip None None None None) by (by destruct ip).
  rewrite entry_loop_app, (K _ "trust_domain" (fun _ => true) "" (fun s => mk_EntryVars (Some k) im ip (Some s) None None None) td) by (done || by destruct td). cbn [mbind result_bind].
  replace (match td with Some s => _ | None => _ end) with (mk_EntryVars (Some k) im ip td None None None) by (by destruct td).
  rewrite entry_loop_app, (K _ "trust_level" is_level " must be T0..T7" (fun s => mk_EntryVars (Some k) im ip td (Some s) None None) tl) by done. cbn [mbind result_bind].
  replace (match tl with Some s => _ | None => _ end) with (mk_EntryVars (Some k) im ip td tl None None) by (by destruct tl).
  rewrite entry_loop_app. assert (entry_loop index (mk_EntryVars (Some k) im ip td tl None None) (map_entry cm) = Ok (mk_EntryVars (Some k) im ip td tl cm None)) as ->.
  { destruct cm as [m|]; [|done]. cbn [map_entry entry_loop]. unfold entry_key. cbn [String.eqb Ascii.eqb Bool.eqb]. by rewrite map_loads. }
  cbn [mbind result_bind].
  rewrite (K _ "profile" validate_profile " must match ^tf-[a-z][a-z0-9-]*-compatible$" (fun s => mk_EntryVars (Some k) im ip td tl cm (Some s)) pr) by done. cbn [mbind result_bind].
  by destruct pr.
Qed.
Lemma parse_entries_json es : Forall entry_wf es -> forall i, parse_entries i (entry_json <$> es) = Ok es.
Proof. induction 1 as [|e es W F IH]; intros i; [done|]. cbn [fmap list_fmap parse_entries]. rewrite parse_entry_json by done. cbn [mbind result_bind]. by rewrite IH. Qed.
Lemma from_value_json debug r : registry_wf r -> from_value debug (registry_json r) = Ok r.
Proof.
  destruct r as [version dp es]. intros (V & D & F). cbn in V, D, F. subst version. unfold from_value, registry_json. cbn [registry_version default_profile bridges].
  assert (doc_loop None None None ([("registry_version", JString "1")] ++ text_entry "default_profile" dp ++ [("bridges", JArray (entry_json <$> es))])
    = Ok (Some "1", dp, Some (JArray (entry_json <$> es)))) as ->.
  { destruct dp as [p|]; [|done]. cbn -[validate_profile]. by rewrite D. }
  cbn [mbind result_bind ok_or]. cbn [String.eqb Ascii.eqb Bool.eqb negb]. by rewrite parse_entries_json.
Qed.
(** the registries that a document can load as are exactly the well-formed
    ones: version 1, issuers and patterns that are not empty, known trust levels,
    and profile and action names of the documented forms. *)
Theorem registry_accepted_iff debug r : (exists v, from_value debug v = Ok r) <-> registry_wf r.
Proof. split; [intros (v & H); by eapply from_value_wf|]. intros W. exists (registry_json r). by apply from_value_json. Qed.

(** Texts that YAML keeps: Unicode, on one line. *)
Definition yaml_text (s : string) : Prop := valid_utf8 (bytes_of_str s) = true /\ Yaml.has_char 10 (chars s) = false.
Definition opt_text (o : option string) : Prop := match o with Some s => yaml_text s | None => True end.
Definition map_text (cm : option (gmap string string)) : Prop := match cm with Some m => map_Forall (fun k a => yaml_text k /\ yaml_text a) m | None => True end.
Definition entry_text (e : BridgeEntry) : Prop :=
  opt_text (issuer_match e) /\ opt_text (iss_pattern e) /\ opt_text (trust_domain e) /\ opt_text (trust_level e) /\ map_text (capability_map e) /\ opt_text (profile e).

Section yaml.
Variable show_f64 : Z -> string.
#[local] Abbreviation entry_ok := (YamlProofs.entry_ok show_f64).
#[local] Abbreviation yaml_ok := (YamlProofs.yaml_ok show_f64).
Lemma text_ok k s : yaml_text k -> yaml_text s -> entry_ok (k, JString s).
Proof.
  intros [K _] [S L]. split; [done|]. split; [|done]. cbn. unfold Yaml.block_ok. by rewrite L.
Qed.
Lemma text_entry_ok name o : yaml_text name -> opt_text o -> Forall entry_ok (text_entry name o).
Proof. intros N O. destruct o as [s|]; cbn; [constructor; [by apply text_ok|constructor]|constructor]. Qed.
Lemma entry_json_ok e : entry_text e -> yaml_ok (entry_json e).
Proof.
  destruct e as [k im ip td tl cm pr]. intros (Him & Hip & Htd & Htl & Hcm & Hpr). cbn in Him, Hip, Htd, Htl, Hcm, Hpr.
  apply YamlProofs.yaml_ok_object. split.
  - unfold entry_json. cbn [kind issuer_match iss_pattern trust_domain trust_level capability_map profile].
    destruct im, ip, td, tl, cm, pr; apply (bool_decide_unpack _); by vm_compute.
  - unfold entry_json. cbn [kind issuer_match iss_pattern trust_domain trust_level capability_map profile].
    repeat apply Forall_app_2; try (by apply text_entry_ok).
    + constructor; [|constructor]. apply text_ok; by destruct k.
    + destruct cm as [m|]; [|constructor]. constructor; [|constructor]. split; [done|]. split; [done|]. cbn [snd].
      apply YamlProofs.yaml_ok_object. split.
      * rewrite <- list_fmap_compose. apply NoDup_fst_map_to_list.
      * apply Forall_fmap. apply Forall_forall. intros [x a] E%elem_of_map_to_list. destruct (Hcm x a E). by apply text_ok.
Qed.
Lemma registry_json_ok r : yaml_text (registry_version r) -> opt_text (default_profile r) -> Forall entry_text (bridges r) -> yaml_ok (registry_json r).
Proof.
  destruct r as [version dp es]. cbn [registry_version default_profile bridges]. intros V D E. apply YamlProofs.yaml_ok_object. unfold registry_json. cbn [registry_version default_profile bridges]. split.
  - destruct dp; apply (bool_decide_unpack _); by vm_compute.
  - repeat apply Forall_app_2; [constructor; [by apply text_ok|constructor]|by apply text_entry_ok|]. constructor; [|constructor].
    split; [done|]. split; [done|]. cbn [snd]. apply YamlProofs.yaml_ok_array. apply Forall_fmap. eapply Forall_impl; [exact E|]. apply entry_json_ok.
Qed.
(** a well-formed registry whose texts are Unicode and on one line, written
    as YAML, is loaded back exactly. *)
Theorem registry_roundtrip debug r (W : registry_wf r) (D : opt_text (default_profile r)) (E : Forall entry_text (bridges r)) :
  load debug (FileText (Yaml.to_string show_f64 (registry_json r))) = Some (Ok r).
Proof.
  cbn [load]. unfold from_str. rewrite YamlProofs.yaml_reads_back; [by rewrite from_value_json|].
  apply registry_json_ok; [|done..]. destruct W as [-> _]. done.
Qed.
End yaml.
Definition clerk_entry : BridgeEntry :=
  mk_BridgeEntry Clerk (Some "https://a.example") (Some "clerk.") (Some "example.com") (Some "T2") (Some {[ "read: all" := "repo.read" ]}) (Some "tf-core-compatible").
Definition registry1 : BridgesRegistry := mk_BridgesRegistry "1" None [clerk_entry; mk_BridgeEntry Oauth None (Some "example") None None None None].
Lemma registry_roundtrip_witness : load id (FileText (Yaml.to_string (fun _ => "") (registry_json registry1))) = Some (Ok registry1).
Proof.
  apply (registry_roundtrip (fun _ => "") id registry1).
  - split; [done|]. split; [done|]. repeat constructor; try done. apply map_Forall_singleton. done.
  - done.
  - constructor; [|constructor; [by vm_compute|constructor]]. split_and!; [by vm_compute..| |by vm_compute].
    apply map_Forall_singleton. by vm_compute.
Defined.

(** ** Which bridge an issuer gets *)

Definition first_at {A} (p : A -> bool) (l : list A) (a : A) : Prop := exists before after, l = before ++ a :: after /\ p a = true /\ Forall (fun b => p b = false) before.
Lemma find_is_first {A} (p : A -> bool) l a : List.find p l = Some a <-> first_at p l a.
Proof.
  split.
  - induction l as [|b l IH]; [done|]. cbn. destruct (p b) eqn:E.
    + intros [= <-]. by exists [], l.
    + intros (before & after & -> & P & F)%IH. exists (b :: before), after. repeat split; [done|by constructor].
  - intros (before & after & -> & P & F). induction F as [|b before B F IH]; cbn; [by rewrite P|by rewrite B].
Qed.
Definition issued_by (iss : string) (e : BridgeEntry) : bool := bool_decide (issuer_match e = Some iss).
Definition pattern_in (iss : string) (e : BridgeEntry) : bool := match iss_pattern e with Some p => contains iss p | None => false end.
Lemma str_prefix_app p s : String.prefix p s = true <-> exists r, s = p +:+ r.
Proof.
  revert s; induction p as [|a p IH]; intros s; [by split; [exists s|destruct s]|]. destruct s as [|b s]; [split; [done|by intros [r ?]]|].
  cbn [String.prefix]. destruct (Ascii.ascii_dec a b) as [->|N].
  - rewrite IH. split; intros [r E]; exists r; [by rewrite E|]. rewrite str_app_cons in E. by injection E.
  - split; [done|]. intros [r E]. rewrite str_app_cons in E. by injection E as <-.
Qed.
Lemma contains_iff s pat : contains s pat = true <-> exists a b, s = a +:+ pat +:+ b.
Proof.
  split.
  - induction s as [|c s IH]; cbn [contains]; intros [H|H]%orb_prop; try done.
    + apply str_prefix_app in H as (r & ->). by exists "", r.
    + apply str_prefix_app in H as (r & ->). by exists "", r.
    + destruct (IH H) as (a & b & ->). by exists (String c a), b.
  - intros (a & b & ->). induction a as [|c a IH].
    + rewrite str_app_nil_l. assert (String.prefix pat (pat +:+ b) = true) as H by (apply str_prefix_app; eauto).
      destruct (pat +:+ b); cbn [contains]; by rewrite H.
    + rewrite str_app_cons. cbn [contains]. rewrite IH. apply orb_true_r.
Qed.
(** an issuer gets the first entry that names it; only when no entry names it,
    the first entry whose pattern occurs in it; the empty issuer gets none. *)
Theorem resolve_first_match r iss e : resolve_by_issuer r iss = Some e <->
  iss <> "" /\ (first_at (issued_by iss) (bridges r) e \/
                Forall (fun b => issuer_match b <> Some iss) (bridges r) /\ first_at (pattern_in iss) (bridges r) e).
Proof.
  unfold resolve_by_issuer. assert (forall l, List.find (fun e => match issuer_match e with Some m => (m =? iss)%string | None => false end) l = List.find (issued_by iss) l) as ->.
  { intros l. induction l as [|b l IH]; [done|]. cbn. rewrite IH. unfold issued_by. destruct (issuer_match b) as [m|] eqn:M.
    - destruct (String.eqb_spec m iss) as [->|]; [by rewrite bool_decide_true|by rewrite bool_decide_false by congruence].
    - by rewrite bool_decide_false. }
  destruct iss as [|c iss]; [cbn; naive_solver|]. cbn [str_is_empty]. set (iss' := String c iss).
  rewrite <- !find_is_first. destruct (List.find (issued_by iss') (bridges r)) as [x|] eqn:F.
  - split; [naive_solver|]. intros [_ [H|[N _]]]; [done|]. apply find_some in F as [I X]. apply list_elem_of_In in I.
    rewrite Forall_forall in N. apply N in I. unfold issued_by in X. by rewrite bool_decide_eq_true in X.
  - fold (pattern_in iss'). split; [|naive_solver]. intros H. split; [done|]. right. split; [|done]. apply Forall_forall. intros b B%list_elem_of_In.
    pose proof (find_none _ _ F b B) as X. unfold issued_by in X. by rewrite bool_decide_eq_false in X.
Qed.
(** An entry with a pattern and no exact issuer takes every issuer in which the
    pattern occurs, wherever that is. *)
Theorem issuer_pattern_anywhere k pat td tl cm pr before after : before +:+ pat +:+ after <> "" ->
  let e := mk_BridgeEntry k None (Some pat) td tl cm pr in
  resolve_by_issuer (mk_BridgesRegistry "1" None [e]) (before +:+ pat +:+ after) = Some e.
Proof.
  intros N e. unfold resolve_by_issuer. assert (contains (before +:+ pat +:+ after) pat = true) as H by (apply contains_iff; eauto).
  destruct (before +:+ pat +:+ after) as [|c s]; [done|]. unfold e. cbn [str_is_empty bridges]. unfold List.find. cbn [issuer_match iss_pattern]. by rewrite H.
Qed.
Lemma issuer_pattern_anywhere_witness :
  let e := mk_BridgeEntry Clerk None (Some "clerk.example.com") None None None None in
  resolve_by_issuer (mk_BridgesRegistry "1" None [e]) ("https://evil.test/" +:+ "clerk.example.com" +:+ "/x") = Some e.
Proof. by apply (issuer_pattern_anywhere Clerk "clerk.example.com" None None None None "https://evil.test/" "/x"). Defined.

End Registry.
