(* ===== verification/Plugin.v ===== *)
(** * Plugin: the registry of native plugins ([plugin.rs])

    A manifest is a YAML file signed over its canonical JSON with the text of the
    signature cleared.  Handlers are functions of the host program.  The file is
    what reading it gave; the cryptographic crates are [Crypto.crypto_lib],
    Unicode normalisation, the text of a double and the texts of errors are
    arguments.

    - [plugin_loads_iff]: which manifests are loaded;
    - [plugin_anyone_can_sign]: the key is taken from the manifest itself, so
      every key holder can sign any manifest;
    - [plugin_invoke_first], [capability_not_declared]: what a call runs. *)

From S2P Require Import Prelude Json Canonical Crypto Yaml YamlProofs.

#[local] Open Scope string_scope.
#[local] Open Scope list_scope.
#[local] Open Scope Z_scope.

Module Plugin.

Inductive PluginError := Io (m : string) | Parse (m : string) | BadSignature (m : string) | UnknownKind (m : string) | Crypto (m : string).
Definition from_crypto_error (e : Crypto.CryptoError) : PluginError := Crypto (Crypto.crypto_error_str e).
Definition NativeHandler : Type := json -> result string json.
Record LoadedPlugin := mk_LoadedPlugin {
  plugin_id : string; actor_id : string; kind : string; capabilities : list string; handlers : gmap string NativeHandler }.
Definition PluginRegistry : Type := list LoadedPlugin.

Section plugin.
Variable l : Crypto.crypto_lib.
Variable nfc : string -> string.
Variable show_f64 : Z -> string.
Variable canonical_error : Canonical.CanonicalJsonError -> string.
Variable yaml_error : Yaml.YamlError -> string.

Definition text_of (k : string) (manifest : json) : string := default "" (v ← jget k manifest; as_str v).
(** [get_mut("signature")], [as_object_mut], [insert]. *)
Definition clear_signature (manifest : json) : json :=
  match manifest with
  | JObject fields =>
    match assoc "signature" fields with
    | Some (JObject sig) => JObject (assoc_insert "signature" (JObject (assoc_insert "signature" (JString "") sig)) fields)
    | _ => manifest
    end
  | _ => manifest
  end.
Definition signature_text (manifest : json) : option string := s ← jget "signature" manifest; v ← jget "signature" s; as_str v.
Definition key_text (manifest : json) : option string := v ← jget "identity_pub" manifest; as_str v.
Definition verify_signature_value (manifest : json) (plugin_id : string) : result PluginError unit :=
  sig_b64 ← ok_or (signature_text manifest) (BadSignature plugin_id);
  ident_pub ← ok_or (key_text manifest) (BadSignature plugin_id);
  canonical ← map_err (fun e => Parse (canonical_error e)) (Canonical.canonicalize nfc show_f64 (clear_signature manifest));
  sig_bytes ← map_err from_crypto_error (Crypto.b64decode sig_b64);
  pubkey_bytes ← map_err from_crypto_error (Crypto.b64decode ident_pub);
  map_err (fun _ => BadSignature plugin_id) (Crypto.ed25519_verify l pubkey_bytes (bytes_of_str canonical) sig_bytes).

Definition capability_names (manifest : json) : list string :=
  match (v ← jget "capabilities" manifest; as_array v) with
  | Some arr => omap (fun v => n ← jget "name" v; as_str n) arr
  | None => []
  end.
(** The manifest of a file; [None]: the YAML reader does not answer, which does
    not happen. *)
Definition read_manifest (file : result string string) : option (result PluginError json) :=
  match file with
  | Err e => Some (Err (Io e))
  | Ok raw => map_err (fun e => Parse (yaml_error e)) <$> Yaml.parse raw
  end.
Definition load_manifest (manifest : json) (hs : gmap string NativeHandler) (self : PluginRegistry) : result PluginError PluginRegistry :=
  let k := text_of "kind" manifest in
  if negb (k =? "native")%string then Err (UnknownKind k)
  else
    let id := text_of "plugin_id" manifest in
    _ ← verify_signature_value manifest id;
    Ok (self ++ [mk_LoadedPlugin id (text_of "actor_id" manifest) k (capability_names manifest) hs]).
Definition load_native (file : result string string) (hs : gmap string NativeHandler) (self : PluginRegistry) : option (result PluginError PluginRegistry) :=
  (fun r => manifest ← r; load_manifest manifest hs self) <$> read_manifest file.
Definition verify_plugin_signature (file : result string string) : option (result PluginError string) :=
  (fun r => manifest ← r; let id := text_of "plugin_id" manifest in _ ← verify_signature_value manifest id; Ok id) <$> read_manifest file.
Definition invoke (id capability : string) (request : json) (self : PluginRegistry) : result PluginError json :=
  plugin ← ok_or (List.find (fun p => (plugin_id p =? id)%string) self) (Parse ("plugin not loaded: " +:+ id));
  handler ← ok_or (handlers plugin !! capability) (Parse ("no handler for capability: " +:+ capability));
  map_err Parse (handler request).

(** ** What is loaded *)

(** The manifest carries a signature, by the key it names, over its canonical
    text with the signature cleared. *)
Definition self_signed (manifest : json) : Prop :=
  exists sig_b64 ident_pub sig_bytes pk text, signature_text manifest = Some sig_b64 /\
  key_text manifest = Some ident_pub /\ Canonical.canonicalize nfc show_f64 (clear_signature manifest) = Ok text /\
  Crypto.b64decode sig_b64 = Ok sig_bytes /\ Crypto.b64decode ident_pub = Ok pk /\ Crypto.ed25519_verify l pk (bytes_of_str text) sig_bytes = Ok tt.
Lemma verify_signature_iff manifest id : verify_signature_value manifest id = Ok tt <-> self_signed manifest.
Proof.
  unfold verify_signature_value, self_signed. split.
  - destruct (signature_text manifest) as [sig_b64|]; cbn [ok_or mbind result_bind]; [|done]. destruct (key_text manifest) as [ident_pub|]; cbn [ok_or mbind result_bind]; [|done].
    destruct (Canonical.canonicalize _ _ _) as [text|]; cbn [map_err mbind result_bind]; [|done].
    destruct (Crypto.b64decode sig_b64) as [sig_bytes|] eqn:S; cbn [map_err mbind result_bind]; [|done].
    destruct (Crypto.b64decode ident_pub) as [pk|] eqn:P; cbn [map_err mbind result_bind]; [|done].
    destruct (Crypto.ed25519_verify l pk _ sig_bytes) as [[]|] eqn:V; [|done]. intros _. by exists sig_b64, ident_pub, sig_bytes, pk, text.
  - intros (sig_b64 & ident_pub & sig_bytes & pk & text & -> & -> & -> & S & P & V). cbn [ok_or map_err mbind result_bind]. rewrite S, P. cbn [map_err mbind result_bind].
    by rewrite V.
Qed.
(** a manifest is loaded exactly when it is a YAML document of a native
    plugin signed by the key it names; what is added is the plugin it describes,
    with the handlers given. *)
Theorem plugin_loads_iff raw hs self self' : load_native (Ok raw) hs self = Some (Ok self') <->
  exists manifest, Yaml.parse raw = Some (Ok manifest) /\ text_of "kind" manifest = "native" /\ self_signed manifest /\
  self' = self ++ [mk_LoadedPlugin (text_of "plugin_id" manifest) (text_of "actor_id" manifest) "native" (capability_names manifest) hs].
Proof.
  unfold load_native, read_manifest. destruct (Yaml.parse raw) as [[manifest|e]|]; cbn [fmap option_fmap option_map map_err mbind result_bind]; [|naive_solver..].
  unfold load_manifest. destruct (String.eqb_spec (text_of "kind" manifest) "native") as [K|K]; cbn [negb]; [|naive_solver]. rewrite K.
  split.
  - destruct (verify_signature_value manifest _) as [[]|] eqn:V; cbn [mbind result_bind]; [|done]. intros [= <-]. apply verify_signature_iff in V. by exists manifest.
  - intros (m & [= <-] & _ & S & ->). by rewrite (proj2 (verify_signature_iff manifest _) S).
Qed.

(** ** Who can sign *)

(** A manifest with a key and a signature text put in. *)
Definition manifest_of (fields : list (string * json)) (key sig : string) : json :=
  JObject (("identity_pub", JString key) :: ("signature", JObject [("signature", JString sig)]) :: fields).
Lemma clear_manifest fields key sig : clear_signature (manifest_of fields key sig) = manifest_of fields key "".
Proof. done. Qed.
(** whoever has a key pair can sign any manifest so that it loads: the key
    that the signature is checked with is the one the manifest names, and no
    other key is asked for. *)
Theorem plugin_anyone_can_sign sk pk fields hs self : Crypto.ed25519_pair l sk pk -> Crypto.crypto_lib_laws l ->
  assoc "kind" fields = Some (JString "native") -> is_ok (Canonical.canonicalize nfc show_f64 (manifest_of fields (Crypto.b64encode pk) "")) = true ->
  exists sig, is_ok (load_manifest (manifest_of fields (Crypto.b64encode pk) sig) hs self) = true.
Proof.
  intros (Lp & Bp & vk & V & S) W K C. destruct (Canonical.canonicalize _ _ _) as [text|] eqn:E; [|done].
  destruct (Crypto.law_sign l W sk (bytes_of_str text)) as [Ls Bs].
  exists (Crypto.b64encode (Crypto.ed25519_sign l sk (bytes_of_str text))). unfold load_manifest.
  assert (text_of "kind" (manifest_of fields (Crypto.b64encode pk) (Crypto.b64encode (Crypto.ed25519_sign l sk (bytes_of_str text)))) = "native") as -> by (unfold text_of; cbn; by rewrite K).
  rewrite (proj2 (verify_signature_iff _ _)); [done|].
  eexists _, _, _, _, text. split; [done|]. split; [done|]. rewrite clear_manifest. split; [exact E|].
  split; [by apply Crypto.b64decode_encode|]. split; [by apply Crypto.b64decode_encode|].
  unfold Crypto.ed25519_verify. rewrite !Crypto.array_of_length by done. cbn [mbind result_bind]. rewrite V. cbn [ok_or mbind result_bind]. by rewrite S.
Qed.

(** ** Calls *)

(** A call runs the handler that the first plugin of that id was given for the
    capability, and nothing else; a plugin loaded later with the same id is
    never called. *)
Theorem plugin_invoke_first id cap req self p rest hs : plugin_id p = id -> handlers p !! cap = Some hs ->
  Forall (fun q => plugin_id q <> id) self -> invoke id cap req (self ++ p :: rest) = map_err Parse (hs req).
Proof.
  intros I H F. unfold invoke. assert (List.find (fun p => (plugin_id p =? id)%string) (self ++ p :: rest) = Some p) as ->.
  { induction F as [|q self Q F IH]; cbn; [by rewrite (proj2 (String.eqb_eq _ _) I)|]. by rewrite (proj2 (String.eqb_neq _ _) Q). }
  cbn [ok_or mbind result_bind]. by rewrite H.
Qed.
End plugin.
(** A handler runs for a capability that the manifest does not declare. *)
Example capability_not_declared :
  invoke "p" "fs.delete" JNull [mk_LoadedPlugin "p" "a" "native" ["fs.read"] {[ "fs.delete" := fun _ => Ok (JBool true) ]}] = Ok (JBool true).
Proof. done. Qed.

Lemma plugin_anyone_can_sign_witness : exists sig,
  is_ok (load_manifest Crypto.toy_lib id (fun _ => "0") (fun _ => "bad")
    (manifest_of [("kind", JString "native"); ("plugin_id", JString "tf:plugin:root")] (Crypto.b64encode (repeat 7 32)) sig) ∅ []) = true.
Proof.
  apply (plugin_anyone_can_sign Crypto.toy_lib id (fun _ => "0") (fun _ => "bad") (repeat 7 32) (repeat 7 32));
    [apply Crypto.toy_ed25519; [done|by repeat constructor]|exact Crypto.toy_lib_laws|reflexivity|by vm_compute].
Defined.

End Plugin.
