(* ===== verification/Manifests.v ===== *)
(** * Manifests: the loader of the [.tf] directory and its feature gate
      ([tf_manifests.rs])

    A file is what asking for it gives: absent, an error or its text.  The YAML
    reader is that of [Yaml]; the JSON reader of serde and the texts of errors
    are arguments.  [None] is a panic, or a YAML reader that does not answer,
    which [Yaml] excludes.

    - [gate_forbids_as_guard]: the gate forbids exactly the actions that the
      guard made of the same contract forbids;
    - [broken_contract_forbids_nothing]: a contract that cannot be read;
    - [toml_panics_iff]: the files on which the small TOML reader panics. *)

From S2P Require Import Prelude Utf8 Json ActorId Guard Jws Http Session Yaml YamlProofs.

#[local] Open Scope string_scope.
#[local] Open Scope list_scope.
#[local] Open Scope Z_scope.

Module Manifests.

Record TfManifestPaths := mk_TfManifestPaths {
  root_dir : string; p_agent_contract : option string; p_threat_model : option string; p_policy : option string; p_actions : option string;
  p_proof_profile : option string; p_codegen : option string; p_conformance : option string }.
Record TfDiagnostic := mk_TfDiagnostic { file : string; diag_reason : string }.
Record TfManifests := mk_TfManifests {
  agent_contract : option json; threat_model : option json; policy : option json; actions : option json; proof_profile : option json;
  codegen : option (gmap string string); conformance : option json; diagnostics : list TfDiagnostic }.
Record TfFeatureGate := mk_TfFeatureGate {
  g_policy : option json; claimed_profiles : list string; default_proof_level : option string; anchors : list json; forbidden_actions : list string;
  per_action_proof_level : gmap string string }.
Definition proof_level_for_action (g : TfFeatureGate) (action : string) : option string := per_action_proof_level g !! action.

Definition REL_AGENT_CONTRACT : string := ".tf/agent-contract.yaml".
Definition REL_THREAT_MODEL : string := ".tf/threat-model.yaml".
Definition REL_POLICY : string := ".tf/policy.yaml".
Definition REL_ACTIONS : string := ".tf/actions.yaml".
Definition REL_PROOF_PROFILE : string := ".tf/proof-profile.yaml".
Definition REL_CODEGEN : string := ".tf/codegen.toml".
Definition REL_CONFORMANCE : string := ".tf/conformance.json".
(** [Path::join] with a relative path. *)
Definition join_path (root rel : string) : string :=
  if str_is_empty root then rel else if Session.ends_with "/" root then root +:+ rel else root +:+ "/" +:+ rel.

(** ** The small TOML reader *)

Definition before_hash (line : string) : string := match ActorId.split_first "#" line with Some (a, _) => a | None => line end.
Definition DQ : string := String (ascii_of_nat 34) "".
Definition SQ : string := String (ascii_of_nat 39) "".
Definition in_quotes (q v : string) : bool := String.prefix q v && Session.ends_with q v.
(** [&value[1..value.len() - 1]]; [None]: the range is backwards. *)
Definition unquote (v : string) : option string :=
  if in_quotes DQ v || in_quotes SQ v then if (String.length v <? 2)%nat then None else Some (String.substring 1 (String.length v - 2) v)
  else Some v.
(** What a line adds to the map. *)
Inductive line_result := Skip | Entry (key value : string) | Panics.
Definition read_line (line : string) : line_result :=
  let stripped := trim_str (before_hash line) in
  if str_is_empty stripped then Skip
  else match ActorId.split_first "=" stripped with
       | Some (k, v) => match unquote (trim_str v) with Some value => Entry (trim_str k) value | None => Panics end
       | None => Skip
       end.
Fixpoint read_lines (ls : list string) (out : gmap string string) : option (gmap string string) :=
  match ls with
  | [] => Some out
  | l :: ls => match read_line l with Skip => read_lines ls out | Entry k v => read_lines ls (<[k := v]> out) | Panics => None end
  end.
Definition parse_tiny_toml (raw : string) : option (gmap string string) := read_lines (Http.lines raw) ∅.

(** ** Loading *)

Section load.
Variable yaml_error : Yaml.YamlError -> string.
Variable json_from_str : string -> result string json.
(** The file at a path: [None] when it does not exist. *)
Variable files : string -> option (result string string).

(** [try_yaml] and [try_json]: the value and the diagnostics. *)
Definition try_file (parse : string -> option (result string json)) (path : string) (diags : list TfDiagnostic) : option (option json * list TfDiagnostic) :=
  match files path with
  | None => Some (None, diags)
  | Some r =>
    parsed ← match r with Err e => Some (Err e) | Ok raw => parse raw end;
    match parsed with Ok v => Some (Some v, diags) | Err reason => Some (None, diags ++ [mk_TfDiagnostic path reason]) end
  end.
Definition try_yaml : string -> list TfDiagnostic -> option (option json * list TfDiagnostic) := try_file (fun raw => map_err yaml_error <$> Yaml.parse raw).
Definition try_json : string -> list TfDiagnostic -> option (option json * list TfDiagnostic) := try_file (fun raw => Some (json_from_str raw)).
Definition try_toml (path : string) (diags : list TfDiagnostic) : option (option (gmap string string) * list TfDiagnostic) :=
  match files path with
  | None => Some (None, diags)
  | Some (Err e) => Some (None, diags ++ [mk_TfDiagnostic path e])
  | Some (Ok raw) => (fun m => (Some m, diags)) <$> parse_tiny_toml raw
  end.
Definition load_tf_manifests (paths : TfManifestPaths) : option TfManifests :=
  let at_ o rel := default (join_path (root_dir paths) rel) o in
  '(ac, ds) ← try_yaml (at_ (p_agent_contract paths) REL_AGENT_CONTRACT) [];
  '(tm, ds) ← try_yaml (at_ (p_threat_model paths) REL_THREAT_MODEL) ds;
  '(po, ds) ← try_yaml (at_ (p_policy paths) REL_POLICY) ds;
  '(acs, ds) ← try_yaml (at_ (p_actions paths) REL_ACTIONS) ds;
  '(pp, ds) ← try_yaml (at_ (p_proof_profile paths) REL_PROOF_PROFILE) ds;
  '(cf, ds) ← try_json (at_ (p_conformance paths) REL_CONFORMANCE) ds;
  '(cg, ds) ← try_toml (at_ (p_codegen paths) REL_CODEGEN) ds;
  Some (mk_TfManifests ac tm po acs pp cg cf ds).
End load.

(** ** The feature gate *)

Definition text_field (k : string) (v : json) : option string := x ← jget k v; as_str x.
Definition array_at (k : string) (v : option json) : list json := default [] (match v with Some o => match jget k o with Some x => as_array x | None => None end | None => None end).
Definition level_entry (m : gmap string string) (a : json) : gmap string string :=
  match text_field "name" a, text_field "level" a with Some name, Some level => <[name := level]> m | _, _ => m end.
Definition default_level (pp : json) : option string :=
  match text_field "default_proof_level" pp with Some l => Some l | None => text_field "default_level" pp end.
Definition build_feature_gate (ms : TfManifests) : TfFeatureGate :=
  mk_TfFeatureGate (policy ms) (omap as_str (array_at "claimed_profiles" (conformance ms)))
    (match proof_profile ms with Some pp => default_level pp | None => None end) (array_at "anchors" (proof_profile ms))
    (omap (text_field "action") (array_at "forbidden" (agent_contract ms))) (foldl level_entry ∅ (array_at "actions" (proof_profile ms))).

(** ** The gate and the guard *)

Lemma folded_forbidden fs : forall (m : gmap string string) a, a <> "" ->
  is_Some (foldl (fun m f => <[Guard.str_field "action" f := Guard.str_field "reason" f]> m) m fs !! a) <-> is_Some (m !! a) \/ a ∈ omap (text_field "action") fs.
Proof.
  induction fs as [|f fs IH]; intros m a N; cbn [foldl omap list_omap]; [set_solver|]. rewrite IH by done.
  unfold Guard.str_field at 1. change (jget "action" f ≫= as_str) with (text_field "action" f).
  destruct (text_field "action" f) as [b|]; cbn [default from_option id].
  - destruct (decide (a = b)) as [->|D]; [rewrite lookup_insert_eq; set_solver|]. rewrite lookup_insert_ne by congruence. set_solver.
  - by rewrite lookup_insert_ne by congruence.
Qed.
(** the gate built from a contract forbids exactly the actions that the guard
    built from it forbids by name. *)
Theorem gate_forbids_as_guard ms ac a : agent_contract ms = Some ac -> a <> "" ->
  a ∈ forbidden_actions (build_feature_gate ms) <-> is_Some (Guard.forbidden_by_name (Guard.from_contract ac) !! a).
Proof.
  intros E N. cbn. unfold Guard.load_forbidden. rewrite folded_forbidden by done. rewrite E, lookup_empty, is_Some_alt.
  change (array_at "forbidden" (Some ac)) with (Guard.array_field "forbidden" ac). set_solver.
Qed.
Lemma gate_forbids_as_guard_witness :
  "fs.rm" ∈ forbidden_actions (build_feature_gate (mk_TfManifests (Some (JObject [("forbidden", JArray [JObject [("action", JString "fs.rm")]])])) None None None None None None [])).
Proof.
  apply (gate_forbids_as_guard (mk_TfManifests (Some (JObject [("forbidden", JArray [JObject [("action", JString "fs.rm")]])])) None None None None None None [])
    (JObject [("forbidden", JArray [JObject [("action", JString "fs.rm")]])]) "fs.rm" eq_refl); [done|]. vm_compute. by eexists.
Defined.

(** ** Files that cannot be read *)

Lemma try_file_diags files parse path ds v ds' : try_file files parse path ds = Some (v, ds') -> exists more, ds' = ds ++ more.
Proof.
  unfold try_file. destruct (files path) as [r|]; [|intros [= _ <-]; exists []; by rewrite app_nil_r].
  destruct (match r with Err e => Some (Err e) | Ok raw => parse raw end) as [[w|e]|]; cbn; [..|done]; intros [= _ <-]; [exists []; by rewrite app_nil_r|by eexists].
Qed.
Lemma try_toml_diags files path ds v ds' : try_toml files path ds = Some (v, ds') -> exists more, ds' = ds ++ more.
Proof.
  unfold try_toml. destruct (files path) as [[raw|e]|]; [|intros [= _ <-]; by eexists|intros [= _ <-]; exists []; by rewrite app_nil_r].
  destruct (parse_tiny_toml raw); cbn; [|done]. intros [= _ <-]. exists []. by rewrite app_nil_r.
Qed.
Lemma load_diags yaml_error json_from_str files paths ms : load_tf_manifests yaml_error json_from_str files paths = Some ms ->
  exists ds more, try_yaml yaml_error files (default (join_path (root_dir paths) REL_AGENT_CONTRACT) (p_agent_contract paths)) [] = Some (agent_contract ms, ds) /\
  diagnostics ms = ds ++ more.
Proof.
  unfold load_tf_manifests. destruct (try_yaml _ _ _ []) as [[ac d1]|]; [|done]. cbn [mbind option_bind].
  destruct (try_yaml _ _ _ d1) as [[tm d2]|] eqn:E2; [|done]. cbn [mbind option_bind]. destruct (try_yaml _ _ _ d2) as [[po d3]|] eqn:E3; [|done]. cbn [mbind option_bind].
  destruct (try_yaml _ _ _ d3) as [[acs d4]|] eqn:E4; [|done]. cbn [mbind option_bind]. destruct (try_yaml _ _ _ d4) as [[pp d5]|] eqn:E5; [|done]. cbn [mbind option_bind].
  destruct (try_json _ _ _ d5) as [[cf d6]|] eqn:E6; [|done]. cbn [mbind option_bind]. destruct (try_toml _ _ d6) as [[cg d7]|] eqn:E7; [|done]. cbn [mbind option_bind].
  intros [= <-]. apply try_file_diags in E2 as [m2 ->], E3 as [m3 ->], E4 as [m4 ->], E5 as [m5 ->], E6 as [m6 ->]. apply try_toml_diags in E7 as [m7 ->].
  exists d1. cbn. eexists. split; [done|]. by rewrite <-!(assoc_L (++)).
Qed.
(** when the contract is there and cannot be read or is not YAML, loading
    goes on and says so in a diagnostic, and the gate forbids nothing. *)
Theorem broken_contract_forbids_nothing yaml_error json_from_str files paths ms path r : load_tf_manifests yaml_error json_from_str files paths = Some ms ->
  path = default (join_path (root_dir paths) REL_AGENT_CONTRACT) (p_agent_contract paths) -> files path = Some r ->
  match r with Err _ => True | Ok raw => exists e, Yaml.parse raw = Some (Err e) end ->
  forbidden_actions (build_feature_gate ms) = [] /\ exists d, d ∈ diagnostics ms /\ file d = path.
Proof.
  intros Ld -> Fl B. apply load_diags in Ld as (ds & more & T & D). unfold try_yaml, try_file in T. rewrite Fl in T.
  destruct r as [raw|e]; [destruct B as [e B]; rewrite B in T|]; cbn in T; injection T as A <-; (split; [cbn; by rewrite <-A|]);
    (eexists; split; [rewrite D; apply elem_of_app; left; by apply list_elem_of_singleton|done]).
Qed.
Lemma broken_contract_forbids_nothing_witness : exists ms,
  load_tf_manifests (fun _ => "bad") (fun _ => Err "bad") (fun p => if (p =? ".tf/agent-contract.yaml")%string then Some (Err "denied") else None)
    (mk_TfManifestPaths "" None None None None None None None) = Some ms /\ forbidden_actions (build_feature_gate ms) = [].
Proof.
  eexists. split; [vm_compute; reflexivity|].
  apply (broken_contract_forbids_nothing (fun _ => "bad") (fun _ => Err "bad") (fun p => if (p =? ".tf/agent-contract.yaml")%string then Some (Err "denied") else None)
    (mk_TfManifestPaths "" None None None None None None None) _ ".tf/agent-contract.yaml" (Err "denied")); [vm_compute; reflexivity|reflexivity|reflexivity|exact I].
Defined.

(** ** Lines that panic *)

Lemma unquote_none v : unquote v = None <-> v = DQ \/ v = SQ.
Proof.
  unfold unquote, in_quotes. split; [|by intros [->| ->]].
  destruct v as [|c [|d r]]; [done| |by destruct (_ || _)]. cbn. destruct (ascii_dec c (ascii_of_nat 34)) as [->|N]; [by left|].
  destruct (ascii_dec c (ascii_of_nat 39)) as [->|M]; [by right|].
  repeat (case_match; try done; subst).
Qed.

(** The lines on which the reader panics: after the comment and the blanks are
    gone, a key, an equals sign and a single quotation mark. *)
Definition lone_quote (line : string) : Prop :=
  exists k v, ActorId.split_first "=" (trim_str (before_hash line)) = Some (k, v) /\ (trim_str v = DQ \/ trim_str v = SQ).
Lemma read_line_panics line : read_line line = Panics <-> lone_quote line.
Proof.
  unfold read_line, lone_quote. destruct (str_is_empty (trim_str (before_hash line))) eqn:E.
  - split; [done|]. intros (k & v & S & _). destruct (trim_str (before_hash line)); [discriminate S|discriminate E].
  - destruct (ActorId.split_first "=" _) as [[k v]|]; [|split; [done|by intros (? & ? & ? & _)]]. pose proof (unquote_none (trim_str v)) as U.
    destruct (unquote (trim_str v)); (split; [|]); try done.
    + intros (k' & v' & [= <- <-] & H). by apply U in H.
    + intros _. exists k, v. split; [done|]. by apply U.
Qed.
(** the reader of the small TOML file panics exactly when some line of it has
    a single quotation mark for a value; on every other file it returns. *)
Theorem toml_panics_iff raw : parse_tiny_toml raw = None <-> exists line, line ∈ Http.lines raw /\ lone_quote line.
Proof.
  unfold parse_tiny_toml. generalize (∅ : gmap string string). induction (Http.lines raw) as [|l ls IH]; intros m; cbn [read_lines]; [split; [done|set_solver]|].
  pose proof (read_line_panics l) as P. destruct (read_line l) as [|k v|].
  - rewrite IH. split; [set_solver|]. intros (line & [->|I]%elem_of_cons & Q); [by apply P in Q|by exists line].
  - rewrite IH. split; [set_solver|]. intros (line & [->|I]%elem_of_cons & Q); [by apply P in Q|by exists line].
  - split; [|done]. intros _. exists l. split; [set_solver|]. by apply P.
Qed.
(** A value is read without its quotation marks; a hash sign inside them cuts the
    line; a single mark panics. *)
Example toml_lines :
  read_line ("out = " +:+ DQ +:+ "gen/rust" +:+ DQ +:+ " # where") = Entry "out" "gen/rust" /\
  read_line ("url = " +:+ DQ +:+ "http://h/#top" +:+ DQ) = Entry "url" (DQ +:+ "http://h/") /\
  parse_tiny_toml ("out = " +:+ DQ) = None.
Proof. by vm_compute. Qed.

End Manifests.
