(* ===== verification/Aws.v ===== *)
(** * Aws: the bridge to AWS IAM ([crates/bridges/tf-bridge-aws])

    Callers that sign requests are identified by replaying the request to the
    token service; roles become actors; policy documents become capabilities.
    The URL parser, the connection, serde_json and Unicode lower-casing are
    arguments.

    - [sigv4_accepts_iff]: what an identity rests on;
      [https_endpoint_refused], [any_action_replayed]: the endpoint that the
      documentation names, and the requests it means to stop;
    - [arn_parse_iff], [role_actor_unique]: roles and their actors;
    - [policy_exact]: the capabilities of a document, statement by statement;
      [deny_first_resource], [deny_star_misses], [wildcard_deny_unread],
      [not_resource_unconstrained]: what becomes of its denials and limits. *)

From S2P Require Import Prelude Common Utf8 Json Clock Glob ActorId Guard PolicyEngine Session Bridges Registry Mesh Http.

#[local] Open Scope string_scope.
#[local] Open Scope list_scope.
#[local] Open Scope Z_scope.

Module Aws.

Inductive AwsBridgeError :=
| InvalidInput (m : string)
| StsRejected (m : string)
| Network (m : string)
| Policy (m : string)
| Internal (m : string).

(** The headers are a [BTreeMap], so in the order of their names. *)
Record AwsSigV4Request := mk_AwsSigV4Request { method : string; uri : string; headers : list (string * string); body : list Z }.
Record AwsCallerIdentity := mk_AwsCallerIdentity { account : string; user_id : string; arn : string; caller_type : ActorType }.
Record AwsAssumedRoleToken := mk_AwsAssumedRoleToken {
  assumed_role_arn : string; assumed_role_id : string; access_key_id : string; expiration : option string }.

(** ** Names of roles *)

Record ParsedAssumedRoleArn := mk_ParsedAssumedRoleArn { p_account : string; role_name : string; session_name : string }.

Definition parse_assumed_role_arn (arn : string) : result AwsBridgeError ParsedAssumedRoleArn :=
  rest ← ok_or (strip_prefix "arn:aws:sts::" arn) (InvalidInput ("not an STS ARN: " +:+ arn));
  '(account, tail) ← ok_or (Mesh.split_str ":assumed-role/" rest) (InvalidInput ("missing assumed-role: " +:+ arn));
  '(role_name, session_name) ← ok_or (ActorId.split_first "/" tail) (InvalidInput ("missing session in ARN: " +:+ arn));
  if str_is_empty account || str_is_empty role_name || str_is_empty session_name then Err (InvalidInput ("empty segment in ARN: " +:+ arn))
  else Ok (mk_ParsedAssumedRoleArn account role_name session_name).

Definition role_actor_id (p : ParsedAssumedRoleArn) : string :=
  "tf:actor:service:aws.amazon.com/" +:+ p_account p +:+ "/role/" +:+ role_name p +:+ "/" +:+ session_name p.
Definition assume_role_token_to_actor (now : Z) (token : AwsAssumedRoleToken) : result AwsBridgeError Bridges.ActorIdentity :=
  parsed ← parse_assumed_role_arn (assumed_role_arn token);
  Ok (Bridges.mk_ActorIdentity (role_actor_id parsed) AService None [] [T3]
        [Bridges.mk_AuthorityRoot Bridges.Organization ("arn:aws:iam::" +:+ p_account parsed +:+ ":root")] None
        (Bridges.timestamp now) (expiration token) None None).

Definition classify_arn (arn : string) : ActorType :=
  if Registry.contains arn ":user/" then AHuman else if Session.ends_with ":root" arn then AOrganization else AService.

(** ** Asking the token service *)

(** [s.find(pat)] with the texts around it gives both slices. *)
Definition extract_xml_text (xml tag : string) : option string :=
  '(_, rest) ← Mesh.split_str ("<" +:+ tag +:+ ">") xml;
  '(text, _) ← Mesh.split_str ("</" +:+ tag +:+ ">") rest;
  Some (trim_str text).

(** [url::Url], and what [TcpStream] does to a program that writes one request
    and reads to the end. *)
Record Url := mk_Url { host_str : option string; port_or_known_default : option Z; path : string; scheme : string }.
Record net := mk_net {
  stream : Type;
  url_parse : string -> result string Url;
  connect : string -> Z -> result string stream;
  write_all : stream -> list Z -> result string stream;
  read_to_end : stream -> result string (list Z);
  utf8_error : list Z -> string
}.

Definition has_header (name : string) (req : AwsSigV4Request) : bool :=
  existsb (fun kv => Http.eq_ignore_ascii_case kv.1 name) (headers req).
Definition header_text (kv : string * string) : string := kv.1 +:+ ": " +:+ kv.2 +:+ Http.crlf.
Definition request_bytes (host path : string) (req : AwsSigV4Request) : list Z :=
  bytes_of_str ("POST " +:+ path +:+ " HTTP/1.1" +:+ Http.crlf) ++
  (if has_header "host" req then [] else bytes_of_str ("Host: " +:+ host +:+ Http.crlf)) ++
  (if has_header "content-length" req then [] else bytes_of_str ("Content-Length: " +:+ pretty (Z.of_nat (length (body req))) +:+ Http.crlf)) ++
  flat_map (fun kv => bytes_of_str (header_text kv)) (headers req) ++
  bytes_of_str ("Connection: close" +:+ Http.crlf +:+ Http.crlf) ++ body req.

Section sts.
Context (n : net).

Definition parse_get_caller_identity_response (body : list Z) : result AwsBridgeError AwsCallerIdentity :=
  if negb (valid_utf8 body) then Err (Network ("non-utf8 body: " +:+ utf8_error n body)) else
  let xml := str_of_bytes body in
  user_id ← ok_or (extract_xml_text xml "UserId") (StsRejected "missing UserId");
  account ← ok_or (extract_xml_text xml "Account") (StsRejected "missing Account");
  arn ← ok_or (extract_xml_text xml "Arn") (StsRejected "missing Arn");
  Ok (mk_AwsCallerIdentity account user_id arn (classify_arn arn)).

(** The part of [replay_to_sts] before the connection: where to connect to,
    and what to send. *)
Definition replay_target (endpoint : string) (req : AwsSigV4Request) : result AwsBridgeError (string * Z * list Z) :=
  url ← map_err (fun e => InvalidInput ("bad endpoint url: " +:+ e)) (url_parse n endpoint);
  host ← ok_or (host_str url) (InvalidInput "endpoint missing host");
  port ← ok_or (port_or_known_default url) (InvalidInput "endpoint missing port");
  let path := if str_is_empty (path url) then "/" else path url in
  if negb (scheme url =? "http")%string && negb (scheme url =? "https")%string then Err (InvalidInput ("unsupported scheme: " +:+ scheme url))
  else if (scheme url =? "https")%string then
    Err (Internal "https STS endpoint unsupported in this binary; use a smithy-aware caller for production")
  else Ok (host, port, request_bytes host path req).

(** The part after it. *)
Definition read_answer (buf : list Z) : result AwsBridgeError AwsCallerIdentity :=
  split ← ok_or (Http.find_bytes [13; 10; 13; 10] buf) (Network "malformed STS response");
  let head := take split buf in
  let body := drop (split + 4) buf in
  if negb (valid_utf8 head) then Err (Network ("non-utf8 headers: " +:+ utf8_error n head)) else
  let status_line := default "" (hd_error (Http.lines (str_of_bytes head))) in
  if negb (Registry.contains status_line " 200 ") then
    Err (StsRejected (status_line +:+ ": " +:+ str_of_bytes (Http.from_utf8_lossy body)))
  else parse_get_caller_identity_response body.

Definition replay_to_sts (endpoint : string) (req : AwsSigV4Request) : result AwsBridgeError AwsCallerIdentity :=
  '(host, port, bytes) ← replay_target endpoint req;
  stream ← map_err (fun e => Network ("connect: " +:+ e)) (connect n host port);
  stream ← map_err (fun e => Network ("write: " +:+ e)) (write_all n stream bytes);
  buf ← map_err (fun e => Network ("read: " +:+ e)) (read_to_end n stream);
  read_answer buf.

(** The checks before the replay. *)
Definition check_request (req : AwsSigV4Request) : result AwsBridgeError unit :=
  if negb (Http.eq_ignore_ascii_case (method req) "POST") then Err (InvalidInput ("GetCallerIdentity must be POST, got " +:+ method req)) else
  auth_header ← ok_or (snd <$> List.find (fun kv => Http.eq_ignore_ascii_case kv.1 "authorization") (headers req))
    (InvalidInput "missing Authorization header");
  if negb (String.prefix "AWS4-HMAC-SHA256 " auth_header) then Err (InvalidInput ("expected AWS4-HMAC-SHA256 authorization, got " +:+ auth_header))
  else if negb (valid_utf8 (body req)) then Err (InvalidInput ("body not UTF-8: " +:+ utf8_error n (body req)))
  else if negb (Registry.contains (str_of_bytes (body req)) "Action=GetCallerIdentity") then
    Err (InvalidInput "body must call sts:GetCallerIdentity")
  else Ok tt.

Definition verify_aws_sigv4_request (sts_endpoint : string) (req : AwsSigV4Request) : result AwsBridgeError AwsCallerIdentity :=
  _ ← check_request req; replay_to_sts sts_endpoint req.
End sts.

(** ** Policy documents *)

Definition collect_string_or_array (v : option json) : list string :=
  match v with Some (JString s) => [s] | Some (JArray arr) => omap as_str arr | _ => [] end.
Definition resources_to_constraints (resources : list string) : option (list Constraint) :=
  match resources with
  | [] => None
  | _ => if existsb (String.eqb "*") resources then None else Some [Target resources]
  end.

Definition is_ascii_uppercase (c : Z) : bool := (65 <=? c) && (c <=? 90).
Definition lower_char (c : Z) : Z := if is_ascii_uppercase c then c + 32 else c.
(** The characters after the first one. *)
Definition snake_rest (cs : list Z) : list Z := flat_map (fun c => if is_ascii_uppercase c then [95; lower_char c] else [c]) cs.
Definition camel_to_snake (s : string) : string :=
  str_of_chars match chars s with [] => [] | c :: cs => lower_char c :: snake_rest cs end.

Section policy.
Context (to_lowercase : string -> string) (from_str : string -> result string json).

Definition iam_action_to_cap_name (action : string) : string :=
  if (action =? "*")%string then "aws.*"
  else match ActorId.split_first ":" action with
       | None => "aws." +:+ to_lowercase action
       | Some (service, op) =>
         let op_norm := if (op =? "*")%string then "*" else camel_to_snake op in
         "aws." +:+ to_lowercase service +:+ "." +:+ op_norm
       end.

Definition iam_action_risk (action : string) : RiskClass :=
  let lower := to_lowercase action in
  if (action =? "*")%string || Session.ends_with ":*" lower || Registry.contains lower "delete" || Registry.contains lower "put" ||
     Registry.contains lower "create" || Registry.contains lower "modify" || Registry.contains lower "update" ||
     Registry.contains lower "attach" || Registry.contains lower "detach" || Registry.contains lower "write"
  then R3 else R1.

Definition allow_capability (resources : list string) (action : string) : Capability :=
  mk_Capability (iam_action_to_cap_name action) (iam_action_risk action) None None (resources_to_constraints resources) None None None None None.
Definition deny_capability (resources : list string) (sid : option string) (action : string) : Guard.NegativeCapability :=
  Guard.mk_NegativeCapability (iam_action_to_cap_name action) (hd_error resources) sid None.

(** The loop over the actions of a statement, and the one over statements. *)
Fixpoint push_actions (effect : string) (resources : list string) (sid : option string) (actions : list string)
    (acc : list Capability * list Guard.NegativeCapability) : result AwsBridgeError (list Capability * list Guard.NegativeCapability) :=
  match actions with
  | [] => Ok acc
  | action :: actions =>
    let '(allow, deny) := acc in
    if (effect =? "Allow")%string then push_actions effect resources sid actions (allow ++ [allow_capability resources action], deny)
    else if (effect =? "Deny")%string then push_actions effect resources sid actions (allow, deny ++ [deny_capability resources sid action])
    else Err (Policy ("unsupported Effect: " +:+ effect))
  end.
Fixpoint push_statements (stmts : list json) (acc : list Capability * list Guard.NegativeCapability)
    : result AwsBridgeError (list Capability * list Guard.NegativeCapability) :=
  match stmts with
  | [] => Ok acc
  | stmt :: stmts =>
    effect ← ok_or (jget "Effect" stmt ≫= as_str) (Policy "statement missing Effect");
    acc ← push_actions effect (collect_string_or_array (jget "Resource" stmt)) (jget "Sid" stmt ≫= as_str)
            (collect_string_or_array (jget "Action" stmt)) acc;
    push_statements stmts acc
  end.

Definition statements (value : json) : result AwsBridgeError (list json) :=
  stmt_value ← ok_or (jget "Statement" value) (Policy "missing Statement");
  match stmt_value with
  | JArray arr => Ok arr
  | JObject _ => Ok [stmt_value]
  | _ => Err (Policy "Statement must be array or object")
  end.
Definition iam_policy_to_capabilities (iam_policy_doc : string) : result AwsBridgeError (list Capability * list Guard.NegativeCapability) :=
  value ← map_err (fun e => Policy ("invalid policy JSON: " +:+ e)) (from_str iam_policy_doc);
  stmts ← statements value;
  push_statements stmts ([], []).
End policy.

Record AwsBridge := mk_AwsBridge { bridge_id : string; trust_domain : string }.
Definition new (bridge_id account_id : string) : AwsBridge := mk_AwsBridge bridge_id ("aws.amazon.com/" +:+ account_id).
Definition kind (b : AwsBridge) : Bridges.BridgeKind := Bridges.Oauth.

(** ** Names of roles *)

Lemma split_str_Some pat s a b : Mesh.split_str pat s = Some (a, b) -> s = a +:+ pat +:+ b.
Proof.
  revert a. induction s as [|c s IH]; intros a; cbn [Mesh.split_str];
    (destruct (strip_prefix pat _) as [post|] eqn:E; [apply strip_prefix_spec in E; intros [= <- <-]; by rewrite str_app_nil_l|]); [discriminate|].
  destruct (Mesh.split_str pat s) as [[a' b']|]; [|discriminate]. intros [= <- <-]. by rewrite (IH a' eq_refl), str_app_cons.
Qed.

Lemma split_str_app c p a b : ActorId.has c a = false -> Mesh.split_str (String c p) (a +:+ String c p +:+ b) = Some (a, b).
Proof.
  induction a as [|d a IH]; intros H.
  - rewrite str_app_nil_l. unfold Mesh.split_str. destruct (String c p +:+ b) eqn:E; rewrite <- E;
      by rewrite (proj2 (strip_prefix_spec _ _ _) eq_refl).
  - apply orb_false_iff in H as [Hd H]. rewrite str_app_cons. cbn [Mesh.split_str strip_prefix].
    rewrite Ascii.eqb_sym, Hd. by rewrite (IH H).
Qed.

Definition arn_of (p : ParsedAssumedRoleArn) : string :=
  "arn:aws:sts::" +:+ p_account p +:+ ":assumed-role/" +:+ role_name p +:+ "/" +:+ session_name p.
Definition arn_parts_ok (p : ParsedAssumedRoleArn) : Prop :=
  p_account p <> "" /\ role_name p <> "" /\ session_name p <> "" /\ ActorId.has "/" (role_name p) = false.

Lemma str_is_empty_false s : str_is_empty s = false <-> s <> "".
Proof. by destruct s. Qed.

Lemma arn_parsed arn p : parse_assumed_role_arn arn = Ok p -> arn = arn_of p /\ arn_parts_ok p.
Proof.
  unfold parse_assumed_role_arn. intros (rest & ->%ok_or_ok%strip_prefix_spec & H)%bind_ok.
  apply bind_ok in H as ([a tail] & ->%ok_or_ok%split_str_Some & H).
  apply bind_ok in H as ([r s] & [-> Hr]%ok_or_ok%ActorId.split_first_Some & H).
  destruct (str_is_empty a || str_is_empty r || str_is_empty s) eqn:E; [discriminate|]. injection H as <-.
  rewrite !orb_false_iff, !str_is_empty_false in E. destruct E as [[? ?] ?]. done.
Qed.

(** A name of an assumed role is parsed exactly when it is made of an
    account, a role without slashes and a session, none of them empty; the parts
    come back as they were.  (An account has no colon.) *)
Theorem arn_parse_iff arn p (Ha : ActorId.has ":" (p_account p) = false) :
  parse_assumed_role_arn arn = Ok p <-> arn = arn_of p /\ arn_parts_ok p.
Proof.
  split; [apply arn_parsed|]. intros [-> (H1 & H2 & H3 & H4)]. unfold parse_assumed_role_arn, arn_of.
  rewrite (proj2 (strip_prefix_spec _ _ _) eq_refl). cbn [ok_or mbind result_bind].
  rewrite split_str_app by done. cbn [ok_or mbind result_bind]. change ("/" +:+ session_name p) with (String "/" (session_name p)).
  rewrite ActorId.split_first_app by done. cbn [ok_or mbind result_bind].
  rewrite (proj2 (str_is_empty_false _) H1), (proj2 (str_is_empty_false _) H2), (proj2 (str_is_empty_false _) H3). by destruct p.
Qed.

Definition deployer : ParsedAssumedRoleArn := mk_ParsedAssumedRoleArn "111122223333" "deploy" "ci/7".
Lemma arn_parse_iff_witness : parse_assumed_role_arn "arn:aws:sts::111122223333:assumed-role/deploy/ci/7" = Ok deployer.
Proof. apply (arn_parse_iff _ deployer); [reflexivity|]. repeat split; discriminate. Defined.

(** The actors of two assumed roles are the same only for the same account,
    role and session, where accounts have no slash. *)
Theorem role_actor_unique now t t' i i' p p'
    (H : assume_role_token_to_actor now t = Ok i) (H' : assume_role_token_to_actor now t' = Ok i')
    (Hp : parse_assumed_role_arn (assumed_role_arn t) = Ok p) (Hp' : parse_assumed_role_arn (assumed_role_arn t') = Ok p')
    (Ha : ActorId.has "/" (p_account p) = false) (Ha' : ActorId.has "/" (p_account p') = false)
    (E : Bridges.actor_id i = Bridges.actor_id i') :
  assumed_role_arn t = assumed_role_arn t'.
Proof.
  unfold assume_role_token_to_actor in H, H'. rewrite Hp in H. rewrite Hp' in H'. injection H as <-. injection H' as <-.
  cbn [Bridges.actor_id] in E. apply str_app_inv_head in E.
  apply arn_parsed in Hp as [-> (_ & _ & _ & Hr)], Hp' as [-> (_ & _ & _ & Hr')]. destruct p as [a r s], p' as [a' r' s'].
  cbn [p_account role_name session_name] in *. unfold arn_of. cbn [p_account role_name session_name].
  apply (ActorId.split_app_inj "/" a ("role/" +:+ r +:+ "/" +:+ s) a' ("role/" +:+ r' +:+ "/" +:+ s')) in E as [-> E]; [|done..].
  apply str_app_inv_head in E. by apply ActorId.split_app_inj in E as [-> ->].
Qed.

Definition deploy_token : AwsAssumedRoleToken := mk_AwsAssumedRoleToken (arn_of deployer) "id" "key" None.
Lemma role_actor_unique_witness : exists i, assume_role_token_to_actor 0 deploy_token = Ok i /\
  Bridges.actor_id i = "tf:actor:service:aws.amazon.com/111122223333/role/deploy/ci/7" /\ assumed_role_arn deploy_token = assumed_role_arn deploy_token.
Proof.
  eexists. split; [reflexivity|]. split; [reflexivity|].
  eapply (role_actor_unique 0 deploy_token deploy_token); try reflexivity.
Defined.

(** An account with a slash borrows the name of a session. *)
Example slashed_account :
  (i ← assume_role_token_to_actor 0 (mk_AwsAssumedRoleToken "arn:aws:sts::1:assumed-role/a/role/b/c" "" "" None); Ok (Bridges.actor_id i)) =
  (i ← assume_role_token_to_actor 0 (mk_AwsAssumedRoleToken "arn:aws:sts::1/role/a:assumed-role/b/c" "" "" None); Ok (Bridges.actor_id i)).
Proof. reflexivity. Qed.

(** ** Asking the token service *)

(** What is checked of a request before it is sent on. *)
Definition request_checked (req : AwsSigV4Request) : Prop :=
  Http.eq_ignore_ascii_case (method req) "POST" = true /\
  (exists k rest, List.find (fun kv => Http.eq_ignore_ascii_case kv.1 "authorization") (headers req) = Some (k, "AWS4-HMAC-SHA256 " +:+ rest)) /\
  valid_utf8 (body req) = true /\
  exists a b, str_of_bytes (body req) = a +:+ "Action=GetCallerIdentity" +:+ b.

Lemma check_request_ok n req : check_request n req = Ok tt <-> request_checked req.
Proof.
  unfold check_request, request_checked. destruct (Http.eq_ignore_ascii_case (method req) "POST"); cbn [negb]; [|by split; [|intros [? _]]].
  destruct (List.find _ (headers req)) as [[k v]|]; cbn [fmap option_fmap option_map snd ok_or mbind result_bind];
    [|by split; [|intros (_ & (? & ? & ?) & _)]].
  rewrite <- Registry.contains_iff. destruct (String.prefix "AWS4-HMAC-SHA256 " v) eqn:Ep; cbn [negb].
  - apply Registry.str_prefix_app in Ep as (r & ->). destruct (valid_utf8 (body req)); cbn [negb]; [|by split; [|intros (_ & _ & ? & _)]].
    destruct (Registry.contains _ _); cbn [negb]; [|by split; [|intros (_ & _ & _ & ?)]]. split; [|done]. intros _. eauto 10.
  - split; [discriminate|]. intros (_ & (k' & r & [= -> ->]) & _). rewrite (proj2 (Registry.str_prefix_app _ _)) in Ep; [discriminate|by exists r].
Qed.

(** The endpoint is plain HTTP, and the peer at its address answered the request
    as it was sent with the identity. *)
Definition answered (n : net) (endpoint : string) (req : AwsSigV4Request) (id : AwsCallerIdentity) : Prop :=
  exists url host port s s' buf, url_parse n endpoint = Ok url /\ host_str url = Some host /\ port_or_known_default url = Some port /\
  scheme url = "http" /\ connect n host port = Ok s /\
  write_all n s (request_bytes host (if str_is_empty (path url) then "/" else path url) req) = Ok s' /\
  read_to_end n s' = Ok buf /\ read_answer n buf = Ok id.

Lemma replay_target_ok n endpoint req t : replay_target n endpoint req = Ok t <->
  exists url host port, url_parse n endpoint = Ok url /\ host_str url = Some host /\ port_or_known_default url = Some port /\
  scheme url = "http" /\ t = (host, port, request_bytes host (if str_is_empty (path url) then "/" else path url) req).
Proof.
  unfold replay_target. split.
  - intros (url & Hu%map_err_ok & (host & Hh%ok_or_ok & (port & Hp%ok_or_ok & H)%bind_ok)%bind_ok)%bind_ok.
    destruct (String.eqb_spec (scheme url) "http") as [Es|]; [rewrite Es in H; cbn [negb andb] in H|destruct (scheme url =? "https")%string; discriminate].
    injection H as <-. eauto 10.
  - intros (url & host & port & -> & Hh & Hp & Hs & ->). cbn [map_err mbind result_bind]. rewrite Hh, Hp. cbn [ok_or mbind result_bind]. by rewrite Hs.
Qed.

(** A caller is identified exactly when the request is a POST with an
    authorization of the right scheme and a text body that mentions the action,
    the endpoint is plain HTTP, and the peer there answers the replayed request
    with an identity.  Nothing else of the signature is looked at. *)
Theorem sigv4_accepts_iff n endpoint req id :
  verify_aws_sigv4_request n endpoint req = Ok id <-> request_checked req /\ answered n endpoint req id.
Proof.
  unfold verify_aws_sigv4_request, replay_to_sts. split.
  - intros ([] & Hc%check_request_ok & H)%bind_ok. split; [done|].
    apply bind_ok in H as (t & (url & host & port & Hu & Hh & Hp & Hs & ->)%replay_target_ok & H).
    apply bind_ok in H as (s & Hcn%map_err_ok & (s' & Hw%map_err_ok & (buf & Hr%map_err_ok & H)%bind_ok)%bind_ok).
    exists url, host, port, s, s', buf. done.
  - intros [Hc (url & host & port & s & s' & buf & Hu & Hh & Hp & Hs & Hcn & Hw & Hr & H)].
    rewrite (proj2 (check_request_ok n req) Hc). cbn [mbind result_bind].
    rewrite (proj2 (replay_target_ok n endpoint req _)) by eauto 10. cbn [mbind result_bind].
    rewrite Hcn. cbn [map_err mbind result_bind]. rewrite Hw. cbn [map_err mbind result_bind]. by rewrite Hr.
Qed.

(** No caller is ever identified over an HTTPS endpoint, such as the one the
    documentation gives for production. *)
Theorem https_endpoint_refused n endpoint req url
    (Hu : url_parse n endpoint = Ok url) (Hs : scheme url = "https") :
  is_ok (verify_aws_sigv4_request n endpoint req) = false.
Proof.
  destruct (verify_aws_sigv4_request n endpoint req) as [id|] eqn:E; [|done].
  unfold verify_aws_sigv4_request, replay_to_sts in E. apply bind_ok in E as (_ & _ & E).
  apply bind_ok in E as (t & (url' & _ & _ & Hu' & _ & _ & Hs' & _)%replay_target_ok & _). congruence.
Qed.

(** A network with one service, which gives its answer to every request. *)
Definition toy_net (answer : string) : net := {|
  stream := unit;
  url_parse := fun e => if (e =? "https://sts.amazonaws.com/")%string then Ok (mk_Url (Some "sts.amazonaws.com") (Some 443) "/" "https")
                        else Ok (mk_Url (Some "localhost") (Some 80) "" "http");
  connect := fun _ _ => Ok tt; write_all := fun s _ => Ok s; read_to_end := fun _ => Ok (bytes_of_str answer); utf8_error := fun _ => "" |}.
Definition answer_of (body : string) : string := "HTTP/1.1 200 OK" +:+ Http.crlf +:+ "Server: sts" +:+ Http.crlf +:+ Http.crlf +:+ body.
Definition signed (body : string) : AwsSigV4Request :=
  mk_AwsSigV4Request "POST" "/" [("Authorization", "AWS4-HMAC-SHA256 Credential=AKIA")] (bytes_of_str body).
Definition who_body : string := "Action=GetCallerIdentity&Version=2011-06-15".
Definition who_answer : string :=
  answer_of "<UserId>AIDA</UserId><Account>111122223333</Account><Arn> arn:aws:iam::111122223333:user/kim </Arn>".

Lemma https_endpoint_refused_witness :
  is_ok (verify_aws_sigv4_request (toy_net who_answer) "https://sts.amazonaws.com/" (signed who_body)) = false.
Proof. eapply (https_endpoint_refused (toy_net who_answer)); reflexivity. Defined.

Example sigv4_identifies : verify_aws_sigv4_request (toy_net who_answer) "http://localhost/" (signed who_body) =
  Ok (mk_AwsCallerIdentity "111122223333" "AIDA" "arn:aws:iam::111122223333:user/kim" AHuman).
Proof. vm_compute. reflexivity. Qed.

(** A request for another action that mentions the expected one, here as the
    name of a session, passes the checks and is sent on. *)
Example any_action_replayed :
  let req := signed "Action=AssumeRole&RoleArn=r&RoleSessionName=Action=GetCallerIdentity" in
  check_request (toy_net "") req = Ok tt /\ replay_target (toy_net "") "http://localhost/" req = Ok ("localhost", 80, request_bytes "localhost" "/" req).
Proof. split; vm_compute; reflexivity. Qed.

(** ** Policy documents *)

Section policy_proofs.
Context (to_lowercase : string -> string) (from_str : string -> result string json).

Definition effect_of (stmt : json) : option string := jget "Effect" stmt ≫= as_str.
Definition actions_of (stmt : json) : list string := collect_string_or_array (jget "Action" stmt).
Definition resources_of (stmt : json) : list string := collect_string_or_array (jget "Resource" stmt).
Definition sid_of (stmt : json) : option string := jget "Sid" stmt ≫= as_str.
Definition has_effect (e : string) (stmt : json) : bool := bool_decide (effect_of stmt = Some e).

(** What one statement contributes, and the statements that are accepted. *)
Definition allowed_by (stmt : json) : list Capability :=
  if has_effect "Allow" stmt then allow_capability to_lowercase (resources_of stmt) <$> actions_of stmt else [].
Definition denied_by (stmt : json) : list Guard.NegativeCapability :=
  if has_effect "Deny" stmt then deny_capability to_lowercase (resources_of stmt) (sid_of stmt) <$> actions_of stmt else [].
Definition statement_ok (stmt : json) : Prop :=
  exists e, effect_of stmt = Some e /\ (actions_of stmt = [] \/ e = "Allow" \/ e = "Deny").

Lemma push_allow r sid acts al de : push_actions to_lowercase "Allow" r sid acts (al, de) = Ok (al ++ (allow_capability to_lowercase r <$> acts), de).
Proof. revert al. induction acts as [|a acts IH]; intros al; cbn; [by rewrite app_nil_r|]. by rewrite IH, <- app_assoc. Qed.
Lemma push_deny r sid acts al de : push_actions to_lowercase "Deny" r sid acts (al, de) = Ok (al, de ++ (deny_capability to_lowercase r sid <$> acts)).
Proof. revert de. induction acts as [|a acts IH]; intros de; cbn; [by rewrite app_nil_r|]. by rewrite IH, <- app_assoc. Qed.

Lemma push_statement stmt e al de x : effect_of stmt = Some e ->
  push_actions to_lowercase e (resources_of stmt) (sid_of stmt) (actions_of stmt) (al, de) = Ok x <->
  statement_ok stmt /\ x = (al ++ allowed_by stmt, de ++ denied_by stmt).
Proof.
  intros He. unfold statement_ok, allowed_by, denied_by, has_effect. rewrite He.
  destruct (decide (e = "Allow")) as [->|Ha]; [|destruct (decide (e = "Deny")) as [->|Hd]].
  - rewrite push_allow, app_nil_r. split; [intros [= <-]; split; [eauto|done]|by intros [_ ->]].
  - rewrite push_deny, app_nil_r. split; [intros [= <-]; split; [eauto|done]|by intros [_ ->]].
  - rewrite !bool_decide_eq_false_2, !app_nil_r by congruence. destruct (actions_of stmt) as [|a acts]; cbn [push_actions].
    + split; [intros [= <-]; split; [eauto|done]|by intros [_ ->]].
    + rewrite (proj2 (String.eqb_neq _ _) Ha), (proj2 (String.eqb_neq _ _) Hd). split; [discriminate|].
      intros [(e' & [= <-] & [?|[?|?]]) _]; congruence.
Qed.

Lemma push_statements_ok stmts al de x : push_statements to_lowercase stmts (al, de) = Ok x <->
  Forall statement_ok stmts /\ x = (al ++ flat_map allowed_by stmts, de ++ flat_map denied_by stmts).
Proof.
  revert al de. induction stmts as [|s stmts IH]; intros al de; cbn [push_statements flat_map].
  - rewrite !app_nil_r. split; [by intros [= <-]|by intros [_ ->]].
  - rewrite Forall_cons. fold (effect_of s) (sid_of s) (resources_of s) (actions_of s). split.
    + intros (e & He%ok_or_ok & (acc & [Hs ->]%(push_statement _ _ _ _ _ He) & H)%bind_ok)%bind_ok.
      apply IH in H as [Hf ->]. by rewrite <- !app_assoc.
    + intros [[Hs Hf] ->]. pose proof Hs as (e & He & _). rewrite He. cbn [ok_or mbind result_bind].
      rewrite (proj2 (push_statement s e al de _ He) (conj Hs eq_refl)). cbn [mbind result_bind].
      apply IH. by rewrite <- !app_assoc.
Qed.

(** A policy document is translated exactly when it parses, holds its
    statements as an array or one object, and each has an effect that is Allow or
    Deny unless the statement names no action.  The capabilities are then those of
    the statements that allow, and the negative ones those of the statements that
    deny, one per action, in the order of the document. *)
Theorem policy_exact doc allow deny :
  iam_policy_to_capabilities to_lowercase from_str doc = Ok (allow, deny) <->
  exists value stmts, from_str doc = Ok value /\ statements value = Ok stmts /\ Forall statement_ok stmts /\
    allow = flat_map allowed_by stmts /\ deny = flat_map denied_by stmts.
Proof.
  unfold iam_policy_to_capabilities. split.
  - intros (v & Hv%map_err_ok & (stmts & Hs & [Hf [= -> ->]]%push_statements_ok)%bind_ok)%bind_ok. exists v, stmts. done.
  - intros (v & stmts & -> & Hs & Hf & -> & ->). cbn [map_err mbind result_bind]. rewrite Hs. cbn [mbind result_bind]. by apply push_statements_ok.
Qed.

Lemma denied_by_inv stmt neg : neg ∈ denied_by stmt -> Guard.neg_target neg = hd_error (resources_of stmt).
Proof. unfold denied_by. destruct (has_effect "Deny" stmt); [|by intros ?%not_elem_of_nil]. by intros (a & -> & _)%list_elem_of_fmap. Qed.

(** A denial reaches only the first of the resources its statement names: on
    a target that the first pattern does not match, no negative capability of the
    statement applies, in the guard or in the policy engine, whatever the other
    patterns are. *)
Theorem deny_first_resource stmt neg r rs t gq pq
    (Hneg : neg ∈ denied_by stmt) (Hres : resources_of stmt = r :: rs) (Ht : Glob.glob_match r t = false)
    (Hg : Guard.q_target gq = Some t) (Hp : PolicyEngine.pq_target pq = Some t) :
  Guard.negative_matches neg gq = false /\ PolicyEngine.negative_matches neg pq = false.
Proof.
  apply denied_by_inv in Hneg. rewrite Hres in Hneg. unfold Guard.negative_matches, PolicyEngine.negative_matches.
  rewrite Hneg, Hg, Hp. cbn [hd_error]. rewrite Ht. split; case_match; done.
Qed.

Lemma glob_star t : Glob.glob_match "*" t = true <-> Glob.SLASH ∉ chars t.
Proof.
  unfold Glob.glob_match. rewrite Glob.run_spec. assert (Glob.tokenize (chars "*") = [Glob.AnySegment]) as -> by done.
  rewrite Glob.matches_cons. setoid_rewrite Glob.matches_nil. split.
  - intros (w & r & -> & H & ->) Hin. rewrite app_nil_r in Hin. cbn [Glob.tok_matches] in H. rewrite Forall_forall in H. by apply (H _ Hin).
  - intros H. exists (chars t), []. rewrite app_nil_r. split_and!; [done| |done]. apply Forall_forall. by intros c Hc ->.
Qed.

(** A denial on every resource (a star) does not apply to a target with a
    slash in its name, while an allowance on every resource is not limited at
    all. *)
Theorem deny_star_misses stmt neg t gq pq
    (Hneg : neg ∈ denied_by stmt) (Hres : resources_of stmt = ["*"]) (Ht : Glob.SLASH ∈ chars t)
    (Hg : Guard.q_target gq = Some t) (Hp : PolicyEngine.pq_target pq = Some t) :
  Guard.negative_matches neg gq = false /\ PolicyEngine.negative_matches neg pq = false /\ resources_to_constraints (resources_of stmt) = None.
Proof.
  apply denied_by_inv in Hneg. rewrite Hres in Hneg |- *. unfold Guard.negative_matches, PolicyEngine.negative_matches.
  rewrite Hneg, Hg, Hp. cbn [hd_error]. assert (Glob.glob_match "*" t = false) as ->.
  { apply not_true_iff_false. rewrite glob_star. intros H. exact (H Ht). }
  split_and!; [case_match; done..|done].
Qed.

(** A statement that limits its resources by exclusion ([NotResource]), and
    so has no [Resource], allows its actions without limit. *)
Theorem not_resource_unconstrained stmt cap (Hcap : cap ∈ allowed_by stmt) (Hres : jget "Resource" stmt = None) : cap_constraints cap = None.
Proof.
  unfold allowed_by in Hcap. destruct (has_effect "Allow" stmt); [|by apply not_elem_of_nil in Hcap].
  apply list_elem_of_fmap in Hcap as (a & -> & _). unfold resources_of. by rewrite Hres.
Qed.
End policy_proofs.

(** ** Documents as they are found *)

Definition statement1 (effect : string) (action resource : json) (resource_key : string) : json :=
  JObject [("Sid", JString "s1"); ("Effect", JString effect); ("Action", action); (resource_key, resource)].
Definition document (stmts : list json) : string -> result string json := fun _ => Ok (JObject [("Version", JString "2012-10-17"); ("Statement", JArray stmts)]).
Definition two_buckets : json := statement1 "Deny" (JString "s3:DeleteObject") (JArray [JString "arn:aws:s3:::a/x"; JString "arn:aws:s3:::b/x"]) "Resource".
Definition never_delete : json := statement1 "Deny" (JString "s3:DeleteObject") (JString "*") "Resource".
Definition all_but_secrets : json := statement1 "Allow" (JArray [JString "s3:GetObject"; JString "s3:*"]) (JString "arn:aws:s3:::secrets/*") "NotResource".
Definition delete_from (t : string) : Guard.GuardQuery := Guard.mk_GuardQuery None None "aws.s3.delete_object" (Some t).
Definition deletes_from (action t : string) : PolicyEngine.PolicyQuery := PolicyEngine.mk_PolicyQuery "tf:actor:a" None action (Some t) ∅ [] None None.
Definition no_delete (r : string) : Guard.NegativeCapability := Guard.mk_NegativeCapability "aws.s3.delete_object" (Some r) (Some "s1") None.

(** The second bucket of the statement is not protected. *)
Lemma deny_first_resource_witness :
  denied_by ActorId.to_ascii_lowercase two_buckets = [no_delete "arn:aws:s3:::a/x"] /\
  Guard.negative_matches (no_delete "arn:aws:s3:::a/x") (delete_from "arn:aws:s3:::a/x") = true /\
  Guard.negative_matches (no_delete "arn:aws:s3:::a/x") (delete_from "arn:aws:s3:::b/x") = false.
Proof.
  split; [vm_compute; reflexivity|]. split; [vm_compute; reflexivity|].
  eapply (deny_first_resource ActorId.to_ascii_lowercase two_buckets _ "arn:aws:s3:::a/x" ["arn:aws:s3:::b/x"] "arn:aws:s3:::b/x" _
    (deletes_from "aws.s3.delete_object" "arn:aws:s3:::b/x")); [|reflexivity|vm_compute; reflexivity|reflexivity|reflexivity].
  apply list_elem_of_singleton. reflexivity.
Defined.

Lemma deny_star_misses_witness :
  denied_by ActorId.to_ascii_lowercase never_delete = [no_delete "*"] /\
  Guard.negative_matches (no_delete "*") (delete_from "arn:aws:s3:::a/x") = false.
Proof.
  split; [vm_compute; reflexivity|].
  eapply (deny_star_misses ActorId.to_ascii_lowercase never_delete _ "arn:aws:s3:::a/x" _
    (deletes_from "aws.s3.delete_object" "arn:aws:s3:::a/x")); [|reflexivity| |reflexivity|reflexivity].
  - apply list_elem_of_singleton. reflexivity.
  - vm_compute. repeat constructor.
Defined.

Lemma not_resource_unconstrained_witness : exists cap, cap ∈ allowed_by ActorId.to_ascii_lowercase all_but_secrets /\
  cap_name cap = "aws.s3.get_object" /\ cap_constraints cap = None.
Proof.
  exists (allow_capability ActorId.to_ascii_lowercase [] "s3:GetObject").
  assert (allow_capability ActorId.to_ascii_lowercase [] "s3:GetObject" ∈ allowed_by ActorId.to_ascii_lowercase all_but_secrets) as H.
  { apply list_elem_of_here. }
  split; [done|]. split; [vm_compute; reflexivity|]. eapply (not_resource_unconstrained _ all_but_secrets); [exact H|reflexivity].
Defined.

(** A denial of every action of a service stops the guard, which reads its name
    as a pattern; the policy engine compares names, and goes on. *)
Example wildcard_deny_unread :
  let deny := deny_capability ActorId.to_ascii_lowercase [] None "s3:*" in
  Guard.negative_matches deny (delete_from "arn:aws:s3:::a/x") = true /\
  PolicyEngine.negative_matches deny (deletes_from "aws.s3.delete_object" "arn:aws:s3:::a/x") = false.
Proof. split; vm_compute; reflexivity. Qed.

(** A pattern that covers deletions has the risk of a read. *)
Example partial_wildcard_risk :
  iam_action_risk ActorId.to_ascii_lowercase "s3:D*" = R1 /\ iam_action_risk ActorId.to_ascii_lowercase "s3:*" = R3 /\
  iam_action_risk ActorId.to_ascii_lowercase "s3:DeleteObject" = R3 /\ iam_action_to_cap_name ActorId.to_ascii_lowercase "s3:D*" = "aws.s3.d*".
Proof. repeat split; vm_compute; reflexivity. Qed.

Example policy_translated :
  iam_policy_to_capabilities ActorId.to_ascii_lowercase (document [all_but_secrets; two_buckets]) "" =
  Ok ([mk_Capability "aws.s3.get_object" R1 None None None None None None None None; mk_Capability "aws.s3.*" R3 None None None None None None None None],
      [no_delete "arn:aws:s3:::a/x"]) /\
  iam_policy_to_capabilities ActorId.to_ascii_lowercase (document [statement1 "deny" (JString "s3:*") (JString "*") "Resource"]) "" =
  Err (Policy "unsupported Effect: deny").
Proof. split; vm_compute; reflexivity. Qed.

End Aws.
