(* ===== verification/CloudTokens.v ===== *)
(** * CloudTokens: the bridges to Google Cloud and Azure
      ([crates/bridges/tf-bridge-gcp], [tf-bridge-azure])

    The two crates have the same verifier: RS256 tokens, checked with keys that
    are fetched from an endpoint and kept for a while.  It is modelled once, with
    the claims as an argument, and instantiated twice.  The HTTP client's answer
    and serde are arguments; [jws.rs] is [Jws].

    - [jwks_recent]: the keys in use came in the answer at hand or in one that is
      younger than the limit, however calls interleave;
    - [token_proves]: what an accepted token proves;
      [google_identity_proves], [azure_actor_proves]: the identities made of it;
    - [service_account_unique], [azure_actor_unique]: names of actors;
    - [unknown_role_grants_nothing_known]: roles the tables do not list. *)

From S2P Require Import Prelude Common Json Clock Glob ActorId Base64 Jws OAuth Bridges Registry.

#[local] Open Scope string_scope.
#[local] Open Scope list_scope.
#[local] Open Scope Z_scope.

Module CloudTokens.
#[local] Existing Instances Jws.Algorithm_eq_dec.

(** [GcpBridgeError], [AzureBridgeError]. *)
Inductive CloudError :=
| InvalidInput (m : string)
| JwksError (m : string)
| Rejected (m : string)
| Internal (m : string).

(** ** Keys and their cache *)

Record CloudJwk := mk_CloudJwk { kid : string; n : string; e : string; alg : option string; kty : option string; use_ : option string }.
(** [Instant]s are nanoseconds of a clock that does not go back. *)
Record CachedJwks := mk_CachedJwks { fetched_at : Z; keys : list CloudJwk }.
Record Verifier := mk_Verifier { jwks_url : string; issuer : string; audience : list string; cache_ttl_seconds : Z }.
Definition new (jwks_url issuer : string) (audience : list string) : Verifier := mk_Verifier jwks_url issuer audience 600.
Definition with_cache_ttl (secs : Z) (v : Verifier) : Verifier := mk_Verifier (jwks_url v) (issuer v) (audience v) secs.

(** What [self.http.get(url).send()] gives: an error, or a status with its text
    and the body as serde reads it. *)
Record Response := mk_Response { status : Z; status_text : string; json_keys : result string (list CloudJwk) }.
Definition is_success (status : Z) : bool := (200 <=? status) && (status <? 300).
Definition elapsed_secs (since now : Z) : Z := Z.max (now - since) 0 / 1000000000.

(** The look at the cache, the reading of the answer, and the store: the lock is
    held for the first and for the last, not in between. *)
Definition cached_keys (v : Verifier) (cached : option CachedJwks) (now : Z) : option (list CloudJwk) :=
  c ← cached; if elapsed_secs (fetched_at c) now <? cache_ttl_seconds v then Some (keys c) else None.
Definition read_jwks (resp : result string Response) : result CloudError (list CloudJwk) :=
  resp ← map_err (fun e => JwksError ("get: " +:+ e)) resp;
  if negb (is_success (status resp)) then Err (JwksError ("JWKS endpoint returned " +:+ status_text resp))
  else map_err (fun e => JwksError ("parse: " +:+ e)) (json_keys resp).
(** An answer that arrives, with the time the code reads then. *)
Record arrival := mk_arrival { arrived_at : Z; answer : result string Response }.
Definition store (cached : option CachedJwks) (a : arrival) : option CachedJwks :=
  match read_jwks (answer a) with Ok ks => Some (mk_CachedJwks (arrived_at a) ks) | Err _ => cached end.
(** One call: [asked] is when it looks, [own] the answer it gets if it asks, and
    [others] what other calls store while it waits. *)
Definition fetch_keys (v : Verifier) (cached : option CachedJwks) (asked : Z) (others : list arrival) (own : arrival)
    : option CachedJwks * result CloudError (list CloudJwk) :=
  match cached_keys v cached asked with
  | Some ks => (cached, Ok ks)
  | None => (store (foldl store cached others) own, read_jwks (answer own))
  end.

(** ** Tokens *)

Section verify.
Context (x : Jws.jws_lib) {T : Type} (claims_of : json -> result string T) (debug : string -> string).

Definition check_header (family jwt : string) : result CloudError string :=
  if str_is_empty jwt then Err (InvalidInput "empty token") else
  header ← map_err (fun e => Rejected ("malformed: " +:+ OAuth.display_jws e)) (Jws.decode_header x jwt);
  if negb (match Jws.algorithm header with Ok a => bool_decide (a = Jws.RS256) | Err _ => false end) then
    Err (Rejected (family +:+ " require RS256, got " +:+ debug (Jws.alg header)))
  else ok_or (Jws.kid header) (Rejected "missing kid").

Definition validation (v : Verifier) : Jws.Validation :=
  let va := Jws.set_issuer (Jws.new_validation Jws.RS256) [issuer v] in
  match audience v with [] => va | _ => Jws.set_audience va (audience v) end.

Definition check_token (v : Verifier) (jwt : string) (now : Z) (kid_ : string) (ks : list CloudJwk) : result CloudError T :=
  jwk ← ok_or (List.find (fun k => (kid k =? kid_)%string) ks) (Rejected ("no JWK with kid " +:+ kid_));
  key ← map_err (fun e => Internal ("bad RSA components: " +:+ OAuth.display_jws e)) (Jws.from_rsa_components x (n jwk) (e jwk));
  data ← map_err (fun e => Rejected ("verify failed: " +:+ OAuth.display_jws e)) (Jws.decode claims_of jwt key (validation v) now);
  Ok (Jws.claims data).

(** [verify] up to the claims: the new cache and the claims. *)
Definition verified_claims (family : string) (v : Verifier) (cached : option CachedJwks) (jwt : string) (now asked : Z) (others : list arrival)
    (own : arrival) : option CachedJwks * result CloudError T :=
  match check_header family jwt with
  | Err e => (cached, Err e)
  | Ok kid =>
    match fetch_keys v cached asked others own with
    | (cached, Err e) => (cached, Err e)
    | (cached, Ok ks) => (cached, check_token v jwt now kid ks)
    end
  end.
End verify.

(** The audience as one text. *)
Definition aud_text (aud : json) : string :=
  match aud with
  | JString s => s
  | JArray (a :: _) => unwrap_or (as_str a) ""
  | _ => ""
  end.

(** ** Google Cloud *)

Definition GOOGLE_ISSUER : string := "https://accounts.google.com".
Definition GOOGLE_JWKS_URL : string := "https://www.googleapis.com/oauth2/v3/certs".
Definition google (audience : list string) : Verifier := new GOOGLE_JWKS_URL GOOGLE_ISSUER audience.

Record GcpClaims := mk_GcpClaims {
  g_iss : string; g_sub : string; g_aud : json; g_email : option string; g_email_verified : option json; g_hd : option string; g_azp : option string;
  g_exp : Z; g_iat : Z; g_extra : list (string * json) }.
Record GcpIdentity := mk_GcpIdentity {
  gi_iss : string; gi_sub : string; gi_aud : string; gi_email : option string; gi_email_verified : bool; gi_hd : option string; gi_azp : option string;
  gi_exp : Z; gi_iat : Z; gi_raw : json }.
Definition email_verified (o : option json) : bool :=
  match o with Some (JBool b) => b | Some (JString s) => (s =? "true")%string | _ => false end.
(** [to_value] is serde_json's, [Null] where it fails. *)
Definition gcp_identity (to_value : GcpClaims -> json) (c : GcpClaims) : GcpIdentity :=
  mk_GcpIdentity (g_iss c) (g_sub c) (aud_text (g_aud c)) (g_email c) (email_verified (g_email_verified c)) (g_hd c) (g_azp c) (g_exp c) (g_iat c) (to_value c).
Definition verify_gcp_id_token (x : Jws.jws_lib) (claims_of : json -> result string GcpClaims) (debug : string -> string) (to_value : GcpClaims -> json)
    (v : Verifier) (cached : option CachedJwks) (jwt : string) (now asked : Z) (others : list arrival) (own : arrival)
    : option CachedJwks * result CloudError GcpIdentity :=
  let '(cached, r) := verified_claims x claims_of debug "Google ID tokens" v cached jwt now asked others own in
  (cached, c ← r; Ok (gcp_identity to_value c)).

Record GcpServiceAccountInfo := mk_GcpServiceAccountInfo { sa_email : string; project_id : option string; unique_id : option string }.
Definition infer_project_from_email (email : string) : option string :=
  domain ← Jws.split "@" email !! 1%nat; Registry.strip_suffix ".iam.gserviceaccount.com" domain.
Definition sa_actor_id (project local : string) : string := "tf:actor:service:gcp.googleapis.com/" +:+ project +:+ "/sa/" +:+ local.
Definition service_account_to_actor (now : Z) (sa : GcpServiceAccountInfo) : result CloudError Bridges.ActorIdentity :=
  if str_is_empty (sa_email sa) then Err (InvalidInput "empty SA email") else
  project ← ok_or (match project_id sa with Some p => Some p | None => infer_project_from_email (sa_email sa) end)
    (InvalidInput ("cannot infer project from SA email " +:+ sa_email sa));
  let local := unwrap_or (hd_error (Jws.split "@" (sa_email sa))) (sa_email sa) in
  Ok (Bridges.mk_ActorIdentity (sa_actor_id project local) AService None [] [T3]
        [Bridges.mk_AuthorityRoot Bridges.Organization ("projects/" +:+ project)] None (Bridges.timestamp now) None None None).

Definition unknown_role_to_action_static (role : string) : string := "gcp.unknown_role.*".
Definition gcp_roles : list (string * list (string * RiskClass)) := [
  ("roles/storage.objectViewer", [("gcp.storage.get_object", R1); ("gcp.storage.list_objects", R1)]);
  ("roles/storage.objectAdmin", [("gcp.storage.get_object", R1); ("gcp.storage.list_objects", R1); ("gcp.storage.create_object", R3);
                                 ("gcp.storage.delete_object", R3); ("gcp.storage.update_object", R3)]);
  ("roles/storage.objectCreator", [("gcp.storage.create_object", R3)]);
  ("roles/storage.admin", [("gcp.storage.*", R3)]);
  ("roles/iam.serviceAccountUser", [("gcp.iam.actas_service_account", R3)]);
  ("roles/iam.serviceAccountTokenCreator", [("gcp.iam.create_service_account_token", R3)]);
  ("roles/iam.workloadIdentityUser", [("gcp.iam.workload_identity", R3)]);
  ("roles/secretmanager.secretAccessor", [("gcp.secretmanager.access_secret", R2)]);
  ("roles/secretmanager.admin", [("gcp.secretmanager.*", R3)]);
  ("roles/pubsub.publisher", [("gcp.pubsub.publish", R2)]);
  ("roles/pubsub.subscriber", [("gcp.pubsub.consume", R1); ("gcp.pubsub.ack", R1)]);
  ("roles/cloudfunctions.invoker", [("gcp.cloudfunctions.invoke", R2)]);
  ("roles/run.invoker", [("gcp.run.invoke", R2)]);
  ("roles/owner", [("gcp.*", R5)]);
  ("roles/editor", [("gcp.*", R4)]);
  ("roles/viewer", [("gcp.*.get", R1); ("gcp.*.list", R1)])].
Definition plain_capability (nr : string * RiskClass) : Capability := mk_Capability nr.1 nr.2 None None None None None None None None.
Definition gcp_role_to_actions (role : string) : list (string * RiskClass) :=
  default [(unknown_role_to_action_static role, R3)] (assoc role gcp_roles).
Definition gcp_iam_role_to_capabilities (role : string) : list Capability := plain_capability <$> gcp_role_to_actions role.

Record CloudBridge := mk_CloudBridge { bridge_id : string; trust_domain : string }.
Definition gcp_bridge (bridge_id project_id : string) : CloudBridge := mk_CloudBridge bridge_id ("gcp.googleapis.com/" +:+ project_id).

(** ** Azure *)

Definition azure_jwks_url (tenant : string) : string := "https://login.microsoftonline.com/" +:+ tenant +:+ "/discovery/v2.0/keys".
Definition azure_issuer (tenant : string) : string := "https://login.microsoftonline.com/" +:+ tenant +:+ "/v2.0".
Definition for_tenant (tenant : string) (audience : list string) : Verifier := new (azure_jwks_url tenant) (azure_issuer tenant) audience.

Record AzureClaims := mk_AzureClaims {
  a_iss : string; a_sub : string; a_oid : option string; a_tid : option string; a_aud : json; a_appid : option string; a_upn : option string;
  a_email : option string; a_roles : option (list string); a_idtyp : option string; a_exp : Z; a_iat : Z; a_extra : list (string * json) }.
Record AzureIdentity := mk_AzureIdentity {
  ai_iss : string; ai_sub : string; ai_oid : option string; ai_tid : option string; ai_aud : string; ai_appid : option string; ai_upn : option string;
  ai_email : option string; ai_roles : list string; ai_idtyp : option string; ai_exp : Z; ai_iat : Z; ai_raw : json }.
Definition azure_identity (to_value : AzureClaims -> json) (c : AzureClaims) : AzureIdentity :=
  mk_AzureIdentity (a_iss c) (a_sub c) (a_oid c) (a_tid c) (aud_text (a_aud c)) (a_appid c) (a_upn c) (a_email c) (unwrap_or (a_roles c) []) (a_idtyp c)
    (a_exp c) (a_iat c) (to_value c).
Definition verify_azure_jwt (x : Jws.jws_lib) (claims_of : json -> result string AzureClaims) (debug : string -> string) (to_value : AzureClaims -> json)
    (v : Verifier) (cached : option CachedJwks) (jwt : string) (now asked : Z) (others : list arrival) (own : arrival)
    : option CachedJwks * result CloudError AzureIdentity :=
  let '(cached, r) := verified_claims x claims_of debug "Azure tokens" v cached jwt now asked others own in
  (cached, c ← r; Ok (azure_identity to_value c)).

Definition is_app (claims : AzureIdentity) : bool :=
  bool_decide (ai_idtyp claims = Some "app") || bool_decide (is_Some (ai_appid claims)) && bool_decide (ai_upn claims = None).
Definition azure_actor_id (type_segment tid oid : string) : string := "tf:actor:" +:+ type_segment +:+ ":login.microsoftonline.com/" +:+ tid +:+ "/" +:+ oid.
Definition managed_identity_to_actor (now : Z) (claims : AzureIdentity) : result CloudError Bridges.ActorIdentity :=
  tid ← ok_or (ai_tid claims) (InvalidInput "missing tid claim");
  oid ← ok_or (match ai_oid claims with Some o => Some o | None => Some (ai_sub claims) end) (InvalidInput "missing oid/sub");
  let '(actor_type, type_segment) := if is_app claims then (AService, "service") else (AHuman, "human") in
  Ok (Bridges.mk_ActorIdentity (azure_actor_id type_segment tid oid) actor_type None [] [T3]
        [Bridges.mk_AuthorityRoot Bridges.Organization ("azure-tenant:" +:+ tid)] None
        (Bridges.timestamp now) (Some (Bridges.timestamp (ai_exp claims))) None None).

Definition azure_roles : list (string * list (string * RiskClass)) := [
  ("Reader", [("azure.*.read", R1)]);
  ("Contributor", [("azure.*", R4)]);
  ("Owner", [("azure.*", R5)]);
  ("User Access Administrator", [("azure.authorization.*", R5)]);
  ("Storage Blob Data Reader", [("azure.storage.read_blob", R1); ("azure.storage.list_blobs", R1)]);
  ("Storage Blob Data Contributor", [("azure.storage.read_blob", R1); ("azure.storage.list_blobs", R1); ("azure.storage.write_blob", R3);
                                     ("azure.storage.delete_blob", R3)]);
  ("Storage Blob Data Owner", [("azure.storage.*", R3)]);
  ("Key Vault Secrets User", [("azure.keyvault.get_secret", R2)]);
  ("Key Vault Secrets Officer", [("azure.keyvault.get_secret", R2); ("azure.keyvault.set_secret", R3); ("azure.keyvault.delete_secret", R3)]);
  ("Key Vault Administrator", [("azure.keyvault.*", R5)]);
  ("Virtual Machine Contributor", [("azure.compute.virtualmachines.*", R4)]);
  ("Network Contributor", [("azure.network.*", R4)]);
  ("Monitoring Reader", [("azure.monitor.read", R1)]);
  ("Log Analytics Reader", [("azure.loganalytics.read", R1)])].
Definition azure_role_to_actions (role : string) : list (string * RiskClass) := default [("azure.unknown_role.*", R3)] (assoc role azure_roles).
Definition azure_role_assignment_to_capabilities (role : string) : list Capability := plain_capability <$> azure_role_to_actions role.
Definition azure_bridge (bridge_id tenant : string) : CloudBridge := mk_CloudBridge bridge_id ("login.microsoftonline.com/" +:+ tenant).

(** ** Which keys are in use *)

(** The cache after the answers of [l] have been stored, in this order. *)
Definition cache_after (l : list arrival) : option CachedJwks := foldl store None l.

Lemma cache_after_some l c : cache_after l = Some c -> exists a, a ∈ l /\ arrived_at a = fetched_at c /\ read_jwks (answer a) = Ok (keys c).
Proof.
  induction l as [|a l IH] using rev_ind; [discriminate|]. unfold cache_after. rewrite foldl_app. cbn [foldl]. unfold store at 1.
  destruct (read_jwks (answer a)) as [ks|] eqn:E.
  - intros [= <-]. exists a. split; [set_solver|done].
  - intros H. destruct (IH H) as (b & Hb & H'). exists b. split; [set_solver|done].
Qed.

(** The keys a call uses: those of an answer younger than the limit, or of its
    own answer. *)
Definition recent (v : Verifier) (l : list arrival) (asked : Z) (own : arrival) (ks : list CloudJwk) : Prop :=
  (exists a, a ∈ l /\ read_jwks (answer a) = Ok ks /\ elapsed_secs (arrived_at a) asked < cache_ttl_seconds v) \/ read_jwks (answer own) = Ok ks.

Lemma fetch_keys_recent v l asked others own c ks :
  fetch_keys v (cache_after l) asked others own = (c, Ok ks) ->
  recent v l asked own ks /\ (c = cache_after l \/ c = cache_after (l ++ others ++ [own])).
Proof.
  unfold fetch_keys, cached_keys. destruct (cache_after l) as [cj|] eqn:E; cbn [mbind option_bind].
  - destruct (Z.ltb_spec (elapsed_secs (fetched_at cj) asked) (cache_ttl_seconds v)) as [H|_].
    + intros [= <- <-]. apply cache_after_some in E as (a & Ha & Ht & Hr). split; [|by left]. left. exists a. by rewrite Ht.
    + intros [= <- H]. split; [by right|]. right. unfold cache_after in *. by rewrite !foldl_app, E.
  - intros [= <- H]. split; [by right|]. right. unfold cache_after in *. by rewrite !foldl_app, E.
Qed.

(** However the calls of a verifier interleave, the keys a call checks a
    token with came in its own answer, or in an answer that arrived less than the
    limit before it looked; and the cache it leaves is again that of a sequence of
    answers.  A key that the endpoint has withdrawn is so used for at most the
    limit after the last answer that held it. *)
Theorem jwks_recent v l asked others own c ks (H : fetch_keys v (cache_after l) asked others own = (c, Ok ks)) :
  ((exists a, a ∈ l /\ read_jwks (answer a) = Ok ks /\ asked - arrived_at a < cache_ttl_seconds v * 1000000000) \/ read_jwks (answer own) = Ok ks) /\
  exists l', c = cache_after l' /\ (forall a, a ∈ l' -> a ∈ l \/ a ∈ others \/ a = own).
Proof.
  apply fetch_keys_recent in H as [H Hc]. split.
  - destruct H as [(a & Ha & Hr & Hl)|H]; [left|by right]. exists a. split; [done|]. split; [done|].
    unfold elapsed_secs in Hl. pose proof (Z.div_mod (Z.max (asked - arrived_at a) 0) 1000000000).
    pose proof (Z.mod_pos_bound (Z.max (asked - arrived_at a) 0) 1000000000). lia.
  - destruct Hc as [->| ->]; [exists l; auto|]. exists (l ++ others ++ [own]). split; [done|]. intros a. set_solver.
Qed.

(** ** What an accepted token proves *)

(** The token is the compact form of a header that names RS256 and a key id, a
    payload and a signature; a key of [ks] has this id and is an RSA key under
    which the signature verifies; the payload names the issuer of the verifier,
    is not expired, and names one of the audiences if there are any. *)
Definition token_proves (x : Jws.jws_lib) {T} (claims_of : json -> result string T) (v : Verifier) (now : Z) (jwt : string) (ks : list CloudJwk) (c : T) : Prop :=
  exists hb pb sb h id jwk (k : Jws.rsa_key x) s cv,
    jwt = Jws.compact hb pb sb /\ Jws.header_from_slice x hb = Ok h /\ Jws.algorithm h = Ok Jws.RS256 /\ Jws.kid h = Some id /\
    jwk ∈ ks /\ kid jwk = id /\ Jws.from_rsa_components x (n jwk) (e jwk) = Ok (Jws.Rsa k) /\
    Jws.rsa_sig_from x sb = Some s /\ Jws.rsa_verify x Jws.Sha256 k (bytes_of_str (Jws.signing_input hb pb)) s = true /\
    Jws.value_from_slice x pb = Ok cv /\ claims_of cv = Ok c /\ jget "iss" cv = Some (JString (issuer v)) /\
    (exists ex, jget "exp" cv ≫= Jws.as_u64 = Some ex /\ now <= ex) /\
    (audience v <> [] -> exists a, a ∈ audience v /\ (jget "aud" cv = Some (JString a) \/ exists arr, jget "aud" cv = Some (JArray arr) /\ JString a ∈ arr)).

Lemma from_rsa_rsa x a b key : Jws.from_rsa_components x a b = Ok key -> exists k, key = Jws.Rsa k.
Proof. unfold Jws.from_rsa_components. intros (? & _ & (? & _ & (k & _ & [= <-])%bind_ok)%bind_ok)%bind_ok. by exists k. Qed.

Lemma decode_header_compact x hb pb sb : is_bytes hb -> is_bytes pb -> is_bytes sb ->
  Jws.decode_header x (Jws.compact hb pb sb) = map_err (fun e => Jws.Malformed ("header JSON: " +:+ e)) (Jws.header_from_slice x hb).
Proof.
  intros Hh Hp Hs. unfold Jws.decode_header. rewrite Jws.split_compact by done. cbn [head ok_or mbind result_bind]. unfold Jws.header_of.
  by rewrite (proj2 (Jws.b64_decode_iff _ _) (conj Hh eq_refl)).
Qed.

Lemma cloud_header_ok x debug family jwt id : check_header x debug family jwt = Ok id ->
  exists h, Jws.decode_header x jwt = Ok h /\ Jws.algorithm h = Ok Jws.RS256 /\ Jws.kid h = Some id.
Proof.
  unfold check_header. destruct (str_is_empty jwt); [discriminate|]. intros (h & Hd%map_err_ok & H)%bind_ok. exists h. split; [done|].
  destruct (Jws.algorithm h) as [a|]; [|discriminate]. destruct (bool_decide (a = Jws.RS256)) eqn:E; [|discriminate].
  apply bool_decide_eq_true in E as ->. by apply ok_or_ok in H.
Qed.

Lemma validation_fields v : Jws.algorithms (validation v) = [Jws.RS256] /\ Jws.validate_exp (validation v) = true /\ Jws.leeway (validation v) = 0 /\
  Jws.issuer (validation v) = Some [issuer v] /\ (audience v <> [] -> Jws.audience (validation v) = Some (audience v)).
Proof. unfold validation. by destruct (audience v). Qed.

Lemma check_token_ok x {T} (claims_of : json -> result string T) v jwt now id ks h c :
  0 <= now <= Jws.u64_max -> Jws.decode_header x jwt = Ok h -> Jws.algorithm h = Ok Jws.RS256 -> Jws.kid h = Some id ->
  check_token x claims_of v jwt now id ks = Ok c -> token_proves x claims_of v now jwt ks c.
Proof.
  intros Hnow Hd Ha Hk. unfold check_token. intros (jwk & Hf%ok_or_ok & H)%bind_ok. apply List.find_some in Hf as [Hin%list_elem_of_In Hid%String.eqb_eq].
  apply bind_ok in H as (key & Hkey%map_err_ok & (d & Hdec%map_err_ok & [= <-])%bind_ok). pose proof Hkey as [k ->]%from_rsa_rsa.
  apply Jws.decode_inv in Hdec as (hb & pb & sb & Hhb & Hpb & Hsb & -> & (a & cv & Hh & Ha' & Hin' & Hacc & Hcv & Hval & Hcl)); [|done].
  destruct (validation_fields v) as (Ealg & Eexp & Elee & Eiss & Eaud).
  rewrite Ealg in Hin'. apply list_elem_of_singleton in Hin' as ->. destruct Hacc as (s & Hs & Hv).
  rewrite decode_header_compact, Hh in Hd by done. injection Hd as <-. destruct Hval as [V1 _ V3 V4].
  exists hb, pb, sb, (Jws.header d), id, jwk, k, s, cv. split_and!; try done.
  - destruct (V3 _ Eiss) as (i & Hi & ->%list_elem_of_singleton). done.
  - destruct (V1 Eexp) as (ex & Hex & Hle). exists ex. split; [done|]. lia.
  - intros Hne. exact (V4 _ (Eaud Hne)).
Qed.

Lemma verified_claims_ok x {T} (claims_of : json -> result string T) debug family v l jwt now asked others own c cl :
  0 <= now <= Jws.u64_max -> verified_claims x claims_of debug family v (cache_after l) jwt now asked others own = (c, Ok cl) ->
  exists ks, recent v l asked own ks /\ token_proves x claims_of v now jwt ks cl.
Proof.
  intros Hnow. unfold verified_claims. destruct (check_header x debug family jwt) as [id|] eqn:Eh; [|discriminate].
  destruct (fetch_keys v (cache_after l) asked others own) as [c' [ks|]] eqn:Ef; [|discriminate]. intros [= _ H].
  apply fetch_keys_recent in Ef as [Hr _]. apply cloud_header_ok in Eh as (h & H1 & H2 & H3). exists ks. split; [done|]. by eapply check_token_ok.
Qed.

(** serde reads the members of the claims as they are. *)
Definition gcp_reads (claims_of : json -> result string GcpClaims) : Prop := forall cv c, claims_of cv = Ok c ->
  jget "iss" cv = Some (JString (g_iss c)) /\ jget "exp" cv ≫= Jws.as_u64 = Some (g_exp c).
Definition azure_reads (claims_of : json -> result string AzureClaims) : Prop := forall cv c, claims_of cv = Ok c ->
  jget "iss" cv = Some (JString (a_iss c)) /\ jget "exp" cv ≫= Jws.as_u64 = Some (a_exp c).

(** A Google identity is returned only for a token of the configured issuer
    that is not expired and that a recently served RSA key signed with RS256; the
    identity repeats the issuer and the expiry, and its email counts as verified
    only if the token says so. *)
Theorem google_identity_proves x claims_of debug to_value v l jwt now asked others own c id
    (Hserde : gcp_reads claims_of) (Hnow : 0 <= now <= Jws.u64_max)
    (H : verify_gcp_id_token x claims_of debug to_value v (cache_after l) jwt now asked others own = (c, Ok id)) :
  exists ks cl, recent v l asked own ks /\ token_proves x claims_of v now jwt ks cl /\
    gi_iss id = issuer v /\ now <= gi_exp id /\ gi_sub id = g_sub cl /\ gi_email id = g_email cl /\
    (gi_email_verified id = true <-> g_email_verified cl = Some (JBool true) \/ g_email_verified cl = Some (JString "true")).
Proof.
  unfold verify_gcp_id_token in H. destruct (verified_claims _ _ _ _ _ _ _ _ _ _ _) as [c' [cl|]] eqn:E; [|discriminate]. injection H as <- <-.
  apply verified_claims_ok in E as (ks & Hr & Ht); [|done]. exists ks, cl. split; [done|]. split; [done|].
  destruct Ht as (hb & pb & sb & h & i & jwk & k & s & cv & _ & _ & _ & _ & _ & _ & _ & _ & _ & _ & Hcl & Hiss & (ex & Hex & Hle) & _).
  destruct (Hserde _ _ Hcl) as [H1 H2]. rewrite Hiss in H1. injection H1 as H1. rewrite Hex in H2. injection H2 as ->.
  split; [exact (eq_sym H1)|]. split; [done|]. split; [done|]. split; [done|]. cbn [gcp_identity gi_email_verified]. unfold email_verified.
  destruct (g_email_verified cl) as [[| [] | |t| |]|]; try (by split; [|intros [?|?]]); try (by split; [auto|]).
  rewrite String.eqb_eq. split; [intros ->; auto|]. by intros [?|[= ->]].
Qed.

(** An Azure actor is made only of a token of the configured issuer that a
    recently served RSA key signed with RS256.  It is a service exactly for app
    tokens; its tenant is the one the token names; and at the time of the check
    its validity has not ended. *)
Theorem azure_actor_proves x claims_of debug to_value v l jwt now asked others own c id actor
    (Hserde : azure_reads claims_of) (Hnow : Clock.in_range now)
    (H : verify_azure_jwt x claims_of debug to_value v (cache_after l) jwt now asked others own = (c, Ok id))
    (Hexp : Clock.in_range (ai_exp id)) (Hactor : managed_identity_to_actor now id = Ok actor) :
  exists ks cl tid, recent v l asked own ks /\ token_proves x claims_of v now jwt ks cl /\ ai_iss id = issuer v /\ a_tid cl = Some tid /\
    Bridges.actor_id actor = azure_actor_id (if is_app id then "service" else "human") tid (unwrap_or (a_oid cl) (a_sub cl)) /\
    (Bridges.actor_type actor = AService <-> is_app id = true) /\
    exists until, Bridges.valid_until actor = Some until /\ str_lt until (Bridges.valid_from actor) = false.
Proof.
  unfold verify_azure_jwt in H. destruct (verified_claims _ _ _ _ _ _ _ _ _ _ _) as [c' [cl|]] eqn:E; [|discriminate]. injection H as <- <-.
  apply verified_claims_ok in E as (ks & Hr & Ht); [|unfold Clock.in_range in Hnow; unfold Jws.u64_max; lia].
  unfold managed_identity_to_actor in Hactor. apply bind_ok in Hactor as (tid & Htid%ok_or_ok & Hactor). exists ks, cl, tid. split; [done|]. split; [done|].
  destruct Ht as (hb & pb & sb & h & i & jwk & k & s & cv & _ & _ & _ & _ & _ & _ & _ & _ & _ & _ & Hcl & Hiss & (ex & Hex & Hle) & _).
  destruct (Hserde _ _ Hcl) as [H1 H2]. rewrite Hiss in H1. injection H1 as H1. rewrite Hex in H2. injection H2 as ->.
  split; [exact (eq_sym H1)|]. split; [exact Htid|]. cbn [azure_identity ai_oid ai_sub ai_exp] in *.
  assert (ok_or (match a_oid cl with Some o => Some o | None => Some (a_sub cl) end) (InvalidInput "missing oid/sub") =
          Ok (unwrap_or (a_oid cl) (a_sub cl))) as Eo by by destruct (a_oid cl).
  rewrite Eo in Hactor. cbn [mbind result_bind] in Hactor.
  assert (str_lt (Bridges.timestamp (a_exp cl)) (Bridges.timestamp now) = false) as Ht.
  { unfold Clock.in_range in *. unfold Bridges.timestamp, Clock.as_i64. rewrite !Z.mod_small by lia.
    replace (a_exp cl + 2 ^ 63 - 2 ^ 63) with (a_exp cl) by lia. replace (now + 2 ^ 63 - 2 ^ 63) with now by lia.
    unfold str_lt, String.ltb. rewrite Clock.now_compare by done. by destruct (Z.compare_spec (a_exp cl) now); [|lia|]. }
  destruct (is_app _); injection Hactor as <-; (split; [done|]; split; [done|]); eexists; (split; [reflexivity|exact Ht]).
Qed.

(** ** Names of actors *)

(** Two Azure tokens give the same actor only for the same tenant, the same
    object (or subject) and the same type of actor, where tenants have no
    slash. *)
Theorem azure_actor_unique now i i' a a' t t' (H : managed_identity_to_actor now i = Ok a) (H' : managed_identity_to_actor now i' = Ok a')
    (Ht : ai_tid i = Some t) (Ht' : ai_tid i' = Some t') (Hs : ActorId.has "/" t = false) (Hs' : ActorId.has "/" t' = false)
    (E : Bridges.actor_id a = Bridges.actor_id a') :
  t = t' /\ unwrap_or (ai_oid i) (ai_sub i) = unwrap_or (ai_oid i') (ai_sub i') /\ Bridges.actor_type a = Bridges.actor_type a'.
Proof.
  unfold managed_identity_to_actor in H, H'. rewrite Ht in H. rewrite Ht' in H'. cbn [ok_or mbind result_bind] in H, H'.
  assert (forall j : AzureIdentity, ok_or (match ai_oid j with Some o => Some o | None => Some (ai_sub j) end) (InvalidInput "missing oid/sub") =
          Ok (unwrap_or (ai_oid j) (ai_sub j))) as Eo by (intros j; by destruct (ai_oid j)).
  rewrite Eo in H, H'. cbn [mbind result_bind] in H, H'.
  destruct (is_app i), (is_app i'); injection H as <-; injection H' as <-; cbn [Bridges.actor_id Bridges.actor_type] in *; try discriminate;
    apply str_app_inv_head, str_app_inv_head, str_app_inv_head in E; by apply ActorId.split_app_inj in E as [-> ->].
Qed.

(** An email address with one at sign, whose domain has no slash. *)
Definition plain_email (s : string) : Prop :=
  exists local domain, s = local +:+ "@" +:+ domain /\ ActorId.has "@" local = false /\ ActorId.has "@" domain = false /\ ActorId.has "/" domain = false.

(** Two service accounts known by their addresses alone have the same actor
    only if the addresses are the same. *)
Theorem service_account_unique now s s' i i' (H : service_account_to_actor now s = Ok i) (H' : service_account_to_actor now s' = Ok i')
    (Hp : project_id s = None) (Hp' : project_id s' = None) (He : plain_email (sa_email s)) (He' : plain_email (sa_email s'))
    (E : Bridges.actor_id i = Bridges.actor_id i') :
  sa_email s = sa_email s'.
Proof.
  assert (forall s i, service_account_to_actor now s = Ok i -> project_id s = None -> plain_email (sa_email s) ->
    exists local project, sa_email s = local +:+ "@" +:+ project +:+ ".iam.gserviceaccount.com" /\ ActorId.has "/" project = false /\
    Bridges.actor_id i = sa_actor_id project local) as Hinv.
  { clear. intros s i H Hp (local & domain & Es & Hl & Hd & Hsl). unfold service_account_to_actor in H.
    destruct (str_is_empty (sa_email s)); [discriminate|]. rewrite Hp in H. apply bind_ok in H as (project & Hpr%ok_or_ok & [= <-]).
    unfold infer_project_from_email in Hpr. rewrite Es in Hpr |- *. change ("@" +:+ domain) with (String "@" domain) in Hpr |- *.
    rewrite Jws.split_cons, Jws.split_none in Hpr |- * by done. cbn in Hpr. apply Registry.strip_suffix_spec in Hpr as ->.
    exists local, project. rewrite ActorId.has_app in Hsl. apply orb_false_iff in Hsl as [Hsl _]. done. }
  destruct (Hinv s i H Hp He) as (l & p & -> & Hs & Ei), (Hinv s' i' H' Hp' He') as (l' & p' & -> & Hs' & Ei').
  rewrite Ei, Ei' in E. apply str_app_inv_head in E.
  apply (ActorId.split_app_inj "/" p ("sa/" +:+ l) p' ("sa/" +:+ l')) in E as [-> E]; [|done..]. by apply str_app_inv_head in E as ->.
Qed.

(** ** Roles *)

Definition listed (roles : list (string * list (string * RiskClass))) : list string := (roles.*2 ≫= fun l => l.*1).

(** A role the tables do not list gives one capability, which covers none of
    the actions that a listed role gives. *)
Theorem unknown_role_grants_nothing_known role :
  (assoc role gcp_roles = None -> forall cap a, cap ∈ gcp_iam_role_to_capabilities role -> a ∈ listed gcp_roles -> Glob.glob_match (cap_name cap) a = false) /\
  (assoc role azure_roles = None -> forall cap a, cap ∈ azure_role_assignment_to_capabilities role -> a ∈ listed azure_roles -> Glob.glob_match (cap_name cap) a = false).
Proof.
  assert (forallb (fun a => negb (Glob.glob_match "gcp.unknown_role.*" a)) (listed gcp_roles) = true) as Hg by (vm_compute; reflexivity).
  assert (forallb (fun a => negb (Glob.glob_match "azure.unknown_role.*" a)) (listed azure_roles) = true) as Ha by (vm_compute; reflexivity).
  rewrite forallb_forall in Hg, Ha. split; intros H cap a Hc Hin%list_elem_of_In.
  - unfold gcp_iam_role_to_capabilities, gcp_role_to_actions in Hc. rewrite H in Hc. apply list_elem_of_singleton in Hc as ->. by apply negb_true_iff, Hg.
  - unfold azure_role_assignment_to_capabilities, azure_role_to_actions in Hc. rewrite H in Hc. apply list_elem_of_singleton in Hc as ->. by apply negb_true_iff, Ha.
Qed.

(** Owners cover every listed action; the names of what a viewer may do cover
    none of the reads the other roles give. *)
Example owner_and_viewer :
  forallb (Glob.glob_match "gcp.*") (listed gcp_roles) = true /\ forallb (Glob.glob_match "azure.*") (listed azure_roles) = true /\
  existsb (fun c => existsb (Glob.glob_match (cap_name c)) (cap_name <$> gcp_iam_role_to_capabilities "roles/storage.objectViewer"))
    (gcp_iam_role_to_capabilities "roles/viewer") = false.
Proof. repeat split; vm_compute; reflexivity. Qed.

(** ** Witnesses *)

(** A library in which RSA signatures are a function of the message. *)
Definition cloud_toy (value : json) : Jws.jws_lib := {|
  Jws.ed_key := list Z; Jws.p256_key := list Z; Jws.p384_key := list Z; Jws.rsa_key := Z * Z; Jws.ed_secret := list Z; Jws.p256_secret := list Z;
  Jws.ed_sig := list Z; Jws.p256_sig := list Z; Jws.p384_sig := list Z; Jws.rsa_sig := list Z;
  Jws.ed_from_bytes := Ok; Jws.p256_from_sec1 := Ok; Jws.p384_from_sec1 := Ok; Jws.rsa_new := fun n e => Ok (n, e);
  Jws.ed_sig_from := Some; Jws.p256_sig_from := Some; Jws.p384_sig_from := Some; Jws.rsa_sig_from := Some;
  Jws.ed_verify := fun _ _ _ => false; Jws.p256_verify := fun _ _ _ => false; Jws.p384_verify := fun _ _ _ => false;
  Jws.rsa_verify := fun _ k m s => bool_decide (s = Jws.toy_sign [k.1] m);
  Jws.ed_from_pem := fun s => Ok (bytes_of_str s); Jws.p256_from_pem := fun s => Ok (bytes_of_str s);
  Jws.ed_sign := Jws.toy_sign; Jws.p256_sign := Jws.toy_sign;
  Jws.header_from_slice := fun bs => Ok (Jws.mk_Header (str_of_bytes bs) (Some "k1") (Some "JWT") None);
  Jws.header_to_vec := fun h => Ok (bytes_of_str (Jws.alg h));
  Jws.value_from_slice := fun bs => Ok value
|}.
Definition jwk1 : CloudJwk := mk_CloudJwk "k1" "Bw" "AQ" (Some "RS256") (Some "RSA") None.
Definition served1 (t : Z) : arrival := mk_arrival t (Ok (mk_Response 200 "200 OK" (Ok [jwk1]))).
Definition no_answer : arrival := mk_arrival 0 (Err "down").
Definition token1 : string :=
  Jws.compact (bytes_of_str "RS256") [1] (Jws.toy_sign [7] (bytes_of_str (Jws.signing_input (bytes_of_str "RS256") [1]))).

Definition str_member (k : string) (v : json) : option string := jget k v ≫= as_str.
Definition claims_toy_gcp (v : json) : result string GcpClaims :=
  match jget "iss" v, jget "exp" v ≫= Jws.as_u64 with
  | Some (JString i), Some ex => Ok (mk_GcpClaims i (default "" (str_member "sub" v)) (default JNull (jget "aud" v)) (str_member "email" v)
                                        (jget "email_verified" v) None None ex 0 [])
  | _, _ => Err "missing field"
  end.
Definition claims_toy_azure (v : json) : result string AzureClaims :=
  match jget "iss" v, jget "exp" v ≫= Jws.as_u64 with
  | Some (JString i), Some ex => Ok (mk_AzureClaims i (default "" (str_member "sub" v)) (str_member "oid" v) (str_member "tid" v) (default JNull (jget "aud" v))
                                        (str_member "appid" v) (str_member "upn" v) None None None ex 0 [])
  | _, _ => Err "missing field"
  end.
Lemma claims_toy_gcp_reads : gcp_reads claims_toy_gcp.
Proof. intros cv c. unfold claims_toy_gcp. destruct (jget "iss" cv) as [[| | |i| |]|], (jget "exp" cv ≫= Jws.as_u64) as [ex|]; try discriminate. by intros [= <-]. Qed.
Lemma claims_toy_azure_reads : azure_reads claims_toy_azure.
Proof. intros cv c. unfold claims_toy_azure. destruct (jget "iss" cv) as [[| | |i| |]|], (jget "exp" cv ≫= Jws.as_u64) as [ex|]; try discriminate. by intros [= <-]. Qed.

Definition google_claims : json := JObject [("iss", JString GOOGLE_ISSUER); ("sub", JString "1"); ("exp", jint 100);
  ("aud", JArray [JString "other"; JString "mine"]); ("email", JString "kim@example.org"); ("email_verified", JString "true")].
Definition azure_claims : json := JObject [("iss", JString (azure_issuer "t1")); ("sub", JString "s"); ("oid", JString "o1"); ("tid", JString "t2"); ("exp", jint 100);
  ("aud", JString "mine"); ("appid", JString "app")].
Definition minute : Z := 60 * 1000000000.

Lemma jwks_recent_witness : fetch_keys (google []) (cache_after [served1 0]) minute [] no_answer = (cache_after [served1 0], Ok [jwk1]) /\
  exists l', cache_after [served1 0] = cache_after l' /\ (forall a, a ∈ l' -> a ∈ [served1 0] \/ a ∈ [] \/ a = no_answer).
Proof.
  split; [vm_compute; reflexivity|]. refine (proj2 (jwks_recent (google []) [served1 0] minute [] no_answer _ [jwk1] _)). vm_compute. reflexivity.
Defined.

Definition google_run : option CachedJwks * result CloudError GcpIdentity :=
  verify_gcp_id_token (cloud_toy google_claims) claims_toy_gcp (fun s => s) (fun _ => JNull) (google ["mine"]) (cache_after [served1 0]) token1 50 minute [] no_answer.
(** The audience reported is the first of the token, here not the one that was
    asked for. *)
Definition google_id : GcpIdentity := mk_GcpIdentity GOOGLE_ISSUER "1" "other" (Some "kim@example.org") true None None 100 0 JNull.
Lemma google_identity_proves_witness : google_run = (cache_after [served1 0], Ok google_id) /\
  exists ks, recent (google ["mine"]) [served1 0] minute no_answer ks.
Proof.
  split; [vm_compute; reflexivity|].
  edestruct (google_identity_proves (cloud_toy google_claims) claims_toy_gcp (fun s => s) (fun _ => JNull) (google ["mine"]) [served1 0] token1 50 minute [] no_answer
    (cache_after [served1 0]) google_id claims_toy_gcp_reads) as (ks & cl & H & _); [unfold Jws.u64_max; lia|vm_compute; reflexivity|].
  exists ks. exact H.
Defined.

(** The tenant of the actor is the token's, whatever tenant the verifier is
    for. *)
Definition azure_id : AzureIdentity :=
  mk_AzureIdentity (azure_issuer "t1") "s" (Some "o1") (Some "t2") "mine" (Some "app") None None [] None 100 0 JNull.
Lemma azure_actor_proves_witness : exists actor, managed_identity_to_actor 50 azure_id = Ok actor /\
  Bridges.actor_id actor = "tf:actor:service:login.microsoftonline.com/t2/o1" /\ ai_iss azure_id = issuer (for_tenant "t1" ["mine"]).
Proof.
  eexists. split; [reflexivity|]. split; [reflexivity|].
  edestruct (azure_actor_proves (cloud_toy azure_claims) claims_toy_azure (fun s => s) (fun _ => JNull) (for_tenant "t1" ["mine"]) [served1 0] token1 50 minute [] no_answer
    (cache_after [served1 0]) azure_id) as (ks & cl & t & _ & _ & H & _); [exact claims_toy_azure_reads|unfold Clock.in_range; lia|vm_compute; reflexivity|
    unfold Clock.in_range, azure_id, ai_exp; lia|reflexivity|].
  exact H.
Defined.

Definition azure_user : AzureIdentity := mk_AzureIdentity "i" "s" None (Some "t2") "" None None None [] None 100 0 JNull.
Lemma azure_actor_unique_witness : exists a, managed_identity_to_actor 0 azure_user = Ok a /\ "t2" = "t2" /\ Bridges.actor_type a = Bridges.actor_type a.
Proof.
  eexists. split; [reflexivity|].
  edestruct (azure_actor_unique 0 azure_user azure_user) as (H1 & _ & H2); try reflexivity. split; [exact H1|exact H2].
Defined.

Definition builder : GcpServiceAccountInfo := mk_GcpServiceAccountInfo "build@prod.iam.gserviceaccount.com" None None.
Lemma service_account_unique_witness : exists i, service_account_to_actor 0 builder = Ok i /\
  Bridges.actor_id i = "tf:actor:service:gcp.googleapis.com/prod/sa/build" /\ sa_email builder = sa_email builder.
Proof.
  assert (plain_email (sa_email builder)) as He by (exists "build", "prod.iam.gserviceaccount.com"; done).
  eexists. split; [reflexivity|]. split; [reflexivity|]. eapply (service_account_unique 0 builder builder); try reflexivity; exact He.
Defined.

Lemma unknown_role_grants_nothing_known_witness : Glob.glob_match "gcp.unknown_role.*" "gcp.storage.get_object" = false.
Proof.
  refine (proj1 (unknown_role_grants_nothing_known "roles/none") _ (plain_capability ("gcp.unknown_role.*", R3)) _ _ _); [reflexivity|apply list_elem_of_here|apply list_elem_of_here].
Defined.

End CloudTokens.
