(* ===== verification/SecretStores.v ===== *)
(** * SecretStores: the bridges to HashiCorp Vault and Doppler
      ([crates/bridges/tf-bridge-vault], [tf-bridge-doppler])

    What a token of a secret store becomes: an actor, and capabilities to read
    secrets.  The clients are arguments: the answer to a look-up, or the response
    of the HTTP call with its body as serde reads it.

    - [vault_actor_unique]: which tokens share an actor;
    - [vault_secret_exact]: the capability of a path is for this path only, where
      the path has no star;
    - [vault_only_root_reads]: the policies that cover reading a secret;
    - [doppler_actor_iff]: when a token gives an actor, for which the answer need
      say nothing about it. *)

From S2P Require Import Prelude Common Utf8 Glob ActorId Jws Bridges Webhook.

#[local] Open Scope string_scope.
#[local] Open Scope list_scope.
#[local] Open Scope Z_scope.

Module SecretStores.

(** ** Vault *)

Inductive VaultBridgeError :=
| VaultInvalidInput (m : string)
| VaultRejected (m : string)
| VaultNetwork (m : string)
| VaultInternal (m : string).

Record VaultTokenInfo := mk_VaultTokenInfo {
  accessor : string; display_name : string; entity_id : option string; policies : list string; ttl : Z; renewable : bool; orphan : bool; path : string;
  namespace : option string }.

(** The trait [VaultLookup]. *)
Class VaultLookup (L : Type) := { lookup_self : L -> result VaultBridgeError VaultTokenInfo }.

(** The answer of [vaultrs::token::lookup_self]. *)
Record LookupTokenResponse := mk_LookupTokenResponse {
  r_accessor : string; r_display_name : string; r_entity_id : string; r_policies : list string; r_ttl : Z; r_renewable : bool; r_orphan : bool; r_path : string }.
Record VaultrsLookup := mk_VaultrsLookup { client : result string LookupTokenResponse }.
#[global] Instance vaultrs_lookup : VaultLookup VaultrsLookup := {|
  lookup_self self :=
    resp ← map_err (fun e => VaultRejected ("lookup-self: " +:+ e)) (client self);
    Ok (mk_VaultTokenInfo (r_accessor resp) (r_display_name resp) (if str_is_empty (r_entity_id resp) then None else Some (r_entity_id resp))
          (r_policies resp) (r_ttl resp) (r_renewable resp) (r_orphan resp) (r_path resp) None)
|}.

Definition is_lower_digit (c : Z) : bool := (97 <=? c) && (c <=? 122) || (48 <=? c) && (c <=? 57).
Definition segment_char (c : Z) : Z := if Webhook.is_ascii_alphanumeric c || (c =? 45) || (c =? 46) then c else 95.
Definition sanitise_segment (s : string) : string := str_of_chars (segment_char <$> chars s).
Definition action_char (c : Z) : Z := if is_lower_digit c || (c =? 95) then c else if (65 <=? c) && (c <=? 90) then c + 32 else 95.
Definition sanitise_action_segment (s : string) : string := str_of_chars (action_char <$> chars s).

Definition vault_actor_id (cluster : string) (info : VaultTokenInfo) : string :=
  "tf:actor:service:vault." +:+ sanitise_segment cluster +:+ "/" +:+ match namespace info with Some n => sanitise_segment n | None => "root" end
  +:+ "/" +:+ accessor info.
Definition vault_token_to_actor {L} `{VaultLookup L} (lookup : L) (now : Z) (cluster : string)
    : result VaultBridgeError (Bridges.ActorIdentity * VaultTokenInfo) :=
  info ← lookup_self lookup;
  if str_is_empty (accessor info) then Err (VaultRejected "vault returned empty accessor") else
  Ok (Bridges.mk_ActorIdentity (vault_actor_id cluster info) AService None [] [T3]
        [Bridges.mk_AuthorityRoot Bridges.Organization ("vault-cluster:" +:+ cluster)] None (Bridges.timestamp now) None None None, info).

(** [str::trim_matches]. *)
Fixpoint trim_start_of (c : Z) (cs : list Z) : list Z := match cs with d :: ds => if d =? c then trim_start_of c ds else cs | [] => [] end.
Definition trim_slashes (s : string) : string := str_of_chars (reverse (trim_start_of 47 (reverse (trim_start_of 47 (chars s))))).
Definition read_capability (name target : string) : Capability := mk_Capability name R2 None None (Some [Target [target]]) None None None None None.
Definition vault_target (mount path : string) : string :=
  let mount := trim_slashes mount in
  let path := trim_slashes path in
  if str_is_empty path then mount +:+ "/" else mount +:+ "/" +:+ path.
Definition vault_secret_path_to_capability (mount path : string) : Capability := read_capability "vault.kv.read" (vault_target mount path).

Definition plain (name : string) (risk : RiskClass) : Capability := mk_Capability name risk None None None None None None None None.
Definition policy_capability (p : string) : Capability :=
  if (p =? "root")%string then plain "vault.*" R5
  else if (p =? "default")%string then plain "vault.token.*" R1
  else plain ("vault.policy." +:+ sanitise_action_segment p) R3.
Definition vault_policies_to_capabilities (policies : list string) : list Capability := policy_capability <$> policies.

(** ** Doppler *)

Definition DOPPLER_API_BASE : string := "https://api.doppler.com".
Inductive DopplerBridgeError :=
| DopplerInvalidInput (m : string)
| DopplerRejected (m : string)
| DopplerNetwork (m : string)
| DopplerInternal (m : string).
Inductive DopplerTokenType := Service | ServiceAccount | Personal | Other (s : string).
Record DopplerTokenInfo := mk_DopplerTokenInfo {
  slug : string; name : string; workplace_id : string; workplace_name : string; project : option string; config : option string; token_type : DopplerTokenType }.
Record MeWorkplace := mk_MeWorkplace { w_id : string; w_name : string; w_slug : option string }.
Record MeResponse := mk_MeResponse {
  me_slug : option string; me_name : option string; me_workplace : option MeWorkplace; me_project : option string; me_config : option string;
  me_type : option string }.
Record Response := mk_Response { status : Z; status_text : string; json_me : result string MeResponse }.

Definition classify_token (token : string) : DopplerTokenType :=
  if String.prefix "dp.st." token then Service
  else if String.prefix "dp.sa." token then ServiceAccount
  else if String.prefix "dp.pt." token then Personal
  else match strip_prefix "dp." token with
       | Some rest => Other (unwrap_or (hd_error (Jws.split "." rest)) "unknown")
       | None => Other "unknown"
       end.
Definition or_unknown (s : string) : string := if str_is_empty s then "unknown" else s.
Definition unwrap_or_default_workplace (w : MeWorkplace) : MeWorkplace := mk_MeWorkplace (or_unknown (w_id w)) (or_unknown (w_name w)) (w_slug w).

(** [resp] is what the call to [/v3/me] with the token gives. *)
Definition introspect (token : string) (resp : result string Response) : result DopplerBridgeError DopplerTokenInfo :=
  if str_is_empty token then Err (DopplerInvalidInput "empty token") else
  let token_type := classify_token token in
  resp ← map_err (fun e => DopplerNetwork ("get /v3/me: " +:+ e)) resp;
  if (status resp =? 401) || (status resp =? 403) then Err (DopplerRejected ("doppler rejected token: " +:+ status_text resp))
  else if negb ((200 <=? status resp) && (status resp <? 300)) then Err (DopplerNetwork ("/v3/me returned " +:+ status_text resp))
  else
    me ← map_err (fun e => DopplerNetwork ("parse /v3/me: " +:+ e)) (json_me resp);
    let workplace := unwrap_or_default_workplace (unwrap_or (me_workplace me) (mk_MeWorkplace "" "" None)) in
    Ok (mk_DopplerTokenInfo (unwrap_or (me_slug me) "") (unwrap_or (me_name me) "") (w_id workplace) (w_name workplace) (me_project me) (me_config me) token_type).

Definition doppler_char (c : Z) : Z := if Webhook.is_ascii_alphanumeric c || (c =? 45) || (c =? 46) || (c =? 95) then c else 95.
Definition doppler_segment (s : string) : string := str_of_chars (doppler_char <$> chars s).
Definition doppler_actor_id (info : DopplerTokenInfo) : string :=
  "tf:actor:service:doppler.com/" +:+ doppler_segment (workplace_id info) +:+ "/" +:+ doppler_segment (unwrap_or (project info) "any") +:+ "/" +:+
  doppler_segment (unwrap_or (config info) "any") +:+ "/" +:+ doppler_segment (if str_is_empty (slug info) then "anonymous" else slug info).
Definition doppler_token_to_actor (now : Z) (info : DopplerTokenInfo) : result DopplerBridgeError Bridges.ActorIdentity :=
  if str_is_empty (workplace_id info) then Err (DopplerRejected "doppler returned empty workplace id") else
  Ok (Bridges.mk_ActorIdentity (doppler_actor_id info) AService None [] [T3]
        [Bridges.mk_AuthorityRoot Bridges.Organization ("doppler-workplace:" +:+ workplace_id info)] None (Bridges.timestamp now) None None None).
Definition doppler_secret_to_capability (project config secret : string) : Capability :=
  read_capability "doppler.kv.read" ("doppler://" +:+ doppler_segment project +:+ "/" +:+ doppler_segment config +:+ "/" +:+ secret).
Definition doppler_service_token_to_actor (now : Z) (token : string) (resp : result string Response)
    : result DopplerBridgeError (Bridges.ActorIdentity * DopplerTokenInfo) :=
  info ← introspect token resp; actor ← doppler_token_to_actor now info; Ok (actor, info).

Record StoreBridge := mk_StoreBridge { bridge_id : string; trust_domain : string }.
Definition vault_bridge (bridge_id cluster : string) : StoreBridge := mk_StoreBridge bridge_id ("vault." +:+ cluster).
Definition doppler_bridge (bridge_id workplace_id : string) : StoreBridge := mk_StoreBridge bridge_id ("doppler.com/" +:+ workplace_id).

(** ** Sanitised texts *)

Lemma str_of_chars_app cs ds : str_of_chars (cs ++ ds) = str_of_chars cs +:+ str_of_chars ds.
Proof. unfold str_of_chars. by rewrite flat_map_app, str_of_bytes_app. Qed.

Lemma ascii_no_slash cs : Forall (fun c => 0 <= c < 128 /\ c <> 47) cs -> ActorId.has "/" (str_of_chars cs) = false.
Proof.
  intros H. unfold str_of_chars. apply Jws.has_bytes. induction H as [|c cs [Hc Hne] _ IH]; [constructor|]. cbn [flat_map].
  unfold encode_char. rewrite (proj2 (Z.ltb_lt c 0x80)) by lia. constructor; [|done]. apply negb_true_iff, Ascii.eqb_neq. intros E.
  apply Hne. apply (f_equal N_of_ascii) in E. rewrite N_ascii_embedding in E by lia. cbn in E. lia.
Qed.

Lemma segment_char_ok c : 0 <= segment_char c < 128 /\ segment_char c <> 47.
Proof. unfold segment_char. destruct (_ || _) eqn:E; [unfold Webhook.is_ascii_alphanumeric in E|]; lia. Qed.
Lemma doppler_char_ok c : 0 <= doppler_char c < 128 /\ doppler_char c <> 47.
Proof. unfold doppler_char. destruct (_ || _) eqn:E; [unfold Webhook.is_ascii_alphanumeric in E|]; lia. Qed.
Lemma action_char_ok c : 0 <= action_char c < 128 /\ action_char c <> Glob.STAR.
Proof. unfold action_char, is_lower_digit, Glob.STAR. repeat case_match; lia. Qed.

Lemma segment_no_slash s : ActorId.has "/" (sanitise_segment s) = false.
Proof. apply ascii_no_slash, Forall_fmap, Forall_true. intros c. apply segment_char_ok. Qed.
Lemma doppler_no_slash s : ActorId.has "/" (doppler_segment s) = false.
Proof. apply ascii_no_slash, Forall_fmap, Forall_true. intros c. apply doppler_char_ok. Qed.

(** ** Vault *)

Definition namespace_segment (info : VaultTokenInfo) : string := match namespace info with Some n => sanitise_segment n | None => "root" end.
Lemma namespace_no_slash info : ActorId.has "/" (namespace_segment info) = false.
Proof. unfold namespace_segment. destruct (namespace info); [apply segment_no_slash|done]. Qed.

(** Whatever client does the look-up, a token gives an actor only with an
    accessor, and two tokens give the same actor exactly when their accessors and
    the sanitised names of their clusters and namespaces are the same. *)
Theorem vault_actor_unique {L L'} `{VaultLookup L, VaultLookup L'} (l : L) (l' : L') now cluster cluster' a a' i i'
    (Ha : vault_token_to_actor l now cluster = Ok (a, i)) (Ha' : vault_token_to_actor l' now cluster' = Ok (a', i')) :
  accessor i <> "" /\
  (Bridges.actor_id a = Bridges.actor_id a' <->
   accessor i = accessor i' /\ sanitise_segment cluster = sanitise_segment cluster' /\ namespace_segment i = namespace_segment i').
Proof.
  unfold vault_token_to_actor in Ha, Ha'. apply bind_ok in Ha as (j & _ & Ha), Ha' as (j' & _ & Ha').
  destruct (str_is_empty (accessor j)) eqn:E; [discriminate|]. destruct (str_is_empty (accessor j')); [discriminate|].
  injection Ha as <- <-. injection Ha' as <- <-. split; [intros E'; by rewrite E' in E|]. cbn [Bridges.actor_id].
  unfold vault_actor_id. fold (namespace_segment j) (namespace_segment j'). split; [|by intros (-> & -> & ->)].
  intros H1%str_app_inv_head. apply ActorId.split_app_inj in H1 as [H1 H2]; [|apply segment_no_slash..].
  by apply ActorId.split_app_inj in H2 as [H2 H3]; [|apply namespace_no_slash..].
Qed.

Lemma trim_start_of_sub c d cs : d ∈ trim_start_of c cs -> d ∈ cs.
Proof. induction cs as [|e cs IH]; [done|]. cbn [trim_start_of]. destruct (e =? c); [set_solver|done]. Qed.
Definition trimmed (s : string) : list Z := reverse (trim_start_of 47 (reverse (trim_start_of 47 (chars s)))).
Lemma trimmed_sub s d : d ∈ trimmed s -> d ∈ chars s.
Proof. unfold trimmed. rewrite elem_of_reverse. intros H%trim_start_of_sub. rewrite elem_of_reverse in H. by apply trim_start_of_sub in H. Qed.

Lemma vault_target_chars mount path : vault_target mount path = str_of_chars (trimmed mount ++ 47 :: trimmed path).
Proof.
  unfold vault_target. change (trim_slashes ?s) with (str_of_chars (trimmed s)). rewrite str_of_chars_app.
  assert (str_of_chars (47 :: trimmed path) = "/" +:+ str_of_chars (trimmed path)) as -> by done.
  destruct (str_of_chars (trimmed path)); [|done]. by rewrite str_app_nil_r.
Qed.

Lemma valid_str_of_chars cs : Forall is_scalar cs -> valid_utf8 (bytes_of_str (str_of_chars cs)) = true.
Proof.
  intros H. unfold valid_utf8, str_of_chars. rewrite bytes_of_str_of_bytes by by apply encode_chars_bytes. by rewrite Utf8.decode_encode.
Qed.

(** The capability made of a mount and a path without stars is limited to one
    target, the two texts without their outer slashes, and matches no other. *)
Theorem vault_secret_exact mount path t
    (Hm : valid_utf8 (bytes_of_str mount) = true) (Hp : valid_utf8 (bytes_of_str path) = true) (Ht : valid_utf8 (bytes_of_str t) = true)
    (Sm : Glob.STAR ∉ chars mount) (Sp : Glob.STAR ∉ chars path) :
  exists p, cap_constraints (vault_secret_path_to_capability mount path) = Some [Target [p]] /\
    p = str_of_chars (trimmed mount) +:+ "/" +:+ str_of_chars (trimmed path) /\ Glob.glob_match p t = (p =? t)%string.
Proof.
  exists (vault_target mount path). split; [done|]. rewrite vault_target_chars. split; [by rewrite str_of_chars_app|].
  assert (Forall is_scalar (trimmed mount ++ 47 :: trimmed path)) as Hs.
  { pose proof (chars_scalars _ Hm) as H1. pose proof (chars_scalars _ Hp) as H2. rewrite Forall_forall in H1, H2. apply Forall_forall.
    intros c [?%trimmed_sub|[->|?%trimmed_sub]%elem_of_cons]%elem_of_app; [auto|unfold is_scalar; lia|auto]. }
  apply Glob.glob_no_star; [by apply valid_str_of_chars|done|]. rewrite chars_str_of_chars by done.
  intros [?%trimmed_sub|[?|?%trimmed_sub]%elem_of_cons]%elem_of_app; done.
Qed.

Lemma policy_name_literal p a : Glob.glob_match ("vault.policy." +:+ sanitise_action_segment p) a = true -> exists r, chars a = chars "vault.policy." ++ r.
Proof.
  assert ("vault.policy." +:+ sanitise_action_segment p = str_of_chars (chars "vault.policy." ++ (action_char <$> chars p))) as ->.
  { by rewrite str_of_chars_app. }
  assert (Forall (fun c => 0 <= c < 128 /\ c <> Glob.STAR) (action_char <$> chars p)) as Hc.
  { apply Forall_fmap, Forall_true. intros c. apply action_char_ok. }
  unfold Glob.glob_match. rewrite chars_str_of_chars.
  - rewrite Glob.run_spec, Glob.tokenize_literal, Glob.matches_literal; [intros ->; by eexists|].
    intros [H|H]%elem_of_app; [vm_compute in H; set_solver|]. rewrite Forall_forall in Hc. by destruct (Hc _ H).
  - apply Forall_app. split; [repeat constructor; lia|]. eapply Forall_impl; [exact Hc|]. intros c [? _]. left. lia.
Qed.

(** The capabilities of a list of policies cover reading a secret exactly when
    the root policy is among them: no other name, however it is written, becomes a
    pattern. *)
Theorem vault_only_root_reads ps :
  existsb (fun cap => Glob.glob_match (cap_name cap) "vault.kv.read") (vault_policies_to_capabilities ps) = true <-> "root" ∈ ps.
Proof.
  unfold vault_policies_to_capabilities. rewrite existsb_exists. setoid_rewrite <- list_elem_of_In. setoid_rewrite list_elem_of_fmap. split.
  - intros (cap & (p & -> & Hp) & H). unfold policy_capability in H. destruct (String.eqb_spec p "root") as [->|_]; [done|].
    destruct (p =? "default")%string; [vm_compute in H; discriminate|]. cbn [plain cap_name] in H.
    apply policy_name_literal in H as (r & H). discriminate.
  - intros H. exists (plain "vault.*" R5). split; [by exists "root"|vm_compute; reflexivity].
Qed.

(** ** Doppler *)

(** A token gives an actor exactly when it is not empty and the service
    answers with success and a body of the expected shape; the check for an empty
    workplace never fails, because an absent one has become a name before. *)
Theorem doppler_actor_iff now token resp :
  is_ok (doppler_service_token_to_actor now token resp) = true <->
  token <> "" /\ exists r me, resp = Ok r /\ 200 <= status r < 300 /\ json_me r = Ok me.
Proof.
  unfold doppler_service_token_to_actor, introspect. destruct (str_is_empty token) eqn:Et.
  { destruct token; [|discriminate]. split; [discriminate|]. by intros [? _]. }
  assert (token <> "") as Hne by (by intros ->). destruct resp as [r|e]; cbn [map_err mbind result_bind];
    [|split; [discriminate|by intros (_ & ? & ? & ? & _)]].
  assert (forall P : Prop, (~ (200 <= status r < 300)) -> false = true <-> P /\ (exists r' me, Ok (E := string) r = Ok r' /\ 200 <= status r' < 300 /\ json_me r' = Ok me)) as Hno.
  { intros P Hn. split; [discriminate|]. by intros (_ & r' & me & [= <-] & ? & _). }
  destruct ((status r =? 401) || (status r =? 403)) eqn:E1; [apply Hno; lia|].
  destruct ((200 <=? status r) && (status r <? 300)) eqn:E2; cbn [negb]; [|apply Hno; lia].
  destruct (json_me r) as [me|] eqn:Ej; cbn [map_err mbind result_bind]; [|split; [discriminate|intros (_ & r' & me & [= <-] & _ & ?); congruence]].
  split; [intros _; split; [done|]; exists r, me; split_and!; [done|lia|lia|done]|intros _].
  unfold doppler_token_to_actor. cbn [workplace_id unwrap_or_default_workplace w_id]. unfold or_unknown. by destruct (w_id _).
Qed.

(** The actor of a token determines the sanitised workplace, project, config
    and slug: no segment can be moved into its neighbour. *)
Theorem doppler_segments_unique now i i' a a' (H : doppler_token_to_actor now i = Ok a) (H' : doppler_token_to_actor now i' = Ok a')
    (E : Bridges.actor_id a = Bridges.actor_id a') :
  doppler_segment (workplace_id i) = doppler_segment (workplace_id i') /\
  doppler_segment (unwrap_or (project i) "any") = doppler_segment (unwrap_or (project i') "any") /\
  doppler_segment (unwrap_or (config i) "any") = doppler_segment (unwrap_or (config i') "any") /\
  doppler_segment (if str_is_empty (slug i) then "anonymous" else slug i) = doppler_segment (if str_is_empty (slug i') then "anonymous" else slug i').
Proof.
  unfold doppler_token_to_actor in H, H'. destruct (str_is_empty (workplace_id i)), (str_is_empty (workplace_id i')); try discriminate.
  injection H as <-. injection H' as <-. cbn [Bridges.actor_id] in E. apply str_app_inv_head in E.
  apply ActorId.split_app_inj in E as [E1 E]; [|apply doppler_no_slash..]. apply ActorId.split_app_inj in E as [E2 E]; [|apply doppler_no_slash..].
  by apply ActorId.split_app_inj in E as [E3 E4]; [|apply doppler_no_slash..].
Qed.

(** ** Witnesses and examples *)

Definition nobody : MeResponse := mk_MeResponse None None None None None None.
(** An answer that says nothing makes an actor, the same for every such token. *)
Example doppler_nobody :
  (r ← doppler_service_token_to_actor 0 "x" (Ok (mk_Response 200 "200 OK" (Ok nobody))); Ok (Bridges.actor_id r.1, token_type r.2)) =
  Ok ("tf:actor:service:doppler.com/unknown/any/any/anonymous", Other "unknown").
Proof. vm_compute. reflexivity. Qed.

Definition ci_token : DopplerTokenInfo := mk_DopplerTokenInfo "ci" "CI" "w/1" "Work" (Some "api") None Service.
Lemma doppler_segments_unique_witness : exists a, doppler_token_to_actor 0 ci_token = Ok a /\
  Bridges.actor_id a = "tf:actor:service:doppler.com/w_1/api/any/ci" /\ doppler_segment (workplace_id ci_token) = doppler_segment (workplace_id ci_token).
Proof.
  eexists. split; [reflexivity|]. split; [vm_compute; reflexivity|].
  edestruct (doppler_segments_unique 0 ci_token ci_token) as [H _]; [reflexivity|reflexivity|reflexivity|]. exact H.
Defined.

Definition looked_up (accessor : string) : VaultrsLookup := mk_VaultrsLookup (Ok (mk_LookupTokenResponse accessor "token" "" ["default"] 60 true false "auth/token")).
(** Clusters whose names differ in a sanitised character share their actors. *)
Lemma vault_actor_unique_witness : exists a i a' i',
  vault_token_to_actor (looked_up "acc") 0 "prod/eu" = Ok (a, i) /\ vault_token_to_actor (looked_up "acc") 0 "prod_eu" = Ok (a', i') /\
  Bridges.actor_id a = Bridges.actor_id a' /\ Bridges.authority_roots a <> Bridges.authority_roots a'.
Proof.
  do 4 eexists. split; [reflexivity|]. split; [reflexivity|]. split; [|vm_compute; discriminate].
  eapply (vault_actor_unique (looked_up "acc") (looked_up "acc") 0 "prod/eu" "prod_eu"); [reflexivity|reflexivity|]. split_and!; vm_compute; reflexivity.
Defined.

Lemma vault_secret_exact_witness : exists p, cap_constraints (vault_secret_path_to_capability "/secret/" "app/db/") = Some [Target [p]] /\
  Glob.glob_match p "secret/app/other" = (p =? "secret/app/other")%string.
Proof.
  edestruct (vault_secret_exact "/secret/" "app/db/" "secret/app/other") as (p & H1 & _ & H2);
    [vm_compute; reflexivity|vm_compute; reflexivity|vm_compute; reflexivity|vm_compute; set_solver|vm_compute; set_solver|].
  exists p. exact (conj H1 H2).
Defined.

(** A star in a path is a pattern. *)
Example vault_star_path : cap_constraints (vault_secret_path_to_capability "secret" "**") = Some [Target ["secret/**"]] /\
  Glob.glob_match "secret/**" "secret/app/db" = true.
Proof. split; vm_compute; reflexivity. Qed.

Example doppler_token_types : classify_token "dp.st.prd.abc" = Service /\ classify_token "dp.scim.x" = Other "scim" /\ classify_token "" = Other "unknown".
Proof. done. Qed.

End SecretStores.
