(* ===== verification/SqlStores.v ===== *)
(** * SqlStores: the stores in SQL databases and Redis
      ([tf-store-sqlite], [tf-store-postgres], [tf-store-mysql], [tf-revoke-redis])

    The statements the crates send are operations of two interfaces: a table of
    events, [LedgerTable], and a table with a key, [KeyTable].  What a database
    documents of them is stated as laws: a statement that reports an error may
    have been carried out or not, equality of keys is that of the column's
    collation, order is that of the [ORDER BY].  SQLite's ledger is built from
    smaller statements in a transaction, and shown to obey the laws.  Serde, the
    hash and the collation are arguments.

    - [ledger_refines], [sqlite_ledger_laws]: each database keeps a ledger that is
      addressed by content, and gives its tail in order of insertion;
    - [hash_ignores_order]: the address of an event;
    - [revocations_refine], [later_revocation_lifts], [bundles_refine]: revocations
      and bundles are maps, up to the collation;
    - [mysql_ledger_missing]: the table that the start of the MySQL store leaves
      out;
    - [redis_exact], [redis_key_clash]: revocations in Redis. *)

From stdpp Require Import gmap sorting.
From S2P Require Import Prelude Utf8 Json BinaryFormat CanonicalText Clock ActorId Jws FileStore Registry.

#[local] Open Scope string_scope.
#[local] Open Scope list_scope.
#[local] Open Scope Z_scope.

Module SqlStores.
Import FileStore(StoreError(..)).

(** ** Errors *)

(** What the three clients report, as far as the crates tell it apart. *)
Inductive DbError := UniqueViolation | NoRows | Disconnected (m : string) | OtherDb (m : string).
(** [map_err] of the SQLite crate, of the two sqlx crates, and of the Redis one. *)
Definition sqlite_err (e : DbError) : StoreError :=
  match e with UniqueViolation => Conflict | NoRows => NotFound | Disconnected m | OtherDb m => Other m end.
Definition sqlx_err (e : DbError) : StoreError :=
  match e with UniqueViolation => Conflict | NoRows => NotFound | Disconnected m => Unavailable m | OtherDb m => Other m end.
Definition redis_err (text : DbError -> string) (e : DbError) : StoreError :=
  match e with Disconnected m => Unavailable m | _ => Other (text e) end.

(** ** The address of an event *)

Fixpoint sort_value (v : json) : json :=
  match v with
  | JObject m => JObject (BinaryFormat.sort_entries ((fun kv => (kv.1, sort_value kv.2)) <$> m))
  | JArray a => JArray (sort_value <$> a)
  | _ => v
  end.

Section hash.
Context (to_string : json -> result string string) (sha256 : list Z -> list Z).
Definition canonical_hash (event : json) : result StoreError string :=
  canonical ← map_err (fun e => Other ("canonical serialize: " +:+ e)) (to_string (sort_value event));
  Ok (hex (sha256 (bytes_of_str canonical))).
End hash.

(** ** The ledger *)

(** The statements on the table of events: the insertion that ignores a known
    hash, the selection by hash, and the selection of the tail. *)
Class LedgerTable (D P : Type) := {
  insert_event : D -> string -> P -> D * result DbError unit;
  select_event : D -> string -> result DbError (option P);
  select_tail : D -> Z -> result DbError (list P)
}.

Section ledger.
Context (to_string : json -> result string string) (sha256 : list Z -> list Z).
Context {D P : Type} `{LedgerTable D P}.
(** How a crate maps errors, writes an event into the column and reads it. *)
Context (err : DbError -> StoreError) (encode : json -> result StoreError P) (decode : P -> result StoreError json).

Definition append (d : D) (event : json) : D * result StoreError string :=
  match (hash ← canonical_hash to_string sha256 event; payload ← encode event; Ok (hash, payload)) with
  | Err e => (d, Err e)
  | Ok (hash, payload) =>
    let '(d, r) := insert_event d hash payload in
    (d, map_err err (_ ← r; Ok hash))
  end.
Definition lookup (d : D) (event_hash : string) : result StoreError (option json) :=
  row ← map_err err (select_event d event_hash);
  match row with Some p => v ← decode p; Ok (Some v) | None => Ok None end.
Fixpoint decode_all (ps : list P) : result StoreError (list json) :=
  match ps with [] => Ok [] | p :: ps => v ← decode p; vs ← decode_all ps; Ok (v :: vs) end.
Definition tail (d : D) (limit : Z) : result StoreError (list json) :=
  rows ← map_err err (select_tail d (Clock.as_i64 limit));
  decode_all rows.
End ledger.

(** The codecs of the three crates. *)
Section codecs.
Context (to_string : json -> result string string) (from_str : string -> result string json).
Definition sqlite_encode (v : json) : result StoreError string := map_err (fun e => Other ("serialize event: " +:+ e)) (to_string v).
Definition sqlite_decode (s : string) : result StoreError json := map_err (fun e => Other ("deserialize event: " +:+ e)) (from_str s).
Definition postgres_encode (v : json) : result StoreError json := Ok v.
Definition postgres_decode (v : json) : result StoreError json := Ok v.
Definition mysql_encode (v : json) : result StoreError string := map_err (fun e => Other ("serialize: " +:+ e)) (to_string v).
Definition mysql_decode (s : string) : result StoreError json := map_err (fun e => Other ("decode payload: " +:+ e)) (from_str s).
End codecs.

Section ledgers.
Context (to_string : json -> result string string) (from_str : string -> result string json) (sha256 : list Z -> list Z) {D : Type}.
Definition sqlite_append `{LedgerTable D string} : D -> json -> D * result StoreError string := append to_string sha256 sqlite_err (sqlite_encode to_string).
Definition sqlite_lookup `{LedgerTable D string} : D -> string -> result StoreError (option json) := lookup sqlite_err (sqlite_decode from_str).
Definition sqlite_tail `{LedgerTable D string} : D -> Z -> result StoreError (list json) := tail sqlite_err (sqlite_decode from_str).
Definition postgres_append `{LedgerTable D json} : D -> json -> D * result StoreError string := append to_string sha256 sqlx_err postgres_encode.
Definition postgres_lookup `{LedgerTable D json} : D -> string -> result StoreError (option json) := lookup sqlx_err postgres_decode.
Definition postgres_tail `{LedgerTable D json} : D -> Z -> result StoreError (list json) := tail sqlx_err postgres_decode.
Definition mysql_append `{LedgerTable D string} : D -> json -> D * result StoreError string := append to_string sha256 sqlx_err (mysql_encode to_string).
Definition mysql_lookup `{LedgerTable D string} : D -> string -> result StoreError (option json) := lookup sqlx_err (mysql_decode from_str).
Definition mysql_tail `{LedgerTable D string} : D -> Z -> result StoreError (list json) := tail sqlx_err (mysql_decode from_str).
End ledgers.

(** SQLite: the statements of the transaction of an insertion.  They give the
    database as the transaction sees it; a transaction that is dropped before
    [commit] succeeds is rolled back. *)
Record sqlite := mk_sqlite {
  conn : Type;
  unchecked_transaction : conn -> result DbError unit;
  update_seq : conn -> result DbError conn;
  select_seq : conn -> result DbError Z;
  insert_or_ignore : conn -> string -> string -> Z -> result DbError conn;
  commit : conn -> result DbError unit;
  sqlite_select : conn -> string -> result DbError (option string);
  sqlite_select_tail : conn -> Z -> result DbError (list string)
}.
Definition sqlite_insert (q : sqlite) (c : conn q) (hash payload : string) : conn q * result DbError unit :=
  match (_ ← unchecked_transaction q c;
         tx ← update_seq q c;
         seq ← select_seq q tx;
         tx ← insert_or_ignore q tx hash payload seq;
         _ ← commit q tx;
         Ok tx) with
  | Ok tx => (tx, Ok tt)
  | Err e => (c, Err e)
  end.
#[global] Instance sqlite_ledger (q : sqlite) : LedgerTable (conn q) string :=
  {| insert_event := sqlite_insert q; select_event := sqlite_select q; select_tail := sqlite_select_tail q |}.

(** ** Revocations and bundles *)

(** The statements on a table with a primary key: the insertion that updates a
    known key, the selection by key, and the listing. *)
Class KeyTable (D K V : Type) := {
  upsert : D -> K -> V -> D * result DbError unit;
  select_key : D -> K -> result DbError (option V);
  select_all : D -> result DbError (list (K * V))
}.

Section keyed.
Context (err : DbError -> StoreError) {D : Type}.
Section revocations.
Context `{KeyTable D (string * string) string}.
Definition insert (d : D) (target_kind target_id effective_at : string) : D * result StoreError unit :=
  let '(d, r) := upsert d (target_kind, target_id) effective_at in (d, map_err err r).
Definition is_revoked (d : D) (target_kind target_id at_ : string) : result StoreError bool :=
  row ← map_err err (select_key d (target_kind, target_id));
  Ok (match row with Some eff => str_le eff at_ | None => false end).
Definition list_revocations (d : D) : result StoreError (list (string * string * string)) :=
  result_bind _ _ (fun rows : list (string * string * string) => Ok ((fun r => (r.1.1, r.1.2, r.2)) <$> rows)) (map_err err (select_all d)).
End revocations.
Section bundles.
Context `{KeyTable D string (list Z)}.
Definition put (d : D) (bundle_id : string) (bytes : list Z) : D * result StoreError unit :=
  let '(d, r) := upsert d bundle_id bytes in (d, map_err err r).
Definition get (d : D) (bundle_id : string) : result StoreError (option (list Z)) := map_err err (select_key d bundle_id).
Definition list_bundles (d : D) : result StoreError (list string) := result_bind _ _ (fun rows : list (string * list Z) => Ok (fst <$> rows)) (map_err err (select_all d)).
End bundles.
End keyed.

Section keyed_stores.
Context {D : Type} `{KeyTable D (string * string) string, KeyTable D string (list Z)}.
Definition sqlite_revoke : D -> string -> string -> string -> D * result StoreError unit := insert sqlite_err.
Definition sqlite_is_revoked : D -> string -> string -> string -> result StoreError bool := is_revoked sqlite_err.
Definition sqlite_list_revocations : D -> result StoreError (list (string * string * string)) := list_revocations sqlite_err.
Definition sqlite_put : D -> string -> list Z -> D * result StoreError unit := put sqlite_err.
Definition sqlite_get : D -> string -> result StoreError (option (list Z)) := get sqlite_err.
Definition sqlite_list_bundles : D -> result StoreError (list string) := list_bundles sqlite_err.
Definition postgres_revoke : D -> string -> string -> string -> D * result StoreError unit := insert sqlx_err.
Definition postgres_is_revoked : D -> string -> string -> string -> result StoreError bool := is_revoked sqlx_err.
Definition postgres_list_revocations : D -> result StoreError (list (string * string * string)) := list_revocations sqlx_err.
Definition postgres_put : D -> string -> list Z -> D * result StoreError unit := put sqlx_err.
Definition postgres_get : D -> string -> result StoreError (option (list Z)) := get sqlx_err.
Definition postgres_list_bundles : D -> result StoreError (list string) := list_bundles sqlx_err.
Definition mysql_revoke : D -> string -> string -> string -> D * result StoreError unit := insert sqlx_err.
Definition mysql_is_revoked : D -> string -> string -> string -> result StoreError bool := is_revoked sqlx_err.
Definition mysql_list_revocations : D -> result StoreError (list (string * string * string)) := list_revocations sqlx_err.
Definition mysql_put : D -> string -> list Z -> D * result StoreError unit := put sqlx_err.
Definition mysql_get : D -> string -> result StoreError (option (list Z)) := get sqlx_err.
Definition mysql_list_bundles : D -> result StoreError (list string) := list_bundles sqlx_err.
End keyed_stores.

(** ** The start of the MySQL store *)

(** [migrations/0001_init.sql]. *)
Definition MYSQL_INIT : string := "-- Initial schema for the TrustForge MySQL backend.
-- Applied at startup by `MysqlStore::open`.

CREATE TABLE IF NOT EXISTS proof_events (
    event_hash VARCHAR(128) NOT NULL PRIMARY KEY,
    payload    JSON NOT NULL,
    seq        BIGINT NOT NULL AUTO_INCREMENT UNIQUE,
    created_at TIMESTAMP NOT NULL DEFAULT CURRENT_TIMESTAMP
);

CREATE TABLE IF NOT EXISTS revocations (
    target_kind  VARCHAR(64)  NOT NULL,
    target_id    VARCHAR(512) NOT NULL,
    effective_at VARCHAR(64)  NOT NULL,
    PRIMARY KEY (target_kind, target_id)
);

CREATE TABLE IF NOT EXISTS evidence_bundles (
    bundle_id  VARCHAR(256) NOT NULL PRIMARY KEY,
    payload    LONGBLOB NOT NULL,
    created_at TIMESTAMP NOT NULL DEFAULT CURRENT_TIMESTAMP
);
".
(** The statements that [migrate] sends. *)
Definition mysql_statements (sql : string) : list string :=
  filter (fun s => str_is_empty s = false /\ String.prefix "--" s = false) (trim_str <$> Jws.split ";" sql).
Section migrate.
Context {D : Type} (execute : D -> string -> D * result DbError unit).
Fixpoint run_statements (d : D) (stmts : list string) : D * result StoreError unit :=
  match stmts with
  | [] => (d, Ok tt)
  | s :: stmts => match execute d s with (d, Ok _) => run_statements d stmts | (d, Err e) => (d, Err (sqlx_err e)) end
  end.
Definition mysql_migrate (d : D) : D * result StoreError unit := run_statements d (mysql_statements MYSQL_INIT).
End migrate.

(** ** Redis *)

Definition KEY_PREFIX : string := "tf:revoke:".
Definition redis_key (kind id : string) : string := KEY_PREFIX +:+ kind +:+ ":" +:+ id.

(** The commands: [scan] gives the keys that begin with the prefix, each at least
    once. *)
Record redis := mk_redis {
  server : Type;
  set : server -> string -> string -> server * result DbError unit;
  redis_get : server -> string -> result DbError (option string);
  scan : server -> string -> result DbError (list string)
}.

Section redis.
Context (q : redis) (text : DbError -> string).
Definition redis_insert (c : server q) (target_kind target_id effective_at : string) : server q * result StoreError unit :=
  let '(c, r) := set q c (redis_key target_kind target_id) effective_at in (c, map_err (redis_err text) r).
Definition redis_is_revoked (c : server q) (target_kind target_id at_ : string) : result StoreError bool :=
  val ← map_err (redis_err text) (redis_get q c (redis_key target_kind target_id));
  Ok (match val with Some eff => str_le eff at_ | None => false end).
(** The kind and the id of a key, if it has both. *)
Definition split_key (k : string) : option (string * string) := rest ← strip_prefix KEY_PREFIX k; ActorId.split_first ":" rest.
Fixpoint fetch_values (c : server q) (keys : list string) : result StoreError (list (string * string * string)) :=
  match keys with
  | [] => Ok []
  | k :: keys =>
    match split_key k with
    | None => fetch_values c keys
    | Some (kind, id) =>
      val ← map_err (redis_err text) (redis_get q c k);
      out ← fetch_values c keys;
      Ok (match val with Some eff => (kind, id, eff) :: out | None => out end)
    end
  end.
(** The order of triples of strings. *)
Definition triple_le (a b : string * string * string) : Prop :=
  str_lt a.1.1 b.1.1 = true \/ a.1.1 = b.1.1 /\ (str_lt a.1.2 b.1.2 = true \/ a.1.2 = b.1.2 /\ str_le a.2 b.2 = true).
#[global] Instance triple_le_dec : RelDecision triple_le. Proof. intros a b. unfold triple_le. apply _. Defined.
Definition redis_list (c : server q) : result StoreError (list (string * string * string)) :=
  keys ← map_err (redis_err text) (scan q c (KEY_PREFIX +:+ "*"));
  out ← fetch_values c keys;
  Ok (merge_sort triple_le out).
End redis.

(** ** What the databases promise of the ledger *)

Record row (P : Type) := mk_row { row_hash : string; row_payload : P; row_seq : Z }.
Arguments mk_row {P}. Arguments row_hash {P}. Arguments row_payload {P}. Arguments row_seq {P}.
Definition hashes {P} (l : list (row P)) : list string := row_hash <$> l.
(** [SELECT .. FROM (SELECT .. ORDER BY seq DESC LIMIT n) ORDER BY seq ASC]. *)
Definition ascending {P} (a b : row P) : Prop := row_seq a <= row_seq b.
Definition descending {P} (a b : row P) : Prop := row_seq b <= row_seq a.
#[global] Instance ascending_dec {P} : RelDecision (@ascending P). Proof. intros a b. unfold ascending. apply _. Defined.
#[global] Instance descending_dec {P} : RelDecision (@descending P). Proof. intros a b. unfold descending. apply _. Defined.
Definition tail_of {P} (n : nat) (l : list (row P)) : list (row P) := merge_sort ascending (take n (merge_sort descending l)).

(** Addresses: hexadecimal digits, in lower case. *)
Definition is_address (h : string) : Prop := exists bs, is_bytes bs /\ h = hex bs.

(** [rows] is the table and [counter] the last number given out; [column] is what
    the column keeps of a payload, and [collate] what the collation of the column
    of hashes tells apart (everything in SQLite and PostgreSQL, not the case of
    letters in MySQL).  An insertion that fails may have been carried out; numbers
    grow, and some are lost. *)
Record ledger_laws {D P} `{LedgerTable D P} (rows : D -> list (row P)) (counter : D -> Z) (column : P -> P) (collate : string -> string) : Prop := {
  insert_law : forall d h p d' r, insert_event d h p = (d', r) ->
    counter d <= counter d' /\
    (rows d' = rows d \/ (collate h ∉ collate <$> hashes (rows d)) /\ exists s, counter d < s <= counter d' /\ rows d' = rows d ++ [mk_row h (column p) s]) /\
    (r = Ok tt -> collate h ∈ collate <$> hashes (rows d'));
  select_law : forall d h o, select_event d h = Ok o -> o = row_payload <$> List.find (fun r => (collate (row_hash r) =? collate h)%string) (rows d);
  collate_law : forall a b, is_address a -> is_address b -> collate a = collate b -> a = b;
  tail_law : forall d n ps, 0 <= n -> select_tail d n = Ok ps -> ps = row_payload <$> tail_of (Z.to_nat n) (rows d)
}.

(** What SQLite promises of the statements of a transaction. *)
Record sqlite_laws (q : sqlite) (rows : conn q -> list (row string)) (counter : conn q -> Z) : Prop := {
  update_law : forall c c', update_seq q c = Ok c' -> counter c' = counter c + 1 /\ rows c' = rows c;
  seq_law : forall c n, select_seq q c = Ok n -> n = counter c;
  ignore_law : forall c h p s c', insert_or_ignore q c h p s = Ok c' -> counter c' = counter c /\
    ((h ∈ hashes (rows c)) /\ rows c' = rows c \/ (h ∉ hashes (rows c)) /\ rows c' = rows c ++ [mk_row h p s]);
  sqlite_select_law : forall c h o, sqlite_select q c h = Ok o -> o = row_payload <$> List.find (fun r => (row_hash r =? h)%string) (rows c);
  sqlite_tail_law : forall c n ps, 0 <= n -> sqlite_select_tail q c n = Ok ps -> ps = row_payload <$> tail_of (Z.to_nat n) (rows c)
}.

Lemma sqlite_laws_ledger q rows counter : sqlite_laws q rows counter -> ledger_laws rows counter id id.
Proof.
  intros Q. split; [|exact (sqlite_select_law _ _ _ Q)|done|exact (sqlite_tail_law _ _ _ Q)].
  intros d h p d' r. rewrite !list_fmap_id. cbn [insert_event sqlite_ledger]. unfold sqlite_insert.
  destruct (unchecked_transaction q d) as [[]|e]; cbn [mbind result_bind]; [|by intros [= <- <-]; split_and!; [lia|left|]].
  destruct (update_seq q d) as [tx|e] eqn:Eu; cbn [mbind result_bind]; [|by intros [= <- <-]; split_and!; [lia|left|]].
  destruct (select_seq q tx) as [s|e] eqn:Es; cbn [mbind result_bind]; [|by intros [= <- <-]; split_and!; [lia|left|]].
  destruct (insert_or_ignore q tx h p s) as [tx'|e] eqn:Ei; cbn [mbind result_bind]; [|by intros [= <- <-]; split_and!; [lia|left|]].
  destruct (commit q tx') as [[]|e]; cbn [mbind result_bind]; [|by intros [= <- <-]; split_and!; [lia|left|]].
  intros [= <- <-]. apply (update_law _ _ _ Q) in Eu as [Hc Hr]. apply (seq_law _ _ _ Q) in Es as ->.
  apply (ignore_law _ _ _ Q) in Ei as [Hc' [[Hin Hr']|[Hin Hr']]]; rewrite Hr in *.
  - split; [lia|]. rewrite Hr'. split; [by left|done].
  - split; [lia|]. rewrite Hr'. split; [|intros _; unfold hashes; rewrite fmap_app; set_solver].
    right. split; [done|]. exists (counter tx). split; [lia|done].
Qed.

(** ** The ledger as a list *)

(** The rows are numbered in order, and no hash is there twice. *)
Definition numbered {P} (l : list (row P)) (n : Z) : Prop :=
  StronglySorted (fun a b => row_seq a < row_seq b) l /\ Forall (fun r => row_seq r <= n) l /\ NoDup (hashes l).

Lemma numbered_snoc {P} (l : list (row P)) n h p s n' : numbered l n -> h ∉ hashes l -> n < s <= n' -> numbered (l ++ [mk_row h p s]) n'.
Proof.
  intros (Hs & Hf & Hd) Hh Hn. split_and!.
  - induction Hs as [|r l Hl IH Hr]; [repeat constructor|]. apply Forall_cons in Hf as [Hfr Hf]. unfold hashes in Hd, Hh. rewrite fmap_cons in Hd, Hh.
    apply NoDup_cons in Hd as [_ Hd]. cbn. constructor; [apply IH; [done|done|set_solver]|]. apply Forall_app. split; [done|]. constructor; [cbn; lia|constructor].
  - apply Forall_app. split; [eapply Forall_impl; [exact Hf|]; cbn; lia|]. constructor; [cbn; lia|constructor].
  - unfold hashes. rewrite fmap_app. apply NoDup_app. split_and!; [done| |apply NoDup_singleton]. intros x Hx ->%list_elem_of_singleton. by apply Hh.
Qed.
Lemma numbered_le {P} (l : list (row P)) n n' : numbered l n -> n <= n' -> numbered l n'.
Proof. intros (Hs & Hf & Hd) Hn. split_and!; [done| |done]. eapply Forall_impl; [exact Hf|]. cbn. lia. Qed.

Lemma strictly_ascending_inj {P} (l : list (row P)) a b :
  StronglySorted (fun a b => row_seq a < row_seq b) l -> a ∈ l -> b ∈ l -> row_seq a = row_seq b -> a = b.
Proof.
  induction 1 as [|r l _ IH Hr]; [by intros ?%not_elem_of_nil|]. rewrite Forall_forall in Hr.
  rewrite !elem_of_cons. intros [->|Ha] [->|Hb] E; [done| | |auto].
  - specialize (Hr _ Hb). lia.
  - specialize (Hr _ Ha). lia.
Qed.

#[local] Instance ascending_trans {P} : Transitive (@ascending P). Proof. intros a b c. unfold ascending. lia. Qed.
#[local] Instance descending_trans {P} : Transitive (@descending P). Proof. intros a b c. unfold descending. lia. Qed.
#[local] Instance ascending_total {P} : Total (@ascending P). Proof. intros a b. unfold ascending. lia. Qed.
#[local] Instance descending_total {P} : Total (@descending P). Proof. intros a b. unfold descending. lia. Qed.

Lemma sort_ascending {P} (l l' : list (row P)) : StronglySorted (fun a b => row_seq a < row_seq b) l -> l' ≡ₚ l -> merge_sort ascending l' = l.
Proof.
  intros Hs Hp. eapply (StronglySorted_unique_strong ascending).
  - intros a b Ha Hb H1 H2. rewrite merge_sort_Permutation, Hp in Ha. apply (strictly_ascending_inj l); [done..|]. unfold ascending in *. lia.
  - apply StronglySorted_merge_sort; apply _.
  - clear Hp. induction Hs as [|r l _ IH Hr]; constructor; [done|]. eapply Forall_impl; [exact Hr|]. unfold ascending. cbn. lia.
  - by rewrite merge_sort_Permutation.
Qed.

Lemma sort_descending {P} (l : list (row P)) : StronglySorted (fun a b => row_seq a < row_seq b) l -> merge_sort descending l = reverse l.
Proof.
  intros Hs. eapply (StronglySorted_unique_strong descending).
  - intros a b Ha Hb H1 H2. rewrite merge_sort_Permutation in Ha. rewrite elem_of_reverse in Hb.
    apply (strictly_ascending_inj l); [done..|]. unfold descending in *. lia.
  - apply StronglySorted_merge_sort; apply _.
  - induction Hs as [|r l _ IH Hr]; [constructor|]. rewrite reverse_cons. rewrite Forall_forall in Hr.
    assert (forall x, x ∈ reverse l -> descending x r) as Hx by (intros x Hx; rewrite elem_of_reverse in Hx; specialize (Hr _ Hx); unfold descending; lia).
    clear Hr. induction IH as [|x l' _ IH' Hl']; [repeat constructor|]. cbn. constructor; [apply IH'; intros; apply Hx; set_solver|].
    apply Forall_app. split; [done|]. constructor; [apply Hx; set_solver|constructor].
  - by rewrite merge_sort_Permutation, reverse_Permutation.
Qed.

Lemma tail_of_numbered {P} n (l : list (row P)) c : numbered l c -> tail_of n l = drop (length l - n) l.
Proof.
  intros (Hs & _ & _). unfold tail_of. rewrite sort_descending by done. apply sort_ascending.
  - revert Hs. generalize (length l - n)%nat as k. induction l as [|r l IH]; intros k Hs; [by rewrite drop_nil; constructor|].
    destruct k; [done|]. apply IH. by inversion Hs.
  - rewrite take_reverse. apply reverse_Permutation.
Qed.

(** A ledger: for each address, in order, what reading the event gives. *)
Abbreviation ledger := (list (string * result StoreError json)).
Definition spec_append (h : string) (v : result StoreError json) (l : ledger) : ledger := if bool_decide (h ∈ l.*1) then l else l ++ [(h, v)].
(** The entry under an address, as the collation compares them. *)
Definition spec_find (collate : string -> string) (h : string) (l : ledger) : option (result StoreError json) :=
  snd <$> List.find (fun e => (collate e.1 =? collate h)%string) l.
Definition spec_lookup (o : option (result StoreError json)) : result StoreError (option json) :=
  match o with Some r => v ← r; Ok (Some v) | None => Ok None end.
Fixpoint spec_tail (rs : list (result StoreError json)) : result StoreError (list json) :=
  match rs with [] => Ok [] | r :: rs => v ← r; vs ← spec_tail rs; Ok (v :: vs) end.

Section refinement.
Context (to_string : json -> result string string) (sha256 : list Z -> list Z) (Hsha : forall bs, is_bytes (sha256 bs)).
Context {D P : Type} `{LedgerTable D P} (rows : D -> list (row P)) (counter : D -> Z) (column : P -> P) (collate : string -> string).
Context (L : ledger_laws rows counter column collate).
Context (err : DbError -> StoreError) (encode : json -> result StoreError P) (decode : P -> result StoreError json).

(** The database [d] holds the ledger [l]. *)
Record holds (d : D) (l : ledger) : Prop := mk_holds {
  holds_numbered : numbered (rows d) (counter d);
  holds_rows : Forall2 (fun r e => row_hash r = e.1 /\ decode (row_payload r) = e.2) (rows d) l;
  holds_addresses : Forall is_address l.*1 }.

Lemma holds_hashes d l : holds d l -> hashes (rows d) = l.*1.
Proof. intros [_ F _]. unfold hashes. induction F as [|r e rs l [E _] _ IH]; [done|]. rewrite !fmap_cons. by rewrite E, IH. Qed.

Lemma collate_elem l h : Forall is_address l -> is_address h -> collate h ∈ collate <$> l <-> h ∈ l.
Proof using L.
  intros Hl Hh. rewrite list_elem_of_fmap. split; [|by exists h]. intros (h' & E & Hin). rewrite Forall_forall in Hl.
  by rewrite (collate_law _ _ _ _ L h h') by auto.
Qed.

Lemma insert_holds d l h p d' r : holds d l -> is_address h -> insert_event d h p = (d', r) ->
  (holds d' l \/ holds d' (spec_append h (decode (column p)) l)) /\ (r = Ok tt -> holds d' (spec_append h (decode (column p)) l)).
Proof using L.
  intros Hd Hh Hi. pose proof (holds_hashes d l Hd) as Eh. destruct Hd as [Hn F Ha].
  apply (insert_law _ _ _ _ L) in Hi as (Hc & [E|(Hnew & s & Hs & E)] & Hok).
  - assert (holds d' l) as Hl by (split; rewrite ?E; [by eapply numbered_le|done..]). split; [by left|]. intros Hr. apply Hok in Hr.
    rewrite E, Eh, collate_elem in Hr by done. unfold spec_append. by rewrite bool_decide_eq_true_2.
  - rewrite Eh, collate_elem in Hnew by done. assert (holds d' (spec_append h (decode (column p)) l)) as Hl; [|auto].
    unfold spec_append. rewrite bool_decide_eq_false_2 by done. split; rewrite ?E.
    + eapply numbered_snoc; [done|by rewrite Eh|done].
    + apply Forall2_app; [done|]. repeat constructor; done.
    + rewrite fmap_app. apply Forall_app. split; [done|]. by repeat constructor.
Qed.

Lemma find_holds d l h : holds d l ->
  (fun r => decode (row_payload r)) <$> List.find (fun r => (collate (row_hash r) =? collate h)%string) (rows d) = spec_find collate h l.
Proof.
  intros [_ F _]. unfold spec_find. induction F as [|r [h' v] rs l [E Hv] _ IH]; [done|]. cbn [List.find fst]. cbn in E, Hv. rewrite E.
  destruct (collate h' =? collate h)%string; [cbn; by rewrite Hv|exact IH].
Qed.

Lemma find_address d l h : holds d l -> is_address h -> spec_find collate h l = assoc h l.
Proof using L.
  intros [_ _ Ha] Hh. unfold spec_find. induction l as [|[h' v] l IH]; [done|]. cbn in *. apply Forall_cons in Ha as [Ha Hl].
  destruct (String.eqb_spec (collate h') (collate h)) as [E|N].
  - apply (collate_law _ _ _ _ L) in E as ->; [|done..]. by rewrite String.eqb_refl.
  - destruct (String.eqb_spec h h') as [->|]; [done|by apply IH].
Qed.

Lemma decode_all_holds rs (l : ledger) : Forall2 (fun r e => row_hash r = e.1 /\ decode (row_payload r) = e.2) rs l ->
  decode_all decode (row_payload <$> rs) = spec_tail l.*2.
Proof.
  induction 1 as [|r e rs l [_ Hv] _ IH]; [done|]. rewrite !fmap_cons. cbn [decode_all spec_tail]. rewrite Hv. by rewrite IH.
Qed.

Lemma append_holds d l v d' r : holds d l -> append to_string sha256 err encode d v = (d', r) ->
  match r with
  | Ok h => canonical_hash to_string sha256 v = Ok h /\ exists p, encode v = Ok p /\ holds d' (spec_append h (decode (column p)) l)
  | Err _ => holds d' l \/ exists h p, canonical_hash to_string sha256 v = Ok h /\ encode v = Ok p /\ holds d' (spec_append h (decode (column p)) l)
  end.
Proof using L Hsha.
  intros Hd. unfold append. destruct (canonical_hash to_string sha256 v) as [h|e] eqn:Eh; cbn [mbind result_bind]; [|intros [= <- <-]; by left].
  assert (is_address h) as Hh. { apply bind_ok in Eh as (s & _ & [= <-]). by eexists. }
  destruct (encode v) as [p|e] eqn:Ep; cbn [mbind result_bind]; [|intros [= <- <-]; by left].
  destruct (insert_event d h p) as [d1 r1] eqn:Ei. intros [= <- <-]. apply (insert_holds d l h p) in Ei as [H1 H2]; [|done..].
  destruct r1 as [[]|e]; cbn [mbind result_bind map_err]; [split; [done|]; exists p; split; [done|by apply H2]|].
  destruct H1 as [H1|H1]; [by left|right; by exists h, p].
Qed.

Lemma lookup_holds d l h : holds d l ->
  lookup err decode d h = match select_event d h with Ok _ => spec_lookup (spec_find collate h l) | Err e => Err (err e) end.
Proof using L.
  intros Hd. unfold lookup. destruct (select_event d h) as [row|e] eqn:Es; [|done]. apply (select_law _ _ _ _ L) in Es as ->.
  cbn [map_err mbind result_bind]. rewrite <- (find_holds d l h Hd). by destruct (List.find _ (rows d)).
Qed.

Lemma tail_holds d l n : holds d l -> 0 <= n < 2 ^ 63 ->
  tail err decode d n = match select_tail d n with Ok _ => spec_tail (drop (length l - Z.to_nat n) l).*2 | Err e => Err (err e) end.
Proof using L.
  intros [Hn F _] Hl. unfold tail. assert (Clock.as_i64 n = n) as -> by (unfold Clock.as_i64; rewrite Z.mod_small by lia; lia).
  destruct (select_tail d n) as [ps|e] eqn:Es; [|done]. apply (tail_law _ _ _ _ L) in Es as ->; [|lia]. cbn [map_err mbind result_bind].
  rewrite (tail_of_numbered _ _ _ Hn), (Forall2_length _ _ _ F). apply decode_all_holds. by apply Forall2_drop.
Qed.
End refinement.

(** C40: A store over any database that keeps the laws of its statements refines a
    ledger that is a list addressed by content.  An append that succeeds returns
    the address of the event, and the ledger has at its end what reading the
    stored payload gives, unless the address was there; one that fails has changed
    nothing or has done the same.  If the selection does not fail, looking up
    gives the entry whose address the collation of the column does not tell from
    the one asked for, which for an address in lower-case hexadecimal is the entry
    with this address, and the tail gives the last entries, the oldest first; an
    entry that cannot be read makes each of them fail.  An event nested less than
    128 deep, serde_json's recursion limit, is read back in its normal form. *)
Theorem ledger_refines to_string sha256 {D P} `{LedgerTable D P} rows counter column collate err encode decode normal d l
    (Hsha : forall bs, is_bytes (sha256 bs)) (L : ledger_laws rows counter column collate)
    (Hcodec : forall v p, (json_depth v < 128)%nat -> encode v = Ok p -> decode (column p) = Ok (normal v))
    (Hd : holds rows counter decode d l) :
  (forall v d' r, append to_string sha256 err encode d v = (d', r) ->
    exists entry, ((json_depth v < 128)%nat -> is_ok (encode v) = true -> entry = Ok (normal v)) /\
    match r with
    | Ok h => canonical_hash to_string sha256 v = Ok h /\ is_ok (encode v) = true /\ holds rows counter decode d' (spec_append h entry l)
    | Err _ => holds rows counter decode d' l \/
               exists h, canonical_hash to_string sha256 v = Ok h /\ is_ok (encode v) = true /\ holds rows counter decode d' (spec_append h entry l)
    end) /\
  (forall h, lookup err decode d h = match select_event d h with Ok _ => spec_lookup (spec_find collate h l) | Err e => Err (err e) end) /\
  (forall h, is_address h -> spec_find collate h l = assoc h l) /\
  (forall n, 0 <= n < 2 ^ 63 ->
    tail err decode d n = match select_tail d n with Ok _ => spec_tail (drop (length l - Z.to_nat n) l).*2 | Err e => Err (err e) end).
Proof.
  split; [|split; [|split]].
  - intros v d' r Ha. apply (append_holds to_string sha256 Hsha rows counter column collate L err encode decode d l) in Ha; [|done].
    exists (match encode v with Ok p => decode (column p) | Err e => Err e end).
    split; [intros Hv Hp; destruct (encode v) as [p|] eqn:E; [by apply Hcodec|done]|].
    destruct r as [h|e]; [destruct Ha as (Hh & p & -> & Hl); done|]. destruct Ha as [Hl|(h & p & Hh & -> & Hl)]; [by left|right; by exists h].
  - intros h. by eapply lookup_holds.
  - intros h. by eapply find_address.
  - intros n. by eapply tail_holds.
Qed.

(** The transaction in which the SQLite store inserts an event, with the
    counter it updates, keeps the laws of the ledger: it is carried out whole or
    not at all, and gives the row the next number. *)
Theorem sqlite_ledger_laws q rows counter (Q : sqlite_laws q rows counter) : ledger_laws (H := sqlite_ledger q) rows counter id id.
Proof. by apply sqlite_laws_ledger. Qed.

(** The address of an event does not depend on the order of the members of
    its objects. *)
Theorem hash_ignores_order to_string sha256 m m' (Hp : m ≡ₚ m') (Hn : NoDup m.*1) :
  canonical_hash to_string sha256 (JObject m) = canonical_hash to_string sha256 (JObject m').
Proof.
  unfold canonical_hash. do 3 f_equal. cbn [sort_value]. f_equal. apply BinaryFormat.sort_entries_order; [by rewrite Hp|].
  rewrite <- list_fmap_compose. exact Hn.
Qed.

(** ** Revocations and bundles as maps *)

(** [table] holds, by the key that the collation makes, the key as it was first
    written and the value. *)
Record key_laws {D K V} `{Countable K, KeyTable D K V} (collate : K -> K) (table : D -> gmap K (K * V)) : Prop := {
  upsert_law : forall d k v d' r, upsert d k v = (d', r) ->
    let t := <[collate k := (default k (fst <$> table d !! collate k), v)]> (table d) in
    match r with Ok _ => table d' = t | Err _ => table d' = table d \/ table d' = t end;
  key_law : forall d k o, select_key d k = Ok o -> o = snd <$> table d !! collate k;
  all_law : forall d l, select_all d = Ok l -> l ≡ₚ (map_to_list (table d)).*2
}.

Section keys.
Context {K V D : Type} `{Countable K, KeyTable D K V} (collate : K -> K) (table : D -> gmap K (K * V)) (T : key_laws collate table).
(** The database holds the map [m] from collated keys. *)
Definition keeps (d : D) (m : gmap K V) : Prop := snd <$> table d = m /\ map_Forall (fun ck r => collate r.1 = ck) (table d).

Lemma upsert_keeps d m k v d' r : keeps d m -> upsert d k v = (d', r) ->
  match r with Ok _ => keeps d' (<[collate k := v]> m) | Err _ => keeps d' m \/ keeps d' (<[collate k := v]> m) end.
Proof.
  intros [<- Hf] Hu. apply (upsert_law _ _ T) in Hu. cbn zeta in Hu. set (t := <[collate k := _]> (table d)) in Hu.
  assert (forall d1, table d1 = t -> keeps d1 (<[collate k := v]> (snd <$> table d))) as Ht.
  { intros d1 E1. split; rewrite E1; unfold t; [by rewrite fmap_insert|]. apply map_Forall_insert_2; [|done]. cbn.
    destruct (table d !! collate k) as [[k' v']|] eqn:E; [|done]. exact (Hf _ _ E). }
  destruct r; [by apply Ht|]. destruct Hu as [Hu|Hu]; [left|right; by apply Ht]. split; rewrite Hu; done.
Qed.
Lemma select_keeps d m k o : keeps d m -> select_key d k = Ok o -> o = m !! collate k.
Proof. intros [<- _] ->%(key_law _ _ T). by rewrite lookup_fmap. Qed.
Lemma all_keeps d m l : keeps d m -> select_all d = Ok l -> length l = size m /\ forall k v, (k, v) ∈ l -> m !! collate k = Some v.
Proof.
  intros [<- Hf] Hl%(all_law _ _ T). split.
  - rewrite Hl, length_fmap, map_size_fmap. apply length_map_to_list.
  - intros k v. rewrite Hl. intros ([ck [k' v']] & [= -> ->] & Hin%elem_of_map_to_list)%list_elem_of_fmap.
    rewrite lookup_fmap. rewrite (Hf _ _ Hin : collate k' = ck). by rewrite Hin.
Qed.
End keys.

(** Over any database that keeps the laws of its statements, revocations are a
    map from targets, as the collation tells them apart, to the time given last: an
    insertion that succeeds sets it, one that fails sets it or leaves it; a target
    is revoked exactly when its time is not after the one asked for; the listing
    has one entry for each target. *)
Theorem revocations_refine {D} `{KeyTable D (string * string) string} (err : DbError -> StoreError) collate table d m
    (T : key_laws collate table) (Hd : keeps collate table d m) :
  (forall k i e d' r, insert err d k i e = (d', r) ->
    match r with
    | Ok _ => keeps collate table d' (<[collate (k, i) := e]> m)
    | Err _ => keeps collate table d' m \/ keeps collate table d' (<[collate (k, i) := e]> m)
    end) /\
  (forall k i at_ b, is_revoked err d k i at_ = Ok b -> b = match m !! collate (k, i) with Some eff => str_le eff at_ | None => false end) /\
  (forall l, list_revocations err d = Ok l -> length l = size m /\ forall k i e, (k, i, e) ∈ l -> m !! collate (k, i) = Some e).
Proof.
  split; [|split].
  - intros k i e d' r. unfold insert. destruct (upsert d (k, i) e) as [d1 r1] eqn:E. intros [= <- <-].
    apply (upsert_keeps collate table T d m) in E; [|done]. by destruct r1.
  - intros k i at_ b. unfold is_revoked. intros (o & Ho%map_err_ok & [= <-])%bind_ok. by apply (select_keeps collate table T d m) in Ho as ->.
  - intros l. unfold list_revocations. intros (rs & Hr%map_err_ok & [= <-])%bind_ok. apply (all_keeps collate table T d m) in Hr as [H1 H2]; [|done].
    rewrite length_fmap. split; [done|]. intros k i e ([[k' i'] e'] & [= -> -> ->] & Hin)%list_elem_of_fmap. by apply H2.
Qed.

(** A second revocation of a target replaces the time of the first, so a
    later time lifts the revocation until then. *)
Theorem later_revocation_lifts {D} `{KeyTable D (string * string) string} (err : DbError -> StoreError) collate table d m k i e1 e2 at_ d1 d2 b
    (T : key_laws collate table) (Hd : keeps collate table d m)
    (H1 : insert err d k i e1 = (d1, Ok tt)) (H2 : insert err d1 k i e2 = (d2, Ok tt))
    (Hle : str_le e1 at_ = true) (Hlt : str_le e2 at_ = false) (Hb : is_revoked err d2 k i at_ = Ok b) : b = false.
Proof.
  unfold insert in H1, H2. destruct (upsert d (k, i) e1) as [d1' r1] eqn:E1, (upsert d1 (k, i) e2) as [d2' r2] eqn:E2.
  injection H1 as -> H1. injection H2 as -> H2. apply map_err_ok in H1 as ->, H2 as ->.
  apply (upsert_keeps collate table T d m) in E1; [|done]. eapply (upsert_keeps collate table T d1) in E2; [|exact E1].
  unfold is_revoked in Hb. apply bind_ok in Hb as (o & Ho%map_err_ok & [= <-]).
  eapply (select_keeps collate table T d2) in Ho as ->; [|exact E2]. by rewrite lookup_insert_eq.
Qed.

(** Bundles are a map from identifiers, as the collation tells them apart, to
    the bytes put last: two identifiers that the collation takes for equal are one
    bundle. *)
Theorem bundles_refine {D} `{KeyTable D string (list Z)} (err : DbError -> StoreError) collate table d m (T : key_laws collate table) (Hd : keeps collate table d m) :
  (forall id bs d', put err d id bs = (d', Ok tt) -> keeps collate table d' (<[collate id := bs]> m)) /\
  (forall id o, get err d id = Ok o -> o = m !! collate id) /\
  (forall l, list_bundles err d = Ok l -> length l = size m /\ forall id, id ∈ l -> is_Some (m !! collate id)) /\
  (forall id id' bs d' o, collate id = collate id' -> put err d id bs = (d', Ok tt) -> get err d' id' = Ok o -> o = Some bs).
Proof.
  assert (forall id bs d', put err d id bs = (d', Ok tt) -> keeps collate table d' (<[collate id := bs]> m)) as Hput.
  { intros id bs d'. unfold put. destruct (upsert d id bs) as [d1 r1] eqn:E. intros [= <- ->%map_err_ok].
    by apply (upsert_keeps collate table T d m) in E. }
  split; [exact Hput|]. split; [|split].
  - intros id o Ho%map_err_ok. by apply (select_keeps collate table T d m) in Ho.
  - intros l. unfold list_bundles. intros (rs & Hr%map_err_ok & [= <-])%bind_ok. apply (all_keeps collate table T d m) in Hr as [H1 H2]; [|done].
    rewrite length_fmap. split; [done|]. intros id ([id' bs] & -> & Hin)%list_elem_of_fmap. exists bs. by apply H2.
  - intros id id' bs d' o E Hp%Hput Ho%map_err_ok. eapply (select_keeps collate table T d') in Ho as ->; [|exact Hp]. rewrite <- E. by rewrite lookup_insert_eq.
Qed.

(** ** The start of the MySQL store *)

Lemma mysql_statements_init : Forall (fun s => Registry.contains s "proof_events" = false) (mysql_statements MYSQL_INIT).
Proof.
  assert (forallb (fun s => negb (Registry.contains s "proof_events")) (mysql_statements MYSQL_INIT) = true) as E by (vm_compute; reflexivity).
  rewrite forallb_forall in E. apply Forall_forall. intros s Hs%list_elem_of_In. by apply negb_true_iff, E.
Qed.

(** On a database without the table of events, a start of the MySQL store that
    succeeds leaves the table out, because the statement that creates it follows a
    comment and is skipped with it; every append then fails.  (A statement creates
    only tables that it names; an insertion needs its table.) *)
Theorem mysql_ledger_missing {D} `{LedgerTable D string} to_string sha256 execute (has_table : D -> string -> Prop) d d'
    (Hexec : forall d s d' r t, execute d s = (d', r) -> has_table d' t -> has_table d t \/ Registry.contains s t = true)
    (Hins : forall d h p d', insert_event d h p = (d', Ok tt) -> has_table d "proof_events")
    (Hnew : has_table d "proof_events" -> False) (Hopen : mysql_migrate execute d = (d', Ok tt)) :
  (has_table d' "proof_events" -> False) /\ forall v, is_ok (mysql_append to_string sha256 d' v).2 = false.
Proof.
  assert (has_table d' "proof_events" -> False) as Hno.
  { revert Hopen Hnew. unfold mysql_migrate. generalize mysql_statements_init. generalize (mysql_statements MYSQL_INIT) as stmts.
    intros stmts F. revert d. induction F as [|s stmts Hs _ IH]; intros d; cbn [run_statements]; [by intros [= <-]|].
    destruct (execute d s) as [d1 [[]|e]] eqn:E; [|discriminate]. intros Hr Hn. apply (IH _ Hr).
    intros Ht. destruct (Hexec _ _ _ _ _ E Ht) as [?|?]; [auto|congruence]. }
  split; [exact Hno|]. intros v. unfold mysql_append, append.
  destruct (canonical_hash to_string sha256 v) as [h|]; cbn [mbind result_bind]; [|done].
  destruct (mysql_encode to_string v) as [p|]; cbn [mbind result_bind]; [|done].
  destruct (insert_event d' h p) as [d1 [[]|e]] eqn:E; [|done]. exfalso. eauto.
Qed.

(** ** Revocations in Redis *)

Lemma redis_key_inj k i k' i' : ActorId.has ":" k = false -> ActorId.has ":" k' = false -> redis_key k i = redis_key k' i' -> k = k' /\ i = i'.
Proof. intros Hk Hk' E%str_app_inv_head. by apply ActorId.split_app_inj in E. Qed.

Lemma split_redis_key s k i : split_key s = Some (k, i) <-> s = redis_key k i /\ ActorId.has ":" k = false.
Proof.
  unfold split_key. split.
  - intros (rest & ->%strip_prefix_spec & [-> Hk]%ActorId.split_first_Some)%bind_Some. done.
  - intros [-> Hk]. unfold redis_key. rewrite (proj2 (strip_prefix_spec _ _ _) eq_refl). cbn [mbind option_bind]. by apply ActorId.split_first_app.
Qed.

(** [store] is the key space. *)
Record redis_laws (q : redis) (store : server q -> gmap string string) : Prop := {
  set_law : forall c k v c' r, set q c k v = (c', r) ->
    match r with Ok _ => store c' = <[k := v]> (store c) | Err _ => store c' = store c \/ store c' = <[k := v]> (store c) end;
  get_law : forall c k o, redis_get q c k = Ok o -> o = store c !! k;
  scan_law : forall c ks, scan q c (KEY_PREFIX +:+ "*") = Ok ks -> forall k, k ∈ ks <-> is_Some (store c !! k) /\ exists r, k = KEY_PREFIX +:+ r
}.

Lemma fetch_values_elem q text store c ks out k i e : redis_laws q store -> fetch_values q text c ks = Ok out ->
  (k, i, e) ∈ out <-> redis_key k i ∈ ks /\ ActorId.has ":" k = false /\ store c !! redis_key k i = Some e.
Proof.
  intros Q. revert out. induction ks as [|s ks IH]; intros out; cbn [fetch_values].
  { intros [= <-]. split; [by intros ?%not_elem_of_nil|by intros [?%not_elem_of_nil _]]. }
  rewrite elem_of_cons. destruct (split_key s) as [[k' i']|] eqn:Es.
  - apply split_redis_key in Es as [-> Hk']. intros (o & Ho%map_err_ok & (out' & Hout & [= <-])%bind_ok)%bind_ok.
    apply (get_law _ _ Q) in Ho as ->. specialize (IH _ Hout).
    assert ((k, i, e) ∈ match store c !! redis_key k' i' with Some eff => (k', i', eff) :: out' | None => out' end <->
      (store c !! redis_key k' i' = Some e /\ (k, i) = (k', i')) \/ (k, i, e) ∈ out') as ->.
    { destruct (store c !! redis_key k' i') as [eff|]; [|naive_solver]. rewrite elem_of_cons. naive_solver. }
    rewrite IH. split; [intros [[H [= -> ->]]|?]; tauto|]. intros ([E|Hin] & Hk & He); [|tauto]. left.
    destruct (redis_key_inj _ _ _ _ Hk Hk' E) as [-> ->]. done.
  - intros H. rewrite (IH _ H). split; [tauto|]. intros ([E|Hin] & Hk & He); [|tauto].
    rewrite <- E, (proj2 (split_redis_key _ _ _) (conj eq_refl Hk)) in Es. discriminate.
Qed.

(** For kinds without a colon the Redis cache is a map from targets to times:
    an insertion sets the time of its target and of no other, a target is revoked
    exactly when its time is not after the one asked for, and the listing has
    exactly the entries of the map. *)
Theorem redis_exact q text store c (Q : redis_laws q store) :
  (forall k i e c', ActorId.has ":" k = false -> redis_insert q text c k i e = (c', Ok tt) ->
    forall k' i', ActorId.has ":" k' = false ->
    store c' !! redis_key k' i' = if bool_decide ((k, i) = (k', i')) then Some e else store c !! redis_key k' i') /\
  (forall k i at_ b, redis_is_revoked q text c k i at_ = Ok b ->
    b = match store c !! redis_key k i with Some eff => str_le eff at_ | None => false end) /\
  (forall l, redis_list q text c = Ok l -> forall k i e, ActorId.has ":" k = false -> (k, i, e) ∈ l <-> store c !! redis_key k i = Some e).
Proof.
  split; [|split].
  - intros k i e c' Hk H k' i' Hk'. unfold redis_insert in H. destruct (set q c (redis_key k i) e) as [c1 r] eqn:E. injection H as -> ->%map_err_ok.
    apply (set_law _ _ Q) in E as ->. destruct (bool_decide_reflect ((k, i) = (k', i'))) as [[= -> ->]|Hne]; [by rewrite lookup_insert_eq|].
    rewrite lookup_insert_ne; [done|]. intros Ek. destruct (redis_key_inj _ _ _ _ Hk Hk' Ek) as [-> ->]. done.
  - intros k i at_ b. unfold redis_is_revoked. intros (o & Ho%map_err_ok & [= <-])%bind_ok. by apply (get_law _ _ Q) in Ho as ->.
  - intros l. unfold redis_list. intros (ks & Hk%map_err_ok & (out & Ho & [= <-])%bind_ok)%bind_ok k i e Hc.
    rewrite merge_sort_Permutation, (fetch_values_elem q text store c ks out k i e Q Ho), (scan_law _ _ Q _ _ Hk). split; [tauto|].
    intros He. split_and!; [by exists e|by eexists|done|done].
Qed.

(** A colon in a kind makes one target of two. *)
Example redis_key_clash : redis_key "actor:human" "eve" = redis_key "actor" "human:eve".
Proof. reflexivity. Qed.

(** ** Witnesses *)

Definition toy_sha (bs : list Z) : list Z := (fun b => b mod 256) <$> bs.
Definition toy_text (v : json) : result string string := match v with JString s => Ok s | JObject ((k, _) :: _) => Ok k | _ => Err "text" end.
Definition toy_read (s : string) : result string json := Ok (JString s).
Definition find_payload (h : string) (l : list (row string)) : option string := row_payload <$> List.find (fun r => (row_hash r =? h)%string) l.

(** SQLite as the rows and the counter. *)
Definition toy_sqlite : sqlite := {|
  conn := list (row string) * Z;
  unchecked_transaction := fun _ => Ok tt;
  update_seq := fun c => Ok (c.1, c.2 + 1);
  select_seq := fun c => Ok c.2;
  insert_or_ignore := fun c h p s => Ok (if bool_decide (h ∈ hashes c.1) then c else (c.1 ++ [mk_row h p s], c.2));
  commit := fun _ => Ok tt;
  sqlite_select := fun c h => Ok (find_payload h c.1);
  sqlite_select_tail := fun c n => Ok (row_payload <$> tail_of (Z.to_nat n) c.1) |}.
Lemma toy_sqlite_laws : sqlite_laws toy_sqlite fst snd.
Proof.
  split; cbn.
  - by intros c c' [= <-].
  - by intros c n [= <-].
  - intros c h p s c' [= <-]. destruct (bool_decide_reflect (h ∈ hashes c.1)); cbn; auto.
  - by intros c h o [= <-].
  - by intros c n ps _ [= <-].
Qed.

Lemma sqlite_ledger_laws_witness : ledger_laws (H := sqlite_ledger toy_sqlite) fst snd id id.
Proof. exact (sqlite_ledger_laws toy_sqlite fst snd toy_sqlite_laws). Defined.

Definition toy_normal (v : json) : json := JString match toy_text v with Ok s => s | Err _ => "" end.
Lemma toy_codec v p : (json_depth v < 128)%nat -> sqlite_encode toy_text v = Ok p -> sqlite_decode toy_read p = Ok (toy_normal v).
Proof. unfold sqlite_encode, toy_normal. intros _ H%map_err_ok. by rewrite H. Qed.

Definition empty_db : conn toy_sqlite := ([], 0).
Definition event_a : json := JString "a".
Lemma empty_holds : holds fst snd (sqlite_decode toy_read) empty_db [].
Proof. split; [|constructor..]. split_and!; [constructor|constructor|constructor]. Qed.
Lemma sql_sha_bytes bs : is_bytes (toy_sha bs).
Proof. apply Forall_fmap, Forall_true. intros b. unfold is_u8. cbn. pose proof (Z.mod_pos_bound b 256). lia. Qed.

Lemma ledger_refines_witness : exists d', sqlite_append toy_text toy_sha empty_db event_a = (d', Ok "61") /\
  holds fst snd (sqlite_decode toy_read) d' (spec_append "61" (Ok (JString "a")) []).
Proof.
  eexists. split; [vm_compute; reflexivity|].
  destruct (ledger_refines (H := sqlite_ledger toy_sqlite) toy_text toy_sha fst snd id id sqlite_err (sqlite_encode toy_text) (sqlite_decode toy_read)
    toy_normal empty_db [] sql_sha_bytes (sqlite_laws_ledger _ _ _ toy_sqlite_laws) toy_codec empty_holds) as [Ha _].
  destruct (Ha event_a ([mk_row "61" "a" 1], 1) (Ok "61")) as (entry & He & _ & _ & Hl); [vm_compute; reflexivity|].
  rewrite He in Hl; [exact Hl|apply Nat.ltb_lt; vm_compute; reflexivity|reflexivity].
Defined.

(** An event that the reader refuses is appended with success; it and every
    tail it is in can no longer be read. *)
Definition shallow_read (s : string) : result string json := if (s =? "deep")%string then Err "recursion limit exceeded" else Ok (JString s).
Example unreadable_event_blocks_tail :
  let '(d, _) := sqlite_append toy_text toy_sha empty_db event_a in
  let '(d, r) := sqlite_append toy_text toy_sha d (JString "deep") in
  r = Ok "64656570" /\ sqlite_tail shallow_read d 5 = Err (Other "deserialize event: recursion limit exceeded") /\
  sqlite_lookup shallow_read d "64656570" = Err (Other "deserialize event: recursion limit exceeded").
Proof. vm_compute. repeat split. Qed.

Example sqlite_runs :
  let '(d, _) := sqlite_append toy_text toy_sha empty_db event_a in
  let '(d, _) := sqlite_append toy_text toy_sha d (JString "b") in
  let '(d, r) := sqlite_append toy_text toy_sha d event_a in
  r = Ok "61" /\ sqlite_tail toy_read d 5 = Ok [event_a; JString "b"] /\ sqlite_tail toy_read d 1 = Ok [JString "b"] /\
  sqlite_lookup toy_read d "62" = Ok (Some (JString "b")) /\ sqlite_lookup toy_read d "63" = Ok None.
Proof. vm_compute. repeat split. Qed.

Lemma hash_ignores_order_witness :
  canonical_hash toy_text toy_sha (JObject [("b", JNull); ("a", JNull)]) = canonical_hash toy_text toy_sha (JObject [("a", JNull); ("b", JNull)]).
Proof.
  apply (hash_ignores_order toy_text toy_sha); [constructor|]. repeat constructor; cbn; set_solver.
Defined.

(** A table with a key, under a collation that ignores case. *)
Section toy_table.
Context {K V : Type} `{Countable K} (collate : K -> K).
Definition toy_table : KeyTable (gmap K (K * V)) K V := {|
  upsert := fun d k v => (<[collate k := (default k (fst <$> d !! collate k), v)]> d, Ok tt);
  select_key := fun d k => Ok (snd <$> d !! collate k);
  select_all := fun d => Ok (map_to_list d).*2 |}.
Lemma toy_table_laws : key_laws (H0 := toy_table) collate id.
Proof. split; cbn; [by intros d k v d' r [= <- <-]|by intros d k o [= <-]|by intros d l [= <-]]. Qed.
Lemma toy_table_empty : keeps (V := V) collate id ∅ ∅.
Proof. split; [exact (fmap_empty (M := gmap K) snd)|]. cbn [id]. intros k v. by rewrite lookup_empty. Qed.
End toy_table.
Definition lower := ActorId.to_ascii_lowercase.
Definition lower2 (k : string * string) : string * string := (lower k.1, lower k.2).
Definition rev_table : KeyTable (gmap (string * string) (string * string * string)) (string * string) string := toy_table lower2.
Definition bundle_table : KeyTable (gmap string (string * list Z)) string (list Z) := toy_table lower.

Lemma revocations_refine_witness : exists d, insert (H := rev_table) sqlx_err ∅ "actor" "Eve" "2026" = (d, Ok tt) /\
  keeps lower2 id d {[("actor", "eve") := "2026"]}.
Proof.
  eexists. split; [vm_compute; reflexivity|].
  refine (proj1 (revocations_refine (H := rev_table) sqlx_err lower2 id ∅ ∅ (toy_table_laws lower2) (toy_table_empty lower2)) "actor" "Eve" "2026" _ (Ok tt) _).
  vm_compute. reflexivity.
Defined.

Definition revoked_once := insert (H := rev_table) sqlx_err ∅ "actor" "eve" "2026".
Definition revoked_twice := insert (H := rev_table) sqlx_err revoked_once.1 "actor" "eve" "2030".
Lemma later_revocation_lifts_witness : is_revoked (H := rev_table) sqlx_err revoked_once.1 "actor" "eve" "2027" = Ok true /\
  exists b, is_revoked (H := rev_table) sqlx_err revoked_twice.1 "actor" "eve" "2027" = Ok b /\ b = false.
Proof.
  split; [vm_compute; reflexivity|]. exists false. split; [vm_compute; reflexivity|].
  apply (later_revocation_lifts (H := rev_table) sqlx_err lower2 id ∅ ∅ "actor" "eve" "2026" "2030" "2027" revoked_once.1 revoked_twice.1 false
    (toy_table_laws lower2) (toy_table_empty lower2)); vm_compute; reflexivity.
Defined.

(** Under such a collation one bundle overwrites another. *)
Lemma bundles_refine_witness : exists d1 d2, put (H := bundle_table) sqlx_err ∅ "Case-1" [1] = (d1, Ok tt) /\
  put (H := bundle_table) sqlx_err d1 "case-1" [2] = (d2, Ok tt) /\ get (H := bundle_table) sqlx_err d2 "Case-1" = Ok (Some [2]) /\
  keeps lower id d1 {["case-1" := [1]]}.
Proof.
  do 2 eexists. split; [vm_compute; reflexivity|]. split; [vm_compute; reflexivity|]. split; [vm_compute; reflexivity|].
  refine (proj1 (bundles_refine (H := bundle_table) sqlx_err lower id ∅ ∅ (toy_table_laws lower) (toy_table_empty lower)) "Case-1" [1] _ _).
  vm_compute. reflexivity.
Defined.

(** MySQL as the statements that were executed. *)
Definition creates (d : list string) (t : string) : bool := existsb (fun s => Registry.contains s t) d.
Definition toy_execute (d : list string) (s : string) : list string * result DbError unit := (s :: d, Ok tt).
Definition toy_mysql : LedgerTable (list string) string := {|
  insert_event := fun d _ _ => (d, if creates d "proof_events" then Ok tt else Err (OtherDb "table does not exist"));
  select_event := fun _ _ => Ok None;
  select_tail := fun _ _ => Ok [] |}.
Lemma mysql_ledger_missing_witness : exists d, mysql_migrate toy_execute [] = (d, Ok tt) /\ length d = 2%nat /\
  is_ok (mysql_append (H := toy_mysql) toy_text toy_sha d event_a).2 = false.
Proof.
  eexists. split; [vm_compute; reflexivity|]. split; [reflexivity|].
  eapply (mysql_ledger_missing (H := toy_mysql) toy_text toy_sha toy_execute (fun d t => creates d t = true) []).
  - intros d s d' r t [= <- <-]. unfold creates. cbn [existsb]. intros [?|?]%orb_true_iff; auto.
  - intros d h p d'. cbn. destruct (creates d "proof_events"); [done|discriminate].
  - discriminate.
  - vm_compute. reflexivity.
Defined.

Definition toy_redis : redis := {|
  server := gmap string string;
  set := fun c k v => (<[k := v]> c, Ok tt);
  redis_get := fun c k => Ok (c !! k);
  scan := fun c _ => Ok (filter (fun k => String.prefix KEY_PREFIX k = true) (map_to_list c).*1) |}.
Lemma toy_redis_laws : redis_laws toy_redis id.
Proof.
  split; cbn; [by intros c k v c' r [= <- <-]|by intros c k o [= <-]|]. intros c ks [= <-] k. rewrite list_elem_of_filter, list_elem_of_fmap.
  rewrite Registry.str_prefix_app. split.
  - intros [Hp ([k' v] & -> & Hin%elem_of_map_to_list)]. split; [by exists v|done].
  - intros [[v Hv] Hp]. split; [done|]. exists (k, v). split; [done|]. by apply elem_of_map_to_list.
Qed.

Lemma redis_exact_witness : exists c, redis_insert toy_redis (fun _ => "") ∅ "actor" "a:b" "2026" = (c, Ok tt) /\
  redis_list toy_redis (fun _ => "") c = Ok [("actor", "a:b", "2026")] /\ redis_is_revoked toy_redis (fun _ => "") c "actor" "a:b" "2027" = Ok true /\
  id c !! redis_key "actor" "a" = id (∅ : gmap string string) !! redis_key "actor" "a".
Proof.
  eexists. split; [vm_compute; reflexivity|]. split; [vm_compute; reflexivity|]. split; [vm_compute; reflexivity|].
  refine (proj1 (redis_exact toy_redis (fun _ => "") id ∅ toy_redis_laws) "actor" "a:b" "2026" _ _ _ "actor" "a" _); [reflexivity|vm_compute; reflexivity|reflexivity].
Defined.

End SqlStores.
