(* ===== verification/Agents.v ===== *)
(** * Agents: agent cards, tool lists, Matrix events and gRPC channels
      ([bridge_a2a.rs], [bridge_mcp.rs], [bridge_matrix.rs], [bridge_grpc.rs])

    Names are lists of characters while they are normalised.  The checks of the
    two action-name validators are those of [Registry]; the type of session
    frames, serde_json, Unicode normalisation and the text of a double are
    arguments.  A gRPC channel is the list of its replies, one per call.

    - [mcp_import_iff], [a2a_names_valid]: which tools and capabilities are
      taken over, and as what;
    - [matrix_sender_unique]: where an actor determines the Matrix user;
      [matrix_senders_collide]: where it does not;
    - [grpc_listeners_served]: what a listener of the gRPC bridge is given;
    - [danger_tag_lost]: a tool that loses its warnings. *)

From S2P Require Import Prelude Utf8 Json Clock Canonical ActorId Bridges Jws Registry.
Import Bridges(BridgeError(..)).

#[local] Open Scope string_scope.
#[local] Open Scope list_scope.
#[local] Open Scope Z_scope.

Module Agents.

(** ** Names *)

Definition is_lower (c : Z) : bool := (97 <=? c) && (c <=? 122).
Definition is_upper (c : Z) : bool := (65 <=? c) && (c <=? 90).
Definition is_digit (c : Z) : bool := (48 <=? c) && (c <=? 57).
Definition is_alnum (c : Z) : bool := is_lower c || is_upper c || is_digit c.
Definition to_lower (c : Z) : Z := if is_upper c then c + 32 else c.
(** The loop over the characters; the flag is [last_underscore]. *)
Fixpoint scrub (last : bool) (cs : list Z) : list Z :=
  match cs with
  | [] => []
  | c :: cs => if is_alnum c then to_lower c :: scrub false cs else if last then scrub last cs else 95 :: scrub true cs
  end.
(** [trim_matches('_')]. *)
Fixpoint trim_left (cs : list Z) : list Z := match cs with c :: r => if c =? 95 then trim_left r else cs | [] => [] end.
Definition trim_underscores (cs : list Z) : list Z := reverse (trim_left (reverse (trim_left cs))).
Definition scrubbed (name : string) : string := str_of_chars (trim_underscores (scrub false (chars name))).

Definition a2a_normalise_capability (name : string) (prefix : option string) : string :=
  let with_prefix := match prefix with Some p => p +:+ "." +:+ scrubbed name | None => scrubbed name end in
  if ActorId.has "." with_prefix then with_prefix else "a2a." +:+ with_prefix.
Definition normalize_tool_name (name : string) (prefix : option string) : string :=
  let with_prefix := match prefix with Some p => if negb (str_is_empty p) then p +:+ "." +:+ scrubbed name else scrubbed name | None => scrubbed name end in
  if ActorId.has "." with_prefix then with_prefix else "mcp." +:+ with_prefix.

(** [is_valid_action_name] of either file: segments are those of [Registry]. *)
Definition is_valid_action_name (s : string) : bool :=
  let segs := Jws.split "." s in forallb Registry.valid_action_segment segs && (2 <=? length segs)%nat.

(** ** Agent cards *)

Record A2ACapability := mk_A2ACapability { cap_name : string; cap_description : option string; risk : option string }.
Record A2AAgentCard := mk_A2AAgentCard {
  agent_id : string; display_name : option string; public_key_b64 : option string; public_key_algorithm : option string;
  capabilities : list A2ACapability; card_domain : string }.
Record A2ABridgeConfig := mk_A2ABridgeConfig { bridge_id : string; trust_domain : string; default_risk : option string }.
Record ProjectedActor := mk_ProjectedActor { actor_id : string; algorithm : string; public_key : string; projected : list (string * string) }.

Fixpoint project_capabilities (cfg : A2ABridgeConfig) (cs : list A2ACapability) : result BridgeError (list (string * string)) :=
  match cs with
  | [] => Ok []
  | c :: cs =>
    let action := a2a_normalise_capability (cap_name c) None in
    if negb (is_valid_action_name action) then
      Err (Rejected ("A2A capability " +:+ cap_name c +:+ " does not normalise to a valid action name (got " +:+ action +:+ ")"))
    else
      rest ← project_capabilities cfg cs;
      Ok ((action, default "R2" (opt_or (risk c) (default_risk cfg))) :: rest)
  end.
Definition accept_agent_card (cfg : A2ABridgeConfig) (card : A2AAgentCard) : result BridgeError ProjectedActor :=
  if str_is_empty (agent_id card) || str_is_empty (card_domain card) then Err (InvalidInput "AgentCard missing agent_id or trust_domain")
  else
    let '(alg, pk) :=
      match public_key_b64 card, public_key_algorithm card with
      | Some pk, Some alg => (alg, pk)
      | Some pk, None => ("ed25519", pk)
      | None, _ => ("external-attestation", "agent-card:" +:+ agent_id card)
      end in
    caps ← project_capabilities cfg (capabilities card);
    Ok (mk_ProjectedActor ("tf:actor:agent:" +:+ card_domain card +:+ "/" +:+ agent_id card) alg pk caps).

(** ** Tool lists *)

Record McpTool := mk_McpTool { tool_name : string; tool_description : option string; input_schema : option json }.
Record McpImportOptions := mk_McpImportOptions {
  opt_risk : option string; opt_approval : option string; opt_proof : option string; danger_tag_map : gmap string (list string); name_prefix : option string }.
Record McpAction := mk_McpAction {
  name : string; act_risk : string; approval : string; proof : option string; description : option string; parameters : option json;
  danger_tags : option (list string) }.
Definition is_nil {A} (l : list A) : bool := match l with [] => true | _ => false end.
Fixpoint mcp_to_contract_actions (tools : list McpTool) (opts : McpImportOptions) : result BridgeError (list McpAction) :=
  match tools with
  | [] => Ok []
  | tool :: tools =>
    if str_is_empty (tool_name tool) then Err (InvalidInput "MCP tool missing a name")
    else
      let action_name := normalize_tool_name (tool_name tool) (name_prefix opts) in
      if negb (is_valid_action_name action_name) then
        Err (InvalidInput ("MCP tool " +:+ tool_name tool +:+ " produced invalid action name " +:+ action_name))
      else
        rest ← mcp_to_contract_actions tools opts;
        Ok (mk_McpAction action_name (default "R2" (opt_risk opts)) (default "conditional" (opt_approval opts)) (opt_proof opts)
              (tool_description tool) (input_schema tool) (opt_filter (fun t => negb (is_nil t)) (danger_tag_map opts !! tool_name tool)) :: rest)
  end.
(** The warning sign, its variation selector and a space in UTF-8. *)
Definition warning_sign : string := str_of_bytes [0xe2; 0x9a; 0xa0; 0xef; 0xb8; 0x8f; 32].
Definition contract_to_mcp_tool (action : McpAction) : McpTool :=
  let warning := match danger_tags action with
                 | Some tags => if is_nil tags then "" else warning_sign +:+ String.concat ", " tags +:+ ". "
                 | None => ""
                 end in
  let text := trim_str (warning +:+ default "" (description action)) in
  mk_McpTool (name action) (if str_is_empty text then None else Some text) (parameters action).
Definition contract_to_mcp_tools (actions : list McpAction) : list McpTool := contract_to_mcp_tool <$> actions.

(** ** Matrix events *)

Record MatrixEvent := mk_MatrixEvent {
  event_id : string; room_id : string; kind : string; sender : string; origin_server_ts : Z; content : json; state_key : option string; signatures : option json }.
Definition map_sender (sender : string) : result BridgeError string :=
  let bad := InvalidInput ("cannot map non-Matrix sender: " +:+ sender) in
  rest ← ok_or (strip_prefix "@" sender) bad;
  '(local, server) ← ok_or (ActorId.split_first ":" rest) bad;
  Ok ("tf:actor:human:" +:+ server +:+ "/" +:+ local).
(** [div_euclid] by 1000. *)
Definition ms_to_iso8601 (ms : Z) : string := Clock.now_iso8601 (ms / 1000).
Definition opt_json {A} (f : A -> json) (o : option A) : json := match o with Some a => f a | None => JNull end.
Definition matrix_event_to_proof_event (default_level : option string) (m : MatrixEvent) : result BridgeError json :=
  if str_is_empty (event_id m) || str_is_empty (sender m) || str_is_empty (kind m) then
    Err (InvalidInput "Matrix event missing event_id / sender / type")
  else
    actor ← map_sender (sender m);
    let tf_type :=
      if (kind m =? "m.room.message")%string then "matrix.message"
      else match strip_prefix "m." (kind m) with Some rest => "matrix." +:+ rest | None => kind m end in
    Ok (JObject
      [("actor_id", JString actor);
       ("context", JObject [("matrix", JObject [("content", content m); ("room_id", JString (room_id m));
                                                ("server_signatures", opt_json id (signatures m)); ("state_key", opt_json JString (state_key m))])]);
       ("event_version", JString "1"); ("id", JString (event_id m)); ("level", JString (default "L1" default_level));
       ("signature", JObject [("algorithm", JString "ed25519"); ("signature", JString "AAAA"); ("signer", JString actor)]);
       ("timestamp", JString (ms_to_iso8601 (origin_server_ts m))); ("type", JString tf_type)]).

(** ** What names become *)

Definition plain (c : Z) : bool := is_lower c || is_digit c || (c =? 95).
Lemma to_lower_plain c : is_alnum c = true -> plain (to_lower c) = true /\ (to_lower c =? 95) = false.
Proof. unfold plain, is_alnum, to_lower, is_lower, is_upper, is_digit. intros H. repeat case_match; lia. Qed.
Lemma scrub_plain cs : forall last, Forall (fun c => plain c = true) (scrub last cs).
Proof.
  induction cs as [|c cs IH]; intros last; cbn [scrub]; [constructor|]. destruct (is_alnum c) eqn:E; [constructor; [by apply to_lower_plain|done]|].
  destruct last; [done|]. by constructor.
Qed.
(** The first letter or digit of a text and what follows it. *)
Fixpoint first_alnum (cs : list Z) : option (Z * list Z) := match cs with [] => None | c :: r => if is_alnum c then Some (c, r) else first_alnum r end.
Lemma trim_scrub cs : forall last, trim_left (scrub last cs) = match first_alnum cs with Some (c, r) => to_lower c :: scrub false r | None => [] end.
Proof.
  induction cs as [|c cs IH]; intros last; [done|]. cbn [scrub first_alnum]. destruct (is_alnum c) eqn:E.
  - cbn [trim_left]. by rewrite (proj2 (to_lower_plain c E)).
  - destruct last; [apply IH|]. cbn [trim_left]. by rewrite IH.
Qed.
Lemma trim_left_snoc l x : (x =? 95) = false -> exists l', trim_left (l ++ [x]) = l' ++ [x] /\ (forall P, Forall P l -> Forall P l').
Proof.
  intros X. induction l as [|c l IH]; cbn [app trim_left].
  - rewrite X. by exists [].
  - destruct (c =? 95); [|by exists (c :: l)]. destruct IH as (l' & -> & H). exists l'. split; [done|]. intros P [_ F]%Forall_cons. by apply H.
Qed.
Lemma trim_underscores_first cs c r : first_alnum cs = Some (c, r) ->
  exists w, trim_underscores (scrub false cs) = to_lower c :: w /\ Forall (fun c => plain c = true) w.
Proof.
  intros F. unfold trim_underscores. rewrite trim_scrub, F, reverse_cons.
  assert (is_alnum c = true) as A by (clear -F; induction cs as [|d cs IH]; [done|]; cbn in F; destruct (is_alnum d) eqn:E; [by injection F as -> ->|auto]).
  destruct (trim_left_snoc (reverse (scrub false r)) (to_lower c)) as (l' & -> & H); [by apply to_lower_plain|].
  exists (reverse l'). rewrite reverse_app. split; [done|]. apply Forall_reverse, H, Forall_reverse, scrub_plain.
Qed.
Lemma plain_text l : Forall (fun c => plain c = true) l -> str_of_chars l = str_of_bytes l.
Proof.
  unfold str_of_chars. intros F. f_equal. induction F as [|c l C F IH]; [done|]. cbn [flat_map]. rewrite IH.
  unfold encode_char. assert ((c <? 0x80) = true) as -> by (unfold plain, is_lower, is_digit in C; lia). done.
Qed.
Lemma plain_ascii c : plain c = true -> Z.of_N (N_of_ascii (ascii_of_N (Z.to_N c))) = c.
Proof. unfold plain, is_lower, is_digit. intros H. rewrite N_ascii_embedding; lia. Qed.
Lemma str_of_bytes_cons c l : str_of_bytes (c :: l) = String (ascii_of_N (Z.to_N c)) (str_of_bytes l).
Proof. done. Qed.
Lemma plain_tail l : Forall (fun c => plain c = true) l ->
  Registry.all_chars (fun c => Registry.is_ascii_lowercase c || Registry.is_ascii_digit c || Ascii.eqb c "_") (str_of_bytes l) = true.
Proof.
  induction 1 as [|c l C F IH]; [done|]. rewrite str_of_bytes_cons. cbn [Registry.all_chars]. rewrite IH, andb_true_r.
  pose proof (plain_ascii c C) as E. unfold Registry.is_ascii_lowercase, Registry.is_ascii_digit. unfold plain, is_lower, is_digit in C.
  destruct (Z.eqb_spec c 95) as [->|N]; [done|]. apply orb_true_iff. left.
  rewrite orb_true_iff, !andb_true_iff, !N.leb_le. lia.
Qed.
Lemma plain_no_dot l : Forall (fun c => plain c = true) l -> ActorId.has "." (str_of_bytes l) = false.
Proof.
  induction 1 as [|c l C F IH]; [done|]. rewrite str_of_bytes_cons. cbn [ActorId.has]. rewrite IH, orb_false_r.
  destruct (Ascii.eqb_spec (ascii_of_N (Z.to_N c)) ".") as [E|]; [|done]. apply (f_equal (fun a => Z.of_N (N_of_ascii a))) in E.
  rewrite plain_ascii in E by done. subst c. done.
Qed.
Lemma scrubbed_plain name : exists l, scrubbed name = str_of_bytes l /\ Forall (fun c => plain c = true) l /\
  match first_alnum (chars name) with Some (c, _) => exists w, l = to_lower c :: w | None => l = [] end.
Proof.
  unfold scrubbed. destruct (first_alnum (chars name)) as [[c r]|] eqn:F.
  - destruct (trim_underscores_first _ _ _ F) as (w & E & W). exists (to_lower c :: w). rewrite E.
    assert (is_alnum c = true) as A by (clear -F; induction (chars name) as [|d cs IH]; [done|]; cbn in F; destruct (is_alnum d) eqn:E; [by injection F as -> ->|auto]).
    assert (Forall (fun c => plain c = true) (to_lower c :: w)) as P by (constructor; [by apply to_lower_plain|done]).
    split; [by apply plain_text|]. split; [done|eauto].
  - exists []. unfold trim_underscores. by rewrite trim_scrub, F.
Qed.
(** The first letter or digit of the name is a letter. *)
Definition nameable (name : string) : bool := match first_alnum (chars name) with Some (c, _) => is_lower c || is_upper c | None => false end.
Lemma scrubbed_segment name : Registry.valid_action_segment (scrubbed name) = nameable name.
Proof.
  destruct (scrubbed_plain name) as (l & -> & P & F). unfold nameable. destruct (first_alnum (chars name)) as [[c r]|]; [|by rewrite F].
  destruct F as (w & ->). apply Forall_cons in P as [C W]. rewrite str_of_bytes_cons. cbn [Registry.valid_action_segment].
  rewrite (plain_tail w W). pose proof (plain_ascii _ C) as E.
  assert (Registry.is_ascii_lowercase (ascii_of_N (Z.to_N (to_lower c))) = is_lower c || is_upper c) as ->; [|by destruct (is_lower c || is_upper c)].
  unfold Registry.is_ascii_lowercase. clear W. unfold plain in C. unfold to_lower, is_lower, is_upper, is_digit in *.
  apply eq_true_iff_eq. rewrite andb_true_iff, !N.leb_le. case_match; lia.
Qed.
Lemma has_split s : ActorId.has "." s = false -> Jws.split "." s = [s].
Proof.
  induction s as [|c s IH]; [done|]. cbn [ActorId.has Jws.split]. intros [C S]%orb_false_iff. rewrite C, (IH S). done.
Qed.
Lemma prefixed_valid p name : Registry.no_dot p -> Registry.valid_action_segment p = true -> is_valid_action_name (p +:+ "." +:+ scrubbed name) = nameable name.
Proof.
  intros N V. unfold is_valid_action_name. rewrite Registry.split_word_dot by done.
  destruct (scrubbed_plain name) as (l & E & P & _). rewrite has_split by (rewrite E; by apply plain_no_dot).
  cbn [forallb length]. rewrite V, scrubbed_segment. by destruct (nameable name).
Qed.
Lemma default_name name : normalize_tool_name name None = "mcp." +:+ scrubbed name /\ a2a_normalise_capability name None = "a2a." +:+ scrubbed name.
Proof.
  unfold normalize_tool_name, a2a_normalise_capability. destruct (scrubbed_plain name) as (l & -> & P & _). by rewrite plain_no_dot.
Qed.

(** The action a tool becomes. *)
Definition action_of_tool (opts : McpImportOptions) (t : McpTool) : McpAction :=
  mk_McpAction ("mcp." +:+ scrubbed (tool_name t)) (default "R2" (opt_risk opts)) (default "conditional" (opt_approval opts)) (opt_proof opts)
    (tool_description t) (input_schema t) (opt_filter (fun t => negb (is_nil t)) (danger_tag_map opts !! tool_name t)).
Lemma nameable_nonempty n : nameable n = true -> str_is_empty n = false.
Proof. by destruct n. Qed.
(** without a prefix, a tool list is taken over exactly when the first letter
    or digit of every name is a letter; the actions are then those of the tools,
    in order, each a valid name in the [mcp] segment. *)
Theorem mcp_import_iff opts tools acts (Hp : name_prefix opts = None) :
  (mcp_to_contract_actions tools opts = Ok acts <-> Forall (fun t => nameable (tool_name t) = true) tools /\ acts = action_of_tool opts <$> tools) /\
  (mcp_to_contract_actions tools opts = Ok acts -> Forall (fun a => is_valid_action_name (name a) = true) acts).
Proof.
  assert (mcp_to_contract_actions tools opts = Ok acts <-> Forall (fun t => nameable (tool_name t) = true) tools /\ acts = action_of_tool opts <$> tools) as K.
  { revert acts. induction tools as [|t tools IH]; intros acts; cbn [mcp_to_contract_actions fmap list_fmap].
    { split; [by intros <-%Ok_inj|by intros [_ ->]]. }
    rewrite Hp, (proj1 (default_name _)), Forall_cons. change ("mcp." +:+ ?w) with ("mcp" +:+ "." +:+ w). rewrite prefixed_valid by done.
    destruct (nameable (tool_name t)) eqn:N; [rewrite (nameable_nonempty _ N)|destruct (str_is_empty (tool_name t)); naive_solver]. cbn [negb].
    destruct (mcp_to_contract_actions tools opts) as [rest|e] eqn:R; cbn [mbind result_bind].
    - pose proof (proj1 (IH rest) eq_refl) as [F ->]. split; [intros <-%Ok_inj; done|intros [_ ->]; done].
    - split; [done|]. intros [[_ F] _]. pose proof (proj2 (IH _) (conj F eq_refl)) as Q. done. }
  split; [done|]. intros [F ->]%K. apply Forall_fmap. eapply Forall_impl; [exact F|]. intros t N. cbn.
  change ("mcp." +:+ scrubbed (tool_name t)) with ("mcp" +:+ "." +:+ scrubbed (tool_name t)). by rewrite prefixed_valid.
Qed.
Definition options1 : McpImportOptions := mk_McpImportOptions None None None {[ "delete-all" := ["destructive"] ]} None.
Lemma mcp_import_iff_witness :
  mcp_to_contract_actions [mk_McpTool "Read File!" None None; mk_McpTool "_ping" None None] options1
  = Ok (action_of_tool options1 <$> [mk_McpTool "Read File!" None None; mk_McpTool "_ping" None None]).
Proof. apply (mcp_import_iff options1 _ _ eq_refl). split; [|done]. by repeat constructor. Defined.
(** A tool whose name differs from a tagged one only in what is scrubbed becomes
    the same action, without the tags. *)
Example danger_tag_lost :
  action_of_tool options1 (mk_McpTool "delete-all" None None) = mk_McpAction "mcp.delete_all" "R2" "conditional" None None None (Some ["destructive"]) /\
  action_of_tool options1 (mk_McpTool "delete_all" None None) = mk_McpAction "mcp.delete_all" "R2" "conditional" None None None None.
Proof. by vm_compute. Qed.

(** The capabilities of an accepted agent card are valid actions of the [a2a]
    segment, one for each capability of the card, in order. *)
Theorem a2a_names_valid cfg card actor : accept_agent_card cfg card = Ok actor ->
  Forall (fun c => nameable (cap_name c) = true) (capabilities card) /\
  fst <$> projected actor = (fun c => "a2a." +:+ scrubbed (cap_name c)) <$> capabilities card /\
  Forall (fun a => is_valid_action_name (fst a) = true) (projected actor).
Proof.
  unfold accept_agent_card. case_match; [done|]. destruct (match public_key_b64 card with Some _ => _ | None => _ end) as [alg pk].
  destruct (project_capabilities cfg (capabilities card)) as [caps|] eqn:E; cbn [mbind result_bind]; [|done]. intros <-%Ok_inj. cbn [projected].
  revert caps E. induction (capabilities card) as [|c cs IH]; intros caps; cbn [project_capabilities].
  { intros <-%Ok_inj. repeat constructor. }
  rewrite (proj2 (default_name _)). change ("a2a." +:+ scrubbed (cap_name c)) with ("a2a" +:+ "." +:+ scrubbed (cap_name c)). rewrite prefixed_valid by done.
  destruct (nameable (cap_name c)) eqn:N; cbn [negb]; [|done].
  destruct (project_capabilities cfg cs) as [rest|]; cbn [mbind result_bind]; [|done]. intros <-%Ok_inj.
  destruct (IH rest eq_refl) as (F & M & V). split_and!; [by constructor|cbn; by rewrite M|constructor; [|done]]. cbn [fst]. by rewrite prefixed_valid.
Qed.

(** ** Matrix users *)

Definition server_of (sender : string) : option string := rest ← strip_prefix "@" sender; snd <$> ActorId.split_first ":" rest.
Lemma map_sender_inv s a : map_sender s = Ok a -> exists local server, s = "@" +:+ local +:+ ":" +:+ server /\ server_of s = Some server /\ a = "tf:actor:human:" +:+ server +:+ "/" +:+ local.
Proof.
  unfold map_sender, server_of. destruct (strip_prefix "@" s) as [rest|] eqn:P; cbn; [|done]. apply strip_prefix_spec in P as ->.
  destruct (ActorId.split_first ":" rest) as [[local server]|] eqn:S; cbn; [|done]. apply ActorId.split_first_Some in S as [-> _].
  intros <-%Ok_inj. by exists local, server.
Qed.
(** where server names have no slash, the actor made of a Matrix user
    determines the user. *)
Theorem matrix_sender_unique s1 s2 a v1 v2 : map_sender s1 = Ok a -> map_sender s2 = Ok a -> server_of s1 = Some v1 -> server_of s2 = Some v2 ->
  ActorId.has "/" v1 = false -> ActorId.has "/" v2 = false -> s1 = s2.
Proof.
  intros (l1 & w1 & -> & S1 & ->)%map_sender_inv (l2 & w2 & -> & S2 & E)%map_sender_inv V1 V2 H1 H2.
  rewrite S1 in V1. rewrite S2 in V2. injection V1 as ->. injection V2 as ->. apply str_app_inv_head in E.
  assert (ActorId.split_first "/" (v1 +:+ "/" +:+ l1) = ActorId.split_first "/" (v2 +:+ "/" +:+ l2)) as K by (by rewrite E).
  change ("/" +:+ ?x) with (String "/" x) in K. rewrite !ActorId.split_first_app in K by done. by injection K as -> ->.
Qed.
Lemma matrix_sender_unique_witness : map_sender "@ann:m.org" = Ok "tf:actor:human:m.org/ann" /\ "@ann:m.org" = "@ann:m.org".
Proof. split; [done|]. by apply (matrix_sender_unique "@ann:m.org" "@ann:m.org" "tf:actor:human:m.org/ann" "m.org" "m.org"). Defined.
Example matrix_senders_collide : map_sender "@c/a:b" = map_sender "@a:b/c" /\ map_sender "@c/a:b" = Ok "tf:actor:human:b/c/a".
Proof. by vm_compute. Qed.

(** ** The gRPC bridge *)

Section grpc.
Variable nfc : string -> string.
Variable show_f64 : Z -> string.
Variable Frame : Type.
(** [serde_json::from_slice] and [to_vec] of a session frame. *)
Variable from_slice : list Z -> option Frame.
Variable to_vec : Frame -> option (list Z).

Record GrpcCallContext := mk_GrpcCallContext { method : string; metadata : gmap string string; authority : option string }.
Record GrpcBridgeConfig := mk_GrpcBridgeConfig { grpc_id : string; grpc_domain : string; service_method : string; cfg_authority : option string; cfg_metadata : gmap string string }.
(** The listeners are numbered in order of registration; [heard] lists the frames
    they were given and [calls] what went to the channel, oldest first. *)
Record GrpcBridge := mk_GrpcBridge { cfg : GrpcBridgeConfig; listeners : nat; heard : list (nat * Frame); calls : list (GrpcCallContext * list Z) }.
Definition new (c : GrpcBridgeConfig) : GrpcBridge := mk_GrpcBridge c 0 [] [].
(** The reply is what [unary] returns; listeners do not panic. *)
Definition send_frame (reply : result BridgeError (list Z)) (b : list Z) (self : GrpcBridge) : result BridgeError (list Z) * GrpcBridge :=
  let ctx := mk_GrpcCallContext (service_method (cfg self)) (cfg_metadata (cfg self)) (cfg_authority (cfg self)) in
  let calls := calls self ++ [(ctx, b)] in
  match reply with
  | Err e => (Err e, mk_GrpcBridge (cfg self) (listeners self) (heard self) calls)
  | Ok r =>
    let now_heard := match from_slice r with Some f => (fun k => (k, f)) <$> seq 0 (listeners self) | None => [] end in
    (Ok r, mk_GrpcBridge (cfg self) (listeners self) (heard self ++ now_heard) calls)
  end.
(** [Canonical.canonicalize] fails with a text that [InvalidInput] carries. *)
Definition send_value (error_text : Canonical.CanonicalJsonError -> string) (reply : result BridgeError (list Z)) (v : json) (self : GrpcBridge)
    : result BridgeError (list Z) * GrpcBridge :=
  match Canonical.canonicalize nfc show_f64 v with
  | Ok text => send_frame reply (bytes_of_str text) self
  | Err e => (Err (InvalidInput (error_text e)), self)
  end.
(** [RpcTransport::send] and [on_frame]. *)
Definition send (reply : result BridgeError (list Z)) (f : Frame) (self : GrpcBridge) : GrpcBridge := snd (send_frame reply (default [] (to_vec f)) self).
Definition on_frame (self : GrpcBridge) : GrpcBridge := mk_GrpcBridge (cfg self) (S (listeners self)) (heard self) (calls self).

Inductive Op := Send (reply : result BridgeError (list Z)) (f : Frame) | OnFrame.
Definition apply (self : GrpcBridge) (op : Op) : GrpcBridge := match op with Send reply f => send reply f self | OnFrame => on_frame self end.
Definition run (c : GrpcBridgeConfig) (ops : list Op) : GrpcBridge := foldl apply (new c) ops.
(** The frames that the replies of some operations carry. *)
Definition replies (ops : list Op) : list Frame :=
  omap (fun op => match op with Send (Ok r) _ => from_slice r | _ => None end) ops.
(** The operations after registration number [k]. *)
Fixpoint after (k : nat) (ops : list Op) : list Op :=
  match ops with
  | [] => []
  | OnFrame :: ops => match k with O => ops | S k => after k ops end
  | _ :: ops => after k ops
  end.
Definition heard_by (k : nat) (b : GrpcBridge) : list Frame := omap (fun kf => if (fst kf =? k)%nat then Some (snd kf) else None) (heard b).
Lemma heard_one k n f : omap (fun kf : nat * Frame => if (fst kf =? k)%nat then Some (snd kf) else None) ((fun j => (j, f)) <$> seq 0 n) = if (k <? n)%nat then [f] else [].
Proof.
  induction n as [|n IH]; [done|]. rewrite seq_S, fmap_app, omap_app, IH. cbn [omap list_omap fmap list_fmap fst snd Nat.add].
  destruct (Nat.eqb_spec n k), (Nat.ltb_spec k n), (Nat.ltb_spec k (S n)); try lia; done.
Qed.
Lemma run_from ops : forall b k, heard_by k (foldl apply b ops) = heard_by k b ++ (if (k <? listeners b)%nat then replies ops else replies (after (k - listeners b) ops)).
Proof.
  induction ops as [|op ops IH]; intros b k; cbn [foldl]; [by destruct (k <? listeners b)%nat; rewrite app_nil_r|]. rewrite IH. destruct op as [reply f|].
  - cbn [apply]. unfold send, send_frame. destruct reply as [r|e]; cbn [snd listeners].
    + unfold heard_by at 1. cbn [heard]. rewrite omap_app, <- app_assoc. f_equal.
      cbn [after]. unfold replies. destruct (from_slice r) as [g|] eqn:R; cbn [omap list_omap]; rewrite R.
      * rewrite heard_one. by destruct (k <? listeners b)%nat.
      * by destruct (k <? listeners b)%nat.
    + by destruct (k <? listeners b)%nat.
  - cbn [apply on_frame listeners after]. unfold heard_by at 1. cbn [heard]. f_equal.
    destruct (Nat.ltb_spec k (listeners b)), (Nat.ltb_spec k (S (listeners b))); try lia; [done| |].
    + by replace (k - listeners b)%nat with 0%nat by lia.
    + by replace (k - listeners b)%nat with (S (k - S (listeners b))) by lia.
Qed.
(** a listener of the gRPC bridge is given exactly the frames carried by the
    replies to the frames sent after it was registered, in order. *)
Theorem grpc_listeners_served c ops k : heard_by k (run c ops) = replies (after k ops).
Proof. unfold run. rewrite run_from. cbn. by rewrite Nat.sub_0_r. Qed.
End grpc.

End Agents.
