(* ===== verification/ReplayWindow.v ===== *)
(** * ReplayWindow: replay protection of packet receivers

    The interface [ReplayWindow] says what a receiver promises: a bounded
    first-in first-out window of packet ids.  Three receivers implement it:
    [tf-types]'s [constrained.rs] and the two builds (with and without
    [alloc]) of [tf-core-no-std]'s [nonce_cache.rs].  The replay theorem is
    proved once against the interface. *)

From S2P Require Import Prelude Packet.
Import Packet.

(** ** The interface *)

(** One offer of a packet id: [gate] tells whether the packet passes the
    other checks (time, size). *)
Definition window_step (cap : nat) (w : list string) (id : string) (gate : bool) : bool * list string :=
  if negb gate || bool_decide (id ∈ w) then (false, w)
  else (true, ((if (cap <=? length w)%nat then tail w else w) ++ [id])%list).

(** A receiver with states [S] that is offered inputs [I]. *)
Class ReplayWindow (S I : Type) := {
  offer : S -> I -> bool * S;
  input_id : I -> string;
  input_gate : S -> I -> bool;
  window : S -> list string;
  capacity_of : S -> nat;
  window_inv : S -> Prop
}.

(** What every receiver promises. *)
Class ReplayWindowLaws (S I : Type) `{ReplayWindow S I} := {
  offer_refines s i : window_inv s ->
    ((offer s i).1, window (offer s i).2) = window_step (capacity_of s) (window s) (input_id i) (input_gate s i);
  offer_inv s i : window_inv s -> window_inv (offer s i).2;
  offer_capacity s i : capacity_of (offer s i).2 = capacity_of s
}.

(** ** The replay theorem, against the interface *)

Section client.
Context {S I : Type} `{ReplayWindowLaws S I}.

(** The number of offers accepted along a sequence, and the last state. *)
Fixpoint accepts (s : S) (l : list I) : nat * S :=
  match l with
  | [] => (O, s)
  | i :: l' => let '(a, s') := offer s i in
               let '(n, s'') := accepts s' l' in ((if a then Datatypes.S n else n), s'')
  end.

(** Whatever comes after [id] in the window was accepted after it. *)
Lemma step_keeps cap w id i gate pre post :
  w = (pre ++ id :: post)%list -> (Datatypes.S (length post) < cap)%nat ->
  exists pre' post', (window_step cap w i gate).2 = (pre' ++ id :: post')%list /\
    length post' = (length post + (if (window_step cap w i gate).1 then 1 else 0))%nat.
Proof.
  intros -> Hc. unfold window_step. destruct (negb gate || _); simpl; [exists pre, post; split; [done|lia]|].
  destruct (Nat.leb_spec cap (length (pre ++ id :: post))) as [Hle|_].
  - destruct pre as [|p pre]; [simpl in Hle; lia|]. exists pre, (post ++ [i])%list. simpl.
    rewrite <- app_assoc, length_app. simpl. split; [done|lia].
  - exists pre, (post ++ [i])%list. rewrite <- app_assoc, length_app. simpl. split; [done|lia].
Qed.

Lemma accepts_keeps l s id pre post : window_inv s ->
  window s = (pre ++ id :: post)%list -> (length post + (accepts s l).1 < capacity_of s)%nat ->
  window_inv (accepts s l).2 /\ id ∈ window (accepts s l).2 /\ capacity_of (accepts s l).2 = capacity_of s.
Proof.
  revert s pre post. induction l as [|i l IH]; intros s pre post Hinv Hw Hc.
  - simpl. split; [done|]. split; [rewrite Hw; set_solver|done].
  - pose proof (offer_refines s i Hinv) as Hr. pose proof (offer_inv s i Hinv) as Hi'.
    pose proof (offer_capacity s i) as Hcap. simpl in *.
    destruct (offer s i) as [a s'] eqn:Eo. simpl in *.
    destruct (accepts s' l) as [n s''] eqn:Ea. simpl in *.
    destruct (window_step (capacity_of s) (window s) (input_id i) (input_gate s i)) as [a0 w0] eqn:Ew.
    injection Hr as -> Hw'.
    assert (a0 = true -> (Datatypes.S (length post) < capacity_of s)%nat) as Hroom by (intros ->; lia).
    assert (exists pre' post', window s' = (pre' ++ id :: post')%list /\
      length post' = (length post + (if a0 then 1 else 0))%nat) as (pre' & post' & Hw2 & Hl).
    { destruct a0.
      - destruct (step_keeps (capacity_of s) (window s) id (input_id i) (input_gate s i) pre post Hw (Hroom eq_refl))
          as (pre' & post' & E1 & E2). rewrite Ew in E1, E2. simpl in *. exists pre', post'. by rewrite Hw'.
      - exists pre, post. split; [|lia]. rewrite Hw', <- Hw. unfold window_step in Ew.
        destruct (negb _ || _); congruence. }
    specialize (IH s' pre' post' Hi' Hw2). rewrite Ea in IH. simpl in IH. rewrite Hcap in IH.
    apply IH. destruct a0; lia.
Qed.

Lemma accepts_inv l s : window_inv s ->
  window_inv (accepts s l).2 /\ capacity_of (accepts s l).2 = capacity_of s.
Proof.
  revert s. induction l as [|i l IH]; intros s Hinv; [done|]. simpl.
  pose proof (offer_inv s i Hinv) as Hi. pose proof (offer_capacity s i) as Hc.
  destruct (offer s i) as [a s']. simpl in *. specialize (IH s' Hi). destruct (accepts s' l). simpl in *.
  by rewrite <- Hc.
Qed.

(** An accepted id is refused as long as fewer ids than the capacity have
    been accepted since. *)
Lemma replay_refused s i l j : window_inv s -> (offer s i).1 = true -> input_id j = input_id i ->
  ((accepts (offer s i).2 l).1 < capacity_of s)%nat ->
  (offer (accepts (offer s i).2 l).2 j).1 = false.
Proof.
  intros Hinv Ha Hid Hn.
  pose proof (offer_refines s i Hinv) as Hr. rewrite Ha in Hr.
  assert (exists pre, window (offer s i).2 = (pre ++ [input_id i])%list) as [pre Hw].
  { unfold window_step in Hr. destruct (negb _ || _); injection Hr as Hr'; [done|]. by eexists. }
  destruct (accepts_keeps l (offer s i).2 (input_id i) pre []) as (Hinv' & Hin & _);
    [by apply offer_inv|done|by rewrite offer_capacity|].
  pose proof (offer_refines _ j Hinv') as Hr'. unfold window_step in Hr'. rewrite Hid in Hr'.
  rewrite (bool_decide_true (_ ∈ _)) in Hr' by done. rewrite orb_true_r in Hr'. by injection Hr' as ->.
Qed.

End client.
