(* ===== verification/Constrained.v ===== *)
(** * Constrained: the receivers of constrained deployments

    [constrained.rs]'s [PacketReceiver] keeps a deque of the packets seen
    and a set that mirrors it; [nonce_cache.rs] of [tf-core-no-std] has one
    with a deque only and one of fixed capacity.  Each is an instance of
    [ReplayWindow].  Deques are lists, front first. *)

From S2P Require Import Prelude Packet ReplayWindow.
Import Packet.

Module Constrained.

Inductive PacketRejectReason := Replay | Expired | FutureDated.
Inductive PacketReceiverDecision := Accept | Reject (reason : PacketRejectReason).

Record PacketReceiver := mk_PacketReceiver {
  seen : list (string * string);
  index : gset string;
  window_size : nat
}.

Definition new (window_size : option nat) : PacketReceiver :=
  mk_PacketReceiver [] ∅ (unwrap_or window_size 4096%nat).

(** [pop_front] and the removal of the popped id from the set. *)
Definition evict (self : PacketReceiver) : PacketReceiver :=
  if (window_size self <=? length (seen self))%nat then
    match seen self with
    | (oldest, _) :: rest => mk_PacketReceiver rest (index self ∖ {[oldest]}) (window_size self)
    | [] => self
    end
  else self.

Definition observe (self : PacketReceiver) (packet : Packet) (now : string)
    : PacketReceiverDecision * PacketReceiver :=
  if match expires_at packet with Some exp => str_lt exp now | None => false end
  then (Reject Expired, self)
  else if str_lt now (created_at packet) then (Reject FutureDated, self)
  else if bool_decide (packet_id packet ∈ index self) then (Reject Replay, self)
  else
    let self := evict self in
    (Accept, mk_PacketReceiver (seen self ++ [(packet_id packet, unwrap_or (expires_at packet) "")])
               ({[packet_id packet]} ∪ index self) (window_size self)).

(** An entry [expire_older_than] drops. *)
Definition stale (before : string) (e : string * string) : bool :=
  negb (str_is_empty e.2) && str_lt e.2 before.

Definition expire_older_than (self : PacketReceiver) (before : string) : nat * PacketReceiver :=
  let survivors := List.filter (fun e => negb (stale before e)) (seen self) in
  ((length (seen self) - length survivors)%nat,
   mk_PacketReceiver survivors (list_to_set (survivors.*1)) (window_size self)).

Definition size (self : PacketReceiver) : nat := length (seen self).

(** ** The set mirrors the deque *)

Definition rx_inv (self : PacketReceiver) : Prop :=
  index self = list_to_set ((seen self).*1) /\ NoDup ((seen self).*1).

Definition accepted (d : PacketReceiverDecision) : bool := match d with Accept => true | _ => false end.

(** The checks before the window. *)
Definition timely (packet : Packet) (now : string) : bool :=
  negb match expires_at packet with Some exp => str_lt exp now | None => false end &&
  negb (str_lt now (created_at packet)).

#[export] Instance std_window : ReplayWindow PacketReceiver (Packet * string) := {
  offer s i := let '(d, s') := observe s i.1 i.2 in (accepted d, s');
  input_id i := packet_id i.1;
  input_gate _ i := timely i.1 i.2;
  window s := (seen s).*1;
  capacity_of := window_size;
  window_inv := rx_inv
}.

Lemma evict_spec self : rx_inv self ->
  (seen (evict self)).*1 = (if (window_size self <=? length ((seen self).*1))%nat then tail ((seen self).*1) else (seen self).*1) /\
  rx_inv (evict self) /\ window_size (evict self) = window_size self /\
  (forall a, a ∈ (seen (evict self)).*1 -> a ∈ (seen self).*1).
Proof.
  intros [Hi Hn]. unfold evict. rewrite length_fmap.
  destruct (window_size self <=? length (seen self))%nat; [|done].
  destruct (seen self) as [|[o e] rest] eqn:E; [rewrite E; unfold rx_inv; by rewrite E|]. simpl.
  rewrite fmap_cons in *. simpl in *. inversion_clear Hn as [|? ? Hno Hn'].
  split; [done|]. split; [split; [|done]|split; [done|set_solver]].
  simpl. rewrite Hi. set_solver.
Qed.

Lemma observe_inv self p now : rx_inv self -> rx_inv (observe self p now).2.
Proof.
  intros Hinv. unfold observe.
  destruct (match expires_at p with Some exp => str_lt exp now | None => false end); [done|].
  destruct (str_lt now (created_at p)); [done|]. case_bool_decide as Hid; [done|]. simpl.
  destruct (evict_spec self Hinv) as (_ & [Hi Hn] & _ & Hsub).
  destruct Hinv as [Hi0 _]. rewrite Hi0, elem_of_list_to_set in Hid.
  split; simpl.
  - rewrite fmap_app, list_to_set_app_L, Hi. simpl. set_solver.
  - rewrite fmap_app, NoDup_app. simpl. split; [done|]. split; [set_solver|apply NoDup_singleton].
Qed.

#[export] Instance std_window_laws : ReplayWindowLaws PacketReceiver (Packet * string).
Proof.
  split.
  - intros s [p now] Hinv. destruct (evict_spec s Hinv) as (Hseen & _ & _ & _). destruct Hinv as [Hi Hn].
    unfold offer, window, std_window, window_step, input_gate, input_id, capacity_of, timely, observe. simpl.
    destruct (match expires_at p with Some exp => str_lt exp now | None => false end); simpl; [done|].
    destruct (str_lt now (created_at p)); simpl; [done|].
    rewrite Hi. rewrite (bool_decide_ext _ (packet_id p ∈ (seen s).*1)) by (by rewrite elem_of_list_to_set).
    case_bool_decide; simpl; [done|]. by rewrite fmap_app, Hseen.
  - intros s [p now] Hinv. pose proof (observe_inv s p now Hinv) as Ho. simpl in *. by destruct (observe s p now).
  - intros s [p now]. simpl. unfold observe.
    destruct (match expires_at p with Some exp => str_lt exp now | None => false end); [done|].
    destruct (str_lt now (created_at p)); [done|]. case_bool_decide; [done|]. simpl.
    unfold evict. destruct (_ <=? _)%nat; [|done]. by destruct (seen s) as [|[]].
Qed.

Lemma new_inv ws : rx_inv (new ws).
Proof. split; [done|apply NoDup_nil_2]. Qed.

(** ** Runs of a receiver *)

(** The calls that change a receiver. *)
Inductive op := Observe (packet : Packet) (now : string) | Sweep (before : string).
(** How many packets a sequence of calls accepts, and the state after it. *)
Fixpoint receive (rx : PacketReceiver) (l : list op) : nat * PacketReceiver :=
  match l with
  | [] => (0%nat, rx)
  | Observe packet now :: l =>
    let '(d, rx) := observe rx packet now in
    let '(n, rx) := receive rx l in ((if accepted d then S n else n), rx)
  | Sweep before :: l => receive (expire_older_than rx before).2 l
  end.

Lemma expire_inv rx before : rx_inv rx -> rx_inv (expire_older_than rx before).2.
Proof.
  intros [_ Hn]. split; [done|]. cbn [expire_older_than snd seen]. revert Hn. induction (seen rx) as [|e l IH]; [done|].
  rewrite fmap_cons. intros [Hno Hn]%NoDup_cons. cbn [List.filter]. destruct (negb (stale before e)); [|by apply IH].
  rewrite fmap_cons. apply NoDup_cons. split; [|by apply IH]. intros (e' & He & Hin)%list_elem_of_fmap. apply Hno.
  apply list_elem_of_fmap. exists e'. split; [done|]. apply list_elem_of_In, filter_In in Hin as [Hin _]. by apply list_elem_of_In.
Qed.

Lemma observe_window rx packet now : window_size (observe rx packet now).2 = window_size rx.
Proof. pose proof (offer_capacity (S := PacketReceiver) rx (packet, now)) as H. cbn in H. by destruct (observe rx packet now). Qed.

Lemma receive_inv l rx : rx_inv rx -> rx_inv (receive rx l).2 /\ window_size (receive rx l).2 = window_size rx.
Proof.
  revert rx. induction l as [|[packet now|before] l IH]; intros rx Hinv; [done| |by apply (IH _ (expire_inv rx before Hinv))].
  cbn [receive]. pose proof (observe_inv rx packet now Hinv) as Ho. pose proof (observe_window rx packet now) as Hw.
  destruct (observe rx packet now) as [d rx']. specialize (IH rx' Ho). destruct (receive rx' l) as [n rx2]. cbn in *. by rewrite <- Hw.
Qed.

(** An entry with at most [k] younger ones. *)
Definition recorded (e : string * string) (k : nat) (rx : PacketReceiver) : Prop :=
  exists pre post, seen rx = pre ++ e :: post /\ (length post <= k)%nat.

Lemma observe_recorded e k rx packet now : recorded e k rx ->
  let '(d, rx') := observe rx packet now in
  if accepted d then (S k < window_size rx)%nat -> recorded e (S k) rx' else rx' = rx.
Proof.
  intros (pre & post & E & Hk). unfold observe. destruct (match expires_at packet with Some exp => str_lt exp now | None => false end); [done|].
  destruct (str_lt now (created_at packet)); [done|]. case_bool_decide; [done|]. cbn [accepted]. intros Hw. unfold recorded. cbn [seen].
  assert (exists pre', seen (evict rx) = pre' ++ e :: post) as [pre' ->].
  { unfold evict. destruct (Nat.leb_spec (window_size rx) (length (seen rx))) as [Hle|]; [|by exists pre].
    rewrite E in *. rewrite length_app in Hle. cbn [length] in Hle. destruct pre as [|[o x] pre]; [cbn in Hle; lia|]. by exists pre. }
  exists pre', (post ++ [(packet_id packet, unwrap_or (expires_at packet) "")]). rewrite <- app_assoc. split; [done|].
  rewrite length_app. cbn. lia.
Qed.

Lemma sweep_recorded e k rx before : recorded e k rx -> stale before e = false -> recorded e k (expire_older_than rx before).2.
Proof.
  intros (pre & post & E & Hk) Hs. unfold recorded. cbn [expire_older_than snd seen]. rewrite E, List.filter_app. cbn [List.filter]. rewrite Hs. cbn [negb].
  eexists _, _. split; [reflexivity|]. pose proof (List.filter_length_le (fun e0 => negb (stale before e0)) post). lia.
Qed.

Lemma receive_recorded e l : forall k rx, recorded e k rx -> (forall before, Sweep before ∈ l -> stale before e = false) ->
  (k + (receive rx l).1 < window_size rx)%nat -> recorded e (k + (receive rx l).1) (receive rx l).2.
Proof.
  induction l as [|[packet now|before] l IH]; intros k rx Hr Hs Hw.
  - cbn in *. by rewrite Nat.add_0_r.
  - cbn [receive] in *. pose proof (observe_recorded e k rx packet now Hr) as Ho. pose proof (observe_window rx packet now) as Hws.
    destruct (observe rx packet now) as [d rx']. cbn [snd] in Hws.
    assert (forall before, Sweep before ∈ l -> stale before e = false) as Hs' by (intros before Hin; apply Hs; by right).
    destruct (accepted d); [specialize (IH (S k) rx')|subst rx'; specialize (IH k rx Hr Hs')]; destruct (receive _ l) as [n rx2]; cbn [fst snd] in *.
    + rewrite <- Nat.add_succ_comm. apply IH; [apply Ho; lia|done|lia].
    + apply IH. lia.
  - cbn [receive] in *. apply IH; [apply sweep_recorded; [done|apply Hs; left]|intros b Hin; apply Hs; by right|done].
Qed.

Lemma recorded_refused e k rx q now : rx_inv rx -> recorded e k rx -> packet_id q = e.1 -> (observe rx q now).1 <> Accept.
Proof.
  intros [Hi _] (pre & post & E & _) Hq. unfold observe. destruct (match expires_at q with Some exp => str_lt exp now | None => false end); [done|].
  destruct (str_lt now (created_at q)); [done|]. rewrite bool_decide_true; [done|].
  rewrite Hi, E, Hq. apply elem_of_list_to_set. rewrite fmap_app, fmap_cons. set_solver.
Qed.

Lemma accept_recorded rx p now : (observe rx p now).1 = Accept -> recorded (packet_id p, unwrap_or (expires_at p) "") 0 (observe rx p now).2.
Proof.
  unfold observe. destruct (match expires_at p with Some exp => str_lt exp now | None => false end); [done|].
  destruct (str_lt now (created_at p)); [done|]. case_bool_decide; [done|]. intros _. by exists (seen (evict rx)), [].
Qed.

(** The entry of a packet survives a sweep, or the sweep only drops it because
    [q], which has the same expiry, is expired by the time it is offered. *)
Definition sweep_safe (p q : Packet) (now' before : string) : Prop :=
  stale before (packet_id p, unwrap_or (expires_at p) "") = false \/ expires_at q = expires_at p /\ str_le before now' = true.

Lemma stale_expired p q now' before : stale before (packet_id p, unwrap_or (expires_at p) "") = true -> expires_at q = expires_at p ->
  str_le before now' = true -> forall rx, (observe rx q now').1 <> Accept.
Proof.
  unfold stale. cbn [snd]. intros [Hne Hlt]%andb_prop Hq Hb rx. unfold observe. rewrite Hq. destruct (expires_at p) as [ex|]; [|done].
  cbn in Hlt. by rewrite (str_lt_le_trans _ _ _ Hlt Hb).
Qed.

(** C30: Replay protection, in every state that packets and sweeps lead to: a
    packet id that has been accepted is not accepted again, at any time, until
    as many other packets as the window holds have been accepted, whatever
    sweeps take place in between, provided no sweep has a bound after the
    recorded expiry of the accepted packet; a packet that repeats this expiry
    is refused after any sweep whose bound is not after the time at which it
    is offered. *)
Theorem receiver_refuses_replays ws earlier p now later q now'
    (Hacc : (observe (receive (new ws) earlier).2 p now).1 = Accept)
    (Hid : packet_id q = packet_id p)
    (Hfew : ((receive (observe (receive (new ws) earlier).2 p now).2 later).1 < unwrap_or ws 4096)%nat)
    (Hsweep : forall before, Sweep before ∈ later -> sweep_safe p q now' before) :
  (observe (receive (observe (receive (new ws) earlier).2 p now).2 later).2 q now').1 <> Accept.
Proof.
  destruct (receive_inv earlier (new ws) (new_inv ws)) as [Hinv Hws]. set (st := (receive (new ws) earlier).2) in *.
  set (e := (packet_id p, unwrap_or (expires_at p) "")).
  destruct (existsb (fun o => match o with Sweep before => stale before e | _ => false end) later) eqn:Hex.
  - apply existsb_exists in Hex as ([|before] & Hin%list_elem_of_In & Hst); [done|]. destruct (Hsweep before Hin) as [Hns|[Hq Hb]]; [unfold e in Hst; congruence|].
    by apply (stale_expired p q now' before).
  - assert (forall before, Sweep before ∈ later -> stale before e = false) as Hs.
    { intros before Hin. destruct (stale before e) eqn:E; [|done]. rewrite <- not_true_iff_false, existsb_exists in Hex.
      destruct Hex. exists (Sweep before). by rewrite <- list_elem_of_In. }
    pose proof (observe_inv st p now Hinv) as Hinv'. pose proof (observe_window st p now) as Hws'.
    apply (recorded_refused e (0 + (receive (observe st p now).2 later).1)); [by apply receive_inv| |done].
    apply receive_recorded; [by apply accept_recorded|done|]. rewrite Hws', Hws. exact Hfew.
Qed.

Definition pkt (id : string) (exp : option string) : Packet :=
  mk_Packet "1" id "a" "b" "P3" None "2026-01-01T00:00:00Z" exp None None None None "" None None
    (mk_PacketSignatureEnvelope "ed25519" "a" "").
Definition t0 : string := "2026-06-01T00:00:00Z".

Definition july : string := "2026-07-01T00:00:00Z".
Definition august : string := "2026-08-01T00:00:00Z".
Lemma receiver_refuses_replays_witness :
  (observe (receive (observe (receive (new (Some 2%nat)) [Observe (pkt "x" None) t0]).2 (pkt "p" (Some july)) t0).2
     [Observe (pkt "y" None) t0; Sweep t0; Observe (pkt "p" None) t0; Sweep august]).2 (pkt "p" (Some july)) august).1 <> Accept.
Proof.
  apply (receiver_refuses_replays (Some 2%nat) [Observe (pkt "x" None) t0] (pkt "p" (Some july)) t0
    [Observe (pkt "y" None) t0; Sweep t0; Observe (pkt "p" None) t0; Sweep august] (pkt "p" (Some july)) august).
  - vm_compute. reflexivity.
  - reflexivity.
  - vm_compute. lia.
  - intros before Hin. rewrite !elem_of_cons in Hin. destruct Hin as [[=]|[[= ->]|[[=]|[[= ->]|Hin]]]].
    + left. vm_compute. reflexivity.
    + right. split; [done|]. vm_compute. reflexivity.
    + by apply elem_of_nil in Hin.
Defined.

(** Sweeping the window does not reopen it: a packet recorded in it is
    still refused after [expire_older_than], at any time from the sweep's
    bound on, because an entry is only dropped once its packet is expired. *)
Theorem expire_keeps_protection rx p before now
    (Hinv : rx_inv rx) (Hseen : (packet_id p, unwrap_or (expires_at p) "") ∈ seen rx)
    (Hnow : str_le before now = true) :
  (observe (expire_older_than rx before).2 p now).1 <> Accept.
Proof.
  unfold observe. destruct (stale before (packet_id p, unwrap_or (expires_at p) "")) eqn:Es.
  - unfold stale in Es. simpl in Es. apply andb_prop in Es as [Hne Hlt].
    destruct (expires_at p) as [ex|]; [|done]. simpl in *.
    by rewrite (str_lt_le_trans _ _ _ Hlt Hnow).
  - destruct (match expires_at p with Some exp => str_lt exp now | None => false end); [done|].
    destruct (str_lt now (created_at p)); [done|]. rewrite bool_decide_true; [done|]. simpl.
    apply elem_of_list_to_set, list_elem_of_fmap. exists (packet_id p, unwrap_or (expires_at p) "").
    split; [done|]. apply list_elem_of_In, filter_In. rewrite <- list_elem_of_In. by rewrite Es.
Qed.

Lemma expire_keeps_protection_witness :
  (observe (expire_older_than (mk_PacketReceiver [("p", "2026-07-01T00:00:00Z")] {["p"]} 8) "2026-08-01T00:00:00Z").2
     (pkt "p" (Some "2026-07-01T00:00:00Z")) "2026-09-01T00:00:00Z").1 <> Accept.
Proof.
  apply (expire_keeps_protection (mk_PacketReceiver [("p", "2026-07-01T00:00:00Z")] {["p"]} 8)
    (pkt "p" (Some "2026-07-01T00:00:00Z")) "2026-08-01T00:00:00Z" "2026-09-01T00:00:00Z").
  - split; [vm_compute; reflexivity|apply NoDup_singleton].
  - by left.
  - vm_compute. reflexivity.
Defined.

(** A sweep whose bound is after the recorded expiry frees the id: a packet
    with the same id and no expiry is accepted. *)
Example sweep_frees_id :
  (observe (receive (new (Some 2%nat)) [Observe (pkt "p" (Some july)) t0; Sweep august]).2 (pkt "p" None) august).1 = Accept.
Proof. vm_compute. reflexivity. Qed.

End Constrained.
