(* ===== verification/NonceCache.v ===== *)
(** * NonceCache: the no_std receivers ([tf-core-no-std/src/nonce_cache.rs])

    [PacketReceiver] with the [alloc] feature and the fixed-capacity
    [heapless] one, both as instances of [ReplayWindow]. *)

From S2P Require Import Prelude ReplayWindow.

Module NonceCache.

Definition PACKET_ID_CAP : nat := 64.

Inductive RejectReason := Replay | Expired | FutureDated | IdTooLarge | CacheFull.
Inductive ReceiverDecision := Accept | Reject (r : RejectReason).
Definition accepted (d : ReceiverDecision) : bool := match d with Accept => true | _ => false end.

(** An offered packet: id, expiry and the time of the offer. *)
Record arrival := mk_arrival { id : string; expiry : option string; at_time : string }.
Definition expired (a : arrival) : bool :=
  match expiry a with Some exp => str_lt exp (at_time a) | None => false end.

(** ** With [alloc] *)

Record PacketReceiver := mk_PacketReceiver { seen : list (string * string); capacity : nat }.

Definition new (capacity : nat) : PacketReceiver := mk_PacketReceiver [] (Nat.max capacity 1).

Definition observe (self : PacketReceiver) (a : arrival) : ReceiverDecision * PacketReceiver :=
  if expired a then (Reject Expired, self)
  else if existsb (fun e => e.1 =? id a)%string (seen self) then (Reject Replay, self)
  else
    let kept := if (capacity self <=? length (seen self))%nat then tail (seen self) else seen self in
    (Accept, mk_PacketReceiver (kept ++ [(id a, unwrap_or (expiry a) "")]) (capacity self)).

(** ** Without [alloc] *)

Record HeaplessReceiver (N : nat) := mk_HeaplessReceiver { h_seen : list string }.
Arguments mk_HeaplessReceiver {N} h_seen.
Arguments h_seen {N} _.

Definition h_new (N : nat) : HeaplessReceiver N := mk_HeaplessReceiver [].

(** [heapless::Deque::push_back]: an error when full. *)
Definition h_push_back {N} (d : HeaplessReceiver N) (s : string) : option (HeaplessReceiver N) :=
  if (length (h_seen d) <? N)%nat then Some (mk_HeaplessReceiver (h_seen d ++ [s])) else None.

Definition h_observe {N} (self : HeaplessReceiver N) (a : arrival) : ReceiverDecision * HeaplessReceiver N :=
  if expired a then (Reject Expired, self)
  else if (PACKET_ID_CAP <? String.length (id a))%nat then (Reject IdTooLarge, self)
  else if existsb (fun s => s =? id a)%string (h_seen self) then (Reject Replay, self)
  else
    let self := if (length (h_seen self) =? N)%nat then mk_HeaplessReceiver (tail (h_seen self)) else self in
    match h_push_back self (id a) with
    | None => (Reject CacheFull, self)
    | Some self => (Accept, self)
    end.

(** ** Both implement the window *)

#[export] Instance alloc_window : ReplayWindow PacketReceiver arrival := {
  offer s i := let '(d, s') := observe s i in (accepted d, s');
  input_id := id;
  input_gate _ i := negb (expired i);
  window s := (seen s).*1;
  capacity_of := capacity;
  window_inv _ := True
}.

#[export] Instance heapless_window (N : nat) : ReplayWindow (HeaplessReceiver N) arrival := {
  offer s i := let '(d, s') := h_observe s i in (accepted d, s');
  input_id := id;
  input_gate _ i := negb (expired i) && negb (PACKET_ID_CAP <? String.length (id i))%nat;
  window s := h_seen s;
  capacity_of _ := N;
  window_inv s := (length (h_seen s) <= N)%nat
}.

Lemma existsb_ids (l : list string) x : existsb (fun s => s =? x)%string l = bool_decide (x ∈ l).
Proof.
  apply Bool.eq_true_iff_eq. rewrite existsb_exists, bool_decide_eq_true. setoid_rewrite String.eqb_eq.
  setoid_rewrite <- list_elem_of_In. naive_solver.
Qed.
Lemma existsb_pairs (l : list (string * string)) x :
  existsb (fun e => e.1 =? x)%string l = bool_decide (x ∈ l.*1).
Proof.
  rewrite <- existsb_ids. induction l as [|e l IH]; [done|]. rewrite fmap_cons. cbn [existsb]. by rewrite IH.
Qed.

#[export] Instance alloc_window_laws : ReplayWindowLaws PacketReceiver arrival.
Proof.
  split; [|done|].
  - intros s i _. unfold offer, window, alloc_window, window_step, input_gate, input_id, capacity_of, observe.
    destruct (expired i); [done|]. rewrite existsb_pairs. case_bool_decide; [done|]. simpl.
    rewrite fmap_app, length_fmap. destruct (capacity s <=? length (seen s))%nat; [|done].
    by destruct (seen s).
  - intros s i. simpl. unfold observe. destruct (expired i); [done|]. by destruct (existsb _ _).
Qed.

#[export] Instance heapless_window_laws (N : nat) : ReplayWindowLaws (HeaplessReceiver (S N)) arrival.
Proof.
  assert (forall s i, window_inv (I:=arrival) s ->
    let '(d, s') := h_observe (N:=S N) s i in
    (accepted d, h_seen s') = window_step (S N) (h_seen s) (id i) (negb (expired i) && negb (PACKET_ID_CAP <? String.length (id i))%nat)
    /\ (length (h_seen s') <= S N)%nat) as Hstep.
  { intros s i Hinv. unfold window_inv in Hinv. simpl in Hinv. unfold h_observe, window_step.
    destruct (expired i); simpl; [done|]. destruct (PACKET_ID_CAP <? String.length (id i))%nat; simpl; [done|].
    rewrite existsb_ids. case_bool_decide; simpl; [done|]. unfold h_push_back.
    destruct (Nat.eqb_spec (length (h_seen s)) (S N)) as [E|E]; simpl.
    - destruct (h_seen s) as [|x l] eqn:El; [done|]. simpl in *.
      destruct (Nat.ltb_spec (length l) (S N)); [|lia]. simpl. destruct (Nat.leb_spec N (length l)); [|lia].
      rewrite length_app. simpl. split; [done|lia].
    - destruct (Nat.ltb_spec (length (h_seen s)) (S N)); [|lia]. simpl.
      destruct (h_seen s) as [|x l] eqn:El; [simpl; split; [done|lia]|]. simpl in *.
      destruct (Nat.leb_spec N (length l)); [lia|]. rewrite length_app. simpl. split; [done|lia]. }
  split.
  - intros s i Hinv. specialize (Hstep s i Hinv). simpl. destruct (h_observe s i) as [d s']. apply Hstep.
  - intros s i Hinv. specialize (Hstep s i Hinv). simpl. destruct (h_observe s i) as [d s']. apply Hstep.
  - done.
Qed.

(** Sequences of offers, and how many were accepted. *)
Definition receive (rx : PacketReceiver) (l : list arrival) : nat * PacketReceiver := accepts rx l.
Definition h_receive {N} (rx : HeaplessReceiver N) (l : list arrival) : nat * HeaplessReceiver N := accepts rx l.

(** Both no_std receivers, whatever they have received, refuse an id they
    accepted until as many further packets as their capacity have been
    accepted. *)
Theorem nostd_receivers_refuse_replays cap earlier a later b (Hid : id b = id a) :
  ((observe (receive (new cap) earlier).2 a).1 = Accept ->
   ((receive (observe (receive (new cap) earlier).2 a).2 later).1 < Nat.max cap 1)%nat ->
   (observe (receive (observe (receive (new cap) earlier).2 a).2 later).2 b).1 <> Accept) /\
  ((h_observe (h_receive (h_new (S cap)) earlier).2 a).1 = Accept ->
   ((h_receive (h_observe (h_receive (h_new (S cap)) earlier).2 a).2 later).1 < S cap)%nat ->
   (h_observe (h_receive (h_observe (h_receive (h_new (S cap)) earlier).2 a).2 later).2 b).1 <> Accept).
Proof.
  unfold receive, h_receive. split.
  - destruct (accepts_inv earlier (new cap)) as [Hinv Hcap]; [done|].
    set (st := (accepts (new cap) earlier).2) in *. pose proof (replay_refused st a later b Hinv) as Hr.
    simpl in Hr. destruct (observe st a) as [d st']. simpl in *. intros -> Hfew.
    specialize (Hr eq_refl Hid). rewrite Hcap in Hr. specialize (Hr Hfew).
    destruct (observe _ b) as [d s2]. simpl in *. by destruct d.
  - destruct (accepts_inv earlier (h_new (S cap))) as [Hinv _]; [simpl; lia|].
    set (st := (accepts (h_new (S cap)) earlier).2) in *. pose proof (replay_refused st a later b Hinv) as Hr.
    simpl in Hr. destruct (h_observe st a) as [d st']. simpl in *. intros -> Hfew.
    specialize (Hr eq_refl Hid Hfew). destruct (h_observe _ b) as [d s2]. simpl in *. by destruct d.
Qed.

Definition arr (i : string) : arrival := mk_arrival i None "2026-06-01T00:00:00Z".

Lemma nostd_receivers_refuse_replays_witness :
  (observe (receive (observe (receive (new 2) [arr "x"]).2 (arr "p")).2 [arr "y"]).2 (arr "p")).1 <> Accept /\
  (h_observe (h_receive (h_observe (h_receive (h_new 3) [arr "x"]).2 (arr "p")).2 [arr "y"]).2 (arr "p")).1 <> Accept.
Proof.
  destruct (nostd_receivers_refuse_replays 2 [arr "x"] (arr "p") [arr "y"] (arr "p") eq_refl) as [H1 H2].
  split; [apply H1|apply H2]; vm_compute; first [reflexivity | lia].
Defined.

End NonceCache.
