(* ===== verification/Orl.v ===== *)
(** * Orl: the no_std offline revocation list ([tf-core-no-std/src/orl.rs])

    A length-prefixed binary list, parsed, checked against the clock,
    verified and indexed by [kind:id].  The cursor is the list of the bytes
    left.  [alloc] says which of the two index back ends is compiled in;
    ed25519 and SHA-256 are Section variables. *)

From S2P Require Import Prelude Utf8.

Module Orl.

Definition ORL_VERSION : Z := 1.
Definition SIG_LEN : nat := 64.
Definition NO_ALLOC_CAPACITY : nat := 256.
Definition NO_ALLOC_KEY_CAP : nat := 128.

Inductive RevokedKind := KActor | KInstance | KCapability | KDelegation | KKey.

Definition from_u8 (b : Z) : option RevokedKind :=
  if b =? 1 then Some KActor else if b =? 2 then Some KInstance else if b =? 3 then Some KCapability
  else if b =? 4 then Some KDelegation else if b =? 5 then Some KKey else None.
Definition to_u8 (k : RevokedKind) : Z :=
  match k with KActor => 1 | KInstance => 2 | KCapability => 3 | KDelegation => 4 | KKey => 5 end.
Definition as_str (k : RevokedKind) : string :=
  match k with
  | KActor => "actor" | KInstance => "instance" | KCapability => "capability"
  | KDelegation => "delegation" | KKey => "key"
  end.

Record RevokedEntry := mk_RevokedEntry { entry_kind : RevokedKind }.

Inductive OrlError :=
| UnsupportedVersion | Truncated | Expired | FutureDated | BadLength | BadKind | BadSignature
| BadPublicKey | CapacityExceeded | KeyTooLarge.

Record Checker := mk_Checker { index : gmap string RevokedEntry }.

(** ** The cursor *)

Definition read_u8 (s : list Z) : result OrlError (Z * list Z) :=
  match s with [] => Err Truncated | b :: s' => Ok (b, s') end.
Definition read_u32 (s : list Z) : result OrlError (Z * list Z) :=
  if (length s <? 4)%nat then Err Truncated else Ok (of_be (take 4 s), drop 4 s).
Definition read_lp (s : list Z) : result OrlError (list Z * list Z) :=
  '(n, s) ← read_u32 s;
  if Z.of_nat (length s) <? n then Err BadLength
  else Ok (take (Z.to_nat n) s, drop (Z.to_nat n) s).

(** Byte strings are compared lexicographically. *)
Definition bytes_le (a b : list Z) : bool := str_le (str_of_bytes a) (str_of_bytes b).
Definition bytes_lt (a b : list Z) : bool := str_lt (str_of_bytes a) (str_of_bytes b).

(** [make_key] of the two builds. *)
Definition make_key (alloc : bool) (kind : RevokedKind) (id : list Z) : result OrlError string :=
  if negb (valid_utf8 id) then Err KeyTooLarge
  else let s := as_str kind +:+ ":" +:+ str_of_bytes id in
       if negb alloc && (NO_ALLOC_KEY_CAP <? String.length s)%nat then Err KeyTooLarge else Ok s.

(** [index.insert]: the fixed-capacity map refuses a new key when full. *)
Definition insert_entry (alloc : bool) (m : gmap string RevokedEntry) (k : string) (e : RevokedEntry)
    : result OrlError (gmap string RevokedEntry) :=
  if negb alloc && bool_decide (m !! k = None) && (NO_ALLOC_CAPACITY <=? size m)%nat
  then Err CapacityExceeded else Ok (<[k := e]> m).

Fixpoint read_entries (alloc : bool) (n : nat) (m : gmap string RevokedEntry) (s : list Z)
    : result OrlError (gmap string RevokedEntry * list Z) :=
  match n with
  | O => Ok (m, s)
  | S n' =>
    '(kind_byte, s) ← read_u8 s;
    kind ← ok_or (from_u8 kind_byte) BadKind;
    '(id, s) ← read_lp s;
    key ← make_key alloc kind id;
    m ← insert_entry alloc m key (mk_RevokedEntry kind);
    read_entries alloc n' m s
  end.

Section checker.
Variables (sha256 : list Z -> list Z) (Sig PK : Type).
Variable Signature_from_slice : list Z -> option Sig.
Variable PublicKey_from_slice : list Z -> option PK.
Variable verify : PK -> list Z -> Sig -> bool.

(** The loop runs [entry_count] times, each reading at least one byte: past
    the input it stops with an error, so a count above the bytes left is
    cut to one more than them. *)
Definition entry_rounds (entry_count : Z) (s : list Z) : nat :=
  Z.to_nat (Z.min entry_count (Z.of_nat (length s) + 1)).

Definition check_signature (prefix sig_bytes issuer_pub : list Z) : result OrlError unit :=
  let digest := sha256 prefix in
  sig ← ok_or (Signature_from_slice sig_bytes) BadSignature;
  pk ← ok_or (PublicKey_from_slice issuer_pub) BadPublicKey;
  if verify pk digest sig then Ok tt else Err BadSignature.

Definition new (alloc : bool) (list_bytes issuer_pub : list Z) (now : string) : result OrlError Checker :=
  '(version, s) ← read_u8 list_bytes;
  if negb (version =? ORL_VERSION) then Err UnsupportedVersion else
  '(_, s) ← read_lp s;
  '(issued_at, s) ← read_lp s;
  '(valid_until, s) ← read_lp s;
  if bytes_le valid_until (bytes_of_str now) then Err Expired else
  if bytes_lt (bytes_of_str now) issued_at then Err FutureDated else
  '(entry_count, s) ← read_u32 s;
  '(idx, s) ← read_entries alloc (entry_rounds entry_count s) ∅ s;
  if negb (length s =? SIG_LEN)%nat then Err Truncated else
  let body_end := (length list_bytes - length s)%nat in
  _ ← check_signature (take body_end list_bytes) s issuer_pub;
  Ok (mk_Checker idx).

Definition is_revoked (alloc : bool) (self : Checker) (kind : RevokedKind) (id : string) : bool :=
  match make_key alloc kind (bytes_of_str id) with
  | Err _ => false
  | Ok key => bool_decide (is_Some (index self !! key))
  end.

End checker.

(** ** The entry loop stops with the input *)

Lemma read_lp_shorter s b s' : read_lp s = Ok (b, s') -> (length s' < length s)%nat.
Proof.
  unfold read_lp, read_u32. destruct (Nat.ltb_spec (length s) 4); [done|]. simpl.
  case_test; [done|]. intros [= _ <-]. rewrite !length_drop. lia.
Qed.

Lemma read_entries_rounds alloc n m s : (length s < n)%nat ->
  read_entries alloc n m s = read_entries alloc (S (length s)) m s.
Proof.
  remember (length s) as k eqn:Hk. revert n m s Hk. induction k as [k IH] using lt_wf_ind; intros n m s -> Hn.
  destruct n as [|n]; [lia|]. cbn [read_entries]. destruct s as [|b s]; [done|]. cbn [read_u8 mbind result_bind length] in *.
  destruct (ok_or (from_u8 b) BadKind) as [kind|]; cbn [mbind result_bind]; [|done].
  destruct (read_lp s) as [[id s']|] eqn:E; cbn [mbind result_bind]; [|done]. apply read_lp_shorter in E.
  destruct (make_key alloc kind id); cbn [mbind result_bind]; [|done].
  destruct (insert_entry alloc m _ _); cbn [mbind result_bind]; [|done].
  rewrite (IH (length s') ltac:(lia) n) by (done || lia).
  by rewrite (IH (length s') ltac:(lia) (S (length s))) by (done || lia).
Qed.

(** ** The wire format of the module's documentation *)

Definition lp (b : list Z) : list Z := be_bytes 4 (Z.of_nat (length b)) ++ b.
Definition wire_entry (e : RevokedKind * string) : list Z := to_u8 e.1 :: lp (bytes_of_str e.2).
Record wire_list := mk_wire_list {
  w_issuer : string; w_issued_at : string; w_valid_until : string; w_entries : list (RevokedKind * string)
}.
Definition wire_prefix (l : wire_list) : list Z :=
  [ORL_VERSION] ++ lp (bytes_of_str (w_issuer l)) ++ lp (bytes_of_str (w_issued_at l)) ++
  lp (bytes_of_str (w_valid_until l)) ++ be_bytes 4 (Z.of_nat (length (w_entries l))) ++
  concat (wire_entry <$> w_entries l).

Definition short (s : string) : Prop := Z.of_nat (String.length s) < 2 ^ 32.
Record wire_ok (l : wire_list) : Prop := {
  ok_issuer : short (w_issuer l);
  ok_issued : short (w_issued_at l);
  ok_until : short (w_valid_until l);
  ok_count : Z.of_nat (length (w_entries l)) < 2 ^ 32;
  ok_entries : Forall (fun e => short e.2 /\ valid_utf8 (bytes_of_str e.2) = true) (w_entries l)
}.

Lemma read_u32_written n rest : 0 <= n < 2 ^ 32 -> read_u32 (be_bytes 4 n ++ rest) = Ok (n, rest).
Proof.
  intros Hn. unfold read_u32. rewrite length_app, length_be_bytes.
  destruct (Nat.ltb_spec (4 + length rest) 4); [lia|].
  rewrite take_app_length', drop_app_length' by (by rewrite length_be_bytes). by rewrite of_be_bytes_small.
Qed.

Lemma read_lp_written s rest : short s -> read_lp (lp (bytes_of_str s) ++ rest) = Ok (bytes_of_str s, rest).
Proof.
  unfold short. intros Hs. unfold read_lp, lp. rewrite <- app_assoc, read_u32_written by (rewrite length_bytes_of_str; lia).
  cbn [mbind result_bind]. rewrite length_app.
  destruct (Z.ltb_spec (Z.of_nat (length (bytes_of_str s) + length rest)) (Z.of_nat (length (bytes_of_str s)))); [lia|].
  rewrite Nat2Z.id. by rewrite take_app_length, drop_app_length.
Qed.

Definition key (e : RevokedKind * string) : string := as_str e.1 +:+ ":" +:+ e.2.

Lemma make_key_alloc k id : valid_utf8 (bytes_of_str id) = true -> make_key true k (bytes_of_str id) = Ok (key (k, id)).
Proof. intros Hu. unfold make_key. by rewrite Hu, str_of_bytes_of_str. Qed.

Lemma str_app_inj_l p s t : p +:+ s = p +:+ t -> s = t.
Proof. induction p as [|c p IH]; [done|]. rewrite !str_app_cons. intros [= H]. by apply IH. Qed.

Lemma key_inj e1 e2 : key e1 = key e2 -> e1 = e2.
Proof.
  destruct e1 as [k1 i1], e2 as [k2 i2]. unfold key. simpl.
  destruct k1, k2; simpl; try (intros H; discriminate H); rewrite <- !str_app_assoc; intros H;
    by apply str_app_inj_l in H as ->.
Qed.

(** The index after reading entries: what was there, and the keys read. *)
Lemma read_entries_written es m rest : Forall (fun e => short e.2 /\ valid_utf8 (bytes_of_str e.2) = true) es ->
  exists m', read_entries true (length es) m (concat (wire_entry <$> es) ++ rest) = Ok (m', rest) /\
    forall k, is_Some (m' !! k) <-> is_Some (m !! k) \/ exists e, e ∈ es /\ key e = k.
Proof.
  intros Hes. revert m. induction Hes as [|[kd id] es [Hs Hu] _ IH]; intros m.
  - exists m. split; [done|]. set_solver.
  - rewrite fmap_cons. cbn [length concat wire_entry fst snd read_entries]. rewrite <- app_assoc.
    unfold wire_entry at 1. cbn [fst snd app read_u8 mbind result_bind]. replace (ok_or (from_u8 (to_u8 kd)) BadKind) with (@Ok OrlError _ kd) by (by destruct kd).
    cbn [mbind result_bind]. rewrite read_lp_written by done. cbn [mbind result_bind].
    simpl in Hu. rewrite make_key_alloc by done. cbn [mbind result_bind insert_entry negb andb].
    destruct (IH (<[key (kd, id) := mk_RevokedEntry kd]> m)) as (m' & -> & Hm'). exists m'. split; [done|].
    intros k. rewrite Hm', lookup_insert_is_Some'. set_solver.
Qed.

Section exact.
Variables (sha256 : list Z -> list Z) (Sig PK : Type).
Variable Signature_from_slice : list Z -> option Sig.
Variable PublicKey_from_slice : list Z -> option PK.
Variable verify : PK -> list Z -> Sig -> bool.
#[local] Abbreviation load := (new sha256 Sig PK Signature_from_slice PublicKey_from_slice verify true).
#[local] Abbreviation signed := (check_signature sha256 Sig PK Signature_from_slice PublicKey_from_slice verify).

Lemma load_written l sg pub now : wire_ok l -> length sg = SIG_LEN -> exists m,
  load (wire_prefix l ++ sg) pub now =
    (if str_le (w_valid_until l) now then Err Expired
     else if str_lt now (w_issued_at l) then Err FutureDated
     else _ ← signed (wire_prefix l) sg pub; Ok (mk_Checker m)) /\
  forall k, is_Some (m !! k) <-> exists e, e ∈ w_entries l /\ key e = k.
Proof.
  intros [H1 H2 H3 H4 H5] Hsig.
  destruct (read_entries_written (w_entries l) ∅ sg H5) as (m & Hm & Hk). exists m. split.
  2: { intros k. rewrite Hk, lookup_empty. split; [intros [[? [=]]|?]; done|auto]. }
  set (full := wire_prefix l ++ sg). unfold new.
  assert (read_u8 full = Ok (ORL_VERSION, lp (bytes_of_str (w_issuer l)) ++ lp (bytes_of_str (w_issued_at l)) ++
    lp (bytes_of_str (w_valid_until l)) ++ be_bytes 4 (Z.of_nat (length (w_entries l))) ++
    concat (wire_entry <$> w_entries l) ++ sg)) as ->.
  { unfold full, wire_prefix. rewrite <- !app_assoc. done. }
  cbn [mbind result_bind]. change (negb (ORL_VERSION =? ORL_VERSION)) with false. cbv iota.
  do 3 (rewrite read_lp_written by done; cbn [mbind result_bind]).
  unfold bytes_le, bytes_lt. rewrite !str_of_bytes_of_str.
  destruct (str_le (w_valid_until l) now); [done|]. destruct (str_lt now (w_issued_at l)); [done|].
  rewrite read_u32_written by lia. cbn [mbind result_bind].
  assert (read_entries true (entry_rounds (Z.of_nat (length (w_entries l))) (concat (wire_entry <$> w_entries l) ++ sg)) ∅
    (concat (wire_entry <$> w_entries l) ++ sg) = Ok (m, sg)) as ->.
  { unfold entry_rounds. rewrite Z.min_l; [by rewrite Nat2Z.id|]. rewrite length_app, Hsig.
    enough (length (w_entries l) <= length (concat (wire_entry <$> w_entries l)))%nat by lia. clear.
    induction (w_entries l) as [|e es IH]; [done|]. rewrite fmap_cons. cbn [concat]. rewrite length_app. simpl. lia. }
  cbn [mbind result_bind]. rewrite Hsig, Nat.eqb_refl. cbn [negb].
  replace (take (length full - SIG_LEN) full) with (wire_prefix l); [done|].
  unfold full. rewrite length_app, Hsig, Nat.add_sub. by rewrite take_app_length.
Qed.

(** The checker loads a well-formed list exactly when it has been issued,
    its [valid_until] is still ahead and the issuer's signature over the
    prefix verifies; the loaded checker then reports exactly the listed
    targets as revoked.  At [valid_until] itself the list is refused. *)
Theorem orl_load_exact l sg pub now (Hl : wire_ok l) (Hsig : length sg = SIG_LEN) :
  ((exists c, load (wire_prefix l ++ sg) pub now = Ok c) <->
   str_lt now (w_valid_until l) = true /\ str_le (w_issued_at l) now = true /\
   signed (wire_prefix l) sg pub = Ok tt) /\
  (forall c k id, load (wire_prefix l ++ sg) pub now = Ok c -> valid_utf8 (bytes_of_str id) = true ->
   is_revoked true c k id = true <-> (k, id) ∈ w_entries l).
Proof.
  destruct (load_written l sg pub now Hl Hsig) as (m & -> & Hm). rewrite !str_le_lt.
  destruct (str_lt now (w_valid_until l)) eqn:Eu; simpl; [|split; [split; [by intros []|by intros []]|done]].
  destruct (str_lt now (w_issued_at l)) eqn:Ei; simpl; [split; [split; [by intros []|by intros (_ & [=] & _)]|done]|].
  destruct (signed (wire_prefix l) sg pub) as [[]|e] eqn:Es; simpl; [|split; [split; [by intros []|by intros (_ & _ & [=])]|done]].
  split; [split; [done|by eexists]|]. intros c k id [= <-] Hu. unfold is_revoked. rewrite make_key_alloc by done.
  rewrite bool_decide_eq_true. simpl. rewrite Hm. split; [intros (e & He & ->%key_inj); done|by eexists].
Qed.

End exact.

(** Third-party code for the witness. *)
Definition wl : wire_list :=
  mk_wire_list "root" "2026-01-01T00:00:00Z" "2027-01-01T00:00:00Z" [(KKey, "k1"); (KActor, "bad")].

Lemma orl_load_exact_witness : exists c,
  new (take 32) unit unit (fun _ => Some tt) (fun _ => Some tt) (fun _ _ _ => true) true
    (wire_prefix wl ++ repeat 0 64) [] "2026-06-01T00:00:00Z" = Ok c /\ is_revoked true c KKey "k1" = true.
Proof.
  assert (wire_ok wl) as Hl.
  { split; [vm_compute; reflexivity..|]. repeat (apply Forall_cons; split; [split; vm_compute; reflexivity|]).
    apply Forall_nil_2. }
  destruct (orl_load_exact (take 32) unit unit (fun _ => Some tt) (fun _ => Some tt) (fun _ _ _ => true)
    wl (repeat 0 64) [] "2026-06-01T00:00:00Z" Hl eq_refl) as [H1 H2].
  destruct (proj2 H1) as [c Hc]; [vm_compute; auto|]. exists c. split; [exact Hc|].
  apply (H2 c KKey "k1" Hc); [vm_compute; reflexivity|by left].
Defined.

End Orl.
